(* ===== verification/_CoqProject ===== *)
-Q . S2P
Prelude.v
PlcTypes.v
Float32.v
Float64.v
Text.v
Config.v
IoImage.v
IoMap.v
IoBuffer.v
ModbusPlan.v
ModbusConvert.v
ModbusCodec.v
ModbusDriver.v
ModbusBridge.v
ModbusDevice.v
ModbusTransfer.v
ModbusPlant.v
IrTypes.v
IrEncode.v
Spbc.v
FbTimers.v
FbBlocks.v
FbDispatch.v
VmValue.v
VmMemory.v
RetainLayout.v
RetainCodec.v
RetainMap.v
RetainStore.v
RetainSnapshot.v
VmExec.v
VmInv.v
IrVerify.v
VmLoad.v
VmVerified.v
AuthTypes.v
AuthLockout.v
AuthService.v
ScanMode.v
ScanParts.v
ScanState.v
ScanEngine.v
ScanSchedule.v
ScanInv.v
ScanOutputs.v
ScanSwap.v
ScanTrack.v
ScanLoop.v
ConfigUse.v
PkgManifest.v
PkgJson.v
PkgFields.v
PkgContainer.v
PkgCompat.v
Runtime.v
RuntimeRetain.v
RuntimeInv.v
CompAst.v
CompLayout.v
CompBind.v
CompGen.v
CompUnit.v
CompSem.v
CompAsm.v
CompRun.v
CompPrim.v
CompSpec.v
CompExpr.v
CompStore.v
CompCall.v
CompStmt.v
CompPlaces.v
CompTasks.v
CompCorrect.v
CompLex.v
CompParse.v
CompParseOk.v
CompPrint.v
CompReads.v
CompText.v
