(* ===== verification/Prelude.v ===== *)
(** * A verification of the soft PLC runtime

    The repository is a soft programmable logic controller in Rust: a compiler
    produces bytecode for a stack machine, a scan engine runs it cyclically
    against field I/O, retained variables survive restarts in an A/B store, and
    services around it configure, observe and update it. This library models the
    part a plant depends on, from the bytecode to the outputs and the retain
    files, and proves what makes it correct. Definitions follow the source
    function by function; sources are under src/crates/.

    ** The parts and their files

    - plc-ir (src/crates/plc-ir/src): [IrTypes] (value.rs, opcode.rs, module.rs,
      error.rs), [IrEncode] (encode.rs), [Spbc] (spbc.rs), [IrVerify] (verify.rs),
      [RetainLayout] (retain.rs).
    - plc-fb-primitives: [FbTimers] (timer.rs), [FbBlocks] (counter.rs, edge.rs,
      latch.rs, pid.rs), [FbDispatch] (dispatch.rs). REAL arithmetic is binary32 in
      [Float32], over the Standard Library's [SpecFloat]; the payload of a NaN a
      processor produces is the class [NanRule].
    - plc-vm: [VmValue] (value.rs and the operators of exec.rs), [VmMemory]
      (memory.rs), [VmExec] (exec.rs), [VmLoad] (load.rs and loading), with the
      invariant in [VmInv] and the agreement with the verifier in [VmVerified].
    - plc-retain: [RetainCodec] (crc.rs, codec.rs, layout.rs),
      [RetainMap] (map.rs), [RetainStore] (store.rs over a model of the directory
      and of crashes), [RetainSnapshot] (snapshot.rs as two interleaved machines).
    - plc-types, plc-io, plc-io-sim: [PlcTypes], [IoImage] (the process image, the
      force overlay, the driver trait as the class [IoDriver] with its laws
      [IoDriverLaws], the simulation driver as an instance), [IoMap] (map.rs),
      [IoBuffer] (double_buffer.rs).
    - plc-io-modbus: [ModbusPlan] (address.rs, validate.rs), [ModbusConvert] (convert.rs),
      [ModbusCodec] (codec.rs over the class [Stream] of connections), [ModbusDriver] (the
      worker of driver.rs), [ModbusBridge] (its invariant, and the scan-facing driver as an
      instance of [IoDriver]). [ModbusDevice] is a device that follows the protocol,
      against which [ModbusTransfer] and [ModbusPlant] state what a poll transfers.
    - plc-scan: [ScanMode] (mode.rs), [ScanParts] (watchdog.rs, hooks.rs, spsc.rs,
      telemetry.rs and the small files), [ScanState] and [ScanEngine] (engine.rs), with the
      schedule in [ScanSchedule], the invariant in [ScanInv], the field in [ScanOutputs],
      the hot swap in [ScanSwap] and the loop in [ScanLoop].
    - plc-config: [Config] (schema.rs, validate.rs) over [Text] (the standard library's
      text functions).
    - plc-auth: [AuthTypes] (role.rs, principal.rs, credential.rs, dual_control.rs,
      audit.rs, rate_limit.rs), [AuthLockout] (lockout.rs), [AuthService] (service.rs).
      f64 is [Float64], as [Float32]. [ConfigUse] compares the validation of a
      configuration with the checks of the crates that use it.

    - plc-compiler: [CompLex] (lex.rs), [CompParse] (parse.rs), [CompAst] (ast.rs,
      project.rs), [CompLayout] and [CompBind] (types, layouts of user function blocks,
      binding of variables, from bind.rs), [CompGen] (its [Codegen]), [CompUnit]
      ([compile_loaded] on parsed units). The front end is proved in [CompParseOk],
      [CompPrint], [CompReads] and [CompText]; the back end from [CompSem], a reference
      semantics of the trees, through [CompAsm] (code with labels), [CompRun] and
      [CompPrim] (what the machine does), [CompSpec], [CompExpr], [CompStore], [CompCall],
      [CompStmt] (what each emission means), [CompPlaces] and [CompTasks] (storage and
      tasks) to [CompCorrect].
    - plc-package: [PkgManifest] (manifest.rs), [PkgJson] (jcs.rs), [PkgFields] (the
      manifest as JSON), [PkgContainer] (format.rs, sign.rs, validate.rs, pack.rs),
      [PkgCompat] (compat.rs).
    - plc-runtime: [Runtime] (loader.rs, error.rs), the retained values it moves in
      [RuntimeRetain] and its invariant in [RuntimeInv], over [ScanTrack]: what the engine
      does to the programs it holds.

    ** How state and effects are modelled

    A Rust [Result] that may also panic is [res]; a method with [&mut self] is a
    computation [M] of the state and error monad, so what a failing method has
    already changed is kept. Machine integers are [Z] with their wrap-around or
    saturation written out. Shared atomics are either one linearisable cell
    ([ModeCell], the ring) or explicit interleavings (the snapshot buffers, the two
    critical sections of an authentication). The scan
    engine composes the others: it calls the interpreter on the armed program,
    reads and writes the process image, talks to a driver through the class
    [IoDriver], and is driven by readings of a clock; what runs beside it (clock,
    telemetry consumer, remote inputs) is the class [ScanEnv], over which every
    theorem quantifies.

    ** What the theorems show

    - A module the verifier accepts never corrupts the machine, never underflows its
      operand stack, never overflows it if it has no user function blocks, and panics
      only on one division ([VmVerified], [IrVerify], [VmInv]); every run ends within the instruction budget; typed memory,
      operators, encoding and container behave as specified ([VmMemory], [VmValue],
      [IrEncode], [Spbc]).
    - Timers, counters and PID meet their timing and range contracts ([FbTimers],
      [FbBlocks]).
    - The front end of the compiler ends on every source, unless the labels of its CASE
      ranges exceed the memory, and inverts a printer ([CompParseOk], [CompText]); a project of programs that compiles does, when the
      machine runs it, what its trees mean ([CompCorrect]).
    - A package that validates is what its builder makes, or else signed, framed and
      verified just the same; its signature fixes what runs; its compatibility hash
      names one interface ([PkgContainer], [PkgCompat]). Behind the loader, only
      verified code runs, a swap keeps the retained values, and a failed upload leaves
      the plant alone ([RuntimeInv]).
    - Retain data: a crash at any point of any history of flushes loses no
      committed image, except from a state the code itself degrades ([RetainStore]);
      damage is detected ([RetainCodec], [RetainStore]); records and layouts map exactly
      ([RetainCodec], [RetainMap], [RetainLayout]); the snapshot buffer hands over whole images until
      its retries run out ([RetainSnapshot]).
    - The scan engine: FAULT latches until a reset; failures fault within the same
      invocation; the outputs that reach the field are the safe states whenever
      they must be and otherwise follow the priority of forces, module quality and
      program; the most urgent due task runs; a hot swap is atomic; the loop
      catches up and returns; the engine stays well-formed and panics only in a run of one
      of its programs ([ScanMode], [ScanOutputs], [ScanInv], [ScanSwap], [ScanTrack],
      [ScanLoop]); its watchdog is its windowed
      reading and its telemetry ring is a lossy queue ([ScanParts]).
    - I/O maps resolve to disjoint slots ([IoMap]), and readers of the input double
      buffer get snapshots whole, as they were handed to [publish] ([IoBuffer]).
    - A Modbus module that passes validation is polled without a panic whatever its
      peer sends ([ModbusBridge]); against a device that follows the protocol, the
      values the scan commands are in the device after the next poll, at the planned
      addresses and no other, and the device's inputs are in the scan's image
      ([ModbusPlant]).
    - Authentication lets in exactly whom the configuration says, and brute force is
      slow, by a bound that counts the calls in parallel ([AuthService]); a configuration that validates is accepted by the crates
      that use it, and in production asks for credentials ([ConfigUse]).

    ** Fuel and bounds

    Fuel is only used where the source loops or recurses on what it consumes:
    [VmExec.run_at] (the instruction budget), [IrVerify.verify_entry] (one visit per
    address), [ScanEngine.run_due] (the backlog of due times),
    [AuthLockout.evict_for_capacity] (the addresses tracked), [CompLex.lex] (the length of
    the source) and [CompParse.parse_tokens] (the number of tokens). Each has a theorem
    that its fuel is enough.

    ** Parameters

    Third-party code is a class with the laws the source relies on: serde_json's reader
    and writer, Ed25519, the semver crate ([PkgManifest], [PkgJson], [PkgContainer]) and
    SHA-256 ([Sha256]); a compact JSON reader in [PkgJson] shows that the laws of the
    first can hold. How many labels of CASE ranges fit in memory is
    [CompParse.LabelMemory].

    ** Not modelled

    - Message texts of errors are abridged or left out, and so are source spans in the
      compiler. Report counters are unbounded where they cannot reach their width.
    - The snapshot buffer and the mode cell are sequentially consistent; the loader's
      own publishes run to their end. File reads either give the file or fail as
      absent; [create_dir_all] and directory syncs do nothing.
    - Reading YAML, TOML and JSON text is serde's; the value a float of a JSON text has
      is left open. The monotonic clock and device I/O are outside; calls of the
      authentication service are sequential.
    - The correctness of the compiler leaves arrays and function blocks of the user's own
      open, as well as what [XUndefined] in [CompSem] marks. The depth of the native
      stack of the parser is not bounded.
    - A session of the loader has one preparation pending at a time, and no activation
      meanwhile, as routes/programs.rs sees to by the phase.
    - Of the Modbus worker, the thread, connecting and sleeping are outside: a poll
      takes what connecting yields and the clock's readings.
    - The text assembler of plc-ir (a developer's tool), the REST routes and files of
      plc-api, MQTT telemetry, the GPIO driver (ioctl calls on a character device), the
      scan thread and the supervisor (start-up and wiring) are not modelled. *)
From Stdlib Require Export ZArith Lia Bool List Sorting.Sorted.
From stdpp Require Export base tactics option list strings gmap pretty.
#[global] Open Scope Z_scope.

(** ** Outcomes of Rust functions *)

(** The outcome of a Rust function returning [Result<A, E>] that may also
    panic (an out-of-range index, a failed assertion, an overflowing
    division). *)
Inductive res (E A : Type) : Type :=
  | Ok (a : A)
  | Err (e : E)
  | Panic.
Arguments Ok {E A} a.
Arguments Err {E A} e.
Arguments Panic {E A}.

#[export] Instance res_ret {E} : MRet (res E) := fun A a => Ok a.
#[export] Instance res_bind {E} : MBind (res E) := fun A B f m =>
  match m with
  | Ok a => f a
  | Err e => Err e
  | Panic => Panic
  end.

(** A method taking [&mut self]: it threads the state, and the state it has
    reached survives an error. *)
Definition M (S E A : Type) : Type := S -> S * res E A.

#[export] Instance M_ret {S E} : MRet (M S E) := fun A a s => (s, Ok a).
#[export] Instance M_bind {S E} : MBind (M S E) := fun A B f m s =>
  match m s with
  | (s', Ok a) => f a s'
  | (s', Err e) => (s', Err e)
  | (s', Panic) => (s', Panic)
  end.

Definition m_get {S E} : M S E S := fun s => (s, Ok s).
Definition m_gets {S E A} (f : S -> A) : M S E A := fun s => (s, Ok (f s)).
Definition m_modify {S E} (f : S -> S) : M S E unit := fun s => (f s, Ok tt).
Definition m_err {S E A} (e : E) : M S E A := fun s => (s, Err e).
Definition m_panic {S E A} : M S E A := fun s => (s, Panic).
Definition m_lift {S E A} (r : res E A) : M S E A := fun s => (s, r).

(** A [for] loop over [l]. *)
Fixpoint m_each {S E A} (l : list A) (body : A -> M S E unit) : M S E unit :=
  match l with
  | [] => mret tt
  | x :: l => body x ;; m_each l body
  end.

(** [Result::map_err]. *)
Definition map_err {E F A} (f : E -> F) (r : res E A) : res F A :=
  match r with
  | Ok a => Ok a
  | Err e => Err (f e)
  | Panic => Panic
  end.

(** [Result::is_ok]. *)
Definition is_ok {E A} (r : res E A) : bool := match r with Ok _ => true | _ => false end.

(** [Option::ok_or]. *)
Definition ok_or {E A} (o : option A) (e : E) : res E A :=
  match o with Some a => Ok a | None => Err e end.

(** Indexing a slice or array: out of range panics. *)
Definition index {E A} (l : list A) (i : nat) : res E A :=
  match l !! i with Some a => Ok a | None => Panic end.

Lemma res_bind_Ok {E A B} (m : res E A) (f : A -> res E B) b :
  (m ≫= f) = Ok b <-> exists a, m = Ok a /\ f a = Ok b.
Proof. destruct m; split; naive_solver. Qed.

Lemma res_bind_Panic {E A B} (m : res E A) (f : A -> res E B) :
  (m ≫= f) = Panic <-> m = Panic \/ exists a, m = Ok a /\ f a = Panic.
Proof. destruct m; split; naive_solver. Qed.

Lemma M_bind_Ok {S E A B} (m : M S E A) (f : A -> M S E B) s s' b :
  (m ≫= f) s = (s', Ok b) <-> exists a s1, m s = (s1, Ok a) /\ f a s1 = (s', Ok b).
Proof.
  unfold mbind, M_bind. destruct (m s) as [s1 [a|e|]]; split; intros H; naive_solver.
Qed.

Lemma M_bind_assoc {S E A B C} (m : M S E A) (f : A -> M S E B) (k : B -> M S E C) s :
  ((m ≫= f) ≫= k) s = (m ≫= (fun a => f a ≫= k)) s.
Proof. unfold mbind, M_bind. by destruct (m s) as [s1 [a|e|]]. Qed.

Lemma m_modify_Ok {S E A} (f : S -> S) (a b : A) s s' :
  ((m_modify f ;; mret a) : M S E A) s = (s', Ok b) -> s' = f s /\ b = a.
Proof. by intros [= <- <-]. Qed.

Lemma ok_or_Ok {E A} (o : option A) (e : E) a : ok_or o e = Ok a <-> o = Some a.
Proof. destruct o; split; naive_solver. Qed.

Lemma Ok_inj {E A} (a b : A) : @Ok E A a = Ok b -> a = b.
Proof. congruence. Qed.

(** Inversion of a successful sequence of fallible steps. *)
Ltac inv_res :=
  repeat match goal with
  | H : (_ ≫= _) = Ok _ |- _ => apply res_bind_Ok in H as (? & ? & ?)
  | H : mret _ = Ok _ |- _ => injection H as H
  | H : Ok _ = Ok _ |- _ => apply Ok_inj in H
  | H : Err _ = Ok _ |- _ => discriminate H
  | H : Panic = Ok _ |- _ => discriminate H
  | H : ok_or _ _ = Ok _ |- _ => apply ok_or_Ok in H
  end; subst.

(** Resolve the first integer comparison of the goal, which [tac] decides. *)
Tactic Notation "ltb_false" "by" tactic3(tac) :=
  match goal with
  | |- context [?a <? ?b] => rewrite (proj2 (Z.ltb_ge a b)) by tac
  end.
Tactic Notation "ltb_true" "by" tactic3(tac) :=
  match goal with
  | |- context [?a <? ?b] => rewrite (proj2 (Z.ltb_lt a b)) by tac
  end.

(** ** Machine integers *)

Definition wrap_u (w x : Z) : Z := x mod 2 ^ w.
Definition wrap_s (w x : Z) : Z := (x + 2 ^ (w - 1)) mod 2 ^ w - 2 ^ (w - 1).
Definition u_range (w x : Z) : Prop := 0 <= x < 2 ^ w.
Definition s_range (w x : Z) : Prop := - 2 ^ (w - 1) <= x < 2 ^ (w - 1).
Definition sat_add_u (w x y : Z) : Z := Z.min (x + y) (2 ^ w - 1).
(** [saturating_sub] of unsigned integers. *)
Definition sat_sub_u (x y : Z) : Z := Z.max 0 (x - y).

Lemma wrap_u_range w x : 0 <= w -> u_range w (wrap_u w x).
Proof. intros. unfold u_range, wrap_u. apply Z.mod_pos_bound. lia. Qed.

Lemma wrap_u_small w x : u_range w x -> wrap_u w x = x.
Proof. intros. by apply Z.mod_small. Qed.

Lemma pow2_half w : 0 < w -> 2 ^ w = 2 * 2 ^ (w - 1).
Proof. intros. replace w with (Z.succ (w - 1)) at 1 by lia. rewrite Z.pow_succ_r; lia. Qed.

Lemma wrap_s_range w x : 0 < w -> s_range w (wrap_s w x).
Proof.
  intros Hw. unfold s_range, wrap_s.
  pose proof (Z.mod_pos_bound (x + 2 ^ (w - 1)) (2 ^ w) ltac:(lia)).
  rewrite (pow2_half w) in * by done. lia.
Qed.

Lemma wrap_s_small w x : 0 < w -> s_range w x -> wrap_s w x = x.
Proof.
  intros Hw Hx. unfold wrap_s, s_range in *.
  rewrite Z.mod_small; [lia|]. rewrite (pow2_half w) by done. lia.
Qed.

Lemma wrap_s_u w x : 0 < w -> wrap_s w (wrap_u w x) = wrap_s w x.
Proof.
  intros. unfold wrap_s, wrap_u. by rewrite Zplus_mod_idemp_l.
Qed.

Lemma wrap_u_s w x : 0 < w -> wrap_u w (wrap_s w x) = wrap_u w x.
Proof.
  intros. unfold wrap_s, wrap_u.
  rewrite Zminus_mod_idemp_l. f_equal. lia.
Qed.

Lemma wrap_s_wrap_u_id w x : 0 < w -> s_range w x -> wrap_s w (wrap_u w x) = x.
Proof. intros. rewrite wrap_s_u by done. by apply wrap_s_small. Qed.

(** Packing two fields into a word. *)
Lemma lor_shiftl_add n a b : 0 <= n -> u_range n b -> Z.lor (Z.shiftl a n) b = a * 2 ^ n + b.
Proof.
  intros Hn Hb. unfold u_range in Hb. rewrite <-Z.add_nocarry_lor.
  - by rewrite Z.shiftl_mul_pow2.
  - apply Z.bits_inj'. intros i Hi. rewrite Z.land_spec, Z.bits_0.
    destruct (decide (i < n)).
    + by rewrite Z.shiftl_spec_low.
    + replace b with (b mod 2 ^ n) by (by apply Z.mod_small).
      rewrite Z.mod_pow2_bits_high by lia. apply andb_false_r.
Qed.

Lemma land_mask n x : 0 <= n -> Z.land x (2 ^ n - 1) = x mod 2 ^ n.
Proof. intros. rewrite <-Z.land_ones by done. f_equal. rewrite Z.ones_equiv. lia. Qed.

Lemma shiftr_add_low n a b : 0 <= n -> u_range n b -> Z.shiftr (a * 2 ^ n + b) n = a.
Proof.
  intros Hn Hb. unfold u_range in Hb. rewrite Z.shiftr_div_pow2 by done.
  rewrite Z.add_comm, Z.div_add by lia. rewrite Z.div_small by lia. lia.
Qed.

Lemma land_add_low n a b : 0 <= n -> u_range n b -> Z.land (a * 2 ^ n + b) (2 ^ n - 1) = b.
Proof.
  intros Hn Hb. unfold u_range in Hb. rewrite land_mask by done.
  rewrite Z.add_comm, Z.mod_add by lia. by apply Z.mod_small.
Qed.

(** ** Bytes, little-endian integers *)

Abbreviation bytes := (list Z).

Definition byte_range (b : Z) : Prop := 0 <= b < 256.
Abbreviation bytes_ok := (Forall byte_range).

(** [to_le_bytes] of an [n]-byte integer. *)
Fixpoint le_split (n : nat) (z : Z) : bytes :=
  match n with
  | O => []
  | S n => z mod 256 :: le_split n (z / 256)
  end.

(** [from_le_bytes]. *)
Fixpoint le_combine (bs : bytes) : Z :=
  match bs with
  | [] => 0
  | b :: bs => b + 256 * le_combine bs
  end.

Lemma length_le_split n z : length (le_split n z) = n.
Proof. revert z. induction n; intros; simpl; auto. Qed.

Lemma le_split_ok n z : bytes_ok (le_split n z).
Proof.
  revert z. induction n; intros z; simpl; constructor; auto.
  unfold byte_range. apply Z.mod_pos_bound. lia.
Qed.

Lemma pow256_S (n : nat) : 2 ^ (8 * Z.of_nat (S n)) = 256 * 2 ^ (8 * Z.of_nat n).
Proof.
  rewrite Nat2Z.inj_succ. replace (8 * Z.succ (Z.of_nat n)) with (8 + 8 * Z.of_nat n) by lia.
  rewrite Z.pow_add_r by lia. done.
Qed.

Lemma le_combine_split n z : le_combine (le_split n z) = z mod 2 ^ (8 * Z.of_nat n).
Proof.
  revert z. induction n as [|n IH]; intros z.
  - simpl. by rewrite Z.mod_1_r.
  - cbn [le_split le_combine]. rewrite IH, pow256_S.
    rewrite Z.rem_mul_r by lia. done.
Qed.

Lemma le_combine_split_id n z : u_range (8 * Z.of_nat n) z -> le_combine (le_split n z) = z.
Proof. intros H. rewrite le_combine_split. by apply Z.mod_small. Qed.

Lemma le_combine_bound bs : bytes_ok bs -> 0 <= le_combine bs < 2 ^ (8 * Z.of_nat (length bs)).
Proof.
  induction 1 as [|b bs Hb _ IH]; [simpl; lia|].
  cbn [le_combine length]. rewrite pow256_S. unfold byte_range in Hb. lia.
Qed.

Lemma le_split_combine bs : bytes_ok bs -> le_split (length bs) (le_combine bs) = bs.
Proof.
  induction 1 as [|b bs Hb _ IH]; [done|].
  cbn [le_combine length le_split]. unfold byte_range in Hb.
  replace (b + 256 * le_combine bs) with (b + le_combine bs * 256) by lia.
  rewrite Z.mod_add, Z.mod_small, Z.div_add, Z.div_small by lia.
  rewrite Z.add_0_l. by rewrite IH.
Qed.

(** [&bytes[off..off + len]] when it is known to be in range. *)
Definition slice {A} (l : list A) (off len : nat) : list A := take len (drop off l).

Lemma length_slice {A} (l : list A) off len :
  (off + len <= length l)%nat -> length (slice l off len) = len.
Proof. intros. unfold slice. rewrite length_take, length_drop. lia. Qed.

Lemma slice_app_r {A} (l k : list A) off len :
  off = length l -> slice (l ++ k) off len = take len k.
Proof. intros ->. unfold slice. by rewrite drop_app_length. Qed.

Lemma slice_ok (l : bytes) off len : bytes_ok l -> bytes_ok (slice l off len).
Proof. intros. unfold slice. by apply Forall_take, Forall_drop. Qed.

Lemma slice_lookup {A} (l : list A) off len (i : nat) :
  (i < len)%nat -> slice l off len !! i = l !! (off + i)%nat.
Proof. intros. unfold slice. rewrite lookup_take_lt by done. by rewrite lookup_drop. Qed.

(** [dst[off..off + src.len()].copy_from_slice(src)] when it is in range. *)
Definition blit {A} (dst : list A) (off : nat) (src : list A) : list A :=
  take off dst ++ src ++ drop (off + length src) dst.

Lemma length_blit {A} (dst src : list A) off :
  (off + length src <= length dst)%nat -> length (blit dst off src) = length dst.
Proof. intros. unfold blit. rewrite !length_app, length_take, length_drop. lia. Qed.

Lemma slice_blit {A} (dst src : list A) off :
  (off + length src <= length dst)%nat -> slice (blit dst off src) off (length src) = src.
Proof.
  intros. unfold slice, blit.
  rewrite drop_app_ge by (rewrite length_take; lia).
  rewrite length_take. replace (off - off `min` length dst)%nat with 0%nat by lia.
  rewrite drop_0. by rewrite take_app_length.
Qed.

Lemma blit_lookup_out {A} (dst src : list A) off (i : nat) :
  (off + length src <= length dst)%nat ->
  (i < off \/ off + length src <= i)%nat ->
  blit dst off src !! i = dst !! i.
Proof.
  intros Hlen Hi. unfold blit. destruct Hi as [Hi|Hi].
  - rewrite lookup_app_l by (rewrite length_take; lia). by rewrite lookup_take_lt.
  - rewrite lookup_app_r by (rewrite length_take; lia).
    rewrite lookup_app_r by (rewrite length_take; lia).
    rewrite lookup_drop, length_take. f_equal. lia.
Qed.

Lemma slice_blit_out {A} (dst src : list A) off o n :
  (off + length src <= length dst)%nat ->
  (o + n <= off \/ off + length src <= o)%nat ->
  slice (blit dst off src) o n = slice dst o n.
Proof.
  intros Hlen Ho. apply list_eq. intros i.
  destruct (decide (i < n)%nat) as [Hi|Hi].
  - rewrite !slice_lookup by done. apply blit_lookup_out; [done|lia].
  - unfold slice. rewrite !lookup_take_ge by lia. done.
Qed.

Lemma blit_app_l {A} (l k src : list A) off :
  (off + length src <= length l)%nat -> blit (l ++ k) off src = blit l off src ++ k.
Proof.
  intros H. unfold blit. rewrite take_app_le, drop_app_le by lia. by rewrite <-!app_assoc.
Qed.

Lemma blit_app_r {A} (l k src : list A) off :
  (length l <= off)%nat -> blit (l ++ k) off src = l ++ blit k (off - length l) src.
Proof.
  intros H. unfold blit. rewrite take_app_ge, drop_app_ge by lia. rewrite <-app_assoc.
  by replace (off + length src - length l)%nat with (off - length l + length src)%nat by lia.
Qed.

Lemma slice_app_l {A} (l k : list A) off len :
  (off + len <= length l)%nat -> slice (l ++ k) off len = slice l off len.
Proof.
  intros H. unfold slice. rewrite drop_app_le by lia. rewrite take_app_le; [done|].
  rewrite length_drop. lia.
Qed.

Lemma slice_app_ge {A} (l k : list A) off len :
  (length l <= off)%nat -> slice (l ++ k) off len = slice k (off - length l) len.
Proof. intros H. unfold slice. by rewrite drop_app_ge by lia. Qed.

(** The UTF-8 bytes of an ASCII literal. *)
Definition bstr (s : string) : bytes :=
  map (fun c => Z.of_N (Ascii.N_of_ascii c)) (String.list_ascii_of_string s).

(** A [match] of a [&str] on literals, arms in source order. *)
Fixpoint str_match {A} (s : string) (arms : list (string * A)) : option A :=
  match arms with
  | [] => None
  | (k, a) :: arms => if String.eqb s k then Some a else str_match s arms
  end.

Lemma str_match_Some {A} s (arms : list (string * A)) a :
  str_match s arms = Some a -> (s, a) ∈ arms.
Proof.
  induction arms as [|[k b] arms IH]; simpl; [done|].
  destruct (String.eqb_spec s k) as [->|]; intros H.
  - simplify_eq. left.
  - right. auto.
Qed.

(** [str::from_utf8] succeeds on exactly these byte sequences. *)
Definition in_rangeb (lo hi b : Z) : bool := (lo <=? b) && (b <=? hi).

Fixpoint utf8_valid (l : bytes) : bool :=
  match l with
  | [] => true
  | b0 :: l1 =>
      if in_rangeb 0 0x7F b0 then utf8_valid l1
      else match l1 with
      | [] => false
      | b1 :: l2 =>
          if in_rangeb 0xC2 0xDF b0 then in_rangeb 0x80 0xBF b1 && utf8_valid l2
          else match l2 with
          | [] => false
          | b2 :: l3 =>
              if in_rangeb 0xE0 0xEF b0 then
                in_rangeb (if b0 =? 0xE0 then 0xA0 else 0x80)
                          (if b0 =? 0xED then 0x9F else 0xBF) b1 &&
                in_rangeb 0x80 0xBF b2 && utf8_valid l3
              else match l3 with
              | [] => false
              | b3 :: l4 =>
                  in_rangeb 0xF0 0xF4 b0 &&
                  in_rangeb (if b0 =? 0xF0 then 0x90 else 0x80)
                            (if b0 =? 0xF4 then 0x8F else 0xBF) b1 &&
                  in_rangeb 0x80 0xBF b2 && in_rangeb 0x80 0xBF b3 && utf8_valid l4
              end
          end
      end
  end.

(** The bytes of a [String] are bytes. *)
Lemma utf8_valid_ok bs : utf8_valid bs = true -> bytes_ok bs.
Proof.
  assert (Hr : forall lo hi b, 0 <= lo -> hi < 256 -> in_rangeb lo hi b = true -> byte_range b).
  { unfold in_rangeb, byte_range. intros lo hi b ? ? H. apply andb_true_iff in H as [?%Z.leb_le ?%Z.leb_le]. lia. }
  remember (length bs) as n eqn:Hn. assert (length bs <= n)%nat as Hle by lia. clear Hn.
  revert bs Hle. induction n as [|n IH]; intros bs Hle H; [by destruct bs; [constructor|cbn in Hle; lia]|].
  destruct bs as [|b0 bs]; [constructor|]. cbn [utf8_valid length] in *.
  repeat match goal with
  | H : (if ?c then _ else _) = true |- _ => destruct c eqn:?
  | H : match ?l with [] => _ | _ => _ end = true |- _ => destruct l; [discriminate H|]
  | H : _ && _ = true |- _ => apply andb_true_iff in H as [? ?]
  end; cbn [length] in *.
  all: repeat (apply Forall_cons_2; [by eapply Hr; [| |eassumption]; try (repeat case_match); lia|]).
  all: apply IH; [lia|assumption].
Qed.

(** [str::trim_start]: white space as Unicode has it. *)
Fixpoint trim_start (s : bytes) : bytes :=
  match s with
  | [] => []
  | b0 :: s1 =>
      if in_rangeb 9 13 b0 || (b0 =? 32) then trim_start s1
      else match s1 with
      | [] => s
      | b1 :: s2 =>
          if (b0 =? 0xC2) && ((b1 =? 0x85) || (b1 =? 0xA0)) then trim_start s2
          else match s2 with
          | [] => s
          | b2 :: s3 =>
              if ((b0 =? 0xE1) && (b1 =? 0x9A) && (b2 =? 0x80)) ||
                 ((b0 =? 0xE2) && (b1 =? 0x80) &&
                   (in_rangeb 0x80 0x8A b2 || (b2 =? 0xA8) || (b2 =? 0xA9) || (b2 =? 0xAF))) ||
                 ((b0 =? 0xE2) && (b1 =? 0x81) && (b2 =? 0x9F)) ||
                 ((b0 =? 0xE3) && (b1 =? 0x80) && (b2 =? 0x80))
              then trim_start s3 else s
          end
      end
  end.

(** [s.trim().is_empty()]. *)
Definition is_blank (s : bytes) : bool := match trim_start s with [] => true | _ => false end.

(** [str::trim_end]: a blank suffix starts at a character boundary, since no
    white space starts with a continuation byte. *)
Fixpoint trim_end (s : bytes) : bytes :=
  match s with
  | [] => []
  | b :: s' => if is_blank s then [] else b :: trim_end s'
  end.

Definition trim (s : bytes) : bytes := trim_end (trim_start s).

(** The decimal digits of a [usize], as [format!] prints it. *)
Definition decimal (n : nat) : bytes := bstr (pretty (N.of_nat n)).

(** [starts_with] on byte strings. *)
Definition starts_with (p s : bytes) : bool := bool_decide (take (length p) s = p).

(** [strip_prefix] on byte strings. *)
Definition strip_prefix (p s : bytes) : option bytes :=
  if starts_with p s then Some (drop (length p) s) else None.

Definition len {A} (l : list A) : Z := Z.of_nat (length l).

Lemma len_app {A} (l k : list A) : len (l ++ k) = len l + len k.
Proof. unfold len. rewrite length_app. lia. Qed.

Lemma len_nonneg {A} (l : list A) : 0 <= len l.
Proof. unfold len. lia. Qed.

Lemma len_le_split n z : len (le_split n z) = Z.of_nat n.
Proof. unfold len. by rewrite length_le_split. Qed.

(** A slice whose bounds are [usize] values. *)
Definition zslice {A} (l : list A) (off n : Z) : list A := slice l (Z.to_nat off) (Z.to_nat n).

Lemma zslice_app {A} (pre l post : list A) off n :
  off = len pre -> n = len l -> zslice (pre ++ l ++ post) off n = l.
Proof.
  intros -> ->. unfold zslice, len. rewrite !Nat2Z.id, slice_app_r by done.
  by apply take_app_length.
Qed.

Lemma len_zslice {A} (l : list A) off n :
  0 <= off -> 0 <= n -> off + n <= len l -> len (zslice l off n) = n.
Proof. intros. unfold zslice, len in *. rewrite length_slice; lia. Qed.

Lemma List_last_cons {A} (x : A) l d : List.last (x :: l) d = List.last l x.
Proof.
  revert x d. induction l as [|y l IH]; intros x d; [done|].
  change (List.last (y :: l) d = List.last (y :: l) x). by rewrite !IH.
Qed.

Lemma filter_none {A} (P : A -> Prop) `{!forall x, Decision (P x)} (l : list A) :
  (forall x, x ∈ l -> ~ P x) -> filter P l = [].
Proof.
  induction l as [|x l IH]; intros HP; [done|]. rewrite filter_cons. rewrite decide_False.
  - apply IH. intros y Hy. apply HP. by right.
  - apply HP. left.
Qed.

(** ** Ordering of byte strings, sorting *)

Fixpoint bytes_cmp (a b : bytes) : comparison :=
  match a, b with
  | [], [] => Datatypes.Eq
  | [], _ :: _ => Datatypes.Lt
  | _ :: _, [] => Datatypes.Gt
  | x :: a, y :: b =>
      match x ?= y with
      | Datatypes.Eq => bytes_cmp a b
      | c => c
      end
  end.

Definition name_lt (a b : bytes) : Prop := bytes_cmp a b = Datatypes.Lt.

Lemma bytes_cmp_eq a b : bytes_cmp a b = Datatypes.Eq <-> a = b.
Proof.
  revert b. induction a as [|x a IH]; intros [|y b]; simpl; try (split; congruence).
  destruct (Z.compare_spec x y) as [->|H|H].
  - rewrite IH. split; congruence.
  - split; [done|]. intros [= -> _]. lia.
  - split; [done|]. intros [= -> _]. lia.
Qed.

Lemma bytes_cmp_antisym a b : bytes_cmp b a = CompOpp (bytes_cmp a b).
Proof.
  revert b. induction a as [|x a IH]; intros [|y b]; simpl; try done.
  rewrite (Z.compare_antisym x y). destruct (x ?= y) eqn:E; simpl; auto.
Qed.

Lemma name_lt_trans a b c : name_lt a b -> name_lt b c -> name_lt a c.
Proof.
  unfold name_lt. revert b c. induction a as [|x a IH]; intros [|y b] [|z c]; simpl; try done.
  destruct (Z.compare_spec x y) as [->|Hxy|Hxy]; [|intros _|done].
  - destruct (y ?= z); try done. apply IH.
  - destruct (Z.compare_spec y z) as [->|Hyz|Hyz]; try done; intros _;
      assert (x ?= z = Datatypes.Lt) as -> by (apply Z.compare_lt_iff; lia); done.
Qed.

Lemma name_lt_irrefl a : ~ name_lt a a.
Proof. unfold name_lt. rewrite (proj2 (bytes_cmp_eq a a)); done. Qed.

(** [sort_by], which is stable: an element goes before its equals. [gt x y] says
    [x] compares greater than [y]. *)
Section Sort.
Context {A : Type} (gt : A -> A -> bool).

Fixpoint insert_by (x : A) (l : list A) : list A :=
  match l with
  | [] => [x]
  | y :: l' => if gt x y then y :: insert_by x l' else x :: l
  end.

Definition sort_by (l : list A) : list A := foldr insert_by [] l.

(** Some pair of neighbours, as [windows(2)] lists them, satisfies [bad]. *)
Fixpoint has_window (bad : A -> A -> bool) (l : list A) : bool :=
  match l with
  | x :: (y :: _) as l' => bad x y || has_window bad l'
  | _ => false
  end.

Lemma insert_by_perm x l : insert_by x l ≡ₚ x :: l.
Proof. induction l as [|y l IH]; simpl; [done|]. case_match; [|done]. rewrite IH. constructor. Qed.

Lemma sort_by_perm l : sort_by l ≡ₚ l.
Proof. induction l as [|x l IH]; simpl; [done|]. by rewrite insert_by_perm, IH. Qed.

Context (gt_trans : forall x y z, gt x y = false -> gt y z = false -> gt x z = false).
Context (gt_asym : forall x y, gt x y = true -> gt y x = false).

Lemma sort_by_sorted l : StronglySorted (fun x y => gt x y = false) (sort_by l).
Proof.
  induction l as [|x l IH]; simpl; [constructor|].
  induction IH as [|y k Hk IHk Hy]; simpl; [repeat constructor|].
  destruct (gt x y) eqn:E.
  - constructor; [done|]. rewrite insert_by_perm. constructor; [by apply gt_asym|done].
  - constructor; [by constructor|]. constructor; [done|].
    eapply Forall_impl; [exact Hy|]. intros z Hz. cbn in Hz. by eapply gt_trans.
Qed.

(** Checking the neighbours of a sorted list checks all pairs. *)
Lemma has_window_false (R P : A -> A -> Prop) (bad : A -> A -> bool) l :
  (forall x y, bad x y = false -> R x y -> P x y) ->
  (forall x y z, P x y -> P y z -> P x z) ->
  StronglySorted R l -> has_window bad l = false -> StronglySorted P l.
Proof.
  intros HP Htr Hs. induction Hs as [|x l Hs IH Hx]; intros Hw; [constructor|].
  destruct l as [|y l]; [repeat constructor|]. cbn [has_window] in Hw.
  apply orb_false_iff in Hw as [Hb Hw]. specialize (IH Hw). constructor; [done|].
  apply Forall_cons in Hx as [Hxy Hx]. inversion IH as [|? ? _ Hy]; subst. constructor; [by apply HP|].
  eapply Forall_impl; [exact Hy|]. intros z Hz. eapply Htr; [|exact Hz]. by apply HP.
Qed.

Lemma has_window_true (P : A -> A -> Prop) (bad : A -> A -> bool) l :
  (forall x y, bad x y = true -> ~ P x y) -> StronglySorted P l -> has_window bad l = false.
Proof.
  intros HP Hs. induction Hs as [|x l Hs IH Hx]; [done|].
  destruct l as [|y l]; [done|]. cbn [has_window]. apply Forall_cons in Hx as [Hxy _].
  destruct (bad x y) eqn:E; [|done]. exfalso. by eapply HP.
Qed.
End Sort.

Create HintDb plc.
#[export] Hint Resolve le_split_ok slice_ok : plc.
#[export] Hint Rewrite @length_le_split @length_app : plc.
