(* ===== verification/PlcTypes.v ===== *)
(** * Modes, phases and quality

    Crate [plc-types], src/crates/plc-types/src/mode.rs, quality.rs, image.rs: the
    operating mode, the program phase and the quality plane shared by the scan
    engine, the drivers and the services. *)
From S2P Require Import Prelude.

(** ** mode.rs *)

Inductive OperatingMode := Stop | Run | Fault | Sim.
Inductive ProgramPhase := Idle | Validating | Armed | Swapping.

#[export] Instance OperatingMode_eq_dec : EqDecision OperatingMode.
Proof. solve_decision. Defined.
#[export] Instance ProgramPhase_eq_dec : EqDecision ProgramPhase.
Proof. solve_decision. Defined.

(** [eq_ignore_ascii_case]. *)
Definition ascii_lower (b : Z) : Z := if in_rangeb 65 90 b then b + 32 else b.
Definition eq_ignore_ascii_case (a b : bytes) : bool :=
  bool_decide (map ascii_lower a = map ascii_lower b).

Module Mode.
Definition as_str (m : OperatingMode) : bytes :=
  match m with
  | Stop => bstr "STOP" | Run => bstr "RUN" | Fault => bstr "FAULT" | Sim => bstr "SIM"
  end.

Definition parse (s : bytes) : option OperatingMode :=
  if eq_ignore_ascii_case s (bstr "STOP") then Some Stop
  else if eq_ignore_ascii_case s (bstr "RUN") then Some Run
  else if eq_ignore_ascii_case s (bstr "FAULT") then Some Fault
  else if eq_ignore_ascii_case s (bstr "SIM") then Some Sim
  else None.

Definition executes_logic (m : OperatingMode) : bool :=
  match m with Run | Sim => true | _ => false end.
End Mode.

Module Phase.
Definition as_str (p : ProgramPhase) : bytes :=
  match p with
  | Idle => bstr "idle" | Validating => bstr "validating"
  | Armed => bstr "armed" | Swapping => bstr "swapping"
  end.

Definition parse (s : bytes) : option ProgramPhase :=
  if eq_ignore_ascii_case s (bstr "idle") then Some Idle
  else if eq_ignore_ascii_case s (bstr "validating") then Some Validating
  else if eq_ignore_ascii_case s (bstr "armed") then Some Armed
  else if eq_ignore_ascii_case s (bstr "swapping") then Some Swapping
  else None.
End Phase.

(** ** quality.rs *)

Inductive Quality := Good | Uncertain | Bad.

#[export] Instance Quality_eq_dec : EqDecision Quality.
Proof. solve_decision. Defined.

Module Qual.
Definition from_u8 (v : Z) : Quality :=
  match v with 0 => Good | 1 => Uncertain | _ => Bad end.
Definition as_u8 (q : Quality) : Z := match q with Good => 0 | Uncertain => 1 | Bad => 2 end.
Definition is_good (q : Quality) : bool := match q with Good => true | _ => false end.
Definition is_bad (q : Quality) : bool := match q with Bad => true | _ => false end.

Lemma quality_from_as q : from_u8 (as_u8 q) = q.
Proof. by destruct q. Qed.
End Qual.

(** ** image.rs *)

Inductive ImageRegion := Input | Output | Memory | Retain.

Definition percent_prefix (r : ImageRegion) : bytes :=
  match r with
  | Input => bstr "%I" | Output => bstr "%Q" | Memory => bstr "%M" | Retain => bstr "%R"
  end.

(** ** Wire names *)

Lemma mode_parse_as m : Mode.parse (Mode.as_str m) = Some m.
Proof. by destruct m. Qed.

Lemma phase_parse_as p : Phase.parse (Phase.as_str p) = Some p.
Proof. by destruct p. Qed.
