(* ===== verification/Float32.v ===== *)
(** * Rust's [f32], as bit patterns

    A value of type [f32] is its 32-bit pattern, an integer in [0, 2^32), so
    that [to_bits] and [from_bits] are the identity. The arithmetic is IEEE 754
    binary32 with rounding to nearest even, computed by the Standard Library's
    [SpecFloat]. The bits of a NaN that an operation produces are left open by
    the language, so they are a parameter, the class [NanRule]. *)
From Stdlib Require Import SpecFloat.
From S2P Require Import Prelude.

Definition f32_prec : Z := 24.
Definition f32_emax : Z := 128.

Definition f32_exp (b : Z) : Z := Z.land (Z.shiftr b 23) 255.
Definition f32_mant (b : Z) : Z := Z.land b (2 ^ 23 - 1).
Definition f32_sign (b : Z) : bool := Z.testbit b 31.

Definition f32_is_nan (b : Z) : bool := (f32_exp b =? 255) && negb (f32_mant b =? 0).

Definition f32_decode (b : Z) : spec_float :=
  let s := f32_sign b in
  let e := f32_exp b in
  let m := f32_mant b in
  if e =? 255 then (if m =? 0 then S754_infinity s else S754_nan)
  else if e =? 0 then
    match m with
    | Zpos p => S754_finite s p (-149)
    | _ => S754_zero s
    end
  else
    match m + 2 ^ 23 with
    | Zpos p => S754_finite s p (e - 150)
    | _ => S754_zero s
    end.

Definition sign_bit (s : bool) : Z := if s then 2 ^ 31 else 0.

(** The bit pattern of a canonical binary32 value; [None] for a NaN. *)
Definition f32_encode (x : spec_float) : option Z :=
  match x with
  | S754_zero s => Some (sign_bit s)
  | S754_infinity s => Some (sign_bit s + 255 * 2 ^ 23)
  | S754_nan => None
  | S754_finite s p e =>
      Some (wrap_u 32
        (sign_bit s +
         (if (Zpos p <? 2 ^ 23) then Zpos p else (e + 150) * 2 ^ 23 + (Zpos p - 2 ^ 23))))
  end.

Inductive f32_op := OpAdd | OpSub | OpMul | OpDiv.

(** Which NaN an operation with these operands produces. *)
Class NanRule := {
  nan_of : f32_op -> Z -> Z -> Z;
  nan_of_range : forall op a b, u_range 32 (nan_of op a b);
  nan_of_nan : forall op a b, f32_is_nan (nan_of op a b) = true }.

(** The quiet NaN most targets produce; used to run the model. *)
Definition quiet_nan : Z := 0x7FC00000.
#[export] Program Instance canonical_nan : NanRule | 100 := {| nan_of := fun _ _ _ => quiet_nan |}.
Next Obligation. intros. unfold u_range, quiet_nan. lia. Qed.
Next Obligation. done. Qed.

Section Ops.
Context {NR : NanRule}.

Definition f32_result (op : f32_op) (a b : Z) (r : spec_float) : Z :=
  match f32_encode r with Some x => x | None => nan_of op a b end.

Definition f32_add (a b : Z) : Z :=
  f32_result OpAdd a b (SFadd f32_prec f32_emax (f32_decode a) (f32_decode b)).
Definition f32_sub (a b : Z) : Z :=
  f32_result OpSub a b (SFsub f32_prec f32_emax (f32_decode a) (f32_decode b)).
Definition f32_mul (a b : Z) : Z :=
  f32_result OpMul a b (SFmul f32_prec f32_emax (f32_decode a) (f32_decode b)).
Definition f32_div (a b : Z) : Z :=
  f32_result OpDiv a b (SFdiv f32_prec f32_emax (f32_decode a) (f32_decode b)).
End Ops.

Definition f32_lt (a b : Z) : bool := SFltb (f32_decode a) (f32_decode b).
Definition f32_le (a b : Z) : bool := SFleb (f32_decode a) (f32_decode b).
Definition f32_eq (a b : Z) : bool := SFeqb (f32_decode a) (f32_decode b).

(** Unary minus and [abs] act on the sign bit alone. *)
Definition f32_neg (a : Z) : Z := Z.lxor a (2 ^ 31).
Definition f32_abs (a : Z) : Z := Z.land a (2 ^ 31 - 1).

(** Integer [as f32]: round to nearest even. *)
Definition f32_of_int (n : Z) : Z :=
  match f32_encode (binary_normalize f32_prec f32_emax n 0 false) with
  | Some x => x
  | None => 0
  end.

(** [as] to a signed integer of [w] bits: truncate, saturate, NaN to 0. *)
Definition f32_to_int (w : Z) (a : Z) : Z :=
  let lo := - 2 ^ (w - 1) in
  let hi := 2 ^ (w - 1) - 1 in
  match f32_decode a with
  | S754_nan | S754_zero _ => 0
  | S754_infinity s => if s then lo else hi
  | S754_finite s p e =>
      let m := if 0 <=? e then Zpos p * 2 ^ e else Zpos p / 2 ^ (- e) in
      Z.max lo (Z.min hi (if s then - m else m))
  end.

(** [f32::clamp], with its assertion [min <= max]. *)
Definition f32_clamp {E} (x lo hi : Z) : res E Z :=
  if f32_le lo hi then
    let x := if f32_lt x lo then lo else x in
    let x := if f32_lt hi x then hi else x in
    Ok x
  else Panic.

Definition f32_zero : Z := 0.
Definition f32_one : Z := 0x3F800000.
Definition f32_thousand : Z := 0x447A0000.
Definition f32_epsilon : Z := 0x34000000.

Lemma sign_bit_range s : 0 <= sign_bit s <= 2 ^ 31.
Proof. destruct s; unfold sign_bit; lia. Qed.

Lemma f32_encode_range x b : f32_encode x = Some b -> u_range 32 b.
Proof.
  pose proof sign_bit_range as Hs. unfold u_range.
  destruct x as [s|s| |s p e]; simpl; intros [= <-].
  - specialize (Hs s). lia.
  - specialize (Hs s). lia.
  - apply wrap_u_range. lia.
Qed.

Lemma f32_result_range `{NanRule} op a b r : u_range 32 (f32_result op a b r).
Proof.
  unfold f32_result. destruct (f32_encode r) eqn:E; [by eapply f32_encode_range|].
  apply nan_of_range.
Qed.

Lemma f32_of_int_range n : u_range 32 (f32_of_int n).
Proof.
  unfold f32_of_int. destruct (f32_encode _) eqn:E; [by eapply f32_encode_range|].
  unfold u_range. lia.
Qed.

Lemma f32_neg_range a : u_range 32 a -> u_range 32 (f32_neg a).
Proof.
  unfold u_range, f32_neg. intros [? ?].
  split; [apply Z.lxor_nonneg; lia|].
  destruct (decide (Z.lxor a (2 ^ 31) = 0)) as [->|]; [lia|].
  apply Z.log2_lt_pow2; [pose proof (proj2 (Z.lxor_nonneg a (2 ^ 31))); lia|].
  eapply Z.le_lt_trans; [apply Z.log2_lxor; lia|].
  apply Z.max_lub_lt; [|done].
  destruct (decide (a = 0)) as [->|]; [done|]. apply Z.log2_lt_pow2; lia.
Qed.

Lemma f32_abs_range a : u_range 32 a -> u_range 32 (f32_abs a).
Proof.
  unfold u_range, f32_abs. intros _.
  change (2 ^ 31 - 1) with (Z.ones 31). rewrite Z.land_ones by lia.
  pose proof (Z.mod_pos_bound a (2 ^ 31)). lia.
Qed.

Lemma f32_to_int_range w a : 0 < w -> s_range w (f32_to_int w a).
Proof.
  intros Hw. unfold s_range, f32_to_int.
  pose proof (Z.pow_pos_nonneg 2 (w - 1)) as Hp.
  destruct (f32_decode a) as [s|s| |s p e]; try destruct s; lia.
Qed.

(** A clamped value is never below the low bound nor above the high one. *)
Lemma f32_clamp_bounds {E} x lo hi r :
  @f32_clamp E x lo hi = Ok r -> f32_lt hi lo = false -> f32_lt lo lo = false ->
  f32_lt hi hi = false ->
  f32_lt r lo = false /\ f32_lt hi r = false.
Proof.
  unfold f32_clamp. intros H Hhl Hll Hhh.
  destruct (f32_le lo hi); [|done].
  destruct (f32_lt x lo) eqn:E1.
  - rewrite Hhl in H. naive_solver.
  - destruct (f32_lt hi x) eqn:E2; naive_solver.
Qed.

Lemma f32_clamp_no_panic {E} x lo hi : f32_le lo hi = true -> exists r, @f32_clamp E x lo hi = Ok r.
Proof. intros H. unfold f32_clamp. rewrite H. eauto. Qed.

Lemma f32_clamp_range {E} x lo hi r :
  u_range 32 x -> u_range 32 lo -> u_range 32 hi ->
  @f32_clamp E x lo hi = Ok r -> u_range 32 r.
Proof.
  unfold f32_clamp. intros ??? H. destruct (f32_le lo hi); [|discriminate H].
  destruct (f32_lt x lo).
  - destruct (f32_lt hi lo); congruence.
  - destruct (f32_lt hi x); congruence.
Qed.

#[export] Hint Resolve f32_result_range f32_of_int_range f32_neg_range f32_abs_range : plc.
#[export] Hint Extern 1 (s_range _ (f32_to_int _ _)) => apply f32_to_int_range; lia : plc.
#[export] Hint Unfold f32_add f32_sub f32_mul f32_div : plc.

(** Values computed by the model: 1.5 + 2.25, 10 / 4, i32 conversions. *)
Example f32_add_ex : f32_add 0x3FC00000 0x40100000 = 0x40700000.
Proof. vm_compute. reflexivity. Qed.
Example f32_div_ex : f32_div (f32_of_int 10) (f32_of_int 4) = 0x40200000.
Proof. vm_compute. reflexivity. Qed.
Example f32_to_int_ex : f32_to_int 32 0xC0200000 = -2 /\ f32_to_int 16 0x7F800000 = 32767.
Proof. vm_compute. done. Qed.
