(* ===== verification/Float64.v ===== *)
(** * Rust's [f64], as bit patterns

    As [Float32], for binary64: a value is its 64-bit pattern. The bits of a NaN
    an operation produces are the quiet NaN; no definition of the library looks
    at them. Integers below 2^53 are exact. *)
From Stdlib Require Import SpecFloat.
From S2P Require Import Prelude Float32.

Definition f64_prec : Z := 53.
Definition f64_emax : Z := 1024.

Definition f64_exp (b : Z) : Z := Z.land (Z.shiftr b 52) 2047.
Definition f64_mant (b : Z) : Z := Z.land b (2 ^ 52 - 1).
Definition f64_sign (b : Z) : bool := Z.testbit b 63.

Definition f64_decode (b : Z) : spec_float :=
  let s := f64_sign b in
  let e := f64_exp b in
  let m := f64_mant b in
  if e =? 2047 then (if m =? 0 then S754_infinity s else S754_nan)
  else if e =? 0 then
    match m with
    | Zpos p => S754_finite s p (-1074)
    | _ => S754_zero s
    end
  else
    match m + 2 ^ 52 with
    | Zpos p => S754_finite s p (e - 1075)
    | _ => S754_zero s
    end.

Definition sign_bit64 (s : bool) : Z := if s then 2 ^ 63 else 0.

Definition quiet_nan64 : Z := 0x7FF8000000000000.

Definition f64_encode (x : spec_float) : Z :=
  match x with
  | S754_zero s => sign_bit64 s
  | S754_infinity s => sign_bit64 s + 2047 * 2 ^ 52
  | S754_nan => quiet_nan64
  | S754_finite s p e =>
      wrap_u 64
        (sign_bit64 s +
         (if (Zpos p <? 2 ^ 52) then Zpos p else (e + 1075) * 2 ^ 52 + (Zpos p - 2 ^ 52)))
  end.

Definition f64_add (a b : Z) : Z := f64_encode (SFadd f64_prec f64_emax (f64_decode a) (f64_decode b)).
Definition f64_sub (a b : Z) : Z := f64_encode (SFsub f64_prec f64_emax (f64_decode a) (f64_decode b)).
Definition f64_mul (a b : Z) : Z := f64_encode (SFmul f64_prec f64_emax (f64_decode a) (f64_decode b)).
Definition f64_div (a b : Z) : Z := f64_encode (SFdiv f64_prec f64_emax (f64_decode a) (f64_decode b)).

Definition f64_lt (a b : Z) : bool := SFltb (f64_decode a) (f64_decode b).
Definition f64_le (a b : Z) : bool := SFleb (f64_decode a) (f64_decode b).
Definition f64_eq (a b : Z) : bool := SFeqb (f64_decode a) (f64_decode b).

Definition f64_is_nan (a : Z) : bool := (f64_exp a =? 2047) && negb (f64_mant a =? 0).

(** [f64::min] and [f64::max]: the other operand when one is a NaN. *)
Definition f64_min (a b : Z) : Z :=
  if f64_is_nan a then b else if f64_is_nan b then a else if f64_lt b a then b else a.
Definition f64_max (a b : Z) : Z :=
  if f64_is_nan a then b else if f64_is_nan b then a else if f64_lt a b then b else a.

(** Integer [as f64]. *)
Definition f64_of_int (n : Z) : Z := f64_encode (binary_normalize f64_prec f64_emax n 0 false).

(** [as] to an integer in [[lo, hi]]: truncate, saturate, NaN to 0. *)
Definition f64_to_range (lo hi a : Z) : Z :=
  match f64_decode a with
  | S754_nan | S754_zero _ => 0
  | S754_infinity s => if s then lo else hi
  | S754_finite s p e =>
      let m := if 0 <=? e then Zpos p * 2 ^ e else Zpos p / 2 ^ (- e) in
      Z.max lo (Z.min hi (if s then - m else m))
  end.

(** [f64 as f32] rounds to nearest even; a NaN stays one. *)
Definition f32_of_f64 (a : Z) : Z :=
  match f64_decode a with
  | S754_zero s => sign_bit s
  | S754_infinity s => sign_bit s + 255 * 2 ^ 23
  | S754_nan => quiet_nan
  | S754_finite s p e =>
      default 0 (f32_encode (binary_normalize f32_prec f32_emax (if s then Zneg p else Zpos p) e s))
  end.

(** [f32 as f64] is exact. *)
Definition f64_of_f32 (a : Z) : Z :=
  match f32_decode a with
  | S754_zero s => sign_bit64 s
  | S754_infinity s => sign_bit64 s + 2047 * 2 ^ 52
  | S754_nan => quiet_nan64
  | S754_finite s p e => f64_encode (binary_normalize f64_prec f64_emax (if s then Zneg p else Zpos p) e s)
  end.

(** [f64::ceil] of a number below 2^52 in size is an integer; larger ones are
    integers already. *)
Definition f64_ceil (a : Z) : Z :=
  match f64_decode a with
  | S754_finite s p e =>
      if 0 <=? e then a
      else
        let q := Zpos p / 2 ^ (- e) in
        let exact := Zpos p mod 2 ^ (- e) =? 0 in
        if s then (if q =? 0 then sign_bit64 true else f64_of_int (- q))
        else f64_of_int (if exact then q else q + 1)
  | _ => a
  end.

(** [f64::round]: half away from zero. *)
Definition f64_round (a : Z) : Z :=
  match f64_decode a with
  | S754_finite s p e =>
      if 0 <=? e then a
      else
        let q := (2 * Zpos p + 2 ^ (- e)) / 2 ^ (1 - e) in
        if q =? 0 then sign_bit64 s else f64_of_int (if s then - q else q)
  | _ => a
  end.

Definition f64_is_finite (a : Z) : bool := negb (f64_exp a =? 2047).

Definition f64_zero : Z := 0.
Definition f64_one : Z := 0x3FF0000000000000.

Lemma f64_of_int_one : f64_of_int 1 = f64_one.
Proof. reflexivity. Qed.

Lemma f64_samples :
  f64_add f64_one f64_one = f64_of_int 2 /\ f64_div f64_one (f64_of_int 2) = 0x3FE0000000000000 /\
  f32_of_f64 f64_one = f32_one /\ f64_of_f32 f32_one = f64_one /\
  f64_ceil (f64_div (f64_of_int 3) (f64_of_int 2)) = f64_of_int 2 /\
  f64_to_range 0 255 (f64_of_int 300) = 255 /\
  f64_round (f64_div (f64_of_int (-5)) (f64_of_int 2)) = f64_of_int (-3) /\
  f64_round (f64_div f64_one (f64_of_int 3)) = f64_zero.
Proof. vm_compute. repeat split. Qed.

(** * Integers as [f64]

    An integer below 2^53 is an [f64] exactly: it converts, multiplies by one, rounds and
    converts back to itself. *)

Lemma digits2_log2 p : Zpos (digits2_pos p) = Z.log2 (Zpos p) + 1.
Proof.
  induction p as [p IH|p IH|]; cbn [digits2_pos]; [| |done].
  - rewrite Pos2Z.inj_succ, IH, Pos2Z.inj_xI, Z.log2_succ_double by lia. lia.
  - rewrite Pos2Z.inj_succ, IH, Pos2Z.inj_xO, Z.log2_double by lia. lia.
Qed.

Lemma iter_xO p n : Zpos (Pos.iter xO p n) = Zpos p * 2 ^ Zpos n.
Proof.
  induction n as [|n IH] using Pos.peano_ind.
  - cbn [Pos.iter]. lia.
  - rewrite Pos.iter_succ, Pos2Z.inj_xO, IH, Pos2Z.inj_succ, Z.pow_succ_r by lia. lia.
Qed.

(** A mantissa of 53 bits. *)
Definition full (p : positive) : Prop := Z.log2 (Zpos p) = 52.

Lemma full_bounds p : full p -> 2 ^ 52 <= Zpos p < 2 ^ 53.
Proof. intros H. pose proof (Z.log2_spec (Zpos p) ltac:(lia)) as Hs. rewrite H in Hs. exact Hs. Qed.

Lemma shr_full p e : full p -> -1074 <= e ->
  shr_fexp f64_prec f64_emax (Zpos p) e loc_Exact = (Build_shr_record (Zpos p) false false, e).
Proof.
  intros Hp He. unfold shr_fexp. cbn [Zdigits2 shr_record_of_loc]. rewrite digits2_log2, Hp.
  replace (fexp f64_prec f64_emax (52 + 1 + e) - e) with 0; [done|]. unfold fexp, emin, f64_prec, f64_emax. lia.
Qed.

Lemma round_full p e : full p -> -1074 <= e <= 971 ->
  binary_round_aux f64_prec f64_emax false (Zpos p) e loc_Exact = S754_finite false p e.
Proof.
  intros Hp He. unfold binary_round_aux. rewrite shr_full by (done || lia). cbn [shr_m loc_of_shr_record round_nearest_even].
  rewrite shr_full by (done || lia). cbn [shr_m]. rewrite (proj2 (Z.leb_le _ _)); [done|]. unfold f64_emax, f64_prec. lia.
Qed.

Lemma decode_full p e : full p -> -1074 <= e <= 971 -> f64_decode (f64_encode (S754_finite false p e)) = S754_finite false p e.
Proof.
  intros Hp He. pose proof (full_bounds p Hp) as Hb. unfold f64_encode. rewrite (proj2 (Z.ltb_ge _ _)) by lia. cbn [sign_bit64].
  set (b := 0 + ((e + 1075) * 2 ^ 52 + (Zpos p - 2 ^ 52))).
  assert (Hb0 : b = (e + 1075) * 2 ^ 52 + (Zpos p - 2 ^ 52)) by (unfold b; lia). clearbody b.
  assert (Hr : 0 <= b < 2 ^ 63) by (rewrite Hb0; change (2 ^ 63) with (2048 * 2 ^ 52); change (2 ^ 53) with (2 * 2 ^ 52) in Hb; nia).
  rewrite wrap_u_small; [|split; [apply Hr|]; change (2 ^ 64) with (2 * 2 ^ 63); lia]. unfold f64_decode.
  assert (Hexp : f64_exp b = e + 1075).
  { unfold f64_exp. rewrite Z.shiftr_div_pow2 by lia. change 2047 with (Z.ones 11). rewrite Z.land_ones by lia.
    rewrite Hb0, Z.div_add_l, (Z.div_small (Zpos p - 2 ^ 52)) by lia. rewrite Z.add_0_r. apply Z.mod_small. lia. }
  assert (Hmant : f64_mant b = Zpos p - 2 ^ 52).
  { unfold f64_mant. change (2 ^ 52 - 1) with (Z.ones 52). rewrite Z.land_ones, Hb0 by lia.
    rewrite Z.add_comm, Z.mod_add by lia. apply Z.mod_small. lia. }
  assert (Hsign : f64_sign b = false).
  { unfold f64_sign. apply Z.bits_above_log2; [lia|]. destruct (decide (b = 0)) as [->|]; [done|]. apply Z.log2_lt_pow2; lia. }
  rewrite Hexp, Hmant, Hsign. rewrite (proj2 (Z.eqb_neq _ 2047)), (proj2 (Z.eqb_neq _ 0)) by lia.
  replace (Zpos p - 2 ^ 52 + 2 ^ 52) with (Zpos p) by lia. f_equal. lia.
Qed.

(** The product by one: its low bits are cut, and they are zero. *)
Lemma shr_product p e : full p -> -1000 <= e ->
  shr_fexp f64_prec f64_emax (Zpos (2 ^ 52 * p)) (e + -52) loc_Exact = (Build_shr_record (Zpos p) false false, e).
Proof.
  intros Hp He. unfold shr_fexp. cbn [Zdigits2 shr_record_of_loc]. rewrite digits2_log2.
  assert (Hl : Z.log2 (Zpos (2 ^ 52 * p)) = 104).
  { rewrite Pos2Z.inj_mul, Z.mul_comm. change (Zpos (2 ^ 52)) with (2 ^ 52). by rewrite Z.log2_mul_pow2, Hp by lia. }
  rewrite Hl. replace (fexp f64_prec f64_emax (104 + 1 + (e + -52)) - (e + -52)) with 52;
    [|unfold fexp, emin, f64_prec, f64_emax; lia].
  cbn [shr]. replace (e + -52 + 52) with e by lia. f_equal.
Qed.

Lemma mul_one p e : full p -> -1000 <= e <= 900 ->
  SFmul f64_prec f64_emax (S754_finite false p e) (f64_decode (f64_of_int 1)) = S754_finite false p e.
Proof.
  intros Hp He. change (f64_decode (f64_of_int 1)) with (S754_finite false (2 ^ 52) (-52)). cbn [SFmul xorb].
  rewrite Pos.mul_comm. unfold binary_round_aux. rewrite shr_product by (done || lia).
  cbn [shr_m loc_of_shr_record round_nearest_even].
  rewrite shr_full by (done || lia). cbn [shr_m]. rewrite (proj2 (Z.leb_le _ _)); [done|]. unfold f64_emax, f64_prec. lia.
Qed.

Lemma int_normalize z : 0 < z < 2 ^ 53 -> exists p k,
  0 <= k <= 52 /\ Zpos p = z * 2 ^ k /\ full p /\ binary_normalize f64_prec f64_emax z 0 false = S754_finite false p (- k).
Proof.
  intros Hz. destruct z as [|q|]; [lia| |lia]. set (l := Z.log2 (Zpos q)).
  assert (Hl : 0 <= l <= 52).
  { split; [apply Z.log2_nonneg|]. assert (l < 53) by (apply Z.log2_lt_pow2; lia). lia. }
  cbn [binary_normalize]. unfold binary_round. rewrite digits2_log2. fold l.
  replace (fexp f64_prec f64_emax (l + 1 + 0)) with (l - 52) by (unfold fexp, emin, f64_prec, f64_emax; lia).
  unfold shl_align. destruct (l - 52 - 0) as [|n|n] eqn:E; [|lia|].
  - exists q, 0. assert (Hf : full q) by (unfold full; fold l; lia). split; [lia|]. split; [lia|]. split; [done|]. by apply round_full.
  - exists (Pos.iter xO q n), (Zpos n). assert (Hv := iter_xO q n). assert (Hf : full (Pos.iter xO q n)).
    { unfold full. rewrite Hv, Z.log2_mul_pow2 by lia. fold l. lia. }
    split; [lia|]. split; [done|]. split; [done|]. replace (l - 52) with (- Zpos n) by lia. apply round_full; [done|lia].
Qed.

Lemma int_decode z : 0 < z < 2 ^ 53 -> exists p k,
  0 <= k <= 52 /\ Zpos p = z * 2 ^ k /\ full p /\ f64_decode (f64_of_int z) = S754_finite false p (- k).
Proof.
  intros Hz. destruct (int_normalize z Hz) as (p & k & Hk & Hv & Hp & E). exists p, k. split; [done|]. split; [done|]. split; [done|].
  unfold f64_of_int. rewrite E. apply decode_full; [done|lia].
Qed.

Lemma round_int z : 0 < z < 2 ^ 53 -> f64_round (f64_of_int z) = f64_of_int z.
Proof.
  intros Hz. destruct (int_decode z Hz) as (p & k & Hk & Hv & Hp & E). unfold f64_round. rewrite E.
  destruct (0 <=? - k) eqn:Ek; [done|]. apply Z.leb_gt in Ek. rewrite Z.opp_involutive, Hv.
  assert (Hq : (2 * (z * 2 ^ k) + 2 ^ k) / 2 ^ (1 - - k) = z).
  { replace (1 - - k) with (Z.succ k) by lia. rewrite Z.pow_succ_r by lia.
    replace (2 * (z * 2 ^ k) + 2 ^ k) with (z * (2 * 2 ^ k) + 2 ^ k) by lia.
    rewrite Z.div_add_l, Z.div_small by (pose proof (Z.pow_pos_nonneg 2 k); lia). lia. }
  rewrite Hq, (proj2 (Z.eqb_neq _ _)) by lia. done.
Qed.

Lemma to_range_int lo hi z : 0 < z < 2 ^ 53 -> lo <= z <= hi -> f64_to_range lo hi (f64_of_int z) = z.
Proof.
  intros Hz Hr. destruct (int_decode z Hz) as (p & k & Hk & Hv & Hp & E). unfold f64_to_range. rewrite E, Hv, Z.opp_involutive.
  destruct (0 <=? - k) eqn:Ek.
  - apply Z.leb_le in Ek. replace k with 0 by lia. cbn [Z.opp Z.pow]. lia.
  - rewrite Z.div_mul by (apply Z.pow_nonzero; lia). lia.
Qed.

(** A whole number times one, rounded, is that number. *)
Lemma times_one_exact lo hi z : 0 <= z < 2 ^ 53 -> lo <= z <= hi ->
  f64_to_range lo hi (f64_round (f64_mul (f64_of_int z) (f64_of_int 1))) = z.
Proof.
  intros Hz Hr. destruct (decide (z = 0)) as [->|Hne]; [done|].
  assert (Hm : f64_mul (f64_of_int z) (f64_of_int 1) = f64_of_int z).
  { destruct (int_normalize z ltac:(lia)) as (p & k & Hk & Hv & Hp & E). unfold f64_mul, f64_of_int at 1. rewrite E.
    rewrite decode_full, mul_one by (done || lia). unfold f64_of_int. by rewrite E. }
  rewrite Hm, round_int, to_range_int by lia. done.
Qed.
