(* ===== verification/Text.v ===== *)
(** * Text of the standard library

    What the configuration and the authentication crates use of Rust's strings:
    ASCII case and digits, [FromStr for SocketAddr] (whether a text is one),
    the laws of [trim], and the digits [pretty] prints, which read back. Strings are UTF-8 bytes. *)
From S2P Require Import Prelude.

(** ** ASCII *)

Definition ascii_lower (b : Z) : Z := if in_rangeb 65 90 b then b + 32 else b.

(** [str::to_ascii_lowercase]. *)
Definition to_ascii_lowercase (s : bytes) : bytes := map ascii_lower s.

Definition is_ascii_digit (b : Z) : bool := in_rangeb 48 57 b.
Definition is_ascii_hexdigit (b : Z) : bool :=
  in_rangeb 48 57 b || in_rangeb 65 70 b || in_rangeb 97 102 b.

(** [rsplit_once]: around the last [c]. *)
Fixpoint rsplit_once (c : Z) (s : bytes) : option (bytes * bytes) :=
  match s with
  | [] => None
  | b :: s' =>
      match rsplit_once c s' with
      | Some (l, r) => Some (b :: l, r)
      | None => if b =? c then Some ([], s') else None
      end
  end.

(** The digit loop of [u16::from_str] and its kin, with its overflow check. *)
Fixpoint parse_digits (limit acc : Z) (s : bytes) : option Z :=
  match s with
  | [] => Some acc
  | b :: s =>
      if is_ascii_digit b then
        let acc := acc * 10 + (b - 48) in
        if acc <? limit then parse_digits limit acc s else None
      else None
  end.

(** [str::parse] to an unsigned integer below [limit]. *)
Definition parse_uint (limit : Z) (s : bytes) : option Z :=
  match s with
  | [] => None
  | [43] => None
  | 43 :: s => parse_digits limit 0 s
  | _ => parse_digits limit 0 s
  end.

(** [a.is_none() && b.is_none()]. *)
Definition neither {A} (a b : option A) : bool :=
  match a with None => match b with None => true | Some _ => false end | Some _ => false end.

(** ** [trim] *)

(** The string after one leading white space character. *)
Definition strip_ws (s : bytes) : option bytes :=
  match s with
  | [] => None
  | b0 :: s1 =>
      if in_rangeb 9 13 b0 || (b0 =? 32) then Some s1
      else match s1 with
      | [] => None
      | b1 :: s2 =>
          if (b0 =? 0xC2) && ((b1 =? 0x85) || (b1 =? 0xA0)) then Some s2
          else match s2 with
          | [] => None
          | b2 :: s3 =>
              if ((b0 =? 0xE1) && (b1 =? 0x9A) && (b2 =? 0x80)) ||
                 ((b0 =? 0xE2) && (b1 =? 0x80) &&
                   (in_rangeb 0x80 0x8A b2 || (b2 =? 0xA8) || (b2 =? 0xA9) || (b2 =? 0xAF))) ||
                 ((b0 =? 0xE2) && (b1 =? 0x81) && (b2 =? 0x9F)) ||
                 ((b0 =? 0xE3) && (b1 =? 0x80) && (b2 =? 0x80))
              then Some s3 else None
          end
      end
  end.

Lemma trim_start_step s :
  trim_start s = match strip_ws s with Some r => trim_start r | None => s end.
Proof.
  destruct s as [|b0 [|b1 [|b2 s3]]]; cbn [strip_ws]; [done|..];
    repeat match goal with |- context [if ?c then _ else _] => destruct c eqn:? end;
    cbn [trim_start]; repeat match goal with H : _ = (_ : bool) |- _ => rewrite H; clear H end; reflexivity.
Qed.

Lemma strip_ws_shorter s r : strip_ws s = Some r -> (length r < length s)%nat.
Proof.
  destruct s as [|b0 [|b1 [|b2 s3]]]; cbn [strip_ws]; try done;
    repeat match goal with |- context [if ?c then _ else _] => destruct c end;
    try done; intros [= <-]; cbn; lia.
Qed.

Lemma strip_ws_app p w r : strip_ws p = Some r -> strip_ws (p ++ w) = Some (r ++ w).
Proof.
  destruct p as [|b0 [|b1 [|b2 p3]]]; cbn [strip_ws app]; try done;
    repeat match goal with |- context [if ?c then _ else _] => destruct c end;
    try done; intros [= <-]; done.
Qed.

Lemma trim_start_ind (P : bytes -> Prop) :
  (forall s, (forall r, strip_ws s = Some r -> P r) -> P s) -> forall s, P s.
Proof.
  intros HP s. remember (length s) as n eqn:Hn. revert s Hn. induction (lt_wf n) as [n _ IH]. intros s ->.
  apply HP. intros r Hr. eapply IH; [by apply strip_ws_shorter|done].
Qed.

Lemma trim_start_none s : strip_ws (trim_start s) = None.
Proof.
  induction s as [s IH] using trim_start_ind. rewrite trim_start_step.
  destruct (strip_ws s) as [r|] eqn:E; [by apply IH|done].
Qed.

Lemma trim_start_blank p w : trim_start p = [] -> trim_start (p ++ w) = trim_start w.
Proof.
  induction p as [p IH] using trim_start_ind. rewrite trim_start_step.
  destruct (strip_ws p) as [r|] eqn:E; intros Hp.
  - rewrite trim_start_step, (strip_ws_app _ _ _ E). by apply IH.
  - by subst p.
Qed.

Lemma is_blank_spec s : is_blank s = true <-> trim_start s = [].
Proof. unfold is_blank. destruct (trim_start s); naive_solver. Qed.

Lemma trim_end_app s : exists w, s = trim_end s ++ w /\ is_blank w = true.
Proof.
  induction s as [|b s (w & Hs & Hw)]; [by exists []|]. cbn [trim_end].
  destruct (is_blank (b :: s)) eqn:E; [by exists (b :: s)|]. exists w. split; [cbn; by f_equal|done].
Qed.

Lemma trim_end_idem s : trim_end (trim_end s) = trim_end s.
Proof.
  induction s as [|b s IH]; [done|]. pose proof (trim_end_app (b :: s)) as (w & Hs & Hw). revert Hs.
  cbn [trim_end]. destruct (is_blank (b :: s)) eqn:E; [done|]. intros Hs. cbn [trim_end].
  destruct (is_blank (b :: trim_end s)) eqn:E'; [|by rewrite IH]. exfalso.
  apply is_blank_spec in E'. apply is_blank_spec in Hw. apply (trim_start_blank _ w) in E'.
  rewrite <-Hs, Hw in E'. apply is_blank_spec in E'. congruence.
Qed.

Lemma trim_idem s : trim (trim s) = trim s.
Proof.
  unfold trim. destruct (trim_end_app (trim_start s)) as (w & Hs & _).
  rewrite (trim_start_step (trim_end _)).
  destruct (strip_ws (trim_end (trim_start s))) as [r|] eqn:E; [|apply trim_end_idem].
  apply (strip_ws_app _ w) in E. rewrite <-Hs, trim_start_none in E. done.
Qed.

(** Text of visible ASCII characters has nothing to trim. *)
Definition visible (b : Z) : Prop := 33 <= b < 127.

Lemma strip_ws_visible b s : visible b -> strip_ws (b :: s) = None.
Proof.
  intros Hb. cbn. unfold visible, in_rangeb in *.
  repeat match goal with |- context [?x =? ?y] => destruct (Z.eqb_spec x y); [lia|] | |- context [?x <=? ?y] => destruct (Z.leb_spec x y); try lia end;
    cbn; repeat case_match; done.
Qed.

Lemma visible_not_blank b s : visible b -> is_blank (b :: s) = false.
Proof. intros Hb. unfold is_blank. by rewrite trim_start_step, strip_ws_visible. Qed.

Lemma trim_visible s : Forall visible s -> trim s = s.
Proof.
  intros Hs. unfold trim. rewrite trim_start_step.
  assert (Hn : strip_ws s = None) by (destruct Hs; [done|by apply strip_ws_visible]). rewrite Hn. clear Hn.
  induction Hs as [|b s Hb Hs IH]; [done|]. cbn [trim_end]. by rewrite visible_not_blank, IH.
Qed.

(** ** [core::net::parser]

    A reader yields the rest of the input; one that fails consumes nothing. Only
    whether a text parses is of interest, not the address. *)
Definition to_digit (radix b : Z) : option Z :=
  let d := if in_rangeb 48 57 b then b - 48
           else if in_rangeb 65 90 b then b - 55
           else if in_rangeb 97 122 b then b - 87
           else radix in
  if d <? radix then Some d else None.

(** The leading digits: their value, their number and the rest. *)
Fixpoint read_digits (radix acc : Z) (n : nat) (s : bytes) : Z * nat * bytes :=
  match s with
  | b :: s' =>
      match to_digit radix b with
      | Some d => read_digits radix (acc * radix + d) (S n) s'
      | None => (acc, n, s)
      end
  | [] => (acc, n, s)
  end.

(** [read_number]; [limit] bounds the integer type. *)
Definition read_number (radix limit : Z) (max_digits : option nat) (allow_zero_prefix : bool) (s : bytes) :
    option bytes :=
  let '(v, n, rest) := read_digits radix 0 0 s in
  let leading_zero := match s with 48 :: _ => true | _ => false end in
  if (n =? 0)%nat then None
  else if match max_digits with Some m => (m <? n)%nat | None => false end then None
  else if negb allow_zero_prefix && leading_zero && (1 <? n)%nat then None
  else if v <? limit then Some rest else None.

Definition read_given_char (c : Z) (s : bytes) : option bytes :=
  match s with
  | b :: s => if b =? c then Some s else None
  | [] => None
  end.

Definition read_separator (sep : Z) (index : nat) (inner : bytes -> option bytes) (s : bytes) : option bytes :=
  match index with
  | O => inner s
  | S _ => s ← read_given_char sep s; inner s
  end.

Definition read_octet : bytes -> option bytes := read_number 10 256 (Some 3%nat) false.

Definition read_ipv4_addr (s : bytes) : option bytes :=
  s ← read_octet s;
  s ← read_separator 46 1 read_octet s;
  s ← read_separator 46 2 read_octet s;
  read_separator 46 3 read_octet s.

(** [read_groups]: [left] groups from [i] on are free; the number of groups read
    and whether they end in an IPv4 address. *)
Fixpoint read_groups (left i : nat) (s : bytes) : nat * bool * bytes :=
  match left with
  | O => (i, false, s)
  | S left' =>
      match (match left' with O => None | S _ => read_separator 58 i read_ipv4_addr s end) with
      | Some s' => ((i + 2)%nat, true, s')
      | None =>
          match read_separator 58 i (read_number 16 65536 (Some 4%nat) true) s with
          | Some s' => read_groups left' (S i) s'
          | None => (i, false, s)
          end
      end
  end.

Definition read_ipv6_addr (s : bytes) : option bytes :=
  let '(head_size, head_ipv4, s1) := read_groups 8 0 s in
  if (head_size =? 8)%nat then Some s1
  else if head_ipv4 then None
  else
    s1 ← read_given_char 58 s1;
    s1 ← read_given_char 58 s1;
    let '(_, _, s2) := read_groups (8 - (head_size + 1)) 0 s1 in
    Some s2.

Definition read_port (s : bytes) : option bytes :=
  s ← read_given_char 58 s; read_number 10 65536 None true s.

Definition read_scope_id (s : bytes) : option bytes :=
  s ← read_given_char 37 s; read_number 10 (2 ^ 32) None true s.

Definition read_socket_addr_v4 (s : bytes) : option bytes := s ← read_ipv4_addr s; read_port s.

Definition read_socket_addr_v6 (s : bytes) : option bytes :=
  s ← read_given_char 91 s;
  s ← read_ipv6_addr s;
  let s := default s (read_scope_id s) in
  s ← read_given_char 93 s;
  read_port s.

(** [s.parse::<SocketAddr>().is_ok()]. *)
Definition is_socket_addr (s : bytes) : bool :=
  let rest := match read_socket_addr_v4 s with Some r => Some r | None => read_socket_addr_v6 s end in
  bool_decide (rest = Some []).

Lemma socket_addr_samples :
  map (fun s => is_socket_addr (bstr s))
    ["127.0.0.1:8443"; "0.0.0.0:0"; "[::1]:80"; "[fe80::1%3]:443"; "[::ffff:1.2.3.4]:1";
     "[1:2:3:4:5:6:7:8]:9"; "[1:2:3:4:5:6:1.2.3.4]:9"; "1.2.3.4:00080"]%string = replicate 8 true /\
  map (fun s => is_socket_addr (bstr s))
    ["localhost:80"; "127.0.0.1"; "127.0.0.256:1"; "127.0.0.01:1"; "1.2.3.4:65536"; "1.2.3.4:1 "; "[::1]";
     "::1:80"; "[1::2::3]:1"; ""]%string = replicate 10 false.
Proof. vm_compute. split; reflexivity. Qed.

(** ** Decimal numbers *)

Definition digits_value (ds : bytes) : Z := fold_left (fun n d => n * 10 + (d - 48)) ds 0.

Lemma bstr_cons c s : bstr (String c s) = Z.of_N (Ascii.N_of_ascii c) :: bstr s.
Proof. done. Qed.

Lemma digit_char n : (n < 10)%N -> Z.of_N (Ascii.N_of_ascii (pretty_N_char n)) = 48 + Z.of_N n.
Proof.
  intros Hn. assert (Hin : n ∈ map N.of_nat (List.seq 0 10)).
  { apply list_elem_of_In, in_map_iff. exists (N.to_nat n). rewrite in_seq. lia. }
  clear Hn. revert n Hin. apply Forall_forall. repeat constructor.
Qed.

Lemma digits_value_snoc ds d : digits_value (ds ++ [d]) = digits_value ds * 10 + (d - 48).
Proof. unfold digits_value. by rewrite fold_left_app. Qed.

(** Digits that have the value [z]. *)
Definition digits_of (z : Z) (ds : bytes) : Prop :=
  Forall (fun b => is_ascii_digit b = true) ds /\ digits_value ds = z.

Lemma digit_range b : is_ascii_digit b = true <-> 48 <= b <= 57.
Proof. unfold is_ascii_digit, in_rangeb. rewrite andb_true_iff, !Z.leb_le. done. Qed.

Lemma pretty_go_digits x : forall s, exists ds,
  bstr (pretty_N_go x s) = ds ++ bstr s /\ digits_of (Z.of_N x) ds /\ ((0 < x)%N -> ds <> []).
Proof.
  induction (N.lt_wf_0 x) as [x _ IH]. intros s. destruct (decide (0 < x)%N) as [Hx|Hx].
  - rewrite pretty_N_go_step by done.
    destruct (IH (x / 10)%N ltac:(apply N.div_lt; lia) (String (pretty_N_char (x mod 10)) s)) as (ds & -> & [Hd Hv] & _).
    rewrite bstr_cons, digit_char by (apply N.mod_lt; lia). exists (ds ++ [48 + Z.of_N (x mod 10)]).
    rewrite <-app_assoc. split; [done|]. split; [split|by destruct ds].
    + apply Forall_app. split; [done|]. constructor; [|done]. apply digit_range.
      generalize (N.mod_lt x 10 ltac:(done)). generalize (x mod 10)%N. lia.
    + rewrite digits_value_snoc, Hv. generalize (N.div_mod x 10 ltac:(done)). generalize (x mod 10)%N, (x / 10)%N. lia.
  - replace x with 0%N by lia. rewrite pretty_N_go_0. exists []. split; [done|]. split; [by split|done].
Qed.

Lemma pretty_digits z : 0 <= z -> digits_of z (bstr (pretty z)) /\ bstr (pretty z) <> [].
Proof.
  intros Hz. destruct z as [|p|p]; [| |lia].
  - split; [|done]. split; [by repeat constructor|done].
  - change (pretty (Zpos p)) with (pretty_N_go (Npos p) ""%string).
    destruct (pretty_go_digits (Npos p) ""%string) as (ds & -> & Hd & Hne). rewrite app_nil_r. split; [done|by apply Hne].
Qed.

Lemma fold_digits_ge ds : forall acc, 0 <= acc -> Forall (fun b => is_ascii_digit b = true) ds ->
  acc <= fold_left (fun n d => n * 10 + (d - 48)) ds acc.
Proof.
  induction ds as [|d ds IH]; intros acc Ha Hd; [done|]. apply Forall_cons in Hd as [Hd1 Hd]. apply digit_range in Hd1.
  cbn [fold_left]. specialize (IH (acc * 10 + (d - 48)) ltac:(lia) Hd). lia.
Qed.

Lemma parse_digits_fold limit ds : forall acc, 0 <= acc -> Forall (fun b => is_ascii_digit b = true) ds ->
  fold_left (fun n d => n * 10 + (d - 48)) ds acc < limit ->
  parse_digits limit acc ds = Some (fold_left (fun n d => n * 10 + (d - 48)) ds acc).
Proof.
  induction ds as [|d ds IH]; intros acc Ha Hd Hl; [done|]. apply Forall_cons in Hd as [Hd1 Hd]. cbn [parse_digits fold_left] in *.
  rewrite Hd1. apply digit_range in Hd1. pose proof (fold_digits_ge ds (acc * 10 + (d - 48)) ltac:(lia) Hd).
  rewrite (proj2 (Z.ltb_lt _ _)) by lia. by apply IH; [lia|..].
Qed.

Lemma parse_uint_digits limit z ds : digits_of z ds -> ds <> [] -> z < limit -> parse_uint limit ds = Some z.
Proof.
  intros [Hd <-] Hne Hl. destruct ds as [|d ds]; [done|]. pose proof (parse_digits_fold limit _ 0 ltac:(lia) Hd Hl) as Hp.
  apply Forall_cons in Hd as [Hd%digit_range _]. unfold parse_uint.
  destruct (decide (d = 43)) as [->|Hn]; [lia|]. unfold digits_value. rewrite <-Hp. repeat (case_match; try done).
Qed.

Lemma parse_pretty limit z : 0 <= z < limit -> parse_uint limit (bstr (pretty z)) = Some z.
Proof. intros Hz. destruct (pretty_digits z) as [Hd Hne]; [lia|]. apply parse_uint_digits; [done|done|lia]. Qed.
