(* ===== verification/Config.v ===== *)
(** * Device configuration

    Crate [plc-config], src/crates/plc-config/src: the schema (schema.rs) with its
    defaults and the semantic validation (validate.rs). Parsing YAML and JSON is
    serde's; a [DeviceConfig] is what it hands over. Messages are abridged. *)
From S2P Require Import Prelude Text.

(** ** schema.rs *)

Definition CONFIG_SCHEMA_VERSION : Z := 1.

Inductive ProfileKind := Dev | Prod.

#[export] Instance ProfileKind_eq_dec : EqDecision ProfileKind.
Proof. solve_decision. Defined.

Inductive StopOutputPolicy := PolicySafe | PolicyHold.

#[export] Instance StopOutputPolicy_eq_dec : EqDecision StopOutputPolicy.
Proof. solve_decision. Defined.

Record DeviceIdentity := mkIdentity { di_id : bytes; di_name : bytes; di_site : bytes }.

Record TaskConfig := mkTaskConfig { tc_name : bytes; tc_period_ms : Z; tc_entry : bytes; tc_priority : Z }.

Record ScanConfig := mkScanConfig {
  sc_tasks : list TaskConfig;
  sc_overrun_limit : Z;
  sc_cpu_affinity : option Z }.

Record TelemetryConfig := mkTelemetryConfig {
  te_enabled : bool;
  te_group_id : bytes;
  te_device_id : bytes;
  te_broker_url : bytes;
  te_analog_period_ms : Z;
  te_digital_cos_ms : Z }.

Record RestConfig := mkRestConfig { re_bind : bytes }.

Record PathsConfig := mkPathsConfig {
  pa_programs : bytes;
  pa_retain : bytes;
  pa_audit : bytes;
  pa_io_map : bytes }.

Record LimitsConfig := mkLimitsConfig {
  li_max_package_bytes : Z;
  li_rest_rate_per_s : Z;
  li_rest_burst : Z;
  li_auth_fail_per_min : Z;
  li_max_instances : Z }.

Record ProgramConfig := mkProgramConfig { pr_require_signature : bool }.

Definition AUTH_ROLES : list bytes := map bstr ["viewer"; "operator"; "engineer"; "admin"]%string.

Record PrincipalConfig := mkPrincipalConfig {
  pc_id : bytes;
  pc_role : bytes;
  pc_token_sha256 : option bytes;
  pc_cert_sha256 : option bytes }.

Record AuthConfig := mkAuthConfig {
  au_required : bool;
  au_tls_cert_path : bytes;
  au_tls_key_path : bytes;
  au_client_ca_path : bytes;
  au_dual_control : bool;
  au_lockout_secs : Z;
  au_principals : list PrincipalConfig }.

Record IoConfig := mkIoConfig { io_fault_on_module_bad : bool; io_drivers : list bytes }.

Record WatchdogConfig := mkWatchdogConfig { wc_hardware_enabled : bool; wc_hardware_path : bytes }.

Record DeviceConfig := mkDeviceConfig {
  dc_version : Z;
  dc_profile : ProfileKind;
  dc_device : DeviceIdentity;
  dc_scan : ScanConfig;
  dc_telemetry : TelemetryConfig;
  dc_paths : PathsConfig;
  dc_limits : LimitsConfig;
  dc_program : ProgramConfig;
  dc_auth : AuthConfig;
  dc_io : IoConfig;
  dc_watchdog : WatchdogConfig;
  dc_stop_output_policy : StopOutputPolicy;
  dc_rest : RestConfig }.

(** What serde fills in for absent fields. *)
Definition default_overrun_limit : Z := 2.
Definition default_group_id : bytes := bstr "plantA".
Definition default_telemetry_device_id : bytes := bstr "line".
Definition default_analog_period_ms : Z := 500.
Definition default_digital_cos_ms : Z := 20.
Definition default_rest_bind : bytes := bstr "127.0.0.1:8443".
Definition default_programs_path : bytes := bstr "/var/lib/soft-plc/programs".
Definition default_retain_path : bytes := bstr "/var/lib/soft-plc/retain".
Definition default_audit_path : bytes := bstr "/var/lib/soft-plc/audit".
Definition default_io_map_path : bytes := bstr "/var/lib/soft-plc/io-map.yaml".
Definition default_max_package_bytes : Z := 8 * 1024 * 1024.
Definition default_rest_rate : Z := 30.
Definition default_rest_burst : Z := 60.
Definition default_auth_fail_per_min : Z := 5.
Definition default_max_instances : Z := 4096.
Definition default_require_signature : bool := false.
Definition default_lockout_secs : Z := 60.
Definition default_io_drivers : list bytes := [bstr "sim"].
Definition default_hw_wd_path : bytes := bstr "/dev/watchdog".

Definition telemetry_default : TelemetryConfig :=
  mkTelemetryConfig true default_group_id default_telemetry_device_id []
    default_analog_period_ms default_digital_cos_ms.
Definition rest_default : RestConfig := mkRestConfig default_rest_bind.
Definition paths_default : PathsConfig :=
  mkPathsConfig default_programs_path default_retain_path default_audit_path default_io_map_path.
Definition limits_default : LimitsConfig :=
  mkLimitsConfig default_max_package_bytes default_rest_rate default_rest_burst
    default_auth_fail_per_min default_max_instances.
Definition program_default : ProgramConfig := mkProgramConfig default_require_signature.
Definition auth_default : AuthConfig := mkAuthConfig false [] [] [] false default_lockout_secs [].
Definition io_default : IoConfig := mkIoConfig false default_io_drivers.
Definition watchdog_default : WatchdogConfig := mkWatchdogConfig false default_hw_wd_path.

(** The document that states only what has no default. *)
Definition minimal_config (id : bytes) (tasks : list TaskConfig) : DeviceConfig :=
  mkDeviceConfig CONFIG_SCHEMA_VERSION Dev (mkIdentity id [] [])
    (mkScanConfig tasks default_overrun_limit None) telemetry_default paths_default limits_default
    program_default auth_default io_default watchdog_default PolicySafe rest_default.

(** ** validate.rs *)

Inductive ConfigError :=
  | UnsupportedVersion (found expected : Z)
  | Validation (msg : string).

Definition ALLOWED_DRIVERS : list bytes := map bstr ["sim"; "gpio"; "modbus_tcp"]%string.

(** The task loop; [names] is the set of names seen. *)
Fixpoint check_tasks (names : gset bytes) (tasks : list TaskConfig) : res ConfigError unit :=
  match tasks with
  | [] => Ok tt
  | t :: tasks =>
      if is_blank (tc_name t) then Err (Validation "task.name must be non-empty")
      else if bool_decide (tc_name t ∈ names) then Err (Validation "duplicate task.name")
      else if tc_period_ms t =? 0 then Err (Validation "period_ms must be > 0")
      else if 60000 <? tc_period_ms t then Err (Validation "period_ms must be <= 60000")
      else if is_blank (tc_entry t) then Err (Validation "entry must be non-empty")
      else check_tasks ({[tc_name t]} ∪ names) tasks
  end.

Fixpoint check_drivers (ds : list bytes) : res ConfigError unit :=
  match ds with
  | [] => Ok tt
  | d :: ds =>
      if bool_decide (d ∈ ALLOWED_DRIVERS) then check_drivers ds
      else Err (Validation "io.drivers: unknown driver")
  end.

Definition nonempty_hash (s : option bytes) : option bytes :=
  match s with
  | None => None
  | Some s => match trim s with [] => None | t => Some t end
  end.

Definition check_sha256_hex (value : bytes) : res ConfigError unit :=
  if negb (length value =? 64)%nat || negb (forallb is_ascii_hexdigit value)
  then Err (Validation "must be 64 hex characters") else Ok tt.

(** A hash that is given is well formed and not seen; the set with it. *)
Definition check_hash (h : option bytes) (seen : gset bytes) : res ConfigError (gset bytes) :=
  match h with
  | None => Ok seen
  | Some h =>
      check_sha256_hex h ;;
      if bool_decide (to_ascii_lowercase h ∈ seen) then Err (Validation "duplicate hash")
      else Ok ({[to_ascii_lowercase h]} ∪ seen)
  end.

Fixpoint check_principals (ids token_hashes cert_hashes : gset bytes) (ps : list PrincipalConfig) :
    res ConfigError unit :=
  match ps with
  | [] => Ok tt
  | p :: ps =>
      let id := trim (pc_id p) in
      let role := to_ascii_lowercase (trim (pc_role p)) in
      let token := nonempty_hash (pc_token_sha256 p) in
      let cert := nonempty_hash (pc_cert_sha256 p) in
      if match id with [] => true | _ => false end then Err (Validation "id must be non-empty")
      else if bool_decide (id ∈ ids) then Err (Validation "duplicate id")
      else if negb (bool_decide (role ∈ AUTH_ROLES)) then Err (Validation "unknown role")
      else if neither token cert
      then Err (Validation "at least one of token_sha256 or cert_sha256 is required")
      else
        token_hashes ← check_hash token token_hashes;
        cert_hashes ← check_hash cert cert_hashes;
        check_principals ({[id]} ∪ ids) token_hashes cert_hashes ps
  end.

Definition validate_auth (auth : AuthConfig) : res ConfigError unit :=
  if au_lockout_secs auth =? 0 then Err (Validation "auth.lockout_secs must be >= 1")
  else if au_required auth && match au_principals auth with [] => true | _ => false end
  then Err (Validation "auth.required=true requires at least one principal")
  else check_principals ∅ ∅ ∅ (au_principals auth).

(** Refuse when a condition holds. *)
Definition refuse_if (b : bool) (msg : string) : res ConfigError unit :=
  if b then Err (Validation msg) else Ok tt.

Definition validate (cfg : DeviceConfig) : res ConfigError DeviceConfig :=
  if negb (dc_version cfg =? CONFIG_SCHEMA_VERSION)
  then Err (UnsupportedVersion (dc_version cfg) CONFIG_SCHEMA_VERSION)
  else
    refuse_if (is_blank (di_id (dc_device cfg))) "device.id must be non-empty" ;;
    refuse_if (match sc_tasks (dc_scan cfg) with [] => true | _ => false end) "scan.tasks must not be empty" ;;
    check_tasks ∅ (sc_tasks (dc_scan cfg)) ;;
    refuse_if (sc_overrun_limit (dc_scan cfg) =? 0) "scan.overrun_limit must be >= 1" ;;
    refuse_if (li_max_package_bytes (dc_limits cfg) =? 0) "limits.max_package_bytes must be > 0" ;;
    refuse_if (64 * 1024 * 1024 <? li_max_package_bytes (dc_limits cfg))
      "limits.max_package_bytes must be <= 64 MiB" ;;
    (if te_enabled (dc_telemetry cfg) then
       refuse_if (is_blank (te_group_id (dc_telemetry cfg))) "telemetry.group_id must be non-empty" ;;
       refuse_if (te_analog_period_ms (dc_telemetry cfg) =? 0) "telemetry.analog_period_ms must be > 0"
     else Ok tt) ;;
    check_drivers (io_drivers (dc_io cfg)) ;;
    refuse_if (match io_drivers (dc_io cfg) with [] => true | _ => false end)
      "io.drivers must list at least one driver" ;;
    refuse_if (is_blank (pa_programs (dc_paths cfg))) "paths.programs must be non-empty" ;;
    refuse_if (negb (is_socket_addr (re_bind (dc_rest cfg)))) "rest.bind is not a host:port socket address" ;;
    refuse_if (li_auth_fail_per_min (dc_limits cfg) =? 0) "limits.auth_fail_per_min must be >= 1" ;;
    validate_auth (dc_auth cfg) ;;
    refuse_if (bool_decide (dc_profile cfg = Prod) && negb (pr_require_signature (dc_program cfg)))
      "profile=prod requires program.require_signature=true" ;;
    refuse_if (bool_decide (dc_profile cfg = Prod) && negb (au_required (dc_auth cfg)))
      "profile=prod requires auth.required=true" ;;
    Ok cfg.

(** ** What validation establishes *)

Lemma refuse_if_Ok b msg u : refuse_if b msg = Ok u <-> b = false /\ u = tt.
Proof. destruct b, u; cbn; naive_solver. Qed.

Lemma seq_Ok {A} (m : res ConfigError unit) (f : res ConfigError A) a :
  (m ;; f) = Ok a <-> m = Ok tt /\ f = Ok a.
Proof. destruct m as [[]| |]; cbn; naive_solver. Qed.

(** The task table of a valid configuration. *)
Definition tasks_ok (tasks : list TaskConfig) : Prop :=
  Forall (fun t => is_blank (tc_name t) = false /\ is_blank (tc_entry t) = false /\
                   tc_period_ms t <> 0 /\ tc_period_ms t <= 60000) tasks /\
  NoDup (map tc_name tasks).

Lemma check_tasks_Ok names tasks :
  check_tasks names tasks = Ok tt <->
  tasks_ok tasks /\ Forall (fun t => tc_name t ∉ names) tasks.
Proof.
  unfold tasks_ok. revert names. induction tasks as [|t tasks IH]; intros names; cbn [check_tasks map].
  - split; [|done]. intros _. repeat constructor.
  - rewrite NoDup_cons, !Forall_cons. destruct (is_blank (tc_name t)); [naive_solver|].
    case_bool_decide as Hn; [naive_solver|]. destruct (Z.eqb_spec (tc_period_ms t) 0); [naive_solver|].
    destruct (Z.ltb_spec 60000 (tc_period_ms t)); [naive_solver lia|]. destruct (is_blank (tc_entry t)); [naive_solver|].
    rewrite IH. assert (Hx : Forall (fun x => tc_name x ∉ ({[tc_name t]} ∪ names : gset bytes)) tasks <->
      tc_name t ∉ map tc_name tasks /\ Forall (fun x => tc_name x ∉ names) tasks).
    { rewrite !Forall_forall. change (map tc_name tasks) with (tc_name <$> tasks). rewrite list_elem_of_fmap.
      set_solver. }
    rewrite Hx. naive_solver.
Qed.
