(* ===== verification/IoImage.v ===== *)
(** * The process image and the outputs that reach the field

    Crate [plc-io], src/crates/plc-io/src/value.rs, image.rs, force.rs, driver.rs,
    field_gate.rs and the value types of map.rs; the simulation driver is
    src/crates/plc-io-sim/src/lib.rs. *)
From S2P Require Import Prelude Float32 PlcTypes.

(** ** Values (value.rs, map.rs) *)

Inductive ValueType := TyBool | TyInt | TyDint | TyReal | TyTime.

(** REAL is a 32-bit pattern. *)
Inductive PlcValue :=
  | PBool (b : bool)
  | PInt (v : Z)
  | PDint (v : Z)
  | PReal (v : Z)
  | PTime (v : Z).

#[export] Instance ValueType_eq_dec : EqDecision ValueType.
Proof. solve_decision. Defined.
#[export] Instance PlcValue_eq_dec : EqDecision PlcValue.
Proof. solve_decision. Defined.

Module Plc.
Definition default_of (ty : ValueType) : PlcValue :=
  match ty with
  | TyBool => PBool false
  | TyInt => PInt 0
  | TyDint | TyTime => PDint 0
  | TyReal => PReal 0
  end.

Definition value_type (v : PlcValue) : ValueType :=
  match v with
  | PBool _ => TyBool | PInt _ => TyInt | PDint _ => TyDint | PReal _ => TyReal | PTime _ => TyTime
  end.

Definition as_bool (v : PlcValue) : bool := match v with PBool b => b | _ => false end.

Definition as_f32 (v : PlcValue) : option Z :=
  match v with
  | PReal v => Some v
  | PInt v | PDint v | PTime v => Some (f32_of_int v)
  | PBool b => Some (if b then f32_one else f32_zero)
  end.

(** The derived [PartialEq]: REAL compares as a float. *)
Definition eqb (a b : PlcValue) : bool :=
  match a, b with
  | PBool x, PBool y => Bool.eqb x y
  | PInt x, PInt y | PDint x, PDint y | PTime x, PTime y => x =? y
  | PReal x, PReal y => f32_eq x y
  | _, _ => false
  end.
End Plc.

(** ** The image (image.rs) *)

(** The messages of [IoError] are left out. *)
Inductive IoError := NotReady | DriverFailure | Bounds | MapError.

Record TypedSlot := mkTyped { ts_value : PlcValue; ts_quality : Quality; ts_written : bool }.

Definition slot_zero (ty : ValueType) : TypedSlot := mkTyped (Plc.default_of ty) Good false.

Record SlotMeta := mkMeta { sm_tag : bytes; sm_ty : ValueType; sm_unit : bytes }.

Record ProcessImage := mkImage {
  pi_inputs : list TypedSlot;
  pi_outputs : list TypedSlot;
  pi_memory : list TypedSlot;
  pi_input_meta : list SlotMeta;
  pi_output_meta : list SlotMeta;
  pi_memory_meta : list SlotMeta;
  pi_output_safe : list PlcValue }.

Definition get_input (im : ProcessImage) (idx : nat) : res IoError TypedSlot :=
  ok_or (pi_inputs im !! idx) Bounds.
Definition get_output (im : ProcessImage) (idx : nat) : res IoError TypedSlot :=
  ok_or (pi_outputs im !! idx) Bounds.

Definition set_pi_inputs (x : list TypedSlot) (im : ProcessImage) : ProcessImage :=
  mkImage x (pi_outputs im) (pi_memory im) (pi_input_meta im) (pi_output_meta im)
    (pi_memory_meta im) (pi_output_safe im).
Definition set_pi_outputs (x : list TypedSlot) (im : ProcessImage) : ProcessImage :=
  mkImage (pi_inputs im) x (pi_memory im) (pi_input_meta im) (pi_output_meta im)
    (pi_memory_meta im) (pi_output_safe im).
Definition set_pi_memory (x : list TypedSlot) (im : ProcessImage) : ProcessImage :=
  mkImage (pi_inputs im) (pi_outputs im) x (pi_input_meta im) (pi_output_meta im)
    (pi_memory_meta im) (pi_output_safe im).

Definition set_input (im : ProcessImage) (idx : nat) (value : PlcValue) (quality : Quality) :
    res IoError ProcessImage :=
  match pi_inputs im !! idx with
  | None => Err Bounds
  | Some _ => Ok (set_pi_inputs (<[idx := mkTyped value quality true]> (pi_inputs im)) im)
  end.

Definition set_output (im : ProcessImage) (idx : nat) (value : PlcValue) :
    res IoError ProcessImage :=
  match pi_outputs im !! idx with
  | None => Err Bounds
  | Some slot =>
      Ok (set_pi_outputs (<[idx := mkTyped value (ts_quality slot) true]> (pi_outputs im)) im)
  end.

Definition input_quality_good (im : ProcessImage) (idx : nat) : bool :=
  match pi_inputs im !! idx with Some s => Qual.is_good (ts_quality s) | None => false end.

(** [with_sizes]; the tags are [I0], [Q0], [M0] and so on. *)
Definition region_meta (prefix : string) (n : nat) : list SlotMeta :=
  map (fun i => mkMeta (bstr prefix ++ decimal i) TyBool []) (List.seq 0 n).

Definition with_sizes (n_i n_q n_m : nat) : ProcessImage :=
  mkImage (replicate n_i (slot_zero TyBool)) (replicate n_q (slot_zero TyBool))
    (replicate n_m (slot_zero TyBool)) (region_meta "I" n_i) (region_meta "Q" n_q)
    (region_meta "M" n_m) (replicate n_q (PBool false)).

(** ** Forces and the effective output (force.rs) *)

Inductive BadQualityPolicy := ForceSafe | HoldLast.

#[export] Instance BadQualityPolicy_eq_dec : EqDecision BadQualityPolicy.
Proof. solve_decision. Defined.

(** Forces by output slot. *)
Abbreviation ForceTable := (gmap Z PlcValue).

Module Force.
Definition set (slot : Z) (value : PlcValue) (t : ForceTable) : ForceTable := <[slot := value]> t.
Definition clear (slot : Z) (t : ForceTable) : ForceTable := delete slot t.
Definition clear_all (t : ForceTable) : ForceTable := ∅.
Definition get (slot : Z) (t : ForceTable) : option PlcValue := t !! slot.
Definition is_empty (t : ForceTable) : bool := bool_decide (t = ∅).
End Force.

Record EffectiveOutputInput := mkEffective {
  ef_mode : OperatingMode;
  ef_global_force_safe : bool;
  ef_module_quality : Quality;
  ef_on_bad_quality : BadQualityPolicy;
  ef_force : option PlcValue;
  ef_program_value : PlcValue;
  ef_program_written : bool;
  ef_safe_state : PlcValue }.

Inductive EffectiveSource := GlobalSafe | ForceSource | ModuleSafe | ProgramSource | DefaultSafe.

Definition resolve_effective_output (i : EffectiveOutputInput) : PlcValue * EffectiveSource :=
  if ef_global_force_safe i || bool_decide (ef_mode i = Fault) then (ef_safe_state i, GlobalSafe)
  else
    match ef_force i with
    | Some v => (v, ForceSource)
    | None =>
        if Qual.is_bad (ef_module_quality i) && bool_decide (ef_on_bad_quality i = ForceSafe) then
          (ef_safe_state i, ModuleSafe)
        else if ef_program_written i then (ef_program_value i, ProgramSource)
        else (ef_safe_state i, DefaultSafe)
    end.

(** ** The mode mirror of field workers (field_gate.rs) *)

Definition mode_code (m : OperatingMode) : Z :=
  match m with Stop => 0 | Run => 1 | Fault => 2 | Sim => 3 end.

Definition mode_from (code : Z) : OperatingMode :=
  match code with 1 => Run | 2 => Fault | 3 => Sim | _ => Stop end.

Module Gate.
(** The atomic byte. *)
Definition new : Z := mode_code Stop.
Definition set_mode (m : OperatingMode) (gate : Z) : Z := mode_code m.
Definition mode (gate : Z) : OperatingMode := mode_from gate.
End Gate.

(** ** Drivers (driver.rs) *)

Record InputUpdate := mkUpdate { iu_values : list PlcValue; iu_quality : list Quality; iu_seq : Z }.

Definition update_zeros (n : nat) : InputUpdate := mkUpdate (replicate n (PBool false)) (replicate n Good) 0.

Record OutputImage := mkOutputs { oi_values : list PlcValue; oi_force_safe : bool }.

Record OutputModuleState := mkModule { om_quality : Quality; om_on_bad : BadQualityPolicy }.

(** The driver trait; [stop] and the diagnostics do not concern the scan. *)
Class IoDriver (D : Type) := {
  start : D -> D * res IoError unit;
  poll_inputs : D -> InputUpdate -> D * InputUpdate * res IoError unit;
  apply_outputs : D -> OutputImage -> D * res IoError unit;
  fill_output_module_state : D -> list OutputModuleState -> bool * list OutputModuleState }.

(** ** The simulation driver (plc-io-sim/src/lib.rs) *)

Record SimDriver := mkSim {
  sd_n_outputs : nat;
  sd_running : bool;
  sd_inputs : list PlcValue;
  sd_input_quality : list Quality;
  sd_last_outputs : list PlcValue;
  sd_last_force_safe : bool;
  sd_seq : Z;
  sd_quality_overrides : gmap nat Quality }.

Module SimDrv.
Definition new (n_inputs n_outputs : nat) : SimDriver :=
  mkSim n_outputs false (replicate n_inputs (PBool false)) (replicate n_inputs Good)
    (replicate n_outputs (PBool false)) false 0 ∅.

Definition set_input (idx : nat) (v : PlcValue) (d : SimDriver) : SimDriver :=
  mkSim (sd_n_outputs d) (sd_running d) (<[idx := v]> (sd_inputs d)) (sd_input_quality d)
    (sd_last_outputs d) (sd_last_force_safe d) (sd_seq d) (sd_quality_overrides d).

Definition set_input_quality (idx : nat) (q : Quality) (d : SimDriver) : SimDriver :=
  mkSim (sd_n_outputs d) (sd_running d) (sd_inputs d) (<[idx := q]> (sd_input_quality d))
    (sd_last_outputs d) (sd_last_force_safe d) (sd_seq d) (<[idx := q]> (sd_quality_overrides d)).

Definition start (d : SimDriver) : SimDriver * res IoError unit :=
  (mkSim (sd_n_outputs d) true (sd_inputs d) (sd_input_quality d) (sd_last_outputs d)
     (sd_last_force_safe d) (sd_seq d) (sd_quality_overrides d), Ok tt).

Definition poll_inputs (d : SimDriver) (out : InputUpdate) : SimDriver * InputUpdate * res IoError unit :=
  if negb (sd_running d) then (d, out, Err NotReady)
  else
    let seq := wrap_u 64 (sd_seq d + 1) in
    let quality := imap (fun i q => default q (sd_quality_overrides d !! i)) (sd_input_quality d) in
    let quality := quality ++ replicate (length (sd_inputs d) - length quality) Good in
    (mkSim (sd_n_outputs d) (sd_running d) (sd_inputs d) (sd_input_quality d) (sd_last_outputs d)
       (sd_last_force_safe d) seq (sd_quality_overrides d),
     mkUpdate (sd_inputs d) quality seq, Ok tt).

Definition apply_outputs (d : SimDriver) (image : OutputImage) : SimDriver * res IoError unit :=
  if negb (sd_running d) then (d, Err NotReady)
  else
    let values :=
      if oi_force_safe image then
        replicate (Nat.max (sd_n_outputs d) (length (oi_values image))) (PBool false)
      else
        oi_values image ++ replicate (sd_n_outputs d - length (oi_values image)) (PBool false) in
    (mkSim (sd_n_outputs d) (sd_running d) (sd_inputs d) (sd_input_quality d) values
       (oi_force_safe image) (sd_seq d) (sd_quality_overrides d), Ok tt).
End SimDrv.

#[export] Instance sim_driver : IoDriver SimDriver := {
  start := SimDrv.start;
  poll_inputs := SimDrv.poll_inputs;
  apply_outputs := SimDrv.apply_outputs;
  fill_output_module_state := fun _ into => (false, into) }.

(** A handle that writes the input channels of the driver it was cloned from. *)
Class InputInjector (D : Type) := {
  inj_set_input : D -> nat -> PlcValue -> D * res IoError unit;
  inj_set_input_quality : D -> nat -> Quality -> D * res IoError unit }.

(** [ss_inner] is behind the mutex that every clone of the handle locks. *)
Record SharedSim := mkShared { ss_inner : SimDriver; ss_n_inputs : nat }.

Module Shared.
Definition new (n_inputs n_outputs : nat) : SharedSim :=
  mkShared (SimDrv.start (SimDrv.new n_inputs n_outputs)).1 n_inputs.

Definition on_inner (f : SimDriver -> SimDriver * res IoError unit) (s : SharedSim) : SharedSim * res IoError unit :=
  let '(d, r) := f (ss_inner s) in (mkShared d (ss_n_inputs s), r).

Definition poll_inputs (s : SharedSim) (out : InputUpdate) : SharedSim * InputUpdate * res IoError unit :=
  let '(d, out, r) := SimDrv.poll_inputs (ss_inner s) out in (mkShared d (ss_n_inputs s), out, r).

Definition apply_outputs (s : SharedSim) (image : OutputImage) : SharedSim * res IoError unit :=
  on_inner (fun d => SimDrv.apply_outputs d image) s.

Definition set_input (s : SharedSim) (idx : nat) (v : PlcValue) : SharedSim * res IoError unit :=
  if (ss_n_inputs s <=? idx)%nat then (s, Err Bounds) else on_inner (fun d => (SimDrv.set_input idx v d, Ok tt)) s.

Definition set_input_quality (s : SharedSim) (idx : nat) (q : Quality) : SharedSim * res IoError unit :=
  if (ss_n_inputs s <=? idx)%nat then (s, Err Bounds) else on_inner (fun d => (SimDrv.set_input_quality idx q d, Ok tt)) s.
End Shared.

#[export] Instance shared_sim : IoDriver SharedSim := {
  start s := (s, Ok tt);
  poll_inputs := Shared.poll_inputs;
  apply_outputs := Shared.apply_outputs;
  fill_output_module_state := fun _ into => (false, into) }.

#[export] Instance shared_injector : InputInjector SharedSim := {
  inj_set_input := Shared.set_input;
  inj_set_input_quality := Shared.set_input_quality }.

(** ** What the scan relies on of a driver *)

(** Values within the range of their Rust type. *)
Definition plc_ok (v : PlcValue) : Prop :=
  match v with
  | PBool _ => True
  | PInt v => s_range 16 v
  | PDint v | PTime v => s_range 32 v
  | PReal v => u_range 32 v
  end.

(** A driver whose invariant holds hands over values of their types. *)
Class IoDriverLaws (D : Type) `{!IoDriver D} := {
  driver_ok : D -> Prop;
  start_law d : driver_ok d -> driver_ok (start d).1;
  poll_law d u : driver_ok d -> Forall plc_ok (iu_values u) ->
    let '(d', u', _) := poll_inputs d u in driver_ok d' /\ Forall plc_ok (iu_values u');
  apply_law d image : driver_ok d -> driver_ok (apply_outputs d image).1 }.

#[export] Program Instance sim_driver_laws : IoDriverLaws SimDriver := {
  driver_ok d := Forall plc_ok (sd_inputs d) }.
Next Obligation. done. Qed.
Next Obligation.
  intros d u Hd Hu. cbn. unfold SimDrv.poll_inputs. by destruct (sd_running d).
Qed.
Next Obligation.
  intros d image Hd. cbn. unfold SimDrv.apply_outputs. by destruct (sd_running d).
Qed.

#[export] Program Instance shared_sim_laws : IoDriverLaws SharedSim := {
  driver_ok s := Forall plc_ok (sd_inputs (ss_inner s)) }.
Next Obligation. done. Qed.
Next Obligation.
  intros s u Hs Hu. cbn. unfold Shared.poll_inputs, SimDrv.poll_inputs. by destruct (sd_running _).
Qed.
Next Obligation.
  intros s image Hs. cbn. unfold Shared.apply_outputs, Shared.on_inner, SimDrv.apply_outputs. by destruct (sd_running _).
Qed.

(** An injector writes a value of the channel's type, so the driver stays well-formed. *)
Class InputInjectorLaws (D : Type) `{!IoDriver D, !IoDriverLaws D, !InputInjector D} := {
  inject_law d i v : driver_ok d -> plc_ok v -> driver_ok (inj_set_input d i v).1;
  inject_quality_law d i q : driver_ok d -> driver_ok (inj_set_input_quality d i q).1 }.

#[export] Program Instance shared_injector_laws : InputInjectorLaws SharedSim.
Next Obligation.
  intros s i v Hs Hv. cbn. unfold Shared.set_input. case_match; [done|]. cbn. by apply Forall_insert.
Qed.
Next Obligation. intros s i q Hs. cbn. unfold Shared.set_input_quality. by case_match. Qed.

Lemma sim_new_ok n_i n_q : driver_ok (SimDrv.new n_i n_q).
Proof. cbn. by apply Forall_replicate. Qed.
