(* ===== verification/IoMap.v ===== *)
(** * I/O maps

    Crate [plc-io], src/crates/plc-io/src/map.rs and scale.rs: the bindings of an
    I/O map, their resolution to slots of the process image, and the scaling of
    analog values. YAML and JSON parsing is the serde libraries'; [IoMap] is what
    they hand over. f64 values are bit patterns ([Float64]). *)
From S2P Require Import Prelude Float32 Float64 PlcTypes IoImage.

(** ** scale.rs *)

Definition apply_scale_offset_clamp (raw scale offset : Z) (clamp : option (Z * Z)) : Z :=
  let eng := f64_add (f64_mul raw scale) offset in
  match clamp with
  | Some (lo, hi) =>
      let '(lo, hi) := if f64_le lo hi then (lo, hi) else (hi, lo) in
      if f64_lt eng lo then lo else if f64_lt hi eng then hi else eng
  | None => eng
  end.

Definition eng_to_raw (eng scale offset : Z) : Z :=
  if f64_eq scale f64_zero then f64_zero else f64_div (f64_sub eng offset) scale.

(** ** The document *)

Inductive ImagePlane := PlaneI | PlaneQ | PlaneM.
Inductive BindingDirection := DirInput | DirOutput | DirMemory.
Inductive RegisterType := Holding | InputRegister | Coil | Discrete.
Inductive RawType := RawBool | RawInt | RawDint | RawUint | RawReal.

#[export] Instance ImagePlane_eq_dec : EqDecision ImagePlane.
Proof. solve_decision. Defined.
#[export] Instance RawType_eq_dec : EqDecision RawType.
Proof. solve_decision. Defined.
#[export] Instance RegisterType_eq_dec : EqDecision RegisterType.
Proof. solve_decision. Defined.

Definition direction (p : ImagePlane) : BindingDirection :=
  match p with PlaneI => DirInput | PlaneQ => DirOutput | PlaneM => DirMemory end.

(** What is read of a [serde_json::Value]: a boolean, or a number by its
    [as_i64] and [as_f64]. *)
Inductive JsonValue := JBool (b : bool) | JNumber (as_i64 as_f64 : option Z) | JOther.

(** [bit] to [raw_type] are for the drivers. *)
Record IoBinding := mkBinding {
  b_tag : bytes;
  b_image : ImagePlane;
  b_value_type : ValueType;
  b_bit : option Z;
  b_slot : option Z;
  b_scale : Z;
  b_offset : Z;
  b_clamp : option (Z * Z);
  b_unit : bytes;
  b_safe_state : option JsonValue;
  b_register : option Z;
  b_register_type : option RegisterType;
  b_raw_type : option RawType }.

(** [config] is opaque to this crate. *)
Record IoModule := mkIoModule {
  m_id : bytes;
  m_driver : bytes;
  m_on_bad_quality : BadQualityPolicy;
  m_bindings : list IoBinding }.

Record IoMap := mkIoMap { map_version : Z; map_modules : list IoModule }.

(** The checks of [from_yaml_str] after parsing. *)
Definition check_document (m : IoMap) : res IoError IoMap :=
  if negb (map_version m =? 1) then Err MapError
  else match map_modules m with [] => Err MapError | _ => Ok m end.

(** ** Resolution *)

Record ResolvedBinding := mkResolved {
  rb_module_index : nat;
  rb_module_id : bytes;
  rb_driver : bytes;
  rb_binding_index : nat;
  rb_slot : Z;
  rb_image : ImagePlane }.

Record ResolvedIoMap := mkResolvedMap { rm_image : ProcessImage; rm_bindings : list ResolvedBinding }.

Record SlotBuild := mkBuild { sl_tag : bytes; sl_ty : ValueType; sl_unit : bytes; sl_safe : option PlcValue }.

Definition json_i64 (raw : JsonValue) : res IoError Z :=
  match raw with
  | JNumber n _ => ok_or n MapError
  | JBool b => Ok (if b then 1 else 0)
  | JOther => Err MapError
  end.

(** The [as] casts keep the low bits. *)
Definition parse_safe_state (ty : ValueType) (raw : option JsonValue) : res IoError PlcValue :=
  match raw with
  | None => Ok (Plc.default_of ty)
  | Some raw =>
      match ty with
      | TyBool => match raw with JBool b => Ok (PBool b) | _ => Err MapError end
      | TyInt => n ← json_i64 raw; Ok (PInt (wrap_s 16 n))
      | TyDint => n ← json_i64 raw; Ok (PDint (wrap_s 32 n))
      | TyTime => n ← json_i64 raw; Ok (PTime (wrap_s 32 n))
      | TyReal =>
          match raw with
          | JNumber _ f => x ← ok_or f MapError; Ok (PReal (f32_of_f64 x))
          | _ => Err MapError
          end
      end
  end.

(** The local variables of [resolve]: the three planes and their next slots. *)
Record Resolving := mkResolving {
  rv_plane : ImagePlane -> list (option SlotBuild);
  rv_next : ImagePlane -> Z;
  rv_names : gset bytes;
  rv_bindings : list ResolvedBinding }.

Definition resolving_new : Resolving := mkResolving (fun _ => []) (fun _ => 0) ∅ [].

(** An update of one of three variables. *)
Definition upd_plane {A} (p : ImagePlane) (x : A) (f : ImagePlane -> A) : ImagePlane -> A :=
  fun q => if decide (q = p) then x else f q.

(** [plane.resize_with(idx + 1, || None)]. *)
Definition grow (idx : nat) (plane : list (option SlotBuild)) : list (option SlotBuild) :=
  plane ++ replicate (S idx - length plane) None.

Definition slot_taken (idx : nat) (plane : list (option SlotBuild)) : bool :=
  match plane !! idx with Some (Some _) => true | _ => false end.

(** One turn of the binding loop. *)
Definition resolve_binding (mi : nat) (md : IoModule) (bi : nat) (b : IoBinding) (st : Resolving) :
    res IoError Resolving :=
  if is_blank (b_tag b) then Err MapError
  else if bool_decide (b_tag b ∈ rv_names st) then Err MapError
  else
    let p := b_image b in
    let next := rv_next st p in
    let '(slot, next) :=
      match b_slot b with Some s => (s, next) | None => (next, sat_add_u 32 next 1) end in
    let idx := Z.to_nat slot in
    let plane := grow idx (rv_plane st p) in
    if slot_taken idx plane then Err MapError
    else
      let next := match b_slot b with Some _ => Z.max next (sat_add_u 32 slot 1) | None => next end in
      safe ← match p with
             | PlaneQ => v ← parse_safe_state (b_value_type b) (b_safe_state b); Ok (Some v)
             | _ => Ok None
             end;
      Ok (mkResolving
            (upd_plane p (<[idx := Some (mkBuild (b_tag b) (b_value_type b) (b_unit b) safe)]> plane) (rv_plane st))
            (upd_plane p next (rv_next st))
            ({[b_tag b]} ∪ rv_names st)
            (rv_bindings st ++ [mkResolved mi (m_id md) (m_driver md) bi slot p])).

Fixpoint resolve_bindings (mi : nat) (md : IoModule) (bi : nat) (bs : list IoBinding) (st : Resolving) :
    res IoError Resolving :=
  match bs with
  | [] => Ok st
  | b :: bs => st ← resolve_binding mi md bi b st; resolve_bindings mi md (S bi) bs st
  end.

Fixpoint resolve_modules (mi : nat) (mds : list IoModule) (st : Resolving) : res IoError Resolving :=
  match mds with
  | [] => Ok st
  | md :: mds =>
      if is_blank (m_id md) then Err MapError
      else if is_blank (m_driver md) then Err MapError
      else st ← resolve_bindings mi md 0 (m_bindings md) st; resolve_modules (S mi) mds st
  end.

Definition fill_slots (plane : list (option SlotBuild)) : list TypedSlot :=
  map (fun s => slot_zero (match s with Some b => sl_ty b | None => TyBool end)) plane.

Definition fill_meta (plane : list (option SlotBuild)) (prefix : string) : list SlotMeta :=
  imap (fun i s => match s with
                   | Some b => mkMeta (sl_tag b) (sl_ty b) (sl_unit b)
                   | None => mkMeta (bstr prefix ++ decimal i) TyBool []
                   end) plane.

Definition fill_safe (plane : list (option SlotBuild)) : list PlcValue :=
  map (fun s => match s with
                | Some b => default (PBool false) (sl_safe b)
                | None => PBool false
                end) plane.

Definition resolve (m : IoMap) : res IoError ResolvedIoMap :=
  st ← resolve_modules 0 (map_modules m) resolving_new;
  let inputs := rv_plane st PlaneI in
  let outputs := rv_plane st PlaneQ in
  let memory := rv_plane st PlaneM in
  Ok (mkResolvedMap
        (mkImage (fill_slots inputs) (fill_slots outputs) (fill_slots memory)
           (fill_meta inputs "I") (fill_meta outputs "Q") (fill_meta memory "M") (fill_safe outputs))
        (rv_bindings st)).

Definition build_image (m : IoMap) : res IoError ProcessImage := r ← resolve m; Ok (rm_image r).

(** ** What resolution establishes *)

(** A binding with its place in the document. *)
Record Entry := mkEntry { ey_module : nat; ey_md : IoModule; ey_index : nat; ey_binding : IoBinding }.

Fixpoint entries (mi : nat) (md : IoModule) (bi : nat) (bs : list IoBinding) : list Entry :=
  match bs with
  | [] => []
  | b :: bs => mkEntry mi md bi b :: entries mi md (S bi) bs
  end.

Fixpoint module_entries (mi : nat) (mds : list IoModule) : list Entry :=
  match mds with
  | [] => []
  | md :: mds => entries mi md 0 (m_bindings md) ++ module_entries (S mi) mds
  end.

(** Every binding of the document, in order. *)
Definition all_entries (m : IoMap) : list Entry := module_entries 0 (map_modules m).

(** Slots of the document are [u32]. *)
Definition slot_ok (x : Entry) : Prop :=
  match b_slot (ey_binding x) with Some s => u_range 32 s | None => True end.

Definition plane_slots (im : ProcessImage) (p : ImagePlane) : list TypedSlot :=
  match p with PlaneI => pi_inputs im | PlaneQ => pi_outputs im | PlaneM => pi_memory im end.
Definition plane_meta (im : ProcessImage) (p : ImagePlane) : list SlotMeta :=
  match p with PlaneI => pi_input_meta im | PlaneQ => pi_output_meta im | PlaneM => pi_memory_meta im end.

(** One past the highest slot taken in a plane. *)
Definition plane_len (p : ImagePlane) (rbs : list ResolvedBinding) : Z :=
  fold_right (fun rb n => if decide (rb_image rb = p) then Z.max (rb_slot rb + 1) n else n) 0 rbs.

(** The layout rule: an explicit slot is respected, a binding without one is
    appended to its plane. *)
Definition place (rbs : list ResolvedBinding) (x : Entry) : ResolvedBinding :=
  let b := ey_binding x in
  mkResolved (ey_module x) (m_id (ey_md x)) (m_driver (ey_md x)) (ey_index x)
    (default (plane_len (b_image b) rbs) (b_slot b)) (b_image b).

Definition place_all (xs : list Entry) : list ResolvedBinding :=
  fold_left (fun rbs x => rbs ++ [place rbs x]) xs [].

(** The slot [rb] names holds the binding of [x]. *)
Definition built (st : Resolving) (x : Entry) (rb : ResolvedBinding) : Prop :=
  exists safe, rv_plane st (rb_image rb) !! Z.to_nat (rb_slot rb) =
      Some (Some (mkBuild (b_tag (ey_binding x)) (b_value_type (ey_binding x)) (b_unit (ey_binding x)) safe)) /\
    (rb_image rb = PlaneQ -> exists v, safe = Some v /\
      parse_safe_state (b_value_type (ey_binding x)) (b_safe_state (ey_binding x)) = Ok v).

Definition rb_key (rb : ResolvedBinding) : ImagePlane * Z := (rb_image rb, rb_slot rb).

Record resolving_ok (seen : list Entry) (st : Resolving) : Prop := {
  ro_places : rv_bindings st = place_all seen;
  ro_built : Forall2 (built st) seen (rv_bindings st);
  ro_keys : NoDup (map rb_key (rv_bindings st));
  ro_tags : NoDup (map (fun x => b_tag (ey_binding x)) seen);
  ro_names : forall t, t ∈ rv_names st <-> t ∈ map (fun x => b_tag (ey_binding x)) seen;
  ro_only : forall p i sb, rv_plane st p !! i = Some (Some sb) ->
    (p, Z.of_nat i) ∈ map rb_key (rv_bindings st);
  ro_range : Forall (fun rb => u_range 32 (rb_slot rb)) (rv_bindings st);
  ro_len : forall p, length (rv_plane st p) = Z.to_nat (plane_len p (rv_bindings st));
  ro_next : forall p, rv_next st p = Z.min (plane_len p (rv_bindings st)) (2 ^ 32 - 1) }.

Lemma plane_len_app p rbs rb :
  plane_len p (rbs ++ [rb]) =
  if decide (rb_image rb = p) then Z.max (plane_len p rbs) (rb_slot rb + 1) else plane_len p rbs.
Proof.
  induction rbs as [|x rbs IH]; cbn; [by case_decide; [lia|]|]. unfold plane_len in IH. rewrite IH. repeat case_decide; lia.
Qed.

(** The length of a plane is reached by one of its bindings. *)
Lemma plane_len_cases p rbs :
  Forall (fun rb => u_range 32 (rb_slot rb)) rbs ->
  plane_len p rbs = 0 \/
  exists s, plane_len p rbs = s + 1 /\ u_range 32 s /\ (p, s) ∈ map rb_key rbs.
Proof.
  induction 1 as [|x rbs Hx Hr IH]; cbn; [by left|].
  destruct (decide (rb_image x = p)) as [<-|_].
  - right. destruct (Z.max_spec (rb_slot x + 1) (plane_len (rb_image x) rbs)) as [[Hlt Hm]|[Hle Hm]].
    + destruct IH as [IH|(s & Hs & Hrs & Hin)]; [unfold u_range in Hx; lia|].
      exists s. split; [unfold plane_len in *; lia|]. split; [done|]. by right.
    + exists (rb_slot x). split; [unfold plane_len in *; lia|]. split; [done|]. by left.
  - destruct IH as [IH|(s & Hs & Hrs & Hin)]; [by left|]. right. exists s. do 2 (split; [done|]). by right.
Qed.

Lemma grow_lookup idx plane i sb :
  grow idx plane !! i = Some (Some sb) <-> plane !! i = Some (Some sb).
Proof.
  unfold grow. split.
  - intros [H|[_ H]]%lookup_app_Some; [done|]. by apply lookup_replicate in H as [? _].
  - by apply lookup_app_l_Some.
Qed.

Lemma grow_length idx plane : length (grow idx plane) = Nat.max (length plane) (S idx).
Proof. unfold grow. rewrite length_app, length_replicate. lia. Qed.

Lemma grow_lt idx plane : (idx < length (grow idx plane))%nat.
Proof. rewrite grow_length. lia. Qed.

(** Filling a free slot keeps the filled ones. *)
Lemma fill_keeps idx plane b i sb :
  slot_taken idx (grow idx plane) = false -> plane !! i = Some (Some sb) ->
  i <> idx /\ (<[idx := Some b]> (grow idx plane)) !! i = Some (Some sb).
Proof.
  intros Hfree Hi. assert (i <> idx).
  { intros ->. apply (grow_lookup idx) in Hi. unfold slot_taken in Hfree. by rewrite Hi in Hfree. }
  split; [done|]. rewrite list_lookup_insert_ne by done. by apply grow_lookup.
Qed.

Lemma built_mono st st' x rb :
  (forall p i sb, rv_plane st p !! i = Some (Some sb) -> rv_plane st' p !! i = Some (Some sb)) ->
  built st x rb -> built st' x rb.
Proof. intros H (safe & Hl & Hs). exists safe. split; [by apply H|done]. Qed.

Lemma key_taken seen st p s :
  resolving_ok seen st -> (p, s) ∈ map rb_key (rv_bindings st) ->
  slot_taken (Z.to_nat s) (grow (Z.to_nat s) (rv_plane st p)) = true.
Proof.
  intros Hok Hin. apply list_elem_of_fmap in Hin as (rb & [= -> ->] & [j Hj]%list_elem_of_lookup).
  destruct (Forall2_lookup_r _ _ _ _ _ (ro_built _ _ Hok) Hj) as (y & _ & safe & Hl & _).
  apply (grow_lookup (Z.to_nat (rb_slot rb))) in Hl. unfold slot_taken. by rewrite Hl.
Qed.

(** A free slot was chosen by the layout rule: the counter had not saturated. *)
Lemma chosen_slot seen st b slot next :
  (forall s, b_slot b = Some s -> u_range 32 s) -> resolving_ok seen st ->
  let p := b_image b in
  match b_slot b with Some s => (s, rv_next st p) | None => (rv_next st p, sat_add_u 32 (rv_next st p) 1) end
    = (slot, next) ->
  slot_taken (Z.to_nat slot) (grow (Z.to_nat slot) (rv_plane st p)) = false ->
  let n := plane_len p (rv_bindings st) in
  u_range 32 slot /\ slot = default n (b_slot b) /\
  match b_slot b with Some _ => Z.max next (sat_add_u 32 slot 1) | None => next end
    = Z.min (Z.max n (slot + 1)) (2 ^ 32 - 1).
Proof.
  intros Hb Hok p Hslot Hfree n. pose proof (ro_next _ _ Hok p) as Hn. change (plane_len p _) with n in Hn.
  destruct (b_slot b) as [s|]; injection Hslot as <- <-.
  - specialize (Hb s eq_refl). split; [done|]. split; [done|]. unfold sat_add_u, u_range in *. lia.
  - destruct (plane_len_cases p _ (ro_range _ _ Hok)) as [H0|(s & Hs & Hrs & Hin)];
      [change (plane_len p _) with n in H0|change (plane_len p _) with n in Hs].
    + unfold sat_add_u, u_range in *. cbn. lia.
    + destruct (decide (n <= 2 ^ 32 - 1)) as [Hle|Hgt].
      * unfold sat_add_u, u_range in *. cbn. lia.
      * exfalso. replace (rv_next st p) with s in Hfree by (unfold u_range in *; lia).
        by rewrite (key_taken _ _ _ _ Hok Hin) in Hfree.
Qed.

(** What a successful turn computes. *)
Lemma resolve_binding_Ok seen mi md bi b st st' :
  slot_ok (mkEntry mi md bi b) -> resolving_ok seen st -> resolve_binding mi md bi b st = Ok st' ->
  let rb := place (rv_bindings st) (mkEntry mi md bi b) in
  let idx := Z.to_nat (rb_slot rb) in
  let plane := grow idx (rv_plane st (b_image b)) in
  exists safe next,
    st' = mkResolving
            (upd_plane (b_image b)
               (<[idx := Some (mkBuild (b_tag b) (b_value_type b) (b_unit b) safe)]> plane) (rv_plane st))
            (upd_plane (b_image b) next (rv_next st)) ({[b_tag b]} ∪ rv_names st) (rv_bindings st ++ [rb]) /\
    u_range 32 (rb_slot rb) /\ b_tag b ∉ rv_names st /\ slot_taken idx plane = false /\
    next = Z.min (Z.max (plane_len (b_image b) (rv_bindings st)) (rb_slot rb + 1)) (2 ^ 32 - 1) /\
    (b_image b = PlaneQ -> exists v, safe = Some v /\
      parse_safe_state (b_value_type b) (b_safe_state b) = Ok v).
Proof.
  intros Hb Hok. unfold resolve_binding.
  destruct (is_blank (b_tag b)); [done|]. destruct (bool_decide _) eqn:Hname; [done|].
  apply bool_decide_eq_false_1 in Hname.
  match goal with |- (let '(_, _) := ?m in _) = _ -> _ => destruct m as [slot next] eqn:Hslot end.
  destruct (slot_taken _ _) eqn:Hfree; [done|].
  intros Hr. apply res_bind_Ok in Hr as (safe & Hsafe & Hr). apply Ok_inj in Hr as <-.
  destruct (chosen_slot seen st b slot next) as (Hr & Hs & Hn); [|done..|].
  { intros s Hbs. unfold slot_ok in Hb. cbn in Hb. by rewrite Hbs in Hb. }
  exists safe. eexists. unfold place. cbn. rewrite <-Hs. split; [reflexivity|]. do 4 (split; [done|]).
  intros Hq. rewrite Hq in Hsafe. cbn in Hsafe.
  apply res_bind_Ok in Hsafe as (v & Hv & Hs'). apply Ok_inj in Hs' as <-. by exists v.
Qed.

Lemma nodup_snoc {A} (l : list A) x : NoDup l -> x ∉ l -> NoDup (l ++ [x]).
Proof.
  intros Hl Hx. apply NoDup_app. split; [done|]. split; [|apply NoDup_singleton].
  intros y Hy ->%list_elem_of_singleton. done.
Qed.

Lemma resolve_binding_ok seen mi md bi b st st' :
  slot_ok (mkEntry mi md bi b) -> resolving_ok seen st ->
  resolve_binding mi md bi b st = Ok st' -> resolving_ok (seen ++ [mkEntry mi md bi b]) st'.
Proof.
  intros Hb Hok Hr. pose proof (resolve_binding_Ok _ _ _ _ _ _ _ Hb Hok Hr) as Hspec. cbv zeta in Hspec.
  set (x := mkEntry mi md bi b) in *. set (rb := place _ x) in *. set (idx := Z.to_nat (rb_slot rb)) in *.
  destruct Hspec as (safe & next & -> & Hrange & Htag & Hfree & Hnext & Hsafe). clear Hr.
  set (bld := mkBuild _ _ _ _). set (st' := mkResolving _ _ _ _).
  assert (Hmono : forall q i sb, rv_plane st q !! i = Some (Some sb) -> rv_plane st' q !! i = Some (Some sb)).
  { intros q i sb Hq. cbn. unfold upd_plane. case_decide as Hd; [subst q|done].
    by apply (fill_keeps idx _ bld) in Hq as [_ ?]. }
  pose proof (key_taken _ _ (b_image b) (rb_slot rb) Hok) as Hnew. fold idx in Hnew. rewrite Hfree in Hnew.
  destruct Hok as [H1 H2 H3 H4 H5 H6 H7 H8 H9]. split.
  - unfold place_all. rewrite fold_left_app. fold (place_all seen). cbn. by rewrite <-H1.
  - apply Forall2_app.
    + eapply Forall2_impl; [exact H2|]. intros y rb'. by apply built_mono.
    + repeat constructor. exists safe. split; [|done]. cbn. unfold upd_plane. rewrite decide_True by done.
      apply list_lookup_insert_eq, grow_lt.
  - cbn. rewrite map_app. apply nodup_snoc; [done|]. intros Hin. by specialize (Hnew Hin).
  - rewrite map_app. apply nodup_snoc; [done|]. by rewrite <-H5.
  - intros t. cbn. rewrite map_app, elem_of_app, <-H5; cbn. rewrite list_elem_of_singleton. set_solver.
  - intros q i sb. cbn. unfold upd_plane. rewrite map_app, elem_of_app. case_decide as Hd; [subst q|].
    + destruct (decide (i = idx)) as [->|Hne].
      * intros _. right. apply list_elem_of_singleton. unfold rb_key. subst idx. unfold u_range in *.
        cbn in *. f_equal. lia.
      * rewrite list_lookup_insert_ne by done. intros Hi%grow_lookup%H6. by left.
    + intros Hi%H6. by left.
  - cbn. apply Forall_app. split; [done|]. by constructor.
  - intros q. unfold st'. cbn [rv_plane rv_bindings]. unfold upd_plane. rewrite plane_len_app. change (rb_image rb) with (b_image b). specialize (H8 q). repeat case_decide; subst; try done.
    rewrite length_insert, grow_length. subst idx. unfold u_range in *. cbn in *. lia.
  - intros q. unfold st'. cbn [rv_next rv_bindings]. unfold upd_plane. rewrite plane_len_app. change (rb_image rb) with (b_image b). repeat case_decide; subst; try done.
Qed.

Lemma resolve_bindings_ok seen mi md bi bs st st' :
  Forall slot_ok (entries mi md bi bs) -> resolving_ok seen st ->
  resolve_bindings mi md bi bs st = Ok st' -> resolving_ok (seen ++ entries mi md bi bs) st'.
Proof.
  revert seen bi st. induction bs as [|b bs IH]; intros seen bi st Hb Hst Hr.
  - cbn. rewrite app_nil_r. by apply Ok_inj in Hr as <-.
  - cbn in Hb, Hr |- *. apply Forall_cons in Hb as [Hb Hbs]. apply res_bind_Ok in Hr as (st1 & H1 & H2).
    eapply resolve_binding_ok in H1; [|done|done].
    specialize (IH _ _ _ Hbs H1 H2). by rewrite <-app_assoc in IH.
Qed.

Lemma resolve_modules_ok seen mi mds st st' :
  Forall slot_ok (module_entries mi mds) -> resolving_ok seen st ->
  resolve_modules mi mds st = Ok st' -> resolving_ok (seen ++ module_entries mi mds) st'.
Proof.
  revert seen mi st. induction mds as [|md mds IH]; intros seen mi st Hb Hst Hr.
  - cbn. rewrite app_nil_r. by apply Ok_inj in Hr as <-.
  - cbn in Hb, Hr |- *. apply Forall_app in Hb as [Hb Hbs]. do 2 (case_match; [done|]).
    apply res_bind_Ok in Hr as (st1 & H1 & H2). eapply resolve_bindings_ok in H1; [|done|done].
    specialize (IH _ _ _ Hbs H1 H2). by rewrite <-app_assoc in IH.
Qed.

Lemma resolving_new_ok : resolving_ok [] resolving_new.
Proof. split; try constructor; cbn; try done; try set_solver. Qed.

(** The slot named by [rb] of [im] is that of the binding of [x]: its type, zero
    valued, its tag and unit, and for an output its parsed safe state. *)
Definition holds (im : ProcessImage) (x : Entry) (rb : ResolvedBinding) : Prop :=
  let b := ey_binding x in
  let i := Z.to_nat (rb_slot rb) in
  plane_slots im (rb_image rb) !! i = Some (slot_zero (b_value_type b)) /\
  plane_meta im (rb_image rb) !! i = Some (mkMeta (b_tag b) (b_value_type b) (b_unit b)) /\
  (rb_image rb = PlaneQ -> exists v,
     parse_safe_state (b_value_type b) (b_safe_state b) = Ok v /\ pi_output_safe im !! i = Some v).

Definition plane_prefix (p : ImagePlane) : string :=
  match p with PlaneI => "I" | PlaneQ => "Q" | PlaneM => "M" end.

(** A slot no binding names is a BOOL with a made-up tag and a FALSE safe state. *)
Definition placeholder (im : ProcessImage) (p : ImagePlane) (i : nat) : Prop :=
  plane_slots im p !! i = Some (slot_zero TyBool) /\
  plane_meta im p !! i = Some (mkMeta (bstr (plane_prefix p) ++ decimal i) TyBool []) /\
  (p = PlaneQ -> pi_output_safe im !! i = Some (PBool false)).

Definition image_of (st : Resolving) : ProcessImage :=
  let inputs := rv_plane st PlaneI in
  let outputs := rv_plane st PlaneQ in
  let memory := rv_plane st PlaneM in
  mkImage (fill_slots inputs) (fill_slots outputs) (fill_slots memory)
    (fill_meta inputs "I") (fill_meta outputs "Q") (fill_meta memory "M") (fill_safe outputs).

Lemma image_of_slots st p : plane_slots (image_of st) p = fill_slots (rv_plane st p).
Proof. by destruct p. Qed.
Lemma image_of_meta st p : plane_meta (image_of st) p = fill_meta (rv_plane st p) (plane_prefix p).
Proof. by destruct p. Qed.

Lemma fill_slots_lookup plane i :
  fill_slots plane !! i =
  (fun s => slot_zero (match s with Some b => sl_ty b | None => TyBool end)) <$> plane !! i.
Proof. unfold fill_slots. change (@map (option SlotBuild) TypedSlot) with (@fmap list _ (option SlotBuild) TypedSlot). apply list_lookup_fmap. Qed.

Lemma fill_safe_lookup plane i :
  fill_safe plane !! i =
  (fun s => match s with Some b => default (PBool false) (sl_safe b) | None => PBool false end) <$> plane !! i.
Proof. unfold fill_safe. change (@map (option SlotBuild) PlcValue) with (@fmap list _ (option SlotBuild) PlcValue). apply list_lookup_fmap. Qed.

Lemma built_holds st x rb : built st x rb -> holds (image_of st) x rb.
Proof.
  intros (safe & Hl & Hs). unfold holds. rewrite image_of_slots, image_of_meta, fill_slots_lookup, Hl.
  split; [done|]. split; [unfold fill_meta; by rewrite list_lookup_imap, Hl|].
  intros Hq. destruct (Hs Hq) as (v & -> & Hv). exists v. split; [done|]. rewrite Hq in Hl.
  cbn [image_of pi_output_safe]. by rewrite fill_safe_lookup, Hl.
Qed.

Lemma hole_placeholder st p i : rv_plane st p !! i = Some None -> placeholder (image_of st) p i.
Proof.
  intros Hl. unfold placeholder. rewrite image_of_slots, image_of_meta, fill_slots_lookup, Hl.
  split; [done|]. split; [unfold fill_meta; by rewrite list_lookup_imap, Hl|].
  intros ->. cbn [image_of pi_output_safe]. by rewrite fill_safe_lookup, Hl.
Qed.

Lemma resolve_Ok m r :
  Forall slot_ok (all_entries m) -> resolve m = Ok r ->
  exists st, resolving_ok (all_entries m) st /\ r = mkResolvedMap (image_of st) (rv_bindings st).
Proof.
  intros Hs Hr. apply res_bind_Ok in Hr as (st & Hst & Hr). apply Ok_inj in Hr as <-.
  exists st. split; [|done].
  exact (resolve_modules_ok [] 0 (map_modules m) resolving_new st Hs resolving_new_ok Hst).
Qed.

(** C33: a resolved I/O map lays the document out by the layout rule (an explicit
    slot is respected, a binding without one is appended to its plane), gives every
    binding a slot and a tag of its own, and every slot of the image is either the
    slot of exactly that binding (type, tag, unit, parsed safe state) or a BOOL
    placeholder; the planes have no slot past the highest one taken. *)
Theorem resolve_layout (m : IoMap) (r : ResolvedIoMap) :
  Forall slot_ok (all_entries m) -> resolve m = Ok r ->
  rm_bindings r = place_all (all_entries m) /\
  Forall2 (holds (rm_image r)) (all_entries m) (rm_bindings r) /\
  NoDup (map rb_key (rm_bindings r)) /\
  NoDup (map (fun x => b_tag (ey_binding x)) (all_entries m)) /\
  (forall p, length (plane_slots (rm_image r) p) = Z.to_nat (plane_len p (rm_bindings r))) /\
  (forall p i, (i < length (plane_slots (rm_image r) p))%nat ->
     (p, Z.of_nat i) ∉ map rb_key (rm_bindings r) -> placeholder (rm_image r) p i).
Proof.
  intros Hs Hr. destruct (resolve_Ok _ _ Hs Hr) as (st & Hok & ->). cbn [rm_bindings rm_image].
  split; [apply Hok|]. split.
  { eapply Forall2_impl; [apply (ro_built _ _ Hok)|]. apply built_holds. }
  do 2 (split; [apply Hok|]). split.
  - intros p. rewrite image_of_slots. unfold fill_slots. rewrite length_map. apply Hok.
  - intros p i Hi Hfree. rewrite image_of_slots in Hi. unfold fill_slots in Hi. rewrite length_map in Hi.
    apply lookup_lt_is_Some in Hi as [[sb|] Hl]; [|by apply hole_placeholder].
    by apply (ro_only _ _ Hok) in Hl.
Qed.

Definition demo_binding (tag : string) (p : ImagePlane) (ty : ValueType) (slot : option Z) (safe : option JsonValue) :=
  mkBinding (bstr tag) p ty None slot f64_zero f64_zero None [] safe None None None.

Definition demo_map : IoMap := mkIoMap 1
  [ mkIoModule (bstr "m0") (bstr "sim") ForceSafe
      [ demo_binding "start" PlaneI TyBool None None;
        demo_binding "level" PlaneI TyInt (Some 3) None;
        demo_binding "valve" PlaneQ TyInt None (Some (JNumber (Some 7) None)) ];
    mkIoModule (bstr "m1") (bstr "sim") ForceSafe [ demo_binding "stop" PlaneI TyBool None None ] ].

Example demo_map_slots :
  map rb_key (place_all (all_entries demo_map)) = [(PlaneI, 0); (PlaneI, 3); (PlaneQ, 0); (PlaneI, 4)].
Proof. vm_compute. reflexivity. Qed.

Lemma resolve_layout_witness :
  exists r, resolve demo_map = Ok r /\ rm_bindings r = place_all (all_entries demo_map) /\
    placeholder (rm_image r) PlaneI 1.
Proof.
  eexists. split; [vm_compute; reflexivity|].
  eassert (Hd : resolve demo_map = Ok _) by (vm_compute; reflexivity).
  assert (Hs : Forall slot_ok (all_entries demo_map)).
  { repeat (apply Forall_cons; split; [cbn; first [exact I | unfold u_range; lia]|]). apply Forall_nil. exact I. }
  destruct (resolve_layout _ _ Hs Hd) as (H1 & _ & _ & _ & _ & H6). split; [exact H1|].
  apply H6; [cbn; lia|]. cbn. intros Hin. repeat (apply elem_of_cons in Hin as [[=]|Hin]). by apply elem_of_nil in Hin.
Defined.
