(* ===== verification/IoBuffer.v ===== *)
(** * The input double buffer

    Crate [plc-io], src/crates/plc-io/src/double_buffer.rs: one writer publishes
    snapshots of remote inputs, any number of readers copy the front one. The two
    mutexes, the sequence number and the program points between their uses are
    explicit; a step of a thread is one lock, one critical section or one load. A
    lock that is taken blocks. The arguments of the calls of [publish] and the number of
    swaps are ghosts. *)
From S2P Require Import Prelude PlcTypes IoImage.

Record Snapshot := mkSnapshot { sn_seq : Z; sn_values : list PlcValue; sn_quality : list Quality }.

Definition zeros (n : nat) : Snapshot := mkSnapshot 0 (replicate n (PBool false)) (replicate n Good).

(** Who holds a mutex. *)
Inductive Holder := ByWriter | ByReader (i : nat).

#[export] Instance Holder_eq_dec : EqDecision Holder.
Proof. solve_decision. Defined.

(** Where [publish] is: called, checked, with [next] computed, with the back buffer
    written, with the front locked, with both locked, swapped. *)
Inductive PublishPc :=
  | WIdle
  | WCalled (values : list PlcValue) (quality : list Quality)
  | WChecked (values : list PlcValue) (quality : list Quality)
  | WNext (next : Z) (values : list PlcValue) (quality : list Quality)
  | WFilled (next : Z)
  | WFront (next : Z)
  | WBoth (next : Z)
  | WSwapped (next : Z)
  | WPanicked.

(** Where [read] is; [since] is the ghost number of swaps when it was called. *)
Inductive ReadPc :=
  | RIdle
  | RLoop (since : nat) (attempts max_retries : Z)
  | RBefore (since : nat) (attempts max_retries seq_before : Z)
  | RHold (since : nat) (attempts max_retries seq_before : Z)
  | RCopied (since : nat) (attempts max_retries seq_before : Z) (snap : Snapshot)
  | RReturned (since : nat) (snap : Snapshot).

Record DoubleBuffer := mkBuffer {
  db_front : Snapshot;
  db_back : Snapshot;
  db_seq : Z;
  db_slots : nat;
  db_front_lock : option Holder;
  db_back_lock : option Holder;
  db_writer : PublishPc;
  db_readers : list ReadPc;
  db_calls : list (list PlcValue * list Quality);
  db_swaps : nat }.

(** [new], with [n] reader threads. *)
Definition buffer_new (slots n : nat) : DoubleBuffer :=
  mkBuffer (zeros slots) (zeros slots) 0 slots None None WIdle (replicate n RIdle) [] 0.

Definition set_writer (w : PublishPc) (b : DoubleBuffer) : DoubleBuffer :=
  mkBuffer (db_front b) (db_back b) (db_seq b) (db_slots b) (db_front_lock b) (db_back_lock b)
    w (db_readers b) (db_calls b) (db_swaps b).

Definition set_reader (i : nat) (r : ReadPc) (b : DoubleBuffer) : DoubleBuffer :=
  mkBuffer (db_front b) (db_back b) (db_seq b) (db_slots b) (db_front_lock b) (db_back_lock b)
    (db_writer b) (<[i := r]> (db_readers b)) (db_calls b) (db_swaps b).

Definition set_front_lock (o : option Holder) (b : DoubleBuffer) : DoubleBuffer :=
  mkBuffer (db_front b) (db_back b) (db_seq b) (db_slots b) o (db_back_lock b)
    (db_writer b) (db_readers b) (db_calls b) (db_swaps b).

Definition set_back_lock (o : option Holder) (b : DoubleBuffer) : DoubleBuffer :=
  mkBuffer (db_front b) (db_back b) (db_seq b) (db_slots b) (db_front_lock b) o
    (db_writer b) (db_readers b) (db_calls b) (db_swaps b).

Definition set_back (s : Snapshot) (b : DoubleBuffer) : DoubleBuffer :=
  mkBuffer (db_front b) s (db_seq b) (db_slots b) (db_front_lock b) (db_back_lock b)
    (db_writer b) (db_readers b) (db_calls b) (db_swaps b).

Definition set_seq (x : Z) (b : DoubleBuffer) : DoubleBuffer :=
  mkBuffer (db_front b) (db_back b) x (db_slots b) (db_front_lock b) (db_back_lock b)
    (db_writer b) (db_readers b) (db_calls b) (db_swaps b).

(** [std::mem::swap], which publishes. *)
Definition swap (b : DoubleBuffer) : DoubleBuffer :=
  mkBuffer (db_back b) (db_front b) (db_seq b) (db_slots b) (db_front_lock b) (db_back_lock b)
    (db_writer b) (db_readers b) (db_calls b) (S (db_swaps b)).

(** [publish] is called. *)
Definition call_publish (values : list PlcValue) (quality : list Quality) (b : DoubleBuffer) : DoubleBuffer :=
  mkBuffer (db_front b) (db_back b) (db_seq b) (db_slots b) (db_front_lock b) (db_back_lock b)
    (WCalled values quality) (db_readers b) (db_calls b ++ [(values, quality)]) (db_swaps b).

(** One step of [publish]; [None]: waiting for a lock, or not running. *)
Definition publish_step (b : DoubleBuffer) : option DoubleBuffer :=
  match db_writer b with
  | WIdle | WPanicked => None
  | WCalled values quality =>
      Some (set_writer
              (if (length values =? db_slots b)%nat && (length quality =? db_slots b)%nat
               then WChecked values quality else WPanicked) b)
  | WChecked values quality => Some (set_writer (WNext (wrap_u 64 (db_seq b + 1)) values quality) b)
  | WNext next values quality =>
      match db_back_lock b with
      | Some _ => None
      | None => Some (set_writer (WFilled next) (set_back (mkSnapshot next values quality) b))
      end
  | WFilled next =>
      match db_front_lock b with
      | Some _ => None
      | None => Some (set_writer (WFront next) (set_front_lock (Some ByWriter) b))
      end
  | WFront next =>
      match db_back_lock b with
      | Some _ => None
      | None => Some (set_writer (WBoth next) (set_back_lock (Some ByWriter) b))
      end
  | WBoth next => Some (set_writer (WSwapped next) (swap b))
  | WSwapped next =>
      Some (set_writer WIdle (set_back_lock None (set_front_lock None (set_seq next b))))
  end.

(** One step of [read] in thread [i]. *)
Definition read_step (i : nat) (b : DoubleBuffer) : option DoubleBuffer :=
  match db_readers b !! i with
  | Some (RLoop since a m) => Some (set_reader i (RBefore since a m (db_seq b)) b)
  | Some (RBefore since a m q) =>
      match db_front_lock b with
      | Some _ => None
      | None => Some (set_reader i (RHold since a m q) (set_front_lock (Some (ByReader i)) b))
      end
  | Some (RHold since a m q) =>
      Some (set_reader i (RCopied since a m q (db_front b)) (set_front_lock None b))
  | Some (RCopied since a m q snap) =>
      let seq_after := db_seq b in
      Some (set_reader i
              (if (q =? seq_after) && (sn_seq snap =? seq_after) then RReturned since snap
               else if m <=? a + 1 then RReturned since snap
               else RLoop since (a + 1) m) b)
  | _ => None
  end.

(** What the threads of a program do, in any interleaving. *)
Inductive buffer_step (b : DoubleBuffer) : DoubleBuffer -> Prop :=
  | step_call_publish values quality :
      db_writer b = WIdle -> buffer_step b (call_publish values quality b)
  | step_publish b' : publish_step b = Some b' -> buffer_step b b'
  | step_call_read i r m :
      db_readers b !! i = Some r -> (r = RIdle \/ exists since snap, r = RReturned since snap) ->
      u_range 32 m ->
      buffer_step b (set_reader i (RLoop (db_swaps b) 0 m) b)
  | step_read i b' : read_step i b = Some b' -> buffer_step b b'.

(** ** The invariant *)

Definition fits (n : nat) (s : Snapshot) : Prop := length (sn_values s) = n /\ length (sn_quality s) = n.

(** The [k]-th snapshot: the initial zeros, then the arguments of the calls of [publish],
    each whole and under its own number. *)
Definition publication (slots : nat) (calls : list (list PlcValue * list Quality)) (k : nat) : option Snapshot :=
  match k with
  | O => Some (zeros slots)
  | S j => (fun c => mkSnapshot (wrap_u 64 (Z.of_nat k)) c.1 c.2) <$> calls !! j
  end.

(** [snap] is a publication that was in front at some time between the swap of number
    [since] and now. *)
Definition seen_since (b : DoubleBuffer) (since : nat) (snap : Snapshot) : Prop :=
  exists k, (since <= k <= db_swaps b)%nat /\ publication (db_slots b) (db_calls b) k = Some snap.

Definition writer_ok (b : DoubleBuffer) : Prop :=
  let called values quality := db_calls b !! db_swaps b = Some (values, quality) in
  match db_writer b with
  | WCalled values quality => called values quality
  | WChecked values quality => called values quality /\ fits (db_slots b) (mkSnapshot 0 values quality)
  | WNext next values quality =>
      called values quality /\ fits (db_slots b) (mkSnapshot 0 values quality) /\ next = wrap_u 64 (db_seq b + 1)
  | WFilled next | WFront next | WBoth next =>
      fits (db_slots b) (db_back b) /\ next = wrap_u 64 (db_seq b + 1) /\
      publication (db_slots b) (db_calls b) (S (db_swaps b)) = Some (db_back b)
  | WSwapped next => sn_seq (db_front b) = next
  | WIdle | WPanicked => True
  end.

(** Whether a call is under way that has not swapped. *)
Definition unswapped (w : PublishPc) : nat := match w with WIdle | WSwapped _ => 0 | _ => 1 end.

Definition writer_locks (w : PublishPc) : bool * bool :=
  match w with
  | WFront _ => (true, false)
  | WBoth _ | WSwapped _ => (true, true)
  | _ => (false, false)
  end.

Definition reader_holds (r : ReadPc) : bool := match r with RHold _ _ _ _ => true | _ => false end.

Definition reader_ok (b : DoubleBuffer) (r : ReadPc) : Prop :=
  match r with
  | RIdle => True
  | RLoop since _ _ | RBefore since _ _ _ | RHold since _ _ _ => (since <= db_swaps b)%nat
  | RCopied since _ _ _ snap | RReturned since snap => seen_since b since snap
  end.

Record buffer_ok (b : DoubleBuffer) : Prop := {
  bo_front : publication (db_slots b) (db_calls b) (db_swaps b) = Some (db_front b);
  bo_calls : length (db_calls b) = (db_swaps b + unswapped (db_writer b))%nat;
  bo_fits : Forall (fun c => fits (db_slots b) (mkSnapshot 0 c.1 c.2)) (take (db_swaps b) (db_calls b));
  bo_seq : (forall next, db_writer b <> WSwapped next) -> sn_seq (db_front b) = db_seq b;
  bo_writer : writer_ok b;
  bo_back_lock : db_back_lock b = if (writer_locks (db_writer b)).2 then Some ByWriter else None;
  bo_front_writer : db_front_lock b = Some ByWriter <-> (writer_locks (db_writer b)).1 = true;
  bo_front_reader : forall i, db_front_lock b = Some (ByReader i) <->
    exists r, db_readers b !! i = Some r /\ reader_holds r = true;
  bo_readers : Forall (reader_ok b) (db_readers b) }.

Lemma buffer_new_ok slots n : buffer_ok (buffer_new slots n).
Proof.
  split; cbn; try done.
  - intros i. split; [done|]. intros (r & Hr & Hh). apply lookup_replicate in Hr as [-> _]. done.
  - by apply Forall_replicate.
Qed.

Lemma publication_mono slots calls more k s :
  publication slots calls k = Some s -> publication slots (calls ++ more) k = Some s.
Proof.
  destruct k as [|j]; [done|]. cbn [publication]. intros H. apply fmap_Some in H as (c & Hc & ->).
  by rewrite (lookup_app_l_Some _ _ _ _ Hc).
Qed.

Lemma publication_seq slots calls k s : publication slots calls k = Some s -> sn_seq s = wrap_u 64 (Z.of_nat k).
Proof.
  destruct k as [|j]; cbn [publication]; [by intros [= <-]|]. intros H. by apply fmap_Some in H as (c & _ & ->).
Qed.

Lemma next_seq x : wrap_u 64 (wrap_u 64 (Z.of_nat x) + 1) = wrap_u 64 (Z.of_nat (S x)).
Proof. unfold wrap_u. rewrite Zplus_mod_idemp_l. f_equal. lia. Qed.

Lemma reader_ok_mono b b' more r :
  db_slots b' = db_slots b -> db_calls b' = db_calls b ++ more -> (db_swaps b <= db_swaps b')%nat ->
  reader_ok b r -> reader_ok b' r.
Proof.
  intros Hs Hc Hn. destruct r; cbn; try lia; unfold seen_since; rewrite Hs, Hc;
    intros (k & Hk & Hp); exists k; (split; [lia|by apply publication_mono]).
Qed.

(** A reader that neither takes nor releases the lock. *)
Lemma set_reader_ok b i r r' :
  buffer_ok b -> db_readers b !! i = Some r -> reader_holds r = false -> reader_holds r' = false ->
  reader_ok b r' -> buffer_ok (set_reader i r' b).
Proof.
  intros [H1 H2 H3 H4 H5 H6 H7 H8 H9] Hi Hr Hr' Hok.
  split; cbn [set_reader db_readers db_front_lock]; try done.
  - intros j. rewrite (H8 j). destruct (decide (i = j)) as [<-|Hne]; [|by rewrite list_lookup_insert_ne].
    rewrite list_lookup_insert_eq by (by apply lookup_lt_Some in Hi). rewrite Hi. naive_solver congruence.
  - apply (Forall_insert (reader_ok b)); done.
Qed.

(** A step of the writer that leaves locks and buffers alone. *)
Lemma set_writer_ok b w :
  buffer_ok b -> writer_locks w = writer_locks (db_writer b) -> unswapped w = unswapped (db_writer b) ->
  (forall next, w <> WSwapped next) -> (forall next, db_writer b <> WSwapped next) ->
  writer_ok (set_writer w b) -> buffer_ok (set_writer w b).
Proof.
  intros [H1 H2 H3 H4 H5 H6 H7 H8 H9] Hl Hu Hw Hw' Hok.
  split; cbn [set_writer db_writer db_back_lock db_front_lock]; rewrite ?Hl, ?Hu; try done.
  intros _. by apply H4.
Qed.

Lemma front_seen b : buffer_ok b -> forall since, (since <= db_swaps b)%nat -> seen_since b since (db_front b).
Proof. intros Hb since Hs. exists (db_swaps b). split; [lia|by apply bo_front]. Qed.

Lemma read_step_ok i b b' : buffer_ok b -> read_step i b = Some b' -> buffer_ok b'.
Proof.
  intros Hb. unfold read_step. destruct (db_readers b !! i) as [r|] eqn:Hi; [|done].
  pose proof (Forall_lookup_1 _ _ _ _ (bo_readers _ Hb) Hi) as Hr. pose proof Hb as [H1 H2 H3 H4 H5 H6 H7 H8 H9].
  pose proof (lookup_lt_Some _ _ _ Hi) as Hlt.
  destruct r as [|since a m|since a m q|since a m q|since a m q snap|since snap]; try done.
  - intros [= <-]. by eapply set_reader_ok.
  - destruct (db_front_lock b) as [o|] eqn:Hf; [done|]. intros [= <-].
    split; cbn [set_reader set_front_lock db_readers db_front_lock db_writer]; try done.
    + rewrite <-H7. done.
    + intros j. destruct (decide (i = j)) as [<-|Hne].
      * rewrite list_lookup_insert_eq by done. naive_solver.
      * rewrite list_lookup_insert_ne by done. rewrite <-H8. split; congruence.
    + by apply (Forall_insert (reader_ok b)).
  - assert (Hf : db_front_lock b = Some (ByReader i)) by (apply H8; eauto).
    intros [= <-]. split; cbn [set_reader set_front_lock db_readers db_front_lock db_writer]; try done.
    + rewrite <-H7, Hf. done.
    + intros j. split; [done|]. destruct (decide (i = j)) as [<-|Hne].
      * rewrite list_lookup_insert_eq by done. naive_solver.
      * rewrite list_lookup_insert_ne by done. intros Hj%H8. congruence.
    + apply (Forall_insert (reader_ok b)); [done|]. by apply front_seen.
  - intros [= <-]. eapply set_reader_ok; [done|done|done|by repeat case_match|].
    destruct (_ && _); [exact Hr|]. destruct (m <=? a + 1); [exact Hr|]. destruct Hr as (k & Hk & _). cbn. lia.
Qed.

Lemma publish_step_ok b b' : buffer_ok b -> publish_step b = Some b' -> buffer_ok b'.
Proof.
  intros Hb. pose proof Hb as [H1 H2 H3 H4 H5 H6 H7 H8 H9]. unfold publish_step, writer_ok in *.
  destruct (db_writer b) as [|values quality|values quality|next values quality|next|next|next|next|] eqn:Hw; try done.
  - intros [= <-]. destruct (_ && _) eqn:Hl; apply set_writer_ok; rewrite ?Hw; try done.
    apply andb_true_iff in Hl as [?%Nat.eqb_eq ?%Nat.eqb_eq]. done.
  - intros [= <-]. apply set_writer_ok; rewrite ?Hw; try done. by destruct H5.
  - rewrite H6. intros [= <-]. destruct H5 as (Hcall & [Hv Hq] & Hn).
    split; cbn [set_writer set_back db_writer db_front db_seq db_back_lock db_front_lock db_readers]; try done.
    + intros _. apply H4. congruence.
    + unfold writer_ok. cbn [set_writer set_back db_writer db_slots db_back db_seq db_calls db_swaps publication].
      rewrite Hcall. split; [done|]. split; [done|]. cbn [fmap option_fmap option_map fst snd].
      rewrite Hn, <-H4, (publication_seq _ _ _ _ H1), next_seq by congruence. done.
  - destruct (db_front_lock b) eqn:Hf; [done|]. intros [= <-].
    split; cbn [set_writer set_front_lock db_writer db_front db_seq db_back_lock db_front_lock db_readers]; try done.
    + intros _. apply H4. congruence.
    + intros i. split; [done|]. intros Hi%H8. done.
  - rewrite H6. intros [= <-].
    split; cbn [set_writer set_back_lock db_writer db_front db_seq db_back_lock db_front_lock db_readers]; try done.
    intros _. apply H4. congruence.
  - intros [= <-]. destruct H5 as (Hfit & Hn & Hp).
    split; cbn [set_writer swap db_writer db_front db_seq db_slots db_back_lock db_front_lock db_readers db_calls db_swaps]; try done.
    + cbn [unswapped] in *. lia.
    + cbn [publication] in Hp. apply fmap_Some in Hp as (c & Hc & Hback). rewrite (take_S_r _ _ _ Hc).
      apply Forall_app. split; [done|]. constructor; [|done]. by rewrite Hback in Hfit.
    + intros Hno. by destruct (Hno next).
    + unfold writer_ok. cbn. rewrite (publication_seq _ _ _ _ Hp), Hn, <-H4, (publication_seq _ _ _ _ H1), next_seq by congruence. done.
    + eapply Forall_impl; [exact H9|]. intros r. apply (reader_ok_mono _ _ []); cbn; [done|by rewrite app_nil_r|lia].
  - intros [= <-].
    split; cbn [set_writer set_seq set_back_lock set_front_lock db_writer db_front db_seq db_slots db_back_lock
      db_front_lock db_readers]; try done.
    + intros i. split; [done|]. intros Hi%H8. by rewrite (proj2 H7 eq_refl) in Hi.
Qed.

Lemma call_publish_ok b values quality : buffer_ok b -> db_writer b = WIdle -> buffer_ok (call_publish values quality b).
Proof.
  intros [H1 H2 H3 H4 H5 H6 H7 H8 H9] Hw. rewrite Hw in *. cbn [unswapped] in H2.
  split; cbn [call_publish db_writer db_front db_seq db_slots db_back_lock db_front_lock db_readers db_calls db_swaps]; try done.
  - by apply publication_mono.
  - rewrite length_app, H2. cbn. lia.
  - rewrite take_app_le by lia. done.
  - intros _. by apply H4.
  - unfold writer_ok. cbn. rewrite lookup_app_r by lia. by replace (db_swaps b - length (db_calls b))%nat with 0%nat by lia.
  - eapply Forall_impl; [exact H9|]. intros r. by apply (reader_ok_mono _ _ [(values, quality)]).
Qed.

Lemma buffer_step_ok b b' : buffer_ok b -> buffer_step b b' -> buffer_ok b'.
Proof.
  intros Hb [values quality Hw|b'' Hp|i r m Hi Hr _|i b'' Hr].
  - by apply call_publish_ok.
  - by eapply publish_step_ok.
  - eapply set_reader_ok; [done|done|..]; try done.
    + by destruct Hr as [->|(? & ? & ->)].
    + cbn. lia.
  - by eapply read_step_ok.
Qed.

Lemma buffer_steps_ok slots n b : rtc buffer_step (buffer_new slots n) b -> buffer_ok b.
Proof.
  intros Hr. assert (H : forall b0, rtc buffer_step b0 b -> buffer_ok b0 -> buffer_ok b).
  { clear Hr. intros b0. induction 1; eauto using buffer_step_ok. }
  eapply H; [exact Hr|]. apply buffer_new_ok.
Qed.

Lemma steps_slots slots n b : rtc buffer_step (buffer_new slots n) b -> db_slots b = slots.
Proof.
  intros Hr. change slots with (db_slots (buffer_new slots n)). symmetry.
  induction Hr as [|b0 b1 b2 Hs _ IH]; [done|]. rewrite <-IH.
  destruct Hs as [| ? Hp | |? ? Hp]; try done;
    unfold publish_step, read_step in Hp; repeat case_match; by simplify_eq/=.
Qed.

(** Some thread can go on: who waits, waits for a thread that can step. *)
Definition busy (b : DoubleBuffer) : Prop :=
  (db_writer b <> WIdle /\ db_writer b <> WPanicked) \/
  exists i r, db_readers b !! i = Some r /\ r <> RIdle /\ forall since snap, r <> RReturned since snap.

Lemma holder_steps b : buffer_ok b -> db_front_lock b <> None ->
  is_Some (publish_step b) \/ exists i, is_Some (read_step i b).
Proof.
  intros Hb Hl. destruct (db_front_lock b) as [[|i]|] eqn:Hf; [| |done].
  - left. pose proof (proj1 (bo_front_writer _ Hb) Hf) as Hw. pose proof (bo_back_lock _ Hb) as Hbl.
    unfold publish_step. destruct (db_writer b); try done. rewrite Hbl. eauto.
  - right. exists i. destruct (proj1 (bo_front_reader _ Hb i) Hf) as (r & Hr & Hh).
    unfold read_step. rewrite Hr. destruct r; try done.
Qed.

Lemma busy_steps b : buffer_ok b -> busy b -> is_Some (publish_step b) \/ exists i, is_Some (read_step i b).
Proof.
  intros Hb Hbusy. destruct (decide (db_front_lock b = None)) as [Hf|Hf]; [|by apply holder_steps].
  pose proof (bo_back_lock _ Hb) as Hbl. destruct Hbusy as [[H1 H2]|(i & r & Hi & H1 & H2)].
  - left. unfold publish_step. destruct (db_writer b); rewrite ?Hf, ?Hbl; try done; eauto.
  - right. exists i. unfold read_step. rewrite Hi. destruct r; rewrite ?Hf; try done; eauto.
    by destruct (H2 since snap).
Qed.

(** The snapshots published so far have the buffer's number of values and qualities. *)
Lemma publication_fits b k snap : buffer_ok b -> (k <= db_swaps b)%nat ->
  publication (db_slots b) (db_calls b) k = Some snap -> fits (db_slots b) snap.
Proof.
  intros Hb Hk Hp. destruct k as [|j]; cbn [publication] in Hp.
  - injection Hp as <-. split; cbn; by rewrite length_replicate.
  - apply fmap_Some in Hp as (c & Hc & ->). pose proof (bo_fits _ Hb) as Hf. rewrite Forall_lookup in Hf.
    apply (Hf j). by rewrite lookup_take_lt by lia.
Qed.

(** C34: whatever the interleaving of one writer and any number of readers, a snapshot
    [read] returns is whole: the values and the qualities that one call of [publish] was
    given, under that call's number (or the initial zeros), as many as the buffer has
    slots, and no older than the one in front when [read] was called. The front is
    always the last snapshot swapped in, and once no call of [publish] is under way
    every call has been. The two mutexes never deadlock. *)
Theorem readers_get_whole_snapshots (slots n : nat) (b : DoubleBuffer) :
  rtc buffer_step (buffer_new slots n) b ->
  (forall i since snap, db_readers b !! i = Some (RReturned since snap) ->
     fits slots snap /\
     exists k, (since <= k <= db_swaps b)%nat /\ publication slots (db_calls b) k = Some snap) /\
  publication slots (db_calls b) (db_swaps b) = Some (db_front b) /\
  (db_writer b = WIdle -> db_swaps b = length (db_calls b)) /\
  (busy b -> is_Some (publish_step b) \/ exists i, is_Some (read_step i b)).
Proof.
  intros Hr. pose proof (buffer_steps_ok _ _ _ Hr) as Hb. pose proof (steps_slots _ _ _ Hr) as Hs.
  split; [|split; [rewrite <-Hs; apply Hb|split; [|by apply busy_steps]]].
  - intros i since snap Hi. pose proof (Forall_lookup_1 _ _ _ _ (bo_readers _ Hb) Hi) as (k & Hk & Hp).
    rewrite <-Hs. split; [apply (publication_fits b k); [done|lia|done]|by exists k].
  - intros Hw. pose proof (bo_calls _ Hb) as Hc. rewrite Hw in Hc. cbn in Hc. lia.
Qed.

(** Runs for examples: the writer's and the readers' steps in a given order. *)
Inductive Turn := TPublish (values : list PlcValue) (quality : list Quality) | TWriter | TRead (i : nat) | TReader (i : nat).

Definition take_turn (t : Turn) (b : DoubleBuffer) : option DoubleBuffer :=
  match t with
  | TPublish values quality =>
      match db_writer b with WIdle => Some (call_publish values quality b) | _ => None end
  | TWriter => publish_step b
  | TRead i =>
      match db_readers b !! i with
      | Some RIdle => Some (set_reader i (RLoop (db_swaps b) 0 8) b)
      | _ => None
      end
  | TReader i => read_step i b
  end.

Definition take_turns (ts : list Turn) (b : DoubleBuffer) : option DoubleBuffer :=
  fold_left (fun o t => b ← o; take_turn t b) ts (Some b).

Lemma take_turns_steps ts b b' : take_turns ts b = Some b' -> rtc buffer_step b b'.
Proof.
  revert b. induction ts as [|t ts IH]; intros b; unfold take_turns; cbn.
  - intros [= <-]. apply rtc_refl.
  - destruct (take_turn t b) as [b1|] eqn:Ht.
    + intros Hr. eapply rtc_l; [|by apply IH]. destruct t; cbn in Ht.
      * destruct (db_writer b) eqn:Hw; try done. injection Ht as <-. by apply step_call_publish.
      * by apply step_publish.
      * destruct (db_readers b !! i) as [[]|] eqn:Hi; try done. injection Ht as <-.
        eapply step_call_read; eauto. unfold u_range. lia.
      * by eapply step_read.
    + intros Hr. exfalso. clear -Hr. induction ts as [|t ts IH]; [done|by apply IH].
Qed.

(** A reader that starts before a publication and copies after it retries and
    returns the new snapshot. *)
Definition demo_turns : list Turn :=
  [TRead 0; TReader 0; TPublish [PBool true] [Uncertain]] ++ replicate 7 TWriter ++ replicate 7 (TReader 0).

Lemma readers_get_whole_snapshots_witness :
  exists b, rtc buffer_step (buffer_new 1 1) b /\
    db_readers b !! 0%nat = Some (RReturned 0 (mkSnapshot 1 [PBool true] [Uncertain])) /\
    exists k, (0 <= k <= db_swaps b)%nat /\ publication 1 (db_calls b) k = Some (mkSnapshot 1 [PBool true] [Uncertain]).
Proof.
  assert (Hr : exists b, take_turns demo_turns (buffer_new 1 1) = Some b /\
    db_readers b !! 0%nat = Some (RReturned 0 (mkSnapshot 1 [PBool true] [Uncertain]))).
  { eexists. split; vm_compute; reflexivity. }
  destruct Hr as (b & Hr & Hb). apply take_turns_steps in Hr. exists b. do 2 (split; [done|]).
  exact (proj2 (proj1 (readers_get_whole_snapshots 1 1 b Hr) _ _ _ Hb)).
Defined.
