(* ===== verification/ModbusPlan.v ===== *)
(** * Modbus: planned points

    Crate [plc-io-modbus], src/crates/plc-io-modbus/src: the Modicon references
    (address.rs) and the checks of a [modbus_tcp] module (validate.rs). The module's
    configuration block is parsed by serde: [config_of] gives what it yields for the
    module of an index. Messages are left out. *)
From S2P Require Import Prelude Text Float32 Float64 PlcTypes IoImage IoMap.

(** ** address.rs *)

Definition in_span (lo hi x : Z) : bool := (lo <=? x) && (x <=? hi).

Definition decode_ref (register : Z) (hint : option RegisterType) : res IoError (RegisterType * Z) :=
  r ← (if in_span 1 9999 register then Ok (Coil, register - 1)
       else if in_span 10001 19999 register then Ok (Discrete, register - 10001)
       else if in_span 30001 39999 register then Ok (InputRegister, register - 30001)
       else if in_span 40001 49999 register then Ok (Holding, register - 40001)
       else Err MapError);
  match hint with
  | Some hint => if bool_decide (hint = r.1) then Ok r else Err MapError
  | None => Ok r
  end.

Definition is_bit_table (t : RegisterType) : bool :=
  match t with Coil | Discrete => true | _ => false end.

Definition read_fc (t : RegisterType) : Z :=
  match t with Coil => 1 | Discrete => 2 | Holding => 3 | InputRegister => 4 end.

(** ** Planned modules *)

#[export] Instance BindingDirection_eq_dec : EqDecision BindingDirection.
Proof. solve_decision. Defined.

(** Durations in milliseconds; scales are f64 bit patterns. *)
Record PlannedPoint := mkPoint {
  pp_tag : bytes;
  pp_slot : nat;
  pp_direction : BindingDirection;
  pp_table : RegisterType;
  pp_pdu : Z;
  pp_words : Z;
  pp_raw : RawType;
  pp_bit : option Z;
  pp_value_type : ValueType;
  pp_scale : Z;
  pp_offset : Z;
  pp_clamp : option (Z * Z);
  pp_safe : PlcValue;
  pp_input_pos : option nat;
  pp_output_pos : option nat }.

Record PlannedModule := mkPlanned {
  pm_id : bytes;
  pm_host : bytes;
  pm_port : Z;
  pm_unit : Z;
  pm_poll_ms : Z;
  pm_stale : Z;
  pm_timeout : Z;
  pm_on_bad : BadQualityPolicy;
  pm_points : list PlannedPoint }.

Record ModuleConfig := mkModuleConfig {
  mc_endpoint : bytes;
  mc_unit : Z;
  mc_poll_ms : Z;
  mc_stale_ms : option Z;
  mc_timeout_ms : option Z }.

Definition default_unit : Z := 1.
Definition default_poll : Z := 100.

(** ** validate.rs *)

Definition default_raw (ty : ValueType) : res IoError RawType :=
  match ty with
  | TyBool => Ok RawBool
  | TyInt => Ok RawInt
  | TyDint => Ok RawDint
  | TyReal => Ok RawReal
  | TyTime => Err MapError
  end.

Definition raw_words (raw : RawType) : Z :=
  match raw with RawBool | RawInt | RawUint => 1 | RawDint | RawReal => 2 end.

Definition check_bit (table : RegisterType) (raw : RawType) (bit : option Z) (value_type : ValueType) :
    res IoError (option Z) :=
  if is_bit_table table then
    match bit with
    | Some _ => Err MapError
    | None => if negb (bool_decide (raw = RawBool)) || negb (bool_decide (value_type = TyBool))
              then Err MapError else Ok None
    end
  else if bool_decide (raw = RawBool) then
    if negb (bool_decide (value_type = TyBool)) then Err MapError
    else match bit with
         | None => Err MapError
         | Some bit => if 15 <? bit then Err MapError else Ok (Some bit)
         end
  else match bit with Some _ => Err MapError | None => Ok None end.

Definition starts_with_byte (c : Z) (s : bytes) : bool := match s with b :: _ => b =? c | [] => false end.
Definition ends_with_byte (c : Z) (s : bytes) : bool := match last s with Some b => b =? c | None => false end.

Definition parse_endpoint (raw : bytes) : res IoError (bytes * Z) :=
  match rsplit_once 58 (trim raw) with
  | None => Err MapError
  | Some (host, port) =>
      let host := trim host in
      host ← (if starts_with_byte 91 host && ends_with_byte 93 host && (2 <=? length host)%nat
              then Ok (slice host 1 (length host - 2))
              else if bool_decide (58 ∈ host) then Err MapError else Ok host);
      match host with
      | [] => Err MapError
      | _ =>
          port ← ok_or (parse_uint 65536 (trim port)) MapError;
          if port =? 0 then Err MapError else Ok (host, port)
      end
  end.

(** A span of addresses of a table; the tag is for the message. *)
Record Span := mkSpan { spn_table : RegisterType; spn_start : Z; spn_end : Z }.

Definition table_code (t : RegisterType) : Z :=
  match t with Holding => 0 | InputRegister => 1 | Coil => 2 | Discrete => 3 end.

(** The order of [(table as u8, start)]. *)
Definition span_gt (a b : Span) : bool :=
  (table_code (spn_table b) <? table_code (spn_table a)) ||
  ((table_code (spn_table a) =? table_code (spn_table b)) && (spn_start b <? spn_start a)).

Definition span_clash (a b : Span) : bool :=
  bool_decide (spn_table a = spn_table b) && (spn_start b <? spn_end a).

Definition check_overlaps (spans : list Span) : res IoError unit :=
  if has_window span_clash (sort_by span_gt spans) then Err MapError else Ok tt.

(** The local variables of the binding loop. *)
Record Planning := mkPlanning {
  pl_points : list PlannedPoint;
  pl_input_pos : nat;
  pl_output_pos : nat;
  pl_spans : list Span }.

Definition find_slot (mi bi : nat) (resolved : ResolvedIoMap) : option nat :=
  (fun b => Z.to_nat (rb_slot b)) <$>
    List.find (fun b => (rb_module_index b =? mi)%nat && (rb_binding_index b =? bi)%nat) (rm_bindings resolved).

(** One turn of the binding loop of [validate_module]. *)
Definition plan_binding (mi bi : nat) (resolved : ResolvedIoMap) (binding : IoBinding) (st : Planning) :
    res IoError Planning :=
  if bool_decide (b_image binding = PlaneM) then Err MapError
  else
    register ← ok_or (b_register binding) MapError;
    r ← decode_ref register (b_register_type binding);
    let '(table, pdu) := r in
    if bool_decide (b_value_type binding = TyTime) then Err MapError
    else
      raw ← match b_raw_type binding with Some raw => Ok raw | None => default_raw (b_value_type binding) end;
      bit ← check_bit table raw (b_bit binding) (b_value_type binding);
      let dir := direction (b_image binding) in
      if bool_decide (dir = DirOutput) && match table with InputRegister | Discrete => true | _ => false end
      then Err MapError
      else if bool_decide (dir = DirOutput) && f64_eq (b_scale binding) f64_zero then Err MapError
      else if negb (f64_is_finite (b_scale binding)) || negb (f64_is_finite (b_offset binding)) then Err MapError
      else
        let words := if is_bit_table table then 1 else raw_words raw in
        slot ← ok_or (find_slot mi bi resolved) MapError;
        let safe := match dir with
                    | DirOutput => default (PBool false) (pi_output_safe (rm_image resolved) !! slot)
                    | _ => Plc.default_of (b_value_type binding)
                    end in
        Ok (mkPlanning
              (pl_points st ++
                 [mkPoint (b_tag binding) slot dir table pdu words raw bit (b_value_type binding)
                    (b_scale binding) (b_offset binding)
                    (match dir with DirInput => b_clamp binding | _ => None end) safe
                    (match dir with DirInput => Some (pl_input_pos st) | _ => None end)
                    (match dir with DirOutput => Some (pl_output_pos st) | _ => None end)])
              (match dir with DirInput => S (pl_input_pos st) | _ => pl_input_pos st end)
              (match dir with DirOutput => S (pl_output_pos st) | _ => pl_output_pos st end)
              (pl_spans st ++ [mkSpan table pdu (pdu + words)])).

Fixpoint plan_bindings (mi bi : nat) (resolved : ResolvedIoMap) (bs : list IoBinding) (st : Planning) :
    res IoError Planning :=
  match bs with
  | [] => Ok st
  | b :: bs => st ← plan_binding mi bi resolved b st; plan_bindings mi (S bi) resolved bs st
  end.

Definition validate_module (mi : nat) (cfg : option ModuleConfig) (md : IoModule) (resolved : ResolvedIoMap) :
    res IoError PlannedModule :=
  cfg ← ok_or cfg MapError;
  if mc_poll_ms cfg =? 0 then Err MapError
  else if negb (in_span 1 255 (mc_unit cfg)) then Err MapError
  else
    let stale_ms := default (Z.min (mc_poll_ms cfg * 3) (2 ^ 64 - 1)) (mc_stale_ms cfg) in
    if stale_ms <? mc_poll_ms cfg then Err MapError
    else
      let timeout_ms := default (mc_poll_ms cfg) (mc_timeout_ms cfg) in
      if timeout_ms =? 0 then Err MapError
      else
        ep ← parse_endpoint (mc_endpoint cfg);
        let '(host, port) := ep in
        st ← plan_bindings mi 0 resolved (m_bindings md) (mkPlanning [] 0 0 []);
        check_overlaps (pl_spans st) ;;
        Ok (mkPlanned (m_id md) host port (mc_unit cfg) (mc_poll_ms cfg) stale_ms timeout_ms
              (m_on_bad_quality md) (pl_points st)).

Fixpoint validate_modules (mi : nat) (config_of : nat -> option ModuleConfig) (mds : list IoModule)
    (resolved : ResolvedIoMap) : res IoError (list PlannedModule) :=
  match mds with
  | [] => Ok []
  | md :: mds =>
      if negb (bool_decide (m_driver md = bstr "modbus_tcp")) then validate_modules (S mi) config_of mds resolved
      else
        pm ← validate_module mi (config_of mi) md resolved;
        pms ← validate_modules (S mi) config_of mds resolved;
        Ok (pm :: pms)
  end.

(** [validate_map]. *)
Definition validate_map (config_of : nat -> option ModuleConfig) (m : IoMap) (resolved : ResolvedIoMap) :
    res IoError (list PlannedModule) :=
  validate_modules 0 config_of (map_modules m) resolved.

(** ** What validation establishes *)

Record point_ok (p : PlannedPoint) : Prop := {
  po_pdu : 0 <= pp_pdu p <= 9998;
  po_words : pp_words p = if is_bit_table (pp_table p) then 1 else raw_words (pp_raw p);
  po_bits : is_bit_table (pp_table p) = true -> pp_raw p = RawBool /\ pp_bit p = None;
  po_bit : is_bit_table (pp_table p) = false -> pp_raw p = RawBool ->
    exists bit, pp_bit p = Some bit /\ 0 <= bit <= 15;
  po_field : pp_direction p = DirInput /\ is_Some (pp_input_pos p) /\ pp_output_pos p = None \/
    pp_direction p = DirOutput /\ is_Some (pp_output_pos p) /\ pp_input_pos p = None /\
    (pp_table p = Coil \/ pp_table p = Holding) }.

Definition pp_end (p : PlannedPoint) : Z := pp_pdu p + pp_words p.

(** The points occupy different addresses. *)
Definition apart (p q : PlannedPoint) : Prop :=
  pp_table p = pp_table q -> pp_end p <= pp_pdu q \/ pp_end q <= pp_pdu p.

Record points_ok (ps : list PlannedPoint) : Prop := {
  ps_ok : Forall point_ok ps;
  ps_apart : ForallOrdPairs apart ps;
  ps_inputs : exists n, omap pp_input_pos ps = seq 0 n;
  ps_outputs : exists n, omap pp_output_pos ps = seq 0 n }.

Lemma raw_words_bound r : 1 <= raw_words r <= 2.
Proof. destruct r; cbn; lia. Qed.

Lemma point_words p : point_ok p -> 1 <= pp_words p <= 2.
Proof. intros Hp. rewrite (po_words _ Hp). pose proof (raw_words_bound (pp_raw p)). destruct (is_bit_table _); lia. Qed.

Lemma decode_ref_Ok register hint table pdu :
  decode_ref register hint = Ok (table, pdu) -> 0 <= pdu <= 9998.
Proof.
  unfold decode_ref, in_span. intros Hr. apply res_bind_Ok in Hr as ([t d] & Hd & Hr).
  assert ((t, d) = (table, pdu)) as [= -> ->].
  { destruct hint; [case_bool_decide; [|done]|]; by apply Ok_inj in Hr. }
  repeat match type of Hd with (if ?c then _ else _) = _ => destruct c eqn:?; [apply Ok_inj in Hd; injection Hd as _ <-; lia|] end.
  done.
Qed.

Lemma check_bit_Ok table raw bit ty b :
  check_bit table raw bit ty = Ok b -> (forall x, bit = Some x -> 0 <= x) ->
  (is_bit_table table = true -> raw = RawBool /\ b = None) /\
  (is_bit_table table = false -> raw = RawBool -> exists x, b = Some x /\ 0 <= x <= 15).
Proof.
  unfold check_bit. intros Hc Hnn. destruct (is_bit_table table).
  - destruct bit; [done|]. repeat case_bool_decide; cbn in Hc; try done. apply Ok_inj in Hc. by subst.
  - split; [done|]. intros _ ->. rewrite bool_decide_eq_true_2 in Hc by done.
    case_bool_decide; cbn in Hc; [|done]. destruct bit as [x|]; [|done].
    destruct (Z.ltb_spec 15 x); [done|]. apply Ok_inj in Hc as <-. exists x. specialize (Hnn x eq_refl). split; [done|lia].
Qed.

Definition bit_nonneg (b : IoBinding) : Prop := forall x, b_bit b = Some x -> 0 <= x.

Record planning_ok (st : Planning) : Prop := {
  pg_ok : Forall point_ok (pl_points st);
  pg_spans : pl_spans st = map (fun p => mkSpan (pp_table p) (pp_pdu p) (pp_end p)) (pl_points st);
  pg_inputs : omap pp_input_pos (pl_points st) = seq 0 (pl_input_pos st);
  pg_outputs : omap pp_output_pos (pl_points st) = seq 0 (pl_output_pos st) }.

Lemma omap_snoc {A B} (f : A -> option B) l x : omap f (l ++ [x]) = omap f l ++ match f x with Some y => [y] | None => [] end.
Proof. rewrite omap_app. cbn. by destruct (f x). Qed.

Lemma plan_binding_ok mi bi resolved b st st' :
  bit_nonneg b -> planning_ok st -> plan_binding mi bi resolved b st = Ok st' -> planning_ok st'.
Proof.
  intros Hnn [H1 H2 H3 H4]. unfold plan_binding. case_bool_decide as Hm; [done|]. intros Hr.
  apply res_bind_Ok in Hr as (register & _ & Hr). apply res_bind_Ok in Hr as ([table pdu] & Href & Hr).
  revert Hr. case_bool_decide; [done|]. intros Hr. apply res_bind_Ok in Hr as (raw & _ & Hr).
  apply res_bind_Ok in Hr as (bit & Hbit & Hr). revert Hr.
  destruct (bool_decide _ && match table with InputRegister | Discrete => true | _ => false end) eqn:Hro; [done|].
  destruct (bool_decide _ && f64_eq _ _); [done|]. destruct (negb _ || negb _); [done|]. intros Hr.
  apply res_bind_Ok in Hr as (slot & _ & Hr). apply Ok_inj in Hr as <-.
  apply decode_ref_Ok in Href. destruct (check_bit_Ok _ _ _ _ _ Hbit Hnn) as [Hb1 Hb2].
  split; cbn [pl_points pl_spans pl_input_pos pl_output_pos].
  - apply Forall_app. split; [done|]. constructor; [|done].
    split; cbn [pp_pdu pp_words pp_table pp_raw pp_bit pp_direction pp_input_pos pp_output_pos]; try done.
    destruct (b_image b); cbn in *; [left; split; [done|]; split; [by eexists|done]| |done].
    right. split; [done|]. split; [by eexists|]. split; [done|]. destruct table; auto; done.
  - rewrite map_app, <-H2. done.
  - rewrite omap_snoc, H3. cbn [pp_input_pos]. destruct (b_image b); cbn [direction]; rewrite ?app_nil_r; try done.
    by rewrite seq_S.
  - rewrite omap_snoc, H4. cbn [pp_output_pos]. destruct (b_image b); cbn [direction]; rewrite ?app_nil_r; try done.
    by rewrite seq_S.
Qed.

Lemma plan_bindings_ok mi bi resolved bs st st' :
  Forall bit_nonneg bs -> planning_ok st -> plan_bindings mi bi resolved bs st = Ok st' -> planning_ok st'.
Proof.
  revert bi st. induction bs as [|b bs IH]; intros bi st Hb Hst Hr; [by apply Ok_inj in Hr as <-|].
  apply Forall_cons in Hb as [Hb Hbs]. cbn in Hr. apply res_bind_Ok in Hr as (st1 & H1 & H2).
  eapply IH; [done| |exact H2]. by eapply plan_binding_ok.
Qed.

(** ** Overlaps *)

Section Pairs.
Context {A : Type} (Q : A -> A -> Prop) (Qsym : forall x y, Q x y -> Q y x).

Lemma pairs_perm l l' : l ≡ₚ l' -> ForallOrdPairs Q l -> ForallOrdPairs Q l'.
Proof.
  induction 1 as [|x l l' Hp IH|x y l|l l' l'' _ IH1 _ IH2]; intros Hq; [constructor| | |by auto].
  - inversion Hq as [|? ? Hx Hl]; subst. constructor; [|by apply IH].
    apply List.Forall_forall. intros z Hz. rewrite List.Forall_forall in Hx. apply Hx.
    apply list_elem_of_In. rewrite Hp. by apply list_elem_of_In.
  - inversion Hq as [|? ? Hy Hl]; subst. inversion Hl as [|? ? Hx Hl']; subst. inversion Hy as [|? ? Hyx Hy']; subst.
    constructor; [constructor; [by apply Qsym|done]|]. by constructor.
Qed.

Lemma pairs_lookup l i j x y :
  ForallOrdPairs Q l -> i <> j -> l !! i = Some x -> l !! j = Some y -> Q x y.
Proof.
  intros Hl. revert i j. induction Hl as [|z l Hz Hl IH]; intros i j Hne Hi Hj; [done|].
  rewrite Forall_forall in Hz.
  destruct i as [|i], j as [|j]; cbn in Hi, Hj; [done| | |].
  - injection Hi as <-. apply Hz. by eapply list_elem_of_lookup_2.
  - injection Hj as <-. apply Qsym, Hz. by eapply list_elem_of_lookup_2.
  - eapply (IH i j); [congruence|done|done].
Qed.

Lemma sorted_pairs (P : A -> A -> Prop) l : (forall x y, P x y -> Q x y) -> StronglySorted P l -> ForallOrdPairs Q l.
Proof.
  intros HP. induction 1 as [|x l Hl IH Hx]; constructor; [|done].
  eapply Forall_impl; [exact Hx|]. intros y. apply HP.
Qed.
End Pairs.

Definition span_apart (a b : Span) : Prop :=
  spn_table a = spn_table b -> spn_end a <= spn_start b \/ spn_end b <= spn_start a.

(** The order in which the spans come after the sort, neighbours apart. *)
Definition span_before (a b : Span) : Prop :=
  span_gt a b = false /\ spn_start a <= spn_end a /\ spn_start b <= spn_end b /\
  (spn_table a = spn_table b -> spn_end a <= spn_start b).

Lemma table_code_inj t u : table_code t = table_code u -> t = u.
Proof. by destruct t, u. Qed.

Lemma span_gt_false a b :
  span_gt a b = false <->
  table_code (spn_table a) < table_code (spn_table b) \/
  table_code (spn_table a) = table_code (spn_table b) /\ spn_start a <= spn_start b.
Proof. unfold span_gt. lia. Qed.

Lemma span_gt_asym a b : span_gt a b = true -> span_gt b a = false.
Proof. unfold span_gt. lia. Qed.

Lemma span_gt_trans a b c : span_gt a b = false -> span_gt b c = false -> span_gt a c = false.
Proof. rewrite !span_gt_false. lia. Qed.

Lemma span_before_trans a b c : span_before a b -> span_before b c -> span_before a c.
Proof.
  intros (O1 & A1 & B1 & E1) (O2 & A2 & B2 & E2). split; [by eapply span_gt_trans|]. split; [done|]. split; [done|].
  intros Hac. apply span_gt_false in O1, O2.
  assert (Hab : spn_table a = spn_table b) by (apply table_code_inj; rewrite Hac in *; lia).
  assert (Hbc : spn_table b = spn_table c) by congruence. specialize (E1 Hab). specialize (E2 Hbc). lia.
Qed.

Lemma check_overlaps_Ok spans :
  check_overlaps spans = Ok tt -> Forall (fun s => spn_start s <= spn_end s) spans ->
  ForallOrdPairs span_apart spans.
Proof.
  unfold check_overlaps. destruct (has_window _ _) eqn:Hw; [done|]. intros _ Hf.
  apply (pairs_perm span_apart) with (sort_by span_gt spans); [unfold span_apart; intros; naive_solver|apply sort_by_perm|].
  apply (sorted_pairs span_apart span_before); [intros x y (_ & _ & _ & E) He; left; auto|].
  apply (has_window_false (fun x y => span_gt x y = false /\ spn_start x <= spn_end x /\ spn_start y <= spn_end y)
           _ span_clash); [|apply span_before_trans| |done].
  - intros x y Hc (Ho & Hx & Hy). do 3 (split; [done|]). intros He. unfold span_clash in Hc.
    rewrite bool_decide_eq_true_2 in Hc by done. cbn in Hc. lia.
  - pose proof (sort_by_sorted span_gt span_gt_trans span_gt_asym spans) as Hs.
    assert (Hf' : Forall (fun s => spn_start s <= spn_end s) (sort_by span_gt spans)) by by rewrite sort_by_perm.
    clear Hw. induction Hs as [|x l Hl IH Hx]; [constructor|]. apply Forall_cons in Hf' as [Hfx Hfl].
    constructor; [by apply IH|]. apply Forall_forall. intros y Hy. rewrite Forall_forall in Hx, Hfl. auto.
Qed.

Lemma pairs_map {A B} (f : A -> B) (Q : B -> B -> Prop) l :
  ForallOrdPairs Q (map f l) -> ForallOrdPairs (fun x y => Q (f x) (f y)) l.
Proof.
  induction l as [|x l IH]; cbn; intros Hl; [constructor|]. inversion Hl as [|? ? Hx Hl']; subst.
  constructor; [|by apply IH]. exact (proj1 (List.Forall_map f _ l) Hx).
Qed.

Lemma validate_module_ok mi cfg md resolved pm :
  Forall bit_nonneg (m_bindings md) -> validate_module mi cfg md resolved = Ok pm -> points_ok (pm_points pm).
Proof.
  intros Hb Hv. unfold validate_module in Hv. apply res_bind_Ok in Hv as (c & _ & Hv). revert Hv.
  do 4 (match goal with |- (if ?c then _ else _) = _ -> _ => destruct c; [done|] end). intros Hv.
  apply res_bind_Ok in Hv as ([host port] & _ & Hv). apply res_bind_Ok in Hv as (st & Hst & Hv).
  apply res_bind_Ok in Hv as ([] & Ho & Hv). apply Ok_inj in Hv as <-. cbn [pm_points].
  apply plan_bindings_ok in Hst as [H1 H2 H3 H4]; [|done|by split].
  rewrite H2 in Ho. apply check_overlaps_Ok in Ho.
  - split; [done| |eauto|eauto]. by apply pairs_map in Ho.
  - apply List.Forall_map. eapply Forall_impl; [exact H1|]. intros p Hp. cbn. unfold pp_end.
    pose proof (point_words _ Hp). lia.
Qed.

Lemma validate_modules_ok mi config_of mds resolved pms :
  Forall (fun md => Forall bit_nonneg (m_bindings md)) mds ->
  validate_modules mi config_of mds resolved = Ok pms -> Forall (fun pm => points_ok (pm_points pm)) pms.
Proof.
  revert mi pms. induction mds as [|md mds IH]; intros mi pms Hb Hv; cbn in Hv.
  - apply Ok_inj in Hv as <-. constructor.
  - apply Forall_cons in Hb as [Hb Hbs]. revert Hv. destruct (negb _); intros Hv; [by eapply IH|].
    apply res_bind_Ok in Hv as (pm & Hm & Hv). apply res_bind_Ok in Hv as (pms' & Hms & Hv). apply Ok_inj in Hv as <-.
    constructor; [by eapply validate_module_ok|by eapply IH].
Qed.

(** ** A map with one module *)

Definition demo_field (tag : string) (p : ImagePlane) (ty : ValueType) (register : Z) (bit : option Z) : IoBinding :=
  mkBinding (bstr tag) p ty bit None f64_one f64_zero None [] None (Some register) None None.

Definition demo_modbus : IoMap := mkIoMap 1
  [ mkIoModule (bstr "rtu") (bstr "modbus_tcp") ForceSafe
      [ demo_field "lamp" PlaneQ TyBool 5 None;
        demo_field "start" PlaneI TyBool 10003 None;
        demo_field "level" PlaneI TyInt 30001 None;
        demo_field "valve" PlaneQ TyDint 40011 None;
        demo_field "enable" PlaneQ TyBool 40013 (Some 3) ] ].

Definition demo_modbus_config (mi : nat) : option ModuleConfig :=
  Some (mkModuleConfig (bstr "10.0.0.7:502") 17 default_poll None None).

Definition demo_planned : res IoError (list PlannedModule) :=
  r ← resolve demo_modbus; validate_map demo_modbus_config demo_modbus r.

(** Table, address, words and slot of the planned points. *)
Example demo_planned_points :
  (fun pms => flat_map (fun pm => map (fun p => (pp_table p, pp_pdu p, pp_words p, pp_slot p)) (pm_points pm)) pms)
    <$> (match demo_planned with Ok pms => Some pms | _ => None end) =
  Some [(Coil, 4, 1, 0%nat); (Discrete, 2, 1, 0%nat); (InputRegister, 0, 1, 1%nat); (Holding, 10, 2, 1%nat);
        (Holding, 12, 1, 2%nat)].
Proof. vm_compute. reflexivity. Qed.

(** Two bits of one register count as overlapping. *)
Example two_bits_of_a_register :
  validate_map demo_modbus_config
    (mkIoMap 1 [mkIoModule (bstr "rtu") (bstr "modbus_tcp") ForceSafe
                  [demo_field "a" PlaneQ TyBool 40013 (Some 3); demo_field "b" PlaneQ TyBool 40013 (Some 4)]])
    (mkResolvedMap (mkImage [] [] [] [] [] [] [])
       [mkResolved 0 (bstr "rtu") (bstr "modbus_tcp") 0 0 PlaneQ; mkResolved 0 (bstr "rtu") (bstr "modbus_tcp") 1 1 PlaneQ]) = Err MapError.
Proof. vm_compute. reflexivity. Qed.

Lemma demo_bits : Forall (fun md => Forall bit_nonneg (m_bindings md)) (map_modules demo_modbus).
Proof.
  repeat (apply Forall_cons; split || apply Forall_nil); try done; intros x Hx; cbn in Hx; try done. injection Hx as <-. lia.
Qed.
