(* ===== verification/ModbusConvert.v ===== *)
(** * Modbus: register values

    Crate [plc-io-modbus], src/crates/plc-io-modbus/src/convert.rs: raw registers to
    engineering values and back. Registers are 16-bit words; f64 values are bit
    patterns ([Float64]). *)
From S2P Require Import Prelude Text Float32 Float64 PlcTypes IoImage IoMap ModbusPlan.

Definition sat_int (lo hi x : Z) : Z :=
  if negb (f64_is_finite x) then 0
  else
    let x := f64_round x in
    if f64_lt (f64_of_int hi) x then hi
    else if f64_lt x (f64_of_int lo) then lo
    else f64_to_range lo hi x.

Definition sat_i16 : Z -> Z := sat_int (-2 ^ 15) (2 ^ 15 - 1).
Definition sat_u16 : Z -> Z := sat_int 0 (2 ^ 16 - 1).
Definition sat_i32 : Z -> Z := sat_int (-2 ^ 31) (2 ^ 31 - 1).

Definition f32_max : Z := 0x7F7FFFFF.
Definition f32_min : Z := 0xFF7FFFFF.

Definition sat_f32 (x : Z) : Z :=
  if negb (f64_is_finite x) then f32_zero
  else if f64_lt (f64_of_f32 f32_max) x then f32_max
  else if f64_lt x (f64_of_f32 f32_min) then f32_min
  else f32_of_f64 x.

Definition finish (eng : Z) (ty : ValueType) : PlcValue :=
  match ty with
  | TyBool => PBool (f64_is_finite eng && negb (f64_eq eng f64_zero))
  | TyInt => PInt (sat_i16 eng)
  | TyDint => PDint (sat_i32 eng)
  | TyTime => PTime (sat_i32 eng)
  | TyReal => PReal (sat_f32 eng)
  end.

Definition decode_number (raw : Z) (point : PlannedPoint) : PlcValue :=
  let eng := match pp_direction point with
             | DirInput => apply_scale_offset_clamp raw (pp_scale point) (pp_offset point) (pp_clamp point)
             | _ => raw
             end in
  finish eng (pp_value_type point).

(** [regs.get(i).copied().unwrap_or(0)]. *)
Definition reg_at (regs : list Z) (i : nat) : Z := default 0 (regs !! i).

Definition pack32 (hi lo : Z) : Z := Z.lor (Z.shiftl hi 16) lo.

Definition decode_regs (regs : list Z) (point : PlannedPoint) : PlcValue :=
  let raw :=
    match pp_raw point with
    | RawBool => f64_of_int (Z.land (Z.shiftr (reg_at regs 0) (default 0 (pp_bit point))) 1)
    | RawInt => f64_of_int (wrap_s 16 (reg_at regs 0))
    | RawUint => f64_of_int (reg_at regs 0)
    | RawDint => f64_of_int (wrap_s 32 (pack32 (reg_at regs 0) (reg_at regs 1)))
    | RawReal => f64_of_f32 (pack32 (reg_at regs 0) (reg_at regs 1))
    end in
  decode_number raw point.

Definition plc_eng (value : PlcValue) : Z :=
  match value with
  | PBool b => if b then f64_one else f64_zero
  | PInt n | PDint n | PTime n => f64_of_int n
  | PReal n => f64_of_f32 n
  end.

Definition coil_on (value : PlcValue) (point : PlannedPoint) : bool :=
  let raw := eng_to_raw (plc_eng value) (pp_scale point) (pp_offset point) in
  f64_is_finite raw && negb (f64_eq raw f64_zero).

(** The two words of a 32-bit pattern, high first. *)
Definition words32 (n : Z) : list Z := [wrap_u 16 (Z.shiftr n 16); wrap_u 16 n].

Definition value_to_words (value : PlcValue) (point : PlannedPoint) : list Z :=
  let raw := eng_to_raw (plc_eng value) (pp_scale point) (pp_offset point) in
  match pp_raw point with
  | RawBool => [if coil_on value point then 1 else 0]
  | RawInt => [wrap_u 16 (sat_i16 raw)]
  | RawUint => [sat_u16 raw]
  | RawDint => words32 (wrap_u 32 (sat_i32 raw))
  | RawReal => words32 (sat_f32 raw)
  end.

(** ** Ranges *)

Lemma f64_to_range_bound lo hi x : lo <= 0 <= hi -> lo <= f64_to_range lo hi x <= hi.
Proof. intros H. unfold f64_to_range. destruct (f64_decode x) as [s|[]| |s p e]; lia. Qed.

Lemma sat_int_bound lo hi x : lo <= 0 <= hi -> lo <= sat_int lo hi x <= hi.
Proof.
  intros H. unfold sat_int. destruct (negb _); [done|]. do 2 (case_match; [lia|]). by apply f64_to_range_bound.
Qed.

(** A point is written with as many words as it occupies, each 16 bits wide. *)
Lemma value_to_words_length v p : length (value_to_words v p) = Z.to_nat (raw_words (pp_raw p)).
Proof. unfold value_to_words, words32. by destruct (pp_raw p). Qed.

Lemma value_to_words_range v p : Forall (u_range 16) (value_to_words v p).
Proof.
  unfold value_to_words, words32. destruct (pp_raw p); repeat constructor;
    try (by apply wrap_u_range); try (destruct (coil_on v p); lia).
  all: pose proof (sat_int_bound 0 (2 ^ 16 - 1) (eng_to_raw (plc_eng v) (pp_scale p) (pp_offset p)) ltac:(lia));
    unfold sat_u16; lia.
Qed.
