(* ===== verification/ModbusCodec.v ===== *)
(** * Modbus: the TCP client

    Crate [plc-io-modbus], src/crates/plc-io-modbus/src/codec.rs: requests and
    responses of the eight function codes over a TCP connection. The connection is
    the class [Stream]; its law is what the standard library documents of
    [read_exact]. Messages of errors are left out. *)
From S2P Require Import Prelude.

Class Stream (S : Type) := {
  write_all : bytes -> S -> S * bool;
  read_exact : nat -> S -> S * option bytes }.

Class StreamLaws (S : Type) `{!Stream S} := {
  read_exact_law n s s' b : read_exact n s = (s', Some b) -> length b = n /\ bytes_ok b }.

Inductive Fail := Mismatch | OtherFail.

(** [to_be_bytes] and [from_be_bytes] of a [u16]. *)
Definition be16 (x : Z) : bytes := [Z.shiftr x 8; Z.land x 255].
Definition from_be16 (hi lo : Z) : Z := Z.lor (Z.shiftl hi 8) lo.

Definition u16_or_0 (n : nat) : Z := if Z.of_nat n <? 2 ^ 16 then Z.of_nat n else 0.
Definition u8_or_255 (n : nat) : Z := if Z.of_nat n <? 2 ^ 8 then Z.of_nat n else 255.

Definition read_pdu (fc start qty : Z) : bytes := [fc] ++ be16 start ++ be16 qty.

Section Session.
Context {S : Type} `{!Stream S}.

(** The fields of a session that change; [unit] is fixed. *)
Record Session := mkSession { se_stream : S; se_tid : Z }.

Definition io_write (b : bytes) : M Session Fail unit := fun s =>
  let '(st, ok) := write_all b (se_stream s) in
  (mkSession st (se_tid s), if ok then Ok tt else Err OtherFail).

Definition io_read (n : nat) : M Session Fail bytes := fun s =>
  let '(st, r) := read_exact n (se_stream s) in
  (mkSession st (se_tid s), ok_or r OtherFail).

Definition send (unit_id tid : Z) (pdu : bytes) : M Session Fail unit :=
  io_write (be16 tid ++ be16 0 ++ be16 (u16_or_0 (1 + length pdu)) ++ [unit_id] ++ pdu).

Definition recv_tid (unit_id expect : Z) : M Session Fail bytes :=
  prefix ← io_read 6;
  p0 ← m_lift (index prefix 0); p1 ← m_lift (index prefix 1);
  p2 ← m_lift (index prefix 2); p3 ← m_lift (index prefix 3);
  p4 ← m_lift (index prefix 4); p5 ← m_lift (index prefix 5);
  let tid := from_be16 p0 p1 in
  let proto := from_be16 p2 p3 in
  let len := from_be16 p4 p5 in
  if negb (proto =? 0) then m_err OtherFail
  else if negb ((2 <=? len) && (len <=? 254)) then m_err OtherFail
  else
    rest ← io_read (Z.to_nat len);
    if negb (tid =? expect) then m_err Mismatch
    else
      r0 ← m_lift (index rest 0);
      if negb (r0 =? unit_id) then m_err OtherFail else mret (drop 1 rest).

(** A mismatch is retried once. *)
Definition recv_retry (unit_id tid : Z) : M Session Fail bytes := fun s =>
  match recv_tid unit_id tid s with
  | (s, Err Mismatch) => recv_tid unit_id tid s
  | other => other
  end.

Definition transact (unit_id : Z) (request : bytes) : M Session Fail bytes :=
  tid ← m_gets se_tid;
  m_modify (fun s => mkSession (se_stream s) (wrap_u 16 (tid + 1))) ;;
  send unit_id tid request ;;
  pdu ← recv_retry unit_id tid;
  let fc := default 0 (head request) in
  match head pdu with
  | Some got =>
      if got =? Z.lor fc 0x80 then m_err OtherFail
      else if got =? fc then mret pdu else m_err OtherFail
  | None => m_err OtherFail
  end.

(** [pdu[2..2 + count]]. *)
Definition payload (pdu : bytes) (count : nat) : res Fail bytes :=
  if (2 + count <=? length pdu)%nat then Ok (slice pdu 2 count) else Panic.

Definition read_bits (unit_id fc start qty : Z) : M Session Fail bytes :=
  pdu ← transact unit_id (read_pdu fc start qty);
  let count := Z.to_nat (default 0 (pdu !! 1%nat)) in
  let expect := Z.to_nat ((qty + 7) / 8) in
  if negb (count =? expect)%nat || (length pdu <? 2 + count)%nat then m_err OtherFail
  else m_lift (payload pdu count).

(** The register loop of [read_regs]. *)
Fixpoint regs_from (pdu : bytes) (o n : nat) : res Fail (list Z) :=
  match n with
  | O => Ok []
  | Datatypes.S n =>
      hi ← index pdu o;
      lo ← index pdu (o + 1);
      rs ← regs_from pdu (o + 2) n;
      Ok (from_be16 hi lo :: rs)
  end.

Definition read_regs (unit_id fc start qty : Z) : M Session Fail (list Z) :=
  pdu ← transact unit_id (read_pdu fc start qty);
  let count := Z.to_nat (default 0 (pdu !! 1%nat)) in
  if negb (count =? Z.to_nat qty * 2)%nat || (length pdu <? 2 + count)%nat then m_err OtherFail
  else m_lift (regs_from pdu 2 (Z.to_nat qty)).

Definition write_coil (unit_id addr : Z) (on : bool) : M Session Fail unit :=
  transact unit_id ([5] ++ be16 addr ++ be16 (if on then 0xFF00 else 0)) ;; mret tt.

Definition write_reg (unit_id addr value : Z) : M Session Fail unit :=
  transact unit_id ([6] ++ be16 addr ++ be16 value) ;; mret tt.

(** The loop that sets the bits of [data]; [data[i / 8]] is an index. *)
Fixpoint set_bits (i : nat) (bits : list bool) (data : bytes) : res Fail bytes :=
  match bits with
  | [] => Ok data
  | on :: bits =>
      data ← (if on then
                b ← index data (i / 8)%nat;
                Ok (<[(i / 8)%nat := Z.lor b (Z.shiftl 1 (Z.of_nat (i mod 8)))]> data)
              else Ok data);
      set_bits (Datatypes.S i) bits data
  end.

Definition div_ceil8 (n : nat) : nat := ((n + 7) / 8)%nat.

Definition pack_bits (bits : list bool) : res Fail bytes := set_bits 0 bits (replicate (div_ceil8 (length bits)) 0).

Definition write_coils (unit_id addr : Z) (bits : list bool) : M Session Fail unit :=
  let nbytes := div_ceil8 (length bits) in
  data ← m_lift (pack_bits bits);
  transact unit_id ([15] ++ be16 addr ++ be16 (u16_or_0 (length bits)) ++ [u8_or_255 nbytes] ++ data) ;;
  mret tt.

Definition write_regs (unit_id addr : Z) (regs : list Z) : M Session Fail unit :=
  transact unit_id ([16] ++ be16 addr ++ be16 (u16_or_0 (length regs)) ++ [u8_or_255 (length regs * 2)] ++
                    flat_map be16 regs) ;;
  mret tt.

(** ** Packing *)

(** Bits packed into bytes, the first in the least significant bit of the first byte. *)
Fixpoint bits_set (i : nat) (bits : list bool) (data : bytes) : bytes :=
  match bits with
  | [] => data
  | on :: bits =>
      let data := if on then alter (fun b => Z.lor b (Z.shiftl 1 (Z.of_nat (i mod 8)))) (i / 8)%nat data else data in
      bits_set (Datatypes.S i) bits data
  end.

Definition packed (bits : list bool) : bytes := bits_set 0 bits (replicate (div_ceil8 (length bits)) 0).

Lemma set_bits_Ok i bits data : (i + length bits <= 8 * length data)%nat -> set_bits i bits data = Ok (bits_set i bits data).
Proof.
  revert i data. induction bits as [|b bits IH]; intros i data Hl; cbn [set_bits bits_set]; [done|]. cbn [length] in Hl.
  destruct b; cbn [mbind res_bind]; [|apply IH; lia]. unfold index.
  destruct (lookup_lt_is_Some_2 data (i / 8)) as [x Hx]; [apply Nat.Div0.div_lt_upper_bound; lia|].
  rewrite Hx. cbn [mbind res_bind]. rewrite <-IH by (rewrite length_alter; lia). f_equal.
  apply list_eq. intros j. destruct (decide (i / 8 = j)%nat) as [<-|Hne].
  - rewrite list_lookup_alter_eq, Hx. apply list_lookup_insert_eq. by eapply lookup_lt_Some.
  - by rewrite list_lookup_insert_ne, list_lookup_alter_ne by done.
Qed.

Lemma div_ceil8_spec n : (n <= 8 * div_ceil8 n < n + 8)%nat.
Proof. unfold div_ceil8. pose proof (Nat.div_mod_eq (n + 7) 8). pose proof (Nat.mod_upper_bound (n + 7) 8 ltac:(lia)). lia. Qed.

(** The index is in range. *)
Lemma pack_bits_Ok bits : pack_bits bits = Ok (packed bits).
Proof. apply set_bits_Ok. rewrite length_replicate. pose proof (div_ceil8_spec (length bits)). lia. Qed.

(** ** No bytes of a peer make the client panic *)

(** [m] keeps [I], does not panic, and its results satisfy [Q]. *)
Definition safe {St E A} (I : St -> Prop) (m : M St E A) (Q : A -> Prop) : Prop :=
  forall s, I s ->
    I (m s).1 /\ match (m s).2 with Ok a => Q a | Err _ => True | Panic => False end.

Lemma nopanic_ret {St E A} (I : St -> Prop) (a : A) (Q : A -> Prop) : Q a -> safe I (mret a : M St E A) Q.
Proof. by intros H s. Qed.

Lemma nopanic_err {St E A} (I : St -> Prop) (e : E) (Q : A -> Prop) : safe I (m_err e : M St E A) Q.
Proof. by intros s. Qed.

Lemma nopanic_bind {St E A B} (I : St -> Prop) (P : A -> Prop) (m : M St E A) (f : A -> M St E B) (Q : B -> Prop) :
  safe I m P -> (forall a, P a -> safe I (f a) Q) -> safe I (m ≫= f) Q.
Proof.
  intros Hm Hf s Hs. destruct (Hm s Hs) as [H1 H2]. unfold mbind, M_bind.
  destruct (m s) as [s' [a|e|]]; try done. by apply Hf.
Qed.

Lemma nopanic_weaken {St E A} (I : St -> Prop) (m : M St E A) (P Q : A -> Prop) :
  safe I m P -> (forall a, P a -> Q a) -> safe I m Q.
Proof. intros Hm HQ s Hs. destruct (Hm s Hs) as [H1 H2]. split; [done|]. destruct (m s).2; auto. Qed.

Lemma nopanic_lift {St E A} (I : St -> Prop) (r : res E A) (Q : A -> Prop) :
  (forall a, r = Ok a -> Q a) -> r <> Panic -> safe I (m_lift r : M St E A) Q.
Proof. intros H1 H2 s Hs. unfold m_lift. cbn. split; [done|]. destruct r; auto. Qed.

Lemma nopanic_modify {St E} (I : St -> Prop) (f : St -> St) :
  (forall s, I s -> I (f s)) -> safe I (m_modify f : M St E unit) (fun _ => True).
Proof. intros H s Hs. cbn. auto. Qed.

Lemma nopanic_gets {St E A} (I : St -> Prop) (f : St -> A) : safe I (m_gets f : M St E A) (fun _ => True).
Proof. by intros s. Qed.

Lemma nopanic_each {St E A} (I : St -> Prop) (l : list A) (body : A -> M St E unit) :
  (forall x, x ∈ l -> safe I (body x) (fun _ => True)) -> safe I (m_each l body) (fun _ => True).
Proof.
  induction l as [|x l IH]; intros Hb; cbn [m_each]; [by apply nopanic_ret|].
  eapply nopanic_bind; [apply Hb; by left|]. intros _ _. apply IH. intros y Hy. apply Hb. by right.
Qed.

Lemma nopanic_index {St E A} (I : St -> Prop) (l : list A) i (Q : A -> Prop) :
  (i < length l)%nat -> Forall Q l -> safe I (m_lift (index l i) : M St E A) Q.
Proof.
  intros Hi HQ. unfold index. destruct (lookup_lt_is_Some_2 l i Hi) as [x Hx]. rewrite Hx.
  apply nopanic_lift; [|done]. intros a [= <-]. by eapply Forall_lookup_1.
Qed.

(** The transaction counter is a [u16]. *)
Definition tid_ok (s : Session) : Prop := u_range 16 (se_tid s).

Context `{!StreamLaws S}.

Lemma io_read_safe n : safe tid_ok (io_read n) (fun b => length b = n /\ bytes_ok b).
Proof.
  intros s Hs. unfold io_read. destruct (read_exact n (se_stream s)) as [st [b|]] eqn:Hr; [|done].
  split; [done|]. by apply (read_exact_law _ _ _ _ Hr).
Qed.

Lemma recv_tid_safe unit_id expect : safe tid_ok (recv_tid unit_id expect) bytes_ok.
Proof.
  unfold recv_tid. eapply nopanic_bind; [apply io_read_safe|]. intros prefix [Hl Hb].
  do 6 (eapply nopanic_bind; [apply (nopanic_index _ _ _ byte_range); [lia|done]|]; intros ? _).
  destruct (negb _); [apply nopanic_err|]. destruct (negb ((2 <=? _) && _)) eqn:Hlen; [apply nopanic_err|].
  eapply nopanic_bind; [apply io_read_safe|]. intros rest [Hl' Hb'].
  destruct (negb (_ =? expect)); [apply nopanic_err|].
  eapply nopanic_bind; [apply (nopanic_index _ _ _ byte_range); [lia|done]|]. intros r0 _.
  destruct (negb (_ =? unit_id)); [apply nopanic_err|]. apply nopanic_ret. by apply Forall_drop.
Qed.

Lemma recv_retry_safe unit_id tid : safe tid_ok (recv_retry unit_id tid) bytes_ok.
Proof.
  intros s Hs. unfold recv_retry. destruct (recv_tid_safe unit_id tid s Hs) as [H1 H2].
  destruct (recv_tid unit_id tid s) as [s' [pdu|[]|]]; try done. by apply recv_tid_safe.
Qed.

Lemma transact_safe unit_id request : safe tid_ok (transact unit_id request) bytes_ok.
Proof.
  unfold transact. eapply nopanic_bind; [apply nopanic_gets|]. intros tid _.
  eapply nopanic_bind; [apply nopanic_modify; intros s _; by apply wrap_u_range|]. intros _ _.
  eapply (nopanic_bind _ (fun _ => True)).
  { intros s Hs. unfold send, io_write. destruct (write_all _ _) as [st []]; done. }
  intros _ _. eapply nopanic_bind; [apply recv_retry_safe|]. intros pdu Hb.
  destruct (head pdu) as [got|]; [|apply nopanic_err]. destruct (got =? _); [apply nopanic_err|].
  destruct (got =? _); [by apply nopanic_ret|apply nopanic_err].
Qed.

Lemma regs_from_Ok pdu o n :
  (o + n * 2 <= length pdu)%nat -> bytes_ok pdu ->
  exists rs, regs_from pdu o n = Ok rs /\ length rs = n /\ Forall (u_range 16) rs.
Proof.
  revert o. induction n as [|n IH]; intros o Hl Hb; cbn [regs_from]; [by exists []|].
  unfold index. destruct (lookup_lt_is_Some_2 pdu o) as [hi Hhi]; [lia|]. rewrite Hhi.
  destruct (lookup_lt_is_Some_2 pdu (o + 1)) as [lo Hlo]; [lia|]. rewrite Hlo. cbn [mbind res_bind].
  destruct (IH (o + 2)%nat) as (rs & -> & Hrs & Hr); [lia|done|]. cbn [mbind res_bind].
  eexists. split; [done|]. split; [cbn; lia|]. constructor; [|done].
  pose proof (Forall_lookup_1 _ _ _ _ Hb Hhi) as H1. pose proof (Forall_lookup_1 _ _ _ _ Hb Hlo) as H2.
  unfold byte_range in *. cbn in H1, H2. unfold from_be16. rewrite lor_shiftl_add by (unfold u_range; lia).
  unfold u_range. lia.
Qed.

Lemma read_regs_safe unit_id fc start qty :
  safe tid_ok (read_regs unit_id fc start qty) (fun rs => length rs = Z.to_nat qty /\ Forall (u_range 16) rs).
Proof.
  unfold read_regs. eapply nopanic_bind; [apply transact_safe|]. intros pdu Hb.
  destruct (negb _ || _) eqn:Hc; [apply nopanic_err|]. apply orb_false_iff in Hc as [Hn Hl].
  apply negb_false_iff, Nat.eqb_eq in Hn. apply Nat.ltb_ge in Hl. rewrite Hn in Hl.
  destruct (regs_from_Ok pdu 2 (Z.to_nat qty) Hl Hb) as (rs & -> & Hrs). apply nopanic_lift; [|done].
  intros a Ha. apply Ok_inj in Ha. by subst a.
Qed.

Lemma read_bits_safe unit_id fc start qty :
  safe tid_ok (read_bits unit_id fc start qty) (fun bs => length bs = Z.to_nat ((qty + 7) / 8) /\ bytes_ok bs).
Proof.
  unfold read_bits. eapply nopanic_bind; [apply transact_safe|]. intros pdu Hb.
  destruct (negb _ || _) eqn:Hc; [apply nopanic_err|]. apply orb_false_iff in Hc as [Hn Hl].
  apply negb_false_iff, Nat.eqb_eq in Hn. apply Nat.ltb_ge in Hl. unfold payload.
  rewrite (proj2 (Nat.leb_le _ _) Hl). apply nopanic_lift; [|done]. intros a Ha. apply Ok_inj in Ha. subst a.
  rewrite <-Hn. split; [by apply length_slice|by apply slice_ok].
Qed.

Lemma write_coils_safe unit_id addr bits : safe tid_ok (write_coils unit_id addr bits) (fun _ => True).
Proof.
  unfold write_coils. rewrite pack_bits_Ok. eapply (nopanic_bind _ (fun _ => True)); [by apply nopanic_lift|]. intros data _.
  eapply nopanic_bind; [apply transact_safe|]. intros. by apply nopanic_ret.
Qed.

Lemma write_safe unit_id request : safe tid_ok (transact unit_id request ;; mret tt) (fun _ => True).
Proof. eapply nopanic_bind; [apply transact_safe|]. intros. by apply nopanic_ret. Qed.
End Session.
Arguments Session : clear implicits.
