(* ===== verification/ModbusDriver.v ===== *)
(** * Modbus: the worker

    Crate [plc-io-modbus], src/crates/plc-io-modbus/src/driver.rs, the side of the
    poll thread: request groups, one poll of a module, one pass over the modules. The
    state the worker shares with the scan (the snapshot of inputs, the mailbox of
    outputs, the status) is [ModuleShare], each behind its own mutex. Readings of the
    clock, in milliseconds, and the outcome of connecting are arguments. *)
From S2P Require Import Prelude Text Float32 Float64 PlcTypes IoImage IoMap IoBuffer.
From S2P Require Import ModbusPlan ModbusConvert ModbusCodec.

(** ** State *)

Record ModStatus := mkModStatus { ms_quality : Quality; ms_last_ok : option Z }.

Record Mail := mkMail { ml_armed : bool; ml_force_safe : bool; ml_values : list PlcValue }.

Record Group := mkGroup { gr_start : Z; gr_qty : Z; gr_members : list nat }.

(** What is shared with the scan; of the double buffer, the published snapshot. *)
Record ModuleShare := mkShare {
  sh_inputs : Snapshot;
  sh_input_slots : list nat;
  sh_output_slots : list nat;
  sh_mailbox : Mail;
  sh_status : ModStatus;
  sh_on_bad : BadQualityPolicy;
  sh_stale : Z }.

(** The worker's own state; [unit], [stale] and [on_bad] are copies of the plan's. *)
Record ModRt (S : Type) := mkRt {
  rt_host : bytes;
  rt_port : Z;
  rt_unit : Z;
  rt_period : Z;
  rt_timeout : Z;
  rt_points : list PlannedPoint;
  rt_read_groups : list Group;
  rt_coil_groups : list Group;
  rt_reg_groups : list Group;
  rt_bit_outs : list nat;
  rt_last_inputs : list PlcValue;
  rt_stream : option S;
  rt_tid : Z;
  rt_next_due : Z }.
Arguments mkRt {S}.
Arguments rt_host {S}. Arguments rt_port {S}. Arguments rt_unit {S}. Arguments rt_period {S}.
Arguments rt_timeout {S}. Arguments rt_points {S}. Arguments rt_read_groups {S}.
Arguments rt_coil_groups {S}. Arguments rt_reg_groups {S}. Arguments rt_bit_outs {S}.
Arguments rt_last_inputs {S}. Arguments rt_stream {S}. Arguments rt_tid {S}. Arguments rt_next_due {S}.

(** ** Request groups *)

Definition sat_add16 (x y : Z) : Z := sat_add_u 16 x y.

(** [cur] is the open group, [acc] the closed ones, last first. *)
Fixpoint group_loop (points : list PlannedPoint) (max_qty : Z) (idxs : list nat) (cur : option Group)
    (acc : list Group) : res IoError (list Group) :=
  match idxs with
  | [] => Ok (acc ++ match cur with Some g => [g] | None => [] end)
  | idx :: idxs =>
      point ← index points idx;
      let start_new :=
        match cur with
        | None => true
        | Some g =>
            let end_ := sat_add16 (gr_start g) (gr_qty g) in
            let span := sat_sub_u (sat_add16 (pp_pdu point) (pp_words point)) (gr_start g) in
            negb ((pp_pdu point =? end_) && (span <=? max_qty) && (0 <? span))
        end in
      if start_new then
        group_loop points max_qty idxs (Some (mkGroup (pp_pdu point) (pp_words point) [idx]))
          (acc ++ match cur with Some g => [g] | None => [] end)
      else
        group_loop points max_qty idxs
          ((fun g => mkGroup (gr_start g)
                       (sat_sub_u (sat_add16 (pp_pdu point) (pp_words point)) (gr_start g))
                       (gr_members g ++ [idx])) <$> cur) acc
  end.

(** The order of [sort_by_key] on [points[i].pdu]. *)
Definition pdu_gt (points : list PlannedPoint) (i j : nat) : bool :=
  match points !! i, points !! j with Some p, Some q => pp_pdu q <? pp_pdu p | _, _ => false end.

(** The indices whose point satisfies [pred]. *)
Definition select (points : list PlannedPoint) (pred : PlannedPoint -> bool) : list nat :=
  List.filter (fun i => match points !! i with Some p => pred p | None => false end) (List.seq 0 (length points)).

Definition build_groups (points : list PlannedPoint) (pred : PlannedPoint -> bool) (max_qty : Z) :
    res IoError (list Group) :=
  group_loop points max_qty (sort_by (pdu_gt points) (select points pred)) None [].

Definition is_input_of (t : RegisterType) (p : PlannedPoint) : bool :=
  bool_decide (pp_direction p = DirInput) && bool_decide (pp_table p = t).
Definition is_coil_out (p : PlannedPoint) : bool :=
  bool_decide (pp_direction p = DirOutput) && bool_decide (pp_table p = Coil).
Definition is_reg_out (p : PlannedPoint) : bool :=
  bool_decide (pp_direction p = DirOutput) && bool_decide (pp_table p = Holding) &&
  negb (bool_decide (pp_raw p = RawBool)).
Definition is_bit_out (p : PlannedPoint) : bool :=
  bool_decide (pp_direction p = DirOutput) && bool_decide (pp_table p = Holding) &&
  bool_decide (pp_raw p = RawBool).

Definition read_max (t : RegisterType) : Z := if is_bit_table t then 2000 else 125.

Fixpoint read_groups_of (points : list PlannedPoint) (tables : list RegisterType) : res IoError (list Group) :=
  match tables with
  | [] => Ok []
  | t :: tables =>
      gs ← build_groups points (is_input_of t) (read_max t);
      rest ← read_groups_of points tables;
      Ok (gs ++ rest)
  end.

Definition read_groups (points : list PlannedPoint) : res IoError (list Group) :=
  read_groups_of points [Coil; Discrete; Holding; InputRegister].

(** ** Set-up *)

(** [v[pos] = x]. *)
Definition set_at {A} (l : list A) (pos : nat) (x : A) : res IoError (list A) :=
  if (pos <? length l)%nat then Ok (<[pos := x]> l) else Panic.

(** The loop of [split_module] over the points. *)
Fixpoint fill_positions (ps : list PlannedPoint) (input_slots output_slots : list nat) (defaults : list PlcValue) :
    res IoError (list nat * list nat * list PlcValue) :=
  match ps with
  | [] => Ok (input_slots, output_slots, defaults)
  | p :: ps =>
      r ← match pp_input_pos p with
          | Some pos =>
              slots ← set_at input_slots pos (pp_slot p);
              defs ← set_at defaults pos (Plc.default_of (pp_value_type p));
              Ok (slots, defs)
          | None => Ok (input_slots, defaults)
          end;
      outs ← match pp_output_pos p with
             | Some pos => set_at output_slots pos (pp_slot p)
             | None => Ok output_slots
             end;
      fill_positions ps r.1 outs r.2
  end.

Definition split_module {S} (now : Z) (pm : PlannedModule) : res IoError (ModuleShare * ModRt S) :=
  let points := pm_points pm in
  let n_in := length (omap pp_input_pos points) in
  let n_out := length (omap pp_output_pos points) in
  r ← fill_positions points (replicate n_in 0%nat) (replicate n_out 0%nat) (replicate n_in (PBool false));
  let '(input_slots, output_slots, defaults) := r in
  reads ← read_groups points;
  coils ← build_groups points is_coil_out 1968;
  regs ← build_groups points is_reg_out 123;
  Ok (mkShare (mkSnapshot 1 defaults (replicate n_in Bad)) input_slots output_slots
        (mkMail false false (replicate n_out (PBool false))) (mkModStatus Bad None) (pm_on_bad pm) (pm_stale pm),
      mkRt (pm_host pm) (pm_port pm) (pm_unit pm) (pm_poll_ms pm) (pm_timeout pm) points reads coils regs
        (select points is_bit_out) defaults None 1 now).

(** ** Inputs *)

Inductive Payload := Bits (b : bytes) | Regs (r : list Z).

(** [u16::saturating_sub] of the start. *)
Definition rel_of (g : Group) (p : PlannedPoint) : nat := Z.to_nat (sat_sub_u (pp_pdu p) (gr_start g)).

(** The value of a point in the data of its group. *)
Definition point_value (g : Group) (data : Payload) (p : PlannedPoint) : res Fail PlcValue :=
  let rel := rel_of g p in
  match data with
  | Bits bs =>
      let on := match bs !! (rel / 8)%nat with Some b => Z.testbit b (Z.of_nat (rel mod 8)) | None => false end in
      Ok (decode_number (if on then f64_one else f64_zero) p)
  | Regs rs =>
      let words := Z.to_nat (pp_words p) in
      if (length rs <? rel + words)%nat then Err OtherFail else Ok (decode_regs (slice rs rel words) p)
  end.

(** The state of a read pass: the session and [last_inputs]. *)
Definition Pass (S : Type) : Type := Session S * list PlcValue.

Section Worker.
Context {S : Type} `{!Stream S}.

Definition on_session {A} (m : M (Session S) Fail A) : M (Pass S) Fail A := fun st =>
  let '(se, r) := m st.1 in ((se, st.2), r).

Definition store_input (p : PlannedPoint) (v : PlcValue) : M (Pass S) Fail unit :=
  m_modify (fun st => (st.1, match pp_input_pos p with Some pos => <[pos := v]> st.2 | None => st.2 end)).

Definition store_group (points : list PlannedPoint) (g : Group) (data : Payload) : M (Pass S) Fail unit :=
  m_each (gr_members g) (fun i =>
    p ← m_lift (index points i);
    v ← m_lift (point_value g data p);
    store_input p v).

Definition read_group (unit_id : Z) (points : list PlannedPoint) (g : Group) : M (Pass S) Fail unit :=
  i ← m_lift (index (gr_members g) 0);
  p ← m_lift (index points i);
  let table := pp_table p in
  data ← (if is_bit_table table
          then bs ← on_session (read_bits unit_id (read_fc table) (gr_start g) (gr_qty g)); mret (Bits bs)
          else rs ← on_session (read_regs unit_id (read_fc table) (gr_start g) (gr_qty g)); mret (Regs rs));
  store_group points g data.

Definition read_inputs (unit_id : Z) (points : list PlannedPoint) (groups : list Group) : M (Pass S) Fail unit :=
  m_each groups (read_group unit_id points).

(** ** Outputs *)

Definition selected (mail : Mail) (force : bool) (p : PlannedPoint) : PlcValue :=
  if force then pp_safe p
  else default (pp_safe p) (pos ← pp_output_pos p; ml_values mail !! pos).

(** The bits of a group of coils. *)
Fixpoint coil_bits (points : list PlannedPoint) (mail : Mail) (force : bool) (members : list nat) :
    res Fail (list bool) :=
  match members with
  | [] => Ok []
  | i :: members =>
      p ← index points i;
      bits ← coil_bits points mail force members;
      Ok (coil_on (selected mail force p) p :: bits)
  end.

(** [for (i, word) in words.iter().enumerate()]: words that do not fit are dropped. *)
Fixpoint put_words (off : nat) (words regs : list Z) : list Z :=
  match words with
  | [] => regs
  | w :: words => put_words (Datatypes.S off) words (<[off := w]> regs)
  end.

Fixpoint group_regs (points : list PlannedPoint) (mail : Mail) (force : bool) (g : Group) (members : list nat)
    (regs : list Z) : res Fail (list Z) :=
  match members with
  | [] => Ok regs
  | i :: members =>
      p ← index points i;
      group_regs points mail force g members
        (put_words (rel_of g p) (value_to_words (selected mail force p) p) regs)
  end.

Definition write_coil_group (unit_id : Z) points mail force (g : Group) : M (Session S) Fail unit :=
  bits ← m_lift (coil_bits points mail force (gr_members g));
  match bits with
  | [b] => write_coil unit_id (gr_start g) b
  | _ => write_coils unit_id (gr_start g) bits
  end.

Definition write_reg_group (unit_id : Z) points mail force (g : Group) : M (Session S) Fail unit :=
  regs ← m_lift (group_regs points mail force g (gr_members g) (replicate (Z.to_nat (gr_qty g)) 0));
  match regs with
  | [r] => write_reg unit_id (gr_start g) r
  | [] => mret tt
  | _ => write_regs unit_id (gr_start g) regs
  end.

(** Clearing a bit of a [u16]. *)
Definition clear_bit16 (reg bit : Z) : Z := Z.land reg (Z.lxor (2 ^ 16 - 1) (Z.shiftl 1 bit)).

Definition write_bit_out (unit_id : Z) points mail force (i : nat) : M (Session S) Fail unit :=
  p ← m_lift (index points i);
  regs ← read_regs unit_id 3 (pp_pdu p) 1;
  let reg := default 0 (head regs) in
  let bit := default 0 (pp_bit p) in
  let reg := if coil_on (selected mail force p) p then Z.lor reg (Z.shiftl 1 bit) else clear_bit16 reg bit in
  write_reg unit_id (pp_pdu p) reg.

Definition write_with (rt : ModRt S) (mail : Mail) (force : bool) : M (Session S) Fail unit :=
  m_each (rt_coil_groups rt) (write_coil_group (rt_unit rt) (rt_points rt) mail force) ;;
  m_each (rt_reg_groups rt) (write_reg_group (rt_unit rt) (rt_points rt) mail force) ;;
  m_each (rt_bit_outs rt) (write_bit_out (rt_unit rt) (rt_points rt) mail force).

(** ** One poll *)

(** One module with the worker, and the failures counted. *)
Record Cell := mkCell { cl_share : ModuleShare; cl_rt : ModRt S; cl_fails : Z }.

Definition set_share (f : ModuleShare -> ModuleShare) (c : Cell) : Cell := mkCell (f (cl_share c)) (cl_rt c) (cl_fails c).
Definition set_rt (f : ModRt S -> ModRt S) (c : Cell) : Cell := mkCell (cl_share c) (f (cl_rt c)) (cl_fails c).

Definition set_inputs (s : Snapshot) (h : ModuleShare) : ModuleShare :=
  mkShare s (sh_input_slots h) (sh_output_slots h) (sh_mailbox h) (sh_status h) (sh_on_bad h) (sh_stale h).
Definition set_status_to (st : ModStatus) (h : ModuleShare) : ModuleShare :=
  mkShare (sh_inputs h) (sh_input_slots h) (sh_output_slots h) (sh_mailbox h) st (sh_on_bad h) (sh_stale h).
Definition set_mailbox (m : Mail) (h : ModuleShare) : ModuleShare :=
  mkShare (sh_inputs h) (sh_input_slots h) (sh_output_slots h) m (sh_status h) (sh_on_bad h) (sh_stale h).

Definition set_connection (stream : option S) (tid : Z) (last : list PlcValue) (r : ModRt S) : ModRt S :=
  mkRt (rt_host r) (rt_port r) (rt_unit r) (rt_period r) (rt_timeout r) (rt_points r) (rt_read_groups r)
    (rt_coil_groups r) (rt_reg_groups r) (rt_bit_outs r) last stream tid (rt_next_due r).
Definition set_next_due (t : Z) (r : ModRt S) : ModRt S :=
  mkRt (rt_host r) (rt_port r) (rt_unit r) (rt_period r) (rt_timeout r) (rt_points r) (rt_read_groups r)
    (rt_coil_groups r) (rt_reg_groups r) (rt_bit_outs r) (rt_last_inputs r) (rt_stream r) (rt_tid r) t.

(** The readings of the clock a poll makes, and what connecting would yield. *)
Record Readings := mkReadings { rd_stale_at : Z; rd_ok_at : Z; rd_done_at : Z; rd_connect : option S }.

Definition count_fail (c : Cell) : Cell := mkCell (cl_share c) (cl_rt c) (wrap_u 32 (cl_fails c + 1)).

Definition comms_stale (at_ : Z) (c : Cell) : bool :=
  match ms_last_ok (sh_status (cl_share c)) with
  | Some t => sh_stale (cl_share c) <? sat_sub_u at_ t
  | None => false
  end.

(** [publish]: [last_inputs] with one quality. [DoubleBuffer::publish] asserts that there
    are as many as the buffer has slots. *)
Definition publish (q : Quality) (c : Cell) : res Fail Cell :=
  let last := rt_last_inputs (cl_rt c) in
  match last with
  | [] => Ok c
  | _ =>
      if (length last =? length (sh_input_slots (cl_share c)))%nat then
        Ok (set_share (fun h => set_inputs (mkSnapshot (wrap_u 64 (sn_seq (sh_inputs h) + 1)) last
                                              (replicate (length last) q)) h) c)
      else Panic
  end.

Definition mark_good (at_ : Z) (c : Cell) : res Fail Cell :=
  publish Good (set_share (set_status_to (mkModStatus Good (Some at_))) c).

Definition mark_bad (c : Cell) : res Fail Cell :=
  publish Bad (set_share (fun h => set_status_to (mkModStatus Bad (ms_last_ok (sh_status h))) h) c).

(** Drop the connection. *)
Definition drop_stream (c : Cell) : Cell :=
  set_rt (fun r => set_connection None (rt_tid r) (rt_last_inputs r) r) c.

(** [read_inputs] over the connection of the module. *)
Definition read_pass (c : Cell) : Cell * res Fail unit :=
  match rt_stream (cl_rt c) with
  | None => (c, match rt_read_groups (cl_rt c) with [] => Ok tt | _ => Err OtherFail end)
  | Some st =>
      let rt := cl_rt c in
      let '((se, last), r) :=
        read_inputs (rt_unit rt) (rt_points rt) (rt_read_groups rt) (mkSession st (rt_tid rt), rt_last_inputs rt) in
      (set_rt (set_connection (match r with Ok _ => Some (se_stream se) | _ => None end) (se_tid se) last) c, r)
  end.

Definition is_bad_now (c : Cell) : bool := Qual.is_bad (ms_quality (sh_status (cl_share c))).

Definition write_pass (c : Cell) : Cell * res Fail unit :=
  let mail := sh_mailbox (cl_share c) in
  let on_bad := sh_on_bad (cl_share c) in
  let rt := cl_rt c in
  if negb (ml_armed mail) then (c, Ok tt)
  else
    let bad := is_bad_now c in
    if bad && bool_decide (on_bad = HoldLast) then (c, Ok tt)
    else
      let force := ml_force_safe mail || (bad && bool_decide (on_bad = ForceSafe)) in
      match rt_stream rt with
      | None => (c, Err OtherFail)
      | Some st =>
          let '(se, r) := write_with rt mail force (mkSession st (rt_tid rt)) in
          (set_rt (set_connection (match r with Ok _ => Some (se_stream se) | _ => None end) (se_tid se)
                     (rt_last_inputs rt)) c, r)
      end.

(** The rest of a poll, over a connection. *)
Definition poll_connected (gate : Z) (rd : Readings) (c : Cell) : res Fail Cell :=
  match read_pass c with
  | (_, Panic) => Panic
  | (c, Err _) => mark_bad (drop_stream (count_fail c))
  | (c, Ok _) =>
      c ← mark_good (rd_ok_at rd) c;
      if bool_decide (Gate.mode gate = Sim) then Ok c
      else match write_pass c with
           | (_, Panic) => Panic
           | (c, Err _) => mark_bad (drop_stream (count_fail c))
           | (c, Ok _) => Ok c
           end
  end.

Definition poll (gate : Z) (rd : Readings) (c : Cell) : res Fail Cell :=
  c ← (if comms_stale (rd_stale_at rd) c then mark_bad c else Ok c);
  match rt_stream (cl_rt c), rd_connect rd with
  | Some _, _ => poll_connected gate rd c
  | None, Some st =>
      poll_connected gate rd (set_rt (fun r => set_connection (Some st) (rt_tid r) (rt_last_inputs r) r) c)
  | None, None => mark_bad (count_fail c)
  end.

(** One pass of [worker_loop] over the modules, the [i]-th and later ones; [soonest]
    starts one second ahead. *)
Fixpoint worker_pass (now gate : Z) (rds : nat -> Readings) (i : nat) (cells : list Cell) (soonest : Z) :
    res Fail (list Cell * Z) :=
  match cells with
  | [] => Ok ([], soonest)
  | c :: cells =>
      c ← (if rt_next_due (cl_rt c) <=? now
           then c ← poll gate (rds i) c;
                Ok (set_rt (fun r => set_next_due (rd_done_at (rds i) + rt_period r) r) c)
           else Ok c);
      r ← worker_pass now gate rds (Datatypes.S i) cells (Z.min (rt_next_due (cl_rt c)) soonest);
      Ok (c :: r.1, r.2)
  end.
End Worker.
Arguments Cell : clear implicits.
Arguments Readings : clear implicits.

(** ** Groups *)

(** [members] occupy the addresses from [start] to the result, one after the other. *)
Fixpoint run_end (points : list PlannedPoint) (start : Z) (members : list nat) : option Z :=
  match members with
  | [] => Some start
  | i :: members =>
      p ← points !! i;
      if pp_pdu p =? start then run_end points (pp_end p) members else None
  end.

Record group_ok (points : list PlannedPoint) (pred : PlannedPoint -> bool) (max_qty : Z) (g : Group) : Prop := {
  go_run : run_end points (gr_start g) (gr_members g) = Some (gr_start g + gr_qty g);
  go_some : gr_members g <> [];
  go_max : 1 <= gr_qty g <= max_qty;
  go_span : 0 <= gr_start g /\ gr_start g + gr_qty g <= 10000;
  go_pred : Forall (fun i => exists p, points !! i = Some p /\ pred p = true) (gr_members g) }.

Lemma run_end_snoc points start members i e p :
  run_end points start members = Some e -> points !! i = Some p -> pp_pdu p = e ->
  run_end points start (members ++ [i]) = Some (pp_end p).
Proof.
  revert start. induction members as [|j members IH]; intros start Hr Hi Hp; cbn in *.
  - injection Hr as ->. rewrite Hi. cbn. by rewrite Hp, Z.eqb_refl.
  - destruct (points !! j) as [q|]; [|done]. cbn in *. destruct (pp_pdu q =? start); [|done]. by apply IH.
Qed.

Lemma run_end_bounds points start members e :
  Forall point_ok points -> run_end points start members = Some e -> start <= e /\
  Forall (fun i => exists p, points !! i = Some p /\ start <= pp_pdu p /\ pp_end p <= e) members.
Proof.
  intros Hp. revert start. induction members as [|i members IH]; intros start Hr; cbn in Hr.
  - injection Hr as ->. split; [lia|constructor].
  - destruct (points !! i) as [p|] eqn:Hi; [|done]. cbn in Hr. destruct (Z.eqb_spec (pp_pdu p) start) as [He|]; [|done].
    destruct (IH _ Hr) as [Hle Hf]. pose proof (point_words p (Forall_lookup_1 _ _ _ _ Hp Hi)) as Hw.
    unfold pp_end in *. split; [lia|]. constructor; [exists p; split; [done|]; lia|].
    eapply Forall_impl; [exact Hf|]. intros j (q & Hq & H1 & H2). exists q. split; [done|]. lia.
Qed.

Section Groups.
Context (points : list PlannedPoint) (pred : PlannedPoint -> bool) (max_qty : Z).
Context (Hpoints : Forall point_ok points) (Hmax : 2 <= max_qty).

Definition all_members (gs : list Group) : list nat := flat_map gr_members gs.

Lemma group_loop_ok idxs cur acc :
  Forall (fun i => exists p, points !! i = Some p /\ pred p = true) idxs ->
  Forall (group_ok points pred max_qty) acc ->
  (forall g, cur = Some g -> group_ok points pred max_qty g) ->
  exists gs, group_loop points max_qty idxs cur acc = Ok gs /\ Forall (group_ok points pred max_qty) gs /\
    all_members gs = all_members acc ++ match cur with Some g => gr_members g | None => [] end ++ idxs.
Proof.
  intros Hi. revert cur acc. induction Hi as [|i idxs (p & Hp & Hpred) Hi IH]; intros cur acc Hacc Hcur; cbn [group_loop].
  - eexists. split; [done|]. split.
    + apply Forall_app. split; [done|]. destruct cur as [g|]; [|constructor]. constructor; [by apply Hcur|constructor].
    + unfold all_members. rewrite flat_map_app. f_equal. destruct cur; cbn; by rewrite ?app_nil_r.
  - unfold index. rewrite Hp. cbn [mbind res_bind].
    pose proof (Forall_lookup_1 _ _ _ _ Hpoints Hp) as Hok. pose proof (point_words _ Hok) as Hw.
    pose proof (po_pdu _ Hok) as Hpdu.
    match goal with |- context [if ?c then _ else _] => destruct c eqn:Hnew end.
    + destruct (IH (Some (mkGroup (pp_pdu p) (pp_words p) [i]))
                  (acc ++ match cur with Some g => [g] | None => [] end)) as (gs & Hgs & Hok' & Hm).
      * apply Forall_app. split; [done|]. destruct cur as [g|]; [|constructor]. constructor; [by apply Hcur|constructor].
      * intros g [= <-]. split; cbn [gr_start gr_qty gr_members]; [|done|lia|lia|].
        -- cbn. rewrite Hp. cbn. by rewrite Z.eqb_refl.
        -- constructor; [by exists p|constructor].
      * exists gs. split; [done|]. split; [done|]. rewrite Hm. unfold all_members. rewrite flat_map_app, <-app_assoc.
        f_equal. destruct cur; cbn; by rewrite ?app_nil_r.
    + destruct cur as [g|]; [|done]. specialize (Hcur g eq_refl).
      destruct Hcur as [Hr Hs Hq Hb Hf]. destruct g as [st q ms]. cbn [gr_start gr_qty gr_members] in *.
      assert (He : sat_add16 st q = st + q) by (unfold sat_add16, sat_add_u; lia).
      assert (He' : sat_add16 (pp_pdu p) (pp_words p) = pp_end p) by (unfold sat_add16, sat_add_u, pp_end; lia).
      rewrite He, He' in Hnew. rewrite He'. apply negb_false_iff in Hnew. rewrite !andb_true_iff in Hnew.
      destruct Hnew as [[Heq%Z.eqb_eq Hspan%Z.leb_le] _].
      assert (Hsp : sat_sub_u (pp_end p) st = pp_end p - st) by (unfold sat_sub_u, pp_end; lia).
      destruct (IH (Some (mkGroup st (sat_sub_u (pp_end p) st) (ms ++ [i]))) acc) as (gs & Hgs & Hok' & Hm); [done| |].
      * intros g [= <-]. rewrite Hsp in *. split; cbn [gr_start gr_qty gr_members].
        -- rewrite (run_end_snoc _ _ _ _ _ _ Hr Hp Heq). f_equal. lia.
        -- by destruct ms.
        -- unfold pp_end in *. lia.
        -- unfold pp_end in *. lia.
        -- apply Forall_app. split; [done|]. constructor; [by exists p|constructor].
      * exists gs. split; [exact Hgs|]. split; [done|]. rewrite Hm. cbn [gr_members]. by rewrite <-app_assoc.
Qed.

Lemma select_spec i : i ∈ select points pred <-> exists p, points !! i = Some p /\ pred p = true.
Proof.
  unfold select. rewrite list_elem_of_In, List.filter_In, List.in_seq. split.
  - intros [_ H]. destruct (points !! i) as [p|] eqn:E; [|done]. by exists p.
  - intros (p & Hp & Hpred). rewrite Hp. split; [|done]. apply lookup_lt_Some in Hp. lia.
Qed.

(** The groups of a request kind: each a run of adjoining points within the quantity
    limit, together the selected points. *)
Lemma build_groups_ok :
  exists gs, build_groups points pred max_qty = Ok gs /\ Forall (group_ok points pred max_qty) gs /\
    all_members gs ≡ₚ select points pred.
Proof.
  unfold build_groups. destruct (group_loop_ok (sort_by (pdu_gt points) (select points pred)) None []) as (gs & Hg & Hok & Hm);
    [| |done|].
  - rewrite sort_by_perm. apply Forall_forall. intros i. by apply select_spec.
  - constructor.
  - exists gs. split; [done|]. split; [done|]. rewrite Hm. cbn. apply sort_by_perm.
Qed.
End Groups.
