(* ===== verification/ModbusBridge.v ===== *)
(** * Modbus: a poll never panics, and the driver the scan sees

    Crate [plc-io-modbus], src/crates/plc-io-modbus/src/driver.rs: the invariant of a
    module with the worker, kept by every poll over any connection; [ModbusBridge],
    the scan-facing driver, as an instance of [IoDriver] with its laws. *)
From S2P Require Import Prelude Text Float32 Float64 PlcTypes IoImage IoMap IoBuffer.
From S2P Require Import ModbusPlan ModbusConvert ModbusCodec ModbusDriver.

(** ** The invariant *)

Definition is_input (p : PlannedPoint) : bool := bool_decide (pp_direction p = DirInput).

Record rt_ok {S} (rt : ModRt S) : Prop := {
  ro_points : points_ok (rt_points rt);
  ro_reads : Forall (fun g => exists t, group_ok (rt_points rt) (is_input_of t) (read_max t) g) (rt_read_groups rt);
  ro_read_all : all_members (rt_read_groups rt) ≡ₚ select (rt_points rt) is_input;
  ro_coils : Forall (group_ok (rt_points rt) is_coil_out 1968) (rt_coil_groups rt);
  ro_coil_all : all_members (rt_coil_groups rt) ≡ₚ select (rt_points rt) is_coil_out;
  ro_regs : Forall (group_ok (rt_points rt) is_reg_out 123) (rt_reg_groups rt);
  ro_reg_all : all_members (rt_reg_groups rt) ≡ₚ select (rt_points rt) is_reg_out;
  ro_bits : rt_bit_outs rt = select (rt_points rt) is_bit_out;
  ro_last : length (rt_last_inputs rt) = length (omap pp_input_pos (rt_points rt));
  ro_tid : u_range 16 (rt_tid rt) }.

(** Values of their types, slot tables and snapshot of one length. *)
Record share_ok (h : ModuleShare) : Prop := {
  so_values : Forall plc_ok (sn_values (sh_inputs h));
  so_inputs : length (sn_values (sh_inputs h)) = length (sh_input_slots h);
  so_quality : length (sn_quality (sh_inputs h)) = length (sh_input_slots h) }.

Record cell_ok {S} (c : Cell S) : Prop := {
  co_rt : rt_ok (cl_rt c);
  co_share : share_ok (cl_share c);
  co_last : Forall plc_ok (rt_last_inputs (cl_rt c));
  co_size : length (rt_last_inputs (cl_rt c)) = length (sh_input_slots (cl_share c)) }.

Lemma sat_f32_range x : u_range 32 (sat_f32 x).
Proof.
  unfold sat_f32. destruct (negb _); [unfold u_range, f32_zero; lia|].
  do 2 (case_match; [unfold u_range, f32_max, f32_min; lia|]). unfold f32_of_f64.
  pose proof sign_bit_range as Hs. destruct (f64_decode x) as [s|s| |s p e].
  - specialize (Hs s). unfold u_range. lia.
  - specialize (Hs s). unfold u_range. lia.
  - unfold u_range, quiet_nan. lia.
  - destruct (f32_encode _) eqn:E; cbn; [by apply f32_encode_range in E|unfold u_range; lia].
Qed.

Lemma finish_ok eng ty : plc_ok (finish eng ty).
Proof.
  destruct ty; cbn; try done; unfold s_range.
  - pose proof (sat_int_bound (-2 ^ 15) (2 ^ 15 - 1) eng ltac:(lia)). unfold sat_i16. lia.
  - pose proof (sat_int_bound (-2 ^ 31) (2 ^ 31 - 1) eng ltac:(lia)). unfold sat_i32. lia.
  - apply sat_f32_range.
  - pose proof (sat_int_bound (-2 ^ 31) (2 ^ 31 - 1) eng ltac:(lia)). unfold sat_i32. lia.
Qed.

Lemma default_of_ok ty : plc_ok (Plc.default_of ty).
Proof. destruct ty; cbn; unfold s_range, u_range; try done; lia. Qed.

(** ** Set-up *)

Lemma is_input_of_table t p : is_input_of t p = true -> pp_direction p = DirInput /\ pp_table p = t.
Proof. unfold is_input_of. intros [H1%bool_decide_eq_true H2%bool_decide_eq_true]%andb_true_iff. done. Qed.

Lemma read_groups_of_ok points tables :
  Forall point_ok points ->
  exists gs, read_groups_of points tables = Ok gs /\
    Forall (fun g => exists t, group_ok points (is_input_of t) (read_max t) g) gs /\
    all_members gs ≡ₚ flat_map (fun t => select points (is_input_of t)) tables.
Proof.
  intros Hp. induction tables as [|t tables (gs2 & Hg2 & Ho2 & Hm2)]; cbn; [by exists []|].
  destruct (build_groups_ok points (is_input_of t) (read_max t) Hp) as (gs1 & Hg1 & Ho1 & Hm1).
  { unfold read_max. destruct (is_bit_table t); lia. }
  rewrite Hg1, Hg2. cbn. eexists. split; [done|]. split.
  - apply Forall_app. split; [|done]. eapply Forall_impl; [exact Ho1|]. intros g. by exists t.
  - unfold all_members in *. rewrite flat_map_app. by rewrite Hm1, Hm2.
Qed.

Lemma NoDup_select points pred : NoDup (select points pred).
Proof. unfold select. apply NoDup_ListNoDup, List.NoDup_filter, List.seq_NoDup. Qed.

Lemma read_groups_ok points :
  Forall point_ok points ->
  exists gs, read_groups points = Ok gs /\
    Forall (fun g => exists t, group_ok points (is_input_of t) (read_max t) g) gs /\
    all_members gs ≡ₚ select points is_input.
Proof.
  intros Hp. destruct (read_groups_of_ok points [Coil; Discrete; Holding; InputRegister] Hp) as (gs & Hg & Ho & Hm).
  exists gs. split; [done|]. split; [done|]. rewrite Hm. cbn. rewrite app_nil_r. apply NoDup_Permutation.
  - assert (Hd : forall t u i, t <> u -> i ∈ select points (is_input_of t) -> i ∉ select points (is_input_of u)).
    { intros t u i Hne (p & Hi & Ht)%select_spec (q & Hj & Hu)%select_spec. simplify_eq.
      apply is_input_of_table in Ht as [_ Ht]. apply is_input_of_table in Hu as [_ Hu]. congruence. }
    repeat (apply NoDup_app; split; [apply NoDup_select|split]); try apply NoDup_select;
      intros i Hi Hj; repeat (apply elem_of_app in Hj as [Hj|Hj]);
      (eapply Hd; [|exact Hi|exact Hj]; done).
  - apply NoDup_select.
  - intros i. rewrite !elem_of_app, !select_spec. unfold is_input, is_input_of. split.
    + intros H. decompose [or ex and] H; eexists; (split; [done|]); by rewrite andb_true_iff in *; intuition.
    + intros (p & Hi & Hdir). destruct (pp_table p) eqn:Ht; [right;right;left|do 3 right|left|right;left];
        exists p; (split; [done|]); by rewrite Hdir, bool_decide_eq_true_2.
Qed.

Lemma set_at_Ok {A} (l : list A) pos x : (pos < length l)%nat -> set_at l pos x = Ok (<[pos := x]> l).
Proof. intros H. unfold set_at. by rewrite (proj2 (Nat.ltb_lt _ _) H). Qed.

Lemma fill_positions_Ok ps ins outs defs :
  (forall p pos, p ∈ ps -> pp_input_pos p = Some pos -> (pos < length ins)%nat) ->
  (forall p pos, p ∈ ps -> pp_output_pos p = Some pos -> (pos < length outs)%nat) ->
  length defs = length ins -> Forall plc_ok defs ->
  exists ins' outs' defs', fill_positions ps ins outs defs = Ok (ins', outs', defs') /\
    length ins' = length ins /\ length outs' = length outs /\ length defs' = length ins /\ Forall plc_ok defs'.
Proof.
  revert ins outs defs. induction ps as [|p ps IH]; intros ins outs defs Hin Hout Hl Hok; cbn.
  { by exists ins, outs, defs. }
  assert (H1 : exists ins1 defs1, match pp_input_pos p with
      | Some pos => slots ← set_at ins pos (pp_slot p);
          defs ← set_at defs pos (Plc.default_of (pp_value_type p)); Ok (slots, defs)
      | None => Ok (ins, defs) end = (Ok (ins1, defs1) : res IoError _) /\
      length ins1 = length ins /\ length defs1 = length ins /\ Forall plc_ok defs1).
  { destruct (pp_input_pos p) as [pos|] eqn:Hp; [|by exists ins, defs].
    specialize (Hin p pos ltac:(by left) Hp). rewrite !set_at_Ok by lia. cbn.
    do 2 eexists. split; [done|]. rewrite !length_insert. do 2 (split; [done|]). apply Forall_insert; [done|apply default_of_ok]. }
  destruct H1 as (ins1 & defs1 & -> & L1 & L2 & Hd). cbn [mbind res_bind fst snd].
  assert (H2 : exists outs1, match pp_output_pos p with Some pos => set_at outs pos (pp_slot p) | None => Ok outs end
      = (Ok outs1 : res IoError _) /\ length outs1 = length outs).
  { destruct (pp_output_pos p) as [pos|] eqn:Hp; [|by exists outs].
    specialize (Hout p pos ltac:(by left) Hp). rewrite set_at_Ok by lia. eexists. split; [done|]. by rewrite length_insert. }
  destruct H2 as (outs1 & -> & L3). cbn [mbind res_bind].
  destruct (IH ins1 outs1 defs1) as (i & o & d & Hf & A1 & A2 & A3 & A4);
    [intros q pos Hq; rewrite L1; apply Hin; by right|intros q pos Hq; rewrite L3; apply Hout; by right|congruence|done|].
  exists i, o, d. split; [done|]. split; [congruence|]. split; [congruence|]. by split; [congruence|].
Qed.

(** A validated module is set up, and its invariant holds. *)
Lemma split_module_ok {S} now pm fails :
  points_ok (pm_points pm) ->
  exists share rt, split_module now pm = Ok (share, rt) /\ cell_ok (mkCell share (rt : ModRt S) fails) /\
    rt_points rt = pm_points pm /\ rt_unit rt = pm_unit pm.
Proof.
  intros Hps. pose proof Hps as [Hok _ [ni Hi] [no Ho]]. unfold split_module.
  rewrite Hi, Ho, !length_seq.
  assert (Hpos : forall (f : PlannedPoint -> option nat) n p pos, omap f (pm_points pm) = seq 0 n ->
    p ∈ pm_points pm -> f p = Some pos -> (pos < n)%nat).
  { intros f n p pos Hs Hp Hf. assert (Hin : pos ∈ omap f (pm_points pm)) by (apply list_elem_of_omap; eauto).
    rewrite Hs in Hin. apply elem_of_seq in Hin. lia. }
  destruct (fill_positions_Ok (pm_points pm) (replicate ni 0%nat) (replicate no 0%nat) (replicate ni (PBool false)))
    as (ins & outs & defs & -> & L1 & L2 & L3 & Hd).
  - intros p pos Hp Hf. rewrite length_replicate. by eapply Hpos.
  - intros p pos Hp Hf. rewrite length_replicate. by eapply Hpos.
  - by rewrite !length_replicate.
  - by apply Forall_replicate.
  - cbn [mbind res_bind]. destruct (read_groups_ok _ Hok) as (reads & -> & R1 & R2). cbn [mbind res_bind].
    destruct (build_groups_ok (pm_points pm) is_coil_out 1968 Hok ltac:(lia)) as (coils & -> & C1 & C2). cbn [mbind res_bind].
    destruct (build_groups_ok (pm_points pm) is_reg_out 123 Hok ltac:(lia)) as (regs & -> & G1 & G2). cbn [mbind res_bind].
    rewrite length_replicate in L1, L3. do 2 eexists. split; [done|]. split; [|done]. split; cbn.
    + split; cbn; try done. rewrite Hi, length_seq. congruence.
    + split; cbn; [done|congruence|by rewrite length_replicate].
    + done.
    + congruence.
Qed.

(** ** Polls *)

Section Polls.
Context {S : Type} `{!Stream S} `{!StreamLaws S}.

(** A pass keeps the inputs read so far well-typed. *)
Definition pass_ok (n : nat) (st : Pass S) : Prop :=
  tid_ok st.1 /\ length st.2 = n /\ Forall plc_ok st.2.

Lemma on_session_safe n {A} (m : M (Session S) Fail A) (Q : A -> Prop) :
  safe tid_ok m Q -> safe (pass_ok n) (on_session m) Q.
Proof.
  intros Hm [se last] (Ht & Hl & Hv). destruct (Hm se Ht) as [H1 H2]. unfold on_session. cbn.
  destruct (m se) as [se' r]. done.
Qed.

Lemma point_value_ok g data p v : point_value g data p = Ok v -> plc_ok v.
Proof.
  unfold point_value. destruct data as [bs|rs].
  - intros Hv%Ok_inj. subst v. apply finish_ok.
  - destruct (_ <? _)%nat; [done|]. intros Hv%Ok_inj. subst v. apply finish_ok.
Qed.

Lemma point_value_no_panic g data p : point_value g data p <> Panic.
Proof. unfold point_value. destruct data; [done|]. by destruct (_ <? _)%nat. Qed.

Lemma store_group_safe n points g data :
  Forall (fun i => exists p, points !! i = Some p) (gr_members g) ->
  safe (pass_ok n) (store_group (S := S) points g data) (fun _ => True).
Proof.
  intros Hm. unfold store_group. apply nopanic_each. intros i Hi. rewrite Forall_forall in Hm.
  destruct (Hm i Hi) as [p Hp]. unfold index. rewrite Hp.
  eapply (nopanic_bind _ (fun _ => True)); [by apply nopanic_lift|]. intros q _.
  eapply nopanic_bind; [apply nopanic_lift; [intros v Hv; exact (point_value_ok _ _ _ _ Hv)|apply point_value_no_panic]|].
  intros v Hv. apply nopanic_modify. intros [se last] (Ht & Hl & Hvs). unfold pass_ok. cbn.
  destruct (pp_input_pos q); [|done]. rewrite length_insert. split; [done|]. split; [done|]. by apply Forall_insert.
Qed.

Lemma group_points points pred m g :
  group_ok points pred m g -> Forall (fun i => exists p, points !! i = Some p) (gr_members g).
Proof. intros Hg. eapply Forall_impl; [apply (go_pred _ _ _ _ Hg)|]. intros i (p & Hp & _). by exists p. Qed.

Lemma read_inputs_safe n (rt : ModRt S) :
  rt_ok rt -> safe (pass_ok n) (read_inputs (rt_unit rt) (rt_points rt) (rt_read_groups rt)) (fun _ => True).
Proof.
  intros Hrt. unfold read_inputs. apply nopanic_each. intros g Hg.
  pose proof (ro_reads _ Hrt) as Hgs. rewrite Forall_forall in Hgs. destruct (Hgs g Hg) as [t Hok].
  pose proof (group_points _ _ _ _ Hok) as Hm. unfold read_group.
  destruct (gr_members g) as [|i ms] eqn:Hms; [by destruct (go_some _ _ _ _ Hok)|].
  eapply (nopanic_bind _ (fun j => j = i)); [by apply nopanic_lift; [intros a [= <-]|]|]. intros j ->.
  pose proof Hm as Hm'. apply Forall_cons in Hm' as [[p Hp] _]. unfold index. rewrite Hp.
  eapply (nopanic_bind _ (fun _ => True)); [by apply nopanic_lift|]. intros q _.
  eapply (nopanic_bind _ (fun _ => True)).
  - destruct (is_bit_table (pp_table q)).
    + eapply nopanic_bind; [apply on_session_safe, read_bits_safe|]. intros. by apply nopanic_ret.
    + eapply nopanic_bind; [apply on_session_safe, read_regs_safe|]. intros. by apply nopanic_ret.
  - intros data _. apply store_group_safe. by rewrite Hms.
Qed.

Lemma coil_bits_Ok points mail force ms :
  Forall (fun i => exists p, points !! i = Some p) ms -> exists bits, coil_bits points mail force ms = Ok bits.
Proof.
  induction 1 as [|i ms (p & Hp) _ (bits & IH)]; cbn; [by exists []|]. unfold index. rewrite Hp. cbn.
  rewrite IH. cbn. eauto.
Qed.

Lemma group_regs_Ok points mail force g ms regs :
  Forall (fun i => exists p, points !! i = Some p) ms -> exists rs, group_regs points mail force g ms regs = Ok rs.
Proof.
  intros Hm. revert regs. induction Hm as [|i ms (p & Hp) _ IH]; intros regs; cbn; [by exists regs|].
  unfold index. rewrite Hp. cbn. apply IH.
Qed.

Lemma write_with_safe (rt : ModRt S) mail force :
  rt_ok rt -> safe tid_ok (write_with rt mail force) (fun _ => True).
Proof.
  intros Hrt. unfold write_with. eapply nopanic_bind; [|intros _ _; eapply nopanic_bind; [|intros _ _]]; apply nopanic_each.
  - intros g Hg. pose proof (ro_coils _ Hrt) as Hgs. rewrite Forall_forall in Hgs.
    pose proof (group_points _ _ _ _ (Hgs g Hg)) as Hm. unfold write_coil_group.
    destruct (coil_bits_Ok (rt_points rt) mail force _ Hm) as [bits ->].
    eapply (nopanic_bind _ (fun _ => True)); [by apply nopanic_lift|]. intros bs _.
    destruct bs as [|b [|b' bs]]; [apply write_coils_safe|apply write_safe|apply write_coils_safe].
  - intros g Hg. pose proof (ro_regs _ Hrt) as Hgs. rewrite Forall_forall in Hgs.
    pose proof (group_points _ _ _ _ (Hgs g Hg)) as Hm. unfold write_reg_group.
    destruct (group_regs_Ok (rt_points rt) mail force g _ (replicate (Z.to_nat (gr_qty g)) 0) Hm) as [regs ->].
    eapply (nopanic_bind _ (fun _ => True)); [by apply nopanic_lift|]. intros rs _.
    destruct rs as [|r [|r' rs]]; [by apply nopanic_ret|apply write_safe|apply write_safe].
  - intros i Hi. rewrite (ro_bits _ Hrt) in Hi. apply select_spec in Hi as (p & Hp & _).
    unfold write_bit_out, index. rewrite Hp.
    eapply (nopanic_bind _ (fun _ => True)); [by apply nopanic_lift|]. intros q _.
    eapply nopanic_bind; [apply read_regs_safe|]. intros rs _. apply write_safe.
Qed.

Lemma rt_ok_connection (rt : ModRt S) st tid last :
  rt_ok rt -> length last = length (rt_last_inputs rt) -> u_range 16 tid -> rt_ok (set_connection st tid last rt).
Proof. intros [H1 H2 H3 H4 H5 H6 H7 H8 H9 H10] Hl Ht. split; cbn; try done. congruence. Qed.

(** What [publish], [mark_good] and [mark_bad] leave: the buffer has as many slots as there
    are inputs, so its assertion does not fire. *)
Definition published (q : Quality) (c : Cell S) : Cell S :=
  let last := rt_last_inputs (cl_rt c) in
  match last with
  | [] => c
  | _ => set_share (fun h => set_inputs (mkSnapshot (wrap_u 64 (sn_seq (sh_inputs h) + 1)) last
                                            (replicate (length last) q)) h) c
  end.

Definition marked_good (at_ : Z) (c : Cell S) : Cell S :=
  published Good (set_share (set_status_to (mkModStatus Good (Some at_))) c).

Definition marked_bad (c : Cell S) : Cell S :=
  published Bad (set_share (fun h => set_status_to (mkModStatus Bad (ms_last_ok (sh_status h))) h) c).

Definition fits_buffer (c : Cell S) : Prop := length (rt_last_inputs (cl_rt c)) = length (sh_input_slots (cl_share c)).

Lemma publish_Ok q (c : Cell S) : fits_buffer c -> publish q c = Ok (published q c).
Proof.
  intros Hc. unfold publish, published. rewrite Hc, Nat.eqb_refl. by destruct (rt_last_inputs (cl_rt c)).
Qed.

Lemma mark_good_Ok at_ (c : Cell S) : fits_buffer c -> mark_good at_ c = Ok (marked_good at_ c).
Proof. intros Hc. by apply publish_Ok. Qed.

Lemma mark_bad_Ok (c : Cell S) : fits_buffer c -> mark_bad c = Ok (marked_bad c).
Proof. intros Hc. by apply publish_Ok. Qed.

Lemma publish_ok q (c : Cell S) : cell_ok c -> cell_ok (published q c).
Proof.
  intros Hc. unfold published. destruct (rt_last_inputs (cl_rt c)) as [|v vs] eqn:Hl; [done|].
  destruct Hc as [H1 [H2 H3 H4] H5 H6]. rewrite Hl in *. split; cbn; rewrite ?Hl; try done.
  split; cbn; try done. by rewrite length_replicate.
Qed.

Lemma set_status_ok st (c : Cell S) : cell_ok c -> cell_ok (set_share (set_status_to st) c).
Proof. intros [H1 [H2 H3 H4] H5 H6]. by split. Qed.

Lemma mark_bad_ok (c : Cell S) : cell_ok c -> mark_bad c = Ok (marked_bad c) /\ cell_ok (marked_bad c).
Proof.
  intros [H1 [H2 H3 H4] H5 H6]. split; [by apply mark_bad_Ok|]. apply publish_ok. by split.
Qed.

Lemma mark_good_ok at_ (c : Cell S) : cell_ok c -> mark_good at_ c = Ok (marked_good at_ c) /\ cell_ok (marked_good at_ c).
Proof.
  intros Hc. split; [by apply mark_good_Ok, co_size|]. by apply publish_ok, set_status_ok.
Qed.

Lemma count_fail_ok (c : Cell S) : cell_ok c -> cell_ok (count_fail c).
Proof. by intros [H1 H2 H3 H4]. Qed.

Lemma drop_stream_ok (c : Cell S) : cell_ok c -> cell_ok (drop_stream c).
Proof. intros [H1 H2 H3 H4]. split; try done. apply rt_ok_connection; [done..|apply (ro_tid _ H1)]. Qed.

Lemma set_connection_ok st (c : Cell S) :
  cell_ok c -> cell_ok (set_rt (fun r => set_connection (Some st) (rt_tid r) (rt_last_inputs r) r) c).
Proof. intros [H1 H2 H3 H4]. split; try done. apply rt_ok_connection; [done..|apply (ro_tid _ H1)]. Qed.

Lemma read_pass_ok (c : Cell S) :
  cell_ok c -> cell_ok (read_pass c).1 /\ (read_pass c).2 <> Panic.
Proof.
  intros Hc. unfold read_pass. destruct (rt_stream (cl_rt c)) as [st|].
  2: { split; [done|]. by destruct (rt_read_groups (cl_rt c)). }
  pose proof Hc as [H1 H2 H3 H4].
  destruct (read_inputs_safe (length (rt_last_inputs (cl_rt c))) _ H1 (mkSession st (rt_tid (cl_rt c)), rt_last_inputs (cl_rt c)))
    as [Hk Hp]; [split; [apply (ro_tid _ H1)|done]|].
  destruct (read_inputs _ _ _ _) as [[se last] r]. destruct Hk as (Ht & Hl & Hv). cbn [fst snd] in *. split.
  - split; cbn; [by apply rt_ok_connection|done|done|congruence].
  - by destruct r.
Qed.

Lemma write_pass_ok (c : Cell S) :
  cell_ok c -> cell_ok (write_pass c).1 /\ (write_pass c).2 <> Panic.
Proof.
  intros Hc. unfold write_pass. destruct (negb _); [done|]. destruct (_ && _); [done|].
  destruct (rt_stream (cl_rt c)) as [st|]; [|done]. pose proof Hc as [H1 H2 H3 H4].
  match goal with |- context [write_with ?rt ?m ?f ?s] =>
    destruct (write_with_safe rt m f H1 s (ro_tid _ H1)) as [Hk Hp]; destruct (write_with rt m f s) as [se r] end.
  cbn [fst snd] in *. split; [|by destruct r]. split; cbn; [by apply rt_ok_connection|done|done|done].
Qed.

Lemma poll_connected_ok gate rd (c : Cell S) :
  cell_ok c -> exists c', poll_connected gate rd c = Ok c' /\ cell_ok c'.
Proof.
  intros Hc. assert (Hfail : forall c', cell_ok c' -> exists c'', mark_bad (drop_stream (count_fail c')) =
    (Ok c'' : res Fail (Cell S)) /\ cell_ok c'').
  { intros c' H. eexists. by apply mark_bad_ok, drop_stream_ok, count_fail_ok. }
  unfold poll_connected. destruct (read_pass_ok _ Hc) as [Hr Hp].
  destruct (read_pass c) as [c1 [[]|e|]]; cbn [fst snd] in *; [|by apply Hfail|done].
  destruct (mark_good_ok (rd_ok_at rd) _ Hr) as [-> Hg]. cbn [mbind res_bind]. case_bool_decide; [eauto|].
  destruct (write_pass_ok _ Hg) as [Hw Hwp]. destruct (write_pass _) as [c2 [[]|e|]]; cbn [fst snd] in *;
    [eauto|by apply Hfail|done].
Qed.

(** A poll over any connection returns, keeps the invariant and never panics. *)
Lemma poll_ok gate rd (c : Cell S) : cell_ok c -> exists c', poll gate rd c = Ok c' /\ cell_ok c'.
Proof.
  intros Hc. unfold poll.
  assert (Hc1 : exists c1, (if comms_stale (rd_stale_at rd) c then mark_bad c else Ok c) = Ok c1 /\ cell_ok c1).
  { destruct (comms_stale _ _); [eexists; by apply mark_bad_ok|by exists c]. }
  destruct Hc1 as (c1 & -> & Hc1). cbn [mbind res_bind].
  destruct (rt_stream (cl_rt c1)) as [st|]; [by apply poll_connected_ok|]. destruct (rd_connect rd) as [st|].
  - apply poll_connected_ok. by apply set_connection_ok.
  - eexists. by apply mark_bad_ok, count_fail_ok.
Qed.

(** A pass of the worker over its modules polls the due ones and returns the time
    of the next that is due, at most [soonest]. *)
Lemma worker_pass_ok now gate rds i (cells : list (Cell S)) soonest :
  Forall cell_ok cells ->
  exists cells' soonest', worker_pass now gate rds i cells soonest = Ok (cells', soonest') /\
    Forall cell_ok cells' /\ length cells' = length cells /\
    soonest' <= soonest /\ Forall (fun c => soonest' <= rt_next_due (cl_rt c)) cells'.
Proof.
  intros Hc. revert i soonest. induction Hc as [|c cells Hc _ IH]; intros i soonest; cbn [worker_pass].
  { exists [], soonest. repeat split; [constructor|done..|constructor]. }
  assert (H1 : exists c1, (if rt_next_due (cl_rt c) <=? now
      then c ← poll gate (rds i) c; Ok (set_rt (fun r => set_next_due (rd_done_at (rds i) + rt_period r) r) c)
      else Ok c) = (Ok c1 : res Fail _) /\ cell_ok c1).
  { destruct (_ <=? now); [|by eauto]. destruct (poll_ok gate (rds i) c Hc) as (c1 & -> & [[] H2 H3 H4]). cbn.
    eexists. split; [done|]. by split; [split|..]. }
  destruct H1 as (c1 & -> & Hc1). cbn [mbind res_bind].
  destruct (IH (Datatypes.S i) (Z.min (rt_next_due (cl_rt c1)) soonest)) as (cs & s' & -> & Hcs & Hl & Hle & Hf).
  cbn. exists (c1 :: cs), s'. split; [done|]. split; [by constructor|]. split; [cbn; lia|]. split; [lia|].
  constructor; [lia|done].
Qed.

(** What happens to a module: the scan fills the mailbox, or the worker polls. *)
Inductive cell_step : Cell S -> Cell S -> Prop :=
  | step_mail m c : cell_step c (set_share (set_mailbox m) c)
  | step_poll gate rd c c' : poll gate rd c = Ok c' -> cell_step c c'.

Lemma cell_step_ok c c' : cell_ok c -> cell_step c c' -> cell_ok c'.
Proof.
  intros Hc Hs. destruct Hs as [m c|gate rd c c' Hp].
  - by destruct Hc as [H1 [H2 H3 H4] H5 H6].
  - destruct (poll_ok gate rd c Hc) as (c1 & H1 & H2). congruence.
Qed.

Lemma cell_steps_ok c c' : cell_ok c -> rtc cell_step c c' -> cell_ok c'.
Proof. intros Hc Hs. induction Hs as [|c c1 c2 Hs _ IH]; [done|]. apply IH. by eapply cell_step_ok. Qed.

(** C40: A Modbus module that validation accepts is set up, and from then on,
    whatever bytes its peer sends and whatever the scan commands, every poll
    returns: no read or write of it indexes out of bounds. *)
Theorem validated_module_runs config_of m resolved pms pm now :
  Forall (fun md => Forall bit_nonneg (m_bindings md)) (map_modules m) ->
  validate_map config_of m resolved = Ok pms -> pm ∈ pms ->
  exists share (rt : ModRt S), split_module now pm = Ok (share, rt) /\
    forall c, rtc cell_step (mkCell share rt 0) c -> forall gate rd, exists c', poll gate rd c = Ok c'.
Proof.
  intros Hb Hv Hin. apply validate_modules_ok in Hv; [|done]. rewrite Forall_forall in Hv.
  destruct (split_module_ok (S := S) now pm 0 (Hv pm Hin)) as (share & rt & Hs & Hc & _).
  exists share, rt. split; [done|]. intros c Hr gate rd.
  destruct (poll_ok gate rd c (cell_steps_ok _ _ Hc Hr)) as (c' & Hp & _). eauto.
Qed.
End Polls.

(** A peer that sends the same bytes whatever it is asked. *)
#[export] Instance script_stream : Stream (list Byte.byte) := {
  write_all b s := (s, true);
  read_exact n s :=
    if (n <=? length s)%nat then (drop n s, Some (map (fun b => Z.of_N (Byte.to_N b)) (take n s))) else (s, None) }.

#[export] Instance script_stream_laws : StreamLaws (list Byte.byte).
Proof.
  split. intros n s s' b Hr. cbn in Hr. destruct (Nat.leb_spec n (length s)); [|done]. injection Hr as _ <-.
  split; [by rewrite length_map, length_take_le|]. apply List.Forall_map. apply Forall_forall. intros x _.
  pose proof (Byte.to_N_bounded x). unfold byte_range. lia.
Qed.

Lemma validated_module_runs_witness :
  exists r pms pm share rt, resolve demo_modbus = Ok r /\ validate_map demo_modbus_config demo_modbus r = Ok pms /\
    split_module 0 pm = Ok (share, rt) /\
    forall rd, exists c', poll 0 rd (mkCell share (rt : ModRt (list Byte.byte)) 0) = Ok c'.
Proof.
  eassert (Hr : resolve demo_modbus = Ok _) by (vm_compute; reflexivity).
  match type of Hr with _ = Ok ?r =>
    eassert (Hv : validate_map demo_modbus_config demo_modbus r = Ok [_]) by (vm_compute; reflexivity) end.
  destruct (validated_module_runs (S := list Byte.byte) _ _ _ _ _ 0 demo_bits Hv ltac:(by left)) as (share & rt & Hs & Hp).
  do 5 eexists. split; [exact Hr|]. split; [exact Hv|]. split; [exact Hs|]. intros rd. apply Hp. apply rtc_refl.
Defined.

(** ** The driver of the scan

    [br_now] is the clock; the worker changes the shares between calls. *)
Record Bridge := mkBridge {
  br_shares : list ModuleShare;
  br_runtimes : bool;
  br_join : bool;
  br_running : bool;
  br_gate : Z;
  br_now : Z }.

Definition set_br_shares (x : list ModuleShare) (b : Bridge) : Bridge :=
  mkBridge x (br_runtimes b) (br_join b) (br_running b) (br_gate b) (br_now b).

Definition effective_quality (now : Z) (h : ModuleShare) : Quality :=
  let st := sh_status h in
  if Qual.is_bad (ms_quality st) then Bad
  else match ms_last_ok st with
       | Some t => if sh_stale h <? sat_sub_u now t then Bad else ms_quality st
       | None => Bad
       end.

Module Bridge.
Definition start (b : Bridge) : Bridge * res IoError unit :=
  if br_join b then (mkBridge (br_shares b) (br_runtimes b) true true (br_gate b) (br_now b), Ok tt)
  else if br_runtimes b then (mkBridge (br_shares b) false true true (br_gate b) (br_now b), Ok tt)
  else (b, Err NotReady).

Definition stop (b : Bridge) : Bridge :=
  mkBridge (br_shares b) (br_runtimes b) false false (br_gate b) (br_now b).

(** One input of a module: values and qualities of the update. *)
Definition overlay_input (snap : Snapshot) (module_q : Quality) (i slot : nat) (u : InputUpdate) : InputUpdate :=
  if (slot <? length (iu_values u))%nat && (slot <? length (iu_quality u))%nat then
    let values := match sn_values snap !! i with Some v => <[slot := v]> (iu_values u) | None => iu_values u end in
    let point_q := default Bad (sn_quality snap !! i) in
    mkUpdate values (<[slot := if Qual.is_bad module_q then Bad else point_q]> (iu_quality u)) (iu_seq u)
  else u.

Fixpoint overlay_slots (snap : Snapshot) (module_q : Quality) (i : nat) (slots : list nat) (u : InputUpdate) :
    InputUpdate :=
  match slots with
  | [] => u
  | slot :: slots => overlay_slots snap module_q (Datatypes.S i) slots (overlay_input snap module_q i slot u)
  end.

Definition overlay_inputs (b : Bridge) (u : InputUpdate) : InputUpdate :=
  fold_left (fun u h => overlay_slots (sh_inputs h) (effective_quality (br_now b) h) 0 (sh_input_slots h) u)
    (br_shares b) u.

Definition poll_inputs (b : Bridge) (u : InputUpdate) : Bridge * InputUpdate * res IoError unit :=
  if negb (br_running b) then (b, u, Err NotReady)
  else if bool_decide (Gate.mode (br_gate b) = Sim) then (b, u, Ok tt)
  else (b, overlay_inputs b u, Ok tt).

Definition mail_of (image : OutputImage) (h : ModuleShare) : Mail :=
  mkMail true (oi_force_safe image)
    (map (fun slot => default (PBool false) (oi_values image !! slot)) (sh_output_slots h)).

Definition apply_outputs (b : Bridge) (image : OutputImage) : Bridge * res IoError unit :=
  if negb (br_running b) then (b, Err NotReady)
  else (set_br_shares (map (fun h => set_mailbox (mail_of image h) h) (br_shares b)) b, Ok tt).

Fixpoint fill_slots_state (st : OutputModuleState) (slots : list nat) (into : list OutputModuleState) :
    list OutputModuleState :=
  match slots with
  | [] => into
  | slot :: slots => fill_slots_state st slots (<[slot := st]> into)
  end.

Definition fill_output_module_state (b : Bridge) (into : list OutputModuleState) : bool * list OutputModuleState :=
  (true, fold_left (fun into h =>
           fill_slots_state (mkModule (effective_quality (br_now b) h) (sh_on_bad h)) (sh_output_slots h) into)
           (br_shares b) into).
End Bridge.

#[export] Instance modbus_driver : IoDriver Bridge := {
  start := Bridge.start;
  poll_inputs := Bridge.poll_inputs;
  apply_outputs := Bridge.apply_outputs;
  fill_output_module_state := Bridge.fill_output_module_state }.

Lemma overlay_slots_ok snap q i slots u :
  Forall plc_ok (sn_values snap) -> Forall plc_ok (iu_values u) ->
  Forall plc_ok (iu_values (Bridge.overlay_slots snap q i slots u)).
Proof.
  intros Hs. revert i u. induction slots as [|slot slots IH]; intros i u Hu; cbn; [done|].
  apply IH. unfold Bridge.overlay_input. destruct (_ && _); [|done]. cbn.
  destruct (sn_values snap !! i) as [v|] eqn:Hv; [|done]. apply Forall_insert; [done|]. exact (Forall_lookup_1 _ _ _ _ Hs Hv).
Qed.

(** The bridge is a driver the theorems on the scan apply to. *)
#[export] Program Instance modbus_driver_laws : IoDriverLaws Bridge := {
  driver_ok b := Forall share_ok (br_shares b) }.
Next Obligation. intros b Hb. cbn. unfold Bridge.start. by repeat case_match. Qed.
Next Obligation.
  intros b u Hb Hu. cbn. unfold Bridge.poll_inputs. destruct (negb _); [done|]. case_bool_decide; [done|].
  split; [done|]. unfold Bridge.overlay_inputs. revert u Hu. induction Hb as [|h hs Hh Hhs IH]; intros u Hu; cbn; [done|].
  apply IH. apply overlay_slots_ok; [apply Hh|done].
Qed.
Next Obligation.
  intros b image Hb. cbn. unfold Bridge.apply_outputs. destruct (negb _); [done|]. cbn.
  apply List.Forall_map. eapply Forall_impl; [exact Hb|]. by intros h [H1 H2 H3].
Qed.
