(* ===== verification/ModbusDevice.v ===== *)
(** * Modbus: what reaches the plant

    A device that follows the Modbus application protocol, as a connection of the
    client of src/crates/plc-io-modbus/src/codec.rs. Against it, one poll of the
    worker (driver.rs) transfers the device's inputs to the snapshot the scan reads
    and the scan's outputs to the device's coils and registers. *)
From S2P Require Import Prelude Text Float32 Float64 PlcTypes IoImage IoMap IoBuffer.
From S2P Require Import ModbusPlan ModbusConvert ModbusCodec ModbusDriver ModbusBridge.

(** ** The device

    Tables by PDU address; [dv_out] holds the bytes sent and not yet read. *)
Record Device := mkDevice {
  dv_unit : Z;
  dv_coils : Z -> bool;
  dv_discrete : Z -> bool;
  dv_holding : Z -> Z;
  dv_inputs : Z -> Z;
  dv_out : bytes }.

Definition set_coils (f : Z -> bool) (d : Device) : Device :=
  mkDevice (dv_unit d) f (dv_discrete d) (dv_holding d) (dv_inputs d) (dv_out d).
Definition set_holding (f : Z -> Z) (d : Device) : Device :=
  mkDevice (dv_unit d) (dv_coils d) (dv_discrete d) f (dv_inputs d) (dv_out d).
Definition set_out (b : bytes) (d : Device) : Device :=
  mkDevice (dv_unit d) (dv_coils d) (dv_discrete d) (dv_holding d) (dv_inputs d) b.

(** The values of [f] at [n] addresses from [start]. *)
Definition table {A} (f : Z -> A) (start : Z) (n : nat) : list A :=
  map (fun i => f (start + Z.of_nat i)) (List.seq 0 n).

(** [f] with [vs] from [start] on. *)
Definition put_table {A} (f : Z -> A) (start : Z) (vs : list A) : Z -> A :=
  fun a => if decide (start <= a) then default (f a) (vs !! Z.to_nat (a - start)) else f a.

Definition bit_at (data : bytes) (j : nat) : bool :=
  match data !! (j / 8)%nat with Some b => Z.testbit b (Z.of_nat (j mod 8)) | None => false end.

Definition exception (fc code : Z) : bytes := [Z.lor fc 0x80; code].

Definition serve_bits (fc : Z) (f : Z -> bool) (start qty : Z) : bytes :=
  if (1 <=? qty) && (qty <=? 2000) then
    let bs := packed (table f start (Z.to_nat qty)) in [fc; len bs] ++ bs
  else exception fc 3.

Definition serve_regs (fc : Z) (f : Z -> Z) (start qty : Z) : bytes :=
  if (1 <=? qty) && (qty <=? 125) then
    let bs := flat_map be16 (table f start (Z.to_nat qty)) in [fc; len bs] ++ bs
  else exception fc 3.

(** The registers in the data of a request. *)
Fixpoint words_of (data : bytes) : list Z :=
  match data with hi :: lo :: data => from_be16 hi lo :: words_of data | _ => [] end.

Definition serve_pdu (d : Device) (pdu : bytes) : Device * bytes :=
  match pdu with
  | [fc; a1; a0; b1; b0] =>
      let a := from_be16 a1 a0 in
      let b := from_be16 b1 b0 in
      if fc =? 1 then (d, serve_bits 1 (dv_coils d) a b)
      else if fc =? 2 then (d, serve_bits 2 (dv_discrete d) a b)
      else if fc =? 3 then (d, serve_regs 3 (dv_holding d) a b)
      else if fc =? 4 then (d, serve_regs 4 (dv_inputs d) a b)
      else if fc =? 5 then
        if (b =? 0xFF00) || (b =? 0) then (set_coils (put_table (dv_coils d) a [b =? 0xFF00]) d, pdu)
        else (d, exception 5 3)
      else if fc =? 6 then (set_holding (put_table (dv_holding d) a [b]) d, pdu)
      else (d, exception fc 1)
  | fc :: a1 :: a0 :: b1 :: b0 :: n :: data =>
      let a := from_be16 a1 a0 in
      let b := from_be16 b1 b0 in
      if fc =? 15 then
        if (1 <=? b) && (b <=? 1968) && (n =? (b + 7) / 8) && (len data =? n) then
          (set_coils (put_table (dv_coils d) a (map (bit_at data) (List.seq 0 (Z.to_nat b)))) d, [15; a1; a0; b1; b0])
        else (d, exception 15 3)
      else if fc =? 16 then
        if (1 <=? b) && (b <=? 123) && (n =? b * 2) && (len data =? n) then
          (set_holding (put_table (dv_holding d) a (words_of data)) d, [16; a1; a0; b1; b0])
        else (d, exception 16 3)
      else (d, exception fc 1)
  | fc :: _ => (d, exception fc 1)
  | [] => (d, exception 0 1)
  end.

(** A request that is framed well and addressed to the device is answered. *)
Definition serve (adu : bytes) (d : Device) : Device :=
  match adu with
  | t1 :: t0 :: p1 :: p0 :: l1 :: l0 :: u :: pdu =>
      if (from_be16 p1 p0 =? 0) && (from_be16 l1 l0 =? 1 + len pdu) && (u =? dv_unit d) then
        let '(d, resp) := serve_pdu d pdu in
        set_out (dv_out d ++ [t1; t0; 0; 0] ++ be16 (1 + len resp) ++ [u] ++ resp) d
      else d
  | _ => d
  end.

#[export] Instance device_stream : Stream Device := {
  write_all b d := (serve b d, true);
  read_exact n d :=
    if (n <=? length (dv_out d))%nat then (set_out (drop n (dv_out d)) d, Some (take n (dv_out d)))
    else (d, None) }.

(** ** Words and bits on the wire *)

Lemma from_be16_be16 x : u_range 16 x -> from_be16 (Z.shiftr x 8) (Z.land x 255) = x.
Proof.
  unfold u_range, from_be16. intros Hx. change 255 with (2 ^ 8 - 1). rewrite land_mask, Z.shiftr_div_pow2 by lia.
  rewrite lor_shiftl_add by (unfold u_range; Z.to_euclidean_division_equations; lia).
  change (2 ^ 8) with 256. Z.to_euclidean_division_equations. lia.
Qed.

Lemma words_of_be16 rs : Forall (u_range 16) rs -> words_of (flat_map be16 rs) = rs.
Proof. induction 1 as [|r rs Hr _ IH]; [done|]. cbn. by rewrite from_be16_be16, IH. Qed.

Lemma length_flat_be16 rs : length (flat_map be16 rs) = (length rs * 2)%nat.
Proof. induction rs as [|r rs IH]; [done|]. cbn. lia. Qed.

Lemma regs_from_be16 pre rs :
  Forall (u_range 16) rs -> regs_from (pre ++ flat_map be16 rs) (length pre) (length rs) = Ok rs.
Proof.
  intros Hr. revert pre. induction Hr as [|r rs Hr _ IH]; intros pre; [done|].
  cbn [regs_from length flat_map]. unfold index.
  rewrite (lookup_app_r pre _ (length pre)), Nat.sub_diag by lia. cbn [be16 app lookup list_lookup mbind res_bind].
  rewrite lookup_app_r by lia. replace (length pre + 1 - length pre)%nat with 1%nat by lia.
  cbn [lookup list_lookup mbind res_bind]. rewrite from_be16_be16 by done.
  specialize (IH (pre ++ be16 r)). rewrite length_app in IH. cbn [be16 length] in IH.
  rewrite <-app_assoc in IH. cbn [app be16] in IH |- *. by rewrite IH.
Qed.

Lemma length_bits_set i bits data : length (bits_set i bits data) = length data.
Proof. revert i data. induction bits as [|b bits IH]; intros i data; cbn; [done|]. rewrite IH. destruct b; [by rewrite length_alter|done]. Qed.

Lemma length_packed bits : length (packed bits) = div_ceil8 (length bits).
Proof. unfold packed. by rewrite length_bits_set, length_replicate. Qed.

Lemma bit_at_set data i j :
  (i < 8 * length data)%nat ->
  bit_at (alter (fun b => Z.lor b (Z.shiftl 1 (Z.of_nat (i mod 8)))) (i / 8)%nat data) j =
  bit_at data j || (j =? i)%nat.
Proof.
  intros Hi. unfold bit_at. pose proof (Nat.mod_upper_bound j 8 ltac:(lia)) as Hj8.
  pose proof (Nat.div_mod_eq i 8) as Ei. pose proof (Nat.div_mod_eq j 8) as Ej.
  destruct (decide (i / 8 = j / 8)%nat) as [Heq|Hne].
  - rewrite Heq, list_lookup_alter_eq. destruct (lookup_lt_is_Some_2 data (j / 8)) as [b Hb].
    { rewrite <-Heq. apply Nat.Div0.div_lt_upper_bound. lia. }
    rewrite Hb. cbn [fmap option_fmap option_map]. rewrite Z.lor_spec, Z.shiftl_1_l, Z.pow2_bits_eqb by lia. f_equal.
    destruct (Nat.eqb_spec j i) as [->|Hji]; [by rewrite Z.eqb_refl|]. apply Z.eqb_neq.
    intros E%Nat2Z.inj. apply Hji. etrans; [exact Ej|]. etrans; [|symmetry; exact Ei].
    by rewrite <-Heq, <-E.
  - rewrite list_lookup_alter_ne by done. destruct (Nat.eqb_spec j i) as [->|]; [done|]. by rewrite orb_false_r.
Qed.

Lemma bit_at_bits_set bits i data j :
  (i + length bits <= 8 * length data)%nat ->
  bit_at (bits_set i bits data) j = bit_at data j || ((i <=? j)%nat && default false (bits !! (j - i)%nat)).
Proof.
  revert i data. induction bits as [|b bits IH]; intros i data Hl; cbn [bits_set length] in *.
  - rewrite lookup_nil. cbn. by rewrite andb_false_r, orb_false_r.
  - rewrite IH by (destruct b; rewrite ?length_alter; lia).
    assert (Hb : bit_at (if b then alter (fun b => Z.lor b (Z.shiftl 1 (Z.of_nat (i mod 8)))) (i / 8)%nat data else data) j
      = bit_at data j || ((j =? i)%nat && b)).
    { destruct b; [rewrite bit_at_set by lia; by rewrite andb_true_r|by rewrite andb_false_r, orb_false_r]. }
    rewrite Hb, <-orb_assoc. f_equal. destruct (Nat.eqb_spec j i) as [->|Hne].
    + rewrite Nat.sub_diag, Nat.leb_refl, (proj2 (Nat.leb_gt (Datatypes.S i) i)) by lia. cbn. by rewrite orb_false_r.
    + cbn [andb orb]. destruct (Nat.leb_spec (Datatypes.S i) j) as [Hle|Hgt].
      * rewrite (proj2 (Nat.leb_le i j)) by lia. replace (j - i)%nat with (Datatypes.S (j - Datatypes.S i)) by lia. done.
      * rewrite (proj2 (Nat.leb_gt i j)) by lia. done.
Qed.

Lemma bit_at_zeros n j : bit_at (replicate n 0) j = false.
Proof.
  unfold bit_at. destruct (replicate n 0 !! (j / 8)%nat) as [b|] eqn:Hb; [|done].
  apply lookup_replicate in Hb as [-> _]. apply Z.testbit_0_l.
Qed.

(** A packed bit is found where it was put. *)
Lemma bit_at_pack bits j : bit_at (packed bits) j = default false (bits !! j).
Proof.
  unfold packed. rewrite bit_at_bits_set, bit_at_zeros.
  - cbn. by rewrite Nat.sub_0_r.
  - rewrite length_replicate. pose proof (div_ceil8_spec (length bits)). lia.
Qed.

Lemma unpack_bits bits : map (bit_at (packed bits)) (List.seq 0 (length bits)) = bits.
Proof.
  apply list_eq. intros i. change (map (bit_at (packed bits))) with (fmap (M:=list) (bit_at (packed bits))).
  rewrite list_lookup_fmap. destruct (decide (i < length bits)%nat) as [Hi|Hi].
  - rewrite lookup_seq_lt by done. cbn. rewrite bit_at_pack.
    destruct (lookup_lt_is_Some_2 bits i Hi) as [b ->]. done.
  - rewrite lookup_seq_ge by lia. cbn. symmetry. apply lookup_ge_None. lia.
Qed.

(** ** Transactions with the device *)

(** A response on its way. *)
Definition adu (tid unit_id : Z) (pdu : bytes) : bytes :=
  be16 tid ++ [0; 0] ++ be16 (1 + len pdu) ++ [unit_id] ++ pdu.

Lemma u16_or_0_small n : Z.of_nat n < 2 ^ 16 -> u16_or_0 n = Z.of_nat n.
Proof. intros H. unfold u16_or_0. by rewrite (proj2 (Z.ltb_lt _ _) H). Qed.

Lemma send_device d tid t req d1 resp :
  u_range 16 tid -> (length req <= 253)%nat -> dv_out d = [] -> serve_pdu d req = (d1, resp) -> dv_out d1 = [] ->
  send (dv_unit d) tid req (mkSession d t) = (mkSession (set_out (adu tid (dv_unit d) resp) d1) t, Ok tt).
Proof.
  intros Ht Hl Ho Hs Ho1. unfold send, io_write. cbn [se_stream se_tid write_all device_stream].
  assert (E : serve (be16 tid ++ be16 0 ++ be16 (u16_or_0 (1 + length req)) ++ [dv_unit d] ++ req) d =
    set_out (adu tid (dv_unit d) resp) d1).
  { rewrite u16_or_0_small by lia. unfold serve. cbn [be16 app]. rewrite !from_be16_be16 by (unfold u_range; lia).
    rewrite Z.eqb_refl. replace (Z.of_nat (1 + length req) =? 1 + len req) with true by (symmetry; apply Z.eqb_eq; unfold len; lia).
    rewrite Z.eqb_refl. cbn [andb]. rewrite Hs, Ho1. unfold adu. cbn [be16 app]. done. }
  by rewrite E.
Qed.

Lemma recv_device tid unit_id t d pdu :
  u_range 16 tid -> (1 <= length pdu <= 253)%nat ->
  recv_tid unit_id tid (mkSession (set_out (adu tid unit_id pdu) d) t) = (mkSession (set_out [] d) t, Ok pdu).
Proof.
  intros Ht Hl. unfold recv_tid, mbind, M_bind, io_read.
  cbn [se_stream se_tid read_exact device_stream dv_out set_out adu be16 app length Nat.leb take drop].
  unfold m_lift. cbn [ok_or index lookup list_lookup].
  rewrite !from_be16_be16 by (unfold u_range, len; lia).
  replace (from_be16 0 0) with 0 by reflexivity. cbn [Z.eqb negb].
  replace ((2 <=? 1 + len pdu) && (1 + len pdu <=? 254)) with true by (unfold len; lia). cbn [negb].
  replace (Z.to_nat (1 + len pdu)) with (Datatypes.S (length pdu)) by (unfold len; lia).
  cbn [se_stream se_tid dv_out set_out Nat.leb length]. rewrite Nat.leb_refl.
  cbn [take drop]. rewrite firstn_all, drop_all. cbn [ok_or].
  rewrite (from_be16_be16 tid), Z.eqb_refl by done. cbn [negb].
  cbn [index lookup list_lookup]. rewrite Z.eqb_refl. reflexivity.
Qed.

(** The device without bytes on the way. *)
Definition idle_device (d : Device) : Prop := dv_out d = [].

Lemma set_out_idle d : idle_device d -> set_out [] d = d.
Proof. unfold idle_device, set_out. destruct d. cbn. by intros ->. Qed.

Lemma transact_device d tid req fc d1 resp :
  idle_device d -> u_range 16 tid -> (length req <= 253)%nat -> serve_pdu d req = (d1, fc :: resp) ->
  idle_device d1 -> (length resp <= 252)%nat -> head req = Some fc -> 0 <= fc < 128 ->
  transact (dv_unit d) req (mkSession d tid) = (mkSession d1 (wrap_u 16 (tid + 1)), Ok (fc :: resp)).
Proof.
  intros Hd Ht Hl Hs Hd1 Hl1 Hf Hfc. unfold transact, mbind, M_bind. cbn [m_gets m_modify se_tid se_stream].
  rewrite (send_device d tid _ req d1 (fc :: resp)) by done. unfold recv_retry.
  rewrite recv_device by (done || (cbn; lia)). rewrite set_out_idle by done. rewrite Hf. cbn [head default].
  assert (Hne : (fc =? Z.lor fc 0x80) = false).
  { apply Z.eqb_neq. intros E. assert (Hb : Z.testbit fc 7 = true) by (rewrite E, Z.lor_spec; apply orb_true_r).
    rewrite Z.testbit_true in Hb by lia. change (2 ^ 7) with 128 in Hb. rewrite Z.div_small in Hb by lia. done. }
  change (id fc) with fc. rewrite Hne, Z.eqb_refl. reflexivity.
Qed.

Lemma length_table {A} (f : Z -> A) start n : length (table f start n) = n.
Proof. unfold table. by rewrite length_map, length_seq. Qed.

Lemma table_lookup {A} (f : Z -> A) start n i :
  (i < n)%nat -> table f start n !! i = Some (f (start + Z.of_nat i)).
Proof.
  intros Hi. unfold table. change (@map nat A) with (@fmap list _ nat A). rewrite list_lookup_fmap, lookup_seq_lt by done. done.
Qed.

Definition holding_ok (f : Z -> Z) : Prop := forall a, u_range 16 (f a).

Lemma table_range f start n : holding_ok f -> Forall (u_range 16) (table f start n).
Proof. intros Hf. unfold table. apply List.Forall_map. apply Forall_forall. intros i _. apply Hf. Qed.

Lemma read_regs_device d tid fc f start qty :
  idle_device d -> u_range 16 tid -> u_range 16 start -> 1 <= qty <= 125 -> holding_ok f ->
  (fc = 3 /\ f = dv_holding d \/ fc = 4 /\ f = dv_inputs d) ->
  read_regs (dv_unit d) fc start qty (mkSession d tid) =
  (mkSession d (wrap_u 16 (tid + 1)), Ok (table f start (Z.to_nat qty))).
Proof.
  intros Hd Ht Hst Hq Hf Hfc. unfold read_regs, mbind, M_bind.
  set (rs := table f start (Z.to_nat qty)).
  assert (Hlen : length rs = Z.to_nat qty) by apply length_table.
  assert (Hs : serve_pdu d (read_pdu fc start qty) = (d, fc :: len (flat_map be16 rs) :: flat_map be16 rs)).
  { unfold read_pdu. cbn [be16 app serve_pdu]. rewrite !from_be16_be16 by (done || (unfold u_range; lia)).
    unfold serve_regs. replace ((1 <=? qty) && (qty <=? 125)) with true by lia.
    destruct Hfc as [[-> ->]|[-> ->]]; reflexivity. }
  assert (Hlb : length (flat_map be16 rs) = (Z.to_nat qty * 2)%nat) by (rewrite length_flat_be16; lia).
  rewrite (transact_device d tid _ fc d (len (flat_map be16 rs) :: flat_map be16 rs)); try done;
    [|cbn; lia|cbn; lia|destruct Hfc as [[-> _]|[-> _]]; lia].
  cbn [lookup list_lookup length]. change (default 0 (Some (len (flat_map be16 rs)))) with (len (flat_map be16 rs)).
  unfold len. rewrite Nat2Z.id, Hlb, Nat.eqb_refl. cbn [negb orb].
  rewrite (proj2 (Nat.ltb_ge _ _)) by lia. unfold m_lift.
  pose proof (regs_from_be16 [fc; Z.of_nat (Z.to_nat qty * 2)] rs (table_range _ _ _ Hf)) as Hr.
  cbn [length app] in Hr. rewrite Hlen in Hr. by rewrite Hr.
Qed.

Lemma read_bits_device d tid fc f start qty :
  idle_device d -> u_range 16 tid -> u_range 16 start -> 1 <= qty <= 2000 ->
  (fc = 1 /\ f = dv_coils d \/ fc = 2 /\ f = dv_discrete d) ->
  read_bits (dv_unit d) fc start qty (mkSession d tid) =
  (mkSession d (wrap_u 16 (tid + 1)), Ok (packed (table f start (Z.to_nat qty)))).
Proof.
  intros Hd Ht Hst Hq Hfc. unfold read_bits, mbind, M_bind.
  set (bs := packed (table f start (Z.to_nat qty))).
  assert (Hlb : length bs = div_ceil8 (Z.to_nat qty)) by (unfold bs; by rewrite length_packed, length_table).
  pose proof (div_ceil8_spec (Z.to_nat qty)) as Hdiv.
  assert (Hs : serve_pdu d (read_pdu fc start qty) = (d, fc :: len bs :: bs)).
  { unfold read_pdu. cbn [be16 app serve_pdu]. rewrite !from_be16_be16 by (done || (unfold u_range; lia)).
    unfold serve_bits. replace ((1 <=? qty) && (qty <=? 2000)) with true by lia.
    destruct Hfc as [[-> ->]|[-> ->]]; reflexivity. }
  rewrite (transact_device d tid _ fc d (len bs :: bs)); try done;
    [|cbn; lia|cbn; lia|destruct Hfc as [[-> _]|[-> _]]; lia].
  cbn [lookup list_lookup length]. change (default 0 (Some (len bs))) with (len bs).
  unfold len. rewrite Nat2Z.id, Hlb.
  assert (Hq8 : Z.to_nat ((qty + 7) / 8) = div_ceil8 (Z.to_nat qty)).
  { unfold div_ceil8. rewrite <-(Z2Nat.id qty) at 1 by lia. change 7 with (Z.of_nat 7). change 8 with (Z.of_nat 8).
    rewrite <-Nat2Z.inj_add, <-Nat2Z.inj_div. apply Nat2Z.id. }
  rewrite Hq8, Nat.eqb_refl. cbn [negb orb]. rewrite (proj2 (Nat.ltb_ge _ _)) by lia. unfold m_lift, payload.
  cbn [length]. rewrite Hlb. replace (2 + div_ceil8 (Z.to_nat qty) <=? _)%nat with true by (symmetry; apply Nat.leb_le; lia).
  unfold slice. cbn [drop]. rewrite <-Hlb, firstn_all. done.
Qed.

(** A request the device serves, its response dropped. *)
Lemma write_device d tid req fc d1 resp :
  serve_pdu d req = (d1, fc :: resp) -> idle_device d -> idle_device d1 -> u_range 16 tid ->
  (length req <= 253)%nat -> (length resp <= 252)%nat -> head req = Some fc -> 0 <= fc < 128 ->
  (transact (dv_unit d) req ;; mret tt) (mkSession d tid) = (mkSession d1 (wrap_u 16 (tid + 1)), Ok tt).
Proof.
  intros Hs Hd Hd1 Ht Hl Hl1 Hf Hfc. unfold mbind, M_bind.
  by rewrite (transact_device d tid req fc d1 resp Hd Ht Hl Hs Hd1 Hl1 Hf Hfc).
Qed.

Lemma write_coil_device d tid a on :
  idle_device d -> u_range 16 tid -> u_range 16 a ->
  write_coil (dv_unit d) a on (mkSession d tid) =
  (mkSession (set_coils (put_table (dv_coils d) a [on]) d) (wrap_u 16 (tid + 1)), Ok tt).
Proof.
  intros Hd Ht Ha. unfold write_coil.
  assert (Hs : serve_pdu d ([5] ++ be16 a ++ be16 (if on then 0xFF00 else 0)) =
    (set_coils (put_table (dv_coils d) a [on]) d, 5 :: (be16 a ++ be16 (if on then 0xFF00 else 0)))).
  { cbn [be16 app serve_pdu]. rewrite !from_be16_be16 by (done || (destruct on; unfold u_range; lia)). by destruct on. }
  apply (write_device _ _ _ _ _ _ Hs); try done; cbn; rewrite ?Hlp; lia.
Qed.

Lemma write_reg_device d tid a v :
  idle_device d -> u_range 16 tid -> u_range 16 a -> u_range 16 v ->
  write_reg (dv_unit d) a v (mkSession d tid) =
  (mkSession (set_holding (put_table (dv_holding d) a [v]) d) (wrap_u 16 (tid + 1)), Ok tt).
Proof.
  intros Hd Ht Ha Hv. unfold write_reg.
  assert (Hs : serve_pdu d ([6] ++ be16 a ++ be16 v) =
    (set_holding (put_table (dv_holding d) a [v]) d, 6 :: (be16 a ++ be16 v))).
  { cbn [be16 app serve_pdu]. rewrite !from_be16_be16 by done. done. }
  apply (write_device _ _ _ _ _ _ Hs); try done; cbn; rewrite ?Hlp; lia.
Qed.

Lemma u8_or_255_small n : Z.of_nat n < 2 ^ 8 -> u8_or_255 n = Z.of_nat n.
Proof. intros H. unfold u8_or_255. by rewrite (proj2 (Z.ltb_lt _ _) H). Qed.

Lemma write_coils_device d tid a bits :
  idle_device d -> u_range 16 tid -> u_range 16 a -> (1 <= length bits <= 1968)%nat ->
  write_coils (dv_unit d) a bits (mkSession d tid) =
  (mkSession (set_coils (put_table (dv_coils d) a bits) d) (wrap_u 16 (tid + 1)), Ok tt).
Proof.
  intros Hd Ht Ha Hl. unfold write_coils. rewrite pack_bits_Ok. set (n := div_ceil8 (length bits)).
  pose proof (div_ceil8_spec (length bits)) as Hn. fold n in Hn.
  assert (Hlp : length (packed bits) = n) by by rewrite length_packed.
  assert (Hn8 : (Z.of_nat (length bits) + 7) / 8 = Z.of_nat n).
  { unfold n, div_ceil8. change 7 with (Z.of_nat 7). change 8 with (Z.of_nat 8).
    by rewrite <-Nat2Z.inj_add, <-Nat2Z.inj_div. }
  rewrite u16_or_0_small, u8_or_255_small by lia.
  assert (Hs : serve_pdu d ([15] ++ be16 a ++ be16 (Z.of_nat (length bits)) ++ [Z.of_nat n] ++ packed bits) =
    (set_coils (put_table (dv_coils d) a bits) d, 15 :: (be16 a ++ be16 (Z.of_nat (length bits))))).
  { cbn [be16 app serve_pdu]. rewrite !from_be16_be16 by (done || (unfold u_range; lia)). cbn [Z.eqb Pos.eqb].
    replace ((1 <=? Z.of_nat (length bits)) && (Z.of_nat (length bits) <=? 1968)) with true by lia.
    rewrite Hn8, Z.eqb_refl. unfold len. rewrite Hlp, Z.eqb_refl. cbn [andb]. by rewrite Nat2Z.id, unpack_bits. }
  apply (write_device _ _ _ _ _ _ Hs); try done; cbn; rewrite ?Hlp; lia.
Qed.

Lemma write_regs_device d tid a rs :
  idle_device d -> u_range 16 tid -> u_range 16 a -> (1 <= length rs <= 123)%nat -> Forall (u_range 16) rs ->
  write_regs (dv_unit d) a rs (mkSession d tid) =
  (mkSession (set_holding (put_table (dv_holding d) a rs) d) (wrap_u 16 (tid + 1)), Ok tt).
Proof.
  intros Hd Ht Ha Hl Hrs. unfold write_regs.
  assert (Hlp : length (flat_map be16 rs) = (length rs * 2)%nat) by apply length_flat_be16.
  rewrite u16_or_0_small, u8_or_255_small by lia.
  assert (Hs : serve_pdu d ([16] ++ be16 a ++ be16 (Z.of_nat (length rs)) ++ [Z.of_nat (length rs * 2)] ++ flat_map be16 rs) =
    (set_holding (put_table (dv_holding d) a rs) d, 16 :: (be16 a ++ be16 (Z.of_nat (length rs))))).
  { cbn [be16 app serve_pdu]. rewrite !from_be16_be16 by (done || (unfold u_range; lia)). cbn [Z.eqb Pos.eqb].
    replace ((1 <=? Z.of_nat (length rs)) && (Z.of_nat (length rs) <=? 123)) with true by lia.
    rewrite Nat2Z.inj_mul, Z.eqb_refl. unfold len. rewrite Hlp, Nat2Z.inj_mul, Z.eqb_refl. cbn [andb].
    by rewrite words_of_be16. }
  apply (write_device _ _ _ _ _ _ Hs); try done; cbn; rewrite ?Hlp; lia.
Qed.
