(* ===== verification/ModbusTransfer.v ===== *)
(** * Modbus: what a poll transfers

    Against a device that follows the protocol ([ModbusDevice]), one poll of the
    worker (src/crates/plc-io-modbus/src/driver.rs) publishes the values of all input
    points and writes the values of all output points to the addresses they are
    planned at, and nothing else. *)
From S2P Require Import Prelude Text Float32 Float64 PlcTypes IoImage IoMap IoBuffer.
From S2P Require Import ModbusPlan ModbusConvert ModbusCodec ModbusDriver ModbusBridge ModbusDevice.

(** ** Writing tables address by address *)

Section Owned.
Context {A : Type} (points : list PlannedPoint) (W : PlannedPoint -> list A).

(** The words of a point, by index. *)
Definition words_at (i : nat) : list A := match points !! i with Some p => W p | None => [] end.

(** [v] is what the points of [idxs] put at the address [a]. *)
Definition owned (idxs : list nat) (a : Z) (v : A) : Prop :=
  exists i p k, i ∈ idxs /\ points !! i = Some p /\ a = pp_pdu p + Z.of_nat k /\ W p !! k = Some v.

(** [f'] is [f] with the words of the points of [idxs]. *)
Definition wrote (idxs : list nat) (f f' : Z -> A) : Prop :=
  forall a, (exists v, owned idxs a v /\ f' a = v) \/ ((forall v, ~ owned idxs a v) /\ f' a = f a).

Lemma wrote_nil f : wrote [] f f.
Proof. intros a. right. split; [|done]. intros v (i & p & k & Hi & _). by apply elem_of_nil in Hi. Qed.

Lemma owned_app l l' a v : owned (l ++ l') a v <-> owned l a v \/ owned l' a v.
Proof. unfold owned. setoid_rewrite elem_of_app. naive_solver. Qed.

Lemma wrote_trans l l' f f1 f2 : wrote l f f1 -> wrote l' f1 f2 -> wrote (l ++ l') f f2.
Proof.
  intros H1 H2 a. setoid_rewrite owned_app. destruct (H2 a) as [(v & Hv & <-)|[Hn ->]]; [left; eauto|].
  destruct (H1 a) as [(v & Hv & Ha)|[Hn' ->]]; [left; eauto|]. right. split; [|done]. naive_solver.
Qed.

Lemma wrote_perm l l' f f' : l ≡ₚ l' -> wrote l f f' -> wrote l' f f'.
Proof.
  intros Hp Hw a. assert (Ho : forall v, owned l' a v <-> owned l a v) by (intros v; unfold owned; by setoid_rewrite Hp).
  setoid_rewrite Ho. apply Hw.
Qed.

Lemma put_table_spec (f : Z -> A) start vs a :
  (exists n, a = start + Z.of_nat n /\ vs !! n = Some (put_table f start vs a)) \/
  (~ (start <= a < start + len vs) /\ put_table f start vs a = f a).
Proof.
  unfold put_table. case_decide as Ha; [|right; split; [lia|done]].
  destruct (vs !! Z.to_nat (a - start)) as [v|] eqn:Hv.
  - left. exists (Z.to_nat (a - start)). split; [lia|done].
  - right. split; [|done]. apply lookup_ge_None in Hv. unfold len. lia.
Qed.

Context (Hpoints : Forall point_ok points).

Definition sized (idxs : list nat) : Prop :=
  Forall (fun i => exists p, points !! i = Some p /\ length (W p) = Z.to_nat (pp_words p)) idxs.

(** The words of a run, one after the other. *)
Lemma run_words start ms e :
  run_end points start ms = Some e -> sized ms ->
  len (flat_map words_at ms) = e - start /\
  forall n v, flat_map words_at ms !! n = Some v -> owned ms (start + Z.of_nat n) v.
Proof.
  revert start. induction ms as [|i ms IH]; intros start Hr Hs; cbn in Hr.
  - injection Hr as ->. split; [unfold len; cbn; lia|]. by intros n v.
  - apply Forall_cons in Hs as [(p & Hi & Hl) Hs]. rewrite Hi in Hr. cbn in Hr.
    destruct (Z.eqb_spec (pp_pdu p) start) as [He|]; [|done]. destruct (IH _ Hr Hs) as [Hlen Ho].
    pose proof (point_words p (Forall_lookup_1 _ _ _ _ Hpoints Hi)) as Hw.
    cbn [flat_map]. assert (Hwi : words_at i = W p) by (unfold words_at; by rewrite Hi). rewrite Hwi.
    split; [unfold len, pp_end in *; rewrite length_app; lia|]. intros n v Hv.
    apply lookup_app_Some in Hv as [Hv|[Hge Hv]].
    + exists i, p, n. split; [by left|]. split; [done|]. split; [lia|done].
    + apply Ho in Hv as (j & q & k & Hj & Hq & Ha & Hk). exists j, q, k. split; [by right|]. split; [done|].
      split; [|done]. rewrite <-Ha. unfold pp_end. lia.
Qed.

Lemma owned_within start ms e a v :
  run_end points start ms = Some e -> sized ms -> owned ms a v -> start <= a < e.
Proof.
  intros Hr Hs (i & p & k & Hi & Hp & -> & Hk). destruct (run_end_bounds _ _ _ _ Hpoints Hr) as [_ Hb].
  unfold sized in Hs. rewrite Forall_forall in Hb, Hs. destruct (Hb i Hi) as (q & Hq & H1 & H2). destruct (Hs i Hi) as (q' & Hq' & Hl).
  simplify_eq. apply lookup_lt_Some in Hk. unfold pp_end in H2. lia.
Qed.

(** A request that writes the words of a run. *)
Lemma wrote_run start ms e f :
  run_end points start ms = Some e -> sized ms -> wrote ms f (put_table f start (flat_map words_at ms)).
Proof.
  intros Hr Hs a. destruct (run_words _ _ _ Hr Hs) as [Hl Ho].
  destruct (put_table_spec f start (flat_map words_at ms) a) as [(n & -> & Hv)|[Hn ->]].
  - left. eauto.
  - right. split; [|done]. intros v Hv. apply (owned_within _ _ _ _ _ Hr Hs) in Hv. lia.
Qed.

Context (Hapart : ForallOrdPairs apart points).

Lemma apart_sym p q : apart p q -> apart q p.
Proof. unfold apart. intros H E. destruct (H (eq_sym E)); auto. Qed.

Lemma points_apart i j p q : i <> j -> points !! i = Some p -> points !! j = Some q -> apart p q.
Proof. intros. by eapply (pairs_lookup apart apart_sym). Qed.

(** At most one point owns an address of a table. *)
Lemma owned_fun idxs i p k a v v' :
  sized idxs -> (forall j q, j ∈ idxs -> points !! j = Some q -> pp_table q = pp_table p) ->
  owned idxs a v -> i ∈ idxs -> points !! i = Some p -> a = pp_pdu p + Z.of_nat k -> W p !! k = Some v' -> v = v'.
Proof.
  intros Hs Ht (j & q & l & Hj & Hq & Ha & Hl) Hi Hp Hak Hk. unfold sized in Hs. rewrite Forall_forall in Hs.
  destruct (decide (j = i)) as [->|Hne].
  - rewrite Hp in Hq. injection Hq as <-. assert (l = k) as -> by lia. congruence.
  - pose proof (points_apart _ _ _ _ Hne Hq Hp (Ht j q Hj Hq)) as Hd. unfold pp_end in Hd.
    destruct (Hs i Hi) as (p' & Hp' & L1). destruct (Hs j Hj) as (q' & Hq' & L2). simplify_eq.
    apply lookup_lt_Some in Hk, Hl. lia.
Qed.

Lemma wrote_lookup idxs f f' i p k v :
  sized idxs -> (forall j q, j ∈ idxs -> points !! j = Some q -> pp_table q = pp_table p) ->
  wrote idxs f f' -> i ∈ idxs -> points !! i = Some p -> W p !! k = Some v -> f' (pp_pdu p + Z.of_nat k) = v.
Proof.
  intros Hs Ht Hw Hi Hp Hk. destruct (Hw (pp_pdu p + Z.of_nat k)) as [(v' & Ho & ->)|[Hn _]].
  - by eapply owned_fun.
  - destruct (Hn v). by exists i, p, k.
Qed.
End Owned.

(** ** Reading *)

(** The device follows the protocol at the address [unit_id], nothing on the way. *)
Record conforming (unit_id : Z) (d : Device) : Prop := {
  cf_unit : dv_unit d = unit_id;
  cf_idle : idle_device d;
  cf_holding : holding_ok (dv_holding d);
  cf_inputs : holding_ok (dv_inputs d) }.

Definition bit_table (d : Device) (t : RegisterType) : Z -> bool :=
  match t with Coil => dv_coils d | _ => dv_discrete d end.
Definition reg_table (d : Device) (t : RegisterType) : Z -> Z :=
  match t with Holding => dv_holding d | _ => dv_inputs d end.

(** The value of a point in the device. *)
Definition field_value (d : Device) (p : PlannedPoint) : PlcValue :=
  if is_bit_table (pp_table p)
  then decode_number (if bit_table d (pp_table p) (pp_pdu p) then f64_one else f64_zero) p
  else decode_regs (table (reg_table d (pp_table p)) (pp_pdu p) (Z.to_nat (pp_words p))) p.

Definition group_data (d : Device) (t : RegisterType) (g : Group) : Payload :=
  if is_bit_table t then Bits (packed (table (bit_table d t) (gr_start g) (Z.to_nat (gr_qty g))))
  else Regs (table (reg_table d t) (gr_start g) (Z.to_nat (gr_qty g))).

Lemma slice_table {A} (f : Z -> A) start n k m :
  (k + m <= n)%nat -> slice (table f start n) k m = table f (start + Z.of_nat k) m.
Proof.
  intros H. apply list_eq. intros i. unfold slice. destruct (decide (i < m)%nat) as [Hi|Hi].
  - rewrite lookup_take_lt, lookup_drop by done. rewrite !table_lookup by lia. do 2 f_equal. lia.
  - rewrite lookup_take_ge by lia. symmetry. apply lookup_ge_None. rewrite length_table. lia.
Qed.

Lemma point_value_device d g p :
  gr_start g <= pp_pdu p -> pp_end p <= gr_start g + gr_qty g -> 1 <= pp_words p ->
  point_value g (group_data d (pp_table p) g) p = Ok (field_value d p).
Proof.
  intros H1 H2 H3. unfold pp_end in H2. assert (Hr : rel_of g p = Z.to_nat (pp_pdu p - gr_start g)).
  { unfold rel_of, sat_sub_u. f_equal. lia. }
  unfold group_data, field_value, point_value. rewrite Hr. destruct (is_bit_table (pp_table p)).
  - match goal with |- context [match ?bs !! (?r / 8)%nat with _ => _ end] =>
      change (match bs !! (r / 8)%nat with Some b => Z.testbit b (Z.of_nat (r mod 8)) | None => false end)
        with (bit_at bs r) end.
    rewrite bit_at_pack, table_lookup by lia. cbn [default]. do 3 f_equal.
    replace (gr_start g + Z.of_nat (Z.to_nat (pp_pdu p - gr_start g))) with (pp_pdu p) by lia. done.
  - rewrite length_table, (proj2 (Nat.ltb_ge _ _)) by lia. rewrite slice_table by lia.
    replace (gr_start g + Z.of_nat (Z.to_nat (pp_pdu p - gr_start g))) with (pp_pdu p) by lia. done.
Qed.

Section Reading.
Context (points : list PlannedPoint) (Hpoints : points_ok points).

(** [last] holds the fields of the points of [idxs]. *)
Definition stored (d : Device) (idxs : list nat) (last : list PlcValue) : Prop :=
  forall i p pos, i ∈ idxs -> points !! i = Some p -> pp_input_pos p = Some pos -> last !! pos = Some (field_value d p).

Lemma NoDup_omap_inj {A B} (f : A -> option B) l x y b :
  NoDup (omap f l) -> x ∈ l -> y ∈ l -> f x = Some b -> f y = Some b -> x = y.
Proof.
  induction l as [|z l IH]; intros Hd Hx Hy Fx Fy; [by apply elem_of_nil in Hx|].
  assert (Hin : forall w, w ∈ l -> f w = Some b -> b ∈ omap f l) by (intros w ? ?; apply list_elem_of_omap; eauto).
  cbn in Hd. apply elem_of_cons in Hx as [->|Hx], Hy as [->|Hy]; [done| | |].
  - rewrite Fx in Hd. apply NoDup_cons in Hd as [Hn _]. destruct Hn. eauto.
  - rewrite Fy in Hd. apply NoDup_cons in Hd as [Hn _]. destruct Hn. eauto.
  - apply IH; try done. destruct (f z); [by apply NoDup_cons in Hd as [_ ?]|done].
Qed.

Lemma input_pos_inj p q pos : p ∈ points -> q ∈ points -> pp_input_pos p = Some pos -> pp_input_pos q = Some pos -> p = q.
Proof. destruct (ps_inputs _ Hpoints) as [n Hn]. apply NoDup_omap_inj. rewrite Hn. apply NoDup_ListNoDup, List.seq_NoDup. Qed.

Lemma input_pos_bound p pos : p ∈ points -> pp_input_pos p = Some pos -> (pos < length (omap pp_input_pos points))%nat.
Proof.
  destruct (ps_inputs _ Hpoints) as [n Hn]. intros Hp Hpos.
  assert (Hin : pos ∈ omap pp_input_pos points) by (apply list_elem_of_omap; eauto).
  rewrite Hn in Hin |- *. apply elem_of_seq in Hin. rewrite length_seq. lia.
Qed.

Lemma store_group_device d g t (se : Session Device) ms done last :
  Forall (fun i => exists p, points !! i = Some p /\ pp_table p = t /\ gr_start g <= pp_pdu p /\
                             pp_end p <= gr_start g + gr_qty g) ms ->
  length last = length (omap pp_input_pos points) -> stored d done last ->
  exists last', m_each ms (fun i => p ← m_lift (index points i); v ← m_lift (point_value g (group_data d t g) p);
                                    store_input p v) (se, last) = ((se, last'), Ok tt) /\
    length last' = length last /\ stored d (done ++ ms) last'.
Proof.
  intros Hm. revert done last. induction Hm as [|i ms (p & Hi & Ht & H1 & H2) Hm IH]; intros dn last Hl Hs.
  { exists last. rewrite app_nil_r. done. }
  pose proof (point_words p (Forall_lookup_1 _ _ _ _ (ps_ok _ Hpoints) Hi)) as Hw.
  assert (Hv : point_value g (group_data d t g) p = Ok (field_value d p)).
  { rewrite <-Ht. apply point_value_device; [done..|lia]. }
  pose proof (list_elem_of_lookup_2 _ _ _ Hi) as Hp.
  set (last1 := match pp_input_pos p with Some pos => <[pos := field_value d p]> last | None => last end).
  assert (L1 : length last1 = length last) by (unfold last1; destruct (pp_input_pos p); by rewrite ?length_insert).
  destruct (IH (dn ++ [i]) last1) as (last' & Hr & Hl' & Hs').
  - congruence.
  - intros j q pos Hj Hq Hpos. unfold last1. destruct (decide (pp_input_pos p = Some pos)) as [He|Hne].
    + rewrite (input_pos_inj q p pos) by (done || by eapply list_elem_of_lookup_2). rewrite He.
      apply list_lookup_insert_eq. rewrite Hl. by eapply input_pos_bound.
    + apply elem_of_app in Hj as [Hj|Hj].
      * destruct (pp_input_pos p) as [pos'|]; [rewrite list_lookup_insert_ne by congruence|]; by apply (Hs j).
      * apply list_elem_of_singleton in Hj as ->. congruence.
  - exists last'. split; [|split; [congruence|by rewrite <-app_assoc in Hs']].
    cbn [m_each]. unfold mbind, M_bind, m_lift, index. rewrite Hi, Hv. exact Hr.
Qed.
End Reading.

Section ReadDevice.
Context (points : list PlannedPoint) (Hpoints : points_ok points).
Context (unit_id : Z) (d : Device) (Hd : conforming unit_id d).

Lemma group_read_points t g :
  group_ok points (is_input_of t) (read_max t) g ->
  Forall (fun i => exists p, points !! i = Some p /\ pp_table p = t /\ gr_start g <= pp_pdu p /\
                             pp_end p <= gr_start g + gr_qty g) (gr_members g).
Proof.
  intros Hg. destruct (run_end_bounds _ _ _ _ (ps_ok _ Hpoints) (go_run _ _ _ _ Hg)) as [_ Hb].
  pose proof (go_pred _ _ _ _ Hg) as Hp. rewrite Forall_forall in Hb, Hp. apply Forall_forall. intros i Hi.
  destruct (Hb i Hi) as (p & Hq & H1 & H2). destruct (Hp i Hi) as (p' & Hq' & [_ Ht]%is_input_of_table). simplify_eq. eauto.
Qed.

Lemma read_data_device t g tid last :
  group_ok points (is_input_of t) (read_max t) g -> u_range 16 tid ->
  (if is_bit_table t
   then bs ← on_session (read_bits unit_id (read_fc t) (gr_start g) (gr_qty g)); mret (Bits bs)
   else rs ← on_session (read_regs unit_id (read_fc t) (gr_start g) (gr_qty g)); mret (Regs rs))
    (mkSession d tid, last) = ((mkSession d (wrap_u 16 (tid + 1)), last), Ok (group_data d t g)).
Proof.
  intros Hg Ht. pose proof (go_max _ _ _ _ Hg) as Hq. pose proof (go_span _ _ _ _ Hg) as Hs. destruct Hd as [<- Hi Hh Hin].
  unfold mbind, M_bind, on_session, group_data, read_max in *. cbn [fst snd].
  assert (Hu : u_range 16 (gr_start g)) by (unfold u_range; lia).
  destruct t; cbn [is_bit_table read_fc bit_table reg_table] in *.
  - by rewrite (read_regs_device d tid 3 (dv_holding d)) by auto.
  - by rewrite (read_regs_device d tid 4 (dv_inputs d)) by auto.
  - by rewrite (read_bits_device d tid 1 (dv_coils d)) by auto.
  - by rewrite (read_bits_device d tid 2 (dv_discrete d)) by auto.
Qed.

Lemma read_group_device t g tid dn last :
  group_ok points (is_input_of t) (read_max t) g -> u_range 16 tid ->
  length last = length (omap pp_input_pos points) -> stored points d dn last ->
  exists last', read_group unit_id points g (mkSession d tid, last) =
      ((mkSession d (wrap_u 16 (tid + 1)), last'), Ok tt) /\
    length last' = length last /\ stored points d (dn ++ gr_members g) last'.
Proof.
  intros Hg Ht Hl Hs. pose proof (group_read_points _ _ Hg) as Hm.
  destruct (store_group_device points Hpoints d g t (mkSession d (wrap_u 16 (tid + 1))) _ _ _ Hm Hl Hs) as (last' & Hr & Hk).
  exists last'. split; [|done]. rewrite <-Hr. unfold read_group, store_group.
  destruct (gr_members g) as [|i ms] eqn:Hms; [by destruct (go_some _ _ _ _ Hg)|].
  apply Forall_cons in Hm as [(p & Hi & <- & _) _]. pose proof (read_data_device _ _ tid last Hg Ht) as Hdata.
  unfold mbind, M_bind, m_lift, index in *. cbn [lookup list_lookup]. rewrite Hi. by rewrite Hdata.
Qed.

Lemma read_inputs_device gs tid dn last :
  Forall (fun g => exists t, group_ok points (is_input_of t) (read_max t) g) gs -> u_range 16 tid ->
  length last = length (omap pp_input_pos points) -> stored points d dn last ->
  exists tid' last', read_inputs unit_id points gs (mkSession d tid, last) = ((mkSession d tid', last'), Ok tt) /\
    u_range 16 tid' /\ length last' = length last /\ stored points d (dn ++ all_members gs) last'.
Proof.
  intros Hg. revert tid dn last. induction Hg as [|g gs [t Hg] _ IH]; intros tid dn last Ht Hl Hs.
  { exists tid, last. rewrite app_nil_r. done. }
  destruct (read_group_device t g tid dn last Hg Ht Hl Hs) as (last1 & Hr & Hl1 & Hs1).
  destruct (IH (wrap_u 16 (tid + 1)) _ last1 (wrap_u_range 16 (tid + 1) ltac:(lia)) ltac:(congruence) Hs1)
    as (tid' & last' & Hr' & Ht' & Hl' & Hs').
  exists tid', last'. split; [|split; [done|split; [congruence|by rewrite <-app_assoc in Hs']]].
  unfold read_inputs in *. cbn [m_each]. unfold mbind, M_bind in *. rewrite Hr. exact Hr'.
Qed.
End ReadDevice.

(** ** Writing *)

Definition with_bit (reg bit : Z) (on : bool) : Z :=
  if on then Z.lor reg (Z.shiftl 1 bit) else clear_bit16 reg bit.

Lemma u_range_iff w x : 0 <= w -> 0 <= x -> u_range w x <-> forall n, w <= n -> Z.testbit x n = false.
Proof.
  intros Hw Hx. split.
  - intros Hr n Hn. rewrite <-(wrap_u_small w x Hr). by apply Z.mod_pow2_bits_high.
  - intros Hb. assert (E : x = wrap_u w x); [|rewrite E; by apply wrap_u_range].
    apply Z.bits_inj'. intros n Hn. unfold wrap_u. destruct (Z.ltb_spec n w).
    + by rewrite Z.mod_pow2_bits_low.
    + rewrite Z.mod_pow2_bits_high by lia. by apply Hb.
Qed.

Lemma with_bit_range reg bit on : 0 <= bit <= 15 -> u_range 16 reg -> u_range 16 (with_bit reg bit on).
Proof.
  intros Hb Hr. assert (H0 : 0 <= reg) by (unfold u_range in Hr; lia). pose proof (proj1 (u_range_iff 16 reg ltac:(lia) H0) Hr) as Hh.
  unfold with_bit, clear_bit16. rewrite Z.shiftl_1_l. pose proof (Z.pow_nonneg 2 bit ltac:(lia)) as Hp.
  destruct on; (apply u_range_iff; [lia| |]).
  - apply Z.lor_nonneg. lia.
  - intros n Hn. rewrite Z.lor_spec, Hh, Z.pow2_bits_false by lia. done.
  - apply Z.land_nonneg. lia.
  - intros n Hn. by rewrite Z.land_spec, Hh by lia.
Qed.

(** Setting a bit of a register leaves the others. *)
Lemma with_bit_spec reg bit on n :
  0 <= bit <= 15 -> 0 <= n < 16 ->
  Z.testbit (with_bit reg bit on) n = if n =? bit then on else Z.testbit reg n.
Proof.
  intros Hb Hn. unfold with_bit, clear_bit16. destruct on.
  - rewrite Z.lor_spec, Z.shiftl_1_l, Z.pow2_bits_eqb by lia. rewrite (Z.eqb_sym n).
    destruct (bit =? n); by rewrite ?orb_true_r, ?orb_false_r.
  - rewrite Z.land_spec, Z.lxor_spec, Z.shiftl_1_l, Z.pow2_bits_eqb by lia.
    change (2 ^ 16 - 1) with (Z.ones 16). rewrite Z.ones_spec_low by lia. rewrite (Z.eqb_sym n).
    destruct (bit =? n); cbn; by rewrite ?andb_true_r, ?andb_false_r.
Qed.

Lemma put_table_range f a vs : holding_ok f -> Forall (u_range 16) vs -> holding_ok (put_table f a vs).
Proof.
  intros Hf Hv b. destruct (put_table_spec f a vs b) as [(n & _ & Hn)|[_ ->]]; [|apply Hf].
  exact (Forall_lookup_1 _ _ _ _ Hv Hn).
Qed.

Section Writing.
Context (points : list PlannedPoint) (Hpoints : points_ok points) (mail : Mail) (force : bool).

Notation value p := (selected mail force p).

Definition coil_word (p : PlannedPoint) : list bool := [coil_on (value p) p].

(** What a holding output puts into a table that was [f] before the poll. *)
Definition reg_word (f : Z -> Z) (p : PlannedPoint) : list Z :=
  if bool_decide (pp_raw p = RawBool)
  then [with_bit (f (pp_pdu p)) (default 0 (pp_bit p)) (coil_on (value p) p)]
  else value_to_words (value p) p.

Lemma coil_bits_words ms :
  Forall (fun i => exists p, points !! i = Some p) ms ->
  coil_bits points mail force ms = Ok (flat_map (words_at points coil_word) ms).
Proof.
  induction 1 as [|i ms [p Hp] _ IH]; [done|]. cbn [coil_bits flat_map]. unfold index, words_at at 1. rewrite Hp, IH. done.
Qed.

Lemma put_words_fill pre ws n :
  (length ws <= n)%nat ->
  put_words (length pre) ws (pre ++ replicate n 0) = pre ++ ws ++ replicate (n - length ws) 0.
Proof.
  revert pre n. induction ws as [|w ws IH]; intros pre n Hn; cbn [put_words length] in *; [by rewrite Nat.sub_0_r|].
  destruct n as [|n]; [lia|]. rewrite insert_app_r_alt, Nat.sub_diag by lia. cbn [replicate].
  change (<[0%nat := w]> (0 :: replicate n 0)) with ([w] ++ replicate n 0). rewrite app_assoc.
  replace (Datatypes.S (length pre)) with (length (pre ++ [w])) by (rewrite length_app; cbn; lia).
  rewrite IH by lia. by rewrite <-app_assoc.
Qed.

Lemma group_regs_words f g ms pre :
  Forall (fun i => exists p, points !! i = Some p /\ is_reg_out p = true) ms ->
  run_end points (gr_start g + len pre) ms = Some (gr_start g + gr_qty g) ->
  group_regs points mail force g ms (pre ++ replicate (Z.to_nat (gr_qty g - len pre)) 0) =
  Ok (pre ++ flat_map (words_at points (reg_word f)) ms).
Proof.
  intros Hm. revert pre. induction Hm as [|i ms (p & Hi & Hp) Hm IH]; intros pre Hr; cbn [run_end] in Hr.
  { injection Hr as Hr. replace (gr_qty g - len pre) with 0 by lia. by rewrite !app_nil_r. }
  rewrite Hi in Hr. cbn in Hr. destruct (Z.eqb_spec (pp_pdu p) (gr_start g + len pre)) as [He|]; [|done].
  pose proof (Forall_lookup_1 _ _ _ _ (ps_ok _ Hpoints) Hi) as Hok.
  destruct (run_end_bounds _ _ _ _ (ps_ok _ Hpoints) Hr) as [Hle _].
  assert (Hw : reg_word f p = value_to_words (value p) p).
  { unfold reg_word. unfold is_reg_out in Hp. apply andb_true_iff in Hp as [_ Hb]. by destruct (bool_decide _). }
  assert (Ht : pp_words p = raw_words (pp_raw p)).
  { rewrite (po_words _ Hok). unfold is_reg_out in Hp. rewrite !andb_true_iff, !bool_decide_eq_true in Hp.
    destruct Hp as [[_ ->] _]. done. }
  cbn [group_regs flat_map]. unfold index, words_at at 1. rewrite Hi, Hw. cbn [mbind res_bind].
  assert (Hrel : rel_of g p = length pre) by (unfold rel_of, sat_sub_u, len in *; lia). rewrite Hrel.
  pose proof (value_to_words_length (value p) p) as Hl. unfold pp_end, len in *.
  pose proof (point_words p Hok) as Hwd.
  rewrite put_words_fill by lia. rewrite app_assoc.
  specialize (IH (pre ++ value_to_words (value p) p)). rewrite length_app in IH.
  replace (Z.to_nat (gr_qty g - Z.of_nat (length pre)) - length (value_to_words (value p) p))%nat
    with (Z.to_nat (gr_qty g - Z.of_nat (length pre + length (value_to_words (value p) p)))) by lia.
  rewrite IH; [by rewrite <-app_assoc|]. rewrite <-Hr. f_equal. lia.
Qed.

Lemma coil_sized idxs :
  Forall (fun i => exists p, points !! i = Some p /\ is_coil_out p = true) idxs -> sized points coil_word idxs.
Proof.
  intros H. eapply Forall_impl; [exact H|]. intros i (p & Hi & Hp). exists p. split; [done|].
  rewrite (po_words _ (Forall_lookup_1 _ _ _ _ (ps_ok _ Hpoints) Hi)). unfold is_coil_out in Hp.
  rewrite andb_true_iff, !bool_decide_eq_true in Hp. by destruct Hp as [_ ->].
Qed.

Definition is_holding_out (p : PlannedPoint) : bool :=
  bool_decide (pp_direction p = DirOutput) && bool_decide (pp_table p = Holding).

Lemma reg_sized f idxs :
  Forall (fun i => exists p, points !! i = Some p /\ is_holding_out p = true) idxs -> sized points (reg_word f) idxs.
Proof.
  intros H. eapply Forall_impl; [exact H|]. intros i (p & Hi & Hp). exists p. split; [done|].
  rewrite (po_words _ (Forall_lookup_1 _ _ _ _ (ps_ok _ Hpoints) Hi)). unfold is_holding_out in Hp.
  rewrite andb_true_iff, !bool_decide_eq_true in Hp. destruct Hp as [_ ->]. cbn [is_bit_table]. unfold reg_word.
  case_bool_decide as Hb; [by rewrite Hb|apply value_to_words_length].
Qed.

Lemma is_reg_out_holding p : is_reg_out p = true -> is_holding_out p = true.
Proof. by intros [H _]%andb_true_iff. Qed.

Lemma reg_word_range f p : point_ok p -> is_holding_out p = true -> holding_ok f -> Forall (u_range 16) (reg_word f p).
Proof.
  intros Hok Hp Hf. unfold reg_word. case_bool_decide as Hb; [|apply value_to_words_range].
  unfold is_holding_out in Hp. rewrite andb_true_iff, !bool_decide_eq_true in Hp.
  destruct (po_bit _ Hok) as (bit & -> & Hbit); [by destruct Hp as [_ ->]|done|].
  constructor; [|done]. by apply with_bit_range.
Qed.

Lemma words_at_range f ms :
  Forall (fun i => exists p, points !! i = Some p /\ is_holding_out p = true) ms -> holding_ok f ->
  Forall (u_range 16) (flat_map (words_at points (reg_word f)) ms).
Proof.
  intros Hm Hf. induction Hm as [|i ms (p & Hi & Hp) _ IH]; [constructor|]. cbn. apply Forall_app. split; [|done].
  unfold words_at. rewrite Hi. apply reg_word_range; [|done..]. exact (Forall_lookup_1 _ _ _ _ (ps_ok _ Hpoints) Hi).
Qed.

Lemma exists_points pred ms :
  Forall (fun i => exists p, points !! i = Some p /\ pred p = true) ms ->
  Forall (fun i => exists p, points !! i = Some p) ms.
Proof. intros H. eapply Forall_impl; [exact H|]. naive_solver. Qed.

Lemma conforming_coils unit_id d f : conforming unit_id d -> conforming unit_id (set_coils f d).
Proof. by intros [H1 H2 H3 H4]. Qed.
Lemma conforming_holding unit_id d f : conforming unit_id d -> holding_ok f -> conforming unit_id (set_holding f d).
Proof. by intros [H1 H2 H3 H4]. Qed.

Lemma write_coil_group_device unit_id d tid g :
  conforming unit_id d -> u_range 16 tid -> group_ok points is_coil_out 1968 g ->
  exists f, write_coil_group unit_id points mail force g (mkSession d tid) =
      (mkSession (set_coils f d) (wrap_u 16 (tid + 1)), Ok tt) /\
    wrote points coil_word (gr_members g) (dv_coils d) f.
Proof.
  intros [<- Hi Hh Hin] Ht [Hr Hs Hq Hb Hp]. pose proof (coil_sized _ Hp) as Hsz.
  set (bits := flat_map (words_at points coil_word) (gr_members g)).
  destruct (run_words points coil_word (ps_ok _ Hpoints) _ _ _ Hr Hsz) as [Hl _]. fold bits in Hl.
  exists (put_table (dv_coils d) (gr_start g) bits). split; [|by eapply wrote_run; [apply Hpoints|..]].
  unfold write_coil_group. rewrite (coil_bits_words _ (exists_points _ _ Hp)). fold bits.
  unfold mbind, M_bind, m_lift. unfold len in Hl. assert (Hu : u_range 16 (gr_start g)) by (unfold u_range; lia).
  destruct bits as [|b [|b' bs]] eqn:Eb; cbn [length] in Hl; [lia|by apply write_coil_device|].
  apply write_coils_device; try done. cbn [length]. lia.
Qed.

Lemma write_reg_group_device unit_id d tid f0 g :
  conforming unit_id d -> u_range 16 tid -> holding_ok f0 -> group_ok points is_reg_out 123 g ->
  exists f, write_reg_group unit_id points mail force g (mkSession d tid) =
      (mkSession (set_holding f d) (wrap_u 16 (tid + 1)), Ok tt) /\
    wrote points (reg_word f0) (gr_members g) (dv_holding d) f /\ holding_ok f.
Proof.
  intros [<- Hi Hh Hin] Ht Hf0 [Hr Hs Hq Hb Hp].
  assert (Hp' : Forall (fun i => exists p, points !! i = Some p /\ is_holding_out p = true) (gr_members g)).
  { eapply Forall_impl; [exact Hp|]. intros i (p & H1 & H2%is_reg_out_holding). eauto. }
  pose proof (reg_sized f0 _ Hp') as Hsz. pose proof (words_at_range f0 _ Hp' Hf0) as Hrange.
  destruct (run_words points (reg_word f0) (ps_ok _ Hpoints) _ _ _ Hr Hsz) as [Hl _].
  exists (put_table (dv_holding d) (gr_start g) (flat_map (words_at points (reg_word f0)) (gr_members g))).
  split; [|split; [by eapply wrote_run; [apply Hpoints|..]|by apply put_table_range]].
  unfold write_reg_group. pose proof (group_regs_words f0 g (gr_members g) [] Hp) as Hg.
  unfold len in Hg, Hl. cbn [length app] in Hg. rewrite Z.add_0_r, Z.sub_0_r in Hg. rewrite (Hg Hr).
  unfold mbind, M_bind, m_lift. assert (Hu : u_range 16 (gr_start g)) by (unfold u_range; lia).
  destruct (flat_map _ _) as [|r [|r' rs]] eqn:Eb; cbn [length] in Hl; [lia| |].
  - apply write_reg_device; try done. by apply Forall_cons in Hrange as [? _].
  - apply write_regs_device; try done. cbn [length]. lia.
Qed.

Lemma write_coil_groups_device unit_id d tid gs :
  conforming unit_id d -> u_range 16 tid -> Forall (group_ok points is_coil_out 1968) gs ->
  exists f tid', m_each gs (write_coil_group unit_id points mail force) (mkSession d tid) =
      (mkSession (set_coils f d) tid', Ok tt) /\ u_range 16 tid' /\
    wrote points coil_word (all_members gs) (dv_coils d) f.
Proof.
  intros Hd Ht Hg. revert d tid Hd Ht. induction Hg as [|g gs Hg _ IH]; intros d tid Hd Ht.
  { exists (dv_coils d), tid. split; [by destruct d|]. split; [done|]. apply wrote_nil. }
  destruct (write_coil_group_device unit_id d tid g Hd Ht Hg) as (f1 & H1 & W1).
  destruct (IH (set_coils f1 d) _ (conforming_coils _ _ f1 Hd) (wrap_u_range 16 (tid + 1) ltac:(lia)))
    as (f & tid' & H2 & Ht' & W2).
  exists f, tid'. split; [|split; [done|by eapply wrote_trans]].
  cbn [m_each]. unfold mbind, M_bind in *. rewrite H1. exact H2.
Qed.

Lemma write_reg_groups_device unit_id d tid f0 gs :
  conforming unit_id d -> u_range 16 tid -> holding_ok f0 -> Forall (group_ok points is_reg_out 123) gs ->
  exists f tid', m_each gs (write_reg_group unit_id points mail force) (mkSession d tid) =
      (mkSession (set_holding f d) tid', Ok tt) /\ u_range 16 tid' /\ holding_ok f /\
    wrote points (reg_word f0) (all_members gs) (dv_holding d) f.
Proof.
  intros Hd Ht Hf0 Hg. revert d tid Hd Ht. induction Hg as [|g gs Hg _ IH]; intros d tid Hd Ht.
  { exists (dv_holding d), tid. split; [by destruct d|]. split; [done|]. split; [apply Hd|]. apply wrote_nil. }
  destruct (write_reg_group_device unit_id d tid f0 g Hd Ht Hf0 Hg) as (f1 & H1 & W1 & Hf1).
  destruct (IH (set_holding f1 d) _ (conforming_holding _ _ f1 Hd Hf1) (wrap_u_range 16 (tid + 1) ltac:(lia)))
    as (f & tid' & H2 & Ht' & Hf & W2).
  exists f, tid'. split; [|split; [done|split; [done|by eapply wrote_trans]]].
  cbn [m_each]. unfold mbind, M_bind in *. rewrite H1. exact H2.
Qed.

Definition holding_outs (idxs : list nat) : Prop :=
  Forall (fun i => exists p, points !! i = Some p /\ is_holding_out p = true) idxs.

Lemma holding_table p : is_holding_out p = true -> pp_table p = Holding.
Proof. unfold is_holding_out. by rewrite andb_true_iff, !bool_decide_eq_true; intros [_ H]. Qed.

(** Before its own turn, the register of a bit output is as it was. *)
Lemma wrote_other f0 f dn i p :
  holding_outs dn -> i ∉ dn -> points !! i = Some p -> is_holding_out p = true ->
  wrote points (reg_word f0) dn f0 f -> f (pp_pdu p) = f0 (pp_pdu p).
Proof.
  intros Hdn Hni Hi Hp Hw. pose proof (reg_sized f0 _ Hdn) as Hsz. unfold holding_outs, sized in *.
  destruct (Hw (pp_pdu p)) as [(v & (j & q & k & Hj & Hq & Ha & Hk) & _)|[_ ->]]; [|done]. exfalso.
  rewrite Forall_forall in Hdn, Hsz. destruct (Hdn j Hj) as (q' & Hq' & Hqt). destruct (Hsz j Hj) as (q'' & Hq'' & Hl).
  simplify_eq. assert (Hne : i <> j) by (intros ->; done).
  pose proof (points_apart points (ps_apart _ Hpoints) i j p q Hne Hi Hq) as Hd.
  unfold apart in Hd. rewrite (holding_table p Hp), (holding_table q Hqt) in Hd. specialize (Hd eq_refl).
  pose proof (point_words p (Forall_lookup_1 _ _ _ _ (ps_ok _ Hpoints) Hi)) as Hwp.
  apply lookup_lt_Some in Hk. unfold pp_end in Hd. lia.
Qed.

Lemma write_bit_out_device unit_id d tid f0 dn i p :
  conforming unit_id d -> u_range 16 tid -> holding_outs dn -> i ∉ dn ->
  points !! i = Some p -> is_bit_out p = true -> wrote points (reg_word f0) dn f0 (dv_holding d) ->
  exists f tid', write_bit_out unit_id points mail force i (mkSession d tid) = (mkSession (set_holding f d) tid', Ok tt) /\
    u_range 16 tid' /\ holding_ok f /\ wrote points (reg_word f0) (dn ++ [i]) f0 f.
Proof.
  intros Hd Ht Hdn Hni Hi Hp Hw. apply andb_true_iff in Hp as [Hp Hraw]. change (is_holding_out p = true) in Hp.
  apply bool_decide_eq_true in Hraw. pose proof (Forall_lookup_1 _ _ _ _ (ps_ok _ Hpoints) Hi) as Hok.
  destruct (po_bit _ Hok) as (bit & Hbit & Hb); [by rewrite (holding_table p Hp)|done|].
  pose proof (po_pdu _ Hok) as Hpdu. assert (Hu : u_range 16 (pp_pdu p)) by (unfold u_range; lia).
  pose proof (wrote_other f0 _ dn i p Hdn Hni Hi Hp Hw) as Hold. pose proof Hd as [Hun Hidle Hh Hin].
  set (v := with_bit (dv_holding d (pp_pdu p)) bit (coil_on (value p) p)).
  assert (Hv : u_range 16 v) by (apply with_bit_range; [done|apply Hh]).
  assert (Hword : words_at points (reg_word f0) i = [v]).
  { unfold words_at, reg_word. rewrite Hi, bool_decide_eq_true_2, Hbit, <-Hold by done. done. }
  exists (put_table (dv_holding d) (pp_pdu p) [v]), (wrap_u 16 (wrap_u 16 (tid + 1) + 1)).
  assert (Hrun : write_bit_out unit_id points mail force i (mkSession d tid) =
    (mkSession (set_holding (put_table (dv_holding d) (pp_pdu p) [v]) d) (wrap_u 16 (wrap_u 16 (tid + 1) + 1)), Ok tt)).
  { unfold write_bit_out, mbind, M_bind, m_lift, index. rewrite Hi, Hbit, <-Hun.
    rewrite (read_regs_device d tid 3 (dv_holding d)) by (auto || lia).
    assert (Hone : table (dv_holding d) (pp_pdu p) (Z.to_nat 1) = [dv_holding d (pp_pdu p)]).
    { change (Z.to_nat 1) with 1%nat. cbn [table List.seq map]. by rewrite Z.add_0_r. }
    rewrite Hone. cbn [head default].
    apply write_reg_device; try done. by apply wrap_u_range. }
  split; [exact Hrun|]. split; [by apply wrap_u_range|]. split; [by apply put_table_range; [|constructor]|].
  eapply wrote_trans; [exact Hw|]. assert (Hone : sized points (reg_word f0) [i]).
  { apply reg_sized. constructor; [eauto|constructor]. }
  assert (Hre : run_end points (pp_pdu p) [i] = Some (pp_end p)) by (cbn; rewrite Hi; cbn; by rewrite Z.eqb_refl).
  pose proof (wrote_run points (reg_word f0) (ps_ok _ Hpoints) _ _ _ (dv_holding d) Hre Hone) as Hwr.
  cbn [flat_map] in Hwr. by rewrite Hword in Hwr.
Qed.

Lemma write_bit_outs_device unit_id d tid f0 dn bs :
  conforming unit_id d -> u_range 16 tid -> holding_outs dn -> NoDup (dn ++ bs) ->
  Forall (fun i => exists p, points !! i = Some p /\ is_bit_out p = true) bs ->
  wrote points (reg_word f0) dn f0 (dv_holding d) ->
  exists f tid', m_each bs (write_bit_out unit_id points mail force) (mkSession d tid) =
      (mkSession (set_holding f d) tid', Ok tt) /\ u_range 16 tid' /\
    wrote points (reg_word f0) (dn ++ bs) f0 f /\ holding_ok f.
Proof.
  intros Hd Ht Hdn Hnd His. revert d tid dn Hd Ht Hdn Hnd. induction His as [|i bs (p & Hi & Hp) _ IH];
    intros d tid dn Hd Ht Hdn Hnd Hw.
  { exists (dv_holding d), tid. rewrite app_nil_r. split; [by destruct d|]. split; [done|]. split; [done|apply Hd]. }
  assert (Hni : i ∉ dn).
  { apply NoDup_app in Hnd as (_ & Hx & _). intros Hin. apply (Hx i Hin). by left. }
  destruct (write_bit_out_device unit_id d tid f0 dn i p Hd Ht Hdn Hni Hi Hp Hw) as (f1 & tid1 & H1 & Ht1 & Hf1 & W1).
  assert (E : dn ++ i :: bs = (dn ++ [i]) ++ bs) by by rewrite <-app_assoc.
  rewrite E in Hnd |- *.
  destruct (IH (set_holding f1 d) tid1 (dn ++ [i])) as (f & tid' & H2 & Ht' & W2 & Hf); try done.
  - by apply conforming_holding.
  - apply Forall_app. split; [done|]. constructor; [|constructor]. exists p. split; [done|].
    by apply andb_true_iff in Hp as [? _].
  - exists f, tid'. split; [|done]. cbn [m_each]. unfold mbind, M_bind in *. rewrite H1. exact H2.
Qed.
End Writing.

(** [d'] is [d] with the outputs of the points: each coil and register of an output
    holds the value selected for it, one bit of the register for a bit output; every
    other address is as it was. *)
Record outputs_written (points : list PlannedPoint) (val : PlannedPoint -> PlcValue) (d d' : Device) : Prop := {
  ow_coil p : p ∈ points -> is_coil_out p = true -> dv_coils d' (pp_pdu p) = coil_on (val p) p;
  ow_reg p k w : p ∈ points -> is_reg_out p = true -> value_to_words (val p) p !! k = Some w ->
    dv_holding d' (pp_pdu p + Z.of_nat k) = w;
  ow_bit p bit n : p ∈ points -> is_bit_out p = true -> pp_bit p = Some bit -> 0 <= n < 16 ->
    Z.testbit (dv_holding d' (pp_pdu p)) n =
    if n =? bit then coil_on (val p) p else Z.testbit (dv_holding d (pp_pdu p)) n;
  ow_other_coils a : (forall p, p ∈ points -> is_coil_out p = true -> pp_pdu p <> a) -> dv_coils d' a = dv_coils d a;
  ow_other_holding a :
    (forall p, p ∈ points -> is_holding_out p = true -> ~ (pp_pdu p <= a < pp_end p)) ->
    dv_holding d' a = dv_holding d a;
  ow_rest : dv_unit d' = dv_unit d /\ dv_discrete d' = dv_discrete d /\ dv_inputs d' = dv_inputs d /\
    conforming (dv_unit d) d' }.

Lemma outputs_written_ext points val val' d d' :
  (forall p, p ∈ points -> pp_direction p = DirOutput -> val p = val' p) ->
  outputs_written points val d d' -> outputs_written points val' d d'.
Proof.
  intros He [H1 H2 H3 H4 H5 H6]. split; try done; intros p *; intros Hp Ho; rewrite <-(He p Hp); auto;
    unfold is_coil_out, is_reg_out, is_bit_out in Ho; rewrite !andb_true_iff, !bool_decide_eq_true in Ho; tauto.
Qed.

Lemma select_members points pred idxs :
  idxs ≡ₚ select points pred -> Forall (fun i => exists p, points !! i = Some p /\ pred p = true) idxs.
Proof. intros ->. apply Forall_forall. intros i. by apply select_spec. Qed.

Lemma select_of points pred idxs p :
  idxs ≡ₚ select points pred -> p ∈ points -> pred p = true -> exists i, i ∈ idxs /\ points !! i = Some p.
Proof.
  intros Hs Hp Hpred. apply list_elem_of_lookup in Hp as [i Hi]. exists i. split; [|done].
  rewrite Hs. apply select_spec. eauto.
Qed.

Section WrittenOut.
Context (points : list PlannedPoint) (Hpoints : points_ok points) (mail : Mail) (force : bool).
Context (coils regs : list nat).
Context (Hcoils : coils ≡ₚ select points is_coil_out) (Hregs : regs ≡ₚ select points is_reg_out).
Context (fc : Z -> bool) (fh : Z -> Z) (d : Device).
Context (Hc : wrote points (coil_word mail force) coils (dv_coils d) fc).
Context (Hh : wrote points (reg_word mail force (dv_holding d)) (regs ++ select points is_bit_out) (dv_holding d) fh).

Lemma all_holding : holding_outs points (regs ++ select points is_bit_out).
Proof.
  apply Forall_app. split.
  - eapply Forall_impl; [exact (select_members _ _ _ Hregs)|]. intros i (p & Hi & Hp%is_reg_out_holding). eauto.
  - eapply Forall_impl; [exact (select_members _ _ _ (Permutation_refl _))|]. intros i (p & Hi & [Hp _]%andb_true_iff). eauto.
Qed.

Lemma holding_written i p k w :
  i ∈ regs ++ select points is_bit_out -> points !! i = Some p -> reg_word mail force (dv_holding d) p !! k = Some w ->
  fh (pp_pdu p + Z.of_nat k) = w.
Proof.
  intros Hi Hp Hk. pose proof all_holding as Ha.
  eapply (wrote_lookup points _ (ps_apart _ Hpoints)); [by apply reg_sized| |exact Hh|exact Hi|exact Hp|exact Hk].
  unfold holding_outs in Ha. rewrite Forall_forall in Ha. intros j q Hj Hq.
  destruct (Ha j Hj) as (q' & Hq' & Hqo). destruct (Ha i Hi) as (p' & Hp' & Hpo). simplify_eq.
  by rewrite !holding_table.
Qed.

Lemma coil_written p : p ∈ points -> is_coil_out p = true -> fc (pp_pdu p) = coil_on (selected mail force p) p.
Proof.
  intros Hp Ho. destruct (select_of _ _ _ _ Hcoils Hp Ho) as (i & Hi & Hip).
  rewrite <-(Z.add_0_r (pp_pdu p)). change 0 with (Z.of_nat 0).
  eapply (wrote_lookup points _ (ps_apart _ Hpoints)); [apply coil_sized; [done|by apply select_members]| |exact Hc|exact Hi|exact Hip|done].
  intros j q Hj Hq. pose proof (select_members _ _ _ Hcoils) as Hm. rewrite Forall_forall in Hm.
  destruct (Hm j Hj) as (q' & Hq' & Hqo). simplify_eq. unfold is_coil_out in *.
  rewrite andb_true_iff, !bool_decide_eq_true in *. destruct Ho as [_ ->]. by destruct Hqo as [_ ->].
Qed.

Lemma bit_written p bit n :
  p ∈ points -> is_bit_out p = true -> pp_bit p = Some bit -> 0 <= n < 16 ->
  Z.testbit (fh (pp_pdu p)) n =
  if n =? bit then coil_on (selected mail force p) p else Z.testbit (dv_holding d (pp_pdu p)) n.
Proof.
  intros Hp Ho Hbit Hn. destruct (select_of _ _ _ _ (Permutation_refl _) Hp Ho) as (i & Hi & Hip).
  unfold is_bit_out in Ho. rewrite !andb_true_iff, !bool_decide_eq_true in Ho. destruct Ho as [[Hdir Ht] Hraw].
  pose proof (Forall_lookup_1 _ _ _ _ (ps_ok _ Hpoints) Hip) as Hok.
  destruct (po_bit _ Hok) as (bit' & Hbit' & Hb); [by rewrite Ht|done|]. simplify_eq.
  assert (Hword : reg_word mail force (dv_holding d) p !! 0%nat =
    Some (with_bit (dv_holding d (pp_pdu p)) bit (coil_on (selected mail force p) p))).
  { unfold reg_word. rewrite bool_decide_eq_true_2, Hbit by done. done. }
  apply (holding_written i) in Hword; [|apply elem_of_app; by right|done].
  rewrite Z.add_0_r in Hword. rewrite Hword. by apply with_bit_spec.
Qed.

Lemma reg_written p k w :
  p ∈ points -> is_reg_out p = true -> value_to_words (selected mail force p) p !! k = Some w ->
  fh (pp_pdu p + Z.of_nat k) = w.
Proof.
  intros Hp Ho Hk. destruct (select_of _ _ _ _ Hregs Hp Ho) as (i & Hi & Hip).
  apply (holding_written i); [apply elem_of_app; by left|done|]. unfold reg_word.
  apply andb_true_iff in Ho as [_ Hb]. by destruct (bool_decide _).
Qed.

Lemma coil_unwritten a : (forall p, p ∈ points -> is_coil_out p = true -> pp_pdu p <> a) -> fc a = dv_coils d a.
Proof.
  intros Ha. destruct (Hc a) as [(v & (i & p & k & Hi & Hip & -> & Hk) & _)|[_ H]]; [|exact H].
  pose proof (select_members _ _ _ Hcoils) as Hm. rewrite Forall_forall in Hm. destruct (Hm i Hi) as (p' & Hp' & Ho). simplify_eq.
  destruct (Ha p (list_elem_of_lookup_2 _ _ _ Hip) Ho). destruct k; [|done]. lia.
Qed.

Lemma holding_unwritten a :
  (forall p, p ∈ points -> is_holding_out p = true -> ~ (pp_pdu p <= a < pp_end p)) -> fh a = dv_holding d a.
Proof.
  intros Ha. destruct (Hh a) as [(v & (i & p & k & Hi & Hip & -> & Hk) & _)|[_ H]]; [|exact H].
  pose proof all_holding as Hm. pose proof (reg_sized points Hpoints mail force (dv_holding d) _ Hm) as Hs.
  unfold holding_outs, sized in *. rewrite Forall_forall in Hm, Hs.
  destruct (Hm i Hi) as (p' & Hp' & Ho). destruct (Hs i Hi) as (p'' & Hp'' & Hl). simplify_eq.
  destruct (Ha p (list_elem_of_lookup_2 _ _ _ Hip) Ho). apply lookup_lt_Some in Hk. unfold pp_end. lia.
Qed.

Lemma written_out : holding_ok fh -> conforming (dv_unit d) d ->
  outputs_written points (selected mail force) d (set_holding fh (set_coils fc d)).
Proof.
  intros Hf Hd. split; cbn.
  - apply coil_written.
  - apply reg_written.
  - apply bit_written.
  - apply coil_unwritten.
  - apply holding_unwritten.
  - do 3 (split; [done|]). by apply conforming_holding, Hf; apply conforming_coils.
Qed.
End WrittenOut.

Lemma NoDup_holding points regs :
  regs ≡ₚ select points is_reg_out -> NoDup (regs ++ select points is_bit_out).
Proof.
  intros Hr. rewrite Hr. apply NoDup_app. split; [apply NoDup_select|]. split; [|apply NoDup_select].
  intros i (p & Hi & Hp)%select_spec (q & Hj & Hq)%select_spec. rewrite Hi in Hj. injection Hj as <-.
  unfold is_reg_out, is_bit_out in *. destruct (bool_decide (pp_raw p = RawBool)); rewrite ?andb_false_r in *; done.
Qed.

(** Writing the outputs of a module to the device. *)
Lemma write_with_device (rt : ModRt Device) mail force d tid :
  rt_ok rt -> conforming (rt_unit rt) d -> u_range 16 tid ->
  exists d' tid', write_with rt mail force (mkSession d tid) = (mkSession d' tid', Ok tt) /\
    outputs_written (rt_points rt) (selected mail force) d d'.
Proof.
  intros [H1 H2 H3 H4 H5 H6 H7 H8 H9 H10] Hd Ht. unfold write_with.
  destruct (write_coil_groups_device (rt_points rt) H1 mail force _ d tid _ Hd Ht H4) as (fc & t1 & R1 & Ht1 & W1).
  destruct (write_reg_groups_device (rt_points rt) H1 mail force _ (set_coils fc d) t1 (dv_holding d) _
              (conforming_coils _ _ fc Hd) Ht1 (cf_holding _ _ Hd) H6) as (f1 & t2 & R2 & Ht2 & Hf1 & W2).
  destruct (write_bit_outs_device (rt_points rt) H1 mail force (rt_unit rt) (set_holding f1 (set_coils fc d)) t2 (dv_holding d)
              (all_members (rt_reg_groups rt)) (select (rt_points rt) is_bit_out)) as (f2 & t3 & R3 & Ht3 & W3 & Hf2); try done.
  - by apply conforming_holding, Hf1; apply conforming_coils.
  - eapply Forall_impl; [exact (select_members _ _ _ H7)|]. intros i (p & Hi & Hp%is_reg_out_holding). eauto.
  - by apply NoDup_holding.
  - by apply select_members.
  - exists (set_holding f2 (set_coils fc d)), t3. split.
    + rewrite H8. unfold mbind, M_bind. rewrite R1, R2. exact R3.
    + pose proof (cf_unit _ _ Hd) as Hu. rewrite <-Hu in Hd. by eapply written_out.
Qed.

(** ** A poll *)

(** The snapshot holds the device's fields, all of good quality. *)
Definition inputs_published (points : list PlannedPoint) (d : Device) (s : Snapshot) : Prop :=
  forall p pos, p ∈ points -> pp_input_pos p = Some pos ->
    sn_values s !! pos = Some (field_value d p) /\ sn_quality s !! pos = Some Good.

(** What one poll of a connected module does to the device and to its share. *)
Definition transferred (gate at_ : Z) (c c' : Cell Device) (d d' : Device) : Prop :=
  let points := rt_points (cl_rt c) in
  let mail := sh_mailbox (cl_share c) in
  rt_stream (cl_rt c') = Some d' /\
  sh_input_slots (cl_share c') = sh_input_slots (cl_share c) /\
  sh_status (cl_share c') = mkModStatus Good (Some at_) /\
  inputs_published points d (sh_inputs (cl_share c')) /\
  if bool_decide (Gate.mode gate = Sim) || negb (ml_armed mail) then d' = d
  else outputs_written points (selected mail (ml_force_safe mail)) d d'.

Lemma publish_inputs points d q (c : Cell Device) idxs :
  points_ok points -> idxs ≡ₚ select points is_input ->
  length (rt_last_inputs (cl_rt c)) = length (omap pp_input_pos points) ->
  stored points d idxs (rt_last_inputs (cl_rt c)) -> q = Good ->
  inputs_published points d (sh_inputs (cl_share (published q c))).
Proof.
  intros Hp Hidx Hl Hs -> p pos Hin Hpos. pose proof (input_pos_bound points Hp p pos Hin Hpos) as Hb.
  assert (Hdir : is_input p = true).
  { pose proof (ps_ok _ Hp) as Hok. rewrite Forall_forall in Hok. destruct (po_field _ (Hok p Hin)) as [(Hd & _)|(_ & _ & Hn & _)].
    - unfold is_input. by rewrite bool_decide_eq_true.
    - congruence. }
  destruct (select_of _ _ _ _ Hidx Hin Hdir) as (i & Hi & Hip). specialize (Hs i p pos Hi Hip Hpos).
  unfold published. destruct (rt_last_inputs (cl_rt c)) as [|v vs] eqn:Hlast; [done|]. cbn [sh_inputs cl_share set_share set_inputs sn_values sn_quality].
  split; [done|]. apply lookup_replicate. split; [done|]. lia.
Qed.

Section Poll.
Context (c : Cell Device) (d : Device) (Hc : cell_ok c) (Hd : conforming (rt_unit (cl_rt c)) d).

Lemma read_pass_device :
  rt_stream (cl_rt c) = Some d ->
  exists tid last, read_pass c = (set_rt (set_connection (Some d) tid last) c, Ok tt) /\ u_range 16 tid /\
    length last = length (rt_last_inputs (cl_rt c)) /\
    stored (rt_points (cl_rt c)) d (all_members (rt_read_groups (cl_rt c))) last.
Proof.
  intros Hs. pose proof (co_rt _ Hc) as [H1 H2 H3 H4 H5 H6 H7 H8 H9 H10].
  destruct (read_inputs_device _ H1 _ d Hd (rt_read_groups (cl_rt c)) (rt_tid (cl_rt c)) [] (rt_last_inputs (cl_rt c)) H2 H10 H9)
    as (tid & last & Hr & Ht & Hl & Hst); [by intros i p pos Hi%elem_of_nil|].
  exists tid, last. split; [|done]. unfold read_pass. rewrite Hs, Hr. done.
Qed.

Lemma write_pass_device at_ tid last :
  u_range 16 tid -> length last = length (rt_last_inputs (cl_rt c)) ->
  let c1 := marked_good at_ (set_rt (set_connection (Some d) tid last) c) in
  exists c' d', write_pass c1 = (c', Ok tt) /\ cl_share c' = cl_share c1 /\ rt_stream (cl_rt c') = Some d' /\
    if negb (ml_armed (sh_mailbox (cl_share c))) then d' = d
    else outputs_written (rt_points (cl_rt c)) (selected (sh_mailbox (cl_share c)) (ml_force_safe (sh_mailbox (cl_share c)))) d d'.
Proof.
  intros Ht Hl c1. assert (Hrt : cl_rt c1 = set_connection (Some d) tid last (cl_rt c)).
  { unfold c1, marked_good, published. cbn. by destruct last. }
  assert (Hm : sh_mailbox (cl_share c1) = sh_mailbox (cl_share c)) by (unfold c1, marked_good, published; cbn; by destruct last).
  assert (Hq : is_bad_now c1 = false) by (unfold c1, marked_good, published, is_bad_now; cbn; by destruct last).
  assert (Hok : rt_ok (cl_rt c1)) by (rewrite Hrt; by apply rt_ok_connection; [apply Hc|..]).
  unfold write_pass. rewrite Hm, Hq. destruct (ml_armed _); cbn [negb andb].
  2: { exists c1, d. split; [done|]. split; [done|]. by rewrite Hrt. }
  rewrite orb_false_r. destruct (write_with_device (cl_rt c1) (sh_mailbox (cl_share c)) (ml_force_safe (sh_mailbox (cl_share c))) d
    (rt_tid (cl_rt c1)) Hok) as (d' & tid' & Hw & Ho); [by rewrite Hrt|by rewrite Hrt|].
  assert (Hs : rt_stream (cl_rt c1) = Some d) by by rewrite Hrt. rewrite Hs, Hw.
  eexists _, d'. split; [done|]. split; [done|]. split; [done|]. by rewrite Hrt in Ho.
Qed.

Lemma connected_transfers gate rd :
  rt_stream (cl_rt c) = Some d ->
  exists c' d', poll_connected gate rd c = Ok c' /\ transferred gate (rd_ok_at rd) c c' d d'.
Proof.
  intros Hs. destruct (read_pass_device Hs) as (tid & last & Hr & Ht & Hl & Hsto).
  pose proof (co_rt _ Hc) as Hok. unfold poll_connected. rewrite Hr.
  assert (Hsz : fits_buffer (set_rt (set_connection (Some d) tid last) c)) by exact (eq_trans Hl (co_size _ Hc)).
  rewrite (mark_good_Ok _ _ Hsz). cbn [mbind res_bind].
  set (c1 := marked_good (rd_ok_at rd) (set_rt (set_connection (Some d) tid last) c)).
  assert (Hin : inputs_published (rt_points (cl_rt c)) d (sh_inputs (cl_share c1))).
  { unfold c1, marked_good. eapply publish_inputs; [apply Hok|apply (ro_read_all _ Hok)| |exact Hsto|done].
    cbn. rewrite Hl. apply (ro_last _ Hok). }
  assert (Hq : sh_status (cl_share c1) = mkModStatus Good (Some (rd_ok_at rd))).
  { unfold c1, marked_good, published. cbn. by destruct last. }
  assert (Hs1 : rt_stream (cl_rt c1) = Some d) by (unfold c1, marked_good, published; cbn; by destruct last).
  assert (Hsl : sh_input_slots (cl_share c1) = sh_input_slots (cl_share c)).
  { unfold c1, marked_good, published. cbn. by destruct last. }
  unfold transferred. case_bool_decide as Hg; cbn [orb].
  - exists c1, d. done.
  - destruct (write_pass_device (rd_ok_at rd) tid last Ht Hl) as (c' & d' & Hw & Hsh & Hd' & Ho). fold c1 in Hw, Hsh.
    rewrite Hw. exists c', d'. rewrite Hsh. done.
Qed.
End Poll.

(** The module is connected to [d], or connecting yields [d]. *)
Definition connects (c : Cell Device) (rd : Readings Device) (d : Device) : Prop :=
  rt_stream (cl_rt c) = Some d \/ rt_stream (cl_rt c) = None /\ rd_connect rd = Some d.

Lemma mark_bad_rt (c : Cell Device) : cl_rt (marked_bad c) = cl_rt c.
Proof. unfold marked_bad, published. cbn. by destruct (rt_last_inputs (cl_rt c)). Qed.

Lemma mark_bad_share (c : Cell Device) :
  sh_mailbox (cl_share (marked_bad c)) = sh_mailbox (cl_share c) /\
  sh_input_slots (cl_share (marked_bad c)) = sh_input_slots (cl_share c).
Proof. unfold marked_bad, published. cbn. by destruct (rt_last_inputs (cl_rt c)). Qed.

(** A poll, be the last data stale or not, the connection open or to be opened. *)
Lemma poll_device gate rd c d :
  cell_ok c -> conforming (rt_unit (cl_rt c)) d -> connects c rd d ->
  exists c' d', poll gate rd c = Ok c' /\ transferred gate (rd_ok_at rd) c c' d d'.
Proof.
  intros Hc Hd Hs. unfold poll.
  assert (Hstale : forall c1 : Cell Device, cell_ok c1 -> cl_rt c1 = cl_rt c ->
    sh_mailbox (cl_share c1) = sh_mailbox (cl_share c) /\ sh_input_slots (cl_share c1) = sh_input_slots (cl_share c) ->
    exists c' d', match rt_stream (cl_rt c1), rd_connect rd with
    | Some _, _ => poll_connected gate rd c1
    | None, Some st => poll_connected gate rd (set_rt (fun r => set_connection (Some st) (rt_tid r) (rt_last_inputs r) r) c1)
    | None, None => mark_bad (count_fail c1)
    end = Ok c' /\ transferred gate (rd_ok_at rd) c c' d d').
  { intros c1 Hc1 Hrt [Hm Hsl]. rewrite Hrt. destruct Hs as [Hs|[Hs Hcon]]; rewrite Hs; rewrite ?Hcon.
    - destruct (connected_transfers c1 d Hc1 ltac:(by rewrite Hrt) gate rd ltac:(by rewrite Hrt)) as (c' & d' & Hp & Ht).
      exists c', d'. split; [done|]. unfold transferred in *. by rewrite Hrt, Hm, Hsl in Ht.
    - set (c2 := set_rt _ c1). assert (H2 : cell_ok c2) by by apply set_connection_ok.
      destruct (connected_transfers c2 d H2) with (gate := gate) (rd := rd) as (c' & d' & Hp & Ht);
        [by unfold c2; cbn; rewrite Hrt|done|].
      exists c', d'. split; [done|]. unfold transferred in *. cbn in Ht. by rewrite Hrt, Hm, Hsl in Ht. }
  destruct (comms_stale _ c).
  - destruct (mark_bad_ok c Hc) as [-> Hbad]. apply Hstale; [done|apply mark_bad_rt|apply mark_bad_share].
  - by apply Hstale.
Qed.
