(* ===== verification/ModbusPlant.v ===== *)
(** * Modbus: between the scan and the plant

    The scan-facing driver and the worker of src/crates/plc-io-modbus/src/driver.rs
    together: the image the scan hands to [apply_outputs] reaches the device with the
    next poll, and what the device holds reaches the image of inputs. *)
From S2P Require Import Prelude Text Float32 Float64 PlcTypes IoImage IoMap IoBuffer.
From S2P Require Import ModbusPlan ModbusConvert ModbusCodec ModbusDriver ModbusBridge ModbusDevice ModbusTransfer.

(** ** Slots *)

(** The slot tables of a share list the slots of the points by position. *)
Record slots_ok (points : list PlannedPoint) (h : ModuleShare) : Prop := {
  sl_in p pos : p ∈ points -> pp_input_pos p = Some pos -> sh_input_slots h !! pos = Some (pp_slot p);
  sl_out p pos : p ∈ points -> pp_output_pos p = Some pos -> sh_output_slots h !! pos = Some (pp_slot p) }.

Lemma set_at_Ok_inv {A} (l l' : list A) pos x : set_at l pos x = Ok l' -> (pos < length l)%nat /\ l' = <[pos := x]> l.
Proof. unfold set_at. destruct (Nat.ltb_spec pos (length l)); [|done]. intros H1%Ok_inj. by subst. Qed.

Lemma fill_positions_step p ps ins outs defs r :
  fill_positions (p :: ps) ins outs defs = Ok r ->
  exists ins1 outs1 defs1, fill_positions ps ins1 outs1 defs1 = Ok r /\
    match pp_input_pos p with Some pos => (pos < length ins)%nat /\ ins1 = <[pos := pp_slot p]> ins | None => ins1 = ins end /\
    match pp_output_pos p with Some pos => (pos < length outs)%nat /\ outs1 = <[pos := pp_slot p]> outs | None => outs1 = outs end.
Proof.
  intros Hr. cbn in Hr. apply res_bind_Ok in Hr as ([ins1 defs1] & H1 & Hr). apply res_bind_Ok in Hr as (outs1 & H2 & Hr).
  exists ins1, outs1, defs1. split; [exact Hr|]. split.
  - destruct (pp_input_pos p); [|by apply Ok_inj in H1; injection H1 as -> _].
    apply res_bind_Ok in H1 as (s & Hs & H1). apply res_bind_Ok in H1 as (e & _ & H1). apply Ok_inj in H1. injection H1 as <- <-.
    by apply set_at_Ok_inv in Hs.
  - destruct (pp_output_pos p); [by apply set_at_Ok_inv in H2|by apply Ok_inj in H2].
Qed.

Lemma fill_positions_keep ps ins outs defs ins' outs' defs' pos :
  fill_positions ps ins outs defs = Ok (ins', outs', defs') ->
  (pos ∉ omap pp_input_pos ps -> ins' !! pos = ins !! pos) /\ (pos ∉ omap pp_output_pos ps -> outs' !! pos = outs !! pos).
Proof.
  revert ins outs defs. induction ps as [|p ps IH]; intros ins outs defs Hr.
  { cbn in Hr. apply Ok_inj in Hr. by simplify_eq. }
  apply fill_positions_step in Hr as (ins1 & outs1 & defs1 & Hr & Hi & Ho). destruct (IH _ _ _ Hr) as [I1 I2].
  cbn [omap list_omap]. split; intros Hn.
  - destruct (pp_input_pos p) as [q|]; [|by rewrite I1, Hi]. apply not_elem_of_cons in Hn as [Hne Hn].
    destruct Hi as [_ ->]. by rewrite I1, list_lookup_insert_ne by done.
  - destruct (pp_output_pos p) as [q|]; [|by rewrite I2, Ho]. apply not_elem_of_cons in Hn as [Hne Hn].
    destruct Ho as [_ ->]. by rewrite I2, list_lookup_insert_ne by done.
Qed.

Lemma fill_positions_slots ps ins outs defs ins' outs' defs' :
  NoDup (omap pp_input_pos ps) -> NoDup (omap pp_output_pos ps) ->
  fill_positions ps ins outs defs = Ok (ins', outs', defs') ->
  forall p pos, p ∈ ps ->
    (pp_input_pos p = Some pos -> ins' !! pos = Some (pp_slot p)) /\
    (pp_output_pos p = Some pos -> outs' !! pos = Some (pp_slot p)).
Proof.
  revert ins outs defs. induction ps as [|p ps IH]; intros ins outs defs N1 N2 Hr q pos Hq; [by apply elem_of_nil in Hq|].
  apply fill_positions_step in Hr as (ins1 & outs1 & defs1 & Hr & Hi & Ho). cbn [omap list_omap] in N1, N2.
  destruct (fill_positions_keep _ _ _ _ _ _ _ pos Hr) as [K1 K2]. apply elem_of_cons in Hq as [->|Hq].
  - split; intros Hp; rewrite Hp in *.
    + apply NoDup_cons in N1 as [Hn _]. destruct Hi as [Hl ->]. rewrite K1 by done. by apply list_lookup_insert_eq.
    + apply NoDup_cons in N2 as [Hn _]. destruct Ho as [Hl ->]. rewrite K2 by done. by apply list_lookup_insert_eq.
  - eapply (IH ins1 outs1 defs1); try done.
    + destruct (pp_input_pos p); [by apply NoDup_cons in N1 as [_ ?]|done].
    + destruct (pp_output_pos p); [by apply NoDup_cons in N2 as [_ ?]|done].
Qed.

(** Setting up a module fills the slot tables. *)
Lemma split_module_slots {S} now pm share (rt : ModRt S) :
  points_ok (pm_points pm) -> split_module now pm = Ok (share, rt) ->
  slots_ok (pm_points pm) share /\ rt_stream rt = None /\ sh_mailbox share = mkMail false false (replicate (length (omap pp_output_pos (pm_points pm))) (PBool false)).
Proof.
  intros [_ _ [ni Hi] [no Ho]] Hr. unfold split_module in Hr. apply res_bind_Ok in Hr as ([[ins outs] defs] & Hf & Hr).
  apply res_bind_Ok in Hr as (reads & _ & Hr). apply res_bind_Ok in Hr as (coils & _ & Hr).
  apply res_bind_Ok in Hr as (regs & _ & Hr). apply Ok_inj in Hr. injection Hr as <- <-.
  assert (N1 : NoDup (omap pp_input_pos (pm_points pm))) by (rewrite Hi; apply NoDup_ListNoDup, List.seq_NoDup).
  assert (N2 : NoDup (omap pp_output_pos (pm_points pm))) by (rewrite Ho; apply NoDup_ListNoDup, List.seq_NoDup).
  pose proof (fill_positions_slots _ _ _ _ _ _ _ N1 N2 Hf) as Hs. split; [|split; [done|done]].
  split; intros p pos Hp; by apply Hs.
Qed.

(** ** Inputs of the device to the image *)

Lemma overlay_input_size snap q i slot u :
  length (iu_values (Bridge.overlay_input snap q i slot u)) = length (iu_values u) /\
  length (iu_quality (Bridge.overlay_input snap q i slot u)) = length (iu_quality u).
Proof.
  unfold Bridge.overlay_input. destruct (_ && _); [|done]. cbn. split; [|apply length_insert].
  destruct (sn_values snap !! i); by rewrite ?length_insert.
Qed.

Lemma overlay_input_other snap q i slot s u :
  s <> slot -> iu_values (Bridge.overlay_input snap q i slot u) !! s = iu_values u !! s /\
  iu_quality (Bridge.overlay_input snap q i slot u) !! s = iu_quality u !! s.
Proof.
  intros Hs. unfold Bridge.overlay_input. destruct (_ && _); [|done]. cbn. split; [|by rewrite list_lookup_insert_ne by congruence].
  destruct (sn_values snap !! i); [by rewrite list_lookup_insert_ne by congruence|done].
Qed.

Lemma overlay_input_at snap q i slot u v q' :
  (slot < length (iu_values u))%nat -> (slot < length (iu_quality u))%nat ->
  sn_values snap !! i = Some v -> sn_quality snap !! i = Some q' ->
  iu_values (Bridge.overlay_input snap q i slot u) !! slot = Some v /\
  iu_quality (Bridge.overlay_input snap q i slot u) !! slot = Some (if Qual.is_bad q then Bad else q').
Proof.
  intros H1 H2 Hv Hq. unfold Bridge.overlay_input.
  rewrite (proj2 (Nat.ltb_lt _ _) H1), (proj2 (Nat.ltb_lt _ _) H2), Hv, Hq. cbn. by rewrite !list_lookup_insert_eq.
Qed.

Lemma overlay_slots_size snap q i slots u :
  length (iu_values (Bridge.overlay_slots snap q i slots u)) = length (iu_values u) /\
  length (iu_quality (Bridge.overlay_slots snap q i slots u)) = length (iu_quality u).
Proof.
  revert i u. induction slots as [|t slots IH]; intros i u; cbn; [done|].
  destruct (IH (Datatypes.S i) (Bridge.overlay_input snap q i t u)) as [-> ->]. apply overlay_input_size.
Qed.

Lemma overlay_slots_other snap q i slots s u :
  s ∉ slots -> iu_values (Bridge.overlay_slots snap q i slots u) !! s = iu_values u !! s /\
  iu_quality (Bridge.overlay_slots snap q i slots u) !! s = iu_quality u !! s.
Proof.
  revert i u. induction slots as [|t slots IH]; intros i u Hs; cbn; [done|]. apply not_elem_of_cons in Hs as [Hne Hs].
  destruct (IH (Datatypes.S i) (Bridge.overlay_input snap q i t u) Hs) as [-> ->]. by apply overlay_input_other.
Qed.

Lemma overlay_slots_at snap q i slots k s u v q' :
  NoDup slots -> slots !! k = Some s -> (s < length (iu_values u))%nat -> (s < length (iu_quality u))%nat ->
  sn_values snap !! (i + k)%nat = Some v -> sn_quality snap !! (i + k)%nat = Some q' ->
  iu_values (Bridge.overlay_slots snap q i slots u) !! s = Some v /\
  iu_quality (Bridge.overlay_slots snap q i slots u) !! s = Some (if Qual.is_bad q then Bad else q').
Proof.
  revert i k u. induction slots as [|t slots IH]; intros i k u Hn Hk H1 H2 Hv Hq; [done|].
  apply NoDup_cons in Hn as [Ht Hn]. cbn [Bridge.overlay_slots]. destruct k as [|k]; cbn in Hk.
  - injection Hk as ->. rewrite Nat.add_0_r in Hv, Hq.
    destruct (overlay_slots_other snap q (Datatypes.S i) slots s (Bridge.overlay_input snap q i s u) Ht) as [-> ->].
    by apply overlay_input_at.
  - destruct (overlay_input_size snap q i t u) as [L1 L2].
    apply (IH (Datatypes.S i) k); try done; [by rewrite L1|by rewrite L2|by rewrite Nat.add_succ_comm|by rewrite Nat.add_succ_comm].
Qed.

(** Slots of different points are different, within a module and between modules. *)
Definition slots_apart (hs : list ModuleShare) : Prop := NoDup (flat_map sh_input_slots hs).

Definition overlay_shares (now : Z) (hs : list ModuleShare) (u : InputUpdate) : InputUpdate :=
  fold_left (fun u h => Bridge.overlay_slots (sh_inputs h) (effective_quality now h) 0 (sh_input_slots h) u) hs u.

Lemma overlay_shares_cons now h hs u :
  overlay_shares now (h :: hs) u =
  overlay_shares now hs (Bridge.overlay_slots (sh_inputs h) (effective_quality now h) 0 (sh_input_slots h) u).
Proof. done. Qed.

Lemma overlay_shares_other now hs s u :
  s ∉ flat_map sh_input_slots hs ->
  iu_values (overlay_shares now hs u) !! s = iu_values u !! s /\
  iu_quality (overlay_shares now hs u) !! s = iu_quality u !! s.
Proof.
  revert u. induction hs as [|g hs IH]; intros u Hs; [done|]. rewrite overlay_shares_cons. cbn in Hs.
  apply not_elem_of_app in Hs as [Hs1 Hs2].
  destruct (IH (Bridge.overlay_slots (sh_inputs g) (effective_quality now g) 0 (sh_input_slots g) u) Hs2) as [-> ->].
  by apply overlay_slots_other.
Qed.

Lemma overlay_shares_at now hs h k s u v q' :
  slots_apart hs -> h ∈ hs -> sh_input_slots h !! k = Some s ->
  (s < length (iu_values u))%nat -> (s < length (iu_quality u))%nat ->
  sn_values (sh_inputs h) !! k = Some v -> sn_quality (sh_inputs h) !! k = Some q' ->
  iu_values (overlay_shares now hs u) !! s = Some v /\
  iu_quality (overlay_shares now hs u) !! s = Some (if Qual.is_bad (effective_quality now h) then Bad else q').
Proof.
  unfold slots_apart. intros Hn Hh Hk H1 H2 Hv Hq. revert u H1 H2 Hn.
  induction Hh as [h hs|h g hs Hh IH]; intros u H1 H2 Hn; cbn [flat_map] in Hn; apply NoDup_app in Hn as (Ng & Hx & Hn);
    rewrite overlay_shares_cons.
  - match goal with |- context [overlay_shares _ _ ?u0] => destruct (overlay_shares_other now hs s u0) as [-> ->] end.
    + apply Hx. by eapply list_elem_of_lookup_2.
    + by apply (overlay_slots_at _ _ 0 _ k).
  - destruct (overlay_slots_size (sh_inputs g) (effective_quality now g) 0 (sh_input_slots g) u) as [L1 L2].
    apply IH; try done; [by rewrite L1|by rewrite L2].
Qed.

(** The data of a module counts as good at [now]. *)
Lemma effective_good now h at_ :
  sh_status h = mkModStatus Good (Some at_) -> sat_sub_u now at_ <= sh_stale h -> effective_quality now h = Good.
Proof. intros Hs Hf. unfold effective_quality. rewrite Hs. cbn. by rewrite (proj2 (Z.ltb_ge _ _) Hf). Qed.

Lemma connects_share (f : ModuleShare -> ModuleShare) c rd d : connects c rd d -> connects (set_share f c) rd d.
Proof. done. Qed.

(** C39: What the device holds at the time of a poll is what the scan's next image of
    inputs has at the slots of the module, with good quality, while the data is fresh. *)
Theorem inputs_reach_scan gate rd (c : Cell Device) d :
  cell_ok c -> slots_ok (rt_points (cl_rt c)) (cl_share c) -> conforming (rt_unit (cl_rt c)) d -> connects c rd d ->
  exists c', poll gate rd c = Ok c' /\
    forall b u p pos,
      cl_share c' ∈ br_shares b -> slots_apart (br_shares b) -> br_running b = true -> Gate.mode (br_gate b) <> Sim ->
      sat_sub_u (br_now b) (rd_ok_at rd) <= sh_stale (cl_share c') ->
      p ∈ rt_points (cl_rt c) -> pp_input_pos p = Some pos ->
      (pp_slot p < length (iu_values u))%nat -> (pp_slot p < length (iu_quality u))%nat ->
      exists u', Bridge.poll_inputs b u = (b, u', Ok tt) /\
        iu_values u' !! pp_slot p = Some (field_value d p) /\ iu_quality u' !! pp_slot p = Some Good.
Proof.
  intros Hc Hsl Hd Hcon. destruct (poll_device gate rd c d Hc Hd Hcon) as (c' & d' & Hp & _ & Hslots & Hst & Hin & _).
  exists c'. split; [done|]. intros b u p pos Hh Hap Hrun Hg Hf Hpt Hpos L1 L2.
  destruct (Hin p pos Hpt Hpos) as [Hv Hq]. pose proof (sl_in _ _ Hsl p pos Hpt Hpos) as Hk. rewrite <-Hslots in Hk.
  destruct (overlay_shares_at (br_now b) _ _ _ _ u _ _ Hap Hh Hk L1 L2 Hv Hq) as [Ov Oq].
  rewrite (effective_good _ _ _ Hst Hf) in Oq.
  eexists. split; [unfold Bridge.poll_inputs; rewrite Hrun, bool_decide_eq_false_2 by done; done|done].
Qed.

(** ** Outputs of the image to the device *)

(** The value the scan commands at the slot of an output, or its safe value. *)
Definition commanded (image : OutputImage) (p : PlannedPoint) : PlcValue :=
  if oi_force_safe image then pp_safe p else default (PBool false) (oi_values image !! pp_slot p).

(** The [i]-th module of a running bridge finds the image in its mailbox. *)
Lemma apply_outputs_delivers b image i h :
  br_running b = true -> br_shares b !! i = Some h ->
  exists b', Bridge.apply_outputs b image = (b', Ok tt) /\
    br_shares b' !! i = Some (set_mailbox (Bridge.mail_of image h) h).
Proof.
  intros Hr Hi. unfold Bridge.apply_outputs. rewrite Hr. eexists. split; [done|]. cbn [br_shares set_br_shares].
  change (map ?f) with (fmap (M := list) f). by rewrite list_lookup_fmap, Hi.
Qed.

Lemma selected_commanded image h points p :
  Forall point_ok points -> slots_ok points h -> p ∈ points -> pp_direction p = DirOutput ->
  selected (Bridge.mail_of image h) (oi_force_safe image) p = commanded image p.
Proof.
  intros Hok Hs Hp Hdir. unfold selected, commanded. destruct (oi_force_safe image); [done|].
  rewrite Forall_forall in Hok. destruct (po_field _ (Hok p Hp)) as [(Hd & _)|(_ & [pos Hpos] & _)]; [congruence|].
  rewrite Hpos. cbn. pose proof (sl_out _ _ Hs p pos Hp Hpos) as Hk.
  change (@map nat PlcValue) with (@fmap list _ nat PlcValue). by rewrite list_lookup_fmap, Hk.
Qed.

(** C38: The image of outputs the scan applies is what the device has after the module's
    next poll. [apply_outputs] of a running bridge succeeds, and when the worker then polls
    the module on what is shared with it, outside SIM and over a connection to the
    device, every output of the device is as the image has it: the value at its slot, or
    its safe value when the image forces it, at its address; no other address of the
    device changed. This is so whatever the module's quality and policy were before the poll:
    the poll reads first and marks the module good, so neither branch of the README for a
    module that is Bad (hold_last writes nothing, force_safe writes safe_state) is taken. *)
Theorem outputs_reach_device gate rd image (b : Bridge) (i : nat) (c : Cell Device) d :
  cell_ok c -> slots_ok (rt_points (cl_rt c)) (cl_share c) -> conforming (rt_unit (cl_rt c)) d -> connects c rd d ->
  Gate.mode gate <> Sim -> br_running b = true -> br_shares b !! i = Some (cl_share c) ->
  exists b' h c' d', Bridge.apply_outputs b image = (b', Ok tt) /\ br_shares b' !! i = Some h /\
    poll gate rd (set_share (fun _ => h) c) = Ok c' /\ rt_stream (cl_rt c') = Some d' /\
    outputs_written (rt_points (cl_rt c)) (commanded image) d d'.
Proof.
  intros Hc Hsl Hd Hcon Hg Hrun Hi. destruct (apply_outputs_delivers b image i _ Hrun Hi) as (b' & Hb & Hi').
  set (h := set_mailbox _ _) in Hi'. set (c1 := set_share (fun _ => h) c).
  assert (Hc1 : cell_ok c1) by by destruct Hc as [H1 [H2 H3 H4] H5 H6].
  destruct (poll_device gate rd c1 d Hc1 Hd (connects_share _ _ _ _ Hcon)) as (c' & d' & Hp & Hs & _ & _ & _ & Ho).
  exists b', h, c', d'. split; [done|]. split; [done|]. split; [done|]. split; [done|].
  rewrite bool_decide_eq_false_2 in Ho by done.
  eapply outputs_written_ext; [|exact Ho]. intros p Hpt Hdir.
  eapply (selected_commanded image (cl_share c)); [apply (ps_ok _ (ro_points _ (co_rt _ Hc)))|done..].
Qed.

(** ** The module of [demo_modbus] *)

Definition demo_device : Device :=
  mkDevice 17 (fun _ => false) (fun a => a =? 2) (fun a => if a =? 12 then 5 else 0) (fun a => if a =? 0 then 42 else 0) [].

Definition demo_readings : Readings Device := mkReadings 0 100 100 (Some demo_device).

Lemma demo_conforming : conforming 17 demo_device.
Proof. split; [done|done|..]; intros a; cbn; case_match; unfold u_range; lia. Qed.

(** The module is planned and set up. *)
Lemma demo_module_ready :
  exists pm share (rt : ModRt Device), demo_planned = Ok [pm] /\ split_module 0 pm = Ok (share, rt) /\
    cell_ok (mkCell share rt 0) /\ slots_ok (rt_points rt) share /\ rt_unit rt = 17 /\ rt_stream rt = None.
Proof.
  eassert (Hr : resolve demo_modbus = Ok _) by (vm_compute; reflexivity).
  match type of Hr with _ = Ok ?r =>
    eassert (Hv : validate_map demo_modbus_config demo_modbus r = Ok [_]) by (vm_compute; reflexivity) end.
  match type of Hv with _ = Ok [?m] => set (pm := m) in *; assert (Hok : Forall (fun pm => points_ok (pm_points pm)) [pm]) end.
  { eapply validate_modules_ok; [apply demo_bits|exact Hv]. }
  apply Forall_cons in Hok as [Hok _].
  destruct (split_module_ok (S := Device) 0 pm 0 Hok) as (share & rt & Hs & Hc & Hp & Hu).
  destruct (split_module_slots 0 pm share rt Hok Hs) as (Hsl & Hst & _).
  exists pm, share, rt. split; [unfold demo_planned; rewrite Hr; exact Hv|]. split; [exact Hs|]. split; [exact Hc|].
  rewrite Hp. split; [exact Hsl|]. split; [exact Hu|exact Hst].
Qed.

Definition demo_image : OutputImage := mkOutputs [PBool true; PDint 70000; PBool true] false.

(** The scan's driver, running, over one module. *)
Definition demo_bridge (share : ModuleShare) : Bridge := mkBridge [share] false true true (mode_code Run) 100.

(** One image applied, then one poll. *)
Definition apply_then_poll (share : ModuleShare) (rt : ModRt Device) : res Fail (Cell Device) :=
  match br_shares (Bridge.apply_outputs (demo_bridge share) demo_image).1 with
  | [h] => poll (mode_code Run) demo_readings (mkCell h rt 0)
  | _ => Panic
  end.

Lemma outputs_reach_device_witness :
  exists pm share rt b' h c' d', demo_planned = Ok [pm] /\ split_module 0 pm = Ok (share, rt) /\
    Bridge.apply_outputs (demo_bridge share) demo_image = (b', Ok tt) /\ br_shares b' !! 0%nat = Some h /\
    poll (mode_code Run) demo_readings (set_share (fun _ => h) (mkCell share rt 0)) = Ok c' /\
    outputs_written (rt_points rt) (commanded demo_image) demo_device d'.
Proof.
  destruct demo_module_ready as (pm & share & rt & Hpl & Hs & Hc & Hsl & Hu & Hst).
  destruct (outputs_reach_device (mode_code Run) demo_readings demo_image (demo_bridge share) 0
              (mkCell share rt 0) demo_device Hc Hsl) as (b' & h & c' & d' & Hb & Hi & Hp & _ & Ho).
  - cbn. rewrite Hu. exact demo_conforming.
  - right. split; [exact Hst|reflexivity].
  - discriminate.
  - reflexivity.
  - reflexivity.
  - exists pm, share, rt, b', h, c', d'. exact (conj Hpl (conj Hs (conj Hb (conj Hi (conj Hp Ho))))).
Defined.

Lemma inputs_reach_scan_witness :
  exists pm share rt c', demo_planned = Ok [pm] /\ split_module 0 pm = Ok (share, rt) /\
    poll (mode_code Run) demo_readings (mkCell share rt 0) = Ok c'.
Proof.
  destruct demo_module_ready as (pm & share & rt & Hpl & Hs & Hc & Hsl & Hu & Hst).
  destruct (inputs_reach_scan (mode_code Run) demo_readings (mkCell share rt 0) demo_device Hc Hsl) as (c' & Hp & _).
  - cbn. rewrite Hu. exact demo_conforming.
  - right. split; [exact Hst|reflexivity].
  - exists pm, share, rt, c'. exact (conj Hpl (conj Hs Hp)).
Defined.

(** The lamp is on, the valve has 70000 in two registers, bit 3 of register 12 is set
    beside the bits the device had. *)
Example demo_poll :
  match demo_planned with
  | Ok [pm] =>
      match split_module 0 pm with
      | Ok (share, rt) =>
          match apply_then_poll share rt with
          | Ok c =>
              (fun d => (table (dv_coils d) 3 3, table (dv_holding d) 10 3)) <$> rt_stream (cl_rt c) =
                Some ([false; true; false], [1; 4464; 13]) /\
              sn_values (sh_inputs (cl_share c)) = [PBool true; PInt 42]
          | _ => False
          end
      | _ => False
      end
  | _ => False
  end.
Proof. vm_compute. split; reflexivity. Qed.
