(* ===== verification/IrTypes.v ===== *)
(** * The IR data model

    Types, opcodes, primitive ids and modules of crate [plc-ir]
    (src/crates/plc-ir/src/value.rs, opcode.rs, module.rs, error.rs). *)
From S2P Require Import Prelude.

(** ** Value type tags (value.rs) *)

Inductive IrType := TBool | TInt | TDint | TReal | TTime | TLint.

#[export] Instance IrType_eq_dec : EqDecision IrType.
Proof. solve_decision. Defined.

Module IrTy.
(** [ty as u8]. *)
Definition as_u8 (t : IrType) : Z :=
  match t with TBool => 0 | TInt => 1 | TDint => 2 | TReal => 3 | TTime => 4 | TLint => 5 end.

Definition from_u8 (v : Z) : option IrType :=
  match v with
  | 0 => Some TBool | 1 => Some TInt | 2 => Some TDint
  | 3 => Some TReal | 4 => Some TTime | 5 => Some TLint
  | _ => None
  end.

Definition is_numeric (t : IrType) : bool :=
  match t with TInt | TDint | TReal | TTime | TLint => true | TBool => false end.

Definition is_integral (t : IrType) : bool :=
  match t with TBool | TInt | TDint | TTime | TLint => true | TReal => false end.

Definition byte_width (t : IrType) : nat :=
  match t with TBool => 1 | TInt => 2 | TDint | TReal | TTime => 4 | TLint => 8 end.

Lemma ty_from_as t : from_u8 (as_u8 t) = Some t.
Proof. by destruct t. Qed.

Lemma ty_as_from v t : from_u8 v = Some t -> v = as_u8 t.
Proof. unfold from_u8. repeat case_match; naive_solver. Qed.

Lemma ty_as_u8_range t : 0 <= as_u8 t < 6.
Proof. destruct t; simpl; lia. Qed.

Lemma byte_width_pos t : (1 <= byte_width t <= 8)%nat.
Proof. destruct t; simpl; lia. Qed.
End IrTy.

(** ** Opcodes (opcode.rs) *)

Inductive Opcode :=
  | Nop | Halt | PushIDint | PushIReal | PushIBool | PushTime
  | LdData | StData | LdRetain | StRetain | LdI | StQ | LdQ | LdIq
  | Add | Sub | Mul | Div | Neg
  | And | Or | Xor | Not
  | Eq | Ne | Lt | Le | Gt | Ge
  | Jmp | JmpIf | JmpIfNot
  | CallFb | Ret | Conv.

#[export] Instance Opcode_eq_dec : EqDecision Opcode.
Proof. solve_decision. Defined.

Module Op.
(** [op as u8], the discriminants of the [repr(u8)] enum. *)
Definition as_u8 (op : Opcode) : Z :=
  match op with
  | Nop => 0x00 | Halt => 0x01 | PushIDint => 0x02 | PushIReal => 0x03
  | PushIBool => 0x04 | PushTime => 0x05
  | LdData => 0x10 | StData => 0x11 | LdRetain => 0x12 | StRetain => 0x13
  | LdI => 0x14 | StQ => 0x15 | LdQ => 0x16 | LdIq => 0x17
  | Add => 0x20 | Sub => 0x21 | Mul => 0x22 | Div => 0x23 | Neg => 0x24
  | And => 0x28 | Or => 0x29 | Xor => 0x2A | Not => 0x2B
  | Eq => 0x30 | Ne => 0x31 | Lt => 0x32 | Le => 0x33 | Gt => 0x34 | Ge => 0x35
  | Jmp => 0x40 | JmpIf => 0x41 | JmpIfNot => 0x42
  | CallFb => 0x50 | Ret => 0x51 | Conv => 0x60
  end.

Definition from_u8 (v : Z) : option Opcode :=
  match v with
  | 0x00 => Some Nop | 0x01 => Some Halt | 0x02 => Some PushIDint | 0x03 => Some PushIReal
  | 0x04 => Some PushIBool | 0x05 => Some PushTime
  | 0x10 => Some LdData | 0x11 => Some StData | 0x12 => Some LdRetain | 0x13 => Some StRetain
  | 0x14 => Some LdI | 0x15 => Some StQ | 0x16 => Some LdQ | 0x17 => Some LdIq
  | 0x20 => Some Add | 0x21 => Some Sub | 0x22 => Some Mul | 0x23 => Some Div | 0x24 => Some Neg
  | 0x28 => Some And | 0x29 => Some Or | 0x2A => Some Xor | 0x2B => Some Not
  | 0x30 => Some Eq | 0x31 => Some Ne | 0x32 => Some Lt | 0x33 => Some Le
  | 0x34 => Some Gt | 0x35 => Some Ge
  | 0x40 => Some Jmp | 0x41 => Some JmpIf | 0x42 => Some JmpIfNot
  | 0x50 => Some CallFb | 0x51 => Some Ret | 0x60 => Some Conv
  | _ => None
  end.

#[global] Arguments from_u8 : simpl never.

Local Open Scope string_scope.
Definition mnemonic (op : Opcode) : string :=
  match op with
  | Nop => "NOP" | Halt => "HALT" | PushIDint => "PUSHI_DINT" | PushIReal => "PUSHI_REAL"
  | PushIBool => "PUSHI_BOOL" | PushTime => "PUSH_TIME"
  | LdData => "LD_DATA" | StData => "ST_DATA" | LdRetain => "LD_RETAIN" | StRetain => "ST_RETAIN"
  | LdI => "LD_I" | StQ => "ST_Q" | LdQ => "LD_Q" | LdIq => "LD_IQ"
  | Add => "ADD" | Sub => "SUB" | Mul => "MUL" | Div => "DIV" | Neg => "NEG"
  | And => "AND" | Or => "OR" | Xor => "XOR" | Not => "NOT"
  | Eq => "EQ" | Ne => "NE" | Lt => "LT" | Le => "LE" | Gt => "GT" | Ge => "GE"
  | Jmp => "JMP" | JmpIf => "JMP_IF" | JmpIfNot => "JMP_IF_NOT"
  | CallFb => "CALL_FB" | Ret => "RET" | Conv => "CONV"
  end.

(** [char::to_ascii_uppercase] and [str::to_ascii_uppercase]. *)
Definition ascii_upper (c : Ascii.ascii) : Ascii.ascii :=
  let n := Ascii.N_of_ascii c in
  if (97 <=? n)%N && (n <=? 122)%N then Ascii.ascii_of_N (n - 32) else c.
Fixpoint to_ascii_uppercase (s : string) : string :=
  match s with
  | EmptyString => EmptyString
  | String c s => String (ascii_upper c) (to_ascii_uppercase s)
  end.

Definition from_mnemonic (s : string) : option Opcode :=
  str_match (to_ascii_uppercase s) [
    ("NOP", Nop); ("HALT", Halt); ("PUSHI_DINT", PushIDint); ("PUSHI_REAL", PushIReal);
    ("PUSHI_BOOL", PushIBool); ("PUSH_TIME", PushTime); ("LD_DATA", LdData);
    ("ST_DATA", StData); ("LD_RETAIN", LdRetain); ("ST_RETAIN", StRetain); ("LD_I", LdI);
    ("ST_Q", StQ); ("LD_Q", LdQ); ("LD_IQ", LdIq); ("ADD", Add); ("SUB", Sub); ("MUL", Mul);
    ("DIV", Div); ("NEG", Neg); ("AND", And); ("OR", Or); ("XOR", Xor); ("NOT", Not);
    ("EQ", Eq); ("NE", Ne); ("LT", Lt); ("LE", Le); ("GT", Gt); ("GE", Ge); ("JMP", Jmp);
    ("JMP_IF", JmpIf); ("JMP_IF_NOT", JmpIfNot); ("CALL_FB", CallFb); ("RET", Ret);
    ("CONV", Conv) ].
Local Close Scope string_scope.

Lemma op_from_as op : from_u8 (as_u8 op) = Some op.
Proof. by destruct op. Qed.

Lemma mnemonic_upper op : to_ascii_uppercase (mnemonic op) = mnemonic op.
Proof. by destruct op. Qed.

Lemma op_as_from v op : from_u8 v = Some op -> v = as_u8 op.
Proof. unfold from_u8. repeat case_match; naive_solver. Qed.

Lemma op_as_u8_range op : 0 <= as_u8 op < 256.
Proof. destruct op; simpl; lia. Qed.
End Op.

(** ** Primitive function blocks (opcode.rs) *)

Inductive PrimitiveId := PTon | PTof | PTp | PCtu | PCtd | PRs | PSr | PRTrig | PFTrig | PPid.

#[export] Instance PrimitiveId_eq_dec : EqDecision PrimitiveId.
Proof. solve_decision. Defined.

Module Prim.
(** [id as u32]. *)
Definition as_u32 (p : PrimitiveId) : Z :=
  match p with
  | PTon => 1 | PTof => 2 | PTp => 3 | PCtu => 4 | PCtd => 5
  | PRs => 6 | PSr => 7 | PRTrig => 8 | PFTrig => 9 | PPid => 10
  end.

(** The [match] on [fb_id] that the verifier (verify.rs) and the VM
    (exec.rs) both carry. *)
Definition of_fb_id (n : Z) : option PrimitiveId :=
  match n with
  | 1 => Some PTon | 2 => Some PTof | 3 => Some PTp | 4 => Some PCtu | 5 => Some PCtd
  | 6 => Some PRs | 7 => Some PSr | 8 => Some PRTrig | 9 => Some PFTrig | 10 => Some PPid
  | _ => None
  end.

Local Open Scope string_scope.
Definition from_name (s : string) : option PrimitiveId :=
  str_match (Op.to_ascii_uppercase s) [
    ("TON", PTon); ("TOF", PTof); ("TP", PTp); ("CTU", PCtu); ("CTD", PCtd); ("RS", PRs);
    ("SR", PSr); ("R_TRIG", PRTrig); ("RTRIG", PRTrig); ("F_TRIG", PFTrig); ("FTRIG", PFTrig);
    ("PID", PPid) ].

Definition name (p : PrimitiveId) : string :=
  match p with
  | PTon => "TON" | PTof => "TOF" | PTp => "TP" | PCtu => "CTU" | PCtd => "CTD"
  | PRs => "RS" | PSr => "SR" | PRTrig => "R_TRIG" | PFTrig => "F_TRIG" | PPid => "PID"
  end.
Local Close Scope string_scope.

Definition input_count (p : PrimitiveId) : nat :=
  match p with
  | PTon | PTof | PTp => 2
  | PCtu => 3
  | PCtd => 3
  | PRs | PSr => 2
  | PRTrig | PFTrig => 1
  | PPid => 3
  end.

Definition output_count (p : PrimitiveId) : nat :=
  match p with
  | PTon | PTof | PTp => 2
  | PCtu | PCtd => 2
  | PRs | PSr => 1
  | PRTrig | PFTrig => 1
  | PPid => 1
  end.

Lemma of_as p : of_fb_id (as_u32 p) = Some p.
Proof. by destruct p. Qed.
End Prim.

(** ** Errors (error.rs): the constructors with their numbers; a message is the
    fixed part of the formatted text. *)

Inductive IrError :=
  | IrSpbc (msg : string)
  | IrUnknown (what : string)
  | IrRetainLayout (msg : string).

Inductive VerifyError := Rule (rule : Z) (msg : string).

(** ** Modules (module.rs) *)

Definition IR_MAJOR : Z := 0.
Definition IR_MINOR : Z := 1.
Definition SPBC_MAGIC : bytes := bstr "SPBC".

(** [name] is the UTF-8 bytes of the Rust [String]. *)
Record EntryPoint := { e_name : bytes; e_pc : Z; e_is_user_fb : bool }.

Record IrModule := {
  ir_major : Z;
  ir_minor : Z;
  const_size : Z;
  data_size : Z;
  retain_size : Z;
  input_slots : Z;
  output_slots : Z;
  entries : list EntryPoint;
  const_data : bytes;
  code : bytes }.

Record SpbcHeader := {
  h_ir_major : Z; h_ir_minor : Z; h_code_size : Z; h_const_size : Z; h_data_size : Z;
  h_retain_size : Z; h_input_slots : Z; h_output_slots : Z; h_entry_count : Z }.

Definition header (m : IrModule) : SpbcHeader := {|
  h_ir_major := ir_major m;
  h_ir_minor := ir_minor m;
  h_code_size := wrap_u 32 (Z.of_nat (length (code m)));
  h_const_size := const_size m;
  h_data_size := data_size m;
  h_retain_size := retain_size m;
  h_input_slots := input_slots m;
  h_output_slots := output_slots m;
  h_entry_count := wrap_u 32 (Z.of_nat (length (entries m))) |}.

(** ** Properties *)

(** A source mnemonic selects an opcode exactly when its upper-case form is
    the mnemonic the opcode prints as: printing and reading are inverse, two
    opcodes never share a mnemonic, and letter case makes no difference. *)
Lemma mnemonic_roundtrip (s : string) (op : Opcode) :
  Op.from_mnemonic s = Some op <-> Op.to_ascii_uppercase s = Op.mnemonic op.
Proof.
  unfold Op.from_mnemonic. generalize (Op.to_ascii_uppercase s) as u. intros u. split.
  - intros H%str_match_Some. repeat (apply elem_of_cons in H as [H|H]; [by simplify_eq|]).
    by apply elem_of_nil in H.
  - intros ->. by destruct op.
Qed.
