(* ===== verification/IrEncode.v ===== *)
(** * Instruction words: [encode_instruction] and [decode_instruction]

    Crate [plc-ir], src/crates/plc-ir/src/encode.rs. A program counter and a
    [usize] length are integers; code is a list of bytes. *)
From S2P Require Import Prelude IrTypes.

Inductive DecodedInstr :=
  | Simple (op : Opcode) (payload : Z)
  | WithImm32 (op : Opcode) (payload imm : Z)
  | ICallFb (fb_kind fb_id instance_base : Z).

Definition pack_word (op : Opcode) (payload : Z) : Z :=
  Z.lor (Z.shiftl (Op.as_u8 op) 24) (Z.land payload 0x00FFFFFF).

Definition encode_instruction (instr : DecodedInstr) : bytes :=
  match instr with
  | Simple op payload => le_split 4 (pack_word op payload)
  | WithImm32 op payload imm => le_split 4 (pack_word op payload) ++ le_split 4 imm
  | ICallFb fb_kind fb_id instance_base =>
      let word := Z.lor (Z.shiftl (Z.land fb_kind 0xFF) 24) (Z.land fb_id 0x00FFFFFF) in
      le_split 4 (pack_word CallFb 0) ++ le_split 4 word ++ le_split 4 instance_base
  end.

(** [u32::from_le_bytes(code[pc..pc + 4])]. *)
Definition read_u32 (code : bytes) (pc : Z) : Z := le_combine (zslice code pc 4).

Definition decode_instruction (code : bytes) (pc : Z) : res IrError (DecodedInstr * Z) :=
  if len code <? pc + 4 then Err (IrSpbc "truncated decode OOB")
  else
    let word := read_u32 code pc in
    let op_byte := Z.shiftr word 24 in
    let payload := Z.land word 0x00FFFFFF in
    op ← ok_or (Op.from_u8 op_byte) (IrUnknown "opcode");
    match op with
    | PushIDint | PushIReal | PushTime =>
        if len code <? pc + 8 then Err (IrSpbc "missing imm32")
        else Ok (WithImm32 op payload (read_u32 code (pc + 4)), 8)
    | CallFb =>
        if len code <? pc + 12 then Err (IrSpbc "CALL_FB missing operands")
        else
          let w1 := read_u32 code (pc + 4) in
          let base := read_u32 code (pc + 8) in
          let fb_kind := Z.land (Z.shiftr w1 24) 0xFF in
          let fb_id := Z.land w1 0x00FFFFFF in
          Ok (ICallFb fb_kind fb_id base, 12)
    | _ => Ok (Simple op payload, 4)
    end.

(** ** Instructions that occur in a decoded stream *)

Definition is_wide (op : Opcode) : bool :=
  match op with PushIDint | PushIReal | PushTime => true | _ => false end.

Definition instr_ok (i : DecodedInstr) : Prop :=
  match i with
  | Simple op payload => is_wide op = false /\ op <> CallFb /\ u_range 24 payload
  | WithImm32 op payload imm => is_wide op = true /\ u_range 24 payload /\ u_range 32 imm
  | ICallFb fb_kind fb_id base => u_range 8 fb_kind /\ u_range 24 fb_id /\ u_range 32 base
  end.

Lemma pack_word_sum op payload :
  u_range 24 payload -> pack_word op payload = Op.as_u8 op * 2 ^ 24 + payload.
Proof.
  intros H. unfold pack_word. change 0x00FFFFFF with (2 ^ 24 - 1).
  rewrite land_mask, Z.mod_small by (done || lia). by apply lor_shiftl_add.
Qed.

Lemma pack_word_range op payload : u_range 32 (pack_word op payload).
Proof.
  unfold pack_word. change 0x00FFFFFF with (2 ^ 24 - 1). rewrite land_mask by lia.
  pose proof (Z.mod_pos_bound payload (2 ^ 24)). pose proof (Op.op_as_u8_range op).
  rewrite lor_shiftl_add by (unfold u_range; lia). unfold u_range. lia.
Qed.

Lemma read_u32_app pre w post :
  u_range 32 w -> read_u32 (pre ++ le_split 4 w ++ post) (len pre) = w.
Proof.
  intros H. unfold read_u32. rewrite zslice_app by (rewrite ?len_le_split; done).
  by apply le_combine_split_id.
Qed.

Lemma read_u32_range code pc : bytes_ok code -> u_range 32 (read_u32 code pc).
Proof.
  intros H. unfold read_u32, u_range. set (l := zslice code pc 4).
  assert (bytes_ok l) as Hl by (by apply slice_ok).
  assert (length l <= 4)%nat by (unfold l, zslice, slice; rewrite length_take; lia).
  pose proof (le_combine_bound l Hl).
  assert (2 ^ (8 * Z.of_nat (length l)) <= 2 ^ 32) by (apply Z.pow_le_mono_r; lia). lia.
Qed.

Lemma shiftr_byte_range w n : u_range (n + 8) w -> 0 <= n -> u_range 8 (Z.shiftr w n).
Proof.
  unfold u_range. intros H Hn. rewrite Z.shiftr_div_pow2 by done.
  rewrite Z.pow_add_r in H by lia. split.
  - apply Z.div_pos; lia.
  - apply Z.div_lt_upper_bound; lia.
Qed.

(** Every instruction the decoder returns is in range. *)
Lemma decode_instr_ok code pc i n :
  bytes_ok code -> 0 <= pc -> decode_instruction code pc = Ok (i, n) ->
  instr_ok i /\ n = len (encode_instruction i) /\ 4 <= n /\ pc + n <= len code.
Proof.
  intros Hc Hpc. unfold decode_instruction.
  destruct (Z.ltb_spec (len code) (pc + 4)); [done|]. intros H'.
  apply res_bind_Ok in H' as (op & Hop%ok_or_Ok & H'). clear Hop.
  assert (Hm : forall n w, 0 <= n -> u_range n (Z.land w (2 ^ n - 1))).
  { intros k w Hk. rewrite land_mask by done. apply Z.mod_pos_bound. lia. }
  pose proof (Hm 24 (read_u32 code pc) ltac:(lia)) as R0.
  pose proof (Hm 24 (read_u32 code (pc + 4)) ltac:(lia)) as R1.
  pose proof (Hm 8 (Z.shiftr (read_u32 code (pc + 4)) 24) ltac:(lia)) as R2.
  pose proof (read_u32_range code (pc + 4) Hc) as R3.
  pose proof (read_u32_range code (pc + 8) Hc) as R4.
  change (2 ^ 24 - 1) with 0x00FFFFFF in R0, R1. change (2 ^ 8 - 1) with 0xFF in R2.
  revert H' R0 R1 R2 R3 R4.
  generalize (Z.land (read_u32 code pc) 0x00FFFFFF) as p0.
  generalize (Z.land (read_u32 code (pc + 4)) 0x00FFFFFF) as p1.
  generalize (Z.land (Z.shiftr (read_u32 code (pc + 4)) 24) 0xFF) as p2.
  generalize (read_u32 code (pc + 4)) as w1. generalize (read_u32 code (pc + 8)) as w2.
  intros w2 w1 p2 p1 p0 H' R0 R1 R2 R3 R4.
  assert (Hs : forall op p, is_wide op = false -> op <> CallFb -> u_range 24 p ->
    instr_ok (Simple op p) /\ 4 = len (encode_instruction (Simple op p)) /\ 4 <= 4 /\
    pc + 4 <= len code).
  { intros op' p' H1 H2 H3. repeat split; auto; try lia; apply H3. }
  destruct op; try (injection H' as <- <-; apply Hs; done);
    destruct (Z.ltb_spec (len code) (pc + 8)); destruct (Z.ltb_spec (len code) (pc + 12));
    try discriminate H'; injection H' as <- <-; unfold len in *; simpl;
    rewrite ?length_app, ?length_le_split; repeat split; try lia; try apply R0; try apply R1;
    try apply R2; try apply R3; apply R4.
Qed.

Lemma decode_no_panic code pc : decode_instruction code pc <> Panic.
Proof.
  unfold decode_instruction. destruct (len code <? pc + 4); [discriminate|].
  destruct (Op.from_u8 _) as [op|]; [|discriminate]. cbn [ok_or mbind res_bind].
  destruct (len code <? pc + 8), (len code <? pc + 12); destruct op; discriminate.
Qed.

(** The second word of a [CALL_FB]. *)
Definition fb_word (k id : Z) : Z := Z.lor (Z.shiftl (Z.land k 0xFF) 24) (Z.land id 0x00FFFFFF).

(** The fields of a packed word. *)
Lemma decode_op_byte op payload :
  u_range 24 payload -> Z.shiftr (pack_word op payload) 24 = Op.as_u8 op.
Proof. intros. rewrite pack_word_sum by done. by apply shiftr_add_low. Qed.

Lemma decode_payload op payload :
  u_range 24 payload -> Z.land (pack_word op payload) 0x00FFFFFF = payload.
Proof.
  intros. rewrite pack_word_sum by done. change 0x00FFFFFF with (2 ^ 24 - 1).
  by apply land_add_low.
Qed.

Lemma fb_word_sum k id : u_range 8 k -> u_range 24 id -> fb_word k id = k * 2 ^ 24 + id.
Proof.
  intros Hk Hid. unfold fb_word. change 0xFF with (2 ^ 8 - 1).
  change 0x00FFFFFF with (2 ^ 24 - 1). rewrite !land_mask, !Z.mod_small by (done || lia).
  by apply lor_shiftl_add.
Qed.

Lemma fb_word_range k id : u_range 32 (fb_word k id).
Proof.
  unfold fb_word. change 0xFF with (2 ^ 8 - 1). change 0x00FFFFFF with (2 ^ 24 - 1).
  rewrite !land_mask by lia. pose proof (Z.mod_pos_bound k (2 ^ 8)).
  pose proof (Z.mod_pos_bound id (2 ^ 24)).
  rewrite lor_shiftl_add by (unfold u_range; lia). unfold u_range. lia.
Qed.

Lemma fb_word_kind k id :
  u_range 8 k -> u_range 24 id -> Z.land (Z.shiftr (fb_word k id) 24) 0xFF = k.
Proof.
  intros Hk Hid. rewrite fb_word_sum, shiftr_add_low by done.
  change 0xFF with (2 ^ 8 - 1). rewrite land_mask by lia. by apply Z.mod_small.
Qed.

Lemma fb_word_id k id : u_range 8 k -> u_range 24 id -> Z.land (fb_word k id) 0x00FFFFFF = id.
Proof.
  intros Hk Hid. rewrite fb_word_sum by done. change 0x00FFFFFF with (2 ^ 24 - 1).
  by apply land_add_low.
Qed.

Lemma read_u32_next pre a w post :
  u_range 32 w -> read_u32 (pre ++ le_split 4 a ++ le_split 4 w ++ post) (len pre + 4) = w.
Proof.
  intros H. rewrite (app_assoc pre).
  replace (len pre + 4) with (len (pre ++ le_split 4 a)).
  - by apply read_u32_app.
  - unfold len. rewrite length_app, length_le_split. lia.
Qed.

Lemma read_u32_next2 pre a b w post :
  u_range 32 w ->
  read_u32 (pre ++ le_split 4 a ++ le_split 4 b ++ le_split 4 w ++ post) (len pre + 8) = w.
Proof.
  intros H. rewrite (app_assoc pre).
  replace (len pre + 8) with (len (pre ++ le_split 4 a) + 4).
  - by apply read_u32_next.
  - unfold len. rewrite length_app, length_le_split. lia.
Qed.

(** Decoding at the offset of an encoded instruction. *)
Lemma decode_at (i : DecodedInstr) (pre post : bytes) (H : instr_ok i) :
  decode_instruction (pre ++ encode_instruction i ++ post) (len pre) =
  Ok (i, len (encode_instruction i)).
Proof.
  assert (Hlen : forall i, 4 <= len (encode_instruction i)).
  { intros []; unfold len; simpl; rewrite ?length_app, ?length_le_split; simpl; lia. }
  specialize (Hlen i). unfold decode_instruction.
  ltb_false by (unfold len in *; rewrite !length_app; lia).
  destruct i as [op payload|op payload imm|k id base]; cbn [encode_instruction instr_ok] in *.
  - destruct H as (Hw & Hc & Hp).
    rewrite read_u32_app by apply pack_word_range.
    rewrite (decode_op_byte op), decode_payload, Op.op_from_as by done. cbn [ok_or mbind res_bind].
    destruct op; done.
  - destruct H as (Hw & Hp & Hi). rewrite <-!app_assoc.
    rewrite read_u32_app by apply pack_word_range.
    rewrite (decode_op_byte op), decode_payload, Op.op_from_as by done. cbn [ok_or mbind res_bind].
    rewrite read_u32_next by done.
    ltb_false by (unfold len; rewrite !length_app, !length_le_split; lia).
    destruct op; done.
  - destruct H as (Hk & Hid & Hb). rewrite <-!app_assoc.
    rewrite read_u32_app by apply pack_word_range.
    rewrite (decode_op_byte CallFb), Op.op_from_as by done. cbn [ok_or mbind res_bind].
    ltb_false by (unfold len; rewrite !length_app, !length_le_split; lia).
    fold (fb_word k id).
    rewrite (read_u32_next _ _ _ _ (fb_word_range k id)), (read_u32_next2 _ _ _ _ _ Hb).
    by rewrite (fb_word_kind _ _ Hk Hid), (fb_word_id _ _ Hk Hid).
Qed.

(** ** Properties *)

(** C24: decoding an encoded instruction at its own offset gives it back with its
    length, whatever code surrounds it, for every instruction whose fields fit
    their bit widths. *)
Theorem decode_encode (i : DecodedInstr) (pre post : bytes) (H : instr_ok i) :
  decode_instruction (pre ++ encode_instruction i ++ post) (len pre) =
  Ok (i, len (encode_instruction i)).
Proof. by apply decode_at. Qed.

Lemma decode_encode_witness :
  decode_instruction (encode_instruction (Simple Nop 0) ++ encode_instruction (ICallFb 0 1 64) ++ [])
    4 = Ok (ICallFb 0 1 64, 12).
Proof.
  apply (decode_encode (ICallFb 0 1 64) (encode_instruction (Simple Nop 0)) []).
  cbn. unfold u_range. lia.
Defined.
