(* ===== verification/Spbc.v ===== *)
(** * [spbc] framing of a module

    Crate [plc-ir], src/crates/plc-ir/src/spbc.rs: [write_spbc] and
    [parse_spbc], and their round trip. *)
From S2P Require Import Prelude IrTypes IrEncode.

Definition read_u16 (bs : bytes) (off : Z) : Z := le_combine (zslice bs off 2).

Definition is_user_fb_name (name : bytes) : bool :=
  starts_with (bstr "fb.") name || starts_with (bstr "FB.") name.

(** The [for _ in 0..entry_count] loop; it returns the offset it reached. *)
Fixpoint parse_entries (n : nat) (bs : bytes) (off : Z) : res IrError (list EntryPoint * Z) :=
  match n with
  | O => Ok ([], off)
  | S n =>
      if len bs <=? off then Err (IrSpbc "truncated entry table")
      else
        let name_len := nth (Z.to_nat off) bs 0 in
        let off := off + 1 in
        if len bs <? off + name_len + 4 then Err (IrSpbc "truncated entry name/pc")
        else
          let name := zslice bs off name_len in
          if negb (utf8_valid name) then Err (IrSpbc "entry name not utf-8")
          else
            let off := off + name_len in
            let pc := read_u32 bs off in
            let off := off + 4 in
            '(es, off) ← parse_entries n bs off;
            Ok ({| e_name := name; e_pc := pc; e_is_user_fb := is_user_fb_name name |} :: es, off)
  end.

Definition parse_spbc (bs : bytes) : res IrError IrModule :=
  if len bs <? 36 then Err (IrSpbc "buffer too short for header")
  else if negb (bool_decide (zslice bs 0 4 = SPBC_MAGIC)) then Err (IrSpbc "bad magic")
  else
    let ir_major := read_u16 bs 4 in
    let ir_minor := read_u16 bs 6 in
    let code_size := read_u32 bs 8 in
    let const_size := read_u32 bs 12 in
    let data_size := read_u32 bs 16 in
    let retain_size := read_u32 bs 20 in
    let input_slots := read_u32 bs 24 in
    let output_slots := read_u32 bs 28 in
    let entry_count := read_u32 bs 32 in
    let off := 36 in
    let max_entries := sat_sub_u (len bs) off / 5 in
    if max_entries <? entry_count then Err (IrSpbc "truncated entry table")
    else
      '(entries, off) ← parse_entries (Z.to_nat entry_count) bs off;
      if len bs <? off + const_size + code_size then Err (IrSpbc "truncated const/code")
      else
        let const_data := zslice bs off const_size in
        let off := off + const_size in
        let code := zslice bs off code_size in
        Ok {| ir_major := ir_major; ir_minor := ir_minor; const_size := const_size;
              data_size := data_size; retain_size := retain_size;
              input_slots := input_slots; output_slots := output_slots;
              entries := entries; const_data := const_data; code := code |}.

Definition write_entry (e : EntryPoint) : res IrError bytes :=
  if 255 <? len (e_name e) then Err (IrSpbc "entry name too long")
  else Ok ([len (e_name e)] ++ e_name e ++ le_split 4 (e_pc e)).

Fixpoint write_entries (es : list EntryPoint) : res IrError bytes :=
  match es with
  | [] => Ok []
  | e :: es =>
      b ← write_entry e;
      rest ← write_entries es;
      Ok (b ++ rest)
  end.

Definition write_header (m : IrModule) : bytes :=
  SPBC_MAGIC ++
  le_split 2 (ir_major m) ++
  le_split 2 (ir_minor m) ++
  le_split 4 (wrap_u 32 (len (code m))) ++
  le_split 4 (wrap_u 32 (len (const_data m))) ++
  le_split 4 (data_size m) ++
  le_split 4 (retain_size m) ++
  le_split 4 (input_slots m) ++
  le_split 4 (output_slots m) ++
  le_split 4 (wrap_u 32 (len (entries m))).

Definition write_spbc (m : IrModule) : res IrError bytes :=
  es ← write_entries (entries m);
  Ok (write_header m ++ es ++ const_data m ++ code m).

(** ** Modules the format can carry *)

Definition entry_ok (e : EntryPoint) : Prop :=
  len (e_name e) <= 255 /\ utf8_valid (e_name e) = true /\ u_range 32 (e_pc e) /\
  e_is_user_fb e = is_user_fb_name (e_name e).

Record spbc_ok (m : IrModule) : Prop := {
  so_major : u_range 16 (ir_major m);
  so_minor : u_range 16 (ir_minor m);
  so_data : u_range 32 (data_size m);
  so_retain : u_range 32 (retain_size m);
  so_inputs : u_range 32 (input_slots m);
  so_outputs : u_range 32 (output_slots m);
  so_const : const_size m = len (const_data m);
  so_const_range : len (const_data m) < 2 ^ 32;
  so_code_range : len (code m) < 2 ^ 32;
  so_entries_range : len (entries m) < 2 ^ 32;
  so_entries : Forall entry_ok (entries m) }.

Lemma write_entry_ok e :
  entry_ok e -> write_entry e = Ok ([len (e_name e)] ++ e_name e ++ le_split 4 (e_pc e)).
Proof. intros (H & _). unfold write_entry. by ltb_false by lia. Qed.

Lemma write_entries_length es b :
  write_entries es = Ok b -> 5 * len es <= len b.
Proof.
  revert b. induction es as [|e es IH]; intros b; simpl; intros H; inv_res.
  - unfold len. simpl. lia.
  - unfold write_entry in *. destruct (255 <? len (e_name e)); [done|]. inv_res.
    match goal with H : write_entries es = Ok ?x |- _ => specialize (IH x H) end.
    unfold len in *. rewrite length_app. cbn [length app]. rewrite ?length_app. cbn [length app]. rewrite ?length_app, ?length_le_split. lia.
Qed.

(** Parsing what [write_entries] wrote gives the entries back and stops right
    after them. *)
Lemma parse_write_entries es b pre post :
  Forall entry_ok es -> write_entries es = Ok b ->
  parse_entries (length es) (pre ++ b ++ post) (len pre) = Ok (es, len pre + len b).
Proof.
  intros Hes. revert b pre. induction Hes as [|e es He Hes IH]; intros b pre Hb; simpl in Hb.
  - inv_res. simpl. do 2 f_equal. unfold len. simpl. lia.
  - apply res_bind_Ok in Hb as (b1 & Hb1 & Hb). apply res_bind_Ok in Hb as (b2 & Hb2 & Hb).
    rewrite write_entry_ok in Hb1 by done. apply Ok_inj in Hb1 as <-. apply Ok_inj in Hb as <-.
    destruct e as [name pc fb]. destruct He as (Hn & Hu & Hpc & Hfb). cbn in Hn, Hu, Hpc, Hfb.
    subst fb. cbn [e_name e_pc length parse_entries].
    pose proof (len_nonneg name) as H0. pose proof (len_nonneg b2) as H2.
    pose proof (len_nonneg post) as H3.
    rewrite <-!app_assoc. set (all := pre ++ _).
    assert (Hlen : len all = len pre + 1 + len name + 4 + len b2 + len post).
    { unfold all. rewrite !len_app, len_le_split. unfold len. simpl. lia. }
    destruct (Z.leb_spec (len all) (len pre)); [lia|].
    assert (nth (Z.to_nat (len pre)) all 0 = len name) as ->.
    { unfold all, len at 1. rewrite Nat2Z.id.
      rewrite app_nth2, Nat.sub_diag by lia. done. }
    ltb_false by lia.
    assert (zslice all (len pre + 1) (len name) = name) as ->.
    { unfold all. rewrite (app_assoc pre). apply zslice_app; [|done].
      rewrite len_app. unfold len. simpl. lia. }
    rewrite Hu. cbn [negb].
    assert (read_u32 all (len pre + 1 + len name) = pc) as ->.
    { unfold all. rewrite (app_assoc pre), (app_assoc (pre ++ _)).
      replace (len pre + 1 + len name) with (len ((pre ++ [len name]) ++ name)).
      - by apply read_u32_app.
      - rewrite !len_app. unfold len. simpl. lia. }
    specialize (IH b2 (pre ++ [len name] ++ name ++ le_split 4 pc) Hb2).
    replace (len pre + 1 + len name + 4)
      with (len (pre ++ [len name] ++ name ++ le_split 4 pc))
      by (rewrite !len_app, len_le_split; unfold len; simpl; lia).
    replace all with ((pre ++ [len name] ++ name ++ le_split 4 pc) ++ b2 ++ post)
      by (unfold all; rewrite <-!app_assoc; done).
    rewrite IH. cbn [mbind res_bind]. do 2 f_equal.
    rewrite !len_app. lia.
Qed.

(** Reading a field of a header: skip the fields before it. *)
Lemma zslice_skip {A} (pre l : list A) off n :
  len pre <= off -> zslice (pre ++ l) off n = zslice l (off - len pre) n.
Proof.
  intros H. unfold zslice, slice, len in *. rewrite drop_app_ge by lia.
  do 2 f_equal. lia.
Qed.

Lemma zslice_head n w post :
  u_range (8 * Z.of_nat n) w ->
  le_combine (zslice (le_split n w ++ post) 0 (Z.of_nat n)) = w.
Proof.
  intros H. rewrite (zslice_app [] (le_split n w) post) by (rewrite ?len_le_split; done).
  by apply le_combine_split_id.
Qed.

Ltac read_field :=
  rewrite !zslice_skip by (rewrite ?len_le_split; vm_compute; discriminate);
  rewrite ?len_le_split;
  first [apply (zslice_head 2) | apply (zslice_head 4)]; assumption.

Lemma write_header_len m : len (write_header m) = 36.
Proof. unfold write_header. rewrite !len_app, !len_le_split. done. Qed.

Lemma write_entries_total es : Forall entry_ok es -> exists b, write_entries es = Ok b.
Proof.
  induction 1 as [|e es He _ (b & IH)]; [by eexists|].
  cbn [write_entries]. rewrite write_entry_ok by done. cbn [mbind res_bind].
  rewrite IH. by eexists.
Qed.

(** The header fields read back from the written bytes. *)
Lemma header_fields m rest (all := write_header m ++ rest) :
  spbc_ok m ->
  zslice all 0 4 = SPBC_MAGIC /\
  read_u16 all 4 = ir_major m /\ read_u16 all 6 = ir_minor m /\
  read_u32 all 8 = len (code m) /\ read_u32 all 12 = len (const_data m) /\
  read_u32 all 16 = data_size m /\ read_u32 all 20 = retain_size m /\
  read_u32 all 24 = input_slots m /\ read_u32 all 28 = output_slots m /\
  read_u32 all 32 = len (entries m).
Proof.
  intros []. unfold all, write_header.
  assert (u_range 32 (len (code m))) by (pose proof (len_nonneg (code m)); done).
  assert (u_range 32 (len (const_data m))) by (pose proof (len_nonneg (const_data m)); done).
  assert (u_range 32 (len (entries m))) by (pose proof (len_nonneg (entries m)); done).
  rewrite !wrap_u_small by assumption.
  rewrite <-!app_assoc. unfold read_u16, read_u32.
  repeat apply conj; [by apply (zslice_app [])|read_field..].
Qed.

(** Writing then parsing, whatever follows. *)
Lemma write_parse_spbc (m : IrModule) (Hm : spbc_ok m) :
  exists bs, write_spbc m = Ok bs /\ forall junk, parse_spbc (bs ++ junk) = Ok m.
Proof.
  pose proof (write_header_len m) as Hh.
  destruct (write_entries_total (entries m)) as (es & Hes); [apply Hm|].
  exists (write_header m ++ es ++ const_data m ++ code m).
  unfold write_spbc. rewrite Hes. split; [done|intros junk].
  rewrite <-!app_assoc. set (rest := es ++ _). set (all := write_header m ++ rest).
  pose proof (write_entries_length _ _ Hes) as Hel.
  pose proof (len_nonneg (code m)). pose proof (len_nonneg (const_data m)).
  pose proof (len_nonneg junk). pose proof (len_nonneg (entries m)).
  assert (Hall : len all = 36 + len es + len (const_data m) + len (code m) + len junk)
    by (unfold all, rest; rewrite !len_app; lia).
  destruct (header_fields m rest Hm) as (F0&F1&F2&F3&F4&F5&F6&F7&F8&F9).
  fold all in F0, F1, F2, F3, F4, F5, F6, F7, F8, F9.
  unfold parse_spbc. rewrite F0, F1, F2, F3, F4, F5, F6, F7, F8, F9.
  ltb_false by lia. rewrite bool_decide_eq_true_2 by done. cbn [negb].
  ltb_false by (apply Z.div_le_lower_bound; unfold sat_sub_u; lia).
  replace (Z.to_nat (len (entries m))) with (length (entries m)) by (unfold len; lia).
  pose proof (parse_write_entries _ es (write_header m) (const_data m ++ code m ++ junk)
    (so_entries _ Hm) Hes) as Hp.
  fold rest all in Hp. rewrite Hh in Hp.
  rewrite Hp. cbn [mbind res_bind]. ltb_false by lia. rewrite <-Hh.
  assert (zslice all (len (write_header m) + len es) (len (const_data m)) = const_data m) as ->.
  { unfold all, rest. rewrite app_assoc. apply zslice_app; [|done]. by rewrite len_app. }
  assert (zslice all (len (write_header m) + len es + len (const_data m)) (len (code m))
          = code m) as ->.
  { unfold all, rest. rewrite (app_assoc es), app_assoc. apply zslice_app; [|done].
    rewrite !len_app. lia. }
  rewrite <-(so_const _ Hm). by destruct m.
Qed.

(** ** Properties *)

(** C25: [write_spbc] then [parse_spbc] is the identity on every module whose
    numbers fit their header fields, whose entry names are UTF-8 of at most 255
    bytes and whose user-FB flags agree with the names; writing such a module
    never fails, and bytes after the module are ignored. *)
Theorem spbc_roundtrip (m : IrModule) (Hm : spbc_ok m) :
  exists bs, write_spbc m = Ok bs /\ forall junk, parse_spbc (bs ++ junk) = Ok m.
Proof. exact (write_parse_spbc m Hm). Qed.

Definition sample_module : IrModule := {|
  ir_major := 0; ir_minor := 1; const_size := 2; data_size := 64; retain_size := 16;
  input_slots := 4; output_slots := 2;
  entries := [ {| e_name := bstr "main"; e_pc := 0; e_is_user_fb := false |};
               {| e_name := bstr "fb.11"; e_pc := 8; e_is_user_fb := true |} ];
  const_data := [1; 2];
  code := encode_instruction (Simple Halt 0) |}.

Lemma sample_module_ok : spbc_ok sample_module.
Proof.
  split; try (cbn; unfold u_range; lia); try done.
  repeat constructor; try done; cbn; lia.
Qed.

Lemma spbc_roundtrip_witness :
  spbc_ok sample_module /\
  exists bs, write_spbc sample_module = Ok bs /\
    forall junk, parse_spbc (bs ++ junk) = Ok sample_module.
Proof. split; [exact sample_module_ok | exact (spbc_roundtrip sample_module sample_module_ok)]. Defined.
