(* ===== verification/FbTimers.v ===== *)
(** * Timers: TON, TOF and TP

    Crate [plc-fb-primitives], src/crates/plc-fb-primitives/src/timer.rs. An
    instance's [eval] takes the instance and returns the new one with the pair
    [(Q, ET)]. Times are monotonic milliseconds, [i32] and [u64] as integers. *)
From S2P Require Import Prelude.

Definition i32_max : Z := 2 ^ 31 - 1.
Definition i32_min : Z := - 2 ^ 31.

(** [delta.min(i32::MAX as u64)] always fits, so the [unwrap_or] never acts. *)
Definition et_from_delta (start_ms now_ms pt : Z) : Z :=
  let pt := Z.max pt 0 in
  let delta := sat_sub_u now_ms start_ms in
  let et := Z.min delta i32_max in
  Z.min et pt.

Module Ton.
Record t := mk { q : bool; et : Z; start_ms : Z; running : bool }.

Definition new : t := mk false 0 0 false.

Definition eval (s : t) (inp : bool) (pt now_ms : Z) : t * (bool * Z) :=
  let pt := Z.max pt 0 in
  let s :=
    if inp then
      if negb (running s) then mk (pt =? 0) 0 now_ms true
      else
        let et := et_from_delta (start_ms s) now_ms pt in
        mk (pt <=? et) et (start_ms s) true
    else mk false 0 0 false in
  (s, (q s, et s)).

Definition ok (s : t) : Prop := 0 <= et s <= i32_max /\ u_range 64 (start_ms s).
End Ton.

Module Tof.
Record t := mk { q : bool; et : Z; fall_ms : Z; delaying : bool }.

Definition new : t := mk false 0 0 false.

Definition eval (s : t) (inp : bool) (pt now_ms : Z) : t * (bool * Z) :=
  let pt := Z.max pt 0 in
  let s :=
    if inp then mk true 0 0 false
    else if q s || delaying s then
      let fall_ms := if negb (delaying s) then now_ms else fall_ms s in
      let et := et_from_delta fall_ms now_ms pt in
      if pt <=? et then mk false pt fall_ms false
      else mk true et fall_ms true
    else mk false 0 (fall_ms s) (delaying s) in
  (s, (q s, et s)).

Definition ok (s : t) : Prop := 0 <= et s <= i32_max /\ u_range 64 (fall_ms s).
End Tof.

Module Tp.
Record t := mk { q : bool; et : Z; start_ms : Z; running : bool; prev_in : bool }.

Definition new : t := mk false 0 0 false false.

(** The part of [eval] after the edge detection. *)
Definition pulse (s : t) (pt now_ms : Z) : t :=
  if running s then
    let et := et_from_delta (start_ms s) now_ms pt in
    if pt <=? et then mk false pt (start_ms s) false (prev_in s)
    else mk true et (start_ms s) true (prev_in s)
  else mk false 0 (start_ms s) false (prev_in s).

Definition eval (s : t) (inp : bool) (pt now_ms : Z) : t * (bool * Z) :=
  let pt := Z.max pt 0 in
  let rising := inp && negb (prev_in s) in
  let s := mk (q s) (et s) (start_ms s) (running s) inp in
  let s :=
    if negb (running s) && rising then
      if pt =? 0 then mk true 0 now_ms false inp
      else pulse (mk true 0 now_ms true inp) pt now_ms
    else pulse s pt now_ms in
  (s, (q s, et s)).

Definition ok (s : t) : Prop := 0 <= et s <= i32_max /\ u_range 64 (start_ms s).
End Tp.

(** ** Samples and runs *)

(** One evaluation's inputs: [IN], [PT] and the task's clock. *)
Record sample := Sample { s_in : bool; s_pt : Z; s_now : Z }.

Definition sample_ok (x : sample) : Prop := s_range 32 (s_pt x) /\ u_range 64 (s_now x).

(** Evaluating a block over a list of samples: the last state and output. *)
Section Run.
Context {S : Type} (eval : S -> bool -> Z -> Z -> S * (bool * Z)).

Definition eval1 (s : S) (x : sample) : S * (bool * Z) := eval s (s_in x) (s_pt x) (s_now x).

Definition run (s : S) (xs : list sample) : S := fold_left (fun s x => fst (eval1 s x)) xs s.

(** What the block returns on the sample [x] that follows [xs]. *)
Definition out (s : S) (xs : list sample) (x : sample) : bool * Z := snd (eval1 (run s xs) x).

Lemma run_app s xs ys : run s (xs ++ ys) = run (run s xs) ys.
Proof. apply fold_left_app. Qed.

Lemma run_snoc s xs x : run s (xs ++ [x]) = fst (eval1 (run s xs) x).
Proof. by rewrite run_app. Qed.

Lemma run_inv (P : S -> Prop) s xs :
  P s -> (forall s x, x ∈ xs -> P s -> P (fst (eval1 s x))) -> P (run s xs).
Proof.
  revert s. induction xs as [|x xs IH]; intros s Hs Hstep; [done|].
  simpl. apply IH.
  - apply Hstep; [left|done].
  - intros s' y Hy. apply Hstep. by right.
Qed.
End Run.

Lemma s_range_max0 pt : s_range 32 pt -> 0 <= Z.max pt 0 <= i32_max.
Proof. unfold s_range, i32_max. lia. Qed.

Lemma et_bounds start now pt : s_range 32 pt -> 0 <= et_from_delta start now pt <= Z.max pt 0.
Proof. intros H%s_range_max0. unfold et_from_delta, sat_sub_u, i32_max in *. lia. Qed.

(** The elapsed time reaches the preset exactly when the clock has advanced by it. *)
Lemma et_expired start now pt :
  s_range 32 pt ->
  (Z.max pt 0 <=? et_from_delta start now pt) = (Z.max pt 0 <=? sat_sub_u now start).
Proof.
  intros H%s_range_max0. unfold et_from_delta, i32_max in *.
  apply eq_bool_prop_intro. rewrite !Is_true_true, !Z.leb_le. lia.
Qed.

Lemma et_min start now pt :
  s_range 32 pt -> et_from_delta start now pt = Z.min (sat_sub_u now start) (Z.max pt 0).
Proof. intros H%s_range_max0. unfold et_from_delta, i32_max in *. lia. Qed.

Lemma et_max0 start now pt : et_from_delta start now (Z.max pt 0) = et_from_delta start now pt.
Proof. unfold et_from_delta. f_equal. lia. Qed.

(** The monotonic clock: times never go back along a run that starts at [t]. *)
Fixpoint clock_from (t : Z) (xs : list sample) : Prop :=
  match xs with
  | [] => True
  | x :: xs => t <= s_now x /\ clock_from (s_now x) xs
  end.

Fixpoint last_now (t : Z) (xs : list sample) : Z :=
  match xs with [] => t | x :: xs => last_now (s_now x) xs end.

(** [IN] at the end of a run; a cold instance has seen [IN] false. *)
Definition last_in (xs : list sample) : bool :=
  match last xs with Some x => s_in x | None => false end.

Lemma Ton_eval_ok s inp pt now :
  Ton.ok s -> s_range 32 pt -> u_range 64 now -> Ton.ok (fst (Ton.eval s inp pt now)).
Proof.
  intros [H1 H2] Hpt Hnow. pose proof (et_bounds (Ton.start_ms s) now pt Hpt).
  pose proof (s_range_max0 pt Hpt). unfold Ton.eval, Ton.ok, u_range in *.
  rewrite et_max0. destruct inp; [destruct (Ton.running s)|]; simpl; lia.
Qed.

Lemma Tof_eval_ok s inp pt now :
  Tof.ok s -> s_range 32 pt -> u_range 64 now -> Tof.ok (fst (Tof.eval s inp pt now)).
Proof.
  intros [H1 H2] Hpt Hnow.
  set (start := if negb (Tof.delaying s) then now else Tof.fall_ms s).
  assert (u_range 64 start) by (unfold start; by destruct (Tof.delaying s)).
  pose proof (et_bounds start now pt Hpt). pose proof (s_range_max0 pt Hpt).
  unfold Tof.eval, Tof.ok, u_range in *. rewrite et_max0. fold start.
  destruct inp; [simpl; lia|].
  destruct (Tof.q s || Tof.delaying s); [|simpl; lia]. case_match; simpl; lia.
Qed.

Lemma Tp_pulse_ok s pt now :
  Tp.ok s -> s_range 32 pt -> u_range 64 now -> Tp.ok (Tp.pulse s (Z.max pt 0) now).
Proof.
  intros [H1 H2] Hpt Hnow. pose proof (et_bounds (Tp.start_ms s) now pt Hpt).
  pose proof (s_range_max0 pt Hpt). unfold Tp.pulse, Tp.ok, u_range in *.
  rewrite et_max0. repeat case_match; simpl; lia.
Qed.

Lemma Tp_eval_ok s inp pt now :
  Tp.ok s -> s_range 32 pt -> u_range 64 now -> Tp.ok (fst (Tp.eval s inp pt now)).
Proof.
  intros [H1 H2] Hpt Hnow. unfold Tp.eval. cbn [fst Tp.running Tp.q Tp.et Tp.start_ms].
  assert (0 <= 0 <= i32_max) by (unfold i32_max; lia).
  case_match; [case_match|]; [by split|apply Tp_pulse_ok; done..].
Qed.

Lemma ton_idle xs : last_in xs = false -> Ton.running (run Ton.eval Ton.new xs) = false.
Proof.
  destruct xs as [|x xs _] using rev_ind; [done|]. unfold last_in. rewrite last_snoc.
  intros Hx. rewrite run_snoc. unfold eval1, Ton.eval. by rewrite Hx.
Qed.

Lemma ton_held s xs :
  Ton.running s = true -> Forall (fun x => s_in x = true) xs ->
  Ton.running (run Ton.eval s xs) = true /\
  Ton.start_ms (run Ton.eval s xs) = Ton.start_ms s.
Proof.
  intros Hs Hxs. revert s Hs. induction Hxs as [|x xs Hx _ IH]; intros s Hs; [done|].
  cbn [run fold_left].
  assert (Ton.running (eval1 Ton.eval s x).1 = true /\
          Ton.start_ms (eval1 Ton.eval s x).1 = Ton.start_ms s) as [H1 H2].
  { unfold eval1, Ton.eval. by rewrite Hx, Hs. }
  destruct (IH _ H1) as [H3 H4]. split; [done|]. by rewrite <-H2.
Qed.

(** ** Properties *)

(** On-delay. For every history of a TON: while [IN] is false the outputs are
    [(false, 0)]; on the sample where [IN] rises, [Q] is true only for a preset
    that is not positive; and while [IN] stays true, [Q] is true exactly when
    the clock has advanced by [PT] since the rise, and [ET] is the elapsed time
    capped at [PT], however the preset and the sampling interval vary. *)
Lemma ton_on_delay (pre held : list sample) (rise x : sample)
    (Hpre : last_in pre = false) (Hrise : s_in rise = true)
    (Hheld : Forall (fun y => s_in y = true) held) (Hx : s_range 32 (s_pt x)) :
  let pt := Z.max (s_pt x) 0 in
  let elapsed := sat_sub_u (s_now x) (s_now rise) in
  out Ton.eval Ton.new pre rise = (s_pt rise <=? 0, 0) /\
  out Ton.eval Ton.new (pre ++ rise :: held) x =
    if s_in x then (pt <=? elapsed, Z.min elapsed pt) else (false, 0).
Proof.
  pose proof (ton_idle pre Hpre) as Hidle. split.
  - unfold out. generalize dependent (run Ton.eval Ton.new pre). intros s Hidle.
    unfold eval1, Ton.eval. rewrite Hrise, Hidle. simpl. f_equal.
    apply eq_bool_prop_intro. rewrite !Is_true_true, Z.leb_le, Z.eqb_eq. lia.
  - unfold out. rewrite run_app.
    change (rise :: held) with ([rise] ++ held). rewrite run_app.
    set (s1 := run Ton.eval _ [rise]).
    assert (Ton.running s1 = true /\ Ton.start_ms s1 = s_now rise) as [H1 H2].
    { unfold s1. set (s0 := run Ton.eval Ton.new pre) in *.
      unfold run, eval1, Ton.eval. cbn [fold_left]. by rewrite Hrise, Hidle. }
    destruct (ton_held s1 held H1 Hheld) as [H3 H4]. rewrite H2 in H4.
    generalize dependent (run Ton.eval s1 held). intros s2 H3 H4. unfold eval1, Ton.eval.
    rewrite H3, H4. destruct (s_in x); [|done]. cbn [negb snd Ton.q Ton.et].
    by rewrite et_max0, et_expired, et_min.
Qed.

(** Off-delay. After [IN] has been true, [Q] stays true exactly until the
    monotonic clock has advanced by the (constant) preset since the sample at
    which [IN] was first seen false, and [ET] is the elapsed time until then;
    while [IN] is true the outputs are [(true, 0)]. *)
Lemma tof_off_delay (pre falls : list sample) (up fall : sample) (pt : Z)
    (Hpt : s_range 32 pt) (Hup : s_in up = true)
    (Hfalls : Forall (fun y => s_in y = false /\ s_pt y = pt) (fall :: falls))
    (Hclock : clock_from (s_now fall) falls) :
  let elapsed := last_now (s_now fall) falls - s_now fall in
  let s := run Tof.eval Tof.new (pre ++ up :: fall :: falls) in
  out Tof.eval Tof.new pre up = (true, 0) /\
  Tof.q s = (elapsed <? Z.max pt 0) /\ (Tof.q s = true -> Tof.et s = elapsed).
Proof.
  split.
  { unfold out. generalize (run Tof.eval Tof.new pre). intros s0.
    unfold eval1, Tof.eval. by rewrite Hup. }
  apply Forall_cons in Hfalls as [[Hf1 Hf2] Hfalls]. rewrite run_app.
  set (s0 := run Tof.eval Tof.new pre).
  set (t0 := s_now fall) in *.
  set (inv := fun t (s : Tof.t) =>
    Tof.q s = (t - t0 <? Z.max pt 0) /\ Tof.delaying s = Tof.q s /\
    (Tof.q s = true -> Tof.fall_ms s = t0 /\ Tof.et s = t - t0)).
  cut (inv (last_now t0 falls) (run Tof.eval s0 (up :: fall :: falls))).
  { intros (H1 & _ & H2). split; [done|]. intros H. by apply H2. }
  assert (Hstep : forall t s x, t0 <= s_now x -> t <= s_now x -> s_in x = false -> s_pt x = pt ->
    Tof.q s = (t - t0 <? Z.max pt 0) -> Tof.delaying s = Tof.q s ->
    (Tof.q s = true -> Tof.fall_ms s = t0) -> inv (s_now x) (eval1 Tof.eval s x).1).
  { intros t s x Ht0 Ht Hin Hp Hq Hd Hfm. unfold inv, eval1, Tof.eval.
    rewrite Hin, Hp, Hd, et_max0. destruct (Tof.q s) eqn:Eq; simpl.
    - specialize (Hfm eq_refl). rewrite Hfm. rewrite et_expired, et_min by done.
      unfold sat_sub_u. destruct (Z.leb_spec (Z.max pt 0) (Z.max 0 (s_now x - t0)));
        destruct (Z.ltb_spec (s_now x - t0) (Z.max pt 0)); simpl; try lia; naive_solver lia.
    - symmetry in Hq. apply Z.ltb_ge in Hq.
      destruct (Z.ltb_spec (s_now x - t0) (Z.max pt 0)); [lia|]. done. }
  assert (Hgo : forall xs t s, t0 <= t -> inv t s ->
    Forall (fun y => s_in y = false /\ s_pt y = pt) xs -> clock_from t xs ->
    inv (last_now t xs) (run Tof.eval s xs)).
  { induction xs as [|x xs IH]; intros t s Ht Hs Hxs Hc; [done|].
    apply Forall_cons in Hxs as [[] Hxs]. destruct Hc as [Hc1 Hc2]. cbn [run fold_left last_now].
    destruct Hs as (I1 & I2 & I3). apply IH; [lia| |done|done].
    apply (Hstep t); auto; [lia|]. intros Hq. by apply I3. }
  change (up :: fall :: falls) with ([up; fall] ++ falls). rewrite run_app.
  apply Hgo; [lia| |done|done]. cbn [run fold_left].
  unfold eval1 at 2, Tof.eval. rewrite Hup. cbn [fst].
  unfold inv, eval1, Tof.eval. rewrite Hf1, Hf2, et_max0. cbn [negb orb Tof.q Tof.delaying].
  fold t0. rewrite et_expired, et_min by done. unfold sat_sub_u. rewrite Z.sub_diag.
  destruct (Z.leb_spec (Z.max pt 0) (Z.max 0 0)); destruct (Z.ltb_spec 0 (Z.max pt 0));
    simpl; try lia; naive_solver lia.
Qed.

Definition tp_pulsing (t0 now pt : Z) (s : Tp.t) : Prop :=
  Tp.q s = true /\ Tp.et s = sat_sub_u now t0 /\ Tp.start_ms s = t0 /\ Tp.running s = true.

Lemma tp_step_running s x pt :
  s_range 32 pt -> s_pt x = pt -> Tp.running s = true ->
  (eval1 Tp.eval s x).1 =
    let el := sat_sub_u (s_now x) (Tp.start_ms s) in
    if Z.max pt 0 <=? el then Tp.mk false (Z.max pt 0) (Tp.start_ms s) false (s_in x)
    else Tp.mk true el (Tp.start_ms s) true (s_in x).
Proof.
  intros Hpt Hx Hr. unfold eval1, Tp.eval. rewrite Hx, Hr.
  cbn [negb andb fst Tp.running Tp.start_ms Tp.prev_in].
  unfold Tp.pulse. cbn [Tp.running Tp.start_ms Tp.prev_in].
  rewrite et_max0, et_expired, et_min by done. cbn zeta. case_match; [done|].
  f_equal. apply Z.leb_gt in H. lia.
Qed.

Lemma tp_rise s x pt :
  s_range 32 pt -> 0 < pt -> s_pt x = pt -> s_in x = true ->
  Tp.running s = false -> Tp.prev_in s = false ->
  tp_pulsing (s_now x) (s_now x) pt (eval1 Tp.eval s x).1.
Proof.
  intros Hpt Hpos Hx Hin Hr Hpi. assert (Hmax : Z.max pt 0 = pt) by lia.
  unfold tp_pulsing, eval1, Tp.eval. rewrite Hx, Hr, Hpi, Hin, Hmax. cbn [negb andb Tp.running].
  destruct (Z.eqb_spec pt 0); [lia|]. unfold Tp.pulse. cbn [Tp.running Tp.start_ms].
  rewrite <-Hmax, et_max0, et_expired, et_min, Hmax by done. unfold sat_sub_u.
  rewrite Z.sub_diag. destruct (Z.leb_spec pt (Z.max 0 0)); [lia|]. simpl.
  repeat split; try done. lia.
Qed.

(** A pulse goes on while the clock is within the preset, whatever [IN] does. *)
Lemma tp_run_pulsing t0 pt d : forall t s,
  s_range 32 pt -> 0 < pt -> tp_pulsing t0 t pt s ->
  Forall (fun y => s_pt y = pt) d -> Forall (fun y => s_now y - t0 < pt) d ->
  tp_pulsing t0 (List.last (map s_now d) t) pt (run Tp.eval s d).
Proof.
  induction d as [|y d IH]; intros t s Hpt Hpos Hs Hd1 Hd2; [done|].
  apply Forall_cons in Hd1 as [Hy1 Hd1]. apply Forall_cons in Hd2 as [Hy2 Hd2].
  cbn [map]. rewrite List_last_cons. cbn [run fold_left]. apply IH; [done..| |done|done].
  destruct Hs as (_ & _ & Hst & Hrun). unfold tp_pulsing.
  rewrite (tp_step_running _ _ pt), Hst by done. cbn zeta. unfold sat_sub_u.
  destruct (Z.leb_spec (Z.max pt 0) (Z.max 0 (s_now y - t0))); [lia|done].
Qed.

(** A finished pulse is not restarted by an [IN] that stays true. *)
Lemma tp_held_idle s x :
  Tp.running s = false -> Tp.prev_in s = true -> s_in x = true ->
  eval1 Tp.eval s x = (Tp.mk false 0 (Tp.start_ms s) false true, (false, 0)).
Proof. intros H1 H2 Hx. unfold eval1, Tp.eval. by rewrite H1, H2, Hx. Qed.

(** Pulse. A rising [IN] on an idle TP starts a pulse that lasts exactly the
    (constant, positive) preset whatever [IN] does meanwhile: [Q] is true with
    [ET] the elapsed time while the clock is within [PT] of the rise, the first
    sample at or past [PT] returns [(false, PT)], and then a held [IN] does not
    start another pulse. *)
Lemma tp_pulse_width (s : Tp.t) (rise x : sample) (during after : list sample) (pt : Z)
    (Hpt : s_range 32 pt) (Hpos : 0 < pt)
    (Hidle : Tp.running s = false /\ Tp.prev_in s = false) (Hrise : s_in rise = true)
    (Hpts : Forall (fun y => s_pt y = pt) (rise :: during ++ [x]))
    (Hduring : Forall (fun y => s_now y - s_now rise < pt) during)
    (Hx : pt <= s_now x - s_now rise) :
  (forall d rest, during = d ++ rest ->
    tp_pulsing (s_now rise) (List.last (map s_now d) (s_now rise)) pt
      (run Tp.eval s (rise :: d))) /\
  out Tp.eval s (rise :: during) x = (false, pt) /\
  (Forall (fun y => s_in y = true) (x :: after) -> forall a y rest, after = a ++ y :: rest ->
    out Tp.eval s (rise :: during ++ x :: a) y = (false, 0)).
Proof.
  apply Forall_cons in Hpts as [Hp1 Hpts]. apply Forall_app in Hpts as [Hpd Hpx].
  apply Forall_cons in Hpx as [Hpx _].
  destruct Hidle as [Hr Hpi].
  assert (Hd : forall d rest, during = d ++ rest ->
    tp_pulsing (s_now rise) (List.last (map s_now d) (s_now rise)) pt
      (run Tp.eval s (rise :: d))).
  { intros d rest ->. apply Forall_app in Hpd as [? _]. apply Forall_app in Hduring as [? _].
    change (rise :: d) with ([rise] ++ d). rewrite run_app.
    apply tp_run_pulsing; try done. by apply tp_rise. }
  assert (Hend : (eval1 Tp.eval (run Tp.eval s (rise :: during)) x).1 =
                 Tp.mk false pt (s_now rise) false (s_in x)).
  { destruct (Hd during [] ltac:(by rewrite app_nil_r)) as (_ & _ & Hst & Hrun).
    rewrite (tp_step_running _ _ pt), Hst by done. cbn zeta. unfold sat_sub_u.
    destruct (Z.leb_spec (Z.max pt 0) (Z.max 0 (s_now x - s_now rise))); [|lia].
    f_equal. lia. }
  split; [exact Hd|]. split.
  { unfold out. change (eval1 Tp.eval ?a ?b).2 with
      (Tp.q (eval1 Tp.eval a b).1, Tp.et (eval1 Tp.eval a b).1). by rewrite Hend. }
  intros Hafter a y rest ->. apply Forall_cons in Hafter as [Hxin Hafter].
  apply Forall_app in Hafter as [Ha Hy].
  apply Forall_cons in Hy as [Hy _].
  unfold out. change (rise :: during ++ x :: a) with ((rise :: during) ++ [x] ++ a).
  rewrite app_assoc, run_app, run_snoc, Hend, Hxin.
  assert (Htail : Tp.running (run Tp.eval (Tp.mk false pt (s_now rise) false true) a) = false /\
                  Tp.prev_in (run Tp.eval (Tp.mk false pt (s_now rise) false true) a) = true).
  { apply (run_inv Tp.eval (fun s' => Tp.running s' = false /\ Tp.prev_in s' = true)); [done|].
    intros s' z Hz [H1 H2]. rewrite tp_held_idle; try done. by eapply Forall_forall in Ha. }
  destruct Htail as [H1 H2]. by rewrite tp_held_idle.
Qed.

(** ** Witnesses *)

Lemma ton_on_delay_witness :
  out Ton.eval Ton.new [Sample false 100 900] (Sample true 100 1000) = (false, 0) /\
  out Ton.eval Ton.new
    ([Sample false 100 900] ++ Sample true 100 1000 :: [Sample true 100 1050])
    (Sample true 100 1100) = (true, 100).
Proof.
  apply (ton_on_delay [Sample false 100 900] [Sample true 100 1050]
    (Sample true 100 1000) (Sample true 100 1100)); try done.
  - repeat constructor.
Defined.

Lemma tof_off_delay_witness :
  Tof.q (run Tof.eval Tof.new
    ([] ++ Sample true 100 0 :: Sample false 100 10 :: [Sample false 100 60])) = true.
Proof.
  destruct (tof_off_delay [] [Sample false 100 60] (Sample true 100 0) (Sample false 100 10) 100)
    as (_ & H & _); [done|done|repeat constructor|repeat constructor; done|exact H].
Defined.

Lemma tp_pulse_width_witness :
  out Tp.eval Tp.new (Sample true 100 0 :: [Sample false 100 40]) (Sample true 100 100)
    = (false, 100).
Proof.
  apply (tp_pulse_width Tp.new (Sample true 100 0) (Sample true 100 100)
    [Sample false 100 40] [Sample true 100 110] 100); repeat constructor; done.
Defined.
