(* ===== verification/FbBlocks.v ===== *)
(** * Counters, edge detectors, latches and the PID block

    Crate [plc-fb-primitives]: src/crates/plc-fb-primitives/src/counter.rs,
    edge.rs, latch.rs and pid.rs. REAL values are their 32-bit patterns. *)
From S2P Require Import Prelude Float32 FbTimers.

Module Ctu.
Record t := mk { q : bool; cv : Z; prev_cu : bool }.

Definition new : t := mk false 0 false.

Definition eval (s : t) (cu r : bool) (pv : Z) : t * (bool * Z) :=
  let cv' :=
    if r then 0
    else
      let rising := cu && negb (prev_cu s) in
      if rising && (cv s <? i32_max) then Z.min (cv s + 1) i32_max else cv s in
  let s := mk (pv <=? cv') cv' cu in
  (s, (q s, cv s)).

Definition ok (s : t) : Prop := 0 <= cv s <= i32_max.
End Ctu.

Module Ctd.
Record t := mk { q : bool; cv : Z; prev_cd : bool; prev_ld : bool }.

Definition new : t := mk false 0 false false.

Definition eval (s : t) (cd ld : bool) (pv : Z) : t * (bool * Z) :=
  let load_edge := ld && negb (prev_ld s) in
  let count_edge := cd && negb (prev_cd s) in
  let cv' :=
    if load_edge then pv
    else if count_edge && (i32_min <? cv s) then Z.max (cv s - 1) i32_min else cv s in
  let s := mk (cv' <=? 0) cv' cd ld in
  (s, (q s, cv s)).

Definition ok (s : t) : Prop := s_range 32 (cv s).
End Ctd.

Module RTrig.
Record t := mk { q : bool; prev : bool }.
Definition new : t := mk false false.
Definition eval (s : t) (clk : bool) : t * bool :=
  let s := mk (clk && negb (prev s)) clk in (s, q s).
End RTrig.

Module FTrig.
Record t := mk { q : bool; prev : bool }.
Definition new : t := mk false false.
Definition eval (s : t) (clk : bool) : t * bool :=
  let s := mk (negb clk && prev s) clk in (s, q s).
End FTrig.

Module Rs.
Record t := mk { q : bool }.
Definition new : t := mk false.
Definition eval (st : t) (s r : bool) : t * bool :=
  let st := mk ((s || q st) && negb r) in (st, q st).
End Rs.

Module Sr.
Record t := mk { q : bool }.
Definition new : t := mk false.
Definition eval (st : t) (s r : bool) : t * bool :=
  let st := mk (s || (q st && negb r)) in (st, q st).
End Sr.

Module Pid.
Record t := mk {
  kp : Z; ki : Z; kd : Z; out_min : Z; out_max : Z; out : Z;
  integral : Z; last_err : Z; last_now_ms : Z; initialized : bool }.

Definition new (kp ki kd out_min out_max : Z) : t :=
  mk kp ki kd out_min out_max f32_zero f32_zero f32_zero 0 false.

Definition f32_hundred : Z := 0x42C80000.
Definition f32_neg_hundred : Z := 0xC2C80000.

Definition default : t := new f32_one f32_zero f32_zero f32_neg_hundred f32_hundred.

Definition cold_reset (s : t) : t :=
  mk (kp s) (ki s) (kd s) (out_min s) (out_max s) f32_zero f32_zero f32_zero 0 false.

Definition ki_or_one (s : t) : Z :=
  if f32_lt (f32_abs (ki s)) f32_epsilon then f32_one else f32_abs (ki s).

Section Eval.
Context `{NanRule} {E : Type}.

(** [f32::clamp] asserts [min <= max]: the only way [eval] panics. *)
Definition eval (s : t) (pv sp : Z) (enable : bool) (now_ms : Z) : res E (t * Z) :=
  if negb enable then Ok (s, out s)
  else
    let err := f32_sub sp pv in
    let dt_s :=
      if initialized s then
        let dms := sat_sub_u now_ms (last_now_ms s) in
        f32_div (f32_of_int dms) f32_thousand
      else f32_zero in
    '(integral', out') ←
      (if initialized s && f32_lt f32_zero dt_s then
         integral' ← f32_clamp (f32_add (integral s) (f32_mul err dt_s))
                       (f32_div (out_min s) (ki_or_one s)) (f32_div (out_max s) (ki_or_one s));
         let i_term := f32_mul (ki s) integral' in
         let d_term := f32_div (f32_mul (kd s) (f32_sub err (last_err s))) dt_s in
         let p_term := f32_mul (kp s) err in
         out' ← f32_clamp (f32_add (f32_add p_term i_term) d_term) (out_min s) (out_max s);
         Ok (integral', out')
       else
         out' ← f32_clamp (f32_mul (kp s) err) (out_min s) (out_max s);
         Ok (f32_zero, out'));
    Ok (mk (kp s) (ki s) (kd s) (out_min s) (out_max s) out' integral' err now_ms true, out').

(** Usable limits: ordered, so are the integrator's, they contain the initial
    output 0, and the output lies between them (or is a NaN, which no comparison
    excludes). *)
Record ok (s : t) : Prop := {
  ok_limits : f32_le (out_min s) (out_max s) = true;
  ok_order : f32_lt (out_max s) (out_min s) = false;
  ok_min : f32_lt (out_min s) (out_min s) = false;
  ok_max : f32_lt (out_max s) (out_max s) = false;
  ok_integral : f32_le (f32_div (out_min s) (ki_or_one s))
                       (f32_div (out_max s) (ki_or_one s)) = true;
  ok_zero_lo : f32_lt f32_zero (out_min s) = false;
  ok_zero_hi : f32_lt (out_max s) f32_zero = false;
  ok_lo : f32_lt (out s) (out_min s) = false;
  ok_hi : f32_lt (out_max s) (out s) = false;
  ok_min_range : u_range 32 (out_min s);
  ok_max_range : u_range 32 (out_max s);
  ok_out_range : u_range 32 (out s) }.
End Eval.
End Pid.

Lemma Ctu_eval_ok s cu r pv : Ctu.ok s -> Ctu.ok (fst (Ctu.eval s cu r pv)).
Proof.
  unfold Ctu.ok, Ctu.eval. cbn [fst Ctu.cv]. intros H.
  destruct r; [unfold i32_max in *; lia|]. case_match; lia.
Qed.

Lemma Ctd_eval_ok s cd ld pv :
  Ctd.ok s -> s_range 32 pv -> Ctd.ok (fst (Ctd.eval s cd ld pv)).
Proof.
  unfold Ctd.ok, Ctd.eval, s_range, i32_min. cbn [fst Ctd.cv]. intros H ?.
  case_match; [lia|]. case_match; lia.
Qed.

(** Two instances with the same gains and limits, one of them usable, and an
    output inside the limits. *)
Lemma Pid_ok_out `{NanRule} s out i e n b :
  Pid.ok s -> f32_lt out (Pid.out_min s) = false -> f32_lt (Pid.out_max s) out = false ->
  u_range 32 out ->
  Pid.ok (Pid.mk (Pid.kp s) (Pid.ki s) (Pid.kd s) (Pid.out_min s) (Pid.out_max s) out i e n b).
Proof. intros [] ???. by split. Qed.

Lemma Pid_clamp_out `{NanRule} {E} s x :
  Pid.ok s -> u_range 32 x ->
  exists r, @f32_clamp E x (Pid.out_min s) (Pid.out_max s) = Ok r /\
    f32_lt r (Pid.out_min s) = false /\ f32_lt (Pid.out_max s) r = false /\ u_range 32 r.
Proof.
  intros [] Hx. destruct (@f32_clamp_no_panic E x _ _ ok_limits) as [r Hr].
  exists r. split; [done|].
  destruct (f32_clamp_bounds _ _ _ _ Hr) as [H1 H2]; [done..|].
  split; [done|]. split; [done|]. exact (f32_clamp_range _ _ _ _ Hx ok_min_range ok_max_range Hr).
Qed.

Lemma Pid_default_ok `{NanRule} : Pid.ok Pid.default.
Proof. split; try (vm_compute; reflexivity); unfold u_range; vm_compute; split; done. Qed.

Lemma Pid_cold_ok `{NanRule} s : Pid.ok s -> Pid.ok (Pid.cold_reset s).
Proof. intros Hs. apply Pid_ok_out; [done|apply Hs..|]. by vm_compute. Qed.

Lemma Pid_eval_ok `{NanRule} {E} s pv sp en now :
  Pid.ok s ->
  exists s' o, @Pid.eval _ E s pv sp en now = Ok (s', o) /\ Pid.ok s' /\ o = Pid.out s'.
Proof.
  intros Hs. unfold Pid.eval. destruct en; cbn [negb]; [|by eauto].
  set (err := f32_sub sp pv). set (dt_s := if Pid.initialized s then _ else _).
  destruct (Pid.initialized s && f32_lt f32_zero dt_s).
  - destruct (@f32_clamp_no_panic E (f32_add (Pid.integral s) (f32_mul err dt_s)) _ _
      (Pid.ok_integral _ Hs)) as [i Hi].
    rewrite Hi. cbn [mbind res_bind].
    edestruct (@Pid_clamp_out _ E s) as (r & Hr & H1 & H2 & H3); [done|apply f32_result_range|].
    unfold f32_add at 1. rewrite Hr. cbn [mbind res_bind].
    eexists _, _. split; [done|]. split; [by apply Pid_ok_out|done].
  - edestruct (@Pid_clamp_out _ E s) as (r & Hr & H1 & H2 & H3); [done|apply f32_result_range|].
    unfold f32_mul at 1. rewrite Hr. cbn [mbind res_bind].
    eexists _, _. split; [done|]. split; [by apply Pid_ok_out|done].
Qed.

(** ** Runs of the counters, edge detectors and latches *)

(** Rising edges of a boolean signal whose previous level is [prev]. *)
Fixpoint rising_edges (prev : bool) (l : list bool) : Z :=
  match l with
  | [] => 0
  | b :: l => (if b && negb prev then 1 else 0) + rising_edges b l
  end.

Lemma rising_edges_nonneg prev l : 0 <= rising_edges prev l.
Proof. revert prev. induction l as [|b l IH]; intros prev; simpl; [lia|]. specialize (IH b). case_match; lia. Qed.

(** Counter inputs: the counted signal, reset or load, and the preset. *)
Record csample := CSample { c_count : bool; c_ctl : bool; c_pv : Z }.

Definition ctu_run (s : Ctu.t) (xs : list csample) : Ctu.t :=
  fold_left (fun s x => fst (Ctu.eval s (c_count x) (c_ctl x) (c_pv x))) xs s.
Definition ctd_run (s : Ctd.t) (xs : list csample) : Ctd.t :=
  fold_left (fun s x => fst (Ctd.eval s (c_count x) (c_ctl x) (c_pv x))) xs s.
Fixpoint r_trig_outs (s : RTrig.t) (xs : list bool) : list bool :=
  match xs with
  | [] => []
  | x :: xs => let '(s, q) := RTrig.eval s x in q :: r_trig_outs s xs
  end.
Fixpoint f_trig_outs (s : FTrig.t) (xs : list bool) : list bool :=
  match xs with
  | [] => []
  | x :: xs => let '(s, q) := FTrig.eval s x in q :: f_trig_outs s xs
  end.
Definition rs_run (st : Rs.t) (xs : list (bool * bool)) : Rs.t :=
  fold_left (fun st x => fst (Rs.eval st x.1 x.2)) xs st.
Definition sr_run (st : Sr.t) (xs : list (bool * bool)) : Sr.t :=
  fold_left (fun st x => fst (Sr.eval st x.1 x.2)) xs st.

(** The last set not followed by a reset, or the initial state if none of the
    samples resets. [sets] and [resets] say which samples do. *)
Definition latched (sets resets : bool * bool -> bool) (q0 : bool) (xs : list (bool * bool)) : Prop :=
  (exists pre x post, xs = pre ++ x :: post /\ sets x = true /\
    Forall (fun y => resets y = false) post) \/
  (q0 = true /\ Forall (fun y => resets y = false) xs).

Lemma latched_snoc sets resets q0 xs x :
  latched sets resets q0 (xs ++ [x]) <->
  sets x = true \/ (resets x = false /\ latched sets resets q0 xs).
Proof.
  unfold latched. split.
  - intros [(pre & y & post & He & Hy & Hp)|[Hq Hx]].
    + destruct post as [|z post _] using rev_ind.
      * apply app_inj_tail in He as [-> ->]. by left.
      * rewrite app_comm_cons, app_assoc in He. apply app_inj_tail in He as [-> <-].
        apply Forall_app in Hp as [Hp Hx]. apply Forall_cons in Hx as [Hx _].
        right. split; [done|]. left. eauto 6.
    + apply Forall_app in Hx as [Hx Hz]. apply Forall_cons in Hz as [Hz _]. right. eauto.
  - intros [Hx|(Hr & [(pre & y & post & -> & Hy & Hp)|[Hq Hx]])].
    + left. by exists xs, x, [].
    + left. exists pre, y, (post ++ [x]). rewrite <-app_assoc. split; [done|].
      split; [done|]. apply Forall_app; auto.
    + right. split; [done|]. apply Forall_app; auto.
Qed.

(** ** Properties *)

(** A CTU counts the rising edges of CU since it was last reset, saturating
    at the largest [i32] instead of wrapping, holds zero while R is true, and
    [Q] says whether the count has reached the preset; an edge that arrives
    together with R is lost. *)
Lemma ctu_counts (s : Ctu.t) (reset : csample) (xs : list csample) (x : csample)
    (Hreset : c_ctl reset = true) (Hxs : Forall (fun y => c_ctl y = false) xs)
    (Hx : c_ctl x = false) :
  let n := Z.min (rising_edges (c_count reset) (map c_count (xs ++ [x]))) i32_max in
  (Ctu.eval s (c_count reset) true (c_pv reset)).2 = (c_pv reset <=? 0, 0) /\
  (Ctu.eval (ctu_run s (reset :: xs)) (c_count x) (c_ctl x) (c_pv x)).2 = (c_pv x <=? n, n).
Proof.
  split; [done|].
  assert (Hgo : forall xs s, 0 <= Ctu.cv s <= i32_max -> Forall (fun y => c_ctl y = false) xs ->
    Ctu.cv (ctu_run s xs) =
      Z.min (Ctu.cv s + rising_edges (Ctu.prev_cu s) (map c_count xs)) i32_max).
  { clear. induction xs as [|x xs IH]; intros s Hs Hxs; [simpl; lia|].
    apply Forall_cons in Hxs as [Hx Hxs]. cbn [ctu_run fold_left map rising_edges].
    fold (ctu_run (Ctu.eval s (c_count x) (c_ctl x) (c_pv x)).1 xs).
    rewrite IH; [|by apply Ctu_eval_ok|done].
    unfold Ctu.eval. rewrite Hx. cbn [fst Ctu.cv Ctu.prev_cu].
    pose proof (rising_edges_nonneg (c_count x) (map c_count xs)).
    destruct (c_count x && negb (Ctu.prev_cu s)); [|cbn [andb]; lia].
    destruct (Z.ltb_spec (Ctu.cv s) i32_max); cbn [andb]; lia. }
  assert (Hcv : forall s', (Ctu.eval s' (c_count x) (c_ctl x) (c_pv x)).2 =
    let n := Ctu.cv (Ctu.eval s' (c_count x) (c_ctl x) (c_pv x)).1 in (c_pv x <=? n, n)) by done.
  rewrite Hcv. cbn zeta.
  assert (ctu_run s (reset :: xs ++ [x]) =
          (Ctu.eval (ctu_run s (reset :: xs)) (c_count x) (c_ctl x) (c_pv x)).1) as <-
    by (unfold ctu_run; cbn [fold_left]; by rewrite fold_left_app).
  change (ctu_run s (reset :: xs ++ [x]))
    with (ctu_run (Ctu.eval s (c_count reset) (c_ctl reset) (c_pv reset)).1 (xs ++ [x])).
  unfold Ctu.eval. rewrite Hreset. cbn [fst].
  rewrite Hgo; [done|by vm_compute|]. apply Forall_app; auto.
Qed.

(** A CTD loads the preset at the rising edge of LD, then counts the rising
    edges of CD down from it, stopping at the smallest [i32] instead of
    wrapping, and [Q] says whether the count is at or below zero. *)
Lemma ctd_counts (s : Ctd.t) (load : csample) (xs : list csample) (x : csample)
    (Hload : c_ctl load = true) (Hprev : Ctd.prev_ld s = false) (Hpv : s_range 32 (c_pv load))
    (Hxs : rising_edges true (map c_ctl (xs ++ [x])) = 0) :
  let n := Z.max (c_pv load - rising_edges (c_count load) (map c_count (xs ++ [x]))) i32_min in
  (Ctd.eval s (c_count load) true (c_pv load)).2 = (c_pv load <=? 0, c_pv load) /\
  (Ctd.eval (ctd_run s (load :: xs)) (c_count x) (c_ctl x) (c_pv x)).2 = (n <=? 0, n).
Proof.
  split; [unfold Ctd.eval; by rewrite Hprev|].
  assert (Hgo : forall xs s, i32_min <= Ctd.cv s ->
    rising_edges (Ctd.prev_ld s) (map c_ctl xs) = 0 ->
    Ctd.cv (ctd_run s xs) =
      Z.max (Ctd.cv s - rising_edges (Ctd.prev_cd s) (map c_count xs)) i32_min).
  { clear. induction xs as [|x xs IH]; intros s Hs Hxs; [simpl; lia|].
    cbn [ctd_run fold_left map rising_edges] in *.
    fold (ctd_run (Ctd.eval s (c_count x) (c_ctl x) (c_pv x)).1 xs).
    pose proof (rising_edges_nonneg (c_ctl x) (map c_ctl xs)).
    assert (c_ctl x && negb (Ctd.prev_ld s) = false) as Hl by (case_match; [lia|done]).
    rewrite Hl in Hxs.
    pose proof (rising_edges_nonneg (c_count x) (map c_count xs)).
    unfold Ctd.eval. rewrite Hl. cbn [fst].
    rewrite IH; cbn [Ctd.cv Ctd.prev_cd Ctd.prev_ld]; [| |done].
    all: destruct (c_count x && negb (Ctd.prev_cd s)); cbn [andb]; try lia;
      destruct (Z.ltb_spec i32_min (Ctd.cv s)); lia. }
  assert (Hcv : forall s', (Ctd.eval s' (c_count x) (c_ctl x) (c_pv x)).2 =
    let n := Ctd.cv (Ctd.eval s' (c_count x) (c_ctl x) (c_pv x)).1 in (n <=? 0, n)) by done.
  rewrite Hcv. cbn zeta.
  assert (ctd_run s (load :: xs ++ [x]) =
          (Ctd.eval (ctd_run s (load :: xs)) (c_count x) (c_ctl x) (c_pv x)).1) as <-
    by (unfold ctd_run; cbn [fold_left]; by rewrite fold_left_app).
  change (ctd_run s (load :: xs ++ [x]))
    with (ctd_run (Ctd.eval s (c_count load) (c_ctl load) (c_pv load)).1 (xs ++ [x])).
  unfold Ctd.eval. rewrite Hload, Hprev. cbn [fst negb andb].
  rewrite Hgo; [done|by apply Hpv|done].
Qed.

(** The latches. After any sequence of samples [(S, R)], an RS block is set
    exactly when some sample sets it (S without R) and no later sample has R, and
    an SR block exactly when some sample has S and no later one resets it (R
    without S), or the block started set and nothing reset it: reset wins in RS,
    set wins in SR. *)
Lemma latches_dominance (q0 : bool) (xs : list (bool * bool)) :
  (Rs.q (rs_run (Rs.mk q0) xs) = true <->
    latched (fun x => x.1 && negb x.2) (fun x => x.2) q0 xs) /\
  (Sr.q (sr_run (Sr.mk q0) xs) = true <->
    latched (fun x => x.1) (fun x => x.2 && negb x.1) q0 xs).
Proof.
  assert (Hnil : forall f g, q0 = true <-> latched f g q0 []).
  { intros f g. unfold latched. split; [by right|].
    intros [(pre & x & post & He & _)|[? _]]; [by destruct pre|done]. }
  induction xs as [|[s r] xs [IH1 IH2]] using rev_ind; [split; apply Hnil|].
  rewrite !latched_snoc, <-IH1, <-IH2. unfold rs_run, sr_run. rewrite !fold_left_app.
  fold (rs_run (Rs.mk q0) xs) (sr_run (Sr.mk q0) xs). cbn [fold_left fst snd Rs.eval Sr.eval Rs.q Sr.q].
  generalize (Rs.q (rs_run (Rs.mk q0) xs)), (Sr.q (sr_run (Sr.mk q0) xs)). intros a b.
  destruct s, r, a, b; cbn; naive_solver.
Qed.

Lemma zip_with_cons {A B C} (f : A -> B -> C) x y l k :
  zip_with f (x :: l) (y :: k) = f x y :: zip_with f l k.
Proof. done. Qed.

(** How many of the outputs are true. *)
Definition pulses (l : list bool) : Z := Z.of_nat (count_occ Bool.bool_dec l true).

(** Edge detection. On every clock signal, R_TRIG's output is true exactly on
    the samples where the clock goes from false to true and F_TRIG's where it
    goes from true to false, both relative to the previous sample (the stored
    one for the first), so an R_TRIG and an F_TRIG fed the same clock pulse in
    turn and their pulse counts differ by the change of level. *)
Lemma edge_triggers (qr qf prev : bool) (clk : list bool) :
  let r := r_trig_outs (RTrig.mk qr prev) clk in
  let f := f_trig_outs (FTrig.mk qf prev) clk in
  r = zip_with (fun p c => c && negb p) (prev :: clk) clk /\
  f = zip_with (fun p c => p && negb c) (prev :: clk) clk /\
  pulses r - pulses f = Z.b2z (List.last clk prev) - Z.b2z prev.
Proof.
  cbn zeta. revert qr qf prev. induction clk as [|c clk IH]; intros qr qf prev.
  - unfold pulses. simpl. repeat split. lia.
  - destruct (IH (c && negb prev) (negb c && prev) c) as (H1 & H2 & H3).
    rewrite List_last_cons. cbn [r_trig_outs f_trig_outs RTrig.eval FTrig.eval RTrig.prev FTrig.prev
      RTrig.q FTrig.q]. rewrite !zip_with_cons.
    rewrite <-H1, <-H2, (andb_comm (negb c)).
    split; [done|]. split; [done|]. rewrite (andb_comm (negb c)) in H3.
    unfold pulses in *. destruct c, prev; simpl in *; lia.
Qed.

(** C27: the PID block. From a usable instance (ordered limits), [eval] never
    trips the assertion of [f32::clamp], leaves the instance usable, and returns
    an output no smaller than the low limit and no larger than the high one (a
    NaN input may make it NaN); when disabled it returns the held output and
    changes nothing; gains and limits never change. *)
Theorem pid_bounded `{NanRule} (s : Pid.t) (pv sp now : Z) (en : bool) (Hs : Pid.ok s) :
  exists s' o, @Pid.eval _ unit s pv sp en now = Ok (s', o) /\
    Pid.ok s' /\ o = Pid.out s' /\
    f32_lt o (Pid.out_min s) = false /\ f32_lt (Pid.out_max s) o = false /\
    (en = false -> s' = s) /\
    (Pid.kp s', Pid.ki s', Pid.kd s', Pid.out_min s', Pid.out_max s') =
    (Pid.kp s, Pid.ki s, Pid.kd s, Pid.out_min s, Pid.out_max s).
Proof.
  destruct (@Pid_eval_ok _ unit s pv sp en now Hs) as (s' & o & He & Hs' & ->).
  exists s', (Pid.out s'). split; [done|].
  assert (Hg : (Pid.kp s', Pid.ki s', Pid.kd s', Pid.out_min s', Pid.out_max s') =
    (Pid.kp s, Pid.ki s, Pid.kd s, Pid.out_min s, Pid.out_max s) /\ (en = false -> s' = s)).
  { unfold Pid.eval in He. destruct en; cbn [negb] in He; [|naive_solver].
    apply res_bind_Ok in He as ([i r] & _ & He). apply Ok_inj in He.
    split; [|done]. by injection He as <- _. }
  destruct Hg as [Hg Hdis]. pose proof Hg as Hg'. injection Hg' as _ _ _ Hmin Hmax.
  pose proof (Pid.ok_lo _ Hs') as H1. pose proof (Pid.ok_hi _ Hs') as H2.
  rewrite Hmin in H1. rewrite Hmax in H2. auto 8.
Qed.

(** ** Witnesses *)

Definition sample_csamples : list csample :=
  [CSample true false 2; CSample false false 2].

Lemma ctu_counts_witness :
  (Ctu.eval (ctu_run Ctu.new (CSample false true 2 :: sample_csamples)) true false 2).2
    = (true, 2).
Proof.
  apply (ctu_counts Ctu.new (CSample false true 2) sample_csamples (CSample true false 2));
    repeat constructor.
Defined.

Lemma ctd_counts_witness :
  (Ctd.eval (ctd_run Ctd.new (CSample false true 2 :: sample_csamples)) true false 2).2
    = (true, 0).
Proof.
  apply (ctd_counts Ctd.new (CSample false true 2) sample_csamples (CSample true false 2));
    try done.
Defined.

Lemma pid_bounded_witness :
  exists s' o, @Pid.eval canonical_nan unit Pid.default f32_zero f32_one true 0 = Ok (s', o) /\
    o = f32_one.
Proof.
  destruct (@pid_bounded canonical_nan Pid.default f32_zero f32_one 0 true Pid_default_ok)
    as (s' & o & He & _). exists s', o. split; [exact He|].
  vm_compute in He. by injection He.
Defined.
