(* ===== verification/FbDispatch.v ===== *)
(** * Primitive dispatch over the instance store

    Crate [plc-fb-primitives], src/crates/plc-fb-primitives/src/dispatch.rs.
    The store holds one pool per primitive; [Pool] is what the dispatcher needs
    of a pool, and its laws are what the theorems use. *)
From S2P Require Import Prelude Float32 IrTypes FbTimers FbBlocks.

Inductive PrimitiveCallError :=
  | BadInstance
  | Arity (expected got : Z)
  | PTypeMismatch.

Inductive StackValue := SBool (b : bool) | SDint (v : Z) | SReal (v : Z).

Module SV.
Definition as_bool (v : StackValue) : option bool :=
  match v with SBool b => Some b | _ => None end.

Definition as_dint (v : StackValue) : option Z :=
  match v with
  | SDint v => Some v
  | SBool b => Some (if b then 1 else 0)
  | SReal _ => None
  end.

Definition as_real (v : StackValue) : option Z :=
  match v with
  | SReal v => Some v
  | SDint v => Some (f32_of_int v)
  | SBool b => Some (if b then f32_one else f32_zero)
  end.
End SV.

Record PrimitiveOutputs := { values : list StackValue; count : Z }.

Definition out_one (v : StackValue) : PrimitiveOutputs :=
  {| values := [v; SBool false; SBool false; SBool false]; count := 1 |}.
Definition out_two (a b : StackValue) : PrimitiveOutputs :=
  {| values := [a; b; SBool false; SBool false]; count := 2 |}.

Record PrimitiveStore := mkStore {
  ton : list Ton.t; tof : list Tof.t; tp : list Tp.t;
  ctu : list Ctu.t; ctd : list Ctd.t; rs : list Rs.t; sr : list Sr.t;
  r_trig : list RTrig.t; f_trig : list FTrig.t; pid : list Pid.t }.

Definition store_new : PrimitiveStore := mkStore [] [] [] [] [] [] [] [] [] [].

Definition with_capacity (n : nat) : PrimitiveStore :=
  mkStore (replicate n Ton.new) (replicate n Tof.new) (replicate n Tp.new)
    (replicate n Ctu.new) (replicate n Ctd.new) (replicate n Rs.new) (replicate n Sr.new)
    (replicate n RTrig.new) (replicate n FTrig.new) (replicate n Pid.default).

Definition cold_reset_all (s : PrimitiveStore) : PrimitiveStore :=
  mkStore (map (fun _ => Ton.new) (ton s)) (map (fun _ => Tof.new) (tof s))
    (map (fun _ => Tp.new) (tp s)) (map (fun _ => Ctu.new) (ctu s))
    (map (fun _ => Ctd.new) (ctd s)) (map (fun _ => Rs.new) (rs s))
    (map (fun _ => Sr.new) (sr s)) (map (fun _ => RTrig.new) (r_trig s))
    (map (fun _ => FTrig.new) (f_trig s)) (map Pid.cold_reset (pid s)).

(** ** Pools *)

Class Pool (I : Type) := {
  pool : PrimitiveStore -> list I;
  set_pool : list I -> PrimitiveStore -> PrimitiveStore;
  inst_ok : I -> Prop }.

#[export] Instance ton_pool : Pool Ton.t := {|
  pool := ton; inst_ok := Ton.ok;
  set_pool l s := mkStore l (tof s) (tp s) (ctu s) (ctd s) (rs s) (sr s) (r_trig s) (f_trig s) (pid s) |}.
#[export] Instance tof_pool : Pool Tof.t := {|
  pool := tof; inst_ok := Tof.ok;
  set_pool l s := mkStore (ton s) l (tp s) (ctu s) (ctd s) (rs s) (sr s) (r_trig s) (f_trig s) (pid s) |}.
#[export] Instance tp_pool : Pool Tp.t := {|
  pool := tp; inst_ok := Tp.ok;
  set_pool l s := mkStore (ton s) (tof s) l (ctu s) (ctd s) (rs s) (sr s) (r_trig s) (f_trig s) (pid s) |}.
#[export] Instance ctu_pool : Pool Ctu.t := {|
  pool := ctu; inst_ok := Ctu.ok;
  set_pool l s := mkStore (ton s) (tof s) (tp s) l (ctd s) (rs s) (sr s) (r_trig s) (f_trig s) (pid s) |}.
#[export] Instance ctd_pool : Pool Ctd.t := {|
  pool := ctd; inst_ok := Ctd.ok;
  set_pool l s := mkStore (ton s) (tof s) (tp s) (ctu s) l (rs s) (sr s) (r_trig s) (f_trig s) (pid s) |}.
#[export] Instance rs_pool : Pool Rs.t := {|
  pool := rs; inst_ok _ := True;
  set_pool l s := mkStore (ton s) (tof s) (tp s) (ctu s) (ctd s) l (sr s) (r_trig s) (f_trig s) (pid s) |}.
#[export] Instance sr_pool : Pool Sr.t := {|
  pool := sr; inst_ok _ := True;
  set_pool l s := mkStore (ton s) (tof s) (tp s) (ctu s) (ctd s) (rs s) l (r_trig s) (f_trig s) (pid s) |}.
#[export] Instance r_trig_pool : Pool RTrig.t := {|
  pool := r_trig; inst_ok _ := True;
  set_pool l s := mkStore (ton s) (tof s) (tp s) (ctu s) (ctd s) (rs s) (sr s) l (f_trig s) (pid s) |}.
#[export] Instance f_trig_pool : Pool FTrig.t := {|
  pool := f_trig; inst_ok _ := True;
  set_pool l s := mkStore (ton s) (tof s) (tp s) (ctu s) (ctd s) (rs s) (sr s) (r_trig s) l (pid s) |}.
#[export] Instance pid_pool `{NanRule} : Pool Pid.t := {|
  pool := pid; inst_ok := Pid.ok;
  set_pool l s := mkStore (ton s) (tof s) (tp s) (ctu s) (ctd s) (rs s) (sr s) (r_trig s) (f_trig s) l |}.

(** ** Dispatch *)

Section Call.
Context `{NanRule}.

(** [store.<pool>.get_mut(instance).ok_or(BadInstance)?] and the rest of an
    arm, which evaluates the instance in place. *)
Definition with_instance `{Pool X} (instance : nat)
    (k : X -> res PrimitiveCallError (X * PrimitiveOutputs)) :
    M PrimitiveStore PrimitiveCallError PrimitiveOutputs := fun s =>
  match pool s !! instance with
  | None => (s, Err BadInstance)
  | Some x =>
      match k x with
      | Ok (x', o) => (set_pool (<[instance := x']> (pool s)) s, Ok o)
      | Err e => (s, Err e)
      | Panic => (s, Panic)
      end
  end.

(** [inputs[i].as_*().ok_or(TypeMismatch)?]. *)
Definition arg {A} (as_ : StackValue -> option A) (inputs : list StackValue) (i : nat) :
    res PrimitiveCallError A :=
  v ← index inputs i; ok_or (as_ v) PTypeMismatch.

(** The arm shared by TON, TOF and TP. *)
Definition call_timer {I} (eval : I -> bool -> Z -> Z -> I * (bool * Z)) (inputs : list StackValue)
    (now_ms : Z) (x : I) : res PrimitiveCallError (I * PrimitiveOutputs) :=
  inp ← arg SV.as_bool inputs 0;
  pt ← arg SV.as_dint inputs 1;
  let '(x, (q, et)) := eval x inp pt now_ms in
  Ok (x, out_two (SBool q) (SDint et)).

Definition call_counter {I} (eval : I -> bool -> bool -> Z -> I * (bool * Z))
    (inputs : list StackValue) (x : I) : res PrimitiveCallError (I * PrimitiveOutputs) :=
  c ← arg SV.as_bool inputs 0;
  ctl ← arg SV.as_bool inputs 1;
  pv ← arg SV.as_dint inputs 2;
  let '(x, (q, cv)) := eval x c ctl pv in
  Ok (x, out_two (SBool q) (SDint cv)).

Definition call_latch {I} (eval : I -> bool -> bool -> I * bool) (inputs : list StackValue)
    (x : I) : res PrimitiveCallError (I * PrimitiveOutputs) :=
  s ← arg SV.as_bool inputs 0;
  r ← arg SV.as_bool inputs 1;
  let '(x, q) := eval x s r in
  Ok (x, out_one (SBool q)).

Definition call_edge {I} (eval : I -> bool -> I * bool) (inputs : list StackValue)
    (x : I) : res PrimitiveCallError (I * PrimitiveOutputs) :=
  clk ← arg SV.as_bool inputs 0;
  let '(x, q) := eval x clk in
  Ok (x, out_one (SBool q)).

Definition call_pid (inputs : list StackValue) (now_ms : Z) (x : Pid.t) :
    res PrimitiveCallError (Pid.t * PrimitiveOutputs) :=
  pv ← arg SV.as_real inputs 0;
  sp ← arg SV.as_real inputs 1;
  en ← arg SV.as_bool inputs 2;
  '(x, out) ← Pid.eval x pv sp en now_ms;
  Ok (x, out_one (SReal out)).

Definition call_primitive (id : PrimitiveId) (instance : nat) (inputs : list StackValue)
    (now_ms : Z) : M PrimitiveStore PrimitiveCallError PrimitiveOutputs := fun s =>
  let expected := Prim.input_count id in
  if negb (length inputs =? expected)%nat then
    (s, Err (Arity (Z.of_nat expected) (wrap_u 8 (len inputs))))
  else
    match id with
    | PTon => with_instance instance (call_timer Ton.eval inputs now_ms) s
    | PTof => with_instance instance (call_timer Tof.eval inputs now_ms) s
    | PTp => with_instance instance (call_timer Tp.eval inputs now_ms) s
    | PCtu => with_instance instance (call_counter Ctu.eval inputs) s
    | PCtd => with_instance instance (call_counter Ctd.eval inputs) s
    | PRs => with_instance instance (call_latch Rs.eval inputs) s
    | PSr => with_instance instance (call_latch Sr.eval inputs) s
    | PRTrig => with_instance instance (call_edge RTrig.eval inputs) s
    | PFTrig => with_instance instance (call_edge FTrig.eval inputs) s
    | PPid => with_instance instance (call_pid inputs now_ms) s
    end.
End Call.

(** ** What a call promises *)

Section Laws.
Context `{NanRule}.

Record store_ok (s : PrimitiveStore) : Prop := {
  so_ton : Forall Ton.ok (ton s); so_tof : Forall Tof.ok (tof s); so_tp : Forall Tp.ok (tp s);
  so_ctu : Forall Ctu.ok (ctu s); so_ctd : Forall Ctd.ok (ctd s); so_pid : Forall Pid.ok (pid s) }.

(** An instance of any kind, and the one a primitive and an index name. *)
Inductive AnyInst :=
  | ATon (x : Ton.t) | ATof (x : Tof.t) | ATp (x : Tp.t) | ACtu (x : Ctu.t) | ACtd (x : Ctd.t)
  | ARs (x : Rs.t) | ASr (x : Sr.t) | ARTrig (x : RTrig.t) | AFTrig (x : FTrig.t) | APid (x : Pid.t).

Definition inst_at (s : PrimitiveStore) (id : PrimitiveId) (j : nat) : option AnyInst :=
  match id with
  | PTon => ATon <$> ton s !! j | PTof => ATof <$> tof s !! j | PTp => ATp <$> tp s !! j
  | PCtu => ACtu <$> ctu s !! j | PCtd => ACtd <$> ctd s !! j
  | PRs => ARs <$> rs s !! j | PSr => ASr <$> sr s !! j
  | PRTrig => ARTrig <$> r_trig s !! j | PFTrig => AFTrig <$> f_trig s !! j
  | PPid => APid <$> pid s !! j
  end.

(** The laws that connect a pool to the store: which primitive uses it, and
    that replacing it touches nothing else. *)
Class PoolLaws (X : Type) `{Pool X} := {
  pool_id : PrimitiveId;
  any_inst : X -> AnyInst;
  pool_at : forall s j, inst_at s pool_id j = any_inst <$> pool s !! j;
  pool_set : forall l s, pool (set_pool l s) = l;
  set_pool_frame : forall l s id j, id <> pool_id -> inst_at (set_pool l s) id j = inst_at s id j;
  pool_ok : forall s, store_ok s -> Forall inst_ok (pool s);
  set_pool_ok : forall l s, store_ok s -> Forall inst_ok l -> store_ok (set_pool l s) }.

Ltac pool_laws :=
  first
    [ by intros s j; simpl | by intros l s | by intros l s [] j Hj
    | intros l [] [] Hl; by split | intros s []; done | intros s _; by apply Forall_true ].

#[local] Instance ton_laws : PoolLaws Ton.t.
Proof. refine {| pool_id := PTon; any_inst := ATon |}; pool_laws. Defined.
#[local] Instance tof_laws : PoolLaws Tof.t.
Proof. refine {| pool_id := PTof; any_inst := ATof |}; pool_laws. Defined.
#[local] Instance tp_laws : PoolLaws Tp.t.
Proof. refine {| pool_id := PTp; any_inst := ATp |}; pool_laws. Defined.
#[local] Instance ctu_laws : PoolLaws Ctu.t.
Proof. refine {| pool_id := PCtu; any_inst := ACtu |}; pool_laws. Defined.
#[local] Instance ctd_laws : PoolLaws Ctd.t.
Proof. refine {| pool_id := PCtd; any_inst := ACtd |}; pool_laws. Defined.
#[local] Instance rs_laws : PoolLaws Rs.t.
Proof. refine {| pool_id := PRs; any_inst := ARs |}; pool_laws. Defined.
#[local] Instance sr_laws : PoolLaws Sr.t.
Proof. refine {| pool_id := PSr; any_inst := ASr |}; pool_laws. Defined.
#[local] Instance r_trig_laws : PoolLaws RTrig.t.
Proof. refine {| pool_id := PRTrig; any_inst := ARTrig |}; pool_laws. Defined.
#[local] Instance f_trig_laws : PoolLaws FTrig.t.
Proof. refine {| pool_id := PFTrig; any_inst := AFTrig |}; pool_laws. Defined.
#[local] Instance pid_laws : PoolLaws Pid.t.
Proof. refine {| pool_id := PPid; any_inst := APid |}; pool_laws. Defined.

(** Input and output kinds of the primitives. *)
Inductive kind := KBool | KDint | KReal.

Definition in_kinds (id : PrimitiveId) : list kind :=
  match id with
  | PTon | PTof | PTp => [KBool; KDint]
  | PCtu | PCtd => [KBool; KBool; KDint]
  | PRs | PSr => [KBool; KBool]
  | PRTrig | PFTrig => [KBool]
  | PPid => [KReal; KReal; KBool]
  end.

Definition out_kinds (id : PrimitiveId) : list kind :=
  match id with
  | PTon | PTof | PTp | PCtu | PCtd => [KBool; KDint]
  | PRs | PSr | PRTrig | PFTrig => [KBool]
  | PPid => [KReal]
  end.

(** A BOOL stands for a number, a DINT for a REAL, nothing else converts. *)
Definition accepts (k : kind) (v : StackValue) : bool :=
  match k, v with
  | KBool, SBool _ | KDint, (SBool _ | SDint _) | KReal, _ => true
  | _, _ => false
  end.

Fixpoint accepts_all (ks : list kind) (vs : list StackValue) : bool :=
  match ks, vs with
  | k :: ks, v :: vs => accepts k v && accepts_all ks vs
  | _, _ => true
  end.

Definition sv_ok (v : StackValue) : Prop :=
  match v with
  | SBool _ => True
  | SDint v => s_range 32 v
  | SReal v => u_range 32 v
  end.

Definition has_kind (k : kind) (v : StackValue) : Prop :=
  match k, v with
  | KBool, SBool _ | KDint, SDint _ | KReal, SReal _ => sv_ok v
  | _, _ => False
  end.

Definition outs_ok (ks : list kind) (o : PrimitiveOutputs) : Prop :=
  count o = len ks /\ length (values o) = 4%nat /\
  Forall2 has_kind ks (take (length ks) (values o)).

Lemma accepts_bool a : accepts KBool (SBool a) = true.
Proof. done. Qed.
Lemma accepts_real v : accepts KReal v = true.
Proof. by destruct v. Qed.

(** An arm of the dispatch from an instance that satisfies [ok]. *)
Definition arm_ok {X} (ok : X -> Prop) (ins outs : list kind) (inputs : list StackValue)
    (k : X -> res PrimitiveCallError (X * PrimitiveOutputs)) : Prop :=
  forall x, ok x ->
    if accepts_all ins inputs then
      exists x' o, k x = Ok (x', o) /\ ok x' /\ outs_ok outs o
    else k x = Err PTypeMismatch.

Lemma outs_ok_one k v : has_kind k v -> outs_ok [k] (out_one v).
Proof. intros Hv. repeat constructor; done. Qed.
Lemma outs_ok_two k1 v1 k2 v2 :
  has_kind k1 v1 -> has_kind k2 v2 -> outs_ok [k1; k2] (out_two v1 v2).
Proof. intros. repeat constructor; done. Qed.

Lemma as_dint_ok v n : sv_ok v -> SV.as_dint v = Some n -> s_range 32 n.
Proof.
  destruct v as [[]| |]; simpl; intros Hv Hn; try discriminate Hn; injection Hn as <-;
    [by vm_compute..|done].
Qed.

Lemma call_timer_ok {I} (ok : I -> Prop) (eval : I -> bool -> Z -> Z -> I * (bool * Z)) inputs now :
  length inputs = 2%nat -> Forall sv_ok inputs -> u_range 64 now ->
  (forall x inp pt, ok x -> s_range 32 pt ->
    ok (eval x inp pt now).1 /\ 0 <= (eval x inp pt now).2.2 <= i32_max) ->
  arm_ok ok [KBool; KDint] [KBool; KDint] inputs (call_timer eval inputs now).
Proof.
  intros Hl Hin Hnow He x Hx. destruct inputs as [|a [|b []]]; try done.
  apply Forall_cons in Hin as [Ha Hin]. apply Forall_cons in Hin as [Hb _].
  unfold call_timer, arg, index. cbn [lookup list_lookup mbind res_bind accepts_all].
  destruct a as [a| |]; try done; rewrite ?accepts_bool; cbn [SV.as_bool ok_or mbind res_bind andb].
  destruct (SV.as_dint b) as [pt|] eqn:Ept; [|by destruct b].
  assert (accepts KDint b = true) as -> by (by destruct b). cbn [andb ok_or mbind res_bind].
  pose proof (as_dint_ok _ _ Hb Ept) as Hpt. destruct (He x a pt Hx Hpt) as [H1 H2].
  destruct (eval x a pt now) as [x' [q et]]. eexists _, _. split; [done|]. split; [done|].
  apply outs_ok_two; simpl in *; unfold s_range, i32_max in *; [done|lia].
Qed.

Lemma call_counter_ok {I} (ok : I -> Prop) (eval : I -> bool -> bool -> Z -> I * (bool * Z)) inputs :
  length inputs = 3%nat -> Forall sv_ok inputs ->
  (forall x a b pv, ok x -> s_range 32 pv ->
    ok (eval x a b pv).1 /\ s_range 32 (eval x a b pv).2.2) ->
  arm_ok ok [KBool; KBool; KDint] [KBool; KDint] inputs (call_counter eval inputs).
Proof.
  intros Hl Hin He x Hx. destruct inputs as [|a [|b [|c []]]]; try done.
  apply Forall_cons in Hin as [Ha Hin]. apply Forall_cons in Hin as [Hb Hin].
  apply Forall_cons in Hin as [Hc _].
  unfold call_counter, arg, index. cbn [lookup list_lookup mbind res_bind accepts_all].
  destruct a as [a| |], b as [b| |]; try done; rewrite ?accepts_bool; cbn [SV.as_bool ok_or mbind res_bind andb].
  destruct (SV.as_dint c) as [pv|] eqn:Epv; [|by destruct c].
  assert (accepts KDint c = true) as -> by (by destruct c). cbn [andb ok_or mbind res_bind].
  destruct (He x a b pv Hx (as_dint_ok _ _ Hc Epv)) as [H1 H2].
  destruct (eval x a b pv) as [x' [q cv]]. eexists _, _. split; [done|]. split; [done|].
  by apply outs_ok_two.
Qed.

Lemma call_latch_ok {I} (eval : I -> bool -> bool -> I * bool) inputs :
  length inputs = 2%nat ->
  arm_ok (fun _ => True) [KBool; KBool] [KBool] inputs (call_latch eval inputs).
Proof.
  intros Hl x _. destruct inputs as [|a [|b []]]; try done.
  unfold call_latch, arg, index. cbn [lookup list_lookup mbind res_bind accepts_all].
  destruct a as [a| |], b as [b| |]; try done; rewrite ?accepts_bool; cbn [SV.as_bool ok_or mbind res_bind andb].
  destruct (eval x a b) as [x' q]. eexists _, _. split; [done|]. split; [done|].
  by apply outs_ok_one.
Qed.

Lemma call_edge_ok {I} (eval : I -> bool -> I * bool) inputs :
  length inputs = 1%nat ->
  arm_ok (fun _ => True) [KBool] [KBool] inputs (call_edge eval inputs).
Proof.
  intros Hl x _. destruct inputs as [|a []]; try done.
  unfold call_edge, arg, index. cbn [lookup list_lookup mbind res_bind accepts_all].
  destruct a as [a| |]; try done; rewrite ?accepts_bool; cbn [SV.as_bool ok_or mbind res_bind andb].
  destruct (eval x a) as [x' q]. eexists _, _. split; [done|]. split; [done|].
  by apply outs_ok_one.
Qed.

Lemma call_pid_ok inputs now :
  length inputs = 3%nat ->
  arm_ok Pid.ok [KReal; KReal; KBool] [KReal] inputs (call_pid inputs now).
Proof.
  intros Hl x Hx. destruct inputs as [|a [|b [|c []]]]; try done.
  unfold call_pid, arg, index. cbn [lookup list_lookup mbind res_bind accepts_all].
  assert (forall v, exists r, SV.as_real v = Some r) as Hr by (intros []; by eexists).
  destruct (Hr a) as [pv ->], (Hr b) as [sp ->]. rewrite !accepts_real; cbn [ok_or mbind res_bind andb].
  destruct c as [en| |]; try done; rewrite ?accepts_bool; cbn [SV.as_bool ok_or mbind res_bind andb].
  destruct (@Pid_eval_ok _ PrimitiveCallError x pv sp en now Hx) as (x' & o & -> & Hx' & ->).
  cbn [mbind res_bind]. eexists _, _. split; [done|]. split; [done|].
  apply outs_ok_one. apply Hx'.
Qed.

(** The first check of a call that fails, if any does. *)
Definition call_check (id : PrimitiveId) (instance : nat) (inputs : list StackValue)
    (s : PrimitiveStore) : option PrimitiveCallError :=
  if negb (length inputs =? Prim.input_count id)%nat then
    Some (Arity (Z.of_nat (Prim.input_count id)) (wrap_u 8 (len inputs)))
  else if inst_at s id instance then
    if accepts_all (in_kinds id) inputs then None else Some PTypeMismatch
  else Some BadInstance.

(** What a call leaves of the store: every other instance. *)
Record call_frame (id : PrimitiveId) (instance : nat) (s s' : PrimitiveStore) : Prop := {
  cf_ok : store_ok s';
  cf_same : is_Some (inst_at s' id instance);
  cf_others : forall id' j, (id', j) <> (id, instance) -> inst_at s' id' j = inst_at s id' j }.

Lemma with_instance_spec `{PoolLaws X} instance (k : X -> res PrimitiveCallError (X * PrimitiveOutputs))
    ins outs inputs s :
  store_ok s -> arm_ok inst_ok ins outs inputs k ->
  with_instance instance k s =
    match inst_at s pool_id instance with
    | None => (s, Err BadInstance)
    | Some _ =>
        if accepts_all ins inputs then with_instance instance k s else (s, Err PTypeMismatch)
    end /\
  (is_Some (inst_at s pool_id instance) -> accepts_all ins inputs = true ->
   exists s' o, with_instance instance k s = (s', Ok o) /\ outs_ok outs o /\
     call_frame pool_id instance s s').
Proof.
  intros Hs Hk. rewrite pool_at. unfold with_instance.
  destruct (pool s !! instance) as [x|] eqn:Ex; [|split; [done|by intros []]].
  assert (inst_ok x) as Hx by (eapply Forall_lookup; [by apply pool_ok|done]).
  specialize (Hk x Hx). destruct (accepts_all ins inputs); [|by rewrite Hk].
  destruct Hk as (x' & o & -> & Hx' & Ho). split; [done|]. intros _ _.
  eexists _, o. split; [done|]. split; [done|]. apply lookup_lt_Some in Ex as Hlt. split.
  - apply set_pool_ok; [done|]. apply Forall_insert; [by apply pool_ok|done].
  - rewrite pool_at, pool_set, list_lookup_insert_eq by done. by eexists.
  - intros id' j Hne. destruct (decide (id' = pool_id)) as [->|].
    + rewrite !pool_at, pool_set, list_lookup_insert_ne by congruence. done.
    + by apply set_pool_frame.
Qed.

Lemma store_ok_capacity n : store_ok (with_capacity n).
Proof.
  split; apply Forall_replicate; try apply Pid_default_ok; repeat split; vm_compute; done.
Qed.

Lemma Forall_map_const {A B} (P : B -> Prop) (b : B) (l : list A) :
  P b -> Forall P (map (fun _ => b) l).
Proof. intros Hb. induction l; simpl; auto. Qed.

Lemma store_ok_cold s : store_ok s -> store_ok (cold_reset_all s).
Proof.
  intros [? ? ? ? ? Hp].
  split; cbn [ton tof tp ctu ctd pid cold_reset_all];
    try (apply Forall_map_const; repeat split; done).
  apply Forall_map. eapply Forall_impl; [exact Hp|]. apply Pid_cold_ok.
Qed.

Lemma call_primitive_cases id instance inputs now s :
  store_ok s -> Forall sv_ok inputs -> u_range 64 now ->
  match call_check id instance inputs s with
  | Some e => call_primitive id instance inputs now s = (s, Err e)
  | None => exists s' o, call_primitive id instance inputs now s = (s', Ok o) /\
              outs_ok (out_kinds id) o /\ call_frame id instance s s'
  end.
Proof.
  intros Hs Hin Hnow. unfold call_check, call_primitive.
  destruct (Nat.eqb_spec (length inputs) (Prim.input_count id)) as [Hl|]; cbn [negb]; [|done].
  assert (Hgo : forall X (P : Pool X) (L : PoolLaws X) k,
    pool_id = id -> arm_ok inst_ok (in_kinds id) (out_kinds id) inputs k ->
    match (if inst_at s id instance then
             if accepts_all (in_kinds id) inputs then None else Some PTypeMismatch
           else Some BadInstance) with
    | Some e => with_instance instance k s = (s, Err e)
    | None => exists s' o, with_instance instance k s = (s', Ok o) /\
                outs_ok (out_kinds id) o /\ call_frame id instance s s'
    end).
  { intros X P L k <- Hk. destruct (with_instance_spec instance k _ _ _ s Hs Hk) as [H1 H2].
    destruct (inst_at s pool_id instance); [|done].
    destruct (accepts_all (in_kinds pool_id) inputs); [|done]. by apply H2. }
  destruct id; (eapply Hgo; [done|]); cbn [in_kinds out_kinds Prim.input_count] in *;
    first
      [ apply call_timer_ok; [done..|]; intros x a pt Hx Hpt
      | apply call_counter_ok; [done..|]; intros x a b pv Hx Hpv
      | by apply call_latch_ok | by apply call_edge_ok | by apply call_pid_ok ].
  - pose proof (Ton_eval_ok x a pt now Hx Hpt Hnow) as Ho. split; [done|]. apply Ho.
  - pose proof (Tof_eval_ok x a pt now Hx Hpt Hnow) as Ho. split; [done|]. apply Ho.
  - pose proof (Tp_eval_ok x a pt now Hx Hpt Hnow) as Ho. split; [done|]. apply Ho.
  - pose proof (Ctu_eval_ok x a b pv Hx) as Ho. split; [done|].
    unfold Ctu.ok, s_range, i32_max in *. cbn in *. lia.
  - pose proof (Ctd_eval_ok x a b pv Hx Hpv) as Ho. split; done.
Qed.

(** ** Properties *)

(** Calling a primitive never panics on a well-formed store. The call fails,
    changing nothing, exactly when a check does, in the order of the code: the
    number of inputs, then the instance index, then the inputs' kinds; otherwise
    it returns as many outputs as the primitive declares, of its declared kinds
    and in range, the store stays well-formed and no other instance changes. *)
Lemma call_primitive_safe (id : PrimitiveId) (instance : nat) (inputs : list StackValue)
    (now : Z) (s : PrimitiveStore)
    (Hs : store_ok s) (Hin : Forall sv_ok inputs) (Hnow : u_range 64 now) :
  match call_check id instance inputs s with
  | Some e => call_primitive id instance inputs now s = (s, Err e)
  | None => exists s' o, call_primitive id instance inputs now s = (s', Ok o) /\
              count o = Z.of_nat (Prim.output_count id) /\
              Forall2 has_kind (out_kinds id) (take (Prim.output_count id) (values o)) /\
              call_frame id instance s s'
  end.
Proof.
  pose proof (call_primitive_cases id instance inputs now s Hs Hin Hnow) as H'.
  destruct (call_check id instance inputs s); [done|].
  destruct H' as (s' & o & He & (Hc & _ & Hv) & Hf). exists s', o. split; [done|].
  assert (length (out_kinds id) = Prim.output_count id) as Hl by (by destruct id).
  unfold len in Hc. rewrite Hl in *. done.
Qed.
End Laws.

Lemma call_primitive_safe_witness :
  exists s' o, call_primitive PTon 0 [SBool true; SDint 100] 1000 (with_capacity 1) = (s', Ok o) /\
    count o = 2.
Proof.
  pose proof (call_primitive_safe PTon 0 [SBool true; SDint 100] 1000 (with_capacity 1)
    (store_ok_capacity 1)) as H.
  destruct H as (s' & o & He & Hc & _); [repeat constructor; done|by vm_compute|].
  exists s', o. split; [exact He|exact Hc].
Defined.
