(* ===== verification/VmValue.v ===== *)
(** * Tagged runtime values and the arithmetic of the abstract machine

    Crate [plc-vm]: src/crates/plc-vm/src/value.rs, error.rs and the pure helpers
    at the end of exec.rs. Integers are [Z] in the range of their Rust type,
    REAL is a 32-bit pattern. *)
From S2P Require Import Prelude Float32 IrTypes FbDispatch.

(** ** Errors (error.rs) *)

Inductive VmError :=
  | EVerify (e : VerifyError)
  | EUnknownEntry (name : bytes)
  | EStackUnderflow (pc : Z)
  | EStackOverflow (pc : Z)
  | ECallDepth (pc : Z)
  | ERetOutsideFb (pc : Z)
  | EBounds (pc : Z) (detail : string)
  | EType (pc : Z) (detail : string)
  | EDecode (pc : Z) (detail : string)
  | EPrimitive (pc : Z) (detail : string)
  | EUnknownUserFb (id : Z)
  | EBudget (n : Z).

(** ** Values (value.rs) *)

Inductive VmValue :=
  | VBool (b : bool)
  | VInt (v : Z)
  | VDint (v : Z)
  | VReal (v : Z)
  | VTime (v : Z)
  | VLint (v : Z).

Module Val.
Definition ir_type (v : VmValue) : IrType :=
  match v with
  | VBool _ => TBool | VInt _ => TInt | VDint _ => TDint
  | VReal _ => TReal | VTime _ => TTime | VLint _ => TLint
  end.

Definition zero (ty : IrType) : VmValue :=
  match ty with
  | TBool => VBool false | TInt => VInt 0 | TDint => VDint 0
  | TReal => VReal 0 | TTime => VTime 0 | TLint => VLint 0
  end.

Definition byte_width (v : VmValue) : Z :=
  match v with
  | VBool _ => 1
  | VInt _ => 2
  | VDint _ | VReal _ | VTime _ => 4
  | VLint _ => 8
  end.

(** The value a little-endian payload of the type's width stands for. *)
Definition decode (ty : IrType) (b : bytes) : VmValue :=
  let n := le_combine b in
  match ty with
  | TBool => VBool (negb (n =? 0))
  | TInt => VInt (wrap_s 16 n)
  | TDint => VDint (wrap_s 32 n)
  | TTime => VTime (wrap_s 32 n)
  | TReal => VReal n
  | TLint => VLint (wrap_s 64 n)
  end.

Definition from_le_bytes (ty : IrType) (b : bytes) : res VmError VmValue :=
  let width := byte_width (zero ty) in
  if len b <? width then Err (EBounds 0 "value decode")
  else Ok (decode ty (zslice b 0 width)).

(** [to_le_bytes] of the payload, as [ByteSegment::store] writes it. *)
Definition to_le_bytes (v : VmValue) : bytes :=
  match v with
  | VBool b => [Z.b2z b]
  | VInt v => le_split 2 (wrap_u 16 v)
  | VDint v | VTime v => le_split 4 (wrap_u 32 v)
  | VReal v => le_split 4 v
  | VLint v => le_split 8 (wrap_u 64 v)
  end.

Definition as_bool (v : VmValue) : bool :=
  match v with VBool b => b | _ => false end.

Definition as_i64 (v : VmValue) : option Z :=
  match v with
  | VBool b => Some (Z.b2z b)
  | VInt v | VDint v | VTime v | VLint v => Some v
  | VReal _ => None
  end.

Definition to_stack_value (v : VmValue) : StackValue :=
  match v with
  | VBool b => SBool b
  | VInt v => SDint v
  | VDint v | VTime v => SDint v
  | VReal v => SReal v
  | VLint v => SDint (wrap_s 32 v)
  end.

Definition from_stack_value (v : StackValue) (prefer_time : bool) : VmValue :=
  match v with
  | SBool b => VBool b
  | SDint d => if prefer_time then VTime d else VDint d
  | SReal r => VReal r
  end.

(** [as] between integer types keeps the low bits; [f32 as iN] truncates and
    saturates. *)
Definition convert (v : VmValue) (target : IrType) : VmValue :=
  match target with
  | TBool => VBool
      match v with
      | VBool b => b
      | VReal v => negb (f32_eq v f32_zero)
      | VInt v | VDint v | VTime v | VLint v => negb (v =? 0)
      end
  | TInt => VInt
      match v with
      | VBool b => Z.b2z b
      | VInt v => v
      | VDint v | VTime v | VLint v => wrap_s 16 v
      | VReal v => f32_to_int 16 v
      end
  | TDint => VDint
      match v with
      | VBool b => Z.b2z b
      | VInt v | VDint v | VTime v => v
      | VReal v => f32_to_int 32 v
      | VLint v => wrap_s 32 v
      end
  | TReal => VReal
      match v with
      | VBool b => if b then f32_one else f32_zero
      | VInt v | VDint v | VTime v | VLint v => f32_of_int v
      | VReal v => v
      end
  | TTime => VTime
      match v with
      | VBool b => Z.b2z b
      | VInt v | VDint v | VTime v => v
      | VReal v => f32_to_int 32 v
      | VLint v => wrap_s 32 v
      end
  | TLint => VLint
      match v with
      | VBool b => Z.b2z b
      | VInt v | VDint v | VTime v | VLint v => v
      | VReal v => f32_to_int 64 v
      end
  end.

(** Values in the range of their type. *)
Definition ok (v : VmValue) : Prop :=
  match v with
  | VBool _ => True
  | VInt v => s_range 16 v
  | VDint v | VTime v => s_range 32 v
  | VReal v => u_range 32 v
  | VLint v => s_range 64 v
  end.

Definition ok_ty (ty : IrType) (v : VmValue) : Prop := ir_type v = ty /\ ok v.
End Val.

(** ** Operators (exec.rs) *)

(** [x / y] on signed [w]-bit integers: dividing the least one by [-1] is the
    overflow that panics in every build. *)
Definition sdiv {S} (w x y : Z) : M S VmError Z :=
  if (x =? - 2 ^ (w - 1)) && (y =? -1) then m_panic else mret (Z.quot x y).

(** [*div0 += 1], which wraps in a release build. *)
Definition count_div0 : M Z VmError unit := m_modify (fun d => wrap_u 32 (d + 1)).

Definition int_arith (op : Opcode) (x y : Z) : M Z VmError Z :=
  match op with
  | Add => mret (wrap_s 32 (x + y))
  | Sub => mret (wrap_s 32 (x - y))
  | Mul => mret (wrap_s 32 (x * y))
  | Div => if y =? 0 then count_div0 ;; mret 0 else sdiv 32 x y
  | _ => mret 0
  end.

Section Ops.
Context `{NanRule}.

Definition real_arith (op : Opcode) (x y pc : Z) : M Z VmError Z :=
  match op with
  | Add => mret (f32_add x y)
  | Sub => mret (f32_sub x y)
  | Mul => mret (f32_mul x y)
  | Div => if f32_eq y f32_zero then count_div0 ;; mret f32_zero else mret (f32_div x y)
  | _ => m_err (EType pc "bad arith")
  end.

Definition lint_arith (op : Opcode) (x y pc : Z) : M Z VmError Z :=
  match op with
  | Add => mret (wrap_s 64 (x + y))
  | Sub => mret (wrap_s 64 (x - y))
  | Mul => mret (wrap_s 64 (x * y))
  | Div => if y =? 0 then count_div0 ;; mret 0 else sdiv 64 x y
  | _ => m_err (EType pc "bad arith")
  end.

Definition arith_op (op : Opcode) (a b : VmValue) (pc : Z) : M Z VmError VmValue :=
  match a, b with
  | VReal x, VReal y => r ← real_arith op x y pc; mret (VReal r)
  | VTime x, VTime y => r ← int_arith op x y; mret (VTime r)
  | VDint x, VDint y => r ← int_arith op x y; mret (VDint r)
  | VInt x, VInt y => r ← int_arith op x y; mret (VInt (wrap_s 16 r))
  | VLint x, VLint y => r ← lint_arith op x y pc; mret (VLint r)
  | VInt x, VDint y | VDint x, VInt y => r ← int_arith op x y; mret (VDint r)
  | _, _ => m_err (EType pc "arith type mismatch")
  end.
End Ops.

Definition unary_op (op : Opcode) (v : VmValue) (pc : Z) : res VmError VmValue :=
  match op with
  | Not =>
      match v with
      | VBool b => Ok (VBool (negb b))
      | VInt v => Ok (VInt (Z.lnot v))
      | VDint v => Ok (VDint (Z.lnot v))
      | VTime v => Ok (VTime (Z.lnot v))
      | VLint v => Ok (VLint (Z.lnot v))
      | VReal _ => Err (EType pc "NOT on REAL")
      end
  | Neg =>
      match v with
      | VInt v => Ok (VInt (wrap_s 16 (- v)))
      | VDint v => Ok (VDint (wrap_s 32 (- v)))
      | VTime v => Ok (VTime (wrap_s 32 (- v)))
      | VLint v => Ok (VLint (wrap_s 64 (- v)))
      | VReal v => Ok (VReal (f32_neg v))
      | VBool _ => Err (EType pc "NEG on BOOL")
      end
  | _ => Err (EType pc "not a unary op")
  end.

Definition values_eq (a b : VmValue) : bool :=
  match a, b with
  | VBool x, VBool y => Bool.eqb x y
  | VReal x, VReal y => x =? y
  | VReal _, _ | _, VReal _ => false
  | _, _ =>
      match Val.as_i64 a, Val.as_i64 b with
      | Some x, Some y => x =? y
      | _, _ => false
      end
  end.

(** The bit operation an opcode names; other opcodes are [unreachable!]. *)
Definition bool_logic (op : Opcode) (x y : bool) : res VmError bool :=
  match op with And => Ok (x && y) | Or => Ok (x || y) | Xor => Ok (xorb x y) | _ => Panic end.
Definition int_logic (op : Opcode) (x y : Z) : res VmError Z :=
  match op with
  | And => Ok (Z.land x y) | Or => Ok (Z.lor x y) | Xor => Ok (Z.lxor x y) | _ => Panic
  end.

Definition logic_op (op : Opcode) (a b : VmValue) (pc : Z) : res VmError VmValue :=
  match a, b with
  | VBool x, VBool y => r ← bool_logic op x y; Ok (VBool r)
  | VDint x, VDint y => r ← int_logic op x y; Ok (VDint r)
  | VInt x, VInt y => r ← int_logic op x y; Ok (VInt r)
  | _, _ => Err (EType pc "logic type mismatch")
  end.

Definition cmp_op (op : Opcode) (a b : VmValue) (pc : Z) : res VmError VmValue :=
  r ← match a, b with
      | VReal x, VReal y =>
          Ok match op with
             | Lt => f32_lt x y | Le => f32_le x y | Gt => f32_lt y x | Ge => f32_le y x
             | _ => false
             end
      | _, _ =>
          x ← ok_or (Val.as_i64 a) (EType pc "cmp needs numeric");
          y ← ok_or (Val.as_i64 b) (EType pc "cmp needs numeric");
          Ok match op with
             | Lt => x <? y | Le => x <=? y | Gt => y <? x | Ge => y <=? x
             | _ => false
             end
      end;
  Ok (VBool r).

Definition is_arith (op : Opcode) : bool :=
  match op with Add | Sub | Mul | Div => true | _ => false end.
Definition is_logic (op : Opcode) : bool :=
  match op with And | Or | Xor => true | _ => false end.
Definition is_cmp (op : Opcode) : bool :=
  match op with Lt | Le | Gt | Ge => true | _ => false end.

(** [Vm::binop]; the state is the diagnostic counter [div0_count]. *)
Definition binop `{NanRule} (op : Opcode) (a b : VmValue) (pc : Z) : M Z VmError VmValue :=
  match op with
  | And | Or | Xor => m_lift (logic_op op a b pc)
  | Eq => mret (VBool (values_eq a b))
  | Ne => mret (VBool (negb (values_eq a b)))
  | Lt | Le | Gt | Ge => m_lift (cmp_op op a b pc)
  | Add | Sub | Mul | Div => arith_op op a b pc
  | _ => m_err (EType pc "not a binary op")
  end.

(** ** Ranges *)

Lemma s_range_shiftr w x : 0 < w -> s_range w x <-> Z.shiftr x (w - 1) = 0 \/ Z.shiftr x (w - 1) = -1.
Proof.
  intros Hw. unfold s_range. rewrite Z.shiftr_div_pow2 by lia.
  assert (0 < 2 ^ (w - 1)) by lia. generalize dependent (2 ^ (w - 1)). intros p Hp.
  pose proof (Z.div_mod x p ltac:(lia)). pose proof (Z.mod_pos_bound x p Hp).
  split; intros; [|nia].
  assert (x / p = 0 \/ x / p = -1) by nia. lia.
Qed.

Ltac s_range_bits :=
  intros Hw; rewrite !s_range_shiftr by done;
  rewrite ?Z.shiftr_land, ?Z.shiftr_lor, ?Z.shiftr_lxor by lia.

Lemma land_s_range w x y : 0 < w -> s_range w x -> s_range w y -> s_range w (Z.land x y).
Proof. s_range_bits. intros [->| ->] [->| ->]; simpl; auto. Qed.
Lemma lor_s_range w x y : 0 < w -> s_range w x -> s_range w y -> s_range w (Z.lor x y).
Proof. s_range_bits. intros [->| ->] [->| ->]; simpl; auto. Qed.
Lemma lxor_s_range w x y : 0 < w -> s_range w x -> s_range w y -> s_range w (Z.lxor x y).
Proof. s_range_bits. intros [->| ->] [->| ->]; simpl; auto. Qed.
Lemma lnot_s_range w x : s_range w x -> s_range w (Z.lnot x).
Proof. unfold s_range, Z.lnot. lia. Qed.

Lemma quot_s_range w x y :
  0 < w -> s_range w x -> y <> 0 -> ~ (x = - 2 ^ (w - 1) /\ y = -1) -> s_range w (Z.quot x y).
Proof.
  unfold s_range. intros Hw. assert (0 < 2 ^ (w - 1)) as Hp by lia. revert Hp.
  generalize (2 ^ (w - 1)) as p. intros p Hp Hx Hy Hne.
  assert (Z.abs (Z.quot x y) <= Z.abs x /\ (y <> -1 -> y <> 1 -> Z.abs (Z.quot x y) < p)) as [H1 H2].
  { rewrite <-Z.quot_abs by done. split.
    - apply Z.quot_le_upper_bound; nia.
    - intros. destruct (decide (Z.abs x = 0)) as [->|]; [rewrite Z.quot_0_l by lia; lia|].
      assert (Z.abs x ÷ Z.abs y < Z.abs x) by (apply Z.quot_lt; lia). lia. }
  destruct (decide (y = -1)) as [->|]; [|].
  { change (-1) with (- (1)). rewrite Z.quot_opp_r, Z.quot_1_r by lia. lia. }
  destruct (decide (y = 1)) as [->|]; [rewrite Z.quot_1_r; lia|]. specialize (H2 n n0). lia.
Qed.

Lemma s_range_bool b w : 1 < w -> s_range w (Z.b2z b).
Proof.
  intros. unfold s_range. assert (2 ^ 1 <= 2 ^ (w - 1)) by (apply Z.pow_le_mono_r; lia).
  destruct b; simpl; lia.
Qed.

Lemma s_range_mono w w' x : 0 < w <= w' -> s_range w x -> s_range w' x.
Proof.
  unfold s_range. intros. assert (2 ^ (w - 1) <= 2 ^ (w' - 1)) by (apply Z.pow_le_mono_r; lia). lia.
Qed.

#[export] Hint Resolve land_s_range lor_s_range lxor_s_range lnot_s_range : plc.
#[export] Hint Extern 1 (s_range _ (wrap_s _ _)) => apply wrap_s_range; lia : plc.
#[export] Hint Extern 1 (s_range _ (Z.b2z _)) => apply s_range_bool; lia : plc.
#[export] Hint Extern 2 (s_range 32 ?x) => match goal with
  | H : s_range 16 x |- _ => apply (s_range_mono 16); [lia|exact H] end : plc.
#[export] Hint Extern 2 (s_range 64 ?x) => match goal with
  | H : s_range 16 x |- _ => apply (s_range_mono 16); [lia|exact H]
  | H : s_range 32 x |- _ => apply (s_range_mono 32); [lia|exact H] end : plc.

Lemma zero_ok ty : Val.ok_ty ty (Val.zero ty).
Proof. destruct ty; split; try done; simpl; unfold s_range, u_range; lia. Qed.

Lemma zero_width v : Val.byte_width (Val.zero (Val.ir_type v)) = Val.byte_width v.
Proof. by destruct v. Qed.

Lemma width_range v : 1 <= Val.byte_width v <= 8.
Proof. destruct v; simpl; lia. Qed.

Lemma len_to_le_bytes v : len (Val.to_le_bytes v) = Val.byte_width v.
Proof. destruct v; simpl; rewrite ?len_le_split; done. Qed.

Lemma to_le_bytes_ok v : Val.ok v -> bytes_ok (Val.to_le_bytes v).
Proof.
  destruct v as [b| | | | |]; intros _; cbn [Val.to_le_bytes]; try apply le_split_ok.
  repeat constructor; destruct b; simpl; lia.
Qed.

Lemma decode_to_le_bytes v : Val.ok v -> Val.decode (Val.ir_type v) (Val.to_le_bytes v) = v.
Proof.
  destruct v as [b|v|v|v|v|v]; cbn [Val.ok Val.ir_type Val.decode Val.to_le_bytes]; intros Hv.
  - by destruct b.
  - rewrite le_combine_split_id by (apply wrap_u_range; lia). by rewrite wrap_s_wrap_u_id.
  - rewrite le_combine_split_id by (apply wrap_u_range; lia). by rewrite wrap_s_wrap_u_id.
  - by rewrite le_combine_split_id.
  - rewrite le_combine_split_id by (apply wrap_u_range; lia). by rewrite wrap_s_wrap_u_id.
  - rewrite le_combine_split_id by (apply wrap_u_range; lia). by rewrite wrap_s_wrap_u_id.
Qed.

Lemma decode_ok ty b :
  bytes_ok b -> len b = Val.byte_width (Val.zero ty) -> Val.ok_ty ty (Val.decode ty b).
Proof.
  intros Hb Hl. destruct ty; split; try done; cbn [Val.decode Val.ok];
    try (apply wrap_s_range; lia).
  pose proof (le_combine_bound b Hb) as H. cbn in Hl. unfold len in Hl. unfold u_range.
  replace (8 * Z.of_nat (length b)) with 32 in H by lia. done.
Qed.

Lemma convert_ok v ty : Val.ok v -> Val.ok_ty ty (Val.convert v ty).
Proof.
  destruct v as [b|v|v|v|v|v], ty; intros Hv; split; try done; cbn [Val.convert Val.ok] in *;
    auto with plc.
  destruct b; unfold u_range, f32_one, f32_zero; lia.
Qed.

Lemma to_stack_value_ok v : Val.ok v -> sv_ok (Val.to_stack_value v).
Proof. destruct v; cbn; auto with plc. Qed.

Lemma from_stack_value_ok v b : sv_ok v -> Val.ok (Val.from_stack_value v b).
Proof. destruct v, b; done. Qed.

(** ** Typing of the operators *)

Definition is_binop (op : Opcode) : bool := is_arith op || is_logic op || is_cmp op ||
  match op with Eq | Ne => true | _ => false end.

(** The result type of a binary operator, if it accepts the operand types. *)
Definition binop_ty (op : Opcode) (ta tb : IrType) : option IrType :=
  if is_logic op then
    match ta, tb with
    | TBool, TBool => Some TBool | TDint, TDint => Some TDint | TInt, TInt => Some TInt
    | _, _ => None
    end
  else if is_arith op then
    match ta, tb with
    | TReal, TReal => Some TReal | TTime, TTime => Some TTime | TLint, TLint => Some TLint
    | TInt, TInt => Some TInt
    | TDint, TDint | TInt, TDint | TDint, TInt => Some TDint
    | _, _ => None
    end
  else if is_cmp op then
    match ta, tb with
    | TReal, TReal => Some TBool
    | TReal, _ | _, TReal => None
    | _, _ => Some TBool
    end
  else Some TBool.

(** The one quotient a signed integer type cannot hold. *)
Definition div_overflows (op : Opcode) (a b : VmValue) : bool :=
  match op, a, b with
  | Div, VTime x, VTime y | Div, VDint x, VDint y | Div, VDint x, VInt y =>
      (x =? - 2 ^ 31) && (y =? -1)
  | Div, VLint x, VLint y => (x =? - 2 ^ 63) && (y =? -1)
  | _, _, _ => false
  end.

(** Whether the operation is a division by zero, which counts and yields 0. *)
Definition div_by_zero (op : Opcode) (a b : VmValue) : bool :=
  match op, a, b with
  | Div, VReal _, VReal y => f32_eq y f32_zero
  | Div, (VTime _ | VDint _ | VLint _ | VInt _), (VTime y | VDint y | VInt y | VLint y) => y =? 0
  | _, _, _ => false
  end.

Lemma sdiv_spec w x y d :
  0 < w -> s_range w x -> y <> 0 ->
  @sdiv Z w x y d = if (x =? - 2 ^ (w - 1)) && (y =? -1) then (d, Panic) else (d, Ok (Z.quot x y)).
Proof. intros. unfold sdiv. by case_match. Qed.

Lemma int_arith_spec op x y d :
  is_arith op = true -> s_range 32 x -> s_range 32 y ->
  if match op with Div => (x =? - 2 ^ 31) && (y =? -1) | _ => false end then
    int_arith op x y d = (d, Panic)
  else exists r, s_range 32 r /\
    int_arith op x y d =
      (match op with Div => if y =? 0 then wrap_u 32 (d + 1) else d | _ => d end, Ok r).
Proof.
  intros Hop Hx Hy. destruct op; try discriminate Hop; cbn [int_arith];
    try (eexists; split; [|done]; apply wrap_s_range; lia).
  destruct (Z.eqb_spec y 0) as [->|Hne].
  - rewrite andb_false_r by done. exists 0. split; [by vm_compute|done].
  - rewrite sdiv_spec by (done || lia). change (32 - 1) with 31. case_match eqn:E; [done|].
    eexists; split; [|done]. apply quot_s_range; [lia|done|done|].
    change (32 - 1) with 31. intros [-> ->]. discriminate E.
Qed.

(** An INT dividend never reaches the overflowing quotient. *)
Lemma int_arith_small op x y d :
  is_arith op = true -> s_range 16 x -> s_range 32 y ->
  exists r, s_range 32 r /\
    int_arith op x y d =
      (match op with Div => if y =? 0 then wrap_u 32 (d + 1) else d | _ => d end, Ok r).
Proof.
  intros Hop Hx Hy. pose proof (int_arith_spec op x y d Hop ltac:(auto with plc) Hy) as H.
  assert (x =? - 2 ^ 31 = false) as E by (apply Z.eqb_neq; unfold s_range in Hx; lia).
  rewrite E in H. by destruct op.
Qed.

Lemma lint_arith_spec op x y pc d :
  is_arith op = true -> s_range 64 x -> s_range 64 y ->
  if match op with Div => (x =? - 2 ^ 63) && (y =? -1) | _ => false end then
    lint_arith op x y pc d = (d, Panic)
  else exists r, s_range 64 r /\
    lint_arith op x y pc d =
      (match op with Div => if y =? 0 then wrap_u 32 (d + 1) else d | _ => d end, Ok r).
Proof.
  intros Hop Hx Hy. destruct op; try discriminate Hop; cbn [lint_arith];
    try (eexists; split; [|done]; apply wrap_s_range; lia).
  destruct (Z.eqb_spec y 0) as [->|Hne].
  - rewrite andb_false_r by done. exists 0. split; [by vm_compute|done].
  - rewrite sdiv_spec by (done || lia). change (64 - 1) with 63. case_match eqn:E; [done|].
    eexists; split; [|done]. apply quot_s_range; [lia|done|done|].
    change (64 - 1) with 63. intros [-> ->]. discriminate E.
Qed.

Lemma real_arith_spec `{NanRule} op x y pc d :
  is_arith op = true -> u_range 32 x -> u_range 32 y ->
  exists r, u_range 32 r /\
    real_arith op x y pc d =
      (match op with Div => if f32_eq y f32_zero then wrap_u 32 (d + 1) else d | _ => d end, Ok r).
Proof.
  intros Hop Hx Hy. destruct op; try discriminate Hop; cbn [real_arith];
    try (eexists; split; [|done]; apply f32_result_range).
  destruct (f32_eq y f32_zero).
  - exists f32_zero. split; [by vm_compute|done].
  - eexists; split; [|done]; apply f32_result_range.
Qed.

(** The result of [binop] that its table promises. *)
Definition binop_spec `{NanRule} (op : Opcode) (a b : VmValue) (pc d : Z) : Prop :=
  match binop_ty op (Val.ir_type a) (Val.ir_type b) with
  | None => exists msg, binop op a b pc d = (d, Err (EType pc msg))
  | Some ty =>
      if div_overflows op a b then binop op a b pc d = (d, Panic)
      else exists v, Val.ok_ty ty v /\
        binop op a b pc d = (if div_by_zero op a b then wrap_u 32 (d + 1) else d, Ok v)
  end.

Lemma binop_logic `{NanRule} op a b pc d :
  is_logic op = true -> Val.ok a -> Val.ok b -> binop_spec op a b pc d.
Proof.
  intros Hop Ha Hb. destruct op; try discriminate Hop; destruct a, b;
    cbn in Ha, Hb; unfold binop_spec; cbn; first [by eexists | idtac];
    (eexists; split; [|done]; split; cbn; auto with plc lia).
Qed.

Lemma binop_cmp `{NanRule} op a b pc d :
  is_cmp op = true -> binop_spec op a b pc d.
Proof.
  intros Hop. destruct op; try discriminate Hop; destruct a, b;
    unfold binop_spec; cbn; first [by eexists | eexists; split; [|done]; by split].
Qed.

(** A typed arithmetic result, lifted to a value. *)
Lemma arith_lift (m : M Z VmError Z) (k : Z -> VmValue) d (over : bool) d' (P : Z -> Prop) ty :
  (if over then m d = (d, Panic) else exists r, P r /\ m d = (d', Ok r)) ->
  (forall r, P r -> Val.ok_ty ty (k r)) ->
  if over then (r ← m; mret (k r)) d = (d, Panic)
  else exists v, Val.ok_ty ty v /\ (r ← m; mret (k r)) d = (d', Ok v).
Proof.
  intros Hm Hk. unfold mbind, M_bind. destruct over; [by rewrite Hm|].
  destruct Hm as (r & Hr & ->). exists (k r). auto.
Qed.

Lemma binop_arith `{NanRule} op a b pc d :
  is_arith op = true -> Val.ok a -> Val.ok b -> binop_spec op a b pc d.
Proof.
  intros Hop Ha Hb.
  assert (Hb' : binop op a b pc = arith_op op a b pc) by (by destruct op).
  assert (Hty : is_logic op = false) by (by destruct op).
  unfold binop_spec. rewrite Hb'. unfold binop_ty. rewrite Hop, Hty. clear Hb' Hty.
  destruct a as [a|a|a|a|a|a], b as [b|b|b|b|b|b]; cbn [Val.ir_type Val.ok] in *;
    try (by eexists); cbn [arith_op].
  - pose proof (int_arith_small op a b d Hop Ha ltac:(auto with plc)) as Hs.
    apply (arith_lift _ (fun r => VInt (wrap_s 16 r)) _ false _ (s_range 32))
      with (ty := TInt) in Hs; [|intros; split; [done|]; apply wrap_s_range; lia].
    by destruct op.
  - pose proof (int_arith_small op a b d Hop Ha Hb) as Hs.
    apply (arith_lift _ VDint _ false _ (s_range 32)) with (ty := TDint) in Hs; [|done].
    by destruct op.
  - pose proof (int_arith_spec op a b d Hop Ha ltac:(auto with plc)) as Hs.
    apply (arith_lift _ VDint _ _ _ (s_range 32)) with (ty := TDint) in Hs; [|done].
    by destruct op.
  - pose proof (int_arith_spec op a b d Hop Ha Hb) as Hs.
    apply (arith_lift _ VDint _ _ _ (s_range 32)) with (ty := TDint) in Hs; [|done].
    by destruct op.
  - pose proof (real_arith_spec op a b pc d Hop Ha Hb) as Hs.
    apply (arith_lift _ VReal _ false _ (u_range 32)) with (ty := TReal) in Hs; [|done].
    by destruct op.
  - pose proof (int_arith_spec op a b d Hop Ha Hb) as Hs.
    apply (arith_lift _ VTime _ _ _ (s_range 32)) with (ty := TTime) in Hs; [|done].
    by destruct op.
  - pose proof (lint_arith_spec op a b pc d Hop Ha Hb) as Hs.
    apply (arith_lift _ VLint _ _ _ (s_range 64)) with (ty := TLint) in Hs; [|done].
    by destruct op.
Qed.

Lemma binop_cases `{NanRule} op a b pc d :
  is_binop op = true -> Val.ok a -> Val.ok b -> binop_spec op a b pc d.
Proof.
  intros Hop Ha Hb. destruct (is_logic op) eqn:El; [|destruct (is_arith op) eqn:Ea;
    [|destruct (is_cmp op) eqn:Ec]].
  - by apply binop_logic.
  - by apply binop_arith.
  - by apply binop_cmp.
  - unfold binop_spec, binop_ty. rewrite El, Ea, Ec.
    destruct op; try discriminate; eexists (VBool _); done.
Qed.

(** ** Properties *)

(** The integer that an INT, DINT, TIME or LINT stands for. *)
Definition int_of (v : VmValue) : option Z :=
  match v with VInt x | VDint x | VTime x | VLint x => Some x | _ => None end.

Definition int_bits (ty : IrType) : Z := match ty with TInt => 16 | TLint => 64 | _ => 32 end.

(** The operators on the integers themselves; a quotient is cut towards zero, and 0 if there
    is none. *)
Definition exact (op : Opcode) (x y : Z) : Z :=
  match op with Add => x + y | Sub => x - y | Mul => x * y | _ => Z.quot x y end.

Definition holds_of (op : Opcode) (x y : Z) : Prop :=
  match op with Lt => x < y | Le => x <= y | Gt => x > y | Ge => x >= y | Eq => x = y | _ => x <> y end.

Lemma quot_0 x : Z.quot x 0 = 0.
Proof. by destruct x. Qed.

Lemma quot_wrap w x y : 0 < w -> s_range w x -> s_range w y -> (x =? - 2 ^ (w - 1)) && (y =? -1) = false ->
  wrap_s w (Z.quot x y) = Z.quot x y.
Proof.
  intros Hw Hx Hy Ho. apply wrap_s_small; [done|]. destruct (decide (y = 0)) as [->|Hne].
  - rewrite quot_0. unfold s_range. lia.
  - apply quot_s_range; [done..|]. intros [-> ->]. rewrite !Z.eqb_refl in Ho. discriminate Ho.
Qed.

Lemma int_arith_exact op x y d d' r :
  is_arith op = true -> s_range 32 x -> s_range 32 y -> int_arith op x y d = (d', Ok r) -> r = wrap_s 32 (exact op x y).
Proof.
  intros Hop Hx Hy Hr. destruct op; try discriminate Hop; cbn [int_arith exact] in *; [by injection Hr as _ <-..|].
  destruct (Z.eqb_spec y 0) as [->|Hne].
  - injection Hr as _ <-. by rewrite quot_0.
  - rewrite sdiv_spec in Hr by (done || lia). change (32 - 1) with 31 in Hr.
    destruct ((x =? _) && _) eqn:E; [done|]. injection Hr as _ <-. by rewrite (quot_wrap 32).
Qed.

Lemma lint_arith_exact op x y pc d d' r :
  is_arith op = true -> s_range 64 x -> s_range 64 y -> lint_arith op x y pc d = (d', Ok r) -> r = wrap_s 64 (exact op x y).
Proof.
  intros Hop Hx Hy Hr. destruct op; try discriminate Hop; cbn [lint_arith exact] in *; [by injection Hr as _ <-..|].
  destruct (Z.eqb_spec y 0) as [->|Hne].
  - injection Hr as _ <-. by rewrite quot_0.
  - rewrite sdiv_spec in Hr by (done || lia). change (64 - 1) with 63 in Hr.
    destruct ((x =? _) && _) eqn:E; [done|]. injection Hr as _ <-. by rewrite (quot_wrap 64).
Qed.

Lemma wrap_16_32 x : wrap_s 16 (wrap_s 32 x) = wrap_s 16 x.
Proof.
  rewrite <-(wrap_s_u 16 (wrap_s 32 x)), <-(wrap_s_u 16 x) by done. f_equal.
  assert (Hcut : forall y, wrap_u 16 (wrap_u 32 y) = wrap_u 16 y).
  { intros y. unfold wrap_u. rewrite <-Znumtheory.Zmod_div_mod; [done|lia|lia|]. by exists (2 ^ 16). }
  rewrite <-(Hcut (wrap_s 32 x)), wrap_u_s by done. apply Hcut.
Qed.

(** What an operator yields on integers. *)
Lemma binop_exact `{NanRule} op a b pc d d' v ty x y :
  binop_ty op (Val.ir_type a) (Val.ir_type b) = Some ty -> Val.ok a -> Val.ok b -> binop op a b pc d = (d', Ok v) ->
  int_of a = Some x -> int_of b = Some y ->
  (is_arith op = true -> int_of v = Some (wrap_s (int_bits ty) (exact op x y))) /\
  (negb (is_arith op || is_logic op) = true -> exists t, v = VBool t /\ (t = true <-> holds_of op x y)).
Proof.
  intros Hty Ha Hb Hr Hx Hy. split; intros Hop.
  - assert (Hb' : binop op a b pc = arith_op op a b pc) by (by destruct op).
    assert (Hl : is_logic op = false) by (by destruct op). unfold binop_ty in Hty. rewrite Hop, Hl in Hty. rewrite Hb' in Hr.
    destruct a as [a|a|a|a|a|a], b as [b|b|b|b|b|b]; try discriminate Hty; try discriminate Hx;
      injection Hx as <-; injection Hy as <-; injection Hty as <-; cbn [Val.ok] in Ha, Hb; cbn [arith_op] in Hr;
      apply M_bind_Ok in Hr as (r & d1 & Hr & Hv); injection Hv as _ <-; cbn [int_of int_bits]; f_equal;
      try (apply int_arith_exact in Hr; [rewrite Hr|done|auto with plc..]); try done;
      try (apply lint_arith_exact in Hr; [by rewrite Hr|done|done|done]).
    apply wrap_16_32.
  - exists (match v with VBool t => t | _ => false end).
    destruct op; try discriminate Hop; cbn [binop holds_of] in *.
    all: destruct a as [a|a|a|a|a|a], b as [b|b|b|b|b|b]; try discriminate Hx; try discriminate Hy;
      injection Hx as <-; injection Hy as <-; cbn in Hr; try discriminate Hr; injection Hr as _ <-; (split; [done|]); lia.
Qed.

(** C28: The binary operators, on values in range. An operator returns a value, in
    range, of the type its table gives; raises a type error exactly on the operand types
    the table excludes; panics exactly on the quotient of the least TIME, DINT or LINT by
    -1; and moves only the division diagnostic, which a division by zero increments. On
    integers, a sum, difference or product is the exact one wrapped to the width of the
    result's type, a quotient is the exact one cut towards zero, and 0 on a division by
    zero; a comparison, also between different integer types, decides the order of the
    integers. *)
Theorem binop_outcome `{NanRule} (op : Opcode) (a b : VmValue) (pc d : Z)
    (Hop : is_binop op = true) (Ha : Val.ok a) (Hb : Val.ok b) :
  match binop_ty op (Val.ir_type a) (Val.ir_type b) with
  | None => exists msg, binop op a b pc d = (d, Err (EType pc msg))
  | Some ty =>
      if div_overflows op a b then binop op a b pc d = (d, Panic)
      else exists v, Val.ok_ty ty v /\
        binop op a b pc d = (if div_by_zero op a b then wrap_u 32 (d + 1) else d, Ok v) /\
        forall x y, int_of a = Some x -> int_of b = Some y ->
          (is_arith op = true -> int_of v = Some (wrap_s (int_bits ty) (exact op x y))) /\
          (negb (is_arith op || is_logic op) = true -> exists t, v = VBool t /\ (t = true <-> holds_of op x y))
  end.
Proof.
  pose proof (binop_cases op a b pc d Hop Ha Hb) as Hs. unfold binop_spec in Hs.
  destruct (binop_ty _ _ _) as [ty|] eqn:Hty; [|done]. destruct (div_overflows _ _ _); [done|].
  destruct Hs as (v & Hv & Hr). exists v. split; [done|]. split; [done|]. intros x y. by eapply binop_exact.
Qed.

Lemma binop_outcome_witness :
  binop Div (VDint (- 2 ^ 31)) (VDint (-1)) 8 0 = (0, Panic) /\
  exists v, Val.ok_ty TInt v /\ binop Add (VInt 32767) (VInt 1) 8 0 = (0, Ok v) /\ int_of v = Some (- 32768).
Proof.
  split.
  - apply (binop_outcome Div (VDint (- 2 ^ 31)) (VDint (-1)) 8 0); cbn; unfold s_range; lia.
  - destruct (binop_outcome Add (VInt 32767) (VInt 1) 8 0 eq_refl ltac:(cbn; unfold s_range; lia) ltac:(cbn; unfold s_range; lia))
      as (v & Hv & Hr & Hx). exists v. split; [exact Hv|]. split; [exact Hr|].
    rewrite (proj1 (Hx 32767 1 eq_refl eq_refl) eq_refl). reflexivity.
Defined.
