(* ===== verification/VmMemory.v ===== *)
(** * Data and retain segments, and the I/O slot images

    Crate [plc-vm], src/crates/plc-vm/src/memory.rs. A failing method leaves its
    receiver as it was, so methods return the new receiver or the error.
    Offsets are [usize] values. *)
From S2P Require Import Prelude Float32 IrTypes FbDispatch VmValue.

Definition TAG_UNSET : Z := 0xFF.

(** ** [ByteSegment] *)

(** [tags] has one tag per byte: the type of the value that starts there. *)
Record ByteSegment := mkSeg { s_bytes : bytes; s_tags : list Z }.

Module Seg.
Definition zeros (size : Z) : ByteSegment :=
  mkSeg (replicate (Z.to_nat size) 0) (replicate (Z.to_nat size) TAG_UNSET).

Definition size (s : ByteSegment) : Z := len (s_bytes s).

(** The payload and the start tag are written, the start tags inside the
    payload cleared. *)
Definition store (s : ByteSegment) (offset : Z) (v : VmValue) (pc : Z) : res VmError ByteSegment :=
  let width := Val.byte_width v in
  if size s <? sat_add_u 64 offset width then Err (EBounds pc "store offset exceeds segment")
  else
    let off := Z.to_nat offset in
    let bytes := blit (s_bytes s) off (Val.to_le_bytes v) in
    let tags := <[off := IrTy.as_u8 (Val.ir_type v)]> (s_tags s) in
    Ok (mkSeg bytes (blit tags (S off) (replicate (Z.to_nat width - 1) TAG_UNSET))).

Definition load_as (s : ByteSegment) (offset : Z) (ty : IrType) (pc : Z) : res VmError VmValue :=
  let width := Val.byte_width (Val.zero ty) in
  if size s <? sat_add_u 64 offset width then Err (EBounds pc "load OOB")
  else Ok (Val.decode ty (zslice (s_bytes s) offset width)).

(** The type a load at [offset] reads: BOOL where no value starts. *)
Definition type_at (s : ByteSegment) (offset : Z) : IrType :=
  let t := default TAG_UNSET (s_tags s !! Z.to_nat offset) in
  if t =? TAG_UNSET then TBool else default TBool (IrTy.from_u8 t).

Definition load (s : ByteSegment) (offset : Z) (pc : Z) : res VmError VmValue :=
  if size s <=? offset then Err (EBounds pc "load offset exceeds segment")
  else load_as s offset (type_at s offset) pc.

Definition load_bool_raw (s : ByteSegment) (offset : Z) : bool :=
  match s_bytes s !! Z.to_nat offset with Some b => negb (b =? 0) | None => false end.

Definition fill_zero (s : ByteSegment) : ByteSegment :=
  mkSeg (map (fun _ => 0) (s_bytes s)) (map (fun _ => TAG_UNSET) (s_tags s)).

Definition blit_from (s : ByteSegment) (dst : Z) (src : ByteSegment) (src_off n : Z) :
    res VmError ByteSegment :=
  let dst_end := sat_add_u 64 dst n in
  let src_end := sat_add_u 64 src_off n in
  if (size s <? dst_end) || (size src <? src_end) then Err (EBounds 0 "blit")
  else Ok (mkSeg (blit (s_bytes s) (Z.to_nat dst) (zslice (s_bytes src) src_off n))
                 (blit (s_tags s) (Z.to_nat dst) (zslice (s_tags src) src_off n))).

(** Bytes are bytes, one tag per byte, and the segment is addressable. *)
Record ok (s : ByteSegment) : Prop := {
  seg_bytes : bytes_ok (s_bytes s);
  seg_tags : length (s_tags s) = length (s_bytes s);
  seg_size : size s < 2 ^ 63 }.
End Seg.

(** ** [SlotImage] *)

Record SlotImage := mkSlots { i_values : list VmValue; i_quality : list bool; i_written : list bool }.

Module Slots.
Definition bools (n : Z) : SlotImage :=
  let n := Z.to_nat n in
  mkSlots (replicate n (VBool false)) (replicate n true) (replicate n false).

Definition get (s : SlotImage) (idx pc : Z) : res VmError VmValue :=
  ok_or (i_values s !! Z.to_nat idx) (EBounds pc "slot").

(** An out-of-range [list insert] does nothing, as [get_mut] on [written]. *)
Definition set (s : SlotImage) (idx : Z) (v : VmValue) (pc : Z) : res VmError SlotImage :=
  match i_values s !! Z.to_nat idx with
  | None => Err (EBounds pc "slot")
  | Some _ =>
      Ok (mkSlots (<[Z.to_nat idx := v]> (i_values s)) (i_quality s)
                  (<[Z.to_nat idx := true]> (i_written s)))
  end.

Definition written (s : SlotImage) (idx : Z) : bool :=
  default false (i_written s !! Z.to_nat idx).

Definition clear_written (s : SlotImage) : SlotImage :=
  mkSlots (i_values s) (i_quality s) (map (fun _ => false) (i_written s)).

Definition fill_bool_false (s : SlotImage) : SlotImage :=
  mkSlots (map (fun _ => VBool false) (i_values s)) (map (fun _ => true) (i_quality s))
          (map (fun _ => false) (i_written s)).

Definition quality_good (s : SlotImage) (idx pc : Z) : res VmError bool :=
  ok_or (i_quality s !! Z.to_nat idx) (EBounds pc "quality slot").

Definition set_quality_good (s : SlotImage) (idx : Z) (good : bool) (pc : Z) :
    res VmError SlotImage :=
  match i_quality s !! Z.to_nat idx with
  | None => Err (EBounds pc "quality slot")
  | Some _ => Ok (mkSlots (i_values s) (<[Z.to_nat idx := good]> (i_quality s)) (i_written s))
  end.

Definition size (s : SlotImage) : Z := len (i_values s).

Record ok (s : SlotImage) : Prop := {
  slots_values : Forall Val.ok (i_values s);
  slots_quality : length (i_quality s) = length (i_values s);
  slots_written : length (i_written s) = length (i_values s) }.
End Slots.

(** ** Segment lemmas *)

Lemma sat64 x y : 0 <= x < 2 ^ 62 -> 0 <= y < 2 ^ 62 -> sat_add_u 64 x y = x + y.
Proof. unfold sat_add_u. lia. Qed.

(** The saturated bound is exceeded exactly when the true sum is. *)
Lemma sat64_ltb n x y : n < 2 ^ 63 -> (n <? sat_add_u 64 x y) = (n <? x + y).
Proof.
  unfold sat_add_u. intros. apply eq_bool_prop_intro. rewrite !Is_true_true, !Z.ltb_lt. lia.
Qed.

Lemma seg_zeros_ok size : size < 2 ^ 63 -> Seg.ok (Seg.zeros size).
Proof.
  intros H. split; cbn [Seg.zeros s_bytes s_tags].
  - apply Forall_replicate. unfold byte_range. lia.
  - by rewrite !length_replicate.
  - unfold Seg.size, len. cbn. rewrite length_replicate. lia.
Qed.

Lemma seg_fill_zero_ok s : Seg.ok s -> Seg.ok (Seg.fill_zero s).
Proof.
  intros [H1 H2 H3]. split; cbn [Seg.fill_zero s_bytes s_tags].
  - apply Forall_map_const. unfold byte_range. lia.
  - by rewrite !length_map.
  - unfold Seg.size, len in *. cbn. by rewrite length_map.
Qed.

Lemma blit_ok (dst src : bytes) off : bytes_ok dst -> bytes_ok src -> bytes_ok (blit dst off src).
Proof.
  intros. unfold blit. apply Forall_app; split; [by apply Forall_take|].
  apply Forall_app; split; [done|by apply Forall_drop].
Qed.

Section Store.
Context (s s' : ByteSegment) (off : Z) (v : VmValue) (pc : Z).
Hypothesis (Hs : Seg.ok s) (Hoff : 0 <= off) (Hv : Val.ok v).
Hypothesis Hst : Seg.store s off v pc = Ok s'.

Lemma store_fits : off + Val.byte_width v <= Seg.size s.
Proof.
  unfold Seg.store in Hst. destruct Hs. rewrite sat64_ltb in Hst by done.
  destruct (Z.ltb_spec (Seg.size s) (off + Val.byte_width v)); [discriminate Hst|done].
Qed.

Let fits : (Z.to_nat off + length (Val.to_le_bytes v) <= length (s_bytes s))%nat.
Proof.
  pose proof store_fits. pose proof (len_to_le_bytes v). unfold Seg.size, len in *. lia.
Qed.

Lemma store_eq : s' = mkSeg (blit (s_bytes s) (Z.to_nat off) (Val.to_le_bytes v))
  (blit (<[Z.to_nat off := IrTy.as_u8 (Val.ir_type v)]> (s_tags s)) (S (Z.to_nat off))
     (replicate (Z.to_nat (Val.byte_width v) - 1) TAG_UNSET)).
Proof.
  unfold Seg.store in Hst. case_match; [discriminate Hst|]. by apply Ok_inj in Hst.
Qed.

Lemma store_size : Seg.size s' = Seg.size s.
Proof.
  rewrite store_eq. unfold Seg.size, len. cbn [s_bytes]. by rewrite length_blit by apply fits.
Qed.

Let tags_fit : (S (Z.to_nat off) + length (replicate (Z.to_nat (Val.byte_width v) - 1) TAG_UNSET)
  <= length (<[Z.to_nat off := IrTy.as_u8 (Val.ir_type v)]> (s_tags s)))%nat.
Proof.
  rewrite length_replicate, length_insert, (Seg.seg_tags _ Hs).
  pose proof store_fits. pose proof (width_range v). unfold Seg.size, len in *. lia.
Qed.

Lemma store_ok_seg : Seg.ok s'.
Proof.
  split.
  - rewrite store_eq. apply blit_ok; [apply Hs|by apply to_le_bytes_ok].
  - rewrite store_eq. cbn [s_bytes s_tags].
    rewrite (length_blit _ _ _ tags_fit), (length_blit _ _ _ fits), length_insert. apply Hs.
  - rewrite store_size. apply Hs.
Qed.

Lemma store_type_at : Seg.type_at s' off = Val.ir_type v.
Proof.
  unfold Seg.type_at. rewrite store_eq. cbn [s_tags].
  rewrite blit_lookup_out by (apply tags_fit || lia).
  rewrite list_lookup_insert_eq.
  - cbn [default from_option]. by destruct v.
  - rewrite (Seg.seg_tags _ Hs). pose proof store_fits. pose proof (width_range v).
    unfold Seg.size, len in *. lia.
Qed.

Lemma store_type_other o :
  0 <= o -> o < off \/ off + Val.byte_width v <= o -> Seg.type_at s' o = Seg.type_at s o.
Proof.
  intros Ho Hd. unfold Seg.type_at. rewrite store_eq. cbn [s_tags].
  rewrite blit_lookup_out by (apply tags_fit || (rewrite length_replicate;
    pose proof (width_range v); lia)).
  rewrite list_lookup_insert_ne; [done|]. pose proof (width_range v). lia.
Qed.

Lemma store_type_inside o :
  off < o < off + Val.byte_width v -> Seg.type_at s' o = TBool.
Proof.
  intros Ho. unfold Seg.type_at. rewrite store_eq. cbn [s_tags].
  assert (Hl : blit (<[Z.to_nat off:=IrTy.as_u8 (Val.ir_type v)]> (s_tags s)) (S (Z.to_nat off))
    (replicate (Z.to_nat (Val.byte_width v) - 1) TAG_UNSET) !! Z.to_nat o = Some TAG_UNSET).
  { pose proof (slice_blit _ _ _ tags_fit) as Hsl. rewrite length_replicate in Hsl.
    replace (Z.to_nat o) with (S (Z.to_nat off) + (Z.to_nat o - S (Z.to_nat off)))%nat by lia.
    rewrite <-(slice_lookup _ _ (Z.to_nat (Val.byte_width v) - 1)) by lia.
    rewrite Hsl. apply lookup_replicate_2. lia. }
  by rewrite Hl.
Qed.

Lemma store_bytes_other o n :
  0 <= o -> 0 <= n -> o + n <= off \/ off + Val.byte_width v <= o ->
  zslice (s_bytes s') o n = zslice (s_bytes s) o n.
Proof.
  intros Ho Hn Hd. rewrite store_eq. cbn [s_bytes]. unfold zslice.
  apply slice_blit_out; [apply fits|]. pose proof (len_to_le_bytes v). unfold len in *. lia.
Qed.

Lemma store_bytes_at : zslice (s_bytes s') off (Val.byte_width v) = Val.to_le_bytes v.
Proof.
  rewrite store_eq. cbn [s_bytes]. unfold zslice.
  pose proof (len_to_le_bytes v) as Hl. unfold len in Hl.
  replace (Z.to_nat (Val.byte_width v)) with (length (Val.to_le_bytes v)) by lia.
  apply slice_blit, fits.
Qed.
End Store.

Lemma seg_load_ok s off pc v : Seg.ok s -> 0 <= off -> Seg.load s off pc = Ok v -> Val.ok v.
Proof.
  intros Hs Hoff. unfold Seg.load. case_match; [done|]. unfold Seg.load_as.
  rewrite sat64_ltb by apply Hs. case_match eqn:E; [done|]. intros Hv. apply Ok_inj in Hv as <-.
  apply Z.ltb_ge in E. pose proof (width_range (Val.zero (Seg.type_at s off))).
  apply decode_ok; [apply slice_ok, Hs|].
  apply len_zslice; unfold Seg.size in *; lia.
Qed.

Lemma load_typed s off ty pc :
  Seg.ok s -> 0 <= off -> Seg.type_at s off = ty ->
  Seg.load s off pc =
    if Seg.size s <=? off then Err (EBounds pc "load offset exceeds segment")
    else if Seg.size s <? off + Val.byte_width (Val.zero ty) then Err (EBounds pc "load OOB")
    else Ok (Val.decode ty (zslice (s_bytes s) off (Val.byte_width (Val.zero ty)))).
Proof.
  intros Hs Ho <-. unfold Seg.load, Seg.load_as. by rewrite sat64_ltb by apply Hs.
Qed.

(** Blitting keeps a segment well-formed. *)
Lemma blit_from_ok s dst src src_off n s' :
  Seg.ok s -> Seg.ok src -> 0 <= dst -> 0 <= src_off -> 0 <= n ->
  Seg.blit_from s dst src src_off n = Ok s' ->
  Seg.ok s' /\ Seg.size s' = Seg.size s /\ dst + n <= Seg.size s /\ src_off + n <= Seg.size src /\
  s_bytes s' = blit (s_bytes s) (Z.to_nat dst) (zslice (s_bytes src) src_off n) /\
  s_tags s' = blit (s_tags s) (Z.to_nat dst) (zslice (s_tags src) src_off n).
Proof.
  intros Hs Hsrc H1 H2 H3. unfold Seg.blit_from. rewrite !sat64_ltb by (apply Hs || apply Hsrc).
  case_match eqn:E; [done|]. apply orb_false_iff in E as [E1%Z.ltb_ge E2%Z.ltb_ge].
  intros Hr. apply Ok_inj in Hr as <-.
  unfold Seg.size, len in *. cbn [s_bytes s_tags].
  assert (length (zslice (s_bytes src) src_off n) = Z.to_nat n) as Hl1
    by (unfold zslice; rewrite length_slice; lia).
  assert (length (zslice (s_tags src) src_off n) = Z.to_nat n) as Hl2
    by (unfold zslice; rewrite length_slice; [done|rewrite (Seg.seg_tags _ Hsrc); lia]).
  assert (Hlen : length (blit (s_bytes s) (Z.to_nat dst) (zslice (s_bytes src) src_off n))
                 = length (s_bytes s)) by (apply length_blit; lia).
  repeat split; cbn [s_bytes s_tags]; try lia.
  - apply blit_ok; [apply Hs|]. apply slice_ok, Hsrc.
  - rewrite Hlen, length_blit; rewrite ?(Seg.seg_tags _ Hs); lia.
  - unfold Seg.size, len. cbn [s_bytes]. rewrite Hlen. apply Hs.
Qed.

(** ** Slot image lemmas *)

Lemma slots_bools_ok n : Slots.ok (Slots.bools n).
Proof. split; cbn; rewrite ?length_replicate; try done. by apply Forall_replicate. Qed.

Lemma slots_get_ok s idx pc v : Slots.ok s -> Slots.get s idx pc = Ok v -> Val.ok v.
Proof.
  intros [Hs _ _] H. unfold Slots.get in H. inv_res. by eapply Forall_lookup_1.
Qed.

Lemma slots_set_ok s idx v pc s' :
  Slots.ok s -> Val.ok v -> Slots.set s idx v pc = Ok s' ->
  Slots.ok s' /\ Slots.size s' = Slots.size s.
Proof.
  intros [H1 H2 H3] Hv. unfold Slots.set. case_match; [|done]. intros Hr.
  apply Ok_inj in Hr as <-. split; [split|]; unfold Slots.size, len; cbn;
    rewrite ?length_insert; auto. by apply Forall_insert.
Qed.

Lemma slots_clear_ok s : Slots.ok s -> Slots.ok (Slots.clear_written s).
Proof. intros [H1 H2 H3]. split; cbn; rewrite ?length_map; auto. Qed.

Lemma slots_fill_ok s : Slots.ok s -> Slots.ok (Slots.fill_bool_false s).
Proof.
  intros [H1 H2 H3]. split; cbn; rewrite ?length_map; auto. by apply Forall_map_const.
Qed.

(** ** Properties *)

(** A typed store into a data or retain segment fails, with a bounds error,
    exactly when the value does not fit; otherwise a load at the same offset
    returns the stored value, the offsets inside its payload read as BOOL, a
    load that does not touch the payload is unchanged, and a value that starts
    before the payload and overlaps it keeps its type. *)
Lemma segment_store_load (s : ByteSegment) (off : Z) (v : VmValue) (pc : Z)
    (Hs : Seg.ok s) (Hoff : 0 <= off) (Hv : Val.ok v) :
  if Seg.size s <? off + Val.byte_width v then
    Seg.store s off v pc = Err (EBounds pc "store offset exceeds segment")
  else exists s', Seg.store s off v pc = Ok s' /\ Seg.ok s' /\ Seg.size s' = Seg.size s /\
    Seg.load s' off pc = Ok v /\
    (forall o, off < o < off + Val.byte_width v -> Seg.type_at s' o = TBool) /\
    (forall o, 0 <= o ->
      o + Val.byte_width (Val.zero (Seg.type_at s o)) <= off \/ off + Val.byte_width v <= o ->
      Seg.load s' o pc = Seg.load s o pc) /\
    (forall o, 0 <= o < off -> Seg.type_at s' o = Seg.type_at s o).
Proof.
  destruct (Z.ltb_spec (Seg.size s) (off + Val.byte_width v)) as [Hlt|Hge].
  { unfold Seg.store. rewrite sat64_ltb by apply Hs. by ltb_true by lia. }
  assert (exists s', Seg.store s off v pc = Ok s') as [s' Hst].
  { unfold Seg.store. rewrite sat64_ltb by apply Hs. ltb_false by lia. by eexists. }
  pose proof (width_range v) as Hw.
  pose proof (store_size _ _ _ _ _ Hs Hoff Hst) as Hsz.
  pose proof (store_ok_seg _ _ _ _ _ Hs Hoff Hv Hst) as Hok.
  exists s'. repeat apply conj; [done..| | | |].
  - rewrite (load_typed s' off (Val.ir_type v)) by
      (done || by apply (store_type_at s s' off v pc)).
    rewrite zero_width, Hsz. destruct (Z.leb_spec (Seg.size s) off); [lia|].
    ltb_false by lia. rewrite (store_bytes_at s s' off v pc) by done.
    by rewrite decode_to_le_bytes.
  - intros o Ho. by apply (store_type_inside s s' off v pc).
  - intros o Ho Hd. pose proof (width_range (Val.zero (Seg.type_at s o))).
    assert (Ht : Seg.type_at s' o = Seg.type_at s o)
      by (apply (store_type_other s s' off v pc); try done; lia).
    rewrite (load_typed s' o (Seg.type_at s o)), (load_typed s o (Seg.type_at s o)) by done.
    rewrite Hsz. rewrite (store_bytes_other s s' off v pc) by (done || lia). done.
  - intros o Ho. apply (store_type_other s s' off v pc); try done; lia.
Qed.

Lemma segment_store_load_witness :
  exists s', Seg.store (Seg.zeros 8) 4 (VDint (-5)) 0 = Ok s' /\
    Seg.load s' 4 0 = Ok (VDint (-5)) /\ Seg.load s' 0 0 = Ok (VBool false).
Proof.
  pose proof (segment_store_load (Seg.zeros 8) 4 (VDint (-5)) 0 (seg_zeros_ok 8 eq_refl)
    ltac:(lia) ltac:(cbn; unfold s_range; lia)) as H.
  destruct H as (s' & H1 & _ & _ & H2 & _ & H3 & _). exists s'. split; [exact H1|].
  split; [exact H2|]. rewrite (H3 0) by (vm_compute; intuition congruence). reflexivity.
Defined.
