(* ===== verification/RetainLayout.v ===== *)
(** * Retain layouts

    Crate [plc-ir], src/crates/plc-ir/src/retain.rs: the symbols of a retain
    segment, their validation and their lookup. Names are the UTF-8 bytes of the
    Rust strings, which [str::cmp] compares bytewise. *)
From S2P Require Import Prelude IrTypes.

(** [binary_search_by]: the size-halving loop of the standard library; [f] is
    how an element compares with the target. *)
Fixpoint bsearch_loop {A} (f : A -> comparison) (l : list A) (fuel base size : nat) : option nat :=
  match fuel with
  | O => None
  | S fuel =>
      if (1 <? size)%nat then
        let half := (size / 2)%nat in
        let mid := (base + half)%nat in
        let base :=
          match f <$> l !! mid with Some Datatypes.Gt => base | _ => mid end in
        bsearch_loop f l fuel base (size - half)
      else
        match f <$> l !! base with Some Datatypes.Eq => Some base | _ => None end
  end.

Definition binary_search_by {A} (f : A -> comparison) (l : list A) : option nat :=
  match l with
  | [] => None
  | _ => bsearch_loop f l (length l) 0 (length l)
  end.

(** ** Layouts *)

Record RetainSymbol := { sym_name : bytes; sym_ty : IrType; sym_offset : Z }.

Definition sym_width (s : RetainSymbol) : Z := Z.of_nat (IrTy.byte_width (sym_ty s)).
Definition end_offset (s : RetainSymbol) : Z := sat_add_u 32 (sym_offset s) (sym_width s).

Record RetainLayout := { l_retain_size : Z; l_symbols : list RetainSymbol }.

Definition name_gt (a b : RetainSymbol) : bool :=
  match bytes_cmp (sym_name a) (sym_name b) with Datatypes.Gt => true | _ => false end.
Definition offset_gt (a b : RetainSymbol) : bool := sym_offset b <? sym_offset a.

(** The [for sym in &symbols] loop. *)
Fixpoint check_symbols (retain_size : Z) (l : list RetainSymbol) : res IrError unit :=
  match l with
  | [] => Ok tt
  | s :: l =>
      if bool_decide (sym_name s = []) then Err (IrRetainLayout "empty symbol name")
      else
        let e := sym_offset s + sym_width s in
        if retain_size <? e then Err (IrRetainLayout "symbol exceeds retain_size")
        else check_symbols retain_size l
  end.

Definition layout_new (retain_size : Z) (symbols : list RetainSymbol) : res IrError RetainLayout :=
  let symbols := sort_by name_gt symbols in
  if has_window (fun a b => bool_decide (sym_name a = sym_name b)) symbols then
    Err (IrRetainLayout "duplicate symbol")
  else
    check_symbols retain_size symbols ;;
    let by_off := sort_by offset_gt symbols in
    if has_window (fun a b => sym_offset b <? end_offset a) by_off then
      Err (IrRetainLayout "symbols overlap")
    else Ok {| l_retain_size := retain_size; l_symbols := symbols |}.

Definition layout_empty (retain_size : Z) : RetainLayout :=
  {| l_retain_size := retain_size; l_symbols := [] |}.

(** The index [get] and the retain mapper search for. *)
Definition symbol_index (l : RetainLayout) (name : bytes) : option nat :=
  binary_search_by (fun s => bytes_cmp (sym_name s) name) (l_symbols l).

Definition layout_get (l : RetainLayout) (name : bytes) : option RetainSymbol :=
  i ← symbol_index l name; l_symbols l !! i.

(** ** Valid layouts *)

Definition sym_range (s : RetainSymbol) : Prop := u_range 32 (sym_offset s).

Definition disjoint_syms (a b : RetainSymbol) : Prop :=
  sym_offset a + sym_width a <= sym_offset b \/ sym_offset b + sym_width b <= sym_offset a.

(** The symbols of a list occupy pairwise disjoint ranges. *)
Definition pairwise_disjoint (l : list RetainSymbol) : Prop :=
  forall i j a b, i <> j -> l !! i = Some a -> l !! j = Some b -> disjoint_syms a b.

Record symbols_ok (retain_size : Z) (l : list RetainSymbol) : Prop := {
  sy_unique : NoDup (map sym_name l);
  sy_named : Forall (fun s => sym_name s <> []) l;
  sy_fits : Forall (fun s => sym_offset s + sym_width s <= retain_size) l;
  sy_disjoint : pairwise_disjoint l }.

Record layout_ok (l : RetainLayout) : Prop := {
  lo_size : u_range 32 (l_retain_size l);
  lo_ranges : Forall sym_range (l_symbols l);
  lo_sorted : StronglySorted (fun a b => name_lt (sym_name a) (sym_name b)) (l_symbols l);
  lo_symbols : symbols_ok (l_retain_size l) (l_symbols l) }.

(** ** Sorting *)

Lemma name_gt_false a b :
  name_gt a b = false <-> sym_name a = sym_name b \/ name_lt (sym_name a) (sym_name b).
Proof.
  unfold name_gt, name_lt. rewrite <-bytes_cmp_eq.
  destruct (bytes_cmp (sym_name a) (sym_name b)); split; intros; naive_solver.
Qed.

Lemma name_gt_trans x y z : name_gt x y = false -> name_gt y z = false -> name_gt x z = false.
Proof.
  rewrite !name_gt_false. intros [H1|H1] [H2|H2].
  - left. congruence.
  - right. by rewrite H1.
  - right. by rewrite <-H2.
  - right. by eapply name_lt_trans.
Qed.

Lemma name_gt_asym x y : name_gt x y = true -> name_gt y x = false.
Proof.
  unfold name_gt. rewrite (bytes_cmp_antisym (sym_name x) (sym_name y)).
  by destruct (bytes_cmp _ _).
Qed.

Lemma offset_gt_trans x y z :
  offset_gt x y = false -> offset_gt y z = false -> offset_gt x z = false.
Proof. unfold offset_gt. rewrite !Z.ltb_ge. lia. Qed.

Lemma offset_gt_asym x y : offset_gt x y = true -> offset_gt y x = false.
Proof. unfold offset_gt. rewrite Z.ltb_lt, Z.ltb_ge. lia. Qed.

Lemma sorted_name_lt l :
  NoDup (map sym_name l) -> StronglySorted (fun x y => name_gt x y = false) l ->
  StronglySorted (fun a b => name_lt (sym_name a) (sym_name b)) l.
Proof.
  intros Hn Hs. induction Hs as [|x l Hs IH Hx]; [constructor|].
  apply NoDup_cons in Hn as [Hnx Hn]. constructor; [auto|].
  apply Forall_forall. intros y Hy. eapply Forall_forall in Hx; [|exact Hy].
  apply name_gt_false in Hx as [He|]; [|done]. exfalso. apply Hnx. rewrite He.
  apply list_elem_of_fmap. eauto.
Qed.

Lemma name_lt_nodup l :
  StronglySorted (fun a b => name_lt (sym_name a) (sym_name b)) l -> NoDup (map sym_name l).
Proof.
  induction 1 as [|x l Hs IH Hx]; [constructor|]. apply NoDup_cons. split; [|done].
  intros (y & He & Hy)%list_elem_of_fmap. eapply Forall_forall in Hx; [|exact Hy].
  rewrite He in Hx. by apply name_lt_irrefl in Hx.
Qed.

(** ** Disjointness *)

Lemma sym_width_pos s : 1 <= sym_width s <= 8.
Proof. unfold sym_width. pose proof (IrTy.byte_width_pos (sym_ty s)). lia. Qed.

Lemma pairwise_disjoint_perm l k : l ≡ₚ k -> pairwise_disjoint l -> pairwise_disjoint k.
Proof.
  intros Hp Hl i j a b Hne Ha Hb.
  symmetry in Hp. apply Permutation_inj in Hp as (_ & f & Hf & Hlk).
  rewrite Hlk in Ha, Hb. apply (Hl (f i) (f j)); [|done|done]. intros He. by apply Hne, Hf.
Qed.

Lemma symbols_ok_perm n l k : l ≡ₚ k -> symbols_ok n l -> symbols_ok n k.
Proof.
  intros Hp [H1 H2 H3 H4]. split.
  - by rewrite <-Hp.
  - by rewrite <-Hp.
  - by rewrite <-Hp.
  - by eapply pairwise_disjoint_perm.
Qed.

Lemma ss_disjoint l :
  StronglySorted (fun a b => sym_offset a + sym_width a <= sym_offset b) l -> pairwise_disjoint l.
Proof.
  induction 1 as [|x l Hs IH Hx]; intros i j a b Hne Ha Hb; [done|].
  rewrite Forall_forall in Hx.
  destruct i as [|i], j as [|j]; cbn in Ha, Hb; simplify_eq.
  - left. apply Hx. by eapply list_elem_of_lookup_2.
  - right. apply Hx. by eapply list_elem_of_lookup_2.
  - apply (IH i j a b); [congruence|done|done].
Qed.

Lemma disjoint_ss l :
  pairwise_disjoint l -> StronglySorted (fun x y => offset_gt x y = false) l ->
  StronglySorted (fun a b => sym_offset a + sym_width a <= sym_offset b) l.
Proof.
  intros Hd Hs. induction Hs as [|x l Hs IH Hx]; [constructor|]. constructor.
  - apply IH. intros i j a b Hne Ha Hb. apply (Hd (S i) (S j) a b); [congruence|done|done].
  - apply Forall_forall. intros y Hy. eapply Forall_forall in Hx; [|exact Hy].
    unfold offset_gt in Hx. apply Z.ltb_ge in Hx. apply list_elem_of_lookup in Hy as [j Hj].
    pose proof (Hd 0%nat (S j) x y ltac:(lia) eq_refl Hj) as [|].
    + done.
    + pose proof (sym_width_pos y). lia.
Qed.

Lemma check_symbols_ok n l :
  check_symbols n l = Ok tt <->
  Forall (fun s => sym_name s <> [] /\ sym_offset s + sym_width s <= n) l.
Proof.
  induction l as [|s l IH]; simpl; [split; [constructor|done]|].
  case_bool_decide as Hn; [split; [done|intros [[]]%Forall_cons; done]|].
  destruct (Z.ltb_spec n (sym_offset s + sym_width s)).
  - split; [done|intros [[]]%Forall_cons; lia].
  - rewrite IH, Forall_cons. naive_solver.
Qed.

Lemma check_symbols_no_panic n l : check_symbols n l <> Panic.
Proof. induction l; simpl; repeat case_match; done. Qed.

(** ** Binary search *)

Section Bsearch.
Context {A : Type} (f : A -> comparison) (l : list A).

(** The compared values go from [Lt] through at most one [Eq] to [Gt]. *)
Hypothesis Hmono : forall i j x y, (i < j)%nat -> l !! i = Some x -> l !! j = Some y ->
  f y <> Datatypes.Gt -> f x = Datatypes.Lt.

Lemma bsearch_loop_spec fuel base size i :
  (size <= fuel)%nat -> (0 < size)%nat -> (base + size <= length l)%nat ->
  bsearch_loop f l fuel base size = Some i <->
  (base <= i < base + size)%nat /\ f <$> l !! i = Some Datatypes.Eq.
Proof.
  revert base size. induction fuel as [|fuel IH]; intros base size Hf Hp Hl; [lia|].
  cbn [bsearch_loop]. destruct (Nat.ltb_spec 1 size) as [Hs|Hs].
  - pose proof (Nat.div_lt size 2 ltac:(lia) ltac:(lia)).
    assert (1 <= size / 2)%nat by (apply Nat.div_le_lower_bound; lia).
    assert (2 * (size / 2) <= size)%nat by (apply Nat.Div0.mul_div_le).
    generalize dependent (size / 2)%nat. intros half Hh1 Hh2 Hh3.
    destruct (lookup_lt_is_Some_2 l (base + half)) as [x Hx]; [lia|]. rewrite Hx. cbn.
    destruct (f x) eqn:Ex; (rewrite IH by lia); split; intros [H1 H2]; (split; [|done]); try lia.
    all: destruct (l !! i) as [y|] eqn:Ey; [|done]; cbn in H2; injection H2 as H2.
    all: destruct (decide (i < base + half)%nat) as [Hi|Hi]; try lia.
    + exfalso. assert (f y = Datatypes.Lt) by (eapply Hmono; [exact Hi|done..|congruence]).
      congruence.
    + exfalso. assert (f y = Datatypes.Lt) by (eapply Hmono; [exact Hi|done..|congruence]).
      congruence.
    + exfalso. destruct (decide (i = base + half)%nat) as [->|]; [congruence|].
      assert (f x = Datatypes.Lt); [|congruence].
      eapply (Hmono (base + half) i); [lia|done..|congruence].
  - destruct (f <$> l !! base) as [[]|] eqn:E; (split; [intros H|intros [H1 H2]]); try done.
    + injection H as <-. split; [lia|done].
    + f_equal. lia.
    + exfalso. replace i with base in H2 by lia. congruence.
    + exfalso. replace i with base in H2 by lia. congruence.
    + exfalso. replace i with base in H2 by lia. congruence.
Qed.

End Bsearch.

Lemma binary_search_by_spec {A} (f : A -> comparison) (l : list A) i :
  (forall i j x y, (i < j)%nat -> l !! i = Some x -> l !! j = Some y ->
    f y <> Datatypes.Gt -> f x = Datatypes.Lt) ->
  binary_search_by f l = Some i <-> f <$> l !! i = Some Datatypes.Eq.
Proof.
  intros Hmono. unfold binary_search_by. destruct l as [|x k]; [done|].
  rewrite (bsearch_loop_spec f (x :: k) Hmono) by (simpl; lia). split; [naive_solver|].
  intros H. split; [|done]. destruct ((x :: k) !! i) eqn:E; [|done].
  apply lookup_lt_Some in E. lia.
Qed.

Lemma layout_mono l name i j x y :
  layout_ok l -> (i < j)%nat -> l_symbols l !! i = Some x -> l_symbols l !! j = Some y ->
  bytes_cmp (sym_name y) name <> Datatypes.Gt -> bytes_cmp (sym_name x) name = Datatypes.Lt.
Proof.
  intros [_ _ Hs _] Hij Hx Hy Hc.
  assert (Hlt : name_lt (sym_name x) (sym_name y)).
  { clear Hc. revert i j Hij Hx Hy. induction Hs as [|a k Hs IH Ha]; intros i j Hij Hx Hy; [done|].
    destruct j as [|j]; [lia|]. destruct i as [|i]; cbn in Hx, Hy.
    - injection Hx as <-. rewrite Forall_forall in Ha. apply Ha.
      by eapply list_elem_of_lookup_2.
    - apply (IH i j); [lia|done..]. }
  destruct (bytes_cmp (sym_name y) name) eqn:E; [| |done].
  - apply bytes_cmp_eq in E as <-. done.
  - by eapply name_lt_trans.
Qed.

Lemma symbol_index_spec l name i :
  layout_ok l ->
  symbol_index l name = Some i <-> exists s, l_symbols l !! i = Some s /\ sym_name s = name.
Proof.
  intros Hl. unfold symbol_index. rewrite binary_search_by_spec.
  - destruct (l_symbols l !! i) as [s|]; cbn.
    + split.
      * intros [= H]. exists s. split; [done|]. by apply bytes_cmp_eq.
      * intros (s' & [= <-] & H). f_equal. by apply bytes_cmp_eq.
    + split; [done|naive_solver].
  - intros i' j x y. by apply layout_mono.
Qed.

Lemma layout_new_no_panic size syms : layout_new size syms <> Panic.
Proof.
  unfold layout_new. case_match; [done|].
  pose proof (check_symbols_no_panic size (sort_by name_gt syms)).
  destruct (check_symbols _ _); cbn; repeat case_match; done.
Qed.

Lemma layout_new_complete size syms :
  symbols_ok size syms ->
  layout_new size syms = Ok {| l_retain_size := size; l_symbols := sort_by name_gt syms |}.
Proof.
  intros Hsy. unfold layout_new.
  pose proof (sort_by_perm name_gt syms) as Hp.
  pose proof (sort_by_sorted name_gt name_gt_trans name_gt_asym syms) as Hs.
  set (l := sort_by name_gt syms) in *.
  pose proof (sort_by_perm offset_gt l) as Hp2.
  pose proof (sort_by_sorted offset_gt offset_gt_trans offset_gt_asym l) as Hs2.
  assert (symbols_ok size l) as [H1 H2 H3 H4]
    by (eapply symbols_ok_perm; [symmetry; exact Hp|exact Hsy]).
  rewrite (has_window_true (fun a b => name_lt (sym_name a) (sym_name b)));
    [|intros a b Hab%bool_decide_eq_true Hlt; rewrite Hab in Hlt; by apply name_lt_irrefl in Hlt
     |by apply sorted_name_lt].
  assert (check_symbols size l = Ok tt) as ->
    by (apply check_symbols_ok, Forall_and; done).
  cbn [mbind res_bind].
  rewrite (has_window_true (fun a b => sym_offset a + sym_width a <= sym_offset b)); [done| |].
  - intros a b Hab%Z.ltb_lt Hle. unfold end_offset, sat_add_u in Hab. lia.
  - apply disjoint_ss; [by eapply pairwise_disjoint_perm|done].
Qed.

Lemma layout_new_sound size syms l :
  u_range 32 size -> Forall sym_range syms -> layout_new size syms = Ok l ->
  layout_ok l /\ l_retain_size l = size /\ l_symbols l ≡ₚ syms.
Proof.
  intros Hsize Hr. unfold layout_new.
  pose proof (sort_by_perm name_gt syms) as Hp.
  pose proof (sort_by_sorted name_gt name_gt_trans name_gt_asym syms) as Hs.
  set (k := sort_by name_gt syms) in *.
  pose proof (sort_by_perm offset_gt k) as Hp2.
  pose proof (sort_by_sorted offset_gt offset_gt_trans offset_gt_asym k) as Hs2.
  destruct (has_window _ k) eqn:Hw; [done|]. intros Hn.
  apply res_bind_Ok in Hn as ([] & Hc & Hn).
  destruct (has_window _ (sort_by offset_gt k)) eqn:Hw2; [done|].
  apply Ok_inj in Hn as <-. cbn [l_retain_size l_symbols].
  apply check_symbols_ok, Forall_and in Hc as [Hc1 Hc2].
  assert (Hrk : Forall sym_range k) by (by rewrite Hp).
  assert (Hlt : StronglySorted (fun a b => name_lt (sym_name a) (sym_name b)) k).
  { eapply has_window_false; [| |exact Hs|exact Hw].
    - intros x y Hb%bool_decide_eq_false Hg%name_gt_false. naive_solver.
    - intros x y z. apply name_lt_trans. }
  split; [|done]. split; cbn [l_retain_size l_symbols]; try done.
  split; [by apply name_lt_nodup|done|done|].
  eapply pairwise_disjoint_perm; [exact Hp2|]. apply ss_disjoint.
  eapply (has_window_false (fun a b => sym_offset a + sym_width a <= size /\ sym_range b));
    [| | |exact Hw2].
  - intros x y Hb%Z.ltb_ge [Hx Hy]. unfold end_offset, sat_add_u, u_range in *. lia.
  - intros x y z. pose proof (sym_width_pos y). lia.
  - clear Hs2 Hw2. assert (Hc2' : Forall (fun s => sym_offset s + sym_width s <= size)
      (sort_by offset_gt k)) by (by rewrite Hp2).
    assert (Hr2 : Forall sym_range (sort_by offset_gt k)) by (by rewrite Hp2).
    clear Hp2. induction (sort_by offset_gt k) as [|x q IHq]; [constructor|].
    apply Forall_cons in Hc2' as [Hx Hq]. apply Forall_cons in Hr2 as [_ Hr2].
    constructor; [by apply IHq|]. eapply Forall_impl; [exact Hr2|]. done.
Qed.

(** ** Properties *)

(** C26: [RetainLayout::new] accepts a list of symbols exactly when their names
    are distinct and not empty, they lie inside the segment and their byte
    ranges are pairwise disjoint; the layout then holds the same symbols,
    strictly sorted by name. It never panics, and every other list is an error. *)
Theorem layout_new_valid (size : Z) (syms : list RetainSymbol)
    (Hsize : u_range 32 size) (Hsyms : Forall sym_range syms) :
  (symbols_ok size syms <-> exists l, layout_new size syms = Ok l) /\
  (forall l, layout_new size syms = Ok l ->
    layout_ok l /\ l_retain_size l = size /\ l_symbols l ≡ₚ syms) /\
  layout_new size syms <> Panic.
Proof.
  split; [split|split].
  - intros H. eexists. by apply layout_new_complete.
  - intros [l Hl]. apply layout_new_sound in Hl as ([_ _ _ H] & Hsz & Hp); [|done..].
    rewrite Hsz in H. by eapply symbols_ok_perm.
  - intros l. by apply layout_new_sound.
  - apply layout_new_no_panic.
Qed.

(** Lookup by name in a valid layout: [get] (the standard library's binary
    search) finds a symbol exactly when the layout has one of that name. *)
Lemma layout_get_spec (l : RetainLayout) (name : bytes) (s : RetainSymbol) (Hl : layout_ok l) :
  layout_get l name = Some s <-> s ∈ l_symbols l /\ sym_name s = name.
Proof.
  unfold layout_get. rewrite bind_Some. split.
  - intros (i & Hi & Hs). apply symbol_index_spec in Hi as (s' & Hs' & Hn); [|done].
    simplify_eq. split; [by eapply list_elem_of_lookup_2|done].
  - intros [Hs Hn]. apply list_elem_of_lookup in Hs as [i Hi]. exists i. split; [|done].
    apply symbol_index_spec; eauto.
Qed.

Definition sample_symbols : list RetainSymbol :=
  [ {| sym_name := bstr "hours"; sym_ty := TDint; sym_offset := 4 |};
    {| sym_name := bstr "flag"; sym_ty := TBool; sym_offset := 0 |} ].
Definition sample_layout : RetainLayout :=
  {| l_retain_size := 16; l_symbols := rev sample_symbols |}.

Lemma sample_layout_new : layout_new 16 sample_symbols = Ok sample_layout.
Proof. vm_compute. reflexivity. Qed.

Lemma sample_layout_ok : layout_ok sample_layout.
Proof.
  apply (layout_new_sound 16 sample_symbols); [by vm_compute| |exact sample_layout_new].
  repeat constructor; vm_compute; done.
Qed.

Lemma layout_new_valid_witness : symbols_ok 16 sample_symbols.
Proof.
  apply (layout_new_valid 16 sample_symbols); [by vm_compute| |by exists sample_layout].
  repeat constructor; vm_compute; done.
Defined.

Lemma layout_get_spec_witness :
  layout_get sample_layout (bstr "hours") =
    Some {| sym_name := bstr "hours"; sym_ty := TDint; sym_offset := 4 |}.
Proof.
  apply (layout_get_spec sample_layout (bstr "hours")); [exact sample_layout_ok|].
  split; [right; left|reflexivity].
Defined.
