(* ===== verification/RetainCodec.v ===== *)
(** * CRC-32 and the symbolic retain payload

    Crate [plc-retain], src/crates/plc-retain/src: crc.rs, the reflected CRC-32 that guards
    the slot and index files, bit by bit as the source computes it, and the damage it
    always detects; then codec.rs, layout.rs and error.rs, the retained values as records. *)
From S2P Require Import Prelude IrTypes RetainLayout.
From Stdlib Require Import Btauto.

Definition POLY : Z := 0xEDB88320.

(** One turn of the inner loop. *)
Definition crc_bit (crc : Z) : Z :=
  if Z.land crc 1 =? 0 then Z.shiftr crc 1 else Z.lxor (Z.shiftr crc 1) POLY.

(** [k] turns of the inner loop. *)
Definition crc_bits (k : nat) (crc : Z) : Z := Nat.iter k crc_bit crc.

Definition crc_byte (crc b : Z) : Z := crc_bits 8 (Z.lxor crc b).

Definition crc32 (data : bytes) : Z :=
  Z.lxor (foldl crc_byte 0xFFFFFFFF data) 0xFFFFFFFF.

(** ** The bit step is linear and injective *)

Lemma crc_bit_odd c :
  crc_bit c = Z.lxor (Z.shiftr c 1) (if Z.odd c then POLY else 0).
Proof.
  unfold crc_bit. change 1 with (2 ^ 1 - 1) at 1. rewrite land_mask by done.
  change (2 ^ 1) with 2. rewrite Zmod_odd. destruct (Z.odd c); cbn [Z.eqb]; [done|].
  by rewrite Z.lxor_0_r.
Qed.

Lemma odd_lxor a b : Z.odd (Z.lxor a b) = xorb (Z.odd a) (Z.odd b).
Proof. rewrite <-!Z.bit0_odd. apply Z.lxor_spec. Qed.

Lemma crc_bit_lxor a b : crc_bit (Z.lxor a b) = Z.lxor (crc_bit a) (crc_bit b).
Proof.
  rewrite !crc_bit_odd, odd_lxor, Z.shiftr_lxor.
  apply Z.bits_inj'. intros n _. rewrite !Z.lxor_spec.
  destruct (Z.odd a), (Z.odd b); cbn [xorb]; rewrite ?Z.bits_0; btauto.
Qed.

Lemma u_range_lxor w a b : 0 <= w -> u_range w a -> u_range w b -> u_range w (Z.lxor a b).
Proof.
  intros Hw Ha Hb. assert (Z.lxor a b = (Z.lxor a b) mod 2 ^ w) as ->.
  { rewrite <-Z.land_ones by done. apply Z.bits_inj'. intros n Hn.
    rewrite Z.land_spec, Z.lxor_spec, Z.testbit_ones by done.
    destruct (Z.leb_spec 0 n), (Z.ltb_spec n w); cbn; rewrite ?andb_true_r, ?andb_false_r; try done; try lia.
    rewrite <-(Z.mod_small a (2 ^ w)), <-(Z.mod_small b (2 ^ w)) by done.
    by rewrite !Z.mod_pow2_bits_high by lia. }
  by apply wrap_u_range.
Qed.

Lemma shiftr1_range c : u_range 32 c -> u_range 31 (Z.shiftr c 1).
Proof.
  intros Hc. unfold u_range in *. rewrite Z.shiftr_div_pow2 by done.
  change (2 ^ 1) with 2. change (2 ^ 32) with (2 * 2 ^ 31) in Hc.
  split; [apply Z.div_pos; lia|apply Z.div_lt_upper_bound; lia].
Qed.

Lemma crc_bit_range c : u_range 32 c -> u_range 32 (crc_bit c).
Proof.
  intros Hc. rewrite crc_bit_odd. apply u_range_lxor; [done| |].
  - apply shiftr1_range in Hc. unfold u_range in *. lia.
  - destruct (Z.odd c); split; vm_compute; done.
Qed.

Lemma crc_bit_zero c : u_range 32 c -> crc_bit c = 0 -> c = 0.
Proof.
  intros Hc H. pose proof (shiftr1_range c Hc) as Hs. rewrite crc_bit_odd in H.
  apply Z.lxor_eq in H. destruct (Z.odd c) eqn:Ho.
  - rewrite H in Hs. unfold u_range, POLY in Hs. lia.
  - rewrite Z.shiftr_div_pow2 in H by done. change (2 ^ 1) with 2 in H.
    pose proof (Zmod_odd c) as Hm. rewrite Ho in Hm. pose proof (Z.div_mod c 2 ltac:(lia)). lia.
Qed.

Lemma crc_bit_double x : crc_bit (2 * x) = x.
Proof.
  rewrite crc_bit_odd, Z.odd_mul, Z.lxor_0_r.
  rewrite Z.shiftr_div_pow2 by done. change (2 ^ 1) with 2.
  by rewrite Z.mul_comm, Z.div_mul.
Qed.

Lemma crc_bits_S k c : crc_bits (S k) c = crc_bit (crc_bits k c).
Proof. reflexivity. Qed.

Lemma crc_bits_add j k c : crc_bits (j + k) c = crc_bits j (crc_bits k c).
Proof. apply Nat.iter_add. Qed.

Lemma crc_bits_lxor k a b : crc_bits k (Z.lxor a b) = Z.lxor (crc_bits k a) (crc_bits k b).
Proof. induction k as [|k IH]; [done|]. by rewrite !crc_bits_S, IH, crc_bit_lxor. Qed.

Lemma crc_bits_range k c : u_range 32 c -> u_range 32 (crc_bits k c).
Proof. intros Hc. induction k as [|k IH]; [done|]. rewrite crc_bits_S. by apply crc_bit_range. Qed.

Lemma crc_bits_zero k c : u_range 32 c -> crc_bits k c = 0 -> c = 0.
Proof.
  intros Hc. induction k as [|k IH]; [done|]. rewrite crc_bits_S. intros H. apply IH.
  apply crc_bit_zero; [by apply crc_bits_range|done].
Qed.

Lemma crc_bits_shift k x : crc_bits k (x * 2 ^ Z.of_nat k) = x.
Proof.
  revert x. induction k as [|k IH]; intros x; [cbn; lia|].
  unfold crc_bits. rewrite Nat.iter_succ_r, Nat2Z.inj_succ, Z.pow_succ_r by lia.
  replace (x * (2 * 2 ^ Z.of_nat k)) with (2 * (x * 2 ^ Z.of_nat k)) by lia.
  rewrite crc_bit_double. apply IH.
Qed.

Lemma crc_byte_range c b : u_range 32 c -> byte_range b -> u_range 32 (crc_byte c b).
Proof.
  intros Hc Hb. apply crc_bits_range, u_range_lxor; [done..|].
  unfold byte_range, u_range in *. lia.
Qed.

Lemma crc_fold_range l c : u_range 32 c -> bytes_ok l -> u_range 32 (foldl crc_byte c l).
Proof.
  intros Hc Hl. revert c Hc. induction Hl as [|b l Hb _ IH]; intros c Hc; cbn; [done|].
  by apply IH, crc_byte_range.
Qed.

Lemma crc32_range l : bytes_ok l -> u_range 32 (crc32 l).
Proof.
  intros Hl. apply u_range_lxor; [done| |by vm_compute].
  apply crc_fold_range; [by vm_compute|done].
Qed.

(** ** The difference of two runs *)

Abbreviation byte_diff := (zip_with Z.lxor).

Lemma crc_fold_diff l l' c c' :
  length l = length l' ->
  Z.lxor (foldl crc_byte c l) (foldl crc_byte c' l') =
  foldl crc_byte (Z.lxor c c') (byte_diff l l').
Proof.
  revert l' c c'. induction l as [|b l IH]; intros [|b' l'] c c' Hl; try discriminate Hl; [done|].
  cbn [foldl zip_with]. rewrite IH by (cbn in Hl; lia). f_equal.
  unfold crc_byte. rewrite <-crc_bits_lxor. f_equal.
  apply Z.bits_inj'. intros n _. rewrite !Z.lxor_spec. btauto.
Qed.

Lemma byte_diff_same l : byte_diff l l = replicate (length l) 0.
Proof. induction l as [|b l IH]; cbn; [done|]. by rewrite IH, Z.lxor_nilpotent. Qed.

(** Equal bytes keep a difference of zero at zero and a nonzero one nonzero. *)
Lemma crc_fold_zeros n c :
  u_range 32 c -> foldl crc_byte c (replicate n 0) = 0 <-> c = 0.
Proof.
  revert c. induction n as [|n IH]; intros c Hc; cbn [replicate foldl]; [done|].
  rewrite IH by (by apply crc_byte_range). unfold crc_byte. rewrite Z.lxor_0_r. split.
  - by apply crc_bits_zero.
  - intros ->. reflexivity.
Qed.

Lemma lxor_high n a b : 0 <= n -> u_range n b -> Z.lxor b (a * 2 ^ n) = a * 2 ^ n + b.
Proof.
  intros Hn Hb. rewrite Z.lxor_comm, <-Z.add_nocarry_lxor; [done|].
  apply Z.bits_inj'. intros i Hi. rewrite Z.land_spec, Z.bits_0.
  rewrite <-Z.shiftl_mul_pow2 by done. destruct (decide (i < n)).
  - by rewrite Z.shiftl_spec_low.
  - rewrite <-(Z.mod_small b (2 ^ n)) by done.
    rewrite Z.mod_pow2_bits_high by lia. apply andb_false_r.
Qed.

Lemma le_combine_snoc l b :
  le_combine (l ++ [b]) = le_combine l + b * 2 ^ (8 * len l).
Proof.
  unfold len. induction l as [|x l IH]; [cbn; lia|].
  cbn [app le_combine length]. rewrite IH, pow256_S. lia.
Qed.

(** A short message is folded as the word its bytes spell. *)
Lemma crc_fold_word ds :
  bytes_ok ds -> foldl crc_byte 0 ds = crc_bits (8 * length ds) (le_combine ds).
Proof.
  induction ds as [|d ds IH] using rev_ind; intros Hds; [done|].
  apply Forall_app in Hds as [Hds Hd]. apply Forall_inv in Hd.
  rewrite foldl_app. cbn [foldl]. rewrite IH by done. unfold crc_byte.
  rewrite length_app. cbn [length]. replace (8 * (length ds + 1))%nat with (8 + 8 * length ds)%nat by lia.
  rewrite crc_bits_add. f_equal.
  rewrite <-(crc_bits_shift (8 * length ds) d) at 1. rewrite <-crc_bits_lxor. f_equal.
  rewrite le_combine_snoc. unfold len. rewrite Nat2Z.inj_mul. change (Z.of_nat 8) with 8.
  rewrite lxor_high; [lia|lia|]. by apply le_combine_bound.
Qed.

Lemma le_combine_zero ds : bytes_ok ds -> le_combine ds = 0 -> ds = replicate (length ds) 0.
Proof.
  induction 1 as [|d ds Hd Hds IH]; [done|]. cbn [le_combine length replicate]. intros H.
  pose proof (le_combine_bound ds Hds). unfold byte_range in Hd.
  rewrite <-IH by lia. f_equal. lia.
Qed.

Lemma byte_diff_ok l l' : bytes_ok l -> bytes_ok l' -> bytes_ok (byte_diff l l').
Proof.
  intros Hl. revert l'. induction Hl as [|b l Hb _ IH]; intros l' Hl'; [constructor|].
  destruct Hl' as [|b' l' Hb' Hl']; [constructor|]. constructor; [|by apply IH].
  apply (u_range_lxor 8 b b'); done.
Qed.

Lemma byte_diff_zero l l' :
  length l = length l' -> byte_diff l l' = replicate (length l) 0 -> l = l'.
Proof.
  revert l'. induction l as [|b l IH]; intros [|b' l'] Hl H; try discriminate Hl; [done|].
  injection H as Hb H. apply Z.lxor_eq in Hb as ->. f_equal. apply IH; [by injection Hl|done].
Qed.

Lemma crc32_burst pre w w' post :
  bytes_ok (pre ++ w ++ post) -> bytes_ok w' -> length w = length w' -> (length w <= 4)%nat ->
  crc32 (pre ++ w ++ post) = crc32 (pre ++ w' ++ post) -> w = w'.
Proof.
  intros Hok Hw' Hl H4 H. apply Forall_app in Hok as [_ Hok].
  apply Forall_app in Hok as [Hw _].
  apply byte_diff_zero; [done|]. pose proof (byte_diff_ok w w' Hw Hw') as Hd.
  assert (Hdl : length (byte_diff w w') = length w) by (rewrite length_zip_with; lia).
  rewrite <-Hdl. apply le_combine_zero; [done|].
  pose proof (le_combine_bound _ Hd) as Hb.
  assert (2 ^ (8 * Z.of_nat (length (byte_diff w w'))) <= 2 ^ 32)
    by (apply Z.pow_le_mono_r; lia).
  apply (crc_bits_zero (8 * length (byte_diff w w'))); [unfold u_range; lia|].
  rewrite <-crc_fold_word by done.
  apply (crc_fold_zeros (length post)); [apply crc_fold_range; [by vm_compute|done]|].
  rewrite <-byte_diff_same.
  rewrite <-(proj2 (crc_fold_zeros (length pre) 0 ltac:(by vm_compute)) eq_refl) at 1.
  rewrite <-byte_diff_same, <-!foldl_app.
  rewrite <-!zip_with_app by lia.
  unfold crc32 in H. apply (f_equal (fun z => Z.lxor z 0xFFFFFFFF)) in H.
  rewrite !Z.lxor_assoc, Z.lxor_nilpotent, !Z.lxor_0_r in H.
  pose proof (crc_fold_diff (pre ++ w ++ post) (pre ++ w' ++ post) 0xFFFFFFFF 0xFFFFFFFF) as Hf.
  rewrite H, !Z.lxor_nilpotent in Hf. symmetry. apply Hf.
  rewrite !length_app. lia.
Qed.

(** ** Properties *)

(** The CRC detects every burst of up to four bytes: two messages that
    differ only inside a window of at most 32 bits have different checksums. *)
Lemma crc32_detects_burst (pre w w' post : bytes)
    (Hok : bytes_ok (pre ++ w ++ post)) (Hok' : bytes_ok w')
    (Hlen : length w = length w') (Hburst : (length w <= 4)%nat) (Hne : w <> w') :
  crc32 (pre ++ w ++ post) <> crc32 (pre ++ w' ++ post).
Proof. intros H. by apply Hne, (crc32_burst pre w w' post). Qed.

Example crc32_check_vector : crc32 (bstr "123456789") = 0xCBF43926.
Proof. vm_compute. reflexivity. Qed.

Lemma crc32_detects_burst_witness :
  crc32 ([1; 2] ++ [3; 4] ++ [5]) <> crc32 ([1; 2] ++ [4; 3] ++ [5]).
Proof.
  apply (crc32_detects_burst [1; 2] [3; 4] [4; 3] [5]); try done; try (cbn; lia);
    repeat constructor; unfold byte_range; lia.
Defined.

(** * The symbolic retain payload

    Crate [plc-retain], src/crates/plc-retain/src/codec.rs, layout.rs and
    error.rs: retained values as (name, type, value) records, their encoding
    and its decoder. *)

(** Messages of codec errors keep their fixed text only. *)
Inductive RetainError :=
  | REIo
  | REInvalidProgramId (id : bytes)
  | REImageSize (expected actual : Z)
  | REIncompatible (names : list bytes)
  | RECodec (msg : string).

Record RetainRecord := mkRec { r_name : bytes; r_ty : IrType; r_value : bytes }.

(** ** Encoding *)

(** The [for sym in &layout.symbols] loop of [encode_records]. *)
Fixpoint encode_symbols (image : bytes) (l : list RetainSymbol) : res RetainError bytes :=
  match l with
  | [] => Ok []
  | s :: l =>
      let start := sym_offset s in
      let width := sym_width s in
      let name := sym_name s in
      if 65535 <? len name then Err (RECodec "symbol name exceeds u16 length")
      else if len image <? start + width then Panic
      else
        out ← encode_symbols image l;
        Ok (le_split 2 (len name) ++ name ++ [IrTy.as_u8 (sym_ty s)] ++ [0] ++
            zslice image start width ++ out)
  end.

Definition encode_records (layout : RetainLayout) (image : bytes) : res RetainError bytes :=
  if negb (len image =? l_retain_size layout) then
    Err (REImageSize (l_retain_size layout) (len image))
  else encode_symbols image (l_symbols layout).

(** The [map] of [records_from_image]. *)
Fixpoint image_records (image : bytes) (l : list RetainSymbol) :
    res RetainError (list RetainRecord) :=
  match l with
  | [] => Ok []
  | s :: l =>
      let start := sym_offset s in
      let width := sym_width s in
      if len image <? start + width then Panic
      else
        rs ← image_records image l;
        Ok (mkRec (sym_name s) (sym_ty s) (zslice image start width) :: rs)
  end.

Definition records_from_image (layout : RetainLayout) (image : bytes) :
    res RetainError (list RetainRecord) :=
  if negb (len image =? l_retain_size layout) then
    Err (REImageSize (l_retain_size layout) (len image))
  else image_records image (l_symbols layout).

(** [schema_hash] (layout.rs). *)
Definition schema_bytes (layout : RetainLayout) : bytes :=
  concat (map (fun s => sym_name s ++ [0] ++ [IrTy.as_u8 (sym_ty s)] ++
    le_split 4 (sym_offset s) ++ le_split 4 (l_retain_size layout)) (l_symbols layout)).
Definition schema_hash (layout : RetainLayout) : Z := crc32 (schema_bytes layout).

(** ** Decoding *)

(** [payload[i]]. *)
Definition byte_at (payload : bytes) (i : Z) : res RetainError Z := index payload (Z.to_nat i).

(** One turn of the [while] loop of [decode_records]: the record and the offset
    after it. *)
Definition decode_record (payload : bytes) (i : Z) : res RetainError (RetainRecord * Z) :=
  if len payload <? i + 2 then Err (RECodec "truncated name_len")
  else
    b0 ← byte_at payload i;
    b1 ← byte_at payload (i + 1);
    let name_len := le_combine [b0; b1] in
    let i := i + 2 in
    if len payload <? i + name_len + 2 then Err (RECodec "truncated name or type")
    else
      let name := zslice payload i name_len in
      if negb (utf8_valid name) then Err (RECodec "symbol name is not UTF-8")
      else
        let i := i + name_len in
        tag ← byte_at payload i;
        pad ← byte_at payload (i + 1);
        let i := i + 2 in
        if negb (pad =? 0) then Err (RECodec "nonzero record pad")
        else
          ty ← ok_or (IrTy.from_u8 tag) (RECodec "unknown type tag");
          let width := Z.of_nat (IrTy.byte_width ty) in
          if len payload <? i + width then Err (RECodec "truncated value")
          else
            let value := zslice payload i width in
            Ok (mkRec name ty value, i + width).

Fixpoint decode_loop (fuel : nat) (payload : bytes) (i : Z) :
    res RetainError (list RetainRecord) :=
  match fuel with
  | O => Panic
  | S fuel =>
      if i <? len payload then
        '(r, i) ← decode_record payload i;
        rs ← decode_loop fuel payload i;
        Ok (r :: rs)
      else Ok []
  end.

(** A turn consumes at least one byte: the fuel covers every turn and the last
    test. *)
Definition decode_records (payload : bytes) : res RetainError (list RetainRecord) :=
  decode_loop (S (length payload)) payload 0.

(** ** What the encoding is *)

Definition record_bytes (r : RetainRecord) : bytes :=
  le_split 2 (len (r_name r)) ++ r_name r ++ [IrTy.as_u8 (r_ty r); 0] ++ r_value r.

Definition payload_of (rs : list RetainRecord) : bytes := concat (map record_bytes rs).

(** Records the format can carry. *)
Record record_ok (r : RetainRecord) : Prop := {
  ro_name : len (r_name r) <= 65535;
  ro_utf8 : utf8_valid (r_name r) = true;
  ro_value : len (r_value r) = Z.of_nat (IrTy.byte_width (r_ty r)) }.

Lemma len_record_bytes r : len (record_bytes r) = 4 + len (r_name r) + len (r_value r).
Proof. unfold record_bytes. rewrite !len_app, len_le_split. unfold len. cbn [length]. lia. Qed.

Lemma payload_of_cons r rs : payload_of (r :: rs) = record_bytes r ++ payload_of rs.
Proof. reflexivity. Qed.

(** ** Slices *)

Lemma zslice_add {A} (l : list A) i a b :
  0 <= i -> 0 <= a -> 0 <= b -> zslice l i (a + b) = zslice l i a ++ zslice l (i + a) b.
Proof.
  intros. unfold zslice, slice. rewrite !Z2Nat.inj_add by lia.
  rewrite <-drop_drop. generalize (drop (Z.to_nat i) l). intros k.
  by rewrite take_take_drop.
Qed.

Lemma drop_zslice {A} (l : list A) i n :
  0 <= i -> 0 <= n -> drop (Z.to_nat i) l = zslice l i n ++ drop (Z.to_nat (i + n)) l.
Proof.
  intros. unfold zslice, slice. rewrite Z2Nat.inj_add by lia.
  by rewrite <-drop_drop, take_drop.
Qed.

Lemma byte_at_Ok p i b : byte_at p i = Ok b <-> p !! Z.to_nat i = Some b.
Proof. unfold byte_at, index. case_match; naive_solver. Qed.

Lemma byte_at_total p i : 0 <= i -> i < len p -> exists b, byte_at p i = Ok b.
Proof.
  intros H1 H2. unfold len in H2. destruct (lookup_lt_is_Some_2 p (Z.to_nat i)) as [b Hb]; [lia|].
  exists b. by apply byte_at_Ok.
Qed.

Lemma zslice_byte p i b n :
  byte_at p i = Ok b -> 0 <= i -> 0 <= n -> zslice p i (1 + n) = b :: zslice p (i + 1) n.
Proof.
  intros Hb%byte_at_Ok Hi Hn. rewrite zslice_add by lia.
  change (b :: zslice p (i + 1) n) with ([b] ++ zslice p (i + 1) n). f_equal.
  unfold zslice, slice. by rewrite (drop_S _ _ _ Hb).
Qed.

Lemma zslice_none {A} (l : list A) i : zslice l i 0 = [].
Proof. reflexivity. Qed.

Lemma byte_at_range p i b : bytes_ok p -> byte_at p i = Ok b -> byte_range b.
Proof. intros Hp Hb%byte_at_Ok. by eapply Forall_lookup_1. Qed.

Lemma two_bytes_ok b0 b1 : byte_range b0 -> byte_range b1 -> bytes_ok [b0; b1].
Proof. intros H0 H1. by apply Forall_cons_2, Forall_singleton. Qed.

(** ** One record *)

Lemma decode_record_sound p i r i' :
  bytes_ok p -> 0 <= i -> decode_record p i = Ok (r, i') ->
  record_ok r /\ i' = i + len (record_bytes r) /\ i' <= len p /\
  zslice p i (len (record_bytes r)) = record_bytes r.
Proof.
  intros Hp Hi. unfold decode_record.
  destruct (Z.ltb_spec (len p) (i + 2)) as [|H1]; [done|].
  intros H. apply res_bind_Ok in H as (b0 & Hb0 & H). apply res_bind_Ok in H as (b1 & Hb1 & H).
  pose proof (byte_at_range _ _ _ Hp Hb0) as R0. pose proof (byte_at_range _ _ _ Hp Hb1) as R1.
  pose proof (two_bytes_ok b0 b1 R0 R1) as R.
  pose proof (le_combine_bound _ R) as Hn. pose proof (le_split_combine _ R) as Hsp.
  cbn [length] in Hn, Hsp. change (2 ^ (8 * Z.of_nat 2)) with 65536 in Hn.
  set (n := le_combine [b0; b1]) in *. clearbody n.
  destruct (Z.ltb_spec (len p) (i + 2 + n + 2)) as [|H2]; [done|].
  destruct (utf8_valid _) eqn:Hu; [cbn [negb] in H|done].
  apply res_bind_Ok in H as (tag & Ht & H). apply res_bind_Ok in H as (pad & Hpad & H).
  destruct (Z.eqb_spec pad 0) as [->|]; [cbn [negb] in H|done].
  apply res_bind_Ok in H as (ty & Hty%ok_or_Ok%IrTy.ty_as_from & H). subst tag.
  set (w := Z.of_nat (IrTy.byte_width ty)) in *.
  destruct (Z.ltb_spec (len p) (i + 2 + n + 2 + w)) as [|H3]; [done|].
  apply Ok_inj in H. injection H as <- <-.
  assert (Hln : len (zslice p (i + 2) n) = n) by (apply len_zslice; lia).
  assert (Hlv : len (zslice p (i + 2 + n + 2) w) = w) by (apply len_zslice; lia).
  rewrite len_record_bytes. cbn [r_name r_value]. rewrite Hln, Hlv.
  split; [split; cbn [r_name r_value r_ty]; [lia|done|done]|].
  split; [lia|]. split; [lia|].
  unfold record_bytes. cbn [r_name r_value r_ty]. rewrite Hln, Hsp.
  replace (4 + n + w) with (1 + (1 + (n + (1 + (1 + w))))) by lia.
  rewrite (zslice_byte _ _ _ _ Hb0), (zslice_byte _ _ _ _ Hb1) by lia.
  replace (i + 1 + 1) with (i + 2) by lia. rewrite zslice_add by lia.
  rewrite (zslice_byte _ _ _ _ Ht), (zslice_byte _ _ _ _ Hpad) by lia.
  by replace (i + 2 + n + 1 + 1) with (i + 2 + n + 2) by lia.
Qed.

Lemma byte_at_mid pre b post i : i = len pre -> byte_at (pre ++ b :: post) i = Ok b.
Proof. intros ->. apply byte_at_Ok. unfold len. by rewrite Nat2Z.id, list_lookup_middle. Qed.

Lemma decode_record_complete pre r post :
  record_ok r ->
  decode_record (pre ++ record_bytes r ++ post) (len pre) = Ok (r, len pre + len (record_bytes r)).
Proof.
  intros [Hn Hu Hv]. destruct r as [name ty v]. cbn [r_name r_value r_ty] in *.
  pose proof (len_record_bytes (mkRec name ty v)) as Hl. cbn [r_name r_value] in Hl.
  pose proof (len_nonneg name) as P1. pose proof (len_nonneg post) as P2.
  assert (exists b0 b1, le_split 2 (len name) = [b0; b1]) as (b0 & b1 & Hsp) by (do 2 eexists; reflexivity).
  assert (Hc : le_combine [b0; b1] = len name).
  { rewrite <-Hsp. apply le_combine_split_id. unfold u_range. change (8 * Z.of_nat 2) with 16. lia. }
  assert (Hrec : record_bytes (mkRec name ty v) = [b0; b1] ++ name ++ [IrTy.as_u8 ty; 0] ++ v).
  { unfold record_bytes. cbn [r_name r_value r_ty]. by rewrite Hsp. }
  unfold decode_record. rewrite !len_app, Hl. rewrite Hrec. rewrite Hrec in Hl.
  ltb_false by lia.
  rewrite <-!app_assoc. cbn [app].
  rewrite (byte_at_mid pre b0 _ (len pre) eq_refl). cbn [mbind res_bind].
  rewrite (cons_middle b0 pre), app_assoc.
  rewrite (byte_at_mid (pre ++ [b0]) b1 _ (len pre + 1)) by (rewrite len_app; unfold len; cbn [length]; lia).
  cbn [mbind res_bind]. rewrite Hc. ltb_false by lia.
  rewrite (cons_middle b1), app_assoc.
  set (q := (pre ++ [b0]) ++ [b1]).
  assert (Hq : len q = len pre + 2) by (unfold q; rewrite !len_app; unfold len; cbn [length]; lia).
  rewrite (zslice_app q name) by lia. rewrite Hu. cbn [negb].
  rewrite (app_assoc q name).
  assert (Hqn : len (q ++ name) = len pre + 2 + len name) by (rewrite len_app; lia).
  rewrite (byte_at_mid (q ++ name) (IrTy.as_u8 ty) _ (len pre + 2 + len name)) by lia. cbn [mbind res_bind].
  rewrite (cons_middle (IrTy.as_u8 ty)), (app_assoc _ [IrTy.as_u8 ty]).
  set (q2 := (q ++ name) ++ [IrTy.as_u8 ty]).
  assert (Hq2 : len q2 = len pre + 2 + len name + 1)
    by (unfold q2; rewrite len_app, Hqn; unfold len; cbn [length]; lia).
  rewrite (byte_at_mid q2 0 _ (len pre + 2 + len name + 1)) by lia.
  cbn [mbind res_bind Z.eqb negb]. rewrite IrTy.ty_from_as. cbn [ok_or mbind res_bind].
  ltb_false by lia.
  rewrite (cons_middle 0), (app_assoc _ [0]).
  assert (Hq3 : len (q2 ++ [0]) = len pre + 2 + len name + 2)
    by (rewrite len_app, Hq2; unfold len; cbn [length]; lia).
  rewrite (zslice_app (q2 ++ [0]) v) by lia.
  do 2 f_equal. lia.
Qed.

Lemma decode_record_no_panic p i : bytes_ok p -> 0 <= i -> decode_record p i <> Panic.
Proof.
  intros Hp Hi. unfold decode_record. destruct (Z.ltb_spec (len p) (i + 2)) as [|H1]; [done|].
  destruct (byte_at_total p i) as [b0 Hb0]; [lia..|].
  destruct (byte_at_total p (i + 1)) as [b1 Hb1]; [lia..|].
  pose proof (le_combine_bound _ (two_bytes_ok b0 b1 (byte_at_range _ _ _ Hp Hb0)
    (byte_at_range _ _ _ Hp Hb1))) as [Hn _].
  rewrite Hb0, Hb1. cbn [mbind res_bind].
  set (n := le_combine [b0; b1]) in *. clearbody n.
  destruct (Z.ltb_spec (len p) (i + 2 + n + 2)) as [|H2]; [done|].
  case_match; [done|].
  destruct (byte_at_total p (i + 2 + n)) as [tag ->]; [lia..|].
  destruct (byte_at_total p (i + 2 + n + 1)) as [pad ->]; [lia..|]. cbn [mbind res_bind].
  case_match; [done|]. destruct (IrTy.from_u8 tag); cbn; [|done]. by case_match.
Qed.

(** ** Whole payloads *)

Lemma decode_loop_sound fuel p i rs :
  bytes_ok p -> 0 <= i -> i <= len p -> decode_loop fuel p i = Ok rs ->
  Forall record_ok rs /\ drop (Z.to_nat i) p = payload_of rs.
Proof.
  intros Hp. revert i rs. induction fuel as [|fuel IH]; intros i rs Hi Hle; cbn [decode_loop]; [done|].
  destruct (Z.ltb_spec i (len p)) as [H|H].
  - intros Hd. apply res_bind_Ok in Hd as ([r i'] & Hr & Hd). apply res_bind_Ok in Hd as (rs' & Hl & Hd).
    apply Ok_inj in Hd as <-. apply decode_record_sound in Hr as (Hok & -> & Hle' & Hz); [|done..].
    pose proof (len_nonneg (record_bytes r)). apply IH in Hl as [Hrs Hdrop]; [|lia..].
    split; [by constructor|].
    rewrite (drop_zslice p i (len (record_bytes r))) by lia. by rewrite Hz, Hdrop.
  - intros Hd. apply Ok_inj in Hd as <-. split; [constructor|].
    apply drop_ge. unfold len in *. lia.
Qed.

Lemma decode_loop_complete fuel pre rs :
  Forall record_ok rs -> (length (payload_of rs) < fuel)%nat ->
  decode_loop fuel (pre ++ payload_of rs) (len pre) = Ok rs.
Proof.
  intros Hrs. revert fuel pre. induction Hrs as [|r rs Hr _ IH]; intros fuel pre Hf.
  - destruct fuel as [|fuel]; [cbn in Hf; lia|]. cbn [decode_loop].
    rewrite (proj2 (Z.ltb_ge _ _)); [done|]. cbn [payload_of concat map]. by rewrite app_nil_r.
  - destruct fuel as [|fuel]; [lia|]. rewrite payload_of_cons, length_app in *.
    pose proof (len_record_bytes r) as Hl. pose proof (len_nonneg (r_name r)).
    pose proof (len_nonneg (r_value r)). cbn [decode_loop].
    rewrite (proj2 (Z.ltb_lt _ _)) by (rewrite !len_app; unfold len in *; lia).
    rewrite decode_record_complete by done. cbn [mbind res_bind].
    rewrite <-len_app, app_assoc, IH; [done|]. unfold len in *. lia.
Qed.

Lemma decode_loop_no_panic fuel p i :
  bytes_ok p -> 0 <= i <= len p -> len p - i < Z.of_nat fuel -> decode_loop fuel p i <> Panic.
Proof.
  intros Hp. revert i. induction fuel as [|fuel IH]; intros i Hi Hf; cbn [decode_loop]; [lia|].
  destruct (Z.ltb_spec i (len p)); [|done]. pose proof (decode_record_no_panic p i Hp (proj1 Hi)).
  destruct (decode_record p i) as [[r i']| |] eqn:E; cbn [mbind res_bind]; [|done|done].
  apply decode_record_sound in E as (_ & -> & Hle & _); [|done|lia].
  rewrite len_record_bytes in *. pose proof (len_nonneg (r_name r)). pose proof (len_nonneg (r_value r)).
  specialize (IH (i + (4 + len (r_name r) + len (r_value r))) ltac:(lia) ltac:(lia)).
  by destruct (decode_loop _ _ _).
Qed.

Lemma decode_records_spec p rs :
  bytes_ok p -> decode_records p = Ok rs <-> Forall record_ok rs /\ p = payload_of rs.
Proof.
  intros Hp. unfold decode_records. split.
  - intros H. apply decode_loop_sound in H; [|done|lia|apply len_nonneg]. by rewrite drop_0 in H.
  - intros [Hrs ->]. apply (decode_loop_complete _ [] rs Hrs). lia.
Qed.

(** ** Encoding a valid layout *)

(** Every symbol lies inside the image, and its name fits the format. *)
Definition symbols_encodable (image : bytes) (l : list RetainSymbol) : Prop :=
  Forall (fun s => 0 <= sym_offset s /\ sym_offset s + sym_width s <= len image /\
    len (sym_name s) <= 65535 /\ utf8_valid (sym_name s) = true) l.

Definition symbol_record (image : bytes) (s : RetainSymbol) : RetainRecord :=
  mkRec (sym_name s) (sym_ty s) (zslice image (sym_offset s) (sym_width s)).

Lemma symbol_record_ok image s :
  0 <= sym_offset s -> sym_offset s + sym_width s <= len image ->
  len (sym_name s) <= 65535 -> utf8_valid (sym_name s) = true -> record_ok (symbol_record image s).
Proof.
  intros. pose proof (sym_width_pos s). split; cbn; [done|done|]. by rewrite len_zslice by lia.
Qed.

Lemma image_records_spec image l :
  Forall (fun s => sym_offset s + sym_width s <= len image) l ->
  image_records image l = Ok (map (symbol_record image) l).
Proof.
  induction 1 as [|s l Hs _ IH]; cbn [image_records map]; [done|].
  ltb_false by done. by rewrite IH.
Qed.

Lemma encode_symbols_spec image l :
  symbols_encodable image l ->
  encode_symbols image l = Ok (payload_of (map (symbol_record image) l)).
Proof.
  induction 1 as [|s l (H1 & H2 & H3 & H4) _ IH]; cbn [encode_symbols map]; [done|].
  ltb_false by done. ltb_false by done. rewrite IH. cbn [mbind res_bind].
  rewrite payload_of_cons. unfold record_bytes. cbn. by rewrite <-!app_assoc.
Qed.

Definition layout_names_ok (l : RetainLayout) : Prop :=
  Forall (fun s => len (sym_name s) <= 65535 /\ utf8_valid (sym_name s) = true) (l_symbols l).

Lemma layout_encodable l image :
  layout_ok l -> layout_names_ok l -> len image = l_retain_size l ->
  symbols_encodable image (l_symbols l).
Proof.
  intros [_ Hr _ [_ _ Hf _]] Hn Hi. unfold symbols_encodable, layout_names_ok in *.
  rewrite Forall_forall in *. intros s Hs.
  specialize (Hr s Hs). specialize (Hf s Hs). specialize (Hn s Hs).
  unfold sym_range, u_range in Hr. rewrite Hi. intuition lia.
Qed.

(** ** Properties *)

(** The retain payload format. On any bytes the decoder terminates without a
    panic, and it accepts exactly the concatenated encodings of records whose
    name is UTF-8 of at most 65535 bytes and whose value has its type's width:
    every accepted payload is the canonical encoding of the records it yields,
    so no two payloads decode alike. *)
Lemma decode_records_exact (payload : bytes) (Hp : bytes_ok payload) :
  decode_records payload <> Panic /\
  forall rs, decode_records payload = Ok rs <-> Forall record_ok rs /\ payload = payload_of rs.
Proof.
  split; [|intros rs; by apply decode_records_spec].
  apply decode_loop_no_panic; [done| |]; unfold len; lia.
Qed.

(** Encoding a retain image of a valid layout succeeds, and decoding the
    payload gives back the records that are read directly from the image, one
    per symbol in name order; an image of the wrong size is an error. *)
Lemma encode_decode_records (l : RetainLayout) (image : bytes)
    (Hl : layout_ok l) (Hn : layout_names_ok l) (Hi : bytes_ok image) :
  if len image =? l_retain_size l then
    exists payload, encode_records l image = Ok payload /\
      decode_records payload = records_from_image l image /\
      records_from_image l image = Ok (map (symbol_record image) (l_symbols l))
  else encode_records l image = Err (REImageSize (l_retain_size l) (len image)).
Proof.
  unfold encode_records, records_from_image.
  destruct (Z.eqb_spec (len image) (l_retain_size l)) as [He|]; cbn [negb]; [|done].
  pose proof (layout_encodable _ _ Hl Hn He) as Hs. rewrite encode_symbols_spec by done.
  rewrite image_records_spec by (eapply Forall_impl; [exact Hs|]; naive_solver).
  eexists. split; [done|]. split; [|done]. apply decode_loop_complete with (pre := []); [|lia].
  apply Forall_map. eapply Forall_impl; [exact Hs|]. intros s (H1 & H2 & H3 & H4).
  by apply symbol_record_ok.
Qed.

(** ** Witnesses *)

Definition sample_image : bytes := [1; 0; 0; 0; 42; 0; 0; 0; 0; 0; 0; 0; 0; 0; 0; 0].

Lemma sample_image_ok : bytes_ok sample_image.
Proof. repeat (apply Forall_cons_2; [unfold byte_range; lia|]). constructor. Qed.

Lemma sample_names_ok : layout_names_ok sample_layout.
Proof. repeat constructor; vm_compute; done. Qed.

Lemma decode_records_exact_witness :
  decode_records sample_image <> Panic /\ exists rs, decode_records (payload_of rs) = Ok rs.
Proof.
  destruct (decode_records_exact sample_image sample_image_ok) as [H _]. split; [exact H|].
  exists [mkRec (bstr "x") TBool [1]].
  apply (decode_records_exact (payload_of [mkRec (bstr "x") TBool [1]])); [|split; [|reflexivity]].
  - repeat (apply Forall_cons_2; [unfold byte_range; vm_compute; intuition congruence|]). constructor.
  - repeat constructor; vm_compute; done.
Defined.

Lemma encode_decode_records_witness :
  exists payload, encode_records sample_layout sample_image = Ok payload.
Proof.
  destruct (encode_decode_records sample_layout sample_image sample_layout_ok sample_names_ok
    sample_image_ok) as (p & H & _). exists p. exact H.
Defined.
