(* ===== verification/RetainMap.v ===== *)
(** * Remapping retained values

    Crate [plc-retain], src/crates/plc-retain/src/map.rs: applying the records of
    an old image to a new layout, by symbol path and type. The [u32] counters of
    the report are unbounded here: a record takes at least five bytes of a payload
    whose length is a [u32], so they do not wrap. *)
From S2P Require Import Prelude IrTypes RetainLayout RetainCodec.

Record MapReport := mkReport {
  kept : Z; cold_defaults : Z; dropped : Z; zeroed_incompat : list bytes }.

Record MappedRetain := { m_image : bytes; m_report : MapReport }.

(** The locals of [apply_records]. *)
Record Applying := mkApplying {
  a_image : bytes; a_used : list bool; a_kept : Z; a_dropped : Z; a_incompat : list bytes }.

(** One turn of the [for rec in records] loop. *)
Definition apply_record (layout : RetainLayout) (rec : RetainRecord) (a : Applying) :
    res RetainError Applying :=
  match layout_get layout (r_name rec) with
  | None => Ok (mkApplying (a_image a) (a_used a) (a_kept a) (a_dropped a + 1) (a_incompat a))
  | Some sym =>
      if decide (sym_ty sym = r_ty rec) then
        let start := sym_offset sym in
        let width := Z.of_nat (IrTy.byte_width (r_ty rec)) in
        if negb (len (r_value rec) =? width) then Err (RECodec "record value width")
        else if len (a_image a) <? start + width then Panic
        else
          let image := blit (a_image a) (Z.to_nat start) (r_value rec) in
          used ← match symbol_index layout (r_name rec) with
                 | Some i => if (length (a_used a) <=? i)%nat then Panic else Ok (<[i := true]> (a_used a))
                 | None => Ok (a_used a)
                 end;
          Ok (mkApplying image used (a_kept a + 1) (a_dropped a) (a_incompat a))
      else
        Ok (mkApplying (a_image a) (a_used a) (a_kept a) (a_dropped a) (a_incompat a ++ [r_name rec]))
  end.

Fixpoint apply_loop (layout : RetainLayout) (records : list RetainRecord) (a : Applying) :
    res RetainError Applying :=
  match records with
  | [] => Ok a
  | rec :: records => a ← apply_record layout rec a; apply_loop layout records a
  end.

(** [vec![false; n]] and [vec![0; n]] before the loop. *)
Definition applying_new (layout : RetainLayout) : Applying :=
  mkApplying (replicate (Z.to_nat (l_retain_size layout)) 0)
    (replicate (length (l_symbols layout)) false) 0 0 [].

(** The [for used in used] loop. *)
Definition count_unused (used : list bool) : Z := len (filter (fun u => u = false) used).

Definition apply_records (records : list RetainRecord) (layout : RetainLayout)
    (force_incompat : bool) : res RetainError MappedRetain :=
  a ← apply_loop layout records (applying_new layout);
  if negb (bool_decide (a_incompat a = [])) && negb force_incompat then
    Err (REIncompatible (a_incompat a))
  else
    let zeroed := if force_incompat then a_incompat a else [] in
    Ok {| m_image := a_image a;
          m_report := mkReport (a_kept a) (sat_sub_u (count_unused (a_used a)) (len zeroed))
                        (a_dropped a) zeroed |}.

Definition map_retain (old : RetainLayout) (old_image : bytes) (new : RetainLayout)
    (force_incompat : bool) : res RetainError MappedRetain :=
  records ← records_from_image old old_image;
  apply_records records new force_incompat.

(** ** What a record does to a layout *)

Inductive verdict := Keep | Drop | Incompat.

#[export] Instance verdict_eq_dec : EqDecision verdict.
Proof. solve_decision. Defined.

Definition verdict_of (l : RetainLayout) (r : RetainRecord) : verdict :=
  match layout_get l (r_name r) with
  | None => Drop
  | Some s => if decide (sym_ty s = r_ty r) then Keep else Incompat
  end.

Definition judged (l : RetainLayout) (v : verdict) (rs : list RetainRecord) : list RetainRecord :=
  filter (fun r => verdict_of l r = v) rs.

Definition incompat_names (l : RetainLayout) (rs : list RetainRecord) : list bytes :=
  map r_name (judged l Incompat rs).

(** The record that ends up in a symbol: the last one of its path and type. *)
Definition source_of (rs : list RetainRecord) (s : RetainSymbol) : option RetainRecord :=
  last (filter (fun r => r_name r = sym_name s /\ r_ty r = sym_ty s) rs).

Definition symbol_value (rs : list RetainRecord) (s : RetainSymbol) : bytes :=
  match source_of rs s with
  | Some r => r_value r
  | None => replicate (IrTy.byte_width (sym_ty s)) 0
  end.

Definition uncovered (l : RetainLayout) (i : Z) : Prop :=
  forall s, s ∈ l_symbols l -> i < sym_offset s \/ sym_offset s + sym_width s <= i.

(** The bytes of an image: every symbol holds its record's value, the rest is
    zero. *)
Record image_of (l : RetainLayout) (rs : list RetainRecord) (image : bytes) : Prop := {
  io_len : len image = l_retain_size l;
  io_symbols : forall s, s ∈ l_symbols l ->
    zslice image (sym_offset s) (sym_width s) = symbol_value rs s;
  io_rest : forall i : nat, (i < length image)%nat -> uncovered l (Z.of_nat i) -> image !! i = Some 0 }.

Definition values_ok (rs : list RetainRecord) : Prop :=
  Forall (fun r => len (r_value r) = Z.of_nat (IrTy.byte_width (r_ty r))) rs.

Section Apply.
Context (l : RetainLayout) (Hl : layout_ok l).

Lemma apply_loop_snoc rs r a :
  apply_loop l (rs ++ [r]) a = (a ← apply_loop l rs a; apply_record l r a).
Proof.
  revert a. induction rs as [|x rs IH]; intros a; cbn [app apply_loop].
  - cbn [mbind res_bind]. by destruct (apply_record l r a).
  - destruct (apply_record l x a); cbn [mbind res_bind]; [apply IH|done|done].
Qed.

Lemma get_symbol name s : layout_get l name = Some s <->
  exists i, symbol_index l name = Some i /\ l_symbols l !! i = Some s /\ sym_name s = name.
Proof.
  unfold layout_get. rewrite bind_Some. split.
  - intros (i & Hi & Hs). exists i. split; [done|]. split; [done|].
    apply symbol_index_spec in Hi as (s' & Hs' & Hn); [|done]. by simplify_eq.
  - intros (i & Hi & Hs & _). by exists i.
Qed.

Lemma get_found i s : l_symbols l !! i = Some s -> layout_get l (sym_name s) = Some s.
Proof.
  intros Hs. apply get_symbol. exists i. split; [|done]. apply symbol_index_spec; [done|]. by exists s.
Qed.

Lemma symbol_bounds s : s ∈ l_symbols l ->
  0 <= sym_offset s /\ sym_offset s + sym_width s <= l_retain_size l.
Proof.
  intros Hs. destruct Hl as [_ Hr _ [_ _ Hf _]]. rewrite Forall_forall in *.
  split; [apply (Hr s Hs)|apply (Hf s Hs)].
Qed.

Lemma same_symbol i j s t :
  l_symbols l !! i = Some s -> l_symbols l !! j = Some t -> sym_name s = sym_name t -> i = j.
Proof.
  intros Hs Ht Hn. destruct Hl as [_ _ _ [Hu _ _ _]].
  eapply (NoDup_lookup _ i j (sym_name s)); [exact Hu| |].
  - by rewrite list_lookup_fmap, Hs.
  - by rewrite list_lookup_fmap, Ht, Hn.
Qed.

(** ** Records seen so far *)

Lemma source_of_snoc rs r s :
  source_of (rs ++ [r]) s =
  if decide (r_name r = sym_name s /\ r_ty r = sym_ty s) then Some r else source_of rs s.
Proof.
  unfold source_of. rewrite filter_app, filter_cons, filter_nil.
  case_decide; [by rewrite last_snoc|by rewrite app_nil_r].
Qed.

Lemma judged_snoc v rs r :
  judged l v (rs ++ [r]) = judged l v rs ++ (if decide (verdict_of l r = v) then [r] else []).
Proof. unfold judged. rewrite filter_app, filter_cons, filter_nil. by case_decide. Qed.

(** The loop's state after the records [rs]. *)
Record applied (rs : list RetainRecord) (a : Applying) : Prop := {
  ap_image : image_of l rs (a_image a);
  ap_used : a_used a = map (fun s => bool_decide (is_Some (source_of rs s))) (l_symbols l);
  ap_kept : a_kept a = len (judged l Keep rs);
  ap_dropped : a_dropped a = len (judged l Drop rs);
  ap_incompat : a_incompat a = incompat_names l rs }.

Lemma applied_new : applied [] (applying_new l).
Proof.
  pose proof (lo_size l Hl) as Hsz. unfold u_range in Hsz.
  split; cbn [applying_new a_image a_used a_kept a_dropped a_incompat]; try done.
  - split.
    + unfold len. rewrite length_replicate. lia.
    + intros s Hs. apply symbol_bounds in Hs as [H1 H2]. cbn.
      unfold zslice, slice, sym_width. rewrite Nat2Z.id, drop_replicate, take_replicate.
      f_equal. unfold sym_width in H2. lia.
    + intros i Hi _. apply lookup_replicate. split; [done|]. by rewrite length_replicate in Hi.
  - induction (l_symbols l) as [|s k IH]; cbn; [done|]. by f_equal.
Qed.

(** Only a kept record changes what a symbol holds. *)
Lemma source_of_other rs r s :
  s ∈ l_symbols l -> verdict_of l r <> Keep -> source_of (rs ++ [r]) s = source_of rs s.
Proof.
  intros Hs Hv. rewrite source_of_snoc. case_decide as Hd; [|done]. destruct Hd as [Hn Ht].
  apply list_elem_of_lookup in Hs as [i Hs]. apply get_found in Hs.
  exfalso. apply Hv. unfold verdict_of. rewrite Hn, Hs. by rewrite decide_True.
Qed.

Lemma image_of_ext rs rs' image :
  (forall s, s ∈ l_symbols l -> source_of rs s = source_of rs' s) ->
  image_of l rs image -> image_of l rs' image.
Proof.
  intros He [H1 H2 H3]. split; [done| |done].
  intros s Hs. rewrite H2 by done. unfold symbol_value. by rewrite He.
Qed.

Lemma used_ext rs rs' :
  (forall s, s ∈ l_symbols l -> source_of rs s = source_of rs' s) ->
  map (fun s => bool_decide (is_Some (source_of rs s))) (l_symbols l) =
  map (fun s => bool_decide (is_Some (source_of rs' s))) (l_symbols l).
Proof. intros He. apply list_fmap_ext. intros i s Hs. cbn. by rewrite He by (by eapply list_elem_of_lookup_2). Qed.

Lemma keep_image rs r image i s :
  image_of l rs image -> l_symbols l !! i = Some s -> sym_name s = r_name r -> sym_ty s = r_ty r ->
  len (r_value r) = sym_width s ->
  image_of l (rs ++ [r]) (blit image (Z.to_nat (sym_offset s)) (r_value r)).
Proof.
  intros [H1 H2 H3] Hi Hn Ht Hv. pose proof (list_elem_of_lookup_2 _ _ _ Hi) as Hin.
  pose proof (symbol_bounds s Hin) as [Hb1 Hb2].
  assert (Hfit : (Z.to_nat (sym_offset s) + length (r_value r) <= length image)%nat)
    by (unfold len in *; lia).
  split.
  - unfold len. rewrite length_blit by done. exact H1.
  - intros t Ht'. unfold symbol_value. rewrite source_of_snoc.
    apply list_elem_of_lookup in Ht' as [j Hj]. case_decide as Hd.
    + destruct Hd as [Hd _]. assert (i = j) as <- by (eapply same_symbol; [done..|congruence]).
      simplify_eq. unfold zslice. rewrite <-Hv. unfold len. rewrite Nat2Z.id. by apply slice_blit.
    + etrans; [|exact (H2 t (list_elem_of_lookup_2 _ _ _ Hj))].
      unfold zslice. apply slice_blit_out; [done|].
      assert (i <> j) as Hne by (intros <-; simplify_eq; naive_solver).
      destruct Hl as [_ _ _ [_ _ _ Hd']]. specialize (Hd' i j s t Hne Hi Hj).
      pose proof (symbol_bounds t (list_elem_of_lookup_2 _ _ _ Hj)) as [? ?].
      pose proof (sym_width_pos t). unfold disjoint_syms, len in *. lia.
  - intros k Hk Hu. rewrite length_blit in Hk by done. pose proof (Hu s Hin).
    rewrite blit_lookup_out by (unfold len in *; lia). by apply H3.
Qed.

Lemma keep_used rs r i s :
  l_symbols l !! i = Some s -> sym_name s = r_name r -> sym_ty s = r_ty r ->
  <[i := true]> (map (fun s => bool_decide (is_Some (source_of rs s))) (l_symbols l)) =
  map (fun s => bool_decide (is_Some (source_of (rs ++ [r]) s))) (l_symbols l).
Proof.
  intros Hi Hn Ht. apply list_eq. intros j. destruct (decide (i = j)) as [<-|Hne].
  - rewrite list_lookup_insert_eq by (rewrite length_map; by eapply lookup_lt_Some).
    rewrite list_lookup_fmap, Hi. cbn. rewrite source_of_snoc, decide_True by done. done.
  - rewrite list_lookup_insert_ne by done. rewrite !list_lookup_fmap.
    destruct (l_symbols l !! j) as [t|] eqn:Hj; [|done]. cbn. rewrite source_of_snoc.
    rewrite decide_False; [done|]. intros [Hd _]. apply Hne. eapply same_symbol; [done..|congruence].
Qed.

Lemma apply_record_step rs r a :
  applied rs a -> len (r_value r) = Z.of_nat (IrTy.byte_width (r_ty r)) ->
  exists a', apply_record l r a = Ok a' /\ applied (rs ++ [r]) a'.
Proof.
  intros [H1 H2 H3 H4 H5] Hv. unfold apply_record.
  assert (Hsn : forall v w, v <> w -> verdict_of l r = w ->
    len (judged l v (rs ++ [r])) = len (judged l v rs)).
  { intros v w Hvw Hw. rewrite judged_snoc, decide_False by congruence. by rewrite app_nil_r. }
  assert (Hsy : forall v, verdict_of l r = v -> len (judged l v (rs ++ [r])) = len (judged l v rs) + 1).
  { intros v Hw. rewrite judged_snoc, decide_True by done. by rewrite len_app. }
  assert (Hinc : verdict_of l r <> Incompat -> incompat_names l (rs ++ [r]) = incompat_names l rs).
  { intros Hw. unfold incompat_names. by rewrite judged_snoc, decide_False, app_nil_r. }
  pose proof (source_of_other rs r) as Hoth.
  destruct (layout_get l (r_name r)) as [s|] eqn:Hg; [case_decide as Ht|].
  - assert (verdict_of l r = Keep) as Hk by (unfold verdict_of; by rewrite Hg, decide_True).
    apply get_symbol in Hg as (i & Hi & Hs & Hn).
    pose proof (symbol_bounds s (list_elem_of_lookup_2 _ _ _ Hs)) as [Hb1 Hb2].
    pose proof (lookup_lt_Some _ _ _ Hs) as Hlt.
    rewrite (proj2 (Z.eqb_eq _ _) Hv). cbn [negb].
    rewrite <-Ht. change (Z.of_nat (IrTy.byte_width (sym_ty s))) with (sym_width s).
    rewrite (io_len _ _ _ H1). ltb_false by lia. rewrite Hi.
    destruct (Nat.leb_spec (length (a_used a)) i) as [Hle|_]; [rewrite H2, length_map in Hle; lia|].
    cbn [mbind res_bind]. eexists. split; [reflexivity|]. split; cbn [a_image a_used a_kept a_dropped a_incompat].
    + eapply keep_image; try done. unfold sym_width. by rewrite Ht.
    + rewrite H2. by eapply keep_used.
    + rewrite H3. symmetry. by apply Hsy.
    + rewrite H4. symmetry. by apply (Hsn _ Keep).
    + rewrite H5. symmetry. apply Hinc. by rewrite Hk.
  - assert (verdict_of l r = Incompat) as Hk by (unfold verdict_of; by rewrite Hg, decide_False).
    eexists. split; [reflexivity|]. split; cbn [a_image a_used a_kept a_dropped a_incompat].
    + eapply image_of_ext; [|exact H1]. intros t Htt. symmetry. apply Hoth; [done|by rewrite Hk].
    + rewrite H2. apply used_ext. intros t Htt. symmetry. apply Hoth; [done|by rewrite Hk].
    + rewrite H3. symmetry. by apply (Hsn _ Incompat).
    + rewrite H4. symmetry. by apply (Hsn _ Incompat).
    + rewrite H5. unfold incompat_names. rewrite judged_snoc, decide_True by done. by rewrite map_app.
  - assert (verdict_of l r = Drop) as Hk by (unfold verdict_of; by rewrite Hg).
    eexists. split; [reflexivity|]. split; cbn [a_image a_used a_kept a_dropped a_incompat].
    + eapply image_of_ext; [|exact H1]. intros t Htt. symmetry. apply Hoth; [done|by rewrite Hk].
    + rewrite H2. apply used_ext. intros t Htt. symmetry. apply Hoth; [done|by rewrite Hk].
    + rewrite H3. symmetry. by apply (Hsn _ Drop).
    + rewrite H4. symmetry. by apply Hsy.
    + rewrite H5. symmetry. apply Hinc. by rewrite Hk.
Qed.

Lemma apply_loop_applied rs :
  values_ok rs -> exists a, apply_loop l rs (applying_new l) = Ok a /\ applied rs a.
Proof.
  unfold values_ok. induction rs as [|r rs IH] using rev_ind; intros Hv.
  - eexists. split; [reflexivity|]. apply applied_new.
  - apply Forall_app in Hv as [Hv Hr]. apply Forall_inv in Hr.
    destruct (IH Hv) as (a & Ha & Hap). rewrite apply_loop_snoc, Ha. cbn [mbind res_bind].
    exact (apply_record_step rs r a Hap Hr).
Qed.

(** ** Counting *)

Lemma judged_total rs :
  len (judged l Keep rs) + len (judged l Drop rs) + len (judged l Incompat rs) = len rs.
Proof.
  unfold judged, len. induction rs as [|r rs IH]; [done|]. rewrite !filter_cons.
  destruct (verdict_of l r); repeat case_decide; try done; cbn [length] in *; lia.
Qed.

(** Records that are not dropped name symbols of the layout. *)
Lemma judged_names v rs x :
  v <> Drop -> x ∈ map r_name (judged l v rs) -> x ∈ map sym_name (l_symbols l).
Proof.
  intros Hv (r & -> & Hr)%list_elem_of_fmap. unfold judged in Hr.
  apply list_elem_of_filter in Hr as [Hr _]. unfold verdict_of in Hr.
  destruct (layout_get l (r_name r)) as [s|] eqn:Hg; [|congruence].
  apply get_symbol in Hg as (i & _ & Hs & <-). apply list_elem_of_fmap. exists s.
  split; [done|by eapply list_elem_of_lookup_2].
Qed.

Lemma source_of_none rs s : sym_name s ∉ map r_name rs -> source_of rs s = None.
Proof.
  intros Hn. unfold source_of. rewrite filter_none; [done|].
  intros r Hr [He _]. apply Hn. rewrite <-He. by apply list_elem_of_fmap_2.
Qed.

Definition count_used (used : list bool) : Z := len (filter (fun u => u = true) used).

Lemma count_used_insert used i :
  used !! i = Some false -> count_used (<[i := true]> used) = count_used used + 1.
Proof.
  unfold count_used, len. revert i. induction used as [|u used IH]; intros [|i] Hi; try done.
  - injection Hi as ->. cbn [insert list_insert]. rewrite !filter_cons.
    destruct (decide (true = true)); [|done]. destruct (decide (false = true)); [done|]. cbn [length]. lia.
  - change (<[S i := true]> (u :: used)) with (u :: <[i := true]> used).
    rewrite !filter_cons. apply IH in Hi. case_decide; cbn [length]; lia.
Qed.

Lemma count_used_unused used : count_used used + count_unused used = len used.
Proof.
  unfold count_used, count_unused, len. induction used as [|[] used IH]; [done|..];
    rewrite !filter_cons; repeat case_decide; try done; cbn [length] in *; lia.
Qed.

Abbreviation used_by rs :=
  (map (fun s => bool_decide (is_Some (source_of rs s))) (l_symbols l)).

(** With distinct record names every kept record fills a symbol of its own. *)
Lemma count_used_by rs :
  NoDup (map r_name rs) -> count_used (used_by rs) = len (judged l Keep rs).
Proof.
  induction rs as [|r rs IH] using rev_ind; intros Hnd.
  - unfold count_used, judged, len. cbn. induction (l_symbols l) as [|s k IHk]; [done|].
    cbn [map]. rewrite filter_cons. case_decide; done.
  - rewrite map_app in Hnd. apply NoDup_app in Hnd as (Hnd & Hf & _). specialize (IH Hnd).
    assert (r_name r ∉ map r_name rs) as Hr by (intros Hin; apply (Hf _ Hin); left).
    rewrite judged_snoc, len_app, <-IH. unfold verdict_of.
    destruct (layout_get l (r_name r)) as [s|] eqn:Hg; [destruct (decide (sym_ty s = r_ty r)) as [Ht|Ht]|].
    + apply get_symbol in Hg as (i & _ & Hs & Hn).
      rewrite <-(keep_used rs r i s Hs Hn Ht). rewrite count_used_insert; [done|].
      rewrite list_lookup_fmap, Hs. cbn. by rewrite source_of_none by (by rewrite Hn).
    + rewrite (used_ext _ rs); [by rewrite Z.add_0_r|].
      intros t Htt. apply source_of_other; [done|]. unfold verdict_of. by rewrite Hg, decide_False.
    + rewrite (used_ext _ rs); [by rewrite Z.add_0_r|].
      intros t Htt. apply source_of_other; [done|]. unfold verdict_of. by rewrite Hg.
Qed.

Lemma judged_fit rs :
  NoDup (map r_name rs) -> len (judged l Keep rs) + len (judged l Incompat rs) <= len (l_symbols l).
Proof.
  intros Hnd.
  assert (Hd : NoDup (map r_name (judged l Keep rs ++ judged l Incompat rs))).
  { assert (Hsub : forall v, NoDup (map r_name (judged l v rs))).
    { intros v. eapply sublist_NoDup; [exact Hnd|]. apply (fmap_sublist r_name), sublist_filter. }
    rewrite map_app. apply NoDup_app. split; [apply Hsub|]. split; [|apply Hsub].
    intros x (r & -> & Hr)%list_elem_of_fmap (r' & He & Hr')%list_elem_of_fmap.
    apply list_elem_of_filter in Hr as [Hv Hr], Hr' as [Hv' Hr'].
    apply list_elem_of_lookup in Hr as [i Hi], Hr' as [j Hj].
    assert (i = j) as <-; [|congruence].
    eapply (NoDup_lookup _ i j (r_name r) Hnd); rewrite list_lookup_fmap; [by rewrite Hi|by rewrite Hj, He]. }
  assert (Hle : (length (map r_name (judged l Keep rs ++ judged l Incompat rs)) <=
    length (map sym_name (l_symbols l)))%nat).
  { apply submseteq_length, NoDup_submseteq; [exact Hd|]. intros x Hx. rewrite map_app in Hx.
    apply elem_of_app in Hx as [Hx|Hx]; eapply judged_names; try done; done. }
  rewrite !length_map, length_app in Hle. unfold len. lia.
Qed.

(** The outcome of [apply_records], whatever the names. *)
Lemma apply_records_cases rs force :
  values_ok rs ->
  if negb (bool_decide (incompat_names l rs = [])) && negb force then
    apply_records rs l force = Err (REIncompatible (incompat_names l rs))
  else exists image rep, apply_records rs l force = Ok {| m_image := image; m_report := rep |} /\
    image_of l rs image /\ kept rep = len (judged l Keep rs) /\ dropped rep = len (judged l Drop rs) /\
    zeroed_incompat rep = incompat_names l rs /\
    cold_defaults rep =
      sat_sub_u (len (l_symbols l) - count_used (used_by rs)) (len (incompat_names l rs)).
Proof.
  intros Hv. destruct (apply_loop_applied rs Hv) as (a & Ha & [H1 H2 H3 H4 H5]).
  unfold apply_records. rewrite Ha. cbn [mbind res_bind]. rewrite H5.
  destruct (negb (bool_decide (incompat_names l rs = [])) && negb force) eqn:Hf; [done|].
  assert ((if force then incompat_names l rs else []) = incompat_names l rs) as Hz.
  { destruct force; [done|]. rewrite andb_true_r in Hf. apply negb_false_iff, bool_decide_eq_true in Hf.
    by rewrite Hf. }
  rewrite Hz. do 2 eexists. split; [reflexivity|]. split; [done|].
  split; [done|]. split; [done|]. split; [done|].
  cbn [cold_defaults]. f_equal. rewrite H2. pose proof (count_used_unused (used_by rs)) as Hc.
  unfold len in Hc at 1. rewrite length_map in Hc. unfold len at 1. lia.
Qed.
End Apply.

Lemma apply_records_image l rs m :
  layout_ok l -> values_ok rs -> apply_records rs l true = Ok m -> image_of l rs (m_image m).
Proof.
  intros Hl Hv Hm. pose proof (apply_records_cases l Hl rs true Hv) as H.
  rewrite andb_false_r in H. destruct H as (image & rep & Ha & Hi & _).
  rewrite Ha in Hm. by apply Ok_inj in Hm as <-.
Qed.

(** Records read from an image have their type's width. *)
Lemma symbol_records_ok image syms :
  Forall (fun s => 0 <= sym_offset s /\ sym_offset s + sym_width s <= len image) syms ->
  values_ok (map (symbol_record image) syms).
Proof.
  intros H. apply Forall_map. eapply Forall_impl; [exact H|]. intros s [H1 H2]. cbn.
  pose proof (sym_width_pos s). by rewrite len_zslice by lia.
Qed.

Lemma layout_bounds l (image : bytes) : layout_ok l -> len image = l_retain_size l ->
  Forall (fun s => 0 <= sym_offset s /\ sym_offset s + sym_width s <= len image) (l_symbols l).
Proof.
  intros Hl ->. apply Forall_forall. intros s Hs. by apply symbol_bounds.
Qed.

Lemma records_from_image_spec l (image : bytes) : layout_ok l -> len image = l_retain_size l ->
  records_from_image l image = Ok (map (symbol_record image) (l_symbols l)).
Proof.
  intros Hl Hi. unfold records_from_image. rewrite (proj2 (Z.eqb_eq _ _) Hi). cbn [negb].
  apply image_records_spec. eapply Forall_impl; [by apply layout_bounds|]. naive_solver.
Qed.

(** The source of a new symbol is the old symbol of its path and type. *)
Lemma source_of_image l image s t :
  layout_ok l -> t ∈ l_symbols l -> sym_name t = sym_name s -> sym_ty t = sym_ty s ->
  source_of (map (symbol_record image) (l_symbols l)) s = Some (symbol_record image t).
Proof.
  intros Hl Ht Hn Hty. unfold source_of.
  assert (Hu : NoDup (map sym_name (l_symbols l))) by (by destruct Hl as [_ _ _ []]).
  revert Hu Ht. generalize (l_symbols l) as k. clear l Hl. induction k as [|u k IH]; intros Hu Ht; [by inversion Ht|].
  apply NoDup_cons in Hu as [Hnu Hu]. cbn [map]. rewrite filter_cons.
  apply elem_of_cons in Ht as [<-|Ht].
  - rewrite decide_True by done. enough (filter (fun r => r_name r = sym_name s /\ r_ty r = sym_ty s)
      (map (symbol_record image) k) = []) as -> by done.
    apply filter_none. intros r (v & -> & Hv)%list_elem_of_fmap [He _]. cbn in He.
    apply Hnu. rewrite Hn, <-He. by apply list_elem_of_fmap_2.
  - specialize (IH Hu Ht). case_decide as Hd; [|done]. rewrite last_cons, IH. done.
Qed.

Lemma source_of_image_none l image s :
  (forall t, t ∈ l_symbols l -> sym_name t = sym_name s -> sym_ty t <> sym_ty s) ->
  source_of (map (symbol_record image) (l_symbols l)) s = None.
Proof.
  intros Hno. unfold source_of. rewrite filter_none; [done|].
  intros r (t & -> & Ht)%list_elem_of_fmap [Hn Hty]. by apply (Hno t Ht).
Qed.

Lemma symbol_record_names image (syms : list RetainSymbol) :
  map r_name (map (symbol_record image) syms) = map sym_name syms.
Proof. rewrite map_map. by apply map_ext. Qed.

(** The incompatible names of a remap are the paths whose type changed. *)
Lemma incompat_names_image old new image n :
  layout_ok new ->
  n ∈ incompat_names new (map (symbol_record image) (l_symbols old)) <->
  exists s t, s ∈ l_symbols new /\ t ∈ l_symbols old /\
    sym_name s = n /\ sym_name t = n /\ sym_ty s <> sym_ty t.
Proof.
  intros Hnew. unfold incompat_names, judged. split.
  - intros (r & -> & Hr)%list_elem_of_fmap. apply list_elem_of_filter in Hr as [Hv Hr].
    apply list_elem_of_fmap in Hr as (t & -> & Ht). unfold verdict_of in Hv. cbn in Hv.
    destruct (layout_get new (sym_name t)) as [s|] eqn:Hg; [|done].
    apply get_symbol in Hg as (i & _ & Hs & Hn); [|done].
    exists s, t. case_decide; [done|]. apply list_elem_of_lookup_2 in Hs. done.
  - intros (s & t & Hs & Ht & Hn & Hnt & Hty).
    apply list_elem_of_fmap. exists (symbol_record image t). split; [done|].
    apply list_elem_of_filter. split; [|by apply list_elem_of_fmap_2].
    unfold verdict_of. cbn. apply list_elem_of_lookup in Hs as [i Hs].
    apply get_found in Hs; [|done]. by rewrite Hnt, <-Hn, Hs, decide_False.
Qed.

(** ** Properties *)

(** Applying decoded records to a valid layout. Records of a symbol's path
    but another type are the only obstacle: unless forced, they are all named in
    an [Incompatible] error. Otherwise the new image has the segment's size,
    every symbol holds the value of the last record of its path and type, or
    zero when there is none, every byte outside the symbols is zero, and the
    report counts the records; with distinct paths, kept, cold and zeroed
    symbols add up to the layout. *)
Lemma apply_records_spec (l : RetainLayout) (rs : list RetainRecord) (force : bool)
    (Hl : layout_ok l) (Hrs : values_ok rs) :
  if negb (bool_decide (incompat_names l rs = [])) && negb force then
    apply_records rs l force = Err (REIncompatible (incompat_names l rs))
  else exists image rep, apply_records rs l force = Ok {| m_image := image; m_report := rep |} /\
    image_of l rs image /\
    zeroed_incompat rep = incompat_names l rs /\
    kept rep + dropped rep + len (zeroed_incompat rep) = len rs /\
    (NoDup (map r_name rs) ->
      kept rep + cold_defaults rep + len (zeroed_incompat rep) = len (l_symbols l)).
Proof.
  pose proof (apply_records_cases l Hl rs force Hrs) as H. case_match; [done|].
  destruct H as (image & rep & Ha & Hi & Hk & Hd & Hz & Hc). exists image, rep.
  split; [done|]. split; [done|]. split; [done|].
  rewrite Hk, Hd, Hz, Hc. unfold incompat_names.
  assert (len (map r_name (judged l Incompat rs)) = len (judged l Incompat rs)) as ->
    by (unfold len; by rewrite length_map).
  split; [apply judged_total|]. intros Hnd. pose proof (judged_fit l Hl rs Hnd).
  rewrite (count_used_by l Hl rs Hnd). unfold sat_sub_u. lia.
Qed.

(** Arming a new program. Remapping a retain image between valid layouts
    keeps, at its new offset, the value of every symbol whose path and type
    exist in both, and zeroes every other symbol; it fails, naming a symbol, just
    when some path changed type and the change was not forced. It never panics,
    and the report accounts for every symbol of both layouts. *)
Lemma map_retain_spec (old new : RetainLayout) (image : bytes) (force : bool)
    (Hold : layout_ok old) (Hnew : layout_ok new) (Hi : len image = l_retain_size old) :
  match map_retain old image new force with
  | Ok m =>
      len (m_image m) = l_retain_size new /\
      (forall s t, s ∈ l_symbols new -> t ∈ l_symbols old ->
        sym_name t = sym_name s -> sym_ty t = sym_ty s ->
        zslice (m_image m) (sym_offset s) (sym_width s) = zslice image (sym_offset t) (sym_width t)) /\
      (forall s, s ∈ l_symbols new ->
        (forall t, t ∈ l_symbols old -> sym_name t = sym_name s -> sym_ty t <> sym_ty s) ->
        zslice (m_image m) (sym_offset s) (sym_width s) = replicate (IrTy.byte_width (sym_ty s)) 0) /\
      kept (m_report m) + dropped (m_report m) + len (zeroed_incompat (m_report m)) =
        len (l_symbols old) /\
      kept (m_report m) + cold_defaults (m_report m) + len (zeroed_incompat (m_report m)) =
        len (l_symbols new)
  | Err e => exists names, e = REIncompatible names /\ names <> [] /\ force = false /\
      forall n, n ∈ names <-> exists s t, s ∈ l_symbols new /\ t ∈ l_symbols old /\
        sym_name s = n /\ sym_name t = n /\ sym_ty s <> sym_ty t
  | Panic => False
  end.
Proof.
  unfold map_retain. rewrite records_from_image_spec by done. cbn [mbind res_bind].
  set (rs := map (symbol_record image) (l_symbols old)).
  pose proof (apply_records_cases new Hnew rs force
    (symbol_records_ok _ _ (layout_bounds _ _ Hold Hi))) as H.
  assert (Hnd : NoDup (map r_name rs)).
  { unfold rs. rewrite symbol_record_names. by destruct Hold as [_ _ _ []]. }
  destruct (negb _ && negb force) eqn:Hf.
  - rewrite H. apply andb_true_iff in Hf as [Hne Hf].
    apply negb_true_iff, bool_decide_eq_false in Hne. apply negb_true_iff in Hf.
    exists (incompat_names new rs). split; [done|]. split; [done|]. split; [done|].
    intros n. by apply incompat_names_image.
  - destruct H as (img & rep & -> & [H1 H2 H3] & Hk & Hd & Hz & Hc). cbn [m_image m_report].
    split; [done|]. split; [|split; [|split]].
    + intros s t Hs Ht Hn Hty. rewrite H2 by done. unfold symbol_value, rs.
      by rewrite (source_of_image old image s t).
    + intros s Hs Hno. rewrite H2 by done. unfold symbol_value, rs.
      by rewrite source_of_image_none.
    + rewrite Hk, Hd, Hz. unfold incompat_names.
      pose proof (judged_total new rs) as Ht. unfold len in *. rewrite length_map.
      unfold rs in Ht at 4. rewrite length_map in Ht. lia.
    + rewrite Hk, Hc, Hz, (count_used_by new Hnew rs Hnd). pose proof (judged_fit new Hnew rs Hnd).
      unfold incompat_names, len in *. rewrite length_map. unfold sat_sub_u. lia.
Qed.

(** ** Witnesses *)

Definition renamed_symbols : list RetainSymbol :=
  [ {| sym_name := bstr "hours"; sym_ty := TDint; sym_offset := 0 |};
    {| sym_name := bstr "fresh"; sym_ty := TInt; sym_offset := 4 |} ].
Definition renamed_layout : RetainLayout :=
  {| l_retain_size := 8; l_symbols := rev renamed_symbols |}.

Lemma renamed_layout_ok : layout_ok renamed_layout.
Proof.
  apply (layout_new_sound 8 renamed_symbols); [by vm_compute| |by vm_compute].
  repeat constructor; vm_compute; done.
Qed.

Lemma apply_records_spec_witness :
  exists m, apply_records [mkRec (bstr "hours") TDint [7; 0; 0; 0]] renamed_layout false = Ok m.
Proof.
  pose proof (apply_records_spec renamed_layout [mkRec (bstr "hours") TDint [7; 0; 0; 0]] false
    renamed_layout_ok ltac:(repeat constructor)) as H.
  destruct H as (image & rep & H & _). eexists. exact H.
Defined.

Lemma map_retain_spec_witness :
  exists m, map_retain sample_layout sample_image renamed_layout false = Ok m /\
    zslice (m_image m) 0 4 = [42; 0; 0; 0].
Proof.
  pose proof (map_retain_spec sample_layout renamed_layout sample_image false
    sample_layout_ok renamed_layout_ok eq_refl) as H.
  destruct (map_retain sample_layout sample_image renamed_layout false) as [m|e|] eqn:E;
    [|vm_compute in E; discriminate E|contradiction].
  destruct H as (_ & H & _). exists m. split; [reflexivity|].
  exact (H {| sym_name := bstr "hours"; sym_ty := TDint; sym_offset := 0 |}
    {| sym_name := bstr "hours"; sym_ty := TDint; sym_offset := 4 |}
    ltac:(right; left) ltac:(right; left) eq_refl eq_refl).
Defined.
