(* ===== verification/RetainStore.v ===== *)
(** * The double-buffered retain store

    Crate [plc-retain], src/crates/plc-retain/src/store.rs: two slot files and an
    index file per program, their formats, [flush] and [load]. The directory is a
    map from file names to contents; a write may fail before or after it has
    truncated the file and leave any prefix of its bytes, which is also what a
    crash in the middle leaves. Reading a file that exists succeeds. *)
From S2P Require Import Prelude IrTypes RetainLayout RetainCodec RetainMap.

Definition SLOT_MAGIC : bytes := bstr "SPRT".
Definition IDX_MAGIC : bytes := bstr "SPRI".
Definition RETAIN_VERSION : Z := 1.
Definition SLOT_HEADER_LEN : Z := 32.
Definition IDX_LEN : Z := 64.

Inductive LoadSource := Cold | Slot0 | Slot1.

Definition from_slot (slot : Z) : LoadSource := if slot =? 0 then Slot0 else Slot1.

Record LoadReport := mkLoadReport {
  lr_source : LoadSource; lr_generation : Z; lr_kept : Z; lr_cold_defaults : Z;
  lr_dropped : Z; lr_incompat : list bytes; lr_corrupt : bool; lr_missing : bool }.

Record FlushReport := mkFlushReport { fr_generation : Z; fr_slot : Z; fr_bytes_written : Z }.

Inductive SlotRead := Missing | Corrupt.

Record IdxRecord := mkIdx { ix_slot : Z; ix_generation : Z }.

Record DecodedSlot := mkSlot { ds_generation : Z; ds_records : list RetainRecord }.

(** ** File formats *)

Definition slot_header (generation schema_crc record_count payload_len crc : Z) : bytes :=
  SLOT_MAGIC ++ le_split 2 RETAIN_VERSION ++ le_split 2 0 ++ le_split 8 generation ++
  le_split 4 schema_crc ++ le_split 4 record_count ++ le_split 4 payload_len ++ le_split 4 crc.

Definition encode_slot (generation schema_crc record_count : Z) (payload : bytes) : bytes :=
  let payload_len := wrap_u 32 (len payload) in
  let buf := slot_header generation schema_crc record_count payload_len 0 ++ payload in
  let crc := crc32 buf in
  blit buf 28 (le_split 4 crc).

(** [None] of the source is [Err Corrupt]. *)
Definition decode_slot (bs : bytes) : res SlotRead DecodedSlot :=
  if len bs <? SLOT_HEADER_LEN then Err Corrupt
  else if negb (bool_decide (zslice bs 0 4 = SLOT_MAGIC)) then Err Corrupt
  else
    let version := le_combine (zslice bs 4 2) in
    if negb (version =? RETAIN_VERSION) then Err Corrupt
    else
      let generation := le_combine (zslice bs 8 8) in
      let payload_len := le_combine (zslice bs 24 4) in
      if negb (len bs =? SLOT_HEADER_LEN + payload_len) then Err Corrupt
      else
        let stored_crc := le_combine (zslice bs 28 4) in
        let hashed := blit bs 28 [0; 0; 0; 0] in
        if negb (crc32 hashed =? stored_crc) then Err Corrupt
        else
          records ← map_err (fun _ => Corrupt) (decode_records (drop 32 bs));
          Ok (mkSlot generation records).

Definition encode_idx (slot generation : Z) : bytes :=
  let buf := IDX_MAGIC ++ le_split 2 RETAIN_VERSION ++ [slot; 0] ++ le_split 8 generation in
  let crc := crc32 buf in
  buf ++ le_split 4 crc ++ replicate 44 0.

Definition decode_idx (bs : bytes) : option IdxRecord :=
  if negb (len bs =? IDX_LEN) then None
  else if negb (bool_decide (zslice bs 0 4 = IDX_MAGIC)) then None
  else
    let version := le_combine (zslice bs 4 2) in
    if negb (version =? RETAIN_VERSION) then None
    else
      let slot := nth 6 bs 0 in
      if 1 <? slot then None
      else
        let generation := le_combine (zslice bs 8 8) in
        let stored := le_combine (zslice bs 16 4) in
        if negb (crc32 (zslice bs 0 16) =? stored) then None
        else Some (mkIdx slot generation).

(** ** The directory *)

Abbreviation Fs := (gmap bytes bytes).

(** What became of a write: done, refused at [open], or stopped after some bytes. *)
Inductive Outcome := Written | OpenFailed | Torn (n : nat).

Definition write_all_sync (o : Outcome) (path bs : bytes) : M Fs RetainError unit := fun fs =>
  match o with
  | Written => (<[path := bs]> fs, Ok tt)
  | OpenFailed => (fs, Err REIo)
  | Torn n => (<[path := take n bs]> fs, Err REIo)
  end.

Definition is_id_byte (b : Z) : bool :=
  in_rangeb 48 57 b || in_rangeb 65 90 b || in_rangeb 97 122 b ||
  (b =? 46) || (b =? 95) || (b =? 45).

Definition validate_program_id (id : bytes) : res RetainError unit :=
  if bool_decide (id = []) || bool_decide (id = bstr ".") || bool_decide (id = bstr "..") ||
     negb (forallb is_id_byte id)
  then Err (REInvalidProgramId id)
  else Ok tt.

Definition slot_path (id : bytes) (slot : Z) : bytes := id ++ bstr ".ret." ++ [48 + slot].
Definition idx_path (id : bytes) : bytes := id ++ bstr ".ret.idx".

Section Program.
Context (id : bytes).

Definition read_idx (fs : Fs) : option IdxRecord := bs ← fs !! idx_path id; decode_idx bs.

Definition read_slot (fs : Fs) (slot : Z) : res SlotRead DecodedSlot :=
  match fs !! slot_path id slot with
  | None => Err Missing
  | Some bs => decode_slot bs
  end.

(** [Result::ok], which keeps a panic a panic. *)
Definition ok {E F A} (r : res E A) : res F (option A) :=
  match r with
  | Ok a => Ok (Some a)
  | Err _ => Ok None
  | Panic => Panic
  end.

(** The slot and generation last committed. *)
Definition committed (fs : Fs) : res RetainError (Z * Z) :=
  match read_idx fs with
  | Some idx => Ok (ix_slot idx, ix_generation idx)
  | None =>
      s0 ← ok (read_slot fs 0);
      s1 ← ok (read_slot fs 1);
      match s0, s1 with
      | Some a, Some b =>
          if ds_generation b <=? ds_generation a then Ok (0, ds_generation a)
          else Ok (1, ds_generation b)
      | Some a, None => Ok (0, ds_generation a)
      | None, Some b => Ok (1, ds_generation b)
      | None, None => Ok (1, 0)
      end
  end.

(** [o1] and [o2] are what becomes of the two writes. *)
Definition flush (o1 o2 : Outcome) (layout : RetainLayout) (image : bytes) :
    M Fs RetainError FlushReport :=
  m_lift (validate_program_id id) ;;
  if negb (len image =? l_retain_size layout) then
    m_err (REImageSize (l_retain_size layout) (len image))
  else
    payload ← m_lift (encode_records layout image);
    fs ← m_get;
    '(active, gen) ← m_lift (committed fs);
    let slot := 1 - active in
    let generation := Z.max (sat_add_u 64 gen 1) 1 in
    let schema := schema_hash layout in
    let bs := encode_slot generation schema (wrap_u 32 (len (l_symbols layout))) payload in
    write_all_sync o1 (slot_path id slot) bs ;;
    write_all_sync o2 (idx_path id) (encode_idx slot generation) ;;
    mret (mkFlushReport generation slot (len bs)).

Definition choose_slot (idx : option IdxRecord) (slot0 slot1 : option DecodedSlot) :
    option (Z * DecodedSlot) :=
  match idx with
  | Some idx =>
      let preferred := if ix_slot idx =? 0 then slot0 else slot1 in
      let other := if ix_slot idx =? 0 then slot1 else slot0 in
      let other_id := 1 - ix_slot idx in
      let fallback := match other with Some s => Some (other_id, s) | None => None end in
      match preferred with
      | Some s => if ds_generation s =? ix_generation idx then Some (ix_slot idx, s) else fallback
      | None => fallback
      end
  | None =>
      match slot0, slot1 with
      | Some a, Some b =>
          if ds_generation b <=? ds_generation a then Some (0, a) else Some (1, b)
      | Some a, None => Some (0, a)
      | None, Some b => Some (1, b)
      | None, None => None
      end
  end.

Definition is_corrupt (r : res SlotRead DecodedSlot) : bool :=
  match r with Err Corrupt => true | _ => false end.

(** The state is [dst]. *)
Definition load (fs : Fs) (layout : RetainLayout) : M bytes RetainError LoadReport :=
  m_lift (validate_program_id id) ;;
  dst ← m_get;
  if negb (len dst =? l_retain_size layout) then
    m_err (REImageSize (l_retain_size layout) (len dst))
  else
    m_modify (fun dst => replicate (length dst) 0) ;;
    let slot0 := read_slot fs 0 in
    let slot1 := read_slot fs 1 in
    let exists_ := bool_decide (is_Some (fs !! slot_path id 0)) ||
                   bool_decide (is_Some (fs !! slot_path id 1)) in
    let idx_exists := bool_decide (is_Some (fs !! idx_path id)) in
    let any_file := exists_ || idx_exists in
    let idx := read_idx fs in
    let idx_ok := bool_decide (is_Some idx) in
    let idx_bad := idx_exists && negb idx_ok in
    s0 ← m_lift (ok slot0);
    s1 ← m_lift (ok slot1);
    let chosen := choose_slot idx s0 s1 in
    let saw_corrupt := idx_bad || is_corrupt slot0 || is_corrupt slot1 ||
                       (idx_ok && negb (bool_decide (is_Some chosen))) in
    match chosen with
    | None =>
        mret (mkLoadReport Cold 0 0 (wrap_u 32 (len (l_symbols layout))) 0 [] saw_corrupt (negb any_file))
    | Some (slot, decoded) =>
        mapped ← m_lift (apply_records (ds_records decoded) layout true);
        dst ← m_get;
        (if negb (len dst =? len (m_image mapped)) then m_panic
         else m_modify (fun _ => m_image mapped)) ;;
        let rep := m_report mapped in
        mret (mkLoadReport (from_slot slot) (ds_generation decoded) (kept rep) (cold_defaults rep)
                (dropped rep) (zeroed_incompat rep) saw_corrupt false)
    end.
End Program.

(** ** Slot files *)

Lemma length_slot_header g s c n k : length (slot_header g s c n k) = 32%nat.
Proof. reflexivity. Qed.

Lemma len_slot_file g s c n k p : len (slot_header g s c n k ++ p) = 32 + len p.
Proof. rewrite len_app. unfold len at 1. by rewrite length_slot_header. Qed.

Lemma blit_crc g s c n k b0 b1 b2 b3 p :
  blit (slot_header g s c n k ++ p) 28 [b0; b1; b2; b3] =
  (take 28 (slot_header g s c n 0) ++ [b0; b1; b2; b3]) ++ p.
Proof. reflexivity. Qed.

Lemma blit_crc_field g s c n k k' p :
  blit (slot_header g s c n k ++ p) 28 (le_split 4 k') = slot_header g s c n k' ++ p.
Proof. reflexivity. Qed.

Definition slot_crc (g s c : Z) (p : bytes) : Z :=
  crc32 (slot_header g s c (wrap_u 32 (len p)) 0 ++ p).

Lemma encode_slot_eq g s c p :
  encode_slot g s c p = slot_header g s c (wrap_u 32 (len p)) (slot_crc g s c p) ++ p.
Proof. apply blit_crc_field. Qed.

Lemma slot_fields g s c n k p :
  let bs := slot_header g s c n k ++ p in
  zslice bs 0 4 = SLOT_MAGIC /\ zslice bs 4 2 = le_split 2 RETAIN_VERSION /\
  zslice bs 8 8 = le_split 8 g /\ zslice bs 24 4 = le_split 4 n /\
  zslice bs 28 4 = le_split 4 k /\ drop 32 bs = p.
Proof. repeat split. Qed.

Lemma slot_header_ok g s c n k : bytes_ok (slot_header g s c n k).
Proof.
  unfold slot_header. repeat apply Forall_app_2; try apply le_split_ok.
  repeat (apply Forall_cons_2; [split; [by vm_compute|by vm_compute]|]). constructor.
Qed.

Lemma slot_crc_range g s c p : bytes_ok p -> u_range 32 (slot_crc g s c p).
Proof. intros Hp. apply crc32_range, Forall_app_2; [apply slot_header_ok|done]. Qed.

(** Decoding a file of the slot format: only the length and the checksum can be
    wrong. *)
Lemma decode_slot_file g s c n k p :
  u_range 64 g -> u_range 32 n -> u_range 32 k ->
  decode_slot (slot_header g s c n k ++ p) =
  if negb (32 + len p =? 32 + n) then Err Corrupt
  else if negb (crc32 (slot_header g s c n 0 ++ p) =? k) then Err Corrupt
  else rs ← map_err (fun _ => Corrupt) (decode_records p); Ok (mkSlot g rs).
Proof.
  intros Hg Hn Hk. pose proof (len_nonneg p).
  pose proof (slot_fields g s c n k p) as (H1 & H2 & H3 & H4 & H5 & H6).
  unfold decode_slot. rewrite len_slot_file. unfold SLOT_HEADER_LEN. ltb_false by lia.
  rewrite H1, bool_decide_true by done. cbn [negb]. rewrite H2.
  change (le_combine (le_split 2 RETAIN_VERSION) =? RETAIN_VERSION) with true. cbn [negb].
  rewrite H3, H4, H5, H6.
  rewrite (le_combine_split_id 4 n), (le_combine_split_id 4 k), (le_combine_split_id 8 g) by done.
  change [0; 0; 0; 0] with (le_split 4 0). by rewrite blit_crc_field.
Qed.

(** Decoding what [encode_slot] wrote. *)
Lemma decode_encode_slot g s c rs :
  u_range 64 g -> Forall record_ok rs -> bytes_ok (payload_of rs) -> len (payload_of rs) < 2 ^ 32 ->
  decode_slot (encode_slot g s c (payload_of rs)) = Ok (mkSlot g rs).
Proof.
  intros Hg Hrs Hp Hlen. set (p := payload_of rs) in *. rewrite encode_slot_eq.
  pose proof (len_nonneg p). pose proof (slot_crc_range g s c p Hp) as Hk.
  rewrite decode_slot_file by (first [done | by apply wrap_u_range]).
  fold (slot_crc g s c p). rewrite (wrap_u_small 32) by (unfold u_range; lia).
  unfold slot_crc. rewrite (wrap_u_small 32) by (unfold u_range; lia). rewrite !Z.eqb_refl. cbn [negb].
  by rewrite (proj2 (decode_records_spec p rs Hp) (conj Hrs eq_refl)).
Qed.

(** A slot file that was cut short does not decode. *)
Lemma decode_torn_slot g s c p n :
  u_range 64 g -> bytes_ok p -> len p < 2 ^ 32 -> (n < length (encode_slot g s c p))%nat ->
  decode_slot (take n (encode_slot g s c p)) = Err Corrupt.
Proof.
  intros Hg Hp Hlen. rewrite encode_slot_eq. set (h := slot_header _ _ _ _ _). intros Hn.
  rewrite length_app in Hn. assert (length h = 32%nat) as Hh by reflexivity.
  destruct (decide (n < 32)%nat) as [H32|H32].
  - unfold decode_slot, SLOT_HEADER_LEN.
    rewrite (proj2 (Z.ltb_lt _ _)); [done|]. unfold len. rewrite length_take, length_app. lia.
  - replace n with (length h + (n - 32))%nat by lia. rewrite take_app_add.
    unfold h. rewrite decode_slot_file by (first [done | by apply wrap_u_range | by apply slot_crc_range]).
    pose proof (len_nonneg p). rewrite (wrap_u_small 32) by (unfold u_range; lia).
    rewrite (proj2 (Z.eqb_neq _ _)); [done|]. unfold len. rewrite length_take. lia.
Qed.

(** ** Index files *)

Definition idx_head (slot generation : Z) : bytes :=
  IDX_MAGIC ++ le_split 2 RETAIN_VERSION ++ [slot; 0] ++ le_split 8 generation.

Lemma idx_head_ok slot g : slot = 0 \/ slot = 1 -> bytes_ok (idx_head slot g).
Proof.
  intros Hs. unfold idx_head. repeat apply Forall_app_2; try apply le_split_ok.
  - repeat (apply Forall_cons_2; [split; [by vm_compute|by vm_compute]|]). constructor.
  - apply two_bytes_ok; unfold byte_range; lia.
Qed.

Lemma idx_fields slot g k :
  let bs := idx_head slot g ++ le_split 4 k ++ replicate 44 0 in
  len bs = 64 /\ zslice bs 0 4 = IDX_MAGIC /\ zslice bs 4 2 = le_split 2 RETAIN_VERSION /\
  nth 6 bs 0 = slot /\ zslice bs 8 8 = le_split 8 g /\ zslice bs 16 4 = le_split 4 k /\
  zslice bs 0 16 = idx_head slot g.
Proof. repeat split. Qed.

Lemma decode_encode_idx slot g :
  slot = 0 \/ slot = 1 -> u_range 64 g -> decode_idx (encode_idx slot g) = Some (mkIdx slot g).
Proof.
  intros Hs Hg. unfold encode_idx. fold (idx_head slot g).
  pose proof (crc32_range _ (idx_head_ok slot g Hs)) as Hk.
  pose proof (idx_fields slot g (crc32 (idx_head slot g))) as (H1 & H2 & H3 & H4 & H5 & H6 & H7).
  unfold decode_idx. rewrite H1, H2, bool_decide_true by done. rewrite H3, H4, H5, H6, H7.
  change (le_combine (le_split 2 RETAIN_VERSION) =? RETAIN_VERSION) with true.
  rewrite (le_combine_split_id 4), (le_combine_split_id 8) by done.
  change (64 =? IDX_LEN) with true. cbn [negb]. ltb_false by lia. by rewrite Z.eqb_refl.
Qed.

Lemma length_encode_idx slot g : length (encode_idx slot g) = 64%nat.
Proof. reflexivity. Qed.

(** An index file that was cut short does not decode. *)
Lemma decode_torn_idx slot g n :
  slot = 0 \/ slot = 1 -> u_range 64 g ->
  decode_idx (take n (encode_idx slot g)) = None \/
  decode_idx (take n (encode_idx slot g)) = Some (mkIdx slot g).
Proof.
  intros Hs Hg. destruct (decide (64 <= n)%nat) as [Hn|Hn].
  - right. rewrite take_ge by (by rewrite length_encode_idx). by apply decode_encode_idx.
  - left. unfold decode_idx. rewrite (proj2 (Z.eqb_neq _ _)); [done|].
    unfold len, IDX_LEN. rewrite length_take, length_encode_idx. lia.
Qed.

Lemma decode_idx_range bs i : bytes_ok bs -> decode_idx bs = Some i ->
  (ix_slot i = 0 \/ ix_slot i = 1) /\ u_range 64 (ix_generation i).
Proof.
  intros Hb. unfold decode_idx. repeat (case_match; [done|]). intros [= <-]. cbn [ix_slot ix_generation].
  assert (0 <= nth 6 bs 0).
  { destruct (nth_in_or_default 6 bs 0) as [Hin| ->]; [|done].
    rewrite Forall_forall in Hb. apply list_elem_of_In in Hin. apply (Hb _ Hin). }
  split; [match goal with H : (1 <? _) = false |- _ => apply Z.ltb_ge in H end; lia|].
  pose proof (le_combine_bound (zslice bs 8 8) (slice_ok _ _ _ Hb)) as Hr. unfold u_range.
  assert (2 ^ (8 * Z.of_nat (length (zslice bs 8 8))) <= 2 ^ 64); [|lia].
  apply Z.pow_le_mono_r; [lia|]. unfold zslice, slice. rewrite length_take. lia.
Qed.

Lemma decode_slot_range bs d : bytes_ok bs -> decode_slot bs = Ok d ->
  u_range 64 (ds_generation d) /\ values_ok (ds_records d).
Proof.
  intros Hb. unfold decode_slot. repeat (case_match; [done|]). intros Hd.
  apply res_bind_Ok in Hd as (rs & Hrs & Hd). apply Ok_inj in Hd as <-. cbn [ds_generation ds_records].
  split.
  - pose proof (le_combine_bound (zslice bs 8 8) (slice_ok _ _ _ Hb)) as Hr. unfold u_range.
    assert (2 ^ (8 * Z.of_nat (length (zslice bs 8 8))) <= 2 ^ 64); [|lia].
    apply Z.pow_le_mono_r; [lia|]. unfold zslice, slice. rewrite length_take. lia.
  - destruct (decode_records (drop 32 bs)) as [rs'| |] eqn:E; [|done|done]. apply Ok_inj in Hrs as <-.
    apply decode_records_spec in E as [E _]; [|by apply Forall_drop].
    eapply Forall_impl; [exact E|]. by intros r [].
Qed.

Lemma decode_slot_no_panic bs : bytes_ok bs -> decode_slot bs <> Panic.
Proof.
  intros Hb. unfold decode_slot. repeat (case_match; [done|]).
  pose proof (decode_loop_no_panic (S (length (drop 32 bs))) (drop 32 bs) 0 (Forall_drop _ _ _ Hb))
    as Hd. unfold decode_records in *. destruct (decode_loop _ _ _); [done|done|].
  intros _. apply Hd; [unfold len; lia|unfold len; lia|done].
Qed.

(** ** What a directory holds *)

Definition fs_ok (fs : Fs) : Prop := map_Forall (fun _ bs => bytes_ok bs) fs.

Lemma slot_path_inj id id' s s' : slot_path id s = slot_path id' s' -> id = id' /\ s = s'.
Proof.
  unfold slot_path. intros [H1 H2]%app_inj_2; [|done].
  split; [done|]. injection H2 as H2. lia.
Qed.

Lemma slot_idx_path id id' s : s = 0 \/ s = 1 -> slot_path id s <> idx_path id'.
Proof.
  intros Hs H. unfold slot_path, idx_path in H. apply (f_equal last) in H.
  rewrite app_assoc, last_snoc in H. change (bstr ".ret.idx") with (bstr ".ret.id" ++ [120]) in H.
  rewrite app_assoc, last_snoc in H. injection H as H. lia.
Qed.

Lemma idx_path_inj id id' : idx_path id = idx_path id' -> id = id'.
Proof. unfold idx_path. by intros [H _]%app_inj_2. Qed.

Section View.
Context (id : bytes).

(** The slot's contents, if they decode. *)
Definition slot_of (fs : Fs) (slot : Z) : option DecodedSlot :=
  match read_slot id fs slot with Ok d => Some d | _ => None end.

(** What [load] restores. *)
Definition current (fs : Fs) : option (Z * DecodedSlot) :=
  choose_slot (read_idx id fs) (slot_of fs 0) (slot_of fs 1).

Definition current_records (fs : Fs) : option (list RetainRecord) :=
  ds_records ∘ snd <$> current fs.

(** A readable index names a readable slot of its generation. *)
Definition settled (fs : Fs) : Prop :=
  match read_idx id fs with
  | Some i => exists d, slot_of fs (ix_slot i) = Some d /\ ds_generation d = ix_generation i
  | None => True
  end.

Lemma ok_read_slot {F} fs slot : fs_ok fs -> ok (read_slot id fs slot) = @Ok F _ (slot_of fs slot).
Proof.
  intros Hfs. unfold slot_of, read_slot. destruct (fs !! slot_path id slot) as [bs|] eqn:E; [|done].
  pose proof (decode_slot_no_panic bs (Hfs _ _ E)). by destruct (decode_slot bs).
Qed.

Lemma slot_of_range fs slot d : fs_ok fs -> slot_of fs slot = Some d ->
  u_range 64 (ds_generation d) /\ values_ok (ds_records d).
Proof.
  intros Hfs. unfold slot_of, read_slot. destruct (fs !! slot_path id slot) as [bs|] eqn:E; [|done].
  intros Hd. apply (decode_slot_range bs d (Hfs _ _ E)). by destruct (decode_slot bs); simplify_eq.
Qed.

Lemma read_idx_range fs i : fs_ok fs -> read_idx id fs = Some i ->
  (ix_slot i = 0 \/ ix_slot i = 1) /\ u_range 64 (ix_generation i).
Proof.
  intros Hfs H. unfold read_idx in H. apply bind_Some in H as (bs & Hb & H).
  exact (decode_idx_range bs i (Hfs _ _ Hb) H).
Qed.

(** [committed] on what was read. *)
Definition active (i : option IdxRecord) (s0 s1 : option DecodedSlot) : Z * Z :=
  match i with
  | Some i => (ix_slot i, ix_generation i)
  | None =>
      match s0, s1 with
      | Some a, Some b =>
          if ds_generation b <=? ds_generation a then (0, ds_generation a) else (1, ds_generation b)
      | Some a, None => (0, ds_generation a)
      | None, Some b => (1, ds_generation b)
      | None, None => (1, 0)
      end
  end.

Lemma committed_active fs :
  fs_ok fs -> committed id fs = Ok (active (read_idx id fs) (slot_of fs 0) (slot_of fs 1)).
Proof.
  intros Hfs. unfold committed. rewrite !ok_read_slot by done. unfold active.
  destruct (read_idx id fs); [done|]. cbn [mbind res_bind]. by repeat case_match.
Qed.

Lemma active_range fs :
  fs_ok fs -> let '(a, g) := active (read_idx id fs) (slot_of fs 0) (slot_of fs 1) in
  (a = 0 \/ a = 1) /\ u_range 64 g.
Proof.
  intros Hfs. unfold active. destruct (read_idx id fs) as [i|] eqn:Ei.
  - by eapply read_idx_range.
  - destruct (slot_of fs 0) as [a|] eqn:E0, (slot_of fs 1) as [b|] eqn:E1;
      [destruct (_ <=? _)|..].
    all: try (apply slot_of_range in E0 as [E0 _]; [|done]).
    all: try (apply slot_of_range in E1 as [E1 _]; [|done]).
    all: split; [auto|]; try done; unfold u_range; lia.
Qed.

(** Replacing the slot that is not active never loses the current image. *)
Section Update.
Context (i : option IdxRecord) (s0 s1 x : option DecodedSlot) (a g : Z).
Hypothesis Ha : active i s0 s1 = (a, g).
Hypothesis Hi : match i with Some i => ix_slot i = 0 \/ ix_slot i = 1 | None => True end.
Hypothesis Hset : match i with
  | Some i => exists d, (if ix_slot i =? 0 then s0 else s1) = Some d /\ ds_generation d = ix_generation i
  | None => True
  end.

Abbreviation t0 := (if a =? 0 then s0 else x).
Abbreviation t1 := (if a =? 0 then x else s1).

Definition kept_or_new (c : option (Z * DecodedSlot)) : Prop :=
  c = choose_slot i s0 s1 \/ exists d, x = Some d /\ c = Some (1 - a, d).

(** With an index, the active slot is the one it names. *)
Lemma active_idx : i <> None -> exists d,
  i = Some (mkIdx a (ds_generation d)) /\ g = ds_generation d /\
  (a = 0 /\ s0 = Some d \/ a = 1 /\ s1 = Some d) /\ choose_slot i s0 s1 = Some (a, d).
Proof.
  destruct i as [[sl gi]|]; [intros _|done]. cbn in Ha, Hi, Hset. injection Ha as <- <-.
  destruct Hset as (d & Hd & <-). exists d. split; [done|]. split; [done|].
  unfold choose_slot. cbn. destruct Hi as [-> | ->]; cbn in Hd |- *; rewrite Hd, Z.eqb_refl; auto.
Qed.

(** Without one, it is the newer one. *)
Lemma active_no_idx : i = None ->
  (s0 = None /\ s1 = None /\ a = 1 \/
   exists d, (a = 0 /\ s0 = Some d \/ a = 1 /\ s1 = Some d) /\ choose_slot i s0 s1 = Some (a, d)).
Proof.
  intros ->. unfold choose_slot. unfold active in Ha.
  destruct s0 as [d0|], s1 as [d1|]; [destruct (_ <=? _)|..]; injection Ha as <- <-; eauto 10.
Qed.

Lemma choose_same_idx : kept_or_new (choose_slot i t0 t1).
Proof.
  unfold kept_or_new. destruct (decide (i = None)) as [Ei|Ei].
  - destruct (active_no_idx Ei) as [(H0 & H1 & Hz)|(d & Hc & Hd)].
    + rewrite Ei, H0, H1, Hz. cbn. destruct x; eauto.
    + rewrite Hd, Ei.
      destruct Hc as [[-> ->]|[-> ->]]; cbn; destruct x; try destruct (_ <=? _); eauto.
  - destruct (active_idx Ei) as (d & Hd & _ & Hc & Hch). left. rewrite Hch, Hd.
    unfold choose_slot. cbn. destruct Hc as [[-> ->]|[-> ->]]; cbn; by rewrite Z.eqb_refl.
Qed.

Lemma choose_no_idx : kept_or_new (choose_slot None t0 t1).
Proof.
  destruct (decide (i = None)) as [Ei|Ei].
  - rewrite <-Ei.  exact choose_same_idx.
  - unfold kept_or_new. destruct (active_idx Ei) as (d & _ & _ & Hc & ->).
    destruct Hc as [[-> ->]|[-> ->]]; cbn; destruct x; try destruct (_ <=? _); eauto.
Qed.

End Update.

Lemma choose_new_idx (s0 s1 : option DecodedSlot) a d :
  a = 0 \/ a = 1 ->
  choose_slot (Some (mkIdx (1 - a) (ds_generation d)))
    (if a =? 0 then s0 else Some d) (if a =? 0 then Some d else s1) = Some (1 - a, d).
Proof.
  intros [-> | ->]; [change (1 - 0) with 1|change (1 - 1) with 0];
    unfold choose_slot; cbn; by rewrite Z.eqb_refl.
Qed.
End View.

(** ** Flushing *)

Abbreviation image_recs l image := (map (symbol_record image) (l_symbols l)).

Lemma encode_slot_ok g s c p : bytes_ok p -> bytes_ok (encode_slot g s c p).
Proof. intros Hp. rewrite encode_slot_eq. apply Forall_app_2; [apply slot_header_ok|done]. Qed.

Lemma encode_idx_ok slot g : slot = 0 \/ slot = 1 -> bytes_ok (encode_idx slot g).
Proof.
  intros Hs. unfold encode_idx. fold (idx_head slot g).
  apply Forall_app_2; [by apply idx_head_ok|]. apply Forall_app_2; [apply le_split_ok|].
  apply Forall_replicate. unfold byte_range. lia.
Qed.

Lemma fs_ok_insert fs p bs : fs_ok fs -> bytes_ok bs -> fs_ok (<[p := bs]> fs).
Proof. intros Hfs Hb. by apply map_Forall_insert_2. Qed.

(** What a file decodes to. *)
Definition decoded (bs : bytes) : option DecodedSlot :=
  match decode_slot bs with Ok d => Some d | _ => None end.

Section Flush.
Context (id : bytes).

Lemma slot_of_write fs s bs : slot_of id (<[slot_path id s := bs]> fs) s = decoded bs.
Proof. unfold slot_of, read_slot. by rewrite lookup_insert_eq. Qed.

Lemma slot_of_write_ne fs s s' bs :
  s <> s' -> slot_of id (<[slot_path id s := bs]> fs) s' = slot_of id fs s'.
Proof.
  intros Hne. unfold slot_of, read_slot. rewrite lookup_insert_ne; [done|].
  intros [_ H]%slot_path_inj. lia.
Qed.

Lemma slot_of_write_idx fs s bs :
  s = 0 \/ s = 1 -> slot_of id (<[idx_path id := bs]> fs) s = slot_of id fs s.
Proof.
  intros Hs. unfold slot_of, read_slot. rewrite lookup_insert_ne; [done|].
  intros H. by apply (slot_idx_path id id s).
Qed.

Lemma read_idx_write fs bs : read_idx id (<[idx_path id := bs]> fs) = decode_idx bs.
Proof. unfold read_idx. by rewrite lookup_insert_eq. Qed.

Lemma read_idx_write_slot fs s bs :
  s = 0 \/ s = 1 -> read_idx id (<[slot_path id s := bs]> fs) = read_idx id fs.
Proof. intros Hs. unfold read_idx. rewrite lookup_insert_ne; [done|]. by apply slot_idx_path. Qed.

(** A directory after the inactive slot was overwritten with [bs]. *)
Section SlotWritten.
Context (fs : Fs) (a g : Z) (bs : bytes).
Context (Hfs : fs_ok fs) (Hset : settled id fs).
Context (Ha : active (read_idx id fs) (slot_of id fs 0) (slot_of id fs 1) = (a, g)).
Abbreviation fs1 := (<[slot_path id (1 - a) := bs]> fs).

Lemma active_slot : a = 0 \/ a = 1.
Proof. pose proof (active_range id fs Hfs) as H. rewrite Ha in H. by destruct H. Qed.

Lemma written_slots :
  slot_of id fs1 0 = (if a =? 0 then slot_of id fs 0 else decoded bs) /\
  slot_of id fs1 1 = (if a =? 0 then decoded bs else slot_of id fs 1).
Proof.
  destruct active_slot as [-> | ->]; cbn [Z.eqb].
  - change (1 - 0) with 1. by rewrite slot_of_write, slot_of_write_ne.
  - change (1 - 1) with 0. by rewrite slot_of_write, slot_of_write_ne.
Qed.

Lemma settled_choice : match read_idx id fs with
  | Some i => exists d, (if ix_slot i =? 0 then slot_of id fs 0 else slot_of id fs 1) = Some d /\
      ds_generation d = ix_generation i
  | None => True
  end.
Proof.
  unfold settled in Hset. destruct (read_idx id fs) as [i|] eqn:Ei; [|done].
  apply read_idx_range in Ei as [[Hs|Hs] _]; [| |done]; rewrite Hs in *; exact Hset.
Qed.

Lemma idx_slots : match read_idx id fs with
  | Some i => ix_slot i = 0 \/ ix_slot i = 1 | None => True end.
Proof. destruct (read_idx id fs) as [i|] eqn:Ei; [|done]. by apply read_idx_range in Ei as [? _]. Qed.

Lemma inactive_slot : 1 - a = 0 \/ 1 - a = 1.
Proof. destruct active_slot; lia. Qed.

(** The index untouched. *)
Lemma slot_written_current :
  current id fs1 = current id fs \/ exists d, decoded bs = Some d /\ current id fs1 = Some (1 - a, d).
Proof.
  unfold current at 1 3. rewrite read_idx_write_slot by apply inactive_slot.
  destruct written_slots as [-> ->].
  exact (choose_same_idx _ _ _ _ a g Ha idx_slots settled_choice).
Qed.

Lemma slot_written_settled : settled id fs1.
Proof.
  unfold settled. rewrite read_idx_write_slot by apply inactive_slot.
  pose proof Hset as H. unfold settled in H. destruct (read_idx id fs) as [i|] eqn:Ei; [|done].
  destruct H as (d & Hd & Hg). exists d. split; [|done]. rewrite slot_of_write_ne; [done|].
  cbn in Ha. injection Ha as <- _. apply read_idx_range in Ei as [Hs _]; [lia|done].
Qed.

(** The index lost. *)
Lemma idx_lost_current b :
  decode_idx b = None ->
  current id (<[idx_path id := b]> fs1) = current id fs \/
  exists d, decoded bs = Some d /\ current id (<[idx_path id := b]> fs1) = Some (1 - a, d).
Proof.
  intros Hb. unfold current at 1 3. rewrite read_idx_write, Hb.
  rewrite !slot_of_write_idx by auto. destruct written_slots as [-> ->].
  exact (choose_no_idx _ _ _ _ a g Ha idx_slots settled_choice).
Qed.

(** The index committed. *)
Lemma idx_written_current b d :
  decode_idx b = Some (mkIdx (1 - a) (ds_generation d)) -> decoded bs = Some d ->
  current id (<[idx_path id := b]> fs1) = Some (1 - a, d).
Proof.
  intros Hb Hd. unfold current. rewrite read_idx_write, Hb.
  rewrite !slot_of_write_idx by auto. destruct written_slots as [-> ->].
  rewrite Hd. apply choose_new_idx, active_slot.
Qed.

Lemma idx_written_settled b d :
  decode_idx b = Some (mkIdx (1 - a) (ds_generation d)) -> decoded bs = Some d ->
  settled id (<[idx_path id := b]> fs1).
Proof.
  intros Hb Hd. unfold settled. rewrite read_idx_write, Hb. exists d. split; [|done]. cbn [ix_slot].
  rewrite slot_of_write_idx by apply inactive_slot. by rewrite slot_of_write.
Qed.
End SlotWritten.

(** What a layout and an image must satisfy for [flush] to encode them. *)
Record flushable (l : RetainLayout) (image : bytes) : Prop := {
  fl_layout : layout_ok l;
  fl_names : layout_names_ok l;
  fl_image : bytes_ok image;
  fl_len : len image = l_retain_size l;
  fl_payload : len (payload_of (map (symbol_record image) (l_symbols l))) < 2 ^ 32 }.

Lemma flushable_records l image : flushable l image -> Forall record_ok (image_recs l image).
Proof.
  intros [H1 H2 _ H4 _]. pose proof (layout_encodable _ _ H1 H2 H4) as Hs.
  apply Forall_map. eapply Forall_impl; [exact Hs|]. intros s (P1 & P2 & P3 & P4).
  by apply symbol_record_ok.
Qed.

Lemma flushable_payload l image : flushable l image -> bytes_ok (payload_of (image_recs l image)).
Proof.
  intros [_ Hn Hi _ _]. unfold payload_of. apply Forall_concat, Forall_map, Forall_map.
  eapply Forall_impl; [exact Hn|]. intros s [_ Hu]. unfold record_bytes. cbn [symbol_record r_name r_ty r_value].
  apply Forall_app_2; [apply le_split_ok|]. apply Forall_app_2; [by apply utf8_valid_ok|].
  apply Forall_app_2; [|by apply slice_ok].
  pose proof (IrTy.ty_as_u8_range (sym_ty s)). apply two_bytes_ok; unfold byte_range; lia.
Qed.

(** The state of the files after a flush that got as far as writing. *)
Definition after_flush (o1 o2 : Outcome) (slot : Z) (bs ibs : bytes) (fs : Fs) : Fs :=
  match o1 with
  | OpenFailed => fs
  | Torn n => <[slot_path id slot := take n bs]> fs
  | Written =>
      match o2 with
      | OpenFailed => <[slot_path id slot := bs]> fs
      | Torn n => <[idx_path id := take n ibs]> (<[slot_path id slot := bs]> fs)
      | Written => <[idx_path id := ibs]> (<[slot_path id slot := bs]> fs)
      end
  end.

Definition next_generation (g : Z) : Z := Z.max (sat_add_u 64 g 1) 1.

Lemma flush_files o1 o2 l image fs a g :
  validate_program_id id = Ok tt -> flushable l image -> fs_ok fs ->
  active (read_idx id fs) (slot_of id fs 0) (slot_of id fs 1) = (a, g) ->
  let bs := encode_slot (next_generation g) (schema_hash l) (wrap_u 32 (len (l_symbols l)))
              (payload_of (image_recs l image)) in
  flush id o1 o2 l image fs =
  (after_flush o1 o2 (1 - a) bs (encode_idx (1 - a) (next_generation g)) fs,
   match o1, o2 with
   | Written, Written => Ok (mkFlushReport (next_generation g) (1 - a) (len bs))
   | _, _ => Err REIo
   end).
Proof.
  intros Hid Hfl Hfs Ha bs. pose proof Hfl as [H1 H2 _ H4 _]. unfold flush.
  unfold mbind at 1, M_bind at 1, m_lift at 1. rewrite Hid.
  rewrite (proj2 (Z.eqb_eq _ _) H4). cbn [negb].
  unfold encode_records. rewrite (proj2 (Z.eqb_eq _ _) H4). cbn [negb].
  rewrite encode_symbols_spec by (by apply layout_encodable).
  unfold mbind, M_bind, m_lift, m_get, mret, M_ret. rewrite committed_active by done. rewrite Ha.
  fold (next_generation g). fold bs. unfold write_all_sync. by destruct o1, o2.
Qed.

Lemma next_generation_range g : u_range 64 g -> u_range 64 (next_generation g).
Proof. unfold u_range, next_generation, sat_add_u. lia. Qed.

Lemma flush_outcome o1 o2 l image fs fs' r :
  validate_program_id id = Ok tt -> flushable l image -> fs_ok fs -> settled id fs ->
  flush id o1 o2 l image fs = (fs', r) ->
  fs_ok fs' /\ settled id fs' /\
  (current_records id fs' = current_records id fs \/
   current_records id fs' = Some (image_recs l image)) /\
  match r with
  | Ok rep => current id fs' = Some (fr_slot rep, mkSlot (fr_generation rep) (image_recs l image))
  | Err e => e = REIo
  | Panic => False
  end.
Proof.
  intros Hid Hfl Hfs Hset Hrun.
  destruct (active (read_idx id fs) (slot_of id fs 0) (slot_of id fs 1)) as [a g] eqn:Ha.
  rewrite (flush_files o1 o2 l image fs a g Hid Hfl Hfs Ha) in Hrun.
  pose proof (active_range id fs Hfs) as Hr. rewrite Ha in Hr. destruct Hr as [Hslot Hg].
  apply next_generation_range in Hg. set (g' := next_generation g) in *. clearbody g'.
  pose proof (flushable_records _ _ Hfl) as Hrs. pose proof (flushable_payload _ _ Hfl) as Hp.
  pose proof (fl_payload _ _ Hfl) as Hlen.
  set (rs := image_recs l image) in *. set (p := payload_of rs) in *.
  set (bs := encode_slot g' _ _ p) in *. set (ibs := encode_idx (1 - a) g') in *.
  assert (Hslot' : 1 - a = 0 \/ 1 - a = 1) by lia.
  assert (Hbs : bytes_ok bs) by (by apply encode_slot_ok).
  assert (Hibs : bytes_ok ibs) by (by apply encode_idx_ok).
  assert (Hd : decoded bs = Some (mkSlot g' rs)) by (unfold decoded, bs, p; by rewrite decode_encode_slot).
  assert (Htorn : forall n, decoded (take n bs) = None \/ decoded (take n bs) = Some (mkSlot g' rs)).
  { intros n. destruct (decide (n < length bs)%nat).
    - left. unfold decoded, bs. by rewrite decode_torn_slot.
    - right. by rewrite take_ge by lia. }
  assert (Hok1 : forall n, bytes_ok (take n bs)) by (intros; by apply Forall_take).
  assert (Hok2 : forall n, bytes_ok (take n ibs)) by (intros; by apply Forall_take).
  assert (Hnew : forall b s fs2, decoded b = None \/ decoded b = Some (mkSlot g' rs) ->
    current id fs2 = current id fs \/ (exists d, decoded b = Some d /\ current id fs2 = Some (s, d)) ->
    current_records id fs2 = current_records id fs \/ current_records id fs2 = Some rs).
  { intros b s fs2 Hb [Hc|(d & Hbd & Hc)]; unfold current_records; rewrite Hc; [by left|].
    right. cbn. destruct Hb; by simplify_eq. }
  assert (Hcommit : forall b, decode_idx b = Some (mkIdx (1 - a) g') ->
    let fs2 := <[idx_path id := b]> (<[slot_path id (1 - a) := bs]> fs) in
    settled id fs2 /\ current id fs2 = Some (1 - a, mkSlot g' rs)).
  { intros b Hb. split.
    - by apply (idx_written_settled fs a g bs Hfs Ha b (mkSlot g' rs)).
    - by apply (idx_written_current fs a g bs Hfs Ha b (mkSlot g' rs)). }
  injection Hrun as <- <-. unfold after_flush.
  destruct o1 as [| |n]; [destruct o2 as [| |n]|..].
  - destruct (Hcommit ibs) as [Hs Hc]; [by apply decode_encode_idx|].
    split; [by repeat apply fs_ok_insert|]. split; [done|]. split; [|exact Hc].
    right. unfold current_records. by rewrite Hc.
  - split; [by apply fs_ok_insert|]. split; [by eapply slot_written_settled|]. split; [|done].
    eapply (Hnew bs); [by right|by eapply slot_written_current].
  - split; [by repeat apply fs_ok_insert|].
    destruct (decode_torn_idx (1 - a) g' n Hslot' Hg) as [Hn|Hn]; fold ibs in Hn.
    + split; [unfold settled; by rewrite read_idx_write, Hn|]. split; [|done].
      eapply (Hnew bs); [by right|by eapply idx_lost_current].
    + destruct (Hcommit _ Hn) as [Hs Hc]. split; [done|]. split; [|done].
      right. unfold current_records. by rewrite Hc.
  - split; [done|]. split; [done|]. by split; [left|].
  - split; [by apply fs_ok_insert|]. split; [by eapply slot_written_settled|]. split; [|done].
    eapply (Hnew (take n bs)); [done|by eapply slot_written_current].
Qed.

Lemma flush_frame o1 o2 l image fs fs' r p :
  flush id o1 o2 l image fs = (fs', r) -> validate_program_id id = Ok tt -> flushable l image ->
  fs_ok fs -> (forall s, p <> slot_path id s) -> p <> idx_path id -> fs' !! p = fs !! p.
Proof.
  intros Hrun Hid Hfl Hfs Hps Hpi.
  destruct (active (read_idx id fs) (slot_of id fs 0) (slot_of id fs 1)) as [a g] eqn:Ha.
  rewrite (flush_files o1 o2 l image fs a g Hid Hfl Hfs Ha) in Hrun. injection Hrun as <- _.
  unfold after_flush. destruct o1, o2; rewrite ?lookup_insert_ne; congruence.
Qed.

(** ** Loading *)

Definition report_of (slot : Z) (d : DecodedSlot) (m : MapReport) (corrupt : bool) : LoadReport :=
  mkLoadReport (from_slot slot) (ds_generation d) (kept m) (cold_defaults m) (dropped m)
    (zeroed_incompat m) corrupt false.

Lemma current_values_ok fs slot d :
  fs_ok fs -> current id fs = Some (slot, d) -> values_ok (ds_records d).
Proof.
  intros Hfs Hc. unfold current, choose_slot in Hc.
  assert (slot_of id fs 0 = Some d \/ slot_of id fs 1 = Some d) as [Hs|Hs]
    by (repeat case_match; simplify_eq; auto).
  all: by apply slot_of_range in Hs as [_ ?].
Qed.

Lemma load_cases fs l dst :
  validate_program_id id = Ok tt -> fs_ok fs -> layout_ok l -> len dst = l_retain_size l ->
  exists corrupt,
  match current id fs with
  | None => exists missing, load id fs l dst = (replicate (length dst) 0,
      Ok (mkLoadReport Cold 0 0 (wrap_u 32 (len (l_symbols l))) 0 [] corrupt missing))
  | Some (slot, d) => exists m, apply_records (ds_records d) l true = Ok m /\
      load id fs l dst = (m_image m, Ok (report_of slot d (m_report m) corrupt))
  end.
Proof.
  intros Hid Hfs Hl Hd. unfold load, current.
  unfold mbind, M_bind, m_lift, m_get, m_modify, mret, M_ret.
  rewrite Hid, (proj2 (Z.eqb_eq _ _) Hd). cbn [negb]. rewrite !ok_read_slot by done.
  destruct (choose_slot _ _ _) as [[slot d]|] eqn:Hc; [|do 2 eexists; reflexivity].
  pose proof (current_values_ok fs slot d Hfs Hc) as Hv.
  pose proof (apply_records_cases l Hl (ds_records d) true Hv) as Ha. rewrite andb_false_r in Ha.
  destruct Ha as (image & rep & Ha & [Hi _ _] & _). rewrite Ha.
  do 2 eexists. split; [done|]. cbn [m_image m_report].
  rewrite (proj2 (Z.eqb_eq _ _)); [reflexivity|]. unfold len in *. rewrite length_replicate. lia.
Qed.
End Flush.

(** ** Damage *)

Lemma decode_slot_crc bs : bytes_ok bs -> decode_slot bs <> Err Corrupt ->
  (32 <= length bs)%nat /\ crc32 (blit bs 28 [0; 0; 0; 0]) = le_combine (slice bs 28 4).
Proof.
  intros Hb H. revert H. unfold decode_slot, SLOT_HEADER_LEN.
  destruct (Z.ltb_spec (len bs) 32); [done|]. repeat (case_match; [done|]). intros _.
  split; [unfold len in *; lia|].
  match goal with H : negb (crc32 _ =? _) = false |- _ => apply negb_false_iff, Z.eqb_eq in H; exact H end.
Qed.

(** Three ways a window can miss the boundary of the checksum field. *)
Definition avoids_crc_edge (pre w : bytes) : Prop :=
  (length pre + length w <= 28 \/ 28 <= length pre /\ length pre + length w <= 32 \/
   32 <= length pre)%nat.

Lemma crc_field_inj (b c : bytes) : bytes_ok b -> bytes_ok c -> length b = length c ->
  le_combine b = le_combine c -> b = c.
Proof.
  intros Hb Hc Hl He. rewrite <-(le_split_combine b Hb), <-(le_split_combine c Hc). congruence.
Qed.

Lemma damaged_checksum pre w w' post :
  bytes_ok (pre ++ w ++ post) -> bytes_ok w' -> length w = length w' -> (length w <= 4)%nat ->
  (32 <= length (pre ++ w ++ post))%nat -> avoids_crc_edge pre w ->
  crc32 (blit (pre ++ w ++ post) 28 [0; 0; 0; 0]) = le_combine (slice (pre ++ w ++ post) 28 4) ->
  crc32 (blit (pre ++ w' ++ post) 28 [0; 0; 0; 0]) = le_combine (slice (pre ++ w' ++ post) 28 4) ->
  w = w'.
Proof.
  intros Hok Hok' Hl H4 Hlen Hw H1 H2. rewrite !length_app in Hlen.
  pose proof (proj1 (Forall_app _ _ _) Hok) as [Hpre Hr].
  pose proof (proj1 (Forall_app _ _ _) Hr) as [Hw0 Hpost].
  assert (Hz : forall l o, (o + 4 <= length l)%nat -> bytes_ok l -> bytes_ok (blit l o [0; 0; 0; 0])).
  { intros l o _ Hl0. unfold blit. apply Forall_app_2; [by apply Forall_take|].
    apply Forall_app_2; [|by apply Forall_drop]. repeat (apply Forall_cons_2; [unfold byte_range; lia|]). constructor. }
  destruct Hw as [Hw|[[Hw1 Hw2]|Hw]].
  - rewrite !(blit_app_r pre), !(blit_app_r w), !(blit_app_r w') in * by lia.
    rewrite !(slice_app_ge pre), !(slice_app_ge w), !(slice_app_ge w') in * by lia.
    rewrite <-Hl in H2. rewrite <-H2 in H1.
    eapply crc32_burst; [|exact Hok'|exact Hl|exact H4|exact H1].
    apply Forall_app_2; [done|]. apply Forall_app_2; [done|]. apply Hz; [lia|done].
  - assert (He : blit (pre ++ w ++ post) 28 [0; 0; 0; 0] = blit (pre ++ w' ++ post) 28 [0; 0; 0; 0]).
    { unfold blit. rewrite !take_app_le by lia. do 2 f_equal. cbn [length].
      rewrite !(drop_app_ge pre), !(drop_app_ge w), !(drop_app_ge w') by lia. by rewrite Hl. }
    rewrite He, H2 in H1. apply crc_field_inj in H1.
    + unfold slice in H1. rewrite !(drop_app_le pre) in H1 by lia.
      rewrite !(take_app_ge (drop 28 pre)) in H1 by (rewrite length_drop; lia).
      apply app_inv_head in H1. rewrite !take_app_ge in H1 by (rewrite length_drop; lia).
      rewrite Hl in H1. by apply app_inv_tail in H1.
    + apply slice_ok. apply Forall_app_2; [done|]. by apply Forall_app_2.
    + by apply slice_ok.
    + rewrite !length_slice; rewrite ?length_app; lia.
  - rewrite !(blit_app_l pre), !(slice_app_l pre) in * by (cbn [length]; lia).
    rewrite <-H2 in H1.
    eapply crc32_burst; [|exact Hok'|exact Hl|exact H4|exact H1].
    apply Forall_app_2; [apply Hz; [lia|done]|done].
Qed.

(** ** Histories of flushes *)

Section History.
Context (id : bytes).


(** The directories some flushes of a program reach, whatever becomes of their
    writes, with the records each tried to store and whether it reported success,
    the latest first. *)
Inductive flushed : Fs -> list (list RetainRecord * bool) -> Prop :=
  | flushed_none : flushed ∅ []
  | flushed_next fs log o1 o2 l image fs' r :
      flushed fs log -> flushable l image -> flush id o1 o2 l image fs = (fs', r) ->
      flushed fs' ((image_recs l image, is_ok r) :: log).

(** What may be restored: the last success, or an attempt after it. *)
Fixpoint candidates (log : list (list RetainRecord * bool)) : list (option (list RetainRecord)) :=
  match log with
  | [] => [None]
  | (rs, true) :: _ => [Some rs]
  | (rs, false) :: log => Some rs :: candidates log
  end.

Lemma flushed_inv fs log : validate_program_id id = Ok tt -> flushed fs log ->
  fs_ok fs /\ settled id fs /\ current_records id fs ∈ candidates log.
Proof.
  intros Hid. induction 1 as [|fs log o1 o2 l image fs' r _ (H1 & H2 & H3) Hfl Hrun].
  - split; [by apply map_Forall_empty|]. split; [|left].
    unfold settled, read_idx. by rewrite lookup_empty.
  - apply flush_outcome in Hrun as (H4 & H5 & H6 & H7); [|done..].
    split; [done|]. split; [done|]. destruct r as [rep|e|]; [| |done]; cbn [is_ok candidates].
    + unfold current_records. rewrite H7. left.
    + destruct H6 as [-> | ->]; [by right|left].
Qed.
End History.

Lemma image_of_zeros l :
  layout_ok l -> image_of l [] (replicate (Z.to_nat (l_retain_size l)) 0).
Proof. intros Hl. apply (ap_image _ _ _ (applied_new l Hl)). Qed.

(** ** Properties *)

(** C29: durability across crashes and failed writes. From an empty store, after
    any sequence of flushes each of whose writes may be refused, or torn after any
    number of bytes, a load succeeds and restores exactly the last flush that
    reported success or one attempted after it, or zeros when there is none of
    them; it never mixes two images and never panics. *)
Theorem store_durable (id : bytes) (fs : Fs) (log : list (list RetainRecord * bool))
    (l : RetainLayout) (dst : bytes) (Hid : validate_program_id id = Ok tt)
    (Hfs : flushed id fs log) (Hl : layout_ok l) (Hd : len dst = l_retain_size l) :
  exists restored dst' rep, load id fs l dst = (dst', Ok rep) /\
    restored ∈ candidates log /\ image_of l (default [] restored) dst' /\
    (lr_source rep = Cold <-> restored = None).
Proof.
  apply flushed_inv in Hfs as (Hok & _ & Hc); [|done].
  destruct (load_cases id fs l dst Hid Hok Hl Hd) as [corrupt H].
  exists (current_records id fs). unfold current_records in *.
  destruct (current id fs) as [[slot d]|] eqn:Ecur; cbn [fmap option_fmap option_map] in *.
  - destruct H as (m & Hm & Hload). do 2 eexists. split; [exact Hload|]. split; [done|].
    cbn. unfold from_slot. split; [|by case_match].
    apply apply_records_image; [done|by eapply current_values_ok|done].
  - destruct H as (missing & Hload). do 2 eexists. split; [exact Hload|]. split; [done|].
    cbn. split; [|done]. unfold len in Hd.
    assert (length dst = Z.to_nat (l_retain_size l)) as -> by lia. by apply image_of_zeros.
Qed.

(** C30: a successful flush, then a load. Whatever the earlier history, loading
    with any layout restores exactly what [map_retain] (forced) makes of the
    flushed image, with the same counts and the flush's generation. *)
Theorem flush_then_load (id : bytes) (fs fs' : Fs) (log : list (list RetainRecord * bool))
    (l1 l2 : RetainLayout) (image dst : bytes) (o1 o2 : Outcome) (rep : FlushReport)
    (Hid : validate_program_id id = Ok tt) (Hfs : flushed id fs log) (Hfl : flushable l1 image)
    (Hl2 : layout_ok l2) (Hd : len dst = l_retain_size l2)
    (Hrun : flush id o1 o2 l1 image fs = (fs', Ok rep)) :
  exists m corrupt, map_retain l1 image l2 true = Ok m /\
    load id fs' l2 dst = (m_image m, Ok (mkLoadReport (from_slot (fr_slot rep)) (fr_generation rep)
      (kept (m_report m)) (cold_defaults (m_report m)) (dropped (m_report m))
      (zeroed_incompat (m_report m)) corrupt false)).
Proof.
  apply flushed_inv in Hfs as (Hok & Hset & _); [|done].
  apply flush_outcome in Hrun as (Hok' & _ & _ & Hc); [|done..].
  destruct (load_cases id fs' l2 dst Hid Hok' Hl2 Hd) as [corrupt H]. rewrite Hc in H.
  destruct H as (m & Hm & Hload). exists m, corrupt. split; [|exact Hload].
  unfold map_retain. destruct Hfl as [H1 _ _ H2 _]. by rewrite records_from_image_spec.
Qed.

(** C32: damage. A slot file that decodes, changed in a window of at most four
    consecutive bytes that does not straddle an edge of the checksum field, is
    rejected as corrupt. *)
Theorem slot_damage_detected (pre w w' post : bytes) (d : DecodedSlot)
    (Hok : bytes_ok (pre ++ w ++ post)) (Hok' : bytes_ok w') (Hlen : length w = length w')
    (Hburst : (length w <= 4)%nat) (Hne : w <> w') (Hw : avoids_crc_edge pre w)
    (Hdec : decode_slot (pre ++ w ++ post) = Ok d) :
  decode_slot (pre ++ w' ++ post) = Err Corrupt.
Proof.
  assert (Hok2 : bytes_ok (pre ++ w' ++ post)).
  { apply Forall_app in Hok as [Hp Hr]. apply Forall_app in Hr as [_ Hr].
    apply Forall_app_2; [done|]. by apply Forall_app_2. }
  destruct (decode_slot_crc _ Hok) as [H32 Hc]; [by rewrite Hdec|].
  assert (decode_slot (pre ++ w' ++ post) <> Err Corrupt -> False) as H.
  { intros [_ Hn]%decode_slot_crc; [|done]. by destruct Hne; eapply damaged_checksum. }
  destruct (decode_slot (pre ++ w' ++ post)) as [|[]|]; try done; exfalso; by apply H.
Qed.

(** ** A degraded store *)

Definition prog : bytes := bstr "prog".
Definition zeros16 : bytes := replicate 16 0.

Definition slot_file (generation : Z) (l : RetainLayout) (image : bytes) : bytes :=
  encode_slot generation (schema_hash l) (wrap_u 32 (len (l_symbols l))) (payload_of (image_recs l image)).

(** The index names slot 0, whose file has been damaged; slot 1 still holds the
    previous image. *)
Definition degraded_fs : Fs :=
  <[idx_path prog := encode_idx 0 5]>
    (<[slot_path prog 1 := slot_file 4 sample_layout sample_image]>
      (<[slot_path prog 0 := [0]]> ∅)).

(** What a load restores, and from where. *)
Definition loaded (fs : Fs) : option (bytes * LoadSource * bool) :=
  match load prog fs sample_layout zeros16 with
  | (dst, Ok rep) => Some (dst, lr_source rep, lr_corrupt rep)
  | _ => None
  end.

(** A flush overwrites the only good copy of a degraded store: when the
    index names a damaged slot, load falls back to the other slot, but the next
    flush trusts the index and rewrites that very slot, so a crash during it
    loses both images. *)
Lemma degraded_flush_not_durable :
  loaded degraded_fs = Some (sample_image, Slot1, true) /\
  let '(fs', r) := flush prog (Torn 40) Written sample_layout sample_image degraded_fs in
  r = Err REIo /\ loaded fs' = Some (zeros16, Cold, true).
Proof. by vm_compute. Qed.

(** ** Witnesses *)

Lemma sample_flushable : flushable sample_layout sample_image.
Proof.
  split; [exact sample_layout_ok|exact sample_names_ok|exact sample_image_ok|reflexivity|by vm_compute].
Qed.

Lemma store_durable_witness :
  exists fs dst' rep, flushed prog fs [(image_recs sample_layout sample_image, false)] /\
    load prog fs sample_layout zeros16 = (dst', Ok rep).
Proof.
  assert (is_ok (snd (flush prog Written (Torn 3) sample_layout sample_image ∅)) = false) as Hr
    by (vm_compute; reflexivity).
  destruct (flush prog Written (Torn 3) sample_layout sample_image ∅) as [fs r] eqn:E. cbn [snd] in Hr.
  assert (Hf : flushed prog fs [(image_recs sample_layout sample_image, false)]).
  { rewrite <-Hr. eapply flushed_next; [apply flushed_none|exact sample_flushable|exact E]. }
  destruct (store_durable prog fs _ sample_layout zeros16 ltac:(by vm_compute) Hf sample_layout_ok
    ltac:(by vm_compute)) as (restored & dst' & rep & H & _).
  exists fs, dst', rep. split; [exact Hf|exact H].
Defined.

Lemma flush_then_load_witness :
  exists fs' rep m corrupt, flush prog Written Written sample_layout sample_image ∅ = (fs', Ok rep) /\
    map_retain sample_layout sample_image renamed_layout true = Ok m /\
    load prog fs' renamed_layout (replicate 8 0) = (m_image m,
      Ok (mkLoadReport (from_slot (fr_slot rep)) (fr_generation rep)
        (kept (m_report m)) (cold_defaults (m_report m)) (dropped (m_report m))
        (zeroed_incompat (m_report m)) corrupt false)).
Proof.
  assert (is_ok (snd (flush prog Written Written sample_layout sample_image ∅)) = true) as Hr
    by (vm_compute; reflexivity).
  destruct (flush prog Written Written sample_layout sample_image ∅) as [fs' [rep|e|]] eqn:E;
    [|discriminate Hr|discriminate Hr].
  destruct (flush_then_load prog ∅ fs' [] sample_layout renamed_layout sample_image (replicate 8 0)
    Written Written rep ltac:(by vm_compute) (flushed_none prog) sample_flushable renamed_layout_ok
    ltac:(by vm_compute) E) as (m & corrupt & H1 & H2).
  exists fs', rep, m, corrupt. split; [reflexivity|]. split; [exact H1|exact H2].
Defined.

Definition sample_file : bytes := slot_file 1 sample_layout sample_image.

Lemma slot_damage_detected_witness :
  decode_slot (take 40 sample_file ++ [1; 2] ++ drop 42 sample_file) = Err Corrupt.
Proof.
  destruct (decode_slot (take 40 sample_file ++ slice sample_file 40 2 ++ drop 42 sample_file)) as [d| |] eqn:E;
    [|vm_compute in E; discriminate E|vm_compute in E; discriminate E].
  apply (slot_damage_detected (take 40 sample_file) (slice sample_file 40 2) [1; 2] (drop 42 sample_file) d).
  - apply (Forall_impl (fun b => (0 <=? b) && (b <? 256) = true)).
    + apply Forall_forall. intros b Hb. revert b Hb. apply Forall_forall. by vm_compute; repeat constructor.
    + intros b Hb. unfold byte_range. lia.
  - apply two_bytes_ok; unfold byte_range; lia.
  - reflexivity.
  - vm_compute. lia.
  - vm_compute. discriminate.
  - right. right. vm_compute. lia.
  - exact E.
Defined.
