(* ===== verification/RetainSnapshot.v ===== *)
(** * The retain snapshot buffer

    Crate [plc-retain], src/crates/plc-retain/src/snapshot.rs: the double buffer
    through which the scan thread hands retain images to the flusher, as two
    agents that take one atomic access at a time in any order. Accesses are
    sequentially consistent here; the memory orderings of the source are not
    modelled. [sequence] loads by the writer, its only writer, happen together
    with its next store. *)
From S2P Require Import Prelude.

Inductive WriterPc :=
  | WIdle
  | WCopy (image : bytes) (back : Z) (i : nat)
  | WSeq (next : Z).

Inductive ReaderPc :=
  | RIdle
  | RSeq (last : Z) (dst : bytes) (attempts : Z)
  | RSlot (last : Z) (dst : bytes) (attempts seq : Z)
  | RCopy (last : Z) (dst : bytes) (attempts seq slot : Z) (i : nat).

(** What a [read] returned; [clean] tells the sequence check from giving up. *)
Inductive ReadResult :=
  | NothingNew
  | ReadImage (clean : bool) (seq : Z) (dst : bytes).

(** [hist] is a history variable: the images whose slot was published, the first
    first; [results] are the reads that returned, the latest first. *)
Record Snap := mkSnap {
  slot0 : bytes; slot1 : bytes; size : nat; seq : Z; published : Z; last_take : Z;
  writer : WriterPc; reader : ReaderPc; results : list ReadResult; hist : list bytes }.

Definition new (size : nat) : Snap :=
  mkSnap (replicate size 0) (replicate size 0) size 0 0 0 WIdle RIdle [] [].

Definition slot_at (s : Snap) (k : Z) : bytes := if k =? 0 then slot0 s else slot1 s.

(** ** The writer *)

Definition set_byte (s : Snap) (back : Z) (i : nat) (b : Z) (w : WriterPc) : Snap :=
  mkSnap (if back =? 0 then <[i := b]> (slot0 s) else slot0 s)
    (if back =? 0 then slot1 s else <[i := b]> (slot1 s))
    (size s) (seq s) (published s) (last_take s) w (reader s) (results s) (hist s).

Definition set_writer (s : Snap) (w : WriterPc) : Snap :=
  mkSnap (slot0 s) (slot1 s) (size s) (seq s) (published s) (last_take s) w (reader s) (results s) (hist s).

(** One access of [publish]; [image] is the argument of a call that starts. *)
Definition writer_step (image : bytes) (s : Snap) : Snap :=
  match writer s with
  | WIdle => set_writer s (WCopy image (1 - Z.land (published s) 1) 0)
  | WCopy image back i =>
      if (i <? size s)%nat then set_byte s back i (nth i image 0) (WCopy image back (S i))
      else
        let next := Z.max (wrap_u 64 (seq s + 1)) 1 in
        mkSnap (slot0 s) (slot1 s) (size s) (seq s) back (last_take s) (WSeq next) (reader s)
          (results s) (hist s ++ [image])
  | WSeq next =>
      mkSnap (slot0 s) (slot1 s) (size s) next (published s) (last_take s) WIdle (reader s)
        (results s) (hist s)
  end.

(** ** The reader *)

Definition set_reader (s : Snap) (r : ReaderPc) : Snap :=
  mkSnap (slot0 s) (slot1 s) (size s) (seq s) (published s) (last_take s) (writer s) r (results s) (hist s).

Definition return_read (s : Snap) (last : Z) (r : ReadResult) : Snap :=
  mkSnap (slot0 s) (slot1 s) (size s) (seq s) (published s) last (writer s) RIdle
    (r :: results s) (hist s).

(** One access of [read]; [dst] is the argument of a call that starts. *)
Definition reader_step (dst : bytes) (s : Snap) : Snap :=
  match reader s with
  | RIdle => set_reader s (RSeq (last_take s) dst 0)
  | RSeq last dst attempts =>
      if (seq s =? 0) || (seq s =? last) then return_read s (last_take s) NothingNew
      else set_reader s (RSlot last dst attempts (seq s))
  | RSlot last dst attempts sq =>
      set_reader s (RCopy last dst attempts sq (Z.land (published s) 1) 0)
  | RCopy last dst attempts sq slot i =>
      if (i <? Nat.min (length dst) (size s))%nat then
        set_reader s (RCopy last (<[i := nth i (slot_at s slot) 0]> dst) attempts sq slot (S i))
      else
        let seq2 := seq s in
        if sq =? seq2 then return_read s sq (ReadImage true sq dst)
        else
          let attempts := attempts + 1 in
          if 8 <=? attempts then return_read s seq2 (ReadImage false seq2 dst)
          else set_reader s (RSeq last dst attempts)
  end.

(** ** Interleavings *)

Inductive Agent := Writer (image : bytes) | Reader (dst : bytes).

Definition step (a : Agent) (s : Snap) : Snap :=
  match a with
  | Writer image => writer_step image s
  | Reader dst => reader_step dst s
  end.

Definition run (schedule : list Agent) (s : Snap) : Snap := foldl (fun s a => step a s) s schedule.

(** ** The invariant *)

(** What [publish] makes of its argument. *)
Definition fit (n : nat) (image : bytes) : bytes := map (fun i => nth i image 0) (List.seq 0 n).

(** The [k]-th published image, from 1. *)
Definition image_no (s : Snap) (k : Z) : option bytes := hist s !! Z.to_nat (k - 1).

Definition holds (s : Snap) (k : Z) : Prop :=
  forall img, 1 <= k -> image_no s k = Some img -> slot_at s (k mod 2) = fit (size s) img.

(** [dst] agrees with an image as far as it was copied. *)
Definition copied (s : Snap) (i : nat) (dst : bytes) (sq k : Z) (img : bytes) : Prop :=
  (k = sq \/ k = sq + 1) /\ image_no s k = Some img /\
  take i dst = take i (fit (size s) img).

Definition writer_inv (s : Snap) : Prop :=
  match writer s with
  | WIdle => seq s = len (hist s) /\ holds s (len (hist s) - 1)
  | WCopy img back i => seq s = len (hist s) /\ back = (len (hist s) + 1) mod 2 /\ (i <= size s)%nat /\
      take i (slot_at s back) = take i (fit (size s) img)
  | WSeq next => next = len (hist s) /\ seq s = len (hist s) - 1 /\ 0 <= seq s /\ holds s (len (hist s) - 1)
  end.

Definition reader_inv (s : Snap) : Prop :=
  match reader s with
  | RIdle | RSeq _ _ _ => True
  | RSlot _ _ _ sq => 1 <= sq <= seq s
  | RCopy _ dst _ sq slot i => 1 <= sq <= seq s /\ (i <= Nat.min (length dst) (size s))%nat /\
      (sq = seq s -> exists k img, copied s i dst sq k img /\ slot = k mod 2)
  end.

Definition result_ok (s : Snap) (r : ReadResult) : Prop :=
  match r with
  | ReadImage true sq dst => 1 <= sq /\
      exists k img, copied s (Nat.min (length dst) (size s)) dst sq k img
  | _ => True
  end.

Record snap_inv (s : Snap) : Prop := {
  si_slot0 : length (slot0 s) = size s;
  si_slot1 : length (slot1 s) = size s;
  si_published : published s = len (hist s) mod 2;
  si_front : holds s (len (hist s));
  si_writer : writer_inv s;
  si_reader : reader_inv s;
  si_results : Forall (result_ok s) (results s) }.

Lemma land1 x : Z.land x 1 = x mod 2.
Proof. change 1 with (2 ^ 1 - 1). by rewrite land_mask. Qed.

Lemma image_no_last s : image_no s (len (hist s)) = last (hist s).
Proof. unfold image_no, len. rewrite last_lookup. f_equal. lia. Qed.

Lemma new_inv n : snap_inv (new n).
Proof.
  split; cbn; try done; try apply length_replicate.
Qed.

Lemma image_no_lt s k img : 1 <= k -> image_no s k = Some img -> k <= len (hist s).
Proof. intros Hk H. unfold image_no in H. apply lookup_lt_Some in H. unfold len. lia. Qed.

(** While the sequence has not moved, the image being read is in place. *)
Lemma stable s k img :
  snap_inv s -> (k = seq s \/ k = seq s + 1) -> 1 <= k -> image_no s k = Some img ->
  slot_at s (k mod 2) = fit (size s) img.
Proof.
  intros [_ _ _ Hf Hw _ _] Hk H1 Hi. pose proof (image_no_lt _ _ _ H1 Hi) as Hle.
  unfold writer_inv in Hw. destruct (writer s).
  - destruct Hw as [Hs _]. assert (k = len (hist s)) as -> by lia. by apply Hf.
  - destruct Hw as [Hs _]. assert (k = len (hist s)) as -> by lia. by apply Hf.
  - destruct Hw as (_ & Hs & _ & Hp). destruct Hk as [-> | ->].
    + rewrite Hs in *. by apply Hp.
    + assert (seq s + 1 = len (hist s)) as He by lia. rewrite He in *. by apply Hf.
Qed.

Lemma length_fit n (img : bytes) : length (fit n img) = n.
Proof. unfold fit. by rewrite length_map, length_seq. Qed.

Lemma fit_lookup n (img : bytes) (i : nat) : (i < n)%nat -> fit n img !! i = Some (nth i img 0).
Proof.
  intros Hi. unfold fit. rewrite list_lookup_fmap, lookup_seq_lt by done. done.
Qed.

(** Copying one more byte. *)
Lemma take_insert_S (l k : bytes) (i : nat) b :
  (i < length l)%nat -> k !! i = Some b -> take i l = take i k ->
  take (S i) (<[i := b]> l) = take (S i) k.
Proof.
  intros Hi Hb Ht. rewrite (take_S_r k i b Hb).
  rewrite (take_S_r (<[i := b]> l) i b) by (by apply list_lookup_insert_eq).
  by rewrite take_insert_ge by lia; rewrite Ht.
Qed.

(** ** Steps preserve it *)

(** Published images are never forgotten. *)
Definition extends (s s' : Snap) : Prop :=
  size s' = size s /\ forall k img, image_no s k = Some img -> image_no s' k = Some img.

Lemma copied_extends s s' i dst sq k img :
  extends s s' -> copied s i dst sq k img -> copied s' i dst sq k img.
Proof. intros [Hs He] (H1 & H2 & H3). split; [done|]. split; [auto|]. by rewrite Hs. Qed.

Lemma results_extend s s' rs :
  extends s s' -> Forall (result_ok s) rs -> Forall (result_ok s') rs.
Proof.
  intros He Hrs. eapply Forall_impl; [exact Hrs|]. intros [|[] sq dst]; cbn; try done.
  intros (H1 & k & img & Hc). split; [done|]. exists k, img. rewrite (proj1 He).
  by eapply copied_extends.
Qed.

Lemma reader_extends s s' :
  extends s s' -> reader s' = reader s -> seq s <= seq s' ->
  (forall last dst att sq slot i, reader s = RCopy last dst att sq slot i -> sq = seq s' -> seq s = seq s') ->
  reader_inv s -> reader_inv s'.
Proof.
  intros He Hr Hle Hmove Hi. unfold reader_inv in *. rewrite Hr, (proj1 He).
  destruct (reader s) as [| |l d a sq|l d a sq sl i]; try done; [lia|].
  destruct Hi as (H1 & H2 & H3). split; [lia|]. split; [done|]. intros Hsq.
  destruct H3 as (k & img & Hc & Hk); [by rewrite (Hmove _ _ _ _ _ _ eq_refl Hsq)|].
  exists k, img. split; [by eapply copied_extends|done].
Qed.

Lemma same_hist_extends s s' : size s' = size s -> hist s' = hist s -> extends s s'.
Proof. intros H1 H2. split; [done|]. intros k img. unfold image_no. by rewrite H2. Qed.

Lemma mod2_cases x : 0 <= x -> x mod 2 = 0 /\ (x + 1) mod 2 = 1 \/ x mod 2 = 1 /\ (x + 1) mod 2 = 0.
Proof.
  intros Hx. pose proof (Z.mod_pos_bound x 2 ltac:(lia)).
  rewrite <-Z.add_mod_idemp_l by lia. assert (x mod 2 = 0 \/ x mod 2 = 1) as [-> | ->] by lia; auto.
Qed.

Lemma start_copy_inv s image :
  snap_inv s -> writer s = WIdle -> snap_inv (writer_step image s).
Proof.
  intros [H1 H2 H3 H4 H5 H6 H7] Hw. unfold writer_step. rewrite Hw.
  unfold writer_inv in H5. rewrite Hw in H5. destruct H5 as [Hs _].
  split; cbn; try done.
  split; [done|]. split; [|split; [lia|done]].
  rewrite land1, H3, Z.mod_mod by lia. destruct (mod2_cases (len (hist s)) (len_nonneg _)); lia.
Qed.

Lemma copy_byte_inv s image img back i :
  snap_inv s -> writer s = WCopy img back i -> (i < size s)%nat -> snap_inv (writer_step image s).
Proof.
  intros [H1 H2 H3 H4 H5 H6 H7] Hw Hi. unfold writer_step. rewrite Hw.
  unfold writer_inv in H5. rewrite Hw in H5. destruct H5 as (Hs & Hb & _ & Ht).
  rewrite (proj2 (Nat.ltb_lt _ _) Hi).
  assert (Hn : take (S i) (<[i := nth i img 0]> (slot_at s back)) = take (S i) (fit (size s) img)).
  { apply take_insert_S; [|by apply fit_lookup|done]. unfold slot_at. case_match; lia. }
  split; cbn.
  - case_match; [by rewrite length_insert|done].
  - case_match; [done|by rewrite length_insert].
  - done.
  - intros im Hk Him. etrans; [|exact (H4 im Hk Him)]. unfold slot_at. cbn.
    destruct (mod2_cases (len (hist s)) (len_nonneg _)) as [[E1 E2]|[E1 E2]];
      rewrite Hb, E1, E2; done.
  - split; [done|]. split; [done|]. split; [lia|].
    unfold slot_at in *. cbn. destruct (back =? 0); done.
  - exact H6.
  - exact H7.
Qed.

Lemma publish_inv s image img back i :
  snap_inv s -> writer s = WCopy img back i -> (size s <= i)%nat -> len (hist s) + 1 < 2 ^ 64 ->
  snap_inv (writer_step image s).
Proof.
  intros [H1 H2 H3 H4 H5 H6 H7] Hw Hi Hmax. unfold writer_step. rewrite Hw.
  unfold writer_inv in H5. rewrite Hw in H5. destruct H5 as (Hs & Hb & Hi' & Ht).
  rewrite (proj2 (Nat.ltb_ge _ _) Hi). set (s' := mkSnap _ _ _ _ _ _ _ _ _ _).
  assert (Hlen : len (hist s') = len (hist s) + 1) by (cbn; by rewrite len_app).
  pose proof (len_nonneg (hist s)) as Hpos.
  assert (He : extends s s').
  { split; [done|]. intros k im Hk. unfold image_no in *. cbn. by apply lookup_app_l_Some. }
  assert (Hold : forall k, 1 <= k <= len (hist s) -> image_no s' k = image_no s k).
  { intros k Hk. unfold image_no. cbn. apply lookup_app_l. unfold len in Hk. lia. }
  split; try done.
  - rewrite Hlen. exact Hb.
  - rewrite Hlen. intros im _ Him. rewrite <-Hlen, image_no_last in Him. cbn in Him.
    rewrite last_snoc in Him. injection Him as <-. rewrite <-Hb. change (slot_at s' back) with (slot_at s back).
    rewrite !take_ge in Ht; [done|rewrite length_fit; lia|]. unfold slot_at. case_match; lia.
  - cbn [writer_inv s' writer]. unfold writer_inv. cbn [writer s']. rewrite Hlen. split.
    + rewrite Hs, wrap_u_small by (unfold u_range; lia). lia.
    + split; [cbn; lia|]. split; [cbn; lia|]. replace (len (hist s) + 1 - 1) with (len (hist s)) by lia.
      intros im Hk Him. rewrite Hold in Him by lia. exact (H4 im Hk Him).
  - eapply reader_extends, H6; done.
  - by eapply results_extend, H7.
Qed.

Lemma store_seq_inv s image next :
  snap_inv s -> writer s = WSeq next -> snap_inv (writer_step image s).
Proof.
  intros [H1 H2 H3 H4 H5 H6 H7] Hw. unfold writer_step. rewrite Hw.
  unfold writer_inv in H5. rewrite Hw in H5. destruct H5 as (Hn & Hs & _ & Hp).
  split; cbn; try done.
  apply (reader_extends s); [by apply same_hist_extends|done|cbn; lia| |done].
  intros l d a sq sl i Hr ->. unfold reader_inv in H6. rewrite Hr in H6. cbn in H6. lia.
Qed.

Lemma writer_step_inv image s :
  snap_inv s -> len (hist s) + 1 < 2 ^ 64 -> snap_inv (writer_step image s).
Proof.
  intros H Hmax. destruct (writer s) as [|img back i|next] eqn:Hw.
  - by apply start_copy_inv.
  - destruct (decide (i < size s)%nat); [by eapply copy_byte_inv|eapply publish_inv; [done|done|lia|done]].
  - by eapply store_seq_inv.
Qed.

Lemma seq_nonneg s : snap_inv s -> 0 <= seq s.
Proof.
  intros [_ _ _ _ H _ _]. pose proof (len_nonneg (hist s)). unfold writer_inv in H.
  destruct (writer s); lia.
Qed.

(** What the reader finds published belongs to the current sequence. *)
Lemma published_current s :
  snap_inv s -> 1 <= seq s ->
  exists k img, (k = seq s \/ k = seq s + 1) /\ image_no s k = Some img /\ published s = k mod 2.
Proof.
  intros [_ _ H3 _ H5 _ _] Hs. pose proof (len_nonneg (hist s)) as Hpos.
  assert (Hlen : len (hist s) = seq s \/ len (hist s) = seq s + 1)
    by (unfold writer_inv in H5; destruct (writer s); lia).
  exists (len (hist s)). rewrite image_no_last.
  destruct (last (hist s)) as [img|] eqn:El; [exists img; naive_solver|].
  apply last_None in El. rewrite El in Hlen. unfold len in Hlen. cbn in Hlen. lia.
Qed.

Lemma reader_step_inv dst s : snap_inv s -> snap_inv (reader_step dst s).
Proof.
  intros H. pose proof H as [H1 H2 H3 H4 H5 H6 H7]. unfold reader_step.
  unfold reader_inv in H6. destruct (reader s) as [|l d a|l d a sq|l d a sq sl i] eqn:Hr.
  - by split.
  - pose proof (seq_nonneg s H). destruct (Z.eqb_spec (seq s) 0) as [|Hz]; cbn [orb].
    + split; try done. by constructor.
    + destruct (seq s =? l); [split; try done; by constructor|]. split; try done. cbn. lia.
  - split; try done. cbn. split; [done|]. split; [lia|]. intros Hsq.
    destruct (published_current s H) as (k & img & Hk & Hi & Hp); [lia|]. exists k, img.
    split; [split; [lia|done]|]. by rewrite land1, Hp, Z.mod_mod.
  - destruct H6 as (Hsq & Hi & Hc). destruct (Nat.ltb_spec i (Nat.min (length d) (size s))) as [Hlt|Hge].
    + split; try done. cbn. split; [done|]. rewrite length_insert. split; [lia|]. intros He.
      destruct (Hc He) as (k & img & (Hk & Him & Ht) & Hsl). exists k, img. split; [|done].
      split; [done|]. split; [done|]. apply take_insert_S; [lia| |done].
      assert (Hsz : (i < size s)%nat) by lia. pose proof (fit_lookup (size s) img i Hsz) as Hf.
      etrans; [exact Hf|]. f_equal. symmetry. apply nth_lookup_Some.
      rewrite Hsl, (stable s k img); [exact Hf|done|lia|lia|done].
    + assert (i = Nat.min (length d) (size s)) as -> by lia.
      destruct (Z.eqb_spec sq (seq s)) as [He|].
      * split; try done. constructor; [|done]. cbn. split; [lia|].
        destruct (Hc He) as (k & img & Hk & _). by exists k, img.
      * case_match; split; try done. by constructor.
Qed.

Lemma step_inv a s : snap_inv s -> len (hist s) + 1 < 2 ^ 64 -> snap_inv (step a s).
Proof. destruct a; cbn [step]; intros; [by apply writer_step_inv|by apply reader_step_inv]. Qed.

Lemma step_hist a s : len (hist s) <= len (hist (step a s)) <= len (hist s) + 1.
Proof.
  assert (forall x : bytes, len [x] = 1) as H1 by done.
  destruct a; cbn [step]; unfold writer_step, reader_step; repeat case_match; cbn [hist set_writer
    set_byte set_reader return_read]; rewrite ?len_app, ?H1; lia.
Qed.

Lemma snap_run_inv schedule s :
  snap_inv s -> len (hist s) + len schedule < 2 ^ 64 -> snap_inv (run schedule s).
Proof.
  unfold run. revert s. induction schedule as [|a l IH]; intros s Hs Hlen; cbn [foldl]; [done|].
  assert (len (a :: l) = 1 + len l) as Hc by (unfold len; cbn [length]; lia).
  pose proof (len_nonneg l). pose proof (step_hist a s). apply IH; [apply step_inv; [done|lia]|lia].
Qed.

(** ** Properties *)

(** C31: the seqlock. However the accesses of the scan thread's [publish] calls
    and of the flusher's [read] calls interleave, a read that passes its sequence
    check returns, in full and unmixed, an image that was published as that
    sequence number or as the next one (at most 2^64 accesses). *)
Theorem clean_reads_whole (n : nat) (schedule : list Agent) (sq : Z) (dst : bytes)
    (Hlen : len schedule < 2 ^ 64)
    (Hread : ReadImage true sq dst ∈ results (run schedule (new n))) :
  exists k img, (k = sq \/ k = sq + 1) /\ 1 <= k /\
    image_no (run schedule (new n)) k = Some img /\
    take (Nat.min (length dst) n) dst = take (Nat.min (length dst) n) (fit n img).
Proof.
  assert (Hs : size (run schedule (new n)) = n).
  { unfold run. clear. change n with (size (new n)) at 2. generalize (new n).
    induction schedule as [|a l IH]; intros s; cbn [foldl]; [done|]. rewrite IH.
    destruct a; cbn [step]; unfold writer_step, reader_step; by repeat case_match. }
  pose proof (snap_run_inv schedule (new n) (new_inv n) ltac:(unfold len at 1; cbn; lia)) as [_ _ _ _ _ _ Hr].
  rewrite Forall_forall in Hr. destruct (Hr _ Hread) as (H1 & k & img & Hk & Hi & Ht).
  rewrite Hs in Ht. exists k, img. split; [done|]. split; [lia|]. done.
Qed.

(** [n] turns of one agent. *)
Definition turns (n : nat) (a : Agent) : list Agent := replicate n a.

(** A whole [publish] of a two-byte image, and a read it overtakes. *)
Definition publish2 (b : Z) : list Agent := turns 5 (Writer [b; b]).

(** A read of two bytes: its start, then attempts that copy one byte before a
    publish and one byte after it. *)
Definition overtaken (b : Z) : list Agent :=
  turns 3 (Reader [0; 0]) ++ publish2 b ++ publish2 (b + 1) ++ turns 2 (Reader [0; 0]).

Definition torn_schedule : list Agent :=
  publish2 1 ++ turns 1 (Reader [0; 0]) ++
  concat (map overtaken [2; 4; 6; 8; 10; 12; 14; 16]).

(** Giving up. A read overtaken by the writer in each of its eight attempts
    returns a success although its bytes mix two images, neither of which it was
    ever published as a whole. *)
Lemma exhausted_read_torn :
  results (run torn_schedule (new 2)) = [ReadImage false 17 [15; 17]] /\
  [15; 17] ∉ hist (run torn_schedule (new 2)).
Proof. split; [by vm_compute|]. apply (bool_decide_unpack _). by vm_compute. Qed.

(** ** Witness *)

Definition quiet_schedule : list Agent := publish2 7 ++ turns 6 (Reader [0; 0]).

Lemma clean_reads_whole_witness :
  exists k img, image_no (run quiet_schedule (new 2)) k = Some img /\ [7; 7] = take 2 (fit 2 img).
Proof.
  destruct (clean_reads_whole 2 quiet_schedule 1 [7; 7] ltac:(by vm_compute)
    ltac:(vm_compute; left)) as (k & img & _ & _ & H1 & H2).
  exists k, img. split; [exact H1|exact H2].
Defined.
