(* ===== verification/VmExec.v ===== *)
(** * The interpreter core

    Crate [plc-vm], src/crates/plc-vm/src/exec.rs: the armed machine, one
    instruction ([step]), the run loop ([run_at]) and the accessors the scan
    engine uses. Methods taking [&mut self] are computations of the state and
    error monad, so what a failing instruction has already changed is kept.
    Program counters are [usize] values, the stack and frame pointers [nat]. *)
From S2P Require Import Prelude Float32 IrTypes IrEncode RetainLayout.
From S2P Require Import FbDispatch VmValue VmMemory.

Definition MAX_STACK : nat := 256.
Definition MAX_CALL_DEPTH : nat := 32.

Inductive ExecResult := Halted | Returned.

Record Frame := mkFrame { return_pc : Z; fr_data_base : Z }.

Record Vm := mkVm {
  v_code : bytes;
  v_const_data : bytes;
  v_data : ByteSegment;
  v_retain : ByteSegment;
  v_inputs : SlotImage;
  v_outputs : SlotImage;
  v_entries : list (bytes * Z * bool);
  v_user_fb_pc : list (option Z);
  v_primitives : PrimitiveStore;
  v_stack : list VmValue;
  v_sp : nat;
  v_frames : list Frame;
  v_fp : nat;
  v_data_base : Z;
  v_instruction_budget : Z;
  v_div0_count : Z;
  v_retain_dirty : bool;
  v_first_scan : bool }.

(** ** Field updates *)

Definition set_data (x : ByteSegment) (s : Vm) : Vm :=
  mkVm (v_code s) (v_const_data s) x (v_retain s) (v_inputs s) (v_outputs s) (v_entries s)
    (v_user_fb_pc s) (v_primitives s) (v_stack s) (v_sp s) (v_frames s) (v_fp s) (v_data_base s)
    (v_instruction_budget s) (v_div0_count s) (v_retain_dirty s) (v_first_scan s).
Definition set_retain (x : ByteSegment) (s : Vm) : Vm :=
  mkVm (v_code s) (v_const_data s) (v_data s) x (v_inputs s) (v_outputs s) (v_entries s)
    (v_user_fb_pc s) (v_primitives s) (v_stack s) (v_sp s) (v_frames s) (v_fp s) (v_data_base s)
    (v_instruction_budget s) (v_div0_count s) (v_retain_dirty s) (v_first_scan s).
Definition set_inputs (x : SlotImage) (s : Vm) : Vm :=
  mkVm (v_code s) (v_const_data s) (v_data s) (v_retain s) x (v_outputs s) (v_entries s)
    (v_user_fb_pc s) (v_primitives s) (v_stack s) (v_sp s) (v_frames s) (v_fp s) (v_data_base s)
    (v_instruction_budget s) (v_div0_count s) (v_retain_dirty s) (v_first_scan s).
Definition set_outputs (x : SlotImage) (s : Vm) : Vm :=
  mkVm (v_code s) (v_const_data s) (v_data s) (v_retain s) (v_inputs s) x (v_entries s)
    (v_user_fb_pc s) (v_primitives s) (v_stack s) (v_sp s) (v_frames s) (v_fp s) (v_data_base s)
    (v_instruction_budget s) (v_div0_count s) (v_retain_dirty s) (v_first_scan s).
Definition set_primitives (x : PrimitiveStore) (s : Vm) : Vm :=
  mkVm (v_code s) (v_const_data s) (v_data s) (v_retain s) (v_inputs s) (v_outputs s)
    (v_entries s) (v_user_fb_pc s) x (v_stack s) (v_sp s) (v_frames s) (v_fp s) (v_data_base s)
    (v_instruction_budget s) (v_div0_count s) (v_retain_dirty s) (v_first_scan s).
Definition set_stack (x : list VmValue) (sp : nat) (s : Vm) : Vm :=
  mkVm (v_code s) (v_const_data s) (v_data s) (v_retain s) (v_inputs s) (v_outputs s)
    (v_entries s) (v_user_fb_pc s) (v_primitives s) x sp (v_frames s) (v_fp s) (v_data_base s)
    (v_instruction_budget s) (v_div0_count s) (v_retain_dirty s) (v_first_scan s).
Definition set_frames (x : list Frame) (fp : nat) (data_base : Z) (s : Vm) : Vm :=
  mkVm (v_code s) (v_const_data s) (v_data s) (v_retain s) (v_inputs s) (v_outputs s)
    (v_entries s) (v_user_fb_pc s) (v_primitives s) (v_stack s) (v_sp s) x fp data_base
    (v_instruction_budget s) (v_div0_count s) (v_retain_dirty s) (v_first_scan s).
Definition set_div0_count (x : Z) (s : Vm) : Vm :=
  mkVm (v_code s) (v_const_data s) (v_data s) (v_retain s) (v_inputs s) (v_outputs s)
    (v_entries s) (v_user_fb_pc s) (v_primitives s) (v_stack s) (v_sp s) (v_frames s) (v_fp s)
    (v_data_base s) (v_instruction_budget s) x (v_retain_dirty s) (v_first_scan s).
Definition set_retain_dirty (x : bool) (s : Vm) : Vm :=
  mkVm (v_code s) (v_const_data s) (v_data s) (v_retain s) (v_inputs s) (v_outputs s)
    (v_entries s) (v_user_fb_pc s) (v_primitives s) (v_stack s) (v_sp s) (v_frames s) (v_fp s)
    (v_data_base s) (v_instruction_budget s) (v_div0_count s) x (v_first_scan s).
Definition set_first_scan (x : bool) (s : Vm) : Vm :=
  mkVm (v_code s) (v_const_data s) (v_data s) (v_retain s) (v_inputs s) (v_outputs s)
    (v_entries s) (v_user_fb_pc s) (v_primitives s) (v_stack s) (v_sp s) (v_frames s) (v_fp s)
    (v_data_base s) (v_instruction_budget s) (v_div0_count s) (v_retain_dirty s) x.

(** ** The operand stack *)

Definition push (v : VmValue) (pc : Z) : M Vm VmError unit := fun s =>
  if (MAX_STACK <=? v_sp s)%nat then (s, Err (EStackOverflow pc))
  else (set_stack (<[v_sp s := v]> (v_stack s)) (S (v_sp s)) s, Ok tt).

Definition pop (pc : Z) : M Vm VmError VmValue := fun s =>
  match v_sp s with
  | O => (s, Err (EStackUnderflow pc))
  | S sp => (set_stack (v_stack s) sp s, index (v_stack s) sp)
  end.

(** A method of a field that returns the field's new value. *)
Definition update_field {X} (get : Vm -> X) (set : X -> Vm -> Vm) (f : X -> res VmError X) :
    M Vm VmError unit := fun s =>
  match f (get s) with
  | Ok x => (set x s, Ok tt)
  | Err e => (s, Err e)
  | Panic => (s, Panic)
  end.

(** ** Primitive calls *)

Definition prim_error (e : PrimitiveCallError) : string :=
  match e with
  | BadInstance => "BadInstance"
  | Arity _ _ => "Arity"
  | PTypeMismatch => "TypeMismatch"
  end.

Fixpoint pop_inputs (n : nat) (pc : Z) (inputs : list StackValue) : M Vm VmError (list StackValue) :=
  match n with
  | O => mret inputs
  | S n => v ← pop pc; pop_inputs n pc (Val.to_stack_value v :: inputs)
  end.

Definition is_timer (id : PrimitiveId) : bool :=
  match id with PTon | PTof | PTp => true | _ => false end.

(** The [for i in (0..count).rev()] loop. *)
Fixpoint push_outputs (id : PrimitiveId) (values : list StackValue) (count : nat) (pc : Z) :
    M Vm VmError unit :=
  match count with
  | O => mret tt
  | S i =>
      let prefer_time := is_timer id && (i =? 1)%nat in
      v ← m_lift (index values i);
      push (Val.from_stack_value v prefer_time) pc ;;
      push_outputs id values i pc
  end.

Section Exec.
Context `{NanRule} (now_ms : Z).

Definition call_prim (fb_id : Z) (instance : nat) (pc : Z) : M Vm VmError unit :=
  match Prim.of_fb_id fb_id with
  | None => m_err (EPrimitive pc "unknown primitive id")
  | Some id =>
      inputs ← pop_inputs (Prim.input_count id) pc [];
      out ← (fun s =>
        let '(store, r) := call_primitive id instance inputs now_ms (v_primitives s) in
        (set_primitives store s, map_err (fun e => EPrimitive pc (prim_error e)) r));
      push_outputs id (values out) (Z.to_nat (count out)) pc
  end.

(** [self.binop], which takes [&mut self] for its diagnostic counter. *)
Definition vm_binop (op : Opcode) (a b : VmValue) (pc : Z) : M Vm VmError VmValue := fun s =>
  let '(d, r) := binop op a b pc (v_div0_count s) in (set_div0_count d s, r).

(** Where a data or retain instruction lands. *)
Definition seg_offset (s : Vm) (payload : Z) : Z := sat_add_u 32 (v_data_base s) payload.

(** ** One instruction *)

(** The next program counter, or the end of the run. *)
Definition exec_simple (op : Opcode) (payload size pc : Z) : M Vm VmError (Z + ExecResult) :=
  match op with
  | Nop => mret (inl (pc + size))
  | Halt => mret (inr Halted)
  | Ret =>
      s ← m_get;
      match v_fp s with
      | O => mret (inr Returned)
      | S fp =>
          frame ← m_lift (index (v_frames s) fp);
          data_base ← match fp with
                      | O => mret 0
                      | S fp => f ← m_lift (index (v_frames s) fp); mret (fr_data_base f)
                      end;
          m_modify (set_frames (v_frames s) fp data_base) ;;
          mret (inl (return_pc frame))
      end
  | PushIBool => push (VBool (negb (payload =? 0))) pc ;; mret (inl (pc + size))
  | LdData =>
      s ← m_get;
      v ← m_lift (Seg.load (v_data s) (seg_offset s payload) pc);
      push v pc ;; mret (inl (pc + size))
  | StData =>
      v ← pop pc;
      s ← m_get;
      update_field v_data set_data (fun d => Seg.store d (seg_offset s payload) v pc) ;;
      mret (inl (pc + size))
  | LdRetain =>
      s ← m_get;
      v ← m_lift (Seg.load (v_retain s) (seg_offset s payload) pc);
      push v pc ;; mret (inl (pc + size))
  | StRetain =>
      v ← pop pc;
      s ← m_get;
      update_field v_retain set_retain (fun d => Seg.store d (seg_offset s payload) v pc) ;;
      m_modify (set_retain_dirty true) ;;
      mret (inl (pc + size))
  | LdI =>
      s ← m_get;
      v ← m_lift (Slots.get (v_inputs s) payload pc);
      push v pc ;; mret (inl (pc + size))
  | StQ =>
      v ← pop pc;
      update_field v_outputs set_outputs (fun o => Slots.set o payload v pc) ;;
      mret (inl (pc + size))
  | LdQ =>
      s ← m_get;
      v ← m_lift (Slots.get (v_outputs s) payload pc);
      push v pc ;; mret (inl (pc + size))
  | LdIq =>
      s ← m_get;
      g ← m_lift (Slots.quality_good (v_inputs s) payload pc);
      push (VBool g) pc ;; mret (inl (pc + size))
  | Add | Sub | Mul | Div | And | Or | Xor | Eq | Ne | Lt | Le | Gt | Ge =>
      b ← pop pc;
      a ← pop pc;
      r ← vm_binop op a b pc;
      push r pc ;; mret (inl (pc + size))
  | Neg | Not =>
      a ← pop pc;
      r ← m_lift (unary_op op a pc);
      push r pc ;; mret (inl (pc + size))
  | Jmp => mret (inl payload)
  | JmpIf =>
      c ← pop pc;
      mret (inl (if Val.as_bool c then payload else pc + size))
  | JmpIfNot =>
      c ← pop pc;
      mret (inl (if negb (Val.as_bool c) then payload else pc + size))
  | Conv =>
      a ← pop pc;
      ty ← m_lift (ok_or (IrTy.from_u8 (wrap_u 8 payload)) (EType pc "bad CONV tag"));
      push (Val.convert a ty) pc ;; mret (inl (pc + size))
  | PushIDint | PushIReal | PushTime | CallFb => m_err (EDecode pc "expected wide form")
  end.

Definition exec_wide (op : Opcode) (imm size pc : Z) : M Vm VmError (Z + ExecResult) :=
  match op with
  | PushIDint => push (VDint (wrap_s 32 imm)) pc ;; mret (inl (pc + size))
  | PushIReal => push (VReal imm) pc ;; mret (inl (pc + size))
  | PushTime => push (VTime (wrap_s 32 imm)) pc ;; mret (inl (pc + size))
  | _ => m_err (EDecode pc "unexpected WithImm32")
  end.

(** [self.user_fb_pc.get(fb_id).copied().flatten()]. *)
Definition user_fb_entry (s : Vm) (fb_id : Z) : option Z :=
  mjoin (v_user_fb_pc s !! Z.to_nat fb_id).

Definition exec_call (fb_kind fb_id instance_base size pc : Z) : M Vm VmError (Z + ExecResult) :=
  if fb_kind =? 0 then
    call_prim fb_id (Z.to_nat instance_base) pc ;; mret (inl (pc + size))
  else
    s ← m_get;
    entry ← m_lift (ok_or (user_fb_entry s fb_id) (EUnknownUserFb fb_id));
    if (MAX_CALL_DEPTH <=? v_fp s)%nat then m_err (ECallDepth pc)
    else
      m_modify (set_frames (<[v_fp s := mkFrame (pc + size) instance_base]> (v_frames s))
                  (S (v_fp s)) instance_base) ;;
      mret (inl entry).

Definition exec_instr (instr : DecodedInstr) (size pc : Z) : M Vm VmError (Z + ExecResult) :=
  match instr with
  | Simple op payload => exec_simple op payload size pc
  | WithImm32 op _ imm => exec_wide op imm size pc
  | ICallFb fb_kind fb_id base => exec_call fb_kind fb_id base size pc
  end.

Definition step (pc : Z) : M Vm VmError (Z + ExecResult) :=
  s ← m_get;
  '(instr, size) ← m_lift (map_err (fun _ => EDecode pc "decode")
                                   (decode_instruction (v_code s) pc));
  exec_instr instr size pc.

(** ** Runs *)

(** The [loop] of [run_at]; [None] stands for running out of [fuel]. *)
Fixpoint run_loop (fuel : nat) (steps pc : Z) (s : Vm) : option (Vm * res VmError ExecResult) :=
  match fuel with
  | O => None
  | S fuel =>
      let steps := steps + 1 in
      if v_instruction_budget s <? steps then Some (s, Err (EBudget (v_instruction_budget s)))
      else
        match step pc s with
        | (s, Ok (inl pc)) => run_loop fuel steps pc s
        | (s, Ok (inr r)) => Some (s, Ok r)
        | (s, Err e) => Some (s, Err e)
        | (s, Panic) => Some (s, Panic)
        end
  end.

(** The state a run starts from. *)
Definition fresh_run (s : Vm) : Vm :=
  set_outputs (Slots.clear_written (v_outputs s))
    (set_frames (v_frames s) 0 0 (set_stack (v_stack s) 0 s)).

Definition run_fuel (s : Vm) : nat := S (Z.to_nat (v_instruction_budget s)).

Definition run_at (start_pc : Z) (s : Vm) : option (Vm * res VmError ExecResult) :=
  run_loop (run_fuel s) 0 start_pc (fresh_run s).

Definition entry_pc (s : Vm) (name : bytes) : res VmError Z :=
  match find (fun e => bool_decide (e.1.1 = name)) (v_entries s) with
  | Some e => Ok e.1.2
  | None => Err (EUnknownEntry name)
  end.

Definition run_entry (name : bytes) (s : Vm) : option (Vm * res VmError ExecResult) :=
  match entry_pc s name with
  | Ok pc => run_at pc s
  | Err e => Some (s, Err e)
  | Panic => Some (s, Panic)
  end.
End Exec.

(** ** Arm-time operations *)

Definition cold_reset_non_retain (s : Vm) : Vm :=
  set_div0_count 0
    (set_frames (v_frames s) 0 0
      (set_stack (v_stack s) 0
        (set_primitives (cold_reset_all (v_primitives s))
          (set_outputs (Slots.fill_bool_false (v_outputs s))
            (set_data (Seg.fill_zero (v_data s)) s))))).

Definition clear_retain_dirty (s : Vm) : Vm := set_retain_dirty false s.

Definition blit_retain_from (dst : Z) (src : Vm) (src_off n : Z) : M Vm VmError unit :=
  update_field v_retain set_retain (fun r => Seg.blit_from r dst (v_retain src) src_off n).

(** The loop of [load_retain_image] over the layout's symbols. *)
Fixpoint load_symbols (image : bytes) (syms : list RetainSymbol) : M Vm VmError unit :=
  match syms with
  | [] => mret tt
  | sym :: syms =>
      let off := sym_offset sym in
      let width := sym_width sym in
      let end_ := sat_add_u 64 off width in
      if len image <? end_ then m_err (EBounds 0 "retain symbol OOB")
      else
        v ← m_lift (Val.from_le_bytes (sym_ty sym) (zslice image off width));
        update_field v_retain set_retain (fun r => Seg.store r off v 0) ;;
        load_symbols image syms
  end.

Definition load_retain_image (image : bytes) (layout : RetainLayout) : M Vm VmError unit :=
  s ← m_get;
  if negb (len image =? Seg.size (v_retain s)) then m_err (EBounds 0 "retain image != segment")
  else if negb (l_retain_size layout =? len image) then
    m_err (EBounds 0 "retain layout size != image")
  else load_symbols image (l_symbols layout).
