(* ===== verification/VmInv.v ===== *)
(** * Machine invariants

    The well-formedness of an armed machine, that every instruction and every
    run keep it (errors included), what a run leaves alone, when a run panics,
    and that a run always ends within its instruction budget. *)
From S2P Require Import Prelude Float32 IrTypes IrEncode RetainLayout.
From S2P Require Import FbDispatch VmValue VmMemory VmExec.

Definition frame_ok (f : Frame) : Prop := 0 <= return_pc f /\ u_range 32 (fr_data_base f).

Section Inv.
Context `{NanRule}.

Record vm_ok (s : Vm) : Prop := {
  ok_code : bytes_ok (v_code s);
  ok_data : Seg.ok (v_data s);
  ok_retain : Seg.ok (v_retain s);
  ok_inputs : Slots.ok (v_inputs s);
  ok_outputs : Slots.ok (v_outputs s);
  ok_entries : Forall (fun e => u_range 32 e.1.2) (v_entries s);
  ok_user_fb : Forall (fun o => match o with Some pc => u_range 32 pc | None => True end)
                      (v_user_fb_pc s);
  ok_primitives : store_ok (v_primitives s);
  ok_stack_len : length (v_stack s) = MAX_STACK;
  ok_stack : Forall Val.ok (v_stack s);
  ok_sp : (v_sp s <= MAX_STACK)%nat;
  ok_frames_len : length (v_frames s) = MAX_CALL_DEPTH;
  ok_frames : Forall frame_ok (v_frames s);
  ok_fp : (v_fp s <= MAX_CALL_DEPTH)%nat;
  ok_data_base : u_range 32 (v_data_base s);
  ok_budget : u_range 64 (v_instruction_budget s);
  ok_div0 : u_range 32 (v_div0_count s) }.

(** What running cannot change: the program, its entries, the input image, the
    budget, and the sizes of the segments and of the output image. *)
Record frozen (s s' : Vm) : Prop := {
  fz_code : v_code s' = v_code s;
  fz_const : v_const_data s' = v_const_data s;
  fz_inputs : v_inputs s' = v_inputs s;
  fz_entries : v_entries s' = v_entries s;
  fz_user_fb : v_user_fb_pc s' = v_user_fb_pc s;
  fz_budget : v_instruction_budget s' = v_instruction_budget s;
  fz_first_scan : v_first_scan s' = v_first_scan s;
  fz_data : Seg.size (v_data s') = Seg.size (v_data s);
  fz_retain : Seg.size (v_retain s') = Seg.size (v_retain s);
  fz_outputs : Slots.size (v_outputs s') = Slots.size (v_outputs s) }.

#[export] Instance frozen_pre : PreOrder frozen.
Proof.
  split; [by split|]. intros x y z [] []. split; etrans; eassumption.
Qed.

(** [m] keeps the machine well-formed, whatever its outcome, freezes what it
    must, never panics, and returns only results that satisfy [Q]. *)
Definition keeps {A} (m : M Vm VmError A) (Q : A -> Prop) : Prop := forall s, vm_ok s ->
  match m s with
  | (s', r) => vm_ok s' /\ frozen s s' /\
      match r with Ok a => Q a | Err _ => True | Panic => False end
  end.

Lemma keeps_bind {A B} (m : M Vm VmError A) (k : A -> M Vm VmError B) P Q :
  keeps m P -> (forall a, P a -> keeps (k a) Q) -> keeps (m ≫= k) Q.
Proof.
  intros Hm Hk s Hs. specialize (Hm s Hs). unfold mbind, M_bind.
  destruct (m s) as [s1 [a|e|]]; destruct Hm as (H1 & H2 & H3); [|done|done].
  specialize (Hk a H3 s1 H1). destruct (k a s1) as [s2 r]. destruct Hk as (H4 & H5 & H6).
  split; [done|]. split; [by etrans|done].
Qed.

Lemma keeps_weaken {A} (m : M Vm VmError A) P Q : keeps m P -> (forall a, P a -> Q a) -> keeps m Q.
Proof.
  intros Hm HP s Hs. specialize (Hm s Hs). destruct (m s) as [s' []]; naive_solver.
Qed.

Lemma keeps_ret {A} (a : A) (Q : A -> Prop) : Q a -> keeps (mret a) Q.
Proof. intros Ha s Hs. done. Qed.

Lemma keeps_err {A} e (Q : A -> Prop) : keeps (m_err e) Q.
Proof. intros s Hs. done. Qed.

Lemma keeps_get : keeps m_get vm_ok.
Proof. intros s Hs. done. Qed.

Lemma keeps_lift {A} (r : res VmError A) (Q : A -> Prop) :
  r <> Panic -> (forall a, r = Ok a -> Q a) -> keeps (m_lift r) Q.
Proof. intros Hp HQ s Hs. unfold m_lift. split; [done|]. split; [done|].
  destruct r; auto. Qed.

Lemma keeps_modify (f : Vm -> Vm) :
  (forall s, vm_ok s -> vm_ok (f s) /\ frozen s (f s)) -> keeps (m_modify f) (fun _ => True).
Proof. intros Hf s Hs. unfold m_modify. split; [|split]; [by apply Hf..|done]. Qed.

Lemma keeps_push v pc : Val.ok v -> keeps (push v pc) (fun _ => True).
Proof.
  intros Hv s Hs. unfold push. destruct (Nat.leb_spec MAX_STACK (v_sp s)); [done|].
  split; [|split; [by split|done]]. destruct Hs. split; cbn; try done.
  - by rewrite length_insert.
  - by apply Forall_insert.
Qed.

Lemma keeps_pop pc : keeps (pop pc) Val.ok.
Proof.
  intros s Hs. unfold pop. destruct (v_sp s) as [|sp] eqn:Esp; [done|].
  pose proof (ok_sp s Hs) as Hsp. pose proof (ok_stack_len s Hs) as Hlen.
  destruct (lookup_lt_is_Some_2 (v_stack s) sp) as [v Hv]; [lia|].
  unfold index. rewrite Hv. split; [|split; [by split|]].
  - destruct Hs. split; cbn; try done. lia.
  - by eapply Forall_lookup_1; [apply (ok_stack s Hs)|].
Qed.

Lemma keeps_update {X} (get : Vm -> X) (set : X -> Vm -> Vm) (f : X -> res VmError X) :
  (forall s, vm_ok s -> f (get s) <> Panic) ->
  (forall s x, vm_ok s -> f (get s) = Ok x -> vm_ok (set x s) /\ frozen s (set x s)) ->
  keeps (update_field get set f) (fun _ => True).
Proof.
  intros Hp Hx s Hs. unfold update_field. destruct (f (get s)) eqn:E; [|done|by edestruct Hp].
  edestruct Hx; eauto.
Qed.

Lemma load_no_panic s off pc : Seg.load s off pc <> Panic.
Proof. unfold Seg.load, Seg.load_as. repeat case_match; done. Qed.

Lemma store_no_panic s off v pc : Seg.store s off v pc <> Panic.
Proof. unfold Seg.store. case_match; done. Qed.

Lemma slots_no_panic s i v pc : Slots.set s i v pc <> Panic.
Proof. unfold Slots.set. case_match; done. Qed.

Lemma ok_or_no_panic {E A} (o : option A) (e : E) : ok_or o e <> Panic.
Proof. by destruct o. Qed.

Lemma keeps_store_data off v pc : 0 <= off -> Val.ok v ->
  keeps (update_field v_data set_data (fun d => Seg.store d off v pc)) (fun _ => True).
Proof.
  intros Ho Hv. apply keeps_update; [intros; apply store_no_panic|].
  intros s d Hs Hd. pose proof (ok_data s Hs) as Hds.
  pose proof (store_ok_seg _ _ _ _ _ Hds Ho Hv Hd). pose proof (store_size _ _ _ _ _ Hds Ho Hd).
  split; [destruct Hs; by split|by split].
Qed.

Lemma keeps_store_retain off v pc : 0 <= off -> Val.ok v ->
  keeps (update_field v_retain set_retain (fun d => Seg.store d off v pc)) (fun _ => True).
Proof.
  intros Ho Hv. apply keeps_update; [intros; apply store_no_panic|].
  intros s d Hs Hd. pose proof (ok_retain s Hs) as Hds.
  pose proof (store_ok_seg _ _ _ _ _ Hds Ho Hv Hd). pose proof (store_size _ _ _ _ _ Hds Ho Hd).
  split; [destruct Hs; by split|by split].
Qed.

Lemma keeps_set_output i v pc : Val.ok v ->
  keeps (update_field v_outputs set_outputs (fun o => Slots.set o i v pc)) (fun _ => True).
Proof.
  intros Hv. apply keeps_update; [intros; apply slots_no_panic|].
  intros s o Hs Ho. destruct (slots_set_ok _ _ _ _ _ (ok_outputs s Hs) Hv Ho).
  split; [destruct Hs; by split|by split].
Qed.

Lemma unary_op_ok op v pc r : Val.ok v -> unary_op op v pc = Ok r -> Val.ok r.
Proof.
  intros Hv. destruct op; try done; destruct v; cbn [unary_op]; intros Hr; try discriminate Hr;
    apply Ok_inj in Hr as <-; cbn in *; auto with plc.
Qed.

Lemma unary_no_panic op v pc : unary_op op v pc <> Panic.
Proof. destruct op; try done; by destruct v. Qed.

Lemma keeps_vm_binop op a b pc :
  is_binop op = true -> Val.ok a -> Val.ok b -> div_overflows op a b = false ->
  keeps (vm_binop op a b pc) Val.ok.
Proof.
  intros Hop Ha Hb Hd s Hs. unfold vm_binop.
  pose proof (binop_cases op a b pc (v_div0_count s) Hop Ha Hb) as Hr. unfold binop_spec in Hr.
  assert (Hset : forall d, u_range 32 d ->
    vm_ok (set_div0_count d s) /\ frozen s (set_div0_count d s))
    by (intros d Hd'; split; [destruct Hs; by split|by split]).
  destruct (binop_ty op (Val.ir_type a) (Val.ir_type b)).
  - rewrite Hd in Hr. destruct Hr as (v & [_ Hv] & ->).
    destruct (Hset (if div_by_zero op a b then wrap_u 32 (v_div0_count s + 1)
      else v_div0_count s)); [|done].
    case_match; [by apply wrap_u_range|apply Hs].
  - destruct Hr as (msg & ->). destruct (Hset (v_div0_count s)); [apply Hs|done].
Qed.

(** ** Primitive calls *)

Lemma keeps_pop_inputs n pc acc :
  Forall sv_ok acc ->
  keeps (pop_inputs n pc acc) (fun l => Forall sv_ok l /\ length l = (n + length acc)%nat).
Proof.
  revert acc. induction n as [|n IH]; intros acc Hacc; cbn [pop_inputs]; [by apply keeps_ret|].
  eapply keeps_bind; [apply keeps_pop|]. intros v Hv.
  eapply keeps_weaken; [apply IH; constructor; [by apply to_stack_value_ok|done]|].
  cbn. intros l [H1 H2]. split; [done|]. rewrite H2. cbn. lia.
Qed.

Lemma keeps_push_outputs id vals n pc :
  (n <= length vals)%nat -> Forall sv_ok (take n vals) ->
  keeps (push_outputs id vals n pc) (fun _ => True).
Proof.
  induction n as [|n IH]; intros Hn Hv; cbn [push_outputs]; [by apply keeps_ret|].
  destruct (lookup_lt_is_Some_2 vals n) as [v Ev]; [lia|].
  erewrite take_S_r in Hv by exact Ev. apply Forall_app in Hv as [Hv Hx].
  apply Forall_cons in Hx as [Hx _].
  eapply (keeps_bind _ _ (fun w => w = v)).
  { apply keeps_lift; unfold index; rewrite Ev; [done|]. intros w Hw. by apply Ok_inj in Hw. }
  intros w ->. eapply keeps_bind; [by apply keeps_push, from_stack_value_ok|].
  intros _ _. apply IH; [lia|done].
Qed.

Lemma has_kind_ok k v : has_kind k v -> sv_ok v.
Proof. destruct k, v; done. Qed.

Lemma keeps_call_primitive id instance inputs now pc :
  Forall sv_ok inputs -> u_range 64 now ->
  keeps (fun s : Vm =>
    let '(store, r) := call_primitive id instance inputs now (v_primitives s) in
    (set_primitives store s, map_err (fun e => EPrimitive pc (prim_error e)) r))
    (fun o => count o = len (out_kinds id) /\ length (values o) = 4%nat /\
              Forall sv_ok (take (length (out_kinds id)) (values o))).
Proof.
  intros Hin Hnow s Hs.
  pose proof (call_primitive_cases id instance inputs now (v_primitives s)
    (ok_primitives s Hs) Hin Hnow) as Hc.
  assert (Hset : forall p, store_ok p -> vm_ok (set_primitives p s) /\ frozen s (set_primitives p s))
    by (intros p Hp; split; [destruct Hs; by split|by split]).
  destruct (call_check id instance inputs (v_primitives s)).
  - rewrite Hc. cbn. destruct (Hset (v_primitives s)); [apply Hs|done].
  - destruct Hc as (p & o & -> & (H1 & H2 & H3) & Hf). cbn.
    destruct (Hset p); [apply Hf|]. split; [done|]. split; [done|]. split; [done|].
    split; [done|]. clear -H3. induction H3; constructor; [by eapply has_kind_ok|done].
Qed.

Lemma keeps_call_prim now fb_id instance pc :
  u_range 64 now -> keeps (call_prim now fb_id instance pc) (fun _ => True).
Proof.
  intros Hnow. unfold call_prim. destruct (Prim.of_fb_id fb_id) as [id|]; [|apply keeps_err].
  eapply keeps_bind; [by apply keeps_pop_inputs|]. intros inputs [Hin _].
  eapply keeps_bind; [by apply keeps_call_primitive|]. intros o (Hc & Hl & Hv).
  assert (length (out_kinds id) <= 4)%nat by (destruct id; cbn; lia).
  rewrite Hc. unfold len. rewrite Nat2Z.id. apply keeps_push_outputs; [lia|done].
Qed.

(** ** Instructions *)

Definition next_ok (r : Z + ExecResult) : Prop :=
  match r with inl pc => 0 <= pc | inr _ => True end.

Lemma keeps_next {A} (m : M Vm VmError A) pc :
  0 <= pc -> keeps m (fun _ => True) -> keeps (m ;; mret (inl pc)) next_ok.
Proof. intros Hpc Hm. eapply keeps_bind; [exact Hm|]. intros _ _. by apply keeps_ret. Qed.

Lemma keeps_pop_then {A} (k : VmValue -> M Vm VmError A) Q pc :
  (forall v, Val.ok v -> keeps (k v) Q) -> keeps (v ← pop pc; k v) Q.
Proof. intros Hk. eapply keeps_bind; [apply keeps_pop|exact Hk]. Qed.

Lemma keeps_get_then {A} (k : Vm -> M Vm VmError A) Q :
  (forall s, vm_ok s -> keeps (k s) Q) -> keeps (s ← m_get; k s) Q.
Proof. intros Hk. eapply keeps_bind; [apply keeps_get|exact Hk]. Qed.

(** Load a value and push it. *)
Lemma keeps_load_push (r : res VmError VmValue) pc n :
  0 <= n -> r <> Panic -> (forall v, r = Ok v -> Val.ok v) ->
  keeps (v ← m_lift r; push v pc ;; mret (inl n)) next_ok.
Proof.
  intros Hn Hp Hv. eapply keeps_bind; [by apply (keeps_lift r Val.ok)|].
  intros v Hok. apply keeps_next; [done|]. by apply keeps_push.
Qed.

Lemma seg_offset_nonneg s payload : vm_ok s -> 0 <= payload -> 0 <= seg_offset s payload.
Proof. intros [] ?. unfold seg_offset, sat_add_u, u_range in *. lia. Qed.

Lemma vm_ok_frames s frames fp base :
  length frames = MAX_CALL_DEPTH -> Forall frame_ok frames -> (fp <= MAX_CALL_DEPTH)%nat ->
  u_range 32 base -> vm_ok s -> vm_ok (set_frames frames fp base s) /\
  frozen s (set_frames frames fp base s).
Proof. intros ???? []. split; by split. Qed.

Lemma frame_lookup s i : vm_ok s -> (i < MAX_CALL_DEPTH)%nat ->
  exists f, v_frames s !! i = Some f /\ frame_ok f.
Proof.
  intros Hs Hi. destruct (lookup_lt_is_Some_2 (v_frames s) i) as [f Hf].
  - by rewrite (ok_frames_len s Hs).
  - exists f. split; [done|]. by eapply Forall_lookup_1; [apply Hs|].
Qed.

Lemma keeps_index_frame s i Q :
  vm_ok s -> (i < MAX_CALL_DEPTH)%nat -> (forall f, frame_ok f -> Q f) ->
  keeps (m_lift (index (v_frames s) i)) Q.
Proof.
  intros Hs Hi HQ. destruct (frame_lookup s i Hs Hi) as (f & Hf & Hok).
  apply keeps_lift; unfold index; rewrite Hf; [done|]. intros g Hg. apply Ok_inj in Hg as <-. auto.
Qed.

Lemma keeps_ret_instr payload size pc : keeps (exec_simple Ret payload size pc) next_ok.
Proof.
  apply keeps_get_then. intros s Hs. destruct (v_fp s) as [|fp] eqn:Efp; [by apply keeps_ret|].
  pose proof (ok_fp s Hs) as Hfp.
  eapply keeps_bind; [apply (keeps_index_frame s fp frame_ok); [done|lia|done]|].
  intros f [Hf _]. eapply (keeps_bind _ _ (u_range 32)).
  { destruct fp as [|fp']; [apply keeps_ret; unfold u_range; lia|].
    eapply keeps_bind; [apply (keeps_index_frame s fp' frame_ok); [done|lia|done]|].
    intros g [_ Hg]. by apply keeps_ret. }
  intros base Hb. apply keeps_next; [done|]. apply keeps_modify. intros s0 Hs0.
  apply vm_ok_frames; try done; [apply Hs..|lia].
Qed.

Lemma keeps_binop_instr op size pc a b :
  is_binop op = true -> Val.ok a -> Val.ok b -> div_overflows op a b = false -> 0 <= pc + size ->
  keeps (r ← vm_binop op a b pc; push r pc ;; mret (inl (pc + size))) next_ok.
Proof.
  intros. eapply keeps_bind; [by apply keeps_vm_binop|].
  intros r Hr. apply keeps_next; [done|]. by apply keeps_push.
Qed.

(** The instructions that store to a segment. *)
Lemma keeps_dirty : keeps (m_modify (set_retain_dirty true)) (fun _ => True).
Proof. apply keeps_modify. intros s []. split; by split. Qed.

Lemma keeps_exec_simple op payload size pc :
  op <> Div -> 0 <= payload -> 0 <= pc -> 0 <= size ->
  keeps (exec_simple op payload size pc) next_ok.
Proof.
  intros Hop Hp Hpc Hsize. assert (0 <= pc + size) as Hn by lia.
  assert (Hbin : is_binop op = true -> forall a b, div_overflows op a b = false)
    by (intros _ a b; by destruct op).
  destruct (decide (op = Ret)) as [->|Hret]; [apply keeps_ret_instr|].
  destruct op; try done; cbn [exec_simple];
    try (apply keeps_pop_then; intros b Hb; apply keeps_pop_then; intros a Ha;
         apply keeps_binop_instr; by auto);
    try (apply keeps_ret; done).
  - by apply keeps_next, keeps_push.
  - apply keeps_get_then. intros s Hs. apply keeps_load_push; [done|apply load_no_panic|].
    intros v. apply seg_load_ok; [apply Hs|by apply seg_offset_nonneg].
  - apply keeps_pop_then. intros v Hv. apply keeps_get_then. intros s Hs.
    apply keeps_next; [done|]. apply keeps_store_data; [by apply seg_offset_nonneg|done].
  - apply keeps_get_then. intros s Hs. apply keeps_load_push; [done|apply load_no_panic|].
    intros v. apply seg_load_ok; [apply Hs|by apply seg_offset_nonneg].
  - apply keeps_pop_then. intros v Hv. apply keeps_get_then. intros s Hs.
    eapply keeps_bind; [apply keeps_store_retain; [by apply seg_offset_nonneg|done]|].
    intros _ _. apply keeps_next; [done|apply keeps_dirty].
  - apply keeps_get_then. intros s Hs. apply keeps_load_push; [done|apply ok_or_no_panic|].
    intros v. apply slots_get_ok, Hs.
  - apply keeps_pop_then. intros v Hv. apply keeps_next; [done|]. by apply keeps_set_output.
  - apply keeps_get_then. intros s Hs. apply keeps_load_push; [done|apply ok_or_no_panic|].
    intros v. apply slots_get_ok, Hs.
  - apply keeps_get_then. intros s Hs.
    eapply (keeps_bind _ _ (fun _ => True)); [apply keeps_lift; [apply ok_or_no_panic|done]|].
    intros g _. by apply keeps_next, keeps_push.
  - apply keeps_pop_then. intros a Ha. apply keeps_load_push; [done|apply unary_no_panic|].
    intros v. by apply unary_op_ok.
  - apply keeps_pop_then. intros a Ha. apply keeps_load_push; [done|apply unary_no_panic|].
    intros v. by apply unary_op_ok.
  - apply keeps_pop_then. intros c Hc. apply keeps_ret. by destruct (Val.as_bool c).
  - apply keeps_pop_then. intros c Hc. apply keeps_ret. by destruct (Val.as_bool c).
  - apply keeps_pop_then. intros a Ha.
    eapply (keeps_bind _ _ (fun _ => True)); [apply keeps_lift; [apply ok_or_no_panic|done]|].
    intros ty _. apply keeps_next; [done|]. apply keeps_push. by apply convert_ok.
Qed.

Lemma keeps_exec_wide op imm size pc :
  u_range 32 imm -> 0 <= pc -> 0 <= size -> keeps (exec_wide op imm size pc) next_ok.
Proof.
  intros Hi Hpc Hs. destruct op; try apply keeps_err; cbn [exec_wide];
    (apply keeps_next; [lia|]; apply keeps_push; cbn; auto with plc).
Qed.

Lemma keeps_exec_call now kind id base size pc :
  u_range 64 now -> u_range 32 base -> 0 <= pc -> 0 <= size ->
  keeps (exec_call now kind id base size pc) next_ok.
Proof.
  intros Hnow Hb Hpc Hsize. unfold exec_call. destruct (kind =? 0).
  { apply keeps_next; [lia|]. by apply keeps_call_prim. }
  apply keeps_get_then. intros s Hs.
  eapply (keeps_bind _ _ (u_range 32)).
  { apply keeps_lift; [apply ok_or_no_panic|]. intros e He%ok_or_Ok.
    unfold user_fb_entry in He. destruct (v_user_fb_pc s !! Z.to_nat id) as [o|] eqn:Eo; [|done].
    cbn in He. subst o. pose proof (ok_user_fb s Hs) as Hf.
    by apply (Forall_lookup_1 _ _ _ _ Hf Eo). }
  intros entry He. destruct (Nat.leb_spec MAX_CALL_DEPTH (v_fp s)) as [|Hfp]; [apply keeps_err|].
  apply keeps_next; [apply He|]. apply keeps_modify. intros s0 Hs0. apply vm_ok_frames; try done.
  - rewrite length_insert. apply Hs.
  - apply Forall_insert; [apply Hs|]. split; [cbn; lia|done].
Qed.

(** ** Division *)

(** The instruction at [pc] divides the least value of its type by -1. *)
Definition div_overflow_at (pc : Z) (s : Vm) : Prop :=
  exists payload a b sp,
    decode_instruction (v_code s) pc = Ok (Simple Div payload, 4) /\
    v_sp s = S (S sp) /\ v_stack s !! sp = Some a /\ v_stack s !! S sp = Some b /\
    div_overflows Div a b = true.

Lemma overflow_typed a b :
  div_overflows Div a b = true -> binop_ty Div (Val.ir_type a) (Val.ir_type b) <> None.
Proof. destruct a, b; intros H1 H2; first [discriminate H1|discriminate H2]. Qed.

Lemma vm_ok_stack s sp : vm_ok s -> (sp <= MAX_STACK)%nat ->
  vm_ok (set_stack (v_stack s) sp s) /\ frozen s (set_stack (v_stack s) sp s).
Proof. intros [] ?. split; by split. Qed.

Lemma exec_div payload size pc s : vm_ok s -> 0 <= pc -> 0 <= size ->
  match exec_simple Div payload size pc s with
  | (s', r) => vm_ok s' /\ frozen s s' /\
      match r with
      | Ok n => next_ok n
      | Err _ => True
      | Panic => exists a b sp, v_sp s = S (S sp) /\ v_stack s !! sp = Some a /\
          v_stack s !! S sp = Some b /\ div_overflows Div a b = true
      end
  end.
Proof.
  intros Hs Hpc Hsize. pose proof (ok_sp s Hs) as Hsp. pose proof (ok_stack_len s Hs) as Hlen.
  cbn [exec_simple]. unfold mbind at 1, M_bind at 1, pop at 1.
  destruct (v_sp s) as [|sp1] eqn:E1; [done|].
  destruct (lookup_lt_is_Some_2 (v_stack s) sp1) as [b Eb]; [lia|].
  unfold index at 1. rewrite Eb.
  destruct (vm_ok_stack s sp1 Hs ltac:(lia)) as [Hs1 Hf1].
  unfold mbind at 1, M_bind at 1, pop at 1. cbn [v_sp set_stack v_stack].
  destruct sp1 as [|sp]; [done|].
  destruct (lookup_lt_is_Some_2 (v_stack s) sp) as [a Ea]; [lia|].
  unfold index at 1. rewrite Ea.
  change (set_stack (v_stack s) sp (set_stack (v_stack s) (S sp) s))
    with (set_stack (v_stack s) sp s).
  destruct (vm_ok_stack s sp Hs ltac:(lia)) as [Hs2 Hf2].
  assert (Val.ok a) by (eapply Forall_lookup_1; [apply (ok_stack s Hs)|done]).
  assert (Val.ok b) by (eapply Forall_lookup_1; [apply (ok_stack s Hs)|done]).
  destruct (div_overflows Div a b) eqn:Ed.
  - pose proof (binop_cases Div a b pc (v_div0_count s) eq_refl) as Hb. unfold binop_spec in Hb.
    rewrite Ed in Hb. unfold mbind, M_bind, vm_binop. cbn [v_div0_count set_stack].
    destruct (binop_ty Div (Val.ir_type a) (Val.ir_type b)) eqn:Et.
    + rewrite Hb by done. split; [destruct Hs2; by split|].
      split; [by split|]. by exists a, b, sp.
    + by destruct (overflow_typed a b).
  - pose proof (keeps_binop_instr Div size pc a b eq_refl ltac:(done) ltac:(done) Ed ltac:(lia)
      _ Hs2) as Hk.
    destruct ((r ← vm_binop Div a b pc; push r pc;; mret (inl (pc + size))) _) as [s' r].
    destruct Hk as (Hk1 & Hk2 & Hk3). split; [done|]. split; [by etrans|]. by destruct r.
Qed.

(** One instruction, whatever it is. *)
Lemma step_ok now pc s : u_range 64 now -> vm_ok s -> 0 <= pc ->
  match step now pc s with
  | (s', r) => vm_ok s' /\ frozen s s' /\
      match r with Ok n => next_ok n | Err _ => True | Panic => div_overflow_at pc s end
  end.
Proof.
  intros Hnow Hs Hpc. unfold step, mbind at 1, M_bind at 1, m_get.
  destruct (decode_instruction (v_code s) pc) as [[i n]| |] eqn:Ed.
  2: { done. }
  2: { by apply decode_no_panic in Ed. }
  unfold mbind, M_bind, m_lift. cbn [map_err].
  destruct (decode_instr_ok _ _ _ _ (ok_code s Hs) Hpc Ed) as (Hi & Hn & Hn4 & _).
  assert (Hk : keeps (exec_instr now i n pc) next_ok ->
    match exec_instr now i n pc s with
    | (s', r) => vm_ok s' /\ frozen s s' /\
      match r with Ok n => next_ok n | Err _ => True | Panic => div_overflow_at pc s end
    end).
  { intros Hk. specialize (Hk s Hs). destruct (exec_instr now i n pc s) as [s' []]; naive_solver. }
  destruct i as [op p|op p imm|k id base]; cbn [instr_ok exec_instr] in *.
  - destruct Hi as (_ & _ & Hp). destruct (decide (op = Div)) as [->|Hd].
    + assert (n = 4) as -> by exact Hn.
      pose proof (exec_div p 4 pc s Hs Hpc ltac:(lia)) as H1.
      destruct (exec_simple Div p 4 pc s) as [s' []]; destruct H1 as (H2 & H3 & H4); try done.
      split; [done|]. split; [done|]. destruct H4 as (a & b & sp & H5). by exists p, a, b, sp.
    + apply Hk, keeps_exec_simple; try done; [apply Hp|lia].
  - apply Hk, keeps_exec_wide; [apply Hi|done|lia].
  - apply Hk, keeps_exec_call; try done; [apply Hi|lia].
Qed.

(** ** Runs *)

(** [n] instructions that each fall through to a next one. *)
Inductive steps (now : Z) : nat -> Z * Vm -> Z * Vm -> Prop :=
  | steps_O c : steps now 0 c c
  | steps_S n pc s pc1 s1 c :
      step now pc s = (s1, Ok (inl pc1)) -> steps now n (pc1, s1) c -> steps now (S n) (pc, s) c.

(** The instruction at [pc] ends the run with outcome [r]. *)
Definition ends (now pc : Z) (s s' : Vm) (r : res VmError ExecResult) : Prop :=
  match r with
  | Ok e => step now pc s = (s', Ok (inr e))
  | Err e => step now pc s = (s', Err e)
  | Panic => step now pc s = (s', Panic)
  end.

Lemma fresh_run_ok s : vm_ok s -> vm_ok (fresh_run s) /\ frozen s (fresh_run s).
Proof.
  intros []. split; [|by split]. split; cbn; try done; try apply slots_clear_ok; try done;
    unfold u_range; lia.
Qed.

Lemma steps_ok now n pc s pc1 s1 :
  u_range 64 now -> steps now n (pc, s) (pc1, s1) -> vm_ok s -> 0 <= pc ->
  vm_ok s1 /\ frozen s s1 /\ 0 <= pc1.
Proof.
  intros Hnow H'. remember (pc, s) as c eqn:Ec. remember (pc1, s1) as c1 eqn:Ec1.
  revert pc s Ec pc1 s1 Ec1.
  induction H' as [c|n pc0 s0 pc' s' c Hstep _ IH]; intros pc s Ec pc1 s1 Ec1 Hs Hpc.
  - simplify_eq. done.
  - injection Ec as -> ->. pose proof (step_ok now pc s Hnow Hs Hpc) as Hk.
    rewrite Hstep in Hk. destruct Hk as (H1 & H2 & H3).
    edestruct IH as (H4 & H5 & H6); [done|exact Ec1|done|done|].
    split; [done|]. split; [by etrans|done].
Qed.

Lemma run_loop_spec now fuel k pc s :
  u_range 64 now -> vm_ok s -> 0 <= pc -> 0 <= k <= v_instruction_budget s ->
  v_instruction_budget s - k < Z.of_nat fuel ->
  exists s' r n pc1 s1, run_loop now fuel k pc s = Some (s', r) /\
    steps now n (pc, s) (pc1, s1) /\
    ((k + Z.of_nat n = v_instruction_budget s /\ s' = s1 /\
      r = Err (EBudget (v_instruction_budget s))) \/
     (k + Z.of_nat n < v_instruction_budget s /\ ends now pc1 s1 s' r)).
Proof.
  intros Hnow. revert k pc s. induction fuel as [|fuel IH]; intros k pc s Hs Hpc Hk Hf; [lia|].
  cbn [run_loop]. destruct (Z.ltb_spec (v_instruction_budget s) (k + 1)).
  { eexists _, _, 0%nat, pc, s. split; [done|]. split; [constructor|]. left.
    split; [lia|done]. }
  pose proof (step_ok now pc s Hnow Hs Hpc) as Hst.
  destruct (step now pc s) as [s1 r] eqn:Est. destruct Hst as (H1 & H2 & H3).
  destruct r as [[pc1|e]|e|].
  - destruct (IH (k + 1) pc1 s1) as (s' & r & n & pc2 & s2 & Hr & Hn & Hc);
      [done|done|rewrite (fz_budget _ _ H2); lia|rewrite (fz_budget _ _ H2); lia|].
    exists s', r, (S n), pc2, s2. split; [done|]. split; [by econstructor|].
    rewrite (fz_budget _ _ H2) in Hc. destruct Hc as [(?&?&?)|[? ?]]; [left|right];
      (split; [lia|]); done.
  - exists s1, (Ok e), 0%nat, pc, s. split; [done|]. split; [constructor|]. right.
    split; [lia|exact Est].
  - exists s1, (Err e), 0%nat, pc, s. split; [done|]. split; [constructor|]. right.
    split; [lia|exact Est].
  - exists s1, Panic, 0%nat, pc, s. split; [done|]. split; [constructor|]. right.
    split; [lia|exact Est].
Qed.

Lemma run_at_spec now pc s :
  u_range 64 now -> vm_ok s -> 0 <= pc ->
  exists s' r n pc1 s1, run_at now pc s = Some (s', r) /\
    steps now n (pc, fresh_run s) (pc1, s1) /\
    ((Z.of_nat n = v_instruction_budget s /\ s' = s1 /\
      r = Err (EBudget (v_instruction_budget s))) \/
     (Z.of_nat n < v_instruction_budget s /\ ends now pc1 s1 s' r)).
Proof.
  intros Hnow Hs Hpc. destruct (fresh_run_ok s Hs) as [Hf Hfz].
  pose proof (ok_budget s Hs) as [Hb _].
  destruct (run_loop_spec now (run_fuel s) 0 pc (fresh_run s)) as (s' & r & n & pc1 & s1 & H1 & H2 & H3);
    [done..|by rewrite (fz_budget _ _ Hfz)|rewrite (fz_budget _ _ Hfz); unfold run_fuel; lia|].
  rewrite (fz_budget _ _ Hfz) in H3. exists s', r, n, pc1, s1. done.
Qed.

(** A run from [pc] gets to a division of the least value of its type by -1. *)
Definition run_overflows now pc s : Prop := exists n pc1 s1,
  steps now n (pc, fresh_run s) (pc1, s1) /\ div_overflow_at pc1 s1.

Lemma run_at_safe now pc s :
  u_range 64 now -> vm_ok s -> 0 <= pc ->
  exists s' r, run_at now pc s = Some (s', r) /\ vm_ok s' /\ frozen s s' /\ (r = Panic -> run_overflows now pc s).
Proof.
  intros Hnow Hs Hpc.
  destruct (run_at_spec now pc s Hnow Hs Hpc) as (s2 & r2 & n & pc1 & s1 & H1 & H2 & H3).
  exists s2, r2. split; [done|].
  destruct (fresh_run_ok s Hs) as [Hf Hfz].
  destruct (steps_ok _ _ _ _ _ _ Hnow H2 Hf Hpc) as (H4 & H5 & H6).
  destruct H3 as [(_ & -> & ->)|[_ He]].
  - split; [done|]. split; [by etrans|done].
  - pose proof (step_ok now pc1 s1 Hnow H4 H6) as Hk.
    destruct r2 as [e|e|]; cbn [ends] in He; rewrite He in Hk; destruct Hk as (H7 & H8 & H9);
      (split; [done|]); (split; [by do 2 etrans|]); try done.
    intros _. by exists n, pc1, s1.
Qed.

Lemma run_entry_safe now name s :
  u_range 64 now -> vm_ok s ->
  exists s' r, run_entry now name s = Some (s', r) /\ vm_ok s' /\ frozen s s' /\
    (r = Panic -> exists pc, entry_pc s name = Ok pc /\ run_overflows now pc s).
Proof.
  intros Hnow Hs. unfold run_entry, entry_pc. destruct (find _ _) as [x|] eqn:Hf.
  - apply find_some in Hf as [Hin _]. pose proof (ok_entries s Hs) as He.
    rewrite Forall_forall in He. specialize (He x ltac:(by apply list_elem_of_In)).
    destruct (run_at_safe now x.1.2 s Hnow Hs ltac:(apply He)) as (s' & r & H1 & H2 & H3 & H4).
    exists s', r. repeat (split; [done|]). intros Hp. exists x.1.2. split; [done|by apply H4].
  - by exists s, (Err (EUnknownEntry name)).
Qed.

(** ** Properties *)

(** C13: one instruction on a well-formed machine, at any program counter,
    whether it succeeds or fails, leaves the machine well-formed (stack and
    call stack within their arrays, values in range, segments and images
    consistent), never changes the program, its entries, the input image, the
    budget or any size, and continues at a valid counter; it panics only on the
    quotient of the least DINT, TIME or LINT by -1. *)
Theorem vm_step_safe (now pc : Z) (s s' : Vm) (r : res VmError (Z + ExecResult))
    (Hnow : u_range 64 now) (Hs : vm_ok s) (Hpc : 0 <= pc) (Hstep : step now pc s = (s', r)) :
  vm_ok s' /\ frozen s s' /\
  match r with
  | Ok (inl pc') => 0 <= pc'
  | Panic => div_overflow_at pc s
  | _ => True
  end.
Proof.
  pose proof (step_ok now pc s Hnow Hs Hpc) as Hk. rewrite Hstep in Hk.
  destruct r as [[]|e|]; exact Hk.
Qed.

(** C12: every run ends, within the instruction budget. A run is a sequence of at
    most [budget] instructions from the reset state: either exactly [budget] of
    them execute and the run fails with the budget error, or fewer do and the
    next one ends the run with the run's outcome; the fuel of the model is
    always enough. *)
Theorem vm_run_terminates (now pc : Z) (s : Vm)
    (Hnow : u_range 64 now) (Hs : vm_ok s) (Hpc : 0 <= pc) :
  exists s' r n pc1 s1, run_at now pc s = Some (s', r) /\
    steps now n (pc, fresh_run s) (pc1, s1) /\
    ((Z.of_nat n = v_instruction_budget s /\ s' = s1 /\
      r = Err (EBudget (v_instruction_budget s))) \/
     (Z.of_nat n < v_instruction_budget s /\ ends now pc1 s1 s' r)).
Proof. by apply run_at_spec. Qed.

(** A whole run keeps the machine well-formed and leaves the program, the
    input image and every size alone, whatever its outcome; a run that panics
    has reached a division of the least DINT, TIME or LINT by -1. *)
Lemma vm_run_safe (now pc : Z) (s s' : Vm) (r : res VmError ExecResult)
    (Hnow : u_range 64 now) (Hs : vm_ok s) (Hpc : 0 <= pc)
    (Hrun : run_at now pc s = Some (s', r)) :
  vm_ok s' /\ frozen s s' /\
  (r = Panic -> exists n pc1 s1,
    steps now n (pc, fresh_run s) (pc1, s1) /\ div_overflow_at pc1 s1).
Proof.
  destruct (run_at_safe now pc s Hnow Hs Hpc) as (s2 & r2 & H1 & H2).
  rewrite Hrun in H1. by injection H1 as <- <-.
Qed.
End Inv.

(** ** Witnesses *)

Definition idle_vm (code : bytes) (budget : Z) : Vm :=
  mkVm code [] (Seg.zeros 16) (Seg.zeros 16) (Slots.bools 2) (Slots.bools 2) [] []
    (with_capacity 1) (replicate MAX_STACK (VBool false)) 0
    (replicate MAX_CALL_DEPTH (mkFrame 0 0)) 0 0 budget 0 false false.

Lemma idle_vm_ok code budget : bytes_ok code -> u_range 64 budget -> vm_ok (idle_vm code budget).
Proof.
  intros Hc Hb. split; cbn [idle_vm v_code v_data v_retain v_inputs v_outputs v_entries
    v_user_fb_pc v_primitives v_stack v_sp v_frames v_fp v_data_base v_instruction_budget
    v_div0_count];
    first [done | by apply seg_zeros_ok | apply slots_bools_ok | apply store_ok_capacity
          | by apply Forall_nil | apply length_replicate | apply Nat.le_0_l
          | apply Forall_replicate; first [done | split; cbn; unfold u_range; lia]
          | unfold u_range; lia].
Qed.

(** Push the least DINT and -1, divide. *)
Definition overflow_code : bytes :=
  encode_instruction (WithImm32 PushIDint 0 0x80000000) ++
  encode_instruction (WithImm32 PushIDint 0 0xFFFFFFFF) ++
  encode_instruction (Simple Div 0) ++
  encode_instruction (Simple Halt 0).

Definition loop_code : bytes := encode_instruction (Simple Jmp 0).

Lemma bytes_ok_dec (l : bytes) : forallb (fun b => (0 <=? b) && (b <? 256)) l = true -> bytes_ok l.
Proof.
  intros Hl. apply Forall_forall. intros x Hx. rewrite forallb_forall in Hl.
  specialize (Hl x ltac:(by apply list_elem_of_In)). unfold byte_range. lia.
Qed.

Lemma overflow_code_ok : bytes_ok overflow_code.
Proof. by apply bytes_ok_dec. Qed.
Lemma loop_code_ok : bytes_ok loop_code.
Proof. by apply bytes_ok_dec. Qed.

Lemma vm_step_safe_witness :
  exists s', step 0 0 (idle_vm loop_code 5) = (s', Ok (inl 0)) /\ vm_ok s'.
Proof.
  destruct (step 0 0 (idle_vm loop_code 5)) as [s' r] eqn:E.
  pose proof (vm_step_safe 0 0 (idle_vm loop_code 5) s' r ltac:(by vm_compute)
    (idle_vm_ok _ 5 loop_code_ok ltac:(by vm_compute)) ltac:(lia) E) as (H & _).
  exists s'. split; [|exact H].
  assert (r = Ok (inl 0)) as ->; [|reflexivity].
  change r with (s', r).2. rewrite <-E. vm_compute. reflexivity.
Defined.

Lemma vm_run_terminates_witness :
  exists s', run_at 0 0 (idle_vm loop_code 5) = Some (s', Err (EBudget 5)).
Proof.
  destruct (vm_run_terminates 0 0 (idle_vm loop_code 5) ltac:(by vm_compute)
    (idle_vm_ok _ 5 loop_code_ok ltac:(by vm_compute)) ltac:(lia))
    as (s' & r & n & pc1 & s1 & H & _).
  exists s'. rewrite H. do 2 f_equal.
  enough (snd <$> Some (s', r) = Some (Err (EBudget 5))) as Hr by (injection Hr; auto).
  rewrite <-H. vm_compute. reflexivity.
Defined.

Lemma vm_run_safe_witness :
  exists s' n pc1 s1, run_at 0 0 (idle_vm overflow_code 10) = Some (s', Panic) /\
    steps 0 n (0, fresh_run (idle_vm overflow_code 10)) (pc1, s1) /\ div_overflow_at pc1 s1.
Proof.
  destruct (run_at 0 0 (idle_vm overflow_code 10)) as [[s' r]|] eqn:E; [|vm_compute in E; discriminate E].
  assert (r = Panic) as ->.
  { enough (snd <$> Some (s', r) = Some Panic) as Hr by (injection Hr; auto).
    rewrite <-E. vm_compute. reflexivity. }
  destruct (vm_run_safe 0 0 (idle_vm overflow_code 10) s' Panic ltac:(by vm_compute)
    (idle_vm_ok _ 10 overflow_code_ok ltac:(by vm_compute)) ltac:(lia) E)
    as (_ & _ & H). destruct (H eq_refl) as (n & pc1 & s1 & H1 & H2).
  exists s', n, pc1, s1. split; [reflexivity|]. split; assumption.
Defined.
