(* ===== verification/IrVerify.v ===== *)
(** * The IR verifier

    Crate [plc-ir], src/crates/plc-ir/src/verify.rs: the abstract interpretation
    of every entry point over stacks of types. An abstract stack is a list with
    the top first; a program counter and a call depth are integers. The worklist
    loop runs on fuel: running out of it is the outcome [Panic], which
    [verify_module_total] excludes. *)
From S2P Require Import Prelude IrTypes IrEncode.

Definition V_MAX_STACK : nat := 256.
Definition V_MAX_CALL_DEPTH : Z := 32.
Definition MAX_CODE_BYTES : Z := 4 * 1024 * 1024.
Definition MAX_DATA_RETAIN : Z := 16 * 1024 * 1024.

Abbreviation astack := (list (option IrType)).

Definition a_push (st : astack) (ty : option IrType) : res VerifyError astack :=
  if (V_MAX_STACK <=? length st)%nat then Err (Rule 2 "stack depth > 256") else Ok (ty :: st).

Definition a_pop (st : astack) : res VerifyError (option IrType * astack) :=
  match st with
  | [] => Err (Rule 2 "stack underflow")
  | ty :: st => Ok (ty, st)
  end.

Fixpoint a_pops (n : nat) (st : astack) : res VerifyError astack :=
  match n with
  | O => Ok st
  | S n => '(_, st) ← a_pop st; a_pops n st
  end.

(** [a.or(b)]. *)
Definition opt_or {A} (a b : option A) : option A :=
  match a with Some _ => a | None => b end.

Definition segment_size (m : IrModule) (op : Opcode) : Z :=
  match op with
  | LdData | StData => data_size m
  | LdRetain | StRetain => retain_size m
  | _ => 0
  end.

Definition check_offset (off size : Z) : res VerifyError unit :=
  if (0 <? size) && (size <=? off) then Err (Rule 4 "offset out of segment size") else Ok tt.

Definition check_jmp_target (m : IrModule) (target : Z) : res VerifyError unit :=
  if negb (target mod 4 =? 0) then Err (Rule 1 "JMP target unaligned")
  else if len (code m) <=? target then Err (Rule 1 "JMP target out of bounds")
  else Ok tt.

Definition compatible1 (x y : option IrType) : bool :=
  match x, y with
  | Some t, Some u => bool_decide (t = u)
  | _, _ => true
  end.

Definition stacks_compatible (a b : astack) : bool :=
  (length a =? length b)%nat && forallb (fun p => compatible1 p.1 p.2) (combine a b).

Definition binary_numeric (a b : option IrType) : res VerifyError (option IrType) :=
  match a, b with
  | Some x, Some y =>
      if bool_decide (x = y) && IrTy.is_numeric x then Ok (Some x)
      else if negb (bool_decide (x = y)) then Err (Rule 3 "numeric type mismatch")
      else Ok (opt_or a b)
  | _, _ => Ok (opt_or a b)
  end.

Definition binary_logic (a b : option IrType) : res VerifyError (option IrType) :=
  match a, b with
  | Some x, Some y =>
      if bool_decide (x = TBool) && bool_decide (y = TBool) then Ok (Some TBool)
      else if bool_decide (x = y) && IrTy.is_integral x then Ok (Some x)
      else Err (Rule 3 "logic operand type mismatch")
  | _, _ => Ok (opt_or (opt_or a b) (Some TBool))
  end.

(** The outputs of a primitive: BOOL first, then TIME. *)
Fixpoint push_prim_outputs (i n : nat) (st : astack) : res VerifyError astack :=
  match n with
  | O => Ok st
  | S n =>
      st ← a_push st (if (i =? 0)%nat then Some TBool else Some TTime);
      push_prim_outputs (S i) n st
  end.

(** What visiting an instruction gives: the stack after it, its successors with
    their call depths, and whether it ends the path. *)
Abbreviation visited := (astack * list (Z * Z) * bool)%type.

(** A work item: program counter, abstract stack, call depth. *)
Abbreviation item := (Z * astack * Z)%type.

Section Visit.
Context (m : IrModule) (is_user_fb : bool).

Definition fall (st : astack) (pc size depth : Z) : res VerifyError visited :=
  Ok (st, [(pc + size, depth)], false).

(** Pop two, push [ty]. *)
Definition visit_binop (st : astack) (k : option IrType -> option IrType -> res VerifyError (option IrType))
    (pc size depth : Z) : res VerifyError visited :=
  '(b, st) ← a_pop st;
  '(a, st) ← a_pop st;
  r ← k a b;
  st ← a_push st r;
  fall st pc size depth.

Definition visit_simple (op : Opcode) (payload size pc depth : Z) (st : astack) :
    res VerifyError visited :=
  match op with
  | Nop => fall st pc size depth
  | Halt =>
      if is_user_fb then Err (Rule 6 "user FB must end in RET, not HALT")
      else Ok (st, [], true)
  | Ret => Ok (st, [], true)
  | PushIBool => st ← a_push st (Some TBool); fall st pc size depth
  | LdData | LdRetain =>
      check_offset payload (segment_size m op) ;;
      st ← a_push st None; fall st pc size depth
  | StData | StRetain =>
      check_offset payload (segment_size m op) ;;
      '(_, st) ← a_pop st; fall st pc size depth
  | LdI | LdIq =>
      if input_slots m <=? payload then Err (Rule 4 "LD_I/LD_IQ index >= input_slots")
      else
        st ← a_push st (if bool_decide (op = LdIq) then Some TBool else None);
        fall st pc size depth
  | StQ =>
      if output_slots m <=? payload then Err (Rule 4 "ST_Q index >= output_slots")
      else '(_, st) ← a_pop st; fall st pc size depth
  | LdQ =>
      if output_slots m <=? payload then Err (Rule 4 "LD_Q index >= output_slots")
      else st ← a_push st None; fall st pc size depth
  | Add | Sub | Mul | Div => visit_binop st binary_numeric pc size depth
  | Neg =>
      '(a, st) ← a_pop st;
      st ← a_push st a; fall st pc size depth
  | And | Or | Xor => visit_binop st binary_logic pc size depth
  | Not =>
      '(a, st) ← a_pop st;
      st ← a_push st (opt_or a (Some TBool)); fall st pc size depth
  | Eq | Ne | Lt | Le | Gt | Ge => visit_binop st (fun _ _ => Ok (Some TBool)) pc size depth
  | Jmp =>
      check_jmp_target m payload ;;
      Ok (st, [(payload, depth)], false)
  | JmpIf | JmpIfNot =>
      '(c, st) ← a_pop st;
      if match c with Some t => negb (bool_decide (t = TBool)) | None => false end then
        Err (Rule 3 "JMP_IF* requires BOOL condition")
      else
        check_jmp_target m payload ;;
        Ok (st, [(payload, depth); (pc + size, depth)], false)
  | Conv =>
      '(_, st) ← a_pop st;
      ty ← ok_or (IrTy.from_u8 (wrap_u 8 payload)) (Rule 3 "CONV bad type tag");
      st ← a_push st (Some ty); fall st pc size depth
  | PushIDint | PushIReal | PushTime | CallFb => Err (Rule 7 "should be wide form")
  end.

Definition visit_wide (op : Opcode) (size pc depth : Z) (st : astack) : res VerifyError visited :=
  match op with
  | PushIDint => st ← a_push st (Some TDint); fall st pc size depth
  | PushIReal => st ← a_push st (Some TReal); fall st pc size depth
  | PushTime => st ← a_push st (Some TTime); fall st pc size depth
  | _ => Err (Rule 7 "unexpected WithImm32")
  end.

(** The checks of [instance_base] have empty bodies in the source. *)
Definition visit_call (fb_kind fb_id size pc depth : Z) (st : astack) : res VerifyError visited :=
  if fb_kind =? 0 then
    match Prim.of_fb_id fb_id with
    | None => Err (Rule 7 "unknown primitive id")
    | Some prim =>
        st ← a_pops (Prim.input_count prim) st;
        st ← push_prim_outputs 0 (Prim.output_count prim) st;
        fall st pc size depth
    end
  else Ok (st, [(pc + size, depth + 1)], false).

(** From the decode to the end of the [match] on the instruction. *)
Definition visit (pc depth : Z) (st : astack) : res VerifyError visited :=
  if len (code m) <=? pc then Err (Rule 1 "fall off end of code")
  else
    '(instr, size) ← map_err (fun _ => Rule 7 "decode") (decode_instruction (code m) pc);
    match instr with
    | Simple op payload => visit_simple op payload size pc depth st
    | WithImm32 op _ _ => visit_wide op size pc depth st
    | ICallFb fb_kind fb_id _ => visit_call fb_kind fb_id size pc depth st
    end.

(** The [while let Some(..) = work.pop()] loop; [work] has its last element
    first, so successors are pushed in source order. The result is the final
    [seen] map and [ended_ok]. *)
Fixpoint work_loop (fuel : nat) (seen : gmap Z astack) (work : list item) (ended_ok : bool) :
    res VerifyError (gmap Z astack * bool) :=
  match fuel, work with
  | O, _ => Panic
  | S _, [] => Ok (seen, ended_ok)
  | S fuel, (pc, st, depth) :: work =>
      if V_MAX_CALL_DEPTH <? depth then Err (Rule 5 "call depth > 32")
      else
        match seen !! pc with
        | Some prev =>
            if stacks_compatible prev st then work_loop fuel seen work ended_ok
            else Err (Rule 3 "stack type conflict")
        | None =>
            let seen := <[pc := st]> seen in
            v ← visit pc depth st;
            let '(st, next_pcs, terminal) := v : visited in
            if terminal then work_loop fuel seen work true
            else if bool_decide (next_pcs = []) then Err (Rule 6 "no successor")
            else
              work_loop fuel seen
                (foldl (fun (work : list item) (n : Z * Z) => (n.1, st, n.2) :: work) work next_pcs)
                ended_ok
        end
  end.

Definition verify_fuel : nat := 2 * length (code m) + 4.

Definition verify_entry (entry_pc : Z) : res VerifyError unit :=
  '(_, ended_ok) ← work_loop verify_fuel ∅ [(entry_pc, [], 0)] false;
  if negb ended_ok then Err (Rule 6 "entry has path without HALT/RET") else Ok tt.
End Visit.

Fixpoint verify_entries (m : IrModule) (es : list EntryPoint) : res VerifyError unit :=
  match es with
  | [] => Ok tt
  | e :: es =>
      if (len (code m) <=? e_pc e) && negb (bool_decide (code m = [])) then
        Err (Rule 1 "entry pc out of bounds")
      else if negb (e_pc e mod 4 =? 0) then Err (Rule 1 "entry pc not aligned")
      else
        verify_entry m (e_is_user_fb e) (e_pc e) ;;
        verify_entries m es
  end.

Definition verify_module (m : IrModule) : res VerifyError unit :=
  if negb (ir_major m =? IR_MAJOR) then Err (Rule 7 "unsupported ir_major")
  else if MAX_CODE_BYTES <? wrap_u 32 (len (code m)) then Err (Rule 9 "code exceeds 4 MiB")
  else if MAX_DATA_RETAIN <? sat_add_u 32 (data_size m) (retain_size m) then
    Err (Rule 9 "data+retain exceeds 16 MiB")
  else if negb (len (code m) mod 4 =? 0) then Err (Rule 1 "code size not multiple of 4")
  else if negb (wrap_u 32 (len (const_data m)) =? const_size m) then
    Err (Rule 4 "const_data length disagrees with const_size")
  else verify_entries m (entries m).

(** ** What an instruction does to the depth of the stack *)

Definition pops_of (i : DecodedInstr) : nat :=
  match i with
  | Simple op _ =>
      match op with
      | StData | StRetain | StQ | Neg | Not | JmpIf | JmpIfNot | Conv => 1
      | Add | Sub | Mul | Div | And | Or | Xor | Eq | Ne | Lt | Le | Gt | Ge => 2
      | _ => 0
      end
  | WithImm32 _ _ _ => 0
  | ICallFb k id _ =>
      if k =? 0 then match Prim.of_fb_id id with Some p => Prim.input_count p | None => 0 end
      else 0
  end.

Definition pushes_of (i : DecodedInstr) : nat :=
  match i with
  | Simple op _ =>
      match op with
      | PushIBool | LdData | LdRetain | LdI | LdIq | LdQ | Neg | Not | Conv
      | Add | Sub | Mul | Div | And | Or | Xor | Eq | Ne | Lt | Le | Gt | Ge => 1
      | _ => 0
      end
  | WithImm32 _ _ _ => 1
  | ICallFb k id _ =>
      if k =? 0 then match Prim.of_fb_id id with Some p => Prim.output_count p | None => 0 end
      else 0
  end.

(** Whether the instruction ends a path, and where it may continue. *)
Definition ends_path (i : DecodedInstr) : bool :=
  match i with Simple Halt _ | Simple Ret _ => true | _ => false end.

Definition succs_of (i : DecodedInstr) (pc size : Z) : list Z :=
  match i with
  | Simple Jmp target => [target]
  | Simple JmpIf target | Simple JmpIfNot target => [target; pc + size]
  | Simple Halt _ | Simple Ret _ => []
  | _ => [pc + size]
  end.

(** The slot instructions' static bound. *)
Definition slot_in_range (m : IrModule) (i : DecodedInstr) : Prop :=
  match i with
  | Simple (LdI | LdIq) p => p < input_slots m
  | Simple (StQ | LdQ) p => p < output_slots m
  | _ => True
  end.

(** The instruction is one the machine executes: narrow and wide forms match,
    a CONV names a type, a primitive call a primitive. *)
Definition well_formed_instr (i : DecodedInstr) : Prop :=
  match i with
  | Simple op p =>
      op <> CallFb /\ is_wide op = false /\ (op = Conv -> is_Some (IrTy.from_u8 (wrap_u 8 p)))
  | WithImm32 op _ _ => is_wide op = true
  | ICallFb k id _ => k = 0 -> is_Some (Prim.of_fb_id id)
  end.

Record visit_spec (m : IrModule) (is_user_fb : bool) (pc : Z) (st st' : astack)
    (nexts : list (Z * Z)) (t : bool) (i : DecodedInstr) (n : Z) : Prop := {
  vs_in : pc < len (code m);
  vs_decode : decode_instruction (code m) pc = Ok (i, n);
  vs_pops : (pops_of i <= length st)%nat;
  vs_stack : length st' = (length st - pops_of i + pushes_of i)%nat;
  vs_max : (pushes_of i <> 0)%nat -> (length st' <= V_MAX_STACK)%nat;
  vs_term : t = ends_path i;
  vs_nexts : map fst nexts = succs_of i pc n;
  vs_halt : is_user_fb = true -> match i with Simple Halt _ => False | _ => True end;
  vs_slots : slot_in_range m i;
  vs_wf : well_formed_instr i }.

Lemma a_push_Ok st ty st' :
  a_push st ty = Ok st' -> st' = ty :: st /\ (length st < V_MAX_STACK)%nat.
Proof. unfold a_push. destruct (Nat.leb_spec V_MAX_STACK (length st)); intros H'; inv_res; auto. Qed.

Lemma a_pop_Ok st ty st' : a_pop st = Ok (ty, st') -> st = ty :: st'.
Proof. destruct st; intros H; [done|]. cbn in H. congruence. Qed.

Lemma a_pops_Ok n st st' : a_pops n st = Ok st' -> length st = (n + length st')%nat.
Proof.
  revert st. induction n as [|n IH]; intros st H; cbn [a_pops] in H; inv_res; [done|].
  destruct x as [ty st1]. apply a_pop_Ok in H as ->. apply IH in H0. cbn. lia.
Qed.

Lemma push_prim_outputs_Ok i n st st' :
  push_prim_outputs i n st = Ok st' ->
  length st' = (n + length st)%nat /\ ((n <> 0)%nat -> (length st' <= V_MAX_STACK)%nat).
Proof.
  revert i st. induction n as [|n IH]; intros i st H; cbn [push_prim_outputs] in H; inv_res; [done|].
  apply a_push_Ok in H as [-> Hl]. apply IH in H0 as [H1 H2]. cbn in H1. split; [lia|].
  intros _. destruct n; [cbn in *; lia|]. apply H2. lia.
Qed.

Ltac inv_visit :=
  repeat match goal with
  | H : (_ ≫= _) = Ok _ |- _ => apply res_bind_Ok in H as (? & ? & ?)
  | H : context [let '(_, _) := ?x in _] |- _ => destruct x
  | H : (if ?b then Err _ else _) = Ok _ |- _ => destruct b eqn:?; [discriminate H|]
  | H : Err _ = Ok _ |- _ => discriminate H
  | H : a_push _ _ = Ok _ |- _ => apply a_push_Ok in H as [-> ?]
  | H : a_pop _ = Ok _ |- _ => apply a_pop_Ok in H as ->
  | H : fall _ _ _ _ = Ok _ |- _ => unfold fall in H
  | H : Ok _ = Ok (_, _, _) |- _ => injection H as <- <- <-
  | H : ok_or _ _ = Ok _ |- _ => apply ok_or_Ok in H
  end.

Section VisitSpec.
Context (m : IrModule) (fb : bool).

Lemma visit_simple_spec op payload size pc depth st st' nexts t :
  pc < len (code m) -> decode_instruction (code m) pc = Ok (Simple op payload, size) ->
  visit_simple m fb op payload size pc depth st = Ok (st', nexts, t) ->
  visit_spec m fb pc st st' nexts t (Simple op payload) size.
Proof.
  intros Hpc Hd Hv.
  destruct op; cbn [visit_simple] in Hv; unfold visit_binop in Hv; inv_visit;
    (split; [assumption|exact Hd|..]); cbn; try done; try (unfold V_MAX_STACK in *; lia);
    try (apply Z.leb_gt; assumption); try (by repeat split); try (by intros ->).
Qed.

Lemma visit_wide_spec op p imm size pc depth st st' nexts t :
  pc < len (code m) -> decode_instruction (code m) pc = Ok (WithImm32 op p imm, size) ->
  visit_wide op size pc depth st = Ok (st', nexts, t) ->
  visit_spec m fb pc st st' nexts t (WithImm32 op p imm) size.
Proof.
  intros Hpc Hd Hv. destruct op; cbn [visit_wide] in Hv; inv_visit;
    (split; [assumption|exact Hd|..]); cbn; try done; unfold V_MAX_STACK in *; lia.
Qed.

Lemma visit_call_spec k id base size pc depth st st' nexts t :
  pc < len (code m) -> decode_instruction (code m) pc = Ok (ICallFb k id base, size) ->
  visit_call k id size pc depth st = Ok (st', nexts, t) ->
  visit_spec m fb pc st st' nexts t (ICallFb k id base) size.
Proof.
  intros Hpc Hd Hv. unfold visit_call in Hv. destruct (Z.eqb_spec k 0) as [->|Hk].
  - destruct (Prim.of_fb_id id) as [p|] eqn:Ep; inv_visit.
    apply a_pops_Ok in H. apply push_prim_outputs_Ok in H0 as [H1 H2].
    split; [assumption|exact Hd|..]; cbn; rewrite ?Ep; try done; try lia.
  - inv_visit. apply Z.eqb_neq in Hk as Hk'.
    split; [assumption|exact Hd|..]; cbn; rewrite ?Hk'; try done; lia.
Qed.

Lemma visit_Ok pc depth st st' nexts t :
  visit m fb pc depth st = Ok (st', nexts, t) ->
  exists i n, visit_spec m fb pc st st' nexts t i n.
Proof.
  unfold visit. destruct (Z.leb_spec (len (code m)) pc) as [|Hpc]; [done|]. intros Hv.
  apply res_bind_Ok in Hv as ([i n] & Hd & Hv).
  destruct (decode_instruction (code m) pc) as [x| |] eqn:Ed; try discriminate Hd.
  apply Ok_inj in Hd as ->. exists i, n. destruct i.
  - by eapply visit_simple_spec.
  - by eapply visit_wide_spec.
  - by eapply visit_call_spec.
Qed.

Lemma visit_nexts_length pc depth st st' nexts t :
  visit m fb pc depth st = Ok (st', nexts, t) -> (length nexts <= 2)%nat.
Proof.
  intros (i & n & Hs)%visit_Ok. pose proof (f_equal length (vs_nexts _ _ _ _ _ _ _ _ _ Hs)) as Hl.
  rewrite length_map in Hl. rewrite Hl. destruct i as [[]| |]; cbn; lia.
Qed.

Lemma visit_nonneg pc depth st st' nexts t :
  bytes_ok (code m) -> 0 <= pc -> visit m fb pc depth st = Ok (st', nexts, t) ->
  Forall (fun n => 0 <= n.1) nexts.
Proof.
  intros Hc Hpc (i & n & Hs)%visit_Ok.
  destruct (decode_instr_ok _ _ _ _ Hc Hpc (vs_decode _ _ _ _ _ _ _ _ _ Hs)) as (Hi & _ & Hn & _).
  apply (Forall_map fst (fun z => 0 <= z)). rewrite (vs_nexts _ _ _ _ _ _ _ _ _ Hs).
  assert (0 <= pc + n) by lia.
  destruct i as [[] p| |]; cbn in *; repeat constructor; try lia; apply Hi.
Qed.
End VisitSpec.

Lemma visit_no_panic m fb pc depth st : visit m fb pc depth st <> Panic.
Proof.
  unfold visit. case_match; [done|].
  pose proof (decode_no_panic (code m) pc).
  destruct (decode_instruction (code m) pc) as [[i n]| |]; cbn; try done.
  assert (Hpush : forall st ty (k : astack -> res VerifyError visited),
    (forall st, k st <> Panic) -> (a_push st ty ≫= k) <> Panic)
    by (intros st0 ty k Hk; unfold a_push; case_match; [done|apply Hk]).
  assert (Hpop : forall st (k : _ -> res VerifyError visited),
    (forall x, k x <> Panic) -> (a_pop st ≫= k) <> Panic)
    by (intros st0 k Hk; destruct st0; [done|apply Hk]).
  assert (Hchk : forall a b (k : res VerifyError visited), k <> Panic ->
    (check_offset a b ;; k) <> Panic) by (intros a b k Hk; unfold check_offset; by case_match).
  assert (Hjmp : forall t (k : res VerifyError visited), k <> Panic ->
    (check_jmp_target m t ;; k) <> Panic)
    by (intros t k Hk; unfold check_jmp_target; repeat case_match; done).
  destruct i as [op p|op p imm|k id base].
  - destruct op; cbn [visit_simple]; unfold visit_binop, fall; try done;
      repeat first [done | apply Hpop; intros [] | apply Hpush; intros ? | apply Hchk
        | apply Hjmp | case_match];
      try (unfold binary_numeric, binary_logic; repeat case_match; try done; apply Hpush; done).
    destruct (IrTy.from_u8 _); [by apply Hpush|done].
  - destruct op; cbn [visit_wide]; try done; by apply Hpush.
  - unfold visit_call. case_match; [|done]. destruct (Prim.of_fb_id id) as [q|]; [|done].
    assert (Hpops : forall n st (k : astack -> res VerifyError visited),
      (forall x, k x <> Panic) -> (a_pops n st ≫= k) <> Panic).
    { intros j. induction j as [|j IH]; intros st0 k0 Hk; [apply Hk|].
      destruct st0 as [|ty st0]; [done|]. cbn [a_pops a_pop mbind res_bind].
      by apply IH. }
    assert (Houts : forall n j st (k : astack -> res VerifyError visited),
      (forall x, k x <> Panic) -> (push_prim_outputs j n st ≫= k) <> Panic).
    { intros l. induction l as [|l IH]; intros j st0 k0 Hk; [apply Hk|].
      cbn [push_prim_outputs]. unfold a_push at 1. case_match; [done|].
      cbn [mbind res_bind]. by apply IH. }
    apply Hpops. intros x. by apply Houts.
Qed.

(** ** The worklist loop ends *)

Section Loop.
Context (m : IrModule) (fb : bool).
Hypothesis (Hcode : bytes_ok (code m)).

(** Visited program counters are code offsets. *)
Definition seen_in (seen : gmap Z astack) : Prop :=
  forall pc st, seen !! pc = Some st -> 0 <= pc < len (code m).

Lemma seen_in_size seen : seen_in seen -> (size seen <= length (code m))%nat.
Proof.
  intros Hs. rewrite <-size_dom.
  assert (dom seen ⊆@{gset Z} list_to_set (seqZ 0 (len (code m)))) as Hsub.
  { intros pc Hpc. apply elem_of_dom in Hpc as [st Hst]. apply Hs in Hst.
    apply elem_of_list_to_set, elem_of_seqZ. lia. }
  apply subseteq_size in Hsub. etrans; [exact Hsub|].
  rewrite size_list_to_set by apply NoDup_seqZ. rewrite length_seqZ. unfold len. lia.
Qed.

Definition work_nonneg (work : list item) : Prop := Forall (fun it => 0 <= it.1.1) work.

Lemma push_nexts_work (st : astack) nexts (work : list item) :
  length (foldl (fun (work : list item) (n : Z * Z) => (n.1, st, n.2) :: work) work nexts)
    = (length nexts + length work)%nat /\
  (forall it, it ∈ foldl (fun (work : list item) (n : Z * Z) => (n.1, st, n.2) :: work) work nexts
    <-> it ∈ work \/ exists n, n ∈ nexts /\ it = (n.1, st, n.2)).
Proof.
  revert work. induction nexts as [|n nexts IH]; intros work; cbn.
  - split; [done|]. intros it. split; [by left|]. intros [|(x & H & _)]; [done|].
    by apply elem_of_nil in H.
  - destruct (IH ((n.1, st, n.2) :: work)) as [H1 H2]. split; [rewrite H1; cbn; lia|].
    intros it. rewrite H2, elem_of_cons. split.
    + intros [[->|]|(x & Hx & ->)]; [right; exists n|by left|right; exists x];
        (split; [|done]); [by left|by right].
    + intros [|(x & Hx & ->)]; [by left; right|]. apply elem_of_cons in Hx as [->|Hx]; [by left; left|].
      right. eauto.
Qed.

Lemma seen_in_insert seen pc depth st v :
  seen_in seen -> 0 <= pc -> visit m fb pc depth st = Ok v -> seen_in (<[pc := st]> seen).
Proof.
  intros Hs Hpc Hv q st' Hq. destruct v as [[st2 nexts] t].
  apply visit_Ok in Hv as (i & n & Hv).
  destruct (decide (q = pc)) as [->|Hne].
  - split; [done|]. by apply (vs_in _ _ _ _ _ _ _ _ _ Hv).
  - rewrite lookup_insert_ne in Hq by done. by eapply Hs.
Qed.

Lemma work_nonneg_push work st nexts :
  work_nonneg work -> Forall (fun n : Z * Z => 0 <= n.1) nexts ->
  work_nonneg (foldl (fun (work : list item) (n : Z * Z) => (n.1, st, n.2) :: work) work nexts).
Proof.
  intros Hw Hn. apply Forall_forall. intros it Hit.
  apply push_nexts_work in Hit as [Hit|(n & Hin & ->)].
  - unfold work_nonneg in Hw. rewrite Forall_forall in Hw. by apply (Hw it).
  - rewrite Forall_forall in Hn. by apply (Hn n).
Qed.

Lemma work_loop_total fuel seen work e :
  seen_in seen -> work_nonneg work ->
  (length work + 2 * (length (code m) - size seen) < fuel)%nat ->
  work_loop m fb fuel seen work e <> Panic.
Proof.
  revert seen work e. induction fuel as [|fuel IH]; intros seen work e Hs Hw Hf; [lia|].
  cbn [work_loop]. destruct work as [|[[pc st] depth] work]; [done|].
  case_match; [done|]. apply Forall_cons in Hw as [Hpc Hw]. cbn in Hpc, Hf.
  destruct (seen !! pc) as [prev|] eqn:Es.
  { case_match; [|done]. apply IH; [done|done|lia]. }
  pose proof (visit_no_panic m fb pc depth st) as Hnp.
  destruct (visit m fb pc depth st) as [[[st' nexts] t]| |] eqn:Ev; cbn [mbind res_bind]; try done.
  pose proof (seen_in_insert _ _ _ _ _ Hs Hpc Ev) as Hs'.
  pose proof (seen_in_size _ Hs') as Hsz. rewrite map_size_insert_None in Hsz by done.
  assert (Hfu : forall w : list item, (length w <= 2 + length work)%nat ->
    (length w + 2 * (length (code m) - size (<[pc:=st]> seen)) < fuel)%nat)
    by (intros w Hl; rewrite map_size_insert_None by done; lia).
  destruct t; [apply IH; [done|done|apply Hfu; lia]|].
  case_match; [done|].
  destruct (push_nexts_work st' nexts work) as [Hl _].
  pose proof (visit_nexts_length _ _ _ _ _ _ _ _ Ev).
  apply IH; [done| |apply Hfu; lia].
  apply work_nonneg_push; [done|]. by eapply visit_nonneg.
Qed.

(** ** What an accepted entry guarantees *)

(** Every visited instruction passed its checks from its recorded stack, and its
    successors are visited with compatible stacks, or among [work]. *)
Definition closed_upto (seen : gmap Z astack) (work : list item) : Prop :=
  forall pc st, seen !! pc = Some st -> 0 <= pc /\
    exists depth st' nexts t, visit m fb pc depth st = Ok (st', nexts, t) /\
      forall nx, nx ∈ nexts ->
        (exists st2, seen !! nx.1 = Some st2 /\ stacks_compatible st2 st' = true) \/
        (nx.1, st', nx.2) ∈ work.

Lemma compatible_refl st : stacks_compatible st st = true.
Proof.
  unfold stacks_compatible. rewrite Nat.eqb_refl. cbn [andb].
  induction st as [|ty st IH]; [done|]. cbn [combine forallb fst snd]. rewrite IH.
  destruct ty; cbn; [by rewrite bool_decide_eq_true_2|done].
Qed.

Lemma compatible_length a b : stacks_compatible a b = true -> length a = length b.
Proof. unfold stacks_compatible. intros [H _]%andb_true_iff. by apply Nat.eqb_eq. Qed.

Lemma work_loop_closed fuel seen work e seen' e' :
  closed_upto seen work -> work_nonneg work ->
  work_loop m fb fuel seen work e = Ok (seen', e') ->
  closed_upto seen' [] /\
  (forall pc st, seen !! pc = Some st -> seen' !! pc = Some st) /\
  (forall pc st d, (pc, st, d) ∈ work ->
    exists st2, seen' !! pc = Some st2 /\ stacks_compatible st2 st = true).
Proof.
  revert seen work e. induction fuel as [|fuel IH]; intros seen work e Hc Hw Hr; [done|].
  cbn [work_loop] in Hr. destruct work as [|[[pc st] depth] work].
  { apply Ok_inj in Hr. injection Hr as -> ->. split; [done|]. split; [done|].
    intros pc st d H. by apply elem_of_nil in H. }
  destruct (V_MAX_CALL_DEPTH <? depth); [done|].
  apply Forall_cons in Hw as [Hpc Hw]. cbn in Hpc.
  destruct (seen !! pc) as [prev|] eqn:Es.
  - destruct (stacks_compatible prev st) eqn:Ecomp; [|done].
    apply IH in Hr as (H1 & H2 & H3); [|clear Hr|done].
    + split; [done|]. split; [done|]. intros q st2 d Hq.
      apply elem_of_cons in Hq as [Hq|Hq]; [|by eapply H3].
      injection Hq as -> -> ->. exists prev. auto.
    + intros q st2 Hq. destruct (Hc q st2 Hq) as (Hq0 & d & st' & nexts & t & Hv & Hn).
      split; [done|]. exists d, st', nexts, t. split; [done|]. intros nx Hnx.
      destruct (Hn nx Hnx) as [|Hin]; [by left|].
      apply elem_of_cons in Hin as [Hin|]; [|by right]. left. exists prev. by simplify_eq.
  - apply res_bind_Ok in Hr as ([[st' nexts] t] & Hv & Hr).
    assert (Hkeep : forall q s, seen !! q = Some s -> <[pc := st]> seen !! q = Some s)
      by (intros q s Hq; rewrite lookup_insert_ne by congruence; done).
    set (work' := foldl (fun (work : list item) (n : Z * Z) => (n.1, st', n.2) :: work) work nexts).
    assert (Hr' : exists e2, work_loop m fb fuel (<[pc := st]> seen) work' e2 = Ok (seen', e')).
    { destruct t; [|case_bool_decide; [done|by eexists]]. exists true.
      destruct (visit_Ok _ _ _ _ _ _ _ _ Hv) as (i & n & Hs).
      pose proof (vs_nexts _ _ _ _ _ _ _ _ _ Hs) as Hnx.
      pose proof (vs_term _ _ _ _ _ _ _ _ _ Hs) as Ht.
      assert (nexts = []) as E; [|unfold work'; by rewrite E].
      apply (fmap_nil_inv fst). unfold fmap. etrans; [exact Hnx|]. by destruct i as [[]| |]. }
    clear Hr. destruct Hr' as [e2 Hr].
    apply IH in Hr as (H1 & H2 & H3).
    + split; [done|]. split; [by auto|]. intros q s d Hq.
      apply elem_of_cons in Hq as [Hq|Hq].
      * injection Hq as -> -> ->. exists st. split; [|apply compatible_refl].
        apply H2. by rewrite lookup_insert_eq.
      * apply (H3 q s d). apply push_nexts_work. by left.
    + intros q s Hq. destruct (decide (q = pc)) as [->|Hne].
      * rewrite lookup_insert_eq in Hq. injection Hq as <-. split; [done|].
        exists depth, st', nexts, t. split; [done|]. intros nx Hnx. right.
        apply push_nexts_work. right. eauto.
      * rewrite lookup_insert_ne in Hq by done.
        destruct (Hc q s Hq) as (Hq0 & d & st2 & nx2 & t2 & Hv2 & Hn2).
        split; [done|]. exists d, st2, nx2, t2. split; [done|]. intros nx Hnx.
        destruct (Hn2 nx Hnx) as [(s3 & Hs3 & Hcp)|Hin]; [left; eauto|].
        apply elem_of_cons in Hin as [Hin|Hin].
        -- left. exists st. injection Hin as H4 H5 H6. rewrite H4, H5, lookup_insert_eq.
           split; [done|apply compatible_refl].
        -- right. apply push_nexts_work. by left.
    + apply work_nonneg_push; [done|]. by eapply visit_nonneg.
Qed.

(** The map an accepted entry ends with. *)
Definition closed (seen : gmap Z astack) : Prop := closed_upto seen [].

Lemma verify_entry_closed pc :
  0 <= pc -> verify_entry m fb pc = Ok tt -> exists seen, closed seen /\ seen !! pc = Some [].
Proof.
  intros Hpc Hv. unfold verify_entry in Hv. apply res_bind_Ok in Hv as ([seen e] & Hl & _).
  apply work_loop_closed in Hl as (H1 & _ & H3).
  - exists seen. split; [done|]. destruct (H3 pc [] 0) as (st & Hst & Hc); [left|].
    apply compatible_length in Hc. by destruct st.
  - intros q s Hq. by rewrite lookup_empty in Hq.
  - by repeat constructor.
Qed.
End Loop.

(** ** Properties *)

(** C14: the verifier always reaches a verdict: on every module whose code is
    bytes and whose entry points are at non-negative offsets it returns
    acceptance or a rule violation. Every code offset is expanded at most once,
    so the fuel of the model (linear in the code size) never runs out, and no
    operation panics. *)
Theorem verify_module_total (m : IrModule)
    (Hcode : bytes_ok (code m)) (Hentries : Forall (fun e => 0 <= e_pc e) (entries m)) :
  verify_module m <> Panic.
Proof.
  unfold verify_module. repeat (case_match; [done|]).
  induction Hentries as [|e es He Hes IH]; cbn [verify_entries]; [done|].
  repeat (case_match; [done|]).
  assert (Hw : verify_entry m (e_is_user_fb e) (e_pc e) <> Panic).
  { unfold verify_entry.
    pose proof (work_loop_total m (e_is_user_fb e) Hcode (verify_fuel m) ∅ [(e_pc e, [], 0)] false)
      as Hl.
    destruct (work_loop _ _ _ _ _ _) as [[seen b]| |]; cbn; [by case_match|done|].
    exfalso. apply Hl; [intros q s Hq; by rewrite lookup_empty in Hq|by repeat constructor| |done].
    unfold verify_fuel. cbn [length]. lia. }
  destruct (verify_entry _ _ _) as [[]| |]; cbn; try done.
Qed.

(** What acceptance of an entry means: there is a set of code offsets, the
    entry with an empty stack among them, each with one abstract stack, such
    that the instruction at each decodes inside the code, finds its operands,
    never grows the stack past 256, addresses existing input and output slots,
    is a HALT only in a task, and continues only at offsets of the set whose
    stacks have the depth it leaves. *)
Lemma verify_entry_sound (m : IrModule) (is_user_fb : bool) (pc : Z)
    (Hcode : bytes_ok (code m)) (Hpc : 0 <= pc) (Hv : verify_entry m is_user_fb pc = Ok tt) :
  exists seen : gmap Z astack, seen !! pc = Some [] /\
    forall q st, seen !! q = Some st -> 0 <= q /\
      exists st' nexts t i n, visit_spec m is_user_fb q st st' nexts t i n /\
        forall q', q' ∈ succs_of i q n ->
          exists st2, seen !! q' = Some st2 /\ length st2 = length st'.
Proof.
  destruct (verify_entry_closed m is_user_fb Hcode pc Hpc Hv) as (seen & Hc & Hs).
  exists seen. split; [done|]. intros q st Hq. destruct (Hc q st Hq) as (Hq0 & d & st' & nexts & t & Hvis & Hn).
  split; [done|]. destruct (visit_Ok _ _ _ _ _ _ _ _ Hvis) as (i & n & Hspec).
  exists st', nexts, t, i, n. split; [done|]. intros q' Hq'.
  rewrite <-(vs_nexts _ _ _ _ _ _ _ _ _ Hspec) in Hq'. apply list_elem_of_fmap in Hq' as (nx & -> & Hnx).
  destruct (Hn nx Hnx) as [(st2 & H1 & H2)|H1]; [|by apply elem_of_nil in H1].
  exists st2. split; [done|by apply compatible_length].
Qed.

(** ** Witnesses *)

(** A task that toggles an output while an input is true. *)
Definition toggle_code : bytes :=
  encode_instruction (Simple LdI 0) ++
  encode_instruction (Simple JmpIfNot 20) ++
  encode_instruction (Simple LdQ 0) ++
  encode_instruction (Simple Not 0) ++
  encode_instruction (Simple StQ 0) ++
  encode_instruction (Simple Halt 0).

Definition toggle_module : IrModule := {|
  ir_major := 0; ir_minor := 1; const_size := 0; data_size := 0; retain_size := 0;
  input_slots := 1; output_slots := 1;
  entries := [ {| e_name := bstr "task.main"; e_pc := 0; e_is_user_fb := false |} ];
  const_data := []; code := toggle_code |}.

Lemma toggle_code_ok : bytes_ok (code toggle_module).
Proof.
  cbn [code toggle_module]. unfold toggle_code.
  repeat (apply Forall_app; split); apply le_split_ok.
Qed.

Lemma toggle_verified : verify_module toggle_module = Ok tt.
Proof. vm_compute. reflexivity. Qed.

Lemma verify_module_total_witness : verify_module toggle_module <> Panic.
Proof.
  apply (verify_module_total toggle_module toggle_code_ok).
  repeat constructor; vm_compute; discriminate.
Defined.

Lemma verify_entry_sound_witness :
  exists seen : gmap Z astack, seen !! 0 = Some [].
Proof.
  destruct (verify_entry_sound toggle_module false 0 toggle_code_ok ltac:(lia)
    ltac:(vm_compute; reflexivity)) as (seen & H & _).
  exists seen. exact H.
Defined.
