(* ===== verification/VmLoad.v ===== *)
(** * Loading a module

    Crate [plc-vm]: [VmConfig] (src/crates/plc-vm/src/load.rs) and [Vm::load] with
    its user-FB table (src/crates/plc-vm/src/exec.rs). *)
From S2P Require Import Prelude Float32 IrTypes IrEncode IrVerify.
From S2P Require Import FbDispatch VmValue VmMemory VmExec VmInv.

Record VmConfig := { primitive_instances : nat; instruction_budget : Z; verify : bool }.

Definition default_config : VmConfig :=
  {| primitive_instances := 128; instruction_budget := 1000000; verify := true |}.

(** [str::parse::<u32>]: an optional sign, then digits, within range. *)
Fixpoint parse_digits (acc : Z) (s : bytes) : option Z :=
  match s with
  | [] => Some acc
  | c :: s =>
      if in_rangeb 48 57 c then
        let acc := acc * 10 + (c - 48) in
        if acc <? 2 ^ 32 then parse_digits acc s else None
      else None
  end.

Definition parse_u32 (s : bytes) : option Z :=
  match s with
  | [] => None
  | 43 :: s' => if bool_decide (s' = []) then None else parse_digits 0 s'
  | _ => parse_digits 0 s
  end.

Definition parse_user_fb_id (name : bytes) : option Z :=
  rest ← opt_or (strip_prefix (bstr "fb.") name) (strip_prefix (bstr "FB.") name);
  parse_u32 rest.

(** The loop over the entries: a user FB without a numeric suffix takes the next
    free index. *)
Fixpoint register_fbs (es : list EntryPoint) (table : list (option Z)) : list (option Z) :=
  match es with
  | [] => table
  | e :: es =>
      if e_is_user_fb e then
        let id := default (wrap_u 32 (len table)) (parse_user_fb_id (e_name e)) in
        let idx := Z.to_nat id in
        let table := if (length table <=? idx)%nat then resize (S idx) None table else table in
        register_fbs es (<[idx := Some (e_pc e)]> table)
      else register_fbs es table
  end.

Definition load (m : IrModule) (config : VmConfig) : res VmError Vm :=
  (if verify config then map_err EVerify (verify_module m) else Ok tt) ;;
  Ok (mkVm (code m) (const_data m)
        (Seg.zeros (data_size m)) (Seg.zeros (retain_size m))
        (Slots.bools (input_slots m)) (Slots.bools (output_slots m))
        (map (fun e => (e_name e, e_pc e, e_is_user_fb e)) (entries m))
        (register_fbs (entries m) [])
        (with_capacity (primitive_instances config))
        (replicate MAX_STACK (VBool false)) 0
        (replicate MAX_CALL_DEPTH (mkFrame 0 0)) 0 0
        (instruction_budget config) 0 false false).

(** ** What loading establishes *)

(** Modules whose numbers fit their header fields. *)
Record module_ok (m : IrModule) : Prop := {
  mo_code : bytes_ok (code m);
  mo_data : u_range 32 (data_size m);
  mo_retain : u_range 32 (retain_size m);
  mo_inputs : u_range 32 (input_slots m);
  mo_outputs : u_range 32 (output_slots m);
  mo_entries : Forall (fun e => u_range 32 (e_pc e)) (entries m) }.

(** The machine runs the module: its code, at least its slots, its user FBs. *)
Record runs_module (m : IrModule) (s : Vm) : Prop := {
  rm_code : v_code s = code m;
  rm_inputs : input_slots m <= Slots.size (v_inputs s);
  rm_quality : input_slots m <= len (i_quality (v_inputs s));
  rm_outputs : output_slots m <= Slots.size (v_outputs s);
  rm_fbs : forall id pc, user_fb_entry s id = Some pc ->
    exists e, e ∈ entries m /\ e_is_user_fb e = true /\ e_pc e = pc }.

Lemma register_fbs_from es table i pc :
  mjoin (register_fbs es table !! i) = Some pc ->
  mjoin (table !! i) = Some pc \/ exists e, e ∈ es /\ e_is_user_fb e = true /\ e_pc e = pc.
Proof.
  revert table. induction es as [|e es IH]; intros table H; cbn [register_fbs] in H; [by left|].
  destruct (e_is_user_fb e) eqn:Ee.
  - apply IH in H as [H|(e' & H1 & H2)]; [|right; exists e'; split; [by right|done]].
    set (idx := Z.to_nat _) in H.
    destruct (decide (i = idx)) as [->|Hne].
    + right. exists e. split; [left|]. split; [done|].
      destruct (Nat.leb_spec (length table) idx);
        (rewrite list_lookup_insert_eq in H by (rewrite ?length_resize; lia)); cbn in H; congruence.
    + rewrite list_lookup_insert_ne in H by done. left.
      destruct (Nat.leb_spec (length table) idx) as [Hl|]; [|done].
      destruct (decide (i < length table)%nat) as [Hi|Hi].
      * by rewrite lookup_resize in H by lia.
      * destruct (decide (i < S idx)%nat).
        -- by rewrite lookup_resize_new in H by lia.
        -- by rewrite lookup_resize_old in H by lia.
  - apply IH in H as [H|(e' & H1 & H2)]; [by left|]. right. exists e'. split; [by right|done].
Qed.

Lemma register_fbs_range es table :
  Forall (fun e => u_range 32 (e_pc e)) es ->
  Forall (fun o => match o with Some pc => u_range 32 pc | None => True end) table ->
  Forall (fun o => match o with Some pc => u_range 32 pc | None => True end) (register_fbs es table).
Proof.
  intros He. revert table. induction He as [|e es He _ IH]; intros table Ht; cbn; [done|].
  case_match; [|by apply IH]. apply IH. apply Forall_insert; [|done].
  case_match; [|done]. by apply Forall_resize.
Qed.

Lemma load_ok m config s `{NanRule} :
  module_ok m -> u_range 64 (instruction_budget config) -> load m config = Ok s ->
  vm_ok s /\ runs_module m s.
Proof.
  intros [] Hb Hl. unfold load in Hl. apply res_bind_Ok in Hl as (? & _ & Hl).
  apply Ok_inj in Hl as <-. split.
  - split; cbn [v_code v_data v_retain v_inputs v_outputs v_entries v_user_fb_pc v_primitives
      v_stack v_sp v_frames v_fp v_data_base v_instruction_budget v_div0_count];
      try done; try apply slots_bools_ok; try apply store_ok_capacity; try apply length_replicate;
      try apply Nat.le_0_l; try (unfold u_range; lia);
      try (apply seg_zeros_ok; unfold u_range in *; lia).
    + by apply Forall_map.
    + by apply register_fbs_range.
    + by apply Forall_replicate.
    + apply Forall_replicate. split; cbn; unfold u_range; lia.
  - split; cbn [v_code v_inputs v_outputs]; try done;
      unfold Slots.size, len, Slots.bools; cbn; rewrite ?length_replicate;
      unfold u_range in *; try lia.
    intros id pc Hid. apply register_fbs_from in Hid as [Hid|Hid]; [|done].
    by rewrite lookup_nil in Hid.
Qed.

Lemma load_verified m config s :
  verify config = true -> load m config = Ok s -> verify_module m = Ok tt.
Proof.
  intros Hv Hl. unfold load in Hl. rewrite Hv in Hl. apply res_bind_Ok in Hl as ([] & Hl & _).
  destruct (verify_module m) as [[]| |]; [done|discriminate Hl..].
Qed.

Lemma verified_entry m e :
  verify_module m = Ok tt -> e ∈ entries m ->
  verify_entry m (e_is_user_fb e) (e_pc e) = Ok tt.
Proof.
  unfold verify_module. intros Hv He. repeat (case_match; [discriminate Hv|]).
  revert Hv. induction He as [es|e' es He IH]; cbn [verify_entries]; intros Hv;
    repeat (case_match; [discriminate Hv|]); apply res_bind_Ok in Hv as ([] & Hv1 & Hv2); auto.
Qed.

(** Loading. Loading a module (verified or not) gives a well-formed machine
    that runs that module; with verification on, loading succeeds exactly when
    the verifier accepts. *)
Lemma load_establishes `{NanRule} (m : IrModule) (config : VmConfig)
    (Hm : module_ok m) (Hbudget : u_range 64 (instruction_budget config)) :
  (forall s, load m config = Ok s -> vm_ok s /\ runs_module m s) /\
  ((exists s, load m config = Ok s) <-> (verify config = true -> verify_module m = Ok tt)).
Proof.
  split; [intros s; by apply load_ok|]. split.
  - intros [s Hs] Hv. by eapply load_verified.
  - intros Hv. unfold load. destruct (verify config); [|by eexists].
    rewrite Hv by done. by eexists.
Qed.

(** ** Witness *)

Definition small_config : VmConfig :=
  {| primitive_instances := 1; instruction_budget := 200; verify := true |}.

Lemma toggle_module_ok : module_ok toggle_module.
Proof.
  split; [exact toggle_code_ok|..]; repeat constructor; cbn; lia.
Qed.

Lemma load_establishes_witness :
  exists s, load toggle_module small_config = Ok s /\ vm_ok s.
Proof.
  destruct (load_establishes toggle_module small_config toggle_module_ok ltac:(by vm_compute))
    as [H1 [_ H2]].
  destruct (H2 (fun _ => toggle_verified)) as [s Hs]. exists s. split; [exact Hs|apply (H1 s Hs)].
Defined.
