(* ===== verification/VmVerified.v ===== *)
(** * What verification buys at run time

    The verifier's guarantee carried to the interpreter: a verified module never
    underflows the operand stack, never decodes a bad instruction, never leaves
    its code, never reads an input or output slot that does not exist and halts
    only at the task level, even through user function blocks, whose effect on
    the stack the verifier does not track. *)
From S2P Require Import Prelude Float32 IrTypes IrEncode IrVerify.
From S2P Require Import FbDispatch VmValue VmMemory VmExec VmInv VmLoad.

(** Errors a verified module may still raise: bounds errors of the data and
    retain segments, type errors, primitive faults, calls of unregistered user
    FBs, nesting and stack limits, the budget. *)
Definition allowed (e : VmError) : Prop :=
  match e with
  | EStackOverflow _ | ECallDepth _ | EUnknownUserFb _ | EBudget _ => True
  | EBounds _ d => d = "store offset exceeds segment" \/ d = "load offset exceeds segment" \/
                   d = "load OOB"
  | EType _ d => d <> "bad CONV tag"
  | EPrimitive _ d => d <> "unknown primitive id"
  | EStackUnderflow _ | ERetOutsideFb _ | EDecode _ _ | EVerify _ | EUnknownEntry _ => False
  end.

Section Moves.
Context `{NanRule} (m : IrModule) (now : Z).

(** The slots the module declares exist. *)
Definition has_slots (s : Vm) : Prop :=
  input_slots m <= Slots.size (v_inputs s) /\ input_slots m <= len (i_quality (v_inputs s)) /\
  output_slots m <= Slots.size (v_outputs s).

Definition same_frames (s s' : Vm) : Prop :=
  v_frames s' = v_frames s /\ v_fp s' = v_fp s /\ v_user_fb_pc s' = v_user_fb_pc s /\
  v_code s' = v_code s.

(** [c] pops [p] operands and pushes [q], leaving the call stack alone; it fails
    only with an allowed error, and overflows the stack only if it must. *)
Definition moves {A} (c : M Vm VmError A) (p q : nat) (Q : A -> Prop) : Prop :=
  forall s, has_slots s -> (p <= v_sp s)%nat ->
  match c s with
  | (s', r) => has_slots s' /\ same_frames s s' /\
      match r with
      | Ok a => v_sp s' = (v_sp s - p + q)%nat /\ Q a
      | Err e => allowed e /\
          (forall pc, e = EStackOverflow pc -> q <> 0%nat /\ (MAX_STACK < v_sp s - p + q)%nat)
      | Panic => True
      end
  end.

Lemma moves_ret {A} (a : A) (Q : A -> Prop) : Q a -> moves (mret a) 0 0 Q.
Proof. intros Ha s Hs _. split; [done|]. split; [done|]. split; [cbn; lia|done]. Qed.

(** First [c], which moves [p1] and [q1], then [k]. *)
Lemma moves_bind {A B} (c : M Vm VmError A) (k : A -> M Vm VmError B) p1 q1 p2 q2 P Q :
  q1 = 0%nat \/ p2 = 0%nat ->
  moves c p1 q1 P -> (forall a, P a -> moves (k a) p2 q2 Q) ->
  moves (c ≫= k) (p1 + p2) (q1 + q2) Q.
Proof.
  intros Hqp Hc Hk s Hs Hp. specialize (Hc s Hs ltac:(lia)). unfold mbind, M_bind.
  destruct (c s) as [s1 [a|e|]]; destruct Hc as (H1 & H2 & H3); [|split; [done|split; [done|]]|done].
  - destruct H3 as [Hsp HP]. specialize (Hk a HP s1 H1 ltac:(lia)).
    destruct (k a s1) as [s2 r]. destruct Hk as (H4 & (H5 & H6 & H7 & H8) & H9).
    destruct H2 as (Hf1 & Hf2 & Hf3 & Hf4).
    split; [done|]. split; [repeat split; congruence|].
    destruct r as [b|e|]; [|destruct H9 as [Ha Ho]; split; [done|]|done].
    + destruct H9 as [H9 HQ]. split; [lia|done].
    + intros pc He. destruct (Ho pc He). split; lia.
  - destruct H3 as [Ha Ho]. split; [done|]. intros pc He. destruct (Ho pc He). split; lia.
Qed.

Lemma moves_seq {A B} (c : M Vm VmError A) (k : A -> M Vm VmError B) p q p1 q1 p2 q2 P Q :
  p = (p1 + p2)%nat -> q = (q1 + q2)%nat -> q1 = 0%nat \/ p2 = 0%nat ->
  moves c p1 q1 P -> (forall a, P a -> moves (k a) p2 q2 Q) -> moves (c ≫= k) p q Q.
Proof. intros -> ->. apply moves_bind. Qed.

Lemma moves_weaken {A} (c : M Vm VmError A) p q P Q :
  moves c p q P -> (forall a, P a -> Q a) -> moves c p q Q.
Proof.
  intros Hc HP s Hs Hp. specialize (Hc s Hs Hp). destruct (c s) as [s' [a|e|]]; naive_solver.
Qed.

Lemma moves_get_then {A} (k : Vm -> M Vm VmError A) p q Q :
  (forall s, has_slots s -> moves (k s) p q Q) -> moves (s ← m_get; k s) p q Q.
Proof. intros Hk s Hs Hp. unfold mbind, M_bind, m_get. by apply Hk. Qed.

Lemma moves_lift {A} (r : res VmError A) (Q : A -> Prop) :
  (forall e, r = Err e -> allowed e /\ forall pc, e <> EStackOverflow pc) ->
  (forall a, r = Ok a -> Q a) -> moves (m_lift r) 0 0 Q.
Proof.
  intros He HQ s Hs _. unfold m_lift. split; [done|]. split; [done|].
  destruct r as [a|e|]; [split; [lia|auto]| |done].
  destruct (He e eq_refl) as [Ha Ho]. split; [done|]. intros pc ->. by edestruct Ho.
Qed.

Lemma moves_modify (f : Vm -> Vm) :
  (forall s, has_slots s -> has_slots (f s) /\ same_frames s (f s) /\ v_sp (f s) = v_sp s) ->
  moves (m_modify f) 0 0 (fun _ => True).
Proof.
  intros Hf s Hs _. destruct (Hf s Hs) as (H1 & H2 & H3). unfold m_modify.
  split; [done|]. split; [done|]. split; [lia|done].
Qed.

Lemma moves_update {X} (get : Vm -> X) (set : X -> Vm -> Vm) (f : X -> res VmError X) :
  (forall s e, f (get s) = Err e -> allowed e /\ forall pc, e <> EStackOverflow pc) ->
  (forall s x, has_slots s -> f (get s) = Ok x ->
    has_slots (set x s) /\ same_frames s (set x s) /\ v_sp (set x s) = v_sp s) ->
  moves (update_field get set f) 0 0 (fun _ => True).
Proof.
  intros He Hx s Hs _. unfold update_field. destruct (f (get s)) as [x|e|] eqn:E; [| |done].
  - destruct (Hx s x Hs E) as (H1 & H2 & H3). split; [done|]. split; [done|]. split; [lia|done].
  - destruct (He s e E) as [Ha Ho]. split; [done|]. split; [done|]. split; [done|].
    intros pc ->. by edestruct Ho.
Qed.

Lemma moves_push v pc : moves (push v pc) 0 1 (fun _ => True).
Proof.
  intros s Hs _. unfold push. destruct (Nat.leb_spec MAX_STACK (v_sp s)).
  - split; [done|]. split; [done|]. split; [done|]. intros _ _. split; lia.
  - split; [done|]. split; [done|]. split; [cbn; lia|done].
Qed.

Lemma moves_pop pc : moves (pop pc) 1 0 (fun _ => True).
Proof.
  intros s Hs Hp. unfold pop. destruct (v_sp s) as [|sp] eqn:E; [lia|].
  split; [done|]. split; [done|]. unfold index.
  destruct (v_stack s !! sp); [split; [cbn; lia|done]|done].
Qed.

(** ** Primitive calls *)

Lemma moves_pop_inputs n pc acc :
  moves (pop_inputs n pc acc) n 0 (fun _ => True).
Proof.
  revert acc. induction n as [|n IH]; intros acc; cbn [pop_inputs]; [by apply moves_ret|].
  apply (moves_bind (pop pc) _ 1 0 n 0 (fun _ => True)); [by left|apply moves_pop|].
  intros v _. apply IH.
Qed.

Lemma moves_push_outputs id vals n pc : moves (push_outputs id vals n pc) 0 n (fun _ => True).
Proof.
  induction n as [|n IH]; cbn [push_outputs]; [by apply moves_ret|].
  apply (moves_bind (m_lift (index vals n)) _ 0 0 0 (S n) (fun _ => True)); [by left| |].
  - apply moves_lift; [|done]. intros e He. unfold index in He. by case_match.
  - intros v _. apply (moves_bind _ _ 0 1 0 n (fun _ => True)); [by right|apply moves_push|].
    intros _ _. apply IH.
Qed.

Lemma call_primitive_count id instance inputs s s' o :
  call_primitive id instance inputs now s = (s', Ok o) ->
  count o = Z.of_nat (Prim.output_count id).
Proof.
  assert (Hw : forall X (P : Pool X) k, (forall x x' o, k x = Ok (x', o) ->
    count o = Z.of_nat (Prim.output_count id)) ->
    with_instance instance k s = (s', Ok o) -> count o = Z.of_nat (Prim.output_count id)).
  { intros X P k Hk Hw. unfold with_instance in Hw. destruct (pool s !! instance); [|done].
    destruct (k x) as [[x' o']| |] eqn:E; simplify_eq. by eapply Hk. }
  unfold call_primitive. case_match; [done|].
  destruct id; apply Hw; intros x x' o' Hk;
    unfold call_timer, call_counter, call_latch, call_edge, call_pid in Hk;
    repeat (apply res_bind_Ok in Hk as (? & _ & Hk));
    repeat match goal with H : context [let '(_, _) := ?x in _] |- _ => destruct x end;
    apply Ok_inj in Hk; by injection Hk as _ <-.
Qed.

Lemma moves_call_prim fb_id p instance pc :
  Prim.of_fb_id fb_id = Some p ->
  moves (call_prim now fb_id instance pc) (Prim.input_count p) (Prim.output_count p) (fun _ => True).
Proof.
  intros Hp. unfold call_prim. rewrite Hp.
  eapply (moves_seq _ _ _ _ (Prim.input_count p) 0 0 (Prim.output_count p) (fun _ => True));
    [lia|lia|by left|apply moves_pop_inputs|].
  intros inputs _.
  eapply (moves_seq _ _ _ _ 0 0 0 (Prim.output_count p)
    (fun o => count o = Z.of_nat (Prim.output_count p))); [lia|lia|by left| |].
  - intros s Hs _. destruct (call_primitive p instance inputs now (v_primitives s)) as [st r] eqn:E.
    split; [done|]. split; [done|]. destruct r as [o|e|]; cbn [map_err]; [| |done].
    + split; [cbn; lia|]. by eapply call_primitive_count.
    + split; [by destruct e|done].
  - intros o Ho. rewrite Ho, Nat2Z.id. apply moves_push_outputs.
Qed.

(** ** Instructions *)

Lemma moves_push_next {Q : Z + ExecResult -> Prop} v pc n :
  Q (inl n) -> moves (push v pc ;; mret (inl n)) 0 1 Q.
Proof.
  intros HQ. apply (moves_bind _ _ 0 1 0 0 (fun _ => True)); [by right|apply moves_push|].
  intros _ _. by apply moves_ret.
Qed.

Lemma moves_pop_then {A} (k : VmValue -> M Vm VmError A) p q Q pc :
  (forall v, moves (k v) p q Q) -> moves (v ← pop pc; k v) (S p) q Q.
Proof.
  intros Hk. apply (moves_bind _ _ 1 0 p q (fun _ => True)); [by left|apply moves_pop|auto].
Qed.

(** A computation that does not touch the stack, then the rest. *)
Lemma moves_skip {A B} (c : M Vm VmError A) (k : A -> M Vm VmError B) P p q Q :
  moves c 0 0 P -> (forall a, P a -> moves (k a) p q Q) -> moves (c ≫= k) p q Q.
Proof. intros Hc Hk. by apply (moves_bind c k 0 0 p q P); [left| |]. Qed.

Definition goes_to (l : list Z) (r : Z + ExecResult) : Prop :=
  match r with inl pc => pc ∈ l | inr _ => False end.

Lemma moves_vm_binop op a b pc :
  is_binop op = true -> moves (vm_binop op a b pc) 0 0 (fun _ => True).
Proof.
  intros Hop s Hs _. unfold vm_binop.
  destruct (binop op a b pc (v_div0_count s)) as [d r] eqn:E.
  split; [done|]. split; [done|]. destruct r as [v|e|]; [split; [cbn; lia|done]| |done].
  enough (exists msg, e = EType pc msg /\ msg <> "bad CONV tag") as (msg & -> & Hm) by done.
  revert E. destruct op; try discriminate Hop; cbn [binop]; try done;
    destruct a, b; cbn; unfold m_lift, count_div0, sdiv, m_modify, m_err, m_panic;
    repeat case_match; intros; simplify_eq; try (by eexists);
    try (cbn in *; repeat case_match; simplify_eq).
Qed.

Lemma in_one (x : Z) : x ∈ [x].
Proof. left. Qed.

Lemma load_err s off pc e : Seg.load s off pc = Err e -> allowed e /\ forall pc, e <> EStackOverflow pc.
Proof.
  unfold Seg.load, Seg.load_as. repeat case_match; intros; simplify_eq; split; cbn; auto.
Qed.

Lemma store_err s off v pc e :
  Seg.store s off v pc = Err e -> allowed e /\ forall pc, e <> EStackOverflow pc.
Proof. unfold Seg.store. case_match; intros; simplify_eq; split; cbn; auto. Qed.

Lemma unary_err op v pc e :
  op = Neg \/ op = Not -> unary_op op v pc = Err e -> allowed e /\ forall pc, e <> EStackOverflow pc.
Proof. intros [-> | ->]; destruct v; cbn; intros; simplify_eq; done. Qed.

(** Load a value, then push it. *)
Lemma moves_load_push (r : res VmError VmValue) pc n :
  (forall e, r = Err e -> allowed e /\ forall pc, e <> EStackOverflow pc) ->
  moves (v ← m_lift r; push v pc ;; mret (inl n)) 0 1 (goes_to [n]).
Proof.
  intros He. eapply (moves_skip _ _ (fun _ => True)); [by apply moves_lift|].
  intros v _. apply moves_push_next. apply in_one.
Qed.

Lemma slot_lookup {A} (l : list A) i n (e : VmError) :
  0 <= i < n -> n <= len l -> forall e', ok_or (l !! Z.to_nat i) e = Err e' -> False.
Proof.
  intros Hi Hl e' He. destruct (lookup_lt_is_Some_2 l (Z.to_nat i)) as [x Hx];
    [unfold len in *; lia|]. by rewrite Hx in He.
Qed.

Lemma moves_store_seg (get : Vm -> ByteSegment) set off v pc :
  (forall s d, has_slots s -> has_slots (set d s) /\ same_frames s (set d s) /\ v_sp (set d s) = v_sp s) ->
  moves (update_field get set (fun d => Seg.store d off v pc)) 0 0 (fun _ => True).
Proof. intros Hset. apply moves_update; [intros s e; apply store_err|]. auto. Qed.

Lemma moves_set_output i v pc :
  0 <= i < output_slots m ->
  moves (update_field v_outputs set_outputs (fun o => Slots.set o i v pc)) 0 0 (fun _ => True).
Proof.
  intros Hi s (H1 & H2 & H3) _. unfold update_field, Slots.set.
  destruct (lookup_lt_is_Some_2 (i_values (v_outputs s)) (Z.to_nat i)) as [x Hx];
    [unfold Slots.size, len in *; lia|]. rewrite Hx.
  split; [|split; [done|split; [cbn; lia|done]]]. split; [done|]. split; [done|].
  unfold Slots.size, len in *. cbn. by rewrite length_insert.
Qed.

Lemma moves_simple op payload size pc :
  well_formed_instr (Simple op payload) -> slot_in_range m (Simple op payload) -> 0 <= payload ->
  op <> Halt -> op <> Ret ->
  moves (exec_simple op payload size pc) (pops_of (Simple op payload))
    (pushes_of (Simple op payload)) (goes_to (succs_of (Simple op payload) pc size)).
Proof.
  intros (Hcall & Hwide & Hconv) Hslot Hp Hhalt Hret. cbn [slot_in_range] in Hslot.
  assert (Hget : forall s : Vm, has_slots s -> True) by done.
  destruct op; try done; cbn [exec_simple pops_of pushes_of succs_of];
    try (apply moves_pop_then; intros b; apply moves_pop_then; intros a;
         eapply (moves_skip _ _ (fun _ => True)); [by apply moves_vm_binop|];
         intros r _; apply moves_push_next, in_one).
  - apply moves_ret, in_one.
  - apply moves_push_next, in_one.
  - apply moves_get_then. intros s _. apply moves_load_push. intros e. apply load_err.
  - apply moves_pop_then. intros v. apply moves_get_then. intros s _.
    eapply moves_skip; [by apply moves_store_seg|]. intros _ _. apply moves_ret, in_one.
  - apply moves_get_then. intros s _. apply moves_load_push. intros e. apply load_err.
  - apply moves_pop_then. intros v. apply moves_get_then. intros s _.
    eapply moves_skip; [by apply moves_store_seg|]. intros _ _.
    eapply moves_skip; [by apply moves_modify|]. intros _ _. apply moves_ret, in_one.
  - apply moves_get_then. intros s (H1 & H2 & H3). apply moves_load_push. intros e He.
    exfalso. unfold Slots.get in He. by eapply slot_lookup in He.
  - apply moves_pop_then. intros v.
    eapply moves_skip; [by apply moves_set_output|]. intros _ _. apply moves_ret, in_one.
  - apply moves_get_then. intros s (H1 & H2 & H3). apply moves_load_push. intros e He.
    exfalso. unfold Slots.get in He. by eapply slot_lookup in He.
  - apply moves_get_then. intros s (H1 & H2 & H3).
    eapply (moves_skip _ _ (fun _ => True)); [apply moves_lift; [|done]|].
    + intros e He. exfalso. unfold Slots.quality_good in He. by eapply slot_lookup in He.
    + intros g _. apply moves_push_next, in_one.
  - apply moves_pop_then. intros a. apply moves_load_push. intros e. apply unary_err. by left.
  - apply moves_pop_then. intros a. apply moves_load_push. intros e. apply unary_err. by right.
  - apply moves_ret, in_one.
  - apply moves_pop_then. intros c. apply moves_ret. cbn. destruct (Val.as_bool c); set_solver.
  - apply moves_pop_then. intros c. apply moves_ret. cbn. destruct (Val.as_bool c); set_solver.
  - apply moves_pop_then. intros a. destruct (Hconv eq_refl) as [ty Hty]. rewrite Hty. cbn [ok_or].
    eapply (moves_skip _ _ (fun _ => True)); [by apply moves_lift|].
    intros t _. apply moves_push_next, in_one.
Qed.

Lemma moves_wide op p imm size pc :
  well_formed_instr (WithImm32 op p imm) ->
  moves (exec_wide op imm size pc) 0 1 (goes_to [pc + size]).
Proof.
  intros Hw. destruct op; try discriminate Hw; cbn [exec_wide]; apply moves_push_next, in_one.
Qed.

Lemma moves_prim_call id base size pc :
  well_formed_instr (ICallFb 0 id base) ->
  moves (exec_call now 0 id base size pc) (pops_of (ICallFb 0 id base))
    (pushes_of (ICallFb 0 id base)) (goes_to [pc + size]).
Proof.
  intros Hw. destruct (Hw eq_refl) as [p Hp]. cbn [pops_of pushes_of]. rewrite Hp. cbn [Z.eqb].
  unfold exec_call. cbn [Z.eqb].
  eapply (moves_seq _ _ _ _ (Prim.input_count p) (Prim.output_count p) 0 0 (fun _ => True));
    [lia|lia|by right|by apply moves_call_prim|].
  intros _ _. apply moves_ret, in_one.
Qed.
End Moves.

(** ** The stack depth along a run *)

Section Sound.
Context `{NanRule} (m : IrModule) (now : Z).
Hypothesis (Hcode : bytes_ok (code m)) (Hver : verify_module m = Ok tt).
Hypothesis (Hentries : Forall (fun e => u_range 32 (e_pc e)) (entries m)).
Hypothesis (Hnow : u_range 64 now).

(** The verifier visited [pc], in code verified as a user FB or not, with [n]
    operands on its stack. *)
Definition at_depth (fb : bool) (pc : Z) (n : nat) : Prop :=
  exists seen st, closed m fb seen /\ seen !! pc = Some st /\ length st = n.

(** The active calls: each frame returns to a visited counter of its caller,
    above whose operands the callee's begin; [base] is how many operands lie
    below the current code's, [fb] whether that is a user FB. *)
Inductive call_chain (f0 : bool) : list Frame -> bool -> nat -> Prop :=
  | chain_nil : call_chain f0 [] f0 0
  | chain_call fs f fb base n :
      call_chain f0 fs fb base -> at_depth fb (return_pc f) n ->
      call_chain f0 (fs ++ [f]) true (base + n).

Definition no_fbs (s : Vm) : Prop := forall id, user_fb_entry s id = None.

Record sound_inv (f0 : bool) (pc : Z) (s : Vm) : Prop := {
  si_ok : vm_ok s;
  si_module : runs_module m s;
  si_pc : 0 <= pc;
  si_depth : exists fb base n,
    call_chain f0 (take (v_fp s) (v_frames s)) fb base /\ at_depth fb pc n /\
    (base + n <= v_sp s)%nat /\ (no_fbs s -> v_fp s = 0%nat /\ v_sp s = n) }.

Lemma at_depth_visit fb pc n :
  at_depth fb pc n ->
  exists st st' nexts t i sz, length st = n /\ visit_spec m fb pc st st' nexts t i sz /\ 0 <= pc /\
    forall q, q ∈ succs_of i pc sz -> at_depth fb q (n - pops_of i + pushes_of i).
Proof.
  intros (seen & st & Hc & Hs & Hl). destruct (Hc pc st Hs) as (Hpc & d & st' & nexts & t & Hv & Hn).
  destruct (visit_Ok _ _ _ _ _ _ _ _ Hv) as (i & sz & Hspec).
  exists st, st', nexts, t, i, sz. split; [done|]. split; [done|]. split; [done|].
  intros q Hq. rewrite <-(vs_nexts _ _ _ _ _ _ _ _ _ Hspec) in Hq.
  apply list_elem_of_fmap in Hq as (nx & -> & Hnx).
  destruct (Hn nx Hnx) as [(st2 & H1 & H2)|H1]; [|by apply elem_of_nil in H1].
  exists seen, st2. split; [done|]. split; [done|].
  rewrite (compatible_length _ _ H2), (vs_stack _ _ _ _ _ _ _ _ _ Hspec). by rewrite Hl.
Qed.

Lemma runs_frozen s s' : runs_module m s -> frozen s s' -> runs_module m s'.
Proof.
  intros [] []. split; rewrite ?fz_inputs, ?fz_outputs; try assumption; [congruence|].
  unfold user_fb_entry. rewrite fz_user_fb. assumption.
Qed.

Lemma runs_slots s : runs_module m s -> has_slots m s.
Proof. intros []. done. Qed.

Lemma fb_entry_depth s id pc : runs_module m s -> user_fb_entry s id = Some pc -> at_depth true pc 0.
Proof.
  intros Hm Hid. destruct (rm_fbs m s Hm id pc Hid) as (e & He & Hfb & <-).
  pose proof (verified_entry m e Hver He) as Hv. rewrite Hfb in Hv.
  rewrite Forall_forall in Hentries. destruct (Hentries e He) as [Hpc _].
  destruct (verify_entry_closed m true Hcode (e_pc e) Hpc Hv) as (seen & Hc & Hs).
  by exists seen, [].
Qed.

Lemma call_chain_snoc f0 fs f fb base :
  call_chain f0 (fs ++ [f]) fb base ->
  exists fb' base' n, call_chain f0 fs fb' base' /\ at_depth fb' (return_pc f) n /\
    base = (base' + n)%nat.
Proof.
  inversion 1 as [Hnil|fs' f' fb' base' n Hc Hd Heq]; [by destruct fs|].
  apply app_inj_tail in Heq as [-> ->]. eauto 6.
Qed.

Lemma take_fp_pred s fp f :
  v_fp s = S fp -> v_frames s !! fp = Some f ->
  take (v_fp s) (v_frames s) = take fp (v_frames s) ++ [f].
Proof. intros -> Hf. by apply take_S_r. Qed.

(** A computation that moves the stack as the verifier computed keeps the
    invariant. *)
Lemma moves_sound f0 pc s s' r i sz fb base n (c : M Vm VmError (Z + ExecResult)) :
  sound_inv f0 pc s -> c s = (s', r) ->
  (vm_ok s' /\ frozen s s' /\ forall pc', r = Ok (inl pc') -> 0 <= pc') ->
  call_chain f0 (take (v_fp s) (v_frames s)) fb base -> (base + n <= v_sp s)%nat ->
  (no_fbs s -> v_fp s = 0%nat /\ v_sp s = n) ->
  (pops_of i <= n)%nat -> (pushes_of i <> 0 -> n - pops_of i + pushes_of i <= V_MAX_STACK)%nat ->
  (forall q, q ∈ succs_of i pc sz -> at_depth fb q (n - pops_of i + pushes_of i)) ->
  moves m c (pops_of i) (pushes_of i) (goes_to (succs_of i pc sz)) ->
  match r with
  | Ok (inl pc') => sound_inv f0 pc' s'
  | Ok (inr _) => False
  | Err e => allowed e /\ (no_fbs s -> forall pc, e <> EStackOverflow pc)
  | Panic => True
  end.
Proof.
  intros [Hok Hm Hpc _] Hc (Hok' & Hfz & Hpc') Hch Hsp Hno Hp Hmax Hsucc Hmv.
  specialize (Hmv s (runs_slots s Hm) ltac:(lia)). rewrite Hc in Hmv.
  destruct Hmv as (_ & (Hf1 & Hf2 & Hf3 & _) & Hr). destruct r as [[pc'|e]|e|]; [|by destruct Hr| |done].
  - destruct Hr as [Hsp' Hgo]. split; [done|by eapply runs_frozen|by apply Hpc'|].
    exists fb, base, (n - pops_of i + pushes_of i)%nat. rewrite Hf1, Hf2.
    split; [done|]. split; [by apply Hsucc|]. split; [lia|].
    unfold no_fbs, user_fb_entry. rewrite Hf3. intros Hn. destruct (Hno Hn) as [H1 H2].
    split; [done|lia].
  - destruct Hr as [Ha Ho]. split; [done|]. intros Hn pc1 He. destruct (Ho pc1 He) as [H1 H2].
    destruct (Hno Hn) as [_ H3]. specialize (Hmax H1). unfold V_MAX_STACK, MAX_STACK in *. lia.
Qed.

Lemma sound_ret f0 pc s s' r size payload fb base :
  sound_inv f0 pc s -> exec_simple Ret payload size pc s = (s', r) ->
  (vm_ok s' /\ frozen s s' /\ forall pc', r = Ok (inl pc') -> 0 <= pc') ->
  call_chain f0 (take (v_fp s) (v_frames s)) fb base -> (base <= v_sp s)%nat ->
  (no_fbs s -> v_fp s = 0%nat) ->
  match r with
  | Ok (inl pc') => sound_inv f0 pc' s'
  | Ok (inr Returned) => v_fp s' = 0%nat
  | _ => False
  end.
Proof.
  intros [Hok Hm Hpc _] Hc (Hok' & Hfz & Hpc') Hch Hsp Hno.
  revert Hc. cbn [exec_simple]. unfold mbind at 1, M_bind at 1, m_get.
  destruct (v_fp s) as [|fp] eqn:Efp; [intros Hc; by injection Hc as <- <-|].
  pose proof (ok_fp s Hok) as Hfp.
  destruct (frame_lookup s fp Hok) as (f & Hf & Hfok); [lia|].
  assert (Hbase : exists d, (match fp with
      | O => mret 0
      | S fp => f ← m_lift (index (v_frames s) fp); mret (fr_data_base f)
      end : M Vm VmError Z) s = (s, Ok d)).
  { destruct fp as [|fp']; [by eexists|].
    destruct (frame_lookup s fp' Hok) as (g & Hg & _); [lia|].
    unfold mbind, M_bind, m_lift, index. rewrite Hg. by eexists. }
  destruct Hbase as [d Hd]. unfold mbind at 1, M_bind at 1, m_lift at 1, index at 1. rewrite Hf.
  unfold mbind at 1, M_bind at 1. rewrite Hd.
  intros Hc. injection Hc as <- <-.
  rewrite <-Efp in Hch. rewrite (take_fp_pred s fp f Efp Hf) in Hch.
  apply call_chain_snoc in Hch as (fb' & base' & n & Hch & Hat & ->).
  split; [done|by eapply runs_frozen|by apply Hpc'|].
  exists fb', base', n. cbn [v_fp v_frames v_sp set_frames].
  split; [done|]. split; [done|]. split; [lia|].
  intros Hn. specialize (Hno Hn). done.
Qed.

Lemma sound_user_call f0 pc s s' r k id ib size fb base n :
  sound_inv f0 pc s -> k <> 0 -> exec_call now k id ib size pc s = (s', r) ->
  (vm_ok s' /\ frozen s s' /\ forall pc', r = Ok (inl pc') -> 0 <= pc') ->
  call_chain f0 (take (v_fp s) (v_frames s)) fb base -> (base + n <= v_sp s)%nat ->
  at_depth fb (pc + size) n ->
  match r with
  | Ok (inl pc') => sound_inv f0 pc' s'
  | Ok (inr _) => False
  | Err e => allowed e /\ forall pc, e <> EStackOverflow pc
  | Panic => False
  end.
Proof.
  intros [Hok Hm Hpc _] Hk Hc (Hok' & Hfz & Hpc') Hch Hsp Hat.
  revert Hc. unfold exec_call. apply Z.eqb_neq in Hk as ->.
  unfold mbind at 1, M_bind at 1, m_get.
  unfold mbind at 1, M_bind at 1, m_lift.
  destruct (user_fb_entry s id) as [entry|] eqn:Eid; cbn [ok_or];
    [|intros Hc; by injection Hc as <- <-].
  destruct (Nat.leb_spec MAX_CALL_DEPTH (v_fp s)) as [|Hfp];
    [intros Hc; by injection Hc as <- <-|].
  intros Hc. injection Hc as <- <-.
  split; [done|by eapply runs_frozen|by apply Hpc'|].
  exists true, (base + n)%nat, 0%nat. cbn [v_fp v_frames v_sp set_frames].
  split; [|split; [by eapply fb_entry_depth|split; [lia|]]].
  - assert (Ht : take (S (v_fp s)) (<[v_fp s := mkFrame (pc + size) ib]> (v_frames s))
      = take (v_fp s) (v_frames s) ++ [mkFrame (pc + size) ib]).
    { rewrite (take_S_r _ _ (mkFrame (pc + size) ib)).
      - by rewrite take_insert_ge by lia.
      - apply list_lookup_insert_eq. by rewrite (ok_frames_len s Hok). }
    rewrite Ht. by econstructor.
  - intros Hn. specialize (Hn id). change (user_fb_entry s id = None) in Hn. congruence.
Qed.

(** One instruction of a verified module. *)
Definition sound_outcome (f0 : bool) (s s' : Vm) (r : res VmError (Z + ExecResult)) : Prop :=
  match r with
  | Ok (inl pc') => sound_inv f0 pc' s'
  | Ok (inr Halted) => v_fp s' = 0%nat /\ f0 = false
  | Ok (inr Returned) => v_fp s' = 0%nat
  | Err e => allowed e /\ (no_fbs s -> forall pc, e <> EStackOverflow pc)
  | Panic => True
  end.

Lemma chain_task f0 fs fb base : call_chain f0 fs fb base -> fb = false -> fs = [] /\ f0 = false.
Proof. by destruct 1. Qed.

Lemma sound_step f0 pc s s' r :
  sound_inv f0 pc s -> step now pc s = (s', r) -> sound_outcome f0 s s' r.
Proof.
  intros Hinv Hstep. pose proof Hinv as [Hok Hm Hpc (fb & base & n & Hch & Hat & Hsp & Hno)].
  destruct (at_depth_visit fb pc n Hat) as (st & st' & nexts & t & i & sz & Hl & Hspec & _ & Hsucc).
  pose proof (vs_decode _ _ _ _ _ _ _ _ _ Hspec) as Hdec.
  pose proof (vs_pops _ _ _ _ _ _ _ _ _ Hspec) as Hpops. rewrite Hl in Hpops.
  assert (Hmax : (pushes_of i <> 0 -> n - pops_of i + pushes_of i <= V_MAX_STACK)%nat).
  { intros H1. pose proof (vs_max _ _ _ _ _ _ _ _ _ Hspec H1) as H2.
    rewrite (vs_stack _ _ _ _ _ _ _ _ _ Hspec), Hl in H2. exact H2. }
  pose proof (vs_slots _ _ _ _ _ _ _ _ _ Hspec) as Hslots.
  pose proof (vs_wf _ _ _ _ _ _ _ _ _ Hspec) as Hwf.
  pose proof (vs_halt _ _ _ _ _ _ _ _ _ Hspec) as Hhalt.
  destruct (decode_instr_ok _ _ _ _ Hcode Hpc Hdec) as (Hi & Hn & Hn4 & _).
  assert (Hfacts : vm_ok s' /\ frozen s s' /\ forall pc', r = Ok (inl pc') -> 0 <= pc').
  { pose proof (step_ok now pc s Hnow Hok Hpc) as Hk. rewrite Hstep in Hk.
    destruct Hk as (H1 & H2 & H3). split; [done|]. split; [done|]. by intros pc' ->. }
  assert (Hex : exec_instr now i sz pc s = (s', r)).
  { revert Hstep. unfold step, mbind at 1, M_bind at 1, m_get.
    rewrite (rm_code m s Hm), Hdec. done. }
  assert (Hmv : moves m (exec_instr now i sz pc) (pops_of i) (pushes_of i) (goes_to (succs_of i pc sz)) ->
    sound_outcome f0 s s' r).
  { intros Hmv. pose proof (moves_sound f0 pc s s' r i sz fb base n _ Hinv Hex Hfacts Hch Hsp Hno
      Hpops Hmax Hsucc Hmv) as Hr. by destruct r as [[|]| |]. }
  destruct i as [op p|op p imm|k id ib]; cbn [exec_instr] in Hex, Hmv.
  - destruct (decide (op = Halt)) as [->|Hnh].
    { injection Hex as <- <-. destruct fb; [by destruct Hhalt|].
      destruct (chain_task _ _ _ _ Hch eq_refl) as [Htake ->]. split; [|done].
      destruct (v_fp s) as [|fp] eqn:Efp; [done|].
      pose proof (ok_fp s Hok). pose proof (ok_frames_len s Hok).
      apply (f_equal length) in Htake. rewrite length_take in Htake.
      change (length []) with 0%nat in Htake. lia. }
    destruct (decide (op = Ret)) as [->|Hnr].
    { assert (base <= v_sp s)%nat as Hb by (clear -Hsp; lia).
      pose proof (sound_ret f0 pc s s' r sz p fb base Hinv Hex Hfacts Hch Hb
        (fun Hn => proj1 (Hno Hn))) as Hr. destruct r as [[|[]]| |]; done. }
    apply Hmv, moves_simple; try done. apply Hi.
  - apply Hmv. exact (moves_wide m op p imm sz pc Hwf).
  - destruct (decide (k = 0)) as [->|Hk]; [by apply Hmv, moves_prim_call|].
    assert (Hat' : at_depth fb (pc + sz) n).
    { specialize (Hsucc (pc + sz) ltac:(left)). cbn in Hsucc. apply Z.eqb_neq in Hk.
      rewrite Hk in Hsucc. by rewrite Nat.sub_0_r, Nat.add_0_r in Hsucc. }
    pose proof (sound_user_call f0 pc s s' r k id ib sz fb base n Hinv Hk Hex Hfacts Hch Hsp Hat') as Hr.
    destruct r as [[|]|e|]; [done|done| |done]. split; [apply Hr|]. intros _. apply Hr.
Qed.

Lemma sound_steps f0 k pc s pc1 s1 :
  steps now k (pc, s) (pc1, s1) -> sound_inv f0 pc s -> sound_inv f0 pc1 s1.
Proof.
  intros Hst. remember (pc, s) as c eqn:Ec. remember (pc1, s1) as c1 eqn:Ec1.
  revert pc s Ec. induction Hst as [c|k pc0 s0 pc' s' c Hstep _ IH]; intros pc s Ec Hs.
  - by simplify_eq.
  - injection Ec as -> ->. specialize (IH Ec1 pc' s' eq_refl). apply IH.
    by apply (sound_step f0 pc s s' _ Hs Hstep).
Qed.

Lemma sound_start s e :
  vm_ok s -> runs_module m s -> e ∈ entries m ->
  sound_inv (e_is_user_fb e) (e_pc e) (fresh_run s).
Proof.
  intros Hs Hm He. destruct (fresh_run_ok s Hs) as [Hf Hfz].
  rewrite Forall_forall in Hentries. destruct (Hentries e He) as [Hpc _].
  split; [done|by eapply runs_frozen|done|].
  exists (e_is_user_fb e), 0%nat, 0%nat. split; [constructor|]. split; [|split; [cbn; lia|done]].
  pose proof (verified_entry m e Hver He) as Hv.
  destruct (verify_entry_closed m _ Hcode (e_pc e) Hpc Hv) as (seen & Hc & Hsn). by exists seen, [].
Qed.
End Sound.

(** The run of an entry of a verified module. *)
Lemma verified_run `{NanRule} (m : IrModule) (s s' : Vm) (e : EntryPoint) (now : Z)
    (r : res VmError ExecResult)
    (Hm : module_ok m) (Hver : verify_module m = Ok tt) (He : e ∈ entries m)
    (Hs : vm_ok s) (Hruns : runs_module m s) (Hnow : u_range 64 now)
    (Hrun : run_at now (e_pc e) s = Some (s', r)) :
  match r with
  | Err err => allowed err /\ (no_fbs s -> forall pc, err <> EStackOverflow pc)
  | Ok Halted => e_is_user_fb e = false /\ v_fp s' = 0%nat
  | Ok Returned => v_fp s' = 0%nat
  | Panic => run_overflows now (e_pc e) s
  end /\ vm_ok s' /\ runs_module m s'.
Proof.
  pose proof (mo_entries m Hm) as Hent. pose proof (mo_code m Hm) as Hcode.
  pose proof Hent as Hent'. rewrite Forall_forall in Hent'. destruct (Hent' e He) as [Hpc _].
  destruct (run_at_spec now (e_pc e) s Hnow Hs Hpc) as (s2 & r2 & n & pc1 & s1 & H1 & H2 & H3).
  rewrite Hrun in H1. injection H1 as <- <-.
  pose proof (sound_start m Hcode Hver Hent s e Hs Hruns He) as Hstart.
  pose proof (sound_steps m now Hcode Hver Hent Hnow _ _ _ _ _ _ H2 Hstart) as Hinv.
  pose proof Hinv as [Hok1 Hm1 Hpc1 _].
  assert (Hfb : no_fbs s -> no_fbs s1).
  { destruct (steps_ok _ _ _ _ _ _ Hnow H2 (si_ok _ _ _ _ Hstart) Hpc) as (_ & Hfz & _).
    intros Hn id. unfold user_fb_entry. rewrite (fz_user_fb _ _ Hfz). apply Hn. }
  destruct (run_at_safe now (e_pc e) s Hnow Hs Hpc) as (s3 & r3 & Hrun3 & _ & _ & Hpan).
  rewrite Hrun in Hrun3. injection Hrun3 as <- <-.
  destruct H3 as [(_ & -> & ->)|[_ Hend]]; [done|].
  pose proof (step_ok now pc1 s1 Hnow Hok1 Hpc1) as Hk.
  destruct r as [x|err|]; cbn [ends] in Hend; rewrite Hend in Hk; destruct Hk as (K1 & K2 & _);
    pose proof (sound_step m now Hcode Hver Hent Hnow _ _ _ _ _ Hinv Hend) as Hso;
    cbn in Hso; (split; [|split; [done|by eapply runs_frozen]]).
  - destruct x; [by destruct Hso|done].
  - destruct Hso as [Ha Ho]. auto.
  - by apply Hpan.
Qed.

(** ** Properties *)


(** ** Verified programs that misbehave *)

Definition task_entry (name : string) : EntryPoint :=
  {| e_name := bstr name; e_pc := 0; e_is_user_fb := false |}.
Definition fb_entry (name : string) (pc : Z) : EntryPoint :=
  {| e_name := bstr name; e_pc := pc; e_is_user_fb := true |}.

Definition code_module (es : list EntryPoint) (c : bytes) : IrModule := {|
  ir_major := 0; ir_minor := 1; const_size := 0; data_size := 16; retain_size := 0;
  input_slots := 0; output_slots := 0; entries := es; const_data := []; code := c |}.

(** Divide the least DINT by -1. *)
Definition div_module : IrModule := code_module [task_entry "task.main"] overflow_code.

(** A task that calls one trivial user FB [n] times in a row. *)
Definition calls_code (n : nat) : bytes :=
  concat (replicate n (encode_instruction (ICallFb 1 0 0))) ++ encode_instruction (Simple Halt 0) ++
  encode_instruction (Simple Ret 0).
Definition calls_module (n : nat) : IrModule :=
  code_module [task_entry "task.main"; fb_entry "fb.0" (12 * Z.of_nat n + 4)] (calls_code n).

(** A user FB that calls itself. *)
Definition recursive_module : IrModule :=
  code_module [task_entry "task.main"; fb_entry "fb.0" 16]
    (encode_instruction (ICallFb 1 0 0) ++ encode_instruction (Simple Halt 0) ++
     encode_instruction (ICallFb 1 0 0) ++ encode_instruction (Simple Ret 0)).

Definition unverified_config : VmConfig :=
  {| primitive_instances := 1; instruction_budget := 200; verify := false |}.

(** Load and run the first entry: the outcome alone. *)
Definition outcome (m : IrModule) (config : VmConfig) : option (res VmError ExecResult) :=
  match load m config with
  | Ok s => snd <$> run_at 0 0 s
  | Err e => Some (Err e)
  | Panic => Some Panic
  end.

(** A program the verifier accepts can panic the interpreter: loaded with verification on,
    it divides the least DINT by -1. *)
Lemma verified_division_panics :
  verify_module div_module = Ok tt /\ outcome div_module small_config = Some Panic.
Proof. vm_compute. split; reflexivity. Qed.

(** The verifier's call-depth rule counts the calls along a path instead of
    their nesting: a task that calls a trivial user FB 33 times in a row, never
    nesting deeper than one, is rejected although it runs to HALT, while a user
    FB that calls itself without end is accepted and faults at run time. *)
Lemma verifier_depth_counts_calls :
  verify_module (calls_module 32) = Ok tt /\
  verify_module (calls_module 33) = Err (Rule 5 "call depth > 32") /\
  outcome (calls_module 33) unverified_config = Some (Ok Halted) /\
  verify_module recursive_module = Ok tt /\
  outcome recursive_module small_config = Some (Err (ECallDepth 16)).
Proof. vm_compute. repeat split. Qed.

(** ** Witnesses *)

