(* ===== verification/AuthTypes.v ===== *)
(** * Authentication: roles, credentials, rate limits

    Crate [plc-auth], src/crates/plc-auth/src: role.rs, principal.rs, error.rs,
    credential.rs, dual_control.rs, audit.rs and rate_limit.rs. SHA-256 is the
    [sha2] crate's: the class [Sha256]. Instants are nanoseconds. *)
From S2P Require Import Prelude Text Float32 Float64.

(** ** role.rs *)

Inductive Role := Viewer | Operator | Engineer | Admin.

Inductive Permission :=
  | StatusRead | ConfigRead | ConfigWrite | ProgramRead | ProgramUpload | ProgramArm | ProgramActivate
  | ProgramDelete | ModeWrite | TagRead | TagForce | MetricsRead | DiagnosticsRead | AuditRead | UserAdmin.

#[export] Instance Role_eq_dec : EqDecision Role.
Proof. solve_decision. Defined.
#[export] Instance Permission_eq_dec : EqDecision Permission.
Proof. solve_decision. Defined.

(** error.rs *)
Inductive AuthError :=
  | Unauthenticated
  | Forbidden (required : Permission) (need role : Role)
  | Locked (retry_after_secs : Z)
  | RateLimited (retry_after_secs : Z)
  | ConfigRefused (msg : string).

Definition http_status (e : AuthError) : Z :=
  match e with
  | Unauthenticated => 401
  | Forbidden _ _ _ => 403
  | Locked _ | RateLimited _ => 429
  | ConfigRefused _ => 500
  end.

Module RoleOps.
Definition as_str (r : Role) : string :=
  match r with Viewer => "viewer" | Operator => "operator" | Engineer => "engineer" | Admin => "admin" end.

Definition parse (s : bytes) : res AuthError Role :=
  let t := to_ascii_lowercase (trim s) in
  if bool_decide (t = bstr "viewer") then Ok Viewer
  else if bool_decide (t = bstr "operator") then Ok Operator
  else if bool_decide (t = bstr "engineer") then Ok Engineer
  else if bool_decide (t = bstr "admin") then Ok Admin
  else Err (ConfigRefused "unknown role").

Definition rank (r : Role) : Z :=
  match r with Viewer => 0 | Operator => 1 | Engineer => 2 | Admin => 3 end.
End RoleOps.

Definition min_role (p : Permission) : Role :=
  match p with
  | StatusRead | ConfigRead | ProgramRead | TagRead | MetricsRead | DiagnosticsRead | AuditRead => Viewer
  | ModeWrite | TagForce => Operator
  | ConfigWrite | ProgramUpload | ProgramArm | ProgramActivate | ProgramDelete => Engineer
  | UserAdmin => Admin
  end.

Definition allows (r : Role) (perm : Permission) : bool :=
  RoleOps.rank (min_role perm) <=? RoleOps.rank r.

Definition permission_str (p : Permission) : string :=
  match p with
  | StatusRead => "status_read"
  | ConfigRead => "config_read"
  | ConfigWrite => "config_write"
  | ProgramRead => "program_read"
  | ProgramUpload => "program_upload"
  | ProgramArm => "program_arm"
  | ProgramActivate => "program_activate"
  | ProgramDelete => "program_delete"
  | ModeWrite => "mode_write"
  | TagRead => "tag_read"
  | TagForce => "tag_force"
  | MetricsRead => "metrics_read"
  | DiagnosticsRead => "diagnostics_read"
  | AuditRead => "audit_read"
  | UserAdmin => "user_admin"
  end.

Definition permission_all : list Permission :=
  [StatusRead; ConfigRead; ConfigWrite; ProgramRead; ProgramUpload; ProgramArm; ProgramActivate;
   ProgramDelete; ModeWrite; TagRead; TagForce; MetricsRead; DiagnosticsRead; AuditRead; UserAdmin].

(** [ALL] lists every permission once; a higher role grants what a lower one does. *)
Lemma permission_all_complete : NoDup permission_all /\ forall p, p ∈ permission_all.
Proof.
  split; [apply (bool_decide_unpack _); vm_compute; exact I|].
  intros p. apply list_elem_of_In. destruct p; cbn; tauto.
Qed.

Lemma allows_mono r r' p : RoleOps.rank r <= RoleOps.rank r' -> allows r p = true -> allows r' p = true.
Proof. unfold allows. lia. Qed.

(** ** principal.rs *)

Definition ANONYMOUS_ID : bytes := bstr "anonymous".

Inductive AuthMethod := MethodBearer | MethodMtls | MethodAnonymous.

Record Principal := mkPrincipal { p_id : bytes; p_role : Role; p_method : AuthMethod }.

(** ** credential.rs *)

Inductive Credential :=
  | CredNone
  | CredBearer (token : bytes)
  | CredClientCert (fingerprint_sha256 : bytes) (subject_cn : option bytes).

Class Sha256 := { sha256 : bytes -> bytes; sha256_ok : forall b, length (sha256 b) = 32%nat /\ bytes_ok (sha256 b) }.

Definition hash_secret `{!Sha256} (secret : bytes) : bytes := sha256 secret.

Definition hex_digit (n : Z) : Z := if n <? 10 then 48 + n else 87 + n.

Definition hex_encode (bs : bytes) : bytes :=
  flat_map (fun b => [hex_digit (Z.shiftr b 4); hex_digit (Z.land b 15)]) bs.

Definition hex_val (b : Z) : res AuthError Z :=
  if in_rangeb 48 57 b then Ok (b - 48)
  else if in_rangeb 97 102 b then Ok (b - 97 + 10)
  else if in_rangeb 65 70 b then Ok (b - 65 + 10)
  else Err (ConfigRefused "invalid hex digit").

(** The byte loop of [hex_decode_32]. *)
Fixpoint hex_decode_loop (raw : bytes) : res AuthError bytes :=
  match raw with
  | hi :: lo :: raw =>
      hi ← hex_val hi;
      lo ← hex_val lo;
      out ← hex_decode_loop raw;
      Ok (Z.lor (Z.shiftl hi 4) lo :: out)
  | _ => Ok []
  end.

Definition hex_decode_32 (s : bytes) : res AuthError bytes :=
  let t := trim s in
  if negb (length t =? 64)%nat || negb (forallb is_ascii_hexdigit t)
  then Err (ConfigRefused "expected 32 hex bytes (64 hex characters)")
  else hex_decode_loop t.

Definition ct_eq (a b : bytes) : bool :=
  if negb (length a =? length b)%nat then false
  else foldl (fun d '(x, y) => Z.lor d (Z.lxor x y)) 0 (zip a b) =? 0.

(** ** dual_control.rs *)

Definition dual_control_allowed (enabled : bool) (uploader activator : bytes) : bool :=
  if negb enabled then true
  else
    let a := trim uploader in
    let b := trim activator in
    if bool_decide (a = []) || bool_decide (b = []) then false
    else if bool_decide (a = ANONYMOUS_ID) || bool_decide (b = ANONYMOUS_ID) then false
    else negb (bool_decide (a = b)).

(** ** audit.rs *)

Inductive IpAddr := V4 (octets : bytes) | V6 (octets : bytes).

#[export] Instance IpAddr_eq_dec : EqDecision IpAddr.
Proof. solve_decision. Defined.

#[export] Program Instance IpAddr_countable : Countable IpAddr :=
  inj_countable' (fun ip => match ip with V4 o => inl o | V6 o => inr o end)
    (fun x => match x with inl o => V4 o | inr o => V6 o end) _.
Next Obligation. by intros []. Qed.

Definition AUDIT_CAP : nat := 4096.

Inductive AuditAction :=
  | AuthSuccess | AuthFailure | AuthLocked | ModeChange | AuditArm | AuditActivate | AuditConfigWrite
  | AuditTagForce | AuditUserAdmin.

Record AuditEvent := mkAuditEvent {
  ae_unix_secs : Z;
  ae_principal_id : bytes;
  ae_action : AuditAction;
  ae_detail : bytes;
  ae_client_ip : option IpAddr }.

Record MemoryAudit := mkMemoryAudit { ma_cap : nat; ma_events : list AuditEvent }.

Definition with_cap (cap : nat) : MemoryAudit := mkMemoryAudit (Nat.max cap 1) [].

Definition audit_record (event : AuditEvent) (a : MemoryAudit) : MemoryAudit :=
  let q := ma_events a in
  let q := if (ma_cap a <=? length q)%nat then tail q else q in
  mkMemoryAudit (ma_cap a) (q ++ [event]).

(** The ring holds the last [cap] events, in order. *)
Lemma audit_ring_lasts cap evs :
  ma_events (fold_left (fun a e => audit_record e a) evs (with_cap cap)) =
  drop (length evs - Nat.max cap 1) evs.
Proof.
  enough (H : fold_left (fun a e => audit_record e a) evs (with_cap cap) =
    mkMemoryAudit (Nat.max cap 1) (drop (length evs - Nat.max cap 1) evs)) by by rewrite H.
  induction evs as [|e evs IH] using rev_ind; [done|].
  rewrite fold_left_app. cbn [fold_left]. rewrite IH. unfold audit_record. cbn [ma_cap ma_events]. f_equal.
  rewrite length_app, length_drop. cbn [length].
  destruct (Nat.leb_spec (Nat.max cap 1) (length evs - (length evs - Nat.max cap 1))).
  - change (tail (drop (length evs - Nat.max cap 1) evs)) with (drop 1 (drop (length evs - Nat.max cap 1) evs)).
    rewrite drop_drop, drop_app_le by lia. do 2 f_equal. lia.
  - rewrite drop_app_le by lia. do 2 f_equal. lia.
Qed.

(** ** rate_limit.rs *)

Record Bucket := mkBucket { bk_tokens : Z; bk_last : Z }.

(** Rates and tokens are f64 bit patterns. *)
Record RateLimiter := mkRateLimiter { rl_rate_per_s : Z; rl_burst : Z; rl_buckets : gmap bytes Bucket }.

Definition rate_limiter_new (rate_per_s burst : Z) : RateLimiter :=
  mkRateLimiter rate_per_s (f64_max burst f64_one) ∅.

Definition NANOS_PER_SEC : Z := 1000000000.

(** [Duration::as_secs_f64]. *)
Definition as_secs_f64 (ns : Z) : Z :=
  f64_add (f64_of_int (ns / NANOS_PER_SEC))
    (f64_div (f64_of_int (ns mod NANOS_PER_SEC)) (f64_of_int NANOS_PER_SEC)).

Definition wait_secs (secs : Z) : Z :=
  let ceil := f64_ceil secs in
  if f64_le ceil f64_one then 1 else f64_to_range 0 (2 ^ 64 - 1) ceil.

(** [Err]: the seconds to wait. *)
Definition rate_limiter_check (key : bytes) (now : Z) : M RateLimiter Z unit := fun rl =>
  if f64_le (rl_rate_per_s rl) f64_zero then (rl, Ok tt)
  else
    let burst := rl_burst rl in
    let rate := rl_rate_per_s rl in
    let bucket := default (mkBucket burst now) (rl_buckets rl !! key) in
    let elapsed := as_secs_f64 (sat_sub_u now (bk_last bucket)) in
    let tokens := f64_min (f64_add (bk_tokens bucket) (f64_mul elapsed rate)) burst in
    let store tokens := mkRateLimiter rate burst (<[key := mkBucket tokens now]> (rl_buckets rl)) in
    if f64_le f64_one tokens then (store (f64_sub tokens f64_one), Ok tt)
    else (store tokens, Err (wait_secs (f64_div (f64_sub f64_one tokens) rate))).

(** ** Lemmas *)

Lemma foldl_lor_zero (l : list (Z * Z)) d :
  foldl (fun d '(x, y) => Z.lor d (Z.lxor x y)) d l = 0 <-> d = 0 /\ Forall (fun '(x, y) => x = y) l.
Proof.
  revert d. induction l as [|[x y] l IH]; intros d; cbn [foldl].
  - split; [by intros ->|by intros []].
  - rewrite IH, Z.lor_eq_0_iff, Z.lxor_eq_0_iff, Forall_cons. tauto.
Qed.

(** The constant-time comparison is equality. *)
Lemma ct_eq_spec a b : ct_eq a b = true <-> a = b.
Proof.
  unfold ct_eq. destruct (Nat.eqb_spec (length a) (length b)) as [Hl|Hl]; cbn [negb].
  - rewrite Z.eqb_eq, foldl_lor_zero. split; [intros [_ Hz]|].
    + revert b Hl Hz. induction a as [|x a IH]; intros [|y b] Hl Hz; try done.
      cbn in Hz. apply Forall_cons in Hz as [-> Hz]. f_equal. apply IH; [|done]. cbn in Hl. lia.
    + intros <-. split; [done|]. clear Hl. induction a; by constructor.
  - split; [done|]. by intros ->.
Qed.

Ltac in_range_lia :=
  unfold in_rangeb in *;
  repeat match goal with
  | H : context [?x <=? ?y] |- _ => destruct (Z.leb_spec x y); cbn [andb orb] in H
  | |- context [?x <=? ?y] => destruct (Z.leb_spec x y); cbn [andb orb]
  end; try done; try lia.

Lemma hex_val_digit b : is_ascii_hexdigit b = true -> exists v, hex_val b = Ok v /\ 0 <= v < 16.
Proof. unfold is_ascii_hexdigit, hex_val. intros H. in_range_lia; eexists; (split; [reflexivity|lia]). Qed.

Lemma hex_val_lower b : is_ascii_hexdigit b = true -> hex_val (ascii_lower b) = hex_val b.
Proof. unfold is_ascii_hexdigit, hex_val, ascii_lower. intros H. in_range_lia; f_equal; lia. Qed.

Lemma hex_val_inj a b v : hex_val a = Ok v -> hex_val b = Ok v -> ascii_lower a = ascii_lower b.
Proof. unfold hex_val, ascii_lower. intros Ha Hb. in_range_lia; apply Ok_inj in Ha, Hb; lia. Qed.

Lemma list_pair_ind {A} (P : list A -> Prop) :
  P [] -> (forall x, P [x]) -> (forall x y l, P l -> P (x :: y :: l)) -> forall l, P l.
Proof.
  intros H0 H1 H2 l. cut (P l /\ forall x, P (x :: l)); [tauto|]. induction l as [|y l [IH1 IH2]]; auto.
Qed.

Lemma nibbles hi lo : 0 <= lo < 16 -> Z.lor (Z.shiftl hi 4) lo = hi * 16 + lo.
Proof. intros H. apply (lor_shiftl_add 4); [lia|]. exact H. Qed.

Lemma hex_decode_loop_ok raw :
  forallb is_ascii_hexdigit raw = true ->
  exists out, hex_decode_loop raw = Ok out /\ length out = (length raw / 2)%nat /\ bytes_ok out.
Proof.
  induction raw as [|x|hi lo raw IH] using list_pair_ind; intros H; [by exists []|by exists []|].
  cbn [forallb] in H. apply andb_true_iff in H as [Hhi H]. apply andb_true_iff in H as [Hlo H].
  destruct (IH H) as (out & Ho & Hl & Hb).
  destruct (hex_val_digit _ Hhi) as (v & Hv & Hvr). destruct (hex_val_digit _ Hlo) as (w & Hw & Hwr).
  cbn [hex_decode_loop]. rewrite Hv, Hw. cbn [mbind res_bind]. rewrite Ho. eexists. split; [reflexivity|].
  split.
  - cbn [length]. rewrite Hl. replace (S (S (length raw))) with (length raw + 1 * 2)%nat by lia.
    rewrite Nat.div_add by lia. lia.
  - constructor; [|done]. rewrite nibbles by done. unfold byte_range. lia.
Qed.

(** Two texts decode alike exactly when they differ only in case. *)
Lemma hex_decode_loop_eq a b :
  forallb is_ascii_hexdigit a = true -> forallb is_ascii_hexdigit b = true ->
  length a = length b -> Nat.Even (length a) ->
  hex_decode_loop a = hex_decode_loop b <-> to_ascii_lowercase a = to_ascii_lowercase b.
Proof.
  revert b. induction a as [|x|x1 x2 a IH] using list_pair_ind; intros b Ha Hb Hl Hev.
  - by destruct b.
  - cbn in Hev. destruct Hev. lia.
  - destruct b as [|y1 [|y2 b]]; try done. cbn [forallb] in Ha, Hb.
    rewrite !andb_true_iff in Ha, Hb. destruct Ha as (Hx1 & Hx2 & Ha), Hb as (Hy1 & Hy2 & Hb).
    specialize (IH b Ha Hb). cbn [length] in Hl, Hev. destruct Hev as [k Hk].
    assert (Hev : Nat.Even (length a)) by (exists (k - 1)%nat; lia). specialize (IH ltac:(lia) Hev).
    destruct (hex_val_digit _ Hx1) as (v1 & Hv1 & ?), (hex_val_digit _ Hx2) as (v2 & Hv2 & ?),
      (hex_val_digit _ Hy1) as (w1 & Hw1 & ?), (hex_val_digit _ Hy2) as (w2 & Hw2 & ?).
    destruct (hex_decode_loop_ok _ Ha) as (oa & Hoa & _), (hex_decode_loop_ok _ Hb) as (ob & Hob & _).
    cbn [hex_decode_loop to_ascii_lowercase map]. rewrite Hv1, Hv2, Hw1, Hw2. cbn [mbind res_bind].
    rewrite Hoa, Hob in *. cbn [mbind res_bind]. rewrite !nibbles by done. split.
    + intros Heq. apply Ok_inj in Heq. injection Heq as E1 ->.
      assert (v1 = w1 /\ v2 = w2) as [-> ->] by lia.
      rewrite (hex_val_inj _ _ _ Hv1 Hw1), (hex_val_inj _ _ _ Hv2 Hw2). do 2 f_equal. by apply IH.
    + intros Heq. injection Heq as E1 E2 E3. apply IH in E3. apply Ok_inj in E3 as ->.
      rewrite <-hex_val_lower in Hv1, Hv2, Hw1, Hw2 by done. rewrite E1 in Hv1. rewrite E2 in Hv2.
      assert (v1 = w1) as -> by congruence. by assert (v2 = w2) as -> by congruence.
Qed.

Lemma hexdigit_visible b : is_ascii_hexdigit b = true -> visible b.
Proof. unfold is_ascii_hexdigit, visible. intros H. in_range_lia. Qed.

Lemma hexdigits_trim s : forallb is_ascii_hexdigit s = true -> trim s = s.
Proof.
  intros H. apply trim_visible. apply Forall_forall. intros b Hb. apply hexdigit_visible.
  rewrite forallb_forall in H. apply H. by apply list_elem_of_In.
Qed.

Lemma hex_digit_val n : 0 <= n < 16 -> hex_val (hex_digit n) = Ok n /\ is_ascii_hexdigit (hex_digit n) = true.
Proof.
  intros H. unfold hex_digit, hex_val, is_ascii_hexdigit.
  destruct (Z.ltb_spec n 10); split; in_range_lia; f_equal; lia.
Qed.

(** The hash printed by [hex_encode] is read back. *)
Lemma hex_decode_encode bs : length bs = 32%nat -> bytes_ok bs -> hex_decode_32 (hex_encode bs) = Ok bs.
Proof.
  intros Hl Hb.
  assert (H : forall l, bytes_ok l -> forallb is_ascii_hexdigit (hex_encode l) = true /\
    length (hex_encode l) = (2 * length l)%nat /\ hex_decode_loop (hex_encode l) = Ok l).
  { clear. intros l. induction 1 as [|b l Hb Hl (IH1 & IH2 & IH3)]; [done|]. unfold byte_range in Hb.
    assert (Hhi : 0 <= Z.shiftr b 4 < 16) by (rewrite Z.shiftr_div_pow2 by done; change (2 ^ 4) with 16; Z.to_euclidean_division_equations; lia).
    assert (Hlo : 0 <= Z.land b 15 < 16) by (change 15 with (2 ^ 4 - 1); rewrite land_mask by done; change (2 ^ 4) with 16; Z.to_euclidean_division_equations; lia).
    destruct (hex_digit_val _ Hhi) as [V1 D1], (hex_digit_val _ Hlo) as [V2 D2].
    change (hex_encode (b :: l)) with (hex_digit (Z.shiftr b 4) :: hex_digit (Z.land b 15) :: hex_encode l).
    cbn [forallb length hex_decode_loop]. rewrite D1, D2, V1, V2, IH1, IH2. cbn [mbind res_bind].
    rewrite IH3. cbn [mbind res_bind]. split; [done|]. split; [lia|]. do 2 f_equal. rewrite nibbles by done.
    rewrite Z.shiftr_div_pow2 by done. change 15 with (2 ^ 4 - 1). rewrite land_mask by done.
    change (2 ^ 4) with 16. Z.to_euclidean_division_equations. lia. }
  destruct (H bs Hb) as (H1 & H2 & H3). unfold hex_decode_32. rewrite hexdigits_trim by done.
  rewrite H1, H2, Hl. exact H3.
Qed.
