(* ===== verification/AuthLockout.v ===== *)
(** * Authentication: the lockout of source addresses

    Crate [plc-auth], src/crates/plc-auth/src/lockout.rs. Instants and durations are
    nanoseconds. The order in which a [HashMap] is iterated is the class
    [IterOrder]. *)
From stdpp Require Import sorting.
From S2P Require Import Prelude Text Float32 Float64 AuthTypes.

Definition FAIL_WINDOW : Z := 60 * NANOS_PER_SEC.
Definition MAX_TRACKED_IPS : nat := 4096.

Record IpState := mkIpState { is_failures : list Z; is_locked_until : option Z }.

Definition ip_new : IpState := mkIpState [] None.

Definition locked (s : IpState) (now : Z) : bool :=
  match is_locked_until s with Some until => now <? until | None => false end.

(** [pop_front] while the front has left the window. *)
Fixpoint drop_aged (now : Z) (failures : list Z) : list Z :=
  match failures with
  | t :: failures' => if FAIL_WINDOW <=? sat_sub_u now t then drop_aged now failures' else failures
  | [] => []
  end.

Definition age_failures (now : Z) (s : IpState) : IpState :=
  mkIpState (drop_aged now (is_failures s)) (is_locked_until s).

Definition idle (s : IpState) (now : Z) : bool :=
  negb (locked s now) && match is_failures s with [] => true | _ => false end.

Record LockoutTracker := mkTracker {
  lt_fail_per_min : Z;
  lt_lockout : Z;
  lt_max_ips : nat;
  lt_ips : gmap IpAddr IpState }.

Definition set_ips (ips : gmap IpAddr IpState) (t : LockoutTracker) : LockoutTracker :=
  mkTracker (lt_fail_per_min t) (lt_lockout t) (lt_max_ips t) ips.

(** A hash map may be iterated in any order, which also depends on its history:
    [now] stands for it. *)
Class IterOrder := {
  iter_order : Z -> gmap IpAddr IpState -> list (IpAddr * IpState);
  iter_order_perm now m : iter_order now m ≡ₚ map_to_list m }.

Definition tracker_with_capacity (fail_per_min lockout_secs : Z) (max_ips : nat) : LockoutTracker :=
  mkTracker (Z.max fail_per_min 1) (Z.max lockout_secs 1 * NANOS_PER_SEC) (Nat.max max_ips 1) ∅.

Definition tracker_new (fail_per_min lockout_secs : Z) : LockoutTracker :=
  tracker_with_capacity fail_per_min lockout_secs MAX_TRACKED_IPS.

Definition remaining_secs (until now : Z) : Z := Z.max (sat_sub_u until now / NANOS_PER_SEC) 1.

Definition locked_remaining (ip : IpAddr) (now : Z) (t : LockoutTracker) : LockoutTracker * option Z :=
  match lt_ips t !! ip with
  | None => (t, None)
  | Some s =>
      match is_locked_until s with
      | None => (t, None)
      | Some until =>
          if now <? until then (t, Some (remaining_secs until now))
          else (set_ips (<[ip := mkIpState (is_failures s) None]> (lt_ips t)) t, None)
      end
  end.

(** What [sweep] keeps of one entry. *)
Definition sweep_entry (now : Z) (s : IpState) : option IpState :=
  let s := match is_locked_until s with
           | Some until => if until <=? now then mkIpState (is_failures s) None else s
           | None => s
           end in
  let s := age_failures now s in
  if negb (idle s now) then Some s else None.

Definition sweep (now : Z) (t : LockoutTracker) : LockoutTracker :=
  set_ips (omap (sweep_entry now) (lt_ips t)) t.

(** [min_by_key]: the first of the least. *)
Definition min_by_key {A} (key : A -> Z) (l : list A) : option A :=
  match l with
  | [] => None
  | x :: l => Some (fold_left (fun m y => if key y <? key m then y else m) l x)
  end.

Section Eviction.
Context `{!IterOrder}.

Definition oldest_unlocked (now : Z) (t : LockoutTracker) : option IpAddr :=
  fst <$> min_by_key (fun '(_, s) => default now (head (is_failures s)))
            (filter (fun '(_, s) => locked s now = false) (iter_order now (lt_ips t))).

Definition soonest_lock (now : Z) (t : LockoutTracker) : option IpAddr :=
  fst <$> min_by_key (fun '(_, s) => default now (is_locked_until s)) (iter_order now (lt_ips t)).

(** The loop of [evict_for_capacity]; every turn removes an entry. *)
Fixpoint evict_loop (fuel : nat) (now : Z) (t : LockoutTracker) : LockoutTracker :=
  match fuel with
  | O => t
  | S fuel =>
      if (lt_max_ips t <=? size (lt_ips t))%nat then
        match (match oldest_unlocked now t with Some ip => Some ip | None => soonest_lock now t end) with
        | Some ip => evict_loop fuel now (set_ips (delete ip (lt_ips t)) t)
        | None => t
        end
      else t
  end.

Definition evict_for_capacity (now : Z) (t : LockoutTracker) : LockoutTracker :=
  evict_loop (S (size (lt_ips t))) now t.

Definition record_failure (ip : IpAddr) (now : Z) (t : LockoutTracker) : LockoutTracker * option Z :=
  match locked_remaining ip now t with
  | (t, Some secs) => (t, Some secs)
  | (t, None) =>
      let t := sweep now t in
      let t := match lt_ips t !! ip with None => evict_for_capacity now t | Some _ => t end in
      let s := age_failures now (default ip_new (lt_ips t !! ip)) in
      let failures := is_failures s ++ [now] in
      if lt_fail_per_min t <=? wrap_u 32 (len failures) then
        let until := now + lt_lockout t in
        (set_ips (<[ip := mkIpState [] (Some until)]> (lt_ips t)) t, Some (remaining_secs until now))
      else
        (set_ips (<[ip := mkIpState failures (is_locked_until s)]> (lt_ips t)) t, None)
  end.

(** ** Eviction terminates and makes room *)

Lemma min_by_key_elem {A} (key : A -> Z) l x : min_by_key key l = Some x -> x ∈ l.
Proof.
  destruct l as [|y l]; cbn; [done|]. intros [= <-]. revert y. induction l as [|z l IH]; intros y; cbn; [by left|].
  case_match; [right; apply IH|]. specialize (IH y). apply elem_of_cons in IH as [->|?]; [by left|]. by do 2 right.
Qed.

Lemma min_by_key_None {A} (key : A -> Z) (l : list A) : min_by_key key l = None -> l = [].
Proof. by destruct l. Qed.

Lemma iter_order_lookup now m ip s : (ip, s) ∈ iter_order now m <-> m !! ip = Some s.
Proof. rewrite iter_order_perm. apply elem_of_map_to_list. Qed.

(** A victim is a tracked address. *)
Lemma victim_tracked now t ip :
  match oldest_unlocked now t with Some ip => Some ip | None => soonest_lock now t end = Some ip ->
  is_Some (lt_ips t !! ip).
Proof.
  unfold oldest_unlocked, soonest_lock. intros Hv.
  destruct (min_by_key _ (filter _ _)) as [[ip1 s1]|] eqn:E1; cbn -[min_by_key] in Hv.
  - injection Hv as <-. apply min_by_key_elem in E1. apply list_elem_of_filter in E1 as [_ E1].
    apply iter_order_lookup in E1. eauto.
  - apply fmap_Some in Hv as ([ip1 s1] & E2 & ->). apply min_by_key_elem, iter_order_lookup in E2. eauto.
Qed.

Lemma evict_loop_room fuel now t :
  (0 < lt_max_ips t)%nat -> (size (lt_ips t) < fuel)%nat ->
  (size (lt_ips (evict_loop fuel now t)) < lt_max_ips t)%nat.
Proof.
  revert t. induction fuel as [|fuel IH]; intros t Hmax Hf; [lia|]. cbn [evict_loop].
  destruct (Nat.leb_spec (lt_max_ips t) (size (lt_ips t))) as [Hle|]; [|done].
  destruct (match oldest_unlocked now t with Some ip => Some ip | None => soonest_lock now t end) as [ip|] eqn:Hv.
  - apply victim_tracked in Hv.
    assert (Hsz : size (delete ip (lt_ips t)) = pred (size (lt_ips t))) by by apply map_size_delete_Some.
    apply (IH (set_ips (delete ip (lt_ips t)) t)); cbn [set_ips lt_ips lt_max_ips]; [done|lia].
  - exfalso. unfold oldest_unlocked, soonest_lock in Hv. destruct (min_by_key _ (filter _ _)); [done|].
    apply fmap_None, min_by_key_None in Hv as E.
    assert (Hn : map_to_list (lt_ips t) = []) by (apply Permutation_nil; rewrite <-(iter_order_perm now), E; done).
    apply map_to_list_empty_iff in Hn. rewrite Hn, map_size_empty in Hle. lia.
Qed.

(** Without pressure nothing is evicted. *)
Lemma evict_none now t : (size (lt_ips t) < lt_max_ips t)%nat -> evict_for_capacity now t = t.
Proof. intros Hr. unfold evict_for_capacity. cbn [evict_loop]. by rewrite (proj2 (Nat.leb_gt _ _) Hr). Qed.
End Eviction.

(** ** What the passing of time takes from an address *)

Definition entry (t : LockoutTracker) (ip : IpAddr) : IpState := default ip_new (lt_ips t !! ip).

(** [s'] is [s] less what may be forgotten at [T]: failures that have left the window and
    a lock that has ended. *)
Record relaxed (T : Z) (s s' : IpState) : Prop := {
  re_failures : exists gone, is_failures s = gone ++ is_failures s' /\ Forall (fun t => t + FAIL_WINDOW <= T) gone;
  re_lock : is_locked_until s' = is_locked_until s \/
    exists until, is_locked_until s = Some until /\ until <= T /\ is_locked_until s' = None }.

#[export] Instance relaxed_pre T : PreOrder (relaxed T).
Proof.
  split.
  - intros s. split; [by exists []|by left].
  - intros x y z [(g1 & H1 & F1) L1] [(g2 & H2 & F2) L2]. split.
    + exists (g1 ++ g2). rewrite H1, H2, <-app_assoc. split; [done|by apply Forall_app].
    + destruct L2 as [->|(u & Hu & Hle & ->)]; [done|]. right. destruct L1 as [Hl|(u' & _ & _ & Hl)]; [|congruence].
      exists u. by rewrite <-Hl.
Qed.

Lemma relaxed_later T T' s s' : T <= T' -> relaxed T s s' -> relaxed T' s s'.
Proof.
  intros HT [(g & H & F) L]. split.
  - exists g. split; [done|]. eapply Forall_impl; [exact F|]. cbn. lia.
  - destruct L as [|(u & ? & ? & ?)]; [by left|right]. exists u. split; [done|]. split; [lia|done].
Qed.

Lemma drop_aged_app now fs :
  exists gone, fs = gone ++ drop_aged now fs /\ Forall (fun t => t + FAIL_WINDOW <= now) gone.
Proof.
  induction fs as [|t fs (gone & Hg & Ha)]; [by exists []|]. cbn [drop_aged].
  destruct (Z.leb_spec FAIL_WINDOW (sat_sub_u now t)) as [Hle|]; [|by exists []].
  exists (t :: gone). split; [cbn; by f_equal|]. constructor; [|done].
  unfold sat_sub_u, FAIL_WINDOW, NANOS_PER_SEC in *. lia.
Qed.

Lemma relaxed_age now s : relaxed now s (age_failures now s).
Proof. split; [apply drop_aged_app|by left]. Qed.

Lemma relaxed_unlock now s until :
  is_locked_until s = Some until -> until <= now -> relaxed now s (mkIpState (is_failures s) None).
Proof. intros Hu Hle. split; [by exists []|]. right. by exists until. Qed.

Lemma relaxed_sweep now s : relaxed now s (default ip_new (sweep_entry now s)).
Proof.
  unfold sweep_entry.
  set (s1 := match is_locked_until s with Some until => _ | None => s end).
  assert (Hs1 : relaxed now s s1).
  { subst s1. destruct (is_locked_until s) as [until|] eqn:Hu; [|done].
    destruct (Z.leb_spec until now); [by eapply relaxed_unlock|done]. }
  assert (Hu1 : locked s1 now = false -> is_locked_until s1 = None).
  { subst s1. unfold locked. destruct (is_locked_until s) as [until|] eqn:Hu; [|by rewrite Hu].
    destruct (Z.leb_spec until now) as [Hle|Hgt]; [done|]. rewrite Hu. intros ?%Z.ltb_ge. lia. }
  etrans; [exact Hs1|]. etrans; [apply (relaxed_age now)|]. destruct (negb _) eqn:E; [done|]. cbn [default].
  apply negb_false_iff in E. unfold idle in E. apply andb_true_iff in E as [El Ef].
  apply negb_true_iff in El. specialize (Hu1 El). split.
  - exists []. split; [|done]. by destruct (is_failures (age_failures now s1)).
  - left. by cbn [age_failures is_locked_until].
Qed.

(** The failure that is counted at [now], under the limits [k] and [L]. *)
Definition counted (k L now : Z) (s : IpState) : IpState :=
  if k <=? len (is_failures s ++ [now]) then mkIpState [] (Some (now + L))
  else mkIpState (is_failures s ++ [now]) (is_locked_until s).

(** ** The tracker *)

(** The addresses in [ips] are the only ones that are tracked, so none is evicted. *)
Record tracker_inv (ips : gset IpAddr) (t : LockoutTracker) : Prop := {
  ti_limit : 0 < lt_fail_per_min t < 2 ^ 32;
  ti_room : (size ips <= lt_max_ips t)%nat;
  ti_dom : dom (lt_ips t) ⊆ ips;
  ti_few : forall ip, len (is_failures (entry t ip)) < lt_fail_per_min t }.

Definition same_limits (t t' : LockoutTracker) : Prop :=
  lt_fail_per_min t' = lt_fail_per_min t /\ lt_lockout t' = lt_lockout t /\ lt_max_ips t' = lt_max_ips t.

Lemma relaxed_few T s s' k : relaxed T s s' -> len (is_failures s) < k -> len (is_failures s') < k.
Proof. intros [(gone & Hg & _) _]. rewrite Hg, len_app. pose proof (len_nonneg gone). lia. Qed.

Lemma relaxed_inv ips T t t' : tracker_inv ips t -> same_limits t t' -> dom (lt_ips t') ⊆ ips ->
  (forall ip, relaxed T (entry t ip) (entry t' ip)) -> tracker_inv ips t'.
Proof.
  intros [H1 H2 H3 H4] (E1 & E2 & E3) Hd Hr. split; [by rewrite E1|by rewrite E3|done|].
  intros ip. rewrite E1. eapply relaxed_few; [apply Hr|apply H4].
Qed.

(** The lock test of [ip1] at [now]. *)
Lemma locked_remaining_inv ips now ip1 t t' r :
  tracker_inv ips t -> locked_remaining ip1 now t = (t', r) ->
  tracker_inv ips t' /\ same_limits t t' /\ (forall ip, relaxed now (entry t ip) (entry t' ip)) /\
  match r with
  | None => is_locked_until (entry t' ip1) = None
  | Some _ => t' = t /\ exists until, is_locked_until (entry t ip1) = Some until /\ now < until
  end.
Proof.
  intros Ht. unfold locked_remaining.
  destruct (lt_ips t !! ip1) as [s|] eqn:Hs.
  2: { intros [= <- <-]. split; [done|]. split; [done|]. split; [done|]. unfold entry. by rewrite Hs. }
  destruct (is_locked_until s) as [until|] eqn:Hu.
  2: { intros [= <- <-]. split; [done|]. split; [done|]. split; [done|]. unfold entry. by rewrite Hs. }
  destruct (Z.ltb_spec now until); intros [= <- <-].
  { split; [done|]. split; [done|]. split; [done|]. split; [done|]. unfold entry. rewrite Hs. by exists until. }
  assert (Hrel : forall ip, relaxed now (entry t ip) (entry (set_ips (<[ip1:=mkIpState (is_failures s) None]> (lt_ips t)) t) ip)).
  { intros ip. unfold entry. cbn [set_ips lt_ips]. destruct (decide (ip1 = ip)) as [<-|Hne]; [|by rewrite lookup_insert_ne].
    rewrite lookup_insert_eq, Hs. cbn. by eapply relaxed_unlock. }
  split; [apply (relaxed_inv _ now t); [done..| |done]|split; [done|split; [done|]]]; cbn [set_ips lt_ips].
  - rewrite dom_insert_lookup_L by eauto. apply Ht.
  - unfold entry. cbn [set_ips lt_ips]. by rewrite lookup_insert_eq.
Qed.

Lemma sweep_inv ips now t : tracker_inv ips t ->
  tracker_inv ips (sweep now t) /\ forall ip, relaxed now (entry t ip) (entry (sweep now t) ip).
Proof.
  intros Ht. assert (Hrel : forall ip, relaxed now (entry t ip) (entry (sweep now t) ip)).
  { intros ip. unfold entry, sweep. cbn [set_ips lt_ips]. rewrite lookup_omap.
    destruct (lt_ips t !! ip) as [s|]; cbn [mbind option_bind default]; [apply relaxed_sweep|done]. }
  split; [|done]. apply (relaxed_inv _ now t); [done..| |done]. etrans; [apply dom_omap_subseteq|]. apply Ht.
Qed.

(** A failure of [ip1] at [now]: another address only forgets what has passed; the
    address itself is locked, or one failure more is counted. *)
Lemma record_failure_inv `{!IterOrder} ips now ip1 t t' r :
  tracker_inv ips t -> ip1 ∈ ips -> record_failure ip1 now t = (t', r) ->
  tracker_inv ips t' /\ same_limits t t' /\ (forall ip, ip <> ip1 -> relaxed now (entry t ip) (entry t' ip)) /\
  ((t' = t /\ exists until, is_locked_until (entry t ip1) = Some until) \/
   exists s, relaxed now (entry t ip1) s /\ is_locked_until s = None /\
     entry t' ip1 = counted (lt_fail_per_min t) (lt_lockout t) now s).
Proof.
  intros Ht Hin. unfold record_failure. destruct (locked_remaining ip1 now t) as [t1 r1] eqn:Hl.
  destruct (locked_remaining_inv _ _ _ _ _ _ Ht Hl) as (Ht1 & Hs1 & Hr1 & Hu). destruct r1 as [secs|].
  { intros [= <- <-]. destruct Hu as (-> & until & Hu & _). split; [done|]. split; [done|]. split; [done|].
    left. split; [done|]. by exists until. }
  destruct (sweep_inv ips now t1 Ht1) as [Ht2 Hr2].
  assert (Hu2 : is_locked_until (entry (sweep now t1) ip1) = None).
  { destruct (re_lock _ _ _ (Hr2 ip1)) as [Hk|(? & ? & _)]; congruence. }
  assert (Hr : forall ip, relaxed now (entry t ip) (entry (sweep now t1) ip)) by (intros ip; etrans; [apply Hr1|apply Hr2]).
  assert (Hs2 : same_limits t (sweep now t1)) by done. clear Hr1 Hr2. set (t2 := sweep now t1) in *. clearbody t2.
  assert (Hev : match lt_ips t2 !! ip1 with None => evict_for_capacity now t2 | Some _ => t2 end = t2).
  { destruct (lt_ips t2 !! ip1) eqn:E; [done|]. apply evict_none.
    assert (Hsub : {[ip1]} ∪ dom (lt_ips t2) ⊆ ips) by (pose proof (ti_dom _ _ Ht2); set_solver).
    apply subseteq_size in Hsub. rewrite size_union, size_singleton, size_dom in Hsub.
    - pose proof (ti_room _ _ Ht2). lia.
    - apply not_elem_of_dom in E. set_solver. }
  rewrite Hev. fold (entry t2 ip1). set (s := age_failures now (entry t2 ip1)).
  assert (Hself : relaxed now (entry t ip1) s) by (etrans; [apply Hr|apply relaxed_age]).
  destruct Hs2 as (Hk & HL & Hm). rewrite Hk, HL.
  pose proof (relaxed_few _ _ _ _ Hself (ti_few _ _ Ht ip1)) as Hfew. pose proof (ti_limit _ _ Ht) as Hlim.
  assert (Hw : wrap_u 32 (len (is_failures s ++ [now])) = len (is_failures s ++ [now])).
  { apply wrap_u_small. pose proof (len_nonneg (is_failures s)).
    rewrite len_app. change (len [now]) with 1. unfold u_range. lia. }
  rewrite Hw. intros Hres.
  assert (Hc : t' = set_ips (<[ip1 := counted (lt_fail_per_min t) (lt_lockout t) now s]> (lt_ips t2)) t2).
  { unfold counted. destruct (_ <=? _); by injection Hres. }
  subst t'. assert (He : forall ip, entry (set_ips (<[ip1 := counted (lt_fail_per_min t) (lt_lockout t) now s]> (lt_ips t2)) t2) ip =
    if decide (ip = ip1) then counted (lt_fail_per_min t) (lt_lockout t) now s else entry t2 ip).
  { intros ip. unfold entry. cbn [set_ips lt_ips]. case_decide as Hd; [rewrite Hd; by rewrite lookup_insert_eq|by rewrite lookup_insert_ne]. }
  split; [|split; [done|split]].
  - split; cbn [set_ips lt_fail_per_min lt_max_ips lt_ips]; [by rewrite Hk|apply Ht2| |].
    + rewrite dom_insert. pose proof (ti_dom _ _ Ht2). set_solver.
    + intros ip. rewrite He. case_decide; [|apply Ht2]. rewrite Hk. unfold counted.
      destruct (Z.leb_spec (lt_fail_per_min t) (len (is_failures s ++ [now]))); [|done]. cbn. unfold len. cbn. lia.
  - intros ip Hne. rewrite He, decide_False by done. apply Hr.
  - right. exists s. split; [done|]. split; [exact Hu2|]. by rewrite He, decide_True by done.
Qed.

Lemma tracker_new_inv ips n secs :
  0 <= n < 2 ^ 32 -> (size ips <= MAX_TRACKED_IPS)%nat -> tracker_inv ips (tracker_new n secs).
Proof.
  intros Hn Hsz. split; cbn [tracker_new tracker_with_capacity lt_fail_per_min lt_max_ips lt_ips].
  - lia.
  - unfold MAX_TRACKED_IPS in *. lia.
  - rewrite dom_empty. set_solver.
  - intros ip. unfold entry. cbn. rewrite lookup_empty. unfold len. cbn. lia.
Qed.

(** ** The guesses that were tested *)

Section Guesses.
Context (k L W : Z) (HW : W = Z.min FAIL_WINDOW L) (d : Z) (P : nat).

(** The failures that count against a guess tested at [g], when the reading of the clock is
    at most [d] old. *)
Definition held_against (g : Z) (s : IpState) : nat := length (filter (fun f => g - d <= f) (is_failures s)).

(** [gs] are the times at which a wrong guess of the address passed the lock test, [n] of
    the calls are still under way and [s] is its entry: each guess is [W] old, or the address
    is locked, or whatever was tested since is under way or counted. *)
Record guess_inv (gs : list Z) (n : nat) (T : Z) (s : IpState) : Prop := {
  gi_few : len (is_failures s) < k;
  gi_past : Forall (fun g => g <= T) gs;
  gi_lock : forall until, is_locked_until s = Some until -> Forall (fun g => g + L <= until + d) gs;
  gi_guess : forall j g, gs !! j = Some g ->
    g + W <= T + d \/ is_Some (is_locked_until s) \/ (length gs <= j + n + held_against g s)%nat;
  gi_spaced : forall i a b, gs !! i = Some a -> gs !! (i + Z.to_nat k + P - 1)%nat = Some b -> a + W <= b + d }.

Lemma guess_start T : 0 < k -> guess_inv [] 0 T ip_new.
Proof. intros Hk. by split. Qed.

Lemma guess_later gs n T T' s : T <= T' -> guess_inv gs n T s -> guess_inv gs n T' s.
Proof.
  intros HT [H1 H2 H3 H4 H5]. split; try done.
  - eapply Forall_impl; [exact H2|]. cbn. lia.
  - intros j g Hj. destruct (H4 j g Hj) as [|[|]]; [left; lia|auto..].
Qed.

Lemma guess_relaxed gs n T s s' : relaxed T s s' -> guess_inv gs n T s -> guess_inv gs n T s'.
Proof using HW.
  intros Hrel [H1 H2 H3 H4 H5]. pose proof (relaxed_few _ _ _ _ Hrel H1) as H1'. destruct Hrel as [(gone & Hg & Hgone) Hlock].
  split; try done.
  - destruct Hlock as [->|(u & _ & _ & ->)]; done.
  - intros j g Hj. destruct (H4 j g Hj) as [Ha|[[u Hu]|Hc]]; [by left| |].
    + destruct Hlock as [->|(u' & Hu' & Hle & _)]; [right; left; by eexists|]. left.
      pose proof (Forall_lookup_1 _ _ _ _ (H3 _ Hu') Hj) as Hgl. cbn in Hgl. lia.
    + unfold held_against in *. rewrite Hg, filter_app, length_app in Hc.
      destruct (filter (fun f => g - d <= f) gone) as [|f fs] eqn:Ef; [by right; right|]. left.
      assert (Hf : f ∈ filter (fun f => g - d <= f) gone) by (rewrite Ef; left).
      apply list_elem_of_filter in Hf as [Hf1 Hf2]. rewrite Forall_forall in Hgone. specialize (Hgone f Hf2). cbn in *. lia.
Qed.

(** A guess passes the test. *)
Lemma guess_tested gs n T s :
  guess_inv gs n T s -> is_locked_until s = None -> (S n <= P)%nat -> 0 < k -> guess_inv (gs ++ [T]) (S n) T s.
Proof.
  intros [H1 H2 H3 H4 H5] Hu HP Hk.
  assert (Hall : forall j g, (gs ++ [T]) !! j = Some g ->
    g + W <= T + d \/ is_Some (is_locked_until s) \/ (length (gs ++ [T]) <= j + S n + held_against g s)%nat).
  { intros j g Hj. rewrite length_app. cbn [length]. destruct (decide (j < length gs)%nat) as [Hlt|Hge].
    - rewrite lookup_app_l in Hj by done. destruct (H4 j g Hj) as [|[|]]; [by left|by right; left|right; right; lia].
    - apply lookup_lt_Some in Hj. rewrite length_app in Hj. cbn [length] in Hj. right; right. lia. }
  split; [done| | |exact Hall|].
  - apply Forall_app. split; [done|by repeat constructor].
  - intros u Hl. congruence.
  - intros i a b Ha Hb. destruct (decide (i + Z.to_nat k + P - 1 < length gs)%nat) as [Hlt|Hge].
    + rewrite lookup_app_l in Ha by lia. rewrite lookup_app_l in Hb by lia. by eapply H5.
    + pose proof (lookup_lt_Some _ _ _ Hb) as Hlen. rewrite length_app in Hlen. cbn [length] in Hlen.
      assert (Hb' : b = T).
      { rewrite lookup_app_r in Hb by lia. replace (i + Z.to_nat k + P - 1 - length gs)%nat with 0%nat in Hb by lia. by injection Hb. }
      subst b. destruct (Hall i a Ha) as [|[Hl|Hc]]; [done|rewrite Hu in Hl; by destruct Hl|].
      rewrite length_app in Hc. cbn [length] in Hc. unfold held_against in Hc.
      pose proof (length_filter (fun f => a - d <= f) (is_failures s)). unfold len in H1. lia.
Qed.

(** The call of a tested guess ends while the address is locked. *)
Lemma guess_refused gs n T s until :
  guess_inv gs (S n) T s -> is_locked_until s = Some until -> guess_inv gs n T s.
Proof. intros [H1 H2 H3 H4 H5] Hu. split; try done. intros j g _. right; left. by eexists. Qed.

(** It ends and is counted, by a clock read at [now]. *)
Lemma guess_counted gs n T now s :
  guess_inv gs (S n) T s -> is_locked_until s = None -> now <= T <= now + d -> 0 < k ->
  guess_inv gs n T (counted k L now s).
Proof.
  intros [H1 H2 H3 H4 H5] Hu Hnow Hk. unfold counted.
  destruct (Z.leb_spec k (len (is_failures s ++ [now]))) as [Hle|Hlt]; split; cbn [is_failures is_locked_until]; try done.
  - intros u [= <-]. eapply Forall_impl; [exact H2|]. cbn. lia.
  - intros j g _. right; left. by eexists.
  - intros j g Hj. destruct (H4 j g Hj) as [|[|Hc]]; [by left|by right; left|]. right; right.
    pose proof (Forall_lookup_1 _ _ _ _ H2 Hj) as Hg. cbn in Hg.
    unfold held_against in *. cbn [is_failures]. rewrite filter_app, length_app, filter_cons_True by lia. cbn. lia.
Qed.
End Guesses.
