(* ===== verification/AuthService.v ===== *)
(** * Authentication: the service

    Crate [plc-auth], src/crates/plc-auth/src/service.rs: principals from the device
    configuration, [authenticate], [authorize], [check]. A reading of the clock is an
    argument. [authenticate] locks the tracker twice, to test the lock and to count a
    failure: the two critical sections are [auth_test] and [auth_finish], and
    [auth_event] interleaves those of any number of calls, which can pass the lock test
    together before any of them counts a failure. *)
From S2P Require Import Prelude Text Float32 Float64 Config AuthTypes AuthLockout.

Record StoredPrincipal := mkStored {
  sp_id : bytes;
  sp_role : Role;
  sp_token_hash : option bytes;
  sp_cert_hash : option bytes }.

Record AuthService := mkService {
  as_required : bool;
  as_dual_control : bool;
  as_principals : list StoredPrincipal;
  as_lockout : LockoutTracker;
  as_rate : RateLimiter }.

Definition set_lockout (t : LockoutTracker) (s : AuthService) : AuthService :=
  mkService (as_required s) (as_dual_control s) (as_principals s) t (as_rate s).
Definition set_rate (r : RateLimiter) (s : AuthService) : AuthService :=
  mkService (as_required s) (as_dual_control s) (as_principals s) (as_lockout s) r.

(** ** Configuration *)

Definition parse_optional_hash (s : option bytes) : res AuthError (option bytes) :=
  match nonempty_hash s with
  | None => Ok None
  | Some h => out ← hex_decode_32 h; Ok (Some out)
  end.

(** [BTreeSet::insert] of a hash that is given; a duplicate is refused. *)
Definition insert_hash (h : option bytes) (seen : gset bytes) : res AuthError (gset bytes) :=
  match h with
  | None => Ok seen
  | Some h => if bool_decide (h ∈ seen) then Err (ConfigRefused "duplicate hash") else Ok ({[h]} ∪ seen)
  end.

Definition load_principal (p : PrincipalConfig) (ids token_hashes cert_hashes : gset bytes) :
    res AuthError (StoredPrincipal * (gset bytes * gset bytes * gset bytes)) :=
  let id := trim (pc_id p) in
  if match id with [] => true | _ => false end then Err (ConfigRefused "principal id must be non-empty")
  else if bool_decide (id ∈ ids) then Err (ConfigRefused "duplicate principal id")
  else
    role ← RoleOps.parse (pc_role p);
    token_hash ← parse_optional_hash (pc_token_sha256 p);
    cert_hash ← parse_optional_hash (pc_cert_sha256 p);
    if neither token_hash cert_hash
    then Err (ConfigRefused "at least one of token_sha256 or cert_sha256 is required")
    else
      token_hashes ← insert_hash token_hash token_hashes;
      cert_hashes ← insert_hash cert_hash cert_hashes;
      Ok (mkStored id role token_hash cert_hash, ({[id]} ∪ ids, token_hashes, cert_hashes)).

Fixpoint load_principals (ps : list PrincipalConfig) (ids token_hashes cert_hashes : gset bytes) :
    res AuthError (list StoredPrincipal) :=
  match ps with
  | [] => Ok []
  | p :: ps =>
      r ← load_principal p ids token_hashes cert_hashes;
      let '(sp, (ids, token_hashes, cert_hashes)) := r in
      sps ← load_principals ps ids token_hashes cert_hashes;
      Ok (sp :: sps)
  end.

Definition from_config (auth : AuthConfig) (limits : LimitsConfig) : res AuthError AuthService :=
  if au_lockout_secs auth =? 0 then Err (ConfigRefused "auth.lockout_secs must be >= 1")
  else if au_required auth && match au_principals auth with [] => true | _ => false end
  then Err (ConfigRefused "auth.required=true requires at least one principal")
  else
    principals ← load_principals (au_principals auth) ∅ ∅ ∅;
    Ok (mkService (au_required auth) (au_dual_control auth) principals
          (tracker_new (li_auth_fail_per_min limits) (au_lockout_secs auth))
          (rate_limiter_new (f64_of_int (li_rest_rate_per_s limits)) (f64_of_int (li_rest_burst limits)))).

(** ** Checks *)

(** The loop of [match_token] and [match_cert]: every principal is compared, the
    first match is kept. *)
Fixpoint match_hash (hash_of : StoredPrincipal -> option bytes) (method : AuthMethod) (hash : bytes)
    (ps : list StoredPrincipal) (found : option Principal) : option Principal :=
  match ps with
  | [] => found
  | p :: ps =>
      let found :=
        match hash_of p with
        | Some stored =>
            if ct_eq stored hash && match found with None => true | _ => false end
            then Some (mkPrincipal (sp_id p) (sp_role p) method) else found
        | None => found
        end in
      match_hash hash_of method hash ps found
  end.

Definition match_token (s : AuthService) (hash : bytes) : option Principal :=
  match_hash sp_token_hash MethodBearer hash (as_principals s) None.
Definition match_cert (s : AuthService) (fingerprint : bytes) : option Principal :=
  match_hash sp_cert_hash MethodMtls fingerprint (as_principals s) None.

Definition should_count_failure (cred : Credential) (required : bool) : bool :=
  match cred with CredNone => required | _ => true end.

Definition authorize (principal : Principal) (perm : Permission) : res AuthError unit :=
  if allows (p_role principal) perm then Ok tt
  else Err (Forbidden perm (min_role perm) (p_role principal)).

Definition dual_control_ok (s : AuthService) (uploader activator : bytes) : bool :=
  dual_control_allowed (as_dual_control s) uploader activator.

Definition rate_check (principal_id : bytes) (now : Z) : M AuthService AuthError unit := fun s =>
  let '(rl, r) := rate_limiter_check principal_id now (as_rate s) in
  (set_rate rl s, map_err RateLimited r).

Section Checks.
Context `{!Sha256} `{!IterOrder}.

Definition verify (s : AuthService) (cred : Credential) : res AuthError Principal :=
  match cred with
  | CredNone =>
      if as_required s then Err Unauthenticated else Ok (mkPrincipal ANONYMOUS_ID Admin MethodAnonymous)
  | CredBearer token => ok_or (match_token s (hash_secret token)) Unauthenticated
  | CredClientCert fingerprint_sha256 _ => ok_or (match_cert s fingerprint_sha256) Unauthenticated
  end.

(** The first critical section: the lock test. *)
Definition auth_test (client_ip : IpAddr) (now : Z) : M AuthService AuthError unit := fun s =>
  match locked_remaining client_ip now (as_lockout s) with
  | (t, Some secs) => (set_lockout t s, Err (Locked secs))
  | (t, None) => (set_lockout t s, Ok tt)
  end.

(** The rest of a call that has passed it: the verification, which only reads what is
    never written, and the second critical section if it fails. *)
Definition auth_finish (cred : Credential) (client_ip : IpAddr) (now : Z) :
    M AuthService AuthError Principal := fun s =>
  match verify s cred with
  | Ok principal => (s, Ok principal)
  | Err err =>
      if should_count_failure cred (as_required s) then
        match record_failure client_ip now (as_lockout s) with
        | (t, Some secs) => (set_lockout t s, Err (Locked secs))
        | (t, None) => (set_lockout t s, Err err)
        end
      else (s, Err err)
  | Panic => (s, Panic)
  end.

(** A call on its own. *)
Definition authenticate (cred : Credential) (client_ip : IpAddr) (now : Z) :
    M AuthService AuthError Principal :=
  auth_test client_ip now ;;
  auth_finish cred client_ip now.

Definition check (cred : Credential) (client_ip : IpAddr) (perm : Permission) (now : Z) :
    M AuthService AuthError Principal :=
  principal ← authenticate cred client_ip now;
  m_lift (authorize principal perm) ;;
  mret principal.

(** ** Calls in parallel *)

(** A call under way: when it read the clock, and whether it has passed the lock test. *)
Record AuthCall := mkAuthCall { ca_cred : Credential; ca_ip : IpAddr; ca_now : Z; ca_tested : bool }.

(** A wrong guess. *)
Definition wrong (cred : Credential) (s : AuthService) : bool := negb (is_ok (verify s cred)).

(** The service, the clock and the calls under way; [aw_guesses] notes when a wrong guess
    passes the lock test. *)
Record AuthWorld := mkAuthWorld {
  aw_service : AuthService;
  aw_time : Z;
  aw_calls : list AuthCall;
  aw_guesses : list (IpAddr * Z) }.

Inductive AuthEvent :=
  | EvTick (ns : Z)
  | EvCall (cred : Credential) (ip : IpAddr)
  | EvTest (i : nat)
  | EvFinish (i : nat).

Definition auth_event (ev : AuthEvent) (w : AuthWorld) : option AuthWorld :=
  let '(mkAuthWorld s time calls guesses) := w in
  match ev with
  | EvTick ns => if 0 <=? ns then Some (mkAuthWorld s (time + ns) calls guesses) else None
  | EvCall cred ip => Some (mkAuthWorld s time (calls ++ [mkAuthCall cred ip time false]) guesses)
  | EvTest i =>
      c ← calls !! i;
      if ca_tested c then None else
      match auth_test (ca_ip c) (ca_now c) s with
      | (s', Ok _) =>
          Some (mkAuthWorld s' time (<[i := mkAuthCall (ca_cred c) (ca_ip c) (ca_now c) true]> calls)
                  (if wrong (ca_cred c) s then guesses ++ [(ca_ip c, time)] else guesses))
      | (s', _) => Some (mkAuthWorld s' time (delete i calls) guesses)
      end
  | EvFinish i =>
      c ← calls !! i;
      if ca_tested c
      then Some (mkAuthWorld (auth_finish (ca_cred c) (ca_ip c) (ca_now c) s).1 time (delete i calls) guesses)
      else None
  end.

Definition guesses_of (ip : IpAddr) (w : AuthWorld) : list Z := (filter (fun g => g.1 = ip) (aw_guesses w)).*2.

(** At most [P] calls of [ip] are under way, none for longer than [d]; every call comes
    from one of [ips]. *)
Record within (ips : gset IpAddr) (P : nat) (d : Z) (ip : IpAddr) (w : AuthWorld) : Prop := {
  wi_ips : Forall (fun c => ca_ip c ∈ ips) (aw_calls w);
  wi_calls : (length (filter (fun c => ca_ip c = ip) (aw_calls w)) <= P)%nat;
  wi_slow : Forall (fun c => ca_ip c = ip -> aw_time w <= ca_now c + d) (aw_calls w) }.

(** What can be reached in any interleaving of calls within those bounds. *)
Inductive auth_run (ips : gset IpAddr) (P : nat) (d : Z) (ip : IpAddr) (s : AuthService) : AuthWorld -> Prop :=
  | run_start T : auth_run ips P d ip s (mkAuthWorld s T [] [])
  | run_event ev w w' : auth_run ips P d ip s w -> auth_event ev w = Some w' -> within ips P d ip w' ->
      auth_run ips P d ip s w'.

(** ** Brute force is slow *)

(** An attempt that tests the credential: the address is not locked. *)
Definition evaluated (client_ip : IpAddr) (now : Z) (s : AuthService) : bool :=
  match (locked_remaining client_ip now (as_lockout s)).2 with None => true | Some _ => false end.

Definition Attempt : Type := Credential * IpAddr * Z.

Lemma verify_wrong s cred e : verify s cred = Err e -> should_count_failure cred (as_required s) = true.
Proof. unfold verify. destruct cred; cbn; [|done..]. by destruct (as_required s). Qed.

Lemma verify_no_panic s cred : verify s cred <> Panic.
Proof. unfold verify, ok_or. destruct cred; repeat case_match; done. Qed.

Lemma verify_lockout s t cred : verify (set_lockout t s) cred = verify s cred.
Proof. by destruct cred. Qed.

(** The parts of the service that no call writes. *)
Definition same_config (s s' : AuthService) : Prop :=
  as_required s' = as_required s /\ as_principals s' = as_principals s.

Lemma same_config_wrong s s' cred : same_config s s' -> wrong cred s' = wrong cred s.
Proof.
  intros [Hr Hp]. unfold wrong. f_equal. f_equal. unfold verify, match_token, match_cert. by rewrite Hr, Hp.
Qed.

Lemma finish_config cred ip now s : same_config s (auth_finish cred ip now s).1.
Proof.
  unfold auth_finish. destruct (verify _ _); [done| |done]. destruct (should_count_failure _ _); [|done].
  by destruct (record_failure _ _ _) as [t' [secs|]].
Qed.

Section Guesser.
Context (ips : gset IpAddr) (P : nat) (d : Z) (ip : IpAddr) (s0 : AuthService).

Let k := lt_fail_per_min (as_lockout s0).
Let L := lt_lockout (as_lockout s0).
Let W := Z.min FAIL_WINDOW L.

(** The wrong guesses of [ip] that have passed the test and are under way. *)
Definition guessing (c : AuthCall) : bool := bool_decide (ca_ip c = ip) && ca_tested c && wrong (ca_cred c) s0.

Definition under_way (calls : list AuthCall) : nat := length (filter (fun c => guessing c = true) calls).

Record world_inv (w : AuthWorld) : Prop := {
  wo_tracker : tracker_inv ips (as_lockout (aw_service w));
  wo_limits : same_limits (as_lockout s0) (as_lockout (aw_service w));
  wo_config : same_config s0 (aw_service w);
  wo_past : Forall (fun c => ca_now c <= aw_time w) (aw_calls w);
  wo_guesses : guess_inv k L W d P (guesses_of ip w) (under_way (aw_calls w)) (aw_time w)
    (entry (as_lockout (aw_service w)) ip) }.

Lemma under_way_app l l' : under_way (l ++ l') = (under_way l + under_way l')%nat.
Proof. unfold under_way. by rewrite filter_app, length_app. Qed.

Lemma under_way_one c : under_way [c] = if guessing c then 1%nat else 0%nat.
Proof. unfold under_way. cbn. by case_decide; destruct (guessing c). Qed.

Lemma under_way_calls calls : (under_way calls <= length (filter (fun c => ca_ip c = ip) calls))%nat.
Proof.
  induction calls as [|c calls IH]; [done|]. change (c :: calls) with ([c] ++ calls). rewrite under_way_app, filter_app, length_app, under_way_one.
  unfold guessing. case_bool_decide as Hip; cbn [andb]; [|lia].
  rewrite filter_cons_True by done. cbn [length]. destruct (_ && _); lia.
Qed.

(** The [i]-th call among the others. *)
Lemma call_split (calls : list AuthCall) i c : calls !! i = Some c -> exists l l', calls = l ++ c :: l' /\
  delete i calls = l ++ l' /\ forall c', <[i := c']> calls = l ++ c' :: l'.
Proof.
  intros Hi. exists (take i calls), (drop (S i) calls). split; [by rewrite take_drop_middle|]. split; [by rewrite delete_take_drop|].
  intros c'. apply insert_take_drop. by eapply lookup_lt_Some.
Qed.

Lemma under_way_middle l c l' : under_way (l ++ c :: l') = (under_way (l ++ l') + if guessing c then 1 else 0)%nat.
Proof.
  change (c :: l') with ([c] ++ l'). rewrite !under_way_app, under_way_one. lia.
Qed.

Hypothesis (Hk : 0 < k).

Lemma guesses_snoc s t calls gs a T :
  guesses_of ip (mkAuthWorld s t calls (gs ++ [(a, T)])) =
  guesses_of ip (mkAuthWorld s t calls gs) ++ (if bool_decide (a = ip) then [T] else []).
Proof.
  unfold guesses_of. cbn [aw_guesses]. rewrite filter_app, fmap_app. f_equal. case_bool_decide.
  - by rewrite filter_cons_True.
  - by rewrite filter_cons_False.
Qed.

Lemma test_inv w w' i : world_inv w -> auth_event (EvTest i) w = Some w' -> within ips P d ip w' -> world_inv w'.
Proof using Hk.
  intros [H1 H2 H3 H4 H5] He Hw. destruct w as [s T calls gs]. cbn [auth_event] in He.
  apply bind_Some in He as (c & Hc & He). destruct (ca_tested c) eqn:Hct; [done|].
  destruct (call_split _ _ _ Hc) as (l & l' & -> & Hdel & Hins).
  cbn [aw_service aw_time aw_calls] in *. unfold auth_test in He.
  destruct (locked_remaining (ca_ip c) (ca_now c) (as_lockout s)) as [t r] eqn:Hl.
  destruct (locked_remaining_inv _ _ _ _ _ _ H1 Hl) as (Ht & Hlim & Hrel & Hr).
  assert (Hlim' : same_limits (as_lockout s0) t) by (unfold same_limits in *; intuition congruence).
  apply Forall_app in H4 as [H4l [H4c H4r]%Forall_cons].
  assert (Hg0 : guessing c = false) by (unfold guessing; by rewrite Hct, andb_false_r).
  rewrite under_way_middle, Hg0, Nat.add_0_r in H5.
  assert (H5' : guess_inv k L W d P (guesses_of ip (mkAuthWorld s T (l ++ c :: l') gs)) (under_way (l ++ l')) T (entry t ip)).
  { eapply guess_relaxed; [done| |exact H5]. by apply (relaxed_later (ca_now c)). }
  destruct r as [secs|]; injection He as <-.
  { rewrite Hdel. split; cbn [aw_service aw_time aw_calls as_lockout set_lockout]; [done..| |done]. by apply Forall_app. }
  rewrite Hins. split; cbn [aw_service aw_time aw_calls as_lockout set_lockout]; [done..|by apply Forall_app; split; [|constructor]|].
  rewrite under_way_middle. unfold guessing at 1. cbn [ca_ip ca_tested ca_cred]. rewrite andb_true_r.
  rewrite (same_config_wrong _ _ _ H3). destruct (wrong (ca_cred c) s0) eqn:Ewrong; [|by rewrite andb_false_r, Nat.add_0_r].
  rewrite guesses_snoc. case_bool_decide as Hip; cbn [andb]; [|by rewrite app_nil_r, Nat.add_0_r].
  rewrite Nat.add_1_r. apply guess_tested; [exact H5'|by rewrite <-Hip| |done].
  pose proof (wi_calls _ _ _ _ _ Hw) as Hn. cbn [aw_calls] in Hn. rewrite Hins in Hn.
  etrans; [|exact Hn]. etrans; [|apply under_way_calls]. rewrite under_way_middle.
  unfold guessing at 1. cbn [ca_ip ca_tested ca_cred]. rewrite bool_decide_eq_true_2, Ewrong by done. cbn. lia.
Qed.

Lemma finish_inv w w' i : world_inv w -> within ips P d ip w -> auth_event (EvFinish i) w = Some w' -> world_inv w'.
Proof using Hk.
  intros [H1 H2 H3 H4 H5] Hw He. destruct w as [s T calls gs]. cbn [auth_event] in He.
  apply bind_Some in He as (c & Hc & He). destruct (ca_tested c) eqn:Hct; [|done].
  destruct (call_split _ _ _ Hc) as (l & l' & -> & Hdel & _). injection He as <-. rewrite Hdel.
  destruct Hw as [Wi _ Ws]. cbn [aw_service aw_time aw_calls] in *.
  apply Forall_app in H4 as [H4l [H4c H4r]%Forall_cons]. apply Forall_app in Wi as [_ [Wi _]%Forall_cons].
  apply Forall_app in Ws as [_ [Ws _]%Forall_cons].
  assert (Hpast : Forall (fun c => ca_now c <= T) (l ++ l')) by by apply Forall_app.
  pose proof (finish_config (ca_cred c) (ca_ip c) (ca_now c) s) as Hcfg.
  assert (Hcfg' : same_config s0 (auth_finish (ca_cred c) (ca_ip c) (ca_now c) s).1)
    by (unfold same_config in *; intuition congruence).
  rewrite under_way_middle in H5. unfold guessing at 1 in H5. rewrite Hct, andb_true_r in H5.
  unfold auth_finish in *. pose proof (same_config_wrong _ _ (ca_cred c) H3) as Hwrong. unfold wrong at 1 in Hwrong.
  destruct (verify s (ca_cred c)) as [p|e|] eqn:Hv; cbn [is_ok negb] in Hwrong; [| |by apply verify_no_panic in Hv].
  { rewrite <-Hwrong, andb_false_r, Nat.add_0_r in H5. by split. }
  rewrite (verify_wrong _ _ _ Hv) in *. rewrite <-Hwrong, andb_true_r in H5.
  destruct (record_failure (ca_ip c) (ca_now c) (as_lockout s)) as [t r] eqn:Hr.
  destruct (record_failure_inv _ _ _ _ _ _ H1 Wi Hr) as (Ht & Hlim & Hother & Hself).
  assert (Hlim' : same_limits (as_lockout s0) t) by (unfold same_limits in *; intuition congruence).
  assert (Hg : guess_inv k L W d P (guesses_of ip (mkAuthWorld s T (l ++ c :: l') gs)) (under_way (l ++ l')) T (entry t ip)).
  { case_bool_decide as Hip.
    - rewrite Nat.add_1_r in H5. rewrite Hip in *. destruct Hself as [[-> [until Hu]]|(x & Hx & Hu & Hx')].
      + by eapply guess_refused.
      + destruct H2 as (Ek & EL & _). rewrite Hx', Ek, EL. apply guess_counted; [|done| |done].
        * eapply guess_relaxed; [done| |exact H5]. by apply (relaxed_later (ca_now c)).
        * specialize (Ws eq_refl). lia.
    - rewrite Nat.add_0_r in H5. eapply guess_relaxed; [done| |exact H5].
      apply (relaxed_later (ca_now c)); [done|]. by apply Hother. }
  destruct r as [secs|]; by split.
Qed.

Lemma event_inv ev w w' : world_inv w -> within ips P d ip w -> auth_event ev w = Some w' -> within ips P d ip w' -> world_inv w'.
Proof using Hk.
  intros Hi Hw He Hw'. destruct ev as [ns|cred a|i|i]; [| |by eapply test_inv|by eapply finish_inv].
  - destruct w as [s T calls gs], Hi as [H1 H2 H3 H4 H5]. cbn [auth_event] in He. destruct (Z.leb_spec 0 ns); [|done].
    injection He as <-. split; cbn [aw_service aw_time aw_calls] in *; [done..| |].
    + eapply Forall_impl; [exact H4|]. cbn. lia.
    + eapply guess_later; [|exact H5]. lia.
  - destruct w as [s T calls gs], Hi as [H1 H2 H3 H4 H5]. cbn [auth_event] in He. injection He as <-.
    split; cbn [aw_service aw_time aw_calls] in *; [done..| |].
    + apply Forall_app. split; [done|]. by repeat constructor.
    + rewrite under_way_app, under_way_one. unfold guessing. cbn [ca_ip ca_tested ca_cred].
      rewrite andb_false_r. cbn [andb]. by rewrite Nat.add_0_r.
Qed.

Lemma attempts_inv w : tracker_inv ips (as_lockout s0) -> entry (as_lockout s0) ip = ip_new ->
  auth_run ips P d ip s0 w -> world_inv w /\ within ips P d ip w.
Proof using Hk.
  intros Ht He. induction 1 as [T|ev w w' _ [Hi Hw] Hev Hw'].
  - split; [|split; cbn; [constructor|lia|constructor]]. split; cbn; try done. rewrite He. by apply guess_start.
  - split; [|done]. by eapply event_inv.
Qed.
End Guesser.

(** The service after some attempts. *)
Definition after (attempts : list Attempt) (s : AuthService) : AuthService :=
  fold_left (fun s '(cred, ip, now) => (authenticate cred ip now s).1) attempts s.

Lemma authenticate_config cred ip now s :
  let s' := (authenticate cred ip now s).1 in
  as_required s' = as_required s /\ as_principals s' = as_principals s.
Proof.
  unfold authenticate, auth_test, mbind, M_bind. destruct (locked_remaining _ _ _) as [t [secs|]]; [done|].
  apply (finish_config cred ip now (set_lockout t s)).
Qed.

Lemma after_config attempts s :
  as_required (after attempts s) = as_required s /\ as_principals (after attempts s) = as_principals s.
Proof.
  revert s. induction attempts as [|[[cred ip] now] attempts IH]; intros s; [done|].
  change (after ((cred, ip, now) :: attempts) s) with (after attempts (authenticate cred ip now s).1).
  destruct (IH (authenticate cred ip now s).1) as [-> ->]. apply authenticate_config.
Qed.
End Checks.

(** ** Who is let in

    The specification of authentication, from the configuration alone. *)
Inductive grants `{!Sha256} (auth : AuthConfig) : Credential -> Principal -> Prop :=
  | grant_anonymous :
      au_required auth = false -> grants auth CredNone (mkPrincipal ANONYMOUS_ID Admin MethodAnonymous)
  | grant_token pc role h token :
      pc ∈ au_principals auth -> RoleOps.parse (pc_role pc) = Ok role ->
      pc_token_sha256 pc = Some h -> hex_decode_32 h = Ok (sha256 token) ->
      grants auth (CredBearer token) (mkPrincipal (trim (pc_id pc)) role MethodBearer)
  | grant_cert pc role h fingerprint cn :
      pc ∈ au_principals auth -> RoleOps.parse (pc_role pc) = Ok role ->
      pc_cert_sha256 pc = Some h -> hex_decode_32 h = Ok fingerprint ->
      grants auth (CredClientCert fingerprint cn) (mkPrincipal (trim (pc_id pc)) role MethodMtls).

(** [sp] is what is stored of [pc]. *)
Record stores (pc : PrincipalConfig) (sp : StoredPrincipal) : Prop := {
  st_id : sp_id sp = trim (pc_id pc);
  st_role : RoleOps.parse (pc_role pc) = Ok (sp_role sp);
  st_token : forall h, sp_token_hash sp = Some h <->
    exists t, pc_token_sha256 pc = Some t /\ hex_decode_32 t = Ok h;
  st_cert : forall h, sp_cert_hash sp = Some h <->
    exists t, pc_cert_sha256 pc = Some t /\ hex_decode_32 t = Ok h }.

Lemma hex_decode_32_trim s : hex_decode_32 (trim s) = hex_decode_32 s.
Proof. unfold hex_decode_32. by rewrite trim_idem. Qed.

Lemma hex_decode_32_blank s : trim s = [] -> hex_decode_32 s = Err (ConfigRefused "expected 32 hex bytes (64 hex characters)").
Proof. unfold hex_decode_32. by intros ->. Qed.

Lemma parse_optional_hash_Ok s o h :
  parse_optional_hash s = Ok o ->
  o = Some h <-> exists t, s = Some t /\ hex_decode_32 t = Ok h.
Proof.
  unfold parse_optional_hash, nonempty_hash. destruct s as [t|]; [|intros Hr%Ok_inj; subst o; naive_solver].
  destruct (trim t) eqn:E.
  - intros Hr%Ok_inj. subst o. split; [done|]. intros (t' & [= <-] & Hd).
    rewrite hex_decode_32_blank in Hd by done. done.
  - intros Hr. apply res_bind_Ok in Hr as (out & Hd & Ho%Ok_inj). subst o.
    rewrite <-E, hex_decode_32_trim in Hd. split.
    + intros [= ->]. eauto.
    + intros (t' & [= <-] & Hd'). congruence.
Qed.

Lemma insert_hash_Ok o seen seen' :
  insert_hash o seen = Ok seen' ->
  (forall h, o = Some h -> h ∉ seen) /\ forall h, h ∈ seen' <-> h ∈ seen \/ o = Some h.
Proof.
  unfold insert_hash. destruct o as [h|]; [|intros Hr%Ok_inj; subst; naive_solver].
  case_bool_decide as Hd; [done|]. intros Hr%Ok_inj. subst seen'. split; [by intros ? [= <-]|]. set_solver.
Qed.

(** Hashes are distinct, and none was seen before. *)
Definition fresh_hashes (hash_of : StoredPrincipal -> option bytes) (seen : gset bytes) (sps : list StoredPrincipal) : Prop :=
  (forall i j a b h, sps !! i = Some a -> sps !! j = Some b -> hash_of a = Some h -> hash_of b = Some h -> i = j) /\
  (forall a h, a ∈ sps -> hash_of a = Some h -> h ∉ seen).

Lemma fresh_hashes_cons hash_of seen seen' sp sps :
  (forall h, hash_of sp = Some h -> h ∉ seen) ->
  (forall h, h ∈ seen' <-> h ∈ seen \/ hash_of sp = Some h) ->
  fresh_hashes hash_of seen' sps -> fresh_hashes hash_of seen (sp :: sps).
Proof.
  intros Hn Hs [H1 H2]. split.
  - intros [|i] [|j] a b h Hi Hj Ha Hb; cbn in Hi, Hj; [done| | |f_equal; by eapply H1].
    + simplify_eq. apply list_elem_of_lookup_2 in Hj. destruct (H2 _ _ Hj Hb). apply Hs. by right.
    + simplify_eq. apply list_elem_of_lookup_2 in Hi. destruct (H2 _ _ Hi Ha). apply Hs. by right.
  - intros a h [->|Ha]%elem_of_cons Hh; [by apply Hn|]. specialize (H2 _ _ Ha Hh). rewrite Hs in H2. tauto.
Qed.

Lemma load_principal_Ok p ids ts cs sp ids' ts' cs' :
  load_principal p ids ts cs = Ok (sp, (ids', ts', cs')) ->
  stores p sp /\ insert_hash (sp_token_hash sp) ts = Ok ts' /\ insert_hash (sp_cert_hash sp) cs = Ok cs'.
Proof.
  unfold load_principal. destruct (trim (pc_id p)) eqn:Hid; [done|]. case_bool_decide; [done|]. intros Hr.
  apply res_bind_Ok in Hr as (role & Hrole & Hr). apply res_bind_Ok in Hr as (th & Hth & Hr).
  apply res_bind_Ok in Hr as (ch & Hch & Hr). revert Hr.
  destruct (neither th ch); [done|]. intros Hr.
  apply res_bind_Ok in Hr as (ts1 & Ht & Hr). apply res_bind_Ok in Hr as (cs1 & Hc & Hr). apply Ok_inj in Hr.
  simplify_eq. split; [|done]. rewrite <-Hid. split; cbn; try done.
  - intros h. by apply parse_optional_hash_Ok.
  - intros h. by apply parse_optional_hash_Ok.
Qed.

Lemma load_principals_Ok ps ids ts cs sps :
  load_principals ps ids ts cs = Ok sps ->
  Forall2 stores ps sps /\ fresh_hashes sp_token_hash ts sps /\ fresh_hashes sp_cert_hash cs sps.
Proof.
  revert ids ts cs sps. induction ps as [|p ps IH]; intros ids ts cs sps Hr; cbn in Hr.
  - apply Ok_inj in Hr as <-. split; [constructor|]. split; split; intros; by set_solver.
  - apply res_bind_Ok in Hr as ([sp [[ids' ts'] cs']] & Hp & Hr).
    apply res_bind_Ok in Hr as (sps' & Hps & Hr). apply Ok_inj in Hr as <-.
    destruct (load_principal_Ok _ _ _ _ _ _ _ _ Hp) as (Hst & Ht & Hc).
    destruct (IH _ _ _ _ Hps) as (H1 & H2 & H3).
    destruct (insert_hash_Ok _ _ _ Ht), (insert_hash_Ok _ _ _ Hc).
    split; [by constructor|]. split; by eapply fresh_hashes_cons.
Qed.

Lemma from_config_Ok auth limits s :
  from_config auth limits = Ok s ->
  au_lockout_secs auth <> 0 /\ as_required s = au_required auth /\
  as_lockout s = tracker_new (li_auth_fail_per_min limits) (au_lockout_secs auth) /\
  load_principals (au_principals auth) ∅ ∅ ∅ = Ok (as_principals s).
Proof.
  unfold from_config. destruct (Z.eqb_spec (au_lockout_secs auth) 0); [done|].
  destruct (_ && _); [done|]. intros Hr. apply res_bind_Ok in Hr as (ps & Hps & Hr). by apply Ok_inj in Hr as <-.
Qed.

(** The match is the stored principal with that hash. *)
Lemma match_hash_spec hash_of method hash ps found p :
  match_hash hash_of method hash ps found = Some p ->
  found = Some p \/ exists sp, sp ∈ ps /\ hash_of sp = Some hash /\ p = mkPrincipal (sp_id sp) (sp_role sp) method.
Proof.
  revert found. induction ps as [|sp ps IH]; intros found Hm; cbn in Hm; [by left|].
  apply IH in Hm as [Hf|(sp' & Hin & Hh & ->)]; [|right; exists sp'; split; [by right|done]].
  destruct (hash_of sp) as [stored|] eqn:Hs; [|by left]. destruct (ct_eq stored hash) eqn:Hc; [|by left].
  apply ct_eq_spec in Hc as ->. destruct found; cbn in Hf; [by left|]. simplify_eq.
  right. exists sp. split; [by left|done].
Qed.

Lemma match_hash_found hash_of method hash ps found :
  is_Some found \/ (exists sp, sp ∈ ps /\ hash_of sp = Some hash) ->
  is_Some (match_hash hash_of method hash ps found).
Proof.
  revert found. induction ps as [|sp ps IH]; intros found Hm; cbn.
  - destruct Hm as [?|(sp & Hin & _)]; [done|by apply elem_of_nil in Hin].
  - apply IH. destruct Hm as [[q ->]|(sp' & Hin & Hh)].
    + left. destruct (hash_of sp); [|eauto]. rewrite andb_false_r. eauto.
    + apply elem_of_cons in Hin as [->|Hin]; [|right; eauto]. left. rewrite Hh, (proj2 (ct_eq_spec _ _) eq_refl).
      destruct found; cbn; eauto.
Qed.

Lemma match_hash_exact hash_of method hash seen ps p :
  fresh_hashes hash_of seen ps ->
  match_hash hash_of method hash ps None = Some p <->
  exists sp, sp ∈ ps /\ hash_of sp = Some hash /\ p = mkPrincipal (sp_id sp) (sp_role sp) method.
Proof.
  intros [Hf _]. split.
  - intros Hm. apply match_hash_spec in Hm as [?|?]; done.
  - intros (sp & Hin & Hh & ->).
    destruct (match_hash_found hash_of method hash ps None) as [q Hq]; [right; eauto|].
    rewrite Hq. apply match_hash_spec in Hq as [?|(sp' & Hin' & Hh' & ->)]; [done|].
    apply list_elem_of_lookup in Hin as [i Hi], Hin' as [j Hj].
    assert (i = j) as -> by by eapply Hf. by simplify_eq.
Qed.

Lemma stored_elem pcs sps sp :
  Forall2 stores pcs sps -> sp ∈ sps -> exists pc, pc ∈ pcs /\ stores pc sp.
Proof.
  intros Hst [i Hi]%list_elem_of_lookup. destruct (Forall2_lookup_r _ _ _ _ _ Hst Hi) as (y & Hy & ?).
  eauto using list_elem_of_lookup_2.
Qed.

Lemma config_elem pcs sps pc :
  Forall2 stores pcs sps -> pc ∈ pcs -> exists sp, sp ∈ sps /\ stores pc sp.
Proof.
  intros Hst [i Hi]%list_elem_of_lookup. destruct (Forall2_lookup_l _ _ _ _ _ Hst Hi) as (y & Hy & ?).
  eauto using list_elem_of_lookup_2.
Qed.

Lemma grants_inv `{!Sha256} auth cred p :
  grants auth cred p ->
  match cred with
  | CredNone => au_required auth = false /\ p = mkPrincipal ANONYMOUS_ID Admin MethodAnonymous
  | CredBearer token => exists pc role h, pc ∈ au_principals auth /\ RoleOps.parse (pc_role pc) = Ok role /\
      (pc_token_sha256 pc = Some h /\ hex_decode_32 h = Ok (sha256 token)) /\
      p = mkPrincipal (trim (pc_id pc)) role MethodBearer
  | CredClientCert fp _ => exists pc role h, pc ∈ au_principals auth /\ RoleOps.parse (pc_role pc) = Ok role /\
      (pc_cert_sha256 pc = Some h /\ hex_decode_32 h = Ok fp) /\
      p = mkPrincipal (trim (pc_id pc)) role MethodMtls
  end.
Proof. destruct 1; eauto 10. Qed.

(** What is verified is what the configuration grants. *)
Lemma verify_exact `{!Sha256} auth s cred p :
  load_principals (au_principals auth) ∅ ∅ ∅ = Ok (as_principals s) -> as_required s = au_required auth ->
  verify s cred = Ok p <-> grants auth cred p.
Proof.
  intros Hl Hreq. destruct (load_principals_Ok _ _ _ _ _ Hl) as (Hst & Ht & Hc). split.
  - destruct cred as [|token|fp cn]; cbn [verify].
    + rewrite Hreq. destruct (au_required auth) eqn:E; [done|]. intros Hg%Ok_inj. subst p. by constructor.
    + rewrite ok_or_Ok. intros (sp & Hin & Hh & ->)%(match_hash_exact _ _ _ _ _ _ Ht).
      destruct (stored_elem _ _ _ Hst Hin) as (pc & Hpc & [Hi Hr Htk _]).
      rewrite Hi. destruct (proj1 (Htk _) Hh) as (h & Hh1 & Hd). by eapply grant_token.
    + rewrite ok_or_Ok. intros (sp & Hin & Hh & ->)%(match_hash_exact _ _ _ _ _ _ Hc).
      destruct (stored_elem _ _ _ Hst Hin) as (pc & Hpc & [Hi Hr _ Htk]).
      rewrite Hi. destruct (proj1 (Htk _) Hh) as (h & Hh1 & Hd). by eapply grant_cert.
  - intros Hg%grants_inv. destruct cred as [|token|fp cn]; cbn [verify].
    + destruct Hg as [Hg ->]. by rewrite Hreq, Hg.
    + destruct Hg as (pc & role & h & Hpc & Hr & Hh & ->).
      destruct (config_elem _ _ _ Hst Hpc) as (sp & Hin & [Hi Hr' Htk _]).
      apply ok_or_Ok, (match_hash_exact _ _ _ _ _ _ Ht). exists sp. split; [done|].
      split; [apply Htk; eauto|]. rewrite Hi. f_equal. congruence.
    + destruct Hg as (pc & role & h & Hpc & Hr & Hh & ->).
      destruct (config_elem _ _ _ Hst Hpc) as (sp & Hin & [Hi Hr' _ Htk]).
      apply ok_or_Ok, (match_hash_exact _ _ _ _ _ _ Hc). exists sp. split; [done|].
      split; [apply Htk; eauto|]. rewrite Hi. f_equal. congruence.
Qed.

(** C35: whatever happened before, a check of an address that is not locked out grants
    exactly what the configuration grants: the principal whose stored hash is that of
    the secret or certificate presented (or the anonymous administrator when
    authentication is not required), if its role allows the permission; an address
    that is locked out is refused whatever it presents. *)
Theorem check_exact `{!Sha256} `{!IterOrder} (auth : AuthConfig) (limits : LimitsConfig) (s0 : AuthService)
    (attempts : list Attempt) (cred : Credential) (ip : IpAddr) (perm : Permission) (now : Z) (p : Principal) :
  from_config auth limits = Ok s0 ->
  let s := after attempts s0 in
  if evaluated ip now s
  then (check cred ip perm now s).2 = Ok p <-> grants auth cred p /\ allows (p_role p) perm = true
  else exists secs, (check cred ip perm now s).2 = Err (Locked secs).
Proof.
  intros Hs0 s. destruct (from_config_Ok _ _ _ Hs0) as (_ & Hreq & _ & Hps).
  destruct (after_config attempts s0) as [Hr' Hp']. fold s in Hr', Hp'.
  rewrite <-Hp' in Hps. rewrite <-Hr' in Hreq.
  pose proof (verify_exact auth s cred p Hps Hreq) as Hex. unfold evaluated, check, authenticate, auth_test, auth_finish, mbind, M_bind.
  destruct (locked_remaining ip now (as_lockout s)) as [t [secs|]]; cbn [snd]; [by eexists|].
  rewrite verify_lockout, <-Hex. destruct (verify s cred) as [q|e|] eqn:Hv.
  - unfold m_lift, authorize. destruct (allows (p_role q) perm) eqn:Ha; cbn; split; try naive_solver.
    intros [Hq Ha']. apply Ok_inj in Hq as <-. congruence.
  - cbn [as_required set_lockout]. rewrite (verify_wrong _ _ _ Hv). destruct (record_failure _ _ _) as [t' [secs|]]; cbn; naive_solver.
  - by apply verify_no_panic in Hv.
Qed.

(** C36: brute force is slow, however the calls interleave. Take any interleaving of the
    two critical sections of any number of calls, from at most 4096 addresses, in which
    no more than [P] calls of one address are under way at a time, and none of them for
    longer than [d]. Of that address's wrong guesses that pass the lock test, and so are
    tested, any two that are [auth_fail_per_min + P - 1] apart are, but for [d], a minute
    or the lockout time apart, whichever is shorter. With one call at a time ([P] is 1)
    no more than [auth_fail_per_min] guesses are tested in that time; nothing in the
    service bounds [P]. *)
Theorem brute_force_bound `{!Sha256} `{!IterOrder} (auth : AuthConfig) (limits : LimitsConfig) (s : AuthService)
    (ips : gset IpAddr) (P : nat) (d : Z) (ip : IpAddr) (w : AuthWorld) (i : nat) (a b : Z) :
  from_config auth limits = Ok s ->
  u_range 32 (li_auth_fail_per_min limits) -> u_range 32 (au_lockout_secs auth) ->
  (size ips <= MAX_TRACKED_IPS)%nat -> auth_run ips P d ip s w ->
  let n := Z.to_nat (Z.max (li_auth_fail_per_min limits) 1) in
  guesses_of ip w !! i = Some a -> guesses_of ip w !! (i + n + P - 1)%nat = Some b ->
  Z.min 60 (au_lockout_secs auth) * NANOS_PER_SEC - d <= b - a.
Proof.
  intros Hs Hn Hl Hips Hrun n Ha Hb. destruct (from_config_Ok _ _ _ Hs) as (Hnz & _ & Hlt & _).
  destruct (attempts_inv ips P d ip s) with (w := w) as [Hi _]; [rewrite Hlt; cbn; lia| | |done|].
  - rewrite Hlt. by apply tracker_new_inv.
  - rewrite Hlt. done.
  - pose proof (gi_spaced _ _ _ _ _ _ _ _ _ (wo_guesses _ _ _ _ _ _ Hi)) as Hsp. rewrite Hlt in Hsp.
    cbn [tracker_new tracker_with_capacity lt_fail_per_min lt_lockout] in Hsp. specialize (Hsp i a b Ha Hb).
    unfold FAIL_WINDOW, NANOS_PER_SEC, u_range in *. lia.
Qed.

(** ** A concrete service *)

#[export] Program Instance toy_sha256 : Sha256 := {
  sha256 b := take 32 (map (wrap_u 8) b ++ replicate 32 0) }.
Next Obligation.
  intros b. split.
  - rewrite length_take, length_app, length_replicate. lia.
  - apply Forall_take, Forall_app. split; [|by apply Forall_replicate].
    induction b; constructor; [by apply (wrap_u_range 8)|done].
Qed.

#[export] Program Instance list_order : IterOrder := { iter_order _ m := map_to_list m }.
Next Obligation. done. Qed.

Definition demo_auth : AuthConfig :=
  mkAuthConfig true [] [] [] false 60
    [mkPrincipalConfig (bstr " eve ") (bstr "Engineer") (Some (hex_encode (sha256 (bstr "key")))) None].
Definition demo_limits : LimitsConfig := mkLimitsConfig default_max_package_bytes 30 60 2 4096.
Definition demo_ip : IpAddr := V4 [10; 0; 0; 1].
Definition demo_guess (now : Z) : Attempt := (CredBearer (bstr "guess"), demo_ip, now).

(** Runs for examples: events in a given order, all calls from one address. *)
Definition bounded (P : nat) (d : Z) (ip : IpAddr) (w : AuthWorld) : bool :=
  forallb (fun c => bool_decide (ca_ip c = ip) && (aw_time w <=? ca_now c + d)) (aw_calls w) && (length (aw_calls w) <=? P)%nat.

Fixpoint auth_events (P : nat) (d : Z) (ip : IpAddr) (evs : list AuthEvent) (w : AuthWorld) : option AuthWorld :=
  match evs with
  | [] => Some w
  | ev :: evs => w ← auth_event ev w; if bounded P d ip w then auth_events P d ip evs w else None
  end.

Lemma bounded_within P d ip w : bounded P d ip w = true -> within {[ip]} P d ip w.
Proof.
  unfold bounded. intros [Hc Hn%Nat.leb_le]%andb_true_iff. rewrite forallb_forall in Hc.
  assert (Hall : forall c, c ∈ aw_calls w -> ca_ip c = ip /\ aw_time w <= ca_now c + d).
  { intros c Hin%list_elem_of_In. apply Hc in Hin. apply andb_true_iff in Hin as [H1%bool_decide_eq_true H2%Z.leb_le]. done. }
  split.
  - apply Forall_forall. intros c Hin. apply elem_of_singleton. by apply Hall.
  - etrans; [apply length_filter|done].
  - apply Forall_forall. intros c Hin _. by apply Hall.
Qed.

Lemma auth_events_run P d ip s evs w w' :
  auth_run {[ip]} P d ip s w -> auth_events P d ip evs w = Some w' -> auth_run {[ip]} P d ip s w'.
Proof.
  revert w. induction evs as [|ev evs IH]; intros w Hw; cbn [auth_events]; [by intros [= <-]|].
  intros H'. apply bind_Some in H' as (w1 & He & H'). destruct (bounded P d ip w1) eqn:Hb; [|done].
  apply (IH w1); [|done]. eapply run_event; [exact Hw|exact He|by apply bounded_within].
Qed.

(** Two guesses in parallel, twice, as soon as the lock has ended. *)
Definition demo_events : list AuthEvent :=
  let guess := EvCall (CredBearer (bstr "guess")) demo_ip in
  let pair := [guess; guess; EvTest 0; EvTest 1; EvFinish 0; EvFinish 0] in
  pair ++ [EvTick (60 * NANOS_PER_SEC)] ++ pair.

Lemma check_exact_witness :
  exists s, from_config demo_auth demo_limits = Ok s /\
    evaluated demo_ip 5 (after [demo_guess 0] s) = true /\
    grants demo_auth (CredBearer (bstr "key")) (mkPrincipal (bstr "eve") Engineer MethodBearer).
Proof.
  assert (Hd : exists s, from_config demo_auth demo_limits = Ok s /\
    evaluated demo_ip 5 (after [demo_guess 0] s) = true /\
    (check (CredBearer (bstr "key")) demo_ip ProgramArm 5 (after [demo_guess 0] s)).2 =
      Ok (mkPrincipal (bstr "eve") Engineer MethodBearer)).
  { eexists. split; [vm_compute; reflexivity|]. split; vm_compute; reflexivity. }
  destruct Hd as (s & Hs & He & Hc). exists s. do 2 (split; [done|]).
  pose proof (check_exact demo_auth demo_limits s [demo_guess 0] (CredBearer (bstr "key")) demo_ip ProgramArm 5
    (mkPrincipal (bstr "eve") Engineer MethodBearer) Hs) as Hx.
  cbv zeta in Hx. rewrite He in Hx. exact (proj1 (proj1 Hx Hc)).
Defined.

Lemma brute_force_bound_witness :
  exists s w, from_config demo_auth demo_limits = Ok s /\
    auth_events 2 0 demo_ip demo_events (mkAuthWorld s 0 [] []) = Some w /\
    guesses_of demo_ip w = [0; 0; 60 * NANOS_PER_SEC; 60 * NANOS_PER_SEC] /\
    Z.min 60 60 * NANOS_PER_SEC - 0 <= 60 * NANOS_PER_SEC - 0.
Proof.
  assert (Hd : exists s w, from_config demo_auth demo_limits = Ok s /\
    auth_events 2 0 demo_ip demo_events (mkAuthWorld s 0 [] []) = Some w /\
    guesses_of demo_ip w = [0; 0; 60 * NANOS_PER_SEC; 60 * NANOS_PER_SEC]).
  { do 2 eexists. split; [vm_compute; reflexivity|]. split; vm_compute; reflexivity. }
  destruct Hd as (s & w & Hs & He & Hw). exists s, w. do 3 (split; [done|]).
  apply (brute_force_bound demo_auth demo_limits s {[demo_ip]} 2 0 demo_ip w 0 0 (60 * NANOS_PER_SEC)).
  - exact Hs.
  - unfold u_range, demo_limits. cbn. lia.
  - unfold u_range, demo_auth. cbn. lia.
  - rewrite size_singleton. unfold MAX_TRACKED_IPS. lia.
  - eapply auth_events_run; [apply run_start|exact He].
  - rewrite Hw. reflexivity.
  - rewrite Hw. reflexivity.
Defined.
