(* ===== verification/ScanMode.v ===== *)
(** * Operator modes of the scan engine

    Crate [plc-scan], src/crates/plc-scan/src/mode.rs and error.rs: mode requests,
    the transition table and the shared cell. A request is one atomic store and
    the engine takes it with one atomic swap at an invocation boundary; only the
    engine stores the mode. *)
From S2P Require Import Prelude Float32 PlcTypes IoImage FbDispatch VmValue.

(** [InvalidState] keeps the context's fixed text. *)
Inductive ScanError :=
  | SConfig (msg : string)
  | SImageMismatch
  | SVm (e : VmError)
  | SIo (e : IoError)
  | SInvalidState (context : string).

Inductive ModeRequest := ReqStop | ReqRun | ReqSim | ReqFaultReset.

#[export] Instance ModeRequest_eq_dec : EqDecision ModeRequest.
Proof. solve_decision. Defined.

Definition REQ_NONE : Z := 0.

Definition encode_mode (m : OperatingMode) : Z :=
  match m with Stop => 0 | Run => 1 | Fault => 2 | Sim => 3 end.

Definition decode_mode (raw : Z) : OperatingMode :=
  match raw with 1 => Run | 2 => Fault | 3 => Sim | _ => Stop end.

Definition encode_request (r : ModeRequest) : Z :=
  match r with ReqStop => 1 | ReqRun => 2 | ReqSim => 3 | ReqFaultReset => 4 end.

Definition decode_request (raw : Z) : option ModeRequest :=
  match raw with
  | 1 => Some ReqStop | 2 => Some ReqRun | 3 => Some ReqSim | 4 => Some ReqFaultReset
  | _ => None
  end.

(** The transition table, arms in source order. *)
Definition apply_request (current : OperatingMode) (req : ModeRequest) : res ScanError OperatingMode :=
  match current, req with
  | Fault, ReqStop => Err (SInvalidState "STOP while FAULT (FAULT_RESET first)")
  | _, ReqStop => Ok Stop
  | (Stop | Sim), ReqRun => Ok Run
  | Run, ReqRun => Ok Run
  | Stop, ReqSim => Ok Sim
  | Sim, ReqSim => Ok Sim
  | Fault, ReqFaultReset => Ok Stop
  | Fault, ReqRun => Err (SInvalidState "RUN while FAULT (FAULT_RESET first)")
  | Fault, ReqSim => Err (SInvalidState "SIM while FAULT")
  | Run, ReqSim => Err (SInvalidState "SIM from RUN")
  | _, ReqFaultReset => Err (SInvalidState "FAULT_RESET while not FAULT")
  end.

(** The three atomics of [ModeCell]. *)
Record ModeCell := mkCell { mc_mode : Z; mc_pending : Z; mc_rejected : Z }.

Module Cell.
Definition new : ModeCell := mkCell (encode_mode Stop) REQ_NONE 0.

Definition mode (c : ModeCell) : OperatingMode := decode_mode (mc_mode c).

Definition set_mode (m : OperatingMode) (c : ModeCell) : ModeCell :=
  mkCell (encode_mode m) (mc_pending c) (mc_rejected c).

Definition request (r : ModeRequest) (c : ModeCell) : ModeCell :=
  mkCell (mc_mode c) (encode_request r) (mc_rejected c).

(** [fetch_add] wraps. *)
Definition count_rejected (c : ModeCell) : ModeCell :=
  mkCell (mc_mode c) (mc_pending c) (wrap_u 64 (mc_rejected c + 1)).

Definition take_pending (c : ModeCell) : ModeCell := mkCell (mc_mode c) REQ_NONE (mc_rejected c).

Definition reject_pending (c : ModeCell) : ModeCell :=
  match decode_request (mc_pending c) with
  | Some _ => count_rejected (take_pending c)
  | None => take_pending c
  end.

(** The mode after it, and whether forces are cleared. *)
Definition apply_pending (c : ModeCell) : ModeCell * res ScanError (OperatingMode * bool) :=
  let raw := mc_pending c in
  let c := take_pending c in
  match decode_request raw with
  | None => (c, Ok (mode c, false))
  | Some req =>
      match apply_request (mode c) req with
      | Ok next =>
          let clear_forces := bool_decide (req = ReqStop \/ req = ReqFaultReset) || bool_decide (next = Stop) in
          (set_mode next c, Ok (next, clear_forces || bool_decide (next = Fault)))
      | Err e => (count_rejected c, Err e)
      | Panic => (c, Panic)
      end
  end.
End Cell.

(** ** Encodings *)

Lemma decode_encode_mode m : decode_mode (encode_mode m) = m.
Proof. by destruct m. Qed.

Lemma decode_encode_request r : decode_request (encode_request r) = Some r.
Proof. by destruct r. Qed.

Lemma mode_set m c : Cell.mode (Cell.set_mode m c) = m.
Proof. apply decode_encode_mode. Qed.

(** ** Histories of the cell *)

(** What happens to the cell: an operator's request, the engine's boundary (in
    or out of a swap) and its fault path. *)
Inductive cell_event := EvRequest (r : ModeRequest) | EvBoundary (swapping : bool) | EvFault.

Definition cell_step (c : ModeCell) (e : cell_event) : ModeCell :=
  match e with
  | EvRequest r => Cell.request r c
  | EvBoundary true => Cell.reject_pending c
  | EvBoundary false => (Cell.apply_pending c).1
  | EvFault => Cell.set_mode Fault c
  end.

Definition cell_run (c : ModeCell) (es : list cell_event) : ModeCell := foldl cell_step c es.

(** Modes an operator's requests alone can reach in one boundary. *)
Inductive mode_edge : OperatingMode -> ModeRequest -> OperatingMode -> Prop :=
  | edge_stop m : m <> Fault -> mode_edge m ReqStop Stop
  | edge_run m : m <> Fault -> mode_edge m ReqRun Run
  | edge_sim m : m = Stop \/ m = Sim -> mode_edge m ReqSim Sim
  | edge_reset : mode_edge Fault ReqFaultReset Stop.

Lemma apply_request_edge m r m' : apply_request m r = Ok m' <-> mode_edge m r m'.
Proof.
  split.
  - destruct m, r; cbn; intros [= <-]; constructor; auto.
  - by destruct 1 as [[] ?|[] ?|[] [?|?]|].
Qed.

Lemma apply_request_total m r : apply_request m r <> Panic.
Proof. by destruct m, r. Qed.

Lemma boundary_mode c :
  Cell.mode (Cell.apply_pending c).1 =
  match decode_request (mc_pending c) with
  | Some r => match apply_request (Cell.mode c) r with Ok m => m | _ => Cell.mode c end
  | None => Cell.mode c
  end.
Proof.
  unfold Cell.apply_pending. destruct (decode_request _); [|done].
  change (Cell.mode (Cell.take_pending c)) with (Cell.mode c).
  destruct (apply_request (Cell.mode c) _); [apply mode_set|done..].
Qed.

Lemma reject_mode c : Cell.mode (Cell.reject_pending c) = Cell.mode c.
Proof. unfold Cell.reject_pending. by case_match. Qed.

Lemma pending_taken c e :
  mc_pending (cell_step c e) =
  match e with EvRequest r => encode_request r | EvBoundary _ => REQ_NONE | EvFault => mc_pending c end.
Proof.
  destruct e as [r|[]|]; cbn; try done.
  - unfold Cell.reject_pending. by case_match.
  - unfold Cell.apply_pending. by repeat case_match.
Qed.

(** No reset is requested or pending. *)
Definition no_reset (c : ModeCell) (es : list cell_event) : Prop :=
  decode_request (mc_pending c) <> Some ReqFaultReset /\ EvRequest ReqFaultReset ∉ es.

Lemma fault_kept c e :
  Cell.mode c = Fault -> no_reset c [e] ->
  Cell.mode (cell_step c e) = Fault /\ decode_request (mc_pending (cell_step c e)) <> Some ReqFaultReset.
Proof.
  intros Hm [Hp He]. rewrite pending_taken. destruct e as [r|[]|]; cbn [cell_step].
  - split; [done|]. rewrite decode_encode_request. intros [= ->]. apply He. left.
  - by rewrite reject_mode.
  - split; [|done]. rewrite boundary_mode, Hm. destruct (decode_request _) as [[]|]; done.
  - split; [apply mode_set|done].
Qed.

(** ** Properties *)

(** The transition table. A mode request succeeds exactly along these edges:
    STOP and RUN from every mode but FAULT, SIM from STOP (or SIM), FAULT_RESET
    from FAULT into STOP; every other request is an error, and nothing panics. *)
Lemma mode_table (m m' : OperatingMode) (r : ModeRequest) :
  (apply_request m r = Ok m' <-> mode_edge m r m') /\
  ((exists e, apply_request m r = Err e) <-> ~ exists m'', mode_edge m r m'').
Proof.
  split; [apply apply_request_edge|]. setoid_rewrite <-apply_request_edge.
  pose proof (apply_request_total m r). destruct (apply_request m r); naive_solver.
Qed.

(** C22: FAULT latches. Whatever requests, boundaries, swaps and faults follow, in
    any order, a cell in FAULT stays in FAULT until somebody requests
    FAULT_RESET. *)
Theorem fault_latched (c : ModeCell) (es : list cell_event)
    (Hfault : Cell.mode c = Fault) (Hno : no_reset c es) :
  Cell.mode (cell_run c es) = Fault.
Proof.
  revert c Hfault Hno. induction es as [|e es IH]; intros c Hm [Hp He]; cbn; [done|].
  apply not_elem_of_cons in He as [He1 He2].
  destruct (fault_kept c e Hm) as [Hm' Hp'].
  - split; [done|]. intros H; apply elem_of_cons in H as [H|H];
      [by apply He1|by apply not_elem_of_nil in H].
  - by apply IH.
Qed.

Lemma fault_latched_witness :
  Cell.mode (cell_run (Cell.set_mode Fault Cell.new) [EvRequest ReqRun; EvBoundary false; EvFault]) = Fault.
Proof.
  apply fault_latched; [reflexivity|]. split; [cbn; discriminate|]. set_solver.
Defined.
