(* ===== verification/ScanParts.v ===== *)
(** * The parts of the scan engine

    Crate [plc-scan], src/crates/plc-scan/src/watchdog.rs, hooks.rs,
    retain_signal.rs, spsc.rs, telemetry.rs, status.rs, convert.rs, clock.rs and
    epoch.rs: the software watchdog, the epoch hooks, the retain-dirty signal,
    the telemetry ring and its publication policy, the duration histogram, the
    value conversions and the hot-swap types. *)
From S2P Require Import Prelude Float32 IrTypes PlcTypes IoImage FbDispatch VmValue VmMemory VmExec.

(** ** watchdog.rs *)

Record SoftwareWatchdog := mkWd { wd_overrun_limit : Z; wd_consecutive : list Z }.

Module Wd.
Definition new (n_tasks : nat) (overrun_limit : Z) : SoftwareWatchdog :=
  mkWd (Z.max overrun_limit 1) (replicate n_tasks 0).

(** [u64::from(period_ms).saturating_mul(1000)]. *)
Definition budget_us (period_ms : Z) : Z := Z.min (period_ms * 1000) (2 ^ 64 - 1).

Definition note (task : nat) (duration_us period_ms : Z) (w : SoftwareWatchdog) : SoftwareWatchdog * bool :=
  let budget := budget_us period_ms in
  match wd_consecutive w !! task with
  | None => (w, false)
  | Some slot =>
      if budget <=? duration_us then
        let slot := sat_add_u 32 slot 1 in
        (mkWd (wd_overrun_limit w) (<[task := slot]> (wd_consecutive w)), wd_overrun_limit w <=? slot)
      else (mkWd (wd_overrun_limit w) (<[task := 0]> (wd_consecutive w)), false)
  end.

Definition consecutive (task : nat) (w : SoftwareWatchdog) : Z := default 0 (wd_consecutive w !! task).
End Wd.

(** ** hooks.rs *)

Definition encode_phase (p : ProgramPhase) : Z :=
  match p with Idle => 0 | Validating => 1 | Armed => 2 | Swapping => 3 end.

Definition decode_phase (raw : Z) : ProgramPhase :=
  match raw with 1 => Validating | 2 => Armed | 3 => Swapping | _ => Idle end.

Record EpochHooks := mkHooks {
  h_phase : Z;
  h_activate_requested : bool;
  h_first_scan : list bool;
  h_in_invocation : bool }.

Module Hooks.
Definition new (n_tasks : nat) : EpochHooks :=
  mkHooks (encode_phase Idle) false (replicate n_tasks false) false.

Definition phase (h : EpochHooks) : ProgramPhase := decode_phase (h_phase h).
Definition set_phase (p : ProgramPhase) (h : EpochHooks) : EpochHooks :=
  mkHooks (encode_phase p) (h_activate_requested h) (h_first_scan h) (h_in_invocation h).
Definition activate_requested (h : EpochHooks) : bool := h_activate_requested h.
Definition set_activate_requested (v : bool) (h : EpochHooks) : EpochHooks :=
  mkHooks (h_phase h) v (h_first_scan h) (h_in_invocation h).
Definition is_quiet (h : EpochHooks) : bool := negb (h_in_invocation h).
Definition set_in_invocation (v : bool) (h : EpochHooks) : EpochHooks :=
  mkHooks (h_phase h) (h_activate_requested h) (h_first_scan h) v.
Definition first_scan (task : nat) (h : EpochHooks) : bool := default false (h_first_scan h !! task).
Definition set_first_scan_all (v : bool) (h : EpochHooks) : EpochHooks :=
  mkHooks (h_phase h) (h_activate_requested h) (map (fun _ => v) (h_first_scan h)) (h_in_invocation h).
Definition clear_first_scan (task : nat) (h : EpochHooks) : EpochHooks :=
  mkHooks (h_phase h) (h_activate_requested h) (<[task := false]> (h_first_scan h)) (h_in_invocation h).
End Hooks.

(** ** retain_signal.rs *)

Record RetainDirtySignal := mkSignal { rs_dirty : bool; rs_seq : Z }.

Module Signal.
Definition new : RetainDirtySignal := mkSignal false 0.
Definition notify (s : RetainDirtySignal) : RetainDirtySignal := mkSignal true (wrap_u 64 (rs_seq s + 1)).

(** The watch side: the event carries the sequence number. *)
Definition take (s : RetainDirtySignal) : RetainDirtySignal * option Z :=
  (mkSignal false (rs_seq s), if rs_dirty s then Some (rs_seq s) else None).
End Signal.

(** ** spsc.rs *)

Record Ring (T : Type) := mkRing { rg_q : list T; rg_cap : nat; rg_drops : Z }.
Arguments mkRing {T}.
Arguments rg_q {T}.
Arguments rg_cap {T}.
Arguments rg_drops {T}.

Module Spsc.
Definition channel {T} (capacity : nat) : Ring T := mkRing [] (Nat.max capacity 1) 0.

Definition count_drop {T} (r : Ring T) : Ring T := mkRing (rg_q r) (rg_cap r) (wrap_u 64 (rg_drops r + 1)).

(** [contended]: [try_lock] finds the consumer holding the lock. *)
Definition push_drop_oldest {T} (contended : bool) (value : T) (r : Ring T) : Ring T :=
  if contended then count_drop r
  else
    let r := if (rg_cap r <=? length (rg_q r))%nat
             then count_drop (mkRing (tail (rg_q r)) (rg_cap r) (rg_drops r)) else r in
    mkRing (rg_q r ++ [value]) (rg_cap r) (rg_drops r).

Definition try_recv {T} (r : Ring T) : Ring T * option T :=
  match rg_q r with
  | [] => (r, None)
  | v :: q => (mkRing q (rg_cap r) (rg_drops r), Some v)
  end.
End Spsc.

(** ** telemetry.rs *)

Record TelemetrySample := mkSample {
  sm_alias : Z;
  sm_tag_hint : Z;
  sm_value : PlcValue;
  sm_quality : Quality;
  sm_forced : bool;
  sm_now_ms : Z;
  sm_is_input : bool }.

Record PublishTrack := mkTrack { pt_last_value : option PlcValue; pt_last_ms : Z; pt_ever : bool }.

Module Track.
Definition new : PublishTrack := mkTrack None 0 false.

Definition should_publish (value : PlcValue) (now_ms : Z) (is_bool : bool)
    (analog_period_ms digital_cos_ms : Z) (t : PublishTrack) : bool :=
  if negb (pt_ever t) then true
  else
    let changed := match pt_last_value t with Some v => negb (Plc.eqb v value) | None => true end in
    let elapsed := sat_sub_u now_ms (pt_last_ms t) in
    if is_bool then changed && (digital_cos_ms <=? elapsed)
    else changed || (analog_period_ms <=? elapsed).

Definition mark (value : PlcValue) (now_ms : Z) (t : PublishTrack) : PublishTrack :=
  mkTrack (Some value) now_ms true.
End Track.

(** ** status.rs *)

Definition DURATION_BUCKET_BOUNDS_US : list Z := [100; 500; 1000; 2000; 5000; 10000; 20000; 50000; 100000].
Definition DURATION_BUCKETS : nat := S (length DURATION_BUCKET_BOUNDS_US).

(** The [for] loop: [i] counts the bounds passed. *)
Fixpoint bucket_from (i : nat) (bounds : list Z) (us : Z) : nat :=
  match bounds with
  | [] => i
  | bound :: bounds => if us <=? bound then i else bucket_from (S i) bounds us
  end.

Definition duration_bucket (us : Z) : nat := bucket_from 0 DURATION_BUCKET_BOUNDS_US us.

(** ** convert.rs *)

Definition plc_to_vm (value : PlcValue) : VmValue :=
  match value with
  | PBool b => VBool b
  | PInt v => VInt v
  | PDint v => VDint v
  | PReal v => VReal v
  | PTime v => VTime v
  end.

Definition vm_to_plc (value : VmValue) : PlcValue :=
  match value with
  | VBool b => PBool b
  | VInt v => PInt v
  | VDint v => PDint v
  | VReal v => PReal v
  | VTime v => PTime v
  | VLint v => PDint (wrap_s 32 v)
  end.

(** ** clock.rs *)

(** [ScanClock::now_ms]. *)
Definition ms_of_ns (now_ns : Z) : Z := now_ns / 1000000.

(** The virtual clock, in nanoseconds. *)
Module VClock.
Definition new : Z := 0.
Definition set_ms (ms now_ns : Z) : Z := Z.min (ms * 1000000) (2 ^ 64 - 1).
Definition advance_ms (ms now_ns : Z) : Z := wrap_u 64 (now_ns + Z.min (ms * 1000000) (2 ^ 64 - 1)).
Definition advance_ns (ns now_ns : Z) : Z := wrap_u 64 (now_ns + ns).
End VClock.

(** ** epoch.rs *)

Inductive OutputRestartPolicy := SafeReset | Bumpless.

#[export] Instance OutputRestartPolicy_eq_dec : EqDecision OutputRestartPolicy.
Proof. solve_decision. Defined.

Record RetainCopy := mkCopy { cp_src_offset : Z; cp_dst_offset : Z; cp_len : Z }.

Record ArmedProgram := mkArmed {
  ap_vm : Vm;
  ap_program_id : bytes;
  ap_compatibility_hash : bytes;
  ap_task_entries : list bytes;
  ap_restart_policy : OutputRestartPolicy;
  ap_retain_copies : list RetainCopy }.

Definition with_vm (vm : Vm) (a : ArmedProgram) : ArmedProgram :=
  mkArmed vm (ap_program_id a) (ap_compatibility_hash a) (ap_task_entries a)
    (ap_restart_policy a) (ap_retain_copies a).

Inductive ActivateRequest := Pending | NoOp.

Inductive InstallOutcome := NotInstalled | Installed | Deferred | Faulted.

(** ** Lemmas *)

Lemma decode_encode_phase p : decode_phase (encode_phase p) = p.
Proof. by destruct p. Qed.

Lemma phase_set p h : Hooks.phase (Hooks.set_phase p h) = p.
Proof. apply decode_encode_phase. Qed.

Lemma vm_to_plc_to_vm v : vm_to_plc (plc_to_vm v) = v.
Proof. by destruct v. Qed.

Lemma bucket_from_bound i bounds us : (i <= bucket_from i bounds us <= i + length bounds)%nat.
Proof.
  revert i. induction bounds as [|b bounds IH]; intros i; cbn; [lia|].
  case_match; [lia|]. specialize (IH (S i)). lia.
Qed.

Lemma bucket_lt us : (duration_bucket us < DURATION_BUCKETS)%nat.
Proof.
  unfold duration_bucket, DURATION_BUCKETS.
  pose proof (bucket_from_bound 0 DURATION_BUCKET_BOUNDS_US us). lia.
Qed.

(** ** The watchdog against its window of invocations *)

(** One invocation as the watchdog sees it: task, duration in microseconds,
    period in milliseconds. *)
Record Invocation := mkInvocation { in_task : nat; in_duration_us : Z; in_period_ms : Z }.

Definition overran (x : Invocation) : bool := Wd.budget_us (in_period_ms x) <=? in_duration_us x.

Definition wd_note (x : Invocation) (w : SoftwareWatchdog) : SoftwareWatchdog * bool :=
  Wd.note (in_task x) (in_duration_us x) (in_period_ms x) w.

Definition wd_run (w : SoftwareWatchdog) (xs : list Invocation) : SoftwareWatchdog :=
  foldl (fun w x => (wd_note x w).1) w xs.

(** The invocations of one task, as overran or not, oldest first. *)
Definition overruns_of (task : nat) (xs : list Invocation) : list bool :=
  map overran (filter (fun x => in_task x = task) xs).

(** The reference: the last [k] entries exist and all overran. *)
Definition window_overran (k : nat) (h : list bool) : bool :=
  (k <=? length h)%nat && forallb id (drop (length h - k) h).

Definition streak (h : list bool) : nat := foldl (fun k b => if b : bool then S k else O) O h.

Lemma streak_snoc h b : streak (h ++ [b]) = if b then S (streak h) else O.
Proof. unfold streak. by rewrite foldl_app. Qed.

Lemma window_snoc k h b : window_overran (S k) (h ++ [b]) = b && window_overran k h.
Proof.
  unfold window_overran. rewrite length_app. cbn [length].
  replace (S k <=? length h + 1)%nat with (k <=? length h)%nat
    by (destruct (Nat.leb_spec k (length h)), (Nat.leb_spec (S k) (length h + 1)); lia).
  replace (length h + 1 - S k)%nat with (length h - k)%nat by lia.
  rewrite drop_app_le, forallb_app by lia. cbn. destruct b, (k <=? length h)%nat, (forallb id _); done.
Qed.

Lemma window_streak k h : window_overran k h = (k <=? streak h)%nat.
Proof.
  revert k. induction h as [|b h IH] using rev_ind; intros [|k]; cbn; try done.
  - unfold window_overran. by rewrite Nat.sub_0_r, drop_all.
  - rewrite window_snoc, streak_snoc, IH. by destruct b.
Qed.

Lemma overruns_snoc task xs x :
  overruns_of task (xs ++ [x]) =
  overruns_of task xs ++ (if decide (in_task x = task) then [overran x] else []).
Proof.
  unfold overruns_of. rewrite filter_app, map_app. f_equal.
  rewrite filter_cons, filter_nil. by destruct (decide (in_task x = task)).
Qed.

Lemma wd_note_limit x w : wd_overrun_limit (wd_note x w).1 = wd_overrun_limit w.
Proof. unfold wd_note, Wd.note. by repeat case_match. Qed.

Lemma wd_run_limit w xs : wd_overrun_limit (wd_run w xs) = wd_overrun_limit w.
Proof.
  revert w. induction xs as [|x xs IH]; intros w; [done|]. cbn. rewrite IH. apply wd_note_limit.
Qed.

Lemma wd_note_length x w : length (wd_consecutive (wd_note x w).1) = length (wd_consecutive w).
Proof. unfold wd_note, Wd.note. repeat case_match; cbn; rewrite ?length_insert; done. Qed.

Lemma wd_note_other x w task :
  in_task x <> task -> wd_consecutive (wd_note x w).1 !! task = wd_consecutive w !! task.
Proof. intros. unfold wd_note, Wd.note. repeat case_match; cbn; rewrite ?list_lookup_insert_ne; done. Qed.

Lemma wd_note_own x w c :
  wd_consecutive w !! in_task x = Some c ->
  wd_note x w =
  (mkWd (wd_overrun_limit w)
     (<[in_task x := if overran x then sat_add_u 32 c 1 else 0]> (wd_consecutive w)),
   overran x && (wd_overrun_limit w <=? sat_add_u 32 c 1)).
Proof. intros Hc. unfold wd_note, Wd.note, overran. rewrite Hc. by case_match. Qed.

(** The counter is the streak of overruns, saturated. *)
Lemma wd_counts n limit xs task :
  (task < n)%nat ->
  wd_consecutive (wd_run (Wd.new n limit) xs) !! task =
  Some (Z.min (Z.of_nat (streak (overruns_of task xs))) (2 ^ 32 - 1)).
Proof.
  intros Ht. induction xs as [|x xs IH] using rev_ind.
  - cbn. by rewrite lookup_replicate_2.
  - unfold wd_run in *. rewrite foldl_app, overruns_snoc. cbn [foldl].
    case_decide as Hx; [|by rewrite app_nil_r, wd_note_other].
    subst task. rewrite (wd_note_own _ _ _ IH). cbn [fst wd_consecutive].
    rewrite list_lookup_insert_eq by (by eapply lookup_lt_Some). f_equal.
    rewrite streak_snoc. unfold sat_add_u. destruct (overran x); [|done]. lia.
Qed.

(** ** The ring against the stream it carries *)

(** The two ends of the channel, in the order the lock serialises them. *)
Inductive ring_event (T : Type) := RPush (contended : bool) (v : T) | RRecv.
Arguments RPush {T}.
Arguments RRecv {T}.

(** The ring, with what was offered to it and what was taken out. *)
Record RingRun (T : Type) := mkRun { rr_ring : Ring T; rr_pushed : list T; rr_received : list T }.
Arguments mkRun {T}.
Arguments rr_ring {T}.
Arguments rr_pushed {T}.
Arguments rr_received {T}.

Definition ring_step {T} (s : RingRun T) (e : ring_event T) : RingRun T :=
  match e with
  | RPush contended v =>
      mkRun (Spsc.push_drop_oldest contended v (rr_ring s)) (rr_pushed s ++ [v]) (rr_received s)
  | RRecv =>
      let '(r, o) := Spsc.try_recv (rr_ring s) in
      mkRun r (rr_pushed s) (rr_received s ++ option_list o)
  end.

Definition ring_run {T} (capacity : nat) (es : list (ring_event T)) : RingRun T :=
  foldl ring_step (mkRun (Spsc.channel capacity) [] []) es.

Record ring_inv {T} (cap : nat) (s : RingRun T) : Prop := {
  ri_cap : rg_cap (rr_ring s) = Nat.max cap 1;
  ri_bounded : (length (rg_q (rr_ring s)) <= Nat.max cap 1)%nat;
  ri_order : sublist (rr_received s ++ rg_q (rr_ring s)) (rr_pushed s);
  ri_drops : rg_drops (rr_ring s) =
    wrap_u 64 (len (rr_pushed s) - len (rr_received s) - len (rg_q (rr_ring s))) }.

Lemma sublist_tail {T} (l q p : list T) : sublist (l ++ q) p -> sublist (l ++ tail q) p.
Proof.
  intros H. etrans; [|done]. apply sublist_app; [done|]. destruct q; [done|]. by apply sublist_cons.
Qed.

Lemma wrap_u_succ w x : 0 <= w -> wrap_u w (wrap_u w x + 1) = wrap_u w (x + 1).
Proof. intros. unfold wrap_u. by rewrite Zplus_mod_idemp_l. Qed.

Lemma push_inv {T} cap (s : RingRun T) contended v :
  ring_inv cap s -> ring_inv cap (ring_step s (RPush contended v)).
Proof.
  intros [Hc Hb Ho Hd]. cbn [ring_step]. unfold Spsc.push_drop_oldest.
  destruct contended; [|rewrite Hc; destruct (Nat.leb_spec (Nat.max cap 1) (length (rg_q (rr_ring s))))];
    split; cbn [rr_ring rr_pushed rr_received rg_q rg_cap rg_drops Spsc.count_drop]; try done.
  - by apply sublist_inserts_r.
  - rewrite Hd, wrap_u_succ by done. rewrite len_app. f_equal. unfold len. cbn. lia.
  - rewrite length_app. destruct (rg_q (rr_ring s)); cbn in *; lia.
  - rewrite app_assoc. apply sublist_app; [by apply sublist_tail|done].
  - rewrite Hd, wrap_u_succ by done. rewrite !len_app. f_equal.
    destruct (rg_q (rr_ring s)); unfold len in *; cbn in *; lia.
  - rewrite length_app. cbn. lia.
  - rewrite app_assoc. by apply sublist_app.
  - rewrite Hd, !len_app. f_equal. unfold len. cbn. lia.
Qed.

Lemma recv_inv {T} cap (s : RingRun T) : ring_inv cap s -> ring_inv cap (ring_step s RRecv).
Proof.
  intros [Hc Hb Ho Hd]. cbn [ring_step]. unfold Spsc.try_recv.
  destruct (rg_q (rr_ring s)) as [|v q] eqn:Hq; cbn [option_list];
    [split; cbn [rr_ring rr_pushed rr_received]; rewrite ?app_nil_r, ?Hq; done|].
  split; cbn [rr_ring rr_pushed rr_received rg_q rg_cap rg_drops]; [done|cbn in Hb; lia| |].
  - by rewrite <-app_assoc.
  - rewrite Hd, len_app. f_equal. unfold len. cbn. lia.
Qed.

Lemma ring_run_inv {T} cap (es : list (ring_event T)) : ring_inv cap (ring_run cap es).
Proof.
  induction es as [|[c v|] es IH] using rev_ind.
  - split; cbn; try done. lia.
  - unfold ring_run in *. rewrite foldl_app. by apply push_inv.
  - unfold ring_run in *. rewrite foldl_app. by apply recv_inv.
Qed.

(** ** Properties *)

(** C21: the overrun watchdog is equivalent to its windowed reading: noting an
    invocation trips exactly when it is the last of [overrun_limit] (at least
    one) consecutive invocations of its own task that all overran their period,
    whatever the other tasks did in between. *)
Theorem watchdog_window (n : nat) (limit : Z) (xs : list Invocation) (x : Invocation)
    (Hlimit : u_range 32 limit) (Htask : (in_task x < n)%nat) :
  (wd_note x (wd_run (Wd.new n limit) xs)).2 =
  window_overran (Z.to_nat (Z.max limit 1)) (overruns_of (in_task x) (xs ++ [x])).
Proof.
  rewrite (wd_note_own _ _ _ (wd_counts n limit xs _ Htask)), wd_run_limit. cbn [snd Wd.new wd_overrun_limit].
  rewrite overruns_snoc, decide_True, window_streak, streak_snoc by done. unfold u_range in Hlimit.
  destruct (overran x); cbn [andb]; apply eq_bool_prop_intro;
    rewrite !Is_true_true, ?Z.leb_le, ?Nat.leb_le; unfold sat_add_u; lia.
Qed.

Lemma watchdog_window_witness :
  (wd_note (mkInvocation 0 50000 50) (wd_run (Wd.new 2 2) [mkInvocation 0 60000 50; mkInvocation 1 0 50])).2 =
  window_overran 2 [true; true].
Proof. apply (watchdog_window 2 2); [unfold u_range; lia|cbn; lia]. Defined.

(** C23: the telemetry ring refines a lossy queue: whatever the interleaving of
    contended and uncontended pushes with receives, at most the capacity is
    queued, what was received and then what is queued is a subsequence of what
    was pushed, in order, and the drop counter is exactly the number of values
    that are in neither (modulo 2^64). An uncontended push always queues its
    value last. *)
Theorem ring_lossy_queue (T : Type) (capacity : nat) (es : list (ring_event T)) :
  let s := ring_run capacity es in
  (length (rg_q (rr_ring s)) <= Nat.max capacity 1)%nat /\
  sublist (rr_received s ++ rg_q (rr_ring s)) (rr_pushed s) /\
  rg_drops (rr_ring s) = wrap_u 64 (len (rr_pushed s) - len (rr_received s) - len (rg_q (rr_ring s))) /\
  (forall v, last (rg_q (Spsc.push_drop_oldest false v (rr_ring s))) = Some v).
Proof.
  intros s. destruct (ring_run_inv capacity es) as [_ Hb Ho Hd].
  repeat split; [done..|]. intros v. unfold Spsc.push_drop_oldest. cbn [rg_q]. apply last_snoc.
Qed.
