(* ===== verification/ScanState.v ===== *)
(** * The state of the scan engine

    Crate [plc-scan], src/crates/plc-scan/src/engine.rs: the task table, the scan
    plan and its validation, the I/O bundle, the engine's fields and their
    updates. The clock, the telemetry consumer and the remote inputs act
    concurrently with the engine: [ScanEnv] says what the engine sees of them. *)
From S2P Require Import Prelude Float32 Config IrTypes PlcTypes IoImage FbDispatch VmValue VmMemory VmExec.
From S2P Require Import ScanMode ScanParts.

(** ** Plans *)

Record TaskPlan := mkTaskPlan {
  tp_name : bytes;
  tp_period_ms : Z;
  tp_entry : bytes;
  tp_priority : Z }.

Definition DEFAULT_TELEMETRY_CAPACITY : nat := 1024.

Record ScanPlan := mkScanPlan {
  sp_tasks : list TaskPlan;
  sp_overrun_limit : Z;
  sp_stop_output_policy : StopOutputPolicy;
  sp_fault_on_module_bad : bool;
  sp_telemetry_enabled : bool;
  sp_analog_period_ms : Z;
  sp_digital_cos_ms : Z;
  sp_telemetry_capacity : nat }.

Definition set_sp_tasks (x : list TaskPlan) (p : ScanPlan) : ScanPlan :=
  mkScanPlan x (sp_overrun_limit p) (sp_stop_output_policy p) (sp_fault_on_module_bad p)
    (sp_telemetry_enabled p) (sp_analog_period_ms p) (sp_digital_cos_ms p) (sp_telemetry_capacity p).

(** The loop of [validate_tasks]; [names] is the set of names seen. *)
Fixpoint validate_from (names : gset bytes) (tasks : list TaskPlan) : res ScanError unit :=
  match tasks with
  | [] => Ok tt
  | t :: tasks =>
      if is_blank (tp_name t) then Err (SConfig "task.name must be non-empty")
      else if bool_decide (tp_name t ∈ names) then Err (SConfig "duplicate task.name")
      else if tp_period_ms t =? 0 then Err (SConfig "period_ms must be > 0")
      else if is_blank (tp_entry t) then Err (SConfig "entry must be non-empty")
      else validate_from ({[tp_name t]} ∪ names) tasks
  end.

Definition validate_tasks (tasks : list TaskPlan) : res ScanError unit :=
  match tasks with
  | [] => Err (SConfig "scan.tasks must not be empty")
  | _ => validate_from ∅ tasks
  end.

Definition plan_new (tasks : list TaskPlan) : res ScanError ScanPlan :=
  validate_tasks tasks ;;
  Ok (mkScanPlan tasks 2 PolicySafe false true 500 20 DEFAULT_TELEMETRY_CAPACITY).

Definition plan_task_of (t : TaskConfig) : TaskPlan :=
  mkTaskPlan (tc_name t) (tc_period_ms t) (tc_entry t) (tc_priority t).

Definition plan_from_config (cfg : DeviceConfig) : res ScanError ScanPlan :=
  let tasks := map plan_task_of (sc_tasks (dc_scan cfg)) in
  validate_tasks tasks ;;
  Ok (mkScanPlan tasks (sc_overrun_limit (dc_scan cfg)) (dc_stop_output_policy cfg)
        (io_fault_on_module_bad (dc_io cfg)) (te_enabled (dc_telemetry cfg))
        (te_analog_period_ms (dc_telemetry cfg)) (te_digital_cos_ms (dc_telemetry cfg))
        DEFAULT_TELEMETRY_CAPACITY).

(** ** What runs beside the engine *)

(** [now_ns_at n] is the [n]-th reading of the clock; [contended_at n] says
    whether the telemetry consumer holds the lock at the [n]-th push and
    [received_at n] how many samples it took since the previous one;
    [remote_at n] is the snapshot the double buffer yields when [n] readings of
    the clock have been made. *)
Class ScanEnv := {
  now_ns_at : nat -> Z;
  contended_at : nat -> bool;
  received_at : nat -> nat;
  remote_at : nat -> list PlcValue * list Quality }.

(** ** State *)

Record TaskRuntime := mkRt {
  rt_next_due_ms : Z;
  rt_last_us : Z;
  rt_max_us : Z;
  rt_sum_us : Z;
  rt_samples : Z;
  rt_duration_buckets : list Z;
  rt_overruns : Z }.

Record ScanIo (D : Type) := mkIo {
  io_image : ProcessImage;
  io_driver : D;
  io_remote_inputs : bool;
  io_forces : ForceTable;
  io_module_quality : Quality;
  io_on_bad_quality : BadQualityPolicy;
  io_field_gate : option Z }.

Inductive StepOutcome := StepIdle (next_due_ms : Z) | StepRan (task : nat) (duration_us : Z).

(** [en_clock] counts the readings of the clock, [en_hw_wd] the strokes of the
    hardware watchdog, [en_tel_pushes] the telemetry pushes; [en_tel] is the
    telemetry channel. *)
Record ScanEngine (D : Type) := mkEngine {
  en_plan : ScanPlan;
  en_io : ScanIo D;
  en_vm : option Vm;
  en_clock : nat;
  en_modes : ModeCell;
  en_overruns_total : Z;
  en_sw_wd : SoftwareWatchdog;
  en_hw_wd : Z;
  en_tel : Ring TelemetrySample;
  en_tel_pushes : nat;
  en_tel_in : list PublishTrack;
  en_tel_out : list PublishTrack;
  en_retain : RetainDirtySignal;
  en_hooks : EpochHooks;
  en_tasks : list TaskRuntime;
  en_schedule_order : list nat;
  en_input_scratch : InputUpdate;
  en_output_image : OutputImage;
  en_output_slot_state : list OutputModuleState;
  en_first_run_complete : bool;
  en_min_duration_us : list Z;
  en_last_ran : option nat;
  en_armed : option ArmedProgram;
  en_current_id : option bytes;
  en_current_hash : option bytes;
  en_bumpless_hold : bool;
  en_install_min_duration_us : Z;
  en_activate_deferred_count : Z;
  en_last_activate_deferred : bool }.
Arguments mkEngine {D}. Arguments en_plan {D}. Arguments en_io {D}. Arguments en_vm {D}.
Arguments en_clock {D}. Arguments en_modes {D}. Arguments en_overruns_total {D}.
Arguments en_sw_wd {D}. Arguments en_hw_wd {D}. Arguments en_tel {D}. Arguments en_tel_pushes {D}.
Arguments en_tel_in {D}. Arguments en_tel_out {D}. Arguments en_retain {D}.
Arguments en_hooks {D}. Arguments en_tasks {D}. Arguments en_schedule_order {D}.
Arguments en_input_scratch {D}. Arguments en_output_image {D}. Arguments en_output_slot_state {D}.
Arguments en_first_run_complete {D}. Arguments en_min_duration_us {D}. Arguments en_last_ran {D}.
Arguments en_armed {D}. Arguments en_current_id {D}. Arguments en_current_hash {D}.
Arguments en_bumpless_hold {D}. Arguments en_install_min_duration_us {D}.
Arguments en_activate_deferred_count {D}. Arguments en_last_activate_deferred {D}.
Arguments mkIo {D}. Arguments io_image {D}. Arguments io_driver {D}.
Arguments io_remote_inputs {D}. Arguments io_forces {D}. Arguments io_module_quality {D}.
Arguments io_on_bad_quality {D}. Arguments io_field_gate {D}.

(** ** Field updates *)

Definition set_rt_next_due_ms (x : Z) (t : TaskRuntime) : TaskRuntime :=
  mkRt
    x (rt_last_us t) (rt_max_us t) (rt_sum_us t) (rt_samples t) (rt_duration_buckets t)
    (rt_overruns t).
Definition set_rt_overruns (x : Z) (t : TaskRuntime) : TaskRuntime :=
  mkRt
    (rt_next_due_ms t) (rt_last_us t) (rt_max_us t) (rt_sum_us t) (rt_samples t)
    (rt_duration_buckets t) x.
Definition set_io_image {D} (x : ProcessImage) (io : ScanIo D) : ScanIo D :=
  mkIo
    x (io_driver io) (io_remote_inputs io) (io_forces io) (io_module_quality io)
    (io_on_bad_quality io) (io_field_gate io).
Definition set_io_driver {D} (x : D) (io : ScanIo D) : ScanIo D :=
  mkIo
    (io_image io) x (io_remote_inputs io) (io_forces io) (io_module_quality io)
    (io_on_bad_quality io) (io_field_gate io).
Definition set_io_forces {D} (x : ForceTable) (io : ScanIo D) : ScanIo D :=
  mkIo
    (io_image io) (io_driver io) (io_remote_inputs io) x (io_module_quality io)
    (io_on_bad_quality io) (io_field_gate io).
Definition set_io_module_quality {D} (x : Quality) (io : ScanIo D) : ScanIo D :=
  mkIo
    (io_image io) (io_driver io) (io_remote_inputs io) (io_forces io) x (io_on_bad_quality io)
    (io_field_gate io).
Definition set_io_field_gate {D} (x : option Z) (io : ScanIo D) : ScanIo D :=
  mkIo
    (io_image io) (io_driver io) (io_remote_inputs io) (io_forces io) (io_module_quality io)
    (io_on_bad_quality io) x.
Definition set_en_plan {D} (x : ScanPlan) (e : ScanEngine D) : ScanEngine D :=
  mkEngine
    x (en_io e) (en_vm e) (en_clock e) (en_modes e) (en_overruns_total e) (en_sw_wd e)
    (en_hw_wd e) (en_tel e) (en_tel_pushes e) (en_tel_in e) (en_tel_out e) (en_retain e)
    (en_hooks e) (en_tasks e) (en_schedule_order e) (en_input_scratch e) (en_output_image e)
    (en_output_slot_state e) (en_first_run_complete e) (en_min_duration_us e) (en_last_ran e)
    (en_armed e) (en_current_id e) (en_current_hash e) (en_bumpless_hold e)
    (en_install_min_duration_us e) (en_activate_deferred_count e) (en_last_activate_deferred e).
Definition set_en_io {D} (x : ScanIo D) (e : ScanEngine D) : ScanEngine D :=
  mkEngine
    (en_plan e) x (en_vm e) (en_clock e) (en_modes e) (en_overruns_total e) (en_sw_wd e)
    (en_hw_wd e) (en_tel e) (en_tel_pushes e) (en_tel_in e) (en_tel_out e) (en_retain e)
    (en_hooks e) (en_tasks e) (en_schedule_order e) (en_input_scratch e) (en_output_image e)
    (en_output_slot_state e) (en_first_run_complete e) (en_min_duration_us e) (en_last_ran e)
    (en_armed e) (en_current_id e) (en_current_hash e) (en_bumpless_hold e)
    (en_install_min_duration_us e) (en_activate_deferred_count e) (en_last_activate_deferred e).
Definition set_en_vm {D} (x : option Vm) (e : ScanEngine D) : ScanEngine D :=
  mkEngine
    (en_plan e) (en_io e) x (en_clock e) (en_modes e) (en_overruns_total e) (en_sw_wd e)
    (en_hw_wd e) (en_tel e) (en_tel_pushes e) (en_tel_in e) (en_tel_out e) (en_retain e)
    (en_hooks e) (en_tasks e) (en_schedule_order e) (en_input_scratch e) (en_output_image e)
    (en_output_slot_state e) (en_first_run_complete e) (en_min_duration_us e) (en_last_ran e)
    (en_armed e) (en_current_id e) (en_current_hash e) (en_bumpless_hold e)
    (en_install_min_duration_us e) (en_activate_deferred_count e) (en_last_activate_deferred e).
Definition set_en_clock {D} (x : nat) (e : ScanEngine D) : ScanEngine D :=
  mkEngine
    (en_plan e) (en_io e) (en_vm e) x (en_modes e) (en_overruns_total e) (en_sw_wd e) (en_hw_wd e)
    (en_tel e) (en_tel_pushes e) (en_tel_in e) (en_tel_out e) (en_retain e) (en_hooks e)
    (en_tasks e) (en_schedule_order e) (en_input_scratch e) (en_output_image e)
    (en_output_slot_state e) (en_first_run_complete e) (en_min_duration_us e) (en_last_ran e)
    (en_armed e) (en_current_id e) (en_current_hash e) (en_bumpless_hold e)
    (en_install_min_duration_us e) (en_activate_deferred_count e) (en_last_activate_deferred e).
Definition set_en_modes {D} (x : ModeCell) (e : ScanEngine D) : ScanEngine D :=
  mkEngine
    (en_plan e) (en_io e) (en_vm e) (en_clock e) x (en_overruns_total e) (en_sw_wd e) (en_hw_wd e)
    (en_tel e) (en_tel_pushes e) (en_tel_in e) (en_tel_out e) (en_retain e) (en_hooks e)
    (en_tasks e) (en_schedule_order e) (en_input_scratch e) (en_output_image e)
    (en_output_slot_state e) (en_first_run_complete e) (en_min_duration_us e) (en_last_ran e)
    (en_armed e) (en_current_id e) (en_current_hash e) (en_bumpless_hold e)
    (en_install_min_duration_us e) (en_activate_deferred_count e) (en_last_activate_deferred e).
Definition set_en_overruns_total {D} (x : Z) (e : ScanEngine D) : ScanEngine D :=
  mkEngine
    (en_plan e) (en_io e) (en_vm e) (en_clock e) (en_modes e) x (en_sw_wd e) (en_hw_wd e)
    (en_tel e) (en_tel_pushes e) (en_tel_in e) (en_tel_out e) (en_retain e) (en_hooks e)
    (en_tasks e) (en_schedule_order e) (en_input_scratch e) (en_output_image e)
    (en_output_slot_state e) (en_first_run_complete e) (en_min_duration_us e) (en_last_ran e)
    (en_armed e) (en_current_id e) (en_current_hash e) (en_bumpless_hold e)
    (en_install_min_duration_us e) (en_activate_deferred_count e) (en_last_activate_deferred e).
Definition set_en_sw_wd {D} (x : SoftwareWatchdog) (e : ScanEngine D) : ScanEngine D :=
  mkEngine
    (en_plan e) (en_io e) (en_vm e) (en_clock e) (en_modes e) (en_overruns_total e) x (en_hw_wd e)
    (en_tel e) (en_tel_pushes e) (en_tel_in e) (en_tel_out e) (en_retain e) (en_hooks e)
    (en_tasks e) (en_schedule_order e) (en_input_scratch e) (en_output_image e)
    (en_output_slot_state e) (en_first_run_complete e) (en_min_duration_us e) (en_last_ran e)
    (en_armed e) (en_current_id e) (en_current_hash e) (en_bumpless_hold e)
    (en_install_min_duration_us e) (en_activate_deferred_count e) (en_last_activate_deferred e).
Definition set_en_hw_wd {D} (x : Z) (e : ScanEngine D) : ScanEngine D :=
  mkEngine
    (en_plan e) (en_io e) (en_vm e) (en_clock e) (en_modes e) (en_overruns_total e) (en_sw_wd e) x
    (en_tel e) (en_tel_pushes e) (en_tel_in e) (en_tel_out e) (en_retain e) (en_hooks e)
    (en_tasks e) (en_schedule_order e) (en_input_scratch e) (en_output_image e)
    (en_output_slot_state e) (en_first_run_complete e) (en_min_duration_us e) (en_last_ran e)
    (en_armed e) (en_current_id e) (en_current_hash e) (en_bumpless_hold e)
    (en_install_min_duration_us e) (en_activate_deferred_count e) (en_last_activate_deferred e).
Definition set_en_tel {D} (x : Ring TelemetrySample) (e : ScanEngine D) : ScanEngine D :=
  mkEngine
    (en_plan e) (en_io e) (en_vm e) (en_clock e) (en_modes e) (en_overruns_total e) (en_sw_wd e)
    (en_hw_wd e) x (en_tel_pushes e) (en_tel_in e) (en_tel_out e) (en_retain e) (en_hooks e)
    (en_tasks e) (en_schedule_order e) (en_input_scratch e) (en_output_image e)
    (en_output_slot_state e) (en_first_run_complete e) (en_min_duration_us e) (en_last_ran e)
    (en_armed e) (en_current_id e) (en_current_hash e) (en_bumpless_hold e)
    (en_install_min_duration_us e) (en_activate_deferred_count e) (en_last_activate_deferred e).
Definition set_en_tel_pushes {D} (x : nat) (e : ScanEngine D) : ScanEngine D :=
  mkEngine
    (en_plan e) (en_io e) (en_vm e) (en_clock e) (en_modes e) (en_overruns_total e) (en_sw_wd e)
    (en_hw_wd e) (en_tel e) x (en_tel_in e) (en_tel_out e) (en_retain e) (en_hooks e) (en_tasks e)
    (en_schedule_order e) (en_input_scratch e) (en_output_image e) (en_output_slot_state e)
    (en_first_run_complete e) (en_min_duration_us e) (en_last_ran e) (en_armed e)
    (en_current_id e) (en_current_hash e) (en_bumpless_hold e) (en_install_min_duration_us e)
    (en_activate_deferred_count e) (en_last_activate_deferred e).
Definition set_en_tel_in {D} (x : list PublishTrack) (e : ScanEngine D) : ScanEngine D :=
  mkEngine
    (en_plan e) (en_io e) (en_vm e) (en_clock e) (en_modes e) (en_overruns_total e) (en_sw_wd e)
    (en_hw_wd e) (en_tel e) (en_tel_pushes e) x (en_tel_out e) (en_retain e) (en_hooks e)
    (en_tasks e) (en_schedule_order e) (en_input_scratch e) (en_output_image e)
    (en_output_slot_state e) (en_first_run_complete e) (en_min_duration_us e) (en_last_ran e)
    (en_armed e) (en_current_id e) (en_current_hash e) (en_bumpless_hold e)
    (en_install_min_duration_us e) (en_activate_deferred_count e) (en_last_activate_deferred e).
Definition set_en_tel_out {D} (x : list PublishTrack) (e : ScanEngine D) : ScanEngine D :=
  mkEngine
    (en_plan e) (en_io e) (en_vm e) (en_clock e) (en_modes e) (en_overruns_total e) (en_sw_wd e)
    (en_hw_wd e) (en_tel e) (en_tel_pushes e) (en_tel_in e) x (en_retain e) (en_hooks e)
    (en_tasks e) (en_schedule_order e) (en_input_scratch e) (en_output_image e)
    (en_output_slot_state e) (en_first_run_complete e) (en_min_duration_us e) (en_last_ran e)
    (en_armed e) (en_current_id e) (en_current_hash e) (en_bumpless_hold e)
    (en_install_min_duration_us e) (en_activate_deferred_count e) (en_last_activate_deferred e).
Definition set_en_retain {D} (x : RetainDirtySignal) (e : ScanEngine D) : ScanEngine D :=
  mkEngine
    (en_plan e) (en_io e) (en_vm e) (en_clock e) (en_modes e) (en_overruns_total e) (en_sw_wd e)
    (en_hw_wd e) (en_tel e) (en_tel_pushes e) (en_tel_in e) (en_tel_out e) x (en_hooks e)
    (en_tasks e) (en_schedule_order e) (en_input_scratch e) (en_output_image e)
    (en_output_slot_state e) (en_first_run_complete e) (en_min_duration_us e) (en_last_ran e)
    (en_armed e) (en_current_id e) (en_current_hash e) (en_bumpless_hold e)
    (en_install_min_duration_us e) (en_activate_deferred_count e) (en_last_activate_deferred e).
Definition set_en_hooks {D} (x : EpochHooks) (e : ScanEngine D) : ScanEngine D :=
  mkEngine
    (en_plan e) (en_io e) (en_vm e) (en_clock e) (en_modes e) (en_overruns_total e) (en_sw_wd e)
    (en_hw_wd e) (en_tel e) (en_tel_pushes e) (en_tel_in e) (en_tel_out e) (en_retain e) x
    (en_tasks e) (en_schedule_order e) (en_input_scratch e) (en_output_image e)
    (en_output_slot_state e) (en_first_run_complete e) (en_min_duration_us e) (en_last_ran e)
    (en_armed e) (en_current_id e) (en_current_hash e) (en_bumpless_hold e)
    (en_install_min_duration_us e) (en_activate_deferred_count e) (en_last_activate_deferred e).
Definition set_en_tasks {D} (x : list TaskRuntime) (e : ScanEngine D) : ScanEngine D :=
  mkEngine
    (en_plan e) (en_io e) (en_vm e) (en_clock e) (en_modes e) (en_overruns_total e) (en_sw_wd e)
    (en_hw_wd e) (en_tel e) (en_tel_pushes e) (en_tel_in e) (en_tel_out e) (en_retain e)
    (en_hooks e) x (en_schedule_order e) (en_input_scratch e) (en_output_image e)
    (en_output_slot_state e) (en_first_run_complete e) (en_min_duration_us e) (en_last_ran e)
    (en_armed e) (en_current_id e) (en_current_hash e) (en_bumpless_hold e)
    (en_install_min_duration_us e) (en_activate_deferred_count e) (en_last_activate_deferred e).
Definition set_en_input_scratch {D} (x : InputUpdate) (e : ScanEngine D) : ScanEngine D :=
  mkEngine
    (en_plan e) (en_io e) (en_vm e) (en_clock e) (en_modes e) (en_overruns_total e) (en_sw_wd e)
    (en_hw_wd e) (en_tel e) (en_tel_pushes e) (en_tel_in e) (en_tel_out e) (en_retain e)
    (en_hooks e) (en_tasks e) (en_schedule_order e) x (en_output_image e) (en_output_slot_state e)
    (en_first_run_complete e) (en_min_duration_us e) (en_last_ran e) (en_armed e)
    (en_current_id e) (en_current_hash e) (en_bumpless_hold e) (en_install_min_duration_us e)
    (en_activate_deferred_count e) (en_last_activate_deferred e).
Definition set_en_output_image {D} (x : OutputImage) (e : ScanEngine D) : ScanEngine D :=
  mkEngine
    (en_plan e) (en_io e) (en_vm e) (en_clock e) (en_modes e) (en_overruns_total e) (en_sw_wd e)
    (en_hw_wd e) (en_tel e) (en_tel_pushes e) (en_tel_in e) (en_tel_out e) (en_retain e)
    (en_hooks e) (en_tasks e) (en_schedule_order e) (en_input_scratch e) x
    (en_output_slot_state e) (en_first_run_complete e) (en_min_duration_us e) (en_last_ran e)
    (en_armed e) (en_current_id e) (en_current_hash e) (en_bumpless_hold e)
    (en_install_min_duration_us e) (en_activate_deferred_count e) (en_last_activate_deferred e).
Definition set_en_output_slot_state {D} (x : list OutputModuleState) (e : ScanEngine D) : ScanEngine D :=
  mkEngine
    (en_plan e) (en_io e) (en_vm e) (en_clock e) (en_modes e) (en_overruns_total e) (en_sw_wd e)
    (en_hw_wd e) (en_tel e) (en_tel_pushes e) (en_tel_in e) (en_tel_out e) (en_retain e)
    (en_hooks e) (en_tasks e) (en_schedule_order e) (en_input_scratch e) (en_output_image e) x
    (en_first_run_complete e) (en_min_duration_us e) (en_last_ran e) (en_armed e)
    (en_current_id e) (en_current_hash e) (en_bumpless_hold e) (en_install_min_duration_us e)
    (en_activate_deferred_count e) (en_last_activate_deferred e).
Definition set_en_first_run_complete {D} (x : bool) (e : ScanEngine D) : ScanEngine D :=
  mkEngine
    (en_plan e) (en_io e) (en_vm e) (en_clock e) (en_modes e) (en_overruns_total e) (en_sw_wd e)
    (en_hw_wd e) (en_tel e) (en_tel_pushes e) (en_tel_in e) (en_tel_out e) (en_retain e)
    (en_hooks e) (en_tasks e) (en_schedule_order e) (en_input_scratch e) (en_output_image e)
    (en_output_slot_state e) x (en_min_duration_us e) (en_last_ran e) (en_armed e)
    (en_current_id e) (en_current_hash e) (en_bumpless_hold e) (en_install_min_duration_us e)
    (en_activate_deferred_count e) (en_last_activate_deferred e).
Definition set_en_min_duration_us {D} (x : list Z) (e : ScanEngine D) : ScanEngine D :=
  mkEngine
    (en_plan e) (en_io e) (en_vm e) (en_clock e) (en_modes e) (en_overruns_total e) (en_sw_wd e)
    (en_hw_wd e) (en_tel e) (en_tel_pushes e) (en_tel_in e) (en_tel_out e) (en_retain e)
    (en_hooks e) (en_tasks e) (en_schedule_order e) (en_input_scratch e) (en_output_image e)
    (en_output_slot_state e) (en_first_run_complete e) x (en_last_ran e) (en_armed e)
    (en_current_id e) (en_current_hash e) (en_bumpless_hold e) (en_install_min_duration_us e)
    (en_activate_deferred_count e) (en_last_activate_deferred e).
Definition set_en_last_ran {D} (x : option nat) (e : ScanEngine D) : ScanEngine D :=
  mkEngine
    (en_plan e) (en_io e) (en_vm e) (en_clock e) (en_modes e) (en_overruns_total e) (en_sw_wd e)
    (en_hw_wd e) (en_tel e) (en_tel_pushes e) (en_tel_in e) (en_tel_out e) (en_retain e)
    (en_hooks e) (en_tasks e) (en_schedule_order e) (en_input_scratch e) (en_output_image e)
    (en_output_slot_state e) (en_first_run_complete e) (en_min_duration_us e) x (en_armed e)
    (en_current_id e) (en_current_hash e) (en_bumpless_hold e) (en_install_min_duration_us e)
    (en_activate_deferred_count e) (en_last_activate_deferred e).
Definition set_en_armed {D} (x : option ArmedProgram) (e : ScanEngine D) : ScanEngine D :=
  mkEngine
    (en_plan e) (en_io e) (en_vm e) (en_clock e) (en_modes e) (en_overruns_total e) (en_sw_wd e)
    (en_hw_wd e) (en_tel e) (en_tel_pushes e) (en_tel_in e) (en_tel_out e) (en_retain e)
    (en_hooks e) (en_tasks e) (en_schedule_order e) (en_input_scratch e) (en_output_image e)
    (en_output_slot_state e) (en_first_run_complete e) (en_min_duration_us e) (en_last_ran e) x
    (en_current_id e) (en_current_hash e) (en_bumpless_hold e) (en_install_min_duration_us e)
    (en_activate_deferred_count e) (en_last_activate_deferred e).
Definition set_en_current_id {D} (x : option bytes) (e : ScanEngine D) : ScanEngine D :=
  mkEngine
    (en_plan e) (en_io e) (en_vm e) (en_clock e) (en_modes e) (en_overruns_total e) (en_sw_wd e)
    (en_hw_wd e) (en_tel e) (en_tel_pushes e) (en_tel_in e) (en_tel_out e) (en_retain e)
    (en_hooks e) (en_tasks e) (en_schedule_order e) (en_input_scratch e) (en_output_image e)
    (en_output_slot_state e) (en_first_run_complete e) (en_min_duration_us e) (en_last_ran e)
    (en_armed e) x (en_current_hash e) (en_bumpless_hold e) (en_install_min_duration_us e)
    (en_activate_deferred_count e) (en_last_activate_deferred e).
Definition set_en_current_hash {D} (x : option bytes) (e : ScanEngine D) : ScanEngine D :=
  mkEngine
    (en_plan e) (en_io e) (en_vm e) (en_clock e) (en_modes e) (en_overruns_total e) (en_sw_wd e)
    (en_hw_wd e) (en_tel e) (en_tel_pushes e) (en_tel_in e) (en_tel_out e) (en_retain e)
    (en_hooks e) (en_tasks e) (en_schedule_order e) (en_input_scratch e) (en_output_image e)
    (en_output_slot_state e) (en_first_run_complete e) (en_min_duration_us e) (en_last_ran e)
    (en_armed e) (en_current_id e) x (en_bumpless_hold e) (en_install_min_duration_us e)
    (en_activate_deferred_count e) (en_last_activate_deferred e).
Definition set_en_bumpless_hold {D} (x : bool) (e : ScanEngine D) : ScanEngine D :=
  mkEngine
    (en_plan e) (en_io e) (en_vm e) (en_clock e) (en_modes e) (en_overruns_total e) (en_sw_wd e)
    (en_hw_wd e) (en_tel e) (en_tel_pushes e) (en_tel_in e) (en_tel_out e) (en_retain e)
    (en_hooks e) (en_tasks e) (en_schedule_order e) (en_input_scratch e) (en_output_image e)
    (en_output_slot_state e) (en_first_run_complete e) (en_min_duration_us e) (en_last_ran e)
    (en_armed e) (en_current_id e) (en_current_hash e) x (en_install_min_duration_us e)
    (en_activate_deferred_count e) (en_last_activate_deferred e).
Definition set_en_install_min_duration_us {D} (x : Z) (e : ScanEngine D) : ScanEngine D :=
  mkEngine
    (en_plan e) (en_io e) (en_vm e) (en_clock e) (en_modes e) (en_overruns_total e) (en_sw_wd e)
    (en_hw_wd e) (en_tel e) (en_tel_pushes e) (en_tel_in e) (en_tel_out e) (en_retain e)
    (en_hooks e) (en_tasks e) (en_schedule_order e) (en_input_scratch e) (en_output_image e)
    (en_output_slot_state e) (en_first_run_complete e) (en_min_duration_us e) (en_last_ran e)
    (en_armed e) (en_current_id e) (en_current_hash e) (en_bumpless_hold e) x
    (en_activate_deferred_count e) (en_last_activate_deferred e).
Definition set_en_activate_deferred_count {D} (x : Z) (e : ScanEngine D) : ScanEngine D :=
  mkEngine
    (en_plan e) (en_io e) (en_vm e) (en_clock e) (en_modes e) (en_overruns_total e) (en_sw_wd e)
    (en_hw_wd e) (en_tel e) (en_tel_pushes e) (en_tel_in e) (en_tel_out e) (en_retain e)
    (en_hooks e) (en_tasks e) (en_schedule_order e) (en_input_scratch e) (en_output_image e)
    (en_output_slot_state e) (en_first_run_complete e) (en_min_duration_us e) (en_last_ran e)
    (en_armed e) (en_current_id e) (en_current_hash e) (en_bumpless_hold e)
    (en_install_min_duration_us e) x (en_last_activate_deferred e).
Definition set_en_last_activate_deferred {D} (x : bool) (e : ScanEngine D) : ScanEngine D :=
  mkEngine
    (en_plan e) (en_io e) (en_vm e) (en_clock e) (en_modes e) (en_overruns_total e) (en_sw_wd e)
    (en_hw_wd e) (en_tel e) (en_tel_pushes e) (en_tel_in e) (en_tel_out e) (en_retain e)
    (en_hooks e) (en_tasks e) (en_schedule_order e) (en_input_scratch e) (en_output_image e)
    (en_output_slot_state e) (en_first_run_complete e) (en_min_duration_us e) (en_last_ran e)
    (en_armed e) (en_current_id e) (en_current_hash e) (en_bumpless_hold e)
    (en_install_min_duration_us e) (en_activate_deferred_count e) x.
