(* ===== verification/ScanEngine.v ===== *)
(** * The cooperative scan engine

    Crate [plc-scan], src/crates/plc-scan/src/engine.rs: scheduling, the
    invocation of a task (inputs, logic, outputs), mode boundaries and the hot
    swap of programs. Methods that can fail or panic are computations of the
    state and error monad over the engine; the others are functions on it. *)
From S2P Require Import Prelude Float32 Config IrTypes PlcTypes IoImage FbDispatch VmValue VmMemory VmExec.
From S2P Require Import ScanMode ScanParts ScanState.

Section Engine.
Context {D : Type} `{!IoDriver D} `{!NanRule} `{!ScanEnv}.
Implicit Types (e : ScanEngine D).

(** ** Access *)

Definition upd_io (f : ScanIo D -> ScanIo D) e : ScanEngine D := set_en_io (f (en_io e)) e.
Definition upd_image (f : ProcessImage -> ProcessImage) : ScanEngine D -> ScanEngine D :=
  upd_io (fun io => set_io_image (f (io_image io)) io).
Definition upd_hooks (f : EpochHooks -> EpochHooks) e : ScanEngine D := set_en_hooks (f (en_hooks e)) e.
Definition upd_modes (f : ModeCell -> ModeCell) e : ScanEngine D := set_en_modes (f (en_modes e)) e.

Definition mode e : OperatingMode := Cell.mode (en_modes e).

(** One reading of the clock. *)
Definition now_ns : M (ScanEngine D) ScanError Z := fun e =>
  (set_en_clock (S (en_clock e)) e, Ok (now_ns_at (en_clock e))).

Definition now_ms : M (ScanEngine D) ScanError Z := t ← now_ns; mret (ms_of_ns t).

(** [&mut self.tasks[i]], which panics out of range. *)
Definition upd_task (i : nat) (f : TaskRuntime -> TaskRuntime) : M (ScanEngine D) ScanError unit := fun e =>
  match en_tasks e !! i with
  | Some t => (set_en_tasks (<[i := f t]> (en_tasks e)) e, Ok tt)
  | None => (e, Panic)
  end.

Definition plan_task (i : nat) : M (ScanEngine D) ScanError TaskPlan := fun e =>
  (e, index (sp_tasks (en_plan e)) i).

Definition first_in_schedule : M (ScanEngine D) ScanError nat := fun e =>
  (e, index (en_schedule_order e) 0).

(** ** Requests from outside the scan thread *)

Definition request_mode (r : ModeRequest) : ScanEngine D -> ScanEngine D := upd_modes (Cell.request r).

(** The sizes of a program's images against the process image. *)
Definition image_matches (vm : Vm) (im : ProcessImage) : bool :=
  (Slots.size (v_inputs vm) =? len (pi_inputs im)) && (Slots.size (v_outputs vm) =? len (pi_outputs im)).

Definition arm (program : ArmedProgram) : M (ScanEngine D) ScanError unit := fun e =>
  if decide (Hooks.phase (en_hooks e) = Swapping) then (e, Err (SInvalidState "arm while swapping"))
  else if negb (len (ap_task_entries program) =? len (sp_tasks (en_plan e))) then
    (e, Err (SConfig "armed task_entries != plan tasks"))
  else if negb (image_matches (ap_vm program) (io_image (en_io e))) then (e, Err SImageMismatch)
  else
    let program := with_vm (cold_reset_non_retain (ap_vm program)) program in
    (upd_hooks (Hooks.set_activate_requested false)
       (upd_hooks (Hooks.set_phase Armed) (set_en_armed (Some program) e)), Ok tt).

Definition disarm : M (ScanEngine D) ScanError unit := fun e =>
  if decide (Hooks.phase (en_hooks e) = Swapping) then (e, Err (SInvalidState "disarm while swapping"))
  else
    (upd_hooks (Hooks.set_phase Idle)
       (upd_hooks (Hooks.set_activate_requested false) (set_en_armed None e)), Ok tt).

Definition request_activate : M (ScanEngine D) ScanError ActivateRequest := fun e =>
  if decide (Hooks.phase (en_hooks e) = Swapping) then (e, Err (SInvalidState "activate while swapping"))
  else
    match en_armed e with
    | None => (e, Err (SInvalidState "activate while not armed"))
    | Some armed =>
        if bool_decide (en_current_id e = Some (ap_program_id armed)) &&
           bool_decide (en_current_hash e = Some (ap_compatibility_hash armed)) then
          (upd_hooks (Hooks.set_phase Idle)
             (upd_hooks (Hooks.set_activate_requested false) (set_en_armed None e)), Ok NoOp)
        else (upd_hooks (Hooks.set_activate_requested true) e, Ok Pending)
    end.

Definition set_min_duration_us (task : bytes) (us : option Z) : M (ScanEngine D) ScanError unit := fun e =>
  match list_find (fun t => tp_name t = task) (sp_tasks (en_plan e)) with
  | None => (e, Err (SConfig "unknown task"))
  | Some (idx, _) =>
      match en_min_duration_us e !! idx with
      | None => (e, Panic)
      | Some _ => (set_en_min_duration_us (<[idx := default 0 us]> (en_min_duration_us e)) e, Ok tt)
      end
  end.

(** ** Scheduling *)

(** [schedule_order] holds indices of [tasks], so [self.tasks[i]] is in range
    ([engine_ok]). *)
Definition is_due (tasks : list TaskRuntime) (now : Z) (i : nat) : bool :=
  match tasks !! i with Some t => rt_next_due_ms t <=? now | None => false end.

Definition pick_due (now : Z) e : option nat := find (is_due (en_tasks e) now) (en_schedule_order e).

(** [iter().min()]. *)
Definition min_list (l : list Z) : option Z :=
  match l with [] => None | x :: l => Some (foldl Z.min x l) end.

Definition next_wakeup_ms e : Z := default 0 (min_list (map rt_next_due_ms (en_tasks e))).

Definition min_task_period_us e : Z :=
  Z.min (default 1 (min_list (map tp_period_ms (sp_tasks (en_plan e)))) * 1000) (2 ^ 64 - 1).

(** The comparison of [schedule_order.sort_by]: [a] after [b]. The indices are
    those of [tasks]. *)
Definition task_at (tasks : list TaskPlan) (i : nat) : TaskPlan :=
  default (mkTaskPlan [] 0 [] 0) (tasks !! i).

Definition schedule_gt (tasks : list TaskPlan) (a b : nat) : bool :=
  let ta := task_at tasks a in
  let tb := task_at tasks b in
  match tp_priority tb ?= tp_priority ta with
  | Datatypes.Eq => match bytes_cmp (tp_name ta) (tp_name tb) with Datatypes.Gt => true | _ => false end
  | Datatypes.Gt => true
  | Datatypes.Lt => false
  end.

Definition schedule (tasks : list TaskPlan) : list nat :=
  sort_by (schedule_gt tasks) (seq 0 (length tasks)).

(** ** Construction *)

Definition task_runtime_new : TaskRuntime := mkRt 0 0 0 0 0 (replicate DURATION_BUCKETS 0) 0.

(** [ScanEngine::new] once the sizes are checked. *)
Definition engine_build (plan : ScanPlan) (io : ScanIo D) (vm : option Vm) : res ScanError (ScanEngine D) :=
  let '(driver, r) := start (io_driver io) in
  map_err SIo r ;;
  let n := length (sp_tasks plan) in
  let n_i := length (pi_inputs (io_image io)) in
  let n_q := length (pi_outputs (io_image io)) in
  Ok (mkEngine plan (set_io_driver driver io) vm 0 Cell.new 0 (Wd.new n (sp_overrun_limit plan)) 0
        (Spsc.channel (Nat.max (sp_telemetry_capacity plan) 1)) 0
        (replicate n_i Track.new) (replicate n_q Track.new) Signal.new (Hooks.new n)
        (replicate n task_runtime_new) (schedule (sp_tasks plan)) (update_zeros n_i)
        (mkOutputs (replicate n_q (PBool false)) true) (replicate n_q (mkModule Good ForceSafe))
        false (replicate n 0) None None None None false 0 0 false).

Definition engine_new (plan : ScanPlan) (io : ScanIo D) (vm : option Vm) : res ScanError (ScanEngine D) :=
  match vm with
  | Some p => if image_matches p (io_image io) then engine_build plan io vm else Err SImageMismatch
  | None => engine_build plan io vm
  end.

Definition engine_from_config (cfg : DeviceConfig) (io : ScanIo D) (vm : option Vm) :
    res ScanError (ScanEngine D) :=
  plan ← plan_from_config cfg; engine_new plan io vm.

(** ** Faults and mode boundaries *)

Definition enter_fault e : ScanEngine D :=
  upd_io (fun io => set_io_forces (Force.clear_all (io_forces io)) io)
    (upd_modes (Cell.set_mode Fault) e).

Definition apply_mode_boundary e : ScanEngine D :=
  if decide (Hooks.phase (en_hooks e) = Swapping) then upd_modes Cell.reject_pending e
  else
    let '(modes, r) := Cell.apply_pending (en_modes e) in
    let e := set_en_modes modes e in
    match r with
    | Ok (_, true) => upd_io (fun io => set_io_forces (Force.clear_all (io_forces io)) io) e
    | _ => e
    end.

(** ** Hot swap *)

Fixpoint blit_copies (copies : list RetainCopy) (current : Vm) : M Vm VmError unit :=
  match copies with
  | [] => mret tt
  | c :: copies =>
      blit_retain_from (cp_dst_offset c) current (cp_src_offset c) (cp_len c) ;;
      blit_copies copies current
  end.

(** The program it has reached survives an error. *)
Definition blit_retain_into (armed : ArmedProgram) (current : option Vm) :
    ArmedProgram * res ScanError unit :=
  match current with
  | None => (armed, Ok tt)
  | Some cur =>
      let '(vm, r) := blit_copies (ap_retain_copies armed) cur (ap_vm armed) in
      (with_vm vm armed, map_err SVm r)
  end.

Definition cold_init_memory : ScanEngine D -> ScanEngine D := upd_image (fun im =>
  set_pi_memory
    (imap (fun i _ => slot_zero (match pi_memory_meta im !! i with Some m => sm_ty m | None => TyBool end))
       (pi_memory im)) im).

Definition safe_of (im : ProcessImage) (i : nat) : PlcValue := default (PBool false) (pi_output_safe im !! i).

Definition apply_safe_reset_outputs : ScanEngine D -> ScanEngine D := upd_image (fun im =>
  set_pi_outputs (imap (fun i s => mkTyped (safe_of im i) (ts_quality s) true) (pi_outputs im)) im).

(** The loop of [commit_install] that moves the other due tasks to their next
    period. *)
Definition skip_due (now : Z) (highest i : nat) : M (ScanEngine D) ScanError unit := fun e =>
  match en_tasks e !! i with
  | None => (e, Panic)
  | Some t =>
      if negb (i =? highest)%nat && (rt_next_due_ms t <=? now) then
        (tp ← plan_task i;
         upd_task i (set_rt_next_due_ms (sat_add_u 64 (rt_next_due_ms t) (tp_period_ms tp)))) e
      else (e, Ok tt)
  end.

Definition set_entry (entry : bytes) (t : TaskPlan) : TaskPlan :=
  mkTaskPlan (tp_name t) (tp_period_ms t) entry (tp_priority t).

(** [task_entries] zipped into the task table. *)
Definition set_entries (entries : list bytes) (tasks : list TaskPlan) : list TaskPlan :=
  imap (fun i t => match entries !! i with Some x => set_entry x t | None => t end) tasks.

Definition commit_install (armed : ArmedProgram) : M (ScanEngine D) ScanError unit :=
  now ← now_ms;
  highest ← first_in_schedule;
  n ← m_gets (fun e => length (en_tasks e));
  m_each (seq 0 n) (skip_due now highest) ;;
  m_modify (fun e =>
    let policy := ap_restart_policy armed in
    let plan := en_plan e in
    let e := set_en_plan (set_sp_tasks (set_entries (ap_task_entries armed) (sp_tasks plan)) plan) e in
    let e := set_en_current_id (Some (ap_program_id armed)) e in
    let e := set_en_current_hash (Some (ap_compatibility_hash armed)) e in
    let e := set_en_bumpless_hold (bool_decide (policy = Bumpless)) e in
    let e := set_en_vm (Some (ap_vm armed)) e in
    let e := upd_hooks (Hooks.set_first_scan_all true) e in
    let e := upd_hooks (Hooks.set_activate_requested false) e in
    let e := upd_hooks (Hooks.set_phase Idle) e in
    let e := set_en_last_activate_deferred false e in
    let e := cold_init_memory e in
    if decide (policy = SafeReset) then apply_safe_reset_outputs e else e).

(** The install proper, from the first reading of the clock in the critical
    section. *)
Definition install : M (ScanEngine D) ScanError InstallOutcome :=
  m_modify (upd_hooks (Hooks.set_phase Swapping)) ;;
  t0 ← now_ns;
  armed ← m_gets en_armed;
  match armed with
  | None => m_modify (upd_hooks (Hooks.set_phase Idle)) ;; mret NotInstalled
  | Some armed =>
      m_modify (set_en_armed None) ;;
      vm ← m_gets en_vm;
      let '(armed, prepare) := blit_retain_into armed vm in
      t1 ← now_ns;
      inject ← m_gets en_install_min_duration_us;
      let duration_us := Z.max (sat_sub_u t1 t0 / 1000) inject in
      deadline_us ← m_gets min_task_period_us;
      match prepare with
      | Panic => m_panic
      | Err _ =>
          m_modify (fun e =>
            let e := enter_fault (set_en_armed (Some armed) e) in
            upd_hooks (Hooks.set_phase Idle) (upd_hooks (Hooks.set_activate_requested false) e)) ;;
          mret Faulted
      | Ok _ =>
          if deadline_us <=? duration_us then
            m_modify (fun e =>
              let e := upd_hooks (Hooks.set_phase Armed) (set_en_armed (Some armed) e) in
              let e := set_en_last_activate_deferred true (upd_hooks (Hooks.set_activate_requested false) e) in
              set_en_activate_deferred_count (sat_add_u 64 (en_activate_deferred_count e) 1) e) ;;
            mret Deferred
          else commit_install armed ;; mret Installed
      end
  end.

Definition try_epoch_install : M (ScanEngine D) ScanError InstallOutcome :=
  e ← m_get;
  if negb (Hooks.activate_requested (en_hooks e)) || bool_decide (en_armed e = None) then mret NotInstalled
  else if negb (Hooks.is_quiet (en_hooks e)) then mret NotInstalled
  else
    now ← now_ms;
    due ← m_gets (pick_due now);
    match due with
    | None => mret NotInstalled
    | Some due =>
        highest ← first_in_schedule;
        if negb (due =? highest)%nat then mret NotInstalled else install
    end.

(** ** One invocation *)

Definition publish_field_mode e : ScanEngine D :=
  upd_io (fun io => set_io_field_gate (Gate.set_mode (mode e) <$> io_field_gate io) io) e.

(** [let _ = image.set_input(...)]. *)
Definition put_input (im : ProcessImage) (i : nat) (v : PlcValue) (q : Quality) : ProcessImage :=
  match set_input im i v q with Ok im => im | _ => im end.

(** The remote snapshot, slot by slot. *)
Definition put_remote (snap : list PlcValue * list Quality) (im : ProcessImage) : ProcessImage :=
  foldl (fun im '(i, (v, q)) => put_input im i v q) im (imap pair (zip snap.1 snap.2)).

(** The polled values, for every input slot. *)
Definition put_polled (u : InputUpdate) (im : ProcessImage) : ProcessImage :=
  foldl (fun im i => put_input im i (default (PBool false) (iu_values u !! i))
                       (default Good (iu_quality u !! i)))
    im (seq 0 (length (pi_inputs im))).

(** The loop over the input qualities, with its [break]. *)
Fixpoint worst_quality (worst : Quality) (slots : list TypedSlot) : Quality :=
  match slots with
  | [] => worst
  | slot :: slots =>
      if Qual.is_bad (ts_quality slot) then Bad
      else worst_quality (if decide (ts_quality slot = Uncertain) then Uncertain else worst) slots
  end.

(** [let _ = vm.inputs_mut().f(..)]: errors are ignored. *)
Definition try_inputs (f : SlotImage -> res VmError SlotImage) (vm : Vm) : Vm :=
  match f (v_inputs vm) with Ok x => set_inputs x vm | _ => vm end.

(** One input slot into the program's image. *)
Definition put_vm_input (vm : Vm) (i : nat) (slot : TypedSlot) : Vm :=
  try_inputs (fun x => Slots.set_quality_good x (Z.of_nat i) (Qual.is_good (ts_quality slot)) 0)
    (try_inputs (fun x => Slots.set x (Z.of_nat i) (plc_to_vm (ts_value slot)) 0) vm).

Definition put_vm_inputs (im : ProcessImage) (vm : Vm) : Vm :=
  foldl (fun vm '(i, slot) => put_vm_input vm i slot) vm (imap pair (pi_inputs im)).

Definition fault_if (b : bool) e : ScanEngine D :=
  if b && sp_fault_on_module_bad (en_plan e) then enter_fault e else e.

Definition sample_remote e : ScanEngine D :=
  if io_remote_inputs (en_io e) then upd_image (put_remote (remote_at (en_clock e))) e else e.

Definition sample_driver e : ScanEngine D :=
  let '(driver, scratch, r) := poll_inputs (io_driver (en_io e)) (en_input_scratch e) in
  let e := set_en_input_scratch scratch (upd_io (set_io_driver driver) e) in
  match r with
  | Ok _ => upd_image (put_polled scratch) e
  | _ => fault_if true (upd_io (set_io_module_quality Bad) e)
  end.

Definition sample_quality e : ScanEngine D :=
  let worst := worst_quality Good (pi_inputs (io_image (en_io e))) in
  fault_if (Qual.is_bad worst) (upd_io (set_io_module_quality worst) e).

Definition sample_program e : ScanEngine D :=
  set_en_vm (put_vm_inputs (io_image (en_io e)) <$> en_vm e) e.

Definition sample_inputs e : ScanEngine D :=
  sample_program (sample_quality (sample_driver (sample_remote (publish_field_mode e)))).

(** The program's outputs into the image; under a bumpless hold only those the
    invocation stored. *)
Definition put_outputs (hold : bool) (outputs : SlotImage) (im : ProcessImage) : ProcessImage :=
  foldl (fun im i =>
      if hold && negb (Slots.written outputs (Z.of_nat i)) then im
      else
        match Slots.get outputs (Z.of_nat i) 0 with
        | Ok v => match set_output im i (vm_to_plc v) with Ok im => im | _ => im end
        | _ => im
        end)
    im (seq 0 (length (i_values outputs))).

Definition run_logic (task : nat) (now : Z) : M (ScanEngine D) ScanError unit :=
  vm ← m_gets en_vm;
  match vm with
  | None => m_err (SInvalidState "RUN/SIM with no program armed")
  | Some vm =>
      first ← m_gets (fun e => Hooks.first_scan task (en_hooks e));
      let vm := set_first_scan first vm in
      m_modify (set_en_vm (Some vm)) ;;
      tp ← plan_task task;
      match run_entry now (tp_entry tp) vm with
      | None => m_panic
      | Some (vm, r) =>
          m_modify (set_en_vm (Some vm)) ;;
          m_lift (map_err SVm r) ;;
          (if v_retain_dirty vm then
             m_modify (fun e => set_en_vm (Some (clear_retain_dirty vm))
                                  (set_en_retain (Signal.notify (en_retain e)) e))
           else mret tt) ;;
          m_modify (fun e => upd_image (put_outputs (en_bumpless_hold e) (v_outputs vm)) e)
      end
  end.

(** The logic of one invocation: an error is a fault. *)
Definition logic_or_fault (task : nat) (now : Z) : M (ScanEngine D) ScanError bool := fun e =>
  match run_logic task now e with
  | (e, Ok _) => (e, Ok true)
  | (e, Err _) => (enter_fault e, Ok false)
  | (e, Panic) => (e, Panic)
  end.

(** The outputs of the field are the safe states whatever the program says. *)
Definition global_force_safe (ran_logic_ok : bool) e : bool :=
  bool_decide (mode e = Fault) ||
  (bool_decide (mode e = Stop) && bool_decide (sp_stop_output_policy (en_plan e) = PolicySafe)) ||
  (negb (en_first_run_complete e) && negb ran_logic_ok).

(** [Vec::resize]. *)
Definition resize {A} (n : nat) (x : A) (l : list A) : list A := take n l ++ replicate (n - length l) x.

(** One slot of the output image; [state] is the slot's module, when the driver
    knows it. *)
Definition effective_output (force_safe : bool) (state : option OutputModuleState) e (i : nat)
    (slot : TypedSlot) : PlcValue :=
  (resolve_effective_output (mkEffective (mode e) force_safe
    (match state with Some s => om_quality s | None => io_module_quality (en_io e) end)
    (match state with Some s => om_on_bad s | None => io_on_bad_quality (en_io e) end)
    (Force.get (wrap_u 32 (Z.of_nat i)) (io_forces (en_io e))) (ts_value slot) (ts_written slot)
    (safe_of (io_image (en_io e)) i))).1.

(** A driver overwrites entries of the slice it is given, so the list keeps its
    length. *)
Definition compute_outputs (ran_logic_ok : bool) e : ScanEngine D :=
  let force_safe := global_force_safe ran_logic_ok e in
  let outputs := pi_outputs (io_image (en_io e)) in
  let states := resize (length outputs) (mkModule Good ForceSafe) (en_output_slot_state e) in
  let states := map (fun _ => mkModule (io_module_quality (en_io e)) (io_on_bad_quality (en_io e))) states in
  let '(per_slot, states) := fill_output_module_state (io_driver (en_io e)) states in
  let values := imap (fun i slot =>
    effective_output force_safe (if per_slot : bool then states !! i else None) e i slot) outputs in
  set_en_output_image (mkOutputs values force_safe) (set_en_output_slot_state states e).

Definition apply_outputs (ran_logic_ok : bool) e : ScanEngine D :=
  let e := compute_outputs ran_logic_ok (publish_field_mode e) in
  let '(driver, r) := IoImage.apply_outputs (io_driver (en_io e)) (en_output_image e) in
  let e := upd_io (set_io_driver driver) e in
  match r with
  | Ok _ => e
  | _ => fault_if true (upd_io (set_io_module_quality Bad) e)
  end.

(** ** Telemetry *)

(** The consumer's receives since the last push, then the push. *)
Definition publish (sample : TelemetrySample) e : ScanEngine D :=
  let n := en_tel_pushes e in
  let ring := Nat.iter (received_at n) (fun r => (Spsc.try_recv r).1) (en_tel e) in
  set_en_tel (Spsc.push_drop_oldest (contended_at n) sample ring) (set_en_tel_pushes (S n) e).

Definition is_pbool (v : PlcValue) : bool := match v with PBool _ => true | _ => false end.

Definition due_to_publish (now : Z) (v : PlcValue) (t : PublishTrack) e : bool :=
  Track.should_publish v now (is_pbool v) (sp_analog_period_ms (en_plan e))
    (sp_digital_cos_ms (en_plan e)) t.

Definition u32_of (i : nat) : Z := wrap_u 32 (Z.of_nat i).

Definition publish_input (now : Z) (p : nat * TypedSlot) : M (ScanEngine D) ScanError unit := fun e =>
  let '(i, slot) := p in
  match en_tel_in e !! i with
  | None => (e, Panic)
  | Some t =>
      if due_to_publish now (ts_value slot) t e then
        let e := publish (mkSample (u32_of i) (u32_of i) (ts_value slot) (ts_quality slot) false now true) e in
        (set_en_tel_in (<[i := Track.mark (ts_value slot) now t]> (en_tel_in e)) e, Ok tt)
      else (e, Ok tt)
  end.

Definition publish_output (now : Z) (p : nat * TypedSlot) : M (ScanEngine D) ScanError unit := fun e =>
  let '(i, slot) := p in
  match en_tel_out e !! i with
  | None => (e, Panic)
  | Some t =>
      if due_to_publish now (ts_value slot) t e then
        let n_i := length (pi_inputs (io_image (en_io e))) in
        let forced := bool_decide (Force.get (u32_of i) (io_forces (en_io e)) <> None) in
        let e := publish (mkSample (u32_of (n_i + i)) (u32_of i) (ts_value slot) (ts_quality slot)
                            forced now false) e in
        (set_en_tel_out (<[i := Track.mark (ts_value slot) now t]> (en_tel_out e)) e, Ok tt)
      else (e, Ok tt)
  end.

Definition publish_telemetry (now : Z) : M (ScanEngine D) ScanError unit :=
  e ← m_get;
  m_each (imap pair (pi_inputs (io_image (en_io e)))) (publish_input now) ;;
  m_each (imap pair (pi_outputs (io_image (en_io e)))) (publish_output now).

(** ** The invocation *)

(** Overruns count, and trip the watchdog, only while executing. *)
Definition note_duration (task : nat) (duration_us period_ms : Z) : M (ScanEngine D) ScanError unit :=
  trip ← (fun e =>
    let '(wd, trip) := Wd.note task duration_us period_ms (en_sw_wd e) in
    (set_en_sw_wd wd e, Ok trip));
  (if Wd.budget_us period_ms <=? duration_us then
     upd_task task (fun t => set_rt_overruns (sat_add_u 32 (rt_overruns t) 1) t) ;;
     m_modify (fun e => set_en_overruns_total (wrap_u 64 (en_overruns_total e + 1)) e)
   else mret tt) ;;
  (if trip : bool then m_modify enter_fault else mret tt).

Definition record_duration (duration_us : Z) (t : TaskRuntime) : TaskRuntime :=
  mkRt (rt_next_due_ms t) duration_us (Z.max (rt_max_us t) duration_us)
    (sat_add_u 64 (rt_sum_us t) duration_us) (sat_add_u 64 (rt_samples t) 1)
    (alter (fun n => sat_add_u 64 n 1) (duration_bucket duration_us) (rt_duration_buckets t))
    (rt_overruns t).

Definition finish_first_scan (task : nat) (ran_logic_ok : bool) e : ScanEngine D :=
  if ran_logic_ok && Hooks.first_scan task (en_hooks e) then upd_hooks (Hooks.clear_first_scan task) e
  else e.

Definition invoke (task : nat) : M (ScanEngine D) ScanError Z :=
  m_modify (upd_hooks (Hooks.set_in_invocation true)) ;;
  t0 ← now_ns;
  let now := ms_of_ns t0 in
  tp ← plan_task task;
  let period_ms := tp_period_ms tp in
  m_modify sample_inputs ;;
  m ← m_gets mode;
  ran_logic_ok ← (if Mode.executes_logic m then logic_or_fault task now else mret false);
  t1 ← now_ns;
  inject ← m_gets (fun e => default 0 (en_min_duration_us e !! task));
  let duration_us := Z.max (sat_sub_u t1 t0 / 1000) inject in
  (if Mode.executes_logic m then note_duration task duration_us period_ms else mret tt) ;;
  upd_task task (record_duration duration_us) ;;
  m_modify (apply_outputs ran_logic_ok) ;;
  (if ran_logic_ok : bool then m_modify (set_en_first_run_complete true) else mret tt) ;;
  enabled ← m_gets (fun e => sp_telemetry_enabled (en_plan e));
  (if enabled : bool then publish_telemetry now else mret tt) ;;
  m_modify (fun e => set_en_hw_wd (en_hw_wd e + 1) e) ;;
  m_modify (finish_first_scan task ran_logic_ok) ;;
  upd_task task (fun t => set_rt_next_due_ms (sat_add_u 64 (rt_next_due_ms t) period_ms) t) ;;
  m_modify (fun e => upd_hooks (Hooks.set_in_invocation false) (set_en_last_ran (Some task) e)) ;;
  mret duration_us.

(** ** The scan loop *)

Definition step : M (ScanEngine D) ScanError StepOutcome :=
  m_modify apply_mode_boundary ;;
  try_epoch_install ;;
  now ← now_ms;
  due ← m_gets (pick_due now);
  match due with
  | None => next ← m_gets next_wakeup_ms; mret (StepIdle next)
  | Some task => duration_us ← invoke task; mret (StepRan task duration_us)
  end.

(** One turn of the [loop] of [run_due]: the task it ran, [None] for [break]. *)
Definition due_turn : M (ScanEngine D) ScanError (option nat) :=
  try_epoch_install ;;
  now ← now_ms;
  due ← m_gets (pick_due now);
  match due with
  | None => mret None
  | Some task => invoke task ;; mret (Some task)
  end.

(** The [loop]; [None] stands for running out of [fuel]. *)
Fixpoint due_loop (fuel : nat) (n : Z) e : option (ScanEngine D * res ScanError Z) :=
  match fuel with
  | O => None
  | S fuel =>
      match due_turn e with
      | (e, Ok None) => Some (e, Ok n)
      | (e, Ok (Some _)) => due_loop fuel (sat_add_u 32 n 1) e
      | (e, Err x) => Some (e, Err x)
      | (e, Panic) => Some (e, Panic)
      end
  end.

Definition run_due (fuel : nat) e : option (ScanEngine D * res ScanError Z) :=
  due_loop fuel 0 (apply_mode_boundary e).

(** ** Status *)

Record TaskTiming := mkTiming {
  tt_name : bytes;
  tt_period_ms : Z;
  tt_last_us : Z;
  tt_max_us : Z;
  tt_avg_us : Z;
  tt_sum_us : Z;
  tt_samples : Z;
  tt_duration_buckets : list Z;
  tt_overruns : Z;
  tt_consecutive_overruns : Z }.

Record ScanStatusSnapshot := mkStatus {
  st_mode : OperatingMode;
  st_phase : ProgramPhase;
  st_tasks : list TaskTiming;
  st_telemetry_drops : Z;
  st_mode_rejected : Z;
  st_io_degraded : bool;
  st_first_run_complete : bool;
  st_current_program_id : option bytes;
  st_armed_program_id : option bytes;
  st_activate_deferred_count : Z;
  st_last_activate_deferred : bool }.

Definition task_timing e (i : nat) (tp : TaskPlan) (t : TaskRuntime) : TaskTiming :=
  mkTiming (tp_name tp) (tp_period_ms tp) (rt_last_us t) (rt_max_us t)
    (if rt_samples t =? 0 then 0 else rt_sum_us t / rt_samples t) (rt_sum_us t) (rt_samples t)
    (rt_duration_buckets t) (rt_overruns t) (Wd.consecutive i (en_sw_wd e)).

(** [self.tasks[i]] for every planned task: panics when one is missing. *)
Definition status e : res ScanError ScanStatusSnapshot :=
  if (length (en_tasks e) <? length (sp_tasks (en_plan e)))%nat then Panic
  else Ok (mkStatus (mode e) (Hooks.phase (en_hooks e))
    (imap (fun i p => task_timing e i p.1 p.2) (zip (sp_tasks (en_plan e)) (en_tasks e)))
    (rg_drops (en_tel e)) (mc_rejected (en_modes e)) (Qual.is_bad (io_module_quality (en_io e)))
    (en_first_run_complete e) (en_current_id e) (ap_program_id <$> en_armed e)
    (en_activate_deferred_count e) (en_last_activate_deferred e)).
End Engine.
