(* ===== verification/ScanSchedule.v ===== *)
(** * Scheduling facts

    The order in which src/crates/plc-scan/src/engine.rs runs due tasks, and the
    time its loop takes. *)
From S2P Require Import Prelude Float32 IrTypes PlcTypes IoImage FbDispatch VmValue VmMemory VmExec.
From S2P Require Import ScanMode ScanParts ScanState ScanEngine.

(** ** The order of the schedule *)

(** [a] may run before [b] when both are due: a higher priority, or the same
    priority and a name that is not greater. *)
Definition runs_before (a b : TaskPlan) : Prop :=
  tp_priority b < tp_priority a \/
  (tp_priority a = tp_priority b /\ bytes_cmp (tp_name a) (tp_name b) <> Datatypes.Gt).

Lemma schedule_gt_false tasks a b :
  schedule_gt tasks a b = false <-> runs_before (task_at tasks a) (task_at tasks b).
Proof.
  unfold schedule_gt, runs_before.
  destruct (Z.compare_spec (tp_priority (task_at tasks b)) (tp_priority (task_at tasks a)));
    [case_match| |]; intuition (try lia; try congruence).
Qed.

Lemma bytes_not_gt_trans a b c :
  bytes_cmp a b <> Datatypes.Gt -> bytes_cmp b c <> Datatypes.Gt -> bytes_cmp a c <> Datatypes.Gt.
Proof.
  intros H1 H2. destruct (bytes_cmp a b) eqn:E1; [|destruct (bytes_cmp b c) eqn:E2|]; try done.
  - by apply bytes_cmp_eq in E1 as ->.
  - apply bytes_cmp_eq in E2 as <-. by rewrite E1.
  - by rewrite (name_lt_trans a b c).
Qed.

Lemma runs_before_trans a b c : runs_before a b -> runs_before b c -> runs_before a c.
Proof.
  unfold runs_before. intros [?|[? Hab]] [?|[? Hbc]]; [left; lia..|].
  right. split; [lia|]. by eapply bytes_not_gt_trans.
Qed.

Lemma schedule_sorted tasks :
  StronglySorted (fun a b => runs_before (task_at tasks a) (task_at tasks b)) (schedule tasks).
Proof.
  assert (Hs : StronglySorted (fun a b => schedule_gt tasks a b = false) (schedule tasks)).
  { apply sort_by_sorted.
    - intros x y z. rewrite !schedule_gt_false. apply runs_before_trans.
    - intros x y. unfold schedule_gt. rewrite (Z.compare_antisym (tp_priority (task_at tasks x))).
      rewrite (bytes_cmp_antisym (tp_name (task_at tasks x))).
      destruct (tp_priority (task_at tasks x) ?= _); [|done..]. by destruct (bytes_cmp _ _). }
  induction Hs as [|x l Hs IH Hx]; constructor; [done|].
  eapply Forall_impl; [exact Hx|]. intros y. apply schedule_gt_false.
Qed.

Lemma schedule_perm tasks : schedule tasks ≡ₚ seq 0 (length tasks).
Proof. apply sort_by_perm. Qed.

Lemma elem_of_schedule tasks i : i ∈ schedule tasks <-> (i < length tasks)%nat.
Proof. rewrite schedule_perm, elem_of_seq. lia. Qed.

Lemma schedule_head tasks : tasks <> [] -> exists i, schedule tasks !! 0%nat = Some i.
Proof.
  intros H. apply lookup_lt_is_Some. rewrite schedule_perm, length_seq.
  destruct tasks; [done|]. cbn. lia.
Qed.

(** New entries do not change the schedule. *)
Lemma task_at_set_entries es tasks i :
  tp_name (task_at (set_entries es tasks) i) = tp_name (task_at tasks i) /\
  tp_priority (task_at (set_entries es tasks) i) = tp_priority (task_at tasks i) /\
  tp_period_ms (task_at (set_entries es tasks) i) = tp_period_ms (task_at tasks i).
Proof.
  unfold task_at, set_entries. rewrite list_lookup_imap.
  destruct (tasks !! i); cbn; [|done]. by destruct (es !! i).
Qed.

Lemma sort_by_ext {A} (f g : A -> A -> bool) l : (forall x y, f x y = g x y) -> sort_by f l = sort_by g l.
Proof.
  intros H. unfold sort_by. induction l as [|x l IH]; [done|]. cbn. rewrite IH. clear IH.
  induction (foldr (insert_by g) [] l) as [|y k IHk]; cbn; [done|]. by rewrite H, IHk.
Qed.

Lemma schedule_set_entries es tasks : schedule (set_entries es tasks) = schedule tasks.
Proof.
  unfold schedule. unfold set_entries at 2. rewrite length_imap. apply sort_by_ext. intros x y.
  unfold schedule_gt. destruct (task_at_set_entries es tasks x) as (-> & -> & _).
  by destruct (task_at_set_entries es tasks y) as (-> & -> & _).
Qed.

(** ** Picking a task *)

(** The first element of a sorted list that satisfies a test is least among
    those that do. *)
Lemma find_sorted {A} (R : A -> A -> Prop) (f : A -> bool) l x :
  StronglySorted R l -> find f l = Some x -> x ∈ l /\ f x = true /\ forall y, y ∈ l -> f y = true -> x = y \/ R x y.
Proof.
  induction 1 as [|z l Hl IH Hz]; cbn; [done|]. destruct (f z) eqn:E.
  - intros [= ->]. split; [left|]. split; [done|]. intros y Hy Hf.
    apply elem_of_cons in Hy as [->|Hy]; [by left|]. right. by eapply Forall_forall in Hz.
  - intros Hf. destruct (IH Hf) as (H1 & H2 & H3). split; [by right|]. split; [done|].
    intros y Hy Hfy. apply elem_of_cons in Hy as [->|Hy]; [congruence|by apply H3].
Qed.

Lemma find_None {A} (f : A -> bool) l : find f l = None -> forall y, y ∈ l -> f y = false.
Proof.
  induction l as [|z l IH]; cbn; intros H y Hy; [by apply not_elem_of_nil in Hy|].
  destruct (f z) eqn:E; [done|]. apply elem_of_cons in Hy as [->|Hy]; [done|by apply IH].
Qed.

Lemma is_due_spec tasks now i :
  is_due tasks now i = true <-> exists t, tasks !! i = Some t /\ rt_next_due_ms t <= now.
Proof.
  unfold is_due. destruct (tasks !! i); split; [|intros (? & [= <-] & ?); by apply Z.leb_le|done|naive_solver].
  intros ?%Z.leb_le. eauto.
Qed.

(** With one runtime per planned task, the search yields the most urgent due
    task, and none exactly when no task is due. *)
Lemma find_due_spec (tasks : list TaskPlan) (rts : list TaskRuntime) (now : Z) :
  length rts = length tasks ->
  match find (is_due rts now) (schedule tasks) with
  | Some i =>
      (exists t, rts !! i = Some t /\ rt_next_due_ms t <= now) /\
      forall j t, rts !! j = Some t -> rt_next_due_ms t <= now ->
        i = j \/ runs_before (task_at tasks i) (task_at tasks j)
  | None => forall j t, rts !! j = Some t -> now < rt_next_due_ms t
  end.
Proof.
  intros Hlen.
  assert (Hin : forall j t, rts !! j = Some t -> j ∈ schedule tasks).
  { intros j t Hj. apply elem_of_schedule. rewrite <-Hlen. by eapply lookup_lt_Some. }
  destruct (find _ _) as [i|] eqn:Hf.
  - destruct (find_sorted _ _ _ _ (schedule_sorted tasks) Hf) as (_ & Hd & Hall).
    split; [by apply is_due_spec|]. intros j t Hj Ht. apply Hall; [by eapply Hin|].
    apply is_due_spec. eauto.
  - intros j t Hj. destruct (Z.lt_ge_cases now (rt_next_due_ms t)) as [|Hle]; [done|].
    pose proof (find_None _ _ Hf j (Hin _ _ Hj)) as Hd.
    assert (is_due rts now j = true) as Hd' by (apply is_due_spec; eauto). congruence.
Qed.
