(* ===== verification/ScanInv.v ===== *)
(** * The invariant of the scan engine

    Every operation of ScanEngine.v keeps the engine well-formed: its tables
    have the sizes of the plan and of the process image, its programs are
    well-formed machines whose images match, and no index is out of range. *)
From S2P Require Import Prelude Float32 Config IrTypes PlcTypes IoImage FbDispatch VmValue VmMemory VmExec.
From S2P Require Import VmInv ScanMode ScanParts ScanState ScanEngine ScanSchedule.

(** The sizes that never change: tasks, input slots, output slots. *)
Record Sizes := mkSizes { z_tasks : nat; z_in : nat; z_out : nat }.

(** A program that fits the process image. *)
Record program_ok `{!NanRule} (z : Sizes) (vm : Vm) : Prop := {
  pk_vm : vm_ok vm;
  pk_inputs : Slots.size (v_inputs vm) = Z.of_nat (z_in z);
  pk_outputs : Slots.size (v_outputs vm) = Z.of_nat (z_out z) }.

Definition copy_ok (c : RetainCopy) : Prop :=
  0 <= cp_src_offset c /\ 0 <= cp_dst_offset c /\ 0 <= cp_len c.

Record armed_ok `{!NanRule} (z : Sizes) (a : ArmedProgram) : Prop := {
  ak_program : program_ok z (ap_vm a);
  ak_entries : length (ap_task_entries a) = z_tasks z;
  ak_copies : Forall copy_ok (ap_retain_copies a) }.

Definition opt_ok {A} (P : A -> Prop) (o : option A) : Prop :=
  match o with Some a => P a | None => True end.

Record image_ok (z : Sizes) (im : ProcessImage) : Prop := {
  im_inputs : length (pi_inputs im) = z_in z;
  im_outputs : length (pi_outputs im) = z_out z;
  im_values : Forall (fun s => plc_ok (ts_value s)) (pi_inputs im) }.

Section Inv.
Context {D : Type} `{!IoDriver D, !IoDriverLaws D, !NanRule, !ScanEnv}.

Record engine_ok (z : Sizes) (e : ScanEngine D) : Prop := {
  eo_plan : length (sp_tasks (en_plan e)) = z_tasks z;
  eo_tasks : length (en_tasks e) = z_tasks z;
  eo_order : en_schedule_order e = schedule (sp_tasks (en_plan e));
  eo_image : image_ok z (io_image (en_io e));
  eo_tel_in : length (en_tel_in e) = z_in z;
  eo_tel_out : length (en_tel_out e) = z_out z;
  eo_scratch : Forall plc_ok (iu_values (en_input_scratch e));
  eo_driver : driver_ok (io_driver (en_io e));
  eo_vm : opt_ok (program_ok z) (en_vm e);
  eo_armed : opt_ok (armed_ok z) (en_armed e) }.

(** Between two operations no invocation and no swap is in progress. *)
Record settled (e : ScanEngine D) : Prop := {
  sl_quiet : Hooks.is_quiet (en_hooks e) = true;
  sl_phase : Hooks.phase (en_hooks e) <> Swapping }.

(** [m] keeps the invariant; it fails only if [F] allows it, and panics only in a state
    that [G] allows. *)
Definition safe {A} (F : Prop) (G : ScanEngine D -> Prop) (z : Sizes) (m : M (ScanEngine D) ScanError A) (Q : A -> Prop) : Prop :=
  forall e, engine_ok z e ->
  match m e with
  | (e', Ok a) => engine_ok z e' /\ Q a
  | (e', Err _) => engine_ok z e' /\ F
  | (e', Panic) => G e'
  end.

Definition any {A} (a : A) : Prop := True.

Lemma safe_bind {A B} F G z (m : M (ScanEngine D) ScanError A) (k : A -> M (ScanEngine D) ScanError B) P Q :
  safe F G z m P -> (forall a, P a -> safe F G z (k a) Q) -> safe F G z (m ≫= k) Q.
Proof.
  intros Hm Hk e He. specialize (Hm e He). unfold mbind, M_bind.
  destruct (m e) as [e1 [a|x|]]; [|done|done]. destruct Hm as [H1 H2]. by apply (Hk a H2 e1).
Qed.

Lemma safe_ret {A} F G z (a : A) (Q : A -> Prop) : Q a -> safe F G z (mret a) Q.
Proof. by intros Ha e He. Qed.

Lemma safe_modify F G z f (Q : unit -> Prop) :
  (forall e, engine_ok z e -> engine_ok z (f e)) -> Q tt -> safe F G z (m_modify f) Q.
Proof. intros Hf HQ e He. split; [by apply Hf|done]. Qed.

Lemma safe_gets {A} F G z (f : ScanEngine D -> A) (Q : A -> Prop) :
  (forall e, engine_ok z e -> Q (f e)) -> safe F G z (m_gets f) Q.
Proof. intros Hf e He. split; [done|by apply Hf]. Qed.

Lemma safe_if {A} F G z (b : bool) (m1 m2 : M (ScanEngine D) ScanError A) Q :
  safe F G z m1 Q -> safe F G z m2 Q -> safe F G z (if b then m1 else m2) Q.
Proof. by destruct b. Qed.

Lemma safe_each {A} F G z (l : list A) (body : A -> M (ScanEngine D) ScanError unit) :
  (forall x, x ∈ l -> safe F G z (body x) any) -> safe F G z (m_each l body) any.
Proof.
  induction l as [|x l IH]; intros Hall; cbn [m_each]; [by apply safe_ret|].
  eapply safe_bind; [apply Hall; left|]. intros _ _. apply IH. intros y Hy. apply Hall. by right.
Qed.

Lemma safe_get_then {A} F G z (k : ScanEngine D -> M (ScanEngine D) ScanError A) Q :
  (forall e, engine_ok z e -> safe F G z (k e) Q) -> safe F G z (m_get ≫= k) Q.
Proof. intros Hk e He. exact (Hk e He e He). Qed.

(** ** Updates that leave the invariant's fields alone *)

Lemma ok_hooks z f e : engine_ok z e -> engine_ok z (upd_hooks f e).
Proof. intros []. by split. Qed.
Lemma ok_modes z f e : engine_ok z e -> engine_ok z (upd_modes f e).
Proof. intros []. by split. Qed.
Lemma ok_set_modes z x e : engine_ok z e -> engine_ok z (set_en_modes x e).
Proof. intros []. by split. Qed.

Lemma ok_io z f e :
  engine_ok z e ->
  (image_ok z (io_image (en_io e)) -> image_ok z (io_image (f (en_io e)))) ->
  (driver_ok (io_driver (en_io e)) -> driver_ok (io_driver (f (en_io e)))) ->
  engine_ok z (upd_io f e).
Proof. intros He H1 H2. destruct He. split; cbn; auto. Qed.

Lemma ok_image z f e :
  engine_ok z e -> (image_ok z (io_image (en_io e)) -> image_ok z (f (io_image (en_io e)))) ->
  engine_ok z (upd_image f e).
Proof. intros He Hf. by apply ok_io. Qed.

Lemma ok_tasks z rts e : engine_ok z e -> length rts = z_tasks z -> engine_ok z (set_en_tasks rts e).
Proof. intros He Hx. destruct He. by split. Qed.

Lemma ok_set_vm z vm e : engine_ok z e -> opt_ok (program_ok z) vm -> engine_ok z (set_en_vm vm e).
Proof. intros He Hx. destruct He. by split. Qed.

Lemma ok_set_armed z a e : engine_ok z e -> opt_ok (armed_ok z) a -> engine_ok z (set_en_armed a e).
Proof. intros He Hx. destruct He. by split. Qed.

Lemma ok_fault z e : engine_ok z e -> engine_ok z (enter_fault e).
Proof. intros He. apply ok_io; [by apply ok_modes|done..]. Qed.

Lemma ok_boundary z e : engine_ok z e -> engine_ok z (apply_mode_boundary e).
Proof.
  intros He. unfold apply_mode_boundary. case_decide; [by apply ok_modes|].
  destruct (Cell.apply_pending (en_modes e)) as [modes r].
  destruct r as [[m []]|x|]; [apply ok_io; [|done..]|..]; by apply ok_set_modes.
Qed.

Lemma safe_now_ns F G z : (forall n, u_range 64 (now_ns_at n)) -> safe F G z now_ns (u_range 64).
Proof. intros Hc e []. split; [by split|apply Hc]. Qed.

Lemma safe_now_read F G z : safe F G z now_ns (fun t => exists k, t = now_ns_at k).
Proof. intros e []. split; [by split|by eexists]. Qed.

Lemma ms_range t : u_range 64 t -> u_range 64 (ms_of_ns t).
Proof.
  unfold u_range, ms_of_ns. intros Ht. split; [apply Z.div_pos; lia|].
  eapply Z.le_lt_trans; [|apply Ht]. apply Z.div_le_upper_bound; lia.
Qed.

Lemma safe_now_ms F G z : (forall n, u_range 64 (now_ns_at n)) -> safe F G z now_ms (u_range 64).
Proof.
  intros Hc. eapply safe_bind; [by apply safe_now_ns|]. intros t Ht. by apply safe_ret, ms_range.
Qed.

Lemma safe_upd_task F G z i f : (i < z_tasks z)%nat -> safe F G z (upd_task i f) any.
Proof.
  intros Hi e He. unfold upd_task. pose proof (eo_tasks z e He) as Hl.
  destruct (lookup_lt_is_Some_2 (en_tasks e) i) as [t Ht]; [lia|]. rewrite Ht.
  split; [|done]. apply ok_tasks; [done|]. by rewrite length_insert.
Qed.

Lemma safe_plan_task F G z i : (i < z_tasks z)%nat -> safe F G z (plan_task i) any.
Proof.
  intros Hi e He. unfold plan_task, index. pose proof (eo_plan z e He) as Hl.
  destruct (lookup_lt_is_Some_2 (sp_tasks (en_plan e)) i) as [t Ht]; [lia|]. by rewrite Ht.
Qed.

Lemma safe_first F G z : (0 < z_tasks z)%nat -> safe F G z first_in_schedule (fun i => i < z_tasks z)%nat.
Proof.
  intros Hn e He. unfold first_in_schedule, index. rewrite (eo_order z e He).
  pose proof (eo_plan z e He) as Hl.
  destruct (schedule_head (sp_tasks (en_plan e))) as [i Hi]; [by intros Hnil; rewrite Hnil in Hl; cbn in Hl; lia|].
  rewrite Hi. split; [done|]. rewrite <-Hl. apply elem_of_schedule. by eapply list_elem_of_lookup_2.
Qed.

Lemma pick_due_in z now e i : engine_ok z e -> pick_due now e = Some i -> (i < z_tasks z)%nat.
Proof.
  intros He. unfold pick_due. rewrite (eo_order z e He). intros Hf.
  apply find_some in Hf as [Hin _]. rewrite <-(eo_plan z e He). apply elem_of_schedule.
  by apply list_elem_of_In.
Qed.

(** ** Inputs *)

Lemma put_input_ok z im i v q : image_ok z im -> plc_ok v -> image_ok z (put_input im i v q).
Proof.
  intros [] Hv. unfold put_input, set_input. destruct (pi_inputs im !! i); [|by split].
  split; cbn; [by rewrite length_insert|done|]. by apply Forall_insert.
Qed.

Lemma foldl_ok {A B} (P : A -> Prop) (f : A -> B -> A) (l : list B) a :
  P a -> (forall a x, x ∈ l -> P a -> P (f a x)) -> P (foldl f a l).
Proof.
  revert a. induction l as [|x l IH]; intros a Ha Hf; [done|]. cbn. apply IH.
  - apply Hf; [left|done].
  - intros b y Hy. apply Hf. by right.
Qed.

Lemma put_remote_ok z snap im : image_ok z im -> Forall plc_ok snap.1 -> image_ok z (put_remote snap im).
Proof.
  intros Him Hv. unfold put_remote. apply foldl_ok; [done|]. intros im' [i [v q]] Hin Him'.
  apply put_input_ok; [done|]. apply elem_of_lookup_imap in Hin as (k & [v' q'] & Heq & Hl).
  simplify_eq. apply lookup_zip_Some in Hl as [Hl _]. cbn in Hl. by eapply Forall_lookup_1 in Hl.
Qed.

Lemma put_polled_ok z u im : image_ok z im -> Forall plc_ok (iu_values u) -> image_ok z (put_polled u im).
Proof.
  intros Him Hv. unfold put_polled. apply foldl_ok; [done|]. intros im' i _ Him'.
  apply put_input_ok; [done|]. destruct (iu_values u !! i) eqn:E; [|done].
  by eapply Forall_lookup_1 in E.
Qed.

Lemma try_inputs_ok z f vm :
  program_ok z vm ->
  (forall x x', Slots.ok x -> f x = Ok x' -> Slots.ok x' /\ Slots.size x' = Slots.size x) ->
  program_ok z (try_inputs f vm).
Proof.
  intros [H1 H2 H3] Hf. unfold try_inputs. destruct (f (v_inputs vm)) as [x| |] eqn:E; [|by split..].
  destruct (Hf _ _ (ok_inputs _ H1) E) as [Hx1 Hx2]. split; cbn; [|by rewrite Hx2|done].
  destruct H1. by split.
Qed.

Lemma put_vm_input_ok z vm i slot :
  program_ok z vm -> plc_ok (ts_value slot) -> program_ok z (put_vm_input vm i slot).
Proof.
  intros Hp Hv. unfold put_vm_input. apply try_inputs_ok; [apply try_inputs_ok; [done|]|].
  - intros x x' Hx Hs. eapply slots_set_ok; [done| |done]. by destruct (ts_value slot).
  - intros x x' [] Hs. unfold Slots.set_quality_good in Hs. case_match; [|done].
    apply Ok_inj in Hs as <-. split; [split|done]; cbn; rewrite ?length_insert; done.
Qed.

Lemma put_vm_inputs_ok z im vm : program_ok z vm -> image_ok z im -> program_ok z (put_vm_inputs im vm).
Proof.
  intros Hp Him. unfold put_vm_inputs. apply foldl_ok; [done|]. intros vm' [i slot] Hin Hvm'.
  apply put_vm_input_ok; [done|]. apply elem_of_lookup_imap in Hin as (k & s & Heq & Hl). simplify_eq.
  exact (Forall_lookup_1 _ _ _ _ (im_values z im Him) Hl).
Qed.

Lemma ok_fault_if z b e : engine_ok z e -> engine_ok z (fault_if b e).
Proof. intros He. unfold fault_if. case_match; [by apply ok_fault|done]. Qed.

Lemma ok_field_mode z e : engine_ok z e -> engine_ok z (publish_field_mode e).
Proof. intros He. by apply ok_io. Qed.

Lemma ok_sample_driver z e : engine_ok z e -> engine_ok z (sample_driver e).
Proof.
  intros He. unfold sample_driver.
  pose proof (poll_law _ _ (eo_driver _ _ He) (eo_scratch _ _ He)) as Hp.
  destruct (poll_inputs _ _) as [[driver scratch] r]. destruct Hp as [Hd Hs].
  assert (He1 : engine_ok z (set_en_input_scratch scratch (upd_io (set_io_driver driver) e)))
    by (destruct He; by split).
  destruct r; [|by apply ok_fault_if, ok_io..].
  apply ok_image; [done|]. intros. by apply put_polled_ok.
Qed.

Lemma ok_sample_inputs z e :
  (forall n, Forall plc_ok (remote_at n).1) -> engine_ok z e -> engine_ok z (sample_inputs e).
Proof.
  intros Hr He. unfold sample_inputs.
  assert (He1 : engine_ok z (sample_remote (publish_field_mode e))).
  { apply (ok_field_mode z) in He. unfold sample_remote. case_match; [|done].
    apply ok_image; [done|]. intros. by apply put_remote_ok. }
  apply ok_sample_driver in He1.
  assert (He2 : engine_ok z (sample_quality (sample_driver (sample_remote (publish_field_mode e)))))
    by (by apply ok_fault_if, ok_io).
  apply ok_set_vm; [done|]. pose proof (eo_vm _ _ He2) as Hvm.
  destruct (en_vm _); [|done]. cbn in *. apply put_vm_inputs_ok; [done|apply He2].
Qed.

(** ** Logic *)

(** The engine is left by a run of its machine that has panicked: the run of a task's
    entry, at a time the clock has shown, which got to a division of the least DINT,
    TIME or LINT by -1. *)
Definition machine_panicked (z : Sizes) (e' : ScanEngine D) : Prop :=
  exists task tp vm vm' k pc, let now := ms_of_ns (now_ns_at k) in
    sp_tasks (en_plan e') !! task = Some tp /\ en_vm e' = Some vm' /\
    program_ok z vm /\ frozen vm vm' /\ run_entry now (tp_entry tp) vm = Some (vm', Panic) /\
    entry_pc vm (tp_entry tp) = Ok pc /\ run_overflows now pc vm.

Lemma program_ok_frozen z vm vm' : program_ok z vm -> vm_ok vm' -> frozen vm vm' -> program_ok z vm'.
Proof.
  intros [H1 H2 H3] Hok Hf. split; [done|by rewrite (fz_inputs _ _ Hf)|by rewrite (fz_outputs _ _ Hf)].
Qed.

Lemma program_ok_flags z vm b : program_ok z vm ->
  program_ok z (set_first_scan b vm) /\ program_ok z (clear_retain_dirty vm).
Proof. intros [H1 H2 H3]. destruct H1. split; split; try done; by split. Qed.

Lemma set_output_ok z im i v im' : image_ok z im -> set_output im i v = Ok im' -> image_ok z im'.
Proof.
  intros []. unfold set_output. destruct (pi_outputs im !! i); [|done]. intros H'.
  apply Ok_inj in H' as <-. split; cbn; [done|by rewrite length_insert|done].
Qed.

Lemma put_outputs_ok z hold outs im : image_ok z im -> image_ok z (put_outputs hold outs im).
Proof.
  intros Him. unfold put_outputs. apply foldl_ok; [done|]. intros im' i _ Him'.
  destruct (hold && _); [done|]. destruct (Slots.get outs (Z.of_nat i) 0) as [v| |]; [|done..].
  destruct (set_output im' i (vm_to_plc v)) as [im''| |] eqn:E; [|done..]. by eapply set_output_ok.
Qed.

(** What a run that ends leaves to do: the notification of the retain writer and the
    outputs. *)
Lemma safe_finish_logic z vm :
  program_ok z vm ->
  safe True (machine_panicked z) z (
    (if v_retain_dirty vm then
       m_modify (fun e => set_en_vm (Some (clear_retain_dirty vm))
                            (set_en_retain (Signal.notify (en_retain e)) e))
     else mret tt) ;;
    m_modify (fun e => upd_image (put_outputs (en_bumpless_hold e) (v_outputs vm)) e)) any.
Proof.
  intros Hvm. destruct (program_ok_flags z vm false Hvm) as [_ Hvm2].
  eapply (safe_bind _ _ _ _ _ any).
  { apply safe_if; [|by apply safe_ret]. apply safe_modify; [|done]. intros e1 He1.
    apply ok_set_vm; [|done]. destruct He1. by split. }
  intros _ _. apply safe_modify; [|done]. intros e1 He1. apply ok_image; [done|].
  intros. by apply put_outputs_ok.
Qed.

Lemma safe_run_logic z task k :
  (task < z_tasks z)%nat -> u_range 64 (now_ns_at k) ->
  safe True (machine_panicked z) z (run_logic task (ms_of_ns (now_ns_at k))) any.
Proof.
  intros Ht Hnow%ms_range. unfold run_logic.
  eapply (safe_bind _ _ _ _ _ (opt_ok (program_ok z))); [apply safe_gets, eo_vm|]. intros vm Hvm.
  destruct vm as [vm|]; [|by intros e He]. cbn in Hvm.
  eapply safe_bind; [by apply (safe_gets _ _ _ _ any)|]. intros first _.
  destruct (program_ok_flags z vm first Hvm) as [Hvm1 _].
  eapply safe_bind; [apply (safe_modify _ _ _ _ any); [by intros; apply ok_set_vm|done]|]. intros _ _.
  intros e He. unfold plan_task, index, mbind, M_bind at 1.
  destruct (lookup_lt_is_Some_2 (sp_tasks (en_plan e)) task) as [tp Htp]; [by rewrite (eo_plan z e He)|].
  rewrite Htp.
  destruct (run_entry_safe _ (tp_entry tp) _ Hnow (pk_vm _ _ Hvm1)) as (vm' & r & Hr & Hok & Hf & Hpan).
  rewrite Hr. pose proof (program_ok_frozen _ _ _ Hvm1 Hok Hf) as Hvm'.
  assert (He1 : engine_ok z (set_en_vm (Some vm') e)) by by apply ok_set_vm.
  unfold m_modify at 1, M_bind at 1.
  destruct r as [x|x|]; cbn [map_err m_lift]; [|done|].
  2: { destruct (Hpan eq_refl) as (pc & Hpc & Hover).
       by exists task, tp, (set_first_scan first vm), vm', k, pc. }
  exact (safe_finish_logic z vm' Hvm' _ He1).
Qed.

Lemma safe_logic z task k :
  (task < z_tasks z)%nat -> u_range 64 (now_ns_at k) ->
  safe False (machine_panicked z) z (logic_or_fault task (ms_of_ns (now_ns_at k))) any.
Proof.
  intros Ht Hnow e He. pose proof (safe_run_logic z task k Ht Hnow e He) as Hl.
  unfold logic_or_fault. destruct (run_logic task _ e) as [e' [a|x|]]; [|split; [|done]|done].
  - split; [apply Hl|done].
  - by apply ok_fault, Hl.
Qed.

(** ** Outputs and telemetry *)

Lemma ok_apply_outputs z ran e : engine_ok z e -> engine_ok z (apply_outputs ran e).
Proof.
  intros He. unfold apply_outputs. set (e1 := compute_outputs _ _). assert (He1 : engine_ok z e1).
  { subst e1. unfold compute_outputs. destruct (fill_output_module_state _ _).
    apply (ok_field_mode z) in He. destruct He. by split. }
  clearbody e1. pose proof (apply_law (io_driver (en_io e1)) (en_output_image e1) (eo_driver _ _ He1)) as Hd.
  destruct (IoImage.apply_outputs _ _) as [driver r].
  assert (He2 : engine_ok z (upd_io (set_io_driver driver) e1)) by by apply ok_io.
  destruct r; [done|..]; by apply ok_fault_if, ok_io.
Qed.

Lemma safe_publish_input G z now p : (p.1 < z_in z)%nat -> safe False G z (publish_input now p) any.
Proof.
  destruct p as [i slot]. cbn. intros Hi e He. unfold publish_input.
  destruct (lookup_lt_is_Some_2 (en_tel_in e) i) as [t Ht]; [by rewrite (eo_tel_in _ _ He)|]. rewrite Ht.
  destruct (due_to_publish _ _ _ _); (split; [|done]); [|done].
  destruct He. split; cbn; try done. by rewrite length_insert.
Qed.

Lemma safe_publish_output G z now p : (p.1 < z_out z)%nat -> safe False G z (publish_output now p) any.
Proof.
  destruct p as [i slot]. cbn. intros Hi e He. unfold publish_output.
  destruct (lookup_lt_is_Some_2 (en_tel_out e) i) as [t Ht]; [by rewrite (eo_tel_out _ _ He)|]. rewrite Ht.
  destruct (due_to_publish _ _ _ _); (split; [|done]); [|done].
  destruct He. split; cbn; try done. by rewrite length_insert.
Qed.

Lemma imap_pair_lt {A} (l : list A) p : p ∈ imap pair l -> (p.1 < length l)%nat.
Proof.
  intros H'. apply elem_of_lookup_imap in H' as (i & x & -> & Hl). by eapply lookup_lt_Some.
Qed.

Lemma safe_publish G z now : safe False G z (publish_telemetry now) any.
Proof.
  apply safe_get_then. intros e He. destruct (eo_image _ _ He) as [Hi Hq _].
  eapply safe_bind; [apply safe_each|intros _ _; apply safe_each]; intros p Hp%imap_pair_lt.
  - apply safe_publish_input. by rewrite <-Hi.
  - apply safe_publish_output. by rewrite <-Hq.
Qed.

(** ** Invocations *)

Section Clocked.
Context (Hclock : forall n, u_range 64 (now_ns_at n)).
Context (Hremote : forall n, Forall plc_ok (remote_at n).1).

Lemma safe_note G z task d period :
  (task < z_tasks z)%nat -> safe False G z (note_duration task d period) any.
Proof.
  intros Ht. unfold note_duration. eapply (safe_bind _ _ _ _ _ any).
  { intros e He. destruct (Wd.note _ _ _ _). split; [|done]. destruct He. by split. }
  intros trip _. eapply (safe_bind _ _ _ _ _ any).
  { apply safe_if; [|by apply safe_ret]. eapply safe_bind; [by apply safe_upd_task|].
    intros _ _. apply safe_modify; [|done]. intros e He. destruct He. by split. }
  intros _ _. apply safe_if; [|by apply safe_ret]. apply safe_modify; [|done]. apply ok_fault.
Qed.

Lemma safe_invoke z task : (task < z_tasks z)%nat -> safe False (machine_panicked z) z (invoke task) any.
Proof using All.
  intros Ht. unfold invoke.
  eapply (safe_bind _ _ _ _ _ any); [apply safe_modify; [by intros; apply ok_hooks|done]|]. intros _ _.
  eapply safe_bind; [by apply safe_now_read|]. intros t0 [k ->].
  eapply safe_bind; [by apply safe_plan_task|]. intros tp _.
  eapply (safe_bind _ _ _ _ _ any); [apply safe_modify; [|done]; by intros; apply ok_sample_inputs|].
  intros _ _. eapply (safe_bind _ _ _ _ _ any); [by apply safe_gets|]. intros m _.
  eapply (safe_bind _ _ _ _ _ any).
  { apply safe_if; [by apply safe_logic|by apply safe_ret]. }
  intros ran _. eapply safe_bind; [by apply safe_now_ns|]. intros t1 _.
  eapply (safe_bind _ _ _ _ _ any); [by apply safe_gets|]. intros inject _.
  eapply (safe_bind _ _ _ _ _ any); [apply safe_if; [by apply safe_note|by apply safe_ret]|]. intros _ _.
  eapply safe_bind; [by apply safe_upd_task|]. intros _ _.
  eapply (safe_bind _ _ _ _ _ any); [apply safe_modify; [by intros; apply ok_apply_outputs|done]|]. intros _ _.
  eapply (safe_bind _ _ _ _ _ any).
  { apply safe_if; [|by apply safe_ret]. apply safe_modify; [|done]. intros e He. destruct He. by split. }
  intros _ _. eapply (safe_bind _ _ _ _ _ any); [by apply safe_gets|]. intros enabled _.
  eapply (safe_bind _ _ _ _ _ any); [apply safe_if; [apply safe_publish|by apply safe_ret]|]. intros _ _.
  eapply (safe_bind _ _ _ _ _ any).
  { apply safe_modify; [|done]. intros e He. destruct He. by split. }
  intros _ _. eapply (safe_bind _ _ _ _ _ any).
  { apply safe_modify; [|done]. intros e He. unfold finish_first_scan.
    case_match; [by apply ok_hooks|done]. }
  intros _ _. eapply safe_bind; [by apply safe_upd_task|]. intros _ _.
  eapply (safe_bind _ _ _ _ _ any).
  { apply safe_modify; [|done]. intros e He. apply ok_hooks. destruct He. by split. }
  intros _ _. by apply safe_ret.
Qed.

(** ** Hot swap *)

Lemma blit_copies_ok z copies cur : Forall copy_ok copies -> program_ok z cur ->
  forall vm, program_ok z vm ->
  let '(vm', r) := blit_copies copies cur vm in program_ok z vm' /\ r <> Panic.
Proof.
  intros Hc Hcur. induction Hc as [|c copies (H1 & H2 & H3) _ IH]; intros vm Hvm; [done|].
  cbn [blit_copies]. unfold mbind, M_bind, blit_retain_from, update_field.
  destruct (Seg.blit_from (v_retain vm) (cp_dst_offset c) (v_retain cur) (cp_src_offset c) (cp_len c))
    as [x|x|] eqn:E.
  - apply IH. destruct Hvm as [Hok Hi Hq]. split; [|done..].
    destruct (blit_from_ok _ _ _ _ _ _ (ok_retain _ Hok) (ok_retain _ (pk_vm _ _ Hcur)) H2 H1 H3 E) as [Hx _].
    destruct Hok. by split.
  - done.
  - unfold Seg.blit_from in E. by case_match.
Qed.

Lemma blit_retain_into_ok z a cur :
  armed_ok z a -> opt_ok (program_ok z) cur ->
  let '(a', r) := blit_retain_into a cur in
  armed_ok z a' /\ r <> Panic /\ exists vm, a' = with_vm vm a.
Proof.
  intros [Ha1 Ha2 Ha3] Hcur. unfold blit_retain_into. destruct cur as [cur|].
  - cbn in Hcur. pose proof (blit_copies_ok z _ cur Ha3 Hcur _ Ha1) as Hb.
    destruct (blit_copies _ _ _) as [vm r]. destruct Hb as [Hb Hr].
    split; [by split|]. split; [by destruct r|]. by exists vm.
  - split; [by split|]. split; [done|]. exists (ap_vm a). by destruct a.
Qed.

Lemma cold_reset_ok z vm : program_ok z vm -> program_ok z (cold_reset_non_retain vm).
Proof.
  intros [Hok Hi Hq]. split; [|done|].
  - destruct Hok. split; cbn; first [done | by apply seg_fill_zero_ok | by apply slots_fill_ok
      | by apply store_ok_cold | lia | unfold u_range; lia].
  - rewrite <-Hq. unfold Slots.size, len. cbn. by rewrite length_map.
Qed.

Lemma safe_skip_due G z now highest i : (i < z_tasks z)%nat -> safe False G z (skip_due now highest i) any.
Proof.
  intros Hi e He. unfold skip_due.
  destruct (lookup_lt_is_Some_2 (en_tasks e) i) as [t Ht]; [by rewrite (eo_tasks _ _ He)|]. rewrite Ht.
  destruct (negb _ && _); [|done].
  eapply (safe_bind False G z _ _ any any); [by apply safe_plan_task|intros tp _|done].
  by apply (safe_upd_task False G z i).
Qed.

Lemma image_ok_memory z im x : image_ok z im -> image_ok z (set_pi_memory x im).
Proof. intros []. by split. Qed.

Lemma safe_commit G z a : (0 < z_tasks z)%nat -> armed_ok z a -> safe False G z (commit_install a) any.
Proof using All.
  intros Hz Ha. unfold commit_install.
  eapply safe_bind; [by apply safe_now_ms|]. intros now _.
  eapply safe_bind; [by apply safe_first|]. intros highest _.
  eapply (safe_bind _ _ _ _ _ (fun n => n = z_tasks z)); [apply safe_gets; apply eo_tasks|]. intros n ->.
  eapply safe_bind.
  { apply safe_each. intros i Hi%elem_of_seq. apply safe_skip_due. lia. }
  intros _ _. apply safe_modify; [|done]. intros e He.
  assert (Hm : forall e1, engine_ok z e1 -> engine_ok z (cold_init_memory e1)).
  { intros e1 He1. apply ok_image; [done|]. apply image_ok_memory. }
  assert (Hs : forall e1, engine_ok z e1 -> engine_ok z (apply_safe_reset_outputs e1)).
  { intros e1 He1. apply ok_image; [done|]. intros []. split; cbn; [done|by rewrite length_imap|done]. }
  destruct (decide _); [apply Hs|]; apply Hm; destruct He, Ha; split; try done.
  all: cbn -[schedule set_entries]; rewrite ?schedule_set_entries; try done.
  all: unfold set_entries; by rewrite length_imap.
Qed.

Lemma safe_install G z : (0 < z_tasks z)%nat -> safe False G z install any.
Proof using All.
  intros Hz. unfold install.
  eapply (safe_bind _ _ _ _ _ any); [apply safe_modify; [by intros; apply ok_hooks|done]|]. intros _ _.
  eapply safe_bind; [by apply safe_now_ns|]. intros t0 _.
  eapply (safe_bind _ _ _ _ _ (opt_ok (armed_ok z))); [apply safe_gets, eo_armed|]. intros armed Ha.
  destruct armed as [a|].
  2: { eapply (safe_bind _ _ _ _ _ any); [apply safe_modify; [by intros; apply ok_hooks|done]|].
       intros _ _. by apply safe_ret. }
  cbn in Ha. eapply (safe_bind _ _ _ _ _ any); [apply safe_modify; [by intros; apply ok_set_armed|done]|].
  intros _ _. eapply (safe_bind _ _ _ _ _ (opt_ok (program_ok z))); [apply safe_gets, eo_vm|]. intros cur Hcur.
  pose proof (blit_retain_into_ok z a cur Ha Hcur) as Hb. destruct (blit_retain_into a cur) as [a' r].
  destruct Hb as (Ha' & Hr & _).
  eapply safe_bind; [by apply safe_now_ns|]. intros t1 _.
  eapply (safe_bind _ _ _ _ _ any); [by apply safe_gets|]. intros inject _.
  eapply (safe_bind _ _ _ _ _ any); [by apply safe_gets|]. intros deadline _.
  destruct r as [u|x|]; [|eapply (safe_bind _ _ _ _ _ any)|done].
  - apply safe_if; eapply (safe_bind _ _ _ _ _ any); try (intros _ _; by apply safe_ret).
    + apply safe_modify; [|done]. intros e He. apply (ok_set_armed _ (Some a')) in He; [|done].
      destruct He. by split.
    + by apply safe_commit.
  - apply safe_modify; [|done]. intros e He. by apply ok_hooks, ok_hooks, ok_fault, ok_set_armed.
  - intros _ _. by apply safe_ret.
Qed.

Lemma safe_try_install G z : safe False G z try_epoch_install any.
Proof using All.
  apply safe_get_then. intros e0 He0.
  apply safe_if; [by apply safe_ret|]. apply safe_if; [by apply safe_ret|].
  eapply safe_bind; [by apply safe_now_ms|]. intros now _.
  eapply (safe_bind _ _ _ _ _ (fun due => forall i, due = Some i -> (i < z_tasks z)%nat)).
  { apply safe_gets. intros e He i. by eapply pick_due_in. }
  intros [due|] Hdue; [|by apply safe_ret]. specialize (Hdue due eq_refl).
  eapply safe_bind; [apply safe_first; lia|]. intros highest _.
  apply safe_if; [by apply safe_ret|]. apply safe_install. lia.
Qed.

Lemma safe_pick G z now : safe False G z (m_gets (pick_due now)) (fun due => forall i, due = Some i -> (i < z_tasks z)%nat).
Proof. apply safe_gets. intros e He i. by eapply pick_due_in. Qed.

Lemma safe_turn z : safe False (machine_panicked z) z due_turn any.
Proof.
  unfold due_turn. eapply safe_bind; [by apply safe_try_install|]. intros _ _.
  eapply safe_bind; [by apply safe_now_ms|]. intros now _.
  eapply safe_bind; [apply safe_pick|]. intros [due|] Hdue; [|by apply safe_ret].
  eapply safe_bind; [by apply safe_invoke, Hdue|]. intros d _. by apply safe_ret.
Qed.

Lemma safe_step z : safe False (machine_panicked z) z step any.
Proof using All.
  unfold step. eapply (safe_bind _ _ _ _ _ any); [apply safe_modify; [apply ok_boundary|done]|]. intros _ _.
  eapply safe_bind; [apply safe_try_install|]. intros _ _.
  eapply safe_bind; [by apply safe_now_ms|]. intros now _.
  eapply safe_bind; [apply safe_pick|]. intros [due|] Hdue.
  - eapply safe_bind; [by apply safe_invoke, Hdue|]. intros d _. by apply safe_ret.
  - eapply (safe_bind _ _ _ _ _ any); [by apply safe_gets|]. intros n _. by apply safe_ret.
Qed.
End Clocked.

(** ** What an invocation leaves alone *)

(** The parts of the engine that only requests, boundaries and swaps change. *)
Record stable (e e' : ScanEngine D) : Prop := {
  sb_plan : en_plan e' = en_plan e;
  sb_armed : en_armed e' = en_armed e;
  sb_id : en_current_id e' = en_current_id e;
  sb_hash : en_current_hash e' = en_current_hash e;
  sb_hold : en_bumpless_hold e' = en_bumpless_hold e;
  sb_deferred : en_activate_deferred_count e' = en_activate_deferred_count e;
  sb_order : en_schedule_order e' = en_schedule_order e;
  sb_min : en_min_duration_us e' = en_min_duration_us e;
  sb_install_min : en_install_min_duration_us e' = en_install_min_duration_us e;
  sb_phase : Hooks.phase (en_hooks e') = Hooks.phase (en_hooks e);
  sb_request : Hooks.activate_requested (en_hooks e') = Hooks.activate_requested (en_hooks e) }.

#[export] Instance stable_pre : PreOrder stable.
Proof. split; [by split|]. intros x y z [] []. split; etrans; eassumption. Qed.

Section Steady.
Context (R : ScanEngine D -> ScanEngine D -> Prop) {HR : PreOrder R}.

(** [m] moves the engine along [R], whatever its outcome. *)
Definition steady {A} (m : M (ScanEngine D) ScanError A) : Prop := forall e, R e (m e).1.

Lemma steady_bind {A B} (m : M (ScanEngine D) ScanError A) (k : A -> M (ScanEngine D) ScanError B) :
  steady m -> (forall a, steady (k a)) -> steady (m ≫= k).
Proof using HR.
  intros Hm Hk e. specialize (Hm e). unfold mbind, M_bind.
  destruct (m e) as [e1 [a|x|]]; [|done|done]. etrans; [exact Hm|apply Hk].
Qed.

Lemma steady_ret {A} (a : A) : steady (mret a).
Proof using HR. by intros e. Qed.

Lemma steady_gets {A} (f : ScanEngine D -> A) : steady (m_gets f).
Proof using HR. by intros e. Qed.

Lemma steady_modify f : (forall e, R e (f e)) -> steady (m_modify f).
Proof. intros Hf e. apply Hf. Qed.

Lemma steady_if {A} (b : bool) (m1 m2 : M (ScanEngine D) ScanError A) :
  steady m1 -> steady m2 -> steady (if b then m1 else m2).
Proof. by destruct b. Qed.

Lemma steady_each {A} (l : list A) (body : A -> M (ScanEngine D) ScanError unit) :
  (forall x, steady (body x)) -> steady (m_each l body).
Proof using HR.
  intros Hb. induction l as [|x l IH]; cbn [m_each]; [apply steady_ret|]. by apply steady_bind.
Qed.

Lemma steady_plan_task i : steady (plan_task i).
Proof using HR. by intros e. Qed.

Lemma steady_first : steady first_in_schedule.
Proof using HR. by intros e. Qed.
End Steady.

Lemma steady_now : steady stable now_ns.
Proof. by intros e. Qed.

Lemma steady_upd_task i f : steady stable (upd_task i f).
Proof. intros e. unfold upd_task. by case_match. Qed.

Lemma stable_fault e : stable e (enter_fault e).
Proof. by split. Qed.

Lemma stable_fault_if b e : stable e (fault_if b e).
Proof. unfold fault_if. by case_match. Qed.

Lemma stable_io f e : stable e (upd_io f e).
Proof. by split. Qed.

Lemma stable_field_mode e : stable e (publish_field_mode e).
Proof. by split. Qed.

Lemma stable_remote e : stable e (sample_remote e).
Proof. unfold sample_remote. by case_match. Qed.

Lemma stable_driver e : stable e (sample_driver e).
Proof.
  unfold sample_driver. destruct (poll_inputs _ _) as [[driver scratch] r].
  destruct r; [by split|..]; (etrans; [|apply stable_fault_if]); by split.
Qed.

Lemma stable_quality e : stable e (sample_quality e).
Proof. unfold sample_quality. etrans; [apply stable_io|apply stable_fault_if]. Qed.

Lemma stable_program e : stable e (sample_program e).
Proof. by split. Qed.

Lemma stable_sample e : stable e (sample_inputs e).
Proof.
  unfold sample_inputs. etrans; [|apply stable_program]. etrans; [|apply stable_quality].
  etrans; [|apply stable_driver]. etrans; [|apply stable_remote]. apply stable_field_mode.
Qed.

Lemma stable_compute ran e : stable e (compute_outputs ran e).
Proof. unfold compute_outputs. by destruct (fill_output_module_state _ _). Qed.

Lemma stable_apply ran e : stable e (apply_outputs ran e).
Proof.
  unfold apply_outputs. set (e1 := compute_outputs _ _).
  assert (stable e e1) by (etrans; [apply stable_field_mode|apply stable_compute]).
  destruct (IoImage.apply_outputs _ _) as [driver []]; (etrans; [eassumption|]).
  - apply stable_io.
  - etrans; [|apply stable_fault_if]. etrans; [apply stable_io|apply stable_io].
  - etrans; [|apply stable_fault_if]. etrans; [apply stable_io|apply stable_io].
Qed.

Lemma steady_logic task now : steady stable (logic_or_fault task now).
Proof.
  assert (Hrun : steady stable (run_logic task now)).
  { unfold run_logic. apply (steady_bind stable); [apply (steady_gets stable)|]. intros [vm|]; [|by intros e].
    apply (steady_bind stable); [apply (steady_gets stable)|]. intros first.
    apply (steady_bind stable); [by apply steady_modify|]. intros _.
    apply (steady_bind stable); [apply (steady_plan_task stable)|]. intros tp.
    destruct (run_entry _ _ _) as [[vm' r]|]; [|by intros e].
    apply (steady_bind stable); [by apply steady_modify|]. intros _.
    apply (steady_bind stable); [by intros e|]. intros _.
    apply (steady_bind stable); [apply steady_if; [by apply steady_modify|apply (steady_ret stable)]|]. intros _.
    by apply steady_modify. }
  intros e. specialize (Hrun e). unfold logic_or_fault.
  destruct (run_logic task now e) as [e' [a|x|]]; [done| |done].
  etrans; [exact Hrun|apply stable_fault].
Qed.

Lemma steady_note task d period : steady stable (note_duration task d period).
Proof.
  unfold note_duration. apply (steady_bind stable); [intros e; by destruct (Wd.note _ _ _ _)|]. intros trip.
  apply (steady_bind stable); [apply steady_if; [|apply (steady_ret stable)]|intros _; apply steady_if;
    [by apply steady_modify|apply (steady_ret stable)]].
  apply (steady_bind stable); [apply steady_upd_task|]. intros _. by apply steady_modify.
Qed.

Lemma steady_publish now : steady stable (publish_telemetry now).
Proof.
  unfold publish_telemetry. apply (steady_bind stable); [by intros e|]. intros e.
  apply (steady_bind stable); [apply (steady_each stable)|intros _; apply (steady_each stable)]; intros [i slot] e';
    unfold publish_input, publish_output; repeat case_match; by split.
Qed.

Lemma steady_invoke task : steady stable (invoke task).
Proof.
  unfold invoke.
  apply (steady_bind stable); [by apply steady_modify|]. intros _.
  apply (steady_bind stable); [apply steady_now|]. intros t0.
  apply (steady_bind stable); [apply (steady_plan_task stable)|]. intros tp.
  apply (steady_bind stable); [apply steady_modify, stable_sample|]. intros _.
  apply (steady_bind stable); [apply (steady_gets stable)|]. intros m.
  apply (steady_bind stable); [apply steady_if; [apply steady_logic|apply (steady_ret stable)]|]. intros ran.
  apply (steady_bind stable); [apply steady_now|]. intros t1.
  apply (steady_bind stable); [apply (steady_gets stable)|]. intros inject.
  apply (steady_bind stable); [apply steady_if; [apply steady_note|apply (steady_ret stable)]|]. intros _.
  apply (steady_bind stable); [apply steady_upd_task|]. intros _.
  apply (steady_bind stable); [apply steady_modify, stable_apply|]. intros _.
  apply (steady_bind stable); [apply steady_if; [by apply steady_modify|apply (steady_ret stable)]|]. intros _.
  apply (steady_bind stable); [apply (steady_gets stable)|]. intros enabled.
  apply (steady_bind stable); [apply steady_if; [apply steady_publish|apply (steady_ret stable)]|]. intros _.
  apply (steady_bind stable); [by apply steady_modify|]. intros _.
  apply (steady_bind stable); [apply steady_modify; intros e; unfold finish_first_scan; by case_match|]. intros _.
  apply (steady_bind stable); [apply steady_upd_task|]. intros _.
  apply (steady_bind stable); [by apply steady_modify|]. intros _. apply (steady_ret stable).
Qed.

(** ** What an operation settles *)

(** Every successful outcome of [m] satisfies [Q]. *)
Definition ends {A} (m : M (ScanEngine D) ScanError A) (Q : ScanEngine D -> Prop) : Prop :=
  forall e e' a, m e = (e', Ok a) -> Q e'.

Lemma ends_bind {A B} (m : M (ScanEngine D) ScanError A) (k : A -> M (ScanEngine D) ScanError B) Q :
  (forall a, ends (k a) Q) -> ends (m ≫= k) Q.
Proof. intros Hk e e' b (a & e1 & _ & Hb)%M_bind_Ok. by eapply Hk. Qed.

Lemma ends_modify_ret {A} f (a : A) (Q : ScanEngine D -> Prop) :
  (forall e, Q (f e)) -> ends (m_modify f ;; mret a) Q.
Proof. intros Hf e e' b [= <- <-]. apply Hf. Qed.

Lemma invoke_quiet task : ends (invoke task) (fun e => Hooks.is_quiet (en_hooks e) = true).
Proof. unfold invoke. repeat first [by apply ends_modify_ret|apply ends_bind; intros ?]. Qed.

(** Whether an invocation is in progress. *)
Definition same_quiet (e e' : ScanEngine D) : Prop :=
  Hooks.is_quiet (en_hooks e') = Hooks.is_quiet (en_hooks e).

#[export] Instance same_quiet_pre : PreOrder same_quiet.
Proof. split; [done|]. intros x y z H1 H2. by etrans. Qed.

Lemma steady_upd_task_quiet i f : steady same_quiet (upd_task i f).
Proof. intros e. unfold upd_task. by case_match. Qed.

Lemma steady_now_ms_quiet : steady same_quiet now_ms.
Proof. by intros e. Qed.

Lemma commit_quiet a : steady same_quiet (commit_install a).
Proof.
  unfold commit_install. apply steady_bind; [apply _|apply steady_now_ms_quiet|]. intros now.
  apply steady_bind; [apply _|apply (steady_first same_quiet)|]. intros highest.
  apply steady_bind; [apply _|apply (steady_gets same_quiet)|]. intros n.
  apply steady_bind; [apply _|apply (steady_each same_quiet)|].
  - intros i e. unfold skip_due. case_match; [|done]. destruct (negb _ && _); [|done].
    apply (steady_bind same_quiet); [apply (steady_plan_task same_quiet)|]. intros tp.
    apply steady_upd_task_quiet.
  - intros _. apply steady_modify. intros e. by destruct (decide _).
Qed.

Lemma install_quiet : steady same_quiet install.
Proof.
  unfold install. apply (steady_bind same_quiet); [by apply steady_modify|]. intros _.
  apply (steady_bind same_quiet); [by intros e|]. intros t0.
  apply (steady_bind same_quiet); [apply (steady_gets same_quiet)|]. intros [a|].
  2: { apply (steady_bind same_quiet); [by apply steady_modify|]. intros _. apply (steady_ret same_quiet). }
  apply (steady_bind same_quiet); [by apply steady_modify|]. intros _.
  apply (steady_bind same_quiet); [apply (steady_gets same_quiet)|]. intros vm.
  destruct (blit_retain_into a vm) as [a' r].
  apply (steady_bind same_quiet); [by intros e|]. intros t1.
  do 2 (apply (steady_bind same_quiet); [apply (steady_gets same_quiet)|]; intros ?).
  destruct r; [apply steady_if|..|by intros e];
    (apply (steady_bind same_quiet); [|intros _; apply (steady_ret same_quiet)]);
    [by apply steady_modify|apply commit_quiet|by apply steady_modify].
Qed.

Definition not_swapping e : Prop := Hooks.phase (en_hooks (D:=D) e) <> Swapping.

Lemma ends_if {A} (b : bool) (m1 m2 : M (ScanEngine D) ScanError A) Q : ends m1 Q -> ends m2 Q -> ends (if b then m1 else m2) Q.
Proof. by destruct b. Qed.

Lemma install_phase : ends install not_swapping.
Proof.
  unfold install. apply ends_bind; intros _. apply ends_bind; intros t0.
  apply ends_bind; intros [a|].
  2: { by apply ends_modify_ret. }
  do 2 (apply ends_bind; intros ?). destruct (blit_retain_into a _) as [a' r].
  do 3 (apply ends_bind; intros ?). destruct r; [apply ends_if|..|done].
  - by apply ends_modify_ret.
  - intros e e' b (u & e1 & Hc & [= <- _])%M_bind_Ok. revert e e1 u Hc.
    change (ends (commit_install a') not_swapping). unfold commit_install.
    do 4 (apply ends_bind; intros ?). intros e e1 c [= <- _]. unfold not_swapping.
    by destruct (decide _).
  - by apply ends_modify_ret.
Qed.

(** An attempt to install leaves the engine settled. *)
Lemma try_install_settled e e' o :
  settled e -> try_epoch_install e = (e', Ok o) -> settled e'.
Proof.
  intros [Hq Hp] Ht. split.
  - enough (steady same_quiet try_epoch_install) as Hs by
      (specialize (Hs e); rewrite Ht in Hs; unfold same_quiet in Hs; cbn [fst] in Hs; by rewrite Hs).
    apply (steady_bind same_quiet); [by intros e0|]. intros e0.
    apply steady_if; [apply (steady_ret same_quiet)|]. apply steady_if; [apply (steady_ret same_quiet)|].
    apply (steady_bind same_quiet); [apply steady_now_ms_quiet|]. intros now.
    apply (steady_bind same_quiet); [apply (steady_gets same_quiet)|]. intros [due|]; [|apply (steady_ret same_quiet)].
    apply (steady_bind same_quiet); [apply (steady_first same_quiet)|]. intros highest.
    apply steady_if; [apply (steady_ret same_quiet)|apply install_quiet].
  - unfold try_epoch_install in Ht. apply M_bind_Ok in Ht as (e0 & e1 & [= -> ->] & Ht).
    destruct (negb _ || _); [by injection Ht as <- _|]. destruct (negb _); [by injection Ht as <- _|].
    apply M_bind_Ok in Ht as (now & e2 & Hn & Ht). injection Hn as <- <-.
    apply M_bind_Ok in Ht as (due & e3 & [= <- <-] & Ht).
    destruct (pick_due _ _) as [due|]; [|by injection Ht as <- _].
    apply M_bind_Ok in Ht as (highest & e4 & Hf & Ht). unfold first_in_schedule in Hf. simplify_eq.
    destruct (negb _); [by injection Ht as <- _|]. by eapply install_phase.
Qed.

Lemma invoke_settled task e e' d : settled e -> invoke task e = (e', Ok d) -> settled e'.
Proof.
  intros [Hq Hp] Hi. split; [by eapply invoke_quiet|].
  pose proof (sb_phase _ _ (steady_invoke task e)) as Hph. rewrite Hi in Hph. cbn [fst] in Hph. by rewrite Hph.
Qed.

Lemma boundary_settled e : settled e -> settled (apply_mode_boundary e).
Proof.
  intros [Hq Hp]. unfold apply_mode_boundary. case_decide; [done|].
  destruct (Cell.apply_pending _) as [modes [[m []]|x|]]; by split.
Qed.

(** The invocation of the due task, if there is one. *)
Lemma due_settled {A} (k : option nat -> M (ScanEngine D) ScanError A) e e' a : settled e ->
  (forall e1 e2 b, settled e1 -> k None e1 = (e2, Ok b) -> settled e2) ->
  (forall task e1 e2 b, settled e1 -> k (Some task) e1 = (e2, Ok b) -> settled e2) ->
  (now ← now_ms; due ← m_gets (pick_due now); k due) e = (e', Ok a) -> settled e'.
Proof.
  intros [Hq Hp] Hn Hk Ht. apply M_bind_Ok in Ht as (now & e2 & Hnow & Ht). injection Hnow as <- <-.
  apply M_bind_Ok in Ht as (due & e3 & [= <- <-] & Ht). assert (He2 : settled (set_en_clock (S (en_clock e)) e)) by by split.
  destruct (pick_due _ _) as [task|]; [by eapply Hk|by eapply Hn].
Qed.

Lemma turn_settled e e' o : settled e -> due_turn e = (e', Ok o) -> settled e'.
Proof.
  intros Hset Ht. unfold due_turn in Ht. apply M_bind_Ok in Ht as (i & e1 & Hi & Ht). apply try_install_settled in Hi; [|done].
  eapply due_settled; [exact Hi|..|exact Ht]; cbv beta.
  - by intros ? ? ? ? [= <- _].
  - intros task x y b Hx (d & e3 & Hv & [= <- _])%M_bind_Ok. by eapply invoke_settled.
Qed.

Lemma step_settled e e' o : settled e -> step e = (e', Ok o) -> settled e'.
Proof.
  intros Hset Ht. unfold step in Ht. apply M_bind_Ok in Ht as (u & e0 & [= <- <-] & Ht).
  apply M_bind_Ok in Ht as (i & e1 & Hi & Ht). eapply try_install_settled in Hi; [|by apply boundary_settled].
  eapply due_settled; [exact Hi|..|exact Ht]; cbv beta.
  - intros x y b Hx (n & e3 & [= <- _] & [= <- _])%M_bind_Ok. done.
  - intros task x y b Hx (d & e3 & Hv & [= <- _])%M_bind_Ok. by eapply invoke_settled.
Qed.

(** ** Properties *)

(** A new engine is well-formed and settled. *)
Lemma engine_new_ok (plan : ScanPlan) (io : ScanIo D) (vm : option Vm) (e : ScanEngine D) :
  driver_ok (io_driver io) -> Forall (fun s => plc_ok (ts_value s)) (pi_inputs (io_image io)) ->
  opt_ok vm_ok vm -> engine_new plan io vm = Ok e ->
  engine_ok (mkSizes (length (sp_tasks plan)) (length (pi_inputs (io_image io)))
               (length (pi_outputs (io_image io)))) e /\ settled e.
Proof.
  set (z := mkSizes _ _ _). intros Hd Hi Hvm He.
  assert (Hb : opt_ok (program_ok z) vm /\ engine_build plan io vm = Ok e).
  { destruct vm as [vm|]; cbn in *; [|done]. destruct (image_matches vm (io_image io)) eqn:Em; [|done].
    apply andb_true_iff in Em as [H1%Z.eqb_eq H2%Z.eqb_eq]. split; [by split|done]. }
  destruct Hb as [Hb Hbuild]. unfold engine_build in Hbuild. pose proof (start_law _ Hd) as Hs.
  destruct (start (io_driver io)) as [driver r].
  destruct r as [u|x|]; [|done..]. apply Ok_inj in Hbuild as <-.
  split; [|by split]. split; cbn -[schedule]; rewrite ?length_replicate; try done.
  by apply Forall_replicate.
Qed.

(** C20: the scheduler runs the most urgent due task: the task picked at [now] is
    due, and it runs before every other due task (a higher priority, or the same
    priority and a name that does not come after); none is picked exactly when
    no task is due. *)
Theorem pick_due_most_urgent (z : Sizes) (e : ScanEngine D) (now : Z) (He : engine_ok z e) :
  (forall i, pick_due now e = Some i ->
    (exists t, en_tasks e !! i = Some t /\ rt_next_due_ms t <= now) /\
    forall j t, en_tasks e !! j = Some t -> rt_next_due_ms t <= now ->
      i = j \/ runs_before (task_at (sp_tasks (en_plan e)) i) (task_at (sp_tasks (en_plan e)) j)) /\
  (pick_due now e = None -> forall j t, en_tasks e !! j = Some t -> now < rt_next_due_ms t).
Proof.
  unfold pick_due. rewrite (eo_order z e He).
  pose proof (find_due_spec (sp_tasks (en_plan e)) (en_tasks e) now) as Hf.
  specialize (Hf ltac:(etrans; [by apply (eo_tasks z)|symmetry; by apply (eo_plan z)])).
  destruct (find _ _) as [i|]; (split; [|done]); [|done]. by intros j [= <-].
Qed.
End Inv.

(** ** A concrete engine *)

Definition demo_tasks : list TaskPlan :=
  [mkTaskPlan (bstr "slow") 500 (bstr "main") 1; mkTaskPlan (bstr "fast") 10 (bstr "main") 5].

Definition demo_plan : ScanPlan := mkScanPlan demo_tasks 2 PolicySafe false true 500 20 16.

Definition demo_io : ScanIo SimDriver :=
  mkIo (with_sizes 2 2 1) (SimDrv.new 2 2) false ∅ Good ForceSafe None.

(** The clock advances 1 ms at every reading. *)
Definition demo_env : ScanEnv :=
  {| now_ns_at n := Z.min (Z.of_nat n * 1000000) (2 ^ 64 - 1); contended_at _ := false;
     received_at _ := 0%nat; remote_at _ := ([], []) |}.

Definition demo_vm : Vm := idle_vm [] 10.

Lemma demo_clock n : u_range 64 (@now_ns_at demo_env n).
Proof. unfold u_range. cbn [now_ns_at demo_env]. lia. Qed.

Lemma demo_vm_ok : vm_ok demo_vm.
Proof. apply idle_vm_ok; [constructor|]. unfold u_range. lia. Qed.

Lemma demo_engine_ok e :
  engine_new demo_plan demo_io (Some demo_vm) = Ok e -> engine_ok (mkSizes 2 2 2) e /\ settled e.
Proof.
  apply (engine_new_ok demo_plan demo_io (Some demo_vm)); [apply sim_new_ok| |apply demo_vm_ok].
  by apply Forall_replicate.
Qed.

Lemma pick_due_most_urgent_witness :
  exists e, engine_new demo_plan demo_io (Some demo_vm) = Ok e /\ pick_due 0 e = Some 1%nat /\
    forall j t, en_tasks e !! j = Some t -> rt_next_due_ms t <= 0 ->
      1%nat = j \/ runs_before (task_at demo_tasks 1) (task_at demo_tasks j).
Proof.
  eexists. split; [reflexivity|]. split; [reflexivity|].
  eapply (pick_due_most_urgent (mkSizes 2 2 2)); [by apply demo_engine_ok|reflexivity].
Defined.
