(* ===== verification/ScanOutputs.v ===== *)
(** * What reaches the field

    The output phase of src/crates/plc-scan/src/engine.rs: which image an
    invocation hands to the driver, and when an invocation faults. *)
From S2P Require Import Prelude Float32 Config IrTypes PlcTypes IoImage FbDispatch VmValue VmMemory VmExec.
From S2P Require Import VmInv ScanMode ScanParts ScanState ScanEngine ScanSchedule ScanInv.

Section Outputs.
Context {D : Type} `{!IoDriver D, !NanRule, !ScanEnv}.
Implicit Types (e : ScanEngine D).

(** ** The output phase *)

(** What forces every output to its safe state: FAULT, STOP under the safe
    policy, and no logic invocation completed yet. *)
Definition safe_required e : Prop :=
  mode e = Fault \/
  (mode e = Stop /\ sp_stop_output_policy (en_plan e) = PolicySafe) \/
  en_first_run_complete e = false.

(** Every output slot at its safe state. *)
Definition safe_image e : OutputImage :=
  let im := io_image (en_io e) in mkOutputs (imap (fun i _ => safe_of im i) (pi_outputs im)) true.

(** The quality and the policy of the module that owns slot [i]: what the driver [drv]
    reports of the slot when it keeps such a table, else the aggregate of the image. *)
Definition slot_module (drv : D) e (i : nat) : Quality * BadQualityPolicy :=
  let io := en_io e in
  let whole := (io_module_quality io, io_on_bad_quality io) in
  match fill_output_module_state drv (replicate (length (pi_outputs (io_image io))) (mkModule whole.1 whole.2)) with
  | (true, states) => match states !! i with Some s => (om_quality s, om_on_bad s) | None => whole end
  | (false, _) => whole
  end.

(** The value of slot [i] outside the safe states: a force wins, then a bad
    module's safe state, then what the program has written. *)
Definition field_value e (i : nat) (slot : TypedSlot) (q : Quality) (policy : BadQualityPolicy) : PlcValue :=
  match io_forces (en_io e) !! u32_of i with
  | Some v => v
  | None =>
      if decide (q = Bad /\ policy = ForceSafe) then safe_of (io_image (en_io e)) i
      else if ts_written slot then ts_value slot
      else safe_of (io_image (en_io e)) i
  end.

Lemma force_safe_spec ran e :
  global_force_safe ran e = true <->
  mode e = Fault \/ (mode e = Stop /\ sp_stop_output_policy (en_plan e) = PolicySafe) \/
  ran || en_first_run_complete e = false.
Proof.
  unfold global_force_safe. rewrite !orb_true_iff, !andb_true_iff, !bool_decide_eq_true, !negb_true_iff.
  rewrite orb_false_iff. tauto.
Qed.

Lemma effective_safe st e i slot : effective_output true st e i slot = safe_of (io_image (en_io e)) i.
Proof. done. Qed.

Lemma effective_field st e i slot :
  mode e <> Fault ->
  effective_output false st e i slot =
  field_value e i slot
    (match st with Some s => om_quality s | None => io_module_quality (en_io e) end)
    (match st with Some s => om_on_bad s | None => io_on_bad_quality (en_io e) end).
Proof.
  intros Hm. unfold effective_output, resolve_effective_output, field_value.
  cbn [ef_mode ef_global_force_safe ef_force ef_module_quality ef_on_bad_quality ef_program_written
       ef_program_value ef_safe_state orb].
  rewrite bool_decide_eq_false_2 by done. unfold Force.get, u32_of.
  destruct (io_forces (en_io e) !! wrap_u 32 (Z.of_nat i)); [done|].
  destruct st as [[[] []]|]; cbn; try by destruct (ts_written slot).
  destruct (io_module_quality (en_io e)), (io_on_bad_quality (en_io e)); cbn; by destruct (ts_written slot).
Qed.

(** The image computed in the output phase. *)
Lemma compute_spec ran e :
  let e1 := compute_outputs ran e in
  en_io e1 = en_io e /\ en_modes e1 = en_modes e /\ en_plan e1 = en_plan e /\
  en_first_run_complete e1 = en_first_run_complete e /\
  (global_force_safe ran e = true -> en_output_image e1 = safe_image e) /\
  (global_force_safe ran e = false -> oi_force_safe (en_output_image e1) = false /\
    forall i slot, pi_outputs (io_image (en_io e)) !! i = Some slot ->
      let '(q, policy) := slot_module (io_driver (en_io e)) e i in
      oi_values (en_output_image e1) !! i = Some (field_value e i slot q policy)).
Proof.
  unfold compute_outputs, slot_module. set (states0 := map _ _).
  assert (Hst : states0 = replicate (length (pi_outputs (io_image (en_io e))))
    (mkModule (io_module_quality (en_io e)) (io_on_bad_quality (en_io e)))).
  { unfold states0, resize. set (n := length (pi_outputs (io_image (en_io e)))). generalize (en_output_slot_state e). intros l.
    assert (Hn : length (take n l ++ replicate (n - length l) (mkModule Good ForceSafe)) = n)
      by (rewrite length_app, length_take, length_replicate; lia).
    revert Hn. generalize (take n l ++ replicate (n - length l) (mkModule Good ForceSafe)). intros k <-. clear.
    induction k as [|x k IH]; [done|]. cbn. by rewrite <-IH. }
  rewrite Hst. cbn [fst snd]. clear states0 Hst.
  destruct (fill_output_module_state (io_driver (en_io e)) _) as [per_slot states].
  split; [done|]. split; [done|]. split; [done|]. split; [done|]. cbn. split.
  - intros Hg. by rewrite Hg.
  - intros Hg. split; [done|]. intros i slot Hs. rewrite list_lookup_imap, Hs. cbn [fmap option_fmap option_map].
    assert (Hm : mode e <> Fault).
    { intros Hm. enough (global_force_safe ran e = true) by congruence. apply force_safe_spec. auto. }
    rewrite Hg, effective_field by done. destruct per_slot; [|done]. by destruct (states !! i) as [[q pol]|].
Qed.

(** ** The stages of an invocation *)

(** What the end of an invocation leaves alone: everything the field sees. *)
Record same_field e e' : Prop := {
  sf_io : en_io e' = en_io e;
  sf_modes : en_modes e' = en_modes e;
  sf_plan : en_plan e' = en_plan e;
  sf_image : en_output_image e' = en_output_image e;
  sf_states : en_output_slot_state e' = en_output_slot_state e;
  sf_first : en_first_run_complete e' = en_first_run_complete e }.

#[export] Instance same_field_pre : PreOrder same_field.
Proof. split; [by split|]. intros x y z [] []. split; etrans; eassumption. Qed.

Lemma publish_field now : steady same_field (publish_telemetry now).
Proof.
  unfold publish_telemetry. apply (steady_bind same_field); [by intros e|]. intros e.
  apply (steady_bind same_field); [apply (steady_each same_field)|intros _; apply (steady_each same_field)];
    intros [i slot] e'; unfold publish_input, publish_output; repeat case_match; by split.
Qed.

Lemma upd_task_field i f : steady same_field (upd_task i f).
Proof. intros e. unfold upd_task. by case_match. Qed.

(** The task table. *)
Definition same_tasks e e' : Prop := en_tasks e' = en_tasks e.

#[export] Instance same_tasks_pre : PreOrder same_tasks.
Proof. split; [done|]. intros x y z H1 H2. unfold same_tasks in *. by etrans. Qed.

Lemma publish_tasks now : steady same_tasks (publish_telemetry now).
Proof.
  unfold publish_telemetry. apply (steady_bind same_tasks); [by intros e|]. intros e.
  apply (steady_bind same_tasks); [apply (steady_each same_tasks)|intros _; apply (steady_each same_tasks)];
    intros [i slot] e'; unfold publish_input, publish_output; repeat case_match; done.
Qed.

Lemma apply_outputs_tasks ran e : en_tasks (apply_outputs ran e) = en_tasks e.
Proof.
  unfold apply_outputs, compute_outputs, fault_if. destruct (fill_output_module_state _ _).
  destruct (IoImage.apply_outputs _ _) as [driver []]; cbn; by repeat case_match.
Qed.

(** A faulted engine stays faulted. *)
Definition faulted_after e e' : Prop := mode e = Fault -> mode e' = Fault.

#[export] Instance faulted_after_pre : PreOrder faulted_after.
Proof. split; [by intros e Hm|]. intros x y z H1 H2 Hm. by apply H2, H1. Qed.

(** The engine an invocation samples its inputs into. *)
Definition sampled e : ScanEngine D :=
  sample_inputs (set_en_clock (S (en_clock e)) (upd_hooks (Hooks.set_in_invocation true) e)).

Lemma bind_if_ret {A} (b : bool) (m : M (ScanEngine D) ScanError A) a0 e e' a :
  (if b then m else mret a0) e = (e', Ok a) -> if b then m e = (e', Ok a) else e' = e /\ a = a0.
Proof. destruct b; [done|]. by intros [= <- <-]. Qed.

(** An invocation up to its output phase, and what is left after it. *)
Lemma invoke_stages task e e' d :
  invoke task e = (e', Ok d) ->
  exists tp ran e2 e3 e4,
    sp_tasks (en_plan e) !! task = Some tp /\
    (if Mode.executes_logic (mode (sampled e)) then
       logic_or_fault task (ms_of_ns (now_ns_at (en_clock e))) (sampled e) = (e2, Ok ran)
     else e2 = sampled e /\ ran = false) /\
    (if Mode.executes_logic (mode (sampled e)) then
       note_duration task d (tp_period_ms tp) (set_en_clock (S (en_clock e2)) e2) = (e3, Ok tt)
     else e3 = set_en_clock (S (en_clock e2)) e2) /\
    upd_task task (record_duration d) e3 = (e4, Ok tt) /\
    same_field (let e5 := apply_outputs ran e4 in if ran : bool then set_en_first_run_complete true e5 else e5) e' /\
    exists t, en_tasks e4 !! task = Some t /\
      en_tasks e' = <[task := set_rt_next_due_ms (sat_add_u 64 (rt_next_due_ms t) (tp_period_ms tp)) t]> (en_tasks e4).
Proof.
  unfold invoke. intros Hi. apply M_bind_Ok in Hi as (? & ? & [= <- <-] & Hi).
  apply M_bind_Ok in Hi as (? & ? & [= <- <-] & Hi).
  apply M_bind_Ok in Hi as (tp & ? & Htp & Hi). unfold plan_task, index in Htp.
  injection Htp as <- Htp. cbn in Htp.
  destruct (sp_tasks (en_plan e) !! task) as [tp'|] eqn:Htask; [|done]. apply Ok_inj in Htp as ->.
  apply M_bind_Ok in Hi as (? & ? & [= <- <-] & Hi).
  apply M_bind_Ok in Hi as (? & ? & [= <- <-] & Hi).
  apply M_bind_Ok in Hi as (ran & e2 & Hl%bind_if_ret & Hi).
  apply M_bind_Ok in Hi as (t1 & ? & [= <- <-] & Hi).
  apply M_bind_Ok in Hi as (inject & ? & [= <- <-] & Hi).
  apply M_bind_Ok in Hi as ([] & e3 & Hn%bind_if_ret & Hi).
  apply M_bind_Ok in Hi as ([] & e4 & Hr & Hi).
  apply M_bind_Ok in Hi as (? & ? & [= <- <-] & Hi).
  apply M_bind_Ok in Hi as (? & e5 & Hf & Hi).
  apply M_bind_Ok in Hi as (? & ? & [= <- <-] & Hi).
  apply M_bind_Ok in Hi as ([] & e6 & Hp%bind_if_ret & Hi).
  apply M_bind_Ok in Hi as (? & ? & [= <- <-] & Hi).
  apply M_bind_Ok in Hi as (? & ? & [= <- <-] & Hi).
  apply M_bind_Ok in Hi as ([] & e7 & Hu & Hi).
  apply M_bind_Ok in Hi as (? & ? & [= <- <-] & Hi). injection Hi as <- <-.
  exists tp, ran, e2, e3, e4. split; [done|]. split; [exact Hl|]. split; [|split; [exact Hr|]].
  { revert Hn. unfold sampled. destruct (Mode.executes_logic _); [done|by intros [-> _]]. }
  set (e8 := finish_first_scan task ran (set_en_hw_wd (en_hw_wd e6 + 1) e6)) in *.
  assert (H68 : same_field e6 e8 /\ same_tasks e6 e8)
    by (subst e8; unfold finish_first_scan; destruct (ran && _); by split).
  assert (H56 : same_field e5 e6 /\ same_tasks e5 e6).
  { destruct (sp_telemetry_enabled _); [|by destruct Hp as [-> _]].
    pose proof (publish_field (ms_of_ns (now_ns_at (en_clock e))) e5) as Hf'.
    pose proof (publish_tasks (ms_of_ns (now_ns_at (en_clock e))) e5) as Hk. by rewrite Hp in Hf', Hk. }
  assert (H45 : same_tasks e4 e5).
  { pose proof (apply_outputs_tasks ran e4) as Ha. unfold same_tasks. rewrite <-Ha.
    by destruct ran; injection Hf as <-. }
  split.
  - pose proof (upd_task_field task (fun t => set_rt_next_due_ms (sat_add_u 64 (rt_next_due_ms t)
      (tp_period_ms tp)) t) e8) as H87. rewrite Hu in H87.
    etrans; [|etrans; [apply H56|etrans; [apply H68|etrans; [exact H87|by split]]]].
    destruct ran; injection Hf as <-; by split.
  - unfold upd_task in Hu. assert (Ht : en_tasks e8 = en_tasks e4).
    { destruct H68 as [_ ->], H56 as [_ ->]. exact H45. }
    rewrite Ht in Hu. destruct (en_tasks e4 !! task) as [t|]; [|done]. injection Hu as <-. by exists t.
Qed.

(** ** The driver's calls *)

(** The driver after the one poll of an invocation. *)
Definition polled e : D := (poll_inputs (io_driver (en_io e)) (en_input_scratch e)).1.1.

Definition same_driver e e' : Prop := io_driver (en_io e') = io_driver (en_io e).

#[export] Instance same_driver_pre : PreOrder same_driver.
Proof. split; [done|]. intros x y z H1 H2. unfold same_driver in *. by etrans. Qed.

Lemma fault_if_driver b e : same_driver e (fault_if b e).
Proof. unfold fault_if. by case_match. Qed.

Lemma sampled_driver e : io_driver (en_io (sampled e)) = polled e.
Proof.
  unfold sampled, sample_inputs. set (e1 := set_en_clock _ _). set (e2 := sample_remote (publish_field_mode e1)).
  assert (H2 : same_driver e e2 /\ en_input_scratch e2 = en_input_scratch e) by (unfold e2, sample_remote; by case_match).
  transitivity (io_driver (en_io (sample_driver e2))); [exact (fault_if_driver _ (upd_io _ (sample_driver e2)))|].
  unfold sample_driver, polled. destruct H2 as [-> ->].
  destruct (poll_inputs _ _) as [[driver scratch] []]; [done|exact (fault_if_driver _ (upd_io _ _))..].
Qed.

Lemma logic_driver task now : steady same_driver (logic_or_fault task now).
Proof.
  assert (Hrun : steady same_driver (run_logic task now)).
  { unfold run_logic. apply (steady_bind same_driver); [apply (steady_gets same_driver)|]. intros [vm|]; [|by intros e].
    apply (steady_bind same_driver); [apply (steady_gets same_driver)|]. intros first.
    apply (steady_bind same_driver); [by apply steady_modify|]. intros _.
    apply (steady_bind same_driver); [apply (steady_plan_task same_driver)|]. intros tp.
    destruct (run_entry _ _ _) as [[vm' r]|]; [|by intros e].
    apply (steady_bind same_driver); [by apply steady_modify|]. intros _.
    apply (steady_bind same_driver); [by intros e|]. intros _.
    apply (steady_bind same_driver); [apply steady_if; [by apply steady_modify|apply (steady_ret same_driver)]|]. intros _.
    by apply steady_modify. }
  intros e. specialize (Hrun e). unfold logic_or_fault.
  by destruct (run_logic task now e) as [e' [a|x|]].
Qed.

Lemma upd_task_driver i f : steady same_driver (upd_task i f).
Proof. intros e. unfold upd_task. by case_match. Qed.

Lemma note_driver task d period : steady same_driver (note_duration task d period).
Proof.
  unfold note_duration.
  apply (steady_bind same_driver); [intros e; by destruct (Wd.note _ _ _ _)|]. intros trip.
  apply (steady_bind same_driver).
  - apply steady_if; [|apply (steady_ret same_driver)].
    apply (steady_bind same_driver); [apply upd_task_driver|]. intros _. by apply steady_modify.
  - intros _. apply steady_if; [|apply (steady_ret same_driver)]. by apply steady_modify.
Qed.

(** The output phase: what is handed to the driver. *)
Lemma output_phase (ran : bool) e4 e' :
  same_field (let e5 := apply_outputs ran e4 in if ran then set_en_first_run_complete true e5 else e5) e' ->
  let c := compute_outputs ran (publish_field_mode e4) in
  let r := IoImage.apply_outputs (io_driver (en_io e4)) (en_output_image c) in
  en_output_image e' = en_output_image c /\ io_driver (en_io e') = r.1 /\
  io_image (en_io e') = io_image (en_io e4) /\ (r.2 = Ok tt -> en_io e' = set_io_driver r.1 (en_io c)).
Proof.
  intros Hf c r. destruct (compute_spec ran (publish_field_mode e4)) as (Hio & _). fold c in Hio.
  unfold apply_outputs in Hf. fold c in Hf. cbv zeta in Hf.
  assert (Hd : io_driver (en_io c) = io_driver (en_io e4)) by (by rewrite Hio). rewrite Hd in Hf. fold r in Hf.
  assert (Hi : io_image (en_io c) = io_image (en_io e4)) by (by rewrite Hio).
  rewrite (sf_image _ _ Hf), (sf_io _ _ Hf). destruct r as [driver [[]|x|]]; cbn [fst snd].
  - by destruct ran.
  - destruct ran; unfold fault_if; case_match; by repeat split.
  - destruct ran; unfold fault_if; case_match; by repeat split.
Qed.

(** ** Faults *)

Lemma mode_fault e : mode (enter_fault e) = Fault.
Proof. apply mode_set. Qed.

Lemma fault_if_after b e : faulted_after e (fault_if b e).
Proof. intros Hm. unfold fault_if. case_match; [apply mode_fault|done]. Qed.

Lemma apply_outputs_after ran e : faulted_after e (apply_outputs ran e).
Proof.
  intros Hm. unfold apply_outputs.
  destruct (compute_spec ran (publish_field_mode e)) as (Hio & Hmd & _).
  set (e1 := compute_outputs _ _) in *. assert (H1 : mode e1 = Fault) by (unfold mode; by rewrite Hmd).
  destruct (IoImage.apply_outputs _ _) as [driver []]; [exact H1|apply fault_if_after; exact H1..].
Qed.

Lemma sample_driver_after e : faulted_after e (sample_driver e).
Proof.
  intros Hm. unfold sample_driver. destruct (poll_inputs _ _) as [[driver scratch] []];
    [exact Hm|apply fault_if_after; exact Hm..].
Qed.

Lemma sampled_after e : faulted_after e (sampled e).
Proof.
  intros Hm. unfold sampled, sample_inputs.
  change (mode (sample_quality (sample_driver (sample_remote (publish_field_mode
    (set_en_clock (S (en_clock e)) (upd_hooks (Hooks.set_in_invocation true) e)))))) = Fault).
  apply fault_if_after. change (mode (sample_driver (sample_remote (publish_field_mode
    (set_en_clock (S (en_clock e)) (upd_hooks (Hooks.set_in_invocation true) e))))) = Fault).
  apply sample_driver_after. unfold sample_remote. by case_match.
Qed.

Lemma note_after task d period : steady faulted_after (note_duration task d period).
Proof.
  unfold note_duration.
  apply (steady_bind faulted_after); [intros e Hm; by destruct (Wd.note _ _ _ _)|]. intros trip.
  apply (steady_bind faulted_after).
  - apply steady_if; [|apply (steady_ret faulted_after)].
    apply (steady_bind faulted_after); [intros e Hm; unfold upd_task; by case_match|]. intros _.
    apply steady_modify. by intros e Hm.
  - intros _. apply steady_if; [|apply (steady_ret faulted_after)]. apply steady_modify.
    intros e _. apply mode_fault.
Qed.

(** A trip of the watchdog faults. *)
Lemma note_trip task d period e e' :
  note_duration task d period e = (e', Ok tt) ->
  (Wd.note task d period (en_sw_wd e)).2 = true -> mode e' = Fault.
Proof.
  unfold note_duration. intros Hn Ht. apply M_bind_Ok in Hn as (trip & e1 & H1 & Hn).
  destruct (Wd.note task d period (en_sw_wd e)) as [wd tr]. cbn in Ht. injection H1 as _ <-. subst tr.
  apply M_bind_Ok in Hn as (u & e2 & _ & Hn). injection Hn as <-. apply mode_fault.
Qed.

(** The rest of an invocation keeps a fault. *)
Lemma late_fault task d ran e3 e4 e' :
  upd_task task (record_duration d) e3 = (e4, Ok tt) ->
  same_field (let e5 := apply_outputs ran e4 in if ran : bool then set_en_first_run_complete true e5 else e5) e' ->
  mode e3 = Fault -> mode e' = Fault.
Proof.
  intros Hr Hf Hm. pose proof (upd_task_field task (record_duration d) e3) as H34. rewrite Hr in H34. cbn [fst] in H34.
  assert (H4 : mode e4 = Fault) by (unfold mode; by rewrite (sf_modes _ _ H34)).
  apply (apply_outputs_after ran) in H4. unfold mode. rewrite (sf_modes _ _ Hf). by destruct ran.
Qed.

(** The watchdog's state is the one before the logic. *)
Lemma logic_keeps_wd task now : steady (fun e e' => en_sw_wd e' = en_sw_wd e) (logic_or_fault task now).
Proof.
  set (R := fun e e' : ScanEngine D => en_sw_wd e' = en_sw_wd e).
  assert (HR : PreOrder R) by (split; [done|]; intros x y z H1 H2; unfold R in *; by etrans).
  assert (Hrun : steady R (run_logic task now)).
  { unfold run_logic. apply (steady_bind R); [apply (steady_gets R)|]. intros [vm|]; [|by intros e].
    apply (steady_bind R); [apply (steady_gets R)|]. intros first.
    apply (steady_bind R); [by apply steady_modify|]. intros _.
    apply (steady_bind R); [apply (steady_plan_task R)|]. intros tp.
    destruct (run_entry _ _ _) as [[vm' r]|]; [|by intros e].
    apply (steady_bind R); [by apply steady_modify|]. intros _.
    apply (steady_bind R); [by intros e|]. intros _.
    apply (steady_bind R); [apply steady_if; [by apply steady_modify|apply (steady_ret R)]|]. intros _.
    by apply steady_modify. }
  intros e. specialize (Hrun e). unfold logic_or_fault.
  by destruct (run_logic task now e) as [e' [a|x|]].
Qed.

Lemma sample_keeps_wd e : en_sw_wd (sampled e) = en_sw_wd e.
Proof.
  unfold sampled, sample_inputs, sample_program, sample_quality, sample_driver, sample_remote, fault_if.
  cbn. repeat case_match; cbn; repeat case_match; done.
Qed.
(** ** Properties *)

(** An invocation up to its output phase calls the driver once, to poll it. *)
Lemma stages_driver task e e2 e3 e4 ran d (tp : TaskPlan) :
  (if Mode.executes_logic (mode (sampled e)) then
     logic_or_fault task (ms_of_ns (now_ns_at (en_clock e))) (sampled e) = (e2, Ok ran)
   else e2 = sampled e /\ ran = false) ->
  (if Mode.executes_logic (mode (sampled e)) then
     note_duration task d (tp_period_ms tp) (set_en_clock (S (en_clock e2)) e2) = (e3, Ok tt)
   else e3 = set_en_clock (S (en_clock e2)) e2) ->
  upd_task task (record_duration d) e3 = (e4, Ok tt) -> io_driver (en_io e4) = polled e.
Proof.
  intros Hl Hn Hr. pose proof (upd_task_driver task (record_duration d) e3) as H4. rewrite Hr in H4. cbn [fst] in H4.
  rewrite H4, <-sampled_driver. destruct (Mode.executes_logic _); [|by destruct Hl as [-> _]; rewrite Hn].
  pose proof (note_driver task d (tp_period_ms tp) (set_en_clock (S (en_clock e2)) e2)) as H3. rewrite Hn in H3. cbn [fst] in H3.
  pose proof (logic_driver task (ms_of_ns (now_ns_at (en_clock e))) (sampled e)) as H2. rewrite Hl in H2. cbn [fst] in H2.
  unfold same_driver in *. cbn [en_io set_en_clock] in H3. congruence.
Qed.

(** C15: what the field gets. Every completed invocation calls the driver twice: it polls it
    once, at its start, and hands it exactly one output image, on the state the poll has left.
    When the driver takes it: in FAULT, in STOP under the safe policy, and until some logic
    invocation has completed, it is the safe state of every slot, flagged force-safe,
    whatever the program, the forces and the qualities say; otherwise it is not flagged,
    and each slot carries its force if it has one, else its safe state if its module is
    bad and the policy says so, else what the program wrote, else its safe state. The
    quality and the policy of a slot's module are those the driver reports of the slot, or
    the aggregate of the image if it reports none. *)
Theorem field_outputs (task : nat) (e e' : ScanEngine D) (d : Z) (Hinvoke : invoke task e = (e', Ok d)) :
  let out := IoImage.apply_outputs (polled e) (en_output_image e') in
  io_driver (en_io e') = out.1 /\
  (out.2 = Ok tt ->
    (safe_required e' -> en_output_image e' = safe_image e') /\
    (~ safe_required e' ->
      oi_force_safe (en_output_image e') = false /\
      forall i slot, pi_outputs (io_image (en_io e')) !! i = Some slot ->
        let '(q, policy) := slot_module (polled e) e' i in
        oi_values (en_output_image e') !! i = Some (field_value e' i slot q policy))).
Proof.
  destruct (invoke_stages _ _ _ _ Hinvoke) as (tp & ran & e2 & e3 & e4 & _ & Hl & Hn & Hr & Hf & _).
  pose proof (stages_driver _ _ _ _ _ _ _ _ Hl Hn Hr) as Hd.
  set (c := compute_outputs ran (publish_field_mode e4)).
  destruct (compute_spec ran (publish_field_mode e4)) as (Hio & Hmd & Hpl & Hfr & Hsafe & Hfield).
  destruct (output_phase _ _ _ Hf) as (Him & Hdr & _ & Hok). rewrite Hd in *. rewrite <-Him in *.
  fold c in Hio, Hmd, Hpl, Hfr, Hsafe, Hfield, Him, Hok. split; [done|]. intros Hr2. specialize (Hok Hr2).
  assert (Hs : (safe_required e' <-> global_force_safe ran (publish_field_mode e4) = true)).
  { rewrite force_safe_spec. unfold safe_required, mode.
    rewrite (sf_modes _ _ Hf), (sf_plan _ _ Hf), (sf_first _ _ Hf).
    unfold apply_outputs. fold c. cbv zeta. assert (Hdc : io_driver (en_io c) = polled e) by (rewrite Hio; exact Hd).
    rewrite Hdc, <-Him. destruct (IoImage.apply_outputs (polled e) (en_output_image e')) as [driver r] eqn:Er. cbn [snd] in Hr2. subst r.
    rewrite <-Hmd, <-Hpl, <-Hfr. by destruct ran. }
  split.
  - intros Hq%Hs. rewrite (Hsafe Hq). unfold safe_image. rewrite Hok. cbn. by rewrite Hio.
  - intros Hnot. destruct (Hfield ltac:(apply not_true_is_false; tauto)) as [H1 H2]. split; [done|].
    intros i slot Hi. rewrite Hok in Hi. cbn in Hi. rewrite Hio in Hi. specialize (H2 i slot Hi).
    assert (Hm : slot_module (polled e) e' i = slot_module (io_driver (en_io (publish_field_mode e4))) (publish_field_mode e4) i).
    { unfold slot_module. rewrite Hok. cbn. rewrite Hio. cbn. by rewrite Hd. }
    rewrite Hm. destruct (slot_module _ _ _) as [q pol]. rewrite H2. unfold field_value. rewrite Hok. cbn. by rewrite Hio.
Qed.

(** The driver is handed the safe states, on the state its poll has left, in FAULT. *)
Definition ends_safe e e' : Prop :=
  mode e' = Fault /\ en_output_image e' = safe_image e' /\
  io_driver (en_io e') = (IoImage.apply_outputs (polled e) (safe_image e')).1.

(** C16: failures fault at once. An invocation never leaves FAULT; and if it was
    executing logic, it is in FAULT when it ends as soon as the logic failed
    (including when no program is armed) or its duration tripped the overrun
    watchdog. Either way the image that this same invocation hands to the driver is
    already the one of the safe states, flagged force-safe. *)
Theorem failure_faults_at_once (task : nat) (e e' : ScanEngine D) (d : Z)
    (Hinvoke : invoke task e = (e', Ok d)) :
  (mode e = Fault -> ends_safe e e') /\
  (Mode.executes_logic (mode (sampled e)) = true ->
    (exists err, (run_logic task (ms_of_ns (now_ns_at (en_clock e))) (sampled e)).2 = Err err) \/
    (exists tp, sp_tasks (en_plan e) !! task = Some tp /\ (Wd.note task d (tp_period_ms tp) (en_sw_wd e)).2 = true) ->
    ends_safe e e').
Proof.
  destruct (invoke_stages _ _ _ _ Hinvoke) as (tp & ran & e2 & e3 & e4 & Htp & Hl & Hn & Hr & Hf & _).
  assert (Hlate : mode e3 = Fault -> ends_safe e e').
  { intros Hm. pose proof (late_fault task d ran e3 e4 e' Hr Hf Hm) as Hm'. split; [done|].
    destruct (output_phase _ _ _ Hf) as (Him & Hdr & Hpi & _). rewrite (stages_driver _ _ _ _ _ _ _ _ Hl Hn Hr) in Hdr.
    assert (Hsafe : en_output_image e' = safe_image e').
    { rewrite Him. unfold safe_image. rewrite Hpi. apply (compute_spec ran (publish_field_mode e4)).
      apply force_safe_spec. left. pose proof (upd_task_field task (record_duration d) e3) as H34. rewrite Hr in H34. cbn [fst] in H34.
      unfold mode in *. change (en_modes (publish_field_mode e4)) with (en_modes e4). by rewrite (sf_modes _ _ H34). }
    split; [done|]. by rewrite <-Hsafe, Him. }
  split.
  - intros Hm%sampled_after. rewrite Hm in Hl, Hn. cbn in Hl, Hn. destruct Hl as [-> ->]. apply Hlate.
    by rewrite Hn.
  - intros Hx. rewrite Hx in Hl, Hn. intros [(err & Herr)|(tp' & Htp' & Htrip)]; apply Hlate.
    + unfold logic_or_fault in Hl. destruct (run_logic _ _ _) as [e1 r]. cbn in Herr. subst r.
      injection Hl as <- _.
      pose proof (note_after task d (tp_period_ms tp) (set_en_clock (S (en_clock (enter_fault e1))) (enter_fault e1))) as Ha.
      rewrite Hn in Ha. apply Ha. exact (mode_fault e1).
    + simplify_eq. eapply note_trip; [exact Hn|]. cbn.
      pose proof (logic_keeps_wd task (ms_of_ns (now_ns_at (en_clock e))) (sampled e)) as Hw.
      rewrite Hl in Hw. cbn [fst] in Hw. by rewrite Hw, sample_keeps_wd.
Qed.
End Outputs.

(** ** Concrete invocations *)

(** The demo engine in RUN, without a program. *)
Definition no_program (e : ScanEngine SimDriver) : ScanEngine SimDriver :=
  apply_mode_boundary (request_mode ReqRun e).

Definition demo_invoke : ScanEngine SimDriver -> ScanEngine SimDriver * res ScanError Z := @invoke _ _ _ demo_env 1.

Lemma field_outputs_witness :
  exists e e' d, engine_new demo_plan demo_io (Some demo_vm) = Ok e /\
    demo_invoke e = (e', Ok d) /\ mode e' = Stop /\ en_output_image e' = safe_image e'.
Proof.
  destruct (engine_new demo_plan demo_io (Some demo_vm)) as [e| |] eqn:He; [|discriminate He..]. exists e.
  assert (Hok : is_ok (demo_invoke e).2 = true) by (injection He as <-; vm_compute; reflexivity).
  assert (Hm : mode (demo_invoke e).1 = Stop) by (injection He as <-; vm_compute; reflexivity).
  assert (Hpol : sp_stop_output_policy (en_plan (demo_invoke e).1) = PolicySafe)
    by (injection He as <-; vm_compute; reflexivity).
  assert (Hrun : sd_running (io_driver (en_io (demo_invoke e).1)) = true)
    by (injection He as <-; vm_compute; reflexivity).
  destruct (demo_invoke e) as [e' [d| |]] eqn:Hi; [|discriminate Hok..]. exists e', d.
  split; [reflexivity|]. split; [reflexivity|]. split; [exact Hm|].
  destruct (@field_outputs _ _ _ demo_env 1 e e' d Hi) as (Hd & Hout).
  apply Hout; [|right; left; split; [exact Hm|exact Hpol]].
  cbn [fst] in Hrun. rewrite Hd in Hrun. revert Hrun. generalize (en_output_image e'), (polled e). intros img drv. cbn. unfold SimDrv.apply_outputs.
  destruct (sd_running drv) eqn:E; [reflexivity|]. cbn. congruence.
Defined.

Lemma failure_faults_at_once_witness :
  exists e e' d, engine_new demo_plan demo_io None = Ok e /\ mode (no_program e) = Run /\
    demo_invoke (no_program e) = (e', Ok d) /\ mode e' = Fault /\ en_output_image e' = safe_image e'.
Proof.
  destruct (engine_new demo_plan demo_io None) as [e| |] eqn:He; [|discriminate He..]. exists e.
  assert (Hok : is_ok (demo_invoke (no_program e)).2 = true) by (injection He as <-; vm_compute; reflexivity).
  destruct (demo_invoke (no_program e)) as [e' [d| |]] eqn:Hi; [|discriminate Hok..]. exists e', d.
  split; [reflexivity|]. split; [injection He as <-; reflexivity|]. split; [reflexivity|].
  destruct (@failure_faults_at_once _ _ _ demo_env 1 _ e' d Hi) as [_ Hf].
  destruct Hf as (Hf & Hs & _); [injection He as <-; vm_compute; reflexivity| |split; [exact Hf|exact Hs]].
  left. injection He as <-. eexists. vm_compute. reflexivity.
Defined.
