(* ===== verification/ScanSwap.v ===== *)
(** * Hot swap of programs

    The install attempt of src/crates/plc-scan/src/engine.rs: either the whole
    armed program is current afterwards, or nothing of the current one has
    changed. *)
From S2P Require Import Prelude Float32 IrTypes PlcTypes IoImage FbDispatch VmValue VmMemory VmExec.
From S2P Require Import VmInv ScanMode ScanParts ScanState ScanEngine ScanSchedule ScanInv.

Section Swap.
Context {D : Type} `{!IoDriver D, !NanRule, !ScanEnv}.
Implicit Types (e : ScanEngine D).

(** ** What stays current *)

(** The running program, its schedule and what it has in the field. *)
Record same_program e e' : Prop := {
  sm_vm : en_vm e' = en_vm e;
  sm_plan : en_plan e' = en_plan e;
  sm_tasks : en_tasks e' = en_tasks e;
  sm_id : en_current_id e' = en_current_id e;
  sm_hash : en_current_hash e' = en_current_hash e;
  sm_hold : en_bumpless_hold e' = en_bumpless_hold e;
  sm_first : h_first_scan (en_hooks e') = h_first_scan (en_hooks e);
  sm_image : io_image (en_io e') = io_image (en_io e);
  sm_driver : io_driver (en_io e') = io_driver (en_io e) }.

(** The [%Q] slots after an install. *)
Definition restarted (policy : OutputRestartPolicy) (im : ProcessImage) : list TypedSlot :=
  if decide (policy = SafeReset) then imap (fun i s => mkTyped (safe_of im i) (ts_quality s) true) (pi_outputs im)
  else pi_outputs im.

(** The runtime of task [i] after an install at [now]: the due tasks but the
    highest-priority one wait for their next period. *)
Definition skipped (tasks : list TaskPlan) (now : Z) (highest i : nat) (t : TaskRuntime) : TaskRuntime :=
  if negb (i =? highest)%nat && (rt_next_due_ms t <=? now) then
    set_rt_next_due_ms (sat_add_u 64 (rt_next_due_ms t) (tp_period_ms (task_at tasks i))) t
  else t.

(** [a] is current: its machine runs, under its names and entries, with every
    first-scan flag set, [%M] cold and [%Q] as its restart policy says; the
    inputs, the driver, the forces and the mode are as before. *)
Record installed (a : ArmedProgram) e e' : Prop := {
  is_vm : en_vm e' = Some (ap_vm a);
  is_armed : en_armed e' = None;
  is_id : en_current_id e' = Some (ap_program_id a);
  is_hash : en_current_hash e' = Some (ap_compatibility_hash a);
  is_plan : sp_tasks (en_plan e') = set_entries (ap_task_entries a) (sp_tasks (en_plan e));
  is_tasks : exists k highest, en_schedule_order e !! 0%nat = Some highest /\
    en_tasks e' = imap (skipped (sp_tasks (en_plan e)) (ms_of_ns (now_ns_at k)) highest) (en_tasks e);
  is_hold : en_bumpless_hold e' = bool_decide (ap_restart_policy a = Bumpless);
  is_first : h_first_scan (en_hooks e') = map (fun _ => true) (h_first_scan (en_hooks e));
  is_phase : Hooks.phase (en_hooks e') = Idle;
  is_request : Hooks.activate_requested (en_hooks e') = false;
  is_modes : en_modes e' = en_modes e;
  is_forces : io_forces (en_io e') = io_forces (en_io e);
  is_driver : io_driver (en_io e') = io_driver (en_io e);
  is_inputs : pi_inputs (io_image (en_io e')) = pi_inputs (io_image (en_io e));
  is_outputs : pi_outputs (io_image (en_io e')) = restarted (ap_restart_policy a) (io_image (en_io e));
  is_memory : forall i s, pi_memory (io_image (en_io e')) !! i = Some s ->
    s = slot_zero (match pi_memory_meta (io_image (en_io e)) !! i with Some m => sm_ty m | None => TyBool end) }.

(** ** Committing *)

(** Only the task table and the clock have moved. *)
Definition rescheduled e e' : Prop := e' = set_en_clock (en_clock e') (set_en_tasks (en_tasks e') e).

#[export] Instance rescheduled_pre : PreOrder rescheduled.
Proof.
  split; [by intros []|]. intros x y z Hy Hz. unfold rescheduled in *. rewrite Hz at 1. by rewrite Hy.
Qed.

Lemma skip_due_rescheduled now highest i : steady rescheduled (skip_due now highest i).
Proof.
  intros e. unfold skip_due. case_match; [|by destruct e]. destruct (negb _ && _); [|by destruct e].
  apply (steady_bind rescheduled); [apply (steady_plan_task rescheduled)|]. intros tp e1.
  unfold upd_task. case_match; by destruct e1.
Qed.

(** One turn of the loop, when it does not panic. *)
Lemma skip_due_tasks now highest i e e' :
  skip_due now highest i e = (e', Ok tt) ->
  rescheduled e e' /\ en_tasks e' = alter (skipped (sp_tasks (en_plan e)) now highest i) i (en_tasks e).
Proof.
  intros Hs. split.
  - pose proof (skip_due_rescheduled now highest i e) as Hr. by rewrite Hs in Hr.
  - unfold skip_due in Hs. destruct (en_tasks e !! i) as [t|] eqn:Ht; [|done].
    assert (Hal : alter (skipped (sp_tasks (en_plan e)) now highest i) i (en_tasks e) =
      <[i := skipped (sp_tasks (en_plan e)) now highest i t]> (en_tasks e))
      by (by apply list_alter_insert_lookup || (apply list_eq; intros j;
          destruct (decide (i = j)) as [<-|]; [rewrite list_lookup_alter_eq, Ht, list_lookup_insert_eq
            by (by eapply lookup_lt_Some)|rewrite list_lookup_alter_ne, list_lookup_insert_ne]; done)).
    rewrite Hal. unfold skipped. destruct (negb _ && _).
    + apply M_bind_Ok in Hs as (tp & e1 & Hp & Hs). unfold plan_task, index in Hp.
      destruct (sp_tasks (en_plan e) !! i) as [tp'|] eqn:Htp; [|by injection Hp].
      injection Hp as <- <-. unfold upd_task in Hs. rewrite Ht in Hs. injection Hs as <-.
      unfold task_at. by rewrite Htp.
    + injection Hs as <-. by rewrite list_insert_id.
Qed.

Lemma skip_all_tasks now highest a n e e' :
  m_each (seq a n) (skip_due now highest) e = (e', Ok tt) ->
  rescheduled e e' /\
  en_tasks e' = imap (fun i t => if (a <=? i)%nat && (i <? a + n)%nat
    then skipped (sp_tasks (en_plan e)) now highest i t else t) (en_tasks e).
Proof.
  revert a e. induction n as [|n IH]; intros a e Hs.
  - injection Hs as <-. split; [by destruct e|]. apply list_eq. intros i. rewrite list_lookup_imap.
    destruct (en_tasks e !! i); [|done]. cbn [fmap option_fmap option_map].
    destruct (Nat.leb_spec a i), (Nat.ltb_spec i (a + 0)); cbn; try done. lia.
  - cbn [seq m_each] in Hs. apply M_bind_Ok in Hs as ([] & e1 & H1 & H2).
    apply skip_due_tasks in H1 as [R1 T1]. apply IH in H2 as [R2 T2].
    split; [by etrans|]. rewrite T2, T1, R1. cbn [sp_tasks en_plan set_en_clock set_en_tasks].
    apply list_eq. intros i. rewrite !list_lookup_imap. destruct (decide (i = a)) as [->|Hne].
    + rewrite list_lookup_alter_eq. destruct (en_tasks e !! a); [|done]. cbn [fmap option_fmap option_map].
      rewrite (proj2 (Nat.leb_gt (S a) a)), (proj2 (Nat.leb_le a a)), (proj2 (Nat.ltb_lt a (a + S n))) by lia.
      done.
    + rewrite list_lookup_alter_ne by done. destruct (en_tasks e !! i); [|done]. cbn [fmap option_fmap option_map].
      replace ((S a <=? i)%nat && (i <? S a + n)%nat) with ((a <=? i)%nat && (i <? a + S n)%nat); [done|].
      destruct (Nat.leb_spec a i), (Nat.ltb_spec i (a + S n)), (Nat.leb_spec (S a) i),
        (Nat.ltb_spec i (S a + n)); cbn; try done; lia.
Qed.

Lemma commit_installs a e e' :
  en_armed e = None -> commit_install a e = (e', Ok tt) -> installed a e e'.
Proof.
  unfold commit_install. intros Ha Hc.
  apply M_bind_Ok in Hc as (now & e1 & Hn & Hc). injection Hn as <- <-.
  apply M_bind_Ok in Hc as (highest & e2 & Hh & Hc). unfold first_in_schedule, index in Hh.
  destruct (en_schedule_order _ !! 0%nat) as [hi|] eqn:Eh; [|by injection Hh]. injection Hh as <- <-.
  apply M_bind_Ok in Hc as (n & e3 & [= <- <-] & Hc).
  apply M_bind_Ok in Hc as ([] & e4 & Hs & Hc).
  apply skip_all_tasks in Hs as [R4 T4].
  assert (Hts : en_tasks e4 = imap (skipped (sp_tasks (en_plan e)) (ms_of_ns (now_ns_at (en_clock e))) hi) (en_tasks e)).
  { rewrite T4. apply imap_ext. intros i t Hi. apply lookup_lt_Some in Hi.
    by rewrite (proj2 (Nat.leb_le 0 i)), (proj2 (Nat.ltb_lt i _)) by (cbn in *; lia). }
  clear T4. injection Hc as <-. rewrite R4. revert Hts. generalize (en_clock e4) (en_tasks e4). intros c ts Hts.
  destruct (decide (ap_restart_policy a = SafeReset)) as [Hp|Hp]; split; try done; cbn.
  - by exists (en_clock e), hi.
  - unfold restarted. by rewrite decide_True.
  - intros i s. rewrite list_lookup_imap. destruct (pi_memory _ !! i); cbn; [|done]. by intros [= <-].
  - by exists (en_clock e), hi.
  - unfold restarted. by rewrite decide_False.
  - intros i s. rewrite list_lookup_imap. destruct (pi_memory _ !! i); cbn; [|done]. by intros [= <-].
Qed.

(** The attempt, from the point where the critical section starts. *)
Lemma install_spec e e' o :
  install e = (e', Ok o) ->
  match en_armed e with
  | None => True
  | Some a =>
      let '(a', r) := blit_retain_into a (en_vm e) in
      match o with
      | NotInstalled => False
      | Installed => r = Ok tt /\ installed a' e e'
      | Deferred => same_program e e' /\ en_modes e' = en_modes e /\
          io_forces (en_io e') = io_forces (en_io e) /\ en_armed e' = Some a' /\
          Hooks.phase (en_hooks e') = Armed /\ Hooks.activate_requested (en_hooks e') = false /\
          en_last_activate_deferred e' = true
      | Faulted => (exists err, r = Err err) /\ same_program e e' /\ mode e' = Fault /\
          io_forces (en_io e') = ∅ /\ en_armed e' = Some a' /\
          Hooks.phase (en_hooks e') = Idle /\ Hooks.activate_requested (en_hooks e') = false
      end
  end.
Proof.
  unfold install. intros Hi.
  apply M_bind_Ok in Hi as (? & ? & [= <- <-] & Hi).
  apply M_bind_Ok in Hi as (t0 & ? & [= <- <-] & Hi).
  apply M_bind_Ok in Hi as (armed & ? & [= <- <-] & Hi).
  change (en_armed (set_en_clock _ _)) with (en_armed e) in Hi.
  destruct (en_armed e) as [a|] eqn:Ha; [|done].
  apply M_bind_Ok in Hi as (? & ? & [= <- <-] & Hi).
  apply M_bind_Ok in Hi as (vm & ? & [= <- <-] & Hi).
  change (en_vm (set_en_armed _ _)) with (en_vm e) in Hi.
  destruct (blit_retain_into a (en_vm e)) as [a' r].
  apply M_bind_Ok in Hi as (t1 & ? & [= <- <-] & Hi).
  apply M_bind_Ok in Hi as (inject & ? & [= <- <-] & Hi).
  apply M_bind_Ok in Hi as (deadline & ? & [= <- <-] & Hi).
  destruct r as [[]|err|]; [|injection Hi as <- <-|discriminate Hi].
  - destruct (_ <=? _); [apply m_modify_Ok in Hi as [-> ->]; by repeat split|].
    apply M_bind_Ok in Hi as ([] & e1 & Hc & Hi). injection Hi as <- <-. split; [done|].
    apply commit_installs in Hc; [|done]. destruct Hc. by split.
  - split; [by exists err|]. by repeat split.
Qed.

(** The whole attempt. *)
Lemma try_install_spec (e e' : ScanEngine D) (o : InstallOutcome) :
  try_epoch_install e = (e', Ok o) ->
  match o with
  | NotInstalled => e' = set_en_clock (en_clock e') e
  | _ => exists a a' r, en_armed e = Some a /\ Hooks.activate_requested (en_hooks e) = true /\
      blit_retain_into a (en_vm e) = (a', r) /\
      match o with
      | Installed => r = Ok tt /\ installed a' e e'
      | Deferred => same_program e e' /\ en_modes e' = en_modes e /\
          io_forces (en_io e') = io_forces (en_io e) /\ en_armed e' = Some a' /\
          Hooks.phase (en_hooks e') = Armed /\ Hooks.activate_requested (en_hooks e') = false /\
          en_last_activate_deferred e' = true
      | _ => (exists err, r = Err err) /\ same_program e e' /\ mode e' = Fault /\
          io_forces (en_io e') = ∅ /\ en_armed e' = Some a' /\
          Hooks.phase (en_hooks e') = Idle /\ Hooks.activate_requested (en_hooks e') = false
      end
  end.
Proof.
  intros Hswap.
  unfold try_epoch_install in Hswap. apply M_bind_Ok in Hswap as (e0 & e1 & [= <- <-] & Hs).
  assert (Hsame : forall c e0, e0 = set_en_clock c e -> e0 = set_en_clock (en_clock e0) e) by (by intros c ? ->).
  destruct (negb (Hooks.activate_requested (en_hooks e)) || _) eqn:Hreq.
  { injection Hs as <- <-. apply (Hsame (en_clock e)). by destruct e. }
  apply orb_false_iff in Hreq as [Hreq Harm]. apply negb_false_iff in Hreq. apply bool_decide_eq_false_1 in Harm.
  destruct (negb (Hooks.is_quiet _)). { injection Hs as <- <-. apply (Hsame (en_clock e)). by destruct e. }
  apply M_bind_Ok in Hs as (now & e2 & Hn & Hs). injection Hn as <- _.
  apply M_bind_Ok in Hs as (due & e3 & [= <- _] & Hs).
  destruct due as [due|]; [|by injection Hs as <- <-].
  apply M_bind_Ok in Hs as (highest & e4 & Hf & Hs). unfold first_in_schedule in Hf. injection Hf as <- _.
  destruct (negb _); [by injection Hs as <- <-|].
  apply install_spec in Hs. cbn [en_armed en_vm set_en_clock] in Hs.
  destruct (en_armed e) as [a|]; [|done]. destruct (blit_retain_into a (en_vm e)) as [a' r] eqn:Hb.
  destruct o; [done|..]; exists a, a', r; (split; [done|]; split; [done|]; split; [done|]); try exact Hs.
  - destruct Hs as [? []]. split; [done|]. by split.
  - destruct Hs as [[] Hs]. split; [by split|exact Hs].
  - destruct Hs as (? & [] & Hs). split; [done|]. split; [by split|exact Hs].
Qed.

(** ** Properties *)

(** C18: a hot swap is atomic. An attempt that does not start changes nothing (it
    reads the clock). One that misses its deadline, and one whose retain copies
    do not fit, leave the running program, the schedule, the process image and
    the driver exactly as they were and keep the armed program; the first leaves
    mode and forces too and reports [Armed], the second faults and clears the
    forces. Otherwise the retain copies succeeded and the armed program is
    current as a whole, with its entries and ids, first-scan flags set, [%M]
    cold, [%Q] as its restart policy says, and inputs, driver, mode and forces
    untouched. *)
Theorem swap_atomic (e e' : ScanEngine D) (o : InstallOutcome) (Hswap : try_epoch_install e = (e', Ok o)) :
  match o with
  | NotInstalled => e' = set_en_clock (en_clock e') e
  | _ => exists a a' r, en_armed e = Some a /\ Hooks.activate_requested (en_hooks e) = true /\
      blit_retain_into a (en_vm e) = (a', r) /\
      match o with
      | Installed => r = Ok tt /\ installed a' e e'
      | Deferred => same_program e e' /\ en_modes e' = en_modes e /\
          io_forces (en_io e') = io_forces (en_io e) /\ en_armed e' = Some a' /\
          Hooks.phase (en_hooks e') = Armed /\ Hooks.activate_requested (en_hooks e') = false /\
          en_last_activate_deferred e' = true
      | _ => (exists err, r = Err err) /\ same_program e e' /\ mode e' = Fault /\
          io_forces (en_io e') = ∅ /\ en_armed e' = Some a' /\
          Hooks.phase (en_hooks e') = Idle /\ Hooks.activate_requested (en_hooks e') = false
      end
  end.
Proof. by apply try_install_spec. Qed.
End Swap.

(** ** A concrete swap *)

Definition demo_armed : ArmedProgram :=
  mkArmed demo_vm (bstr "line2") (bstr "h2") [bstr "main"; bstr "main"] Bumpless [].

(** Arm and activate on an engine without a program. *)
Definition demo_swap (e : ScanEngine SimDriver) : ScanEngine SimDriver * res ScanError InstallOutcome :=
  @try_epoch_install _ demo_env (request_activate (arm demo_armed e).1).1.

Lemma swap_atomic_witness :
  exists e e', engine_new demo_plan demo_io None = Ok e /\ demo_swap e = (e', Ok Installed) /\
    en_current_id e' = Some (bstr "line2") /\ en_armed e' = None.
Proof.
  destruct (engine_new demo_plan demo_io None) as [e| |] eqn:He; [|discriminate He..]. exists e.
  assert (Ho : match (demo_swap e).2 with Ok Installed => True | _ => False end)
    by (injection He as <-; vm_compute; exact I).
  destruct (demo_swap e) as [e' [[| | |]| |]] eqn:Hs; try destruct Ho. exists e'.
  split; [reflexivity|]. split; [reflexivity|].
  destruct (@swap_atomic _ demo_env _ _ _ Hs) as (a & a' & r & Ha & _ & Hb & _ & Hi).
  assert (Hd : a = with_vm (ap_vm a) demo_armed).
  { injection He as <-. cbn in Ha. injection Ha as <-. reflexivity. }
  assert (Hid : ap_program_id a' = bstr "line2").
  { rewrite Hd in Hb. injection He as <-. cbn in Hb. injection Hb as <- _. reflexivity. }
  split; [rewrite <-Hid; apply Hi|apply Hi].
Defined.
