(* ===== verification/ScanTrack.v ===== *)
(** * The machine across scans

    What src/crates/plc-scan/src/engine.rs does to the current program's machine: an
    invocation runs the machine it found, so its code and its sizes stay; only an install
    replaces it, by the armed one. *)
From S2P Require Import Prelude Float32 IrTypes PlcTypes IoImage FbDispatch VmValue VmMemory VmExec.
From S2P Require Import VmInv ScanMode ScanParts ScanState ScanEngine ScanSchedule ScanInv ScanSwap.

(** The machine runs the same program on the same segments. *)
Record same_machine (s s' : Vm) : Prop := {
  mm_code : v_code s' = v_code s;
  mm_entries : v_entries s' = v_entries s;
  mm_user_fb : v_user_fb_pc s' = v_user_fb_pc s;
  mm_retain : Seg.size (v_retain s') = Seg.size (v_retain s);
  mm_inputs : Slots.size (v_inputs s') = Slots.size (v_inputs s);
  mm_quality : len (i_quality (v_inputs s')) = len (i_quality (v_inputs s));
  mm_outputs : Slots.size (v_outputs s') = Slots.size (v_outputs s) }.

#[export] Instance same_machine_pre : PreOrder same_machine.
Proof. split; [by split|]. intros x y z [] []. split; etrans; eassumption. Qed.

Lemma frozen_same s s' : frozen s s' -> same_machine s s'.
Proof. intros []. split; try done; by f_equal; rewrite fz_inputs. Qed.

Definition tracks (o o' : option Vm) : Prop := option_Forall2 same_machine o o'.

#[export] Instance tracks_pre : PreOrder tracks.
Proof.
  split; [by intros []; constructor|]. intros x y z Hxy Hyz. inversion Hxy; subst; inversion Hyz; subst; constructor.
  by etrans.
Qed.

Lemma try_inputs_same f vm :
  (forall x, f (v_inputs vm) = Ok x -> Slots.size x = Slots.size (v_inputs vm) /\ len (i_quality x) = len (i_quality (v_inputs vm))) ->
  same_machine vm (try_inputs f vm).
Proof. intros Hf. unfold try_inputs. destruct (f (v_inputs vm)) as [x| |] eqn:E; [|done..]. destruct (Hf x eq_refl). by split. Qed.

Lemma put_input_same vm i slot : same_machine vm (put_vm_input vm i slot).
Proof.
  unfold put_vm_input. etrans; apply try_inputs_same; intros x.
  - unfold Slots.set. destruct (i_values _ !! _); [|done]. intros Hx%Ok_inj. subst x. split; [|done].
    unfold Slots.size, len. cbn. by rewrite length_insert.
  - unfold Slots.set_quality_good. destruct (i_quality _ !! _); [|done]. intros Hx%Ok_inj. subst x. split; [done|].
    unfold len. cbn. by rewrite length_insert.
Qed.

Lemma put_inputs_same im vm : same_machine vm (put_vm_inputs im vm).
Proof.
  unfold put_vm_inputs. generalize (imap pair (pi_inputs im)). intros l. revert vm.
  induction l as [|[i slot] l IH]; intros vm; [done|]. cbn [foldl]. etrans; [apply put_input_same|apply IH].
Qed.

Section Track.
Context {D : Type} `{!IoDriver D, !IoDriverLaws D, !NanRule, !ScanEnv}.
Implicit Types (e : ScanEngine D).

(** ** What does not touch the machine *)

Definition same_vm e e' : Prop := en_vm e' = en_vm e.

#[export] Instance same_vm_pre : PreOrder same_vm.
Proof. split; [done|]. intros x y z H1 H2. by etrans. Qed.

Lemma fault_if_vm b e : same_vm e (fault_if b e).
Proof. unfold fault_if. by case_match. Qed.

Lemma compute_vm ran e : same_vm e (compute_outputs ran e).
Proof. unfold compute_outputs. by destruct (fill_output_module_state _ _). Qed.

Lemma apply_outputs_vm ran e : same_vm e (apply_outputs ran e).
Proof.
  unfold apply_outputs. set (e1 := compute_outputs _ _). assert (Hs1 : same_vm e e1) by (etrans; [|apply compute_vm]; done).
  destruct (IoImage.apply_outputs _ _) as [driver []]; (etrans; [exact Hs1|]); [done|..]; (etrans; [|apply fault_if_vm]); done.
Qed.

Lemma boundary_vm e : en_vm (apply_mode_boundary e) = en_vm e.
Proof. unfold apply_mode_boundary. case_decide; [done|]. by destruct (Cell.apply_pending _) as [modes [[m []]|x|]]. Qed.

Lemma steady_task_vm i f : steady same_vm (upd_task (D:=D) i f).
Proof. intros e. unfold upd_task. by case_match. Qed.

Lemma steady_note_vm task d period : steady same_vm (note_duration (D:=D) task d period).
Proof.
  unfold note_duration. apply (steady_bind same_vm); [intros e; by destruct (Wd.note _ _ _ _)|]. intros trip.
  apply (steady_bind same_vm); [apply steady_if; [|apply (steady_ret same_vm)]|intros _; apply steady_if;
    [by apply steady_modify|apply (steady_ret same_vm)]].
  apply (steady_bind same_vm); [apply steady_task_vm|]. intros _. by apply steady_modify.
Qed.

Lemma steady_publish_vm now : steady same_vm (publish_telemetry (D:=D) now).
Proof.
  unfold publish_telemetry. apply (steady_bind same_vm); [by intros e|]. intros e.
  apply (steady_bind same_vm); [apply (steady_each same_vm)|intros _; apply (steady_each same_vm)]; intros [i slot] e';
    unfold publish_input, publish_output; by repeat case_match.
Qed.

(** ** Invocations *)

Lemma remote_vm e : same_vm e (sample_remote e).
Proof. unfold sample_remote. by case_match. Qed.

Lemma driver_vm e : same_vm e (sample_driver e).
Proof.
  unfold sample_driver. destruct (poll_inputs _ _) as [[driver scratch] r].
  destruct r; [done|..]; (etrans; [|apply fault_if_vm]); done.
Qed.

Lemma quality_vm e : same_vm e (sample_quality e).
Proof. unfold sample_quality. etrans; [|apply fault_if_vm]. done. Qed.

Lemma field_mode_vm e : same_vm e (publish_field_mode e).
Proof. done. Qed.

Lemma program_tracks e : tracks (en_vm e) (en_vm (sample_program e)).
Proof. unfold sample_program. cbn [en_vm set_en_vm]. destruct (en_vm e) as [vm|]; constructor. apply put_inputs_same. Qed.

Lemma sample_tracks e : tracks (en_vm e) (en_vm (sample_inputs e)).
Proof.
  unfold sample_inputs. etrans; [|apply program_tracks]. rewrite (quality_vm _), (driver_vm _), (remote_vm _). by rewrite (field_mode_vm e).
Qed.

(** [m], on a well-formed engine and whatever its outcome, leaves the program the engine
    runs. *)
Definition keeps z {A} (m : M (ScanEngine D) ScanError A) : Prop :=
  forall e, engine_ok z e -> tracks (en_vm e) (en_vm (m e).1).

Lemma carries_bind {A B} F G z (m : M (ScanEngine D) ScanError A) (k : A -> M (ScanEngine D) ScanError B) P :
  safe F G z m P -> keeps z m -> (forall a, P a -> keeps z (k a)) -> keeps z (m ≫= k).
Proof.
  intros Hs Hm Hk e He. specialize (Hs e He). specialize (Hm e He). unfold mbind, M_bind.
  destruct (m e) as [e1 [a|x|]]; [|done..]. destruct Hs as [He1 Ha]. etrans; [exact Hm|by apply (Hk a)].
Qed.

Lemma keeps_steady {A} z (m : M (ScanEngine D) ScanError A) : steady same_vm m -> keeps z m.
Proof. intros Hm e _. by rewrite (Hm e). Qed.

Lemma keeps_then {A B} z (m : M (ScanEngine D) ScanError A) (k : A -> M (ScanEngine D) ScanError B) :
  keeps z m -> (forall a, steady same_vm (k a)) -> keeps z (m ≫= k).
Proof.
  intros Hm Hk e He. specialize (Hm e He). unfold mbind, M_bind.
  destruct (m e) as [e1 [a|x|]]; [|done..]. etrans; [exact Hm|]. by rewrite (Hk a e1).
Qed.

Lemma logic_keeps z task now : u_range 64 now -> keeps z (logic_or_fault task now).
Proof.
  intros Hnow e He. assert (Hrun : tracks (en_vm e) (en_vm (run_logic task now e).1)).
  { unfold run_logic, mbind, M_bind, m_gets. pose proof (eo_vm _ _ He) as Hvm.
    destruct (en_vm e) as [vm|] eqn:Ev; [|cbn; by rewrite Ev]. cbn in Hvm.
    unfold m_modify, plan_task, index. destruct (sp_tasks _ !! task) as [tp|]; [|by constructor].
    destruct (program_ok_flags z vm (Hooks.first_scan task (en_hooks e)) Hvm) as [Hvm1 _].
    destruct (run_entry_safe now (tp_entry tp) _ Hnow (pk_vm _ _ Hvm1)) as (vm' & r' & Hrun & _ & Hf & _). rewrite Hrun.
    assert (Hs : same_machine vm vm') by (etrans; [|apply frozen_same, Hf]; by split).
    destruct r' as [x|err|]; cbn [map_err m_lift]; [|by constructor..].
    destruct (v_retain_dirty vm'); constructor; [|done]. etrans; [exact Hs|by split]. }
  unfold logic_or_fault. by destruct (run_logic task now e) as [e1 [a|x|]].
Qed.

Lemma invoke_keeps z task (Hclock : forall n, u_range 64 (now_ns_at n)) (Hremote : forall n, Forall plc_ok (remote_at n).1) :
  (task < z_tasks z)%nat -> keeps z (invoke task).
Proof.
  intros Ht. unfold invoke.
  eapply (carries_bind False (fun _ => False) _ _ _ any); [apply safe_modify; [by intros; apply ok_hooks|done]|by apply keeps_steady, steady_modify|].
  intros _ _. eapply (carries_bind False (fun _ => False)); [by apply safe_now_ns|by apply keeps_steady; intros ?|]. intros t0 Ht0.
  eapply (carries_bind False (fun _ => False)); [by apply safe_plan_task|by apply keeps_steady; intros ?|]. intros tp _.
  eapply (carries_bind False (fun _ => False) _ _ _ any);
    [apply safe_modify; [by intros; apply ok_sample_inputs|done]|intros e _; apply sample_tracks|].
  intros _ _. eapply (carries_bind False (fun _ => False) _ _ _ any); [by apply safe_gets|by apply keeps_steady; intros ?|]. intros m _.
  apply keeps_then.
  - destruct (Mode.executes_logic m); [by apply logic_keeps, ms_range|by apply keeps_steady].
  - intros ran. apply (steady_bind same_vm); [by intros ?|]. intros t1.
    apply (steady_bind same_vm); [apply (steady_gets same_vm)|]. intros inject.
    apply (steady_bind same_vm); [apply steady_if; [apply steady_note_vm|apply (steady_ret same_vm)]|]. intros _.
    apply (steady_bind same_vm); [apply steady_task_vm|]. intros _.
    apply (steady_bind same_vm); [apply steady_modify, apply_outputs_vm|]. intros _.
    apply (steady_bind same_vm); [apply steady_if; [by apply steady_modify|apply (steady_ret same_vm)]|]. intros _.
    apply (steady_bind same_vm); [apply (steady_gets same_vm)|]. intros enabled.
    apply (steady_bind same_vm); [apply steady_if; [apply steady_publish_vm|apply (steady_ret same_vm)]|]. intros _.
    apply (steady_bind same_vm); [by apply steady_modify|]. intros _.
    apply (steady_bind same_vm); [apply steady_modify; intros ?; unfold finish_first_scan; by case_match|]. intros _.
    apply (steady_bind same_vm); [apply steady_task_vm|]. intros _.
    apply (steady_bind same_vm); [by apply steady_modify|]. intros _. apply (steady_ret same_vm).
Qed.

Lemma invoke_tracks z task e e' d (Hclock : forall n, u_range 64 (now_ns_at n)) (Hremote : forall n, Forall plc_ok (remote_at n).1) :
  engine_ok z e -> invoke task e = (e', Ok d) -> tracks (en_vm e) (en_vm e').
Proof.
  intros He Hi. assert (Ht : (task < z_tasks z)%nat).
  { unfold invoke in Hi. apply M_bind_Ok in Hi as (? & ? & [= <- <-] & Hi).
    apply M_bind_Ok in Hi as (t0 & ? & [= <- <-] & Hi). apply M_bind_Ok in Hi as (tp & ? & Htp & _).
    unfold plan_task, index in Htp. rewrite <-(eo_plan z e He).
    destruct (sp_tasks _ !! task) eqn:E; [|done]. by apply lookup_lt_Some in E. }
  pose proof (invoke_keeps z task Hclock Hremote Ht e He) as Hk. by rewrite Hi in Hk.
Qed.

(** ** The programs of an engine *)

(** The current program's machine and the armed one's. *)
Definition machine_of e vm : Prop := en_vm e = Some vm \/ exists a, en_armed e = Some a /\ ap_vm a = vm.

(** Each program [e'] holds, current or armed, is one that [e] held: its code, its
    entries and its user function blocks, on segments of the same size. *)
Definition inherits e e' : Prop := forall vm', machine_of e' vm' -> exists vm, machine_of e vm /\ same_machine vm vm'.

#[export] Instance inherits_pre : PreOrder inherits.
Proof.
  split; [intros e vm Hvm; by exists vm|]. intros x y z Hxy Hyz vm Hvm.
  destruct (Hyz vm Hvm) as (vm1 & H1 & Hs1). destruct (Hxy vm1 H1) as (vm2 & H2 & Hs2).
  exists vm2. split; [done|by etrans].
Qed.

Lemma inherits_tracks e e' : tracks (en_vm e) (en_vm e') -> en_armed e' = en_armed e -> inherits e e'.
Proof.
  intros Ht Ha vm' Hvm. destruct Hvm as [Hvm|Hvm].
  - rewrite Hvm in Ht. inversion Ht as [vm ? Hs Hv|]; subst. exists vm. split; [by left|done].
  - exists vm'. split; [right; by rewrite <-Ha|done].
Qed.

Lemma blit_copies_same z copies cur vm : Forall copy_ok copies -> program_ok z cur -> program_ok z vm ->
  same_machine vm (blit_copies copies cur vm).1.
Proof.
  intros Hc Hcur. revert vm. induction Hc as [|c copies (H1 & H2 & H3) _ IH]; intros vm Hvm; [done|].
  cbn [blit_copies]. unfold mbind, M_bind, blit_retain_from, update_field.
  destruct (Seg.blit_from _ _ _ _ _) as [x|x|] eqn:E; [|done..].
  destruct (blit_from_ok _ _ _ _ _ _ (ok_retain _ (pk_vm _ _ Hvm)) (ok_retain _ (pk_vm _ _ Hcur)) H2 H1 H3 E) as (Hx & Hsz & _).
  etrans; [|apply IH]; [by split|]. destruct Hvm as [Hok Hi Hq]. split; [|done..]. destruct Hok. by split.
Qed.

Lemma blit_same z a cur : armed_ok z a -> opt_ok (program_ok z) cur ->
  same_machine (ap_vm a) (ap_vm (blit_retain_into a cur).1).
Proof.
  intros [Ha _ Hc] Hcur. unfold blit_retain_into. destruct cur as [cur|]; [|done].
  pose proof (blit_copies_same z (ap_retain_copies a) cur (ap_vm a) Hc Hcur Ha) as Hs. by destruct (blit_copies _ _ _).
Qed.

Lemma install_inherits z e e' o : engine_ok z e -> try_epoch_install e = (e', Ok o) -> inherits e e'.
Proof.
  intros He Ht. apply try_install_spec in Ht.
  assert (Hsome : forall a a' r, en_armed e = Some a -> blit_retain_into a (en_vm e) = (a', r) ->
    exists vm, machine_of e vm /\ same_machine vm (ap_vm a')).
  { intros a a' r Ha Hb. exists (ap_vm a). split; [right; by exists a|].
    pose proof (eo_armed z e He) as Hok. rewrite Ha in Hok.
    pose proof (blit_same z a (en_vm e) Hok (eo_vm z e He)) as Hs. by rewrite Hb in Hs. }
  assert (Hboth : forall a a' r, en_armed e = Some a -> blit_retain_into a (en_vm e) = (a', r) ->
    en_vm e' = en_vm e -> en_armed e' = Some a' -> inherits e e').
  { intros a a' r Ha Hb Hv Ha' vm Hvm. destruct Hvm as [Hvm|(b & Hx & <-)].
    - exists vm. split; [left; congruence|done].
    - rewrite Ha' in Hx. injection Hx as <-. by eapply Hsome. }
  destruct o.
  - rewrite Ht. by apply inherits_tracks.
  - destruct Ht as (a & a' & r & Ha & _ & Hb & _ & Hi). intros vm Hvm.
    destruct Hvm as [Hvm|(b & Hx & _)]; [|by rewrite (is_armed _ _ _ Hi) in Hx].
    rewrite (is_vm _ _ _ Hi) in Hvm. injection Hvm as <-. by eapply Hsome.
  - destruct Ht as (a & a' & r & Ha & _ & Hb & Hs & _ & _ & Ha' & _). eapply Hboth; [done..| |done]. apply Hs.
  - destruct Ht as (a & a' & r & Ha & _ & Hb & _ & Hs & _ & _ & Ha' & _). eapply Hboth; [done..| |done]. apply Hs.
Qed.

Lemma invoke_inherits z task (Hclock : forall n, u_range 64 (now_ns_at n)) (Hremote : forall n, Forall plc_ok (remote_at n).1) e :
  (task < z_tasks z)%nat -> engine_ok z e -> inherits e (invoke task e).1.
Proof.
  intros Ht He. apply inherits_tracks; [by apply (invoke_keeps z)|]. apply (sb_armed _ _ (steady_invoke task e)).
Qed.

(** One turn of the scan loop, whatever its outcome. *)
Lemma turn_inherits z e (Hclock : forall n, u_range 64 (now_ns_at n)) (Hremote : forall n, Forall plc_ok (remote_at n).1) :
  engine_ok z e -> inherits e (due_turn e).1.
Proof.
  intros He. unfold due_turn, mbind, M_bind. pose proof (safe_try_install Hclock Hremote (fun _ => False) z e He) as Hs.
  destruct (try_epoch_install e) as [e1 [o|x|]] eqn:Ei; [|by destruct Hs..]. destruct Hs as [He1 _].
  etrans; [by eapply install_inherits|]. unfold now_ms, now_ns, mbind, M_bind, mret, M_ret, m_gets. cbv beta iota zeta.
  set (e2 := set_en_clock _ e1). assert (He2 : engine_ok z e2) by (destruct He1; by split).
  etrans; [exact (inherits_tracks e1 e2 (reflexivity _) eq_refl)|].
  match goal with |- context [pick_due ?t e2] => destruct (pick_due t e2) as [task|] eqn:Hp end; [|done].
  pose proof (invoke_inherits z task Hclock Hremote e2 ltac:(by eapply pick_due_in) He2) as Hv.
  by destruct (invoke task e2) as [e3 [d|x|]].
Qed.

Lemma boundary_inherits e : inherits e (apply_mode_boundary e).
Proof.
  apply inherits_tracks; [by rewrite boundary_vm|]. unfold apply_mode_boundary. case_decide; [done|].
  by destruct (Cell.apply_pending _) as [modes [[m []]|x|]].
Qed.

(** A step is a boundary and a turn: they differ in what they return. *)
Lemma step_turn e : (step e).1 = (due_turn (apply_mode_boundary e)).1.
Proof.
  unfold step, due_turn, mbind, M_bind, m_modify, mret, M_ret.
  destruct (try_epoch_install _) as [e1 [o|x|]]; [|done..]. destruct (now_ms e1) as [e2 [now|x|]]; [|done..].
  cbn. destruct (pick_due now e2) as [task|]; [|done]. by destruct (invoke task e2) as [e3 [d|x|]].
Qed.

(** ** Properties *)

(** C17: the engine is always well-formed, and nothing but a program's division of
    the least integer by -1 stops it: one step (mode boundary, install attempt,
    and the invocation of the most urgent due task, with whatever the clock, the
    driver, the remote snapshot and the telemetry consumer do) from a
    well-formed, settled engine never fails; it panics only in the run of a task's
    entry by the engine's machine, started at a time the clock has shown, when that
    run has got to the division of the least DINT, TIME or LINT by -1; otherwise it
    leaves a well-formed, settled engine of the same sizes. In both cases the programs
    the engine then holds are the ones it held, current or armed: the program that
    panicked is one of them. *)
Theorem step_keeps_engine (z : Sizes) (e e' : ScanEngine D) (r : res ScanError StepOutcome)
    (Hclock : forall n, u_range 64 (now_ns_at n))
    (Hremote : forall n, Forall plc_ok (remote_at n).1)
    (He : engine_ok z e) (Hsettled : settled e) (Hstep : step e = (e', r)) :
  match r with
  | Ok _ => engine_ok z e' /\ settled e' /\ inherits e e'
  | Err _ => False
  | Panic => machine_panicked z e' /\ inherits e e'
  end.
Proof.
  pose proof (safe_step Hclock Hremote z e He) as Hs. pose proof (step_turn e) as Ht. rewrite Hstep in Hs, Ht.
  assert (Hi : inherits e e').
  { cbn in Ht. rewrite Ht. etrans; [apply boundary_inherits|]. apply (turn_inherits z); [done..|by apply ok_boundary]. }
  destruct r as [o|x|]; [|by destruct Hs|done]. destruct Hs as [Hs _]. split; [done|]. split; [by eapply step_settled|done].
Qed.
End Track.

(** ** A concrete step *)

Lemma step_keeps_engine_witness :
  exists e e' d, engine_new demo_plan demo_io (Some demo_vm) = Ok e /\
    @step _ _ _ demo_env e = (e', Ok (StepRan 1 d)) /\
    engine_ok (mkSizes 2 2 2) e' /\ settled e' /\ inherits e e'.
Proof.
  destruct (engine_new demo_plan demo_io (Some demo_vm)) as [e| |] eqn:He; [|discriminate He..]. exists e.
  destruct (demo_engine_ok e He) as [Hok Hset].
  assert (Ho : match (@step _ _ _ demo_env e).2 with Ok (StepRan 1 _) => True | _ => False end)
    by (injection He as <-; vm_compute; exact I).
  destruct (@step _ _ _ demo_env e) as [e' r] eqn:Hs. exists e'.
  pose proof (@step_keeps_engine _ _ _ _ demo_env _ _ e' r demo_clock (fun n => List.Forall_nil _) Hok Hset Hs) as Hk.
  destruct r as [o| |]; [|destruct Ho..].
  destruct o as [n|[|[|i]] d]; try destruct Ho. by exists d.
Defined.
