(* ===== verification/ScanLoop.v ===== *)
(** * The scan loop catches up

    [run_due] of src/crates/plc-scan/src/engine.rs: after a stall it runs every
    missed period, and it returns. *)
From S2P Require Import Prelude Float32 IrTypes PlcTypes IoImage FbDispatch VmValue VmMemory VmExec.
From S2P Require Import VmInv ScanMode ScanParts ScanState ScanEngine ScanSchedule ScanInv ScanOutputs ScanSwap ScanTrack.

Section Loop.
Context {D : Type} `{!IoDriver D, !IoDriverLaws D, !NanRule, !ScanEnv}.
Implicit Types (e : ScanEngine D).

(** ** Due times *)

Definition dues e : list Z := map rt_next_due_ms (en_tasks e).

Definition same_dues e e' : Prop := dues e' = dues e.

#[export] Instance same_dues_pre : PreOrder same_dues.
Proof. split; [done|]. intros x y z H1 H2. unfold same_dues in *. by etrans. Qed.

Lemma dues_insert e i t x :
  en_tasks e !! i = Some t -> map rt_next_due_ms (<[i := set_rt_next_due_ms x t]> (en_tasks e)) = <[i := x]> (dues e).
Proof. intros _. unfold dues. by rewrite list_fmap_insert. Qed.

Lemma upd_task_dues i f : (forall t, rt_next_due_ms (f t) = rt_next_due_ms t) -> steady same_dues (upd_task i f).
Proof.
  intros Hf e. unfold upd_task. destruct (en_tasks e !! i) as [t|] eqn:Ht; [|done].
  unfold same_dues, dues. cbn [fst en_tasks set_en_tasks].
  change (map rt_next_due_ms) with (fmap (M:=list) rt_next_due_ms). rewrite list_fmap_insert, Hf.
  apply list_insert_id. by rewrite list_lookup_fmap, Ht.
Qed.

Lemma note_dues task d period : steady same_dues (note_duration task d period).
Proof.
  unfold note_duration.
  apply (steady_bind same_dues); [intros e; by destruct (Wd.note _ _ _ _)|]. intros trip.
  apply (steady_bind same_dues).
  - apply steady_if; [|apply (steady_ret same_dues)].
    apply (steady_bind same_dues); [by apply upd_task_dues|]. intros _. by apply steady_modify.
  - intros _. apply steady_if; [|apply (steady_ret same_dues)]. by apply steady_modify.
Qed.

Lemma sampled_tasks e : en_tasks (sampled e) = en_tasks e.
Proof.
  unfold sampled, sample_inputs, sample_program, sample_quality, sample_driver, sample_remote, fault_if.
  cbn. repeat case_match; cbn; repeat case_match; done.
Qed.

Lemma logic_tasks task now : steady (D:=D) same_tasks (logic_or_fault task now).
Proof.
  assert (Hrun : steady (D:=D) same_tasks (run_logic task now)).
  { unfold run_logic. apply (steady_bind same_tasks); [apply (steady_gets (D:=D) same_tasks)|]. intros [vm|]; [|by intros e].
    apply (steady_bind same_tasks); [apply (steady_gets (D:=D) same_tasks)|]. intros first.
    apply (steady_bind same_tasks); [by apply steady_modify|]. intros _.
    apply (steady_bind same_tasks); [apply (steady_plan_task same_tasks)|]. intros tp.
    destruct (run_entry _ _ _) as [[vm' r]|]; [|by intros e].
    apply (steady_bind same_tasks); [by apply steady_modify|]. intros _.
    apply (steady_bind same_tasks); [by intros e|]. intros _.
    apply (steady_bind same_tasks); [apply steady_if; [by apply steady_modify|apply (steady_ret same_tasks)]|]. intros _.
    by apply steady_modify. }
  intros e. specialize (Hrun e). unfold logic_or_fault.
  by destruct (run_logic task now e) as [e' [a|x|]].
Qed.

(** An invocation moves its task one period on, and no other. *)
Lemma invoke_dues task e e' d :
  invoke task e = (e', Ok d) ->
  exists tp x, sp_tasks (en_plan e) !! task = Some tp /\ dues e !! task = Some x /\
    dues e' = <[task := sat_add_u 64 x (tp_period_ms tp)]> (dues e).
Proof.
  intros Hi. destruct (invoke_stages _ _ _ _ Hi) as (tp & ran & e2 & e3 & e4 & Htp & Hl & Hn & Hr & _ & t & Ht & Hts).
  assert (H2 : dues e2 = dues e).
  { unfold dues. rewrite <-(sampled_tasks e). destruct (Mode.executes_logic _); [|by destruct Hl as [-> _]].
    pose proof (logic_tasks task (ms_of_ns (now_ns_at (en_clock e))) (sampled e)) as Hk.
    rewrite Hl in Hk. unfold same_tasks in Hk. cbn [fst] in Hk. by rewrite Hk. }
  assert (H3 : dues e3 = dues e2).
  { destruct (Mode.executes_logic _); [|by rewrite Hn].
    pose proof (note_dues task d (tp_period_ms tp) (set_en_clock (S (en_clock e2)) e2)) as Hk.
    by rewrite Hn in Hk. }
  assert (H4 : dues e4 = dues e3).
  { pose proof (upd_task_dues task (record_duration d) (fun _ => eq_refl) e3) as Hk. by rewrite Hr in Hk. }
  exists tp, (rt_next_due_ms t). split; [done|]. split.
  - rewrite <-H2, <-H3, <-H4. unfold dues. change (map rt_next_due_ms) with (fmap (M:=list) rt_next_due_ms).
    by rewrite list_lookup_fmap, Ht.
  - unfold dues at 1. rewrite Hts. rewrite (dues_insert _ _ _ _ Ht). by rewrite H4, H3, H2.
Qed.

(** ** The backlog *)

Definition periods_ok (tasks : list TaskPlan) : Prop := Forall (fun t => 0 < tp_period_ms t) tasks.

(** How far the due times lag behind [T], in milliseconds. *)
Definition backlog (T : Z) (ds : list Z) : nat := sum_list (map (fun x => Z.to_nat (T + 1 - x)) ds).

Lemma backlog_cons T x ds : backlog T (x :: ds) = (Z.to_nat (T + 1 - x) + backlog T ds)%nat.
Proof. done. Qed.

Lemma backlog_le T ds ds' : Forall2 Z.le ds ds' -> (backlog T ds' <= backlog T ds)%nat.
Proof. induction 1 as [|x y ds ds' Hxy _ IH]; [done|]. rewrite !backlog_cons. lia. Qed.

Lemma backlog_insert T ds i x y :
  ds !! i = Some x -> x <= T -> x < y -> (backlog T (<[i := y]> ds) < backlog T ds)%nat.
Proof.
  revert i. induction ds as [|z ds IH]; intros [|i] Hi Hx Hy; cbn in Hi; try done.
  - injection Hi as ->. change (<[0%nat := y]> (x :: ds)) with (y :: ds). rewrite !backlog_cons. lia.
  - specialize (IH i Hi Hx Hy). change (<[S i := y]> (z :: ds)) with (z :: <[i := y]> ds).
    rewrite !backlog_cons. lia.
Qed.

(** ** One turn of the loop *)

Section Turn.
Context (T : Z) (HT : T < 2 ^ 64 - 1).
Context (Hclock : forall n, u_range 64 (now_ns_at n) /\ ms_of_ns (now_ns_at n) <= T).
Context (Hremote : forall n, Forall plc_ok (remote_at n).1).

Lemma task_at_period tasks i : periods_ok tasks -> 0 <= tp_period_ms (task_at tasks i).
Proof.
  intros Hp. unfold task_at. destruct (tasks !! i) as [t|] eqn:E; cbn; [|done].
  pose proof (Forall_lookup_1 _ _ _ _ Hp E). cbn in *. lia.
Qed.

Lemma periods_set_entries es tasks : periods_ok tasks -> periods_ok (set_entries es tasks).
Proof.
  intros Hp. apply Forall_forall. intros t Ht. apply list_elem_of_lookup in Ht as [i Hi].
  unfold set_entries in Hi. rewrite list_lookup_imap in Hi.
  destruct (tasks !! i) as [u|] eqn:E; [|done]. pose proof (Forall_lookup_1 _ _ _ _ Hp E) as Hu.
  cbn in Hi, Hu. destruct (es !! i); by injection Hi as <-.
Qed.

(** An install attempt only moves due times forward. *)
Lemma try_install_dues e e' o :
  periods_ok (sp_tasks (en_plan e)) -> try_epoch_install e = (e', Ok o) ->
  Forall2 Z.le (dues e) (dues e') /\ periods_ok (sp_tasks (en_plan e')).
Proof using HT Hclock.
  intros Hp Ht. apply try_install_spec in Ht.
  assert (Hrefl : forall ds, Forall2 Z.le ds ds) by (intros ds; induction ds; constructor; [lia|done]).
  destruct o.
  - rewrite Ht. by split.
  - destruct Ht as (a & a' & r & _ & _ & _ & _ & Hi). split.
    + destruct (is_tasks _ _ _ Hi) as (k & highest & _ & Hts). unfold dues. rewrite Hts.
      apply Forall2_same_length_lookup_2; [by rewrite !length_map, length_imap|].
      intros i x y Hx Hy. change (map rt_next_due_ms) with (fmap (M:=list) rt_next_due_ms) in Hx, Hy.
      rewrite list_lookup_fmap in Hx, Hy. rewrite list_lookup_imap in Hy.
      destruct (en_tasks e !! i) as [t|]; [|done]. cbn in Hx, Hy. injection Hx as <-. injection Hy as <-.
      unfold skipped. case_match eqn:Hd; [|lia]. apply andb_true_iff in Hd as [_ Hd%Z.leb_le].
      pose proof (task_at_period _ i Hp). destruct (Hclock k). cbn. unfold sat_add_u. lia.
    + rewrite (is_plan _ _ _ Hi). by apply periods_set_entries.
  - destruct Ht as (a & a' & r & _ & _ & _ & Hs & _). unfold dues.
    by rewrite (sm_tasks _ _ Hs), (sm_plan _ _ Hs).
  - destruct Ht as (a & a' & r & _ & _ & _ & _ & Hs & _). unfold dues.
    by rewrite (sm_tasks _ _ Hs), (sm_plan _ _ Hs).
Qed.

(** A due task's invocation shrinks the backlog. *)
Lemma invoke_backlog z e e' now i d :
  engine_ok z e -> periods_ok (sp_tasks (en_plan e)) -> now <= T ->
  pick_due now e = Some i -> invoke i e = (e', Ok d) ->
  (backlog T (dues e') < backlog T (dues e))%nat /\ periods_ok (sp_tasks (en_plan e')).
Proof using HT.
  intros He Hp Hnow Hpick Hi.
  pose proof (sb_plan _ _ (steady_invoke i e)) as Hpl. rewrite Hi in Hpl. cbn [fst] in Hpl. rewrite Hpl.
  split; [|done]. destruct (invoke_dues _ _ _ _ Hi) as (tp & x & Htp & Hx & ->).
  pose proof (Forall_lookup_1 _ _ _ _ Hp Htp) as Hper. cbn in Hper.
  pose proof (find_due_spec (sp_tasks (en_plan e)) (en_tasks e) now) as Hf.
  unfold pick_due in Hpick. rewrite (eo_order z e He) in Hpick. rewrite Hpick in Hf.
  destruct Hf as [(t & Ht & Hdue) _]; [etrans; [by apply (eo_tasks z)|symmetry; by apply (eo_plan z)]|].
  unfold dues in Hx. change (map rt_next_due_ms) with (fmap (M:=list) rt_next_due_ms) in Hx.
  rewrite list_lookup_fmap, Ht in Hx. injection Hx as <-.
  apply (backlog_insert T _ _ (rt_next_due_ms t)); [|lia|unfold sat_add_u; lia].
  unfold dues. change (map rt_next_due_ms) with (fmap (M:=list) rt_next_due_ms). by rewrite list_lookup_fmap, Ht.
Qed.

(** No task is due at the last reading of the clock. *)
Definition caught_up e : Prop :=
  exists k, en_clock e = S k /\ forall j t, en_tasks e !! j = Some t -> ms_of_ns (now_ns_at k) < rt_next_due_ms t.

Lemma turn_safe z : safe False (machine_panicked z) z due_turn any.
Proof using Hclock Hremote. apply (safe_turn (fun n => proj1 (Hclock n)) Hremote). Qed.

(** One turn either ends the loop with nothing due, or shrinks the backlog. *)
Lemma turn_spec z e e' o :
  engine_ok z e -> settled e -> periods_ok (sp_tasks (en_plan e)) -> due_turn e = (e', Ok o) ->
  engine_ok z e' /\ settled e' /\
  match o with
  | None => caught_up e'
  | Some _ => periods_ok (sp_tasks (en_plan e')) /\ (backlog T (dues e') < backlog T (dues e))%nat
  end.
Proof using HT Hclock Hremote.
  intros He Hset Hp Ht. pose proof (turn_safe z e He) as Hs. rewrite Ht in Hs. split; [apply Hs|]. clear Hs.
  unfold due_turn in Ht. apply M_bind_Ok in Ht as (i & e1 & Hi & Ht).
  pose proof (safe_try_install (fun n => proj1 (Hclock n)) Hremote (fun _ => False) z e He) as Hs1.
  rewrite Hi in Hs1. destruct Hs1 as [He1 _].
  destruct (try_install_dues _ _ _ Hp Hi) as [Hle Hp1]. apply try_install_settled in Hi; [|done].
  apply backlog_le with (T := T) in Hle.
  apply M_bind_Ok in Ht as (now & e2 & Hn & Ht). injection Hn as <- <-.
  apply M_bind_Ok in Ht as (due & e3 & [= <- <-] & Ht).
  set (e2 := set_en_clock (S (en_clock e1)) e1) in *.
  assert (He2 : engine_ok z e2) by (destruct He1; by split).
  assert (Hset2 : settled e2) by (destruct Hi; by split).
  destruct (pick_due _ e2) as [task|] eqn:Hpick.
  - apply M_bind_Ok in Ht as (d & e3 & Hv & Ht). injection Ht as <- <-.
    destruct (invoke_backlog z e2 e3 _ task d He2 Hp1 (proj2 (Hclock _)) Hpick Hv) as [Hlt Hp3].
    change (dues e2) with (dues e1) in Hlt. split; [by eapply invoke_settled|]. split; [done|lia].
  - injection Ht as <- <-. split; [done|]. exists (en_clock e1). split; [done|].
    pose proof (find_due_spec (sp_tasks (en_plan e2)) (en_tasks e2) (ms_of_ns (now_ns_at (en_clock e1)))) as Hf.
    unfold pick_due in Hpick. rewrite (eo_order z e2 He2) in Hpick. rewrite Hpick in Hf.
    apply Hf. etrans; [by apply (eo_tasks z)|symmetry; by apply (eo_plan z)].
Qed.

Lemma due_loop_catches_up z fuel n e :
  engine_ok z e -> settled e -> periods_ok (sp_tasks (en_plan e)) -> (backlog T (dues e) < fuel)%nat ->
  exists e' r, due_loop fuel n e = Some (e', r) /\
    match r with
    | Ok _ => engine_ok z e' /\ settled e' /\ inherits e e' /\ caught_up e'
    | Err _ => False
    | Panic => machine_panicked z e' /\ inherits e e'
    end.
Proof using HT Hclock Hremote.
  revert n e. induction fuel as [|fuel IH]; intros n e He Hset Hp Hb; [lia|]. cbn [due_loop].
  pose proof (turn_safe z e He) as Hs. pose proof (turn_inherits z e (fun n => proj1 (Hclock n)) Hremote He) as Hi.
  destruct (due_turn e) as [e1 [o|x|]] eqn:Ht; [|by destruct Hs|by exists e1, Panic]. cbn [fst] in Hi.
  destruct (turn_spec _ _ _ _ He Hset Hp Ht) as (He1 & Hset1 & Ho).
  destruct o as [task|]; [|by exists e1, (Ok n)]. destruct Ho as [Hp1 Hlt].
  destruct (IH (sat_add_u 32 n 1) e1 He1 Hset1 Hp1 ltac:(lia)) as (e' & r & Hl & Hr). exists e', r. split; [exact Hl|].
  destruct r; [|done|]; [destruct Hr as (? & ? & Hi2 & ?)|destruct Hr as [? Hi2]]; repeat (split; try done); etrans; eassumption.
Qed.
End Turn.

(** ** Properties *)

(** C19: the loop catches up and returns. If the clock never shows more than [T]
    milliseconds and every period is positive, [run_due] returns within one turn
    more than the due times lag behind [T] in all (each invocation moves its
    task a whole period on): it never fails, panics only when the machine does, in the
    run of a task's entry that has got to the division of the least DINT, TIME or LINT
    by -1, and when it returns without a panic no task is due at the last time it read,
    in a well-formed, settled engine. The programs the engine then holds are the ones
    it held, current or armed. *)
Theorem run_due_catches_up (z : Sizes) (T : Z) (e : ScanEngine D) (fuel : nat)
    (HT : T < 2 ^ 64 - 1)
    (Hclock : forall n, u_range 64 (now_ns_at n) /\ ms_of_ns (now_ns_at n) <= T)
    (Hremote : forall n, Forall plc_ok (remote_at n).1)
    (He : engine_ok z e) (Hsettled : settled e) (Hperiods : periods_ok (sp_tasks (en_plan e)))
    (Hfuel : (backlog T (dues e) < fuel)%nat) :
  exists e' r, run_due fuel e = Some (e', r) /\
    match r with
    | Ok _ => engine_ok z e' /\ settled e' /\ inherits e e' /\ caught_up e'
    | Err _ => False
    | Panic => machine_panicked z e' /\ inherits e e'
    end.
Proof.
  unfold run_due. assert (Hsame : dues (apply_mode_boundary e) = dues e /\ en_plan (apply_mode_boundary e) = en_plan e).
  { unfold apply_mode_boundary. case_decide; [done|]. by destruct (Cell.apply_pending _) as [modes [[m []]|x|]]. }
  destruct Hsame as [Hd Hpl].
  destruct (due_loop_catches_up T HT Hclock Hremote z fuel 0 (apply_mode_boundary e)) as (e' & r & Hl & Hr);
    [by apply ok_boundary|by apply boundary_settled|by rewrite Hpl|by rewrite Hd|].
  exists e', r. split; [done|]. pose proof (boundary_inherits e) as Hb.
  destruct r; [|done|]; [destruct Hr as (? & ? & Hi & ?)|destruct Hr as [? Hi]]; repeat (split; try done); etrans; eassumption.
Qed.
End Loop.

(** The clock has stopped at 40 ms. *)
Definition stalled_env : ScanEnv :=
  {| now_ns_at _ := 40000000; contended_at _ := false; received_at _ := 0%nat; remote_at _ := ([], []) |}.

Lemma run_due_catches_up_witness :
  exists e e', engine_new demo_plan demo_io (Some demo_vm) = Ok e /\
    @run_due _ _ _ stalled_env 83 e = Some (e', Ok 6) /\
    engine_ok (mkSizes 2 2 2) e' /\ settled e' /\ inherits e e' /\ @caught_up _ stalled_env e'.
Proof.
  destruct (engine_new demo_plan demo_io (Some demo_vm)) as [e| |] eqn:He; [|discriminate He..]. exists e.
  destruct (demo_engine_ok e He) as [Hok Hset].
  assert (Hn : match @run_due _ _ _ stalled_env 83 e with Some (_, Ok n) => n = 6 | _ => False end)
    by (injection He as <-; vm_compute; reflexivity).
  destruct (@run_due_catches_up _ _ _ _ stalled_env (mkSizes 2 2 2) 40 e 83) as (e' & r & Hrun & Hr).
  - lia.
  - intros n. split; [unfold u_range; cbn [now_ns_at stalled_env]; lia|vm_compute; discriminate].
  - intros n. constructor.
  - done.
  - done.
  - injection He as <-. repeat constructor.
  - injection He as <-. vm_compute. lia.
  - exists e'. rewrite Hrun in Hn. destruct r as [n| |]; [subst n|destruct Hn..]. done.
Defined.
