(* ===== verification/ConfigUse.v ===== *)
(** * A valid configuration is usable

    src/crates/plc-config/src/validate.rs checks a device configuration;
    plc-auth/src/service.rs and plc-scan/src/engine.rs check the parts they use
    again, each in its own way. Here the three are compared. *)
From S2P Require Import Prelude Text Float32 Float64 Config AuthTypes AuthLockout AuthService.
From S2P Require Import IrTypes PlcTypes IoImage FbDispatch VmValue VmMemory VmExec ScanMode ScanParts ScanState.

(** ** Hashes: distinct texts and distinct values *)

Definition hex_64 (h : bytes) : Prop := length h = 64%nat /\ forallb is_ascii_hexdigit h = true.

Lemma check_sha256_hex_Ok h : check_sha256_hex h = Ok tt <-> hex_64 h.
Proof.
  unfold check_sha256_hex, hex_64. destruct (Nat.eqb_spec (length h) 64), (forallb _ h); cbn; naive_solver.
Qed.

Lemma hex_decode_32_valid h : trim h = h ->
  (hex_64 h /\ exists out, hex_decode_32 h = Ok out /\ hex_decode_loop h = Ok out) \/
  (~ hex_64 h /\ exists e, hex_decode_32 h = Err e).
Proof.
  intros Ht. unfold hex_decode_32, hex_64. rewrite Ht.
  destruct (Nat.eqb_spec (length h) 64), (forallb is_ascii_hexdigit h) eqn:E; cbn; try (right; naive_solver).
  left. destruct (hex_decode_loop_ok h E) as (out & Ho & _). eauto.
Qed.

(** The lower-case texts seen and the values seen are the same hashes. *)
Definition same_hashes (texts values : gset bytes) : Prop :=
  forall h out, hex_64 h -> hex_decode_loop h = Ok out -> to_ascii_lowercase h ∈ texts <-> out ∈ values.

Lemma hex_64_even h : hex_64 h -> Nat.Even (length h).
Proof. intros [-> _]. by exists 32%nat. Qed.

Lemma same_hashes_add texts values h out :
  same_hashes texts values -> hex_64 h -> hex_decode_loop h = Ok out ->
  same_hashes ({[to_ascii_lowercase h]} ∪ texts) ({[out]} ∪ values).
Proof.
  intros Hs Hh Ho h' out' Hh' Ho'. rewrite !elem_of_union, !elem_of_singleton, (Hs _ _ Hh' Ho').
  assert (He : hex_decode_loop h' = hex_decode_loop h <-> to_ascii_lowercase h' = to_ascii_lowercase h).
  { destruct Hh as [Hl Hx], Hh' as [Hl' Hx']. apply hex_decode_loop_eq; try done; [congruence|].
    by apply hex_64_even. }
  rewrite Ho, Ho' in He. rewrite <-He. naive_solver congruence.
Qed.

(** One hash of a principal is accepted by the validator and by the service alike. *)
Lemma hash_agrees s texts values :
  same_hashes texts values ->
  (exists texts' o values', check_hash (nonempty_hash s) texts = Ok texts' /\
     parse_optional_hash s = Ok o /\ insert_hash o values = Ok values' /\ same_hashes texts' values' /\
     (o = None <-> nonempty_hash s = None)) \/
  ((exists e, check_hash (nonempty_hash s) texts = Err e) /\
   ((exists e, parse_optional_hash s = Err e) \/
    exists o e, parse_optional_hash s = Ok o /\ insert_hash o values = Err e)).
Proof.
  intros Hs. unfold check_hash, parse_optional_hash. destruct (nonempty_hash s) as [h|] eqn:Hn.
  2: { left. exists texts, None, values. done. }
  assert (Ht : trim h = h).
  { unfold nonempty_hash in Hn. destruct s as [t|]; [|done]. pose proof (trim_idem t).
    destruct (trim t); [done|]. by injection Hn as <-. }
  destruct (hex_decode_32_valid h Ht) as [(Hh & out & Hd & Ho)|(Hh & e & Hd)]; rewrite Hd; cbn [mbind res_bind].
  - rewrite (proj2 (check_sha256_hex_Ok h) Hh). cbn [insert_hash mbind res_bind].
    pose proof (Hs _ _ Hh Ho) as Hiff. case_bool_decide as Hin.
    + right. split; [by eexists|]. right. exists (Some out). eexists. split; [done|].
      cbn. rewrite bool_decide_eq_true_2 by tauto. done.
    + left. do 3 eexists. split; [done|]. split; [done|]. cbn.
      rewrite bool_decide_eq_false_2 by tauto. split; [done|]. split; [by apply same_hashes_add|done].
  - right. split; [|left; by eexists]. destruct (check_sha256_hex h) as [[]|e'|] eqn:Hc.
    + by apply check_sha256_hex_Ok in Hc.
    + cbn. by eexists.
    + unfold check_sha256_hex in Hc. by destruct (_ || _).
Qed.

(** ** Roles *)

Lemma role_agrees s :
  to_ascii_lowercase (trim s) ∈ AUTH_ROLES <-> exists r, RoleOps.parse s = Ok r.
Proof.
  unfold RoleOps.parse, AUTH_ROLES. cbn [map]. rewrite !elem_of_cons, elem_of_nil.
  repeat case_bool_decide; naive_solver.
Qed.

Lemma role_parse_err s : to_ascii_lowercase (trim s) ∉ AUTH_ROLES -> exists e, RoleOps.parse s = Err e.
Proof.
  rewrite role_agrees. intros Hn. destruct (RoleOps.parse s) eqn:E; [by destruct Hn; eauto|eauto|].
  unfold RoleOps.parse in E. by repeat case_bool_decide.
Qed.

(** ** Principals *)

Lemma principals_agree ps ids texts values texts' values' :
  same_hashes texts values -> same_hashes texts' values' ->
  is_ok (check_principals ids texts texts' ps) = is_ok (load_principals ps ids values values').
Proof.
  revert ids texts values texts' values'. induction ps as [|p ps IH]; intros ids texts values texts' values' Hs Hs'; [done|].
  cbn [check_principals load_principals]. unfold load_principal.
  destruct (trim (pc_id p)) as [|z l] eqn:Hid; [done|]. case_bool_decide as Hin; [done|].
  destruct (decide (to_ascii_lowercase (trim (pc_role p)) ∈ AUTH_ROLES)) as [Hr|Hr].
  2: { rewrite bool_decide_eq_false_2 by done. destruct (role_parse_err _ Hr) as [e ->]. done. }
  rewrite bool_decide_eq_true_2 by done. apply role_agrees in Hr as [role ->]. cbn [negb mbind res_bind].
  destruct (hash_agrees (pc_token_sha256 p) _ _ Hs)
    as [(t1 & o1 & v1 & -> & -> & Hi1 & Hs1 & Hn1)|([e1 ->] & [[e2 ->]|(o1 & e2 & -> & Hi1)])];
    cbn [mbind res_bind].
  - destruct (hash_agrees (pc_cert_sha256 p) _ _ Hs')
      as [(t2 & o2 & v2 & -> & -> & Hi2 & Hs2 & Hn2)|([e1 ->] & [[e2 ->]|(o2 & e2 & -> & Hi2)])];
      cbn [mbind res_bind].
    + assert (Hb : neither (nonempty_hash (pc_token_sha256 p)) (nonempty_hash (pc_cert_sha256 p)) = neither o1 o2).
      { unfold neither. destruct (nonempty_hash (pc_token_sha256 p)), (nonempty_hash (pc_cert_sha256 p)), o1, o2; naive_solver. }
      rewrite Hb. destruct (neither o1 o2); [done|].
      rewrite Hi1, Hi2. cbn [mbind res_bind]. rewrite (IH _ _ _ _ _ Hs1 Hs2).
      destruct (load_principals ps _ _ _); done.
    + by destruct (neither _ _).
    + destruct (neither _ _);
        destruct (neither o1 o2); try done; rewrite Hi1; cbn [mbind res_bind];
        by rewrite Hi2.
  - by destruct (neither _ _).
  - destruct (neither _ _);
      destruct (parse_optional_hash (pc_cert_sha256 p)) as [o2| |]; try done; cbn [mbind res_bind];
      destruct (neither o1 o2); try done; by rewrite Hi1.
Qed.

(** ** Tasks *)

Lemma validate_from_ok names tasks :
  tasks_ok tasks -> Forall (fun t => tc_name t ∉ names) tasks ->
  validate_from names (map plan_task_of tasks) = Ok tt.
Proof.
  intros [Hf Hn]. revert names Hf Hn. induction tasks as [|t tasks IH]; intros names Hf Hn Hns; [done|].
  apply Forall_cons in Hf as [(H1 & H2 & H3 & _) Hf]. apply Forall_cons in Hns as [Hx Hns].
  cbn [map] in Hn. apply NoDup_cons in Hn as [Hnew Hn]. cbn [map validate_from plan_task_of tp_name tp_period_ms tp_entry].
  rewrite H1, H2, bool_decide_eq_false_2, (proj2 (Z.eqb_neq _ _) H3) by done. apply IH; [done|done|].
  rewrite Forall_forall in *. intros y Hy. rewrite not_elem_of_union, not_elem_of_singleton. split; [|by apply Hns].
  intros He. apply Hnew. rewrite <-He. apply list_elem_of_In, in_map. by apply list_elem_of_In.
Qed.

(** ** The configuration as a whole *)

(** The service and the scan plan can be built from [cfg]. *)
Definition usable (cfg : DeviceConfig) : Prop :=
  exists svc plan, from_config (dc_auth cfg) (dc_limits cfg) = Ok svc /\ plan_from_config cfg = Ok plan.

Lemma validate_auth_agrees auth limits : is_ok (validate_auth auth) = is_ok (from_config auth limits).
Proof.
  unfold validate_auth, from_config. destruct (au_lockout_secs auth =? 0); [done|].
  destruct (au_required auth && _); [done|].
  rewrite (principals_agree (au_principals auth) ∅ ∅ ∅ ∅ ∅) by (intros h out _ _; set_solver).
  by destruct (load_principals _ _ _ _).
Qed.

(** C37: the authentication section passes validation exactly when the service can be
    built from it; a configuration that passes validation is returned unchanged, the
    service and the scan plan can be built from it, and in the production profile it
    lets nobody in without credentials. *)
Theorem valid_config_usable `{!Sha256} (cfg : DeviceConfig) :
  is_ok (validate_auth (dc_auth cfg)) = is_ok (from_config (dc_auth cfg) (dc_limits cfg)) /\
  (forall c, validate cfg = Ok c ->
     c = cfg /\ usable cfg /\ (dc_profile cfg = Prod -> forall p, ~ grants (dc_auth cfg) CredNone p)).
Proof.
  split; [apply validate_auth_agrees|]. intros c Hv. unfold validate in Hv.
  destruct (negb _); [done|]. rewrite !seq_Ok, !refuse_if_Ok in Hv.
  destruct Hv as ([_ _] & [Hne _] & Htasks & _ & _ & _ & _ & _ & _ & _ & _ & _ & Hauth & _ & [Hprod _] & Hc).
  apply Ok_inj in Hc as <-. split; [done|]. split.
  - pose proof (validate_auth_agrees (dc_auth cfg) (dc_limits cfg)) as Ha. rewrite Hauth in Ha.
    destruct (from_config _ _) as [svc| |] eqn:Hs; try done. exists svc.
    assert (Hp : validate_tasks (map plan_task_of (sc_tasks (dc_scan cfg))) = Ok tt).
    { apply check_tasks_Ok in Htasks as [Hok Hns]. unfold validate_tasks.
      destruct (sc_tasks (dc_scan cfg)) as [|t ts] eqn:E; [done|]. cbn [map].
      change (plan_task_of t :: map plan_task_of ts) with (map plan_task_of (t :: ts)). by apply validate_from_ok. }
    eexists. split; [done|]. unfold plan_from_config. rewrite Hp. reflexivity.
  - intros Hpr p Hg. apply grants_inv in Hg as [Hr _]. by rewrite Hpr, Hr in Hprod.
Qed.

Definition demo_config : DeviceConfig :=
  let c := minimal_config (bstr "line-1") [mkTaskConfig (bstr "main") 10 (bstr "task.main") 1] in
  mkDeviceConfig (dc_version c) Prod (dc_device c) (dc_scan c) (dc_telemetry c) (dc_paths c) (dc_limits c)
    (mkProgramConfig true) demo_auth (dc_io c) (dc_watchdog c) (dc_stop_output_policy c) (dc_rest c).

Lemma valid_config_usable_witness :
  validate demo_config = Ok demo_config /\ usable demo_config /\
  forall p, ~ grants (dc_auth demo_config) CredNone p.
Proof.
  assert (Hv : validate demo_config = Ok demo_config) by (vm_compute; reflexivity). split; [exact Hv|].
  destruct (proj2 (valid_config_usable demo_config) _ Hv) as (_ & Hu & Hp). split; [exact Hu|].
  apply Hp. reflexivity.
Defined.
