(* ===== verification/PkgManifest.v ===== *)
(** * Package manifests and compatibility

    Crate [plc-package], src/crates/plc-package/src: the manifest (manifest.rs), its
    field checks, and the preimage of its compatibility hash (compat.rs). Reading a
    manifest from JSON is serde's, checking a semantic version the semver crate's. *)
From S2P Require Import Prelude Text IrTypes RetainLayout AuthTypes.

(** ** error.rs *)

Inductive PackageError :=
  | TooLarge (n : Z)
  | BadMagic
  | CborRejected
  | UnsupportedVersion (v : Z)
  | Truncated (what : string)
  | TrailingBytes
  | Json (msg : string)
  | Jcs (msg : string)
  | ManifestInvalid (msg : string)
  | BadSignature
  | Unsigned
  | SectionCount (n : Z)
  | PkgSpbc (e : IrError)
  | PkgVerify (e : VerifyError)
  | ManifestSpbcMismatch (msg : string)
  | CompatibilityHash
  | InvalidProgramId (id : bytes).

(** The primitive ABI of src/crates/plc-fb-primitives/src/lib.rs, which manifests name. *)
Definition PRIMITIVE_ABI : Z := 1.

(** ** manifest.rs *)

Inductive RestartPolicy := RpSafeReset | RpBumpless.

Inductive TagKind := TkI | TkQ | TkM | TkR | TkInternal.

#[export] Instance tag_kind_eq_dec : EqDecision TagKind.
Proof. solve_decision. Defined.

(** [IrTypeName] is a transparent wrapper of [IrType]. *)
Definition type_name (t : IrType) : string :=
  match t with
  | TBool => "BOOL" | TInt => "INT" | TDint => "DINT" | TReal => "REAL" | TTime => "TIME" | TLint => "LINT"
  end.

(** A name among the constant names of a [match] or of an enum. *)
Fixpoint variant {A} (arms : list (string * A)) (s : bytes) : option A :=
  match arms with
  | [] => None
  | (n, a) :: arms => if bool_decide (s = bstr n) then Some a else variant arms s
  end.

Definition type_of_name (s : bytes) : res PackageError IrType :=
  ok_or (variant [("BOOL", TBool); ("INT", TInt); ("DINT", TDint); ("REAL", TReal); ("TIME", TTime); ("LINT", TLint)]%string s)
    (ManifestInvalid "unknown IR type").

Record ManifestRetainSymbol := mkRetainSym { mr_name : bytes; mr_ty : IrType; mr_offset : Z }.

Record TagEntry := mkTag { te_name : bytes; te_ty : IrType; te_kind : TagKind; te_slot : option Z }.

(** [mf_task_entries] is sorted by name, as the [BTreeMap] is. *)
Record Manifest := mkManifest {
  mf_id : bytes;
  mf_version : bytes;
  mf_build_id : bytes;
  mf_ir_major : Z;
  mf_ir_minor : Z;
  mf_primitive_abi : Z;
  mf_task_entries : list (bytes * bytes);
  mf_retain_symbols : list ManifestRetainSymbol;
  mf_tag_dictionary : list TagEntry;
  mf_restart_policy : RestartPolicy;
  mf_compatibility_hash : bytes;
  mf_input_slots : option Z;
  mf_output_slots : option Z;
  mf_data_size : option Z;
  mf_retain_size : option Z;
  mf_const_size : option Z }.

Definition set_compatibility_hash (h : bytes) (m : Manifest) : Manifest :=
  mkManifest (mf_id m) (mf_version m) (mf_build_id m) (mf_ir_major m) (mf_ir_minor m) (mf_primitive_abi m)
    (mf_task_entries m) (mf_retain_symbols m) (mf_tag_dictionary m) (mf_restart_policy m) h
    (mf_input_slots m) (mf_output_slots m) (mf_data_size m) (mf_retain_size m) (mf_const_size m).

Definition id_char (b : Z) : bool :=
  in_rangeb 48 57 b || in_rangeb 65 90 b || in_rangeb 97 122 b || (b =? 46) || (b =? 95) || (b =? 45).

Definition validate_program_id (id : bytes) : res PackageError unit :=
  if bool_decide (id = []) || bool_decide (id = bstr ".") || bool_decide (id = bstr "..") || negb (forallb id_char id)
  then Err (InvalidProgramId id)
  else Ok tt.

Definition is_lowercase_hex_sha256 (s : bytes) : bool :=
  (length s =? 64)%nat && forallb (fun b => in_rangeb 48 57 b || in_rangeb 97 102 b) s.

Definition is_control (b : Z) : bool := (b <? 0x20) || (b =? 0x7F).

Definition reject_ascii_controls (label : string) (name : bytes) : res PackageError unit :=
  if existsb is_control name then Err (ManifestInvalid label) else Ok tt.

(** [semver::Version::parse(..).is_ok()]. *)
Class Semver := { semver : bytes -> bool }.

Fixpoint check_task_entries (l : list (bytes * bytes)) : res PackageError unit :=
  match l with
  | [] => Ok tt
  | (name, symbol) :: l =>
      if bool_decide (name = []) || bool_decide (symbol = []) then Err (ManifestInvalid "task_entries")
      else reject_ascii_controls "task name" name ;; check_task_entries l
  end.

Fixpoint check_retain_names (l : list ManifestRetainSymbol) : res PackageError unit :=
  match l with
  | [] => Ok tt
  | s :: l => reject_ascii_controls "retain name" (mr_name s) ;; check_retain_names l
  end.

Fixpoint check_tag_names (l : list TagEntry) : res PackageError unit :=
  match l with
  | [] => Ok tt
  | t :: l =>
      (if bool_decide (te_kind t = TkQ) then reject_ascii_controls "%Q name" (te_name t) else Ok tt) ;;
      check_tag_names l
  end.

Definition validate_fields `{Semver} (m : Manifest) : res PackageError unit :=
  validate_program_id (mf_id m) ;;
  if negb (semver (mf_version m)) then Err (ManifestInvalid "version is not semver")
  else if bool_decide (mf_build_id m = []) then Err (ManifestInvalid "build_id must be non-empty")
  else if bool_decide (mf_task_entries m = []) then Err (ManifestInvalid "task_entries must not be empty")
  else
    check_task_entries (mf_task_entries m) ;;
    check_retain_names (mf_retain_symbols m) ;;
    check_tag_names (mf_tag_dictionary m) ;;
    if negb (is_lowercase_hex_sha256 (mf_compatibility_hash m)) then Err (ManifestInvalid "compatibility_hash")
    else Ok tt.

Definition to_retain_symbol (s : ManifestRetainSymbol) : RetainSymbol :=
  {| sym_name := mr_name s; sym_ty := mr_ty s; sym_offset := mr_offset s |}.

Definition retain_layout (m : Manifest) (retain_size : Z) : res PackageError RetainLayout :=
  map_err (fun e => match e with IrRetainLayout msg => ManifestSpbcMismatch msg | other => PkgSpbc other end)
    (layout_new retain_size (map to_retain_symbol (mf_retain_symbols m))).

(** ** compat.rs *)

Definition TAB : Z := 9.
Definition LF : Z := 10.

Definition decimal_z (n : Z) : bytes := bstr (pretty n).

(** One line of a named and typed item. *)
Definition typed_line (c : Z) (name : bytes) (ty : IrType) : bytes :=
  [c; TAB] ++ name ++ [TAB] ++ bstr (type_name ty) ++ [LF].

Definition task_line (name : bytes) : bytes := [84; TAB] ++ name ++ [LF].

Definition retain_gt (a b : ManifestRetainSymbol) : bool :=
  bool_decide (bytes_cmp (mr_name a) (mr_name b) = Datatypes.Gt).
Definition tag_gt (a b : TagEntry) : bool := bool_decide (bytes_cmp (te_name a) (te_name b) = Datatypes.Gt).
Definition key_gt (a b : bytes) : bool := bool_decide (bytes_cmp a b = Datatypes.Gt).

Definition is_q (t : TagEntry) : bool := bool_decide (te_kind t = TkQ).

Definition compatibility_preimage (m : Manifest) : bytes :=
  bstr "ir_major=" ++ decimal_z (mf_ir_major m) ++ [LF] ++
  bstr "primitive_abi=" ++ decimal_z (mf_primitive_abi m) ++ [LF] ++
  flat_map (fun s => typed_line 82 (mr_name s) (mr_ty s)) (sort_by retain_gt (mf_retain_symbols m)) ++
  flat_map (fun t => typed_line 81 (te_name t) (te_ty t)) (sort_by tag_gt (List.filter is_q (mf_tag_dictionary m))) ++
  flat_map task_line (sort_by key_gt (map fst (mf_task_entries m))).

(** Hexadecimal digits are [AuthTypes.hex_encode]'s. *)
Definition compute_compatibility_hash `{Sha256} (m : Manifest) : bytes :=
  hex_encode (sha256 (compatibility_preimage m)).
