(* ===== verification/PkgJson.v ===== *)
(** * Canonical JSON

    Crate [plc-package], src/crates/plc-package/src/jcs.rs: the strict values a manifest is
    made of, the gate that admits them, and their canonical bytes. Reading and writing JSON
    is serde_json's; [Doc] is the document its reader hands to a visitor, in source order.
    Canonical bytes are self-delimiting: two values with canonical prefixes of the same
    bytes are equal. The reader that shows it is also a JSON library that has the laws
    assumed of serde_json. *)
From stdpp Require Import sorting.
From S2P Require Import Prelude Text AuthTypes IrTypes PkgManifest.

(** ** Documents *)

(** A number with a fraction, an exponent or 20 digits is a float to the reader. *)
Inductive Doc :=
  | DNull
  | DBool (b : bool)
  | DInt (n : Z)
  | DFloat
  | DStr (s : bytes)
  | DArr (items : list Doc)
  | DObj (members : list (bytes * Doc)).

(** Induction that sees through the lists. *)
Definition Doc_deep_ind (P : Doc -> Prop) (Hnull : P DNull) (Hbool : forall b, P (DBool b)) (Hint : forall n, P (DInt n))
    (Hfloat : P DFloat) (Hstr : forall s, P (DStr s)) (Harr : forall l, Forall P l -> P (DArr l))
    (Hobj : forall l, Forall (fun p => P p.2) l -> P (DObj l)) : forall d, P d :=
  fix go d := match d with
  | DNull => Hnull
  | DBool b => Hbool b
  | DInt n => Hint n
  | DFloat => Hfloat
  | DStr s => Hstr s
  | DArr l => Harr l ((fix items l := match l return Forall P l with
                       | [] => Forall_nil_2 P
                       | x :: l => Forall_cons_2 P x l (go x) (items l) end) l)
  | DObj l => Hobj l ((fix members l := match l return Forall (fun p => P p.2) l with
                       | [] => Forall_nil_2 _
                       | (k, x) :: l => Forall_cons_2 (fun p => P p.2) (k, x) l (go x) (members l) end) l)
  end.

(** What a [String], an [i64] or [u64] holds. *)
Fixpoint doc_ok (d : Doc) : bool :=
  match d with
  | DNull | DBool _ | DFloat => true
  | DInt n => (- 2 ^ 63 <=? n) && (n <? 2 ^ 64)
  | DStr s => utf8_valid s
  | DArr l => forallb doc_ok l
  | DObj l => forallb (fun p => utf8_valid p.1 && doc_ok p.2) l
  end.

(** ** jcs.rs *)

(** An object is a [BTreeMap]: its members are sorted by key. *)
Inductive StrictValue :=
  | SBool (b : bool)
  | SInteger (n : Z)
  | SString (s : bytes)
  | SArray (items : list StrictValue)
  | SObject (map : list (bytes * StrictValue)).

Definition Strict_deep_ind (P : StrictValue -> Prop) (Hbool : forall b, P (SBool b)) (Hint : forall n, P (SInteger n))
    (Hstr : forall s, P (SString s)) (Harr : forall l, Forall P l -> P (SArray l))
    (Hobj : forall l, Forall (fun p => P p.2) l -> P (SObject l)) : forall v, P v :=
  fix go v := match v with
  | SBool b => Hbool b
  | SInteger n => Hint n
  | SString s => Hstr s
  | SArray l => Harr l ((fix items l := match l return Forall P l with
                       | [] => Forall_nil_2 P
                       | x :: l => Forall_cons_2 P x l (go x) (items l) end) l)
  | SObject l => Hobj l ((fix members l := match l return Forall (fun p => P p.2) l with
                       | [] => Forall_nil_2 _
                       | (k, x) :: l => Forall_cons_2 (fun p => P p.2) (k, x) l (go x) (members l) end) l)
  end.

(** [BTreeMap::insert] and [get]. *)
Fixpoint obj_insert {A} (k : bytes) (v : A) (l : list (bytes * A)) : list (bytes * A) :=
  match l with
  | [] => [(k, v)]
  | (k', v') :: l' =>
      match bytes_cmp k k' with
      | Datatypes.Lt => (k, v) :: l
      | Datatypes.Eq => (k, v) :: l'
      | Datatypes.Gt => (k', v') :: obj_insert k v l'
      end
  end.

Fixpoint assoc {A} (k : bytes) (l : list (bytes * A)) : option A :=
  match l with
  | [] => None
  | (k', v) :: l => if bool_decide (k = k') then Some v else assoc k l
  end.

Definition has_key {A} (k : bytes) (l : list (bytes * A)) : bool := existsb (fun p => bool_decide (k = p.1)) l.

(** [StrictVisitor]. *)
Fixpoint strict (d : Doc) : res PackageError StrictValue :=
  match d with
  | DBool b => Ok (SBool b)
  | DInt n => if n <? 2 ^ 63 then Ok (SInteger n) else Err (Json "integer out of i64 range")
  | DFloat => Err (Json "floating-point numbers are not allowed")
  | DNull => Err (Json "null is not allowed")
  | DStr s => Ok (SString s)
  | DArr l =>
      vs ← (fix visit_seq l :=
        match l with
        | [] => Ok []
        | x :: l => v ← strict x; vs ← visit_seq l; Ok (v :: vs)
        end) l;
      Ok (SArray vs)
  | DObj l =>
      m ← (fix visit_map l obj :=
        match l with
        | [] => Ok obj
        | (k, x) :: l =>
            v ← strict x;
            if has_key k obj then Err (Json "duplicate key") else visit_map l (obj_insert k v obj)
        end) l [];
      Ok (SObject m)
  end.

Definition visit_seq : list Doc -> res PackageError (list StrictValue) :=
  fix visit_seq l :=
    match l with
    | [] => Ok []
    | x :: l => v ← strict x; vs ← visit_seq l; Ok (v :: vs)
    end.

Definition visit_map : list (bytes * Doc) -> list (bytes * StrictValue) -> res PackageError (list (bytes * StrictValue)) :=
  fix visit_map l obj :=
    match l with
    | [] => Ok obj
    | (k, x) :: l =>
        v ← strict x;
        if has_key k obj then Err (Json "duplicate key") else visit_map l (obj_insert k v obj)
    end.

Definition is_json_ws (b : Z) : bool := existsb (Z.eqb b) [32; 9; 10; 13].

Definition is_json_start (b : Z) : bool := existsb (Z.eqb b) [123; 91; 34; 116; 102; 110; 45] || is_ascii_digit b.

Fixpoint trim_json_ws (s : bytes) : bytes :=
  match s with
  | b :: s' => if is_json_ws b then trim_json_ws s' else s
  | [] => []
  end.

Definition looks_like_cbor (bs : bytes) : bool :=
  if starts_with [0xD9; 0xD9; 0xF7] bs then true
  else match trim_json_ws bs with
  | [] => false
  | first :: _ =>
      if is_json_start first then false
      else (0x80 <=? first) || existsb (Z.eqb (Z.shiftr first 5)) [2; 4; 5; 6]
  end.

(** serde_json: [from_slice] with [end], and [to_vec]. A [String] it delivers is UTF-8. *)
Class SerdeJson := {
  from_slice : bytes -> option Doc;
  to_vec : Doc -> option bytes;
  from_slice_ok : forall b d, from_slice b = Some d -> doc_ok d = true }.

Definition parse_strict_json `{SerdeJson} (bs : bytes) : res PackageError StrictValue :=
  if negb (utf8_valid bs) then
    if looks_like_cbor bs then Err CborRejected else Err (Json "manifest is not UTF-8")
  else match trim_json_ws bs with
  | [] => Err (Json "empty manifest")
  | first :: _ =>
      if negb (first =? 123) then
        if looks_like_cbor bs then Err CborRejected else Err (Json "manifest must be a JSON object (package major 1)")
      else
        d ← ok_or (from_slice bs) (Json "syntax");
        v ← strict d;
        match v with
        | SObject _ => Ok v
        | _ => Err (Json "manifest must be a JSON object")
        end
  end.

Definition jcs_char (c : Z) : bytes :=
  if c =? 34 then [92; 34]
  else if c =? 92 then [92; 92]
  else if c <? 0x20 then bstr "\u00" ++ [hex_digit (Z.land (Z.shiftr c 4) 15); hex_digit (Z.land c 15)]
  else [c].

Definition write_jcs_string (s : bytes) : bytes := [34] ++ flat_map jcs_char s ++ [34].

(** Items with a comma before every one but the first. *)
Fixpoint join_commas (l : list bytes) : bytes :=
  match l with
  | [] => []
  | [x] => x
  | x :: l => x ++ [44] ++ join_commas l
  end.

Fixpoint write_jcs (v : StrictValue) : bytes :=
  match v with
  | SBool true => bstr "true"
  | SBool false => bstr "false"
  | SInteger n => decimal_z n
  | SString s => write_jcs_string s
  | SArray items => [91] ++ join_commas (map write_jcs items) ++ [93]
  | SObject m => [123] ++ join_commas (map (fun '(k, val) => write_jcs_string k ++ [58] ++ write_jcs val) m) ++ [125]
  end.

Definition to_jcs (v : StrictValue) : res PackageError bytes := Ok (write_jcs v).

(** ** Sorted maps *)

Section SortedMaps.
Context {A : Type}.
Implicit Types (l : list (bytes * A)) (k : bytes) (v : A).

Definition keys_sorted l : Prop := StronglySorted name_lt l.*1.

Lemma name_lt_cases k k' : match bytes_cmp k k' with
  | Datatypes.Lt => name_lt k k' | Datatypes.Eq => k = k' | Datatypes.Gt => name_lt k' k end.
Proof.
  destruct (bytes_cmp k k') eqn:E; [by apply bytes_cmp_eq|done|].
  unfold name_lt. by rewrite bytes_cmp_antisym, E.
Qed.

Lemma obj_insert_keys k v l x : x ∈ (obj_insert k v l).*1 <-> x = k \/ x ∈ l.*1.
Proof.
  induction l as [|[k' v'] l IH]; cbn [obj_insert fmap list_fmap fst]; [set_solver|].
  pose proof (name_lt_cases k k') as Hc. destruct (bytes_cmp k k'); subst; cbn [fmap list_fmap fst]; set_solver.
Qed.

Lemma obj_insert_sorted k v l : keys_sorted l -> keys_sorted (obj_insert k v l).
Proof.
  unfold keys_sorted. induction l as [|[k' v'] l IH]; cbn [obj_insert fmap list_fmap fst]; intros Hs; [by repeat constructor|].
  apply StronglySorted_inv in Hs as [Hs Hk']. pose proof (name_lt_cases k k') as Hc.
  destruct (bytes_cmp k k') eqn:E; cbn [fmap list_fmap fst].
  - subst. by constructor.
  - constructor; [by constructor|]. constructor; [done|]. eapply Forall_impl; [exact Hk'|]. intros x. by apply name_lt_trans.
  - constructor; [by apply IH|]. apply Forall_forall. intros x [->|Hx]%obj_insert_keys; [done|].
    by eapply Forall_forall in Hk'.
Qed.

Lemma assoc_insert k v l x : assoc x (obj_insert k v l) = if bool_decide (x = k) then Some v else assoc x l.
Proof.
  induction l as [|[k' v'] l IH]; cbn [obj_insert assoc]; [done|]. pose proof (name_lt_cases k k') as Hc.
  destruct (bytes_cmp k k'); subst; cbn [assoc]; [by case_bool_decide|done|]. rewrite IH.
  repeat case_bool_decide; subst; try done. exfalso; by eapply name_lt_irrefl.
Qed.

Lemma obj_insert_last l k v : keys_sorted (l ++ [(k, v)]) -> obj_insert k v l = l ++ [(k, v)].
Proof.
  unfold keys_sorted. induction l as [|[k' v'] l IH]; cbn [obj_insert app fmap list_fmap fst]; [done|]. intros Hs.
  apply StronglySorted_inv in Hs as [Hs Hk']. rewrite fmap_app in Hk'. apply Forall_app in Hk' as [_ Hk'].
  apply Forall_inv in Hk'. pose proof (name_lt_cases k k') as Hc. destruct (bytes_cmp k k').
  - subst. by destruct (name_lt_irrefl k').
  - destruct (name_lt_irrefl k). by eapply name_lt_trans.
  - by rewrite IH.
Qed.

Definition obj_of l : list (bytes * A) := fold_left (fun m p => obj_insert p.1 p.2 m) l [].

Lemma fold_insert_sorted l : forall m, keys_sorted m -> keys_sorted (fold_left (fun m p => obj_insert p.1 p.2 m) l m).
Proof. induction l as [|p l IH]; intros m Hm; [done|]. cbn. by apply IH, obj_insert_sorted. Qed.

Lemma obj_of_sorted l : keys_sorted (obj_of l).
Proof. apply fold_insert_sorted. constructor. Qed.

(** Inserting the members of a sorted map in order rebuilds it. *)
Lemma obj_of_id l : keys_sorted l -> obj_of l = l.
Proof.
  unfold obj_of. revert l. apply (rev_ind (fun l => keys_sorted l -> fold_left _ l [] = l)); [done|].
  intros [k v] l IH Hs. rewrite fold_left_app. cbn [fold_left fst snd]. rewrite IH.
  - by apply obj_insert_last.
  - unfold keys_sorted in *. rewrite fmap_app in Hs. by apply StronglySorted_app_1_l in Hs.
Qed.

Lemma assoc_elem l k v : NoDup l.*1 -> assoc k l = Some v <-> (k, v) ∈ l.
Proof.
  induction l as [|[k' v'] l IH]; cbn [assoc fmap list_fmap fst]; intros Hn.
  - split; [done|]. by intros H%elem_of_nil.
  - apply NoDup_cons in Hn as [Hk Hn]. rewrite elem_of_cons, <-(IH Hn). case_bool_decide; subst.
    + split; [intros [= ->]; by left|]. intros [[= ->]|H]; [done|]. destruct Hk.
      apply (IH Hn) in H. by apply list_elem_of_fmap; exists (k', v).
    + split; [by right|]. intros [[= ]|H']; [congruence|done].
Qed.

Lemma has_key_spec k l : has_key k l = true <-> k ∈ l.*1.
Proof.
  unfold has_key. rewrite existsb_exists, list_elem_of_fmap. split.
  - intros (p & Hp & Hk%bool_decide_eq_true). exists p. split; [done|]. by apply list_elem_of_In.
  - intros (p & -> & Hp). exists p. split; [by apply list_elem_of_In|by apply bool_decide_eq_true].
Qed.
End SortedMaps.

Lemma obj_insert_map {A B} (f : A -> B) k v l :
  map (fun p => (p.1, f p.2)) (obj_insert k v l) = obj_insert k (f v) (map (fun p => (p.1, f p.2)) l).
Proof.
  induction l as [|[k' v'] l IH]; [done|]. cbn [obj_insert map fst snd].
  destruct (bytes_cmp k k'); cbn [map fst snd]; [done..|]. by rewrite IH.
Qed.

(** ** Canonical documents *)

Fixpoint doc_of (v : StrictValue) : Doc :=
  match v with
  | SBool b => DBool b
  | SInteger n => DInt n
  | SString s => DStr s
  | SArray l => DArr (map doc_of l)
  | SObject m => DObj (map (fun p => (p.1, doc_of p.2)) m)
  end.

(** Documents without nulls and floats, with [i64] numbers. *)
Fixpoint plain (d : Doc) : bool :=
  match d with
  | DNull | DFloat => false
  | DBool _ => true
  | DInt n => (- 2 ^ 63 <=? n) && (n <? 2 ^ 63)
  | DStr s => utf8_valid s
  | DArr l => forallb plain l
  | DObj l => forallb (fun p => utf8_valid p.1 && plain p.2) l
  end.

Lemma strict_arr l : strict (DArr l) = (vs ← visit_seq l; Ok (SArray vs)).
Proof. done. Qed.

Lemma strict_obj l : strict (DObj l) = (m ← visit_map l []; Ok (SObject m)).
Proof. done. Qed.

Lemma visit_seq_Ok l vs : visit_seq l = Ok vs <-> Forall2 (fun x v => strict x = Ok v) l vs.
Proof.
  revert vs. induction l as [|x l IH]; intros vs; cbn [visit_seq].
  - split; [intros [= <-]; done|]. by intros ->%Forall2_nil_inv_l.
  - rewrite res_bind_Ok. split.
    + intros (v & Hv & (us & Hus & [= <-])%res_bind_Ok). constructor; [done|by apply IH].
    + intros (v & us & Hv & Hus & ->)%Forall2_cons_inv_l. exists v. split; [done|].
      apply res_bind_Ok. exists us. split; [by apply IH|done].
Qed.

Definition member_of (p : bytes * Doc) (q : bytes * StrictValue) : Prop := p.1 = q.1 /\ strict p.2 = Ok q.2.

Lemma member_keys l vs : Forall2 member_of l vs -> l.*1 = vs.*1.
Proof. induction 1 as [|p q l vs [Hk _] _ IH]; [done|]. cbn. by rewrite Hk, IH. Qed.

Lemma visit_map_Ok l : forall obj m, visit_map l obj = Ok m <->
  exists vs, Forall2 member_of l vs /\ NoDup l.*1 /\ (forall k, k ∈ l.*1 -> k ∉ obj.*1) /\
    m = fold_left (fun m p => obj_insert p.1 p.2 m) vs obj.
Proof.
  induction l as [|[k x] l IH]; intros obj m; cbn [visit_map].
  - split.
    + intros [= <-]. exists []. repeat split; [done|constructor|]. by intros ? ?%elem_of_nil.
    + intros (vs & ->%Forall2_nil_inv_l & _ & _ & ->). done.
  - rewrite res_bind_Ok. split.
    + intros (v & Hv & H). destruct (has_key k obj) eqn:E; [done|].
      apply IH in H as (vs & Hvs & Hn & Hk & ->).
      assert (Hk' : k ∉ obj.*1) by (rewrite <-has_key_spec, E; done).
      exists ((k, v) :: vs). split; [by constructor|]. cbn [fmap list_fmap fst]. split; [|split; [|done]].
      * constructor; [|done]. intros Hin. apply (Hk _ Hin), obj_insert_keys. by left.
      * intros k0 [->|Hin]%elem_of_cons; [done|]. intros Ho. apply (Hk _ Hin), obj_insert_keys. by right.
    + intros (vs0 & Hvs & Hn & Hk & ->). apply Forall2_cons_inv_l in Hvs as ([k1 v] & vs & [Hk1 Hv] & Hvs & ->). cbn in Hk1, Hv. subst k1.
      exists v. split; [done|]. cbn [fmap list_fmap fst] in *. apply NoDup_cons in Hn as [Hkl Hn].
      destruct (has_key k obj) eqn:E; [apply has_key_spec in E; destruct (Hk k); [by left|done]|].
      apply IH. exists vs. split; [done|]. split; [done|]. split; [|done].
      intros k0 Hin [->|Ho]%obj_insert_keys; [done|]. by apply (Hk k0); [by right|].
Qed.

Lemma strict_obj_Ok l v : strict (DObj l) = Ok v <->
  exists vs, Forall2 member_of l vs /\ NoDup l.*1 /\ v = SObject (obj_of vs).
Proof.
  rewrite strict_obj, res_bind_Ok. split.
  - intros (m & (vs & Hvs & Hn & _ & ->)%visit_map_Ok & [= <-]). by exists vs.
  - intros (vs & Hvs & Hn & ->). exists (obj_of vs). split; [|done]. apply visit_map_Ok. exists vs.
    repeat split; [done..|]. intros k _. apply not_elem_of_nil.
Qed.

Lemma strict_arr_Ok l v : strict (DArr l) = Ok v <-> exists vs, Forall2 (fun x v => strict x = Ok v) l vs /\ v = SArray vs.
Proof.
  rewrite strict_arr, res_bind_Ok. split.
  - intros (vs & Hvs%visit_seq_Ok & [= <-]). by exists vs.
  - intros (vs & Hvs & ->). exists vs. by rewrite visit_seq_Ok.
Qed.

Lemma sorted_nodup {A} (l : list (bytes * A)) : keys_sorted l -> NoDup l.*1.
Proof. unfold keys_sorted. induction 1 as [|k ks _ IH Hk]; constructor; [|done]. intros Hin. eapply Forall_forall in Hk; [|done]. by destruct (name_lt_irrefl k). Qed.

(** A property of the values of a map's sources holds of the map's. *)
Lemma obj_of_Forall {A} (P : bytes * A -> Prop) (l : list (bytes * A)) : Forall P l -> Forall P (obj_of l).
Proof.
  assert (Hi : forall k v (m : list (bytes * A)), P (k, v) -> Forall P m -> Forall P (obj_insert k v m)).
  { intros k v m Hkv. induction 1 as [|[k' v'] m Hm Hms IH]; cbn [obj_insert]; [by repeat constructor|].
    destruct (bytes_cmp k k'); repeat constructor; done. }
  unfold obj_of. intros Hl. assert (Hm : Forall P []) by constructor. revert Hm. generalize (@nil (bytes * A)).
  induction Hl as [|[k v] l Hp _ IH]; intros m Hm; [done|]. cbn. by apply IH, Hi.
Qed.

Lemma fst_map_snd {A B} (f : A -> B) (l : list (bytes * A)) : (map (fun p => (p.1, f p.2)) l).*1 = l.*1.
Proof. induction l as [|p l IH]; [done|]. cbn. by rewrite IH. Qed.

Definition canonical (v : StrictValue) : Prop := strict (doc_of v) = Ok v.

Lemma sorted_canonical m : keys_sorted m -> Forall (fun p => canonical p.2) m -> canonical (SObject m).
Proof.
  intros Hs Hm. unfold canonical. cbn [doc_of]. apply strict_obj_Ok. exists m. split; [|split].
  - induction Hm as [|p m Hp _ IH]; constructor; [by split|]. apply IH. by apply StronglySorted_inv in Hs as [Hs _].
  - rewrite fst_map_snd. by apply sorted_nodup.
  - by rewrite obj_of_id.
Qed.

Lemma strict_canonical d : forall v, strict d = Ok v -> canonical v.
Proof.
  induction d as [|b|n| |s|l IH|l IH] using Doc_deep_ind; intros v Hv; try (cbn in Hv; discriminate Hv).
  - injection Hv as <-. done.
  - cbn [strict] in Hv. destruct (n <? 2 ^ 63) eqn:E; [|done]. injection Hv as <-. unfold canonical. cbn [doc_of strict]. by rewrite E.
  - injection Hv as <-. done.
  - apply strict_arr_Ok in Hv as (vs & Hvs & ->). unfold canonical. cbn [doc_of]. apply strict_arr_Ok. exists vs. split; [|done].
    induction Hvs as [|x v l vs Hx _ IHl]; [constructor|]. apply Forall_cons in IH as [IHx IH].
    constructor; [by apply IHx|by apply IHl].
  - apply strict_obj_Ok in Hv as (vs & Hvs & _ & ->). apply sorted_canonical; [apply obj_of_sorted|]. apply obj_of_Forall.
    induction Hvs as [|x v l vs [_ Hx] _ IHl]; [constructor|]. apply Forall_cons in IH as [IHx IH].
    constructor; [by apply IHx|by apply IHl].
Qed.

Lemma strict_plain d : forall v, doc_ok d = true -> strict d = Ok v -> plain (doc_of v) = true.
Proof.
  induction d as [|b|n| |s|l IH|l IH] using Doc_deep_ind; intros v Hd Hv; try (cbn in Hv; discriminate Hv).
  - injection Hv as <-. done.
  - cbn [strict] in Hv. destruct (n <? 2 ^ 63) eqn:E; [|done]. injection Hv as <-. cbn [doc_of plain doc_ok] in *.
    apply andb_true_iff in Hd as [-> _]. by rewrite E.
  - injection Hv as <-. done.
  - apply strict_arr_Ok in Hv as (vs & Hvs & ->). cbn [doc_of plain doc_ok] in *.
    induction Hvs as [|x v l vs Hx _ IHl]; [done|]. apply Forall_cons in IH as [IHx IH]. cbn [forallb map] in *.
    apply andb_true_iff in Hd as [Hdx Hd]. rewrite (IHx v) by done. by rewrite IHl.
  - apply strict_obj_Ok in Hv as (vs & Hvs & _ & ->). cbn [doc_of plain doc_ok] in *.
    assert (Hf : Forall (fun p => utf8_valid p.1 && plain (doc_of p.2) = true) vs).
    { induction Hvs as [|x v l vs [Hk Hx] _ IHl]; [constructor|]. apply Forall_cons in IH as [IHx IH]. cbn [forallb] in Hd.
      apply andb_true_iff in Hd as [[Hdk Hdx]%andb_true_iff Hd]. constructor; [|by apply IHl].
      rewrite <-Hk, Hdk. by rewrite (IHx v.2). }
    apply obj_of_Forall in Hf. apply forallb_forall. intros [k d] Hin%in_map_iff. destruct Hin as (p & [= <- <-] & Hp).
    eapply Forall_forall in Hf; [|by apply list_elem_of_In]. done.
Qed.

(** ** A reader of compact JSON

    Not code of the repository: an executable reader of the texts [write_doc] writes. *)

Fixpoint write_doc (d : Doc) : bytes :=
  match d with
  | DNull => bstr "null"
  | DBool true => bstr "true"
  | DBool false => bstr "false"
  | DInt n => decimal_z n
  | DFloat => bstr "0.5"
  | DStr s => write_jcs_string s
  | DArr l => [91] ++ join_commas (map write_doc l) ++ [93]
  | DObj l => [123] ++ join_commas (map (fun '(k, x) => write_jcs_string k ++ [58] ++ write_doc x) l) ++ [125]
  end.

Definition unhex (d : Z) : Z := if d <? 58 then d - 48 else d - 87.

Fixpoint read_string (s : bytes) : option (bytes * bytes) :=
  match s with
  | [] => None
  | c :: s =>
      if c =? 34 then Some ([], s)
      else if c =? 92 then
        match s with
        | e :: s =>
            if (e =? 34) || (e =? 92) then '(t, r) ← read_string s; Some (e :: t, r)
            else match s with
            | _ :: _ :: h :: l :: s => '(t, r) ← read_string s; Some (unhex h * 16 + unhex l :: t, r)
            | _ => None
            end
        | [] => None
        end
      else '(t, r) ← read_string s; Some (c :: t, r)
  end.

Fixpoint take_digits (s : bytes) : bytes * bytes :=
  match s with
  | b :: s' => if is_ascii_digit b then let '(ds, r) := take_digits s' in (b :: ds, r) else ([], s)
  | [] => ([], [])
  end.

Definition read_int (s : bytes) : option (Z * bytes) :=
  let '(neg, s) := match s with b :: s' => if b =? 45 then (true, s') else (false, s) | [] => (false, s) end in
  match take_digits s with
  | ([], _) => None
  | (ds, r) => Some ((if neg : bool then - digits_value ds else digits_value ds), r)
  end.

Definition skip_text (w s : bytes) : option bytes := strip_prefix w s.

Fixpoint read_value (fuel : nat) (s : bytes) : option (Doc * bytes) :=
  match fuel, s with
  | S fuel, c :: r =>
      if c =? 34 then '(t, r) ← read_string r; Some (DStr t, r)
      else if c =? 91 then
        match skip_text [93] r with
        | Some r => Some (DArr [], r)
        | None => '(l, r) ← read_items fuel r; Some (DArr l, r)
        end
      else if c =? 123 then
        match skip_text [125] r with
        | Some r => Some (DObj [], r)
        | None => '(l, r) ← read_members fuel r; Some (DObj l, r)
        end
      else if c =? 116 then r ← skip_text (bstr "rue") r; Some (DBool true, r)
      else if c =? 102 then r ← skip_text (bstr "alse") r; Some (DBool false, r)
      else '(n, r) ← read_int s; Some (DInt n, r)
  | _, _ => None
  end
with read_items (fuel : nat) (s : bytes) : option (list Doc * bytes) :=
  match fuel with
  | S fuel =>
      '(x, r) ← read_value fuel s;
      match r with
      | c :: r => if c =? 44 then '(l, r) ← read_items fuel r; Some (x :: l, r)
                  else if c =? 93 then Some ([x], r) else None
      | [] => None
      end
  | O => None
  end
with read_members (fuel : nat) (s : bytes) : option (list (bytes * Doc) * bytes) :=
  match fuel with
  | S fuel =>
      r ← skip_text [34] s;
      '(k, r) ← read_string r;
      r ← skip_text [58] r;
      '(x, r) ← read_value fuel r;
      match r with
      | c :: r => if c =? 44 then '(l, r) ← read_members fuel r; Some ((k, x) :: l, r)
                  else if c =? 125 then Some ([(k, x)], r) else None
      | [] => None
      end
  | O => None
  end.

(** A text after which a number ends. *)
Definition stops (s : bytes) : Prop := match s with b :: _ => is_ascii_digit b = false | [] => True end.

Lemma hex_digit_unhex n : 0 <= n < 16 -> unhex (hex_digit n) = n.
Proof. unfold unhex, hex_digit. intros H. destruct (Z.ltb_spec n 10); [ltb_true by lia|ltb_false by lia]; lia. Qed.

Lemma read_jcs_char c s t r : byte_range c -> read_string s = Some (t, r) -> read_string (jcs_char c ++ s) = Some (c :: t, r).
Proof.
  intros Hc Hr. unfold jcs_char. destruct (Z.eqb_spec c 34) as [->|H1]; [cbn; by rewrite Hr|].
  destruct (Z.eqb_spec c 92) as [->|H2]; [cbn; by rewrite Hr|]. destruct (Z.ltb_spec c 0x20) as [H3|H3].
  - change (bstr "\u00") with [92; 117; 48; 48]. cbn [app read_string].
    change (92 =? 34) with false. change (92 =? 92) with true. change (117 =? 34) with false. change (117 =? 92) with false.
    cbn [orb]. rewrite Hr. cbn [mbind option_bind]. do 3 f_equal. unfold byte_range in Hc.
    change 15 with (2 ^ 4 - 1). rewrite (land_mask 4 _ ltac:(done)), (land_mask 4 c ltac:(done)), Z.shiftr_div_pow2 by lia.
    rewrite !hex_digit_unhex by (apply Z.mod_pos_bound; lia). rewrite (Z.mod_small (c / 2 ^ 4)); [|split; [apply Z.div_pos; lia|apply Z.div_lt_upper_bound; lia]].
    pose proof (Z.div_mod c (2 ^ 4) ltac:(lia)). lia.
  - cbn [app read_string]. rewrite (proj2 (Z.eqb_neq c 34)), (proj2 (Z.eqb_neq c 92)), Hr by done. done.
Qed.

Lemma read_written_string s r : bytes_ok s -> read_string (flat_map jcs_char s ++ [34] ++ r) = Some (s, r).
Proof. induction 1 as [|c s Hc _ IH]; [done|]. cbn [flat_map]. rewrite <-app_assoc. by apply read_jcs_char. Qed.

Lemma take_digits_app ds r : Forall (fun b => is_ascii_digit b = true) ds -> stops r -> take_digits (ds ++ r) = (ds, r).
Proof.
  intros Hd Hr. induction Hd as [|b ds Hb _ IH]; cbn [app take_digits].
  - destruct r as [|b r]; [done|]. cbn in Hr |- *. by rewrite Hr.
  - by rewrite Hb, IH.
Qed.

(** The digits of a number, after its sign. *)
Lemma decimal_z_shape n : exists ds, digits_of (Z.abs n) ds /\ ds <> [] /\ decimal_z n = (if n <? 0 then [45] else []) ++ ds.
Proof.
  unfold decimal_z. destruct (Z.ltb_spec n 0) as [H|H].
  - destruct (pretty_digits (Z.abs n)) as [Hd Hne]; [lia|]. exists (bstr (pretty (Z.abs n))). split; [done|]. split; [done|].
    destruct n as [|p|p]; [lia..|]. done.
  - destruct (pretty_digits n) as [Hd Hne]; [done|]. exists (bstr (pretty n)). by rewrite Z.abs_eq.
Qed.

Lemma read_written_int n r : stops r -> read_int (decimal_z n ++ r) = Some (n, r).
Proof.
  intros Hr. destruct (decimal_z_shape n) as (ds & [Hd Hv] & Hne & ->). unfold read_int.
  destruct (Z.ltb_spec n 0) as [H|H]; cbn [app].
  - change (45 =? 45) with true. cbv iota beta zeta. rewrite take_digits_app by done. destruct ds as [|d ds]; [done|]. do 2 f_equal. lia.
  - pose proof (take_digits_app ds r Hd Hr) as Ht. destruct ds as [|d ds]; [done|]. cbn [app] in *.
    assert (d =? 45 = false) as ->. { apply Forall_inv, digit_range in Hd. apply Z.eqb_neq. lia. }
    rewrite Ht. do 2 f_equal. lia.
Qed.

(** Fuel enough to read a document back; its text is longer. *)
Fixpoint doc_size (d : Doc) : nat :=
  match d with
  | DArr l => S (list_sum (map (fun x => S (doc_size x)) l))
  | DObj l => S (list_sum (map (fun p => S (doc_size p.2)) l))
  | _ => 1
  end.

(** Only a number needs to be told where it ends. *)
Definition ends (d : Doc) (r : bytes) : Prop := match d with DInt _ => stops r | _ => True end.

Lemma stops_ends d r : stops r -> ends d r.
Proof. by destruct d. Qed.

Definition reads (d : Doc) : Prop := plain d = true ->
  forall fuel r, (doc_size d <= fuel)%nat -> ends d r -> read_value fuel (write_doc d ++ r) = Some (d, r).

Definition member_text (p : bytes * Doc) : bytes := write_jcs_string p.1 ++ [58] ++ write_doc p.2.

Lemma write_doc_obj l : write_doc (DObj l) = [123] ++ join_commas (map member_text l) ++ [125].
Proof. cbn [write_doc]. do 3 f_equal. apply map_ext. by intros []. Qed.

Lemma skip_app w s : skip_text w (w ++ s) = Some s.
Proof.
  unfold skip_text, strip_prefix, starts_with. rewrite take_app_length, bool_decide_eq_true_2 by done.
  by rewrite drop_app_length.
Qed.

Lemma skip_other b c s : b <> c -> skip_text [b] (c :: s) = None.
Proof. intros H. unfold skip_text, strip_prefix, starts_with. cbn [length take]. by rewrite bool_decide_eq_false_2 by congruence. Qed.

Lemma join_commas_cons x y l : join_commas (x :: y :: l) = x ++ [44] ++ join_commas (y :: l).
Proof. done. Qed.

Lemma plain_starts d : plain d = true -> exists c t, write_doc d = c :: t /\ c <> 93 /\ c <> 125.
Proof.
  destruct d as [|[]|n| |s|l|l]; cbn [plain]; intros H; try discriminate H; try (do 2 eexists; split; [reflexivity|split; discriminate]).
  cbn [write_doc]. destruct (decimal_z_shape n) as (ds & [Hd _] & Hne & ->). destruct (n <? 0).
  - do 2 eexists. split; [reflexivity|split; discriminate].
  - destruct ds as [|d ds]; [done|]. apply Forall_inv, digit_range in Hd. exists d, ds. split; [done|]. lia.
Qed.

Lemma read_written_items l : Forall reads l -> forallb plain l = true -> l <> [] ->
  forall fuel r, (list_sum (map (fun x => S (doc_size x)) l) <= fuel)%nat ->
  read_items fuel (join_commas (map write_doc l) ++ [93] ++ r) = Some (l, r).
Proof.
  induction 1 as [|d l Hd Hl IH]; [done|]. intros Hp _ fuel r Hf. cbn [forallb map] in *. apply andb_true_iff in Hp as [Hpd Hp].
  change (list_sum (S ?n :: ?l)) with (S n + list_sum l)%nat in Hf.
  destruct fuel as [|fuel]; [lia|]. cbn [read_items]. destruct l as [|d' l].
  - cbn [map join_commas]. rewrite Hd by (done || lia || by apply stops_ends). done.
  - cbn [map]. rewrite join_commas_cons, <-!app_assoc. rewrite Hd by (done || lia || by apply stops_ends). cbn [mbind option_bind app].
    change (44 =? 44) with true. cbv iota. specialize (IH Hp ltac:(done) fuel r ltac:(lia)). cbn [map app] in IH. by rewrite IH.
Qed.

Lemma read_written_members l : Forall (fun p => reads p.2) l -> forallb (fun p => utf8_valid p.1 && plain p.2) l = true -> l <> [] ->
  forall fuel r, (list_sum (map (fun p => S (doc_size p.2)) l) <= fuel)%nat ->
  read_members fuel (join_commas (map member_text l) ++ [125] ++ r) = Some (l, r).
Proof.
  induction 1 as [|[k d] l Hd Hl IH]; [done|]. intros Hp _ fuel r Hf. cbn [forallb map fst snd] in *.
  apply andb_true_iff in Hp as [[Hk Hpd]%andb_true_iff Hp]. apply utf8_valid_ok in Hk.
  change (list_sum (S ?n :: ?l)) with (S n + list_sum l)%nat in Hf.
  destruct fuel as [|fuel]; [lia|].
  assert (Hhead : forall t, stops t -> read_members (S fuel) (member_text (k, d) ++ t) =
    match t with
    | c :: r => if c =? 44 then '(l, r) ← read_members fuel r; Some ((k, d) :: l, r)
                else if c =? 125 then Some ([(k, d)], r) else None
    | [] => None
    end).
  { intros t Ht. unfold member_text, write_jcs_string. cbn [fst snd read_members]. rewrite <-!app_assoc.
    rewrite skip_app. cbn [mbind option_bind]. rewrite read_written_string by done. cbn [mbind option_bind].
    rewrite skip_app. cbn [mbind option_bind]. rewrite Hd by (done || lia || by apply stops_ends). done. }
  destruct l as [|[k' d'] l].
  - cbn [map join_commas]. by rewrite Hhead.
  - cbn [map]. rewrite join_commas_cons, <-!app_assoc. rewrite Hhead by done. cbn [app].
    change (44 =? 44) with true. cbv iota. specialize (IH Hp ltac:(done) fuel r ltac:(lia)). cbn [map app] in IH. by rewrite IH.
Qed.

(** What [write_doc] writes is read back, whatever follows that does not continue a number. *)
Lemma read_write_doc d : reads d.
Proof.
  induction d as [|[]|n| |s|l IH|l IH] using Doc_deep_ind; intros Hp fuel r Hf Hr; cbn [plain doc_size] in Hp, Hf; try discriminate Hp;
    (destruct fuel as [|fuel]; [lia|]).
  - done.
  - done.
  - cbn [write_doc]. pose proof (read_written_int n r Hr) as Hn. revert Hn.
    destruct (decimal_z_shape n) as (ds & [Hd _] & Hne & ->).
    assert (Hc : exists c t, (if n <? 0 then [45] else []) ++ ds = c :: t /\ 45 <= c <= 57).
    { destruct (n <? 0); [exists 45, ds; split; [done|lia]|]. destruct ds as [|d ds]; [done|].
      apply Forall_inv, digit_range in Hd. exists d, ds. split; [done|lia]. }
    destruct Hc as (c & t & -> & Hc). cbn [app read_value]. intros Hn.
    rewrite (proj2 (Z.eqb_neq c 34)), (proj2 (Z.eqb_neq c 91)), (proj2 (Z.eqb_neq c 123)), (proj2 (Z.eqb_neq c 116)),
      (proj2 (Z.eqb_neq c 102)), Hn by lia. done.
  - cbn [write_doc]. unfold write_jcs_string. rewrite <-!app_assoc. cbn [app read_value]. change (34 =? 34) with true. cbv iota.
    pose proof (read_written_string s r (utf8_valid_ok _ Hp)) as Hs. cbn [app] in Hs. by rewrite Hs.
  - cbn [write_doc]. rewrite <-!app_assoc. cbn [app read_value]. change (91 =? 34) with false. change (91 =? 91) with true. cbv iota.
    destruct l as [|x l]; [done|].
    assert (Hno : skip_text [93] (join_commas (map write_doc (x :: l)) ++ 93 :: r) = None).
    { cbn [forallb] in Hp. apply andb_true_iff in Hp as [Hx _]. destruct (plain_starts x Hx) as (c & t & E & ? & ?).
      cbn [map]. destruct l; cbn [map]; [cbn [join_commas]|rewrite join_commas_cons]; rewrite E; by apply skip_other. }
    rewrite Hno. pose proof (read_written_items (x :: l) IH Hp ltac:(done) fuel r ltac:(lia)) as Hi. cbn [app] in Hi. by rewrite Hi.
  - rewrite write_doc_obj, <-!app_assoc. cbn [app read_value]. change (123 =? 34) with false. change (123 =? 91) with false.
    change (123 =? 123) with true. cbv iota. destruct l as [|x l]; [done|].
    assert (Hno : skip_text [125] (join_commas (map member_text (x :: l)) ++ 125 :: r) = None).
    { cbn [map]. destruct l; cbn [map]; [cbn [join_commas]|rewrite join_commas_cons]; by apply skip_other. }
    rewrite Hno. pose proof (read_written_members (x :: l) IH Hp ltac:(done) fuel r ltac:(lia)) as Hi. cbn [app] in Hi. by rewrite Hi.
Qed.

(** ** Canonical bytes *)

Lemma write_jcs_doc v : write_jcs v = write_doc (doc_of v).
Proof.
  induction v as [[]|n|s|l IH|l IH] using Strict_deep_ind; try done; cbn [write_jcs doc_of write_doc]; rewrite map_map; do 3 f_equal;
    apply map_ext_Forall; [exact IH|]. eapply Forall_impl; [exact IH|]. intros [k v] H. cbn in H |- *. by rewrite H.
Qed.

Lemma write_doc_pos d : (1 <= length (write_doc d))%nat.
Proof.
  destruct d as [|[]|n| |s|l|l]; cbn [write_doc]; unfold write_jcs_string; rewrite ?length_app; cbn [length]; try lia.
  5: cbn; lia. 1-3: cbn; lia.
  destruct (decimal_z_shape n) as (ds & _ & Hne & ->). destruct ds; [done|]. rewrite length_app. cbn [length]. lia.
Qed.

Lemma length_join_commas l : l <> [] -> S (length (join_commas l)) = list_sum (map (fun x => S (length x)) l).
Proof.
  induction l as [|x l IH]; [done|]. intros _. destruct l as [|y l]; [cbn; lia|]. rewrite join_commas_cons, !length_app.
  specialize (IH ltac:(done)). cbn [map length] in *. change (list_sum (S ?n :: ?l)) with (S n + list_sum l)%nat. lia.
Qed.

Lemma doc_size_le d : (doc_size d <= length (write_doc d))%nat.
Proof.
  assert (Hsum : forall {A} (f : A -> nat) (g : A -> bytes) (l : list A), Forall (fun x => f x <= length (g x))%nat l -> l <> [] ->
    (list_sum (map (fun x => S (f x)) l) <= S (length (join_commas (map g l))))%nat).
  { intros A f g l Hl Hne. rewrite length_join_commas by (by destruct l). rewrite map_map. clear Hne.
    induction Hl as [|x l Hx _ IH]; [done|]. cbn [map]. change (list_sum (?n :: ?l)) with (n + list_sum l)%nat. lia. }
  induction d as [|b|n| |s|l IH|l IH] using Doc_deep_ind; try (cbn [doc_size]; apply write_doc_pos).
  - cbn [doc_size write_doc]. rewrite !length_app. cbn [length]. destruct l as [|x l]; [cbn; lia|].
    pose proof (Hsum _ _ _ _ IH ltac:(done)). lia.
  - rewrite write_doc_obj. cbn [doc_size]. rewrite !length_app. cbn [length]. destruct l as [|x l]; [cbn; lia|].
    pose proof (Hsum _ (fun p => doc_size p.2) member_text (x :: l)) as H. specialize (H ltac:(eapply Forall_impl; [exact IH|];
      intros p Hp; cbv beta in Hp |- *; unfold member_text; rewrite !length_app; lia) ltac:(done)). lia.
Qed.

Lemma canonical_inj v1 v2 : canonical v1 -> canonical v2 -> doc_of v1 = doc_of v2 -> v1 = v2.
Proof. unfold canonical. intros H1 H2 E. rewrite E, H2 in H1. by injection H1. Qed.

(** The canonical bytes of an object determine it, and where they end. *)
Lemma jcs_self_delimiting m1 m2 s1 s2 (v1 := SObject m1) (v2 := SObject m2) :
  canonical v1 -> canonical v2 -> plain (doc_of v1) = true -> plain (doc_of v2) = true ->
  write_jcs v1 ++ s1 = write_jcs v2 ++ s2 -> v1 = v2 /\ s1 = s2.
Proof.
  intros C1 C2 P1 P2 E. rewrite !write_jcs_doc in E.
  set (fuel := Nat.max (doc_size (doc_of v1)) (doc_size (doc_of v2))).
  pose proof (read_write_doc _ P1 fuel s1 ltac:(lia) I) as R1. pose proof (read_write_doc _ P2 fuel s2 ltac:(lia) I) as R2.
  rewrite E, R2 in R1. injection R1 as E' ->. split; [|done]. symmetry. apply canonical_inj; [done..|]. cbn [v1 v2 doc_of].
  by rewrite E'.
Qed.

(** ** What is assumed of the JSON library *)

(** Documents nested no deeper than serde_json reads. *)
Fixpoint depth (d : Doc) : nat :=
  match d with
  | DArr l => S (list_max (map depth l))
  | DObj l => S (list_max (map (fun p => depth p.2) l))
  | _ => 0
  end.

(** What it writes it reads back, as UTF-8, an object from its brace on; and it reads the
    canonical form of a document it read. *)
Class JsonLaws `{SerdeJson} : Prop := {
  written_reads : forall d, plain d = true -> (depth d < 128)%nat -> exists b, to_vec d = Some b /\ from_slice b = Some d /\
    utf8_valid b = true /\ (forall m, d = DObj m -> exists t, b = 123 :: t);
  canonical_reads : forall b d v, from_slice b = Some d -> strict d = Ok v -> from_slice (write_jcs v) = Some (doc_of v) }.

(** The compact reader is such a library. *)
Definition compact_slice (b : bytes) : option Doc :=
  match read_value (length b) b with
  | Some (d, []) => if doc_ok d then Some d else None
  | _ => None
  end.

Lemma compact_slice_ok b d : compact_slice b = Some d -> doc_ok d = true.
Proof. unfold compact_slice. intros H. repeat (case_match; try done). by injection H as <-. Qed.

Definition compact_json : SerdeJson := {|
  from_slice := compact_slice; to_vec := fun d => Some (write_doc d); from_slice_ok := compact_slice_ok |}.

Lemma plain_doc_ok d : plain d = true -> doc_ok d = true.
Proof.
  induction d as [|b|n| |s|l IH|l IH] using Doc_deep_ind; cbn [plain doc_ok]; intros H; try done.
  - apply andb_true_iff in H as [-> H%Z.ltb_lt]. apply Z.ltb_lt. lia.
  - induction IH as [|x l Hx _ IH]; [done|]. cbn [forallb] in *. apply andb_true_iff in H as [H1 H2]. by rewrite Hx, IH.
  - induction IH as [|x l Hx _ IH]; [done|]. cbn [forallb] in *. apply andb_true_iff in H as [[H0 H1]%andb_true_iff H2].
    by rewrite H0, Hx, IH.
Qed.

Lemma compact_reads d : plain d = true -> compact_slice (write_doc d) = Some d.
Proof.
  intros Hp. unfold compact_slice. pose proof (read_write_doc d Hp (length (write_doc d)) [] (doc_size_le d)) as H.
  rewrite app_nil_r in H. rewrite H by (by apply stops_ends). by rewrite plain_doc_ok.
Qed.

(** UTF-8 text: ASCII characters and longer ones. *)
Definition wide_char (m : bytes) : Prop :=
  Forall (fun b => 128 <= b < 256) m /\ forall l, utf8_valid (m ++ l) = utf8_valid l.

Lemma utf8_chars (P : bytes -> Prop) : P [] -> (forall c l, 0 <= c < 128 -> P l -> P (c :: l)) ->
  (forall m l, wide_char m -> P l -> P (m ++ l)) -> forall l, utf8_valid l = true -> P l.
Proof.
  intros Hnil Hone Hmany l. remember (length l) as n eqn:Hn. assert (length l <= n)%nat as Hle by lia. clear Hn.
  revert l Hle. induction n as [|n IH]; intros l Hle H; [by destruct l; [|cbn in Hle; lia]|].
  destruct l as [|b0 l]; [done|]. cbn [utf8_valid length] in *.
  destruct (in_rangeb 0 0x7F b0) eqn:E0.
  { apply Hone; [|apply IH; [lia|done]]. unfold in_rangeb in E0. apply andb_true_iff in E0 as [?%Z.leb_le ?%Z.leb_le]. lia. }
  destruct l as [|b1 l]; [done|]. destruct (in_rangeb 0xC2 0xDF b0) eqn:E1.
  { apply andb_true_iff in H as [H1 H]. cbn [length] in Hle. apply (Hmany [b0; b1]); [|apply IH; [lia|done]].
    split; [repeat constructor; unfold in_rangeb in *; lia|]. intros r. cbn [app utf8_valid]. by rewrite E0, E1, H1. }
  destruct l as [|b2 l]; [done|]. destruct (in_rangeb 0xE0 0xEF b0) eqn:E2.
  { apply andb_true_iff in H as [[H1 H2]%andb_true_iff H]. cbn [length] in Hle. apply (Hmany [b0; b1; b2]); [|apply IH; [lia|done]].
    split; [|intros r; cbn [app utf8_valid]; by rewrite E0, E1, E2, H1, H2].
    repeat constructor; unfold in_rangeb in *; repeat case_match; lia. }
  destruct l as [|b3 l]; [done|]. apply andb_true_iff in H as [[[[H0 H1]%andb_true_iff H2]%andb_true_iff H3]%andb_true_iff H].
  cbn [length] in Hle. apply (Hmany [b0; b1; b2; b3]); [|apply IH; [lia|done]].
  split; [|intros r; cbn [app utf8_valid]; by rewrite E0, E1, E2, H0, H1, H2, H3].
  repeat constructor; unfold in_rangeb in *; repeat case_match; lia.
Qed.

Definition utf8_prefix (s : bytes) : Prop := forall t, utf8_valid (s ++ t) = utf8_valid t.

Lemma utf8_prefix_app s t : utf8_prefix s -> utf8_prefix t -> utf8_prefix (s ++ t).
Proof. intros Hs Ht r. by rewrite <-app_assoc, Hs, Ht. Qed.

Lemma utf8_prefix_ascii s : Forall (fun b => 0 <= b < 128) s -> utf8_prefix s.
Proof.
  intros Hs t. induction Hs as [|b s Hb _ IH]; [done|]. cbn [app utf8_valid]. unfold in_rangeb at 1.
  by rewrite (proj2 (Z.leb_le 0 b)), (proj2 (Z.leb_le b 0x7F)) by lia.
Qed.

Lemma jcs_chars_utf8 s : utf8_valid s = true -> utf8_prefix (flat_map jcs_char s).
Proof.
  revert s. apply utf8_chars; [done|..].
  - intros c l Hc IH. cbn [flat_map]. apply utf8_prefix_app; [|done]. apply utf8_prefix_ascii. unfold jcs_char.
    assert (Hh : forall n, 0 <= hex_digit (Z.land n 15) < 128).
    { intros n. change 15 with (2 ^ 4 - 1). rewrite (land_mask 4 n ltac:(done)).
      pose proof (Z.mod_pos_bound n (2 ^ 4) ltac:(lia)). unfold hex_digit. case_match; lia. }
    repeat case_match; repeat constructor; try lia; apply Hh.
  - intros m l [Hm Hu] IH. rewrite flat_map_app. apply utf8_prefix_app; [|done].
    assert (flat_map jcs_char m = m) as ->; [|done]. clear Hu. induction Hm as [|b m Hb _ IHm]; [done|]. cbn [flat_map].
    rewrite IHm. unfold jcs_char. by rewrite (proj2 (Z.eqb_neq b 34)), (proj2 (Z.eqb_neq b 92)), (proj2 (Z.ltb_ge b 0x20)) by lia.
Qed.

Lemma jcs_string_utf8 s : utf8_valid s = true -> utf8_prefix (write_jcs_string s).
Proof. intros H. unfold write_jcs_string. repeat apply utf8_prefix_app; [done|by apply jcs_chars_utf8|done]. Qed.

Lemma join_utf8 l : Forall utf8_prefix l -> utf8_prefix (join_commas l).
Proof.
  induction 1 as [|x l Hx Hl IH]; [done|]. destruct l as [|y l]; [done|]. rewrite join_commas_cons.
  apply utf8_prefix_app; [done|]. by apply utf8_prefix_app.
Qed.

Lemma write_doc_utf8 d : plain d = true -> utf8_prefix (write_doc d).
Proof.
  induction d as [|[]|n| |s|l IH|l IH] using Doc_deep_ind; cbn [plain]; intros Hp; try done.
  - cbn [write_doc]. destruct (decimal_z_shape n) as (ds & [Hd _] & _ & ->). apply utf8_prefix_ascii. apply Forall_app.
    split; [case_match; repeat constructor; lia|]. eapply Forall_impl; [exact Hd|]. intros b Hb%digit_range. lia.
  - by apply jcs_string_utf8.
  - cbn [write_doc]. repeat apply utf8_prefix_app; [done|apply join_utf8|done].
    induction IH as [|x l Hx _ IH]; [constructor|]. cbn [forallb map] in *. apply andb_true_iff in Hp as [H1 H2].
    constructor; [by apply Hx|by apply IH].
  - rewrite write_doc_obj. repeat apply utf8_prefix_app; [done|apply join_utf8|done].
    induction IH as [|x l Hx _ IH]; [constructor|]. cbn [forallb map] in *. apply andb_true_iff in Hp as [[H0 H1]%andb_true_iff H2].
    constructor; [|by apply IH]. unfold member_text. apply utf8_prefix_app; [by apply jcs_string_utf8|].
    apply utf8_prefix_app; [done|by apply Hx].
Qed.

Lemma compact_laws : @JsonLaws compact_json.
Proof.
  split.
  - intros d Hp _. exists (write_doc d). split; [done|]. split; [by apply compact_reads|]. split.
    + pose proof (write_doc_utf8 d Hp []) as H. by rewrite app_nil_r in H.
    + intros m ->. rewrite write_doc_obj. by eexists.
  - intros b d v Hb Hv. rewrite write_jcs_doc. apply compact_reads. eapply strict_plain; [|exact Hv]. by eapply compact_slice_ok.
Qed.
