(* ===== verification/PkgFields.v ===== *)
(** * Manifests as JSON

    Crate [plc-package], src/crates/plc-package/src/manifest.rs: the derived serializers of
    the manifest, its parser and its canonical bytes. A manifest survives being written and
    read, and depends on a document only through its strict value. *)
From stdpp Require Import sorting.
From S2P Require Import Prelude Text AuthTypes IrTypes RetainLayout PkgManifest PkgJson.

(** ** Reading *)

Definition de_string (d : Doc) : option bytes := match d with DStr s => Some s | _ => None end.

Definition de_uint (w : Z) (d : Doc) : option Z :=
  match d with DInt n => if (0 <=? n) && (n <? 2 ^ w) then Some n else None | _ => None end.

(** [Option<u32>]. *)
Definition de_opt_u32 (d : Doc) : option (option Z) :=
  match d with DNull => Some None | _ => Some <$> de_uint 32 d end.

(** A [Vec]. *)
Definition de_seq {A} (f : Doc -> option A) (d : Doc) : option (list A) :=
  match d with DArr l => mapM f l | _ => None end.

(** A [BTreeMap] of strings. *)
Definition de_map (d : Doc) : option (list (bytes * bytes)) :=
  match d with
  | DObj l => obj_of <$> mapM (fun p => s ← de_string p.2; Some (p.1, s)) l
  | _ => None
  end.

(** The fields of a derived struct with [deny_unknown_fields]: an object without unknown or
    repeated keys, or an array of the fields in order. *)
Fixpoint field_at (names : list string) (items : list Doc) (n : string) : option Doc :=
  match names, items with
  | m :: names, x :: items => if bool_decide (m = n) then Some x else field_at names items n
  | _, _ => None
  end.

Definition struct_fields (names : list string) (d : Doc) : option (string -> option Doc) :=
  match d with
  | DObj l =>
      if forallb (fun p => existsb (fun n => bool_decide (p.1 = bstr n)) names) l && bool_decide (NoDup l.*1)
      then Some (fun n => assoc (bstr n) l) else None
  | DArr items => if (length items <=? length names)%nat then Some (field_at names items) else None
  | _ => None
  end.

Definition required {A} (get : string -> option Doc) (n : string) (f : Doc -> option A) : option A := x ← get n; f x.

(** [#[serde(default)]]. *)
Definition optional (get : string -> option Doc) (n : string) : option (option Z) :=
  match get n with Some x => de_opt_u32 x | None => Some None end.

Definition de_type (d : Doc) : option IrType :=
  s ← de_string d; match type_of_name s with Ok t => Some t | _ => None end.

Definition de_kind (d : Doc) : option TagKind :=
  s ← de_string d; variant [("I", TkI); ("Q", TkQ); ("M", TkM); ("R", TkR); ("INTERNAL", TkInternal)]%string s.

Definition de_policy (d : Doc) : option RestartPolicy :=
  s ← de_string d; variant [("safe_reset", RpSafeReset); ("bumpless", RpBumpless)]%string s.

Definition de_retain (d : Doc) : option ManifestRetainSymbol :=
  get ← struct_fields ["name"; "type"; "offset"]%string d;
  name ← required get "name" de_string;
  ty ← required get "type" de_type;
  offset ← required get "offset" (de_uint 32);
  Some (mkRetainSym name ty offset).

Definition de_tag (d : Doc) : option TagEntry :=
  get ← struct_fields ["name"; "type"; "kind"; "slot"]%string d;
  name ← required get "name" de_string;
  ty ← required get "type" de_type;
  kind ← required get "kind" de_kind;
  slot ← optional get "slot";
  Some (mkTag name ty kind slot).

Definition manifest_names : list string :=
  ["id"; "version"; "build_id"; "ir_major"; "ir_minor"; "primitive_abi"; "task_entries"; "retain_symbols"; "tag_dictionary";
   "restart_policy"; "compatibility_hash"; "input_slots"; "output_slots"; "data_size"; "retain_size"; "const_size"]%string.

Definition de_manifest (d : Doc) : option Manifest :=
  get ← struct_fields manifest_names d;
  id ← required get "id" de_string;
  version ← required get "version" de_string;
  build_id ← required get "build_id" de_string;
  ir_major ← required get "ir_major" (de_uint 16);
  ir_minor ← required get "ir_minor" (de_uint 16);
  primitive_abi ← required get "primitive_abi" (de_uint 32);
  task_entries ← required get "task_entries" de_map;
  retain_symbols ← required get "retain_symbols" (de_seq de_retain);
  tag_dictionary ← required get "tag_dictionary" (de_seq de_tag);
  restart_policy ← required get "restart_policy" de_policy;
  compatibility_hash ← required get "compatibility_hash" de_string;
  input_slots ← optional get "input_slots";
  output_slots ← optional get "output_slots";
  data_size ← optional get "data_size";
  retain_size ← optional get "retain_size";
  const_size ← optional get "const_size";
  Some (mkManifest id version build_id ir_major ir_minor primitive_abi task_entries retain_symbols tag_dictionary restart_policy
    compatibility_hash input_slots output_slots data_size retain_size const_size).

(** ** Writing *)

(** The members of an object, less the fields [skip_serializing_if = "Option::is_none"] omits. *)
Fixpoint present (fs : list (string * option Doc)) : list (bytes * Doc) :=
  match fs with
  | [] => []
  | (n, Some x) :: fs => (bstr n, x) :: present fs
  | (_, None) :: fs => present fs
  end.

Definition kind_name (k : TagKind) : string :=
  match k with TkI => "I" | TkQ => "Q" | TkM => "M" | TkR => "R" | TkInternal => "INTERNAL" end.

Definition policy_name (p : RestartPolicy) : string :=
  match p with RpSafeReset => "safe_reset" | RpBumpless => "bumpless" end.

Definition ser_type (t : IrType) : Doc := DStr (bstr (type_name t)).

Definition retain_fields (s : ManifestRetainSymbol) : list (string * option Doc) :=
  [("name", Some (DStr (mr_name s))); ("type", Some (ser_type (mr_ty s))); ("offset", Some (DInt (mr_offset s)))]%string.
Definition ser_retain (s : ManifestRetainSymbol) : Doc := DObj (present (retain_fields s)).

Definition tag_fields (t : TagEntry) : list (string * option Doc) :=
  [("name", Some (DStr (te_name t))); ("type", Some (ser_type (te_ty t)));
   ("kind", Some (DStr (bstr (kind_name (te_kind t))))); ("slot", DInt <$> te_slot t)]%string.
Definition ser_tag (t : TagEntry) : Doc := DObj (present (tag_fields t)).

Definition manifest_fields (m : Manifest) : list (string * option Doc) := [
  ("id", Some (DStr (mf_id m)));
  ("version", Some (DStr (mf_version m)));
  ("build_id", Some (DStr (mf_build_id m)));
  ("ir_major", Some (DInt (mf_ir_major m)));
  ("ir_minor", Some (DInt (mf_ir_minor m)));
  ("primitive_abi", Some (DInt (mf_primitive_abi m)));
  ("task_entries", Some (DObj (map (fun p => (p.1, DStr p.2)) (mf_task_entries m))));
  ("retain_symbols", Some (DArr (map ser_retain (mf_retain_symbols m))));
  ("tag_dictionary", Some (DArr (map ser_tag (mf_tag_dictionary m))));
  ("restart_policy", Some (DStr (bstr (policy_name (mf_restart_policy m)))));
  ("compatibility_hash", Some (DStr (mf_compatibility_hash m)));
  ("input_slots", DInt <$> mf_input_slots m);
  ("output_slots", DInt <$> mf_output_slots m);
  ("data_size", DInt <$> mf_data_size m);
  ("retain_size", DInt <$> mf_retain_size m);
  ("const_size", DInt <$> mf_const_size m)]%string.
Definition ser_manifest (m : Manifest) : Doc := DObj (present (manifest_fields m)).

(** ** manifest.rs *)

Section Parsing.
Context `{SerdeJson} `{Semver}.

Definition from_json_bytes (bs : bytes) : res PackageError (Manifest * bytes) :=
  strict ← parse_strict_json bs;
  canonical ← to_jcs strict;
  d ← ok_or (from_slice bs) (Json "syntax");
  manifest ← ok_or (de_manifest d) (Json "manifest");
  validate_fields manifest ;;
  Ok (manifest, canonical).

Definition to_jcs_bytes (m : Manifest) : res PackageError bytes :=
  compact ← ok_or (to_vec (ser_manifest m)) (Jcs "to_vec");
  strict ← parse_strict_json compact;
  to_jcs strict.
End Parsing.

(** ** Manifests that JSON can carry *)

Definition text_ok (s : bytes) : Prop := utf8_valid s = true.
Definition opt_ok (o : option Z) : Prop := match o with Some n => u_range 32 n | None => True end.

(** What the field types say: strings are UTF-8, numbers fit, a map is sorted. *)
Record manifest_ok (m : Manifest) : Prop := {
  mfo_id : text_ok (mf_id m);
  mfo_version : text_ok (mf_version m);
  mfo_build : text_ok (mf_build_id m);
  mfo_major : u_range 16 (mf_ir_major m);
  mfo_minor : u_range 16 (mf_ir_minor m);
  mfo_abi : u_range 32 (mf_primitive_abi m);
  mfo_tasks : keys_sorted (mf_task_entries m);
  mfo_tasks_text : Forall (fun p => text_ok p.1 /\ text_ok p.2) (mf_task_entries m);
  mfo_retain : Forall (fun s => text_ok (mr_name s) /\ u_range 32 (mr_offset s)) (mf_retain_symbols m);
  mfo_tags : Forall (fun t => text_ok (te_name t) /\ opt_ok (te_slot t)) (mf_tag_dictionary m);
  mfo_hash : text_ok (mf_compatibility_hash m);
  mfo_inputs : opt_ok (mf_input_slots m);
  mfo_outputs : opt_ok (mf_output_slots m);
  mfo_data : opt_ok (mf_data_size m);
  mfo_retain_size : opt_ok (mf_retain_size m);
  mfo_const : opt_ok (mf_const_size m) }.

(** ** Written fields are read *)

Lemma bstr_inj a b : bstr a = bstr b -> a = b.
Proof.
  revert b. induction a as [|c a IH]; intros [|c' b]; try done. rewrite !bstr_cons. intros [= H1 H2].
  apply N2Z.inj in H1. f_equal; [|by apply IH]. rewrite <-(Ascii.ascii_N_embedding c), <-(Ascii.ascii_N_embedding c'). by rewrite H1.
Qed.

Fixpoint slookup (n : string) (fs : list (string * option Doc)) : option Doc :=
  match fs with
  | [] => None
  | (m, o) :: fs => if String.eqb n m then o else slookup n fs
  end.

Lemma slookup_absent n fs : n ∉ fs.*1 -> slookup n fs = None.
Proof.
  induction fs as [|[m o] fs IH]; [done|]. cbn [fmap list_fmap fst slookup]. intros [H1 H2]%not_elem_of_cons.
  destruct (String.eqb_spec n m); [done|]. by apply IH.
Qed.

Lemma present_keys fs k : k ∈ (present fs).*1 -> exists n, k = bstr n /\ n ∈ fs.*1.
Proof.
  induction fs as [|[m [x|]] fs IH]; cbn [present fmap list_fmap fst]; intros H.
  - by apply elem_of_nil in H.
  - apply elem_of_cons in H as [->|H]; [exists m; split; [done|by left]|]. destruct (IH H) as (n & -> & Hn). exists n. split; [done|by right].
  - destruct (IH H) as (n & -> & Hn). exists n. split; [done|by right].
Qed.

Lemma present_nodup fs : NoDup fs.*1 -> NoDup (present fs).*1.
Proof.
  induction fs as [|[m [x|]] fs IH]; cbn [present fmap list_fmap fst]; intros H; [constructor|..]; apply NoDup_cons in H as [Hm H].
  - constructor; [|by apply IH]. by intros (n & ->%bstr_inj & Hn)%present_keys.
  - by apply IH.
Qed.

Lemma assoc_present n fs : NoDup fs.*1 -> assoc (bstr n) (present fs) = slookup n fs.
Proof.
  induction fs as [|[m o] fs IH]; cbn [fmap list_fmap fst slookup]; intros H; [done|]. apply NoDup_cons in H as [Hm H].
  destruct (String.eqb_spec n m) as [->|Hne], o as [x|]; cbn [present assoc].
  - by rewrite bool_decide_eq_true_2.
  - rewrite IH by done. by apply slookup_absent.
  - rewrite bool_decide_eq_false_2 by (by intros ?%bstr_inj). by apply IH.
  - by apply IH.
Qed.

Lemma struct_present names fs : fs.*1 = names -> NoDup names ->
  exists get, struct_fields names (DObj (present fs)) = Some get /\ forall n, get n = slookup n fs.
Proof.
  intros <- Hn. cbn [struct_fields]. rewrite (bool_decide_eq_true_2 (NoDup _)) by by apply present_nodup.
  rewrite (proj2 (forallb_forall _ _)).
  - eexists. split; [done|]. intros n. by apply assoc_present.
  - intros p Hp. apply existsb_exists. destruct (present_keys fs p.1) as (n & E & Hin).
    { apply list_elem_of_fmap. exists p. split; [done|by apply list_elem_of_In]. }
    exists n. split; [by apply list_elem_of_In|by apply bool_decide_eq_true].
Qed.

Lemma de_uint_ok w n : u_range w n -> de_uint w (DInt n) = Some n.
Proof. intros [H1 H2]. cbn [de_uint]. by rewrite (proj2 (Z.leb_le _ _) H1), (proj2 (Z.ltb_lt _ _) H2). Qed.

Lemma de_opt_ok get n o : get n = DInt <$> o -> opt_ok o -> optional get n = Some o.
Proof. intros E Ho. unfold optional. rewrite E. destruct o as [x|]; [|done]. cbn [fmap option_fmap option_map de_opt_u32]. by rewrite de_uint_ok. Qed.

Lemma de_type_ok t : de_type (ser_type t) = Some t.
Proof. by destruct t. Qed.

Lemma de_kind_ok k : de_kind (DStr (bstr (kind_name k))) = Some k.
Proof. by destruct k. Qed.

Lemma de_policy_ok p : de_policy (DStr (bstr (policy_name p))) = Some p.
Proof. by destruct p. Qed.

Lemma de_seq_ok {A} (ser : A -> Doc) (de : Doc -> option A) (l : list A) :
  Forall (fun x => de (ser x) = Some x) l -> de_seq de (DArr (map ser l)) = Some l.
Proof.
  intros Hl. cbn [de_seq]. apply mapM_Some. induction Hl as [|x l Hx _ IH]; by constructor.
Qed.

Lemma de_map_ok l : keys_sorted l -> de_map (DObj (map (fun p => (p.1, DStr p.2)) l)) = Some l.
Proof.
  intros Hs. cbn [de_map]. assert (mapM (fun p : bytes * Doc => s ← de_string p.2; Some (p.1, s)) (map (fun p => (p.1, DStr p.2)) l) = Some l) as ->.
  { apply mapM_Some. clear Hs. induction l as [|[k s] l IH]; by constructor. }
  cbn [fmap option_fmap option_map]. by rewrite obj_of_id.
Qed.

Ltac read_fields Hget := unfold required; rewrite !Hget; cbn [slookup String.eqb Ascii.eqb Bool.eqb manifest_fields retain_fields tag_fields mbind option_bind].

Lemma de_retain_ok s : u_range 32 (mr_offset s) -> de_retain (ser_retain s) = Some s.
Proof.
  intros Ho. unfold de_retain, ser_retain.
  destruct (struct_present ["name"; "type"; "offset"]%string (retain_fields s)) as (get & -> & Hget); [done|by apply (bool_decide_unpack _); vm_compute|].
  cbn [mbind option_bind]. read_fields Hget. cbn [de_string]. rewrite de_type_ok. cbn [mbind option_bind]. rewrite de_uint_ok by done. by destruct s.
Qed.

Lemma de_tag_ok t : opt_ok (te_slot t) -> de_tag (ser_tag t) = Some t.
Proof.
  intros Ho. unfold de_tag, ser_tag.
  destruct (struct_present ["name"; "type"; "kind"; "slot"]%string (tag_fields t)) as (get & -> & Hget); [done|by apply (bool_decide_unpack _); vm_compute|].
  cbn [mbind option_bind]. rewrite (de_opt_ok get "slot" (te_slot t)) by (by rewrite ?Hget). read_fields Hget.
  cbn [de_string]. rewrite de_type_ok. cbn [mbind option_bind]. rewrite de_kind_ok. by destruct t.
Qed.

Lemma de_manifest_ok m : manifest_ok m -> de_manifest (ser_manifest m) = Some m.
Proof.
  intros []. unfold de_manifest, ser_manifest.
  destruct (struct_present manifest_names (manifest_fields m)) as (get & -> & Hget); [done|by apply (bool_decide_unpack _); vm_compute|].
  cbn [mbind option_bind].
  rewrite (de_opt_ok get "input_slots" (mf_input_slots m)), (de_opt_ok get "output_slots" (mf_output_slots m)),
    (de_opt_ok get "data_size" (mf_data_size m)), (de_opt_ok get "retain_size" (mf_retain_size m)),
    (de_opt_ok get "const_size" (mf_const_size m)) by (by rewrite ?Hget).
  read_fields Hget. cbn [de_string mbind option_bind]. rewrite !de_uint_ok by done. cbn [mbind option_bind].
  rewrite de_map_ok by done. cbn [mbind option_bind].
  rewrite (de_seq_ok ser_retain) by (eapply Forall_impl; [done|]; intros ? []; by apply de_retain_ok). cbn [mbind option_bind].
  rewrite (de_seq_ok ser_tag) by (eapply Forall_impl; [done|]; intros ? []; by apply de_tag_ok). cbn [mbind option_bind].
  rewrite de_policy_ok. cbn [mbind option_bind]. by destruct m.
Qed.

(** ** A manifest depends on the strict value only *)

Definition canon (d e : Doc) : Prop := exists v, strict d = Ok v /\ e = doc_of v.
Definition agrees {A} (f : Doc -> option A) : Prop := forall d e, canon d e -> f d = f e.
Definition canon_opt : option Doc -> option Doc -> Prop := option_Forall2 canon.

(** What a strict document becomes. *)
Lemma canon_cases d e : canon d e ->
  match d with
  | DArr l => exists l', e = DArr l' /\ Forall2 canon l l'
  | DObj l => exists vs, e = DObj (map (fun p => (p.1, doc_of p.2)) (obj_of vs)) /\ Forall2 member_of l vs /\ NoDup l.*1
  | _ => e = d
  end.
Proof.
  intros (v & Hv & ->). destruct d as [|b|n| |s|l|l]; try (cbn in Hv; discriminate Hv).
  - by injection Hv as <-.
  - cbn [strict] in Hv. case_match; [|done]. by injection Hv as <-.
  - by injection Hv as <-.
  - apply strict_arr_Ok in Hv as (vs & Hvs & ->). exists (map doc_of vs). split; [done|].
    induction Hvs as [|x v l vs Hx _ IH]; constructor; [by exists v|done].
  - apply strict_obj_Ok in Hv as (vs & Hvs & Hn & ->). by exists vs.
Qed.

Ltac by_shape := let Hc := fresh in intros d e Hc; pose proof (canon_cases d e Hc) as Hs; destruct d; cbn beta iota in Hs;
  try (subst e; reflexivity); destruct Hs as (? & -> & Hs); clear Hc; try reflexivity.

Lemma de_string_agrees : agrees de_string.
Proof. by_shape. Qed.

Lemma de_uint_agrees w : agrees (de_uint w).
Proof. by_shape. Qed.

Lemma de_opt_u32_agrees : agrees de_opt_u32.
Proof. by_shape. Qed.

Lemma bind_agrees {A B} (f : Doc -> option A) (g : A -> option B) : agrees f -> agrees (fun d => x ← f d; g x).
Proof. intros Hf d e H. by rewrite (Hf d e H). Qed.

Lemma de_seq_agrees {A} (f : Doc -> option A) : agrees f -> agrees (de_seq f).
Proof.
  intros Hf. by_shape. cbn [de_seq]. induction Hs as [|x y l l' Hxy _ IH]; [done|].
  cbn [mapM]. by rewrite (Hf x y Hxy), IH.
Qed.

Lemma member_canon (l : list (bytes * Doc)) vs : Forall2 member_of l vs ->
  Forall2 (fun p q => p.1 = q.1 /\ canon p.2 (doc_of q.2)) l vs.
Proof. intros H. eapply Forall2_impl; [exact H|]. intros p q [E Hq]. split; [done|by exists q.2]. Qed.

Lemma assoc_members l vs n : Forall2 member_of l vs -> NoDup l.*1 ->
  canon_opt (assoc n l) (assoc n (map (fun p => (p.1, doc_of p.2)) (obj_of vs))).
Proof.
  intros Hm Hn. assert (He : assoc n (map (fun p => (p.1, doc_of p.2)) (obj_of vs)) = doc_of <$> assoc n vs).
  { assert (Hmap : forall m : list (bytes * StrictValue), assoc n (map (fun p => (p.1, doc_of p.2)) m) = doc_of <$> assoc n m).
    { induction m as [|[k v] m IH]; [done|]. cbn [map assoc fst snd]. by case_bool_decide. }
    rewrite Hmap. f_equal. rewrite (member_keys _ _ Hm) in Hn. clear Hmap Hm. unfold obj_of.
    assert (Hg : forall m, (forall k, k ∈ vs.*1 -> k ∉ m.*1) ->
      assoc n (fold_left (fun m p => obj_insert p.1 p.2 m) vs m) = match assoc n vs with Some v => Some v | None => assoc n m end).
    { induction vs as [|[k v] vs IH]; intros m Hd; [done|]. cbn [fold_left fst snd assoc fmap list_fmap] in *.
      apply NoDup_cons in Hn as [Hk Hn]. rewrite IH; [|done|].
      - rewrite assoc_insert. destruct (assoc n vs) as [w|] eqn:E.
        + case_bool_decide; [|done]. subst. apply (assoc_elem _ _ _ Hn) in E. destruct Hk. apply list_elem_of_fmap. by exists (k, w).
        + by case_bool_decide.
      - intros k' Hk' [->|Hin]%obj_insert_keys; [done|]. by apply (Hd k'); [right|]. }
    rewrite Hg by (intros ? _; apply not_elem_of_nil). cbn [assoc]. by destruct (assoc n vs). }
  rewrite He. clear He Hn. induction Hm as [|[k x] [k' v] l vs [Hk Hx] _ IH]; [constructor|]. cbn [assoc fst snd] in *. subst k'.
  case_bool_decide; [|done]. constructor. by exists v.
Qed.

Lemma obj_of_keys {A} (vs : list (bytes * A)) k : k ∈ (obj_of vs).*1 <-> k ∈ vs.*1.
Proof.
  unfold obj_of. assert (H : forall m, k ∈ (fold_left (fun m p => obj_insert p.1 p.2 m) vs m).*1 <-> k ∈ vs.*1 \/ k ∈ m.*1).
  { induction vs as [|[k' v] vs IH]; intros m; cbn [fold_left fmap list_fmap fst snd]; [set_solver|].
    rewrite IH, obj_insert_keys, elem_of_cons. tauto. }
  rewrite H. set_solver.
Qed.

Lemma known_keys names (l l' : list (bytes * Doc)) : (forall k, k ∈ l'.*1 -> k ∈ l.*1) ->
  forallb (fun p => existsb (fun n => bool_decide (p.1 = bstr n)) names) l = true ->
  forallb (fun p => existsb (fun n => bool_decide (p.1 = bstr n)) names) l' = true.
Proof.
  intros Hsub Hl. apply forallb_forall. intros p Hp. pose proof (proj1 (forallb_forall _ _) Hl) as Hl'.
  assert (Hk : p.1 ∈ l.*1) by (apply Hsub, list_elem_of_fmap; exists p; split; [done|by apply list_elem_of_In]).
  apply list_elem_of_fmap in Hk as (q & -> & Hq). by apply Hl', list_elem_of_In.
Qed.

Lemma struct_fields_agree names d e : canon d e ->
  option_Forall2 (fun g g' => forall n, canon_opt (g n) (g' n)) (struct_fields names d) (struct_fields names e).
Proof.
  intros Hc. pose proof (canon_cases d e Hc) as Hs. destruct d as [|b|n| |s|l|l]; try (subst e; constructor).
  - destruct Hs as (l' & -> & Hl). cbn [struct_fields]. rewrite (Forall2_length _ _ _ Hl). case_match; [|constructor]. constructor.
    intros n. clear -Hl. revert names. induction Hl as [|x y l l' Hxy _ IH]; intros [|m names]; cbn [field_at]; try constructor.
    case_bool_decide; [by constructor|done].
  - destruct Hs as (vs & -> & Hm & Hn). cbn [struct_fields]. rewrite fst_map_snd.
    rewrite (bool_decide_eq_true_2 (NoDup l.*1)), (bool_decide_eq_true_2 (NoDup (obj_of vs).*1)) by (done || apply sorted_nodup, obj_of_sorted).
    assert (Hkeys : forall k, k ∈ (map (fun p : bytes * StrictValue => (p.1, doc_of p.2)) (obj_of vs)).*1 <-> k ∈ l.*1).
    { intros k. rewrite fst_map_snd, obj_of_keys. by rewrite (member_keys _ _ Hm). }
    match goal with |- option_Forall2 _ (if ?a && _ then _ else _) (if ?b && _ then _ else _) => assert (a = b) as -> end.
    { apply eq_bool_prop_intro. rewrite !Is_true_true. split; apply known_keys; intros k; by rewrite Hkeys. }
    case_match; constructor. intros n. by apply assoc_members.
Qed.

Lemma required_agrees {A} (g g' : string -> option Doc) n (f : Doc -> option A) :
  (forall n, canon_opt (g n) (g' n)) -> agrees f -> required g n f = required g' n f.
Proof. intros Hg Hf. unfold required. destruct (Hg n) as [x y Hxy|]; [|done]. by apply Hf. Qed.

Lemma optional_agrees (g g' : string -> option Doc) n : (forall n, canon_opt (g n) (g' n)) -> optional g n = optional g' n.
Proof. intros Hg. unfold optional. destruct (Hg n) as [x y Hxy|]; [|done]. by apply de_opt_u32_agrees. Qed.

Lemma struct_agrees {A} names (k : (string -> option Doc) -> option A) :
  (forall g g', (forall n, canon_opt (g n) (g' n)) -> k g = k g') -> agrees (fun d => get ← struct_fields names d; k get).
Proof. intros Hk d e Hc. destruct (struct_fields_agree names d e Hc) as [g g' Hg|]; [|done]. by apply Hk. Qed.

(** The strings of a map of values. *)
Definition member_string (p : bytes * StrictValue) : option (bytes * bytes) := s ← de_string (doc_of p.2); Some (p.1, s).

Lemma strings_cons k v m :
  mapM member_string ((k, v) :: m) = (s ← de_string (doc_of v); ms ← mapM member_string m; Some ((k, s) :: ms)).
Proof.
  change (mapM member_string ((k, v) :: m)) with (y ← member_string (k, v); l ← mapM member_string m; Some (y :: l)).
  change (member_string (k, v)) with (s ← de_string (doc_of v); Some (k, s)). by destruct (de_string (doc_of v)).
Qed.

Ltac strings := repeat (rewrite ?strings_cons; cbn [mbind option_bind]; try reflexivity; match goal with
  | |- context [mbind _ (de_string ?d)] => destruct (de_string d)
  | |- context [mbind _ (mapM member_string ?m)] => destruct (mapM member_string m)
  end).

Lemma strings_insert k v m : k ∉ m.*1 ->
  mapM member_string (obj_insert k v m) = (s ← de_string (doc_of v); ms ← mapM member_string m; Some (obj_insert k s ms)).
Proof.
  induction m as [|[k' v'] m IH]; cbn [fmap list_fmap fst]; intros Hk; [by cbn [obj_insert]; rewrite strings_cons|].
  apply not_elem_of_cons in Hk as [Hne Hk]. cbn [obj_insert]. pose proof (name_lt_cases k k') as Hc.
  destruct (bytes_cmp k k') eqn:Ec; [done|..].
  - strings; cbn [mbind option_bind obj_insert]; by rewrite Ec.
  - rewrite strings_cons, IH by done. strings; cbn [mbind option_bind obj_insert]; by rewrite Ec.
Qed.

Lemma strings_fold vs : forall m, NoDup vs.*1 -> (forall k, k ∈ vs.*1 -> k ∉ m.*1) ->
  mapM member_string (fold_left (fun m p => obj_insert p.1 p.2 m) vs m) =
  (ms ← mapM member_string m; ss ← mapM member_string vs; Some (fold_left (fun m p => obj_insert p.1 p.2 m) ss ms)).
Proof.
  induction vs as [|[k v] vs IH]; intros m Hn Hd; cbn [fold_left fst snd fmap list_fmap] in *.
  - cbn [mapM]. by destruct (mapM member_string m).
  - apply NoDup_cons in Hn as [Hk Hn]. rewrite IH; [|done|].
    + rewrite strings_insert by by apply Hd; left. strings.
    + intros k' Hk' [->|Hin]%obj_insert_keys; [done|]. by apply (Hd k'); [right|].
Qed.

Lemma strings_obj vs : NoDup vs.*1 -> mapM member_string (obj_of vs) = (ss ← mapM member_string vs; Some (obj_of ss)).
Proof. intros Hn. unfold obj_of. rewrite strings_fold; [done|done|]. intros k _. apply not_elem_of_nil. Qed.

Lemma member_strings vs : mapM (fun p : bytes * Doc => s ← de_string p.2; Some (p.1, s)) (map (fun p => (p.1, doc_of p.2)) vs) =
  mapM member_string vs.
Proof. induction vs as [|[k v] vs IH]; [done|]. cbn [map mapM]. by rewrite IH. Qed.

Lemma de_map_agrees : agrees de_map.
Proof.
  by_shape. destruct Hs as [Hm Hn]. rename x into vs, members into l. cbn [de_map].
  assert (mapM (fun p : bytes * Doc => s ← de_string p.2; Some (p.1, s)) l = mapM member_string vs) as ->.
  { rewrite <-member_strings. clear Hn. induction Hm as [|[k x] [k' v] l vs [Hk Hx] _ IH]; [done|]. cbn [mapM map fst snd] in *. subst k'.
    rewrite (de_string_agrees x (doc_of v)) by by exists v. by rewrite IH. }
  rewrite member_strings, strings_obj by by rewrite <-(member_keys _ _ Hm).
  destruct (mapM member_string vs) as [ss|]; [|done]. cbn [mbind option_bind fmap option_fmap option_map].
  by rewrite (obj_of_id (obj_of ss)) by apply obj_of_sorted.
Qed.

Lemma de_type_agrees : agrees de_type.
Proof. by_shape. Qed.

Lemma de_kind_agrees : agrees de_kind.
Proof. by_shape. Qed.

Lemma de_policy_agrees : agrees de_policy.
Proof. by_shape. Qed.

#[local] Hint Resolve de_string_agrees de_uint_agrees de_map_agrees de_type_agrees de_kind_agrees de_policy_agrees : pkg.

(** Field by field. *)
Ltac fields_agree Hg := repeat match goal with
  | |- ?a = ?a => reflexivity
  | |- context [required ?g ?n ?f] =>
      match goal with Hg : forall n, canon_opt (g n) (?g' n) |- _ =>
        rewrite (required_agrees g g' n f Hg) by (auto with pkg); destruct (required g' n f); [cbn [mbind option_bind]|reflexivity] end
  | |- context [optional ?g ?n] =>
      match goal with Hg : forall n, canon_opt (g n) (?g' n) |- _ =>
        rewrite (optional_agrees g g' n Hg); destruct (optional g' n); [cbn [mbind option_bind]|reflexivity] end
  end.

Lemma de_retain_agrees : agrees de_retain.
Proof. apply struct_agrees. intros g g' Hg. fields_agree Hg. Qed.

Lemma de_tag_agrees : agrees de_tag.
Proof. apply struct_agrees. intros g g' Hg. fields_agree Hg. Qed.

#[local] Hint Resolve de_retain_agrees de_tag_agrees de_seq_agrees : pkg.

Lemma de_manifest_agrees : agrees de_manifest.
Proof. apply struct_agrees. intros g g' Hg. fields_agree Hg. Qed.

(** ** Written manifests are strict *)

Definition strictly (d : Doc) : Prop := exists v, strict d = Ok v.

Lemma strict_arr_total l : Forall strictly l -> strictly (DArr l).
Proof.
  intros Hl. assert (H : exists vs, Forall2 (fun x v => strict x = Ok v) l vs).
  { induction Hl as [|x l [v Hv] _ [vs IH]]; [by exists []|]. exists (v :: vs). by constructor. }
  destruct H as [vs H]. exists (SArray vs). apply strict_arr_Ok. by exists vs.
Qed.

Lemma strict_obj_total l : Forall (fun p => strictly p.2) l -> NoDup l.*1 -> exists m, strict (DObj l) = Ok (SObject m).
Proof.
  intros Hl Hn. assert (H : exists vs, Forall2 member_of l vs).
  { clear Hn. induction Hl as [|[k x] l [v Hv] _ [vs IH]]; [by exists []|]. exists ((k, v) :: vs). by constructor. }
  destruct H as [vs H]. exists (obj_of vs). apply strict_obj_Ok. by exists vs.
Qed.

Lemma strict_present fs : NoDup fs.*1 -> Forall (fun f => match f.2 with Some x => strictly x | None => True end) fs ->
  exists m, strict (DObj (present fs)) = Ok (SObject m).
Proof.
  intros Hn Hf. apply strict_obj_total; [|by apply present_nodup]. clear Hn.
  induction Hf as [|[n [x|]] fs Hx _ IH]; cbn [present]; [constructor|by constructor|done].
Qed.

Lemma strict_str s : strictly (DStr s).
Proof. by eexists. Qed.

Lemma strict_int n w : u_range w n -> w <= 32 -> strictly (DInt n).
Proof.
  intros [_ H] Hw. exists (SInteger n). cbn [strict].
  assert (2 ^ w <= 2 ^ 32) by (apply Z.pow_le_mono_r; lia). by rewrite (proj2 (Z.ltb_lt n (2 ^ 63))) by (change (2 ^ 32) with 4294967296 in *; lia).
Qed.

Lemma strict_opt o : opt_ok o -> match DInt <$> o with Some x => strictly x | None => True end.
Proof. destruct o as [n|]; [|done]. intros H. by apply (strict_int n 32). Qed.

Ltac each_field := repeat (apply Forall_cons_2; [cbn [snd]; try apply strict_str; try (by apply strict_opt)|]); try apply Forall_nil_2.

Lemma strict_retain s : u_range 32 (mr_offset s) -> strictly (ser_retain s).
Proof.
  intros H. destruct (strict_present (retain_fields s)) as [m Hm]; [by apply (bool_decide_unpack _); vm_compute| |by eexists].
  each_field. by apply (strict_int _ 32).
Qed.

Lemma strict_tag t : opt_ok (te_slot t) -> strictly (ser_tag t).
Proof.
  intros H. destruct (strict_present (tag_fields t)) as [m Hm]; [by apply (bool_decide_unpack _); vm_compute| |by eexists].
  each_field.
Qed.

Lemma strict_manifest m : manifest_ok m -> exists o, strict (ser_manifest m) = Ok (SObject o).
Proof.
  intros []. apply strict_present; [by apply (bool_decide_unpack _); vm_compute|]. unfold manifest_fields.
  each_field; try (by eapply strict_int; [eassumption|done]).
  - edestruct strict_obj_total as [o Ho]; [| |by eexists].
    + apply Forall_map, Forall_true. intros. apply strict_str.
    + rewrite (fst_map_snd DStr). by apply sorted_nodup.
  - apply strict_arr_total, Forall_map. eapply Forall_impl; [done|]. intros s [_ Hs]. by apply strict_retain.
  - apply strict_arr_total, Forall_map. eapply Forall_impl; [done|]. intros s [_ Hs]. by apply strict_tag.
Qed.

Lemma plain_present fs : Forall (fun f => utf8_valid (bstr f.1) = true /\ match f.2 with Some x => plain x = true | None => True end) fs ->
  plain (DObj (present fs)) = true.
Proof.
  cbn [plain]. induction 1 as [|[n [x|]] fs [H1 H2] _ IH]; [done| |done]. cbn [present forallb fst snd] in *. by rewrite H1, H2, IH.
Qed.

Lemma plain_int n w : u_range w n -> w <= 32 -> plain (DInt n) = true.
Proof.
  intros [H0 H] Hw. cbn [plain]. assert (2 ^ w <= 2 ^ 32) by (apply Z.pow_le_mono_r; lia). apply andb_true_iff.
  change (2 ^ 32) with 4294967296 in *. split; [apply Z.leb_le|apply Z.ltb_lt]; lia.
Qed.

Lemma plain_opt o : opt_ok o -> match DInt <$> o with Some x => plain x = true | None => True end.
Proof. destruct o as [n|]; [|done]. intros H. by apply (plain_int n 32). Qed.

Lemma plain_all {A} (f : A -> Doc) l : Forall (fun x => plain (f x) = true) l -> plain (DArr (map f l)) = true.
Proof. cbn [plain]. induction 1 as [|x l Hx _ IH]; [done|]. cbn [map forallb]. by rewrite Hx. Qed.

Ltac each_plain := apply plain_present;
  repeat (apply Forall_cons_2; [split; [reflexivity|cbn [snd]; try assumption; try (by apply plain_opt)]|]); try apply Forall_nil_2.

Lemma plain_type t : plain (ser_type t) = true.
Proof. by destruct t. Qed.

Lemma plain_retain s : text_ok (mr_name s) -> u_range 32 (mr_offset s) -> plain (ser_retain s) = true.
Proof. intros Hn Ho. each_plain; [apply plain_type|by apply (plain_int _ 32)]. Qed.

Lemma plain_tag t : text_ok (te_name t) -> opt_ok (te_slot t) -> plain (ser_tag t) = true.
Proof. intros Hn Ho. each_plain; [apply plain_type|by destruct (te_kind t)]. Qed.

Lemma plain_manifest m : manifest_ok m -> plain (ser_manifest m) = true.
Proof.
  intros []. each_plain; try (by eapply plain_int; [eassumption|done]).
  - cbn [plain]. apply forallb_forall. intros p Hp%in_map_iff. destruct Hp as (q & <- & Hq). cbn [fst snd plain].
    apply list_elem_of_In in Hq. match goal with H : Forall _ (mf_task_entries m) |- _ => eapply Forall_forall in H; [|exact Hq]; destruct H as [H1 H2] end.
    unfold text_ok in *. by rewrite H1, H2.
  - apply plain_all. eapply Forall_impl; [done|]. intros s []. by apply plain_retain.
  - apply plain_all. eapply Forall_impl; [done|]. intros s []. by apply plain_tag.
  - by destruct (mf_restart_policy m).
Qed.

Lemma depth_present fs n : Forall (fun f => match f.2 with Some x => (depth x <= n)%nat | None => True end) fs ->
  (depth (DObj (present fs)) <= S n)%nat.
Proof.
  intros Hf. cbn [depth]. apply le_n_S. apply list_max_le, List.Forall_map.
  induction Hf as [|[m [x|]] fs Hx _ IH]; cbn [present]; [constructor|by constructor|done].
Qed.

Lemma depth_all {A} (f : A -> Doc) l n : (forall x, depth (f x) <= n)%nat -> (depth (DArr (map f l)) <= S n)%nat.
Proof. intros H. cbn [depth]. apply le_n_S, list_max_le, List.Forall_map, List.Forall_map. induction l; constructor; [apply H|done]. Qed.

Lemma depth_opt o n : match DInt <$> o with Some x => (depth x <= n)%nat | None => True end.
Proof. destruct o; [|done]. apply Nat.le_0_l. Qed.

Ltac each_depth := apply depth_present;
  repeat (apply Forall_cons_2; [cbn [snd]; try apply Nat.le_0_l; try apply depth_opt|]); try apply Forall_nil_2.

Lemma depth_manifest m : (depth (ser_manifest m) <= 3)%nat.
Proof.
  each_depth.
  - cbn [depth]. apply le_n_S. apply list_max_le, List.Forall_map, List.Forall_map. apply List.Forall_forall. intros. cbn. lia.
  - apply depth_all. intros s. each_depth.
  - apply depth_all. intros t. each_depth.
Qed.

(** ** Parsing what was written *)

Section ParsingLaws.
Context `{SerdeJson} `{Semver}.

Lemma parse_strict_Ok bs v : parse_strict_json bs = Ok v ->
  exists d o, from_slice bs = Some d /\ strict d = Ok v /\ v = SObject o.
Proof.
  unfold parse_strict_json. intros Hp. destruct (negb (utf8_valid bs)); [by destruct (looks_like_cbor bs)|].
  destruct (trim_json_ws bs) as [|b t]; [done|]. destruct (negb (b =? 123)); [by destruct (looks_like_cbor bs)|].
  apply res_bind_Ok in Hp as (d & Hd%ok_or_Ok & Hp). apply res_bind_Ok in Hp as (v' & Hv & Hp).
  destruct v' as [| | | |o]; try done. injection Hp as <-. by exists d, o.
Qed.

Lemma parse_strict_object bs t d o : bs = 123 :: t -> utf8_valid bs = true -> from_slice bs = Some d -> strict d = Ok (SObject o) ->
  parse_strict_json bs = Ok (SObject o).
Proof.
  intros -> Hu Hd Hv. unfold parse_strict_json. rewrite Hu, Hd. cbn [negb trim_json_ws]. change (is_json_ws 123) with false.
  cbv iota. change (123 =? 123) with true. cbn [negb ok_or mbind res_bind]. by rewrite Hv.
Qed.

(** What a parsed manifest and its canonical bytes are. *)
Lemma from_json_Ok bs m c : from_json_bytes bs = Ok (m, c) ->
  exists o, canonical (SObject o) /\ plain (doc_of (SObject o)) = true /\ c = write_jcs (SObject o) /\
    de_manifest (doc_of (SObject o)) = Some m /\ validate_fields m = Ok tt.
Proof.
  unfold from_json_bytes. intros Hp. apply res_bind_Ok in Hp as (v & Hs & Hp). apply parse_strict_Ok in Hs as (d & o & Hd & Hv & ->).
  apply res_bind_Ok in Hp as (c' & [= <-] & Hp). rewrite Hd in Hp. cbn [ok_or mbind res_bind] in Hp.
  apply res_bind_Ok in Hp as (m' & Hm%ok_or_Ok & Hp). apply res_bind_Ok in Hp as ([] & Hval & [= -> <-]).
  exists o. split; [by eapply strict_canonical|]. split; [eapply strict_plain; [by eapply from_slice_ok|done]|]. split; [done|].
  split; [|done]. rewrite <-Hm. symmetry. apply de_manifest_agrees. by exists (SObject o).
Qed.

Lemma to_jcs_parses `{!JsonLaws} m : manifest_ok m -> exists bs, to_jcs_bytes m = Ok bs /\
  (validate_fields m = Ok tt -> from_json_bytes bs = Ok (m, bs)).
Proof.
  intros Hm. destruct (strict_manifest m Hm) as [o Ho].
  destruct (written_reads (ser_manifest m)) as (b & Hb & Hd & Hu & Hc); [by apply plain_manifest|pose proof (depth_manifest m); lia|].
  destruct (Hc _ eq_refl) as [t Ht]. exists (write_jcs (SObject o)). split.
  - unfold to_jcs_bytes. rewrite Hb. cbn [ok_or mbind res_bind]. by rewrite (parse_strict_object b t _ o Ht Hu Hd Ho).
  - intros Hval. unfold from_json_bytes. pose proof (strict_canonical _ _ Ho) as Hcan.
    pose proof (canonical_reads b _ _ Hd Ho) as Hr.
    assert (Hpl : plain (doc_of (SObject o)) = true) by (eapply strict_plain; [by eapply from_slice_ok|done]).
    assert (Hs : parse_strict_json (write_jcs (SObject o)) = Ok (SObject o)).
    { eapply parse_strict_object; [reflexivity| |exact Hr|exact Hcan]. pose proof (write_doc_utf8 _ Hpl []) as Hw.
      by rewrite app_nil_r, <-write_jcs_doc in Hw. }
    rewrite Hs.
    cbn [mbind res_bind to_jcs]. rewrite Hr. cbn [ok_or mbind res_bind].
    rewrite <-(de_manifest_agrees (ser_manifest m)) by by exists (SObject o). rewrite de_manifest_ok by done.
    cbn [ok_or mbind res_bind]. by rewrite Hval.
Qed.
End ParsingLaws.
