(* ===== verification/PkgContainer.v ===== *)
(** * Packages

    Crate [plc-package], src/crates/plc-package/src: the [.spkg] container (format.rs), its
    signature (sign.rs), validation at upload (validate.rs) and the builder (pack.rs).
    Ed25519 is a parameter. What the builder makes validates; what validates is framed
    exactly, signed by a trusted key, verified and in agreement with its module; and the
    signed digest determines the manifest and the module. *)
From S2P Require Import Prelude Text AuthTypes IrTypes IrEncode RetainLayout Spbc IrVerify PkgManifest PkgJson PkgFields.

(** ** format.rs *)

Definition SPKG_MAGIC : bytes := bstr "SPKG".
Definition SPKG_VERSION : Z := 1.
Definition MAX_PACKAGE_BYTES : Z := 8 * 1024 * 1024.
Definition SIGNATURE_LEN : Z := 64.
Definition MIN_HEADER : Z := 4 + 2 + 4.

Record ParsedPackage := mkParsed {
  pp_manifest : Manifest;
  pp_manifest_raw : bytes;
  pp_manifest_canonical : bytes;
  pp_sections : list bytes;
  pp_modules : list IrModule;
  pp_signature : bytes }.

Definition with_modules (ms : list IrModule) (p : ParsedPackage) : ParsedPackage :=
  mkParsed (pp_manifest p) (pp_manifest_raw p) (pp_manifest_canonical p) (pp_sections p) ms (pp_signature p).

Definition read_u16_le (bs : bytes) (off : Z) (what : string) : res PackageError Z :=
  if len bs <? off + 2 then Err (Truncated what) else Ok (le_combine (zslice bs off 2)).

Definition read_u32_le (bs : bytes) (off : Z) (what : string) : res PackageError Z :=
  if len bs <? off + 4 then Err (Truncated what) else Ok (le_combine (zslice bs off 4)).

(** The [for _ in 0..section_count] loop; it returns the offset it reached. *)
Fixpoint read_sections (n : nat) (bs : bytes) (off : Z) : res PackageError (list bytes * Z) :=
  match n with
  | O => Ok ([], off)
  | S n =>
      section_len ← read_u32_le bs off "section length";
      let off := off + 4 in
      let e := off + section_len in
      if len bs <? e then Err (Truncated "section body")
      else
        '(sections, end_off) ← read_sections n bs e;
        Ok (zslice bs off section_len :: sections, end_off)
  end.

(** The crate ed25519_dalek. *)
Class Ed25519 := {
  SigningKey : Type;
  VerifyingKey : Type;
  verifying_key : SigningKey -> VerifyingKey;
  ed_sign : SigningKey -> bytes -> bytes;
  ed_verify : VerifyingKey -> bytes -> bytes -> bool;
  ed_sign_len : forall k msg, length (ed_sign k msg) = 64%nat }.

Section Container.
Context `{!SerdeJson} `{!Semver}.

Definition parse_spkg (bs : bytes) : res PackageError ParsedPackage :=
  if MAX_PACKAGE_BYTES <? len bs then Err (TooLarge (len bs))
  else if len bs <? MIN_HEADER then
    if looks_like_cbor bs then Err CborRejected else Err (Truncated "header")
  else if negb (bool_decide (zslice bs 0 4 = SPKG_MAGIC)) then
    if looks_like_cbor bs then Err CborRejected else Err BadMagic
  else
    version ← read_u16_le bs 4 "version";
    if negb (version =? SPKG_VERSION) then Err (UnsupportedVersion version)
    else
      manifest_len ← read_u32_le bs 6 "manifest_len";
      let manifest_end := 10 + manifest_len in
      if len bs <? manifest_end then Err (Truncated "manifest")
      else
        let manifest_raw := zslice bs 10 manifest_len in
        '(manifest, manifest_canonical) ← from_json_bytes manifest_raw;
        section_count ← read_u32_le bs manifest_end "section_count";
        let off := manifest_end + 4 in
        if section_count =? 0 then Err (SectionCount 0)
        else if sat_sub_u (sat_sub_u (len bs) off) SIGNATURE_LEN / 4 <? section_count then Err (Truncated "section_count")
        else
          '(sections, off) ← read_sections (Z.to_nat section_count) bs off;
          if len bs <? off + SIGNATURE_LEN then Err (Truncated "signature")
          else if off + SIGNATURE_LEN <? len bs then Err TrailingBytes
          else Ok (mkParsed manifest manifest_raw manifest_canonical sections [] (zslice bs off SIGNATURE_LEN)).

Definition write_section (section : bytes) : res PackageError bytes :=
  if 2 ^ 32 <=? len section then Err (Truncated "section longer than u32") else Ok (le_split 4 (len section) ++ section).

Fixpoint write_sections (sections : list bytes) : res PackageError bytes :=
  match sections with
  | [] => Ok []
  | s :: sections => b ← write_section s; rest ← write_sections sections; Ok (b ++ rest)
  end.

Definition write_spkg (manifest_json : bytes) (sections : list bytes) (signature : bytes) : res PackageError bytes :=
  if bool_decide (sections = []) then Err (SectionCount 0)
  else if 2 ^ 32 <=? len manifest_json then Err (Json "manifest longer than u32")
  else if 2 ^ 32 <=? len sections then Err (SectionCount (2 ^ 32 - 1))
  else
    body ← write_sections sections;
    let out := SPKG_MAGIC ++ le_split 2 SPKG_VERSION ++ le_split 4 (len manifest_json) ++ manifest_json ++
      le_split 4 (len sections) ++ body ++ signature in
    if MAX_PACKAGE_BYTES <? len out then Err (TooLarge (len out)) else Ok out.

(** ** sign.rs *)

Context `{Ed25519} `{Sha256}.

Record VerifyPolicy := mkPolicy { require_signature : bool; public_keys : list VerifyingKey }.

Definition policy_unsigned : VerifyPolicy := mkPolicy false [].
Definition policy_required (keys : list VerifyingKey) : VerifyPolicy := mkPolicy true keys.

Definition signing_preimage (canonical_manifest : bytes) (sections : list bytes) : bytes :=
  sha256 (canonical_manifest ++ concat sections).

Definition sign (preimage : bytes) (key : SigningKey) : bytes := ed_sign key preimage.

Definition verify_signature (preimage sig : bytes) (keys : list VerifyingKey) : res PackageError unit :=
  if existsb (fun key => ed_verify key preimage sig) keys then Ok tt else Err BadSignature.

Definition zero_signature : bytes := replicate 64 0.

Definition check_policy (policy : VerifyPolicy) (signature preimage : bytes) : res PackageError unit :=
  if negb (require_signature policy) then Ok tt
  else if bool_decide (signature = zero_signature) then Err Unsigned
  else verify_signature preimage signature (public_keys policy).

(** ** validate.rs *)

Definition disagrees (o : option Z) (n : Z) : bool := match o with Some x => negb (x =? n) | None => false end.

(** The loop over [task_entries]. *)
Fixpoint check_symbols_exist (module : IrModule) (l : list (bytes * bytes)) : res PackageError unit :=
  match l with
  | [] => Ok tt
  | (task, symbol) :: l =>
      if existsb (fun e => bool_decide (e_name e = symbol)) (entries module) then check_symbols_exist module l
      else Err (ManifestSpbcMismatch "task_entries")
  end.

Definition cross_check (module : IrModule) (m : Manifest) : res PackageError unit :=
  if negb (mf_ir_major m =? IR_MAJOR) || negb (mf_ir_minor m =? IR_MINOR) then Err (ManifestSpbcMismatch "runtime ir")
  else if negb (mf_ir_major m =? ir_major module) || negb (mf_ir_minor m =? ir_minor module) then Err (ManifestSpbcMismatch "spbc ir")
  else if disagrees (mf_input_slots m) (input_slots module) then Err (ManifestSpbcMismatch "input_slots")
  else if disagrees (mf_output_slots m) (output_slots module) then Err (ManifestSpbcMismatch "output_slots")
  else if disagrees (mf_data_size m) (data_size module) then Err (ManifestSpbcMismatch "data_size")
  else if disagrees (mf_retain_size m) (retain_size module) then Err (ManifestSpbcMismatch "retain_size")
  else if disagrees (mf_const_size m) (const_size module) then Err (ManifestSpbcMismatch "const_size")
  else
    check_symbols_exist module (mf_task_entries m) ;;
    _ ← retain_layout m (retain_size module);
    Ok tt.

Definition validate (bs : bytes) (policy : VerifyPolicy) : res PackageError ParsedPackage :=
  parsed ← parse_spkg bs;
  let preimage := signing_preimage (pp_manifest_canonical parsed) (pp_sections parsed) in
  check_policy policy (pp_signature parsed) preimage ;;
  match pp_sections parsed with
  | [section] =>
      module ← map_err PkgSpbc (parse_spbc section);
      map_err PkgVerify (verify_module module) ;;
      let parsed := with_modules [module] parsed in
      cross_check module (pp_manifest parsed) ;;
      if bool_decide (compute_compatibility_hash (pp_manifest parsed) = mf_compatibility_hash (pp_manifest parsed)) then Ok parsed
      else Err CompatibilityHash
  | sections => Err (SectionCount (Z.min (len sections) (2 ^ 32 - 1)))
  end.

(** ** pack.rs *)

Inductive SigMode := SigPending | SigKey (key : SigningKey) | SigUnsigned.

Record PackageBuilder := mkBuilder { pb_manifest : Manifest; pb_sections : list bytes; pb_sig : SigMode }.

Definition builder_new (manifest : Manifest) : PackageBuilder := mkBuilder manifest [] SigPending.

Definition section_bytes (spbc : bytes) (b : PackageBuilder) : res PackageError PackageBuilder :=
  if negb (bool_decide (pb_sections b = [])) then Err (SectionCount 2)
  else Ok (mkBuilder (pb_manifest b) (pb_sections b ++ [spbc]) (pb_sig b)).

Definition section_module (module : IrModule) (b : PackageBuilder) : res PackageError PackageBuilder :=
  spbc ← map_err PkgSpbc (write_spbc module);
  section_bytes spbc b.

Definition builder_sign (key : SigningKey) (b : PackageBuilder) : PackageBuilder :=
  mkBuilder (pb_manifest b) (pb_sections b) (SigKey key).
Definition builder_unsigned (b : PackageBuilder) : PackageBuilder := mkBuilder (pb_manifest b) (pb_sections b) SigUnsigned.

Definition to_bytes (b : PackageBuilder) : res PackageError bytes :=
  if negb (len (pb_sections b) =? 1) then Err (SectionCount (wrap_u 32 (len (pb_sections b))))
  else
    let manifest := set_compatibility_hash (compute_compatibility_hash (pb_manifest b)) (pb_manifest b) in
    validate_fields manifest ;;
    canonical ← to_jcs_bytes manifest;
    let preimage := signing_preimage canonical (pb_sections b) in
    signature ←
      match pb_sig b with
      | SigPending => Err (ManifestInvalid "call sign() or unsigned() before to_bytes()")
      | SigKey key => Ok (sign preimage key)
      | SigUnsigned => Ok zero_signature
      end;
    write_spkg canonical (pb_sections b) signature.
End Container.

(** [hex_decode_n], compat.rs: [n] bytes of either case. *)
Definition hex_decode_n (n : nat) (s : bytes) : res PackageError bytes :=
  let t := trim s in
  if negb (length t =? n * 2)%nat || negb (forallb is_ascii_hexdigit t) then Err (ManifestInvalid "expected hex bytes")
  else map_err (fun _ => ManifestInvalid "invalid hex digit") (hex_decode_loop t).

(** ** Framing *)

Definition zdrop {A} (l : list A) (off : Z) : list A := drop (Z.to_nat off) l.

Lemma zdrop_split {A} (l : list A) off n : 0 <= off -> 0 <= n -> zdrop l off = zslice l off n ++ zdrop l (off + n).
Proof.
  intros H1 H2. unfold zdrop, zslice, slice. rewrite Z2Nat.inj_add by done. rewrite <-drop_drop. by rewrite take_drop.
Qed.

Lemma zslice_len_in {A} (l : list A) off n : 0 <= off -> 0 <= n -> off + n <= len l -> len (zslice l off n) = n.
Proof. intros H1 H2 H3. unfold len, zslice in *. rewrite length_slice by lia. lia. Qed.

(** Reading a number and writing it again. *)
Lemma le_split_zslice bs off (n : nat) : bytes_ok bs -> 0 <= off -> off + Z.of_nat n <= len bs ->
  le_split n (le_combine (zslice bs off (Z.of_nat n))) = zslice bs off (Z.of_nat n).
Proof.
  intros Hb Ho Hn. pose proof (zslice_len_in bs off (Z.of_nat n) Ho ltac:(lia) Hn) as Hl.
  assert (length (zslice bs off (Z.of_nat n)) = n) as Hl' by (unfold len in Hl; lia).
  rewrite <-Hl' at 1. apply le_split_combine. by apply slice_ok.
Qed.

Lemma read_u32_le_Ok bs off what v : bytes_ok bs -> 0 <= off -> read_u32_le bs off what = Ok v ->
  off + 4 <= len bs /\ le_split 4 v = zslice bs off 4 /\ u_range 32 v.
Proof.
  unfold read_u32_le. intros Hb Ho H. destruct (Z.ltb_spec (len bs) (off + 4)); [done|]. apply Ok_inj in H as <-.
  split; [done|]. split; [by apply (le_split_zslice bs off 4)|].
  pose proof (le_combine_bound (zslice bs off 4) ltac:(by apply slice_ok)) as Hr.
  pose proof (zslice_len_in bs off 4 ltac:(lia) ltac:(lia) ltac:(lia)) as Hl.
  replace (length (zslice bs off 4)) with 4%nat in Hr by (unfold len in Hl; lia). done.
Qed.

Lemma read_u32_le_app pre v post what : u_range 32 v -> read_u32_le (pre ++ le_split 4 v ++ post) (len pre) what = Ok v.
Proof.
  intros Hv. unfold read_u32_le. rewrite !len_app, len_le_split. pose proof (len_nonneg post). ltb_false by lia.
  rewrite zslice_app by (done || by rewrite len_le_split). by rewrite le_combine_split_id.
Qed.

Lemma read_sections_Ok bs : bytes_ok bs -> forall n off secs e, 0 <= off <= len bs -> read_sections n bs off = Ok (secs, e) ->
  off <= e <= len bs /\ length secs = n /\ exists body, write_sections secs = Ok body /\ zdrop bs off = body ++ zdrop bs e.
Proof.
  intros Hb. induction n as [|n IH]; intros off secs e Ho Hr; cbn [read_sections] in Hr.
  - apply Ok_inj in Hr. injection Hr as <- <-. split; [lia|]. split; [done|]. by exists [].
  - apply res_bind_Ok in Hr as (sl & (H4 & Hsl & Hrange)%read_u32_le_Ok & Hr); [|done|lia].
    destruct (Z.ltb_spec (len bs) (off + 4 + sl)); [done|]. apply res_bind_Ok in Hr as ([rest e'] & Hrest & Hr).
    apply Ok_inj in Hr. injection Hr as <- <-. unfold u_range in Hrange.
    apply IH in Hrest as (He & Hlen & body & Hbody & Hdrop); [|lia]. split; [lia|]. split; [by cbn; rewrite Hlen|].
    assert (Hzl : len (zslice bs (off + 4) sl) = sl) by (apply zslice_len_in; lia).
    exists ((le_split 4 sl ++ zslice bs (off + 4) sl) ++ body). cbn [write_sections]. unfold write_section. rewrite Hzl.
    rewrite (proj2 (Z.leb_gt _ _)) by lia. cbn [mbind res_bind]. rewrite Hbody. split; [done|].
    rewrite (zdrop_split bs off 4), (zdrop_split bs (off + 4) sl) by lia. rewrite Hsl, Hdrop. by rewrite <-!app_assoc.
Qed.

Lemma read_written_sections secs : forall pre body post, write_sections secs = Ok body ->
  read_sections (length secs) (pre ++ body ++ post) (len pre) = Ok (secs, len pre + len body).
Proof.
  induction secs as [|s secs IH]; intros pre body post Hw; cbn [write_sections] in Hw.
  - apply Ok_inj in Hw as <-. cbn [length read_sections]. by rewrite Z.add_0_r.
  - apply res_bind_Ok in Hw as (b & Hb & Hw). apply res_bind_Ok in Hw as (rest & Hrest & Hw). apply Ok_inj in Hw as <-.
    unfold write_section in Hb. destruct (Z.leb_spec (2 ^ 32) (len s)); [done|]. apply Ok_inj in Hb as <-.
    cbn [length read_sections]. pose proof (len_nonneg s). pose proof (len_nonneg post). pose proof (len_nonneg rest).
    rewrite <-!app_assoc. rewrite read_u32_le_app by done. cbn [mbind res_bind].
    assert (Hl : len (pre ++ le_split 4 (len s) ++ s ++ rest ++ post) = len pre + 4 + len s + len rest + len post)
      by (rewrite !len_app, len_le_split; lia).
    ltb_false by lia. specialize (IH (pre ++ le_split 4 (len s) ++ s) rest post Hrest).
    rewrite !len_app, len_le_split, <-!app_assoc in IH. change (Z.of_nat 4) with 4 in IH. rewrite Z.add_assoc in IH. rewrite IH. cbn [mbind res_bind].
    rewrite !len_app, len_le_split. do 2 f_equal; [|lia]. f_equal. rewrite (app_assoc pre).
    apply zslice_app; [|done]. by rewrite len_app, len_le_split.
Qed.

Lemma write_sections_len secs body : write_sections secs = Ok body -> 4 * len secs <= len body.
Proof.
  revert body. induction secs as [|s secs IH]; intros body Hw; cbn [write_sections] in Hw; [by apply Ok_inj in Hw as <-|].
  apply res_bind_Ok in Hw as (b & Hb & Hw). apply res_bind_Ok in Hw as (rest & Hrest & Hw). apply Ok_inj in Hw as <-.
  unfold write_section in Hb. destruct (2 ^ 32 <=? len s); [done|]. apply Ok_inj in Hb as <-. specialize (IH _ Hrest).
  pose proof (len_nonneg s). rewrite !len_app, len_le_split. unfold len in *. cbn [length]. lia.
Qed.

Section Frames.
Context `{!SerdeJson} `{!Semver}.

Definition frame (raw : bytes) (count : Z) (body sig : bytes) : bytes :=
  SPKG_MAGIC ++ le_split 2 SPKG_VERSION ++ le_split 4 (len raw) ++ raw ++ le_split 4 count ++ body ++ sig.

Lemma len_frame raw count body sig : len (frame raw count body sig) = 10 + len raw + 4 + len body + len sig.
Proof. unfold frame. rewrite !len_app, !len_le_split. change (len SPKG_MAGIC) with 4. lia. Qed.

Lemma write_spkg_Ok raw secs sig bs : write_spkg raw secs sig = Ok bs <->
  secs <> [] /\ len raw < 2 ^ 32 /\ len secs < 2 ^ 32 /\ len bs <= MAX_PACKAGE_BYTES /\
  exists body, write_sections secs = Ok body /\ bs = frame raw (len secs) body sig.
Proof.
  unfold write_spkg. split.
  - intros Hw. case_bool_decide as E; [done|]. destruct (Z.leb_spec (2 ^ 32) (len raw)); [done|].
    destruct (Z.leb_spec (2 ^ 32) (len secs)); [done|]. apply res_bind_Ok in Hw as (body & Hbody & Hw).
    fold (frame raw (len secs) body sig) in Hw. destruct (Z.ltb_spec MAX_PACKAGE_BYTES (len (frame raw (len secs) body sig))); [done|].
    apply Ok_inj in Hw as <-. repeat split; [done..|]. by exists body.
  - intros (E & H1 & H2 & H3 & body & Hbody & ->). rewrite bool_decide_eq_false_2 by done.
    rewrite !(proj2 (Z.leb_gt _ _)) by done. rewrite Hbody. cbn [mbind res_bind].
    fold (frame raw (len secs) body sig). by ltb_false by lia.
Qed.

(** The fields before the sections read back. *)
Lemma frame_fields raw count body sig (bs := frame raw count body sig) : len raw < 2 ^ 32 -> u_range 32 count ->
  zslice bs 0 4 = SPKG_MAGIC /\ read_u16_le bs 4 "version" = Ok SPKG_VERSION /\ read_u32_le bs 6 "manifest_len" = Ok (len raw) /\
  zslice bs 10 (len raw) = raw /\ read_u32_le bs (10 + len raw) "section_count" = Ok count.
Proof.
  intros Hraw Hc. pose proof (len_nonneg raw). pose proof (len_nonneg body). pose proof (len_nonneg sig).
  assert (Hl : len bs = 10 + len raw + 4 + len body + len sig) by apply len_frame.
  split; [apply (zslice_app [] SPKG_MAGIC); done|]. split.
  { unfold read_u16_le. by ltb_false by lia. }
  split.
  { unfold bs, frame. rewrite app_assoc. by apply (read_u32_le_app (SPKG_MAGIC ++ le_split 2 SPKG_VERSION)). }
  split.
  { unfold bs, frame. rewrite (app_assoc SPKG_MAGIC), (app_assoc (SPKG_MAGIC ++ _)). apply zslice_app; [|done].
    by rewrite !len_app, !len_le_split. }
  unfold bs, frame. rewrite (app_assoc SPKG_MAGIC), (app_assoc (SPKG_MAGIC ++ _)), (app_assoc ((SPKG_MAGIC ++ _) ++ _)).
  replace (10 + len raw) with (len (((SPKG_MAGIC ++ le_split 2 SPKG_VERSION) ++ le_split 4 (len raw)) ++ raw)).
  - by apply read_u32_le_app.
  - rewrite !len_app, !len_le_split. change (len SPKG_MAGIC) with 4. lia.
Qed.

(** What [write_spkg] writes, [parse_spkg] takes apart. *)
Lemma parse_written raw secs sig bs m c : write_spkg raw secs sig = Ok bs -> len sig = SIGNATURE_LEN -> from_json_bytes raw = Ok (m, c) ->
  parse_spkg bs = Ok (mkParsed m raw c secs [] sig).
Proof.
  intros (Hne & Hraw & Hcount & Hmax & body & Hbody & Hbs)%write_spkg_Ok Hsig Hjson.
  pose proof (len_nonneg secs) as Hs0. pose proof (len_nonneg raw). pose proof (len_nonneg body).
  destruct (frame_fields raw (len secs) body sig Hraw ltac:(done)) as (F1 & F2 & F3 & F4 & F5). rewrite <-Hbs in *.
  assert (Hl : len bs = 10 + len raw + 4 + len body + 64) by (rewrite Hbs, len_frame, Hsig; done).
  unfold parse_spkg. rewrite F1, F2, F3. cbn [mbind res_bind]. rewrite F4, F5, Hjson. cbn [mbind res_bind].
  change (SPKG_VERSION =? SPKG_VERSION) with true. unfold MIN_HEADER. ltb_false by lia.
  rewrite bool_decide_eq_true_2 by done. cbn [negb].
  rewrite (proj2 (Z.eqb_neq (len secs) 0)) by (destruct secs; [done|]; unfold len; cbn [length]; lia).
  pose proof (write_sections_len _ _ Hbody). unfold sat_sub_u, SIGNATURE_LEN.
  ltb_false by (apply Z.div_le_lower_bound; lia).
  assert (Hoff : 10 + len raw + 4 = len (SPKG_MAGIC ++ le_split 2 SPKG_VERSION ++ le_split 4 (len raw) ++ raw ++ le_split 4 (len secs)))
    by (rewrite !len_app, !len_le_split; change (len SPKG_MAGIC) with 4; lia).
  assert (Hsplit : bs = (SPKG_MAGIC ++ le_split 2 SPKG_VERSION ++ le_split 4 (len raw) ++ raw ++ le_split 4 (len secs)) ++ body ++ sig)
    by (rewrite Hbs; unfold frame; by rewrite <-!app_assoc).
  replace (Z.to_nat (len secs)) with (length secs) by (unfold len; lia).
  assert (Hrs : read_sections (length secs) bs (10 + len raw + 4) = Ok (secs, 10 + len raw + 4 + len body)).
  { rewrite Hoff, Hsplit. by apply read_written_sections. }
  rewrite Hrs. cbn [mbind res_bind].
  assert (Hsigs : zslice bs (10 + len raw + 4 + len body) 64 = sig).
  { rewrite Hsplit, (app_assoc _ body). rewrite <-(app_nil_r sig) at 1. apply zslice_app; [|done]. by rewrite len_app, <-Hoff. }
  rewrite Hsigs. repeat ltb_false by lia. done.
Qed.

(** What [parse_spkg] takes apart, [write_spkg] writes. *)
Lemma parsed_written bs p : bytes_ok bs -> parse_spkg bs = Ok p ->
  write_spkg (pp_manifest_raw p) (pp_sections p) (pp_signature p) = Ok bs /\ len (pp_signature p) = SIGNATURE_LEN /\
  from_json_bytes (pp_manifest_raw p) = Ok (pp_manifest p, pp_manifest_canonical p) /\ pp_modules p = [].
Proof.
  intros Hb Hp. unfold parse_spkg in Hp. destruct (Z.ltb_spec MAX_PACKAGE_BYTES (len bs)) as [|Hmax]; [done|].
  destruct (Z.ltb_spec (len bs) MIN_HEADER) as [|Hmin]; [by destruct (looks_like_cbor bs)|]. unfold MIN_HEADER in Hmin.
  case_bool_decide as Hmagic; cbn [negb] in Hp; [|by destruct (looks_like_cbor bs)].
  apply res_bind_Ok in Hp as (version & Hver & Hp). unfold read_u16_le in Hver. destruct (Z.ltb_spec (len bs) (4 + 2)); [done|].
  apply Ok_inj in Hver. destruct (Z.eqb_spec version SPKG_VERSION) as [->|]; [|done]. cbn [negb] in Hp.
  apply res_bind_Ok in Hp as (ml & (_ & Hml & Hmr)%read_u32_le_Ok & Hp); [|done..]. unfold u_range in Hmr.
  destruct (Z.ltb_spec (len bs) (10 + ml)) as [|Hme]; [done|]. apply res_bind_Ok in Hp as ([m c] & Hjson & Hp).
  apply res_bind_Ok in Hp as (count & (Hc4 & Hcount & Hcr)%read_u32_le_Ok & Hp); [|done|lia]. unfold u_range in Hcr.
  destruct (Z.eqb_spec count 0) as [|Hc0]; [done|]. destruct (_ / 4 <? count); [done|].
  apply res_bind_Ok in Hp as ([secs off] & (Hoff & Hlen & body & Hbody & Hdrop)%read_sections_Ok & Hp); [|done|lia].
  destruct (Z.ltb_spec (len bs) (off + SIGNATURE_LEN)); [done|]. destruct (Z.ltb_spec (off + SIGNATURE_LEN) (len bs)); [done|].
  apply Ok_inj in Hp as <-. cbn [pp_manifest_raw pp_sections pp_signature pp_manifest pp_manifest_canonical pp_modules].
  assert (Hraw : len (zslice bs 10 ml) = ml) by (apply zslice_len_in; lia).
  assert (Hsecs : len secs = count) by (unfold len; lia).
  assert (Hsig : len (zslice bs off SIGNATURE_LEN) = SIGNATURE_LEN) by (unfold SIGNATURE_LEN in *; apply zslice_len_in; lia).
  split; [|done]. apply write_spkg_Ok. split; [by intros ->|]. rewrite Hraw, Hsecs. split; [lia|]. split; [lia|]. split; [done|].
  exists body. split; [done|]. unfold frame. rewrite Hraw.
  assert (Hver' : le_split 2 SPKG_VERSION = zslice bs 4 2) by (rewrite <-Hver; apply (le_split_zslice bs 4 2); [done|lia..]).
  rewrite Hver', Hml, Hcount, <-Hmagic. change bs with (zdrop bs 0) at 1.
  rewrite (zdrop_split bs 0 4), (zdrop_split bs (0 + 4) 2), (zdrop_split bs (0 + 4 + 2) 4), (zdrop_split bs (0 + 4 + 2 + 4) ml),
    (zdrop_split bs (0 + 4 + 2 + 4 + ml) 4) by lia. change (0 + 4 + 2 + 4) with 10.
  rewrite Hdrop, (zdrop_split bs off SIGNATURE_LEN) by (unfold SIGNATURE_LEN; lia).
  assert (zdrop bs (off + SIGNATURE_LEN) = []) as ->; [|by rewrite app_nil_r].
  unfold zdrop. apply drop_ge. unfold len, SIGNATURE_LEN in *. lia.
Qed.
End Frames.

(** ** A manifest that agrees with its module *)

Record agrees_with (md : IrModule) (m : Manifest) : Prop := {
  ag_major : mf_ir_major m = IR_MAJOR /\ ir_major md = IR_MAJOR;
  ag_minor : mf_ir_minor m = IR_MINOR /\ ir_minor md = IR_MINOR;
  ag_inputs : forall n, mf_input_slots m = Some n -> n = input_slots md;
  ag_outputs : forall n, mf_output_slots m = Some n -> n = output_slots md;
  ag_data : forall n, mf_data_size m = Some n -> n = data_size md;
  ag_retain : forall n, mf_retain_size m = Some n -> n = retain_size md;
  ag_const : forall n, mf_const_size m = Some n -> n = const_size md;
  ag_tasks : forall task symbol, (task, symbol) ∈ mf_task_entries m -> exists e, e ∈ entries md /\ e_name e = symbol;
  ag_layout : exists l, retain_layout m (retain_size md) = Ok l }.

Lemma disagrees_false o n : disagrees o n = false <-> forall x, o = Some x -> x = n.
Proof.
  destruct o as [x|]; cbn [disagrees]; [|by split].
  rewrite negb_false_iff, Z.eqb_eq. split; [by intros -> ? [= ->]|by auto].
Qed.

Lemma check_symbols_exist_Ok md l :
  check_symbols_exist md l = Ok tt <-> forall task symbol, (task, symbol) ∈ l -> exists e, e ∈ entries md /\ e_name e = symbol.
Proof.
  induction l as [|[task symbol] l IH]; cbn [check_symbols_exist]; [split; [by intros _ ? ? ?%elem_of_nil|done]|].
  destruct (existsb _ _) eqn:E.
  - apply existsb_exists in E as (e & He%list_elem_of_In & Hn%bool_decide_eq_true). rewrite IH. split.
    + intros Hl t s [[= -> ->]|Hin]%elem_of_cons; [by exists e|by eapply Hl].
    + intros Hl t s Hin. eapply Hl. by right.
  - split; [done|]. intros Hl. destruct (Hl task symbol) as (e & He & Hn); [by left|].
    apply not_true_iff_false in E. destruct E. apply existsb_exists. exists e.
    split; [by apply list_elem_of_In|by apply bool_decide_eq_true].
Qed.

Lemma cross_check_Ok md m : cross_check md m = Ok tt <-> agrees_with md m.
Proof.
  unfold cross_check. split.
  - intros Hc.
    repeat match type of Hc with (if ?b then _ else _) = _ => destruct b eqn:?; [done|] end.
    apply res_bind_Ok in Hc as ([] & Ht & Hc). pose proof (proj1 (check_symbols_exist_Ok _ _) Ht) as Ht'. apply res_bind_Ok in Hc as (l & Hl & _).
    repeat match goal with
    | H : _ || _ = false |- _ => apply orb_false_iff in H as [? ?]
    | H : negb _ = false |- _ => apply negb_false_iff, Z.eqb_eq in H
    | H : disagrees _ _ = false |- _ => rewrite disagrees_false in H
    end.
    split; try assumption; [split; congruence..|by exists l].
  - intros [[-> ->] [-> ->] H1 H2 H3 H4 H5 Ht [l Hl]].
    apply disagrees_false in H1 as ->, H2 as ->, H3 as ->, H4 as ->, H5 as ->. apply check_symbols_exist_Ok in Ht as ->.
    cbn. by rewrite Hl.
Qed.

Section Validation.
Context `{!SerdeJson} `{!Semver} `{!Ed25519} `{!Sha256}.

(** What [validate] does with a package it could frame. *)
Lemma validate_framed bs policy m raw c secs sig : parse_spkg bs = Ok (mkParsed m raw c secs [] sig) ->
  forall s md, secs = [s] -> parse_spbc s = Ok md -> verify_module md = Ok tt -> agrees_with md m ->
  compute_compatibility_hash m = mf_compatibility_hash m ->
  validate bs policy = (check_policy policy sig (signing_preimage c secs) ;; Ok (mkParsed m raw c secs [md] sig)).
Proof.
  intros Hp s md -> Hs Hv Hag Hh. unfold validate. rewrite Hp. cbn [mbind res_bind pp_manifest_canonical pp_sections pp_signature].
  destruct (check_policy policy sig _) as [[]|e|]; [|done..]. cbn [mbind res_bind]. rewrite Hs. cbn [map_err mbind res_bind].
  rewrite Hv. cbn [map_err mbind res_bind with_modules pp_manifest]. apply cross_check_Ok in Hag as ->. cbn [mbind res_bind].
  by rewrite bool_decide_eq_true_2.
Qed.

Lemma validate_Ok bs policy p : validate bs policy = Ok p -> exists p0 s md,
  parse_spkg bs = Ok p0 /\ pp_sections p0 = [s] /\ p = with_modules [md] p0 /\
  check_policy policy (pp_signature p0) (signing_preimage (pp_manifest_canonical p0) [s]) = Ok tt /\
  parse_spbc s = Ok md /\ verify_module md = Ok tt /\ agrees_with md (pp_manifest p0) /\
  compute_compatibility_hash (pp_manifest p0) = mf_compatibility_hash (pp_manifest p0).
Proof.
  unfold validate. intros Hv. apply res_bind_Ok in Hv as (p0 & Hp & Hv). apply res_bind_Ok in Hv as ([] & Hc & Hv).
  destruct (pp_sections p0) as [|s [|? ?]] eqn:Hs; [done| |done].
  apply res_bind_Ok in Hv as (md & Hmd & Hv). apply res_bind_Ok in Hv as ([] & Hver & Hv). apply res_bind_Ok in Hv as ([] & Hag & Hv).
  case_bool_decide as Hh; [|done]. apply Ok_inj in Hv as <-. exists p0, s, md. split; [done|]. split; [done|]. split; [done|].
  split; [done|]. split; [by destruct (parse_spbc s); inversion Hmd|].
  split; [destruct (verify_module md) as [[]| |]; by inversion Hver|]. split; [by apply cross_check_Ok|done].
Qed.

Lemma check_policy_Ok policy sig pre : check_policy policy sig pre = Ok tt -> require_signature policy = true ->
  sig <> zero_signature /\ exists key, key ∈ public_keys policy /\ ed_verify key pre sig = true.
Proof.
  unfold check_policy, verify_signature. intros Hc Hr. rewrite Hr in Hc. cbn [negb] in Hc. case_bool_decide; [done|]. split; [done|].
  destruct (existsb _ _) eqn:E; [|done]. apply existsb_exists in E as (key & Hk%list_elem_of_In & Hv). by exists key.
Qed.
End Validation.

Lemma hex_text l : bytes_ok l -> text_ok (hex_encode l).
Proof.
  intros Hl. unfold text_ok. assert (Ha : Forall (fun b => 0 <= b < 128) (hex_encode l)).
  { induction Hl as [|b l Hb _ IH]; [constructor|]. unfold hex_encode. cbn [flat_map]. fold (hex_encode l).
    change 15 with (2 ^ 4 - 1). rewrite (land_mask 4 b ltac:(done)), Z.shiftr_div_pow2 by done. unfold byte_range in Hb.
    pose proof (Z.mod_pos_bound b (2 ^ 4) ltac:(lia)). pose proof (Z.div_pos b (2 ^ 4) ltac:(lia) ltac:(lia)).
    pose proof (Z.div_lt_upper_bound b (2 ^ 4) 16 ltac:(lia) ltac:(lia)).
    constructor; [|constructor; [|done]]; unfold hex_digit; case_match; lia. }
  pose proof (utf8_prefix_ascii _ Ha []) as Hu. by rewrite app_nil_r in Hu.
Qed.

Lemma hash_manifest_ok `{!Sha256} m : manifest_ok m -> manifest_ok (set_compatibility_hash (compute_compatibility_hash m) m).
Proof. intros []. split; try assumption. apply hex_text, sha256_ok. Qed.

(** What is assumed of Ed25519: a signature verifies, and is not all zeros. *)
Class Ed25519Laws `{Ed25519} : Prop := {
  signed_verifies : forall key msg, ed_verify (verifying_key key) msg (ed_sign key msg) = true;
  signed_nonzero : forall key msg, ed_sign key msg <> zero_signature }.

(** ** Properties *)

(** C10: building and validating. For every manifest whose strings are UTF-8 and numbers fit
    their fields, and every verified module that it agrees with, the builder's canonical
    manifest [c] and bytecode [s] exist; when the fields are valid and the container stays
    within 8 MiB, signing it succeeds and validating the bytes under any policy that trusts
    the key returns the same manifest, with its hash filled in, and the same module; without a
    signature the same package is refused exactly by the policies that require one. *)
Theorem packed_validates `{JsonLaws} `{!Semver} `{Ed25519Laws} `{!Sha256} (m : Manifest) (md : IrModule) (key : SigningKey)
    (policy : VerifyPolicy)
    (Hm : manifest_ok m) (Hmd : spbc_ok md) (Hver : verify_module md = Ok tt) (Hag : agrees_with md m)
    (Hkey : verifying_key key ∈ public_keys policy) :
  let m' := set_compatibility_hash (compute_compatibility_hash m) m in
  exists c s, to_jcs_bytes m' = Ok c /\ write_spbc md = Ok s /\
  (validate_fields m' = Ok tt -> 10 + len c + 4 + (4 + len s) + SIGNATURE_LEN <= MAX_PACKAGE_BYTES ->
   let sig := ed_sign key (signing_preimage c [s]) in
   (exists bs, (b ← section_module md (builder_new m); to_bytes (builder_sign key b)) = Ok bs /\
      validate bs policy = Ok (mkParsed m' c c [s] [md] sig)) /\
   (exists bs, (b ← section_module md (builder_new m); to_bytes (builder_unsigned b)) = Ok bs /\
      validate bs policy = if require_signature policy then Err Unsigned else Ok (mkParsed m' c c [s] [md] zero_signature))).
Proof.
  intros m'. pose proof (hash_manifest_ok m Hm) as Hm'. fold m' in Hm'.
  destruct (to_jcs_parses m' Hm') as (c & Hc & Hparse). destruct (write_parse_spbc md Hmd) as (s & Hs & Hps).
  specialize (Hps []). rewrite app_nil_r in Hps. exists c, s. split; [done|]. split; [done|]. intros Hval Hsize sig.
  assert (Hbuilt : forall sig, len sig = SIGNATURE_LEN -> exists bs, write_spkg c [s] sig = Ok bs /\
    validate bs policy = (check_policy policy sig (signing_preimage c [s]) ;; Ok (mkParsed m' c c [s] [md] sig))).
  { intros sg Hsg. exists (frame c 1 (le_split 4 (len s) ++ s) sg). unfold SIGNATURE_LEN, MAX_PACKAGE_BYTES in *.
    pose proof (len_nonneg c). pose proof (len_nonneg s).
    assert (Hw : write_spkg c [s] sg = Ok (frame c 1 (le_split 4 (len s) ++ s) sg)).
    { apply write_spkg_Ok. split; [done|]. split; [lia|]. split; [done|]. split.
      - rewrite len_frame, len_app, len_le_split, Hsg. unfold MAX_PACKAGE_BYTES. lia.
      - exists (le_split 4 (len s) ++ s). split; [|done]. cbn [write_sections]. unfold write_section.
        rewrite (proj2 (Z.leb_gt _ _)) by lia. cbn. by rewrite app_nil_r. }
    split; [done|]. eapply (validate_framed _ _ m' c c [s]); [|done..|by destruct Hag|done].
    by eapply parse_written; [exact Hw|..|by apply Hparse]. }
  unfold section_module. rewrite Hs. cbn [map_err mbind res_bind].
  assert (Hsec : section_bytes s (builder_new m) = Ok (mkBuilder m [s] SigPending)) by done. rewrite Hsec. cbn [mbind res_bind].
  unfold to_bytes, builder_sign, builder_unsigned. cbn [pb_manifest pb_sections pb_sig]. change (len [s] =? 1) with true.
  cbn [negb]. fold m'. rewrite Hval, Hc. cbn [mbind res_bind]. unfold sign. fold sig. split.
  - destruct (Hbuilt sig) as (bs & Hbs & Hv); [unfold sig, len; by rewrite ed_sign_len|]. exists bs. split; [done|]. rewrite Hv.
    assert (check_policy policy sig (signing_preimage c [s]) = Ok tt) as ->; [|done].
    unfold check_policy, verify_signature. destruct (negb (require_signature policy)); [done|].
    rewrite bool_decide_eq_false_2 by apply signed_nonzero.
    rewrite (proj2 (existsb_exists _ _)); [done|]. exists (verifying_key key). split; [by apply list_elem_of_In|apply signed_verifies].
  - destruct (Hbuilt zero_signature) as (bs & Hbs & Hv); [done|]. exists bs. split; [done|]. rewrite Hv. unfold check_policy.
    destruct (require_signature policy); [|done]. cbn [negb]. by rewrite bool_decide_eq_true_2.
Qed.

(** C8: what a validated package is. When [validate] accepts some bytes, they are exactly the
    framing of the stored manifest, of one bytecode section and of the signature; a policy
    that requires a signature has a trusted key under which the signature of the digest of
    the canonical manifest and the section verifies; the section parses to the module
    returned, which the bytecode verifier accepts; the manifest is the one the stored JSON
    says, its fields are valid, its stated sizes and versions are the module's, each task
    names an entry of the module, the retained symbols fit the module's retain segment, and
    its hash is the hash of what must be compatible. *)
Theorem validate_sound `{!SerdeJson} `{!Semver} `{!Ed25519} `{!Sha256} (bs : bytes) (policy : VerifyPolicy) (p : ParsedPackage)
    (Hb : bytes_ok bs) (Hv : validate bs policy = Ok p) :
  exists s md,
    write_spkg (pp_manifest_raw p) [s] (pp_signature p) = Ok bs /\ pp_sections p = [s] /\ pp_modules p = [md] /\
    (require_signature policy = true -> pp_signature p <> zero_signature /\ exists key, key ∈ public_keys policy /\
       ed_verify key (sha256 (pp_manifest_canonical p ++ s)) (pp_signature p) = true) /\
    parse_spbc s = Ok md /\ verify_module md = Ok tt /\
    from_json_bytes (pp_manifest_raw p) = Ok (pp_manifest p, pp_manifest_canonical p) /\ validate_fields (pp_manifest p) = Ok tt /\
    agrees_with md (pp_manifest p) /\
    mf_compatibility_hash (pp_manifest p) = compute_compatibility_hash (pp_manifest p).
Proof.
  apply validate_Ok in Hv as (p0 & s & md & Hp & Hs & -> & Hc & Hmd & Hver & Hag & Hh). exists s, md.
  apply parsed_written in Hp as (Hw & _ & Hj & _); [|done]. rewrite Hs in Hw.
  cbn [with_modules pp_manifest_raw pp_signature pp_sections pp_modules pp_manifest_canonical pp_manifest].
  split; [done|]. split; [done|]. split; [done|]. split.
  { intros Hr. pose proof (check_policy_Ok _ _ _ Hc Hr) as Hk. unfold signing_preimage in Hk. cbn [concat] in Hk.
    by rewrite app_nil_r in Hk. }
  destruct (from_json_Ok _ _ _ Hj) as (o & _ & _ & _ & _ & Hval). done.
Qed.

(** C9: what is signed is what runs. When two validated packages have the same signed
    digest, and SHA-256 does not collide on the two texts that were hashed, then their
    manifests and their modules are the same, however the two containers spell the manifest:
    canonical JSON ends where it ends, so no part of the manifest can pass for bytecode. *)
Theorem signed_is_run `{!SerdeJson} `{!Semver} `{!Ed25519} `{!Sha256} (bs1 bs2 : bytes) (policy1 policy2 : VerifyPolicy)
    (p1 p2 : ParsedPackage)
    (Hv1 : validate bs1 policy1 = Ok p1) (Hv2 : validate bs2 policy2 = Ok p2) (Hb1 : bytes_ok bs1) (Hb2 : bytes_ok bs2)
    (Hsame : signing_preimage (pp_manifest_canonical p1) (pp_sections p1) = signing_preimage (pp_manifest_canonical p2) (pp_sections p2))
    (Hcollide : sha256 (pp_manifest_canonical p1 ++ concat (pp_sections p1)) = sha256 (pp_manifest_canonical p2 ++ concat (pp_sections p2)) ->
       pp_manifest_canonical p1 ++ concat (pp_sections p1) = pp_manifest_canonical p2 ++ concat (pp_sections p2)) :
  pp_manifest p1 = pp_manifest p2 /\ pp_manifest_canonical p1 = pp_manifest_canonical p2 /\
  pp_sections p1 = pp_sections p2 /\ pp_modules p1 = pp_modules p2.
Proof.
  specialize (Hcollide Hsame). clear Hsame.
  apply validate_Ok in Hv1 as (q1 & s1 & md1 & P1 & S1 & -> & _ & M1 & _).
  apply validate_Ok in Hv2 as (q2 & s2 & md2 & P2 & S2 & -> & _ & M2 & _).
  apply parsed_written in P1 as (_ & _ & J1 & _); [|done]. apply parsed_written in P2 as (_ & _ & J2 & _); [|done].
  cbn [with_modules pp_manifest pp_manifest_canonical pp_sections pp_modules] in *. rewrite S1, S2 in *. cbn [concat] in Hcollide.
  apply from_json_Ok in J1 as (o1 & C1 & L1 & E1 & D1 & _). apply from_json_Ok in J2 as (o2 & C2 & L2 & E2 & D2 & _).
  rewrite E1, E2, !app_nil_r in Hcollide. destruct (jcs_self_delimiting _ _ _ _ C1 C2 L1 L2 Hcollide) as [Eo ->].
  rewrite Eo in D1. rewrite D1 in D2. injection D2 as ->. rewrite M1 in M2. apply Ok_inj in M2 as ->. rewrite E1, E2, Eo. done.
Qed.

(** ** A package *)

(** A library for each parameter: a compact JSON reader, versions that are not empty, a digest
    of the first bytes, and a signature that names the key and the digest. *)
Definition sample_digest (b : bytes) : bytes := take 32 (map (fun x => x mod 256) b ++ replicate 32 0).

Lemma sample_digest_ok b : length (sample_digest b) = 32%nat /\ bytes_ok (sample_digest b).
Proof.
  unfold sample_digest. split; [rewrite length_take, length_app, length_replicate; lia|].
  apply Forall_take, Forall_app. split; [|by repeat constructor].
  apply Forall_map, Forall_true. intros x. apply Z.mod_pos_bound. lia.
Qed.

Definition sample_sha : Sha256 := {| sha256 := sample_digest; sha256_ok := sample_digest_ok |}.
Definition sample_semver : Semver := {| semver := fun v => negb (bool_decide (v = [])) |}.

Definition sample_sign (key : Z) (msg : bytes) : bytes := take 64 ([1; key] ++ msg ++ replicate 64 0).

Lemma sample_sign_len key msg : length (sample_sign key msg) = 64%nat.
Proof. unfold sample_sign. rewrite length_take, !length_app, length_replicate. cbn [length]. lia. Qed.

Definition sample_ed25519 : Ed25519 := {|
  SigningKey := Z; VerifyingKey := Z; verifying_key := fun k => k; ed_sign := sample_sign;
  ed_verify := fun k msg sig => bool_decide (sig = sample_sign k msg); ed_sign_len := sample_sign_len |}.

Lemma sample_ed25519_laws : @Ed25519Laws sample_ed25519.
Proof. split; [intros key msg; by apply bool_decide_eq_true|done]. Qed.

Definition sample_code : bytes := encode_instruction (Simple Halt 0).
Definition sample_pkg_module : IrModule := {|
  ir_major := 0; ir_minor := 1; const_size := 0; data_size := 16; retain_size := 8; input_slots := 1; output_slots := 1;
  entries := [{| e_name := bstr "task.main"; e_pc := 0; e_is_user_fb := false |}]; const_data := []; code := sample_code |}.

Definition sample_manifest : Manifest := mkManifest (bstr "plant-line-a") (bstr "1.0.0") (bstr "b1") 0 1 1
  [(bstr "main", bstr "task.main")] [mkRetainSym (bstr "Line.Hours") TDint 0]
  [mkTag (bstr "Q.A") TBool TkQ (Some 0); mkTag (bstr "Quote") TInt TkInternal None] RpSafeReset [] (Some 1) None None (Some 8) None.

Lemma sample_manifest_ok : manifest_ok sample_manifest.
Proof. split; try done; repeat constructor; done. Qed.

Lemma sample_spbc_ok : spbc_ok sample_pkg_module.
Proof. split; try done. repeat constructor; done. Qed.

Lemma sample_agrees : agrees_with sample_pkg_module sample_manifest.
Proof. apply cross_check_Ok. by vm_compute. Qed.

Lemma packed_validates_witness :
  let m' := @set_compatibility_hash (@compute_compatibility_hash sample_sha sample_manifest) sample_manifest in
  let policy := @policy_required sample_ed25519 [7] in
  exists c s, @to_jcs_bytes compact_json m' = Ok c /\ write_spbc sample_pkg_module = Ok s /\
    exists bs, @validate compact_json sample_semver sample_ed25519 sample_sha bs policy =
      Ok (mkParsed m' c c [s] [sample_pkg_module] (sample_sign 7 (@signing_preimage sample_sha c [s]))).
Proof.
  intros m' policy.
  destruct (@packed_validates compact_json compact_laws sample_semver sample_ed25519 sample_ed25519_laws sample_sha
    sample_manifest sample_pkg_module 7 policy sample_manifest_ok sample_spbc_ok ltac:(by vm_compute) sample_agrees
    ltac:(by left)) as (c & s & Hc & Hs & Hrest).
  exists c, s. split; [exact Hc|]. split; [exact Hs|]. destruct Hrest as [(bs & _ & Hv) _]; [by vm_compute| |].
  - vm_compute in Hc. injection Hc as <-. vm_compute in Hs. injection Hs as <-. vm_compute. discriminate.
  - exists bs. exact Hv.
Defined.

(** The package signed with key 7, and the same package without a signature. *)
Definition sample_package (sign_it : bool) : bytes :=
  match (b ← @section_module sample_ed25519 sample_pkg_module (@builder_new sample_ed25519 sample_manifest);
         @to_bytes compact_json sample_semver sample_ed25519 sample_sha
           (if sign_it then @builder_sign sample_ed25519 7 b else @builder_unsigned sample_ed25519 b)) with
  | Ok bs => bs
  | _ => []
  end.

Definition sample_validate (policy : @VerifyPolicy sample_ed25519) (bs : bytes) : res PackageError ParsedPackage :=
  @validate compact_json sample_semver sample_ed25519 sample_sha bs policy.

Lemma bytes_checked (l : bytes) : forallb (fun x => (0 <=? x) && (x <? 256)) l = true -> bytes_ok l.
Proof.
  intros H. apply Forall_forall. intros x Hx. apply list_elem_of_In in Hx. pose proof (proj1 (forallb_forall _ _) H x Hx) as Hr.
  apply andb_true_iff in Hr as [?%Z.leb_le ?%Z.ltb_lt]. done.
Qed.

Lemma sample_package_ok b : bytes_ok (sample_package b).
Proof. apply bytes_checked. destruct b; vm_compute; reflexivity. Qed.

Lemma validate_sound_witness : exists p md, sample_validate (@policy_required sample_ed25519 [3; 7]) (sample_package true) = Ok p /\
  pp_modules p = [md] /\ verify_module md = Ok tt.
Proof.
  destruct (sample_validate (@policy_required sample_ed25519 [3; 7]) (sample_package true)) as [p|e|] eqn:E.
  - unfold sample_validate in E. destruct (@validate_sound compact_json sample_semver sample_ed25519 sample_sha (sample_package true) _ p
      (sample_package_ok true) E) as (s & md & _ & _ & Hmd & _ & _ & Hver & _).
    exists p, md. split; [reflexivity|]. split; [exact Hmd|exact Hver].
  - vm_compute in E. discriminate E.
  - vm_compute in E. discriminate E.
Defined.

Lemma signed_is_run_witness : exists p1 p2,
  sample_validate (@policy_required sample_ed25519 [7]) (sample_package true) = Ok p1 /\
  sample_validate (@policy_unsigned sample_ed25519) (sample_package false) = Ok p2 /\
  pp_manifest p1 = pp_manifest p2 /\ pp_modules p1 = pp_modules p2.
Proof.
  destruct (sample_validate (@policy_required sample_ed25519 [7]) (sample_package true)) as [p1|e|] eqn:E1;
    [|vm_compute in E1; discriminate E1..].
  destruct (sample_validate (@policy_unsigned sample_ed25519) (sample_package false)) as [p2|e|] eqn:E2;
    [|vm_compute in E2; discriminate E2..].
  exists p1, p2. split; [reflexivity|]. split; [reflexivity|].
  assert (Hc : pp_manifest_canonical p1 = pp_manifest_canonical p2 /\ pp_sections p1 = pp_sections p2).
  { vm_compute in E1. apply Ok_inj in E1. vm_compute in E2. apply Ok_inj in E2. rewrite <-E1, <-E2. split; reflexivity. }
  destruct Hc as [Hc Hs]. unfold sample_validate in E1, E2.
  destruct (@signed_is_run compact_json sample_semver sample_ed25519 sample_sha (sample_package true) (sample_package false)
    (@policy_required sample_ed25519 [7]) (@policy_unsigned sample_ed25519) p1 p2 E1 E2
    (sample_package_ok true) (sample_package_ok false)) as (Hm & _ & _ & Hmd).
  - by rewrite Hc, Hs.
  - intros _. by rewrite Hc, Hs.
  - split; [exact Hm|exact Hmd].
Defined.
