(* ===== verification/PkgCompat.v ===== *)
(** * What the compatibility hash decides

    Crate [plc-package], src/crates/plc-package/src/compat.rs: the preimage of the hash
    escapes nothing, and names one interface all the same, because validated names hold no
    control characters. *)
From stdpp Require Import sorting pretty.
From S2P Require Import Prelude Text AuthTypes IrTypes RetainLayout PkgManifest PkgJson PkgFields.

(** ** Lines *)

Definition no_control (s : bytes) : Prop := Forall (fun b => is_control b = false) s.

(** Texts that end at the first [c] are told apart. *)
Lemma app_stop_inj (c : Z) (a b s t : bytes) : c ∉ a -> c ∉ b -> a ++ c :: s = b ++ c :: t -> a = b /\ s = t.
Proof.
  revert b. induction a as [|x a IH]; intros [|y b] Ha Hb E; cbn [app] in E.
  - by injection E as ->.
  - injection E as <- _. destruct Hb. by left.
  - injection E as -> _. destruct Ha. by left.
  - injection E as -> E. apply not_elem_of_cons in Ha as [_ Ha], Hb as [_ Hb]. by destruct (IH b Ha Hb E) as [-> ->].
Qed.

Definition unlines (ls : list bytes) : bytes := flat_map (fun l => l ++ [LF]) ls.

Lemma unlines_inj l1 : forall l2, Forall (fun l => LF ∉ l) l1 -> Forall (fun l => LF ∉ l) l2 -> unlines l1 = unlines l2 -> l1 = l2.
Proof.
  induction l1 as [|a l1 IH]; intros [|b l2] H1 H2 E; [done|by destruct b|by destruct a|].
  unfold unlines in E. cbn [flat_map] in E. rewrite <-!app_assoc in E. apply Forall_cons in H1 as [Ha H1], H2 as [Hb H2].
  apply app_stop_inj in E as [-> E]; [|done..]. f_equal. by apply IH.
Qed.

Definition typed (c : Z) (p : bytes * IrType) : bytes := [c; TAB] ++ p.1 ++ [TAB] ++ bstr (type_name p.2).
Definition task (name : bytes) : bytes := [84; TAB] ++ name.

Lemma typed_inj c p q : TAB ∉ p.1 -> TAB ∉ q.1 -> typed c p = typed c q -> p = q.
Proof.
  destruct p as [a t], q as [b u]. unfold typed. cbn [fst snd]. intros Ha Hb E. cbn [app] in E. injection E as E.
  apply app_stop_inj in E as [-> E]; [|done..]. f_equal. apply bstr_inj in E. by destruct t, u.
Qed.

Lemma map_inj_on {A B} (P : A -> Prop) (f : A -> B) l1 : forall l2, (forall x y, P x -> P y -> f x = f y -> x = y) ->
  Forall P l1 -> Forall P l2 -> map f l1 = map f l2 -> l1 = l2.
Proof.
  induction l1 as [|x l1 IH]; intros [|y l2] Hf H1 H2 E; try done. cbn [map] in E. injection E as Exy E.
  apply Forall_cons in H1 as [Hx H1], H2 as [Hy H2]. f_equal; [by apply Hf|by apply IH].
Qed.

Lemma control_free c s : is_control c = true -> no_control s -> c ∉ s.
Proof. intros Hc Hs Hin. eapply Forall_forall in Hs; [|done]. cbn in Hs. congruence. Qed.

(** Items whose lines start with [c]. *)
Definition lines_of (c : Z) (ls : list bytes) : list bytes := List.filter (fun l => bool_decide (head l = Some c)) ls.

Lemma lines_of_app c l k : lines_of c (l ++ k) = lines_of c l ++ lines_of c k.
Proof. apply List.filter_app. Qed.

Lemma lines_of_map {A} (f : A -> bytes) c (l : list A) : (forall x, head (f x) = Some c) -> lines_of c (map f l) = map f l.
Proof.
  intros Hf. unfold lines_of in *. induction l as [|x l IH]; [done|]. cbn [map List.filter]. by rewrite bool_decide_eq_true_2, IH by apply Hf.
Qed.

Lemma lines_of_other {A} (f : A -> bytes) c c' (l : list A) : (forall x, head (f x) = Some c') -> c <> c' -> lines_of c (map f l) = [].
Proof.
  intros Hf Hc. unfold lines_of in *. induction l as [|x l IH]; [done|]. cbn [map List.filter]. rewrite bool_decide_eq_false_2; [done|].
  rewrite Hf. congruence.
Qed.

(** ** The interface *)

Definition retain_pairs (m : Manifest) : list (bytes * IrType) := map (fun s => (mr_name s, mr_ty s)) (mf_retain_symbols m).
Definition output_pairs (m : Manifest) : list (bytes * IrType) :=
  map (fun t => (te_name t, te_ty t)) (List.filter is_q (mf_tag_dictionary m)).

(** What two programs share that can replace each other with their state. *)
Record same_interface (m1 m2 : Manifest) : Prop := {
  si_major : mf_ir_major m1 = mf_ir_major m2;
  si_abi : mf_primitive_abi m1 = mf_primitive_abi m2;
  si_retain : retain_pairs m1 ≡ₚ retain_pairs m2;
  si_outputs : output_pairs m1 ≡ₚ output_pairs m2;
  si_tasks : (mf_task_entries m1).*1 ≡ₚ (mf_task_entries m2).*1 }.

Definition pair_gt (a b : bytes * IrType) : bool := bool_decide (bytes_cmp a.1 b.1 = Datatypes.Gt).

Lemma sort_by_map {A B} (f : A -> B) (gt : A -> A -> bool) (gt' : B -> B -> bool) l :
  (forall x y, gt x y = gt' (f x) (f y)) -> map f (sort_by gt l) = sort_by gt' (map f l).
Proof.
  intros Hg. induction l as [|x l IH]; [done|]. cbn [sort_by foldr map]. fold (sort_by gt l). fold (sort_by gt' (map f l)). rewrite <-IH.
  generalize (sort_by gt l). intros k. induction k as [|y k IHk]; [done|]. cbn [insert_by map]. rewrite <-Hg.
  destruct (gt x y); [|done]. cbn [map]. by rewrite IHk.
Qed.

Definition interface_lines (m : Manifest) : list bytes :=
  [bstr "ir_major=" ++ decimal_z (mf_ir_major m); bstr "primitive_abi=" ++ decimal_z (mf_primitive_abi m)] ++
  map (typed 82) (sort_by pair_gt (retain_pairs m)) ++ map (typed 81) (sort_by pair_gt (output_pairs m)) ++
  map task (sort_by key_gt (map fst (mf_task_entries m))).

Lemma preimage_lines m : compatibility_preimage m = unlines (interface_lines m).
Proof.
  unfold compatibility_preimage, interface_lines, unlines, retain_pairs, output_pairs. rewrite !flat_map_app. cbn [flat_map app].
  rewrite <-!app_assoc. cbn [app]. rewrite !(flat_map_concat_map _ (map _ _)), !map_map, <-!flat_map_concat_map.
  rewrite <-(sort_by_map (fun s => (mr_name s, mr_ty s)) retain_gt pair_gt) by done.
  rewrite <-(sort_by_map (fun t => (te_name t, te_ty t)) tag_gt pair_gt) by done.
  rewrite !(flat_map_concat_map _ (map _ _)), !map_map, <-!flat_map_concat_map.
  assert (Hl : forall {A} (f g : A -> bytes) l, (forall x, f x = g x) -> flat_map f l = flat_map g l) by (intros A f g l Hf; by apply flat_map_ext).
  rewrite (Hl _ _ (fun s => typed 82 (mr_name s, mr_ty s) ++ [LF]) (sort_by retain_gt _)) by (intros s; unfold typed; cbn [fst snd]; by rewrite <-!app_assoc).
  rewrite (Hl _ _ (fun t => typed 81 (te_name t, te_ty t) ++ [LF]) (sort_by tag_gt _)) by (intros s; unfold typed; cbn [fst snd]; by rewrite <-!app_assoc).
  done.
Qed.

(** ** Valid manifests have plain names *)

Record names_ok (m : Manifest) : Prop := {
  no_retain : Forall (fun p => no_control p.1) (retain_pairs m);
  no_outputs : Forall (fun p => no_control p.1) (output_pairs m);
  no_tasks : Forall no_control (mf_task_entries m).*1 }.

Lemma reject_Ok label s : reject_ascii_controls label s = Ok tt -> no_control s.
Proof.
  unfold reject_ascii_controls. destruct (existsb is_control s) eqn:E; [done|]. intros _. apply Forall_forall. intros b Hb.
  apply not_true_iff_false. intros Hc. apply not_true_iff_false in E. destruct E. apply existsb_exists. exists b.
  by rewrite <-list_elem_of_In.
Qed.

Lemma check_retain_Ok l : check_retain_names l = Ok tt -> Forall (fun s => no_control (mr_name s)) l.
Proof.
  induction l as [|s l IH]; cbn [check_retain_names]; [done|]. intros Hc. apply res_bind_Ok in Hc as ([] & Hs & Hc).
  constructor; [by eapply reject_Ok|by apply IH].
Qed.

Lemma check_tags_Ok l : check_tag_names l = Ok tt -> Forall (fun t => no_control (te_name t)) (List.filter is_q l).
Proof.
  induction l as [|t l IH]; cbn [check_tag_names]; [done|]. intros Hc. apply res_bind_Ok in Hc as ([] & Ht & Hc).
  cbn [List.filter]. unfold is_q at 1. case_bool_decide; [|by apply IH]. constructor; [by eapply reject_Ok|by apply IH].
Qed.

Lemma check_task_entries_Ok l : check_task_entries l = Ok tt -> Forall no_control l.*1.
Proof.
  induction l as [|[name symbol] l IH]; cbn [check_task_entries]; [done|]. destruct (_ || _); [done|]. intros Hc.
  apply res_bind_Ok in Hc as ([] & Ht & Hc). constructor; [by eapply reject_Ok|by apply IH].
Qed.

Lemma valid_names `{!Semver} m : validate_fields m = Ok tt -> names_ok m.
Proof.
  unfold validate_fields. intros Hv. apply res_bind_Ok in Hv as ([] & _ & Hv).
  repeat match type of Hv with (if ?b then _ else _) = _ => destruct b; [done|] end.
  apply res_bind_Ok in Hv as ([] & Ht & Hv). apply res_bind_Ok in Hv as ([] & Hr & Hv). apply res_bind_Ok in Hv as ([] & Hq & _).
  split; [apply Forall_map, check_retain_Ok, Hr|apply Forall_map, check_tags_Ok, Hq|by apply check_task_entries_Ok].
Qed.

Lemma no_char c s : forallb (fun b => negb (b =? c)) s = true -> c ∉ s.
Proof.
  intros Hs Hin. apply list_elem_of_In in Hin. apply (proj1 (forallb_forall _ _) Hs) in Hin. by rewrite Z.eqb_refl in Hin.
Qed.

Lemma decimal_no_lf p n : LF ∉ bstr p -> LF ∉ bstr p ++ decimal_z n.
Proof.
  intros Hp [Hin|Hin]%elem_of_app; [done|]. destruct (decimal_z_shape n) as (ds & [Hd _] & _ & E). rewrite E in Hin.
  apply elem_of_app in Hin as [Hin|Hin]; [destruct (n <? 0); [by apply list_elem_of_singleton in Hin|by apply elem_of_nil in Hin]|].
  eapply Forall_forall in Hd; [|done]. done.
Qed.

Lemma decimal_z_inj a b : decimal_z a = decimal_z b -> a = b.
Proof. unfold decimal_z. intros E%bstr_inj. by apply (inj pretty) in E. Qed.

Lemma sort_Forall {A} (P : A -> Prop) gt (l : list A) : Forall P l -> Forall P (sort_by gt l).
Proof. intros H. by rewrite sort_by_perm. Qed.

Lemma interface_no_lf m : names_ok m -> Forall (fun l => LF ∉ l) (interface_lines m).
Proof.
  intros [Hr Hq Ht]. unfold interface_lines. assert (Htyped : forall c l, c <> LF -> Forall (fun p => no_control p.1) l ->
    Forall (fun l => LF ∉ l) (map (typed c) (sort_by pair_gt l))).
  { intros c l Hc Hl. apply Forall_map. eapply Forall_impl; [by apply sort_Forall|]. intros [n t] Hn. cbn [fst] in Hn.
    unfold typed. cbn [fst snd app]. intros [E|[E|[Hin|[E|Hin]%elem_of_cons]%elem_of_app]%elem_of_cons]%elem_of_cons; try done.
    - by eapply control_free in Hn.
    - revert Hin. by apply no_char; destruct t. }
  apply Forall_app. split; [repeat constructor; apply decimal_no_lf; by apply no_char|].
  apply Forall_app. split; [by apply Htyped|]. apply Forall_app. split; [by apply Htyped|].
  apply Forall_map, sort_Forall. eapply Forall_impl; [exact Ht|]. intros n Hn. unfold task. cbn [app].
  intros [E|[E|Hin]%elem_of_cons]%elem_of_cons; [done..|]. by eapply control_free in Hn.
Qed.

Lemma typed_perm c l1 l2 : Forall (fun p => no_control p.1) l1 -> Forall (fun p => no_control p.1) l2 ->
  map (typed c) (sort_by pair_gt l1) = map (typed c) (sort_by pair_gt l2) -> l1 ≡ₚ l2.
Proof.
  intros H1 H2 E. rewrite <-(sort_by_perm pair_gt l1), <-(sort_by_perm pair_gt l2).
  apply (map_inj_on (fun p => no_control p.1)) in E; [by rewrite E| |by apply sort_Forall..].
  intros p q Hp Hq. by apply typed_inj; apply control_free.
Qed.

(** The lines of one kind among the lines of three. *)
Lemma interface_parts m : let body := drop 2 (interface_lines m) in
  lines_of 82 body = map (typed 82) (sort_by pair_gt (retain_pairs m)) /\
  lines_of 81 body = map (typed 81) (sort_by pair_gt (output_pairs m)) /\
  lines_of 84 body = map task (sort_by key_gt (map fst (mf_task_entries m))).
Proof.
  intros body. assert (Hb : body = map (typed 82) (sort_by pair_gt (retain_pairs m)) ++ map (typed 81) (sort_by pair_gt (output_pairs m)) ++
    map task (sort_by key_gt (map fst (mf_task_entries m)))) by done. rewrite Hb. clear Hb body. rewrite !lines_of_app.
  repeat split; repeat first [rewrite lines_of_map by done|rewrite (lines_of_other (typed 82) _ 82) by done
    |rewrite (lines_of_other (typed 81) _ 81) by done|rewrite (lines_of_other task _ 84) by done]; by rewrite ?app_nil_r.
Qed.

Lemma preimage_interface m1 m2 : names_ok m1 -> names_ok m2 ->
  compatibility_preimage m1 = compatibility_preimage m2 -> same_interface m1 m2.
Proof.
  intros N1 N2 E. rewrite !preimage_lines in E. apply unlines_inj in E; [|by apply interface_no_lf..].
  destruct (interface_parts m1) as (R1 & Q1 & T1), (interface_parts m2) as (R2 & Q2 & T2). rewrite E in R1, Q1, T1.
  rewrite R1 in R2. rewrite Q1 in Q2. rewrite T1 in T2. unfold interface_lines in E. cbn [app] in E. injection E as Emaj Eabi _.
  destruct N1, N2. split.
  - by apply decimal_z_inj.
  - by apply decimal_z_inj.
  - by apply (typed_perm 82).
  - by apply (typed_perm 81).
  - change (map fst (mf_task_entries m1) ≡ₚ map fst (mf_task_entries m2)).
    rewrite <-(sort_by_perm key_gt (map fst (mf_task_entries m1))), <-(sort_by_perm key_gt (map fst (mf_task_entries m2))).
    apply (map_inj_on (fun _ => True)) in T2; [by rewrite T2| |by apply Forall_true..]. by intros x y _ _ [= ->].
Qed.

(** Sorting forgets the order of items with different names. *)
Lemma pair_gt_false a b : pair_gt a b = false <-> a.1 = b.1 \/ name_lt a.1 b.1.
Proof.
  unfold pair_gt. rewrite bool_decide_eq_false, <-bytes_cmp_eq. unfold name_lt. destruct (bytes_cmp a.1 b.1); naive_solver.
Qed.

Lemma sort_unique {A} (name : A -> bytes) (gt : A -> A -> bool) l1 l2 :
  (forall a b, gt a b = false <-> name a = name b \/ name_lt (name a) (name b)) ->
  NoDup (map name l1) -> l1 ≡ₚ l2 -> sort_by gt l1 = sort_by gt l2.
Proof.
  intros Hg Hn Hp.
  assert (Htrans : forall x y z, gt x y = false -> gt y z = false -> gt x z = false).
  { intros x y z Hxy%Hg Hyz%Hg. apply Hg. destruct Hxy as [E|H1], Hyz as [E'|H2]; rewrite ?E, ?E' in *; auto.
    right. by eapply name_lt_trans. }
  assert (Hasym : forall x y, gt x y = true -> gt y x = false).
  { intros x y Hxy. apply Hg. pose proof (name_lt_cases (name x) (name y)) as Hc. destruct (bytes_cmp (name x) (name y)); [by left|..|by right].
    assert (gt x y = false) by (apply Hg; by right). congruence. }
  assert (Hperm : sort_by gt l1 ≡ₚ sort_by gt l2) by by rewrite !sort_by_perm.
  assert (Hn1 : NoDup (map name (sort_by gt l1))) by by rewrite (fmap_Permutation name _ _ (sort_by_perm gt l1)).
  assert (Hsort : forall l, StronglySorted (fun x y => gt x y = false) (sort_by gt l)) by (intros l; by apply sort_by_sorted).
  pose proof (Hsort l1) as S1. pose proof (Hsort l2) as S2. revert Hperm Hn1 S1 S2. generalize (sort_by gt l1), (sort_by gt l2).
  clear -Hg. intros k1. induction k1 as [|x k1 IH]; intros k2 Hp Hn S1 S2; [by apply Permutation_nil_l in Hp|].
  destruct k2 as [|y k2]; [by apply Permutation_nil_r in Hp|]. cbn [map] in Hn. apply NoDup_cons in Hn as [Hx Hn].
  apply StronglySorted_inv in S1 as [S1 F1], S2 as [S2 F2].
  assert (x = y) as ->.
  { assert (Hy : y ∈ x :: k1) by (rewrite Hp; by left). apply elem_of_cons in Hy as [->|Hy]; [done|].
    assert (Hx2 : x ∈ y :: k2) by (rewrite <-Hp; by left). apply elem_of_cons in Hx2 as [->|Hx2]; [done|].
    eapply Forall_forall in F1; [|exact Hy]. eapply Forall_forall in F2; [|exact Hx2]. apply Hg in F1, F2.
    destruct Hx. destruct F1 as [E|H1]; [rewrite E; by apply list_elem_of_fmap_2|].
    destruct F2 as [E|H2]; [rewrite <-E; by apply list_elem_of_fmap_2|]. destruct (name_lt_irrefl (name x)). by eapply name_lt_trans. }
  f_equal. apply IH; [by apply Permutation_cons_inv in Hp|done..].
Qed.

(** ** Properties *)

(** C11: the preimage of the compatibility hash is exact. For manifests whose fields are valid,
    with distinct names among the retained symbols, the outputs and the tasks of the first, two
    preimages are the same bytes exactly when the manifests agree on the IR major version, the
    primitive ABI, the names and types of the retained symbols, the names and types of the
    outputs, and the tasks; the order of the lists, offsets, slots, versions and other tags do
    not count, and no name can be written so that it reads as another line. *)
Theorem compatibility_exact `{!Semver} (m1 m2 : Manifest)
    (Hv1 : validate_fields m1 = Ok tt) (Hv2 : validate_fields m2 = Ok tt)
    (Hretain : NoDup (map fst (retain_pairs m1))) (Houtputs : NoDup (map fst (output_pairs m1)))
    (Htasks : NoDup (map fst (mf_task_entries m1))) :
  compatibility_preimage m1 = compatibility_preimage m2 <-> same_interface m1 m2.
Proof.
  split; [by apply preimage_interface; apply valid_names|]. intros [E1 E2 Pr Pq Pt]. rewrite !preimage_lines. unfold interface_lines.
  rewrite E1, E2, (sort_unique fst pair_gt _ _ pair_gt_false Hretain Pr), (sort_unique fst pair_gt _ _ pair_gt_false Houtputs Pq).
  rewrite (sort_unique id key_gt (map fst (mf_task_entries m1)) (map fst (mf_task_entries m2))); [done| |by rewrite map_id|exact Pt].
  intros a b. by apply (pair_gt_false (a, TBool) (b, TBool)).
Qed.

Definition hash_of_zeros : bytes := replicate 64 48.

Definition manifest_a : Manifest := mkManifest (bstr "plant-line-a") (bstr "1.0.0") (bstr "b1") 0 1 1
  [(bstr "main", bstr "task.main")] [mkRetainSym (bstr "b") TInt 2; mkRetainSym (bstr "a") TBool 0]
  [mkTag (bstr "Q.B") TBool TkQ (Some 1); mkTag (bstr "Q.A") TBool TkQ (Some 0); mkTag (bstr "I.X") TBool TkI (Some 0)]
  RpSafeReset hash_of_zeros None None None None None.

Definition manifest_b : Manifest := mkManifest (bstr "plant-line-a") (bstr "1.0.1") (bstr "b2") 0 1 1
  [(bstr "main", bstr "task.other")] [mkRetainSym (bstr "a") TBool 99; mkRetainSym (bstr "b") TInt 2]
  [mkTag (bstr "I.X") TBool TkI (Some 0); mkTag (bstr "Q.A") TBool TkQ (Some 0); mkTag (bstr "Q.B") TBool TkQ (Some 1)]
  RpBumpless hash_of_zeros None None None None None.

Lemma compatibility_exact_witness :
  let _ := {| semver := fun _ => true |} in
  validate_fields manifest_a = Ok tt /\ validate_fields manifest_b = Ok tt /\ same_interface manifest_a manifest_b.
Proof.
  intros S. split; [vm_compute; reflexivity|]. split; [vm_compute; reflexivity|].
  apply (@compatibility_exact S manifest_a manifest_b); [vm_compute; reflexivity..| | | |vm_compute; reflexivity].
  - apply (bool_decide_unpack _). vm_compute. exact I.
  - apply (bool_decide_unpack _). vm_compute. exact I.
  - apply (bool_decide_unpack _). vm_compute. exact I.
Defined.
