(* ===== verification/Runtime.v ===== *)
(** * The program loader

    Crate [plc-runtime], src/crates/plc-runtime/src: upload, validation, arming and activation
    of packages in front of the scan engine, the tags of the current program and the retain
    snapshot (loader.rs), with its errors (error.rs). A field [input_injector] is a clone of
    the handle of the engine's driver, so what it writes is the driver's state; the retain
    snapshot buffer is the one of RetainSnapshot.v, written here by calls that run to their
    end. Messages of errors are left out. *)
From S2P Require Import RetainSnapshot.
From S2P Require Import Prelude Text Float32 Config AuthTypes IrTypes PlcTypes IoImage FbDispatch VmValue VmMemory VmExec.
From S2P Require Import IrEncode RetainLayout RetainCodec RetainMap Spbc IrVerify VmLoad.
From S2P Require Import PkgManifest PkgJson PkgFields PkgContainer.
From S2P Require Import ScanMode ScanParts ScanState ScanEngine.

(** ** error.rs *)

Inductive RuntimeError :=
  | RPackage (e : PackageError)
  | RRetain (e : RetainError)
  | RScan (e : ScanError)
  | RVm (e : VmError)
  | RConflict (context : string)
  | RArm (msg : string)
  | RNotFound (name : bytes)
  | RBadRequest (msg : string).

(** The variants of [plc_types::PlcError], without their messages. *)
Inductive PlcError := PeConfig | PePackage | PeIo | PeScan | PeAuth | PeInternal | PeInvalidState.

Definition scan_to_plc (e : ScanError) : PlcError :=
  match e with
  | SInvalidState _ => PeInvalidState
  | SIo _ => PeIo
  | _ => PeScan
  end.

Definition to_plc (e : RuntimeError) : PlcError :=
  match e with
  | RPackage _ | RRetain _ | RArm _ => PePackage
  | RScan e => scan_to_plc e
  | RConflict _ => PeInvalidState
  | RVm _ | RNotFound _ | RBadRequest _ => PeScan
  end.

Section Loader.
Context `{!SerdeJson} `{!Semver} `{Ed25519} `{Sha256}.

(** ** Data *)

Record RuntimeConfig := mkRtConfig {
  rc_require_signature : bool;
  rc_public_keys : list VerifyingKey;
  rc_force_retain_incompat : bool }.

Record ArmReport := mkArmReport {
  ar_program_id : bytes;
  ar_compatibility_hash : bytes;
  ar_retain : MapReport;
  ar_restart_policy : RestartPolicy;
  ar_bumpless_honored : bool;
  ar_bumpless_downgraded : bool }.

Record ProgramInfo := mkInfo {
  inf_id : bytes;
  inf_version : bytes;
  inf_build_id : bytes;
  inf_compatibility_hash : bytes;
  inf_signed : bool;
  inf_restart_policy : RestartPolicy;
  inf_bumpless_eligible : bool }.

(** [loader::RetainSnapshot]. *)
Record RetainView := mkView {
  rv_layout : RetainLayout;
  rv_bytes : bytes;
  rv_current_hash : option bytes }.

Record ArmContext := mkContext {
  ac_task_names : list bytes;
  ac_retain : option RetainView;
  ac_current_hash : option bytes;
  ac_config : RuntimeConfig }.

Record PreparedArm := mkPrepared {
  pa_program : ArmedProgram;
  pa_layout : RetainLayout;
  pa_report : ArmReport;
  pa_info : ProgramInfo;
  pa_tags : list TagEntry }.

Record TagView := mkTagView {
  tv_name : bytes;
  tv_ty : IrType;
  tv_kind : TagKind;
  tv_value : PlcValue;
  tv_quality : Quality;
  tv_forced : bool }.

(** [TagView::type_name] is [PkgManifest.type_name] of the type. *)

(** ** Preparing a package *)

Definition resolve_restart (manifest : Manifest) (current_hash : option bytes) : OutputRestartPolicy * bool * bool :=
  match mf_restart_policy manifest with
  | RpSafeReset => (SafeReset, false, false)
  | RpBumpless =>
      if bool_decide (current_hash = Some (mf_compatibility_hash manifest)) then (Bumpless, true, false)
      else (SafeReset, false, true)
  end.

Definition empty_report : MapReport := mkReport 0 0 0 [].

(** The copies from the old layout to the new one: same name, same type. *)
Definition copies_of (old new : RetainLayout) : list RetainCopy :=
  omap (fun s =>
    match layout_get old (sym_name s) with
    | Some o => if decide (sym_ty o = sym_ty s) then Some (mkCopy (sym_offset o) (sym_offset s) (sym_width o)) else None
    | None => None
    end) (l_symbols new).

(** [&mut vm] is threaded; nothing is reachable of it when the call fails. *)
Definition install_shadow_retain (vm : Vm) (new_layout : RetainLayout) (snapshot : option RetainView) (force_incompat : bool) :
    res RuntimeError (Vm * (MapReport * list RetainCopy)) :=
  match snapshot with
  | None => Ok (vm, (empty_report, []))
  | Some snap =>
      mapped ← map_err RRetain (map_retain (rv_layout snap) (rv_bytes snap) new_layout force_incompat);
      match load_retain_image (m_image mapped) new_layout vm with
      | (vm, Ok _) => Ok (vm, (m_report mapped, copies_of (rv_layout snap) new_layout))
      | (_, Err e) => Err (RVm e)
      | (_, Panic) => Panic
      end
  end.

(** [BTreeMap::get]. *)
Definition entry_get (l : list (bytes * bytes)) (name : bytes) : option bytes :=
  snd <$> find (fun p => bool_decide (p.1 = name)) l.

(** The loop over [task_names]. *)
Fixpoint entries_for (l : list (bytes * bytes)) (names : list bytes) : res RuntimeError (list bytes) :=
  match names with
  | [] => Ok []
  | name :: names =>
      match entry_get l name with
      | None => Err (RArm "package missing task_entries")
      | Some symbol => rest ← entries_for l names; Ok (symbol :: rest)
      end
  end.

(** [u32::try_from(n).unwrap_or(0)]. *)
Definition u32_or_zero (n : Z) : Z := if n <? 2 ^ 32 then n else 0.

Definition build_prepared (parsed : ParsedPackage) (ctx : ArmContext) : res RuntimeError PreparedArm :=
  let signed := existsb (fun b => negb (b =? 0)) (pp_signature parsed) in
  let manifest := pp_manifest parsed in
  if negb (mf_primitive_abi manifest =? PRIMITIVE_ABI) then Err (RArm "primitive_abi")
  else
    module ← ok_or (head (pp_modules parsed)) (RArm "validated package has no spbc module");
    task_entries ← entries_for (mf_task_entries manifest) (ac_task_names ctx);
    vm ← map_err RVm (load module default_config);
    new_layout ← map_err RPackage (retain_layout manifest (u32_or_zero (Seg.size (v_retain vm))));
    '(vm, (retain_report, copies)) ←
      install_shadow_retain vm new_layout (ac_retain ctx) (rc_force_retain_incompat (ac_config ctx));
    let current_hash := opt_or (ac_retain ctx ≫= rv_current_hash) (ac_current_hash ctx) in
    let '(restart_policy, bumpless_honored, bumpless_downgraded) := resolve_restart manifest current_hash in
    let info := mkInfo (mf_id manifest) (mf_version manifest) (mf_build_id manifest) (mf_compatibility_hash manifest)
      signed (mf_restart_policy manifest) bumpless_honored in
    let report := mkArmReport (mf_id manifest) (mf_compatibility_hash manifest) retain_report
      (mf_restart_policy manifest) bumpless_honored bumpless_downgraded in
    Ok (mkPrepared
          (mkArmed vm (mf_id manifest) (mf_compatibility_hash manifest) task_entries restart_policy copies)
          new_layout report info (mf_tag_dictionary manifest)).

Definition prepare_arm (bs : bytes) (ctx : ArmContext) : res RuntimeError PreparedArm :=
  let policy := if rc_require_signature (ac_config ctx) then policy_required (rc_public_keys (ac_config ctx)) else policy_unsigned in
  parsed ← map_err RPackage (validate bs policy);
  build_prepared parsed ctx.

Definition value_type_to_ir (ty : ValueType) : IrType :=
  match ty with TyBool => TBool | TyInt => TInt | TyDint => TDint | TyReal => TReal | TyTime => TTime end.

Definition value_matches (value : PlcValue) (ty : IrType) : bool :=
  match value, ty with
  | PBool _, TBool | PInt _, TInt | PDint _, TDint | PReal _, TReal | PTime _, TTime => true
  | _, _ => false
  end.
End Loader.

Section Runtimes.
Context {D : Type} `{!IoDriver D} `{!InputInjector D} `{!NanRule} `{!ScanEnv}.
Context `{!SerdeJson} `{!Semver} `{Ed25519} `{Sha256}.

(** [rt_input_injector] tells whether a handle is attached. *)
Record Runtime := mkRuntime {
  rt_engine : ScanEngine D;
  rt_config : RuntimeConfig;
  rt_current_layout : option RetainLayout;
  rt_armed_layout : option RetainLayout;
  rt_last_arm : option ArmReport;
  rt_current_info : option ProgramInfo;
  rt_armed_info : option ProgramInfo;
  rt_current_tags : list TagEntry;
  rt_armed_tags : list TagEntry;
  rt_last_uploader : option bytes;
  rt_input_injector : bool;
  rt_retain_snap : option Snap;
  rt_last_retain_seq : Z }.

(** ** Field updates *)

Definition set_engine (x : ScanEngine D) (rt : Runtime) : Runtime :=
  mkRuntime x (rt_config rt) (rt_current_layout rt) (rt_armed_layout rt) (rt_last_arm rt) (rt_current_info rt)
    (rt_armed_info rt) (rt_current_tags rt) (rt_armed_tags rt) (rt_last_uploader rt) (rt_input_injector rt)
    (rt_retain_snap rt) (rt_last_retain_seq rt).
Definition set_config (x : RuntimeConfig) (rt : Runtime) : Runtime :=
  mkRuntime (rt_engine rt) x (rt_current_layout rt) (rt_armed_layout rt) (rt_last_arm rt) (rt_current_info rt)
    (rt_armed_info rt) (rt_current_tags rt) (rt_armed_tags rt) (rt_last_uploader rt) (rt_input_injector rt)
    (rt_retain_snap rt) (rt_last_retain_seq rt).
Definition set_current_layout (x : option RetainLayout) (rt : Runtime) : Runtime :=
  mkRuntime (rt_engine rt) (rt_config rt) x (rt_armed_layout rt) (rt_last_arm rt) (rt_current_info rt)
    (rt_armed_info rt) (rt_current_tags rt) (rt_armed_tags rt) (rt_last_uploader rt) (rt_input_injector rt)
    (rt_retain_snap rt) (rt_last_retain_seq rt).
Definition set_armed_layout (x : option RetainLayout) (rt : Runtime) : Runtime :=
  mkRuntime (rt_engine rt) (rt_config rt) (rt_current_layout rt) x (rt_last_arm rt) (rt_current_info rt)
    (rt_armed_info rt) (rt_current_tags rt) (rt_armed_tags rt) (rt_last_uploader rt) (rt_input_injector rt)
    (rt_retain_snap rt) (rt_last_retain_seq rt).
Definition set_last_arm (x : option ArmReport) (rt : Runtime) : Runtime :=
  mkRuntime (rt_engine rt) (rt_config rt) (rt_current_layout rt) (rt_armed_layout rt) x (rt_current_info rt)
    (rt_armed_info rt) (rt_current_tags rt) (rt_armed_tags rt) (rt_last_uploader rt) (rt_input_injector rt)
    (rt_retain_snap rt) (rt_last_retain_seq rt).
Definition set_current_info (x : option ProgramInfo) (rt : Runtime) : Runtime :=
  mkRuntime (rt_engine rt) (rt_config rt) (rt_current_layout rt) (rt_armed_layout rt) (rt_last_arm rt) x
    (rt_armed_info rt) (rt_current_tags rt) (rt_armed_tags rt) (rt_last_uploader rt) (rt_input_injector rt)
    (rt_retain_snap rt) (rt_last_retain_seq rt).
Definition set_armed_info (x : option ProgramInfo) (rt : Runtime) : Runtime :=
  mkRuntime (rt_engine rt) (rt_config rt) (rt_current_layout rt) (rt_armed_layout rt) (rt_last_arm rt)
    (rt_current_info rt) x (rt_current_tags rt) (rt_armed_tags rt) (rt_last_uploader rt)
    (rt_input_injector rt) (rt_retain_snap rt) (rt_last_retain_seq rt).
Definition set_current_tags (x : list TagEntry) (rt : Runtime) : Runtime :=
  mkRuntime (rt_engine rt) (rt_config rt) (rt_current_layout rt) (rt_armed_layout rt) (rt_last_arm rt)
    (rt_current_info rt) (rt_armed_info rt) x (rt_armed_tags rt) (rt_last_uploader rt) (rt_input_injector rt)
    (rt_retain_snap rt) (rt_last_retain_seq rt).
Definition set_armed_tags (x : list TagEntry) (rt : Runtime) : Runtime :=
  mkRuntime (rt_engine rt) (rt_config rt) (rt_current_layout rt) (rt_armed_layout rt) (rt_last_arm rt)
    (rt_current_info rt) (rt_armed_info rt) (rt_current_tags rt) x (rt_last_uploader rt)
    (rt_input_injector rt) (rt_retain_snap rt) (rt_last_retain_seq rt).
Definition set_last_uploader (x : option bytes) (rt : Runtime) : Runtime :=
  mkRuntime (rt_engine rt) (rt_config rt) (rt_current_layout rt) (rt_armed_layout rt) (rt_last_arm rt)
    (rt_current_info rt) (rt_armed_info rt) (rt_current_tags rt) (rt_armed_tags rt) x (rt_input_injector rt)
    (rt_retain_snap rt) (rt_last_retain_seq rt).
Definition set_input_injector (x : bool) (rt : Runtime) : Runtime :=
  mkRuntime (rt_engine rt) (rt_config rt) (rt_current_layout rt) (rt_armed_layout rt) (rt_last_arm rt)
    (rt_current_info rt) (rt_armed_info rt) (rt_current_tags rt) (rt_armed_tags rt) (rt_last_uploader rt) x
    (rt_retain_snap rt) (rt_last_retain_seq rt).
Definition set_retain_snap (x : option Snap) (rt : Runtime) : Runtime :=
  mkRuntime (rt_engine rt) (rt_config rt) (rt_current_layout rt) (rt_armed_layout rt) (rt_last_arm rt)
    (rt_current_info rt) (rt_armed_info rt) (rt_current_tags rt) (rt_armed_tags rt) (rt_last_uploader rt)
    (rt_input_injector rt) x (rt_last_retain_seq rt).
Definition set_last_retain_seq (x : Z) (rt : Runtime) : Runtime :=
  mkRuntime (rt_engine rt) (rt_config rt) (rt_current_layout rt) (rt_armed_layout rt) (rt_last_arm rt)
    (rt_current_info rt) (rt_armed_info rt) (rt_current_tags rt) (rt_armed_tags rt) (rt_last_uploader rt)
    (rt_input_injector rt) (rt_retain_snap rt) x.


(** A method of the engine. *)
Definition on_engine {A} (m : M (ScanEngine D) ScanError A) : M Runtime RuntimeError A := fun rt =>
  let '(e, r) := m (rt_engine rt) in (set_engine e rt, map_err RScan r).

Definition upd_engine (f : ScanEngine D -> ScanEngine D) (rt : Runtime) : Runtime := set_engine (f (rt_engine rt)) rt.

(** ** Access *)

Definition rt_new (plan : ScanPlan) (io : ScanIo D) (config : RuntimeConfig) : res RuntimeError Runtime :=
  e ← map_err RScan (engine_new plan io None);
  Ok (mkRuntime e config None None None None None [] [] None false None 0).

Definition set_injector (rt : Runtime) : Runtime := set_input_injector true rt.

Definition rt_mode (rt : Runtime) : OperatingMode := mode (rt_engine rt).
Definition rt_phase (rt : Runtime) : ProgramPhase := Hooks.phase (en_hooks (rt_engine rt)).
Definition activate_requested (rt : Runtime) : bool := Hooks.activate_requested (en_hooks (rt_engine rt)).

(** [if !self.current_tags.is_empty()]. *)
Definition tag_dictionary (rt : Runtime) : list TagEntry :=
  match rt_current_tags rt with [] => rt_armed_tags rt | tags => tags end.

Definition set_uploader (principal : bytes) (rt : Runtime) : Runtime := set_last_uploader (Some principal) rt.

Definition current_retain_bytes (rt : Runtime) : option bytes :=
  vm ← en_vm (rt_engine rt); Some (s_bytes (v_retain vm)).

Definition rt_load_retain_image (bs : bytes) : M Runtime RuntimeError unit := fun rt =>
  match rt_current_layout rt with
  | None => (rt, Err (RBadRequest "no current retain layout"))
  | Some layout =>
      match en_vm (rt_engine rt) with
      | None => (rt, Err (RBadRequest "no current program for retain load"))
      | Some vm =>
          let '(vm, r) := load_retain_image bs layout vm in
          (upd_engine (set_en_vm (Some vm)) rt, map_err (fun _ => RBadRequest "retain image") r)
      end
  end.

(** ** The retain snapshot *)

Definition resize_retain_snapshot (rt : Runtime) : Runtime :=
  let size := Z.to_nat (match rt_current_layout rt with Some l => l_retain_size l | None => 0 end) in
  if (size =? 0)%nat then set_retain_snap None rt
  else
    match rt_retain_snap rt with
    | Some b => if (RetainSnapshot.size b =? size)%nat then rt
                else set_last_retain_seq 0 (set_retain_snap (Some (RetainSnapshot.new size)) rt)
    | None => set_last_retain_seq 0 (set_retain_snap (Some (RetainSnapshot.new size)) rt)
    end.

Definition sync_layouts_after_step (rt : Runtime) : Runtime :=
  let e := rt_engine rt in
  match en_armed e with
  | Some _ => rt
  | None =>
      match en_current_id e, rt_armed_layout rt with
      | Some _, Some layout =>
          let rt := set_armed_layout None (set_current_layout (Some layout) rt) in
          let rt := set_armed_info None (set_current_info (rt_armed_info rt) rt) in
          let rt := set_armed_tags [] (set_current_tags (rt_armed_tags rt) rt) in
          resize_retain_snapshot rt
      | _, _ => set_armed_layout None rt
      end
  end.

(** [publish]: the call's first access, one per byte, the slot and the sequence. *)
Definition publish_image (image : bytes) (b : Snap) : Snap :=
  Nat.iter (RetainSnapshot.size b + 3) (writer_step image) b.

Definition publish_retain_if_dirty (rt : Runtime) : Runtime :=
  let seq := rs_seq (en_retain (rt_engine rt)) in
  if (seq =? 0) || (seq =? rt_last_retain_seq rt) then rt
  else
    match rt_retain_snap rt, en_vm (rt_engine rt) with
    | Some buf, Some vm => set_last_retain_seq seq (set_retain_snap (Some (publish_image (s_bytes (v_retain vm)) buf)) rt)
    | _, _ => rt
    end.

(** ** Arming *)

Definition snapshot_retain (rt : Runtime) : option RetainView :=
  layout ← rt_current_layout rt;
  vm ← en_vm (rt_engine rt);
  Some (mkView layout (s_bytes (v_retain vm)) (en_current_hash (rt_engine rt))).

Definition begin_arm : M Runtime RuntimeError ArmContext := fun rt =>
  if decide (rt_phase rt = Swapping) then (rt, Err (RConflict "upload while swapping"))
  else if activate_requested rt then (rt, Err (RConflict "upload while activate pending"))
  else
    let rt := sync_layouts_after_step rt in
    let rt := upd_engine (upd_hooks (Hooks.set_phase Validating)) rt in
    (rt, Ok (mkContext (map tp_name (sp_tasks (en_plan (rt_engine rt)))) (snapshot_retain rt)
               (en_current_hash (rt_engine rt)) (rt_config rt))).

Definition abort_arm (rt : Runtime) : Runtime :=
  if decide (rt_phase rt = Validating) then
    let phase := match en_armed (rt_engine rt) with Some _ => Armed | None => Idle end in
    upd_engine (upd_hooks (Hooks.set_phase phase)) rt
  else rt.

Definition commit_arm (prepared : PreparedArm) : M Runtime RuntimeError ArmReport :=
  rt ← m_get;
  if decide (rt_phase rt = Swapping) then m_err (RConflict "upload while swapping")
  else
    on_engine (arm (pa_program prepared)) ;;
    m_modify (fun rt =>
      set_last_arm (Some (pa_report prepared))
        (set_armed_tags (pa_tags prepared)
          (set_armed_info (Some (pa_info prepared)) (set_armed_layout (Some (pa_layout prepared)) rt)))) ;;
    mret (pa_report prepared).

Definition upload (bs : bytes) : M Runtime RuntimeError ArmReport :=
  ctx ← begin_arm;
  match prepare_arm bs ctx with
  | Ok prepared => commit_arm prepared
  | Err e => m_modify abort_arm ;; m_err e
  | Panic => m_panic
  end.

Definition rt_disarm : M Runtime RuntimeError unit :=
  on_engine disarm ;;
  m_modify (fun rt =>
    set_last_uploader None
      (set_armed_tags [] (set_armed_info None (set_last_arm None (set_armed_layout None rt))))).

Definition activate : M Runtime RuntimeError ActivateRequest :=
  req ← on_engine request_activate;
  match req with
  | NoOp =>
      m_modify (fun rt => set_armed_tags [] (set_armed_info None (set_last_arm None (set_armed_layout None rt)))) ;;
      mret req
  | Pending => mret req
  end.

(** ** Stepping *)

Definition after_step (rt : Runtime) : Runtime := publish_retain_if_dirty (sync_layouts_after_step rt).

Definition rt_step : M Runtime RuntimeError StepOutcome :=
  out ← on_engine step;
  m_modify after_step ;;
  mret out.

(** [None] stands for running out of [fuel]. *)
Definition rt_run_due (fuel : nat) (rt : Runtime) : option (Runtime * res RuntimeError Z) :=
  '(e, r) ← run_due fuel (rt_engine rt);
  let rt := set_engine e rt in
  Some (match r with
        | Ok n => (after_step rt, Ok n)
        | Err x => (rt, Err (RScan x))
        | Panic => (rt, Panic)
        end).

(** ** Tags *)

(** The loop over the metadata of one region. *)
Definition meta_index (name : bytes) (metas : list SlotMeta) : option (nat * SlotMeta) :=
  list_find (fun m => sm_tag m = name) metas.

Definition lookup_tag (rt : Runtime) (name : bytes) : res RuntimeError (TagKind * Z * IrType) :=
  match find (fun t => bool_decide (te_name t = name)) (tag_dictionary rt) with
  | Some t =>
      slot ← ok_or (te_slot t) (RBadRequest "tag has no image slot");
      Ok (te_kind t, slot, te_ty t)
  | None =>
      let image := io_image (en_io (rt_engine rt)) in
      match meta_index name (pi_input_meta image), meta_index name (pi_output_meta image), meta_index name (pi_memory_meta image) with
      | Some (i, m), _, _ => Ok (TkI, u32_of i, value_type_to_ir (sm_ty m))
      | None, Some (i, m), _ => Ok (TkQ, u32_of i, value_type_to_ir (sm_ty m))
      | None, None, Some (i, m) => Ok (TkM, u32_of i, value_type_to_ir (sm_ty m))
      | None, None, None => Err (RNotFound name)
      end
  end.

Definition read_tag (rt : Runtime) (name : bytes) : res RuntimeError TagView :=
  '(kind, slot, ty) ← lookup_tag rt name;
  let image := io_image (en_io (rt_engine rt)) in
  '(value, quality, forced) ←
    match kind with
    | TkI =>
        s ← map_err (fun _ => RNotFound name) (get_input image (Z.to_nat slot));
        Ok (ts_value s, ts_quality s, false)
    | TkQ =>
        s ← map_err (fun _ => RNotFound name) (get_output image (Z.to_nat slot));
        let force := Force.get slot (io_forces (en_io (rt_engine rt))) in
        Ok (default (ts_value s) force, ts_quality s, bool_decide (force <> None))
    | TkM =>
        s ← ok_or (pi_memory image !! Z.to_nat slot) (RNotFound name);
        Ok (ts_value s, ts_quality s, false)
    | TkR | TkInternal => Err (RBadRequest "tag is not a process-image debug slot")
    end;
  Ok (mkTagView name ty kind value quality forced).

Definition force_tag (name : bytes) (value : PlcValue) : M Runtime RuntimeError unit := fun rt =>
  match lookup_tag rt name with
  | Ok (kind, slot, ty) =>
      if negb (bool_decide (kind = TkQ)) then (rt, Err (RBadRequest "force is only supported on %Q tags"))
      else if negb (value_matches value ty) then (rt, Err (RBadRequest "force type mismatch"))
      else (upd_engine (upd_io (fun io => set_io_forces (Force.set slot value (io_forces io)) io)) rt, Ok tt)
  | Err e => (rt, Err e)
  | Panic => (rt, Panic)
  end.

Definition clear_force (name : bytes) : M Runtime RuntimeError unit := fun rt =>
  match lookup_tag rt name with
  | Ok (kind, slot, _) =>
      if negb (bool_decide (kind = TkQ)) then (rt, Err (RBadRequest "force is only supported on %Q tags"))
      else (upd_engine (upd_io (fun io => set_io_forces (Force.clear slot (io_forces io)) io)) rt, Ok tt)
  | Err e => (rt, Err e)
  | Panic => (rt, Panic)
  end.

(** What the injector does to the driver it shares. *)
Definition on_injector (f : D -> D * res IoError unit) (rt : Runtime) : Runtime * res RuntimeError unit :=
  let '(d, r) := f (io_driver (en_io (rt_engine rt))) in
  (upd_engine (upd_io (set_io_driver d)) rt, map_err (fun _ => RBadRequest "injector") r).

Definition inject_input (name : bytes) (value : PlcValue) : M Runtime RuntimeError unit := fun rt =>
  if negb (bool_decide (rt_mode rt = Sim)) then (rt, Err (RBadRequest "input inject is only allowed in mode=SIM"))
  else if negb (rt_input_injector rt) then (rt, Err (RBadRequest "no SIM input injector configured"))
  else
    match lookup_tag rt name with
    | Ok (kind, slot, ty) =>
        if negb (bool_decide (kind = TkI)) then (rt, Err (RBadRequest "input inject is only supported on %I tags"))
        else if negb (value_matches value ty) then (rt, Err (RBadRequest "inject type mismatch"))
        else on_injector (fun d => inj_set_input d (Z.to_nat slot) value) rt
    | Err e => (rt, Err e)
    | Panic => (rt, Panic)
    end.

Definition inject_input_quality (name : bytes) (quality : Quality) : M Runtime RuntimeError unit := fun rt =>
  if negb (bool_decide (rt_mode rt = Sim)) then (rt, Err (RBadRequest "input inject is only allowed in mode=SIM"))
  else if negb (rt_input_injector rt) then (rt, Err (RBadRequest "no SIM input injector configured"))
  else
    match lookup_tag rt name with
    | Ok (kind, slot, _) =>
        if negb (bool_decide (kind = TkI)) then (rt, Err (RBadRequest "input inject is only supported on %I tags"))
        else on_injector (fun d => inj_set_input_quality d (Z.to_nat slot) quality) rt
    | Err e => (rt, Err e)
    | Panic => (rt, Panic)
    end.

Definition region_tags (kind : TagKind) (metas : list SlotMeta) : list TagEntry :=
  imap (fun i m => mkTag (sm_tag m) (value_type_to_ir (sm_ty m)) kind (Some (u32_of i))) metas.

Definition tag_names (rt : Runtime) : list TagEntry :=
  match tag_dictionary rt with
  | [] =>
      let image := io_image (en_io (rt_engine rt)) in
      region_tags TkI (pi_input_meta image) ++ region_tags TkQ (pi_output_meta image) ++ region_tags TkM (pi_memory_meta image)
  | dict => dict
  end.
End Runtimes.
