(* ===== verification/RuntimeRetain.v ===== *)
(** * Retained values across a swap

    What arming and swapping do to the retain segment: [load_retain_image]
    (src/crates/plc-vm/src/exec.rs) writes the remapped image into the new machine, and the
    copies that [install_shadow_retain] (src/crates/plc-runtime/src/loader.rs) plans move the
    live values over when the engine swaps. *)
From S2P Require Import Prelude Float32 IrTypes PlcTypes IoImage FbDispatch VmValue VmMemory VmExec.
From S2P Require Import RetainLayout RetainCodec RetainMap.
From S2P Require Import VmInv ScanParts ScanState ScanEngine ScanInv.
From S2P Require Import AuthTypes PkgManifest PkgJson PkgContainer Runtime.

(** ** Writes at disjoint places *)

Definition apart (o k : Z) (w : Z * bytes) : Prop := o + k <= w.1 \/ w.1 + len w.2 <= o.

(** [b'] is [b] with the byte strings of [ws] written at their offsets. *)
Record written_to (ws : list (Z * bytes)) (b b' : bytes) : Prop := {
  wr_len : len b' = len b;
  wr_at : Forall (fun w => zslice b' w.1 (len w.2) = w.2) ws;
  wr_other : forall o k, 0 <= o -> 0 <= k -> Forall (apart o k) ws -> zslice b' o k = zslice b o k }.

Lemma written_nil b : written_to [] b b.
Proof. by split. Qed.

Lemma written_cons w ws b b1 b2 : 0 <= w.1 ->
  written_to [w] b b1 -> written_to ws b1 b2 -> Forall (apart w.1 (len w.2)) ws -> written_to (w :: ws) b b2.
Proof.
  intros Hw [L1 A1 O1] [L2 A2 O2] Hd. split; [lia| |].
  - constructor; [|done]. rewrite O2 by (done || apply len_nonneg). by apply Forall_cons in A1 as [? _].
  - intros o k Ho Hk Ha. apply Forall_cons in Ha as [Ha Has]. rewrite O2 by done. apply O1; [done..|]. by constructor.
Qed.

Lemma written_blit b off c : 0 <= off -> off + len c <= len b -> written_to [(off, c)] b (blit b (Z.to_nat off) c).
Proof.
  intros Ho Hf. assert (Hl : (Z.to_nat off + length c <= length b)%nat) by (unfold len in *; lia). split.
  - unfold len. by rewrite length_blit.
  - constructor; [|done]. cbn. unfold zslice, len. rewrite Nat2Z.id. by apply slice_blit.
  - intros o k H1 H2 [Ha _]%Forall_cons. unfold apart in Ha. cbn in Ha. unfold zslice, len in *.
    apply slice_blit_out; [done|lia].
Qed.

Lemma pairwise_ord l : pairwise_disjoint l -> ForallOrdPairs disjoint_syms l.
Proof.
  induction l as [|s l IH]; intros Hd; constructor.
  - apply Forall_forall. intros t [i Hi]%list_elem_of_lookup. by apply (Hd 0%nat (S i) s t).
  - apply IH. intros i j a b Hne Ha Hb. apply (Hd (S i) (S j)); [congruence|done|done].
Qed.

Lemma layout_ord l : layout_ok l -> ForallOrdPairs disjoint_syms (l_symbols l).
Proof. intros [_ _ _ []]. by apply pairwise_ord. Qed.

(** ** Loading an image *)

Lemma zslice_whole {A} (l : list A) n : n = len l -> zslice l 0 n = l.
Proof. intros ->. unfold zslice, slice, len. rewrite Nat2Z.id. by apply firstn_all. Qed.

Lemma zero_width_of ty : Val.byte_width (Val.zero ty) = Z.of_nat (IrTy.byte_width ty).
Proof. by destruct ty. Qed.

Definition value_at (b : bytes) (s : RetainSymbol) : bytes := zslice b (sym_offset s) (sym_width s).

(** The bytes a symbol holds once its value was decoded from [image] and stored. *)
Definition stored (image : bytes) (s : RetainSymbol) : bytes :=
  Val.to_le_bytes (Val.decode (sym_ty s) (value_at image s)).

Lemma len_stored image s : len (stored image s) = sym_width s.
Proof. unfold stored, sym_width. rewrite len_to_le_bytes, <-zero_width_of. by destruct (sym_ty s). Qed.

Definition zeros_of (s : RetainSymbol) : bytes := replicate (IrTy.byte_width (sym_ty s)) 0.

Lemma stored_zero image s : value_at image s = zeros_of s -> stored image s = zeros_of s.
Proof. unfold stored, zeros_of. intros ->. by destruct (sym_ty s). Qed.

(** Only the retain segment differs. *)
Definition same_but_retain (s s' : Vm) : Prop := s' = set_retain (v_retain s') s.

#[export] Instance same_but_retain_pre : PreOrder same_but_retain.
Proof.
  split; [by intros []|]. intros x y z Hy Hz. unfold same_but_retain in *. rewrite Hz at 1. by rewrite Hy.
Qed.

Lemma same_but_retain_set r s : same_but_retain s (set_retain r s).
Proof. done. Qed.

Lemma load_symbols_spec image syms : Forall sym_range syms -> Forall (fun s => bytes_ok (value_at image s)) syms ->
  Forall (fun s => sym_offset s + sym_width s <= len image) syms -> ForallOrdPairs disjoint_syms syms -> forall vm,
  Seg.ok (v_retain vm) -> Seg.size (v_retain vm) = len image ->
  exists vm', load_symbols image syms vm = (vm', Ok tt) /\ same_but_retain vm vm' /\ Seg.ok (v_retain vm') /\
    written_to (map (fun s => (sym_offset s, stored image s)) syms) (s_bytes (v_retain vm)) (s_bytes (v_retain vm')).
Proof.
  intros Hr. induction Hr as [|s syms Hs Hr IH]; intros Hi Hf Hd vm Hok Hsz.
  - exists vm. split; [done|]. split; [done|]. split; [done|apply written_nil].
  - apply Forall_cons in Hf as [Hf Hfs], Hi as [Hi His]. inversion Hd as [|? ? Hds Hd']; subst. destruct Hs as [Hs _].
    pose proof (sym_width_pos s) as Hw. pose proof (Seg.seg_size _ Hok) as Hmax. cbn [load_symbols].
    rewrite sat64_ltb by lia. ltb_false by lia.
    set (v := Val.decode (sym_ty s) (zslice image (sym_offset s) (sym_width s))).
    assert (Hl : len (zslice image (sym_offset s) (sym_width s)) = sym_width s) by (apply len_zslice; lia).
    assert (Hv : Val.ok_ty (sym_ty s) v) by (apply decode_ok; [exact Hi|by rewrite Hl, zero_width_of]).
    assert (Hvw : Val.byte_width v = sym_width s) by (rewrite <-len_to_le_bytes; apply len_stored).
    assert (Hfrom : Val.from_le_bytes (sym_ty s) (zslice image (sym_offset s) (sym_width s)) = Ok v).
    { unfold Val.from_le_bytes. rewrite zero_width_of. fold (sym_width s). rewrite Hl. ltb_false by lia.
      unfold v. do 2 f_equal. apply zslice_whole. by rewrite Hl. }
    unfold mbind at 1, M_bind at 1, m_lift. rewrite Hfrom.
    destruct (Seg.store (v_retain vm) (sym_offset s) v 0) as [r| |] eqn:Est.
    2, 3: unfold Seg.store in Est; rewrite sat64_ltb in Est by lia; case_match eqn:E; [|done]; apply Z.ltb_lt in E; lia.
    unfold mbind, M_bind, update_field. rewrite Est.
    destruct (IH His Hfs Hd' (set_retain r vm)) as (vm' & Hl' & Hsame & Hok' & Hwr).
    { apply (store_ok_seg _ _ _ _ _ Hok Hs (proj2 Hv) Est). }
    { cbn. by rewrite (store_size _ _ _ _ _ Hok Hs Est). }
    exists vm'. split; [done|]. split; [by etrans|]. split; [done|]. cbn [map].
    eapply written_cons; [done| |exact Hwr|].
    + cbn [v_retain set_retain fst snd]. split.
      * apply (store_size _ _ _ _ _ Hok Hs Est).
      * constructor; [|done]. cbn. rewrite len_stored, <-Hvw. apply (store_bytes_at _ _ _ _ _ Hok Hs Est).
      * intros o k Ho Hk [Ha _]%Forall_cons. unfold apart in Ha. cbn in Ha. rewrite len_stored in Ha.
        apply (store_bytes_other _ _ _ _ _ Hok Hs Est); [done..|]. by rewrite Hvw.
    + cbn. rewrite len_stored. apply Forall_map. eapply Forall_impl; [exact Hds|]. intros t Ht. unfold apart. cbn.
      rewrite len_stored. exact Ht.
Qed.

(** ** Copying the live values *)

Definition copy_fits (src dst : Z) (c : RetainCopy) : Prop :=
  0 <= cp_src_offset c /\ 0 <= cp_dst_offset c /\ 0 <= cp_len c /\
  cp_src_offset c + cp_len c <= src /\ cp_dst_offset c + cp_len c <= dst.

Definition disjoint_copies (c d : RetainCopy) : Prop :=
  cp_dst_offset c + cp_len c <= cp_dst_offset d \/ cp_dst_offset d + cp_len d <= cp_dst_offset c.

Definition copied_bytes (cur : bytes) (c : RetainCopy) : Z * bytes :=
  (cp_dst_offset c, zslice cur (cp_src_offset c) (cp_len c)).

Lemma blit_copies_spec cur copies : Seg.ok (v_retain cur) -> ForallOrdPairs disjoint_copies copies -> forall vm,
  Seg.ok (v_retain vm) -> Forall (copy_fits (Seg.size (v_retain cur)) (Seg.size (v_retain vm))) copies ->
  exists vm', blit_copies copies cur vm = (vm', Ok tt) /\ same_but_retain vm vm' /\ Seg.ok (v_retain vm') /\
    written_to (map (copied_bytes (s_bytes (v_retain cur))) copies) (s_bytes (v_retain vm)) (s_bytes (v_retain vm')).
Proof.
  intros Hcur Hd. induction Hd as [|c copies Hds Hd IH]; intros vm Hok Hf.
  - exists vm. split; [done|]. split; [done|]. split; [done|apply written_nil].
  - apply Forall_cons in Hf as [(H1 & H2 & H3 & H4 & H5) Hfs]. cbn [blit_copies]. unfold mbind, M_bind, blit_retain_from, update_field.
    destruct (Seg.blit_from (v_retain vm) (cp_dst_offset c) (v_retain cur) (cp_src_offset c) (cp_len c)) as [r| |] eqn:E.
    2, 3: unfold Seg.blit_from in E; rewrite !sat64_ltb in E by (apply Hok || apply Hcur);
      case_match eqn:Eb; [|done]; apply orb_true_iff in Eb as [?%Z.ltb_lt|?%Z.ltb_lt]; lia.
    destruct (blit_from_ok _ _ _ _ _ _ Hok Hcur H2 H1 H3 E) as (Hr & Hrs & _ & _ & Hb & _).
    destruct (IH (set_retain r vm)) as (vm' & Hl & Hs & Hok' & Hw); [done|cbn; by rewrite Hrs|].
    exists vm'. split; [done|]. split; [by etrans|]. split; [done|]. cbn [map].
    assert (Hlc : len (zslice (s_bytes (v_retain cur)) (cp_src_offset c) (cp_len c)) = cp_len c) by (apply len_zslice; done).
    assert (Hlr : forall d, copy_fits (Seg.size (v_retain cur)) (Seg.size (v_retain vm)) d ->
      len (zslice (s_bytes (v_retain cur)) (cp_src_offset d) (cp_len d)) = cp_len d) by (intros d (?&?&?&?&?); by apply len_zslice).
    eapply written_cons; [done| |exact Hw|].
    + cbn [v_retain set_retain]. rewrite Hb. apply written_blit; [done|]. by rewrite Hlc.
    + cbn. rewrite Hlc. apply Forall_map. rewrite Forall_forall in Hds, Hfs |- *. intros d Hin. unfold apart, copied_bytes. cbn.
      rewrite Hlr by by apply Hfs. by apply Hds.
Qed.

(** ** The copies of a swap *)

(** The symbol whose live value a new symbol takes over. *)
Definition carried (cur : option RetainLayout) (s : RetainSymbol) : option RetainSymbol :=
  old ← cur;
  o ← layout_get old (sym_name s);
  if decide (sym_ty o = sym_ty s) then Some o else None.

Definition copy_for (o s : RetainSymbol) : RetainCopy := mkCopy (sym_offset o) (sym_offset s) (sym_width o).

Lemma copies_of_carried old new : copies_of old new = omap (fun s => (fun o => copy_for o s) <$> carried (Some old) s) (l_symbols new).
Proof.
  unfold copies_of. apply list_omap_ext, Forall_Forall2_diag, Forall_forall. intros s _. unfold carried. cbn [mbind option_bind].
  destruct (layout_get old (sym_name s)) as [o|]; cbn [mbind option_bind]; [|done]. by case_decide.
Qed.

Lemma carried_Some old s o : layout_ok old -> carried (Some old) s = Some o <->
  o ∈ l_symbols old /\ sym_name o = sym_name s /\ sym_ty o = sym_ty s.
Proof.
  intros Ho. unfold carried. cbn [mbind option_bind]. destruct (layout_get old (sym_name s)) as [o'|] eqn:E; cbn [mbind option_bind].
  - pose proof E as [Hin Hn]%layout_get_spec; [|done]. case_decide as Ht; split; [by intros [= <-]|..|done|].
    + intros (H1 & H2 & _). rewrite <-E. by apply layout_get_spec.
    + intros (H1 & H2 & H3). assert (layout_get old (sym_name s) = Some o) as E2 by by apply layout_get_spec. congruence.
  - split; [done|]. intros (H1 & H2 & _). assert (layout_get old (sym_name s) = Some o) as E2 by by apply layout_get_spec. congruence.
Qed.

Lemma width_of_type o s : sym_ty o = sym_ty s -> sym_width o = sym_width s.
Proof. unfold sym_width. by intros ->. Qed.

Lemma copies_fit old new : layout_ok old -> layout_ok new ->
  Forall (copy_fits (l_retain_size old) (l_retain_size new)) (copies_of old new).
Proof.
  intros Ho Hn. rewrite copies_of_carried. apply Forall_forall. intros c (s & Hs & Hc)%list_elem_of_omap.
  apply fmap_Some in Hc as (o & (Hin & _ & Hty)%carried_Some & ->); [|done].
  pose proof (symbol_bounds new Hn s Hs). pose proof (symbol_bounds old Ho o Hin). pose proof (sym_width_pos o).
  pose proof (width_of_type _ _ Hty). unfold copy_fits, copy_for. cbn. lia.
Qed.

Lemma ord_pairs_omap {A B} (R : A -> A -> Prop) (S : B -> B -> Prop) (f : A -> option B) l :
  (forall x y a b, R x y -> f x = Some a -> f y = Some b -> S a b) -> ForallOrdPairs R l -> ForallOrdPairs S (omap f l).
Proof.
  intros Hf. induction 1 as [|x l Hx Hl IH]; [constructor|]. unfold omap in *. cbn [list_omap]. destruct (f x) as [a|] eqn:E; [|exact IH].
  constructor; [|exact IH]. apply Forall_forall. intros b (y & Hy & Hb)%list_elem_of_omap.
  rewrite Forall_forall in Hx. by eapply Hf; [apply Hx| |].
Qed.

Lemma copies_disjoint old new : layout_ok old -> layout_ok new -> ForallOrdPairs disjoint_copies (copies_of old new).
Proof.
  intros Ho Hn. rewrite copies_of_carried. eapply ord_pairs_omap; [|by apply layout_ord].
  intros x y a b Hd Ha Hb. apply fmap_Some in Ha as (ox & Hx & ->), Hb as (oy & Hy & ->).
  apply carried_Some in Hx as (_ & _ & Hx), Hy as (_ & _ & Hy); [|done..].
  apply width_of_type in Hx, Hy. unfold disjoint_copies, copy_for. cbn. rewrite Hx, Hy. exact Hd.
Qed.

(** ** Armed programs that are ready to swap *)

(** The layout of the current machine is the current layout. *)
Definition machine_fits (cur : option RetainLayout) (vm : option Vm) : Prop :=
  match cur, vm with
  | Some l, Some vm => layout_ok l /\ l_retain_size l = Seg.size (v_retain vm)
  | None, None => True
  | _, _ => False
  end.

(** The copies are those from the current layout; what they do not write is zero. *)
Record swap_ready (cur : option RetainLayout) (new : RetainLayout) (a : ArmedProgram) : Prop := {
  sr_layout : layout_ok new;
  sr_size : l_retain_size new = Seg.size (v_retain (ap_vm a));
  sr_copies : ap_retain_copies a = match cur with Some old => copies_of old new | None => [] end;
  sr_cold : forall s, s ∈ l_symbols new -> carried cur s = None -> value_at (s_bytes (v_retain (ap_vm a))) s = zeros_of s }.

(** What a new symbol holds after the swap. *)
Definition retained_value (cur : option RetainLayout) (vm : option Vm) (s : RetainSymbol) : bytes :=
  match carried cur s, vm with
  | Some o, Some vm => value_at (s_bytes (v_retain vm)) o
  | _, _ => zeros_of s
  end.

Lemma layout_disjoint l s t : layout_ok l -> s ∈ l_symbols l -> t ∈ l_symbols l -> s <> t -> disjoint_syms s t.
Proof.
  intros [_ _ _ [_ _ _ Hd]] [i Hi]%list_elem_of_lookup [j Hj]%list_elem_of_lookup Hne.
  apply (Hd i j); [|done|done]. intros ->. congruence.
Qed.

Lemma written_untouched ws b b' s : 0 <= sym_offset s -> written_to ws b b' ->
  Forall (apart (sym_offset s) (sym_width s)) ws -> value_at b' s = value_at b s.
Proof. intros Ho Hw Ha. pose proof (sym_width_pos s). apply (wr_other _ _ _ Hw); [done|lia|done]. Qed.

Lemma blit_ready cur vm new a : machine_fits cur vm -> opt_ok (fun vm => Seg.ok (v_retain vm)) vm ->
  Seg.ok (v_retain (ap_vm a)) -> swap_ready cur new a ->
  exists vm', blit_retain_into a vm = (with_vm vm' a, Ok tt) /\ same_but_retain (ap_vm a) vm' /\
    swap_ready cur new (with_vm vm' a) /\
    forall s, s ∈ l_symbols new -> value_at (s_bytes (v_retain vm')) s = retained_value cur vm s.
Proof.
  intros Hfit Hvm Hok [Hl Hsz Hc Hcold]. unfold blit_retain_into. destruct vm as [vm|].
  2: { destruct cur; [done|]. exists (ap_vm a). split; [by destruct a|]. split; [done|]. split; [by split|].
    intros s Hs. by apply Hcold. }
  destruct cur as [old|]; [|done]. destruct Hfit as [Ho Hos]. cbn in Hvm.
  destruct (blit_copies_spec vm (ap_retain_copies a)) with (vm := ap_vm a) as (vm' & -> & Hs & Hok' & Hw); [done| |done| |].
  { rewrite Hc. by apply copies_disjoint. }
  { rewrite Hc, <-Hos, <-Hsz. by apply copies_fit. }
  assert (Hun : forall s, s ∈ l_symbols new -> carried (Some old) s = None ->
    value_at (s_bytes (v_retain vm')) s = value_at (s_bytes (v_retain (ap_vm a))) s).
  { intros s Hin Hn. pose proof (symbol_bounds new Hl s Hin). eapply written_untouched; [lia|exact Hw|].
    rewrite Hc, copies_of_carried. apply Forall_map, Forall_forall. intros c (t & Ht & Hct)%list_elem_of_omap.
    apply fmap_Some in Hct as (o & Hot & ->). assert (s <> t) as Hne by (intros ->; congruence).
    pose proof Hot as (Hin' & _ & Hty)%carried_Some; [|done]. pose proof (symbol_bounds old Ho o Hin').
    destruct (layout_disjoint new s t Hl Hin Ht Hne) as [|];
      unfold apart, copied_bytes, copy_for; cbn; rewrite len_zslice by (pose proof (sym_width_pos o); unfold Seg.size in *; lia);
      rewrite ?(width_of_type _ _ Hty); lia. }
  exists vm'. split; [done|]. split; [done|]. split.
  - split; cbn [ap_vm with_vm ap_retain_copies]; [done| |done|].
    + rewrite Hsz. unfold Seg.size. by rewrite (wr_len _ _ _ Hw).
    + intros s Hin Hn. rewrite Hun by done. by apply Hcold.
  - intros s Hin. unfold retained_value. destruct (carried (Some old) s) as [o|] eqn:Ec.
    2: { rewrite Hun by done. by apply Hcold. }
    pose proof (wr_at _ _ _ Hw) as Hat. rewrite Hc, copies_of_carried in Hat. rewrite Forall_forall in Hat.
    specialize (Hat (copied_bytes (s_bytes (v_retain vm)) (copy_for o s))). unfold copied_bytes, copy_for in Hat. cbn in Hat.
    pose proof Ec as (Hin' & _ & Hty)%carried_Some; [|done]. pose proof (symbol_bounds old Ho o Hin').
    rewrite len_zslice in Hat by (pose proof (sym_width_pos o); unfold Seg.size in *; lia).
    unfold value_at. rewrite <-(width_of_type _ _ Hty). apply Hat. apply list_elem_of_fmap.
    exists (copy_for o s). split; [done|]. apply list_elem_of_omap. exists s. split; [done|]. unfold carried in Ec. cbn in Ec |- *. by rewrite Ec.
Qed.

(** ** Preparing them *)

Definition view_ok (v : RetainView) : Prop :=
  layout_ok (rv_layout v) /\ len (rv_bytes v) = l_retain_size (rv_layout v) /\ bytes_ok (rv_bytes v).

Lemma value_at_zeros n s : 0 <= sym_offset s -> sym_offset s + sym_width s <= n -> value_at (replicate (Z.to_nat n) 0) s = zeros_of s.
Proof.
  intros H1 H2. unfold value_at, zslice, slice, zeros_of, sym_width in *.
  rewrite drop_replicate, take_replicate. f_equal. lia.
Qed.

Lemma layout_new_ready new vm (Hl : layout_ok new) : l_retain_size new = Seg.size (v_retain vm) ->
  v_retain vm = Seg.zeros (Seg.size (v_retain vm)) -> forall s, s ∈ l_symbols new -> value_at (s_bytes (v_retain vm)) s = zeros_of s.
Proof.
  intros Hsz Hz s Hin. rewrite Hz. pose proof (symbol_bounds new Hl s Hin). cbn. apply value_at_zeros; lia.
Qed.

Lemma carried_none old new s t : layout_ok old -> s ∈ l_symbols new -> carried (Some old) s = None ->
  t ∈ l_symbols old -> sym_name t = sym_name s -> sym_ty t <> sym_ty s.
Proof. intros Ho _ Hc Ht Hn Hty. assert (carried (Some old) s = Some t) as E by by apply carried_Some. congruence. Qed.

Lemma install_shadow_ready vm new snap force : layout_ok new -> l_retain_size new = Seg.size (v_retain vm) ->
  Seg.ok (v_retain vm) -> v_retain vm = Seg.zeros (Seg.size (v_retain vm)) -> opt_ok view_ok snap ->
  match install_shadow_retain vm new snap force with
  | Ok (vm', (report, copies)) => same_but_retain vm vm' /\ Seg.ok (v_retain vm') /\
      forall a, ap_vm a = vm' -> ap_retain_copies a = copies -> swap_ready (rv_layout <$> snap) new a
  | Err e => exists names, e = RRetain (REIncompatible names)
  | Panic => False
  end.
Proof.
  intros Hl Hsz Hok Hz Hsnap. unfold install_shadow_retain. destruct snap as [v|].
  2: { split; [done|]. split; [done|]. intros a Ha Hc. rewrite <-Ha in *. split; [done..|]. intros s Hs _. by apply layout_new_ready with new. }
  destruct Hsnap as (Ho & Hlen & Hb).
  pose proof (map_retain_spec (rv_layout v) new (rv_bytes v) force Ho Hl Hlen) as Hm.
  destruct (map_retain _ _ _ _) as [m|e|]; cbn [map_err mbind res_bind]; [|by destruct Hm as (names & -> & _); exists names|done].
  destruct Hm as (Hmlen & Hkeep & Hcold & _). rewrite Hsz in Hmlen.
  assert (Hval : forall s, s ∈ l_symbols new -> carried (Some (rv_layout v)) s = None -> value_at (m_image m) s = zeros_of s).
  { intros s Hs Hc. apply Hcold; [done|]. intros t. by eapply carried_none. }
  destruct (load_symbols_spec (m_image m) (l_symbols new)) with (vm := vm) as (vm' & Hload & Hs & Hok' & Hw).
  { by destruct Hl. }
  { apply Forall_forall. intros s Hs. destruct (carried (Some (rv_layout v)) s) as [o|] eqn:Ec.
    - apply carried_Some in Ec as (Ho1 & Ho2 & Ho3); [|done]. unfold value_at. rewrite (Hkeep s o) by done. by apply slice_ok.
    - rewrite Hval by done. apply Forall_replicate. unfold byte_range. lia. }
  { destruct Hl as [_ _ _ [_ _ Hf _]]. rewrite Hmlen, <-Hsz. done. }
  { by apply layout_ord. }
  { done. }
  { by rewrite Hmlen. }
  unfold load_retain_image, m_get, mbind, M_bind. rewrite Hmlen, Hsz, !Z.eqb_refl. cbn [negb]. rewrite Hload.
  split; [done|]. split; [done|]. intros a Ha Hc. split; [done|..].
  - rewrite Ha, Hsz. unfold Seg.size. by rewrite (wr_len _ _ _ Hw).
  - by rewrite Hc.
  - intros s Hin Hn. rewrite Ha. pose proof (wr_at _ _ _ Hw) as Hat. rewrite Forall_forall in Hat.
    specialize (Hat (sym_offset s, stored (m_image m) s)). cbn in Hat. rewrite len_stored in Hat. unfold value_at at 1.
    rewrite Hat by (apply list_elem_of_fmap; by exists s). apply stored_zero, Hval; [done|exact Hn].
Qed.
