(* ===== verification/RuntimeInv.v ===== *)
(** * The invariant of the loader

    What src/crates/plc-runtime/src/loader.rs keeps true between its calls: the layouts are
    those of the machines, the copies of the armed program are the ones its swap needs, and
    both machines run verified code that has the entries their tasks name. *)
From S2P Require Import RetainSnapshot.
From S2P Require Import Prelude Text Float32 Config AuthTypes IrTypes PlcTypes IoImage FbDispatch VmValue VmMemory VmExec.
From S2P Require Import IrEncode RetainLayout RetainCodec RetainMap Spbc IrVerify VmInv VmLoad VmVerified.
From S2P Require Import PkgManifest PkgJson PkgFields PkgContainer.
From S2P Require Import ScanMode ScanParts ScanState ScanEngine ScanSchedule ScanInv ScanSwap ScanTrack.
From S2P Require Import Runtime RuntimeRetain.

(** ** What validation gives *)


Lemma parse_entries_range n bs off es o : bytes_ok bs -> parse_entries n bs off = Ok (es, o) ->
  Forall (fun e => u_range 32 (e_pc e)) es.
Proof.
  intros Hb. revert off es o. induction n as [|n IH]; intros off es o Hp; cbn [parse_entries] in Hp; [by injection Hp as <- _|].
  repeat match type of Hp with (if ?b then _ else _) = _ => destruct b; [done|] end.
  apply res_bind_Ok in Hp as ([es' o'] & He & Hp). injection Hp as <- _. constructor; [by apply read_u32_range|by eapply IH].
Qed.

Lemma parsed_module_ok bs m : bytes_ok bs -> parse_spbc bs = Ok m -> module_ok m.
Proof.
  intros Hb Hp. unfold parse_spbc in Hp.
  repeat match type of Hp with (if ?b then _ else _) = _ => destruct b; [done|] end.
  apply res_bind_Ok in Hp as ([es o] & He & Hp). destruct (_ <? _); [done|]. apply Ok_inj in Hp as <-.
  split; cbn [code data_size retain_size input_slots output_slots entries]; try by apply read_u32_range.
  - by apply slice_ok.
  - by eapply parse_entries_range.
Qed.

Lemma de_uint_range w d n : de_uint w d = Some n -> u_range w n.
Proof. destruct d; cbn; try done. case_match eqn:E; [|done]. intros [= <-]. apply andb_true_iff in E as [?%Z.leb_le ?%Z.ltb_lt]. done. Qed.

Lemma required_Some {A} get n (f : Doc -> option A) a : required get n f = Some a -> exists d, f d = Some a.
Proof. unfold required. destruct (get n) as [d|]; [|done]. by exists d. Qed.

Lemma de_retain_range d s : de_retain d = Some s -> u_range 32 (mr_offset s).
Proof.
  unfold de_retain. intros H. repeat (apply bind_Some in H as (? & ? & H)). injection H as <-. cbn.
  match goal with H : required _ "offset" _ = _ |- _ => apply required_Some in H as [od Hod] end. by eapply de_uint_range.
Qed.

Lemma manifest_offsets `{!SerdeJson} `{!Semver} bs m c : from_json_bytes bs = Ok (m, c) ->
  Forall sym_range (map to_retain_symbol (mf_retain_symbols m)).
Proof.
  intros Hj. apply from_json_Ok in Hj as (o & _ & _ & _ & Hm & _). unfold de_manifest in Hm.
  repeat (apply bind_Some in Hm as (? & ? & Hm)). injection Hm as <-. cbn [mf_retain_symbols].
  match goal with H : required _ "retain_symbols" _ = _ |- _ => apply required_Some in H as [d Hd] end.
  unfold de_seq in Hd. destruct d; try done. apply mapM_Some_1 in Hd. apply Forall_map, Forall_forall. intros s Hs.
  apply list_elem_of_lookup in Hs as [i Hi]. eapply Forall2_lookup_r in Hi as (dd & _ & Hdd); [|exact Hd].
  exact (de_retain_range _ _ Hdd).
Qed.

(** What [Runtime::prepare_arm] knows of a package that validates. *)
Record arms_with (p : ParsedPackage) (m : IrModule) : Prop := {
  aw_modules : pp_modules p = [m];
  aw_module : module_ok m;
  aw_verified : verify_module m = Ok tt;
  aw_agrees : agrees_with m (pp_manifest p);
  aw_offsets : Forall sym_range (map to_retain_symbol (mf_retain_symbols (pp_manifest p))) }.

Lemma validate_arms `{!SerdeJson} `{!Semver} `{!Ed25519} `{!Sha256} bs policy p :
  bytes_ok bs -> validate bs policy = Ok p -> exists m, arms_with p m.
Proof.
  intros Hb Hv. apply validate_Ok in Hv as (p0 & s & md & Hp & Hs & -> & _ & Hmd & Hver & Hag & _).
  apply parsed_written in Hp as (Hw & _ & Hj & _); [|done]. exists md. split; cbn [with_modules pp_modules pp_manifest]; try done.
  - eapply parsed_module_ok; [|exact Hmd]. rewrite Hs in Hw. apply write_spkg_Ok in Hw as (_ & _ & _ & _ & body & Hbody & Hf).
    cbn [write_sections] in Hbody. apply res_bind_Ok in Hbody as (b & Hb1 & Hbody). injection Hbody as <-.
    unfold write_section in Hb1. destruct (_ <=? _); [done|]. apply Ok_inj in Hb1 as <-.
    rewrite Hf in Hb. unfold frame in Hb. rewrite !Forall_app in Hb. naive_solver.
  - by eapply manifest_offsets.
Qed.

(** ** Between two swaps *)

(** The machine runs a verified module that has the entries of these names. *)
Definition runs_verified (names : list bytes) (vm : Vm) : Prop := exists m,
  module_ok m /\ verify_module m = Ok tt /\ runs_module m vm /\
  v_entries vm = map (fun e => (e_name e, e_pc e, e_is_user_fb e)) (entries m) /\
  Forall (fun n => exists e, e ∈ entries m /\ e_name e = n) names.

Lemma runs_same names vm vm' : same_machine vm vm' -> runs_verified names vm -> runs_verified names vm'.
Proof.
  intros [Hc He Hf _ Hi Hq Ho] (m & H1 & H2 & [R1 R2 R3 R4 R5] & H4 & H5). exists m. split; [done|]. split; [done|].
  split; [|split; [congruence|done]]. split; try congruence; try lia.
  intros id pc Hid. apply (R5 id pc). unfold user_fb_entry in *. by rewrite <-Hf.
Qed.

Lemma retain_same vm vm' : same_but_retain vm vm' -> Seg.size (v_retain vm') = Seg.size (v_retain vm) -> same_machine vm vm'.
Proof. intros -> Hs. by split. Qed.

Lemma cold_reset_same vm : same_machine vm (cold_reset_non_retain vm).
Proof.
  split; try done. unfold Slots.size, len. cbn. by rewrite length_map.
Qed.

Section Epochs.
Context {D : Type} `{!IoDriver D, !IoDriverLaws D, !NanRule, !ScanEnv}.
Context (Hclock : forall n, u_range 64 (now_ns_at n)) (Hremote : forall n, Forall plc_ok (remote_at n).1).
Implicit Types (e : ScanEngine D).

Definition plan_entries e : list bytes := map tp_entry (sp_tasks (en_plan e)).

(** [cur] and [armed] are the layouts of the current and of the armed program of [e]. *)
Record epoch_ok (cur armed : option RetainLayout) e : Prop := {
  ep_fits : machine_fits cur (en_vm e);
  ep_armed : match armed, en_armed e with Some l, Some a => swap_ready cur l a | None, None => True | _, _ => False end;
  ep_code : opt_ok (runs_verified (plan_entries e)) (en_vm e);
  ep_armed_code : opt_ok (fun a => runs_verified (ap_task_entries a) (ap_vm a)) (en_armed e);
  ep_id : en_vm e <> None -> en_current_id e <> None }.

Lemma tracks_fit cur o o' : tracks o o' -> machine_fits cur o -> machine_fits cur o'.
Proof. intros [vm vm' Hs|]; [|done]. destruct cur; [|done]. intros [H1 H2]. split; [done|]. by rewrite (mm_retain _ _ Hs). Qed.

(** What leaves the programs alone leaves the epoch alone. *)
Lemma epoch_same cur armed e e' : tracks (en_vm e) (en_vm e') -> en_armed e' = en_armed e -> en_plan e' = en_plan e ->
  en_current_id e' = en_current_id e -> epoch_ok cur armed e -> epoch_ok cur armed e'.
Proof.
  intros Ht Ha Hp Hid [H1 H2 H3 H4 H5]. unfold plan_entries in *. split; rewrite ?Ha, ?Hp, ?Hid; try done.
  - by eapply tracks_fit.
  - unfold plan_entries. rewrite Hp. destruct Ht as [vm vm' Hs|]; [|done]. cbn in *. by eapply runs_same.
  - destruct Ht; [|done]. intros _. by apply H5.
Qed.

Lemma epoch_invoke cur armed z task e e' d : engine_ok z e -> epoch_ok cur armed e -> invoke task e = (e', Ok d) ->
  epoch_ok cur armed e' /\ Hooks.activate_requested (en_hooks e') = Hooks.activate_requested (en_hooks e).
Proof using Hclock Hremote.
  intros He Hep Hi. pose proof (invoke_tracks z task e e' d Hclock Hremote He Hi) as Ht.
  pose proof (steady_invoke task e) as Hs. rewrite Hi in Hs. cbn [fst] in Hs. destruct Hs.
  split; [|done]. by eapply epoch_same.
Qed.

Lemma entries_of_plan es tasks : length es = length tasks -> map tp_entry (set_entries es tasks) = es.
Proof.
  intros Hl. apply list_eq. intros i. change (map tp_entry) with (fmap (M:=list) tp_entry). rewrite list_lookup_fmap.
  unfold set_entries. rewrite list_lookup_imap. destruct (tasks !! i) as [t|] eqn:Et; cbn.
  - apply lookup_lt_Some in Et. destruct (lookup_lt_is_Some_2 es i) as [x Hx]; [lia|]. by rewrite Hx.
  - symmetry. apply lookup_ge_None. apply lookup_ge_None in Et. lia.
Qed.

(** An attempt to swap: the copies fit, so it never faults; and what it installs holds the
    values it carries over. *)
Lemma epoch_install cur armed z e e' o : engine_ok z e -> epoch_ok cur armed e -> try_epoch_install e = (e', Ok o) ->
  match o with
  | Faulted => False
  | Installed => Hooks.activate_requested (en_hooks e) = true /\ exists l vm, armed = Some l /\ en_vm e' = Some vm /\
      epoch_ok (Some l) None e' /\
      forall s, s ∈ l_symbols l -> value_at (s_bytes (v_retain vm)) s = retained_value cur (en_vm e) s
  | _ => epoch_ok cur armed e' /\
      (Hooks.activate_requested (en_hooks e) = false -> Hooks.activate_requested (en_hooks e') = false)
  end.
Proof.
  intros He [H1 H2 H3 H4 H5] Ht. apply try_install_spec in Ht.
  assert (Hnone : o <> NotInstalled -> forall a, en_armed e = Some a -> exists l vm', armed = Some l /\
    blit_retain_into a (en_vm e) = (with_vm vm' a, Ok tt) /\ same_machine (ap_vm a) vm' /\ swap_ready cur l (with_vm vm' a) /\
    forall s, s ∈ l_symbols l -> value_at (s_bytes (v_retain vm')) s = retained_value cur (en_vm e) s).
  { intros _ a Ha. rewrite Ha in *. destruct armed as [l|]; [|done].
    pose proof (eo_armed z e He) as Hak. rewrite Ha in Hak. destruct Hak as [[Hvm _ _] _ _].
    destruct (blit_ready cur (en_vm e) l a H1) as (vm' & Hb & Hs & Hr & Hv); [|by apply Hvm|done|].
    - pose proof (eo_vm z e He) as Hev. destruct (en_vm e) as [vm|]; [|done]. destruct Hev as [Hev _ _]. apply Hev.
    - exists l, vm'. split; [done|]. split; [done|]. split; [|done]. apply retain_same; [done|].
      rewrite <-(sr_size _ _ _ H2). symmetry. apply (sr_size _ _ _ Hr). }
  destruct o.
  - split; [|intros Hr; by rewrite Ht]. rewrite Ht. by split.
  - destruct Ht as (a & a' & r & Ha & Hreq & Hb & -> & Hin). split; [done|].
    destruct (Hnone ltac:(done) a Ha) as (l & vm' & -> & Hb' & Hs & Hr & Hv). rewrite Hb' in Hb. injection Hb as <-.
    exists l, vm'. split; [done|]. split; [by rewrite (is_vm _ _ _ Hin)|]. split; [|done].
    rewrite Ha in H4. split; rewrite ?(is_vm _ _ _ Hin), ?(is_armed _ _ _ Hin), ?(is_id _ _ _ Hin); try done.
    + split; [apply Hr|]. by rewrite (sr_size _ _ _ Hr).
    + cbn. unfold plan_entries. rewrite (is_plan _ _ _ Hin). cbn [ap_task_entries with_vm]. rewrite entries_of_plan.
      * by eapply runs_same.
      * pose proof (eo_armed z e He) as Hak. rewrite Ha in Hak. destruct Hak as [_ Hl _]. by rewrite Hl, (eo_plan z e He).
  - destruct Ht as (a & a' & r & Ha & Hreq & Hb & Hsp & _ & _ & Ha' & _). split; [|congruence].
    destruct (Hnone ltac:(done) a Ha) as (l & vm' & -> & Hb' & Hs & Hr & Hv). rewrite Hb' in Hb. injection Hb as <- _.
    rewrite Ha in H4. cbn in H4. destruct Hsp as [S1 S2 _ S4 _ _ _ _ _]. split; unfold plan_entries; rewrite ?S1, ?S2, ?S4, ?Ha'; try done.
    cbn. by eapply runs_same.
  - destruct Ht as (a & a' & r & Ha & _ & Hb & (err & Hr) & _). destruct (Hnone ltac:(done) a Ha) as (l & vm' & _ & Hb' & _).
    congruence.
Qed.
(** From one epoch to the next: a swap only when it was requested. *)
Definition moved (cur armed : option RetainLayout) e e' : Prop :=
  (epoch_ok cur armed e' /\ (Hooks.activate_requested (en_hooks e) = false -> Hooks.activate_requested (en_hooks e') = false)) \/
  (Hooks.activate_requested (en_hooks e) = true /\ exists l, armed = Some l /\ epoch_ok (Some l) None e').

Lemma moved_then cur armed e e1 e2 : moved cur armed e e1 ->
  (forall c a, epoch_ok c a e1 -> moved c a e1 e2) -> moved cur armed e e2.
Proof.
  intros [[H1 Hr]|[Hr (l & -> & H1)]] Hk.
  - destruct (Hk _ _ H1) as [[H2 Hr2]|[Hr2 H2]]; [left; by auto|]. right. split; [|done].
    destruct (Hooks.activate_requested (en_hooks e)); [done|]. rewrite Hr in Hr2; done.
  - right. split; [done|]. exists l. split; [done|]. by destruct (Hk _ _ H1) as [[H2 _]|[_ (l' & ? & _)]].
Qed.

Lemma moved_install cur armed z e e' o : engine_ok z e -> epoch_ok cur armed e -> try_epoch_install e = (e', Ok o) -> moved cur armed e e'.
Proof.
  intros He Hep Ht. pose proof (epoch_install cur armed z e e' o He Hep Ht) as Hi.
  destruct o; [by left| |by left|done]. right. destruct Hi as (Hr & l & vm & -> & _ & Hi & _). split; [done|by exists l].
Qed.

Lemma moved_clock cur armed e k : epoch_ok cur armed e -> moved cur armed e (set_en_clock k e).
Proof. intros Hep. left. split; [|done]. by apply (epoch_same _ _ e). Qed.

Lemma moved_invoke cur armed z task e e' d : engine_ok z e -> epoch_ok cur armed e -> invoke task e = (e', Ok d) -> moved cur armed e e'.
Proof using Hclock Hremote.
  intros He Hep Hi. destruct (epoch_invoke _ _ z _ _ _ _ He Hep Hi) as [H1 H2]. left. split; [done|]. by rewrite H2.
Qed.

Lemma moved_boundary cur armed e : epoch_ok cur armed e -> moved cur armed e (apply_mode_boundary e).
Proof.
  intros Hep. left. split.
  - apply (epoch_same _ _ e); [by rewrite boundary_vm|..|done]; unfold apply_mode_boundary; (case_decide; [done|]);
      by destruct (Cell.apply_pending _) as [modes [[m []]|x|]].
  - unfold apply_mode_boundary. case_decide; [done|]. by destruct (Cell.apply_pending _) as [modes [[m []]|x|]].
Qed.

(** The invocation of the due task, if there is one, after an attempt to swap. *)
Lemma moved_due cur armed z e e1 e' o :
  engine_ok z e -> epoch_ok cur armed e -> try_epoch_install e = (e1, Ok o) ->
  (e' = set_en_clock (S (en_clock e1)) e1 \/
   exists task d, invoke task (set_en_clock (S (en_clock e1)) e1) = (e', Ok d)) ->
  moved cur armed e e'.
Proof using Hclock Hremote.
  intros He Hep Hi Hend. eapply moved_then; [by eapply moved_install|]. intros c a H1.
  assert (He1 : engine_ok z (set_en_clock (S (en_clock e1)) e1)).
  { pose proof (safe_try_install Hclock Hremote (fun _ => False) z e He) as Hs. rewrite Hi in Hs. destruct Hs as [[] _]. by split. }
  eapply moved_then; [by apply moved_clock|]. intros c' a' H2.
  destruct Hend as [->|(task & d & Hd)]; [by left|by eapply moved_invoke].
Qed.

Lemma moved_turn cur armed z e e' o : engine_ok z e -> epoch_ok cur armed e -> due_turn e = (e', Ok o) -> moved cur armed e e'.
Proof using Hclock Hremote.
  intros He Hep Ht. unfold due_turn in Ht. apply M_bind_Ok in Ht as (i & e1 & Hi & Ht).
  apply M_bind_Ok in Ht as (now & e2 & Hn & Ht). injection Hn as <- <-.
  apply M_bind_Ok in Ht as (due & e3 & [= <- <-] & Ht).
  eapply (moved_due _ _ z _ _ _ _ He Hep Hi).
  destruct (pick_due _ _) as [task|] eqn:Hp.
  - apply M_bind_Ok in Ht as (d & e3 & Hv & Ht). injection Ht as <- _. right. by exists task, d.
  - injection Ht as <- _. by left.
Qed.

Lemma moved_step cur armed z e e' o : engine_ok z e -> epoch_ok cur armed e -> step e = (e', Ok o) -> moved cur armed e e'.
Proof using Hclock Hremote.
  intros He Hep Hs. unfold step in Hs. apply M_bind_Ok in Hs as (u & e0 & [= <- <-] & Hs).
  eapply moved_then; [by apply moved_boundary|]. intros c a Hep0. apply (ok_boundary z) in He.
  apply M_bind_Ok in Hs as (i & e1 & Hi & Hs). apply M_bind_Ok in Hs as (now & e2 & Hn & Hs). injection Hn as <- <-.
  apply M_bind_Ok in Hs as (due & e3 & [= <- <-] & Hs).
  eapply (moved_due _ _ z _ _ _ _ He Hep0 Hi).
  destruct (pick_due _ _) as [task|] eqn:Hp.
  - apply M_bind_Ok in Hs as (d & e3 & Hv & Hs). injection Hs as <- _. right. by exists task, d.
  - apply M_bind_Ok in Hs as (n & e3 & [= <- _] & Hs). injection Hs as <- _. by left.
Qed.

Lemma moved_loop z fuel n e e' r cur armed : engine_ok z e -> settled e -> epoch_ok cur armed e ->
  due_loop fuel n e = Some (e', r) ->
  match r with Ok _ => engine_ok z e' /\ settled e' /\ moved cur armed e e' | Err _ => False | Panic => machine_panicked z e' end.
Proof using Hclock Hremote.
  revert n e cur armed. induction fuel as [|fuel IH]; intros n e cur armed He Hset Hep Hl; [done|]. cbn [due_loop] in Hl.
  pose proof (safe_turn Hclock Hremote z e He) as Hs. destruct (due_turn e) as [e1 [o|x|]] eqn:Ht.
  - destruct Hs as [He1 _]. pose proof (turn_settled _ _ _ Hset Ht) as Hset1. pose proof (moved_turn _ _ z _ _ _ He Hep Ht) as Hm.
    destruct o as [task|]; [|by injection Hl as <- <-].
    assert (Hr : match r with Ok _ => engine_ok z e' /\ settled e' | Err _ => False | Panic => machine_panicked z e' end /\
      forall a, r = Ok a -> forall c ar, epoch_ok c ar e1 -> moved c ar e1 e').
    { destruct Hm as [[H1 _]|[_ (l & _ & H1)]]; pose proof (IH _ _ _ _ He1 Hset1 H1 Hl) as Hr;
        (split; [by destruct r; naive_solver|]); intros a -> c ar Hc; by destruct (IH _ _ _ _ He1 Hset1 Hc Hl) as (_ & _ & ?). }
    destruct Hr as [Hr Hk]. destruct r as [a|x|]; [|done..]. destruct Hr as [H1 H2]. split; [done|]. split; [done|].
    eapply moved_then; [exact Hm|]. by eapply Hk.
  - by destruct Hs.
  - by injection Hl as <- <-.
Qed.
End Epochs.

(** ** The loader's calls *)

Section Calls.
Context {D : Type} `{!IoDriver D, !IoDriverLaws D, !InputInjector D, !InputInjectorLaws D, !NanRule, !ScanEnv}.
Context `{!SerdeJson} `{!Semver} `{!Ed25519} `{!Sha256}.
Implicit Types (rt : Runtime (D := D)).

(** A package is prepared with the lock released: between [begin_arm] and [commit_arm] its
    context is pending. *)
Record LoaderSession := mkSession { ss_runtime : Runtime (D := D); ss_pending : option ArmContext }.

Inductive Call :=
  | CallUpload (bs : bytes)
  | CallBegin
  | CallFinish (bs : bytes)
  | CallUploader (principal : bytes)
  | CallDisarm
  | CallActivate
  | CallStep
  | CallRunDue (fuel : nat)
  | CallMode (r : ModeRequest)
  | CallForce (name : bytes) (v : PlcValue)
  | CallClearForce (name : bytes)
  | CallInjector
  | CallInject (name : bytes) (v : PlcValue)
  | CallInjectQuality (name : bytes) (q : Quality)
  | CallConfig (cfg : RuntimeConfig)
  | CallLoadRetain (bs : bytes).

(** A panic ends the session: the mutex is poisoned. *)
Definition returned {A} (pending : option ArmContext) (x : Runtime (D := D) * res RuntimeError A) : option LoaderSession :=
  match x with (_, Panic) => None | (rt, _) => Some (mkSession rt pending) end.

(** One call under the lock. The routes refuse to activate while a package is prepared
    ([phase_validating]) and one package is prepared at a time. *)
Definition call (c : Call) (s : LoaderSession) : option LoaderSession :=
  let rt := ss_runtime s in
  let pending := ss_pending s in
  match c with
  | CallUpload bs => returned pending (upload bs rt)
  | CallBegin =>
      match pending, begin_arm rt with
      | None, (rt, Ok ctx) => Some (mkSession rt (Some ctx))
      | None, x => returned None x
      | Some _, _ => Some s
      end
  | CallFinish bs =>
      match pending with
      | None => Some s
      | Some ctx =>
          match prepare_arm bs ctx with
          | Ok prepared =>
              match commit_arm prepared rt with
              | (rt, Err _) => Some (mkSession (abort_arm rt) None)
              | x => returned None x
              end
          | Err _ => Some (mkSession (abort_arm rt) None)
          | Panic => None
          end
      end
  | CallUploader principal => Some (mkSession (set_uploader principal rt) pending)
  | CallDisarm => returned pending (rt_disarm rt)
  | CallActivate => match pending with Some _ => Some s | None => returned None (activate rt) end
  | CallStep => returned pending (rt_step rt)
  | CallRunDue fuel => x ← rt_run_due fuel rt; returned pending x
  | CallMode r => Some (mkSession (upd_engine (request_mode r) rt) pending)
  | CallForce name v => returned pending (force_tag name v rt)
  | CallClearForce name => returned pending (clear_force name rt)
  | CallInjector => Some (mkSession (set_injector rt) pending)
  | CallInject name v => returned pending (inject_input name v rt)
  | CallInjectQuality name q => returned pending (inject_input_quality name q rt)
  | CallConfig cfg => Some (mkSession (set_config cfg rt) pending)
  | CallLoadRetain bs => returned pending (rt_load_retain_image bs rt)
  end.

Fixpoint calls (cs : list Call) (s : LoaderSession) : option LoaderSession :=
  match cs with [] => Some s | c :: cs => s ← call c s; calls cs s end.

(** Arguments within their Rust types. *)
Definition call_ok (c : Call) : Prop :=
  match c with
  | CallUpload bs | CallFinish bs | CallLoadRetain bs => bytes_ok bs
  | CallInject _ v => plc_ok v
  | _ => True
  end.

(** ** The invariant *)

Record runtime_ok (z : Sizes) rt : Prop := {
  ro_engine : engine_ok z (rt_engine rt);
  ro_settled : settled (rt_engine rt);
  ro_epoch : epoch_ok (rt_current_layout rt) (rt_armed_layout rt) (rt_engine rt) }.

(** A pending context still describes the current program, and no swap is under way. *)
Record context_ok (z : Sizes) rt (ctx : ArmContext) : Prop := {
  co_names : length (ac_task_names ctx) = z_tasks z;
  co_view : opt_ok view_ok (ac_retain ctx);
  co_layout : rv_layout <$> ac_retain ctx = rt_current_layout rt;
  co_request : activate_requested rt = false }.

(** What a pending context relies on. *)
Definition context_kept rt rt' : Prop := activate_requested rt = false ->
  rt_current_layout rt' = rt_current_layout rt /\ activate_requested rt' = false.

Definition session_ok (z : Sizes) (s : LoaderSession) : Prop :=
  runtime_ok z (ss_runtime s) /\ opt_ok (context_ok z (ss_runtime s)) (ss_pending s).

(** ** Preparing *)

Record prepared_ok (ctx : ArmContext) (p : PreparedArm) : Prop := {
  pr_vm : vm_ok (ap_vm (pa_program p));
  pr_entries : length (ap_task_entries (pa_program p)) = length (ac_task_names ctx);
  pr_copies : Forall copy_ok (ap_retain_copies (pa_program p));
  pr_code : runs_verified (ap_task_entries (pa_program p)) (ap_vm (pa_program p));
  pr_ready : swap_ready (rv_layout <$> ac_retain ctx) (pa_layout p) (pa_program p) }.

Lemma entries_for_spec l names es : entries_for l names = Ok es ->
  length es = length names /\ Forall (fun x => exists name, (name, x) ∈ l) es.
Proof.
  revert es. induction names as [|name names IH]; intros es He; cbn [entries_for] in He; [by apply Ok_inj in He as <-|].
  unfold entry_get in He. destruct (find _ l) as [[n x]|] eqn:Ef; [|done]. cbn [fmap option_fmap option_map snd] in He.
  apply res_bind_Ok in He as (rest & Hr & He). apply Ok_inj in He as <-. destruct (IH _ Hr) as [Hl Ha].
  split; [cbn; by rewrite Hl|]. constructor; [|done]. exists n. apply find_some in Ef as [Hin _]. by apply list_elem_of_In.
Qed.

Lemma vm_ok_retain vm vm' : vm_ok vm -> same_but_retain vm vm' -> Seg.ok (v_retain vm') -> vm_ok vm'.
Proof. intros [] -> Hs. by split. Qed.

Lemma build_ready p m ctx pa : arms_with p m -> opt_ok view_ok (ac_retain ctx) -> build_prepared p ctx = Ok pa -> prepared_ok ctx pa.
Proof.
  intros [Hm Hmod Hver Hag Hoff] Hview Hb. unfold build_prepared in Hb. destruct (negb _); [done|]. rewrite Hm in Hb.
  cbn [head ok_or mbind res_bind] in Hb. apply res_bind_Ok in Hb as (es & Hes & Hb).
  apply res_bind_Ok in Hb as (vm & Hload & Hb). destruct (load m default_config) as [vm0| |] eqn:El; [|done..].
  apply Ok_inj in Hload as ->. apply res_bind_Ok in Hb as (layout & Hlay & Hb).
  apply res_bind_Ok in Hb as ([vm' [report copies]] & Hinst & Hb).
  destruct (resolve_restart _ _) as [[pol hon] down]. apply Ok_inj in Hb as <-.
  destruct (load_ok m default_config vm Hmod ltac:(by vm_compute) El) as [Hvm Hruns].
  assert (Hret : v_retain vm = Seg.zeros (retain_size m) /\
    v_entries vm = map (fun e => (e_name e, e_pc e, e_is_user_fb e)) (entries m)).
  { unfold load in El. apply res_bind_Ok in El as (u & _ & El). by apply Ok_inj in El as <-. }
  destruct Hret as [Hret Hents]. pose proof (mo_retain m Hmod) as Hrs.
  assert (Hsize : Seg.size (v_retain vm) = retain_size m).
  { rewrite Hret. unfold Seg.size, len. cbn. rewrite length_replicate. unfold u_range in Hrs. lia. }
  assert (Hu : u32_or_zero (Seg.size (v_retain vm)) = Seg.size (v_retain vm)).
  { unfold u32_or_zero. rewrite Hsize. unfold u_range in Hrs. by ltb_true by lia. }
  rewrite Hu in Hlay. unfold retain_layout in Hlay. destruct (layout_new _ _) as [l|e|] eqn:Eln; [|by destruct e|done].
  apply Ok_inj in Hlay as ->. apply layout_new_sound in Eln as (Hlok & Hlsz & _); [|by rewrite Hsize|done].
  pose proof (install_shadow_ready vm layout (ac_retain ctx) (rc_force_retain_incompat (ac_config ctx)) Hlok Hlsz
    (ok_retain _ Hvm) ltac:(by rewrite Hsize, Hret) Hview) as Hi. rewrite Hinst in Hi. destruct Hi as (Hsame & Hok' & Hready).
  destruct (entries_for_spec _ _ _ Hes) as [Hlen Hin].
  assert (Hrdy := Hready (mkArmed vm' (mf_id (pp_manifest p)) (mf_compatibility_hash (pp_manifest p)) es pol copies) eq_refl eq_refl).
  split; cbn [pa_program pa_layout ap_vm ap_task_entries ap_retain_copies]; [by eapply vm_ok_retain|done| |..|done].
  - pose proof (sr_copies _ _ _ Hrdy) as Hc. cbn in Hc. rewrite Hc. destruct (ac_retain ctx) as [v|]; [|done]. cbn.
    destruct Hview as [Hv _]. eapply Forall_impl; [by apply copies_fit|]. intros c (?&?&?&_). done.
  - eapply runs_same; [apply retain_same; [exact Hsame|]|].
    { rewrite <-Hlsz. symmetry. apply (sr_size _ _ _ Hrdy). }
    exists m. split; [done|]. split; [done|]. split; [done|]. split; [done|]. eapply Forall_impl; [exact Hin|].
    intros x (name & Hx). by eapply ag_tasks.
Qed.

(** Preparing does not involve the engine. *)
Lemma prepare_not_scan bs ctx x : prepare_arm bs ctx = Err x -> forall y, x <> RScan y.
Proof.
  assert (Hb : forall A B (r : res RuntimeError A) (k : A -> res RuntimeError B), (forall x, r = Err x -> forall y, x <> RScan y) ->
    (forall a x, k a = Err x -> forall y, x <> RScan y) -> forall x, (r ≫= k) = Err x -> forall y, x <> RScan y).
  { intros A B r k Hr Hk z. destruct r; cbn; [apply Hk|by intros [= <-]; apply Hr|done]. }
  assert (Hm : forall E A (f : E -> RuntimeError) (r : res E A), (forall e y, f e <> RScan y) ->
    forall x, map_err f r = Err x -> forall y, x <> RScan y).
  { intros E A f r Hf z. destruct r; cbn; [done|by intros [= <-]|done]. }
  revert x. unfold prepare_arm. apply Hb; [by apply Hm|]. intros p. unfold build_prepared. destruct (negb _); [by intros z [= <-]|].
  apply Hb; [intros z; destruct (head _); [done|by intros [= <-]]|]. intros m. apply Hb.
  { generalize (ac_task_names ctx). intros names. induction names as [|n names IH]; cbn [entries_for]; [done|].
    destruct (entry_get _ n); [|by intros z [= <-]]. apply Hb; [exact IH|done]. }
  intros es. apply Hb; [by apply Hm|]. intros vm. apply Hb; [by apply Hm|]. intros l. apply Hb.
  { unfold install_shadow_retain. destruct (ac_retain ctx) as [v|]; [|done]. apply Hb; [by apply Hm|]. intros mp.
    destruct (load_retain_image _ _ _) as [vm' [u|e|]]; [done|by intros z [= <-]|done]. }
  intros [vm' [rep copies]]. by destruct (resolve_restart _ _) as [[pol hon] down].
Qed.

Lemma prepare_ready bs ctx pa : bytes_ok bs -> opt_ok view_ok (ac_retain ctx) -> prepare_arm bs ctx = Ok pa -> prepared_ok ctx pa.
Proof.
  intros Hb Hv Hp. unfold prepare_arm in Hp. apply res_bind_Ok in Hp as (p & Hval & Hp).
  destruct (validate bs _) as [p'| |] eqn:Ev; [|done..]. apply Ok_inj in Hval as ->.
  destruct (validate_arms _ _ _ Hb Ev) as [m Hm]. by eapply build_ready.
Qed.
(** ** Each call keeps it *)

Lemma sync_id z rt : runtime_ok z rt -> sync_layouts_after_step rt = rt.
Proof.
  intros [_ _ [_ Ha _ _ _]]. unfold sync_layouts_after_step. destruct (en_armed (rt_engine rt)); [done|].
  destruct rt as [e c cl al la ci ai ct ta lu inj sn sq]. cbn in *. destruct al; [done|]. by destruct (en_current_id e).
Qed.

(** What a call leaves alone when it only moves the engine within its epoch. *)
Lemma keep_engine z rt f : runtime_ok z rt -> engine_ok z (f (rt_engine rt)) -> settled (f (rt_engine rt)) ->
  epoch_ok (rt_current_layout rt) (rt_armed_layout rt) (f (rt_engine rt)) -> runtime_ok z (upd_engine f rt).
Proof. by split. Qed.

Lemma keep_context z rt rt' ctx : context_kept rt rt' -> context_ok z rt ctx -> context_ok z rt' ctx.
Proof. intros Hk [Hn Hv Hl Hr]. destruct (Hk Hr) as [K1 K2]. split; [done|done|by rewrite K1|done]. Qed.

Lemma context_same rt rt' : rt_current_layout rt' = rt_current_layout rt -> activate_requested rt' = activate_requested rt -> context_kept rt rt'.
Proof. intros Hl Hr Hn. by rewrite Hl, Hr. Qed.

Lemma publish_same rt : rt_engine (publish_retain_if_dirty rt) = rt_engine rt /\ rt_current_layout (publish_retain_if_dirty rt) = rt_current_layout rt /\ rt_armed_layout (publish_retain_if_dirty rt) = rt_armed_layout rt.
Proof. unfold publish_retain_if_dirty. by repeat case_match. Qed.

Lemma resize_same rt : rt_engine (resize_retain_snapshot rt) = rt_engine rt /\ rt_current_layout (resize_retain_snapshot rt) = rt_current_layout rt /\ rt_armed_layout (resize_retain_snapshot rt) = rt_armed_layout rt.
Proof. unfold resize_retain_snapshot. by repeat case_match. Qed.

Lemma after_step_ok z rt e' : runtime_ok z rt -> engine_ok z e' -> settled e' ->
  moved (rt_current_layout rt) (rt_armed_layout rt) (rt_engine rt) e' ->
  let rt' := after_step (set_engine e' rt) in
  runtime_ok z rt' /\ context_kept rt rt'.
Proof.
  intros Hrt He Hs Hm rt'. unfold after_step in rt'. set (rt1 := sync_layouts_after_step (set_engine e' rt)) in rt'.
  destruct (publish_same rt1) as (P1 & P2 & P3).
  assert (Hr1 : runtime_ok z rt1 /\ context_kept rt rt1).
  { destruct Hm as [[Hep Hreq]|[Hreq (l & Hl & Hep)]].
    - assert (Hr0 : runtime_ok z (set_engine e' rt)) by by split.
      unfold rt1. rewrite (sync_id z) by done. split; [done|]. intros Hn. split; [done|]. by apply Hreq.
    - split; [|intros Hn; unfold activate_requested in Hn; congruence]. unfold rt1, sync_layouts_after_step.
      pose proof (ep_armed _ _ _ Hep) as Ha. pose proof (ep_fits _ _ _ Hep) as Hf. pose proof (ep_id _ _ _ Hep) as Hid.
      cbn [rt_engine set_engine rt_armed_layout]. destruct (en_armed e'); [done|]. destruct (en_vm e'); [|done].
      destruct (en_current_id e'); [|by destruct (Hid ltac:(done))]. rewrite Hl.
      match goal with |- runtime_ok z (resize_retain_snapshot ?x) => destruct (resize_same x) as (R1 & R2 & R3) end.
      split; rewrite ?R1, ?R2, ?R3; done. }
  destruct Hr1 as [[E1 E2 E3] Hc]. split; [split; unfold rt'; rewrite ?P1, ?P2, ?P3; done|].
  intros Hn. destruct (Hc Hn) as [C1 C2]. unfold activate_requested in *. unfold rt'. by rewrite P1, P2.
Qed.

Lemma step_ok_call z rt rt' r (Hclock : forall n, u_range 64 (now_ns_at n)) (Hremote : forall n, Forall plc_ok (remote_at n).1) :
  runtime_ok z rt -> rt_step rt = (rt', r) ->
  match r with
  | Ok _ => runtime_ok z rt' /\ context_kept rt rt'
  | Err _ => False
  | Panic => machine_panicked z (rt_engine rt')
  end.
Proof.
  intros Hrt Hs. unfold rt_step, on_engine, mbind, M_bind in Hs. destruct (step (rt_engine rt)) as [e' re] eqn:Est.
  pose proof Hrt as [He Hset Hep].
  pose proof (safe_step Hclock Hremote z _ He) as Hsafe. rewrite Est in Hsafe.
  destruct re as [o|x|]; cbn [map_err] in Hs; [|by destruct Hsafe|by injection Hs as <- <-].
  destruct Hsafe as [He' _]. injection Hs as <- <-. apply after_step_ok; [done..| |].
  - by eapply step_settled.
  - by eapply moved_step.
Qed.

Lemma run_due_ok_call z fuel rt rt' r (Hclock : forall n, u_range 64 (now_ns_at n)) (Hremote : forall n, Forall plc_ok (remote_at n).1) :
  runtime_ok z rt -> rt_run_due fuel rt = Some (rt', r) ->
  match r with
  | Ok _ => runtime_ok z rt' /\ context_kept rt rt'
  | Err _ => False
  | Panic => machine_panicked z (rt_engine rt')
  end.
Proof.
  intros Hrt Hs. unfold rt_run_due in Hs. apply bind_Some in Hs as ([e' re] & Hrun & Hs). injection Hs as Hs.
  pose proof Hrt as [He Hset Hep]. unfold run_due in Hrun.
  assert (Hm0 : moved (rt_current_layout rt) (rt_armed_layout rt) (rt_engine rt) (apply_mode_boundary (rt_engine rt))) by by apply moved_boundary.
  assert (Hend : match re with Ok _ => engine_ok z e' /\ settled e' /\
      moved (rt_current_layout rt) (rt_armed_layout rt) (rt_engine rt) e' | Err _ => False | Panic => machine_panicked z e' end).
  { pose proof (fun c a H => moved_loop Hclock Hremote z fuel 0 _ e' re c a (ok_boundary z _ He) (boundary_settled _ Hset) H Hrun) as Hl.
    destruct Hm0 as [[Hep0 Hreq]|[_ (l & _ & Hep0)]]; pose proof (Hl _ _ Hep0) as Hl0;
      (destruct re as [a|x|]; [|done..]); destruct Hl0 as (K1 & K2 & K3); (split; [done|]); (split; [done|]);
      (eapply (moved_then _ _ _ (apply_mode_boundary (rt_engine rt))); [by apply moved_boundary|]); intros c ar Hc; by apply Hl. }
  destruct re as [a|x|]; cbn in Hs; injection Hs as <- <-; [|done..]. destruct Hend as (K1 & K2 & K3). by apply after_step_ok.
Qed.
Lemma settled_phase ph e (He : settled (D:=D) e) : ph <> Swapping -> settled (upd_hooks (Hooks.set_phase ph) e).
Proof. intros Hp. destruct He as [Hq _]. split; [exact Hq|]. cbn [en_hooks upd_hooks set_en_hooks]. by rewrite phase_set. Qed.

Lemma settled_request b e (He : settled (D:=D) e) : settled (upd_hooks (Hooks.set_activate_requested b) e).
Proof. destruct He. by split. Qed.

Lemma epoch_hooks cur armed f e : epoch_ok (D:=D) cur armed e -> epoch_ok cur armed (upd_hooks f e).
Proof. by apply epoch_same. Qed.

Lemma epoch_disarmed cur armed e : epoch_ok (D:=D) cur armed e -> epoch_ok cur None (set_en_armed None e).
Proof. intros [E1 _ E3 _ E5]. by split. Qed.

(** An engine that refuses is left as it was. *)
Lemma on_engine_same {A} (m : M (ScanEngine D) ScanError A) rt x : m (rt_engine rt) = (rt_engine rt, x) ->
  on_engine m rt = (rt, map_err RScan x).
Proof. unfold on_engine. intros ->. by destruct rt. Qed.

Lemma arm_cases a (e : ScanEngine D) :
  (exists x, arm a e = (e, Err x) /\ (Hooks.phase (en_hooks e) <> Swapping ->
     length (ap_task_entries a) = length (sp_tasks (en_plan e)) -> x = SImageMismatch)) \/
  (image_matches (ap_vm a) (io_image (en_io e)) = true /\ length (ap_task_entries a) = length (sp_tasks (en_plan e)) /\
   arm a e = (upd_hooks (Hooks.set_activate_requested false) (upd_hooks (Hooks.set_phase Armed)
     (set_en_armed (Some (with_vm (cold_reset_non_retain (ap_vm a)) a)) e)), Ok tt)).
Proof.
  unfold arm. case_decide; [left; by eexists|].
  destruct (Z.eqb_spec (len (ap_task_entries a)) (len (sp_tasks (en_plan e)))) as [Hl|Hl]; cbn [negb].
  2: { left. eexists. split; [done|]. intros _ He. unfold len in Hl. by rewrite He in Hl. }
  destruct (image_matches _ _); [|left; by eexists]. right. split; [done|]. split; [unfold len in Hl; lia|done].
Qed.

Lemma commit_ok z rt ctx p rt' r : runtime_ok z rt -> rv_layout <$> ac_retain ctx = rt_current_layout rt -> prepared_ok ctx p ->
  commit_arm p rt = (rt', r) ->
  match r with
  | Ok _ => runtime_ok z rt' /\ rt_current_layout rt' = rt_current_layout rt /\ activate_requested rt' = false
  | Err x => rt' = rt /\ (rt_phase rt <> Swapping -> length (ac_task_names ctx) = z_tasks z -> x = RScan SImageMismatch)
  | Panic => False
  end.
Proof.
  intros [He Hset Hep] Hlay [Pv Pe Pc Pcode Pr] Hc. unfold commit_arm, m_get, mbind at 1, M_bind at 1 in Hc.
  case_decide as Hph; [by injection Hc as <- <-|]. unfold mbind, M_bind in Hc.
  destruct (arm_cases (pa_program p) (rt_engine rt)) as [(x & Hx & Hwhy)|(Him & Hlen & Harm)].
  { rewrite (on_engine_same _ _ _ Hx) in Hc. injection Hc as <- <-. split; [done|]. intros Hp Hn. f_equal. apply Hwhy; [done|].
    by rewrite Pe, Hn, (eo_plan _ _ He). }
  unfold on_engine in Hc. rewrite Harm in Hc. cbn [map_err m_modify] in Hc. injection Hc as <- <-.
  apply andb_true_iff in Him as [Hi%Z.eqb_eq Hq%Z.eqb_eq]. pose proof (eo_image _ _ He) as Himg.
  assert (Hpk : program_ok z (ap_vm (pa_program p))).
  { split; [done|..]; [rewrite Hi|rewrite Hq]; unfold len; f_equal; apply Himg. }
  split; [|done]. split.
  - cbn [rt_engine set_engine set_last_arm set_armed_tags set_armed_info set_armed_layout]. apply ok_hooks, ok_hooks, ok_set_armed; [done|].
    split; cbn [ap_vm ap_task_entries ap_retain_copies with_vm]; [by apply cold_reset_ok| |done].
    rewrite Hlen. apply (eo_plan _ _ He).
  - cbn [rt_engine set_engine set_last_arm set_armed_tags set_armed_info set_armed_layout].
    apply settled_request, settled_phase; [|done]. by destruct Hset.
  - cbn [rt_engine rt_current_layout rt_armed_layout set_engine set_last_arm set_armed_tags set_armed_info set_armed_layout].
    apply epoch_hooks, epoch_hooks. rewrite <-Hlay in *. destruct Hep as [E1 E2 E3 E4 E5]. split; cbn [en_vm en_armed set_en_armed]; try done.
    + destruct Pr. by split.
    + cbn. eapply runs_same; [apply cold_reset_same|done].
Qed.

Lemma begin_ok z rt rt' r : runtime_ok z rt -> begin_arm rt = (rt', r) ->
  match r with
  | Ok ctx => runtime_ok z rt' /\ context_ok z rt' ctx /\ rt' = upd_engine (upd_hooks (Hooks.set_phase Validating)) rt
  | Err e => rt' = rt /\ exists c, e = RConflict c
  | Panic => False
  end.
Proof.
  intros Hrt Hb. unfold begin_arm in Hb. case_decide; [injection Hb as <- <-; split; [done|by eexists]|].
  destruct (activate_requested rt) eqn:Hreq; [injection Hb as <- <-; split; [done|by eexists]|].
  rewrite (sync_id z) in Hb by done. injection Hb as <- <-. pose proof Hrt as [He Hset Hep].
  assert (Hr1 : runtime_ok z (upd_engine (upd_hooks (Hooks.set_phase Validating)) rt)).
  { apply keep_engine; [done|by apply ok_hooks|by apply settled_phase|by apply epoch_hooks]. }
  split; [done|]. split; [|done]. pose proof (ep_fits _ _ _ Hep) as Hfit. pose proof (eo_vm _ _ He) as Hvm.
  split; cbn [ac_task_names ac_retain rt_current_layout upd_engine set_engine].
  - rewrite length_map. apply (eo_plan _ _ He).
  - unfold snapshot_retain. cbn [rt_current_layout upd_engine set_engine rt_engine en_vm upd_hooks set_en_hooks].
    destruct (rt_current_layout rt) as [l|]; [|done]. cbn [mbind option_bind]. destruct (en_vm (rt_engine rt)) as [vm|]; [|done].
    destruct Hfit as [Hl Hs], Hvm as [Hok _ _]. cbn [opt_ok mbind option_bind]. unfold view_ok. cbn [rv_layout rv_bytes].
    split; [done|]. split; [by rewrite Hs|apply (ok_retain _ Hok)].
  - unfold snapshot_retain. cbn [rt_current_layout upd_engine set_engine rt_engine en_vm upd_hooks set_en_hooks].
    destruct (rt_current_layout rt) as [l|]; [|done]. cbn [mbind option_bind]. by destruct (en_vm (rt_engine rt)).
  - exact Hreq.
Qed.

Lemma phase_of_set ph (rt : Runtime (D := D)) : rt_phase (upd_engine (upd_hooks (Hooks.set_phase ph)) rt) = ph.
Proof. apply phase_set. Qed.

Lemma begin_context rt rt' ctx : begin_arm rt = (rt', Ok ctx) ->
  let rt0 := sync_layouts_after_step rt in
  ctx = mkContext (map tp_name (sp_tasks (en_plan (rt_engine rt0)))) (snapshot_retain rt0) (en_current_hash (rt_engine rt0)) (rt_config rt0).
Proof. unfold begin_arm. case_decide; [done|]. destruct (activate_requested rt); [done|]. by intros [= _ <-]. Qed.

Lemma commit_effect p rt rt' rep : commit_arm p rt = (rt', Ok rep) -> pa_report p = rep /\
  rt' = mkRuntime (upd_hooks (Hooks.set_activate_requested false) (upd_hooks (Hooks.set_phase Armed)
          (set_en_armed (Some (with_vm (cold_reset_non_retain (ap_vm (pa_program p))) (pa_program p))) (rt_engine rt))))
        (rt_config rt) (rt_current_layout rt) (Some (pa_layout p)) (Some rep) (rt_current_info rt) (Some (pa_info p))
        (rt_current_tags rt) (pa_tags p) (rt_last_uploader rt) (rt_input_injector rt) (rt_retain_snap rt) (rt_last_retain_seq rt).
Proof.
  unfold commit_arm, m_get, mbind at 1, M_bind at 1. intros Hc. case_decide; [done|]. unfold mbind, M_bind in Hc.
  destruct (arm_cases (pa_program p) (rt_engine rt)) as [(x & Hx & _)|(_ & _ & Harm)].
  { by rewrite (on_engine_same _ _ _ Hx) in Hc. }
  unfold on_engine in Hc. rewrite Harm in Hc. cbn [map_err m_modify] in Hc. by injection Hc as <- <-.
Qed.

(** The phase once a preparation is given up. *)
Definition resting (rt : Runtime (D := D)) : ProgramPhase := match en_armed (rt_engine rt) with Some _ => Armed | None => Idle end.

Lemma abort_ok z rt : runtime_ok z rt -> runtime_ok z (abort_arm rt) /\ rt_current_layout (abort_arm rt) = rt_current_layout rt /\
  activate_requested (abort_arm rt) = activate_requested rt.
Proof.
  intros Hrt. unfold abort_arm. case_decide; [|done]. split; [|done]. destruct Hrt as [He Hset Hep].
  apply keep_engine; [done|by apply ok_hooks| |by apply epoch_hooks]. apply settled_phase; [done|]. by destruct (en_armed _).
Qed.

Lemma upload_ok z bs rt rt' r : runtime_ok z rt -> bytes_ok bs -> upload bs rt = (rt', r) -> r <> Panic ->
  runtime_ok z rt' /\ context_kept rt rt'.
Proof.
  intros Hrt Hb Hu Hp. unfold upload, mbind at 1, M_bind at 1 in Hu. destruct (begin_arm rt) as [rt1 rb] eqn:Eb.
  pose proof (begin_ok _ _ _ _ Hrt Eb) as Hbeg. destruct rb as [ctx|x|]; [|by destruct Hbeg as [-> _]; injection Hu as <- _|done].
  destruct Hbeg as (Hr1 & Hctx & ->). set (rt1 := upd_engine _ rt) in *.
  destruct (prepare_arm bs ctx) as [p|x|] eqn:Ep; [| |by injection Hu as _ <-].
  - pose proof (commit_ok _ _ _ _ _ _ Hr1 (co_layout _ _ _ Hctx) (prepare_ready _ _ _ Hb (co_view _ _ _ Hctx) Ep) Hu) as Hc.
    destruct r as [rep|x|]; [|by destruct Hc as [-> _]|done]. destruct Hc as (C1 & C2 & C3). split; [done|]. intros _. by rewrite C2, C3.
  - injection Hu as <- _. destruct (abort_ok _ _ Hr1) as (A1 & A2 & A3). split; [done|]. intros Hn. by rewrite A2, A3.
Qed.
(** A call that returns keeps the invariant and any pending context. *)
Definition call_keeps {A} (m : M (Runtime (D := D)) RuntimeError A) : Prop := forall z rt rt' r, runtime_ok z rt -> m rt = (rt', r) ->
  r <> Panic -> runtime_ok z rt' /\ context_kept rt rt'.

Lemma unchanged {A} z (rt : Runtime (D := D)) (x : res RuntimeError A) rt' r : runtime_ok z rt -> (rt, x) = (rt', r) ->
  runtime_ok z rt' /\ context_kept rt rt'.
Proof. intros Hrt [= <- _]. by split. Qed.

Lemma io_keeps z (f : ScanIo D -> ScanIo D) rt : runtime_ok z rt -> io_image (f (en_io (rt_engine rt))) = io_image (en_io (rt_engine rt)) ->
  driver_ok (io_driver (f (en_io (rt_engine rt)))) -> runtime_ok z (upd_engine (upd_io f) rt).
Proof.
  intros [He Hset Hep] Hi Hd. apply keep_engine; [done|..].
  - destruct He as [? ? ? Him]. split; try done. cbn. by rewrite Hi.
  - by destruct Hset.
  - by apply (epoch_same _ _ (rt_engine rt)).
Qed.

Lemma disarm_keeps : call_keeps rt_disarm.
Proof.
  intros z rt rt' r Hrt Hd _. unfold rt_disarm, mbind, M_bind, on_engine, disarm in Hd.
  case_decide; [cbn in Hd; by destruct rt; eapply unchanged|]. cbn [map_err m_modify] in Hd. injection Hd as <- _.
  destruct Hrt as [He Hset Hep]. split; [|done]. split.
  - cbn [rt_engine set_engine set_last_uploader set_last_arm set_armed_tags set_armed_info set_armed_layout]. by apply ok_hooks, ok_hooks, ok_set_armed.
  - cbn [rt_engine set_engine set_last_uploader set_last_arm set_armed_tags set_armed_info set_armed_layout].
    apply settled_phase; [|done]. apply settled_request. by destruct Hset.
  - cbn [rt_engine rt_current_layout rt_armed_layout set_engine set_last_uploader set_last_arm set_armed_tags set_armed_info set_armed_layout].
    by eapply epoch_hooks, epoch_hooks, epoch_disarmed.
Qed.

Lemma activate_ok z rt rt' r : runtime_ok z rt -> activate rt = (rt', r) -> r <> Panic -> runtime_ok z rt'.
Proof.
  intros Hrt Ha _. unfold activate, mbind, M_bind, on_engine, request_activate in Ha.
  case_decide; [cbn in Ha; injection Ha as <- _; by destruct rt|].
  destruct (en_armed (rt_engine rt)) as [a|] eqn:Earm; [|cbn in Ha; injection Ha as <- _; by destruct rt].
  destruct Hrt as [He Hset Hep]. destruct (_ && _); cbn [map_err m_modify] in Ha; injection Ha as <- _.
  - split.
    + cbn [rt_engine set_engine set_last_arm set_armed_tags set_armed_info set_armed_layout]. by apply ok_hooks, ok_hooks, ok_set_armed.
    + cbn [rt_engine set_engine set_last_arm set_armed_tags set_armed_info set_armed_layout].
      apply settled_phase; [|done]. apply settled_request. by destruct Hset.
    + cbn [rt_engine rt_current_layout rt_armed_layout set_engine set_last_arm set_armed_tags set_armed_info set_armed_layout].
      by eapply epoch_hooks, epoch_hooks, epoch_disarmed.
  - split; cbn [rt_engine rt_current_layout rt_armed_layout set_engine]; [by apply ok_hooks|by apply settled_request|by apply epoch_hooks].
Qed.

Lemma force_keeps name v : call_keeps (force_tag name v).
Proof.
  intros z rt rt' r Hrt Hf _. unfold force_tag in Hf. destruct (lookup_tag rt name) as [[[k slot] ty]|x|]; [|by eapply unchanged..].
  destruct (negb _); [by eapply unchanged|]. destruct (negb _); [by eapply unchanged|]. injection Hf as <- _.
  split; [|done]. apply io_keeps; [done..|]. apply (eo_driver _ _ (ro_engine _ _ Hrt)).
Qed.

Lemma clear_force_keeps name : call_keeps (clear_force name).
Proof.
  intros z rt rt' r Hrt Hf _. unfold clear_force in Hf. destruct (lookup_tag rt name) as [[[k slot] ty]|x|]; [|by eapply unchanged..].
  destruct (negb _); [by eapply unchanged|]. injection Hf as <- _.
  split; [|done]. apply io_keeps; [done..|]. apply (eo_driver _ _ (ro_engine _ _ Hrt)).
Qed.

Lemma injector_keeps z f rt rt' r : runtime_ok z rt -> driver_ok (f (io_driver (en_io (rt_engine rt)))).1 -> on_injector f rt = (rt', r) ->
  runtime_ok z rt' /\ context_kept rt rt'.
Proof.
  intros Hrt Hd Hi. unfold on_injector in Hi. destruct (f _) as [d x]. injection Hi as <- _. split; [|done]. by apply io_keeps.
Qed.

Lemma inject_keeps name v : plc_ok v -> call_keeps (inject_input name v).
Proof.
  intros Hv z rt rt' r Hrt Hf _. unfold inject_input in Hf. do 2 (destruct (negb _); [by eapply unchanged|]).
  destruct (lookup_tag rt name) as [[[k slot] ty]|x|]; [|by eapply unchanged..].
  do 2 (destruct (negb _); [by eapply unchanged|]). eapply injector_keeps; [done| |exact Hf].
  apply inject_law; [|done]. apply (eo_driver _ _ (ro_engine _ _ Hrt)).
Qed.

Lemma inject_quality_keeps name q : call_keeps (inject_input_quality name q).
Proof.
  intros z rt rt' r Hrt Hf _. unfold inject_input_quality in Hf. do 2 (destruct (negb _); [by eapply unchanged|]).
  destruct (lookup_tag rt name) as [[[k slot] ty]|x|]; [|by eapply unchanged..].
  destruct (negb _); [by eapply unchanged|]. eapply injector_keeps; [done| |exact Hf].
  apply inject_quality_law. apply (eo_driver _ _ (ro_engine _ _ Hrt)).
Qed.

Lemma load_retain_keeps bs : bytes_ok bs -> call_keeps (rt_load_retain_image bs).
Proof.
  intros Hb z rt rt' r Hrt Hl _. unfold rt_load_retain_image in Hl. destruct (rt_current_layout rt) as [l|] eqn:El; [|by eapply unchanged].
  destruct (en_vm (rt_engine rt)) as [vm|] eqn:Ev; [|by eapply unchanged]. destruct (load_retain_image bs l vm) as [vm' x] eqn:Eload.
  injection Hl as <- _. pose proof Hrt as [He Hset Hep]. pose proof (ep_fits _ _ _ Hep) as Hfit. rewrite El, Ev in Hfit.
  destruct Hfit as [Hlok Hsz]. pose proof (eo_vm _ _ He) as Hvm. rewrite Ev in Hvm. cbn in Hvm.
  assert (Hnew : same_but_retain vm vm' /\ Seg.ok (v_retain vm') /\ Seg.size (v_retain vm') = Seg.size (v_retain vm)).
  { unfold load_retain_image, m_get, mbind, M_bind in Eload. pose proof (ok_retain _ (pk_vm _ _ Hvm)) as Hok.
    destruct (Z.eqb_spec (len bs) (Seg.size (v_retain vm))) as [Hlen|]; [|by injection Eload as <- _]. cbn [negb] in Eload.
    destruct (negb _); [by injection Eload as <- _|].
    destruct (load_symbols_spec bs (l_symbols l)) with (vm := vm) as (vm1 & Hload & Hs & Hok' & Hw).
    { by destruct Hlok. }
    { apply Forall_forall. intros s _. by apply slice_ok. }
    { destruct Hlok as [_ _ _ [_ _ Hf _]]. rewrite Hlen, <-Hsz. done. }
    { by apply layout_ord. }
    { done. }
    { done. }
    rewrite Hload in Eload. injection Eload as <- _. split; [done|]. split; [done|]. unfold Seg.size. by rewrite (wr_len _ _ _ Hw). }
  destruct Hnew as (Hs & Hok' & Hsize). split; [|done]. apply keep_engine; [done|..].
  - apply ok_set_vm; [done|]. cbn. destruct Hvm as [V1 V2 V3]. pose proof (retain_same _ _ Hs Hsize) as [_ _ _ _ M1 _ M2].
    split; [by eapply vm_ok_retain|congruence|congruence].
  - by destruct Hset.
  - apply (epoch_same _ _ (rt_engine rt)); [|done..]. cbn. rewrite Ev. constructor. by apply retain_same.
Qed.

Lemma mode_keeps z q rt : runtime_ok z rt -> runtime_ok z (upd_engine (request_mode q) rt).
Proof. intros [He Hset Hep]. apply keep_engine; [done|by apply ok_modes|by destruct Hset|by apply (epoch_same _ _ (rt_engine rt))]. Qed.

(** One call of a session that is well-formed. *)
Lemma returned_ok {A} z s (x : Runtime (D := D) * res RuntimeError A) s' : session_ok z s -> returned (ss_pending s) x = Some s' ->
  (x.2 <> Panic -> runtime_ok z x.1 /\ context_kept (ss_runtime s) x.1) -> session_ok z s'.
Proof.
  intros [Hrt Hc] Hr Hx. destruct x as [rt' r]. assert (r <> Panic /\ s' = mkSession rt' (ss_pending s)) as [Hp ->]
    by (destruct r; cbn in Hr; [by injection Hr as <-|by injection Hr as <-|done]).
  destruct (Hx Hp) as [K1 K2]. split; [done|]. cbn [ss_pending ss_runtime]. destruct (ss_pending s) as [ctx|]; [|done].
  by eapply keep_context.
Qed.

Lemma call_session_ok z c s s' (Hclock : forall n, u_range 64 (now_ns_at n)) (Hremote : forall n, Forall plc_ok (remote_at n).1) :
  session_ok z s -> call_ok c -> call c s = Some s' -> session_ok z s'.
Proof.
  intros Hs Hc Hcall. pose proof Hs as [Hrt Hctx]. destruct s as [rt pending]. cbn [ss_runtime ss_pending] in *.
  assert (Hkeep : forall A (m : M (Runtime (D := D)) RuntimeError A), call_keeps m -> returned pending (m rt) = Some s' -> session_ok z s').
  { intros A m Hm Hr. eapply (returned_ok z (mkSession rt pending)); [done|exact Hr|]. intros Hp. destruct (m rt) as [rt' r] eqn:Em.
    by eapply Hm. }
  assert (Hsame : forall rt', runtime_ok z rt' -> context_kept rt rt' ->
    Some (mkSession rt' pending) = Some s' -> session_ok z s').
  { intros rt' K1 K2 [= <-]. split; [done|]. cbn. destruct pending as [ctx|]; [|done]. by eapply keep_context. }
  destruct c; cbn [call call_ok ss_runtime ss_pending] in *.
  - eapply (returned_ok z (mkSession rt pending)); [done|exact Hcall|]. intros Hp. destruct (upload bs rt) as [rt' r] eqn:E. by eapply upload_ok.
  - destruct pending as [ctx|]; [by injection Hcall as <-|]. destruct (begin_arm rt) as [rt' r] eqn:E.
    pose proof (begin_ok _ _ _ _ Hrt E) as Hb. destruct r as [ctx|x|]; [|destruct Hb as [-> _]|done]; injection Hcall as <-; [|done].
    destruct Hb as (K1 & K2 & _). by split.
  - destruct pending as [ctx|]; [|by injection Hcall as <-]. cbn in Hctx. destruct (prepare_arm bs ctx) as [p|x|] eqn:Ep; [| |done].
    + destruct (commit_arm p rt) as [rt' r] eqn:E.
      pose proof (commit_ok _ _ _ _ _ _ Hrt (co_layout _ _ _ Hctx) (prepare_ready _ _ _ Hc (co_view _ _ _ Hctx) Ep) E) as Hk.
      destruct r as [rep|x|]; [|destruct Hk as [-> _]|done]; injection Hcall as <-; (split; [|done]); [apply Hk|by apply abort_ok].
    + injection Hcall as <-. split; [by apply abort_ok|done].
  - apply (Hsame (set_uploader principal rt)); [by destruct Hrt|by apply context_same|done].
  - by eapply Hkeep; [apply disarm_keeps|].
  - destruct pending as [ctx|]; [by injection Hcall as <-|]. destruct (activate rt) as [rt' r] eqn:E.
    destruct r; [injection Hcall as <-|injection Hcall as <-|done]; (split; [by eapply activate_ok|done]).
  - eapply (returned_ok z (mkSession rt pending)); [done|exact Hcall|]. intros Hp. destruct (rt_step rt) as [rt' r] eqn:E.
    pose proof (step_ok_call z _ _ _ Hclock Hremote Hrt E) as Hk. by destruct r.
  - apply bind_Some in Hcall as ([rt' r] & E & Hcall).
    eapply (returned_ok z (mkSession rt pending)); [done|exact Hcall|]. intros Hp.
    pose proof (run_due_ok_call z _ _ _ _ Hclock Hremote Hrt E) as Hk. by destruct r.
  - apply (Hsame (upd_engine (request_mode r) rt)); [by apply mode_keeps|by apply context_same|done].
  - by eapply Hkeep; [apply force_keeps|].
  - by eapply Hkeep; [apply clear_force_keeps|].
  - apply (Hsame (set_injector rt)); [by destruct Hrt|by apply context_same|done].
  - by eapply Hkeep; [by apply inject_keeps|].
  - by eapply Hkeep; [apply inject_quality_keeps|].
  - apply (Hsame (set_config cfg rt)); [by destruct Hrt|by apply context_same|done].
  - by eapply Hkeep; [by apply load_retain_keeps|].
Qed.
(** ** Sessions *)

Definition sizes_of (plan : ScanPlan) (io : ScanIo D) : Sizes :=
  mkSizes (length (sp_tasks plan)) (length (pi_inputs (io_image io))) (length (pi_outputs (io_image io))).

(** [s] is where the calls [cs] lead from a new runtime. *)
Definition reached (plan : ScanPlan) (io : ScanIo D) (cfg : RuntimeConfig) (cs : list Call) (s : LoaderSession) : Prop :=
  exists rt, rt_new plan io cfg = Ok rt /\ calls cs (mkSession rt None) = Some s.

Lemma new_session_ok plan io cfg rt : driver_ok (io_driver io) -> Forall (fun s => plc_ok (ts_value s)) (pi_inputs (io_image io)) ->
  rt_new plan io cfg = Ok rt -> session_ok (sizes_of plan io) (mkSession rt None).
Proof.
  intros Hd Hi Hn. unfold rt_new in Hn. destruct (engine_new plan io None) as [e| |] eqn:En; [|done..].
  cbn [map_err mbind res_bind] in Hn. apply Ok_inj in Hn as <-.
  assert (Hempty : en_vm e = None /\ en_armed e = None).
  { unfold engine_new, engine_build in En. destruct (start _) as [d [| |]]; [|done..]. by apply Ok_inj in En as <-. }
  destruct (engine_new_ok plan io None e Hd Hi I En) as [He Hset]. destruct Hempty as [Ev Ea].
  split; [|done]. split; cbn [ss_runtime rt_engine rt_current_layout rt_armed_layout]; [done..|].
  split; rewrite ?Ev, ?Ea; done.
Qed.

Lemma calls_session_ok z cs s s' (Hclock : forall n, u_range 64 (now_ns_at n)) (Hremote : forall n, Forall plc_ok (remote_at n).1) :
  session_ok z s -> Forall call_ok cs -> calls cs s = Some s' -> session_ok z s'.
Proof.
  intros Hs Hcs. revert s Hs. induction Hcs as [|c cs Hc _ IH]; intros s Hs Hr; cbn [calls] in Hr; [by injection Hr as <-|].
  apply bind_Some in Hr as (s1 & Hc1 & Hr). eapply IH; [|exact Hr]. by eapply call_session_ok.
Qed.

(** Any number of completed turns of the scan loop. *)
Inductive turns : ScanEngine D -> ScanEngine D -> Prop :=
  | turns_nil e : turns e e
  | turns_cons e e1 e2 o : due_turn e = (e1, Ok o) -> turns e1 e2 -> turns e e2.

Lemma turns_moved z e e' (Hclock : forall n, u_range 64 (now_ns_at n)) (Hremote : forall n, Forall plc_ok (remote_at n).1) :
  turns e e' -> engine_ok z e -> engine_ok z e' /\ forall cur armed, epoch_ok cur armed e -> moved cur armed e e'.
Proof.
  induction 1 as [e|e e1 e2 o Ht _ IH]; intros He; [split; [done|by left]|].
  pose proof (safe_turn Hclock Hremote z e He) as Hs. rewrite Ht in Hs. destruct Hs as [He1 _]. destruct (IH He1) as [He2 Hm].
  split; [done|]. intros cur armed Hep. eapply moved_then; [by eapply moved_turn|done].
Qed.

(** ** Properties *)

Section Reached.
Context (plan : ScanPlan) (io : ScanIo D) (cfg : RuntimeConfig) (cs : list Call) (s : LoaderSession).
Context (Hclock : forall n, u_range 64 (now_ns_at n)) (Hremote : forall n, Forall plc_ok (remote_at n).1).
Context (Hdriver : driver_ok (io_driver io)) (Hinputs : Forall (fun s => plc_ok (ts_value s)) (pi_inputs (io_image io))).
Context (Hcs : Forall call_ok cs) (Hreached : reached plan io cfg cs s).

Lemma reached_ok : session_ok (sizes_of plan io) s.
Proof using All. destruct Hreached as (rt & Hn & Hc). eapply calls_session_ok; [done|done|by eapply new_session_ok|done|exact Hc]. Qed.

(** C5: a hot swap keeps the retained values. Whatever packages were uploaded, armed, disarmed and
    activated before, in whatever order with forces, injections, mode changes and scans, and with a
    package's preparation in progress beside them: an attempt of the scan loop to swap never
    faults on its copies, and when it installs the armed program, each symbol of the new
    layout holds the bytes that the symbol of the same name and type of the running program held
    at that moment, and each other symbol is zero. *)
Theorem swap_keeps_retain (e e' : ScanEngine D) (o : InstallOutcome)
    (Hturns : turns (apply_mode_boundary (rt_engine (ss_runtime s))) e) (Hswap : try_epoch_install e = (e', Ok o)) :
  o <> Faulted /\
  (o = Installed -> exists l vm, rt_armed_layout (ss_runtime s) = Some l /\ en_vm e' = Some vm /\
     l_retain_size l = Seg.size (v_retain vm) /\
     forall x, x ∈ l_symbols l ->
       (forall old cur y, rt_current_layout (ss_runtime s) = Some old -> en_vm e = Some cur ->
          y ∈ l_symbols old -> sym_name y = sym_name x -> sym_ty y = sym_ty x ->
          zslice (s_bytes (v_retain vm)) (sym_offset x) (sym_width x) = zslice (s_bytes (v_retain cur)) (sym_offset y) (sym_width y)) /\
       ((forall old y, rt_current_layout (ss_runtime s) = Some old -> y ∈ l_symbols old -> sym_name y = sym_name x -> sym_ty y <> sym_ty x) ->
          zslice (s_bytes (v_retain vm)) (sym_offset x) (sym_width x) = replicate (IrTy.byte_width (sym_ty x)) 0)).
Proof.
  destruct reached_ok as [[He Hset Hep] _]. set (rt := ss_runtime s) in *.
  destruct (turns_moved (sizes_of plan io) _ _ Hclock Hremote Hturns (ok_boundary _ _ He)) as [He1 Hm].
  assert (Hm1 : moved (rt_current_layout rt) (rt_armed_layout rt) (rt_engine rt) e).
  { eapply moved_then; [by apply moved_boundary|exact Hm]. }
  assert (Hep1 : exists c a, epoch_ok c a e /\ (a = None \/ c = rt_current_layout rt /\ a = rt_armed_layout rt)).
  { destruct Hm1 as [[Hk _]|[_ (l & _ & Hk)]]; [by exists (rt_current_layout rt), (rt_armed_layout rt); auto|by exists (Some l), None; auto]. }
  destruct Hep1 as (c & a & Hep1 & Hca). pose proof (epoch_install c a _ _ _ _ He1 Hep1 Hswap) as Hi.
  split; [by intros ->|]. intros ->. destruct Hi as (_ & l & vm & -> & Hvm & Hep2 & Hval).
  destruct Hca as [|[-> Ha]]; [done|]. exists l, vm. split; [done|]. split; [done|].
  pose proof (ep_fits _ _ _ Hep2) as Hf. rewrite Hvm in Hf. destruct Hf as [Hl Hsz]. split; [done|].
  pose proof (ep_fits _ _ _ Hep1) as Hfit. intros x Hx. specialize (Hval x Hx). unfold retained_value in Hval. fold (value_at (s_bytes (v_retain vm)) x).
  split.
  - intros old cur y Ho Hc Hy Hn Hty. rewrite Ho, Hc in *. destruct Hfit as [Hol _].
    assert (Hcar : carried (Some old) x = Some y) by by apply carried_Some. by rewrite Hcar in Hval.
  - intros Hno. destruct (carried _ x) as [y|] eqn:Ec; [|done]. destruct (rt_current_layout rt) as [old|]; [|done].
    destruct (en_vm e) as [cur|]; [|done]. destruct Hfit as [Hol _]. apply carried_Some in Ec as (Hy & Hn & Hty); [|done].
    by destruct (Hno old y eq_refl Hy Hn).
Qed.

(** C6: only verified code runs. However the runtime was used, the current machine runs a module that the
    bytecode verifier accepts, each task of the plan names an entry of it, and running that
    entry returns, with the machine still well-formed: without an error and with no call open,
    in an error that verified code may meet, or in a panic, which it only does when the run
    has got to the division of the least DINT, TIME or LINT by -1. *)
Theorem reached_runs_verified (vm : Vm) (name : bytes) (now : Z)
    (Hvm : en_vm (rt_engine (ss_runtime s)) = Some vm) (Hname : name ∈ plan_entries (rt_engine (ss_runtime s)))
    (Hnow : u_range 64 now) :
  exists m vm' r, verify_module m = Ok tt /\ runs_module m vm /\ run_entry now name vm = Some (vm', r) /\ vm_ok vm' /\ runs_module m vm' /\
    match r with
    | Err x => allowed x
    | Ok _ => v_fp vm' = 0%nat
    | Panic => exists pc, entry_pc vm name = Ok pc /\ run_overflows now pc vm
    end.
Proof.
  destruct reached_ok as [[He Hset Hep] _]. pose proof (ep_code _ _ _ Hep) as Hcode. pose proof (eo_vm _ _ He) as Hok.
  rewrite Hvm in Hcode, Hok. destruct Hcode as (m & Hm & Hver & Hruns & Hents & Hnames), Hok as [Hvok _ _].
  rewrite Forall_forall in Hnames. destruct (Hnames name Hname) as (en & Hen & Hn).
  assert (Hpc : exists e, e ∈ entries m /\ entry_pc vm name = Ok (e_pc e)).
  { unfold entry_pc. rewrite Hents. destruct (find _ _) as [x|] eqn:Ef.
    - apply find_some in Ef as [Hin _]. apply in_map_iff in Hin as (e1 & <- & Hin). exists e1. split; [by apply list_elem_of_In|done].
    - exfalso. pose proof (find_none _ _ Ef (e_name en, e_pc en, e_is_user_fb en)) as Hf. cbn in Hf. rewrite Hn, bool_decide_eq_true_2 in Hf by done.
      assert (true = false); [|done]. apply Hf. apply in_map_iff. exists en. split; [by rewrite Hn|by apply list_elem_of_In]. }
  destruct Hpc as (e1 & Hin & Hpc). destruct (run_entry_safe now name vm Hnow Hvok) as (vm' & r & Hrun & _ & _ & Hpan).
  pose proof Hrun as Hat. unfold run_entry in Hat. rewrite Hpc in Hat.
  destruct (verified_run m vm vm' e1 now r Hm Hver Hin Hvok Hruns Hnow Hat) as (Hr & Hvok2 & Hruns2).
  exists m, vm', r. repeat (split; [done|]). destruct r as [[]|x|]; [apply Hr..|by apply Hpan].
Qed.

(** C7: what an upload changes. A successful one replaces the armed program, with its layout, tags and
    identity, reports it and asks for nothing: the running program, its layout, the plan, the
    image, the forces, the driver and the mode are as they were. A failed one changes nothing but
    the phase: refused while a swap is pending or under way it leaves even that; when the package does
    not validate, load or map, the phase is again what the armed program says; and when the engine
    refuses the program, which it only does because its images do not fit, the phase stays at
    validating. *)
Theorem upload_effect (bs : bytes) (rt' : Runtime (D := D)) (r : res RuntimeError ArmReport)
    (Hbytes : bytes_ok bs) (Hup : upload bs (ss_runtime s) = (rt', r)) (Hnopanic : r <> Panic) :
  let rt := ss_runtime s in
  match r with
  | Ok rep =>
      exists p, prepare_arm bs (mkContext (map tp_name (sp_tasks (en_plan (rt_engine rt)))) (snapshot_retain rt)
                  (en_current_hash (rt_engine rt)) (rt_config rt)) = Ok p /\ pa_report p = rep /\
      let armed := with_vm (cold_reset_non_retain (ap_vm (pa_program p))) (pa_program p) in
      rt' = mkRuntime (upd_hooks (Hooks.set_activate_requested false)
              (upd_hooks (Hooks.set_phase Armed) (set_en_armed (Some armed) (rt_engine rt))))
            (rt_config rt) (rt_current_layout rt) (Some (pa_layout p)) (Some rep) (rt_current_info rt) (Some (pa_info p))
            (rt_current_tags rt) (pa_tags p) (rt_last_uploader rt) (rt_input_injector rt) (rt_retain_snap rt) (rt_last_retain_seq rt)
  | Err x =>
      (rt' = rt /\ exists c, x = RConflict c) \/
      (rt' = upd_engine (upd_hooks (Hooks.set_phase (resting rt))) rt /\ exists ctx, prepare_arm bs ctx = Err x) \/
      (rt' = upd_engine (upd_hooks (Hooks.set_phase Validating)) rt /\ x = RScan SImageMismatch)
  | Panic => False
  end.
Proof.
  intros rt. destruct reached_ok as [Hrt _]. fold rt in Hrt, Hup.
  unfold upload, mbind at 1, M_bind at 1 in Hup. destruct (begin_arm rt) as [rt1 rb] eqn:Eb.
  pose proof (begin_ok _ _ _ _ Hrt Eb) as Hbeg. destruct rb as [ctx|c|]; [|destruct Hbeg as [-> Hc]; injection Hup as <- <-; by left|done].
  destruct Hbeg as (Hr1 & Hctx & ->). pose proof (begin_context _ _ _ Eb) as Hcx. rewrite (sync_id _ _ Hrt) in Hcx.
  destruct (prepare_arm bs ctx) as [p|c|] eqn:Ep; [| |by injection Hup as _ <-].
  - destruct r as [rep|x|]; [| |done].
    + exists p. split; [by rewrite <-Hcx|]. by apply commit_effect in Hup as [<- ->].
    + right; right. pose proof (commit_ok _ _ _ _ _ _ Hr1 (co_layout _ _ _ Hctx) (prepare_ready _ _ _ Hbytes (co_view _ _ _ Hctx) Ep) Hup) as [-> Hwhy].
      split; [done|]. apply Hwhy; [|apply (co_names _ _ _ Hctx)]. by rewrite phase_of_set.
  - injection Hup as <- <-. right; left. split; [|by exists ctx]. unfold abort_arm. by rewrite phase_of_set, decide_True by done.
Qed.
End Reached.
End Calls.

(** ** A line that is upgraded *)

Definition line_plan : ScanPlan :=
  mkScanPlan [mkTaskPlan (bstr "main") 10 (bstr "boot") 5] 2 PolicySafe false true 500 20 16.

(** [n] inputs and one output, simulated. *)
Definition line_io (n : nat) : ScanIo SharedSim :=
  mkIo (with_sizes n 1 1) (Shared.new n 1) false ∅ Good ForceSafe None.

(** Each reading of the clock takes 6 ms. *)
Definition line_env : ScanEnv :=
  {| now_ns_at n := Z.min (Z.of_nat n * 6000000) (2 ^ 64 - 1); contended_at _ := false;
     received_at _ := 0%nat; remote_at _ := ([], []) |}.

Section Line.
#[local] Existing Instance line_env.
#[local] Existing Instance compact_json.
#[local] Existing Instance sample_semver.
#[local] Existing Instance sample_ed25519.
#[local] Existing Instance sample_sha.

Definition line_cfg : RuntimeConfig := mkRtConfig true [7] false.

Definition line_run (n : nat) (cs : list Call) : option (LoaderSession (D := SharedSim)) :=
  match rt_new line_plan (line_io n) line_cfg with Ok rt => calls cs (mkSession rt None) | _ => None end.

(** The sample package with another symbol before [Line.Hours]. *)
Definition next_manifest : Manifest := mkManifest (bstr "plant-line-b") (bstr "1.1.0") (bstr "b2") 0 1 1
  [(bstr "main", bstr "task.main")] [mkRetainSym (bstr "Line.Count") TInt 0; mkRetainSym (bstr "Line.Hours") TDint 4]
  [mkTag (bstr "Q.A") TBool TkQ (Some 0)] RpSafeReset [] (Some 1) None None (Some 8) None.

Definition next_package : bytes :=
  match (b ← section_module sample_pkg_module (builder_new next_manifest); to_bytes (builder_sign 7 b)) with
  | Ok bs => bs
  | _ => []
  end.

Definition upgrade : list Call :=
  [CallUpload (sample_package true); CallActivate; CallStep; CallLoadRetain [1; 2; 3; 4; 9; 9; 9; 9];
   CallUpload next_package; CallActivate].

Lemma next_package_ok : bytes_ok next_package.
Proof. apply bytes_checked. vm_compute. reflexivity. Qed.

Lemma upgrade_ok : Forall call_ok upgrade.
Proof.
  unfold upgrade. do 3 (constructor; [first [exact I|exact (sample_package_ok true)]|]). constructor; [cbn; by repeat constructor|].
  constructor; [exact next_package_ok|]. constructor; [exact I|constructor].
Qed.

Lemma line_clock n : u_range 64 (now_ns_at n).
Proof. unfold u_range. cbn [now_ns_at line_env]. lia. Qed.

Lemma line_inputs n : Forall (fun s => plc_ok (ts_value s)) (pi_inputs (io_image (line_io n))).
Proof. by apply Forall_replicate. Qed.

Lemma line_driver n : driver_ok (io_driver (line_io n)).
Proof. cbn. by apply Forall_replicate. Qed.

Lemma line_reached n cs s : line_run n cs = Some s -> reached line_plan (line_io n) line_cfg cs s.
Proof. unfold line_run, reached. destruct (rt_new _ _ _) as [rt| |]; [|done..]. intros Hc. by exists rt. Qed.

Definition hours (off : Z) : RetainSymbol := {| sym_name := bstr "Line.Hours"; sym_ty := TDint; sym_offset := off |}.
Definition count : RetainSymbol := {| sym_name := bstr "Line.Count"; sym_ty := TInt; sym_offset := 0 |}.

(** After the upgrade: the next attempt installs, and this is what it finds. *)
Lemma upgrade_state : exists s, line_run 1 upgrade = Some s /\
  (try_epoch_install (apply_mode_boundary (rt_engine (ss_runtime s)))).2 = Ok Installed /\
  rt_current_layout (ss_runtime s) = Some {| l_retain_size := 8; l_symbols := [hours 0] |} /\
  rt_armed_layout (ss_runtime s) = Some {| l_retain_size := 8; l_symbols := [count; hours 4] |} /\
  (fun vm => s_bytes (v_retain vm)) <$> en_vm (apply_mode_boundary (rt_engine (ss_runtime s))) = Some [1; 2; 3; 4; 0; 0; 0; 0].
Proof.
  assert (H : (fun s : LoaderSession (D := SharedSim) => ((try_epoch_install (apply_mode_boundary (rt_engine (ss_runtime s)))).2,
      rt_current_layout (ss_runtime s), rt_armed_layout (ss_runtime s),
      (fun vm => s_bytes (v_retain vm)) <$> en_vm (apply_mode_boundary (rt_engine (ss_runtime s))))) <$> line_run 1 upgrade =
    Some (Ok Installed, Some {| l_retain_size := 8; l_symbols := [hours 0] |},
      Some {| l_retain_size := 8; l_symbols := [count; hours 4] |}, Some [1; 2; 3; 4; 0; 0; 0; 0])) by (vm_compute; reflexivity).
  destruct (line_run 1 upgrade) as [s|]; [|done]. exists s. split; [done|]. by injection H as -> -> -> ->.
Qed.

Lemma swap_keeps_retain_witness : exists s e' vm, reached line_plan (line_io 1) line_cfg upgrade s /\
  try_epoch_install (apply_mode_boundary (rt_engine (ss_runtime s))) = (e', Ok Installed) /\ en_vm e' = Some vm /\
  zslice (s_bytes (v_retain vm)) 4 4 = [1; 2; 3; 4] /\ zslice (s_bytes (v_retain vm)) 0 2 = [0; 0].
Proof.
  destruct upgrade_state as (s & Hs & Hi & Hcur & Harm & Hb). apply line_reached in Hs.
  destruct (try_epoch_install (apply_mode_boundary (rt_engine (ss_runtime s)))) as [e' o] eqn:Et. cbn in Hi. subst o.
  destruct (en_vm (apply_mode_boundary (rt_engine (ss_runtime s)))) as [cur|] eqn:Ecur; [|discriminate Hb]. injection Hb as Hb.
  destruct (swap_keeps_retain line_plan (line_io 1) line_cfg upgrade s line_clock ltac:(intros n; constructor) (line_driver 1) (line_inputs 1)
    upgrade_ok Hs _ e' Installed (turns_nil _) Et) as [_ Hk]. destruct (Hk eq_refl) as (l & vm & Hl & Hvm & _ & Hv).
  rewrite Harm in Hl. injection Hl as <-. exists s, e', vm. split; [exact Hs|]. split; [exact Et|]. split; [exact Hvm|]. split.
  - destruct (Hv (hours 4)) as [Hkeep _]; [right; left|].
    etrans; [exact (Hkeep _ cur (hours 0) Hcur Ecur ltac:(left) eq_refl eq_refl)|]. rewrite Hb. reflexivity.
  - destruct (Hv count) as [_ Hzero]; [left|]. apply Hzero. intros old y Ho Hy Hn. rewrite Hcur in Ho. injection Ho as <-.
    apply list_elem_of_singleton in Hy as ->. discriminate Hn.
Defined.

Lemma reached_runs_verified_witness : exists s vm, reached line_plan (line_io 1) line_cfg upgrade s /\
  en_vm (rt_engine (ss_runtime s)) = Some vm /\ exists m vm' r, verify_module m = Ok tt /\ run_entry 5 (bstr "task.main") vm = Some (vm', r) /\ vm_ok vm'.
Proof.
  assert (H : (fun s : LoaderSession (D := SharedSim) => (bool_decide (en_vm (rt_engine (ss_runtime s)) = None), plan_entries (rt_engine (ss_runtime s)))) <$>
    line_run 1 upgrade = Some (false, [bstr "task.main"])) by (vm_compute; reflexivity).
  destruct (line_run 1 upgrade) as [s|] eqn:Es; [|discriminate H]. injection H as Hne Hent. apply line_reached in Es.
  destruct (en_vm (rt_engine (ss_runtime s))) as [vm|] eqn:Ev; [|discriminate Hne].
  destruct (reached_runs_verified line_plan (line_io 1) line_cfg upgrade s line_clock ltac:(intros n; constructor) (line_driver 1) (line_inputs 1)
    upgrade_ok Es vm (bstr "task.main") 5 Ev) as (m & vm' & r & H1 & _ & H3 & H4 & _).
  - rewrite Hent. left.
  - by vm_compute.
  - exists s, vm. split; [exact Es|]. split; [exact Ev|]. exists m, vm', r. by split.
Defined.

(** A second input that the program does not have. *)
Lemma upload_effect_witness : exists s rt', reached line_plan (line_io 2) line_cfg [] s /\
  upload (sample_package true) (ss_runtime s) = (rt', Err (RScan SImageMismatch)) /\ rt_phase rt' = Validating.
Proof.
  assert (H : (fun s : LoaderSession (D := SharedSim) => (upload (sample_package true) (ss_runtime s)).2) <$> line_run 2 [] =
    Some (Err (RScan SImageMismatch))) by (vm_compute; reflexivity).
  destruct (line_run 2 []) as [s|] eqn:Es; [|discriminate H]. injection H as Hu. apply line_reached in Es.
  destruct (upload (sample_package true) (ss_runtime s)) as [rt' r] eqn:Eu. cbn in Hu. subst r.
  exists s, rt'. split; [exact Es|]. split; [exact Eu|].
  destruct (upload_effect line_plan (line_io 2) line_cfg [] s line_clock ltac:(intros n; constructor) (line_driver 2) (line_inputs 2)
    ltac:(constructor) Es (sample_package true) rt' _ (sample_package_ok true) Eu ltac:(discriminate)) as [[_ [c Hc]]|[[_ [ctx Hc]]|[Hr _]]].
  - discriminate Hc.
  - exfalso. by apply (prepare_not_scan _ _ _ Hc SImageMismatch).
  - rewrite Hr. apply phase_of_set.
Defined.
End Line.
