(* ===== verification/CompAst.v ===== *)
(** * The compiler: syntax trees and project files

    Crate [plc-compiler], src/crates/plc-compiler/src: the ST syntax (ast.rs), the
    error codes (error.rs) and the project file (project.rs). Spans and messages
    serve diagnostics only and are left out. Names are UTF-8 bytes; REAL literals
    are binary32 bit patterns. *)
From S2P Require Import Prelude Text IrTypes.

(** ** error.rs *)
Module Code.
Inductive ErrorCode :=
  | ELex | EParse | EExcluded | EExcludedVarInOut | EExcludedPointer | EExcludedString
  | EExcludedLoopCtrl | EExcludedNestedFbType | EExcludedOop | EExcludedConfig | EUnboundedLoop
  | ERecursion | EUndefined | EType | EDuplicate | EProject | ELayout | ECodegen | EPackage.

#[export] Instance code_eq_dec : EqDecision ErrorCode.
Proof. solve_decision. Defined.
End Code.
Export (hints) Code.
Abbreviation ErrorCode := Code.ErrorCode.

(** ** ast.rs *)

Inductive Literal := LBool (b : bool) | LInt (v : Z) | LReal (bits : Z) | LTimeMs (ms : Z).

Inductive UnaryOp := UNeg | UNot.

Inductive BinaryOp :=
  | BAdd | BSub | BMul | BDiv | BMod | BAnd | BOr | BXor | BEq | BNe | BLt | BLe | BGt | BGe.

#[export] Instance binary_op_eq_dec : EqDecision BinaryOp.
Proof. solve_decision. Defined.

(** The types that contain expressions, over the type of the latter. *)
Inductive PathSeg (E : Type) := PIdent (name : bytes) | PIndex (e : E).
Arguments PIdent {E}. Arguments PIndex {E}.

Inductive CallArg (E : Type) := Positional (e : E) | Named (name : bytes) (value : E).
Arguments Positional {E}. Arguments Named {E}.

Record CallOut (E : Type) := mkCallOut { co_name : bytes; co_dest : E }.
Arguments mkCallOut {E}. Arguments co_name {E}. Arguments co_dest {E}.

Record FbCallExpr (E : Type) := mkFbCall {
  fc_callee : list (PathSeg E);
  fc_inputs : list (CallArg E);
  fc_outputs : list (CallOut E) }.
Arguments mkFbCall {E}. Arguments fc_callee {E}. Arguments fc_inputs {E}. Arguments fc_outputs {E}.

Inductive Expr :=
  | ELiteral (value : Literal)
  | EName (path : list (PathSeg Expr))
  | EUnary (op : UnaryOp) (expr : Expr)
  | EBinary (op : BinaryOp) (left right : Expr)
  | EQGood (expr : Expr)
  | EFbCall (call : FbCallExpr Expr).

Record CaseArm (S : Type) := mkArm { ca_labels : list Z; ca_body : list S }.
Arguments mkArm {S}. Arguments ca_labels {S}. Arguments ca_body {S}.

Inductive Stmt :=
  | SAssign (lhs rhs : Expr)
  | SFbCall (call : FbCallExpr Expr)
  | SIf (branches : list (Expr * list Stmt)) (else_body : option (list Stmt))
  | SCase (selector : Expr) (arms : list (CaseArm Stmt)) (else_body : option (list Stmt))
  | SWhile (cond : Expr) (max_iter : option Z) (body : list Stmt)
  | SFor (var : bytes) (from to : Expr) (by_ : option Expr) (max_iter : option Z) (body : list Stmt)
  | SReturn
  | SEmpty.

Inductive VarKind := KVar | KInput | KOutput | KRetain | KConstant | KGlobal.

#[export] Instance var_kind_eq_dec : EqDecision VarKind.
Proof. solve_decision. Defined.

Inductive DirectPlane := DpI | DpQ | DpM | DpR.

Record DirectAddr := mkDirect { da_plane : DirectPlane; da_index : Z }.

Inductive TypeExpr := TNamed (name : bytes) | TArray (upper : Z) (elem : TypeExpr).

Record VarDecl := mkVarDecl {
  vd_name : bytes;
  vd_at : option DirectAddr;
  vd_ty : TypeExpr;
  vd_init : option Expr }.

Record VarSection := mkSection { vs_kind : VarKind; vs_vars : list VarDecl }.

Record Program := mkProgram { pr_name : bytes; pr_vars : list VarSection; pr_body : list Stmt }.

Record FunctionBlock := mkFb { fb_name : bytes; fb_vars : list VarSection; fb_body : list Stmt }.

Inductive Decl := DProgram (p : Program) | DFunctionBlock (f : FunctionBlock).

Abbreviation CompilationUnit := (list Decl).

(** ** project.rs *)

Record TaskMap := mkTaskMap { tm_name : bytes; tm_program : bytes }.

Record TagMap := mkTagMap { tg_name : bytes; tg_kind : bytes; tg_ty : bytes; tg_slot : option Z }.

Record ProjectFile := mkProject {
  pf_id : bytes;
  pf_version : bytes;
  pf_restart_policy : bytes;
  pf_task : list TaskMap;
  pf_tag : list TagMap;
  pf_max_instances : Z }.

Definition default_max_instances : Z := 4096.

(** ** Text *)

(** The characters of a name. *)
Definition text (b : bytes) : string :=
  String.string_of_list_ascii (map (fun c => Ascii.ascii_of_N (Z.to_N c)) b).

Definition eq_ignore_ascii_case (a b : bytes) : bool :=
  bool_decide (to_ascii_lowercase a = to_ascii_lowercase b).

(** ** Sorted maps (the standard library's [BTreeMap] with string keys) *)
Section BTree.
Context {A : Type}.

Fixpoint bt_insert (k : bytes) (v : A) (m : list (bytes * A)) : list (bytes * A) :=
  match m with
  | [] => [(k, v)]
  | (k', v') :: m' =>
      match bytes_cmp k k' with
      | Datatypes.Lt => (k, v) :: m
      | Datatypes.Eq => (k, v) :: m'
      | Datatypes.Gt => (k', v') :: bt_insert k v m'
      end
  end.

Definition bt_get (k : bytes) (m : list (bytes * A)) : option A :=
  snd <$> List.find (fun e => bool_decide (e.1 = k)) m.

Definition bt_mem (k : bytes) (m : list (bytes * A)) : bool :=
  existsb (fun e => bool_decide (e.1 = k)) m.
End BTree.

(** ** Arithmetic of [u32] and [i64]

    An overflow ends the model: it panics in a build with overflow checks. *)

Definition u32_add {E} (x y : Z) : res E Z := if x + y <? 2 ^ 32 then Ok (x + y) else Panic.
Definition u32_mul {E} (x y : Z) : res E Z := if x * y <? 2 ^ 32 then Ok (x * y) else Panic.
Definition i64_checked {E} (x : Z) : res E Z := if (-2 ^ 63 <=? x) && (x <? 2 ^ 63) then Ok x else Panic.
