(* ===== verification/CompLayout.v ===== *)
(** * The compiler: layout and binding

    Crate [plc-compiler], src/crates/plc-compiler/src/bind.rs, first half: types and
    their sizes, the layout of user function blocks, the recursion check, and the
    binding of the variables of the programs to storage. Hash maps that are only
    looked up are finite maps. *)
From S2P Require Import Prelude Text IrTypes CompAst.

Definition MAX_ARRAY_ELEMS : Z := 1024.

(** ** Types *)

Inductive TypeDef :=
  | TdElem (t : IrType)
  | TdArray (elem : TypeDef) (len : Z)
  | TdPrim (p : PrimitiveId)
  | TdUserFb (name : bytes).

Definition ir_elem (td : TypeDef) : option IrType :=
  match td with TdElem t => Some t | _ => None end.

Record FieldLayout := mkField {
  fl_name : bytes;
  fl_ty : TypeDef;
  fl_offset : Z;
  fl_retain : bool;
  fl_retain_offset : option Z }.

Record UserFbLayout := mkFbLayout {
  ul_inputs : list bytes;
  ul_fields : list FieldLayout;
  ul_total_data_size : Z;
  ul_entry_name : bytes;
  ul_body : list Stmt;
  ul_instances : list (bytes * TypeDef) }.

Abbreviation FbLayouts := (gmap bytes UserFbLayout).

Definition prim_shadow_size (p : PrimitiveId) : Z :=
  match Prim.output_count p with 1%nat => 4 | 2%nat => 8 | n => Z.of_nat n * 4 end.

(** [byte_width() as u32]. *)
Definition elem_size (t : IrType) : Z := Z.of_nat (IrTy.byte_width t).

(** [u32::saturating_mul]. *)
Definition sat_mul32 (x y : Z) : Z := Z.min (x * y) (2 ^ 32 - 1).

Fixpoint byte_size (td : TypeDef) (fbs : FbLayouts) : res ErrorCode Z :=
  match td with
  | TdElem t => Ok (elem_size t)
  | TdArray elem n => s ← byte_size elem fbs; Ok (sat_mul32 s n)
  | TdPrim p => Ok (prim_shadow_size p)
  | TdUserFb name => ok_or (ul_total_data_size <$> fbs !! to_ascii_lowercase name) Code.EUndefined
  end.

Definition ty_align (t : IrType) : Z := match t with TBool => 1 | TInt => 2 | _ => 4 end.

Fixpoint align (td : TypeDef) : Z :=
  match td with
  | TdElem t => ty_align t
  | TdArray elem _ => align elem
  | TdPrim _ | TdUserFb _ => 4
  end.

Definition parse_ir_type (s : bytes) : res ErrorCode IrType :=
  ok_or (str_match (Op.to_ascii_uppercase (text s))
           [("BOOL", TBool); ("INT", TInt); ("DINT", TDint); ("REAL", TReal); ("TIME", TTime)]%string) Code.EType.

(** The layouts known so far are not consulted. *)
Fixpoint resolve_type (ty : TypeExpr) : res ErrorCode TypeDef :=
  match ty with
  | TNamed name =>
      match parse_ir_type name with
      | Ok ir => Ok (TdElem ir)
      | _ =>
          match Prim.from_name (text name) with
          | Some p => Ok (TdPrim p)
          | None => Ok (TdUserFb name)
          end
      end
  | TArray upper elem =>
      n ← u32_add upper 1;
      if MAX_ARRAY_ELEMS <? n then Err Code.ELayout
      else
        elem_ty ← resolve_type elem;
        match elem_ty with
        | TdElem _ => Ok (TdArray elem_ty n)
        | _ => Err Code.EType
        end
  end.

Definition prim_out_types (p : PrimitiveId) : list (bytes * IrType) :=
  match p with
  | PTon | PTof | PTp => [(bstr "Q", TBool); (bstr "ET", TTime)]
  | PCtu | PCtd => [(bstr "Q", TBool); (bstr "CV", TDint)]
  | PRs | PSr | PRTrig | PFTrig => [(bstr "Q", TBool)]
  | PPid => [(bstr "OUT", TReal)]
  end.

Definition prim_in_names (p : PrimitiveId) : list bytes :=
  match p with
  | PTon | PTof | PTp => [bstr "IN"; bstr "PT"]
  | PCtu => [bstr "CU"; bstr "R"; bstr "PV"]
  | PCtd => [bstr "CD"; bstr "LD"; bstr "PV"]
  | PRs | PSr => [bstr "S"; bstr "R"]
  | PRTrig | PFTrig => [bstr "CLK"]
  | PPid => [bstr "PV"; bstr "SP"; bstr "ENABLE"]
  end.

(** ** The allocator *)

Record Allocator := mkAlloc { al_data : Z; al_retain : Z }.

(** [cursor] aligned to [a]. *)
Definition align_up {E} (cursor a : Z) : res E Z :=
  let mis := cursor mod a in
  if mis =? 0 then Ok cursor else u32_add cursor (a - mis).

Definition alloc {E} (size algn : Z) (retain : bool) (al : Allocator) : res E (Allocator * Z) :=
  off ← align_up (if retain then al_retain al else al_data al) (Z.max algn 1);
  cursor ← u32_add off size;
  Ok (if retain then mkAlloc (al_data al) cursor else mkAlloc cursor (al_retain al), off).

Fixpoint alloc_outs (outs : list (bytes * IrType)) (al : Allocator) :
    res ErrorCode (Allocator * list (bytes * Z * IrType)) :=
  match outs with
  | [] => Ok (al, [])
  | (name, ty) :: outs =>
      r ← alloc (elem_size ty) (ty_align ty) false al;
      rest ← alloc_outs outs r.1;
      Ok (rest.1, (name, r.2, ty) :: rest.2)
  end.

Definition alloc_prim_outputs (al : Allocator) (p : PrimitiveId) :
    res ErrorCode (Allocator * list (bytes * Z * IrType)) :=
  alloc_outs (prim_out_types p) al.

(** ** User function blocks *)

(** The vectors [layout_user_fb] builds. *)
Record FbBuild := mkFbBuild {
  fbb_alloc : Allocator;
  fbb_fields : list FieldLayout;
  fbb_inputs : list bytes;
  fbb_instances : list (bytes * TypeDef) }.

Definition add_data_field (known : FbLayouts) (name : bytes) (ty : TypeDef) (b : FbBuild) : res ErrorCode FbBuild :=
  size ← byte_size ty known;
  r ← alloc size (align ty) false (fbb_alloc b);
  Ok (mkFbBuild r.1 (fbb_fields b ++ [mkField name ty r.2 false None]) (fbb_inputs b) (fbb_instances b)).

Definition layout_var (known : FbLayouts) (kind : VarKind) (v : VarDecl) (b : FbBuild) : res ErrorCode FbBuild :=
  ty ← resolve_type (vd_ty v);
  match ty with
  | TdUserFb n => if bool_decide (known !! to_ascii_lowercase n = None) then Err Code.EUndefined else Ok tt
  | _ => Ok tt
  end ;;
  match kind with
  | KInput =>
      add_data_field known (vd_name v) ty
        (mkFbBuild (fbb_alloc b) (fbb_fields b) (fbb_inputs b ++ [vd_name v]) (fbb_instances b))
  | KOutput => add_data_field known (vd_name v) ty b
  | KRetain =>
      match ty with
      | TdElem ir =>
          r ← alloc (elem_size ir) (ty_align ir) true (fbb_alloc b);
          Ok (mkFbBuild r.1 (fbb_fields b ++ [mkField (vd_name v) ty 0 true (Some r.2)]) (fbb_inputs b)
                (fbb_instances b))
      | _ => Err Code.EType
      end
  | KVar | KConstant =>
      match ty with
      | TdPrim _ | TdUserFb _ =>
          Ok (mkFbBuild (fbb_alloc b) (fbb_fields b) (fbb_inputs b) (fbb_instances b ++ [(vd_name v, ty)]))
      | _ => add_data_field known (vd_name v) ty b
      end
  | KGlobal => Err Code.EExcluded
  end.

Fixpoint layout_vars (known : FbLayouts) (kind : VarKind) (vs : list VarDecl) (b : FbBuild) : res ErrorCode FbBuild :=
  match vs with
  | [] => Ok b
  | v :: vs => b ← layout_var known kind v b; layout_vars known kind vs b
  end.

Fixpoint layout_sections (known : FbLayouts) (ss : list VarSection) (b : FbBuild) : res ErrorCode FbBuild :=
  match ss with
  | [] => Ok b
  | s :: ss => b ← layout_vars known (vs_kind s) (vs_vars s) b; layout_sections known ss b
  end.

Definition layout_user_fb (fb : FunctionBlock) (known : FbLayouts) : res ErrorCode UserFbLayout :=
  b ← layout_sections known (fb_vars fb) (mkFbBuild (mkAlloc 0 0) [] [] []);
  Ok (mkFbLayout (fbb_inputs b) (fbb_fields b) (Z.max (al_data (fbb_alloc b)) 4)
        (bstr "fb." ++ fb_name fb) (fb_body fb) (fbb_instances b)).

(** One pass of [pending.retain]: what stays pending, and the layouts. *)
Fixpoint retain_pending (fb_asts : list (bytes * FunctionBlock)) (pending : list bytes) (layouts : FbLayouts) :
    res ErrorCode (list bytes * FbLayouts) :=
  match pending with
  | [] => Ok ([], layouts)
  | name :: pending =>
      fb ← match bt_get name fb_asts with Some fb => Ok fb | None => Panic end;
      match layout_user_fb fb layouts with
      | Ok l => retain_pending fb_asts pending (<[name := l]> layouts)
      | Err _ => r ← retain_pending fb_asts pending layouts; Ok (name :: r.1, r.2)
      | Panic => Panic
      end
  end.

(** The layout loop; [fuel] is what the guard has left. *)
Fixpoint layout_loop (fuel : nat) (fb_asts : list (bytes * FunctionBlock)) (pending : list bytes)
    (layouts : FbLayouts) : res ErrorCode FbLayouts :=
  match pending with
  | [] => Ok layouts
  | _ =>
      match fuel with
      | O => Err Code.ELayout
      | S fuel =>
          r ← retain_pending fb_asts pending layouts;
          if (length r.1 =? length pending)%nat then
            match r.1 with
            | [] => Panic
            | name :: _ =>
                fb ← match bt_get name fb_asts with Some fb => Ok fb | None => Panic end;
                layout_user_fb fb r.2 ;;
                Err Code.EUndefined
            end
          else layout_loop fuel fb_asts r.1 r.2
      end
  end.

Definition layout_all (fb_asts : list (bytes * FunctionBlock)) : res ErrorCode FbLayouts :=
  layout_loop (Z.to_nat 10000) fb_asts (map fst fb_asts) ∅.
