(* ===== verification/CompBind.v ===== *)
(** * The compiler: binding variables

    Crate [plc-compiler], src/crates/plc-compiler/src/bind.rs: the check of the
    composition of function blocks and the binding of the variables of the programs
    to storage. The order in which a hash map is iterated is not specified: it is
    [hash_order]. *)
From S2P Require Import Prelude Text IrTypes PkgManifest CompAst CompLayout.

(** The iteration order of a [HashMap] with string keys. *)
Class HashOrder := { hash_order : forall A, list (bytes * A) -> list (bytes * A) }.
Class HashOrderLaws `{!HashOrder} := { hash_order_perm : forall A (l : list (bytes * A)), hash_order A l ≡ₚ l }.
Arguments hash_order {_ A}.

(** ** Composition of function blocks *)

Definition named_type (v : VarDecl) : option bytes :=
  match vd_ty v with TNamed n => Some (to_ascii_lowercase n) | _ => None end.

(** The function blocks instantiated in [fb]. *)
Definition fb_targets (fbs : list (bytes * FunctionBlock)) (fb : FunctionBlock) : list bytes :=
  List.filter (fun k => bt_mem k fbs) (omap named_type (flat_map vs_vars (fb_vars fb))).

Definition fb_edges (fbs : list (bytes * FunctionBlock)) : list (bytes * list bytes) :=
  map (fun e => (e.1, fb_targets fbs e.2)) fbs.

(** [for t in ts] of the walk. *)
Fixpoint push_targets (start : bytes) (ts stack : list bytes) : res ErrorCode (list bytes) :=
  match ts with
  | [] => Ok stack
  | t :: ts => if bool_decide (t = start) then Err Code.ERecursion else push_targets start ts (t :: stack)
  end.

(** The walk from [start]; [None] stands for running out of [fuel]. *)
Fixpoint walk (fuel : nat) (edges : list (bytes * list bytes)) (start : bytes) (stack path : list bytes) :
    option (res ErrorCode unit) :=
  match stack with
  | [] => Some (Ok tt)
  | n :: stack =>
      match fuel with
      | O => None
      | S fuel =>
          if bool_decide (n ∈ path) then Some (Err Code.ERecursion)
          else
            match push_targets start (default [] (bt_get n edges)) stack with
            | Ok stack => walk fuel edges start stack path
            | Err e => Some (Err e)
            | Panic => Some Panic
            end
      end
  end.

Fixpoint walk_all (fuel : nat) (edges : list (bytes * list bytes)) (starts : list bytes) :
    option (res ErrorCode unit) :=
  match starts with
  | [] => Some (Ok tt)
  | s :: starts =>
      match walk fuel edges s [s] [] with
      | Some (Ok _) => walk_all fuel edges starts
      | other => other
      end
  end.

Definition check_fb_recursion `{HashOrder} (fuel : nat) (fbs : list (bytes * FunctionBlock)) :
    option (res ErrorCode unit) :=
  walk_all fuel (fb_edges fbs) (map fst (hash_order (fb_edges fbs))).

(** ** Symbols *)

Inductive Storage :=
  | StInput (slot : Z) (ty : IrType)
  | StOutput (slot : Z) (ty : IrType)
  | StDataVar (offset : Z) (ty : TypeDef)
  | StRetainVar (offset : Z) (ty : IrType)
  | StPrim (id : PrimitiveId) (instance : Z) (out_offsets : list (bytes * Z * IrType))
  | StUserInst (fb : bytes) (base : Z)
  | StConst (ty : IrType) (value : Literal).

(** What [bind_var_sections] updates. *)
Record Binder := mkBinder {
  bd_globals : gmap bytes Storage;
  bd_alloc : Allocator;
  bd_prim_counts : PrimitiveId -> Z;
  bd_retain_symbols : list ManifestRetainSymbol;
  bd_input_slots : Z;
  bd_output_slots : Z;
  bd_tags : list TagEntry }.

Definition set_bd_alloc (x : Allocator) (b : Binder) : Binder :=
  mkBinder (bd_globals b) x (bd_prim_counts b) (bd_retain_symbols b) (bd_input_slots b) (bd_output_slots b) (bd_tags b).
Definition set_bd_globals (x : gmap bytes Storage) (b : Binder) : Binder :=
  mkBinder x (bd_alloc b) (bd_prim_counts b) (bd_retain_symbols b) (bd_input_slots b) (bd_output_slots b) (bd_tags b).
Definition set_bd_slots (i o : Z) (b : Binder) : Binder :=
  mkBinder (bd_globals b) (bd_alloc b) (bd_prim_counts b) (bd_retain_symbols b) i o (bd_tags b).
Definition add_tag (t : TagEntry) (b : Binder) : Binder :=
  mkBinder (bd_globals b) (bd_alloc b) (bd_prim_counts b) (bd_retain_symbols b) (bd_input_slots b)
    (bd_output_slots b) (bd_tags b ++ [t]).
Definition add_retain_symbol (r : ManifestRetainSymbol) (b : Binder) : Binder :=
  mkBinder (bd_globals b) (bd_alloc b) (bd_prim_counts b) (bd_retain_symbols b ++ [r]) (bd_input_slots b)
    (bd_output_slots b) (bd_tags b).
Definition count_prim (p : PrimitiveId) (n : Z) (b : Binder) : Binder :=
  mkBinder (bd_globals b) (bd_alloc b) (fun q => if bool_decide (q = p) then n else bd_prim_counts b q)
    (bd_retain_symbols b) (bd_input_slots b) (bd_output_slots b) (bd_tags b).

(** [tag_dictionary.iter().any(|t| t.slot == Some(slot) && t.kind == kind)]. *)
Definition tag_at (kind : TagKind) (slot : Z) (b : Binder) : bool :=
  existsb (fun t => bool_decide (te_slot t = Some slot) && bool_decide (te_kind t = kind)) (bd_tags b).

Definition elem_of_type (ty : TypeDef) : res ErrorCode IrType := ok_or (ir_elem ty) Code.EType.

Section Binding.
Context (fbs : FbLayouts) (max_instances : Z).

Definition bind_retain (name : bytes) (ir : IrType) (b : Binder) : res ErrorCode (Binder * Z) :=
  r ← alloc (elem_size ir) (ty_align ir) true (bd_alloc b);
  Ok (add_retain_symbol (mkRetainSym name ir r.2) (set_bd_alloc r.1 b), r.2).

Definition bind_data (ty : TypeDef) (b : Binder) : res ErrorCode (Binder * Storage) :=
  size ← byte_size ty fbs;
  r ← alloc size (align ty) false (bd_alloc b);
  Ok (set_bd_alloc r.1 b, StDataVar r.2 ty).

Definition bind_at (name : bytes) (a : DirectAddr) (ty : TypeDef) (b : Binder) : res ErrorCode (Binder * Storage) :=
  let index := da_index a in
  match da_plane a with
  | DpI =>
      ir ← elem_of_type ty;
      n ← u32_add index 1;
      let b := set_bd_slots (Z.max (bd_input_slots b) n) (bd_output_slots b) b in
      let b := if tag_at TkI index b then b else add_tag (mkTag name ir TkI (Some index)) b in
      Ok (b, StInput index ir)
  | DpQ =>
      ir ← elem_of_type ty;
      n ← u32_add index 1;
      let b := set_bd_slots (bd_input_slots b) (Z.max (bd_output_slots b) n) b in
      let b := if tag_at TkQ index b then b else add_tag (mkTag name ir TkQ (Some index)) b in
      Ok (b, StOutput index ir)
  | DpR =>
      ir ← elem_of_type ty;
      r ← bind_retain name ir b;
      let '(b, off) := r in
      let b := if existsb (fun t => bool_decide (te_name t = name)) (bd_tags b) then b
               else add_tag (mkTag name ir TkR None) b in
      Ok (b, StRetainVar off ir)
  | DpM => bind_data ty b
  end.

Definition bind_prim (p : PrimitiveId) (b : Binder) : res ErrorCode (Binder * Storage) :=
  let inst := bd_prim_counts b p in
  if max_instances <=? inst then Err Code.ELayout
  else
    n ← u32_add inst 1;
    r ← alloc_prim_outputs (bd_alloc b) p;
    Ok (set_bd_alloc r.1 (count_prim p n b), StPrim p inst r.2).

Definition bind_user_inst (name : bytes) (b : Binder) : res ErrorCode (Binder * Storage) :=
  l ← ok_or (fbs !! to_ascii_lowercase name) Code.EUndefined;
  r ← alloc (ul_total_data_size l) 4 false (bd_alloc b);
  Ok (set_bd_alloc r.1 b, StUserInst name r.2).

Definition bind_storage (kind : VarKind) (v : VarDecl) (b : Binder) : res ErrorCode (Binder * Storage) :=
  ty ← resolve_type (vd_ty v);
  match vd_at v with
  | Some a => bind_at (vd_name v) a ty b
  | None =>
      if bool_decide (kind = KConstant) then
        ir ← elem_of_type ty;
        match vd_init v with
        | Some (ELiteral value) => Ok (b, StConst ir value)
        | _ => Err Code.EType
        end
      else if bool_decide (kind = KRetain) then
        ir ← elem_of_type ty;
        r ← bind_retain (vd_name v) ir b;
        Ok (r.1, StRetainVar r.2 ir)
      else
        match ty with
        | TdPrim p => bind_prim p b
        | TdUserFb name => bind_user_inst name b
        | _ => bind_data ty b
        end
  end.

Definition redeclarable (kind : VarKind) (v : VarDecl) : bool :=
  match kind with KGlobal | KRetain | KConstant => bool_decide (vd_at v <> None) | _ => false end.

Definition bind_var (kind : VarKind) (v : VarDecl) (b : Binder) : res ErrorCode Binder :=
  let key := to_ascii_lowercase (vd_name v) in
  if bool_decide (bd_globals b !! key <> None) then
    if redeclarable kind v then Ok b else Err Code.EDuplicate
  else
    r ← bind_storage kind v b;
    let '(b, storage) := r in
    Ok (set_bd_globals (<[key := storage]> (bd_globals b)) b).

Fixpoint bind_vars (kind : VarKind) (vs : list VarDecl) (b : Binder) : res ErrorCode Binder :=
  match vs with
  | [] => Ok b
  | v :: vs => b ← bind_var kind v b; bind_vars kind vs b
  end.

Fixpoint bind_var_sections (allow_global : bool) (ss : list VarSection) (b : Binder) : res ErrorCode Binder :=
  match ss with
  | [] => Ok b
  | s :: ss =>
      if bool_decide (vs_kind s = KGlobal) && negb allow_global then Err Code.EExcluded
      else b ← bind_vars (vs_kind s) (vs_vars s) b; bind_var_sections allow_global ss b
  end.
End Binding.
