(* ===== verification/CompGen.v ===== *)
(** * The compiler: code generation

    Crate [plc-compiler], src/crates/plc-compiler/src/bind.rs, [Codegen]: expressions
    and statements to code with labels, and the patching of the jumps. A method with
    [&mut self] is a computation of the state and error monad. A label is the pair of
    the prefix and the number its text is made of. *)
From S2P Require Import Prelude Text IrTypes IrEncode CompAst CompLayout CompBind.

Definition MAX_LOOP_DEFAULT : Z := 10000.

Abbreviation Label := (string * Z)%type.

Record Codegen := mkCodegen {
  cg_fb_layouts : FbLayouts;
  cg_globals : gmap bytes Storage;
  cg_locals : gmap bytes Storage;
  cg_code : bytes;
  cg_entries : list EntryPoint;
  cg_labels : gmap Label Z;
  cg_fixups : list (Z * Label);
  cg_label_id : Z;
  cg_extra_data : Z;
  cg_extra_retain : Z;
  cg_data_cursor : Z }.

Definition codegen_new (fbs : FbLayouts) (globals : gmap bytes Storage) : Codegen :=
  mkCodegen fbs globals ∅ [] [] ∅ [] 0 0 0 0.

Definition set_cg_layouts (x : FbLayouts) (g : Codegen) : Codegen :=
  mkCodegen x (cg_globals g) (cg_locals g) (cg_code g) (cg_entries g) (cg_labels g) (cg_fixups g)
    (cg_label_id g) (cg_extra_data g) (cg_extra_retain g) (cg_data_cursor g).
Definition set_cg_locals (x : gmap bytes Storage) (g : Codegen) : Codegen :=
  mkCodegen (cg_fb_layouts g) (cg_globals g) x (cg_code g) (cg_entries g) (cg_labels g) (cg_fixups g)
    (cg_label_id g) (cg_extra_data g) (cg_extra_retain g) (cg_data_cursor g).
Definition set_cg_code (x : bytes) (g : Codegen) : Codegen :=
  mkCodegen (cg_fb_layouts g) (cg_globals g) (cg_locals g) x (cg_entries g) (cg_labels g) (cg_fixups g)
    (cg_label_id g) (cg_extra_data g) (cg_extra_retain g) (cg_data_cursor g).
Definition set_cg_entries (x : list EntryPoint) (g : Codegen) : Codegen :=
  mkCodegen (cg_fb_layouts g) (cg_globals g) (cg_locals g) (cg_code g) x (cg_labels g) (cg_fixups g)
    (cg_label_id g) (cg_extra_data g) (cg_extra_retain g) (cg_data_cursor g).
Definition set_cg_labels (x : gmap Label Z) (f : list (Z * Label)) (id : Z) (g : Codegen) : Codegen :=
  mkCodegen (cg_fb_layouts g) (cg_globals g) (cg_locals g) (cg_code g) (cg_entries g) x f id
    (cg_extra_data g) (cg_extra_retain g) (cg_data_cursor g).
Definition set_cg_temps (extra cursor : Z) (g : Codegen) : Codegen :=
  mkCodegen (cg_fb_layouts g) (cg_globals g) (cg_locals g) (cg_code g) (cg_entries g) (cg_labels g)
    (cg_fixups g) (cg_label_id g) extra (cg_extra_retain g) cursor.

Abbreviation Gen := (M Codegen ErrorCode).

(** [self.code.len() as u32]. *)
Definition here (g : Codegen) : Z := wrap_u 32 (len (cg_code g)).

Definition begin_entry (name : bytes) (is_user_fb : bool) : Gen unit :=
  m_modify (fun g => set_cg_entries (cg_entries g ++ [{| e_name := name; e_pc := here g; e_is_user_fb := is_user_fb |}]) g).

Definition with_locals (locals : gmap bytes Storage) (f : Gen unit) : Gen unit := fun g =>
  let '(g, r) := f (set_cg_locals locals g) in (set_cg_locals ∅ g, r).

Definition fresh_label (prefix : string) : Gen Label :=
  id ← m_gets cg_label_id;
  next ← m_lift (u32_add id 1);
  m_modify (fun g => set_cg_labels (cg_labels g) (cg_fixups g) next g) ;;
  mret (prefix, id).

Definition place_label (l : Label) : Gen unit :=
  m_modify (fun g => set_cg_labels (<[l := here g]> (cg_labels g)) (cg_fixups g) (cg_label_id g) g).

Definition emit (i : DecodedInstr) : Gen unit :=
  m_modify (fun g => set_cg_code (cg_code g ++ encode_instruction i) g).

Definition emit_simple (op : Opcode) (payload : Z) : Gen unit := emit (Simple op payload).

Definition emit_jmp (op : Opcode) (l : Label) : Gen unit :=
  off ← m_gets (fun g => len (cg_code g));
  emit_simple op 0 ;;
  m_modify (fun g => set_cg_labels (cg_labels g) (cg_fixups g ++ [(off, l)]) (cg_label_id g) g).

Definition lookup_sym (g : Codegen) (name : bytes) : option Storage :=
  let key := to_ascii_lowercase name in
  match cg_locals g !! key with Some s => Some s | None => cg_globals g !! key end.

Definition lookup (name : bytes) : Gen Storage := fun g => (g, ok_or (lookup_sym g name) Code.EUndefined).

(** Where the data of a symbol ends; the sums were checked when it was allocated. *)
Definition data_end (fbs : FbLayouts) (s : Storage) : option Z :=
  match s with
  | StDataVar offset ty => Some (offset + match byte_size ty fbs with Ok n => n | _ => 4 end)
  | StPrim _ _ outs =>
      match outs with
      | [] => None
      | _ => Some (foldr Z.max 0 (map (fun o => o.1.2 + elem_size o.2) outs))
      end
  | StUserInst fb base => (fun l => base + ul_total_data_size l) <$> fbs !! to_ascii_lowercase fb
  | _ => None
  end.

Definition globals_end (g : Codegen) : Z :=
  foldr Z.max 0 (omap (data_end (cg_fb_layouts g)) (map snd (map_to_list (cg_globals g)))).

Definition alloc_temp (ty : IrType) : Gen Z := fun g =>
  let r :=
    cursor ← align_up (cg_data_cursor g) (ty_align ty);
    let base := Z.max (Z.max (globals_end g) (cg_extra_data g)) cursor in
    off ← align_up base (ty_align ty);
    cursor ← u32_add off (elem_size ty);
    Ok (off, cursor) in
  match r with
  | Ok (off, cursor) => (set_cg_temps cursor cursor g, Ok off)
  | Err e => (g, Err e)
  | Panic => (g, Panic)
  end.

Definition path_parts (path : list (PathSeg Expr)) : res ErrorCode (bytes * list (PathSeg Expr)) :=
  match path with
  | PIdent n :: rest => Ok (n, rest)
  | _ => Err Code.EParse
  end.

(** ** Loads and stores *)

(** The field of a user function block. *)
Definition find_field (l : UserFbLayout) (name : bytes) : option FieldLayout :=
  List.find (fun f => eq_ignore_ascii_case (fl_name f) name) (ul_fields l).

Definition find_out (outs : list (bytes * Z * IrType)) (name : bytes) : res ErrorCode (Z * IrType) :=
  match List.find (fun o => eq_ignore_ascii_case o.1.1 name) outs with
  | Some (_, off, ty) => Ok (off, ty)
  | None => Err Code.EUndefined
  end.

(** [f.retain_offset.unwrap()]. *)
Definition retain_off (f : FieldLayout) : res ErrorCode Z :=
  match fl_retain_offset f with Some o => Ok o | None => Panic end.

(** [self.fb_layouts.get(..).unwrap()]. *)
Definition layout_of (fb : bytes) : Gen UserFbLayout := fun g =>
  (g, match cg_fb_layouts g !! to_ascii_lowercase fb with Some l => Ok l | None => Panic end).

Definition emit_data (op : Opcode) (base off : Z) : Gen unit :=
  o ← m_lift (u32_add base off); emit_simple op o.

(** The instruction that accesses a field of an instance at [base]. *)
Definition emit_field (retain_op data_op : Opcode) (base : Z) (f : FieldLayout) : Gen unit :=
  if fl_retain f then o ← m_lift (retain_off f); emit_simple retain_op o
  else emit_data data_op base (fl_offset f).

Definition emit_store (lhs : Expr) : Gen unit :=
  match lhs with
  | EName path =>
      r ← m_lift (path_parts path);
      let '(root, rest) := r in
      sym ← lookup root;
      match rest with
      | [] =>
          match sym with
          | StOutput slot _ => emit_simple StQ slot
          | StDataVar offset _ => emit_simple StData offset
          | StRetainVar offset _ => emit_simple StRetain offset
          | StInput _ _ | StConst _ _ | StPrim _ _ _ | StUserInst _ _ => m_err Code.EType
          end
      | PIndex _ :: _ => m_err Code.EType
      | PIdent field :: _ =>
          match sym with
          | StPrim _ _ outs => o ← m_lift (find_out outs field); emit_simple StData o.1
          | StUserInst fb base =>
              l ← layout_of fb;
              f ← m_lift (ok_or (find_field l field) Code.EUndefined);
              emit_field StRetain StData base f
          | StDataVar _ (TdArray _ _) => mret tt
          | _ => m_err Code.EType
          end
      end
  | _ => m_err Code.EType
  end.

Definition emit_literal (value : Literal) : Gen IrType :=
  match value with
  | LBool b => emit_simple PushIBool (if b then 1 else 0) ;; mret TBool
  | LInt v => emit (WithImm32 PushIDint 0 (wrap_u 32 v)) ;; mret TDint
  | LReal bits => emit (WithImm32 PushIReal 0 bits) ;; mret TReal
  | LTimeMs ms => emit (WithImm32 PushTime 0 (wrap_u 32 ms)) ;; mret TTime
  end.

Definition emit_load_path (path : list (PathSeg Expr)) : Gen IrType :=
  r ← m_lift (path_parts path);
  let '(root, rest) := r in
  sym ← lookup root;
  match rest with
  | [] =>
      match sym with
      | StInput slot ty => emit_simple LdI slot ;; mret ty
      | StOutput slot ty => emit_simple LdQ slot ;; mret ty
      | StDataVar offset (TdElem t) => emit_simple LdData offset ;; mret t
      | StRetainVar offset ty => emit_simple LdRetain offset ;; mret ty
      | StConst _ value => emit_literal value
      | _ => m_err Code.EType
      end
  | PIndex idx :: _ =>
      match sym with
      | StDataVar offset (TdArray elem _) =>
          et ← m_lift (match ir_elem elem with Some t => Ok t | None => Panic end);
          i ← m_lift (match idx with ELiteral (LInt i) => Ok (wrap_u 32 i) | _ => Err Code.EType end);
          d ← m_lift (u32_mul i (elem_size et));
          emit_data LdData offset d ;;
          mret et
      | _ => m_err Code.EType
      end
  | PIdent field :: _ =>
      match sym with
      | StPrim _ _ outs => o ← m_lift (find_out outs field); emit_simple LdData o.1 ;; mret o.2
      | StUserInst fb base =>
          l ← layout_of fb;
          f ← m_lift (ok_or (find_field l field) Code.EUndefined);
          emit_field LdRetain LdData base f ;;
          mret (default TBool (ir_elem (fl_ty f)))
      | _ => m_err Code.EType
      end
  end.

(** ** Calls *)

(** An argument with the action that emits it. *)
Abbreviation Arg := (Expr * Gen IrType)%type.

Fixpoint position {A} (p : A -> bool) (l : list A) : option nat :=
  match l with
  | [] => None
  | x :: l => if p x then Some 0%nat else Datatypes.S <$> position p l
  end.

(** [args] and [pos] of a call of a primitive; an argument comes with what is done of it. *)
Fixpoint resolve_args {B} (names : list bytes) (inputs : list (CallArg (Expr * B)))
    (args : list (option (Expr * B))) (pos : nat) : res ErrorCode (list (option (Expr * B))) :=
  match inputs with
  | [] => Ok args
  | Positional e :: inputs =>
      if (length args <=? pos)%nat then Err Code.EType
      else resolve_args names inputs (<[pos := Some e]> args) (Datatypes.S pos)
  | Named name value :: inputs =>
      if eq_ignore_ascii_case name (bstr "EN") then
        match value.1 with
        | ELiteral (LBool true) => resolve_args names inputs args pos
        | _ => Err Code.EExcluded
        end
      else
        match position (fun n => eq_ignore_ascii_case n name) names with
        | Some i => resolve_args names inputs (<[i := Some value]> args) pos
        | None => Err Code.EUndefined
        end
  end.

Definition emit_arg (a : option Arg) : Gen unit :=
  match a with Some e => e.2 ;; mret tt | None => m_err Code.EType end.

Definition emit_prim_out (outs : list (bytes * Z * IrType)) (o : CallOut Expr) : Gen unit :=
  if eq_ignore_ascii_case (co_name o) (bstr "ENO") then mret tt
  else
    r ← m_lift (find_out outs (co_name o));
    emit_simple LdData r.1 ;;
    emit_store (co_dest o).

Definition emit_prim_call (id : PrimitiveId) (instance : Z) (outs : list (bytes * Z * IrType))
    (inputs : list (CallArg Arg)) (outputs : list (CallOut Expr)) : Gen unit :=
  let names := prim_in_names id in
  args ← m_lift (resolve_args names inputs (replicate (length names) None) 0);
  m_each args emit_arg ;;
  emit (ICallFb 0 (Prim.as_u32 id) instance) ;;
  m_each outs (fun o => emit_simple StData o.1.2) ;;
  m_each outputs (emit_prim_out outs).

(** The first loop over the inputs of a user function block; it collects the named ones. *)
Fixpoint emit_positional (l : UserFbLayout) (base : Z) (inputs : list (CallArg Arg)) (pos : nat)
    (named : gmap bytes Arg) : Gen (gmap bytes Arg) :=
  match inputs with
  | [] => mret named
  | Positional e :: inputs =>
      match ul_inputs l !! pos with
      | None => m_err Code.EType
      | Some field =>
          f ← m_lift (match find_field l field with Some f => Ok f | None => Panic end);
          e.2 ;;
          emit_data StData base (fl_offset f) ;;
          emit_positional l base inputs (Datatypes.S pos) named
      end
  | Named name value :: inputs =>
      if eq_ignore_ascii_case name (bstr "EN") then emit_positional l base inputs pos named
      else emit_positional l base inputs pos (<[to_ascii_lowercase name := value]> named)
  end.

Definition emit_named (l : UserFbLayout) (base : Z) (a : bytes * Arg) : Gen unit :=
  f ← m_lift (ok_or (find_field l a.1) Code.EUndefined);
  a.2.2 ;;
  emit_field StRetain StData base f.

(** The number of the entry point called. *)
Definition call_id (entries : list EntryPoint) (l : UserFbLayout) : Z :=
  let name := ul_entry_name l in
  let by_entry :=
    (fun _ => default 0 (Z.of_nat <$> position (fun e => bool_decide (e_name e = name)) entries)) <$>
      List.find (fun e => bool_decide (e_name e = name) || starts_with (bstr "fb.") (e_name e)) entries in
  match (s ← strip_prefix (bstr "fb.") name; parse_uint (2 ^ 32) s) with
  | Some id => id
  | None => default 0 by_entry
  end.

Definition emit_user_out (l : UserFbLayout) (base : Z) (o : CallOut Expr) : Gen unit :=
  f ← m_lift (ok_or (find_field l (co_name o)) Code.EUndefined);
  emit_field LdRetain LdData base f ;;
  emit_store (co_dest o).

Section Calls.
Context `{HashOrder}.

Definition emit_user_call (fb : bytes) (base : Z) (inputs : list (CallArg Arg)) (outputs : list (CallOut Expr)) :
    Gen unit :=
  layouts ← m_gets cg_fb_layouts;
  l ← m_lift (ok_or (layouts !! to_ascii_lowercase fb) Code.EUndefined);
  named ← emit_positional l base inputs 0 ∅;
  m_each (hash_order (map_to_list named)) (emit_named l base) ;;
  entries ← m_gets cg_entries;
  emit (ICallFb 1 (call_id entries l) base) ;;
  m_each outputs (emit_user_out l base).

Definition emit_fb_call (callee : list (PathSeg Expr)) (inputs : list (CallArg Arg)) (outputs : list (CallOut Expr)) :
    Gen unit :=
  match callee with
  | [PIdent name] =>
      sym ← lookup name;
      match sym with
      | StPrim id instance outs => emit_prim_call id instance outs inputs outputs
      | StUserInst fb base => emit_user_call fb base inputs outputs
      | _ => m_err Code.EType
      end
  | _ => m_err Code.EParse
  end.

(** ** Expressions *)

Definition binary_code (op : BinaryOp) : option Opcode :=
  match op with
  | BAdd => Some Add | BSub => Some Sub | BMul => Some Mul | BDiv => Some Div | BXor => Some Xor
  | BEq => Some Eq | BNe => Some Ne | BLt => Some Lt | BLe => Some Le | BGt => Some Gt | BGe => Some Ge
  | BMod | BAnd | BOr => None
  end.

Definition is_comparison (op : BinaryOp) : bool :=
  match op with BEq | BNe | BLt | BLe | BGt | BGe => true | _ => false end.

(** The operators whose operands must have one type. *)
Definition needs_match (op : BinaryOp) : bool :=
  match op with BAdd | BSub | BMul | BDiv => true | _ => is_comparison op end.

(** The short-circuit forms: [skip] jumps over the right operand, leaving [value]. *)
Definition emit_short (prefix : string) (skip : Opcode) (value : Z) (left right : Gen IrType) : Gen IrType :=
  end_ ← fresh_label "sc_end";
  t ← left;
  if bool_decide (t <> TBool) then m_err Code.EType
  else
    l ← fresh_label prefix;
    tmp ← alloc_temp TBool;
    emit_simple StData tmp ;;
    emit_simple LdData tmp ;;
    emit_jmp skip l ;;
    right ;;
    emit_jmp Jmp end_ ;;
    place_label l ;;
    emit_simple PushIBool value ;;
    place_label end_ ;;
    mret TBool.

Definition emit_binary (op : BinaryOp) (left right : Gen IrType) : Gen IrType :=
  match op with
  | BAnd => emit_short "and_f" JmpIfNot 0 left right
  | BOr => emit_short "or_t" JmpIf 1 left right
  | _ =>
      lt ← left;
      rt ← right;
      match binary_code op with
      | None => m_err Code.EExcluded
      | Some code =>
          if needs_match op && negb (bool_decide (lt = rt)) then m_err Code.EType
          else emit_simple code 0 ;; mret (if is_comparison op then TBool else lt)
      end
  end.

Definition emit_unary (op : UnaryOp) (expr : Gen IrType) : Gen IrType :=
  t ← expr;
  match op with
  | UNot => emit_simple Not 0 ;; mret TBool
  | UNeg => emit_simple Neg 0 ;; mret t
  end.

Definition emit_q_good (expr : Expr) : Gen IrType :=
  match expr with
  | EName path =>
      r ← m_lift (path_parts path);
      sym ← lookup r.1;
      match sym with
      | StInput slot _ => emit_simple LdIq slot ;; mret TBool
      | _ => m_err Code.EType
      end
  | _ => m_err Code.EType
  end.

Fixpoint emit_expr (expr : Expr) : Gen IrType :=
  match expr with
  | ELiteral value => emit_literal value
  | EName path => emit_load_path path
  | EUnary op e => emit_unary op (emit_expr e)
  | EBinary op l r => emit_binary op (emit_expr l) (emit_expr r)
  | EQGood e => emit_q_good e
  | EFbCall call =>
      let arg := fun a =>
        match a with
        | Positional e => Positional (e, emit_expr e)
        | Named n e => Named n (e, emit_expr e)
        end in
      emit_fb_call (fc_callee call) (map arg (fc_inputs call)) (fc_outputs call) ;;
      m_err Code.EType
  end.

(** An argument of a call statement. *)
Definition arg_of (a : CallArg Expr) : CallArg Arg :=
  match a with
  | Positional e => Positional (e, emit_expr e)
  | Named n e => Named n (e, emit_expr e)
  end.

(** ** Statements *)

Definition push_dint (n : Z) : Gen unit := emit (WithImm32 PushIDint 0 n).

Definition expect_bool (cond : Expr) : Gen unit :=
  t ← emit_expr cond;
  if bool_decide (t <> TBool) then m_err Code.EType else mret tt.

(** The labels of an arm of CASE: to the body on a match, on to the next arm when none matches. *)
Fixpoint emit_labels (tmp : Z) (body_l next_l : Label) (labels : list Z) : Gen unit :=
  match labels with
  | [] => mret tt
  | lab :: labels =>
      emit_simple LdData tmp ;;
      push_dint (wrap_u 32 lab) ;;
      emit_simple Eq 0 ;;
      match labels with
      | [] => emit_jmp JmpIfNot next_l
      | _ => emit_jmp JmpIf body_l
      end ;;
      emit_labels tmp body_l next_l labels
  end.

(** [counter := max]; the head of a loop; leave it when the counter is 0. *)
Definition emit_loop_head (head_prefix end_prefix : string) (counter max : Z) : Gen (Label * Label) :=
  push_dint max ;;
  emit_simple StData counter ;;
  head ← fresh_label head_prefix;
  end_ ← fresh_label end_prefix;
  place_label head ;;
  emit_simple LdData counter ;;
  push_dint 0 ;;
  emit_simple Eq 0 ;;
  emit_jmp JmpIf end_ ;;
  mret (head, end_).

(** [counter := counter - 1]; back to the head. *)
Definition emit_loop_foot (head end_ : Label) (counter : Z) : Gen unit :=
  emit_simple LdData counter ;;
  push_dint 1 ;;
  emit_simple Sub 0 ;;
  emit_simple StData counter ;;
  emit_jmp Jmp head ;;
  place_label end_.

(** The bound of a FOR: given, or proved from constant limits. *)
Definition for_max (from to : Expr) (by_ : option Expr) (max_iter : option Z) : res ErrorCode Z :=
  match max_iter with
  | Some m => Ok m
  | None =>
      match from, to, by_ with
      | ELiteral (LInt a), ELiteral (LInt b), (None | Some (ELiteral (LInt 1))) =>
          if b <? a then Err Code.EUnboundedLoop
          else
            d ← i64_checked (b - a);
            n ← i64_checked (d + 1);
            if n <=? MAX_LOOP_DEFAULT then Ok (wrap_u 32 n) else Err Code.EUnboundedLoop
      | _, _, _ => Err Code.EUnboundedLoop
      end
  end.

(** The offset of the variable of a FOR; an undeclared one is allocated. *)
Definition for_var (var : bytes) : Gen Z :=
  sym ← m_gets (fun g => lookup_sym g var);
  match sym with
  | Some (StDataVar offset _) => mret offset
  | Some _ => m_err Code.EType
  | None =>
      off ← alloc_temp TDint;
      m_modify (fun g =>
        set_cg_locals (<[to_ascii_lowercase var := StDataVar off (TdElem TDint)]> (cg_locals g)) g) ;;
      mret off
  end.

Fixpoint emit_stmt (stmt : Stmt) : Gen unit :=
  let emit_list := fix emit_list (ss : list Stmt) : Gen unit :=
    match ss with [] => mret tt | s :: ss => emit_stmt s ;; emit_list ss end in
  let emit_else := fun (e : option (list Stmt)) => match e with Some ss => emit_list ss | None => mret tt end in
  match stmt with
  | SEmpty => mret tt
  | SReturn => emit_simple Ret 0
  | SAssign lhs rhs => emit_expr rhs ;; emit_store lhs
  | SFbCall call => emit_fb_call (fc_callee call) (map arg_of (fc_inputs call)) (fc_outputs call)
  | SIf branches else_body =>
      end_ ← fresh_label "if_end";
      (fix emit_branches (bs : list (Expr * list Stmt)) : Gen unit :=
         match bs with
         | [] => mret tt
         | (cond, body) :: bs =>
             next ← fresh_label "if_next";
             expect_bool cond ;;
             emit_jmp JmpIfNot next ;;
             emit_list body ;;
             (match bs, else_body with [], None => mret tt | _, _ => emit_jmp Jmp end_ end) ;;
             place_label next ;;
             emit_branches bs
         end) branches ;;
      emit_else else_body ;;
      place_label end_
  | SCase selector arms else_body =>
      sel_ty ← emit_expr selector;
      if bool_decide (sel_ty <> TInt /\ sel_ty <> TDint) then m_err Code.EType
      else
        tmp ← alloc_temp sel_ty;
        emit_simple StData tmp ;;
        end_ ← fresh_label "case_end";
        (fix emit_arms (as_ : list (CaseArm Stmt)) : Gen unit :=
           match as_ with
           | [] => mret tt
           | mkArm labels body :: as_ =>
               body_l ← fresh_label "case_body";
               next_l ← fresh_label "case_next";
               emit_labels tmp body_l next_l labels ;;
               place_label body_l ;;
               emit_list body ;;
               emit_jmp Jmp end_ ;;
               place_label next_l ;;
               emit_arms as_
           end) arms ;;
        emit_else else_body ;;
        place_label end_
  | SWhile cond max_iter body =>
      match max_iter with
      | None => m_err Code.EUnboundedLoop
      | Some max =>
          counter ← alloc_temp TDint;
          ls ← emit_loop_head "wh_head" "wh_end" counter max;
          expect_bool cond ;;
          emit_jmp JmpIfNot ls.2 ;;
          emit_list body ;;
          emit_loop_foot ls.1 ls.2 counter
      end
  | SFor var from to by_ max_iter body =>
      max ← m_lift (for_max from to by_ max_iter);
      var_off ← for_var var;
      emit_expr from ;;
      emit_simple StData var_off ;;
      to_tmp ← alloc_temp TDint;
      emit_expr to ;;
      emit_simple StData to_tmp ;;
      by_tmp ← alloc_temp TDint;
      (match by_ with Some b => emit_expr b ;; mret tt | None => push_dint 1 end) ;;
      emit_simple StData by_tmp ;;
      counter ← alloc_temp TDint;
      ls ← emit_loop_head "for_head" "for_end" counter max;
      emit_simple LdData var_off ;;
      emit_simple LdData to_tmp ;;
      emit_simple Gt 0 ;;
      emit_jmp JmpIf ls.2 ;;
      emit_list body ;;
      emit_simple LdData var_off ;;
      emit_simple LdData by_tmp ;;
      emit_simple Add 0 ;;
      emit_simple StData var_off ;;
      emit_loop_foot ls.1 ls.2 counter
  end.

(** A body, statement by statement. *)
Fixpoint emit_stmts (ss : list Stmt) : Gen unit :=
  match ss with [] => mret tt | s :: ss => emit_stmt s ;; emit_stmts ss end.
End Calls.

(** ** Patching the jumps *)

Definition patch_jump (code : bytes) (off pc : Z) : bytes :=
  let word := read_u32 code off in
  let op := Z.shiftr word 24 in
  blit code (Z.to_nat off) (le_split 4 (Z.lor (Z.shiftl op 24) (Z.land pc 0x00FFFFFF))).

Fixpoint patch_all (labels : gmap Label Z) (fixups : list (Z * Label)) (code : bytes) : res ErrorCode bytes :=
  match fixups with
  | [] => Ok code
  | (off, l) :: fixups =>
      pc ← ok_or (labels !! l) Code.ECodegen;
      patch_all labels fixups (patch_jump code off pc)
  end.

Definition finish (g : Codegen) (data_size retain_size input_slots output_slots : Z) : res ErrorCode IrModule :=
  code ← patch_all (cg_labels g) (cg_fixups g) (cg_code g);
  Ok {| ir_major := IR_MAJOR; ir_minor := IR_MINOR; const_size := 0;
        data_size := Z.max (Z.max data_size (cg_extra_data g)) 16;
        retain_size := Z.max retain_size (cg_extra_retain g);
        input_slots := input_slots; output_slots := output_slots;
        entries := cg_entries g; const_data := []; code := code |}.
