(* ===== verification/CompUnit.v ===== *)
(** * The compiler: whole projects

    Crate [plc-compiler], src/crates/plc-compiler/src/bind.rs, [compile_loaded] once
    the sources are parsed: the declarations are collected, laid out and bound, the
    bodies of the function blocks and of the tasks emitted, and the module finished
    and verified. *)
From S2P Require Import Prelude Text IrTypes IrEncode IrVerify AuthTypes PkgManifest CompAst CompLayout CompBind CompGen.

(** ** Collecting the declarations *)

Definition is_program (d : Decl) : bool := match d with DProgram _ => true | _ => false end.

(** Libraries may only contribute function blocks. *)
Fixpoint check_libs (libs : list CompilationUnit) : res ErrorCode unit :=
  match libs with
  | [] => Ok tt
  | u :: libs => if existsb is_program u then Err Code.EProject else check_libs libs
  end.

Record Decls := mkDecls { ds_fbs : list (bytes * FunctionBlock); ds_programs : list (bytes * Program) }.

Definition add_decl (d : Decl) (ds : Decls) : res ErrorCode Decls :=
  match d with
  | DFunctionBlock fb =>
      let key := to_ascii_lowercase (fb_name fb) in
      if bt_mem key (ds_fbs ds) then Err Code.EDuplicate
      else Ok (mkDecls (bt_insert key fb (ds_fbs ds)) (ds_programs ds))
  | DProgram p =>
      let key := to_ascii_lowercase (pr_name p) in
      if bt_mem key (ds_programs ds) then Err Code.EDuplicate
      else Ok (mkDecls (ds_fbs ds) (bt_insert key p (ds_programs ds)))
  end.

Fixpoint collect (l : list Decl) (ds : Decls) : res ErrorCode Decls :=
  match l with
  | [] => Ok ds
  | d :: l => ds ← add_decl d ds; collect l ds
  end.

(** ** Tags and globals *)

Definition tag_kind (s : bytes) : res ErrorCode TagKind :=
  ok_or (str_match (Op.to_ascii_uppercase (text s)) [("I", TkI); ("Q", TkQ); ("M", TkM); ("R", TkR)]%string)
    Code.EProject.

Definition bind_tag (tag : TagMap) (b : Binder) : res ErrorCode Binder :=
  ty ← parse_ir_type (tg_ty tag);
  kind ← tag_kind (tg_kind tag);
  let b := add_tag (mkTag (tg_name tag) ty kind (tg_slot tag)) b in
  match kind with
  | TkI =>
      n ← u32_add (default (bd_input_slots b) (tg_slot tag)) 1;
      Ok (set_bd_slots (Z.max (bd_input_slots b) n) (bd_output_slots b) b)
  | TkQ =>
      n ← u32_add (default (bd_output_slots b) (tg_slot tag)) 1;
      Ok (set_bd_slots (bd_input_slots b) (Z.max (bd_output_slots b) n) b)
  | _ => Ok b
  end.

Fixpoint bind_tags (tags : list TagMap) (b : Binder) : res ErrorCode Binder :=
  match tags with
  | [] => Ok b
  | t :: tags => b ← bind_tag t b; bind_tags tags b
  end.

Definition binder_new : Binder := mkBinder ∅ (mkAlloc 0 0) (fun _ => 0) [] 0 0 [].

Fixpoint bind_programs (fbs : FbLayouts) (max_instances : Z) (ps : list (bytes * Program)) (b : Binder) :
    res ErrorCode Binder :=
  match ps with
  | [] => Ok b
  | p :: ps =>
      b ← bind_var_sections fbs max_instances true (pr_vars p.2) b;
      bind_programs fbs max_instances ps b
  end.

Definition task_entry_name (name : bytes) : bytes := bstr "task." ++ name.

Fixpoint check_tasks (programs : list (bytes * Program)) (tasks : list TaskMap) (entries : list (bytes * bytes)) :
    res ErrorCode (list (bytes * bytes)) :=
  match tasks with
  | [] => Ok entries
  | t :: tasks =>
      if bt_mem (to_ascii_lowercase (tm_program t)) programs then
        check_tasks programs tasks (bt_insert (tm_name t) (task_entry_name (tm_name t)) entries)
      else Err Code.EProject
  end.

(** ** Bodies of function blocks *)

Fixpoint field_symbols (fs : list FieldLayout) (locals : gmap bytes Storage) : res ErrorCode (gmap bytes Storage) :=
  match fs with
  | [] => Ok locals
  | f :: fs =>
      s ← (if fl_retain f then o ← retain_off f; Ok (StRetainVar o (default TBool (ir_elem (fl_ty f))))
           else Ok (StDataVar (fl_offset f) (fl_ty f)));
      field_symbols fs (<[to_ascii_lowercase (fl_name f) := s]> locals)
  end.

(** The instances declared in a function block take their storage from the globals'. *)
Fixpoint instance_symbols (layouts : FbLayouts) (max_instances : Z) (is_ : list (bytes * TypeDef))
    (locals : gmap bytes Storage) (b : Binder) : res ErrorCode (Binder * gmap bytes Storage) :=
  match is_ with
  | [] => Ok (b, locals)
  | (name, ty) :: is_ =>
      match ty with
      | TdPrim p =>
          r ← bind_prim max_instances p b;
          instance_symbols layouts max_instances is_ (<[to_ascii_lowercase name := r.2]> locals) r.1
      | TdUserFb fb =>
          r ← bind_user_inst layouts fb b;
          instance_symbols layouts max_instances is_ (<[to_ascii_lowercase name := r.2]> locals) r.1
      | _ => instance_symbols layouts max_instances is_ locals b
      end
  end.

Definition fb_entry_name (id : Z) : bytes := bstr (String.append "fb." (pretty id)).

Definition set_entry_name (name : bytes) (l : UserFbLayout) : UserFbLayout :=
  mkFbLayout (ul_inputs l) (ul_fields l) (ul_total_data_size l) name (ul_body l) (ul_instances l).

Section Units.
Context `{HashOrder, Sha256}.

Definition emit_fb (max_instances : Z) (id : Z) (key : bytes) (l : UserFbLayout) (b : Binder) : Gen Binder :=
  let entry_name := fb_entry_name id in
  m_modify (fun g => set_cg_layouts (alter (set_entry_name entry_name) key (cg_fb_layouts g)) g) ;;
  begin_entry entry_name true ;;
  fields ← m_lift (field_symbols (ul_fields l) ∅);
  layouts ← m_gets cg_fb_layouts;
  r ← m_lift (instance_symbols layouts max_instances (ul_instances l) fields b);
  with_locals r.2 (emit_stmts (ul_body l) ;; emit_simple Ret 0) ;;
  mret r.1.

Fixpoint emit_fbs (max_instances : Z) (id : Z) (fbs : list (bytes * UserFbLayout)) (b : Binder) : Gen Binder :=
  match fbs with
  | [] => mret b
  | (key, l) :: fbs => b ← emit_fb max_instances id key l b; emit_fbs max_instances (id + 1) fbs b
  end.

(** ** Tasks *)

Definition emit_task (programs : list (bytes * Program)) (t : TaskMap) : Gen unit :=
  prog ← m_lift (match bt_get (to_ascii_lowercase (tm_program t)) programs with Some p => Ok p | None => Panic end);
  begin_entry (task_entry_name (tm_name t)) false ;;
  with_locals ∅ (emit_stmts (pr_body prog) ;; emit_simple Halt 0).

Definition restart_policy (s : bytes) : res ErrorCode RestartPolicy :=
  if bool_decide (s = bstr "safe_reset") then Ok RpSafeReset
  else if bool_decide (s = bstr "bumpless") then Ok RpBumpless
  else Err Code.EProject.

(** The module of a project, with what the manifest is made of. *)
Definition generate (fbs : FbLayouts) (programs : list (bytes * Program)) (file : ProjectFile) (b : Binder) :
    res ErrorCode IrModule :=
  let '(g, r) :=
    (b ← emit_fbs (pf_max_instances file) 0 (hash_order (map_to_list fbs)) b;
     m_each (pf_task file) (emit_task programs) ;;
     mret (bd_alloc b)) (codegen_new fbs (bd_globals b)) in
  al ← r;
  finish g (Z.max (al_data al) (cg_extra_data g)) (Z.max (al_retain al) (cg_extra_retain g))
    (bd_input_slots b) (bd_output_slots b).

(** [compile_loaded] on the parsed units; [fuel] bounds the walk of the recursion check. *)
Definition compile_units (fuel : nat) (libs units : list CompilationUnit) (file : ProjectFile) (build_id : bytes) :
    option (res ErrorCode (IrModule * Manifest)) :=
  let front :=
    check_libs libs ;;
    ds ← collect (concat libs ++ concat units) (mkDecls [] []);
    fbs ← layout_all (ds_fbs ds);
    Ok (ds, fbs) in
  match front with
  | Err e => Some (Err e)
  | Panic => Some Panic
  | Ok (ds, fbs) =>
      c ← check_fb_recursion fuel (ds_fbs ds);
      Some
        (c ;;
         b ← bind_tags (pf_tag file) binder_new;
         b ← bind_programs fbs (pf_max_instances file) (ds_programs ds) b;
         task_entries ← check_tasks (ds_programs ds) (pf_task file) [];
         m ← generate fbs (ds_programs ds) file b;
         map_err (fun _ => Code.ECodegen) (verify_module m) ;;
         policy ← restart_policy (pf_restart_policy file);
         let manifest :=
           mkManifest (pf_id file) (pf_version file) build_id IR_MAJOR IR_MINOR PRIMITIVE_ABI task_entries
             (bd_retain_symbols b) (bd_tags b) policy (replicate 64 48)
             (Some (bd_input_slots b)) (Some (bd_output_slots b))
             (Some (data_size m)) (Some (retain_size m)) (Some (const_size m)) in
         Ok (m, set_compatibility_hash (compute_compatibility_hash manifest) manifest))
  end.
End Units.
