(* ===== verification/CompSem.v ===== *)
(** * The compiler: what a program means

    A reference semantics of the syntax trees: an evaluator over variables by name,
    without offsets, code or jumps. A variable takes any value that fits its type;
    [XUndefined] marks what no theorem speaks of: a value that does not fit, a read of a
    variable that has no value yet, a slot of another type than BOOL that holds a BOOL (as
    all do before they are written) or the other way round, arrays and user function
    blocks. The operators and the primitives are the machine's. *)
From S2P Require Import Prelude Float32 Text IrTypes FbDispatch VmValue VmMemory VmExec.
From S2P Require Import CompAst CompLayout CompBind CompGen.

Inductive Exit := XUndefined | XFault | XReturn.

(** ** Variables *)

(** A declared variable without its place. *)
Inductive SrcVar :=
  | SvInput (slot : Z) (ty : IrType)
  | SvOutput (slot : Z) (ty : IrType)
  | SvVar (ty : IrType)
  | SvRetain (ty : IrType)
  | SvConst (value : Literal)
  | SvPrim (id : PrimitiveId) (instance : Z)
  | SvOther.

Definition erase (s : Storage) : SrcVar :=
  match s with
  | StInput slot ty => SvInput slot ty
  | StOutput slot ty => SvOutput slot ty
  | StDataVar _ (TdElem ty) => SvVar ty
  | StRetainVar _ ty => SvRetain ty
  | StPrim id instance _ => SvPrim id instance
  | StConst _ value => SvConst value
  | _ => SvOther
  end.

(** What holds a value: a variable, an output of a primitive instance, or (in proofs
    only) an anonymous place of the generated code. *)
Inductive Cell :=
  | CVar (name : bytes)
  | COut (name out : bytes)
  | CTmp (off width : Z).

#[export] Instance cell_eq_dec : EqDecision Cell.
Proof. solve_decision. Defined.

#[export] Instance cell_countable : Countable Cell.
Proof.
  apply (inj_countable' (fun c => match c with
    | CVar n => inl n | COut n o => inr (inl (n, o)) | CTmp o w => inr (inr (o, w)) end)
    (fun x => match x with
    | inl n => CVar n | inr (inl (n, o)) => COut n o | inr (inr (o, w)) => CTmp o w end)).
  by intros [].
Defined.

Record SrcState := mkSrc {
  ss_cells : gmap Cell VmValue;
  ss_outputs : SlotImage;
  ss_prims : PrimitiveStore;
  ss_div0 : Z;
  ss_dirty : bool }.

Definition set_cells (x : gmap Cell VmValue) (s : SrcState) : SrcState :=
  mkSrc x (ss_outputs s) (ss_prims s) (ss_div0 s) (ss_dirty s).
Definition set_src_outputs (x : SlotImage) (s : SrcState) : SrcState :=
  mkSrc (ss_cells s) x (ss_prims s) (ss_div0 s) (ss_dirty s).
Definition set_prims (x : PrimitiveStore) (s : SrcState) : SrcState :=
  mkSrc (ss_cells s) (ss_outputs s) x (ss_div0 s) (ss_dirty s).
Definition set_div0 (x : Z) (s : SrcState) : SrcState :=
  mkSrc (ss_cells s) (ss_outputs s) (ss_prims s) x (ss_dirty s).
Definition set_dirty (x : bool) (s : SrcState) : SrcState :=
  mkSrc (ss_cells s) (ss_outputs s) (ss_prims s) (ss_div0 s) x.

Abbreviation Sem := (M SrcState Exit).

(** An operation of the machine: its errors are faults. *)
Definition machine {A} (r : res VmError A) : Sem A := m_lift (map_err (fun _ => XFault) r).

Definition read_cell (c : Cell) : Sem VmValue := fun s => (s, ok_or (ss_cells s !! c) XUndefined).

Definition fits (ty : IrType) (v : VmValue) : bool := Val.byte_width v <=? elem_size ty.

Definition fit (ty : IrType) (v : VmValue) : Sem VmValue := if fits ty v then mret v else m_err XUndefined.

(** A slot holds a BOOL exactly when it is declared as one. *)
Definition is_bool (v : VmValue) : bool := match v with VBool _ => true | _ => false end.

Definition fit_slot (ty : IrType) (v : VmValue) : Sem VmValue :=
  if fits ty v && Bool.eqb (is_bool v) (bool_decide (ty = TBool)) then mret v else m_err XUndefined.

Definition write_cell (c : Cell) (ty : IrType) (v : VmValue) : Sem unit :=
  if fits ty v then m_modify (fun s => set_cells (<[c := v]> (ss_cells s)) s) else m_err XUndefined.

(** An undeclared variable is an implicit DINT loop variable. *)
Definition var_of (vars : gmap bytes SrcVar) (name : bytes) : SrcVar :=
  default (SvVar TDint) (vars !! to_ascii_lowercase name).

Definition literal_value (l : Literal) : option VmValue :=
  match l with
  | LBool b => Some (VBool b)
  | LInt v => Some (VDint (wrap_s 32 v))
  | LReal bits => if (0 <=? bits) && (bits <? 2 ^ 32) then Some (VReal bits) else None
  | LTimeMs ms => Some (VTime (wrap_s 32 ms))
  end.

Definition bool_of (v : VmValue) : res Exit bool := match v with VBool b => Ok b | _ => Err XUndefined end.

(** A range over which a value of [imm : u32] is iterated. *)
Definition count_of (max : Z) : res Exit nat :=
  if (0 <=? max) && (max <? 2 ^ 32) then Ok (Z.to_nat max) else Err XUndefined.

Section Sem.
Context `{NanRule} (now : Z) (inputs : SlotImage) (vars : gmap bytes SrcVar).

(** ** Expressions *)

Definition src_binop (op : Opcode) (a b : VmValue) : Sem VmValue := fun s =>
  let '(d, r) := binop op a b 0 (ss_div0 s) in (set_div0 d s, map_err (fun _ => XFault) r).

Definition eval_path (path : list (PathSeg Expr)) : Sem VmValue :=
  match path with
  | [PIdent n] =>
      match var_of vars n with
      | SvInput slot ty => v ← machine (Slots.get inputs slot 0); fit_slot ty v
      | SvOutput slot ty => v ← (fun s => machine (Slots.get (ss_outputs s) slot 0) s); fit_slot ty v
      | SvVar _ | SvRetain _ => read_cell (CVar (to_ascii_lowercase n))
      | SvConst value => m_lift (ok_or (literal_value value) XUndefined)
      | _ => m_err XUndefined
      end
  | PIdent n :: PIdent field :: _ =>
      match var_of vars n with
      | SvPrim _ _ => read_cell (COut (to_ascii_lowercase n) (to_ascii_lowercase field))
      | _ => m_err XUndefined
      end
  | _ => m_err XUndefined
  end.

Definition eval_q_good (e : Expr) : Sem VmValue :=
  match e with
  | EName (PIdent n :: _) =>
      match var_of vars n with
      | SvInput slot _ => good ← machine (Slots.quality_good inputs slot 0); mret (VBool good)
      | _ => m_err XUndefined
      end
  | _ => m_err XUndefined
  end.

(** AND and OR: the right operand counts only when the left one is [go]. *)
Definition eval_short (go : bool) (left right : Sem VmValue) : Sem VmValue :=
  v ← left;
  b ← m_lift (bool_of v);
  if Bool.eqb b go then right else mret (VBool b).

Fixpoint eval (e : Expr) : Sem VmValue :=
  match e with
  | ELiteral l => m_lift (ok_or (literal_value l) XUndefined)
  | EName path => eval_path path
  | EUnary op e => v ← eval e; machine (unary_op (match op with UNot => Not | UNeg => Neg end) v 0)
  | EBinary BAnd l r => eval_short true (eval l) (eval r)
  | EBinary BOr l r => eval_short false (eval l) (eval r)
  | EBinary op l r =>
      a ← eval l;
      b ← eval r;
      match binary_code op with Some code => src_binop code a b | None => m_err XUndefined end
  | EQGood e => eval_q_good e
  | EFbCall _ => m_err XUndefined
  end.

(** ** Assignment *)

Definition out_type (id : PrimitiveId) (field : bytes) : option IrType :=
  snd <$> List.find (fun o => eq_ignore_ascii_case o.1 field) (prim_out_types id).

Definition assign (lhs : Expr) (v : VmValue) : Sem unit :=
  match lhs with
  | EName [PIdent n] =>
      match var_of vars n with
      | SvOutput slot _ => fun s =>
          match Slots.set (ss_outputs s) slot v 0 with
          | Ok o => (set_src_outputs o s, Ok tt)
          | _ => (s, Err XFault)
          end
      | SvVar ty => write_cell (CVar (to_ascii_lowercase n)) ty v
      | SvRetain ty => write_cell (CVar (to_ascii_lowercase n)) ty v ;; m_modify (set_dirty true)
      | _ => m_err XUndefined
      end
  | EName (PIdent n :: PIdent field :: _) =>
      match var_of vars n with
      | SvPrim id _ =>
          ty ← m_lift (ok_or (out_type id field) XUndefined);
          write_cell (COut (to_ascii_lowercase n) (to_ascii_lowercase field)) ty v
      | _ => m_err XUndefined
      end
  | _ => m_err XUndefined
  end.

(** ** Calls of primitives *)

Definition eval_arg (a : CallArg Expr) : CallArg (Expr * Sem VmValue) :=
  match a with
  | Positional e => Positional (e, eval e)
  | Named n e => Named n (e, eval e)
  end.

Fixpoint eval_all (args : list (option (Expr * Sem VmValue))) : Sem (list VmValue) :=
  match args with
  | [] => mret []
  | Some a :: args => v ← a.2; vs ← eval_all args; mret (v :: vs)
  | None :: _ => m_err XUndefined
  end.

Definition src_primitive (id : PrimitiveId) (instance : Z) (args : list VmValue) : Sem PrimitiveOutputs := fun s =>
  let '(p, r) := call_primitive id (Z.to_nat instance) (map Val.to_stack_value args) now (ss_prims s) in
  (set_prims p s, map_err (fun _ => XFault) r).

(** The outputs go to the cells of the instance, the first one first. *)
Fixpoint store_outs (id : PrimitiveId) (name : bytes) (outs : list (bytes * IrType)) (i : nat)
    (o : PrimitiveOutputs) : Sem unit :=
  match outs with
  | [] => mret tt
  | (out, ty) :: outs =>
      v ← m_lift (index (values o) i);
      write_cell (COut name (to_ascii_lowercase out)) ty
        (Val.from_stack_value v (is_timer id && (i =? 1)%nat)) ;;
      store_outs id name outs (S i) o
  end.

Definition deliver_out (name : bytes) (o : CallOut Expr) : Sem unit :=
  if eq_ignore_ascii_case (co_name o) (bstr "ENO") then mret tt
  else v ← read_cell (COut name (to_ascii_lowercase (co_name o))); assign (co_dest o) v.

Definition exec_fb_call (call : FbCallExpr Expr) : Sem unit :=
  match fc_callee call with
  | [PIdent n] =>
      match var_of vars n with
      | SvPrim id instance =>
          let names := prim_in_names id in
          args ← m_lift (map_err (fun _ => XUndefined)
            (resolve_args names (map eval_arg (fc_inputs call)) (replicate (length names) None) 0));
          vs ← eval_all args;
          o ← src_primitive id instance vs;
          store_outs id (to_ascii_lowercase n) (prim_out_types id) 0 o ;;
          m_each (fc_outputs call) (deliver_out (to_ascii_lowercase n))
      | _ => m_err XUndefined
      end
  | _ => m_err XUndefined
  end.

(** ** Statements *)

Definition matches_label (v : VmValue) (label : Z) : bool := values_eq v (VDint (wrap_s 32 label)).

(** An arm without labels takes every value. *)
Definition takes_arm (v : VmValue) (labels : list Z) : bool :=
  bool_decide (labels = []) || existsb (matches_label v) labels.

(** At most [n] turns while [cond] holds. *)
Fixpoint turns (n : nat) (cond : Sem bool) (body : Sem unit) : Sem unit :=
  match n with
  | O => mret tt
  | S n => c ← cond; if (c : bool) then body ;; turns n cond body else mret tt
  end.

Definition eval_cond (e : Expr) : Sem bool := v ← eval e; mret (Val.as_bool v).

Definition loop_var (var : bytes) : Sem IrType :=
  match var_of vars var with SvVar ty => mret ty | _ => m_err XUndefined end.

Fixpoint exec (stmt : Stmt) : Sem unit :=
  let exec_list := fix exec_list (ss : list Stmt) : Sem unit :=
    match ss with [] => mret tt | s :: ss => exec s ;; exec_list ss end in
  let exec_else := fun (e : option (list Stmt)) => match e with Some ss => exec_list ss | None => mret tt end in
  match stmt with
  | SEmpty => mret tt
  | SReturn => m_err XReturn
  | SAssign lhs rhs => v ← eval rhs; assign lhs v
  | SFbCall call => exec_fb_call call
  | SIf branches else_body =>
      (fix exec_branches (bs : list (Expr * list Stmt)) : Sem unit :=
         match bs with
         | [] => exec_else else_body
         | (cond, body) :: bs =>
             c ← eval_cond cond;
             if (c : bool) then exec_list body else exec_branches bs
         end) branches
  | SCase selector arms else_body =>
      v ← eval selector;
      (fix exec_arms (as_ : list (CaseArm Stmt)) : Sem unit :=
         match as_ with
         | [] => exec_else else_body
         | mkArm labels body :: as_ => if takes_arm v labels then exec_list body else exec_arms as_
         end) arms
  | SWhile cond max_iter body =>
      max ← m_lift (ok_or max_iter XUndefined);
      n ← m_lift (count_of max);
      turns n (eval_cond cond) (exec_list body)
  | SFor var from to by_ max_iter body =>
      max ← m_lift (map_err (fun _ => XUndefined) (for_max from to by_ max_iter));
      n ← m_lift (count_of max);
      ty ← loop_var var;
      let cell := CVar (to_ascii_lowercase var) in
      a ← eval from;
      write_cell cell ty a ;;
      b ← (b ← eval to; fit TDint b);
      step ← (step ← match by_ with Some e => eval e | None => mret (VDint 1) end; fit TDint step);
      turns n
        (x ← read_cell cell; r ← src_binop Gt x b; mret (negb (Val.as_bool r)))
        (exec_list body ;;
         x ← read_cell cell;
         x ← src_binop Add x step;
         write_cell cell ty x)
  end.

Fixpoint exec_all (ss : list Stmt) : Sem unit :=
  match ss with [] => mret tt | s :: ss => exec s ;; exec_all ss end.
End Sem.
