(* ===== verification/CompAsm.v ===== *)
(** * The compiler: code with labels

    What the code a compilation has emitted means once its jumps are patched: a list of
    instructions, some of them jumps to labels, of which [finish] (bind.rs) makes code
    that decodes to these instructions with the labels' positions. *)
From S2P Require Import Prelude IrTypes IrEncode CompAst CompLayout CompBind CompGen.

Inductive AInstr := Plain (i : DecodedInstr) | Jump (op : Opcode) (l : Label).

(** As emitted: a jump goes nowhere yet. *)
Definition skeleton (a : AInstr) : DecodedInstr :=
  match a with Plain i => i | Jump op _ => Simple op 0 end.

Definition mask24 (pc : Z) : Z := Z.land pc 0x00FFFFFF.

Definition resolved (labels : gmap Label Z) (a : AInstr) : DecodedInstr :=
  match a with Plain i => i | Jump op l => Simple op (mask24 (default 0 (labels !! l))) end.

Definition isize (i : DecodedInstr) : Z := len (encode_instruction i).
Definition asize (a : AInstr) : Z := isize (skeleton a).

Definition assemble (d : list AInstr) : bytes := flat_map (fun a => encode_instruction (skeleton a)) d.
Definition link (labels : gmap Label Z) (d : list AInstr) : bytes :=
  flat_map (fun a => encode_instruction (resolved labels a)) d.

Definition size_of (d : list AInstr) : Z := len (assemble d).

Fixpoint fixups_of (off : Z) (d : list AInstr) : list (Z * Label) :=
  match d with
  | [] => []
  | a :: d =>
      match a with Plain _ => [] | Jump _ l => [(off, l)] end ++ fixups_of (off + asize a) d
  end.

(** The code decodes to [d] from [pc] on, where the fields of an instruction fit. *)
Fixpoint code_at (code : bytes) (labels : gmap Label Z) (pc : Z) (d : list AInstr) : Prop :=
  match d with
  | [] => True
  | a :: d =>
      (instr_ok (resolved labels a) ->
       decode_instruction code pc = Ok (resolved labels a, asize a)) /\
      code_at code labels (pc + asize a) d
  end.

Lemma isize_cases i : isize i = match i with Simple _ _ => 4 | WithImm32 _ _ _ => 8 | ICallFb _ _ _ => 12 end.
Proof. unfold isize, len. destruct i; cbn [encode_instruction]; rewrite ?length_app, ?length_le_split; done. Qed.

Lemma isize_resolved labels a : isize (resolved labels a) = asize a.
Proof. unfold asize. rewrite !isize_cases. by destruct a. Qed.

Lemma asize_pos a : 4 <= asize a.
Proof. unfold asize. rewrite isize_cases. destruct (skeleton a); lia. Qed.

Lemma size_cons a d : size_of (a :: d) = asize a + size_of d.
Proof. unfold size_of. cbn [assemble flat_map]. by rewrite len_app. Qed.

Lemma size_app d e : size_of (d ++ e) = size_of d + size_of e.
Proof. unfold size_of, assemble. by rewrite flat_map_app, len_app. Qed.

Lemma size_nil : size_of [] = 0.
Proof. done. Qed.

Lemma size_nonneg d : 0 <= size_of d.
Proof. unfold size_of, len. lia. Qed.

Lemma fixups_app off d e : fixups_of off (d ++ e) = fixups_of off d ++ fixups_of (off + size_of d) e.
Proof.
  revert off. induction d as [|a d IH]; intros off; cbn [fixups_of app].
  - by rewrite size_nil, Z.add_0_r.
  - rewrite IH, size_cons, <-app_assoc. by rewrite Z.add_assoc.
Qed.

Lemma code_at_app code labels pc d e :
  code_at code labels pc (d ++ e) <-> code_at code labels pc d /\ code_at code labels (pc + size_of d) e.
Proof.
  revert pc. induction d as [|a d IH]; intros pc; cbn [code_at app].
  - rewrite size_nil, Z.add_0_r. tauto.
  - rewrite IH, size_cons, Z.add_assoc. tauto.
Qed.

(** ** Patching *)

Lemma blit_mid {A} (pre old new post : list A) :
  length old = length new -> blit (pre ++ old ++ post) (length pre) new = pre ++ new ++ post.
Proof.
  intros Hl. unfold blit. rewrite take_app_length. f_equal. f_equal.
  rewrite <-Hl, app_assoc, <-length_app. apply drop_app_length.
Qed.

Lemma patch_jump_mid pre op post pc :
  patch_jump (pre ++ encode_instruction (Simple op 0) ++ post) (len pre) pc =
  pre ++ encode_instruction (Simple op (mask24 pc)) ++ post.
Proof.
  unfold patch_jump. cbn [encode_instruction].
  rewrite read_u32_app by apply pack_word_range.
  rewrite decode_op_byte by (unfold u_range; lia).
  unfold len. rewrite Nat2Z.id. rewrite blit_mid by (by rewrite !length_le_split).
  f_equal. f_equal. f_equal. unfold pack_word, mask24. by rewrite <-Z.land_assoc.
Qed.

Lemma patch_all_link labels d pre code :
  patch_all labels (fixups_of (len pre) d) (pre ++ assemble d) = Ok code ->
  code = pre ++ link labels d.
Proof.
  revert pre code. induction d as [|a d IH]; intros pre code; cbn [fixups_of assemble link flat_map app].
  { intros Hp. cbn in Hp. by apply Ok_inj in Hp. }
  fold (assemble d) (link labels d). intros Hp.
  assert (Hi : forall i, isize i = asize a ->
    patch_all labels (fixups_of (len pre + asize a) d) (pre ++ encode_instruction i ++ assemble d) = Ok code ->
    code = pre ++ encode_instruction i ++ link labels d).
  { intros i Hs Hi. rewrite app_assoc in Hi |- *. apply IH. unfold isize in Hs.
    by rewrite len_app, Hs. }
  destruct a as [i|op l]; cbn [app resolved skeleton] in *; [by apply Hi|].
  cbn [patch_all] in Hp. apply res_bind_Ok in Hp as (pc & Hpc%ok_or_Ok & Hp). rewrite Hpc.
  rewrite patch_jump_mid in Hp. apply Hi; [|done]. by rewrite !isize_cases.
Qed.

Lemma link_code_at labels d pre post : code_at (pre ++ link labels d ++ post) labels (len pre) d.
Proof.
  revert pre. induction d as [|a d IH]; intros pre; cbn [code_at link flat_map]; [done|].
  fold (link labels d). rewrite <-app_assoc. split.
  - intros Hok. rewrite <-(isize_resolved labels). by apply decode_at.
  - rewrite app_assoc, <-(isize_resolved labels). unfold isize. rewrite <-len_app. apply IH.
Qed.

(** Patched code decodes to the instructions emitted. *)
Lemma patched_code_at labels d code :
  patch_all labels (fixups_of 0 d) (assemble d) = Ok code -> code_at code labels 0 d.
Proof.
  intros Hp. apply (patch_all_link labels d []) in Hp as ->.
  pose proof (link_code_at labels d [] []) as H. by rewrite app_nil_r in H.
Qed.
