(* ===== verification/CompRun.v ===== *)
(** * The compiler: running what it emits

    The machine's side of the correctness of the compiler: what it means that the
    machine does what a piece of the reference semantics says ([follows]), how the
    machine's memory represents a source state ([rel]), and one lemma per instruction
    the compiler uses. *)
From S2P Require Import Prelude Float32 IrTypes IrEncode FbDispatch VmValue VmMemory VmExec VmInv.
From S2P Require Import CompAst CompLayout CompBind CompGen CompSem CompAsm.

(** ** Places *)

Inductive Segment := SgData | SgRetain.

#[export] Instance segment_eq_dec : EqDecision Segment.
Proof. solve_decision. Defined.

(** Segment, offset and width. *)
Abbreviation Place := (Segment * Z * Z)%type.

Definition apart (p q : Place) : Prop :=
  p.1.1 <> q.1.1 \/ p.1.2 + p.2 <= q.1.2 \/ q.1.2 + q.2 <= p.1.2.

Lemma place_apart_sym p q : apart p q -> apart q p.
Proof. unfold apart. intuition congruence. Qed.

Definition seg_of (sg : Segment) (s : Vm) : ByteSegment :=
  match sg with SgData => v_data s | SgRetain => v_retain s end.

(** The cells of [m] are in memory at their places. *)
Definition holds (pl : Cell -> option Place) (m : gmap Cell VmValue) (s : Vm) : Prop :=
  forall c v, m !! c = Some v -> exists sg off w,
    pl c = Some (sg, off, w) /\ 0 <= off /\ Val.byte_width v <= w /\
    forall pc, Seg.load (seg_of sg s) off pc = Ok v.

(** A place no cell of [m] but [c] touches. *)
Definition clear_of (pl : Cell -> option Place) (m : gmap Cell VmValue) (c : Cell) (p : Place) : Prop :=
  forall c' v p', m !! c' = Some v -> c' <> c -> pl c' = Some p' -> apart p' p.

Section Store.
Context (s : ByteSegment) (off : Z) (v : VmValue) (w : Z).
Hypothesis (Hs : Seg.ok s) (Hoff : 0 <= off) (Hv : Val.ok v).
Hypothesis (Hw : Val.byte_width v <= w) (Hfit : off + w <= Seg.size s).

Lemma store_succeeds pc : exists s', Seg.store s off v pc = Ok s'.
Proof. unfold Seg.store. rewrite sat64_ltb by apply Hs. ltb_false by lia. by eexists. Qed.

Lemma store_load_same s' pc pc' : Seg.store s off v pc = Ok s' -> Seg.load s' off pc' = Ok v.
Proof.
  intros Hst. rewrite (load_typed s' off (Val.ir_type v)) by
    (done || by apply (store_ok_seg s s' off v pc) || by apply (store_type_at s s' off v pc)).
  pose proof (width_range v). rewrite zero_width, (store_size s s' off v pc) by done.
  destruct (Z.leb_spec (Seg.size s) off); [lia|]. ltb_false by lia.
  rewrite (store_bytes_at s s' off v pc) by done. by rewrite decode_to_le_bytes.
Qed.

(** A value elsewhere is still there. *)
Lemma store_load_apart s' pc o u pc' :
  Seg.store s off v pc = Ok s' -> 0 <= o ->
  o + Val.byte_width u <= off \/ off + w <= o ->
  Seg.load s o pc' = Ok u -> Seg.load s' o pc' = Ok u.
Proof.
  intros Hst Ho Hd Hl.
  assert (Ht : Val.byte_width (Val.zero (Seg.type_at s o)) = Val.byte_width u).
  { unfold Seg.load in Hl. case_match; [done|]. unfold Seg.load_as in Hl. case_match; [done|].
    apply Ok_inj in Hl as <-. by destruct (Seg.type_at s o). }
  pose proof (width_range u).
  rewrite (load_typed s' o (Seg.type_at s o)).
  - rewrite (load_typed s o (Seg.type_at s o)) in Hl by done.
    rewrite (store_size s s' off v pc) by done.
    rewrite (store_bytes_other s s' off v pc) by (done || lia). done.
  - by apply (store_ok_seg s s' off v pc).
  - done.
  - apply (store_type_other s s' off v pc); try done. lia.
Qed.
End Store.

Section Holds.
Context (pl : Cell -> option Place).

Lemma holds_insert m s s' sg off w c v pc :
  Seg.ok (seg_of sg s) -> 0 <= off -> Val.ok v -> Val.byte_width v <= w -> off + w <= Seg.size (seg_of sg s) ->
  Seg.store (seg_of sg s) off v pc = Ok (seg_of sg s') ->
  (forall sg', sg' <> sg -> seg_of sg' s' = seg_of sg' s) ->
  pl c = Some (sg, off, w) -> clear_of pl m c (sg, off, w) ->
  holds pl m s -> holds pl (<[c := v]> m) s'.
Proof.
  intros Hok Hoff Hv Hw Hfit Hst Hother Hpl Hclear Hm c' u Hu.
  destruct (decide (c = c')) as [<-|Hne].
  - rewrite lookup_insert_eq in Hu. injection Hu as <-. exists sg, off, w. repeat split; try done.
    intros pc'. by apply (store_load_same (seg_of sg s) off v w Hok Hoff Hv Hw Hfit _ pc).
  - rewrite lookup_insert_ne in Hu by done. destruct (Hm _ _ Hu) as (sg' & o & w' & Hp' & Ho & Hw' & Hl).
    exists sg', o, w'. repeat split; try done. intros pc'.
    destruct (decide (sg' = sg)) as [->|Hsg]; [|by rewrite Hother].
    eapply store_load_apart with (off := off) (v := v) (w := w); try eassumption; try done.
    destruct (Hclear c' u _ Hu (not_eq_sym Hne) Hp') as [?|[?|?]]; cbn in *; [done|lia..].
Qed.

Lemma holds_frame m s s' sg off w c v pc :
  Seg.ok (seg_of sg s) -> 0 <= off -> Val.ok v -> Val.byte_width v <= w -> off + w <= Seg.size (seg_of sg s) ->
  Seg.store (seg_of sg s) off v pc = Ok (seg_of sg s') ->
  (forall sg', sg' <> sg -> seg_of sg' s' = seg_of sg' s) ->
  m !! c = None -> clear_of pl m c (sg, off, w) ->
  holds pl m s -> holds pl m s'.
Proof.
  intros Hok Hoff Hv Hw Hfit Hst Hother Hc Hclear Hm c' u Hu.
  destruct (Hm _ _ Hu) as (sg' & o & w' & Hp' & Ho & Hw' & Hl).
  exists sg', o, w'. repeat split; try done. intros pc'.
  destruct (decide (sg' = sg)) as [->|Hsg]; [|by rewrite Hother].
  eapply store_load_apart with (off := off) (v := v) (w := w); try eassumption; try done.
  assert (Hne : c' <> c) by (intros ->; congruence).
  destruct (Hclear c' u _ Hu Hne Hp') as [?|[?|?]]; cbn in *; [done|lia..].
Qed.

Lemma holds_segs m s s' :
  v_data s' = v_data s -> v_retain s' = v_retain s -> holds pl m s -> holds pl m s'.
Proof.
  intros Hd Hr Hm c v Hc. destruct (Hm c v Hc) as (sg & off & w & H1 & H2 & H3 & H4).
  exists sg, off, w. repeat split; try done. intros pc. rewrite <-(H4 pc).
  destruct sg; cbn [seg_of]; by rewrite ?Hd, ?Hr.
Qed.
End Holds.

Lemma holds_mono pl pl' m s :
  (forall c p, is_Some (m !! c) -> pl c = Some p -> pl' c = Some p) -> holds pl m s -> holds pl' m s.
Proof.
  intros Hp Hm c v Hc. destruct (Hm c v Hc) as (sg & off & w & H1 & H2).
  exists sg, off, w. split; [|done]. by apply Hp; [eexists|].
Qed.

(** ** Layouts and temporaries *)

Definition named (c : Cell) : Prop := match c with CTmp _ _ => False | _ => True end.

(** Variables have places of their own, below [lo] in the data segment and within the
    retain segment. *)
Record layout_ok (pl : Cell -> option Place) (lo retain_size : Z) : Prop := {
  lo_apart c c' p p' : named c -> named c' -> c <> c' -> pl c = Some p -> pl c' = Some p' -> apart p p';
  lo_bound c sg off w : named c -> pl c = Some (sg, off, w) ->
    0 <= off /\ off + w <= match sg with SgData => lo | SgRetain => retain_size end;
  lo_tmp off w : pl (CTmp off w) = Some (SgData, off, w) }.

(** The live temporaries: apart from the variables and from each other. *)
Definition temps_ok (pl : Cell -> option Place) (lo : Z) (temps : gmap Cell VmValue) : Prop :=
  forall c v, temps !! c = Some v -> exists off w, c = CTmp off w /\ 0 <= off /\ off + w <= lo /\
    (forall c' p, named c' -> pl c' = Some p -> apart p (SgData, off, w)) /\
    clear_of pl temps c (SgData, off, w).

Definition named_cells (m : gmap Cell VmValue) : Prop := forall c v, m !! c = Some v -> named c.

Section Clear.
Context (pl : Cell -> option Place) (lo R : Z) (temps cells : gmap Cell VmValue).
Hypothesis (Hlo : layout_ok pl lo R) (Ht : temps_ok pl lo temps) (Hn : named_cells cells).

Lemma clear_named c p : named c -> pl c = Some p -> clear_of pl cells c p /\ clear_of pl temps c p.
Proof.
  intros Hc Hp. split; intros c' v p' Hc' Hne Hp'.
  - by eapply (lo_apart _ _ _ Hlo c' c); eauto.
  - destruct (Ht c' v Hc') as (off & w & -> & _ & _ & Ha & _).
    rewrite (lo_tmp _ _ _ Hlo) in Hp'. injection Hp' as <-. apply place_apart_sym. by eapply Ha.
Qed.

Lemma temps_none c : named c -> temps !! c = None.
Proof.
  intros Hc. destruct (temps !! c) as [v|] eqn:E; [|done]. destruct (Ht c v E) as (?&?&->&_). done.
Qed.

Lemma cells_none off w : cells !! CTmp off w = None.
Proof. destruct (cells !! CTmp off w) eqn:E; [|done]. by apply Hn in E. Qed.

Lemma clear_temp off w :
  temps !! CTmp off w <> None ->
  clear_of pl cells (CTmp off w) (SgData, off, w) /\ clear_of pl temps (CTmp off w) (SgData, off, w).
Proof.
  intros Hin. destruct (temps !! CTmp off w) as [v|] eqn:E; [|done].
  destruct (Ht _ _ E) as (o & w' & [= <- <-] & _ & _ & Ha & Hc). split; [|done].
  intros c' u p' Hc' Hne Hp'. eapply Ha; [|done]. by eapply Hn.
Qed.

Lemma clear_fresh off w :
  lo <= off ->
  clear_of pl cells (CTmp off w) (SgData, off, w) /\ clear_of pl temps (CTmp off w) (SgData, off, w).
Proof.
  intros Hoff. split; intros c' u [[sg o] w'] Hc' Hne Hp'.
  - destruct (lo_bound _ _ _ Hlo c' sg o w' (Hn _ _ Hc') Hp') as [_ Hb].
    destruct sg; [right; left; cbn; lia|by left].
  - destruct (Ht c' u Hc') as (o' & w'' & -> & _ & Hle & _).
    rewrite (lo_tmp _ _ _ Hlo) in Hp'. injection Hp' as <- <- <-. right; left; cbn; lia.
Qed.

Lemma temps_ok_update off w v : temps !! CTmp off w <> None -> temps_ok pl lo (<[CTmp off w := v]> temps).
Proof.
  intros Hin c u Hu. assert (is_Some (temps !! c)) as [u' Hu'].
  { destruct (decide (c = CTmp off w)) as [->|Hne]; [by apply not_eq_None_Some in Hin|].
    rewrite lookup_insert_ne in Hu by done. by eexists. }
  destruct (Ht c u' Hu') as (o & w' & -> & H1 & H2 & H3 & H4). exists o, w'. repeat split; try done.
  intros c' x p' Hx Hne Hp'. destruct (decide (c' = CTmp off w)) as [->|Hne'].
  - apply not_eq_None_Some in Hin as [y Hy]. by apply (H4 (CTmp off w) y p').
  - rewrite lookup_insert_ne in Hx by done. by apply (H4 c' x p').
Qed.
End Clear.

(** A new temporary at the water mark. *)
Lemma temps_ok_fresh pl pl' lo lo' R temps off w v :
  layout_ok pl lo R -> layout_ok pl' lo' R -> temps_ok pl lo temps ->
  (forall c p, named c -> pl' c = Some p -> pl c = Some p) ->
  lo <= off -> 0 <= off -> 0 < w -> off + w <= lo' -> temps_ok pl' lo' (<[CTmp off w := v]> temps).
Proof.
  intros Hlo Hlo' Ht Hpl Hoff H0 Hw Hle c u Hu.
  assert (Hold : forall c' x, temps !! c' = Some x -> exists o w', c' = CTmp o w' /\ 0 <= o /\ o + w' <= lo).
  { intros c' x Hx. destruct (Ht c' x Hx) as (o & w' & -> & ? & ? & _). by exists o, w'. }
  destruct (decide (c = CTmp off w)) as [->|Hne].
  - exists off, w. repeat split; try done.
    + intros c' [[sg o] w'] Hc' Hp'. apply Hpl in Hp'; [|done].
      destruct (lo_bound _ _ _ Hlo c' sg o w' Hc' Hp') as [_ Hb].
      destruct sg; [right; left; cbn; lia|by left].
    + intros c' x p' Hx Hne Hp'. rewrite lookup_insert_ne in Hx by done.
      destruct (Hold _ _ Hx) as (o & w' & -> & ? & ?).
      rewrite (lo_tmp _ _ _ Hlo') in Hp'. injection Hp' as <-. right; left; cbn; lia.
  - rewrite lookup_insert_ne in Hu by done.
    destruct (Ht c u Hu) as (o & w' & -> & H1 & H2 & H3 & H4). exists o, w'. repeat split; try done; [lia|..].
    + intros c' p Hc' Hp'. apply (H3 c'); auto.
    + intros c' x p' Hx Hne' Hp'. destruct (decide (c' = CTmp off w)) as [->|Hne2].
      * rewrite (lo_tmp _ _ _ Hlo') in Hp'. injection Hp' as <-. right; right; cbn; lia.
      * rewrite lookup_insert_ne in Hx by done. destruct (Hold _ _ Hx) as (o' & w'' & -> & _).
        rewrite (lo_tmp _ _ _ Hlo') in Hp'. injection Hp' as <-.
        by eapply (H4 (CTmp o' w'') x); [| |apply (lo_tmp _ _ _ Hlo)].
Qed.

(** Growing the layout above the water mark leaves the temporaries apart. *)
Lemma temps_ok_grow pl pl' lo lo' R temps :
  layout_ok pl lo R -> layout_ok pl' lo' R -> temps_ok pl lo temps -> lo <= lo' ->
  (forall c sg off w, named c -> pl' c = Some (sg, off, w) ->
    pl c = Some (sg, off, w) \/ (sg = SgData /\ lo <= off)) ->
  temps_ok pl' lo' temps.
Proof.
  intros Hlo Hlo' Ht Hle Hnew c u Hu.
  destruct (Ht c u Hu) as (o & w' & -> & H1 & H2 & H3 & H4). exists o, w'. repeat split; try done; [lia|..].
  - intros c' [[sg off] w] Hc' Hp'. destruct (Hnew c' sg off w Hc' Hp') as [Hp|[-> Hge]].
    + by apply (H3 c').
    + right; right; cbn; lia.
  - intros c' x p' Hx Hne Hp'. destruct (Ht c' x Hx) as (o' & w'' & -> & _).
    rewrite (lo_tmp _ _ _ Hlo') in Hp'. injection Hp' as <-.
    by eapply (H4 (CTmp o' w'') x); [| |apply (lo_tmp _ _ _ Hlo)].
Qed.

(** ** The machine does what the source says *)

Section Run.
Context `{NanRule} (now : Z) (code : bytes) (inputs : SlotImage) (data_size retain_size : Z).
Hypothesis Hnow : u_range 64 now.

(** The machine represents a source state, with [temps] in its live temporaries. *)
Record rel (pl : Cell -> option Place) (temps : gmap Cell VmValue) (st : SrcState) (s : Vm) : Prop := {
  r_ok : vm_ok s;
  r_code : v_code s = code;
  r_inputs : v_inputs s = inputs;
  r_fp : v_fp s = 0%nat;
  r_base : v_data_base s = 0;
  r_data : Seg.size (v_data s) = data_size;
  r_retain : Seg.size (v_retain s) = retain_size;
  r_outputs : v_outputs s = ss_outputs st;
  r_prims : v_primitives s = ss_prims st;
  r_div0 : v_div0_count s = ss_div0 st;
  r_dirty : v_retain_dirty s = ss_dirty st;
  r_named : named_cells (ss_cells st);
  r_cells : holds pl (ss_cells st) s;
  r_temps : holds pl temps s }.

Definition on_stack (s : Vm) (vs : list VmValue) : Prop := take (v_sp s) (v_stack s) = vs.

Definition at_ pl temps st vs s : Prop := rel pl temps st s /\ on_stack s vs.

(** From [pc] the machine gets to where [Q] holds, or ends as [E] says. *)
Inductive leads (Q : Z -> Vm -> Prop) (E : Vm -> res VmError ExecResult -> Prop) : Z -> Vm -> Prop :=
  | leads_now pc s : Q pc s -> leads Q E pc s
  | leads_step pc s pc1 s1 :
      step now pc s = (s1, Ok (inl pc1)) -> leads Q E pc1 s1 -> leads Q E pc s
  | leads_end pc s s' r : ends now pc s s' r -> E s' r -> leads Q E pc s.

(** Every run may also overflow the operand stack. *)
Definition stops (E : Vm -> res VmError ExecResult -> Prop) (s : Vm) (r : res VmError ExecResult) : Prop :=
  (exists pc, r = Err (EStackOverflow pc)) \/ E s r.

Context (Fin : SrcState -> Vm -> Prop).

Definition follows {A} (out : SrcState * res Exit A) (pc : Z) (s : Vm) (Q : A -> SrcState -> Z -> Vm -> Prop) : Prop :=
  match out with
  | (st, Ok a) => leads (Q a st) (stops (fun _ _ => False)) pc s
  | (_, Err XUndefined) => True
  | (_, Err XFault) => leads (fun _ _ => False) (stops (fun _ r => exists e, r = Err e)) pc s
  | (st, Err XReturn) => leads (fun _ _ => False) (stops (fun s' r => r = Ok Returned /\ Fin st s')) pc s
  | (_, Panic) => leads (fun _ _ => False) (stops (fun _ r => r = Panic)) pc s
  end.

Lemma leads_weaken (Q Q' : Z -> Vm -> Prop) (E E' : Vm -> res VmError ExecResult -> Prop) pc s :
  (forall pc s, Q pc s -> leads Q' E' pc s) -> (forall s r, E s r -> E' s r) ->
  leads Q E pc s -> leads Q' E' pc s.
Proof.
  intros HQ HE Hl. induction Hl as [pc s Hq|pc s pc1 s1 Hst _ IH|pc s s' r He Hr].
  - by apply HQ.
  - by eapply leads_step.
  - eapply leads_end; [done|by apply HE].
Qed.

Lemma stops_mono E E' s r : (forall s r, E s r -> E' s r) -> stops E s r -> stops E' s r.
Proof. intros HE [?|?]; [by left|right; by apply HE]. Qed.

Lemma follows_ret {A} (a : A) st pc s (Q : A -> SrcState -> Z -> Vm -> Prop) :
  Q a st pc s -> follows (st, Ok a) pc s Q.
Proof. intros HQ. by apply leads_now. Qed.

Lemma follows_bind {A B} (m : Sem A) (k : A -> Sem B) st pc s Q Q' :
  follows (m st) pc s Q ->
  (forall a st1 pc1 s1, Q a st1 pc1 s1 -> follows (k a st1) pc1 s1 Q') ->
  follows ((m ≫= k) st) pc s Q'.
Proof.
  unfold mbind, M_bind. intros Hm Hk. destruct (m st) as [st1 [a|[]|]]; cbn [follows] in Hm; try done.
  destruct (k a st1) as [st2 r] eqn:Ek.
  assert (HQ : forall pc s, Q a st1 pc s -> follows (st2, r) pc s Q') by (intros; rewrite <-Ek; by apply Hk).
  destruct r as [b|[]|]; cbn [follows] in *; try done;
    (eapply leads_weaken; [exact HQ| |exact Hm]; intros ? ?; by apply stops_mono).
Qed.

Lemma follows_weaken {A} (out : SrcState * res Exit A) pc s (Q Q' : A -> SrcState -> Z -> Vm -> Prop) :
  follows out pc s Q -> (forall a st pc s, Q a st pc s -> Q' a st pc s) -> follows out pc s Q'.
Proof.
  intros Hm HQ. destruct out as [st [a|[]|]]; cbn [follows] in *; try done.
  eapply leads_weaken; [|done|exact Hm]. intros. by apply leads_now, HQ.
Qed.

Lemma follows_step {A} (out : SrcState * res Exit A) pc s pc1 s1 Q :
  step now pc s = (s1, Ok (inl pc1)) -> follows out pc1 s1 Q -> follows out pc s Q.
Proof. destruct out as [st [a|[]|]]; cbn [follows]; try done; intros; by eapply leads_step. Qed.

Lemma follows_overflow {A} (out : SrcState * res Exit A) pc s s' p Q :
  step now pc s = (s', Err (EStackOverflow p)) -> follows out pc s Q.
Proof.
  destruct out as [st [a|[]|]]; cbn [follows]; try done; intros;
    (apply leads_end with s' (Err (EStackOverflow p)); [done|left; by eexists]).
Qed.

(** ** One instruction *)

Definition instr_at (pc : Z) (i : DecodedInstr) : Prop := decode_instruction code pc = Ok (i, isize i).

Lemma step_eq pc s i :
  v_code s = code -> instr_at pc i -> step now pc s = exec_instr now i (isize i) pc s.
Proof.
  intros Hc Hi. unfold step, mbind, M_bind, m_get. rewrite Hc, Hi. done.
Qed.

Lemma step_keeps pc s s1 pc1 :
  vm_ok s -> 0 <= pc -> step now pc s = (s1, Ok (inl pc1)) -> vm_ok s1 /\ frozen s s1 /\ 0 <= pc1.
Proof. intros Hs Hpc Hst. pose proof (step_ok now pc s Hnow Hs Hpc) as Hk. by rewrite Hst in Hk. Qed.

(** What of a state [rel] speaks of. *)
Record same_store (s s1 : Vm) : Prop := {
  sm_data : v_data s1 = v_data s;
  sm_retain : v_retain s1 = v_retain s;
  sm_fp : v_fp s1 = v_fp s;
  sm_base : v_data_base s1 = v_data_base s;
  sm_outputs : v_outputs s1 = v_outputs s;
  sm_prims : v_primitives s1 = v_primitives s;
  sm_dirty : v_retain_dirty s1 = v_retain_dirty s }.

Lemma rel_same pl temps st s s1 :
  rel pl temps st s -> same_store s s1 -> vm_ok s1 -> frozen s s1 ->
  rel pl temps (set_div0 (v_div0_count s1) st) s1.
Proof.
  intros [] [] Hok []. split; cbn; try congruence; try done; eapply holds_segs; try eassumption; congruence.
Qed.

Lemma set_div0_same st s pl temps : rel pl temps st s -> set_div0 (v_div0_count s) st = st.
Proof. intros [] . destruct st. cbn in *. by subst. Qed.

Section Instr.
Context (pl : Cell -> option Place) (temps : gmap Cell VmValue) (st : SrcState) (vs : list VmValue) (s : Vm) (pc : Z).
Hypothesis Hpc : 0 <= pc.

Lemma sp_of_stack : vm_ok s -> on_stack s vs -> v_sp s = length vs.
Proof.
  intros Hok <-. pose proof (ok_sp s Hok). pose proof (ok_stack_len s Hok). rewrite length_take. lia.
Qed.

Lemma on_stack_ok v : vm_ok s -> on_stack s (vs ++ [v]) -> Val.ok v.
Proof.
  intros Hok Hst. pose proof (ok_stack s Hok) as Hf.
  apply (Forall_take _ (v_sp s)) in Hf. rewrite Hst in Hf. apply Forall_app in Hf as [_ Hv]. by inversion Hv.
Qed.

Lemma pop_stack v p :
  vm_ok s -> on_stack s (vs ++ [v]) ->
  pop p s = (set_stack (v_stack s) (length vs) s, Ok v) /\ on_stack (set_stack (v_stack s) (length vs) s) vs.
Proof.
  intros Hok Hst. pose proof (ok_sp s Hok). pose proof (ok_stack_len s Hok) as Hl. unfold on_stack in *.
  assert (Hsp : v_sp s = S (length vs)).
  { apply (f_equal length) in Hst. rewrite length_take, length_app in Hst. cbn in Hst. lia. }
  unfold pop. rewrite Hsp in *. split.
  - unfold index. replace (v_stack s !! length vs) with (Some v); [done|].
    rewrite <-(lookup_take_lt _ (S (length vs)) (length vs)) by lia. rewrite Hst.
    by rewrite lookup_app_r, Nat.sub_diag by lia.
  - cbn [set_stack v_sp v_stack].
    replace (length vs) with (Nat.min (length vs) (S (length vs))) at 1 by lia.
    rewrite <-take_take, Hst. by rewrite take_app_length.
Qed.

Lemma push_stack v p :
  vm_ok s -> on_stack s vs ->
  push v p s = (s, Err (EStackOverflow p)) \/
  exists s1, push v p s = (s1, Ok tt) /\ on_stack s1 (vs ++ [v]) /\ same_store s s1 /\
    v_div0_count s1 = v_div0_count s.
Proof.
  intros Hok Hst. unfold push. destruct (Nat.leb_spec MAX_STACK (v_sp s)); [by left|right].
  eexists. split; [done|]. split; [|by split]. unfold on_stack in *. cbn [set_stack v_sp v_stack].
  pose proof (ok_stack_len s Hok). rewrite (take_S_r _ _ v).
  - by rewrite take_insert_ge, Hst by lia.
  - rewrite list_lookup_insert_eq by lia. done.
Qed.

(** An instruction that pushes [v]. *)
Lemma follows_push {A} i v (out : SrcState * res Exit A) Q :
  at_ pl temps st vs s -> instr_at pc i ->
  exec_instr now i (isize i) pc s = (push v pc ;; mret (inl (pc + isize i))) s ->
  (forall s1, at_ pl temps st (vs ++ [v]) s1 -> follows out (pc + isize i) s1 Q) ->
  follows out pc s Q.
Proof.
  intros [Hrel Hst] Hi Hex Hk. pose proof (r_ok _ _ _ _ Hrel) as Hok.
  pose proof (step_eq pc s i (r_code _ _ _ _ Hrel) Hi) as Hstep. rewrite Hex in Hstep.
  unfold mbind, M_bind in Hstep.
  destruct (push_stack v pc Hok Hst) as [Ho|(s1 & Hp & Hst1 & Hsm & Hd)].
  - rewrite Ho in Hstep. by eapply follows_overflow.
  - rewrite Hp in Hstep. destruct (step_keeps _ _ _ _ Hok Hpc Hstep) as (Hok1 & Hfz & _).
    eapply follows_step; [exact Hstep|]. apply Hk. split; [|done].
    rewrite <-(set_div0_same st s pl temps Hrel), <-Hd. by apply (rel_same _ _ _ s).
Qed.

(** ** Stores *)

Definition store_op (sg : Segment) : Opcode := match sg with SgData => StData | SgRetain => StRetain end.
Definition load_op (sg : Segment) : Opcode := match sg with SgData => LdData | SgRetain => LdRetain end.
Definition seg_size (sg : Segment) : Z := match sg with SgData => data_size | SgRetain => retain_size end.

(** What a store changes. *)
Record stored (sg : Segment) (off : Z) (v : VmValue) (s1 : Vm) : Prop := {
  sd_store : Seg.store (seg_of sg s) off v pc = Ok (seg_of sg s1);
  sd_other sg' : sg' <> sg -> seg_of sg' s1 = seg_of sg' s;
  sd_fp : v_fp s1 = v_fp s;
  sd_base : v_data_base s1 = v_data_base s;
  sd_outputs : v_outputs s1 = v_outputs s;
  sd_prims : v_primitives s1 = v_primitives s;
  sd_div0 : v_div0_count s1 = v_div0_count s;
  sd_dirty : v_retain_dirty s1 = match sg with SgData => v_retain_dirty s | SgRetain => true end }.

Lemma seg_ok_of sg : vm_ok s -> Seg.ok (seg_of sg s).
Proof. intros []. by destruct sg. Qed.

Lemma seg_size_of sg : rel pl temps st s -> Seg.size (seg_of sg s) = seg_size sg.
Proof. intros []. by destruct sg. Qed.

Lemma zero_offset payload : v_data_base s = 0 -> payload < 2 ^ 32 -> seg_offset s payload = payload.
Proof. intros Hb Hp. unfold seg_offset, sat_add_u. rewrite Hb. lia. Qed.

Lemma store_step sg off v w :
  at_ pl temps st (vs ++ [v]) s -> instr_at pc (Simple (store_op sg) off) ->
  Val.byte_width v <= w -> 0 <= off -> off + w <= seg_size sg -> off < 2 ^ 32 ->
  exists s1, step now pc s = (s1, Ok (inl (pc + 4))) /\ on_stack s1 vs /\ stored sg off v s1.
Proof.
  intros [Hrel Hst] Hi Hw Hoff Hfit H32. pose proof (r_ok _ _ _ _ Hrel) as Hok.
  rewrite (step_eq pc s _ (r_code _ _ _ _ Hrel) Hi). rewrite isize_cases.
  destruct (pop_stack v pc Hok Hst) as [Hpop Hst1].
  destruct (store_succeeds (seg_of sg s) off v w (seg_ok_of sg Hok) ltac:(lia)
    ltac:(rewrite seg_size_of by done; lia) pc) as [d Hd].
  destruct sg; cbn [exec_instr store_op exec_simple] in *;
    unfold mbind at 1, M_bind at 1; rewrite Hpop; unfold mbind, M_bind, m_get, update_field;
    change (seg_offset (set_stack (v_stack s) (length vs) s) off) with (seg_offset s off);
    rewrite zero_offset by (apply (r_base _ _ _ _ Hrel) || done);
    cbn [seg_of set_stack v_data v_retain] in *; rewrite Hd;
    eexists; (split; [done|]); (split; [done|]); (split; cbn; try done; by intros []).
Qed.

Lemma rel_stored sg off v s1 pl' temps' st' :
  rel pl temps st s -> stored sg off v s1 -> vm_ok s1 -> frozen s s1 ->
  ss_outputs st' = ss_outputs st -> ss_prims st' = ss_prims st -> ss_div0 st' = ss_div0 st ->
  ss_dirty st' = match sg with SgData => ss_dirty st | SgRetain => true end ->
  named_cells (ss_cells st') -> holds pl' (ss_cells st') s1 -> holds pl' temps' s1 ->
  rel pl' temps' st' s1.
Proof.
  intros [] [] Hok [] H1 H2 H3 H4 Hn Hc Ht. split; try congruence; try done. destruct sg; congruence.
Qed.

Context (lo : Z).
Hypothesis (Hlo : layout_ok pl lo retain_size) (Htemps : temps_ok pl lo temps).

(** A store to a variable. *)
Lemma follows_store sg off v c ty Q :
  at_ pl temps st (vs ++ [v]) s -> instr_at pc (Simple (store_op sg) off) ->
  named c -> pl c = Some (sg, off, elem_size ty) -> lo <= data_size -> off < 2 ^ 32 ->
  (forall s1, let st1 := set_cells (<[c := v]> (ss_cells st)) st in
    let st1 := match sg with SgData => st1 | SgRetain => set_dirty true st1 end in
    at_ pl temps st1 vs s1 -> Q tt st1 (pc + 4) s1) ->
  follows ((write_cell c ty v ;; match sg with SgData => mret tt | SgRetain => m_modify (set_dirty true) end) st)
    pc s Q.
Proof.
  intros Hat Hi Hc Hpl Hsize H32 HQ. unfold write_cell.
  destruct (fits ty v) eqn:Hf; [|done]. apply Z.leb_le in Hf.
  destruct (lo_bound _ _ _ Hlo c _ _ _ Hc Hpl) as [H0 Hb].
  destruct (store_step sg off v (elem_size ty) Hat Hi Hf H0 ltac:(destruct sg; cbn; lia) H32) as (s1 & Hstep & Hst1 & Hsd).
  destruct Hat as [Hrel Hst]. pose proof (r_ok _ _ _ _ Hrel) as Hok.
  destruct (step_keeps _ _ _ _ Hok Hpc Hstep) as (Hok1 & Hfz & _).
  pose proof (on_stack_ok v Hok Hst) as Hv.
  destruct (clear_named pl lo retain_size temps (ss_cells st) Hlo Htemps (r_named _ _ _ _ Hrel) c _ Hc Hpl) as [Hcl1 Hcl2].
  eapply (follows_step _ _ _ _ _ _ Hstep).
  specialize (HQ s1). cbv zeta in HQ. destruct sg; cbn [M_bind mbind m_modify mret M_ret follows];
    apply leads_now, HQ; (split; [|done]); eapply (rel_stored _ off v s1); try done;
    try (intros c' u Hu; cbn in Hu; destruct (decide (c = c')) as [<-|]; [done|];
         rewrite lookup_insert_ne in Hu by done; by eapply (r_named _ _ _ _ Hrel));
    try (eapply (holds_insert pl _ s s1 _ off (elem_size ty) c v pc); try done;
         [by apply seg_ok_of|rewrite seg_size_of by done; cbn; lia|apply Hsd|apply Hsd|apply Hrel]);
    (eapply (holds_frame pl _ s s1 _ off (elem_size ty) c v pc); try done;
         [by apply seg_ok_of|rewrite seg_size_of by done; cbn; lia|apply Hsd|apply Hsd
         |by eapply temps_none|apply Hrel]).
Qed.

(** A store to a temporary. *)
Lemma follows_store_temp {A} off w v (out : SrcState * res Exit A) Q :
  at_ pl temps st (vs ++ [v]) s -> instr_at pc (Simple StData off) ->
  Val.byte_width v <= w -> 0 <= off -> off + w <= data_size -> off < 2 ^ 32 ->
  clear_of pl (ss_cells st) (CTmp off w) (SgData, off, w) ->
  clear_of pl temps (CTmp off w) (SgData, off, w) ->
  (forall s1, at_ pl (<[CTmp off w := v]> temps) st vs s1 -> follows out (pc + 4) s1 Q) ->
  follows out pc s Q.
Proof.
  intros Hat Hi Hw H0 Hfit H32 Hcl1 Hcl2 HQ.
  destruct (store_step SgData off v w Hat Hi Hw H0 Hfit H32) as (s1 & Hstep & Hst1 & Hsd).
  destruct Hat as [Hrel Hst]. pose proof (r_ok _ _ _ _ Hrel) as Hok.
  destruct (step_keeps _ _ _ _ Hok Hpc Hstep) as (Hok1 & Hfz & _).
  pose proof (on_stack_ok v Hok Hst) as Hv. pose proof (seg_size_of SgData Hrel) as Hsz.
  eapply (follows_step _ _ _ _ _ _ Hstep), HQ. split; [|done].
  eapply (rel_stored SgData off v s1); try done; [apply Hrel|..].
  - eapply (holds_frame pl _ s s1 SgData off w (CTmp off w) v pc); try done;
      [by apply seg_ok_of|rewrite Hsz; cbn; lia|apply Hsd|apply Hsd| |apply Hrel].
    eapply cells_none, Hrel.
  - eapply (holds_insert pl _ s s1 SgData off w (CTmp off w) v pc); try done;
      [by apply seg_ok_of|rewrite Hsz; cbn; lia|apply Hsd|apply Hsd| |apply Hrel].
    by apply (lo_tmp _ _ _ Hlo).
Qed.

(** ** Loads *)

Lemma follows_load {A} sg off c v m (out : SrcState * res Exit A) Q w :
  at_ pl temps st vs s -> instr_at pc (Simple (load_op sg) off) ->
  holds pl m s -> m !! c = Some v -> pl c = Some (sg, off, w) -> off < 2 ^ 32 ->
  (forall s1, at_ pl temps st (vs ++ [v]) s1 -> follows out (pc + 4) s1 Q) ->
  follows out pc s Q.
Proof.
  intros Hat Hi Hm Hc Hpl H32 HQ.
  destruct (Hm c v Hc) as (sg' & off' & w' & Hp' & H0 & _ & Hl). rewrite Hpl in Hp'.
  injection Hp' as <- <- <-. eapply follows_push; [exact Hat|exact Hi| |by rewrite isize_cases].
  rewrite isize_cases. destruct Hat as [Hrel _].
  destruct sg; cbn [load_op exec_instr exec_simple seg_of] in *; unfold mbind at 1, M_bind at 1, m_get;
    rewrite zero_offset by (apply (r_base _ _ _ _ Hrel) || done); rewrite Hl; done.
Qed.

(** ** Operators *)

Lemma binop_pc op a b p d :
  (binop op a b p d).1 = (binop op a b 0 d).1 /\
  match (binop op a b 0 d).2 with
  | Ok v => (binop op a b p d).2 = Ok v
  | Err _ => exists e, (binop op a b p d).2 = Err e
  | Panic => (binop op a b p d).2 = Panic
  end.
Proof.
  destruct op; cbn [binop]; try (split; [done|by eexists]); try (split; done);
    destruct a, b; cbn; unfold m_lift, count_div0, sdiv, m_modify, m_err, m_panic, mbind, M_bind;
    repeat case_match; simplify_eq; try (split; [done|]); try done; try (by eexists).
Qed.

Lemma unary_pc op a p :
  match unary_op op a 0 with
  | Ok v => unary_op op a p = Ok v
  | Err _ => exists e, unary_op op a p = Err e
  | Panic => unary_op op a p = Panic
  end.
Proof. destruct op, a; cbn; try done; by eexists. Qed.
End Instr.

(** Pushing where a value has just been popped cannot overflow. *)
Lemma push_free s vs v p :
  length (v_stack s) = MAX_STACK -> (v_sp s < MAX_STACK)%nat -> on_stack s vs ->
  push v p s = (set_stack (<[v_sp s := v]> (v_stack s)) (S (v_sp s)) s, Ok tt) /\
  on_stack (set_stack (<[v_sp s := v]> (v_stack s)) (S (v_sp s)) s) (vs ++ [v]).
Proof.
  intros Hl Hlt Hst. unfold push. destruct (Nat.leb_spec MAX_STACK (v_sp s)); [lia|]. split; [done|].
  unfold on_stack in *. cbn [set_stack v_sp v_stack]. rewrite (take_S_r _ _ v).
  - by rewrite take_insert_ge, Hst by lia.
  - by rewrite list_lookup_insert_eq by lia.
Qed.

(** Popping the operands of an instruction. *)
Lemma pop_two vs a b s p :
  vm_ok s -> on_stack s ((vs ++ [a]) ++ [b]) ->
  exists s1, (b ← pop p; a ← pop p; mret (a, b)) s = (s1, Ok (a, b)) /\
    s1 = set_stack (v_stack s) (length vs) s /\ on_stack s1 vs /\ (length vs < MAX_STACK)%nat.
Proof.
  intros Hok Hst. destruct (pop_stack (vs ++ [a]) s b p Hok Hst) as [Hp Hs1].
  pose proof (sp_of_stack _ _ Hok Hst) as Hsp. pose proof (ok_sp s Hok). pose proof (ok_stack_len s Hok) as Hl.
  rewrite !length_app in Hsp. cbn in Hsp. eexists. unfold mbind, M_bind. rewrite Hp.
  unfold pop at 1. cbn [set_stack v_sp v_stack]. rewrite length_app. cbn [length].
  replace (length vs + 1)%nat with (S (length vs)) by lia. unfold index.
  assert (Hi : v_stack s !! length vs = Some a).
  { unfold on_stack in Hst. rewrite <-(lookup_take_lt _ (v_sp s)) by lia. rewrite Hst.
    rewrite <-app_assoc, lookup_app_r, Nat.sub_diag by lia. done. }
  rewrite Hi. split; [done|]. split; [done|]. split; [|lia].
  unfold on_stack in *. cbn [set_stack v_sp v_stack].
  replace (length vs) with (Nat.min (length vs) (v_sp s)) at 1 by lia.
  by rewrite <-take_take, Hst, <-app_assoc, take_app_length.
Qed.

Lemma exec_binop op payload size pc s :
  is_binop op = true ->
  exec_simple op payload size pc s =
  (b ← pop pc; a ← pop pc; r ← vm_binop op a b pc; push r pc ;; mret (inl (pc + size))) s.
Proof. by destruct op. Qed.

Lemma follows_binop pl temps st vs a b s pc op Q :
  0 <= pc -> at_ pl temps st ((vs ++ [a]) ++ [b]) s -> instr_at pc (Simple op 0) -> is_binop op = true ->
  (forall r st1 s1, src_binop op a b st = (st1, Ok r) -> at_ pl temps st1 (vs ++ [r]) s1 -> Q r st1 (pc + 4) s1) ->
  follows (src_binop op a b st) pc s Q.
Proof.
  intros Hpc [Hrel Hst] Hi Hop HQ. pose proof (r_ok _ _ _ _ Hrel) as Hok.
  pose proof (step_eq pc s _ (r_code _ _ _ _ Hrel) Hi) as Hstep. rewrite isize_cases in Hstep.
  cbn [exec_instr] in Hstep. rewrite exec_binop in Hstep by done.
  destruct (pop_two vs a b s pc Hok Hst) as (s1 & Hp & -> & Hs1 & Hlen).
  pose proof (ok_stack_len s Hok) as Hl.
  assert (Hstep' : step now pc s = (r ← vm_binop op a b pc; push r pc ;; mret (inl (pc + 4)))
    (set_stack (v_stack s) (length vs) s)).
  { rewrite Hstep. revert Hp. unfold mbind, M_bind, mret, M_ret.
    destruct (pop pc s) as [x [?| |]]; [|done|done]. destruct (pop pc x) as [y [?| |]]; [|done|done].
    by intros [= -> -> ->]. }
  clear Hstep Hp. revert Hstep'. unfold mbind at 1, M_bind at 1, vm_binop. cbn [set_stack v_div0_count].
  unfold src_binop in *. rewrite (r_div0 _ _ _ _ Hrel).
  pose proof (binop_pc op a b pc (ss_div0 st)) as [Hd Hr].
  destruct (binop op a b pc (ss_div0 st)) as [d r]. destruct (binop op a b 0 (ss_div0 st)) as [d0 r0].
  cbn [fst snd] in Hd, Hr. subst d0. destruct r0 as [v|e|]; cbn [map_err follows] in *.
  - subst r. intros Hstep. unfold mbind, M_bind in Hstep.
    destruct (push_free (set_div0_count d (set_stack (v_stack s) (length vs) s)) vs v pc) as [Hpu Hs2]; try done.
    rewrite Hpu in Hstep. destruct (step_keeps _ _ _ _ Hok Hpc Hstep) as (Hok1 & Hfz & _).
    eapply leads_step; [exact Hstep|]. apply leads_now, HQ; [done|]. split; [|done].
    refine (rel_same pl temps st s _ Hrel _ Hok1 Hfz). by split.
  - destruct Hr as [e' ->]. intros Hstep. apply leads_end with (s' := set_div0_count d (set_stack (v_stack s) (length vs) s)) (r := Err e');
      [done|]. right. by eexists.
  - subst r. intros Hstep. apply leads_end with (s' := set_div0_count d (set_stack (v_stack s) (length vs) s)) (r := Panic);
      [done|]. by right.
Qed.

Lemma follows_unary pl temps st vs a s pc op Q :
  0 <= pc -> at_ pl temps st (vs ++ [a]) s -> instr_at pc (Simple op 0) -> op = Neg \/ op = Not ->
  (forall r s1, unary_op op a 0 = Ok r -> at_ pl temps st (vs ++ [r]) s1 -> Q r st (pc + 4) s1) ->
  follows (machine (unary_op op a 0) st) pc s Q.
Proof.
  intros Hpc [Hrel Hst] Hi Hop HQ. pose proof (r_ok _ _ _ _ Hrel) as Hok.
  pose proof (step_eq pc s _ (r_code _ _ _ _ Hrel) Hi) as Hstep. rewrite isize_cases in Hstep.
  destruct (pop_stack vs s a pc Hok Hst) as [Hp Hs1].
  assert (Hex : exec_instr now (Simple op 0) 4 pc s =
    (a ← pop pc; r ← m_lift (unary_op op a pc); push r pc ;; mret (inl (pc + 4))) s)
    by (destruct Hop as [->| ->]; done).
  rewrite Hex in Hstep. unfold mbind at 1, M_bind at 1 in Hstep. rewrite Hp in Hstep.
  unfold machine, m_lift in *. unfold mbind at 1, M_bind at 1 in Hstep.
  pose proof (unary_pc op a pc) as Hr. destruct (unary_op op a 0) as [v|e|]; cbn [map_err follows].
  - rewrite Hr in Hstep. unfold mbind, M_bind in Hstep.
    pose proof (sp_of_stack _ _ Hok Hst) as Hsp. rewrite length_app in Hsp. cbn in Hsp. pose proof (ok_sp s Hok).
    destruct (push_free (set_stack (v_stack s) (length vs) s) vs v pc) as [Hpu Hs2];
      [apply Hok|cbn; lia|done|].
    rewrite Hpu in Hstep. destruct (step_keeps _ _ _ _ Hok Hpc Hstep) as (Hok1 & Hfz & _).
    eapply leads_step; [exact Hstep|]. apply leads_now, HQ; [done|]. split; [|done].
    rewrite <-(set_div0_same st s pl temps Hrel).
    refine (rel_same pl temps st s _ Hrel _ Hok1 Hfz). by split.
  - destruct Hr as [e' Hr]. rewrite Hr in Hstep.
    eapply leads_end with (r := Err e'); [exact Hstep|]. right. by eexists.
  - rewrite Hr in Hstep. eapply leads_end with (r := Panic); [exact Hstep|]. by right.
Qed.

(** ** Slots *)

(** An instruction that pushes what a slot access gives. *)
Lemma follows_fetch pl temps st vs s pc i (r : Z -> res VmError VmValue) Q :
  0 <= pc -> at_ pl temps st vs s -> instr_at pc i ->
  exec_instr now i (isize i) pc s = (v ← m_lift (r pc); push v pc ;; mret (inl (pc + isize i))) s ->
  match r 0 with Ok v => r pc = Ok v | Err _ => exists e, r pc = Err e | Panic => r pc = Panic end ->
  (forall v s1, r 0 = Ok v -> at_ pl temps st (vs ++ [v]) s1 -> Q v st (pc + isize i) s1) ->
  follows (machine (r 0) st) pc s Q.
Proof.
  intros Hpc Hat Hi Hex Hr HQ. pose proof Hat as [Hrel Hst].
  unfold machine, m_lift. destruct (r 0) as [v|e|]; cbn [map_err].
  - eapply follows_push; [done|exact Hat|exact Hi|by rewrite Hex; unfold m_lift, mbind, M_bind; rewrite Hr|].
    intros s1 Hs1. apply leads_now. by apply HQ.
  - destruct Hr as [e' Hr]. apply leads_end with (s' := s) (r := Err e'); [|right; by eexists].
    cbn [ends]. rewrite (step_eq pc s i) by (done || apply Hrel). rewrite Hex. unfold mbind, M_bind, m_lift. by rewrite Hr.
  - apply leads_end with (s' := s) (r := Panic); [|by right].
    cbn [ends]. rewrite (step_eq pc s i) by (done || apply Hrel). rewrite Hex. unfold mbind, M_bind, m_lift. by rewrite Hr.
Qed.

Lemma follows_output pl temps st vs v s pc slot Q :
  0 <= pc -> at_ pl temps st (vs ++ [v]) s -> instr_at pc (Simple StQ slot) ->
  (forall o s1, let st1 := set_src_outputs o st in at_ pl temps st1 vs s1 -> Q tt st1 (pc + 4) s1) ->
  follows (match Slots.set (ss_outputs st) slot v 0 with
           | Ok o => (set_src_outputs o st, Ok tt)
           | _ => (st, Err XFault)
           end) pc s Q.
Proof.
  intros Hpc [Hrel Hst] Hi HQ. pose proof (r_ok _ _ _ _ Hrel) as Hok.
  pose proof (step_eq pc s _ (r_code _ _ _ _ Hrel) Hi) as Hstep. rewrite isize_cases in Hstep.
  destruct (pop_stack vs s v pc Hok Hst) as [Hp Hs1].
  cbn [exec_instr exec_simple] in Hstep. unfold mbind at 1, M_bind at 1 in Hstep. rewrite Hp in Hstep.
  unfold update_field, mbind, M_bind in Hstep. cbn [set_stack v_outputs] in Hstep.
  rewrite (r_outputs _ _ _ _ Hrel) in Hstep. unfold Slots.set in *.
  destruct (i_values (ss_outputs st) !! Z.to_nat slot).
  - destruct (step_keeps _ _ _ _ Hok Hpc Hstep) as (Hok1 & Hfz & _).
    eapply leads_step; [exact Hstep|]. apply leads_now, HQ. split; [|done].
    destruct Hrel, Hfz. split; cbn; try done; try congruence; by eapply holds_segs.
  - eapply leads_end with (r := Err _); [exact Hstep|]. right. by eexists.
Qed.

(** ** Jumps *)

Lemma follows_jmp {A} pl temps st vs s pc target (out : SrcState * res Exit A) Q :
  at_ pl temps st vs s -> instr_at pc (Simple Jmp target) -> follows out target s Q -> follows out pc s Q.
Proof.
  intros [Hrel _] Hi HQ. eapply follows_step; [|exact HQ].
  by rewrite (step_eq pc s _ (r_code _ _ _ _ Hrel) Hi).
Qed.

(** [on]: the value on which the jump is taken. *)
Lemma follows_branch {A} pl temps st vs v s pc (on : bool) target (out : SrcState * res Exit A) Q :
  0 <= pc -> at_ pl temps st (vs ++ [v]) s -> instr_at pc (Simple (if on then JmpIf else JmpIfNot) target) ->
  (forall s1, at_ pl temps st vs s1 ->
    follows out (if Bool.eqb (Val.as_bool v) on then target else pc + 4) s1 Q) ->
  follows out pc s Q.
Proof.
  intros Hpc [Hrel Hst] Hi HQ. pose proof (r_ok _ _ _ _ Hrel) as Hok.
  pose proof (step_eq pc s _ (r_code _ _ _ _ Hrel) Hi) as Hstep. rewrite isize_cases in Hstep.
  destruct (pop_stack vs s v pc Hok Hst) as [Hp Hs1].
  assert (Hex : step now pc s = (set_stack (v_stack s) (length vs) s,
    Ok (inl (if Bool.eqb (Val.as_bool v) on then target else pc + 4)))).
  { rewrite Hstep. destruct on; cbn [exec_instr exec_simple]; unfold mbind at 1, M_bind at 1; rewrite Hp;
      by destruct (Val.as_bool v). }
  destruct (step_keeps _ _ _ _ Hok Hpc Hex) as (Hok1 & Hfz & _).
  eapply follows_step; [exact Hex|]. apply HQ. split; [|done].
  rewrite <-(set_div0_same st s pl temps Hrel). refine (rel_same pl temps st s _ Hrel _ Hok1 Hfz). by split.
Qed.

(** ** The end of a run *)

Lemma follows_return {A} pl temps st vs s pc (Q : A -> SrcState -> Z -> Vm -> Prop) :
  at_ pl temps st vs s -> instr_at pc (Simple Ret 0) -> (rel pl temps st s -> Fin st s) ->
  follows (st, Err XReturn) pc s Q.
Proof.
  intros [Hrel _] Hi HF. eapply leads_end with (s' := s) (r := Ok Returned); [|right; auto].
  cbn [ends]. rewrite (step_eq pc s _ (r_code _ _ _ _ Hrel) Hi). cbn [exec_instr exec_simple].
  unfold mbind, M_bind, m_get. by rewrite (r_fp _ _ _ _ Hrel).
Qed.
End Run.
