(* ===== verification/CompPrim.v ===== *)
(** * The compiler: running a call of a primitive

    The machine pops the arguments of a primitive, calls it and pushes its outputs,
    the first one on top: what the reference semantics says of a call. *)
From S2P Require Import Prelude Float32 IrTypes IrEncode FbDispatch VmValue VmMemory VmExec VmInv VmVerified.
From S2P Require Import CompAst CompLayout CompBind CompGen CompSem CompAsm CompRun.

(** The values a call leaves, in the order of the outputs. *)
Definition out_value (id : PrimitiveId) (o : PrimitiveOutputs) (i : nat) : VmValue :=
  Val.from_stack_value (default (SBool false) (values o !! i)) (is_timer id && (i =? 1)%nat).

Definition out_values (id : PrimitiveId) (o : PrimitiveOutputs) (n : nat) : list VmValue :=
  map (out_value id o) (seq 0 n).

Section Prim.
Context `{NanRule} (now : Z).

Lemma call_primitive_values id instance inputs s s' o :
  call_primitive id instance inputs now s = (s', Ok o) -> length (values o) = 4%nat.
Proof.
  assert (Hw : forall X (P : Pool X) k, (forall x x' o, k x = Ok (x', o) -> length (values o) = 4%nat) ->
    with_instance instance k s = (s', Ok o) -> length (values o) = 4%nat).
  { intros X P k Hk Hw. unfold with_instance in Hw. destruct (pool s !! instance); [|done].
    destruct (k x) as [[x' o']| |] eqn:E; simplify_eq. by eapply Hk. }
  unfold call_primitive. case_match; [done|].
  destruct id; apply Hw; intros x x' o' Hk;
    unfold call_timer, call_counter, call_latch, call_edge, call_pid in Hk;
    repeat (apply res_bind_Ok in Hk as (? & _ & Hk));
    repeat match goal with H : context [let '(_, _) := ?x in _] |- _ => destruct x end;
    apply Ok_inj in Hk; by injection Hk as _ <-.
Qed.

Lemma pop_inputs_stack args vs s pc acc :
  length (v_stack s) = MAX_STACK -> (v_sp s <= MAX_STACK)%nat -> on_stack s (vs ++ args) ->
  pop_inputs (length args) pc acc s =
    (set_stack (v_stack s) (length vs) s, Ok (map Val.to_stack_value args ++ acc)) /\
  on_stack (set_stack (v_stack s) (length vs) s) vs.
Proof.
  intros Hl. revert s Hl acc. induction args as [|v args IH] using rev_ind; intros s Hl acc Hsp Hst.
  - rewrite app_nil_r in Hst. cbn. unfold on_stack in *.
    assert (v_sp s = length vs) as <-.
    { apply (f_equal length) in Hst. rewrite length_take in Hst. lia. }
    split; [by destruct s|done].
  - rewrite length_app, Nat.add_comm. cbn [length Nat.add pop_inputs].
    rewrite app_assoc in Hst.
    assert (Hp : pop pc s = (set_stack (v_stack s) (length (vs ++ args)) s, Ok v) /\
      on_stack (set_stack (v_stack s) (length (vs ++ args)) s) (vs ++ args)).
    { unfold on_stack in *. assert (Hn : v_sp s = S (length (vs ++ args))).
      { apply (f_equal length) in Hst. rewrite length_take, length_app in Hst. cbn in Hst. lia. }
      unfold pop. rewrite Hn in *. split.
      - unfold index. rewrite <-(lookup_take_lt _ (S (length (vs ++ args)))) by lia. rewrite Hst.
        by rewrite lookup_app_r, Nat.sub_diag by lia.
      - cbn [set_stack v_sp v_stack].
        replace (length (vs ++ args)) with (Nat.min (length (vs ++ args)) (S (length (vs ++ args)))) at 1 by lia.
        by rewrite <-take_take, Hst, take_app_length. }
    destruct Hp as [Hp Hs1]. unfold mbind, M_bind. rewrite Hp.
    destruct (IH (set_stack (v_stack s) (length (vs ++ args)) s) Hl (Val.to_stack_value v :: acc)) as [Hi Hs2]; [|done|].
    + cbn. rewrite length_app. unfold on_stack in Hst. apply (f_equal length) in Hst.
      rewrite length_take, !length_app in Hst. cbn in Hst. lia.
    + rewrite Hi. cbn [set_stack v_stack v_sp]. split; [|exact Hs2]. by rewrite map_app, <-app_assoc.
Qed.

Lemma push_outputs_stack id o n vs s pc :
  length (v_stack s) = MAX_STACK -> (v_sp s <= MAX_STACK)%nat -> on_stack s vs -> (n <= length (values o))%nat ->
  (exists s', push_outputs id (values o) n pc s = (s', Err (EStackOverflow pc))) \/
  (exists stack sp, push_outputs id (values o) n pc s = (set_stack stack sp s, Ok tt) /\
    on_stack (set_stack stack sp s) (vs ++ rev (out_values id o n))).
Proof.
  revert vs s. induction n as [|n IH]; intros vs s Hl Hsp Hst Hn; cbn [push_outputs].
  - right. exists (v_stack s), (v_sp s). split; [by destruct s|]. cbn. by rewrite app_nil_r.
  - destruct (lookup_lt_is_Some_2 (values o) n ltac:(lia)) as [x Hx].
    unfold mbind, M_bind, m_lift, index. rewrite Hx.
    set (v := Val.from_stack_value x (is_timer id && (n =? 1)%nat)).
    assert (Hrev : rev (out_values id o (S n)) = v :: rev (out_values id o n)).
    { unfold out_values. rewrite seq_S, map_app, rev_app_distr. cbn. unfold out_value at 1. by rewrite Hx. }
    destruct (Nat.le_gt_cases MAX_STACK (v_sp s)) as [Hge|Hlt].
    { left. exists s. unfold push. by destruct (Nat.leb_spec MAX_STACK (v_sp s)); [|lia]. }
    destruct (push_free s vs v pc Hl Hlt Hst) as [Hpu Hs1]. rewrite Hpu.
    destruct (IH (vs ++ [v]) (set_stack (<[v_sp s:=v]> (v_stack s)) (S (v_sp s)) s))
      as [[s' Hs']|(stack & sp & Hs2 & Hs3)].
    + cbn. by rewrite length_insert.
    + cbn. lia.
    + done.
    + lia.
    + left. by exists s'.
    + right. exists stack, sp. split; [exact Hs2|]. rewrite Hrev. by rewrite <-app_assoc in Hs3.
Qed.

Section Call.
Context (code : bytes) (inputs : SlotImage) (data_size retain_size : Z) (Fin : SrcState -> Vm -> Prop).
Hypothesis Hnow : u_range 64 now.

Abbreviation at_ := (at_ code inputs data_size retain_size).
Abbreviation rel := (rel code inputs data_size retain_size).
Abbreviation follows := (follows now Fin).

Lemma follows_prim pl temps st vs args s pc id instance Q :
  0 <= pc -> at_ pl temps st (vs ++ args) s -> instr_at code pc (ICallFb 0 (Prim.as_u32 id) instance) ->
  length args = Prim.input_count id ->
  (forall o st1 s1, src_primitive now id instance args st = (st1, Ok o) -> length (values o) = 4%nat ->
    at_ pl temps st1 (vs ++ rev (out_values id o (Prim.output_count id))) s1 -> Q o st1 (pc + 12) s1) ->
  follows (src_primitive now id instance args st) pc s Q.
Proof.
  intros Hpc [Hrel Hst] Hi Hargs HQ. pose proof (r_ok _ _ _ _ _ _ _ _ Hrel) as Hok.
  pose proof (step_eq now code pc s _ (r_code _ _ _ _ _ _ _ _ Hrel) Hi) as Hstep. rewrite isize_cases in Hstep.
  cbn [exec_instr exec_call] in Hstep. unfold exec_call in Hstep. rewrite Z.eqb_refl in Hstep.
  unfold call_prim in Hstep. rewrite Prim.of_as in Hstep.
  pose proof (ok_stack_len s Hok) as Hl. pose proof (ok_sp s Hok) as Hsp.
  assert (Hvs : (length vs <= MAX_STACK)%nat).
  { pose proof (sp_of_stack _ _ Hok Hst) as Hn. rewrite length_app in Hn. lia. }
  destruct (pop_inputs_stack args vs s pc [] Hl Hsp Hst) as [Hp Hs1]. rewrite Hargs, app_nil_r in Hp.
  unfold mbind, M_bind in Hstep. rewrite Hp in Hstep. cbn [set_stack v_primitives] in Hstep.
  unfold src_primitive in *. rewrite (r_prims _ _ _ _ _ _ _ _ Hrel) in Hstep.
  destruct (call_primitive id (Z.to_nat instance) (map Val.to_stack_value args) now (ss_prims st))
    as [store r] eqn:Ec.
  destruct r as [o|e|]; cbn [map_err follows CompRun.follows] in *.
  - pose proof (call_primitive_values _ _ _ _ _ _ Ec) as Hv.
    pose proof (call_primitive_count now _ _ _ _ _ _ Ec) as Hc. rewrite Hc, Nat2Z.id in Hstep.
    assert (Hle : (Prim.output_count id <= length (values o))%nat) by (rewrite Hv; destruct id; cbn; lia).
    destruct (push_outputs_stack id o (Prim.output_count id) vs
      (set_primitives store (set_stack (v_stack s) (length vs) s)) pc Hl Hvs Hs1 Hle)
      as [[s' Hs']|(stack & sp & Hpu & Hs2)].
    + rewrite Hs' in Hstep. apply leads_end with s' (Err (EStackOverflow pc)); [done|left; by eexists].
    + rewrite Hpu in Hstep. destruct (step_keeps now Hnow _ _ _ _ Hok Hpc Hstep) as (Hok1 & Hfz & _).
      eapply leads_step; [exact Hstep|]. apply leads_now, HQ; [done|done|]. split; [|exact Hs2].
      destruct Hrel, Hfz. split; cbn; try done; try congruence; by eapply holds_segs.
  - eapply leads_end with (r := Err _); [exact Hstep|]. right. by eexists.
  - eapply leads_end with (r := Panic); [exact Hstep|]. by right.
Qed.
End Call.
End Prim.
