(* ===== verification/CompSpec.v ===== *)
(** * The compiler: what an emission does

    The states of the code generator, how one grows into a later one ([ext]), and what
    an emission guarantees of the final code ([spec]): the code generator only appends,
    a label once placed stays, temporaries lie above everything allocated before. *)
From S2P Require Import Prelude Float32 Text IrTypes IrEncode FbDispatch VmValue VmMemory VmExec VmInv.
From S2P Require Import CompAst CompLayout CompBind CompGen CompSem CompAsm CompRun.

(** ** States of the code generator *)

Definition pc_of (g : Codegen) : Z := len (cg_code g).

(** Everything allocated lies below. *)
Definition wm (g : Codegen) : Z := Z.max (Z.max (globals_end g) (cg_extra_data g)) (cg_data_cursor g).

Definition sym (g : Codegen) (key : bytes) : option Storage :=
  match cg_locals g !! key with Some s => Some s | None => cg_globals g !! key end.

Definition storage_place (s : Storage) : option Place :=
  match s with
  | StDataVar off (TdElem t) => Some (SgData, off, elem_size t)
  | StRetainVar off t => Some (SgRetain, off, elem_size t)
  | _ => None
  end.

Definition out_place (s : Storage) (f : bytes) : option Place :=
  match s with
  | StPrim _ _ outs =>
      (fun o : bytes * Z * IrType => (SgData, o.1.2, elem_size o.2)) <$>
        List.find (fun o => bool_decide (to_ascii_lowercase o.1.1 = f)) outs
  | _ => None
  end.

Definition place (g : Codegen) (c : Cell) : option Place :=
  match c with
  | CVar k => s ← sym g k; storage_place s
  | COut k f => s ← sym g k; out_place s f
  | CTmp off w => Some (SgData, off, w)
  end.

(** The final code of a project and what it was generated from, with the places of the
    variables of the body at hand. *)
Record Target := mkTarget {
  t_place : Cell -> option Place;
  t_vars : gmap bytes SrcVar;
  t_globals : gmap bytes Storage;
  t_code : bytes;
  t_labels : gmap Label Z;
  t_data_size : Z;
  t_retain_size : Z }.

Section Spec.
Context (T : Target).

(** The symbols are what the source's variables say, at places of their own. *)
Record good (g : Codegen) : Prop := {
  g_globals : cg_globals g = t_globals T;
  g_vars k : t_vars T !! k = erase <$> t_globals T !! k;
  g_layout : layout_ok (place g) (wm g) (t_retain_size T);
  g_locals k s : cg_locals g !! k = Some s -> t_globals T !! k = None /\ exists off, s = StDataVar off (TdElem TDint);
  g_inputs k slot ty : sym g k = Some (StInput slot ty) -> u_range 24 slot;
  g_outputs k slot ty : sym g k = Some (StOutput slot ty) -> u_range 24 slot;
  g_prims k id inst outs : sym g k = Some (StPrim id inst outs) ->
    u_range 32 inst /\ map (fun o => (o.1.1, o.2)) outs = prim_out_types id;
  g_labels l pc : cg_labels g !! l = Some pc -> l.2 < cg_label_id g;
  g_cursor : cg_data_cursor g <= cg_extra_data g }.

(** [g'] has all [g] has; what is new lies above the water mark of [g]. *)
Record grows (g g' : Codegen) : Prop := {
  gr_place c p : named c -> place g c = Some p -> place g' c = Some p;
  gr_new c sg off w : named c -> place g' c = Some (sg, off, w) ->
    place g c = Some (sg, off, w) \/ (sg = SgData /\ wm g <= off);
  gr_wm : wm g <= wm g' }.

#[export] Instance grows_pre : PreOrder grows.
Proof.
  split.
  - intros g. split; auto. lia.
  - intros g1 g2 g3 [H1 H2 H3] [H4 H5 H6]. split; [auto| |lia].
    intros c sg off w Hc Hp. apply H5 in Hp as [Hp|[-> Hp]]; [|right; split; [done|lia]|done].
    by apply H2.
Qed.

(** [g'] is [g] with the instructions [d] appended; labels numbered below [k] stay as
    they are. *)
Record ext (k : Z) (g g' : Codegen) (d : list AInstr) : Prop := {
  x_code : cg_code g' = cg_code g ++ assemble d;
  x_fixups : cg_fixups g' = cg_fixups g ++ fixups_of (pc_of g) d;
  x_id : k <= cg_label_id g <= cg_label_id g';
  x_keep l : l.2 < k -> cg_labels g' !! l = cg_labels g !! l;
  x_sub l pc : cg_labels g !! l = Some pc -> cg_labels g' !! l = Some pc;
  x_entries : cg_entries g' = cg_entries g;
  x_layouts : cg_fb_layouts g' = cg_fb_layouts g;
  x_good : good g';
  x_grows : grows g g' }.

Lemma x_pc k g g' d : ext k g g' d -> pc_of g' = pc_of g + size_of d.
Proof. intros []. unfold pc_of, size_of. by rewrite x_code0, len_app. Qed.

Lemma ext_trans k g g1 g2 d d' : ext k g g1 d -> ext k g1 g2 d' -> ext k g g2 (d ++ d').
Proof.
  intros H1 H2. pose proof (x_pc _ _ _ _ H1) as Hpc. destruct H1, H2. split; try congruence; try done.
  - rewrite x_code1, x_code0, <-app_assoc. unfold assemble. by rewrite flat_map_app.
  - by rewrite x_fixups1, x_fixups0, <-app_assoc, fixups_app, Hpc.
  - lia.
  - intros l Hl. rewrite x_keep1 by done. auto.
  - auto.
  - by etrans.
Qed.

Lemma ext_weaken k k' g g' d : k' <= k -> ext k g g' d -> ext k' g g' d.
Proof. intros Hk []. split; try done; [lia|]. intros l Hl. apply x_keep0. lia. Qed.

(** A label that is known but not placed yet. *)
Definition unplaced (l : Label) (g : Codegen) : Prop := cg_labels g !! l = None /\ l.2 < cg_label_id g.

Lemma unplaced_ext k g g' d l : ext k g g' d -> l.2 < k -> unplaced l g -> unplaced l g'.
Proof. intros [] Hl [H1 H2]. split; [by rewrite x_keep0|lia]. Qed.

(** ** What the final code will be *)

Record final (g : Codegen) : Prop := {
  f_place c p : named c -> place g c = Some p -> t_place T c = Some p;
  f_new c sg off w : named c -> t_place T c = Some (sg, off, w) ->
    place g c = Some (sg, off, w) \/ (sg = SgData /\ wm g <= off);
  f_labels l pc : cg_labels g !! l = Some pc -> t_labels T !! l = Some pc;
  f_wm : wm g <= t_data_size T;
  f_pc : pc_of g < 2 ^ 24 }.

Lemma final_ext k g g' d : ext k g g' d -> final g' -> final g.
Proof.
  intros Hx [H1 H2 H3 H4 H5]. pose proof (x_pc _ _ _ _ Hx). pose proof (size_nonneg d).
  destruct (x_grows _ _ _ _ Hx) as [Hp Hn Hw]. split; [auto| | |lia..].
  - intros c sg off w Hc Ht. destruct (H2 _ _ _ _ Hc Ht) as [?%Hn|[-> ?]]; [done|done|right; split; [done|lia]].
  - intros l pc Hl. apply H3. by eapply x_sub.
Qed.

(** Whatever is appended later, [S] holds of the final code. *)
Definition spec (k : Z) (g g' : Codegen) (S : Prop) : Prop :=
  exists d, ext k g g' d /\ (final g' -> code_at (t_code T) (t_labels T) (pc_of g) d -> S).

Lemma spec_trans k g g1 g2 S1 S2 : spec k g g1 S1 -> spec k g1 g2 S2 -> spec k g g2 (S1 /\ S2).
Proof.
  intros (d & Hx & H1) (d' & Hx' & H2). exists (d ++ d'). split; [by eapply ext_trans|].
  intros Hf [Hc Hc']%code_at_app. rewrite <-(x_pc _ _ _ _ Hx) in Hc'.
  split; [apply H1; [by eapply final_ext|done]|auto].
Qed.

Lemma spec_weaken k k' g g' S : k' <= k -> spec k g g' S -> spec k' g g' S.
Proof. intros Hk (d & Hx & H). exists d. split; [by eapply ext_weaken|done]. Qed.

Lemma spec_mono k g g' (S S' : Prop) : (final g' -> S -> S') -> spec k g g' S -> spec k g g' S'.
Proof. intros HS (d & Hx & H). exists d. split; [done|auto]. Qed.

Lemma spec_good k g g' S : spec k g g' S -> good g'.
Proof. intros (d & [] & _). done. Qed.

Lemma spec_grows k g g' S : spec k g g' S -> grows g g'.
Proof. intros (d & [] & _). done. Qed.

Lemma spec_ids k g g' S : spec k g g' S -> k <= cg_label_id g <= cg_label_id g'.
Proof. intros (d & [] & _). done. Qed.

Lemma spec_unplaced k g g' S l : spec k g g' S -> l.2 < k -> unplaced l g -> unplaced l g'.
Proof. intros (d & Hx & _). by eapply unplaced_ext. Qed.

Lemma spec_pc k g g' S : spec k g g' S -> pc_of g <= pc_of g'.
Proof. intros (d & Hx & _). rewrite (x_pc _ _ _ _ Hx). pose proof (size_nonneg d). lia. Qed.

(** ** The primitive emissions *)

Lemma layout_ok_grow pl pl' lo lo' R :
  (forall c, pl' c = pl c) -> lo <= lo' -> layout_ok pl lo R -> layout_ok pl' lo' R.
Proof.
  intros Hpl Hle [H1 H2 H3]. split.
  - intros c c' p p'. rewrite !Hpl. apply H1.
  - intros c sg off w Hc. rewrite Hpl. intros Hp. destruct (H2 c sg off w Hc Hp). destruct sg; lia.
  - intros. rewrite Hpl. apply H3.
Qed.

Record same_syms (g g' : Codegen) : Prop := {
  ss_locals : cg_locals g' = cg_locals g;
  ss_globals : cg_globals g' = cg_globals g;
  ss_layouts : cg_fb_layouts g' = cg_fb_layouts g;
  ss_entries : cg_entries g' = cg_entries g }.

Lemma same_place g g' c : same_syms g g' -> place g' c = place g c.
Proof. intros [H1 H2 _ _]. destruct c; cbn; unfold sym; by rewrite ?H1, ?H2. Qed.

Lemma same_ext k g g' d :
  same_syms g g' -> good g -> wm g <= wm g' ->
  cg_code g' = cg_code g ++ assemble d -> cg_fixups g' = cg_fixups g ++ fixups_of (pc_of g) d ->
  k <= cg_label_id g <= cg_label_id g' ->
  (forall l, l.2 < k -> cg_labels g' !! l = cg_labels g !! l) ->
  (forall l pc, cg_labels g !! l = Some pc -> cg_labels g' !! l = Some pc) ->
  (forall l pc, cg_labels g' !! l = Some pc -> l.2 < cg_label_id g') ->
  cg_data_cursor g' <= cg_extra_data g' ->
  ext k g g' d.
Proof.
  intros Hs [] Hwm Hc Hf Hid Hk Hsub Hlab Hcur. pose proof Hs as [H1 H2 H3 H4].
  assert (Hsym : forall key, sym g' key = sym g key) by (intros; unfold sym; by rewrite H1, H2).
  split; try done.
  - split; try done; try (by rewrite H2); try (by rewrite H1); try (intros ? ? ?; rewrite Hsym; eauto).
    eapply layout_ok_grow; [|exact Hwm|done]. intros c. by apply same_place.
  - split; [|left|done].
    + intros c p Hc' Hp. by rewrite (same_place g g').
    + by rewrite <-(same_place g g').
Qed.

#[local] Ltac ext_eq := solve [unfold assemble; cbn; rewrite ?app_nil_r; done].

Lemma spec_refl k g : good g -> k <= cg_label_id g -> spec k g g True.
Proof.
  intros Hg Hk. exists []. split; [|done].
  apply same_ext; try done; try lia; try ext_eq; apply Hg.
Qed.

Lemma emit_spec k g g' i u :
  good g -> k <= cg_label_id g -> emit i g = (g', Ok u) ->
  spec k g g' (pc_of g' = pc_of g + isize i /\ (instr_ok i -> instr_at (t_code T) (pc_of g) i)).
Proof.
  intros Hg Hk [= <- <-]. set (g' := set_cg_code _ g).
  assert (Hx : ext k g g' [Plain i]).
  { apply same_ext; try done; try lia; try ext_eq; apply Hg. }
  exists [Plain i]. split; [exact Hx|]. intros _ [Hi _]. split; [|exact Hi].
  rewrite (x_pc _ _ _ _ Hx), size_cons, size_nil. unfold asize. cbn [skeleton]. lia.
Qed.

Definition is_jump (op : Opcode) : Prop := op = Jmp \/ op = JmpIf \/ op = JmpIfNot.

Lemma emit_jmp_spec k g g' op l u :
  good g -> k <= cg_label_id g -> is_jump op -> emit_jmp op l g = (g', Ok u) ->
  spec k g g' (pc_of g' = pc_of g + 4 /\
    forall t, t_labels T !! l = Some t -> u_range 24 t -> instr_at (t_code T) (pc_of g) (Simple op t)).
Proof.
  intros Hg Hk Hop [= <- <-]. set (g' := set_cg_labels _ _ _ _).
  assert (Hx : ext k g g' [Jump op l]).
  { apply same_ext; try done; try lia; try ext_eq; apply Hg. }
  exists [Jump op l]. split; [exact Hx|]. intros _ [Hi _]. split.
  - rewrite (x_pc _ _ _ _ Hx), size_cons, size_nil. unfold asize. rewrite isize_cases. cbn. lia.
  - intros t Ht Hr. cbn [resolved] in Hi. rewrite Ht in Hi. change (default 0 (Some t)) with t in Hi.
    assert (Hm : mask24 t = t).
    { unfold mask24. change 0x00FFFFFF with (2 ^ 24 - 1). rewrite land_mask by lia. by apply Z.mod_small. }
    rewrite Hm in Hi. apply Hi. split; [|split; [|done]]; by destruct Hop as [->|[->| ->]].
Qed.

Lemma fresh_label_spec k g g' p l :
  good g -> k <= cg_label_id g -> fresh_label p g = (g', Ok l) ->
  spec k g g' (pc_of g' = pc_of g) /\ unplaced l g' /\ l.2 = cg_label_id g /\ cg_label_id g' = cg_label_id g + 1.
Proof.
  intros Hg Hk Hf. unfold fresh_label, m_gets, m_lift, m_modify, u32_add, mbind, M_bind in Hf.
  destruct (cg_label_id g + 1 <? 2 ^ 32); [|done]. injection Hf as <- <-.
  set (g' := set_cg_labels _ _ _ g).
  assert (Hx : ext k g g' []).
  { apply same_ext; try done; cbn; try lia; try ext_eq.
    - intros l pc Hl. pose proof (g_labels _ Hg _ _ Hl). cbn. lia.
    - apply Hg. }
  split; [|split; [|done]].
  - exists []. split; [exact Hx|done].
  - split; [|cbn; lia]. cbn. destruct (cg_labels g !! (p, cg_label_id g)) eqn:El; [|done].
    apply (g_labels _ Hg) in El. cbn in El. lia.
Qed.

Lemma place_label_spec k g g' l u :
  good g -> unplaced l g -> k <= l.2 -> place_label l g = (g', Ok u) ->
  spec k g g' (pc_of g' = pc_of g /\ t_labels T !! l = Some (pc_of g) /\ u_range 24 (pc_of g)).
Proof.
  intros Hg [Hun Hid] Hk [= <- <-]. set (g' := set_cg_labels _ _ _ g).
  assert (Hx : ext k g g' []).
  { apply same_ext; try done; cbn; try lia; try ext_eq.
    - intros l' Hl'. apply lookup_insert_ne. intros ->. lia.
    - intros l' pc Hl'. rewrite lookup_insert_ne; [done|]. intros ->. congruence.
    - intros l' pc Hl'. destruct (decide (l = l')) as [<-|Hne]; [done|].
      rewrite lookup_insert_ne in Hl' by done. by eapply g_labels.
    - apply Hg. }
  exists []. split; [exact Hx|]. intros [_ _ Hl _ Hpc] _. split; [done|].
  assert (Hr : u_range 24 (pc_of g)) by (unfold u_range; change (pc_of g') with (pc_of g) in Hpc; unfold pc_of, len in *; lia).
  split; [|done]. apply Hl. cbn. rewrite lookup_insert_eq. f_equal. unfold here. fold (pc_of g).
  unfold wrap_u. apply Z.mod_small. unfold u_range in Hr. lia.
Qed.

(** ** Temporaries *)

Lemma align_up_ge {E} c a r : 0 < a -> @align_up E c a = Ok r -> c <= r.
Proof.
  unfold align_up, u32_add. intros Ha. pose proof (Z.mod_pos_bound c a Ha).
  case_match; [intros [= <-]; lia|]. case_match; [|done]. intros [= <-]. lia.
Qed.

Lemma ty_align_pos t : 0 < ty_align t.
Proof. by destruct t. Qed.

Lemma elem_size_pos t : 0 < elem_size t <= 8.
Proof. by destruct t. Qed.

Lemma foldr_max_nonneg l : 0 <= foldr Z.max 0 l.
Proof. induction l; cbn; lia. Qed.

Lemma wm_nonneg g : 0 <= wm g.
Proof. unfold wm, globals_end. pose proof (foldr_max_nonneg (omap (data_end (cg_fb_layouts g)) (map snd (map_to_list (cg_globals g))))). lia. Qed.

Lemma alloc_temp_eq ty g g' off :
  alloc_temp ty g = (g', Ok off) ->
  g' = set_cg_temps (off + elem_size ty) (off + elem_size ty) g /\ wm g <= off /\ wm g' = off + elem_size ty.
Proof.
  unfold alloc_temp. intros Ha. pose proof (ty_align_pos ty). pose proof (elem_size_pos ty).
  destruct (align_up (cg_data_cursor g) (ty_align ty)) as [c| |] eqn:E1; cbn [mbind res_bind] in Ha; [|done..].
  destruct (align_up (Z.max _ c) (ty_align ty)) as [o| |] eqn:E2; cbn [mbind res_bind] in Ha; [|done..].
  unfold u32_add in Ha. destruct (_ <? _); cbn [mbind res_bind] in Ha; [|done].
  injection Ha as <- <-. apply align_up_ge in E1, E2; [|done..]. split; [done|].
  unfold wm. change (globals_end (set_cg_temps _ _ g)) with (globals_end g). cbn [set_cg_temps cg_extra_data cg_data_cursor].
  lia.
Qed.

Lemma alloc_temp_spec k g g' ty off :
  good g -> k <= cg_label_id g -> alloc_temp ty g = (g', Ok off) ->
  spec k g g' (pc_of g' = pc_of g) /\ wm g <= off /\ off + elem_size ty = wm g' /\ (forall c, place g' c = place g c).
Proof.
  intros Hg Hk Ha. apply alloc_temp_eq in Ha as (-> & H1 & H2). pose proof (elem_size_pos ty).
  assert (Hs : same_syms g (set_cg_temps (off + elem_size ty) (off + elem_size ty) g)) by done.
  split; [|split; [done|split; [done|intros; by apply same_place]]].
  exists []. split; [|done].
  apply same_ext; try done; cbn; try lia; try ext_eq; apply Hg.
Qed.

(** An implicit loop variable: a new symbol over a new place. *)
Lemma implicit_spec k g g1 g' key off :
  good g -> k <= cg_label_id g -> sym g key = None -> alloc_temp TDint g = (g1, Ok off) ->
  g' = set_cg_locals (<[key := StDataVar off (TdElem TDint)]> (cg_locals g1)) g1 ->
  spec k g g' (pc_of g' = pc_of g) /\ sym g' key = Some (StDataVar off (TdElem TDint)).
Proof.
  intros Hg Hk Hnone Ha ->. apply alloc_temp_eq in Ha as (-> & H1 & H2).
  set (g1 := set_cg_temps _ _ g) in *. set (g' := set_cg_locals _ _).
  assert (Hkey : cg_locals g !! key = None /\ cg_globals g !! key = None).
  { unfold sym in Hnone. by destruct (cg_locals g !! key). }
  assert (Hsym : forall key', sym g' key' = if decide (key = key') then Some (StDataVar off (TdElem TDint)) else sym g key').
  { intros key'. unfold sym. cbn. case_decide as E; [subst; by rewrite lookup_insert_eq|by rewrite lookup_insert_ne]. }
  change (wm g1) with (wm g') in H2. change (elem_size TDint) with 4 in *.
  pose proof (wm_nonneg g) as H0. pose proof Hg as [].
  assert (Hplace : forall c p, named c -> place g' c = Some p -> place g c = Some p \/ (c = CVar key /\ p = (SgData, off, 4))).
  { intros c p Hc Hp. destruct c as [k'|k' f|]; [| |done]; cbn in Hp |- *; rewrite Hsym in Hp;
      case_decide as E; cbn in Hp; first [by left|right; subst; by injection Hp as <-]. }
  assert (Hplace' : forall c p, named c -> place g c = Some p -> place g' c = Some p /\ c <> CVar key).
  { intros c p Hc Hp. destruct c as [k'|k' f|]; [| |done]; cbn in Hp |- *; rewrite Hsym;
      case_decide as E; try (subst; by rewrite Hnone in Hp); (split; [done|congruence]). }
  assert (Hgr : grows g g').
  { split; [|intros c sg o w Hc Hp|lia].
    - intros c p Hc Hp. by apply Hplace'.
    - apply Hplace in Hp as [Hp|[_ [= -> -> ->]]]; [by left|right; done|done]. }
  assert (Hg' : good g').
  { split; try done.
    - split; [| |done].
      + intros c c' p p' Hc Hc' Hne Hp Hp'.
        apply Hplace in Hp as [Hp|[-> ->]]; [| |done]; (apply Hplace in Hp' as [Hp'|[-> ->]]; [| |done]); try done.
        * by apply (lo_apart _ _ _ g_layout0 c c' p p').
        * destruct p as [[sg o] w]. destruct (lo_bound _ _ _ g_layout0 _ _ _ _ Hc Hp).
          destruct sg; [right; left; cbn; lia|by left].
        * destruct p' as [[sg o] w]. destruct (lo_bound _ _ _ g_layout0 _ _ _ _ Hc' Hp').
          destruct sg; [right; right; cbn; lia|by left].
      + intros c sg o w Hc Hp. apply Hplace in Hp as [Hp|[-> [= -> -> ->]]]; [|lia|done].
        destruct (lo_bound _ _ _ g_layout0 _ _ _ _ Hc Hp). destruct sg; lia.
    - intros k0 s. cbn. destruct (decide (key = k0)) as [<-|Hne].
      + rewrite lookup_insert_eq. intros [= <-]. rewrite <-g_globals0. split; [apply Hkey|by eexists].
      + rewrite lookup_insert_ne by done. auto.
    - intros k0 slot ty. rewrite Hsym. case_decide; [done|eauto].
    - intros k0 slot ty. rewrite Hsym. case_decide; [done|eauto].
    - intros k0 id inst outs. rewrite Hsym. case_decide; [done|eauto]. }
  split; [|rewrite Hsym; by case_decide].
  exists []. split; [|done]. split; try done; cbn; try lia; by rewrite app_nil_r.
Qed.
End Spec.
