(* ===== verification/CompExpr.v ===== *)
(** * The compiler: expressions

    The code of an expression leaves the value of the reference semantics on the stack,
    or ends the run where the semantics faults. *)
From S2P Require Import Prelude Float32 Text IrTypes IrEncode FbDispatch VmValue VmMemory VmExec VmInv.
From S2P Require Import CompAst CompLayout CompBind CompGen CompSem CompAsm CompRun CompSpec.

(** A value fits its static type, BOOL apart: NOT of an integer is typed BOOL. *)
Definition sized (ty : IrType) (v : VmValue) : Prop := ty <> TBool -> Val.byte_width v <= elem_size ty.

Section Expr.
Context `{NanRule, HashOrder} (T : Target) (now : Z) (inputs : SlotImage).
Hypothesis Hnow : u_range 64 now.
Hypothesis (Hds : t_data_size T <= 2 ^ 24) (Hrs : t_retain_size T <= 2 ^ 24).

Hypothesis Hlay : layout_ok (t_place T) (t_data_size T) (t_retain_size T).

(** The machine is in a source state, with [temps] live and [vs] on the stack. *)
Definition at_t (temps : gmap Cell VmValue) (st : SrcState) (vs : list VmValue) (s : Vm) : Prop :=
  at_ (t_code T) inputs (t_data_size T) (t_retain_size T) (t_place T) temps st vs s.

(** What a source state still says of the machine once the run is over. *)
Definition ended (st : SrcState) (s : Vm) : Prop :=
  exists temps, rel (t_code T) inputs (t_data_size T) (t_retain_size T) (t_place T) temps st s.

Definition runs {A} (out : SrcState * res Exit A) := follows now ended out.

(** The temporaries alive, all below the water mark. *)
Definition live (g : Codegen) (temps : gmap Cell VmValue) : Prop := temps_ok (t_place T) (wm g) temps.

(** ** Temporaries *)

Lemma live_grows g g' temps : grows g g' -> live g temps -> live g' temps.
Proof.
  intros [_ _ Hw] Ht c v Hv. destruct (Ht c v Hv) as (off & w & -> & Hz & Hle & Hrest).
  exists off, w. repeat split; try done; [lia|apply Hrest..].
Qed.

Lemma live_sub temps temps' g : temps ⊆ temps' -> live g temps' -> live g temps.
Proof.
  intros Hsub Ht c v Hv. destruct (Ht c v (lookup_weaken _ _ _ _ Hv Hsub)) as (off & w & -> & Hz & Hle & Ha & Hc).
  exists off, w. repeat split; try done. intros c' u p' Hu. apply (Hc c' u). by eapply lookup_weaken.
Qed.

Lemma at_sub temps temps' st vs s : temps ⊆ temps' -> at_t temps' st vs s -> at_t temps st vs s.
Proof.
  intros Hsub [[] Hs]. split; [|done]. split; try done.
  intros c v Hc. apply r_temps. by eapply lookup_weaken.
Qed.

(** A new temporary between two water marks. *)
Record fresh_at (g g' : Codegen) (off w : Z) : Prop := {
  fr_low : wm g <= off;
  fr_high : off + w = wm g';
  fr_place c : place g' c = place g c }.

Lemma fresh_apart g g' off w c p :
  good T g -> final T g' -> fresh_at g g' off w -> named c -> t_place T c = Some p -> apart p (SgData, off, w).
Proof.
  intros Hg Hf [Ha1 H2 H3] Hc Hp. destruct p as [[sg o] w'].
  destruct (f_new _ _ Hf _ _ _ _ Hc Hp) as [Hp'|[-> Hle]]; [|right; right; cbn; lia].
  rewrite H3 in Hp'. destruct (lo_bound _ _ _ (g_layout _ _ Hg) _ _ _ _ Hc Hp') as [_ Hb].
  destruct sg; [right; left; cbn; lia|by left].
Qed.

Lemma live_clear g off w temps c :
  wm g <= off -> live g temps -> clear_of (t_place T) temps c (SgData, off, w).
Proof.
  intros Hle Ht c' u p' Hu _ Hp'. destruct (Ht c' u Hu) as (o & w' & -> & _ & Hw & _).
  rewrite (lo_tmp _ _ _ Hlay) in Hp'. injection Hp' as <-. right; left; cbn; lia.
Qed.

Lemma live_fresh_none g off w temps : wm g <= off -> 0 < w -> live g temps -> temps !! CTmp off w = None.
Proof.
  intros Hle Hw Ht. destruct (temps !! CTmp off w) eqn:E; [|done].
  destruct (Ht _ _ E) as (o & w' & [= <- <-] & _ & ? & _). lia.
Qed.

Lemma live_fresh g g' off w v temps :
  good T g -> final T g' -> fresh_at g g' off w -> 0 <= off -> 0 < w -> live g temps ->
  live g' (<[CTmp off w := v]> temps).
Proof.
  intros Hg Hf Hfr Hz Hw Ht c u Hu. destruct (decide (c = CTmp off w)) as [->|Hne].
  - exists off, w. repeat split; try done; [pose proof (fr_high _ _ _ _ Hfr); lia| |].
    + intros c' p. by eapply fresh_apart.
    + intros c' x p' Hx Hne Hp'. rewrite lookup_insert_ne in Hx by done.
      by apply (live_clear g off w temps (CTmp off w) (fr_low _ _ _ _ Hfr) Ht c' x p').
  - rewrite lookup_insert_ne in Hu by done. destruct (Ht c u Hu) as (o & w' & -> & Ha1 & H2 & H3 & H4).
    exists o, w'. repeat split; try done; [destruct Hfr; lia|].
    intros c' x p' Hx Hne' Hp'. destruct (decide (c' = CTmp off w)) as [->|Hne2].
    + rewrite (lo_tmp _ _ _ Hlay) in Hp'. injection Hp' as <-. right; right; cbn. destruct Hfr; lia.
    + rewrite lookup_insert_ne in Hx by done. by apply (H4 c' x p').
Qed.

(** Storing into a new temporary. *)
Lemma runs_store_fresh {A} g g' off w v temps st vs s pc (out : SrcState * res Exit A) Q :
  good T g -> final T g' -> fresh_at g g' off w -> 0 < w -> live g temps ->
  at_t temps st (vs ++ [v]) s -> 0 <= pc -> (instr_ok (Simple StData off) -> instr_at (t_code T) pc (Simple StData off)) ->
  Val.byte_width v <= w ->
  (forall s1, live g' (<[CTmp off w := v]> temps) -> at_t (<[CTmp off w := v]> temps) st vs s1 ->
    runs out (pc + 4) s1 Q) ->
  runs out pc s Q.
Proof.
  intros Hg Hf Hfr Hw Ht Hat Hpc Hi Hv Hk. pose proof (wm_nonneg g). pose proof (f_wm _ _ Hf).
  pose proof (fr_low _ _ _ _ Hfr). pose proof (fr_high _ _ _ _ Hfr).
  eapply (follows_store_temp now _ _ _ _ Hnow ended _ _ _ _ _ _ Hpc _ Hlay off w); [exact Hat| |exact Hv|lia|lia|lia| | |].
  - apply Hi. split; [done|]. split; [done|]. unfold u_range. lia.
  - intros c' u p' Hu _ Hp'. eapply fresh_apart; [done|done|done| |exact Hp']. by eapply (r_named _ _ _ _ _ _ _ _ (proj1 Hat)).
  - by eapply live_clear.
  - intros s1 Hs1. apply Hk; [|done]. eapply live_fresh; try done; lia.
Qed.

(** Storing into a temporary that is alive. *)
Lemma runs_store_live {A} g off w u v temps st vs s pc (out : SrcState * res Exit A) Q :
  final T g -> live g temps -> temps !! CTmp off w = Some u -> 0 < w ->
  at_t temps st (vs ++ [v]) s -> 0 <= pc -> (instr_ok (Simple StData off) -> instr_at (t_code T) pc (Simple StData off)) ->
  Val.byte_width v <= w ->
  (forall s1, live g (<[CTmp off w := v]> temps) -> at_t (<[CTmp off w := v]> temps) st vs s1 ->
    runs out (pc + 4) s1 Q) ->
  runs out pc s Q.
Proof.
  intros Hf Ht Hu Hw Hat Hpc Hi Hv Hk. pose proof (f_wm _ _ Hf) as Hwm.
  destruct (Ht _ _ Hu) as (o & w' & [= <- <-] & Hz & Hle & _).
  assert (Hin : temps !! CTmp off w <> None) by congruence.
  destruct (clear_temp (t_place T) (wm g) temps (ss_cells st) Ht (r_named _ _ _ _ _ _ _ _ (proj1 Hat)) off w Hin).
  eapply (follows_store_temp now _ _ _ _ Hnow ended _ _ _ _ _ _ Hpc _ Hlay off w); [exact Hat| |exact Hv|lia|lia|lia|done|done|].
  - apply Hi. split; [done|]. split; [done|]. unfold u_range. lia.
  - intros s1 Hs1. apply Hk; [|done]. by apply temps_ok_update.
Qed.

Lemma runs_load_temp {A} g off w v temps st vs s pc (out : SrcState * res Exit A) Q :
  final T g -> live g temps -> temps !! CTmp off w = Some v -> 0 < w ->
  at_t temps st vs s -> 0 <= pc -> (instr_ok (Simple LdData off) -> instr_at (t_code T) pc (Simple LdData off)) ->
  (forall s1, at_t temps st (vs ++ [v]) s1 -> runs out (pc + 4) s1 Q) ->
  runs out pc s Q.
Proof.
  intros Hf Ht Hv Hw Hat Hpc Hi Hk. pose proof (f_wm _ _ Hf) as Hwm.
  destruct (Ht _ _ Hv) as (o & w' & [= <- <-] & Hz & Hle & _).
  eapply (follows_load now _ _ _ _ Hnow ended _ _ _ _ _ _ Hpc SgData off (CTmp off w) v temps _ _ w);
    [exact Hat| |apply Hat|done|by apply (lo_tmp _ _ _ Hlay)|lia|done].
  apply Hi. split; [done|]. split; [done|]. unfold u_range. lia.
Qed.

(** More steps after the result is there. *)
Lemma runs_then {A} (out : SrcState * res Exit A) pc s Q Q' :
  runs out pc s Q -> (forall a st pc s, Q a st pc s -> runs (st, Ok a) pc s Q') -> runs out pc s Q'.
Proof.
  unfold runs. intros Hm HQ. destruct out as [st [a|[]|]]; cbn [follows] in *; try done.
  eapply leads_weaken; [|done|exact Hm]. intros. by apply HQ.
Qed.

(** ** Symbols *)

Lemma var_of_sym g n s :
  good T g -> sym g (to_ascii_lowercase n) = Some s -> var_of (t_vars T) n = erase s.
Proof.
  intros Hg Hs. unfold var_of, sym in *. rewrite (g_vars _ _ Hg).
  destruct (cg_locals g !! to_ascii_lowercase n) as [s'|] eqn:E.
  - injection Hs as ->. destruct (g_locals _ _ Hg _ _ E) as [-> [off ->]]. done.
  - rewrite (g_globals _ _ Hg) in Hs. by rewrite Hs.
Qed.

Lemma place_range g c sg off w :
  good T g -> final T g -> named c -> place g c = Some (sg, off, w) -> 0 < w -> u_range 24 off.
Proof.
  intros Hg Hf Hc Hp Hw. destruct (lo_bound _ _ _ (g_layout _ _ Hg) c sg off w Hc Hp).
  pose proof (f_wm _ _ Hf). unfold u_range. destruct sg; lia.
Qed.

Lemma cell_width sg off w temps st vs s c v :
  at_t temps st vs s -> ss_cells st !! c = Some v -> t_place T c = Some (sg, off, w) -> Val.byte_width v <= w.
Proof.
  intros [Hr _] Hc Hp. destruct (r_cells _ _ _ _ _ _ _ _ Hr c v Hc) as (sg' & off' & w' & Hp' & _ & Hw & _).
  rewrite Hp in Hp'. by injection Hp' as _ _ ->.
Qed.

(** ** What an expression's code does *)

Definition expr_post (g' : Codegen) (temps : gmap Cell VmValue) (vs : list VmValue) (ty : IrType)
    (v : VmValue) (st : SrcState) (pc : Z) (s : Vm) : Prop :=
  pc = pc_of g' /\ at_t temps st (vs ++ [v]) s /\ sized ty v.

Definition sem_sim (g g' : Codegen) (m : Sem VmValue) (ty : IrType) : Prop :=
  forall temps vs st s, live g temps -> at_t temps st vs s ->
  runs (m st) (pc_of g) s (expr_post g' temps vs ty).

Abbreviation eval := (eval inputs (t_vars T)).

Definition expr_sim (g g' : Codegen) (e : Expr) (ty : IrType) : Prop := sem_sim g g' (eval e) ty.

(** What emitting [m] guarantees. *)
Definition expr_spec (m : Gen IrType) (sem : Sem VmValue) : Prop :=
  forall g g' ty, good T g -> m g = (g', Ok ty) -> spec T (cg_label_id g) g g' (sem_sim g g' sem ty).

(** A single instruction. *)
Lemma emit_one i g g' u :
  good T g -> emit i g = (g', Ok u) ->
  spec T (cg_label_id g) g g' (final T g /\ 0 <= pc_of g /\ pc_of g' = pc_of g + isize i /\
    (instr_ok i -> instr_at (t_code T) (pc_of g) i)).
Proof.
  intros Hg Hm. pose proof (emit_spec T (cg_label_id g) g g' i u Hg ltac:(lia) Hm) as Hsp.
  assert (Hf : final T g' -> final T g) by (destruct Hsp as (d & Hx & _); by eapply final_ext).
  eapply spec_mono; [|exact Hsp]. intros Hfin [Hpc Hi]. split; [auto|]. split; [unfold pc_of, len; lia|done].
Qed.

Lemma emit_ret i (ty ty' : IrType) g g' :
  good T g -> (emit i ;; mret ty') g = (g', Ok ty) ->
  ty' = ty /\ spec T (cg_label_id g) g g' (final T g /\ 0 <= pc_of g /\ pc_of g' = pc_of g + isize i /\
    (instr_ok i -> instr_at (t_code T) (pc_of g) i)).
Proof.
  intros Hg Hm. apply M_bind_Ok in Hm as ([] & g1 & Hm & [= -> ->]). split; [done|]. by eapply emit_one.
Qed.

(** A single instruction that pushes what [sem] gives. *)
Lemma emit_sim i (ty ty' : IrType) sem g g' :
  good T g -> (emit i ;; mret ty') g = (g', Ok ty) ->
  (final T g -> ty' = ty -> forall temps vs st s pc, live g temps -> at_t temps st vs s ->
    0 <= pc -> (instr_ok i -> instr_at (t_code T) pc i) ->
    runs (sem st) pc s (fun v st' pc' s' => pc' = pc + isize i /\ at_t temps st' (vs ++ [v]) s' /\ sized ty v)) ->
  spec T (cg_label_id g) g g' (sem_sim g g' sem ty).
Proof.
  intros Hg [-> Hsp]%(fun H => emit_ret i ty ty' g g' Hg H) Hsem.
  eapply spec_mono; [|exact Hsp]. intros _ (Hf & Hz & Hpc & Hi) temps vs st s Ht Hat.
  eapply follows_weaken; [by apply (Hsem Hf eq_refl temps vs st s (pc_of g) Ht Hat)|].
  intros v st' pc' s' (-> & Hat' & Hv). by rewrite <-Hpc.
Qed.

(** An instruction whose meaning is left open. *)
Lemma undefined_sim i (ty ty' : IrType) (sem : Sem VmValue) g g' :
  good T g -> (emit i ;; mret ty') g = (g', Ok ty) ->
  (forall st, exists st', sem st = (st', Err XUndefined)) ->
  spec T (cg_label_id g) g g' (sem_sim g g' sem ty).
Proof.
  intros Hg Hm Hsem. eapply emit_sim; [done|exact Hm|]. intros _ _ temps vs st s pc _ _ _ _.
  by destruct (Hsem st) as [st' ->].
Qed.

(** What follows an expression. *)
Definition rest_spec (ty : IrType) (k : Gen IrType) (sem : VmValue -> Sem VmValue) : Prop :=
  forall g g' ty', good T g -> k g = (g', Ok ty') -> spec T (cg_label_id g) g g'
    (forall temps vs v st s, live g temps -> at_t temps st (vs ++ [v]) s -> sized ty v ->
     runs (sem v st) (pc_of g) s (expr_post g' temps vs ty')).

Lemma bind_spec m k sem sem' :
  expr_spec m sem -> (forall ty, rest_spec ty (k ty) sem') -> expr_spec (t ← m; k t) (v ← sem; sem' v).
Proof.
  intros Ha1 H2 g g' ty' Hg Hm. apply M_bind_Ok in Hm as (ty & g1 & Hm & Hk).
  pose proof (Ha1 _ _ _ Hg Hm) as Hs1. pose proof (H2 ty _ _ _ (spec_good _ _ _ _ _ Hs1) Hk) as Hs2.
  apply (spec_weaken _ _ (cg_label_id g)) in Hs2; [|apply (spec_ids _ _ _ _ _ Hs1)].
  eapply spec_mono; [|exact (spec_trans _ _ _ _ _ _ _ Hs1 Hs2)].
  intros _ [S1 S2] temps vs st s Ht Hat. eapply follows_bind; [by apply S1|].
  intros v st1 pc1 s1 (-> & Hat1 & Hv). apply S2; [|done..].
  eapply live_grows; [|done]. by eapply spec_grows.
Qed.

(** The machine pushes a value the semantics has at once. *)
Lemma runs_push temps st vs v s pc i ty :
  at_t temps st vs s -> 0 <= pc -> instr_at (t_code T) pc i -> sized ty v ->
  exec_instr now i (isize i) pc s = (push v pc ;; mret (inl (pc + isize i))) s ->
  runs (st, Ok v) pc s (fun v st' pc' s' => pc' = pc + isize i /\ at_t temps st' (vs ++ [v]) s' /\ sized ty v).
Proof.
  intros Hat Hpc Hi Hv Hex. eapply follows_push; [done|done|exact Hat|exact Hi|exact Hex|].
  intros s1 Hs1. by apply follows_ret.
Qed.

Lemma literal_spec l : expr_spec (emit_literal l) (m_lift (ok_or (literal_value l) XUndefined)).
Proof.
  intros g g' ty Hg Hm.
  assert (Hw : forall x, instr_ok (WithImm32 PushIDint 0 (wrap_u 32 x)) /\ instr_ok (WithImm32 PushTime 0 (wrap_u 32 x))).
  { intros x. pose proof (wrap_u_range 32 x ltac:(lia)). done. }
  destruct l as [b|v|bits|ms]; cbn [emit_literal] in Hm; (eapply emit_sim; [done|exact Hm|]);
    intros _ <- temps vs st s pc Ht Hat Hpc Hi; unfold m_lift; cbn [literal_value ok_or].
  - eapply runs_push; try done; [apply Hi|]; by destruct b.
  - rewrite <-wrap_s_u by lia. eapply runs_push; try done. apply Hi, Hw.
  - destruct ((0 <=? bits) && (bits <? 2 ^ 32)) eqn:E; [|done].
    apply andb_prop in E as [E1%Z.leb_le E2%Z.ltb_lt]. eapply runs_push; try done. by apply Hi.
  - rewrite <-wrap_s_u by lia. eapply runs_push; try done. apply Hi, Hw.
Qed.

(** ** Variables *)

(** Loading what a cell holds. *)
Lemma runs_cell g temps st vs s pc sg off ty c :
  good T g -> final T g -> live g temps -> at_t temps st vs s -> 0 <= pc ->
  named c -> place g c = Some (sg, off, elem_size ty) ->
  (instr_ok (Simple (load_op sg) off) -> instr_at (t_code T) pc (Simple (load_op sg) off)) ->
  runs (read_cell c st) pc s
    (fun v st' pc' s' => pc' = pc + 4 /\ at_t temps st' (vs ++ [v]) s' /\ sized ty v).
Proof.
  intros Hg Hf Ht Hat Hpc Hc Hp Hi. pose proof (elem_size_pos ty).
  pose proof (place_range g c sg off _ Hg Hf Hc Hp ltac:(lia)) as Hr. unfold read_cell.
  destruct (ss_cells st !! c) as [v|] eqn:Ev; [|done]. cbn [ok_or].
  apply (f_place _ _ Hf _ _ Hc) in Hp. pose proof (cell_width _ _ _ _ _ _ _ _ _ Hat Ev Hp) as Hw.
  eapply (follows_load now _ _ _ _ Hnow _ _ _ _ _ _ _ Hpc sg off c v (ss_cells st) _ _ (elem_size ty));
    [exact Hat| |apply Hat|done|done|unfold u_range in Hr; lia|].
  - apply Hi. destruct sg; (split; [done|split; [done|exact Hr]]).
  - intros s1 Hs1. apply follows_ret. split; [done|]. split; [done|]. by intros _.
Qed.

Lemma lookup_Ok n g g1 s : lookup n g = (g1, Ok s) -> g1 = g /\ sym g (to_ascii_lowercase n) = Some s.
Proof. unfold lookup. intros [= <- Hs%ok_or_Ok]. done. Qed.

Lemma lift_Ok {A} (r : res ErrorCode A) (g g1 : Codegen) a : m_lift r g = (g1, Ok a) -> g1 = g /\ r = Ok a.
Proof. by intros [= <- ->]. Qed.

(** The reader of a slot checks the declared type. *)
Lemma runs_slot temps st vs s pc i ty (r : Z -> res VmError VmValue) :
  at_t temps st vs s -> 0 <= pc -> instr_at (t_code T) pc i ->
  exec_instr now i (isize i) pc s = (v ← m_lift (r pc); push v pc ;; mret (inl (pc + isize i))) s ->
  match r 0 with Ok v => r pc = Ok v | Err _ => exists e, r pc = Err e | Panic => r pc = Panic end ->
  runs ((v ← machine (r 0); fit_slot ty v) st) pc s
    (fun v st' pc' s' => pc' = pc + isize i /\ at_t temps st' (vs ++ [v]) s' /\ sized ty v).
Proof.
  intros Hat Hpc Hi Hex Hr.
  eapply (follows_bind now ended) with (Q := fun v st1 pc1 s1 => st1 = st /\ pc1 = pc + isize i /\ at_t temps st (vs ++ [v]) s1).
  - eapply (follows_fetch now _ _ _ _ Hnow ended _ _ _ _ _ _ i r); [done|exact Hat|exact Hi|exact Hex|exact Hr|].
    by intros v s1 _ Hs1.
  - intros v st1 pc1 s1 (-> & -> & Hs1). unfold fit_slot. destruct (fits ty v && _) eqn:Ef; [|done]. apply andb_true_iff in Ef as [Ef _].
    apply follows_ret. split; [done|]. split; [done|]. intros _. by apply Z.leb_le in Ef.
Qed.

Lemma slots_get_pc sl idx pc :
  match Slots.get sl idx 0 with
  | Ok v => Slots.get sl idx pc = Ok v
  | Err _ => exists e, Slots.get sl idx pc = Err e
  | Panic => Slots.get sl idx pc = Panic
  end.
Proof. unfold Slots.get. destruct (_ !! _); [done|by eexists]. Qed.

Lemma quality_pc sl idx pc :
  match Slots.quality_good sl idx 0 with
  | Ok v => Slots.quality_good sl idx pc = Ok v
  | Err _ => exists e, Slots.quality_good sl idx pc = Err e
  | Panic => Slots.quality_good sl idx pc = Panic
  end.
Proof. unfold Slots.quality_good. destruct (_ !! _); [done|by eexists]. Qed.

Lemma load_var_spec n : expr_spec (emit_load_path [PIdent n]) (eval_path inputs (t_vars T) [PIdent n]).
Proof.
  intros g g' ty Hg Hm. unfold emit_load_path in Hm. cbn [path_parts] in Hm.
  apply M_bind_Ok in Hm as ([root rest] & g1 & [-> [= <- <-]]%lift_Ok & Hm).
  apply M_bind_Ok in Hm as (sy & g1 & [-> Hsy]%lookup_Ok & Hm).
  cbn [eval_path]. rewrite (var_of_sym g n sy Hg Hsy).
  destruct sy as [slot t|slot t|off [t|? ?|?|?]|off t|? ? ?|? ?|? value]; cbn [erase]; try discriminate Hm.
  - eapply emit_sim; [done|exact Hm|]. intros Hf <- temps vs st s pc Ht Hat Hpc Hi.
    pose proof (g_inputs _ _ Hg _ _ _ Hsy) as Hr.
    eapply (runs_slot _ _ _ _ _ _ _ (Slots.get inputs slot)); [exact Hat|done|by apply Hi| |apply slots_get_pc].
    cbn [exec_instr exec_simple]. unfold mbind at 1, M_bind at 1, m_get. by rewrite (r_inputs _ _ _ _ _ _ _ _ (proj1 Hat)).
  - eapply emit_sim; [done|exact Hm|]. intros Hf <- temps vs st s pc Ht Hat Hpc Hi.
    pose proof (g_outputs _ _ Hg _ _ _ Hsy) as Hr.
    eapply (runs_slot _ _ _ _ _ _ _ (Slots.get (ss_outputs st) slot)); [exact Hat|done|by apply Hi| |apply slots_get_pc].
    cbn [exec_instr exec_simple]. unfold mbind at 1, M_bind at 1, m_get. by rewrite (r_outputs _ _ _ _ _ _ _ _ (proj1 Hat)).
  - eapply emit_sim; [done|exact Hm|]. intros Hf <- temps vs st s pc Ht Hat Hpc Hi.
    eapply (runs_cell _ _ _ _ _ _ SgData); [..|exact Hi]; try done. cbn. by rewrite Hsy.
  - eapply emit_sim; [done|exact Hm|]. intros Hf <- temps vs st s pc Ht Hat Hpc Hi.
    eapply (runs_cell _ _ _ _ _ _ SgRetain); [..|exact Hi]; try done. cbn. by rewrite Hsy.
  - by apply literal_spec.
Qed.

Lemma find_out_place outs f off ty :
  find_out outs f = Ok (off, ty) ->
  (fun o : bytes * Z * IrType => (SgData, o.1.2, elem_size o.2)) <$>
    List.find (fun o => bool_decide (to_ascii_lowercase o.1.1 = to_ascii_lowercase f)) outs = Some (SgData, off, elem_size ty).
Proof. unfold find_out, eq_ignore_ascii_case. destruct (List.find _ outs) as [[[? ?] ?]|]; [|done]. by intros [= <- <-]. Qed.

Lemma load_path_spec path : expr_spec (emit_load_path path) (eval_path inputs (t_vars T) path).
Proof.
  intros g g' ty Hg Hm. destruct path as [|[n|e] rest]; try discriminate Hm.
  destruct rest as [|seg rest]; [by eapply load_var_spec|]. unfold emit_load_path in Hm. cbn [path_parts] in Hm.
  apply M_bind_Ok in Hm as ([root r] & g1 & [-> [= <- <-]]%lift_Ok & Hm).
  apply M_bind_Ok in Hm as (sy & g1 & [-> Hsy]%lookup_Ok & Hm).
  destruct seg as [field|idx]; cbn [eval_path]; rewrite ?(var_of_sym g n sy Hg Hsy).
  - destruct sy as [? ?|? ?|? [?|? ?|?|?]|? ?|id inst outs|fb base|? ?]; try discriminate Hm; cbn [erase].
    + apply M_bind_Ok in Hm as ([off t] & g1 & [-> Ho]%lift_Ok & Hm).
      eapply emit_sim; [done|exact Hm|]. intros Hf <- temps vs st s pc Ht Hat Hpc Hi.
      eapply (runs_cell _ _ _ _ _ _ SgData); [..|exact Hi]; try done. cbn. rewrite Hsy. cbn. by apply find_out_place.
    + apply M_bind_Ok in Hm as (l & g1 & Hl & Hm). unfold layout_of in Hl. injection Hl as <- _.
      apply M_bind_Ok in Hm as (f & g1 & [-> _]%lift_Ok & Hm). unfold emit_field, emit_data in Hm.
      case_match; rewrite M_bind_assoc in Hm; apply M_bind_Ok in Hm as (o & g1 & [-> _]%lift_Ok & Hm);
        (eapply undefined_sim; [done|exact Hm|by eexists]).
  - destruct sy as [? ?|? ?|? [?|elem ?|?|?]|? ?|id inst outs|fb base|? ?]; try discriminate Hm.
    apply M_bind_Ok in Hm as (et & g1 & [-> _]%lift_Ok & Hm). apply M_bind_Ok in Hm as (i & g1 & [-> _]%lift_Ok & Hm).
    apply M_bind_Ok in Hm as (d & g1 & [-> _]%lift_Ok & Hm). unfold emit_data in Hm. rewrite M_bind_assoc in Hm.
    apply M_bind_Ok in Hm as (o & g1 & [-> _]%lift_Ok & Hm). eapply undefined_sim; [done|exact Hm|by eexists].
Qed.

Lemma q_good_spec e : expr_spec (emit_q_good e) (eval_q_good inputs (t_vars T) e).
Proof.
  intros g g' ty Hg Hm. destruct e as [|path| | | |]; try discriminate Hm. unfold emit_q_good in Hm.
  apply M_bind_Ok in Hm as ([root rest] & g1 & [-> Hr]%lift_Ok & Hm).
  apply M_bind_Ok in Hm as (sy & g1 & [-> Hsy]%lookup_Ok & Hm).
  destruct path as [|[n|?] path]; try discriminate Hr. injection Hr as -> ->. cbn [eval_q_good fst] in *.
  rewrite (var_of_sym g root sy Hg Hsy). destruct sy as [slot t| | | | | |]; try discriminate Hm. cbn [erase].
  eapply emit_sim; [done|exact Hm|]. intros Hf <- temps vs st s pc Ht Hat Hpc Hi.
  pose proof (g_inputs _ _ Hg _ _ _ Hsy) as Hr. pose proof (quality_pc inputs slot pc) as Hq.
  set (r := fun pc => good ← Slots.quality_good inputs slot pc; Ok (VBool good)).
  assert (He : forall st, (good ← machine (Slots.quality_good inputs slot 0); mret (VBool good)) st = machine (r 0) st).
  { intros st0. unfold r, machine, m_lift, mbind, M_bind, res_bind. by destruct (Slots.quality_good inputs slot 0). }
  rewrite He. eapply follows_weaken with (Q := fun v st1 pc1 s1 => st1 = st /\ pc1 = _ /\ at_t temps st (vs ++ [v]) s1 /\ sized TBool v).
  - eapply (follows_fetch now _ _ _ _ Hnow ended _ _ _ _ _ _ (Simple LdIq slot) r); [done|exact Hat|by apply Hi| | |].
    + cbn [exec_instr exec_simple]. unfold mbind at 1, M_bind at 1, m_get. rewrite (r_inputs _ _ _ _ _ _ _ _ (proj1 Hat)).
      unfold r, m_lift, mbind, M_bind, res_bind. by destruct (Slots.quality_good inputs slot pc).
    + unfold r. destruct (Slots.quality_good inputs slot 0); cbn; [by rewrite Hq|by destruct Hq as [? ->]; eexists|by rewrite Hq].
    + intros v s1 _ Hs1. do 3 (split; [done|]). by intros ?.
  - by intros v st1 pc1 s1 (-> & -> & Hs1 & Hv).
Qed.

(** ** Operators *)

Lemma binop_width op a b pc d d' v :
  is_arith op = true -> binop op a b pc d = (d', Ok v) ->
  Val.byte_width v <= Z.max (Val.byte_width a) (Val.byte_width b).
Proof.
  intros Hop. destruct op; try discriminate Hop; destruct a, b; cbn;
    unfold m_lift, count_div0, sdiv, m_modify, m_err, m_panic, mbind, M_bind, mret, M_ret;
    repeat case_match; intros; simplify_eq; cbn; lia.
Qed.

Lemma xor_width a b pc d d' v : binop Xor a b pc d = (d', Ok v) -> Val.byte_width v = Val.byte_width a.
Proof. destruct a, b; cbn; unfold m_lift; intros; by simplify_eq. Qed.

Lemma unary_width op a pc v : unary_op op a pc = Ok v -> Val.byte_width v = Val.byte_width a.
Proof. destruct op, a; cbn; intros; by simplify_eq. Qed.

Lemma unary_spec op m sem :
  expr_spec m sem ->
  expr_spec (emit_unary op m) (v ← sem; machine (unary_op (match op with UNot => Not | UNeg => Neg end) v 0)).
Proof.
  intros Hm. apply bind_spec; [done|]. intros ty g g' ty' Hg Hk.
  assert (exists o, o = (match op with UNot => Not | UNeg => Neg end) /\ (o = Neg \/ o = Not) /\
    (emit (Simple o 0) ;; mret (match op with UNot => TBool | UNeg => ty end)) g = (g', Ok ty')) as (o & <- & Ho & Hk').
  { destruct op; eexists; (split; [done|]); (split; [|exact Hk]); auto. }
  apply emit_ret in Hk' as [Hty Hsp]; [|done]. eapply spec_mono; [|exact Hsp].
  intros _ (Hf & Hz & Hpc & Hi) temps vs v st s Ht Hat Hv. rewrite isize_cases in Hpc.
  eapply (follows_unary now _ _ _ _ Hnow ended); [done|exact Hat| |done|].
  - apply Hi. by destruct Ho as [->| ->].
  - intros r s1 Hr Hs1. split; [done|]. split; [done|]. subst ty'. apply unary_width in Hr.
    destruct op; [|by intros ?]. intros Hne. rewrite Hr. by apply Hv.
Qed.

Lemma binary_spec op code l r sl sr :
  binary_code op = Some code -> expr_spec l sl -> expr_spec r sr ->
  expr_spec (emit_binary op l r) (a ← sl; b ← sr; src_binop code a b).
Proof.
  intros Hc Hl Hr g g' ty Hg Hm.
  assert (He : emit_binary op l r = (lt ← l; rt ← r;
    if needs_match op && negb (bool_decide (lt = rt)) then m_err Code.EType
    else emit (Simple code 0) ;; mret (if is_comparison op then TBool else lt))).
  { destruct op; try discriminate Hc; by injection Hc as <-. }
  rewrite He in Hm. apply M_bind_Ok in Hm as (lt & g1 & Hlm & Hm). apply M_bind_Ok in Hm as (rt & g2 & Hrm & Hm).
  destruct (needs_match op && negb (bool_decide (lt = rt))) eqn:Hne; [discriminate Hm|].
  pose proof (Hl _ _ _ Hg Hlm) as Ha1. pose proof (Hr _ _ _ (spec_good _ _ _ _ _ Ha1) Hrm) as H2.
  apply emit_ret in Hm as [<- H3]; [|by eapply spec_good].
  pose proof (spec_ids _ _ _ _ _ Ha1) as K1. pose proof (spec_ids _ _ _ _ _ H2) as K2.
  apply (spec_weaken _ _ (cg_label_id g)) in H2, H3; [|lia..].
  eapply spec_mono; [|exact (spec_trans _ _ _ _ _ _ _ Ha1 (spec_trans _ _ _ _ _ _ _ H2 H3))].
  intros _ (S1 & S2 & Hf & Hz & Hpc & Hi) temps vs st s Ht Hat. rewrite isize_cases in Hpc.
  pose proof (live_grows _ _ _ (spec_grows _ _ _ _ _ Ha1) Ht) as Ht1.
  eapply follows_bind; [by apply S1|]. intros a st1 pc1 s1 (-> & Hat1 & Ha).
  eapply follows_bind; [by apply S2|]. intros b st2 pc2 s2 (-> & Hat2 & Hb).
  eapply (follows_binop now _ _ _ _ Hnow ended); [done|exact Hat2| | |].
  - apply Hi. by destruct op; try discriminate Hc; injection Hc as <-.
  - by destruct op; try discriminate Hc; injection Hc as <-.
  - intros v st3 s3 Hv Hs3. split; [done|]. split; [done|].
    unfold src_binop in Hv. destruct (binop code a b 0 (ss_div0 st2)) as [d [v'|?|]] eqn:Eb; try done.
    injection Hv as <- <-. destruct (is_comparison op) eqn:Ec; [by intros ?|]. intros Hlt.
    specialize (Ha Hlt). destruct (decide (code = Xor)) as [->|Hx]; [apply xor_width in Eb; lia|].
    assert (Har : is_arith code = true /\ needs_match op = true).
    { destruct op; try discriminate Hc; injection Hc as <-; done. }
    destruct Har as [Har Hm]. rewrite Hm in Hne. apply negb_false_iff, bool_decide_eq_true in Hne as <-.
    specialize (Hb Hlt). apply binop_width in Eb; [lia|done].
Qed.

(** ** Chains of emissions *)

Lemma add_spec k g g1 g2 (S S2 : Prop) :
  spec T k g g1 S -> (good T g1 -> k <= cg_label_id g1 -> spec T k g1 g2 S2) ->
  spec T k g g2 (S /\ final T g1 /\ grows g g1 /\ 0 <= pc_of g1 /\ S2).
Proof.
  intros Ha1 H2. pose proof (spec_grows _ _ _ _ _ Ha1) as Hg.
  specialize (H2 (spec_good _ _ _ _ _ Ha1) ltac:(pose proof (spec_ids _ _ _ _ _ Ha1); lia)).
  assert (Hf : final T g2 -> final T g1) by (destruct H2 as (d & Hx & _); by eapply final_ext).
  eapply spec_mono; [|exact (spec_trans _ _ _ _ _ _ _ Ha1 H2)].
  intros Hf2 [S1 S2']. split; [done|]. split; [auto|]. split; [done|]. split; [unfold pc_of, len; lia|done].
Qed.

Section Add.
Context (k : Z) (g g1 g2 : Codegen) (S : Prop).
Hypothesis Ha1 : spec T k g g1 S.

Lemma add_emit i u :
  emit i g1 = (g2, Ok u) ->
  spec T k g g2 (S /\ final T g1 /\ grows g g1 /\ 0 <= pc_of g1 /\
    pc_of g2 = pc_of g1 + isize i /\ (instr_ok i -> instr_at (t_code T) (pc_of g1) i)).
Proof. intros Hm. apply add_spec; [done|]. intros. by eapply emit_spec. Qed.

Lemma add_jmp op l u :
  is_jump op -> emit_jmp op l g1 = (g2, Ok u) ->
  spec T k g g2 (S /\ final T g1 /\ grows g g1 /\ 0 <= pc_of g1 /\ pc_of g2 = pc_of g1 + 4 /\
    forall t, t_labels T !! l = Some t -> u_range 24 t -> instr_at (t_code T) (pc_of g1) (Simple op t)).
Proof. intros Hop Hm. apply add_spec; [done|]. intros. by eapply emit_jmp_spec. Qed.

Lemma add_fresh p l :
  fresh_label p g1 = (g2, Ok l) ->
  spec T k g g2 (S /\ final T g1 /\ grows g g1 /\ 0 <= pc_of g1 /\ pc_of g2 = pc_of g1) /\
  unplaced l g2 /\ k <= l.2 /\ l.2 < cg_label_id g2.
Proof.
  intros Hm. pose proof (spec_good _ _ _ _ _ Ha1) as Hg1. pose proof (spec_ids _ _ _ _ _ Ha1).
  destruct (fresh_label_spec T k g1 g2 p l Hg1 ltac:(lia) Hm) as (Hs & Hu & Hl & Hid).
  split; [by apply add_spec|]. split; [done|]. lia.
Qed.

Lemma add_place l u :
  unplaced l g1 -> k <= l.2 -> place_label l g1 = (g2, Ok u) ->
  spec T k g g2 (S /\ final T g1 /\ grows g g1 /\ 0 <= pc_of g1 /\
    pc_of g2 = pc_of g1 /\ t_labels T !! l = Some (pc_of g1) /\ u_range 24 (pc_of g1)).
Proof. intros Hu Hk Hm. apply add_spec; [done|]. intros. by eapply place_label_spec. Qed.

Lemma add_alloc ty off :
  alloc_temp ty g1 = (g2, Ok off) ->
  spec T k g g2 (S /\ final T g1 /\ grows g g1 /\ 0 <= pc_of g1 /\ pc_of g2 = pc_of g1) /\
  good T g1 /\ fresh_at g1 g2 off (elem_size ty).
Proof.
  intros Hm. pose proof (spec_good _ _ _ _ _ Ha1) as Hg1. pose proof (spec_ids _ _ _ _ _ Ha1).
  destruct (alloc_temp_spec T k g1 g2 ty off Hg1 ltac:(lia) Hm) as (Hs & ? & ? & ?).
  split; [by apply add_spec|]. done.
Qed.

Lemma add_chain k' S' :
  k <= k' -> spec T k' g1 g2 S' -> spec T k g g2 (S /\ S').
Proof. intros Hk H2. by eapply spec_trans, spec_weaken. Qed.

Lemma chain_start : spec T (cg_label_id g1) g1 g1 True.
Proof. apply spec_refl; [by eapply spec_good|lia]. Qed.

Lemma add_expr m sem ty :
  expr_spec m sem -> m g1 = (g2, Ok ty) ->
  spec T k g g2 (S /\ final T g1 /\ grows g g1 /\ 0 <= pc_of g1 /\ sem_sim g1 g2 sem ty).
Proof.
  intros Hs Hm. apply add_spec; [done|]. intros Hg Hk. eapply spec_weaken; [exact Hk|]. by apply Hs.
Qed.
End Add.

(** AND and OR. *)
Lemma short_spec prefix (go : bool) l r sl sr :
  expr_spec l sl -> expr_spec r sr ->
  expr_spec (emit_short prefix (if go then JmpIfNot else JmpIf) (if go then 0 else 1) l r) (eval_short go sl sr).
Proof.
  intros Hl Hr g g' ty Hg Hm. unfold emit_short in Hm.
  apply M_bind_Ok in Hm as (end_ & g1 & M1 & Hm). apply M_bind_Ok in Hm as (t & g2 & M2 & Hm).
  case_bool_decide as Et; [discriminate Hm|]. subst t.
  apply M_bind_Ok in Hm as (lab & g3 & M3 & Hm). apply M_bind_Ok in Hm as (tmp & g4 & M4 & Hm).
  apply M_bind_Ok in Hm as ([] & g5 & M5 & Hm). apply M_bind_Ok in Hm as ([] & g6 & M6 & Hm).
  apply M_bind_Ok in Hm as ([] & g7 & M7 & Hm). apply M_bind_Ok in Hm as (t' & g8 & M8 & Hm).
  apply M_bind_Ok in Hm as ([] & g9 & M9 & Hm). apply M_bind_Ok in Hm as ([] & g10 & M10 & Hm).
  apply M_bind_Ok in Hm as ([] & g11 & M11 & Hm). apply M_bind_Ok in Hm as ([] & g12 & M12 & [= <- <-]).
  pose proof (spec_refl T (cg_label_id g) g Hg (Z.le_refl _)) as A.
  apply (add_fresh _ _ _ _ _ A) in M1 as (A1 & U1 & K1 & L1).
  pose proof (chain_start _ _ _ _ A1) as B. apply (add_expr _ _ _ _ _ B _ _ _ Hl) in M2.
  apply (add_fresh _ _ _ _ _ M2) in M3 as (M3 & U3 & K3 & L3).
  pose proof (chain_start _ _ _ _ M3) as C. apply (add_alloc _ _ _ _ _ C) in M4 as (M4 & G3 & F4).
  pose proof (chain_start _ _ _ _ M4) as D. apply (add_emit _ _ _ _ _ D) in M5. apply (add_emit _ _ _ _ _ M5) in M6.
  apply (add_jmp _ _ _ _ _ M6) in M7; [|by destruct go; [right; right|right; left]].
  apply (add_expr _ _ _ _ _ M7 _ _ _ Hr) in M8. apply (add_jmp _ _ _ _ _ M8) in M9; [|by left].
  assert (Kcd : cg_label_id g3 <= cg_label_id g4) by (pose proof (spec_ids _ _ _ _ _ M4); lia).
  apply (add_chain _ _ _ _ _ M4 _ _ Kcd) in M9. pose proof (spec_unplaced _ _ _ _ _ _ M9 L3 U3) as U9.
  assert (Kab : cg_label_id g1 <= cg_label_id g3) by (pose proof (spec_ids _ _ _ _ _ M3); lia).
  apply (add_chain _ _ _ _ _ M3 _ _ Kab) in M9.
  apply (add_place _ _ _ _ _ M9 _ _ U9 K3) in M10. apply (add_emit _ _ _ _ _ M10) in M11.
  pose proof (spec_unplaced _ _ _ _ _ _ M11 L1 U1) as U11.
  assert (Kab' : cg_label_id g <= cg_label_id g1) by (pose proof (spec_ids _ _ _ _ _ A1); lia).
  apply (add_chain _ _ _ _ _ A1 _ _ Kab') in M11.
  apply (add_place _ _ _ _ _ M11 _ _ U11 K1) in M12.
  pose proof (spec_grows _ _ _ _ _ A1) as W1. pose proof (spec_grows _ _ _ _ _ M4) as W4. pose proof (spec_grows _ _ _ _ _ M3) as W3.
  eapply spec_mono; [|exact M12]. clear -Hnow Hds Hrs Hlay G3 F4 W1 W3.
  intros Hf (((_&_&_&_&P1)&(((((_&_&_&_&S2)&_&G2&_&P3)&
    ((_&_&_&_&P4)&(((((_&F4'&_&Z4&P5&I5)&_&_&Z5&P6&I6)&_&_&Z6&P7&I7)&F7&R7&Z7&S8)&F8&_&Z8&P9&I9)))&
    _&_&Z9&P10&T10&R10)&_&_&Z10&P11&I11))&_&_&Z11&P12&T12&R12).
  rewrite isize_cases in P5, P6, P11. intros temps vs st s Ht Hat. unfold eval_short.
  eapply follows_bind; [rewrite <-P1; apply S2; [by eapply live_grows|exact Hat]|].
  intros v st1 pc1 s1 (-> & Hat1 & _). destruct v as [b| | | | |]; try exact I.
  unfold m_lift at 1, mbind at 1, M_bind at 1. cbn [bool_of].
  assert (Ht3 : live g3 temps) by (do 2 (eapply live_grows; [eassumption|]); exact Ht).
  assert (Hfree : temps ⊆ <[CTmp tmp 1 := VBool b]> temps).
  { apply insert_subseteq. eapply (live_fresh_none g3); [apply F4|lia|done]. }
  rewrite <-P3, <-P4.
  eapply (runs_store_fresh g3 g4 tmp 1); try done.
  intros s2 Ht4 Hat2. rewrite <-P5.
  eapply (runs_load_temp g4 tmp 1 (VBool b)); try done; [by rewrite lookup_insert_eq|].
  intros s3 Hat3. rewrite <-P6.
  eapply (follows_branch now _ _ _ _ Hnow ended _ _ _ _ _ _ _ (negb go) (pc_of g9)); [done|exact Hat3| |].
  { assert (Hj : (if negb go then JmpIf else JmpIfNot) = (if go then JmpIfNot else JmpIf)) by by destruct go.
    rewrite Hj. by apply I7. }
  intros s4 Hat4. cbn [Val.as_bool].
  destruct (Bool.eqb b go) eqn:Eb.
  - apply eqb_prop in Eb as ->. assert (Hn : Bool.eqb go (negb go) = false) by by destruct go. rewrite Hn, <-P7.
    eapply runs_then; [apply S8; [|exact Hat4]|].
    { eapply (live_grows g4); [|exact Ht4]. done. }
    intros v st' pc' s' (-> & Hat5 & _).
    eapply (follows_jmp now _ _ _ _ ended); [exact Hat5|by apply I9|].
    rewrite <-P12. apply follows_ret. split; [done|]. split; [by eapply at_sub|by intros ?].
  - assert (Hn : Bool.eqb b (negb go) = true) by (by destruct b, go). rewrite Hn, <-P10.
    eapply (follows_push now _ _ _ _ Hnow ended) with (v := VBool b);
      [done|exact Hat4|apply I11; by destruct go|by destruct b, go|].
    intros s5 Hs5. rewrite isize_cases, <-P11, <-P12. apply follows_ret. split; [done|].
    split; [by eapply at_sub|by intros ?].
Qed.

(** ** All expressions *)

Lemma call_fails (m : Gen unit) sem : expr_spec (m ;; m_err Code.EType) sem.
Proof. intros g g' ty _ Hm. by apply M_bind_Ok in Hm as ([] & g1 & _ & Hm). Qed.

Lemma expr_specs : forall e, expr_spec (emit_expr e) (eval e).
Proof.
  fix IH 1. intros [l|path|op e|op e1 e2|e|call]; cbn [emit_expr CompSem.eval].
  - apply literal_spec.
  - apply load_path_spec.
  - apply unary_spec, IH.
  - pose proof (IH e1) as Ha1. pose proof (IH e2) as H2. clear IH.
    destruct op; try (eapply binary_spec; done); cbn [emit_binary].
    + intros g g' ty _ Hm. apply M_bind_Ok in Hm as (? & ? & _ & Hm). by apply M_bind_Ok in Hm as (? & ? & _ & Hm).
    + by apply (short_spec "and_f" true).
    + by apply (short_spec "or_t" false).
  - apply q_good_spec.
  - apply call_fails.
Qed.
End Expr.
