(* ===== verification/CompStore.v ===== *)
(** * The compiler: assignments and calls of primitives

    The code of an assignment stores the value on top of the stack where the reference
    semantics says; the code of a call passes the arguments, stores the outputs and
    delivers them. *)
From S2P Require Import Prelude Float32 Text IrTypes IrEncode FbDispatch VmValue VmMemory VmExec VmInv.
From S2P Require Import CompAst CompLayout CompBind CompGen CompSem CompAsm CompRun CompPrim CompSpec CompExpr.

Section Store.
Context `{NanRule, HashOrder} (T : Target) (now : Z) (inputs : SlotImage).
Hypothesis Hnow : u_range 64 now.
Hypothesis (Hds : t_data_size T <= 2 ^ 24) (Hrs : t_retain_size T <= 2 ^ 24).
Hypothesis Hlay : layout_ok (t_place T) (t_data_size T) (t_retain_size T).

Abbreviation at_t := (at_t T inputs).
Abbreviation live := (live T).
Abbreviation runs := (runs T now inputs).
Abbreviation eval := (eval inputs (t_vars T)).
Abbreviation assign := (assign (t_vars T)).

(** ** Statements *)

Definition stmt_post (g' : Codegen) (temps : gmap Cell VmValue) (vs : list VmValue)
    (_ : unit) (st : SrcState) (pc : Z) (s : Vm) : Prop :=
  pc = pc_of g' /\ at_t temps st vs s.

(** The code from [g] to [g'] does what [sem] does. *)
Definition stmt_sim (g g' : Codegen) (sem : Sem unit) : Prop :=
  forall temps vs st s, live g temps -> at_t temps st vs s -> runs (sem st) (pc_of g) s (stmt_post g' temps vs).

Definition stmt_spec (m : Gen unit) (sem : Sem unit) : Prop :=
  forall g g', good T g -> m g = (g', Ok tt) -> spec T (cg_label_id g) g g' (stmt_sim g g' sem).

(** The same with [v] on top of the stack. *)
Definition take_spec (m : Gen unit) (sem : VmValue -> Sem unit) : Prop :=
  forall g g', good T g -> m g = (g', Ok tt) -> spec T (cg_label_id g) g g'
    (forall temps vs v st s, live g temps -> at_t temps st (vs ++ [v]) s ->
     runs (sem v st) (pc_of g) s (stmt_post g' temps vs)).

Lemma skip_spec : stmt_spec (mret tt) (mret tt).
Proof.
  intros g g' Hg [= <-]. eapply spec_mono; [|by apply spec_refl]. intros _ _ temps vs st s _ Hat.
  by apply follows_ret.
Qed.

Lemma seq_spec m1 m2 s1 s2 : stmt_spec m1 s1 -> stmt_spec m2 s2 -> stmt_spec (m1 ;; m2) (s1 ;; s2).
Proof.
  intros H1 H2 g g' Hg Hm. apply M_bind_Ok in Hm as ([] & g1 & M1 & M2).
  pose proof (H1 _ _ Hg M1) as A. pose proof (H2 _ _ (spec_good _ _ _ _ _ A) M2) as B.
  pose proof (spec_ids _ _ _ _ _ A) as K.
  apply (spec_weaken _ _ (cg_label_id g)) in B; [|lia].
  eapply spec_mono; [|exact (spec_trans _ _ _ _ _ _ _ A B)]. intros _ [S1 S2] temps vs st s Ht Hat.
  eapply follows_bind; [by apply S1|]. intros [] st1 pc1 s1' [-> Hat1]. apply S2; [|done].
  eapply live_grows; [|done]. by eapply spec_grows.
Qed.

Lemma take_expr m sem k sem' :
  expr_spec T now inputs m sem -> take_spec k sem' -> stmt_spec (m ;; k) (v ← sem; sem' v).
Proof.
  intros H1 H2 g g' Hg Hm. apply M_bind_Ok in Hm as (ty & g1 & M1 & M2).
  pose proof (H1 _ _ _ Hg M1) as A. pose proof (H2 _ _ (spec_good _ _ _ _ _ A) M2) as B.
  pose proof (spec_ids _ _ _ _ _ A) as K. apply (spec_weaken _ _ (cg_label_id g)) in B; [|lia].
  eapply spec_mono; [|exact (spec_trans _ _ _ _ _ _ _ A B)]. intros _ [S1 S2] temps vs st s Ht Hat.
  eapply follows_bind; [by apply S1|]. intros v st1 pc1 s1' (-> & Hat1 & _). apply S2; [|done].
  eapply live_grows; [|done]. by eapply spec_grows.
Qed.

(** ** Assignments *)

(** An instruction that stores where the semantics stores. *)
Lemma emit_take i sem g g' :
  good T g -> emit i g = (g', Ok tt) ->
  (final T g -> forall temps vs v st s pc, live g temps -> at_t temps st (vs ++ [v]) s -> 0 <= pc ->
    (instr_ok i -> instr_at (t_code T) pc i) ->
    runs (sem v st) pc s (fun _ st' pc' s' => pc' = pc + isize i /\ at_t temps st' vs s')) ->
  spec T (cg_label_id g) g g' (forall temps vs v st s, live g temps -> at_t temps st (vs ++ [v]) s ->
     runs (sem v st) (pc_of g) s (stmt_post g' temps vs)).
Proof.
  intros Hg Hm Hsem. pose proof (emit_one T i g g' tt Hg Hm) as Hsp.
  eapply spec_mono; [|exact Hsp]. intros _ (Hf & Hz & Hpc & Hi) temps vs v st s Ht Hat.
  eapply follows_weaken; [by apply (Hsem Hf temps vs v st s (pc_of g) Ht Hat)|].
  intros [] st' pc' s' [-> Hat']. by rewrite <-Hpc.
Qed.

Lemma runs_store_cell g temps st vs v s pc sg off ty c :
  good T g -> final T g -> live g temps -> at_t temps st (vs ++ [v]) s -> 0 <= pc ->
  named c -> place g c = Some (sg, off, elem_size ty) ->
  (instr_ok (Simple (store_op sg) off) -> instr_at (t_code T) pc (Simple (store_op sg) off)) ->
  runs ((write_cell c ty v ;; match sg with SgData => mret tt | SgRetain => m_modify (set_dirty true) end) st) pc s
    (fun _ st' pc' s' => pc' = pc + 4 /\ at_t temps st' vs s').
Proof.
  intros Hg Hf Ht Hat Hpc Hc Hp Hi. pose proof (elem_size_pos ty).
  pose proof (place_range T Hds Hrs g c sg off _ Hg Hf Hc Hp ltac:(lia)) as Hr.
  assert (Ht' : temps_ok (t_place T) (t_data_size T) temps).
  { intros c' u Hu. destruct (Ht c' u Hu) as (o & w & -> & Ho & Hw & Hrest). pose proof (f_wm _ _ Hf).
    exists o, w. repeat split; try done; [lia|apply Hrest..]. }
  eapply (follows_store now _ _ _ _ Hnow (ended T inputs) _ _ _ _ _ _ Hpc _ Hlay Ht' sg off v c ty);
    [exact Hat| |done|by eapply f_place|lia|unfold u_range in Hr; lia|done].
  apply Hi. by destruct sg.
Qed.

Lemma runs_store_data g temps st vs v s pc off ty c :
  good T g -> final T g -> live g temps -> at_t temps st (vs ++ [v]) s -> 0 <= pc ->
  named c -> place g c = Some (SgData, off, elem_size ty) ->
  (instr_ok (Simple StData off) -> instr_at (t_code T) pc (Simple StData off)) ->
  runs (write_cell c ty v st) pc s (fun _ st' pc' s' => pc' = pc + 4 /\ at_t temps st' vs s').
Proof.
  intros Hg Hf Ht Hat Hpc Hc Hp Hi.
  pose proof (runs_store_cell g temps st vs v s pc SgData off ty c Hg Hf Ht Hat Hpc Hc Hp Hi) as Hr.
  assert (He : (write_cell c ty v ;; mret tt) st = write_cell c ty v st).
  { unfold mbind, M_bind. by destruct (write_cell c ty v st) as [? [[]|?|]]. }
  cbv beta iota in Hr. by rewrite He in Hr.
Qed.

Lemma undefined_take i sem g g' :
  good T g -> emit i g = (g', Ok tt) ->
  (forall v st, exists st', sem v st = (st', Err XUndefined)) ->
  spec T (cg_label_id g) g g' (forall temps vs v st s, live g temps -> at_t temps st (vs ++ [v]) s ->
     runs (sem v st) (pc_of g) s (stmt_post g' temps vs)).
Proof.
  intros Hg Hm Hsem. eapply emit_take; [done|exact Hm|]. intros _ temps vs v st s pc _ _ _ _.
  by destruct (Hsem v st) as [st' ->].
Qed.

(** The output a field names, with its type. *)
Lemma out_type_find g key id inst outs field off ty :
  good T g -> sym g key = Some (StPrim id inst outs) -> find_out outs field = Ok (off, ty) ->
  out_type id field = Some ty.
Proof.
  intros Hg Hs Ho. destruct (g_prims _ _ Hg _ _ _ _ Hs) as [_ Hout]. unfold out_type, find_out in *.
  rewrite <-Hout. clear Hout Hs. induction outs as [|[[n o] t] outs IH]; [done|]. cbn [map List.find fst snd] in *.
  destruct (eq_ignore_ascii_case n field); [by injection Ho as -> ->|by apply IH].
Qed.

Lemma store_spec lhs : take_spec (emit_store lhs) (assign lhs).
Proof.
  intros g g' Hg Hm. destruct lhs as [|path| | | |]; try discriminate Hm. unfold emit_store in Hm.
  apply M_bind_Ok in Hm as ([root rest] & g1 & [-> Hr]%lift_Ok & Hm).
  apply M_bind_Ok in Hm as (sy & g1 & [-> Hsy]%lookup_Ok & Hm).
  destruct path as [|[n|?] path]; try discriminate Hr. injection Hr as -> ->. unfold CompSem.assign.
  rewrite (var_of_sym T g root sy Hg Hsy). destruct rest as [|[field|?] rest]; try discriminate Hm.
  - destruct sy as [slot t|slot t|off td|off t|? ? ?|? ?|? value]; try discriminate Hm; cbn [erase].
    + eapply emit_take; [done|exact Hm|]. intros Hf temps vs v st s pc Ht Hat Hpc Hi.
      pose proof (g_outputs _ _ Hg _ _ _ Hsy) as Hr.
      eapply (follows_output now _ _ _ _ Hnow (ended T inputs)); [done|exact Hat|by apply Hi|done].
    + destruct td as [t|? ?|?|?]; try (eapply undefined_take; [done|exact Hm|by eexists]).
      eapply emit_take; [done|exact Hm|]. intros Hf temps vs v st s pc Ht Hat Hpc Hi.
      eapply runs_store_data; [..|exact Hi]; try done. cbn. by rewrite Hsy.
    + eapply emit_take; [done|exact Hm|]. intros Hf temps vs v st s pc Ht Hat Hpc Hi.
      eapply (runs_store_cell _ _ _ _ _ _ _ SgRetain); [..|exact Hi]; try done. cbn. by rewrite Hsy.
  - destruct sy as [? ?|? ?|off [?|? ?|?|?]|? ?|id inst outs|fb base|? ?]; try discriminate Hm; cbn [erase].
    + injection Hm as <-. eapply spec_mono; [|by apply spec_refl]. done.
    + apply M_bind_Ok in Hm as ([off t] & g1 & [-> Ho]%lift_Ok & Hm).
      eapply emit_take; [done|exact Hm|]. intros Hf temps vs v st s pc Ht Hat Hpc Hi.
      rewrite (out_type_find _ _ _ _ _ _ _ _ Hg Hsy Ho). unfold m_lift at 1, mbind at 1, M_bind at 1. cbn [ok_or].
      eapply runs_store_data; [..|exact Hi]; try done. cbn. rewrite Hsy. by apply find_out_place.
    + apply M_bind_Ok in Hm as (l & g1 & Hl & Hm). unfold layout_of in Hl. injection Hl as <- _.
      apply M_bind_Ok in Hm as (f & g1 & [-> _]%lift_Ok & Hm). unfold emit_field, emit_data in Hm.
      case_match; apply M_bind_Ok in Hm as (o & g1 & [-> _]%lift_Ok & Hm);
        (eapply undefined_take; [done|exact Hm|by eexists]).
Qed.

Lemma assign_spec lhs rhs :
  stmt_spec (emit_expr rhs ;; emit_store lhs) (v ← eval rhs; assign lhs v).
Proof. apply take_expr; [by apply expr_specs|apply store_spec]. Qed.
End Store.
