(* ===== verification/CompCall.v ===== *)
(** * The compiler: calls of primitives

    The code of a call evaluates the arguments, calls the primitive, stores its outputs
    in the data of the instance and delivers those the call names. *)
From S2P Require Import Prelude Float32 Text IrTypes IrEncode FbDispatch VmValue VmMemory VmExec VmInv.
From S2P Require Import CompAst CompLayout CompBind CompGen CompSem CompAsm CompRun CompPrim CompSpec CompExpr CompStore.

(** ** Arguments *)

Definition amap {A B} (h : A -> B) (a : CallArg A) : CallArg B :=
  match a with Positional e => Positional (h e) | Named n e => Named n (h e) end.

Definition res_map {E A B} (h : A -> B) (r : res E A) : res E B :=
  match r with Ok a => Ok (h a) | Err e => Err e | Panic => Panic end.

Lemma resolve_map {B C} (h : Expr * B -> Expr * C) names inputs args pos :
  (forall x, (h x).1 = x.1) ->
  resolve_args names (map (amap h) inputs) (map (option_map h) args) pos =
  res_map (map (option_map h)) (resolve_args names inputs args pos).
Proof.
  intros Hh. revert args pos. induction inputs as [|[e|n v] inputs IH]; intros args pos; cbn [map amap resolve_args].
  - done.
  - rewrite length_map. case_match; [done|]. change (Some (h e)) with (option_map h (Some e)).
    by rewrite <-list_fmap_insert, IH.
  - case_match.
    + rewrite Hh. destruct v.1 as [[[]| | |]| | | | |]; first [done|apply IH].
    + case_match; [|done]. change (Some (h v)) with (option_map h (Some v)). by rewrite <-list_fmap_insert, IH.
Qed.

Lemma map_none {A B} (h : A -> B) n : map (option_map h) (replicate n None) = replicate n None.
Proof. induction n as [|n IH]; [done|]. cbn. by rewrite IH. Qed.

Lemma resolve_length {B} names inputs (args : list (option (Expr * B))) pos r :
  resolve_args names inputs args pos = Ok r -> length r = length args.
Proof.
  revert args pos. induction inputs as [|[e|n v] inputs IH]; intros args pos; cbn [resolve_args].
  - by intros [= ->].
  - case_match; [done|]. intros Hr%IH. by rewrite length_insert in Hr.
  - case_match.
    + destruct v.1 as [[[]| | |]| | | | |]; first [done|apply IH].
    + case_match; [|done]. intros Hr%IH. by rewrite length_insert in Hr.
Qed.

(** The arguments before anything is done with them. *)
Definition tagged (l : list (CallArg Expr)) : list (CallArg (Expr * unit)) := map (amap (fun e => (e, tt))) l.

Lemma input_names id : length (prim_in_names id) = Prim.input_count id.
Proof. by destruct id. Qed.

Lemma output_types id : length (prim_out_types id) = Prim.output_count id.
Proof. by destruct id. Qed.

(** The outputs of a primitive have names of their own. *)
Lemma out_names_unique id : NoDup (map (fun o => to_ascii_lowercase o.1) (prim_out_types id)).
Proof. apply (bool_decide_eq_true_1 _). by destruct id. Qed.

Section Call.
Context `{NanRule, !HashOrder, !HashOrderLaws} (T : Target) (now : Z) (inputs : SlotImage).
Hypothesis Hnow : u_range 64 now.
Hypothesis (Hds : t_data_size T <= 2 ^ 24) (Hrs : t_retain_size T <= 2 ^ 24).
Hypothesis Hlay : layout_ok (t_place T) (t_data_size T) (t_retain_size T).

Abbreviation at_t := (at_t T inputs).
Abbreviation live := (live T).
Abbreviation runs := (runs T now inputs).
Abbreviation eval := (eval inputs (t_vars T)).
Abbreviation assign := (assign (t_vars T)).
Abbreviation stmt_spec := (stmt_spec T now inputs).

Definition emitted (x : Expr * unit) : Arg := (x.1, emit_expr x.1).
Definition evaluated (x : Expr * unit) : Expr * Sem VmValue := (x.1, eval x.1).

Lemma emitted_args l : map arg_of l = map (amap emitted) (tagged l).
Proof. unfold tagged. rewrite map_map. apply map_ext. by intros []. Qed.

Lemma evaluated_args l : map (eval_arg inputs (t_vars T)) l = map (amap evaluated) (tagged l).
Proof. unfold tagged. rewrite map_map. apply map_ext. by intros []. Qed.

Lemma args_spec l : forall g g', good T g -> m_each (map (option_map emitted) l) emit_arg g = (g', Ok tt) ->
  spec T (cg_label_id g) g g' (forall temps vs st s, live g temps -> at_t temps st vs s ->
    runs (eval_all (map (option_map evaluated) l) st) (pc_of g) s
      (fun ws st' pc s' => pc = pc_of g' /\ at_t temps st' (vs ++ ws) s' /\ length ws = length l)).
Proof.
  induction l as [|[a|] l IH]; intros g g' Hg Hm; cbn [map option_map m_each eval_all] in *.
  - injection Hm as <-. eapply spec_mono; [|by apply spec_refl]. intros _ _ temps vs st s _ Hat.
    apply follows_ret. by rewrite app_nil_r.
  - apply M_bind_Ok in Hm as ([] & g1 & M1 & M2). apply M_bind_Ok in M1 as (ty & g0 & M1 & [= ->]).
    pose proof (expr_specs T now inputs Hnow Hds Hrs Hlay a.1 _ _ _ Hg M1) as A.
    pose proof (IH _ _ (spec_good _ _ _ _ _ A) M2) as B. pose proof (spec_ids _ _ _ _ _ A) as K.
    apply (spec_weaken _ _ (cg_label_id g)) in B; [|lia].
    eapply spec_mono; [|exact (spec_trans _ _ _ _ _ _ _ A B)]. intros _ [S1 S2] temps vs st s Ht Hat.
    eapply follows_bind; [by apply S1|]. intros v st1 pc1 s1 (-> & Hat1 & _).
    eapply follows_bind; [apply S2; [|exact Hat1]|].
    { eapply live_grows; [|done]. by eapply spec_grows. }
    intros ws st2 pc2 s2 (-> & Hat2 & Hlen). apply follows_ret. split; [done|].
    rewrite <-app_assoc in Hat2. split; [done|]. cbn. by rewrite Hlen.
  - by apply M_bind_Ok in Hm as ([] & g1 & M1 & M2).
Qed.

(** ** Outputs *)

(** The outputs of the instance [name] are where [outs] says. *)
Definition outs_placed (name : bytes) (outs : list (bytes * Z * IrType)) (g : Codegen) : Prop :=
  forall f off ty, find_out outs f = Ok (off, ty) ->
  place g (COut name (to_ascii_lowercase f)) = Some (SgData, off, elem_size ty).

Lemma outs_placed_grows name outs g g' : grows g g' -> outs_placed name outs g -> outs_placed name outs g'.
Proof. intros [Hp _ _] Ho f off ty Hf. by apply Hp, Ho. Qed.

Lemma outs_placed_sym g key id inst outs :
  good T g -> sym g key = Some (StPrim id inst outs) -> outs_placed key outs g.
Proof. intros Hg Hs f off ty Hf. cbn. rewrite Hs. cbn. by apply find_out_place. Qed.

Lemma find_out_in outs o :
  NoDup (map (fun o : bytes * Z * IrType => to_ascii_lowercase o.1.1) outs) -> o ∈ outs ->
  find_out outs o.1.1 = Ok (o.1.2, o.2).
Proof.
  intros Hnd Hin. unfold find_out, eq_ignore_ascii_case. induction outs as [|o' outs IH]; [by inversion Hin|].
  cbn [map] in Hnd. inversion Hnd as [|? ? Hni Hnd']; subst. cbn [List.find].
  apply elem_of_cons in Hin as [->|Hin].
  - rewrite bool_decide_eq_true_2 by done. by destruct o' as [[? ?] ?].
  - rewrite bool_decide_eq_false_2; [by apply IH|]. intros He. apply Hni. rewrite He.
    apply list_elem_of_In, (in_map (fun o => to_ascii_lowercase o.1.1)). by apply list_elem_of_In.
Qed.

Lemma store_outs_spec id name all outs tys i : forall g g',
  good T g -> outs_placed name all g -> (forall o, o ∈ outs -> find_out all o.1.1 = Ok (o.1.2, o.2)) ->
  map (fun o => (o.1.1, o.2)) outs = tys -> (i + length tys <= 4)%nat ->
  m_each outs (fun o => emit_simple StData o.1.2) g = (g', Ok tt) ->
  spec T (cg_label_id g) g g' (forall temps vs st s o, live g temps -> length (values o) = 4%nat ->
    at_t temps st (vs ++ rev (map (out_value id o) (seq i (length tys)))) s ->
    runs (store_outs id name tys i o st) (pc_of g) s (stmt_post T inputs g' temps vs)).
Proof.
  revert tys i. induction outs as [|o outs IH]; intros tys i g g' Hg Hpl Hin <- Hi Hm; cbn [map m_each] in *.
  - injection Hm as <-. eapply spec_mono; [|by apply spec_refl]. intros _ _ temps vs st s o _ _ Hat.
    apply follows_ret. split; [done|]. by rewrite app_nil_r in Hat.
  - apply M_bind_Ok in Hm as ([] & g1 & M1 & M2).
    pose proof (emit_one T _ g g1 tt Hg M1) as A. pose proof (spec_grows _ _ _ _ _ A) as W.
    pose proof (IH _ (S i) _ _ (spec_good _ _ _ _ _ A) (outs_placed_grows _ _ _ _ W Hpl)
      (fun o' Ho' => Hin o' (list_elem_of_further _ _ _ Ho')) eq_refl ltac:(cbn in Hi; lia) M2) as B.
    pose proof (spec_ids _ _ _ _ _ A) as K. apply (spec_weaken _ _ (cg_label_id g)) in B; [|lia].
    eapply spec_mono; [|exact (spec_trans _ _ _ _ _ _ _ A B)].
    intros _ [(Hf & Hz & Hpc & Hat1) S2] temps vs st s x Ht Hlen Hat. cbn [length seq map rev] in Hat.
    rewrite isize_cases in Hpc. rewrite app_assoc in Hat. cbn [store_outs].
    destruct (lookup_lt_is_Some_2 (values x) i ltac:(cbn in Hi; lia)) as [y Hy].
    unfold mbind at 1, M_bind at 1, m_lift, index. rewrite Hy.
    assert (Hov : out_value id x i = Val.from_stack_value y (is_timer id && (i =? 1)%nat)) by (unfold out_value; by rewrite Hy).
    rewrite <-Hov. eapply follows_bind.
    + eapply runs_store_data; [..|exact Hat1]; try done. apply Hpl, Hin. by left.
    + intros [] st1 pc1 s1 [-> Hat2]. rewrite <-Hpc. apply S2; [by eapply live_grows|done|exact Hat2].
Qed.

(** Delivering an output. *)
Lemma deliver_spec name outs g g' o :
  good T g -> outs_placed name outs g -> emit_prim_out outs o g = (g', Ok tt) ->
  spec T (cg_label_id g) g g' (stmt_sim T now inputs g g' (deliver_out (t_vars T) name o)).
Proof.
  intros Hg Hpl Hm. unfold emit_prim_out, deliver_out in *. case_match.
  { by eapply skip_spec. }
  apply M_bind_Ok in Hm as ([off ty] & g1 & [-> Ho]%lift_Ok & Hm). apply M_bind_Ok in Hm as ([] & g1 & M1 & M2).
  pose proof (emit_one T _ g g1 tt Hg M1) as A.
  pose proof (store_spec T now inputs Hnow Hds Hrs Hlay (co_dest o) _ _ (spec_good _ _ _ _ _ A) M2) as B.
  pose proof (spec_ids _ _ _ _ _ A) as K. apply (spec_weaken _ _ (cg_label_id g)) in B; [|lia].
  eapply spec_mono; [|exact (spec_trans _ _ _ _ _ _ _ A B)].
  intros _ [(Hf & Hz & Hpc & Hi) S2] temps vs st s Ht Hat. rewrite isize_cases in Hpc.
  eapply follows_bind.
  - eapply (runs_cell T now inputs Hnow Hds Hrs g _ _ _ _ _ SgData); [..|exact Hi]; try done. by apply Hpl.
  - intros v st1 pc1 s1 (-> & Hat1 & _). rewrite <-Hpc. apply S2; [|exact Hat1].
    eapply live_grows; [|done]. by eapply spec_grows.
Qed.

Lemma deliver_all_spec name outs l : forall g g',
  good T g -> outs_placed name outs g -> m_each l (emit_prim_out outs) g = (g', Ok tt) ->
  spec T (cg_label_id g) g g' (stmt_sim T now inputs g g' (m_each l (deliver_out (t_vars T) name))).
Proof.
  induction l as [|o l IH]; intros g g' Hg Hpl Hm; cbn [m_each] in *; [by eapply skip_spec|].
  apply M_bind_Ok in Hm as ([] & g1 & M1 & M2).
  pose proof (deliver_spec name outs g g1 o Hg Hpl M1) as A. pose proof (spec_grows _ _ _ _ _ A) as W.
  pose proof (IH _ _ (spec_good _ _ _ _ _ A) (outs_placed_grows _ _ _ _ W Hpl) M2) as B.
  pose proof (spec_ids _ _ _ _ _ A) as K. apply (spec_weaken _ _ (cg_label_id g)) in B; [|lia].
  eapply spec_mono; [|exact (spec_trans _ _ _ _ _ _ _ A B)]. intros _ [S1 S2] temps vs st s Ht Hat.
  eapply follows_bind; [by apply S1|]. intros [] st1 pc1 s1 [-> Hat1]. apply S2; [by eapply live_grows|done].
Qed.

(** ** Calls the semantics leaves open *)

Definition silent {A} (m : Gen A) : Prop :=
  forall g g' a, good T g -> m g = (g', Ok a) -> spec T (cg_label_id g) g g' True.

Lemma silent_bind {A B} (m : Gen A) (k : A -> Gen B) : silent m -> (forall a, silent (k a)) -> silent (m ≫= k).
Proof.
  intros Hm1 Hk g g' b Hg Hm. apply M_bind_Ok in Hm as (a & g1 & M1 & M2).
  pose proof (Hm1 _ _ _ Hg M1) as A1. pose proof (Hk a _ _ _ (spec_good _ _ _ _ _ A1) M2) as B1.
  pose proof (spec_ids _ _ _ _ _ A1) as K. apply (spec_weaken _ _ (cg_label_id g)) in B1; [|lia].
  eapply spec_mono; [|exact (spec_trans _ _ _ _ _ _ _ A1 B1)]. done.
Qed.

Lemma silent_lift {A} (r : res ErrorCode A) : silent (m_lift r).
Proof. intros g g' a Hg [-> _]%lift_Ok. by apply spec_refl. Qed.

Lemma silent_ret {A} (a : A) : silent (mret a).
Proof. intros g g' a' Hg [= <- _]. by apply spec_refl. Qed.

Lemma silent_gets {A} (f : Codegen -> A) : silent (m_gets f).
Proof. intros g g' a' Hg [= <- _]. by apply spec_refl. Qed.

Lemma silent_emit i : silent (emit i).
Proof. intros g g' [] Hg Hm. eapply spec_mono; [|by eapply emit_one]. done. Qed.

Lemma silent_expr e : silent (emit_expr e).
Proof. intros g g' ty Hg Hm. eapply spec_mono; [|by eapply (expr_specs T now inputs Hnow Hds Hrs Hlay)]. done. Qed.

Lemma silent_store e : silent (emit_store e).
Proof. intros g g' [] Hg Hm. eapply spec_mono; [|by eapply (store_spec T now inputs Hnow Hds Hrs Hlay)]. done. Qed.

Lemma silent_each {A} (l : list A) f : (forall a, a ∈ l -> silent (f a)) -> silent (m_each l f).
Proof.
  induction l as [|a l IH]; intros Hl; [apply silent_ret|]. apply silent_bind; [apply Hl; by left|].
  intros _. apply IH. intros b Hb. apply Hl. by right.
Qed.

Create HintDb silent.
Hint Resolve silent_bind silent_lift silent_ret silent_gets silent_emit silent_expr silent_store : silent.

Lemma silent_field rop dop base f : silent (emit_field rop dop base f).
Proof. unfold emit_field, emit_data, emit_simple. case_match; auto with silent. Qed.
Hint Resolve silent_field : silent.

Definition silent_args (named : gmap bytes Arg) : Prop := forall k a, named !! k = Some a -> silent a.2.

Lemma silent_positional l base ins : forall pos named g g' named',
  good T g -> silent_args named -> emit_positional l base (map arg_of ins) pos named g = (g', Ok named') ->
  spec T (cg_label_id g) g g' True /\ silent_args named'.
Proof.
  induction ins as [|[e|n v] ins IH]; intros pos named g g' named' Hg Hn Hm; cbn [map arg_of emit_positional] in Hm.
  - injection Hm as <- <-. split; [by apply spec_refl|done].
  - case_match; [|discriminate Hm]. apply M_bind_Ok in Hm as (f & g1 & [-> _]%lift_Ok & Hm). cbn [snd] in Hm.
    apply M_bind_Ok in Hm as (ty & g1 & M1 & Hm). apply M_bind_Ok in Hm as ([] & g2 & M2 & Hm).
    pose proof (silent_expr _ _ _ _ Hg M1) as A.
    assert (Hd : silent (emit_data StData base (fl_offset f))) by (unfold emit_data, emit_simple; auto with silent).
    pose proof (Hd _ _ _ (spec_good _ _ _ _ _ A) M2) as B.
    destruct (IH _ _ _ _ _ (spec_good _ _ _ _ _ B) Hn Hm) as [C Hn']. split; [|done].
    pose proof (spec_ids _ _ _ _ _ A). pose proof (spec_ids _ _ _ _ _ B).
    apply (spec_weaken _ _ (cg_label_id g)) in B, C; [|lia..].
    eapply spec_mono; [|exact (spec_trans _ _ _ _ _ _ _ A (spec_trans _ _ _ _ _ _ _ B C))]. done.
  - case_match; [by eapply IH|]. eapply IH; [done| |exact Hm]. intros k a Ha.
    destruct (decide (to_ascii_lowercase n = k)) as [<-|Hne].
    + rewrite lookup_insert_eq in Ha. injection Ha as <-. apply silent_expr.
    + rewrite lookup_insert_ne in Ha by done. by eapply Hn.
Qed.

Lemma silent_user fb base ins outs : silent (emit_user_call fb base (map arg_of ins) outs).
Proof.
  unfold emit_user_call. apply silent_bind; [auto with silent|intros layouts].
  apply silent_bind; [auto with silent|intros l]. intros g g' [] Hg Hm.
  apply M_bind_Ok in Hm as (named & g1 & M1 & Hm).
  destruct (silent_positional l base ins 0 ∅ g g1 named Hg) as [A Hn]; [|exact M1|].
  { intros k a Ha. by rewrite lookup_empty in Ha. }
  assert (Hrest : silent (m_each (hash_order (map_to_list named)) (emit_named l base) ;;
    entries ← m_gets cg_entries; emit (ICallFb 1 (call_id entries l) base) ;; m_each outs (emit_user_out l base))).
  { apply silent_bind; [|intros _; apply silent_bind; [auto with silent|intros es; apply silent_bind; [auto with silent|intros _]]].
    - apply silent_each. intros [k a] Hin. rewrite hash_order_perm in Hin. apply elem_of_map_to_list in Hin.
      unfold emit_named. apply silent_bind; [auto with silent|intros f]. apply silent_bind; [by eapply Hn|auto with silent].
    - apply silent_each. intros o _. unfold emit_user_out. auto 6 with silent. }
  pose proof (Hrest _ _ _ (spec_good _ _ _ _ _ A) Hm) as B. pose proof (spec_ids _ _ _ _ _ A).
  apply (spec_weaken _ _ (cg_label_id g)) in B; [|lia].
  eapply spec_mono; [|exact (spec_trans _ _ _ _ _ _ _ A B)]. done.
Qed.

(** ** The call *)

Lemma call_spec call :
  stmt_spec (emit_fb_call (fc_callee call) (map arg_of (fc_inputs call)) (fc_outputs call))
    (exec_fb_call now inputs (t_vars T) call).
Proof.
  intros g g' Hg Hm. unfold emit_fb_call, exec_fb_call in *.
  destruct (fc_callee call) as [|[n|?] [|? ?]]; try discriminate Hm.
  apply M_bind_Ok in Hm as (sy & g1 & [-> Hsy]%lookup_Ok & Hm). rewrite (var_of_sym T g n sy Hg Hsy).
  destruct sy as [? ?|? ?|? ?|? ?|id inst outs|fb base|? ?]; try discriminate Hm; cbn [erase].
  2: { eapply spec_mono; [|by eapply silent_user]. done. }
  unfold emit_prim_call in Hm. apply M_bind_Ok in Hm as (args & g1 & [-> Hargs]%lift_Ok & Hm).
  apply M_bind_Ok in Hm as ([] & g1 & M1 & Hm). apply M_bind_Ok in Hm as ([] & g2 & M2 & Hm).
  apply M_bind_Ok in Hm as ([] & g3 & M3 & M4).
  set (none := replicate (length (prim_in_names id)) None : list (option (Expr * unit))).
  pose proof (resolve_map emitted (prim_in_names id) (tagged (fc_inputs call)) none 0 ltac:(done)) as He.
  pose proof (resolve_map evaluated (prim_in_names id) (tagged (fc_inputs call)) none 0 ltac:(done)) as Hv.
  unfold none in He, Hv. rewrite map_none in He. rewrite map_none in Hv.
  rewrite emitted_args, He in Hargs. rewrite evaluated_args, Hv. fold none in Hargs |- *.
  destruct (resolve_args _ (tagged _) none 0) as [l|?|] eqn:El; try discriminate Hargs. injection Hargs as <-.
  apply resolve_length in El. unfold none in El. rewrite length_replicate, input_names in El.
  destruct (g_prims _ _ Hg _ _ _ _ Hsy) as [Hinst Houts].
  pose proof (outs_placed_sym _ _ _ _ _ Hg Hsy) as Hpl.
  pose proof (args_spec l _ _ Hg M1) as A. pose proof (spec_grows _ _ _ _ _ A) as W1.
  pose proof (emit_one T _ _ _ tt (spec_good _ _ _ _ _ A) M2) as B. pose proof (spec_grows _ _ _ _ _ B) as W2.
  assert (Hin : forall o, o ∈ outs -> find_out outs o.1.1 = Ok (o.1.2, o.2)).
  { intros o Ho. apply find_out_in; [|done]. pose proof (out_names_unique id) as Hnd. rewrite <-Houts, map_map in Hnd. exact Hnd. }
  assert (Hpl2 : outs_placed (to_ascii_lowercase n) outs g2) by (eapply outs_placed_grows, outs_placed_grows; done).
  assert (H4 : (0 + length (prim_out_types id) <= 4)%nat) by (destruct id; cbn; lia).
  pose proof (store_outs_spec id _ _ outs _ 0 _ _ (spec_good _ _ _ _ _ B) Hpl2 Hin Houts H4 M3) as C.
  pose proof (spec_grows _ _ _ _ _ C) as W3.
  pose proof (deliver_all_spec _ outs _ _ _ (spec_good _ _ _ _ _ C) (outs_placed_grows _ _ _ _ W3 Hpl2) M4) as D.
  pose proof (spec_ids _ _ _ _ _ A). pose proof (spec_ids _ _ _ _ _ B). pose proof (spec_ids _ _ _ _ _ C).
  apply (spec_weaken _ _ (cg_label_id g)) in B, C, D; [|lia..].
  eapply spec_mono; [|exact (spec_trans _ _ _ _ _ _ _ A (spec_trans _ _ _ _ _ _ _ B (spec_trans _ _ _ _ _ _ _ C D)))].
  clear -Hnow Hds Hrs Hlay El Hinst W1 W2 W3.
  intros _ (S1 & (Hf & Hz & Hpc & Hi) & S3 & S4) temps vs st s Ht Hat. rewrite isize_cases in Hpc.
  unfold m_lift at 1, mbind at 1, M_bind at 1. cbn [res_map map_err].
  eapply follows_bind; [by apply S1|]. intros ws st1 pc1 s1 (-> & Hat1 & Hws). rewrite El in Hws.
  eapply follows_bind.
  - eapply (follows_prim now _ _ _ _ (ended T inputs) Hnow _ _ _ vs ws _ _ id inst
      (fun o st1 pc1 s1 => length (values o) = 4%nat /\ pc1 = pc_of g2 /\
        at_t temps st1 (vs ++ rev (out_values id o (Prim.output_count id))) s1));
      [done|exact Hat1| |done|by rewrite Hpc].
    apply Hi. split; [done|]. split; [|done]. by destruct id.
  - intros o st2 pc2 s2 (Hv & -> & Hat2). rewrite <-output_types in Hat2.
    eapply follows_bind; [apply S3; [|done|exact Hat2]|].
    { do 2 (eapply live_grows; [eassumption|]). exact Ht. }
    intros [] st3 pc3 s3 [-> Hat3]. apply S4; [|exact Hat3]. do 3 (eapply live_grows; [eassumption|]). exact Ht.
Qed.
End Call.
