(* ===== verification/CompStmt.v ===== *)
(** * The compiler: control flow

    IF, CASE, WHILE and FOR over bodies whose code does what their semantics says. *)
From S2P Require Import Prelude Float32 Text IrTypes IrEncode FbDispatch VmValue VmMemory VmExec VmInv.
From S2P Require Import CompAst CompLayout CompBind CompGen CompSem CompAsm CompRun CompPrim CompSpec CompExpr CompStore CompCall.

Section Loop.
Context `{NanRule, !HashOrder, !HashOrderLaws} (T : Target) (now : Z) (inputs : SlotImage).
Hypothesis Hnow : u_range 64 now.
Hypothesis (Hds : t_data_size T <= 2 ^ 24) (Hrs : t_retain_size T <= 2 ^ 24).
Hypothesis Hlay : layout_ok (t_place T) (t_data_size T) (t_retain_size T).

Abbreviation at_t := (at_t T inputs).
Abbreviation live := (live T).
Abbreviation runs := (runs T now inputs).
Abbreviation eval := (eval inputs (t_vars T)).
Abbreviation assign := (assign (t_vars T)).
Abbreviation stmt_spec := (stmt_spec T now inputs).
Abbreviation stmt_sim := (stmt_sim T now inputs).
Abbreviation stmt_post := (stmt_post T inputs).

(** ** Single instructions *)

Lemma runs_dint {A} n temps st vs s pc (out : SrcState * res Exit A) Q :
  u_range 32 n -> at_t temps st vs s -> 0 <= pc ->
  (instr_ok (WithImm32 PushIDint 0 n) -> instr_at (t_code T) pc (WithImm32 PushIDint 0 n)) ->
  (forall s1, at_t temps st (vs ++ [VDint (wrap_s 32 n)]) s1 -> runs out (pc + 8) s1 Q) ->
  runs out pc s Q.
Proof.
  intros Hn Hat Hpc Hi Hk.
  eapply (follows_push now _ _ _ _ Hnow (ended T inputs)) with (v := VDint (wrap_s 32 n)); [done|exact Hat|by apply Hi|done|].
  by rewrite isize_cases.
Qed.

(** An operator that does not fault. *)
Lemma runs_pure {A} op a b r temps st vs s pc (out : SrcState * res Exit A) Q :
  is_binop op = true -> (forall d, binop op a b 0 d = (d, Ok r)) ->
  at_t temps st ((vs ++ [a]) ++ [b]) s -> 0 <= pc ->
  (instr_ok (Simple op 0) -> instr_at (t_code T) pc (Simple op 0)) ->
  (forall s1, at_t temps st (vs ++ [r]) s1 -> runs out (pc + 4) s1 Q) ->
  runs out pc s Q.
Proof.
  intros Hop Hr Hat Hpc Hi Hk.
  assert (He : src_binop op a b st = (st, Ok r)) by (unfold src_binop; rewrite Hr; by destruct st).
  assert (Hrun : runs (((src_binop op a b ≫= ((fun _ _ => out) : VmValue -> Sem A)) : Sem A) st) pc s Q);
    [|unfold mbind, M_bind in Hrun; by rewrite He in Hrun].
  eapply follows_bind.
  - eapply (follows_binop now _ _ _ _ Hnow (ended T inputs)) with
      (Q := fun r' st' pc' s' => pc' = pc + 4 /\ at_t temps st (vs ++ [r]) s');
      [done|exact Hat| |done|].
    + apply Hi. by destruct op.
    + intros r' st1 s1 Hb Hs1. rewrite He in Hb. by injection Hb as <- <-.
  - intros r' st1 pc1 s1 [-> Hs1]. by apply Hk.
Qed.

Lemma runs_branch {A} (on : bool) v target temps st vs s pc (out : SrcState * res Exit A) Q :
  at_t temps st (vs ++ [v]) s -> 0 <= pc ->
  instr_at (t_code T) pc (Simple (if on then JmpIf else JmpIfNot) target) ->
  (forall s1, at_t temps st vs s1 -> runs out (if Bool.eqb (Val.as_bool v) on then target else pc + 4) s1 Q) ->
  runs out pc s Q.
Proof.
  intros Hat Hpc Hi Hk. by eapply (follows_branch now _ _ _ _ Hnow (ended T inputs)).
Qed.

(** ** Tests *)

(** Code that goes on where [sem] is true and leaves for the label where it is false;
    [need] is what it wants of the temporaries. *)
Definition test_sim {X} (need : X -> gmap Cell VmValue -> Prop) (l : Label) (g g' : Codegen) (sem : X -> Sem bool) : Prop :=
  forall x out temps vs st s, t_labels T !! l = Some out -> u_range 24 out ->
  live g temps -> need x temps -> at_t temps st vs s ->
  runs (sem x st) (pc_of g) s (fun b st' pc' s' => pc' = (if (b : bool) then pc_of g' else out) /\ at_t temps st' vs s').

Definition test_spec {X} (need : X -> gmap Cell VmValue -> Prop) (m : Label -> Gen unit) (sem : X -> Sem bool) : Prop :=
  forall l g g', good T g -> m l g = (g', Ok tt) -> spec T (cg_label_id g) g g' (test_sim need l g g' sem).

(** A body that uses temporaries. *)
Definition body_sim {X} (need : X -> gmap Cell VmValue -> Prop) (g g' : Codegen) (sem : X -> Sem unit) : Prop :=
  forall x temps vs st s, live g temps -> need x temps -> at_t temps st vs s ->
  runs (sem x st) (pc_of g) s (stmt_post g' temps vs).

Definition body_spec {X} (need : X -> gmap Cell VmValue -> Prop) (m : Gen unit) (sem : X -> Sem unit) : Prop :=
  forall g g', good T g -> m g = (g', Ok tt) -> spec T (cg_label_id g) g g' (body_sim need g g' sem).

Lemma body_stmt m sem : stmt_spec m sem -> body_spec (fun _ _ => True) m (fun _ : unit => sem).
Proof. intros Hm g g' Hg He. eapply spec_mono; [|by apply Hm]. intros _ Hs [] temps vs st s Ht _. by apply Hs. Qed.

Lemma cond_spec cond m :
  (forall g g', m g = (g', Ok tt) -> expect_bool cond g = (g', Ok tt)) ->
  test_spec (fun _ _ => True) (fun l => m ;; emit_jmp JmpIfNot l) (fun _ : unit => eval_cond inputs (t_vars T) cond).
Proof.
  intros Hexp l g g' Hg Hm. apply M_bind_Ok in Hm as ([] & g1 & M1 & M2). apply Hexp in M1. unfold expect_bool in M1.
  apply M_bind_Ok in M1 as (ty & g0 & M0 & M1). case_bool_decide as Et; [discriminate M1|]. injection M1 as ->.
  pose proof (spec_refl T (cg_label_id g) g Hg (Z.le_refl _)) as A.
  apply (add_expr _ _ _ _ _ _ _ _ A _ _ _ (expr_specs T now inputs Hnow Hds Hrs Hlay cond)) in M0.
  apply (add_jmp _ _ _ _ _ _ M0) in M2; [|by right; right].
  eapply spec_mono; [|exact M2]. clear -Hnow Hds Hrs Hlay.
  intros _ ((_&_&_&_&S1)&Hf&_&Hz&Hpc&Hi) x out temps vs st s Hl Hr Ht _ Hat. unfold eval_cond.
  eapply follows_bind; [by apply S1|]. intros v st1 pc1 s1 (-> & Hat1 & _).
  eapply (runs_branch false v out); [exact Hat1|done|by apply Hi|]. intros s2 Hs2. apply follows_ret.
  rewrite <-Hpc. by destruct (Val.as_bool v).
Qed.

(** ** Loops *)

Definition counter_is (n : nat) : VmValue := VDint (wrap_s 32 (Z.of_nat n)).

Lemma counter_zero n d : Z.of_nat n < 2 ^ 32 ->
  binop Eq (counter_is n) (VDint (wrap_s 32 0)) 0 d = (d, Ok (VBool (bool_decide (n = 0%nat)))).
Proof.
  intros Hn. cbn [binop]. unfold mret, M_ret. do 3 f_equal. cbn. case_bool_decide as E.
  - by subst.
  - apply Z.eqb_neq. intros He. apply E. change (wrap_s 32 0) with 0 in He. unfold wrap_s in He. change (32 - 1) with 31 in *.
    assert (Hm : (Z.of_nat n + 2 ^ 31) mod 2 ^ 32 = 2 ^ 31) by lia.
    destruct (Z.lt_ge_cases (Z.of_nat n + 2 ^ 31) (2 ^ 32)); [rewrite Z.mod_small in Hm by lia; lia|].
    rewrite <-(Z_mod_plus_full _ (-1)), Z.mod_small in Hm by lia. lia.
Qed.

Lemma wrap_s_pred w x : wrap_s w (wrap_s w x - 1) = wrap_s w (x - 1).
Proof.
  unfold wrap_s. f_equal. generalize (2 ^ (w - 1)) (2 ^ w). intros p m.
  replace ((x + p) mod m - p - 1 + p) with ((x + p) mod m - 1) by lia.
  rewrite Zminus_mod_idemp_l. f_equal. lia.
Qed.

Lemma counter_pred n d : binop Sub (counter_is (S n)) (VDint (wrap_s 32 1)) 0 d = (d, Ok (counter_is n)).
Proof.
  unfold counter_is. change (wrap_s 32 1) with 1. cbn [binop arith_op int_arith]. unfold mbind, M_bind, mret, M_ret.
  rewrite wrap_s_pred. do 4 f_equal. lia.
Qed.
Lemma place_other l l' g g' u : place_label l g = (g', Ok u) -> l' <> l -> unplaced l' g -> unplaced l' g'.
Proof. intros [= <- _] Hne [Hu Hid]. split; [|done]. cbn. by rewrite lookup_insert_ne. Qed.

(** *** The counter *)

Definition loop_check (counter : Z) (l : Label) : Gen unit :=
  emit_simple LdData counter ;; push_dint 0 ;; emit_simple Eq 0 ;; emit_jmp JmpIf l.

Definition loop_decrement (counter : Z) : Gen unit :=
  emit_simple LdData counter ;; push_dint 1 ;; emit_simple Sub 0 ;; emit_simple StData counter.

(** Leave when the counter is 0. *)
Definition check_sim (counter : Z) (l : Label) (g g' : Codegen) : Prop :=
  forall A (out : SrcState * res Exit A) Q target temps m st vs s,
  t_labels T !! l = Some target -> u_range 24 target ->
  live g temps -> temps !! CTmp counter 4 = Some (counter_is m) -> Z.of_nat m < 2 ^ 32 -> at_t temps st vs s ->
  (forall s1, at_t temps st vs s1 -> runs out (if bool_decide (m = 0%nat) then target else pc_of g') s1 Q) ->
  runs out (pc_of g) s Q.

Lemma check_spec counter l g g' :
  good T g -> loop_check counter l g = (g', Ok tt) -> spec T (cg_label_id g) g g' (check_sim counter l g g').
Proof.
  intros Hg Hm. apply M_bind_Ok in Hm as ([] & g1 & M1 & Hm). apply M_bind_Ok in Hm as ([] & g2 & M2 & Hm).
  apply M_bind_Ok in Hm as ([] & g3 & M3 & M4).
  pose proof (spec_refl T (cg_label_id g) g Hg (Z.le_refl _)) as A.
  apply (add_emit _ _ _ _ _ _ A) in M1. apply (add_emit _ _ _ _ _ _ M1) in M2.
  apply (add_emit _ _ _ _ _ _ M2) in M3. apply (add_jmp _ _ _ _ _ _ M3) in M4; [|by right; left].
  eapply spec_mono; [|exact M4]. clear -Hnow Hds Hrs Hlay.
  intros _ ((((_&Hf&_&Z1&P1&I1)&_&_&Z2&P2&I2)&_&_&Z3&P3&I3)&_&_&Z4&P4&I4).
  rewrite isize_cases in P1, P2, P3. intros A out Q target temps m st vs s Hl Hr Ht Hc Hm Hat Hk.
  eapply (runs_load_temp T now inputs Hnow Hds Hlay g counter 4); [done|done|exact Hc|lia|exact Hat|done|by apply I1|].
  clear s Hat. intros s Hat. rewrite <-P1. eapply (runs_dint 0); [done|exact Hat|done|by apply I2|].
  clear s Hat. intros s Hat. rewrite <-P2.
  eapply (runs_pure Eq _ _ (VBool (bool_decide (m = 0%nat)))); [done| |exact Hat|done|by apply I3|].
  { intros d. by apply counter_zero. }
  clear s Hat. intros s Hat. rewrite <-P3. eapply (runs_branch true); [exact Hat|done|by apply I4|].
  clear s Hat. intros s Hat. rewrite <-P4. specialize (Hk s Hat). by case_bool_decide.
Qed.

Definition decrement_sim (counter : Z) (g g' : Codegen) : Prop :=
  forall A (out : SrcState * res Exit A) Q temps m st vs s,
  live g temps -> temps !! CTmp counter 4 = Some (counter_is (S m)) -> at_t temps st vs s ->
  (forall s1, at_t (<[CTmp counter 4 := counter_is m]> temps) st vs s1 -> runs out (pc_of g') s1 Q) ->
  runs out (pc_of g) s Q.

Lemma decrement_spec counter g g' :
  good T g -> loop_decrement counter g = (g', Ok tt) -> spec T (cg_label_id g) g g' (decrement_sim counter g g').
Proof.
  intros Hg Hm. apply M_bind_Ok in Hm as ([] & g1 & M1 & Hm). apply M_bind_Ok in Hm as ([] & g2 & M2 & Hm).
  apply M_bind_Ok in Hm as ([] & g3 & M3 & M4).
  pose proof (spec_refl T (cg_label_id g) g Hg (Z.le_refl _)) as A.
  apply (add_emit _ _ _ _ _ _ A) in M1. apply (add_emit _ _ _ _ _ _ M1) in M2.
  apply (add_emit _ _ _ _ _ _ M2) in M3. apply (add_emit _ _ _ _ _ _ M3) in M4.
  pose proof (spec_grows _ _ _ _ _ M3) as W3.
  eapply spec_mono; [|exact M4]. clear -Hnow Hds Hrs Hlay W3.
  intros _ ((((_&Hf&_&Z1&P1&I1)&_&_&Z2&P2&I2)&_&_&Z3&P3&I3)&Hf3&_&Z4&P4&I4).
  rewrite isize_cases in P1, P2, P3, P4. intros A out Q temps m st vs s Ht Hc Hat Hk.
  eapply (runs_load_temp T now inputs Hnow Hds Hlay g counter 4); [done|done|exact Hc|lia|exact Hat|done|by apply I1|].
  clear s Hat. intros s Hat. rewrite <-P1. eapply (runs_dint 1); [done|exact Hat|done|by apply I2|].
  clear s Hat. intros s Hat. rewrite <-P2.
  eapply (runs_pure Sub _ _ (counter_is m)); [done| |exact Hat|done|by apply I3|].
  { intros d. by apply counter_pred. }
  clear s Hat. intros s Hat. rewrite <-P3.
  eapply (runs_store_live T now inputs Hnow Hds Hlay g3 counter 4);
    [done|by eapply live_grows|exact Hc|lia|exact Hat|done|by apply I4|done|].
  intros s1 _ Hs1. rewrite <-P4. by apply Hk.
Qed.

Section Counted.
Context {X : Type} (need : X -> gmap Cell VmValue -> Prop).
Hypothesis Hneed : forall x temps temps', temps ⊆ temps' -> need x temps -> need x temps'.

Lemma count_range max n : count_of max = Ok n -> u_range 32 max /\ max = Z.of_nat n.
Proof.
  unfold count_of. destruct (_ && _) eqn:E; [|done]. apply andb_prop in E as [E1%Z.leb_le E2%Z.ltb_lt].
  intros [= <-]. unfold u_range. lia.
Qed.

(** The turns from the head [h], through the test [t], the body [b] and the decrement
    [d] to the jump back at [j]; [e] is behind the loop. *)
Lemma turns_sim counter end_ h t b d j e sc sb (x : X) temps vs :
  check_sim counter end_ h t -> test_sim need end_ t b sc -> body_sim need b d sb -> decrement_sim counter d j ->
  grows h t -> grows h b -> grows h d ->
  t_labels T !! end_ = Some (pc_of e) -> u_range 24 (pc_of e) ->
  instr_at (t_code T) (pc_of j) (Simple Jmp (pc_of h)) ->
  need x temps -> temps !! CTmp counter 4 = None ->
  forall m st s, Z.of_nat m < 2 ^ 32 -> live h (<[CTmp counter 4 := counter_is m]> temps) ->
  at_t (<[CTmp counter 4 := counter_is m]> temps) st vs s ->
  runs (turns m (sc x) (sb x) st) (pc_of h) s (stmt_post e temps vs).
Proof.
  intros Hcheck Htest Hbody Hdec Wt Wb Wd Tl Rl Hj Hx Hnone.
  assert (Hsub : forall v, temps ⊆ <[CTmp counter 4 := v]> temps) by (intros v; by apply insert_subseteq).
  assert (Hx' : forall v, need x (<[CTmp counter 4 := v]> temps)) by (intros v; by apply (Hneed x temps)).
  assert (Hout : forall m st s, at_t (<[CTmp counter 4 := counter_is m]> temps) st vs s ->
    runs (st, Ok tt) (pc_of e) s (stmt_post e temps vs)).
  { intros m st s Hat. apply follows_ret. split; [done|]. eapply at_sub; [apply Hsub|exact Hat]. }
  induction m as [|m IH]; intros st s Hm Hl Hat;
    (eapply Hcheck; [exact Tl|exact Rl|exact Hl|by rewrite lookup_insert_eq|done|exact Hat|]); clear s Hat; intros s Hat.
  - rewrite bool_decide_eq_true_2 by done. by eapply Hout.
  - rewrite bool_decide_eq_false_2 by done. cbn [turns].
    eapply follows_bind; [eapply Htest; [exact Tl|exact Rl|by eapply live_grows|apply Hx'|exact Hat]|].
    intros [] st1 pc1 s1 [-> Hs1]; [|by eapply Hout].
    eapply follows_bind; [eapply Hbody; [by eapply (live_grows _ h b)|apply Hx'|exact Hs1]|].
    intros [] st2 pc2 s2 [-> Hs2].
    eapply Hdec; [by eapply (live_grows _ h d)|by rewrite lookup_insert_eq|exact Hs2|].
    clear s2 Hs2. intros s2 Hs2. rewrite insert_insert_eq in Hs2.
    eapply (follows_jmp now _ _ _ _ (ended T inputs)); [exact Hs2|exact Hj|]. apply IH; [lia| |exact Hs2].
    pose proof (temps_ok_update _ _ _ Hl counter 4 (counter_is m)) as Hl'. rewrite insert_insert_eq in Hl'.
    apply Hl'. by rewrite lookup_insert_eq.
Qed.

Lemma loop_spec mt sc mb sb hp ep max g g1 g2 g3 g4 g' counter ls :
  test_spec need mt sc -> body_spec need mb sb ->
  good T g -> alloc_temp TDint g = (g1, Ok counter) -> emit_loop_head hp ep counter max g1 = (g2, Ok ls) ->
  mt ls.2 g2 = (g3, Ok tt) -> mb g3 = (g4, Ok tt) -> emit_loop_foot ls.1 ls.2 counter g4 = (g', Ok tt) ->
  spec T (cg_label_id g) g g' (forall x n temps vs st s, count_of max = Ok n ->
    live g temps -> need x temps -> at_t temps st vs s ->
    runs (turns n (sc x) (sb x) st) (pc_of g) s (stmt_post g' temps vs)).
Proof.
  intros Htest Hbody Hg M1 Hhead Mt Mb Hfoot.
  apply M_bind_Ok in Hhead as ([] & h1 & N1 & Hhead). apply M_bind_Ok in Hhead as ([] & h2 & N2 & Hhead).
  apply M_bind_Ok in Hhead as (head & h3 & N3 & Hhead). apply M_bind_Ok in Hhead as (end_ & h4 & N4 & Hhead).
  apply M_bind_Ok in Hhead as ([] & h5 & N5 & Hhead).
  assert (N6 : loop_check counter end_ h5 = (g2, Ok tt) /\ ls = (head, end_)).
  { unfold loop_check. apply M_bind_Ok in Hhead as ([] & ? & E1 & Hhead). apply M_bind_Ok in Hhead as ([] & ? & E2 & Hhead).
    apply M_bind_Ok in Hhead as ([] & ? & E3 & Hhead). apply M_bind_Ok in Hhead as ([] & ? & E4 & [= <- <-]).
    split; [|done]. by repeat (apply M_bind_Ok; do 2 eexists; split; [eassumption|]). }
  destruct N6 as [N6 ->]. clear Hhead. cbn [fst snd] in *.
  assert (Hfoot' : exists f4 f5, loop_decrement counter g4 = (f4, Ok tt) /\ emit_jmp Jmp head f4 = (f5, Ok tt) /\
    place_label end_ f5 = (g', Ok tt)).
  { apply M_bind_Ok in Hfoot as ([] & ? & E1 & Hfoot). apply M_bind_Ok in Hfoot as ([] & ? & E2 & Hfoot).
    apply M_bind_Ok in Hfoot as ([] & ? & E3 & Hfoot). apply M_bind_Ok in Hfoot as ([] & ? & E4 & Hfoot).
    apply M_bind_Ok in Hfoot as ([] & ? & E5 & E6). do 2 eexists. split; [|done].
    by repeat (apply M_bind_Ok; do 2 eexists; split; [eassumption|]). }
  destruct Hfoot' as (f4 & f5 & O4 & O5 & O6). clear Hfoot.
  pose proof (spec_refl T (cg_label_id g) g Hg (Z.le_refl _)) as A.
  apply (add_alloc _ _ _ _ _ _ A) in M1 as (M1 & _ & F1).
  pose proof (chain_start _ _ _ _ _ M1) as B.
  apply (add_emit _ _ _ _ _ _ B) in N1. apply (add_emit _ _ _ _ _ _ N1) in N2.
  apply (add_fresh _ _ _ _ _ _ N2) in N3 as (N3 & U3 & K3 & L3).
  pose proof (chain_start _ _ _ _ _ N3) as D.
  apply (add_fresh _ _ _ _ _ _ D) in N4 as (N4 & U4 & K4 & L4).
  pose proof (spec_unplaced _ _ _ _ _ _ N4 L3 U3) as U3'.
  apply (add_chain _ _ _ _ _ _ N3) in N4; [|pose proof (spec_ids _ _ _ _ _ N3); lia].
  apply (place_other _ end_ _ _ _ N5) in U4 as U5; [|intros ->; lia].
  assert (L5 : end_.2 < cg_label_id h5) by (by injection N5 as <-).
  apply (add_place _ _ _ _ _ _ N4 _ _ U3' K3) in N5.
  pose proof (chain_start _ _ _ _ _ N5) as E.
  pose proof (add_spec _ _ _ _ _ _ _ E (fun Hg Hk => spec_weaken _ _ _ _ _ _ Hk (check_spec _ _ _ _ Hg N6))) as Pc.
  pose proof (add_spec _ _ _ _ _ _ _ Pc (fun Hg Hk => spec_weaken _ _ _ _ _ _ Hk (Htest _ _ _ Hg Mt))) as Pt.
  pose proof (add_spec _ _ _ _ _ _ _ Pt (fun Hg Hk => spec_weaken _ _ _ _ _ _ Hk (Hbody _ _ Hg Mb))) as Pb.
  pose proof (add_spec _ _ _ _ _ _ _ Pb (fun Hg Hk => spec_weaken _ _ _ _ _ _ Hk (decrement_spec _ _ _ Hg O4))) as Pd.
  apply (add_jmp _ _ _ _ _ _ Pd) in O5; [|by left].
  pose proof (spec_unplaced _ _ _ _ _ _ O5 L5 U5) as U6.
  pose proof (spec_grows _ _ _ _ _ N5) as W5.
  apply (add_chain _ _ _ _ _ _ N5) in O5; [|pose proof (spec_ids _ _ _ _ _ N5); lia].
  apply (add_place _ _ _ _ _ _ O5 _ _ U6) in O6; [|lia].
  apply (add_chain _ _ _ _ _ _ M1) in O6; [|pose proof (spec_ids _ _ _ _ _ M1); lia].
  eapply spec_mono; [|exact O6]. clear -Hnow Hds Hrs Hlay Hneed Hg F1 W5.
  intros Hf ((_&_&_&_&P0)&((((((_&F1'&_&Y0&Q0&I0)&Fh1&_&Y1&Q1&I1)&_&_&_&P3)&(_&_&_&_&P4))&_&_&_&P5&T5&R5)&
    (((((_&_&_&_&Sc)&_&Wt&_&St)&_&Wb&_&Sb)&_&Wd&_&Sd)&_&_&_&_&Ij))&_&_&_&P15&T15&R15).
  rewrite isize_cases in Q0, Q1. rewrite <-P15 in T15, R15. rewrite <-P5 in T5, R5.
  intros x n temps vs st s Hn Ht Hx Hat. apply count_range in Hn as [Hmax ->]. change (elem_size TDint) with 4 in F1.
  rewrite <-P0. eapply (runs_dint (Z.of_nat n)); [done|exact Hat|done|by apply I0|].
  intros s1 Hs1. rewrite <-Q0.
  eapply (runs_store_fresh T now inputs Hnow Hds Hlay g g1 counter 4); [done|done|done|lia|exact Ht|exact Hs1|done|by apply I1|done|].
  intros s2 Hl Hs2. rewrite <-Q1, <-P3, <-P4, <-P5.
  eapply (turns_sim counter end_ h5 g2 g3 g4 f4 g'); try done; [by apply Ij| |unfold u_range in Hmax; lia|].
  - eapply (live_fresh_none T g); [apply F1|lia|done].
  - eapply live_grows; [exact W5|exact Hl].
Qed.
End Counted.
End Loop.

(** * The compiler: IF and CASE

    The code of the branches of IF and of the arms of CASE, over bodies whose code does
    what their semantics says. *)

Section Branch.
Context `{NanRule, !HashOrder, !HashOrderLaws} (T : Target) (now : Z) (inputs : SlotImage).
Hypothesis Hnow : u_range 64 now.
Hypothesis (Hds : t_data_size T <= 2 ^ 24) (Hrs : t_retain_size T <= 2 ^ 24).
Hypothesis Hlay : layout_ok (t_place T) (t_data_size T) (t_retain_size T).

Abbreviation at_t := (at_t T inputs).
Abbreviation live := (live T).
Abbreviation runs := (runs T now inputs).
Abbreviation eval := (eval inputs (t_vars T)).
Abbreviation stmt_spec := (stmt_spec T now inputs).
Abbreviation stmt_sim := (stmt_sim T now inputs).
Abbreviation stmt_post := (stmt_post T inputs).
Abbreviation exec_all := (exec_all now inputs (t_vars T)).

Definition emit_else (e : option (list Stmt)) : Gen unit := match e with Some ss => emit_stmts ss | None => mret tt end.
Definition exec_else (e : option (list Stmt)) : Sem unit := match e with Some ss => exec_all ss | None => mret tt end.

Definition list_ok (ss : list Stmt) : Prop := stmt_spec (emit_stmts ss) (exec_all ss).
Definition else_ok (e : option (list Stmt)) : Prop := match e with Some ss => list_ok ss | None => True end.

Lemma else_spec e : else_ok e -> stmt_spec (emit_else e) (exec_else e).
Proof. destruct e; [done|]. intros _. apply skip_spec. Qed.

(** ** IF *)

(** The jump over the rest, left out where there is none. *)
Definition emit_leave (end_ : Label) (bs : list (Expr * list Stmt)) (e : option (list Stmt)) : Gen unit :=
  match bs, e with [], None => mret tt | _, _ => emit_jmp Jmp end_ end.

Definition emit_branches (end_ : Label) (e : option (list Stmt)) : list (Expr * list Stmt) -> Gen unit :=
  fix emit_branches (bs : list (Expr * list Stmt)) : Gen unit :=
  match bs with
  | [] => mret tt
  | (cond, body) :: bs =>
      next ← fresh_label "if_next";
      expect_bool cond ;;
      emit_jmp JmpIfNot next ;;
      emit_stmts body ;;
      emit_leave end_ bs e ;;
      place_label next ;;
      emit_branches bs
  end.

Definition exec_branches (e : option (list Stmt)) : list (Expr * list Stmt) -> Sem unit :=
  fix exec_branches (bs : list (Expr * list Stmt)) : Sem unit :=
  match bs with
  | [] => exec_else e
  | (cond, body) :: bs =>
      c ← eval_cond inputs (t_vars T) cond;
      if (c : bool) then exec_all body else exec_branches bs
  end.

Lemma leave_spec end_ bs e g g' :
  good T g -> emit_leave end_ bs e g = (g', Ok tt) -> spec T (cg_label_id g) g g'
    (forall target temps vs st s Q, t_labels T !! end_ = Some target -> u_range 24 target ->
     (bs = [] -> e = None -> target = pc_of g') -> at_t temps st vs s ->
     Q tt st target s -> runs (st, Ok tt) (pc_of g) s Q).
Proof.
  intros Hg Hm.
  assert (Hj : emit_jmp Jmp end_ g = (g', Ok tt) \/ (g' = g /\ bs = [] /\ e = None)).
  { unfold emit_leave in Hm. destruct bs as [|b bs], e as [ss|]; try (by left). right. by injection Hm as <-. }
  destruct Hj as [Hj|(-> & -> & ->)].
  - eapply spec_mono; [|eapply emit_jmp_spec; [exact Hg|apply Z.le_refl| |exact Hj]; by left].
    intros _ [_ Hi] target temps vs st s Q Hl Hr _ Hat HQ.
    eapply (follows_jmp now _ _ _ _ (ended T inputs)); [exact Hat|by apply Hi|]. by apply follows_ret.
  - eapply spec_mono; [|by apply spec_refl]. intros _ _ target temps vs st s Q _ _ Ht _ HQ.
    apply follows_ret. by rewrite <-(Ht eq_refl eq_refl).
Qed.

Lemma branches_spec end_ e bs :
  Forall (fun b => list_ok b.2) bs -> forall g g', good T g -> emit_branches end_ e bs g = (g', Ok tt) ->
  spec T (cg_label_id g) g g' (forall ge, t_labels T !! end_ = Some (pc_of ge) -> u_range 24 (pc_of ge) ->
    (e = None -> pc_of ge = pc_of g') -> stmt_sim g' ge (exec_else e) -> stmt_sim g ge (exec_branches e bs)).
Proof.
  induction 1 as [|[cond body] bs Hbody _ IH]; intros g g' Hg Hm; cbn [emit_branches exec_branches snd] in *.
  { injection Hm as <-. eapply spec_mono; [|by apply spec_refl]. done. }
  apply M_bind_Ok in Hm as (next & g1 & M1 & Hm). apply M_bind_Ok in Hm as ([] & ? & E1 & Hm).
  apply M_bind_Ok in Hm as ([] & g3 & E2 & Hm).
  assert (M2 : (expect_bool cond ;; emit_jmp JmpIfNot next) g1 = (g3, Ok tt)) by (apply M_bind_Ok; eauto). clear E1 E2.
  apply M_bind_Ok in Hm as ([] & g4 & M3 & Hm). apply M_bind_Ok in Hm as ([] & g5 & M4 & Hm).
  apply M_bind_Ok in Hm as ([] & g6 & M5 & M6).
  pose proof (spec_refl T (cg_label_id g) g Hg (Z.le_refl _)) as A.
  apply (add_fresh _ _ _ _ _ _ A) in M1 as (M1 & U1 & K1 & L1).
  pose proof (chain_start _ _ _ _ _ M1) as B.
  pose proof (cond_spec T now inputs Hnow Hds Hrs Hlay cond (expect_bool cond) ltac:(done)) as Hcond.
  pose proof (add_spec _ _ _ _ _ _ _ B (fun Hg Hk => spec_weaken _ _ _ _ _ _ Hk (Hcond _ _ _ Hg M2))) as Pc.
  pose proof (add_spec _ _ _ _ _ _ _ Pc (fun Hg Hk => spec_weaken _ _ _ _ _ _ Hk (Hbody _ _ Hg M3))) as Pb.
  pose proof (add_spec _ _ _ _ _ _ _ Pb (fun Hg Hk => spec_weaken _ _ _ _ _ _ Hk (leave_spec _ _ _ _ _ Hg M4))) as Pl.
  pose proof (spec_unplaced _ _ _ _ _ _ Pl L1 U1) as U5.
  apply (add_chain _ _ _ _ _ _ M1) in Pl; [|pose proof (spec_ids _ _ _ _ _ M1); lia].
  apply (add_place _ _ _ _ _ _ Pl _ _ U5) in M5; [|lia]. pose proof (spec_grows _ _ _ _ _ M5) as W6.
  pose proof (spec_grows _ _ _ _ _ M1) as W1.
  pose proof (add_spec _ _ _ _ _ _ _ M5 (fun Hg Hk => spec_weaken _ _ _ _ _ _ Hk (IH _ _ Hg M6))) as Pr.
  assert (Hlast : bs = [] -> g' = g6) by (intros ->; by injection M6 as <-).
  eapply spec_mono; [|exact Pr]. clear -Hnow Hds Hrs Hlay W1 W6 Hlast.
  intros _ ((((_&_&_&_&P1)&(((_&_&_&_&Sc)&_&Wb&_&Sb)&_&_&_&Sl))&_&_&_&P6&T5&R5)&_&_&_&Sr).
  intros ge Tl Rl He Helse temps vs st s Ht Hat. rewrite <-P1.
  eapply follows_bind; [eapply (Sc tt); [exact T5|exact R5|by eapply live_grows|done|exact Hat]|].
  intros [] st1 pc1 s1 [-> Hs1].
  - eapply runs_then; [apply Sb; [|exact Hs1]; by do 2 (eapply live_grows; [eassumption|])|].
    intros [] st2 pc2 s2 [-> Hs2]. eapply (Sl (pc_of ge)); [exact Tl|exact Rl| |exact Hs2|done].
    intros Hb ->. by rewrite (He eq_refl), (Hlast Hb).
  - rewrite <-P6. eapply Sr; try done. by eapply live_grows.
Qed.
Lemma if_spec e bs :
  Forall (fun b => list_ok b.2) bs -> else_ok e ->
  stmt_spec (end_ ← fresh_label "if_end"; emit_branches end_ e bs ;; emit_else e ;; place_label end_) (exec_branches e bs).
Proof.
  intros Hbs He g g' Hg Hm. apply M_bind_Ok in Hm as (end_ & g1 & M1 & Hm).
  apply M_bind_Ok in Hm as ([] & g2 & M2 & Hm). apply M_bind_Ok in Hm as ([] & g3 & M3 & M4).
  pose proof (spec_refl T (cg_label_id g) g Hg (Z.le_refl _)) as A.
  apply (add_fresh _ _ _ _ _ _ A) in M1 as (M1 & U1 & K1 & L1). pose proof (spec_grows _ _ _ _ _ M1) as W1.
  pose proof (chain_start _ _ _ _ _ M1) as B.
  pose proof (add_spec _ _ _ _ _ _ _ B (fun Hg Hk => spec_weaken _ _ _ _ _ _ Hk (branches_spec end_ e bs Hbs _ _ Hg M2))) as Pb.
  pose proof (add_spec _ _ _ _ _ _ _ Pb (fun Hg Hk => spec_weaken _ _ _ _ _ _ Hk (else_spec e He _ _ Hg M3))) as Pe.
  pose proof (spec_unplaced _ _ _ _ _ _ Pe L1 U1) as U3.
  apply (add_chain _ _ _ _ _ _ M1) in Pe; [|pose proof (spec_ids _ _ _ _ _ M1); lia].
  apply (add_place _ _ _ _ _ _ Pe _ _ U3) in M4; [|lia].
  assert (Hnone : e = None -> g3 = g2) by (intros ->; by injection M3 as <-).
  eapply spec_mono; [|exact M4]. clear -Hnow Hds Hrs Hlay W1 Hnone.
  intros _ (((_&_&_&_&P1)&((_&_&_&_&Sb)&_&_&_&Se))&_&_&_&P4&T4&R4). rewrite <-P4 in T4, R4.
  intros temps vs st s Ht Hat. rewrite <-P1. eapply (Sb g'); [done|done| |..].
  - intros He. by rewrite P4, (Hnone He).
  - intros temps' vs' st' s' Ht' Hat'. unfold CompStore.stmt_post. rewrite P4. by apply Se.
  - by eapply live_grows.
  - done.
Qed.

(** ** CASE *)

(** To the body where a label matches, on to the next arm otherwise. *)
Lemma labels_spec tmp w body_l next_l labels : forall g g',
  0 < w -> good T g -> emit_labels tmp body_l next_l labels g = (g', Ok tt) -> spec T (cg_label_id g) g g'
    (forall A (out : SrcState * res Exit A) Q v next temps vs st s,
     t_labels T !! body_l = Some (pc_of g') -> u_range 24 (pc_of g') ->
     t_labels T !! next_l = Some next -> u_range 24 next ->
     live g temps -> temps !! CTmp tmp w = Some v -> at_t temps st vs s ->
     (forall s1, at_t temps st vs s1 -> runs out (if takes_arm v labels then pc_of g' else next) s1 Q) ->
     runs out (pc_of g) s Q).
Proof.
  induction labels as [|lab labels IH]; intros g g' Hw Hg Hm; cbn [emit_labels] in Hm.
  { injection Hm as <-. eapply spec_mono; [|by apply spec_refl].
    intros _ _ A out Q v next temps vs st s _ _ _ _ _ _ Hat Hk. by apply Hk. }
  apply M_bind_Ok in Hm as ([] & g1 & M1 & Hm). apply M_bind_Ok in Hm as ([] & g2 & M2 & Hm).
  apply M_bind_Ok in Hm as ([] & g3 & M3 & Hm). apply M_bind_Ok in Hm as ([] & g4 & M4 & M5).
  set (last := bool_decide (labels = [])).
  assert (M4' : emit_jmp (if last then JmpIfNot else JmpIf) (if last then next_l else body_l) g3 = (g4, Ok tt)).
  { unfold last. by destruct labels. }
  assert (Hlast : last = true -> g4 = g').
  { unfold last. intros Hl%bool_decide_eq_true. rewrite Hl in M5. by injection M5 as <-. }
  pose proof (spec_refl T (cg_label_id g) g Hg (Z.le_refl _)) as A.
  apply (add_emit _ _ _ _ _ _ A) in M1. apply (add_emit _ _ _ _ _ _ M1) in M2.
  apply (add_emit _ _ _ _ _ _ M2) in M3.
  apply (add_jmp _ _ _ _ _ _ M3) in M4'; [|destruct last; [by right; right|by right; left]].
  pose proof (spec_grows _ _ _ _ _ M4') as W4.
  pose proof (add_spec _ _ _ _ _ _ _ M4' (fun Hg Hk => spec_weaken _ _ _ _ _ _ Hk (IH _ _ Hw Hg M5))) as P.
  eapply spec_mono; [|exact P]. clear -Hnow Hds Hrs Hlay W4 Hlast Hw.
  intros _ (((((_&Hf&_&Z1&P1&I1)&_&_&Z2&P2&I2)&_&_&Z3&P3&I3)&_&_&Z4&P4&I4)&_&_&_&Sr).
  rewrite isize_cases in P1, P2, P3. intros A out Q v next temps vs st s Tb Rb Tn Rn Ht Hv Hat Hk.
  eapply (runs_load_temp T now inputs Hnow Hds Hlay g tmp w); [done|done|exact Hv|done|exact Hat|done|by apply I1|].
  clear s Hat. intros s Hat. rewrite <-P1.
  eapply (runs_dint T now inputs Hnow (wrap_u 32 lab)); [apply wrap_u_range; lia|exact Hat|done|by apply I2|].
  clear s Hat. intros s Hat. rewrite <-P2. rewrite wrap_s_u in Hat by lia.
  eapply (runs_pure T now inputs Hnow Eq _ _ (VBool (matches_label v lab))); [done|done|exact Hat|done|by apply I3|].
  clear s Hat. intros s Hat. rewrite <-P3.
  eapply (runs_branch T now inputs Hnow (negb last)); [exact Hat|done| |].
  { instantiate (1 := if last then next else pc_of g'). destruct last; by apply I4. }
  clear s Hat. intros s Hat. rewrite <-P4. cbn [Val.as_bool].
  assert (Htk : takes_arm v (lab :: labels) = matches_label v lab || (negb last && takes_arm v labels)).
  { unfold takes_arm, last. cbn [existsb]. rewrite (bool_decide_eq_false_2 (lab :: labels = [])) by done.
    by destruct labels. }
  rewrite Htk in Hk. clear Htk. destruct last; cbn [negb andb] in *.
  - rewrite orb_false_r in Hk. rewrite (Hlast eq_refl). specialize (Hk s Hat). by destruct (matches_label v lab).
  - destruct (matches_label v lab); cbn [Bool.eqb orb] in *; [by apply Hk|].
    eapply (Sr _ _ _ v next); [done..|by eapply live_grows|done|exact Hat|exact Hk].
Qed.

Definition emit_arms (tmp : Z) (end_ : Label) : list (CaseArm Stmt) -> Gen unit :=
  fix emit_arms (arms : list (CaseArm Stmt)) : Gen unit :=
  match arms with
  | [] => mret tt
  | mkArm labels body :: arms =>
      body_l ← fresh_label "case_body";
      next_l ← fresh_label "case_next";
      emit_labels tmp body_l next_l labels ;;
      place_label body_l ;;
      emit_stmts body ;;
      emit_jmp Jmp end_ ;;
      place_label next_l ;;
      emit_arms arms
  end.

Definition exec_arms (e : option (list Stmt)) (v : VmValue) : list (CaseArm Stmt) -> Sem unit :=
  fix exec_arms (arms : list (CaseArm Stmt)) : Sem unit :=
  match arms with
  | [] => exec_else e
  | mkArm labels body :: arms => if takes_arm v labels then exec_all body else exec_arms arms
  end.

Lemma arms_spec tmp w end_ e arms :
  0 < w -> Forall (fun a => list_ok (ca_body a)) arms -> forall g g', good T g -> emit_arms tmp end_ arms g = (g', Ok tt) ->
  spec T (cg_label_id g) g g' (forall ge v temps vs st s, t_labels T !! end_ = Some (pc_of ge) -> u_range 24 (pc_of ge) ->
    stmt_sim g' ge (exec_else e) -> live g temps -> temps !! CTmp tmp w = Some v -> at_t temps st vs s ->
    runs (exec_arms e v arms st) (pc_of g) s (stmt_post ge temps vs)).
Proof.
  intros Hw. induction 1 as [|[labels body] arms Hbody _ IH]; intros g g' Hg Hm; cbn [emit_arms exec_arms ca_body] in *.
  { injection Hm as <-. eapply spec_mono; [|by apply spec_refl]. intros _ _ ge v temps vs st s _ _ Hs Ht _ Hat. by apply Hs. }
  apply M_bind_Ok in Hm as (body_l & g1 & M1 & Hm). apply M_bind_Ok in Hm as (next_l & g2 & M2 & Hm).
  apply M_bind_Ok in Hm as ([] & g3 & M3 & Hm). apply M_bind_Ok in Hm as ([] & g4 & M4 & Hm).
  apply M_bind_Ok in Hm as ([] & g5 & M5 & Hm). apply M_bind_Ok in Hm as ([] & g6 & M6 & Hm).
  apply M_bind_Ok in Hm as ([] & g7 & M7 & M8).
  pose proof (spec_refl T (cg_label_id g) g Hg (Z.le_refl _)) as A.
  apply (add_fresh _ _ _ _ _ _ A) in M1 as (M1 & U1 & K1 & L1).
  pose proof (chain_start _ _ _ _ _ M1) as B.
  apply (add_fresh _ _ _ _ _ _ B) in M2 as (M2 & U2 & K2 & L2).
  pose proof (chain_start _ _ _ _ _ M2) as C.
  pose proof (add_spec _ _ _ _ _ _ _ C (fun Hg Hk => spec_weaken _ _ _ _ _ _ Hk (labels_spec tmp w _ _ _ _ _ Hw Hg M3))) as Pl.
  pose proof (spec_unplaced _ _ _ _ _ _ Pl L2 U2) as U2'.
  apply (add_chain _ _ _ _ _ _ M2) in Pl; [|pose proof (spec_ids _ _ _ _ _ M2); lia].
  pose proof (spec_unplaced _ _ _ _ _ _ Pl L1 U1) as U1'.
  pose proof (spec_ids _ _ _ _ _ M1) as I1. pose proof (spec_ids _ _ _ _ _ Pl) as I3.
  apply (add_chain _ _ _ _ _ _ M1) in Pl; [|lia].
  apply (place_other _ next_l _ _ _ M4) in U2'; [|intros ->; lia].
  assert (L4 : next_l.2 < cg_label_id g4) by (by apply U2').
  apply (add_place _ _ _ _ _ _ Pl _ _ U1') in M4; [|lia].
  pose proof (chain_start _ _ _ _ _ M4) as D.
  pose proof (add_spec _ _ _ _ _ _ _ D (fun Hg Hk => spec_weaken _ _ _ _ _ _ Hk (Hbody _ _ Hg M5))) as Pb.
  apply (add_jmp _ _ _ _ _ _ Pb) in M6; [|by left].
  pose proof (spec_unplaced _ _ _ _ _ _ M6 L4 U2') as U6.
  apply (add_chain _ _ _ _ _ _ M4) in M6; [|pose proof (spec_ids _ _ _ _ _ M4); lia].
  apply (add_place _ _ _ _ _ _ M6 _ _ U6) in M7; [|lia].
  pose proof (add_spec _ _ _ _ _ _ _ M7 (fun Hg Hk => spec_weaken _ _ _ _ _ _ Hk (IH _ _ Hg M8))) as Pr.
  pose proof (spec_grows _ _ _ _ _ M1) as W1. pose proof (spec_grows _ _ _ _ _ M2) as W2.
  pose proof (spec_grows _ _ _ _ _ M4) as W4. pose proof (spec_grows _ _ _ _ _ M7) as W7.
  eapply spec_mono; [|exact Pr]. clear -Hnow Hds Hrs Hlay W1 W2 W4 W7.
  intros _ ((((((_&_&_&_&P1)&(_&_&_&_&P2)&_&_&_&_&Sl)&_&_&_&P4&T4&R4)&((_&_&_&_&Sb)&_&_&_&P6&I6))&_&_&_&P7&T7&R7)&
    _&_&_&Sr).
  intros ge v temps vs st s Te Re He Ht Hv Hat. rewrite <-P1, <-P2.
  assert (Ht2 : live g2 temps) by (do 2 (eapply live_grows; [eassumption|]); exact Ht).
  eapply (Sl _ _ _ v); [exact T4|exact R4|exact T7|exact R7|exact Ht2|exact Hv|exact Hat|].
  clear s Hat. intros s Hat. destruct (takes_arm v labels).
  - rewrite <-P4. eapply runs_then; [apply Sb; [|exact Hat]; by eapply live_grows|].
    intros [] st2 pc2 s2 [-> Hs2]. eapply (follows_jmp now _ _ _ _ (ended T inputs)); [exact Hs2|by apply I6|].
    by apply follows_ret.
  - rewrite <-P7. eapply Sr; [done|done|done|by eapply live_grows|done|done].
Qed.

Lemma case_spec selector arms e :
  Forall (fun a => list_ok (ca_body a)) arms -> else_ok e ->
  stmt_spec
    (sel_ty ← emit_expr selector;
     if bool_decide (sel_ty <> TInt /\ sel_ty <> TDint) then m_err Code.EType
     else
       tmp ← alloc_temp sel_ty;
       emit_simple StData tmp ;;
       end_ ← fresh_label "case_end";
       emit_arms tmp end_ arms ;;
       emit_else e ;;
       place_label end_)
    (v ← eval selector; exec_arms e v arms).
Proof.
  intros Harms He g g' Hg Hm. apply M_bind_Ok in Hm as (ty & g1 & M1 & Hm).
  destruct (bool_decide (ty <> TInt /\ ty <> TDint)) eqn:Ety; [discriminate Hm|].
  apply M_bind_Ok in Hm as (tmp & g2 & M2 & Hm). apply M_bind_Ok in Hm as ([] & g3 & M3 & Hm).
  apply M_bind_Ok in Hm as (end_ & g4 & M4 & Hm). apply M_bind_Ok in Hm as ([] & g5 & M5 & Hm).
  apply M_bind_Ok in Hm as ([] & g6 & M6 & M7).
  pose proof (elem_size_pos ty) as Hw. set (w := elem_size ty) in *.
  pose proof (spec_refl T (cg_label_id g) g Hg (Z.le_refl _)) as A.
  apply (add_expr _ _ _ _ _ _ _ _ A _ _ _ (expr_specs T now inputs Hnow Hds Hrs Hlay selector)) in M1.
  apply (add_alloc _ _ _ _ _ _ M1) in M2 as (M2 & G1 & F2).
  pose proof (chain_start _ _ _ _ _ M2) as C.
  apply (add_emit _ _ _ _ _ _ C) in M3. apply (add_fresh _ _ _ _ _ _ M3) in M4 as (M4 & U4 & K4 & L4).
  pose proof (spec_grows _ _ _ _ _ M4) as W4. pose proof (chain_start _ _ _ _ _ M4) as B.
  pose proof (add_spec _ _ _ _ _ _ _ B (fun Hg Hk => spec_weaken _ _ _ _ _ _ Hk
    (arms_spec tmp w end_ e arms (proj1 Hw) Harms _ _ Hg M5))) as Pa.
  pose proof (add_spec _ _ _ _ _ _ _ Pa (fun Hg Hk => spec_weaken _ _ _ _ _ _ Hk (else_spec e He _ _ Hg M6))) as Pe.
  pose proof (spec_unplaced _ _ _ _ _ _ Pe L4 U4) as U6.
  apply (add_chain _ _ _ _ _ _ M4) in Pe; [|pose proof (spec_ids _ _ _ _ _ M4); lia].
  apply (add_place _ _ _ _ _ _ Pe _ _ U6) in M7; [|lia].
  apply (add_chain _ _ _ _ _ _ M2) in M7; [|pose proof (spec_ids _ _ _ _ _ M2); lia].
  assert (Hty : ty <> TBool) by (intros ->; by vm_compute in Ety).
  pose proof (spec_grows _ _ _ _ _ M1) as W1.
  eapply spec_mono; [|exact M7]. clear -Hnow Hds Hrs Hlay G1 F2 W1 W4 Hw Hty.
  intros _ (((_&_&_&_&S1)&_&_&_&P2)&((((_&Hf2&_&Z3&P3&I3)&_&_&_&P4)&((_&_&_&_&Sa)&_&_&_&Se))&_&_&_&P7&T7&R7)).
  rewrite isize_cases in P3. rewrite <-P7 in T7, R7. intros temps vs st s Ht Hat.
  eapply follows_bind; [by apply S1|]. intros v st1 pc1 s1 (-> & Hs1 & Hv). rewrite <-P2.
  assert (Ht1 : live g1 temps) by by eapply live_grows.
  eapply (runs_store_fresh T now inputs Hnow Hds Hlay g1 g2 tmp w); [done|done|done|lia|exact Ht1|exact Hs1|done|by apply I3|by apply Hv|].
  clear s1 Hs1. intros s1 Ht2 Hs1. rewrite <-P3, <-P4.
  eapply follows_weaken.
  - eapply (Sa g' v); [done|done| |by eapply live_grows|by rewrite lookup_insert_eq|exact Hs1].
    intros temps' vs' st' s' Ht' Hat'. unfold CompStore.stmt_post. rewrite P7. by apply Se.
  - intros [] st2 pc2 s2 [-> Hs2]. split; [done|]. eapply at_sub; [|exact Hs2].
    apply insert_subseteq. eapply (live_fresh_none T g1); [apply F2|lia|done].
Qed.
End Branch.

(** * The compiler: statements

    FOR, and all statements: the code of a statement does what the reference semantics
    of the statement does. *)
From S2P Require Import CompAst CompLayout CompBind CompGen CompSem CompAsm CompRun CompPrim CompSpec CompExpr CompStore.

Section Stmt.
Context `{NanRule, !HashOrder, !HashOrderLaws} (T : Target) (now : Z) (inputs : SlotImage).
Hypothesis Hnow : u_range 64 now.
Hypothesis (Hds : t_data_size T <= 2 ^ 24) (Hrs : t_retain_size T <= 2 ^ 24).
Hypothesis Hlay : layout_ok (t_place T) (t_data_size T) (t_retain_size T).

Abbreviation at_t := (at_t T inputs).
Abbreviation live := (live T).
Abbreviation runs := (runs T now inputs).
Abbreviation eval := (eval inputs (t_vars T)).
Abbreviation stmt_spec := (stmt_spec T now inputs).
Abbreviation stmt_sim := (stmt_sim T now inputs).
Abbreviation stmt_post := (stmt_post T inputs).
Abbreviation exec_all := (exec_all now inputs (t_vars T)).

(** ** Temporaries of FOR *)

(** Code that leaves a value. *)
Definition value_spec (m : Gen unit) (sem : Sem VmValue) : Prop :=
  forall g g', good T g -> m g = (g', Ok tt) -> spec T (cg_label_id g) g g'
    (forall temps vs st s, live g temps -> at_t temps st vs s ->
     runs (sem st) (pc_of g) s (fun v st' pc' s' => pc' = pc_of g' /\ at_t temps st' (vs ++ [v]) s')).

Lemma value_expr e : value_spec (emit_expr e ;; mret tt) (eval e).
Proof.
  intros g g' Hg Hm. apply M_bind_Ok in Hm as (ty & g1 & Hm & [= ->]).
  eapply spec_mono; [|by eapply (expr_specs T now inputs Hnow Hds Hrs Hlay)].
  intros _ Hs temps vs st s Ht Hat. eapply follows_weaken; [by apply Hs|].
  by intros v st' pc' s' (-> & ? & _).
Qed.

Lemma value_one : value_spec (push_dint 1) (mret (VDint 1)).
Proof.
  intros g g' Hg Hm. eapply spec_mono; [|by eapply emit_one].
  intros _ (Hf & Hz & Hpc & Hi) temps vs st s Ht Hat. rewrite isize_cases in Hpc.
  eapply (runs_dint T now inputs Hnow 1); [done|exact Hat|done|by apply Hi|].
  intros s1 Hs1. rewrite <-Hpc. by apply follows_ret.
Qed.

(** A value kept in a new temporary. *)
Lemma temp_spec m sem g g1 g2 g3 tmp :
  value_spec m sem -> good T g -> alloc_temp TDint g = (g1, Ok tmp) -> m g1 = (g2, Ok tt) ->
  emit_simple StData tmp g2 = (g3, Ok tt) -> spec T (cg_label_id g) g g3
    (forall (k : VmValue -> Sem unit) Q temps vs st s, live g temps -> at_t temps st vs s ->
     (forall v st1 s1, temps ⊆ <[CTmp tmp 4 := v]> temps -> live g3 (<[CTmp tmp 4 := v]> temps) ->
       at_t (<[CTmp tmp 4 := v]> temps) st1 vs s1 -> runs (k v st1) (pc_of g3) s1 Q) ->
     runs ((v ← (v ← sem; fit TDint v); k v) st) (pc_of g) s Q).
Proof.
  intros Hsem Hg M1 M2 M3.
  pose proof (spec_refl T (cg_label_id g) g Hg (Z.le_refl _)) as A.
  apply (add_alloc _ _ _ _ _ _ A) in M1 as (M1 & _ & F1). change (elem_size TDint) with 4 in F1.
  pose proof (chain_start _ _ _ _ _ M1) as B.
  pose proof (add_spec _ _ _ _ _ _ _ B (fun Hg Hk => spec_weaken _ _ _ _ _ _ Hk (Hsem _ _ Hg M2))) as Pv.
  apply (add_emit _ _ _ _ _ _ Pv) in M3. pose proof (spec_grows _ _ _ _ _ M3) as W3.
  pose proof (spec_grows _ _ _ _ _ M1) as W1.
  apply (add_chain _ _ _ _ _ _ M1) in M3; [|pose proof (spec_ids _ _ _ _ _ M1); lia].
  eapply spec_mono; [|exact M3]. clear -Hnow Hds Hrs Hlay Hg F1 W1 W3.
  intros _ ((_&_&_&_&P1)&(_&Hf1&_&_&Sv)&_&_&Z3&P3&I3). rewrite isize_cases in P3.
  intros k Q temps vs st s Ht Hat Hk. rewrite <-P1.
  eapply follows_bind with (Q := fun v st1 pc1 s1 => pc1 = pc_of g2 /\ at_t temps st1 (vs ++ [v]) s1 /\ fits TDint v = true).
  - eapply follows_bind; [apply Sv; [by eapply live_grows|exact Hat]|].
    intros v st1 pc1 s1 [-> Hs1]. unfold fit. destruct (fits TDint v) eqn:Ef; [|done]. by apply follows_ret.
  - intros v st1 pc1 s1 (-> & Hs1 & Hfit). apply Z.leb_le in Hfit.
    eapply (runs_store_fresh T now inputs Hnow Hds Hlay g g1 tmp 4); [done|done|done|lia|exact Ht|exact Hs1|done|by apply I3|done|].
    intros s2 Hl Hs2. rewrite <-P3. apply Hk; [|by eapply live_grows|done].
    apply insert_subseteq. eapply (live_fresh_none T g); [apply F1|lia|done].
Qed.

(** ** The variable of FOR *)

Lemma load_place c off ty temps vs st s pc :
  named c -> t_place T c = Some (SgData, off, elem_size ty) -> at_t temps st vs s -> 0 <= pc ->
  (instr_ok (Simple LdData off) -> instr_at (t_code T) pc (Simple LdData off)) ->
  runs (read_cell c st) pc s (fun v st' pc' s' => pc' = pc + 4 /\ st' = st /\ at_t temps st (vs ++ [v]) s').
Proof.
  intros Hc Hp Hat Hpc Hi. pose proof (elem_size_pos ty). destruct (lo_bound _ _ _ Hlay _ _ _ _ Hc Hp). unfold read_cell.
  destruct (ss_cells st !! c) as [v|] eqn:Ev; [|done]. cbn [ok_or].
  eapply (follows_load now _ _ _ _ Hnow _ _ _ _ _ _ _ Hpc SgData off c v (ss_cells st) _ _ (elem_size ty));
    [exact Hat| |apply Hat|done|done|lia|].
  - apply Hi. split; [done|]. split; [done|]. unfold u_range. lia.
  - intros s1 Hs1. by apply follows_ret.
Qed.

Lemma store_place c off ty g v temps vs st s pc :
  named c -> t_place T c = Some (SgData, off, elem_size ty) -> final T g -> live g temps -> at_t temps st (vs ++ [v]) s ->
  0 <= pc -> (instr_ok (Simple StData off) -> instr_at (t_code T) pc (Simple StData off)) ->
  runs (write_cell c ty v st) pc s (fun _ st' pc' s' => pc' = pc + 4 /\ at_t temps st' vs s').
Proof.
  intros Hc Hp Hf Ht Hat Hpc Hi. pose proof (elem_size_pos ty). destruct (lo_bound _ _ _ Hlay _ _ _ _ Hc Hp).
  assert (Ht' : temps_ok (t_place T) (t_data_size T) temps).
  { intros c' u Hu. destruct (Ht c' u Hu) as (o & w & -> & Ho & Hw & Hrest). pose proof (f_wm _ _ Hf).
    exists o, w. repeat split; try done; [lia|apply Hrest..]. }
  assert (Hi' : instr_at (t_code T) pc (Simple (store_op SgData) off)).
  { apply Hi. split; [done|]. split; [done|]. unfold u_range. lia. }
  pose proof (follows_store now _ _ _ _ Hnow (ended T inputs) _ _ _ _ _ _ Hpc _ Hlay Ht' SgData off v c ty
    (fun _ st' pc' s' => pc' = pc + 4 /\ at_t temps st' vs s') Hat Hi' Hc Hp (Z.le_refl _) ltac:(lia) ltac:(done)) as Hr.
  assert (He : (write_cell c ty v ;; mret tt) st = write_cell c ty v st).
  { unfold mbind, M_bind. by destruct (write_cell c ty v st) as [? [[]|?|]]. }
  cbv beta iota in Hr. by rewrite He in Hr.
Qed.

Lemma for_var_spec var g g' off :
  good T g -> for_var var g = (g', Ok off) ->
  spec T (cg_label_id g) g g' (pc_of g' = pc_of g) /\ exists td, sym g' (to_ascii_lowercase var) = Some (StDataVar off td).
Proof.
  intros Hg Hm. unfold for_var in Hm. apply M_bind_Ok in Hm as (sy & g1 & [= <- <-] & Hm).
  unfold m_gets, m_lift in Hm. destruct (lookup_sym g var) as [[| |o td| | | |]|] eqn:Es; try discriminate Hm.
  - injection Hm as <- <-. split; [|by exists td]. eapply spec_mono; [|by apply spec_refl]. done.
  - apply M_bind_Ok in Hm as (o & g1 & M1 & Hm). apply M_bind_Ok in Hm as ([] & g2 & [= <-] & [= <- <-]).
    destruct (implicit_spec T (cg_label_id g) g g1 _ _ _ Hg (Z.le_refl _) Es M1 eq_refl) as [Hs Hy].
    split; [exact Hs|by eexists].
Qed.
(** ** FOR *)

Section For.
Context (c : Cell) (off to_tmp by_tmp : Z).
Hypothesis Hc : named c.

(** The type of the variable, the limit and the step. *)
Record ForData := mkFor { fd_ty : IrType; fd_to : VmValue; fd_by : VmValue }.

Definition for_need (x : ForData) (temps : gmap Cell VmValue) : Prop :=
  t_place T c = Some (SgData, off, elem_size (fd_ty x)) /\
  temps !! CTmp to_tmp 4 = Some (fd_to x) /\ temps !! CTmp by_tmp 4 = Some (fd_by x).

Lemma for_need_mono x temps temps' : temps ⊆ temps' -> for_need x temps -> for_need x temps'.
Proof. intros Hsub (Hp & H2 & H3). split; [done|]. split; by eapply lookup_weaken. Qed.

Definition for_test (x : ForData) : Sem bool :=
  v ← read_cell c; r ← src_binop Gt v (fd_to x); mret (negb (Val.as_bool r)).

Definition for_step (x : ForData) : Sem unit :=
  v ← read_cell c; v ← src_binop Add v (fd_by x); write_cell c (fd_ty x) v.

Lemma for_test_spec :
  test_spec T now inputs for_need
    (fun l => emit_simple LdData off ;; emit_simple LdData to_tmp ;; emit_simple Gt 0 ;; emit_jmp JmpIf l) for_test.
Proof.
  intros l g g' Hg Hm. apply M_bind_Ok in Hm as ([] & g1 & M1 & Hm). apply M_bind_Ok in Hm as ([] & g2 & M2 & Hm).
  apply M_bind_Ok in Hm as ([] & g3 & M3 & M4).
  pose proof (spec_refl T (cg_label_id g) g Hg (Z.le_refl _)) as A.
  apply (add_emit _ _ _ _ _ _ A) in M1. apply (add_emit _ _ _ _ _ _ M1) in M2.
  apply (add_emit _ _ _ _ _ _ M2) in M3. apply (add_jmp _ _ _ _ _ _ M3) in M4; [|by right; left].
  pose proof (spec_grows _ _ _ _ _ M1) as W1.
  eapply spec_mono; [|exact M4]. clear -Hnow Hds Hrs Hlay Hc W1.
  intros _ ((((_&_&_&Z1&P1&I1)&Hf1&_&Z2&P2&I2)&_&_&Z3&P3&I3)&_&_&Z4&P4&I4).
  rewrite isize_cases in P1, P2, P3. intros x out temps vs st s Hl Hr Ht (Hp & Hto & _) Hat. unfold for_test.
  eapply follows_bind; [eapply load_place; [done|exact Hp|exact Hat|done|by apply I1]|].
  intros v st1 pc1 s1 (-> & -> & Hs1). rewrite <-P1.
  eapply (runs_load_temp T now inputs Hnow Hds Hlay g1 to_tmp 4); [done|by eapply live_grows|exact Hto|lia|exact Hs1|done|by apply I2|].
  clear s1 Hs1. intros s1 Hs1. rewrite <-P2. eapply follows_bind.
  - eapply (follows_binop now _ _ _ _ Hnow (ended T inputs)) with
      (Q := fun r st' pc' s' => pc' = pc_of g3 /\ at_t temps st' (vs ++ [r]) s');
      [done|exact Hs1|by apply I3|done|by rewrite P3].
  - intros r st2 pc2 s2 [-> Hs2]. eapply (runs_branch T now inputs Hnow true); [exact Hs2|done|by apply I4|].
    clear s2 Hs2. intros s2 Hs2. apply follows_ret. rewrite <-P4. by destruct (Val.as_bool r).
Qed.

Lemma for_step_spec :
  body_spec T now inputs for_need
    (emit_simple LdData off ;; emit_simple LdData by_tmp ;; emit_simple Add 0 ;; emit_simple StData off) for_step.
Proof.
  intros g g' Hg Hm. apply M_bind_Ok in Hm as ([] & g1 & M1 & Hm). apply M_bind_Ok in Hm as ([] & g2 & M2 & Hm).
  apply M_bind_Ok in Hm as ([] & g3 & M3 & M4).
  pose proof (spec_refl T (cg_label_id g) g Hg (Z.le_refl _)) as A.
  apply (add_emit _ _ _ _ _ _ A) in M1. apply (add_emit _ _ _ _ _ _ M1) in M2.
  apply (add_emit _ _ _ _ _ _ M2) in M3. apply (add_emit _ _ _ _ _ _ M3) in M4.
  pose proof (spec_grows _ _ _ _ _ M1) as W1. pose proof (spec_grows _ _ _ _ _ M3) as W3.
  eapply spec_mono; [|exact M4]. clear -Hnow Hds Hrs Hlay Hc W1 W3.
  intros _ ((((_&_&_&Z1&P1&I1)&Hf1&_&Z2&P2&I2)&_&_&Z3&P3&I3)&Hf3&_&Z4&P4&I4).
  rewrite isize_cases in P1, P2, P3, P4. intros x temps vs st s Ht (Hp & _ & Hby) Hat. unfold for_step.
  eapply follows_bind; [eapply load_place; [done|exact Hp|exact Hat|done|by apply I1]|].
  intros v st1 pc1 s1 (-> & -> & Hs1). rewrite <-P1.
  eapply (runs_load_temp T now inputs Hnow Hds Hlay g1 by_tmp 4); [done|by eapply live_grows|exact Hby|lia|exact Hs1|done|by apply I2|].
  clear s1 Hs1. intros s1 Hs1. rewrite <-P2. eapply follows_bind.
  - eapply (follows_binop now _ _ _ _ Hnow (ended T inputs)) with
      (Q := fun r st' pc' s' => pc' = pc_of g3 /\ at_t temps st' (vs ++ [r]) s');
      [done|exact Hs1|by apply I3|done|by rewrite P3].
  - intros r st2 pc2 s2 [-> Hs2]. eapply follows_weaken.
    + eapply store_place; [done|exact Hp|exact Hf3|by eapply live_grows|exact Hs2|done|by apply I4].
    + intros [] st3 pc3 s3 [-> Hs3]. by rewrite <-P4.
Qed.

Lemma for_body_spec body sem :
  stmt_spec body sem ->
  body_spec T now inputs for_need
    (body ;; emit_simple LdData off ;; emit_simple LdData by_tmp ;; emit_simple Add 0 ;; emit_simple StData off)
    (fun x => sem ;; for_step x).
Proof.
  intros Hb g g' Hg Hm. apply M_bind_Ok in Hm as ([] & g1 & M1 & M2).
  pose proof (Hb _ _ Hg M1) as A. pose proof (for_step_spec _ _ (spec_good _ _ _ _ _ A) M2) as B.
  pose proof (spec_ids _ _ _ _ _ A) as K. apply (spec_weaken _ _ (cg_label_id g)) in B; [|lia].
  eapply spec_mono; [|exact (spec_trans _ _ _ _ _ _ _ A B)]. intros _ [S1 S2] x temps vs st s Ht Hx Hat.
  eapply follows_bind; [by apply S1|]. intros [] st1 pc1 s1 [-> Hat1]. apply S2; [|done|done].
  eapply live_grows; [|done]. by eapply spec_grows.
Qed.
End For.
Definition by_code (by_ : option Expr) : Gen unit :=
  match by_ with Some b => emit_expr b ;; mret tt | None => push_dint 1 end.

Definition by_value (by_ : option Expr) : Sem VmValue :=
  match by_ with Some e => eval e | None => mret (VDint 1) end.

Lemma by_spec by_ : value_spec (by_code by_) (by_value by_).
Proof. destruct by_; [apply value_expr|apply value_one]. Qed.

(** The loop of FOR behind its temporaries. *)
Definition emit_for_loop (off to_tmp by_tmp max : Z) (body : Gen unit) : Gen unit :=
  counter ← alloc_temp TDint;
  ls ← emit_loop_head "for_head" "for_end" counter max;
  emit_simple LdData off ;;
  emit_simple LdData to_tmp ;;
  emit_simple Gt 0 ;;
  emit_jmp JmpIf ls.2 ;;
  body ;;
  emit_simple LdData off ;;
  emit_simple LdData by_tmp ;;
  emit_simple Add 0 ;;
  emit_simple StData off ;;
  emit_loop_foot ls.1 ls.2 counter.

Lemma for_loop_spec c off to_tmp by_tmp max body sem g g' :
  named c -> stmt_spec body sem -> good T g -> emit_for_loop off to_tmp by_tmp max body g = (g', Ok tt) ->
  spec T (cg_label_id g) g g' (forall x n temps vs st s, count_of max = Ok n ->
    live g temps -> for_need c off to_tmp by_tmp x temps -> at_t temps st vs s ->
    runs (turns n (for_test c x) (sem ;; for_step c x) st) (pc_of g) s (stmt_post g' temps vs)).
Proof.
  intros Hc Hb Hg Hm. unfold emit_for_loop in Hm.
  apply M_bind_Ok in Hm as (counter & g1 & M1 & Hm). apply M_bind_Ok in Hm as (ls & g2 & M2 & Hm).
  apply M_bind_Ok in Hm as ([] & h1 & N1 & Hm). apply M_bind_Ok in Hm as ([] & h2 & N2 & Hm).
  apply M_bind_Ok in Hm as ([] & h3 & N3 & Hm). apply M_bind_Ok in Hm as ([] & g3 & N4 & Hm).
  apply M_bind_Ok in Hm as ([] & h5 & O1 & Hm). apply M_bind_Ok in Hm as ([] & h6 & O2 & Hm).
  apply M_bind_Ok in Hm as ([] & h7 & O3 & Hm). apply M_bind_Ok in Hm as ([] & h8 & O4 & Hm).
  apply M_bind_Ok in Hm as ([] & g4 & O5 & M5).
  eapply (loop_spec T now inputs Hnow Hds Hlay (for_need c off to_tmp by_tmp) (for_need_mono c off to_tmp by_tmp)
    (fun l => emit_simple LdData off ;; emit_simple LdData to_tmp ;; emit_simple Gt 0 ;; emit_jmp JmpIf l)
    (for_test c)
    (body ;; emit_simple LdData off ;; emit_simple LdData by_tmp ;; emit_simple Add 0 ;; emit_simple StData off)
    (fun x => sem ;; for_step c x));
    [by apply for_test_spec|by apply for_body_spec|done|exact M1|exact M2| | |exact M5];
    by repeat (apply M_bind_Ok; do 2 eexists; split; [eassumption|]).
Qed.

Lemma for_spec var from to by_ max_iter body :
  list_ok T now inputs body ->
  stmt_spec
    (max ← m_lift (for_max from to by_ max_iter);
     off ← for_var var;
     emit_expr from ;;
     emit_simple StData off ;;
     to_tmp ← alloc_temp TDint;
     emit_expr to ;;
     emit_simple StData to_tmp ;;
     by_tmp ← alloc_temp TDint;
     by_code by_ ;;
     emit_simple StData by_tmp ;;
     emit_for_loop off to_tmp by_tmp max (emit_stmts body))
    (max ← m_lift (map_err (fun _ => XUndefined) (for_max from to by_ max_iter));
     n ← m_lift (count_of max);
     ty ← loop_var (t_vars T) var;
     let cell := CVar (to_ascii_lowercase var) in
     a ← eval from;
     write_cell cell ty a ;;
     b ← (b ← eval to; fit TDint b);
     step ← (step ← by_value by_; fit TDint step);
     turns n (for_test cell (mkFor ty b step)) (exec_all body ;; for_step cell (mkFor ty b step))).
Proof.
  intros Hb g g' Hg Hm. apply M_bind_Ok in Hm as (max & g0 & [-> Hmax]%lift_Ok & Hm). rewrite Hmax.
  apply M_bind_Ok in Hm as (off & g1 & M1 & Hm). apply M_bind_Ok in Hm as (ty & g2 & M2 & Hm).
  apply M_bind_Ok in Hm as ([] & g3 & M3 & Hm). apply M_bind_Ok in Hm as (to_tmp & g4 & M4 & Hm).
  apply M_bind_Ok in Hm as (tty & g5 & M5 & Hm). apply M_bind_Ok in Hm as ([] & g6 & M6 & Hm).
  apply M_bind_Ok in Hm as (by_tmp & g7 & M7 & Hm). apply M_bind_Ok in Hm as ([] & g8 & M8 & Hm).
  apply M_bind_Ok in Hm as ([] & g9 & M9 & M10).
  assert (M5' : (emit_expr to ;; mret tt) g4 = (g5, Ok tt)) by (apply M_bind_Ok; eauto). clear M5.
  destruct (for_var_spec _ _ _ _ Hg M1) as [A [td Hsym]].
  pose proof (spec_good _ _ _ _ _ A) as G1. pose proof (var_of_sym T g1 var _ G1 Hsym) as Hvar.
  apply (add_expr _ _ _ _ _ _ _ _ A _ _ _ (expr_specs T now inputs Hnow Hds Hrs Hlay from)) in M2.
  apply (add_emit _ _ _ _ _ _ M2) in M3.
  pose proof (add_spec _ _ _ _ _ _ _ M3 (fun Hg Hk => spec_weaken _ _ _ _ _ _ Hk
    (temp_spec _ _ _ _ _ _ _ (value_expr to) Hg M4 M5' M6))) as Pt.
  pose proof (add_spec _ _ _ _ _ _ _ Pt (fun Hg Hk => spec_weaken _ _ _ _ _ _ Hk
    (temp_spec _ _ _ _ _ _ _ (by_spec by_) Hg M7 M8 M9))) as Pb.
  pose proof (add_spec _ _ _ _ _ _ _ Pb (fun Hg Hk => spec_weaken _ _ _ _ _ _ Hk
    (for_loop_spec (CVar (to_ascii_lowercase var)) off to_tmp by_tmp max _ _ _ _ I Hb Hg M10))) as Pl.
  pose proof (spec_grows _ _ _ _ _ A) as W1. pose proof (spec_grows _ _ _ _ _ M3) as W3.
  eapply spec_mono; [|exact Pl]. clear -Hnow Hds Hrs Hlay W1 W3 Hsym Hvar.
  intros _ (((((P1&Hf1&_&Z1&S2)&Hf2&W2&Z2&P3&I3)&_&_&_&St)&_&_&_&Sb)&Hf9&_&_&Sl).
  rewrite isize_cases in P3. intros temps vs st s Ht Hat.
  unfold m_lift at 1, mbind at 1, M_bind at 1. cbn [map_err].
  unfold m_lift at 1, mbind at 1, M_bind at 1.
  destruct (count_of max) as [n|?|] eqn:En; [|unfold count_of in En; case_match; by simplify_eq..].
  unfold loop_var. rewrite Hvar. destruct td as [vty|? ?|?|?]; cbn [erase]; try done.
  unfold mret at 1, M_ret at 1, mbind at 1, M_bind at 1.
  assert (Hp : t_place T (CVar (to_ascii_lowercase var)) = Some (SgData, off, elem_size vty)).
  { apply (f_place _ _ Hf1); [done|]. cbn. by rewrite Hsym. }
  assert (Ht1 : live g1 temps) by by eapply live_grows.
  rewrite <-P1. eapply follows_bind; [by apply S2|]. intros a st1 pc1 s1 (-> & Hs1 & _).
  eapply follows_bind; [eapply store_place; [done|exact Hp|exact Hf2|by eapply live_grows|exact Hs1|done|by apply I3]|].
  intros [] st2 pc2 s2 [-> Hs2]. rewrite <-P3.
  eapply St; [by eapply live_grows|exact Hs2|]. intros b st3 s3 Hsub3 Hl3 Hs3.
  eapply Sb; [exact Hl3|exact Hs3|]. intros step st4 s4 Hsub4 Hl4 Hs4.
  eapply follows_weaken; [eapply (Sl (mkFor vty b step)); [done|exact Hl4| |exact Hs4]|].
  - split; [done|]. split; [eapply lookup_weaken; [|exact Hsub4]|]; by rewrite lookup_insert_eq.
  - intros [] st5 pc5 s5 [-> Hs5]. split; [done|]. eapply at_sub; [|exact Hs5]. by etrans.
Qed.
(** ** All statements *)

Lemma return_spec : stmt_spec (emit_simple Ret 0) (m_err XReturn).
Proof.
  intros g g' Hg Hm. eapply spec_mono; [|by eapply emit_one].
  intros _ (Hf & Hz & Hpc & Hi) temps vs st s Ht Hat.
  eapply (follows_return now _ _ _ _ (ended T inputs)); [exact Hat|by apply Hi|]. intros Hr. by exists temps.
Qed.

Lemma while_spec cond max_iter body :
  list_ok T now inputs body ->
  stmt_spec
    (match max_iter with
     | None => m_err Code.EUnboundedLoop
     | Some max =>
         counter ← alloc_temp TDint;
         ls ← emit_loop_head "wh_head" "wh_end" counter max;
         expect_bool cond ;;
         emit_jmp JmpIfNot ls.2 ;;
         emit_stmts body ;;
         emit_loop_foot ls.1 ls.2 counter
     end)
    (max ← m_lift (ok_or max_iter XUndefined);
     n ← m_lift (count_of max);
     turns n (eval_cond inputs (t_vars T) cond) (exec_all body)).
Proof.
  intros Hb g g' Hg Hm. destruct max_iter as [max|]; [|discriminate Hm].
  apply M_bind_Ok in Hm as (counter & g1 & M1 & Hm). apply M_bind_Ok in Hm as (ls & g2 & M2 & Hm).
  apply M_bind_Ok in Hm as ([] & h1 & N1 & Hm). apply M_bind_Ok in Hm as ([] & g3 & N2 & Hm).
  apply M_bind_Ok in Hm as ([] & g4 & O1 & M5).
  assert (N : (expect_bool cond ;; emit_jmp JmpIfNot ls.2) g2 = (g3, Ok tt)) by (apply M_bind_Ok; eauto).
  pose proof (loop_spec T now inputs Hnow Hds Hlay (fun (_ : unit) _ => True) (fun _ _ _ _ _ => I)
    (fun l => expect_bool cond ;; emit_jmp JmpIfNot l) (fun _ => eval_cond inputs (t_vars T) cond)
    (emit_stmts body) (fun _ => exec_all body) _ _ max _ _ _ _ _ _ _ _
    (cond_spec T now inputs Hnow Hds Hrs Hlay cond (expect_bool cond) ltac:(done))
    (body_stmt T now inputs _ _ Hb) Hg M1 M2 N O1 M5) as Hs.
  eapply spec_mono; [|exact Hs]. intros _ S temps vs st s Ht Hat. cbn [ok_or].
  unfold m_lift at 1, mbind at 1, M_bind at 1. unfold m_lift at 1, mbind at 1, M_bind at 1.
  destruct (count_of max) as [n|?|] eqn:En; [|unfold count_of in En; case_match; by simplify_eq..].
  by apply (S tt).
Qed.

Lemma stmts_spec ss :
  Forall (fun s => stmt_spec (emit_stmt s) (exec now inputs (t_vars T) s)) ss -> list_ok T now inputs ss.
Proof. induction 1 as [|s ss Hs _ IH]; [apply skip_spec|]. by apply seq_spec. Qed.

Section Induction.
Context (P : Stmt -> Prop).
Hypothesis (Hempty : P SEmpty) (Hreturn : P SReturn) (Hassign : forall l r, P (SAssign l r)).
Hypothesis (Hcall : forall c, P (SFbCall c)).
Hypothesis Hif : forall bs e, Forall (fun b => Forall P b.2) bs -> match e with Some ss => Forall P ss | None => True end -> P (SIf bs e).
Hypothesis Hcase : forall sel arms e,
  Forall (fun a => Forall P (ca_body a)) arms -> match e with Some ss => Forall P ss | None => True end -> P (SCase sel arms e).
Hypothesis Hwhile : forall c m b, Forall P b -> P (SWhile c m b).
Hypothesis Hfor : forall v f t b m ss, Forall P ss -> P (SFor v f t b m ss).

(** Induction over statements and the lists within them. *)
Fixpoint stmt_nested_ind (s : Stmt) : P s.
Proof.
  assert (Hlist : forall ss, Forall P ss) by (fix IH 1; intros [|s' ss]; constructor; [apply stmt_nested_ind|apply IH]).
  destruct s as [l r|c|bs e|sel arms e|c m b|v f t b m ss| |].
  - apply Hassign.
  - apply Hcall.
  - apply Hif; [|destruct e as [ss|]; [exact (Hlist ss)|exact I]]. revert bs. fix IH 1. intros [|[c b] bs]; constructor; [exact (Hlist b)|exact (IH bs)].
  - apply Hcase; [|destruct e as [ss|]; [exact (Hlist ss)|exact I]]. revert arms. fix IH 1. intros [|[ls b] arms]; constructor; [exact (Hlist b)|exact (IH arms)].
  - apply Hwhile, Hlist.
  - apply Hfor, Hlist.
  - apply Hreturn.
  - apply Hempty.
Qed.
End Induction.

Lemma stmt_specs s : stmt_spec (emit_stmt s) (exec now inputs (t_vars T) s).
Proof.
  induction s as [| |l r|c|bs e Hbs He|sel arms e Harms He|c m b Hb|v f t b m ss Hss] using stmt_nested_ind.
  - apply skip_spec.
  - apply return_spec.
  - by refine (assign_spec T now inputs Hnow Hds Hrs Hlay l r).
  - by refine (call_spec T now inputs Hnow Hds Hrs Hlay c).
  - refine (if_spec T now inputs Hnow Hds Hrs Hlay e bs _ _).
    + eapply Forall_impl; [exact Hbs|]. intros x. apply stmts_spec.
    + destruct e; [|done]. by apply stmts_spec.
  - refine (case_spec T now inputs Hnow Hds Hrs Hlay sel arms e _ _).
    + eapply Forall_impl; [exact Harms|]. intros x. apply stmts_spec.
    + destruct e; [|done]. by apply stmts_spec.
  - refine (while_spec c m b _). by apply stmts_spec.
  - refine (for_spec v f t b m ss _). by apply stmts_spec.
Qed.

(** The code of a body does what the body means. *)
Lemma body_specs ss : stmt_spec (emit_stmts ss) (exec_all ss).
Proof. apply stmts_spec, Forall_forall. intros s _. apply stmt_specs. Qed.
End Stmt.
