(* ===== verification/CompPlaces.v ===== *)
(** * The compiler: places of the variables

    What binding the variables of the programs guarantees: every variable has a place
    of its own below the cursors of the allocator, and slots and instances are within
    the numbers the binder counts. *)
From S2P Require Import Prelude Text IrTypes IrEncode FbDispatch VmValue PkgManifest.
From S2P Require Import CompAst CompLayout CompBind CompGen CompUnit CompSem CompAsm CompRun CompSpec.

(** ** Numbers of the syntax are unsigned *)

Fixpoint type_ok (ty : TypeExpr) : bool :=
  match ty with TNamed _ => true | TArray upper elem => (0 <=? upper) && type_ok elem end.

Definition var_ok (v : VarDecl) : bool :=
  match vd_at v with Some a => 0 <=? da_index a | None => true end && type_ok (vd_ty v).

Definition program_ok (p : Program) : bool := forallb (fun s => forallb var_ok (vs_vars s)) (pr_vars p).

Definition tag_ok (t : TagMap) : bool := match tg_slot t with Some n => 0 <=? n | None => true end.

(** ** Places *)

Definition out_places (outs : list (bytes * Z * IrType)) : list Place :=
  map (fun o : bytes * Z * IrType => (SgData, o.1.2, elem_size o.2)) outs.

Definition storage_places (s : Storage) : list Place :=
  match s with
  | StPrim _ _ outs => out_places outs
  | _ => match storage_place s with Some p => [p] | None => [] end
  end.

(** What [al'] has allocated beyond [al]. *)
Definition between (al al' : Allocator) (p : Place) : Prop :=
  match p.1.1 with
  | SgData => al_data al <= p.1.2 /\ p.1.2 + p.2 <= al_data al'
  | SgRetain => al_retain al <= p.1.2 /\ p.1.2 + p.2 <= al_retain al'
  end.

Record al_le (al al' : Allocator) : Prop := {
  al_le_data : al_data al <= al_data al';
  al_le_retain : al_retain al <= al_retain al' }.

#[export] Instance al_le_pre : PreOrder al_le.
Proof. split; [by intros []; split|]. intros x y z [] []. split; lia. Qed.

Lemma between_mono al al1 al2 al' p : al_le al al1 -> al_le al2 al' -> between al1 al2 p -> between al al' p.
Proof. intros [] []. unfold between. case_match; lia. Qed.

Lemma between_apart al al1 al' p q : between al al1 p -> between al1 al' q -> apart p q.
Proof.
  unfold between, apart. destruct p as [[[] o] w], q as [[[] o'] w']; cbn; intros; first [by left|right; left; lia].
Qed.

Definition pairwise_apart (ps : list Place) : Prop :=
  forall i j p q, ps !! i = Some p -> ps !! j = Some q -> i <> j -> apart p q.

Lemma pairwise_one p : pairwise_apart [p].
Proof. intros [|i] [|j] q r; cbn; done. Qed.

Lemma pairwise_nil : pairwise_apart [].
Proof. by intros i j p q. Qed.

Lemma pairwise_cons al al1 al' p ps :
  between al al1 p -> Forall (between al1 al') ps -> pairwise_apart ps -> pairwise_apart (p :: ps).
Proof.
  intros Hp Hps Hpw [|i] [|j] q r Hq Hr Hne; [done| | |].
  - injection Hq as <-. rewrite Forall_forall in Hps.
    eapply between_apart; [exact Hp|]. apply Hps. by eapply list_elem_of_lookup_2.
  - injection Hr as <-. rewrite Forall_forall in Hps. apply place_apart_sym.
    eapply between_apart; [exact Hp|]. apply Hps. by eapply list_elem_of_lookup_2.
  - eapply Hpw; eauto.
Qed.

(** ** The allocator *)

Definition al_ok (al : Allocator) : Prop := 0 <= al_data al /\ 0 <= al_retain al.

Lemma alloc_spec {E} size algn (retain : bool) al al' off :
  @alloc E size algn retain al = Ok (al', off) -> 0 <= size -> al_ok al ->
  al_ok al' /\ al_le al al' /\ between al al' ((if retain then SgRetain else SgData), off, size).
Proof.
  unfold alloc. intros Ha Hs [Hd Hr]. apply res_bind_Ok in Ha as (o & Ho & Ha). apply res_bind_Ok in Ha as (c & Hc & Ha).
  apply align_up_ge in Ho; [|lia]. unfold u32_add in Hc. destruct (_ <? _); [|done]. injection Hc as <-.
  injection Ha as <- <-. unfold al_ok, between. destruct retain; cbn in *; (split; [lia|]; split; [split; cbn; lia|lia]).
Qed.

Lemma alloc_outs_spec outs al al' l :
  alloc_outs outs al = Ok (al', l) -> al_ok al ->
  al_ok al' /\ al_le al al' /\ Forall (between al al') (out_places l) /\ pairwise_apart (out_places l) /\
  map (fun o : bytes * Z * IrType => (o.1.1, o.2)) l = outs.
Proof.
  revert al al' l. induction outs as [|[n ty] outs IH]; intros al al' l Ha Hok; cbn [alloc_outs] in Ha.
  { injection Ha as <- <-. split; [done|]. split; [done|]. split; [constructor|]. split; [apply pairwise_nil|done]. }
  apply res_bind_Ok in Ha as ([al1 off] & Ha1 & Ha). apply res_bind_Ok in Ha as ([al2 rest] & Ha2 & Ha).
  injection Ha as <- <-. cbn [fst snd] in *. pose proof (elem_size_pos ty).
  destruct (alloc_spec _ _ _ _ _ _ Ha1 ltac:(lia) Hok) as (Hok1 & Hle1 & Hb1).
  destruct (IH _ _ _ Ha2 Hok1) as (Hok2 & Hle2 & Hb2 & Hpw & Hm).
  split; [done|]. split; [by etrans|]. split; [|split].
  - constructor; [by apply (between_mono al al al1 al2)|]. eapply Forall_impl; [exact Hb2|].
    intros p. by apply (between_mono al al1 al2 al2).
  - by eapply pairwise_cons.
  - cbn. by rewrite Hm.
Qed.

(** ** Sizes *)

Fixpoint td_nonneg (td : TypeDef) : Prop :=
  match td with TdArray elem n => 0 <= n /\ td_nonneg elem | _ => True end.

Lemma td_nonneg_size td n : td_nonneg td -> byte_size td ∅ = Ok n -> 0 <= n.
Proof.
  revert n. induction td as [t|elem IH len|p|fb]; intros n; cbn [td_nonneg byte_size].
  - intros _ [= <-]. pose proof (elem_size_pos t). lia.
  - intros [Hl He] Hn. apply res_bind_Ok in Hn as (s & Hs & [= <-]). specialize (IH s He Hs). unfold sat_mul32. nia.
  - intros _ [= <-]. by destruct p.
  - intros _. by rewrite lookup_empty.
Qed.

Lemma resolve_nonneg ty td : type_ok ty = true -> resolve_type ty = Ok td -> td_nonneg td.
Proof.
  revert td. induction ty as [name|upper elem IH]; intros td; cbn [type_ok resolve_type].
  - intros _. repeat case_match; intros [= <-]; done.
  - intros [Hu%Z.leb_le He]%andb_prop Hr. apply res_bind_Ok in Hr as (n & Hn & Hr). unfold u32_add in Hn.
    destruct (upper + 1 <? 2 ^ 32); [|done]. injection Hn as <-. case_match; [done|].
    apply res_bind_Ok in Hr as (e & Hel & Hr). specialize (IH _ He Hel). destruct e; try done.
    injection Hr as <-. split; [lia|done].
Qed.

(** ** The binder *)

Record storage_ok (b : Binder) (s : Storage) : Prop := {
  so_apart : pairwise_apart (storage_places s);
  so_prim id inst outs : s = StPrim id inst outs ->
    u_range 32 inst /\ map (fun o : bytes * Z * IrType => (o.1.1, o.2)) outs = prim_out_types id;
  so_input slot ty : s = StInput slot ty -> 0 <= slot < bd_input_slots b;
  so_output slot ty : s = StOutput slot ty -> 0 <= slot < bd_output_slots b }.

(** The data of a symbol ends below [top]. *)
Definition ends_below (top : Z) (s : Storage) : Prop := forall e, data_end ∅ s = Some e -> e <= top.

Record binder_ok (b : Binder) : Prop := {
  bo_alloc : al_ok (bd_alloc b);
  bo_counts p : 0 <= bd_prim_counts b p;
  bo_slots : 0 <= bd_input_slots b /\ 0 <= bd_output_slots b;
  bo_storage k s : bd_globals b !! k = Some s ->
    storage_ok b s /\ ends_below (al_data (bd_alloc b)) s /\
    Forall (between (mkAlloc 0 0) (bd_alloc b)) (storage_places s);
  bo_apart k k' s s' p p' : k <> k' -> bd_globals b !! k = Some s -> bd_globals b !! k' = Some s' ->
    p ∈ storage_places s -> p' ∈ storage_places s' -> apart p p' }.

(** What binding one more variable leaves alone. *)
Record binds (b b' : Binder) : Prop := {
  bs_globals : bd_globals b' = bd_globals b;
  bs_alloc : al_le (bd_alloc b) (bd_alloc b') /\ al_ok (bd_alloc b');
  bs_counts p : 0 <= bd_prim_counts b' p;
  bs_slots : bd_input_slots b <= bd_input_slots b' /\ bd_output_slots b <= bd_output_slots b' }.

Lemma storage_ok_mono b b' s :
  bd_input_slots b <= bd_input_slots b' -> bd_output_slots b <= bd_output_slots b' -> storage_ok b s -> storage_ok b' s.
Proof.
  intros Hi Ho []. split; try done.
  - intros slot ty Hs. specialize (so_input0 _ _ Hs). lia.
  - intros slot ty Hs. specialize (so_output0 _ _ Hs). lia.
Qed.

Lemma al_le_zero al : al_ok al -> al_le (mkAlloc 0 0) al.
Proof. intros [? ?]. by split. Qed.

Lemma binder_insert b b' k s :
  binder_ok b -> binds b b' -> bd_globals b !! k = None -> storage_ok b' s -> ends_below (al_data (bd_alloc b')) s ->
  Forall (between (bd_alloc b) (bd_alloc b')) (storage_places s) ->
  binder_ok (set_bd_globals (<[k := s]> (bd_globals b')) b').
Proof.
  intros [Ha Hc Hsl Hst Hap] [Hg [Hle Ha'] Hc' [Hi Ho]] Hk Hs He Hb.
  assert (Hnew : forall k' s' p p', bd_globals b !! k' = Some s' -> p ∈ storage_places s' -> p' ∈ storage_places s -> apart p p').
  { intros k' s' p p' Hk' Hp Hp'. destruct (Hst _ _ Hk') as (_ & _ & Hf). rewrite Forall_forall in Hf, Hb.
    eapply between_apart; eauto. }
  split; cbn; try done; [lia|..].
  - intros k' s' Hk'. rewrite Hg in Hk'. destruct (decide (k = k')) as [<-|Hne].
    + rewrite lookup_insert_eq in Hk'. injection Hk' as <-. split; [by apply (storage_ok_mono b')|]. split; [done|].
      eapply Forall_impl; [exact Hb|]. intros p. apply between_mono; [by apply al_le_zero|done].
    + rewrite lookup_insert_ne in Hk' by done. destruct (Hst _ _ Hk') as (H1 & H3 & H2). split; [by apply (storage_ok_mono b)|].
      split; [intros e Hend; specialize (H3 e Hend); destruct Hle; lia|].
      eapply Forall_impl; [exact H2|]. intros p. by apply between_mono.
  - intros k1 k2 s1 s2 p1 p2 Hne H1 H2 Hp1 Hp2. rewrite Hg in H1, H2.
    destruct (decide (k = k1)) as [<-|N1], (decide (k = k2)) as [<-|N2]; [done|..].
    + rewrite lookup_insert_eq in H1. rewrite lookup_insert_ne in H2 by done. injection H1 as <-.
      apply place_apart_sym. exact (Hnew _ _ _ _ H2 Hp2 Hp1).
    + rewrite lookup_insert_ne in H1 by done. rewrite lookup_insert_eq in H2. injection H2 as <-. exact (Hnew _ _ _ _ H1 Hp1 Hp2).
    + rewrite lookup_insert_ne in H1 by done. rewrite lookup_insert_ne in H2 by done. exact (Hap _ _ _ _ _ _ Hne H1 H2 Hp1 Hp2).
Qed.

Section Bind.
Context (max_instances : Z).

Lemma binds_refl b : binder_ok b -> binds b b.
Proof. intros []. split; done || lia. Qed.

Lemma binds_alloc b al : binder_ok b -> al_le (bd_alloc b) al -> al_ok al -> binds b (set_bd_alloc al b).
Proof. intros [] Hle Hok. split; cbn; try done; lia. Qed.

(** What binding a variable gives: a changed binder and a storage of its own. *)
Definition bound_ok (b : Binder) (r : res ErrorCode (Binder * Storage)) : Prop :=
  forall b' s, r = Ok (b', s) ->
  binds b b' /\ storage_ok b' s /\ ends_below (al_data (bd_alloc b')) s /\
  Forall (between (bd_alloc b) (bd_alloc b')) (storage_places s).

Lemma elem_storage b al0 al off sg ty s :
  storage_places s = [(sg, off, elem_size ty)] -> (match s with StPrim _ _ _ | StInput _ _ | StOutput _ _ => False | _ => True end) ->
  between al0 al (sg, off, elem_size ty) ->
  (match s with StDataVar _ _ => sg = SgData /\ s = StDataVar off (TdElem ty) | _ => True end) ->
  storage_ok b s /\ ends_below (al_data al) s /\ Forall (between al0 al) (storage_places s).
Proof.
  intros Hs Hk Hb Hd. rewrite Hs. split; [|split; [|by constructor]].
  2: { intros e He. destruct s; try done. destruct Hd as [-> Hd]. injection Hd as -> ->. injection He as <-. apply Hb. }
  split.
  - rewrite Hs. apply pairwise_one.
  - intros id inst outs ->. done.
  - intros slot t ->. done.
  - intros slot t ->. done.
Qed.

Lemma plain_storage b s :
  storage_places s = [] -> (match s with StPrim _ _ _ | StInput _ _ | StOutput _ _ => False | _ => True end) -> storage_ok b s.
Proof.
  intros Hs Hk. split; [rewrite Hs; apply pairwise_nil|..]; intros; subst; done.
Qed.

Lemma bind_retain_ok name ir b b' off :
  binder_ok b -> bind_retain name ir b = Ok (b', off) ->
  binds b b' /\ between (bd_alloc b) (bd_alloc b') (SgRetain, off, elem_size ir).
Proof.
  intros Hb Hr. unfold bind_retain in Hr. apply res_bind_Ok in Hr as ([al o] & Ha & [= <- <-]). cbn [fst snd].
  pose proof (elem_size_pos ir). destruct (alloc_spec _ _ _ _ _ _ Ha ltac:(lia) (bo_alloc _ Hb)) as (H1 & H2 & H3).
  split; [|done]. destruct Hb. split; cbn; try done; lia.
Qed.

Lemma bind_data_ok ty b : binder_ok b -> td_nonneg ty -> bound_ok b (bind_data ∅ ty b).
Proof.
  intros Hb Ht b' s Hr. unfold bind_data in Hr. apply res_bind_Ok in Hr as (size & Hsz & Hr).
  apply res_bind_Ok in Hr as ([al off] & Ha & [= <- <-]). cbn [fst snd].
  destruct (alloc_spec _ _ _ _ _ _ Ha (td_nonneg_size _ _ Ht Hsz) (bo_alloc _ Hb)) as (H1 & H2 & H3).
  split; [by apply binds_alloc|].
  destruct ty as [t|? ?|?|?]; try (split; [by apply plain_storage|split; [|by constructor]];
    intros e He; cbn [data_end] in He; rewrite Hsz in He; injection He as <-; apply H3).
  injection Hsz as <-. by apply (elem_storage _ _ _ off SgData t).
Qed.

Lemma foldr_max_le top l : 0 <= top -> Forall (fun x => x <= top) l -> foldr Z.max 0 l <= top.
Proof. intros Ht. induction 1; cbn; lia. Qed.

Lemma bind_prim_ok p b : binder_ok b -> bound_ok b (bind_prim max_instances p b).
Proof.
  intros Hb b' s Hr. unfold bind_prim in Hr. case_match; [done|].
  apply res_bind_Ok in Hr as (n & Hn & Hr). apply res_bind_Ok in Hr as ([al outs] & Ha & [= <- <-]). cbn [fst snd].
  destruct (alloc_outs_spec _ _ _ _ Ha (bo_alloc _ Hb)) as (H1 & H2 & H3 & H4 & H5).
  unfold u32_add in Hn. destruct (Z.ltb_spec (bd_prim_counts b p + 1) (2 ^ 32)); [|done]. injection Hn as <-.
  pose proof (bo_counts _ Hb p). split; [|split; [|split; [|done]]].
  - split; cbn; try done. intros q. case_bool_decide; [lia|apply Hb].
  - split; try done. intros id inst outs' [= <- <- <-]. split; [unfold u_range; lia|done].
  - intros e He. destruct outs as [|o outs]; [done|]. injection He as <-. cbn [set_bd_alloc bd_alloc].
    apply (foldr_max_le _ (map (fun o : bytes * Z * IrType => o.1.2 + elem_size o.2) (o :: outs))); [apply H1|].
    change (Forall (between (bd_alloc b) al) (map (fun o : bytes * Z * IrType => (SgData, o.1.2, elem_size o.2)) (o :: outs))) in H3.
    rewrite Forall_map in H3. apply Forall_map. eapply Forall_impl; [exact H3|]. by intros x [_ Hx].
Qed.

Lemma binds_slots b i o :
  binder_ok b -> bd_input_slots b <= i -> bd_output_slots b <= o -> binds b (set_bd_slots i o b).
Proof. intros [] Hi Ho. by split. Qed.

Lemma binds_tag b b' t : binds b b' -> binds b (add_tag t b').
Proof. by intros []. Qed.

Lemma slot_storage b s :
  (exists slot ty, s = StInput slot ty /\ 0 <= slot < bd_input_slots b) \/
  (exists slot ty, s = StOutput slot ty /\ 0 <= slot < bd_output_slots b) -> storage_ok b s.
Proof.
  intros [(slot & ty & -> & Hs)|(slot & ty & -> & Hs)]; split; try apply pairwise_nil; try done;
    intros slot' ty' [= <- <-]; done.
Qed.

Lemma bind_at_ok name a ty b :
  binder_ok b -> 0 <= da_index a -> td_nonneg ty -> bound_ok b (bind_at ∅ name a ty b).
Proof.
  intros Hb Hi Ht. unfold bind_at. pose proof (bo_slots _ Hb).
  destruct (da_plane a); [| |by apply bind_data_ok|]; intros b' s Hr;
    apply res_bind_Ok in Hr as (ir & _ & Hr).
  - apply res_bind_Ok in Hr as (n & Hn & [= <- <-]).
    unfold u32_add in Hn. destruct (_ <? _); [|done]. injection Hn as <-. split; [|split; [|by split; [|constructor]]].
    + case_match; [|apply binds_tag]; (apply binds_slots; [done|lia..]).
    + apply slot_storage. left. do 2 eexists. split; [done|]. case_match; cbn; lia.
  - apply res_bind_Ok in Hr as (n & Hn & [= <- <-]).
    unfold u32_add in Hn. destruct (_ <? _); [|done]. injection Hn as <-. split; [|split; [|by split; [|constructor]]].
    + case_match; [|apply binds_tag]; (apply binds_slots; [done|lia..]).
    + apply slot_storage. right. do 2 eexists. split; [done|]. case_match; cbn; lia.
  - apply res_bind_Ok in Hr as ([b1 off] & Hbr & Hr). destruct (bind_retain_ok _ _ _ _ _ Hb Hbr) as [H1 H2].
    injection Hr as <- <-. split; [case_match; [done|by apply binds_tag]|].
    case_match; by apply (elem_storage _ _ _ off SgRetain ir).
Qed.

Lemma bind_storage_ok kind v b :
  binder_ok b -> var_ok v = true -> bound_ok b (bind_storage ∅ max_instances kind v b).
Proof.
  intros Hb [Ha Ht]%andb_prop b' s Hr. unfold bind_storage in Hr. apply res_bind_Ok in Hr as (ty & Hty & Hr).
  pose proof (resolve_nonneg _ _ Ht Hty) as Hn.
  destruct (vd_at v) as [a|]; [apply Z.leb_le in Ha; by eapply bind_at_ok|].
  case_bool_decide; [|case_bool_decide].
  - apply res_bind_Ok in Hr as (ir & _ & Hr). repeat (case_match; try done). injection Hr as <- <-.
    split; [by apply binds_refl|]. split; [by apply plain_storage|]. by split; [|constructor].
  - apply res_bind_Ok in Hr as (ir & _ & Hr). apply res_bind_Ok in Hr as ([b1 off] & Hbr & [= <- <-]).
    destruct (bind_retain_ok _ _ _ _ _ Hb Hbr) as [H1 H2]. split; [done|].
    by apply (elem_storage _ _ _ off SgRetain ir).
  - destruct ty as [t|? ?|p|fb]; [by eapply bind_data_ok|by eapply bind_data_ok|by eapply bind_prim_ok|].
    unfold bind_user_inst in Hr. by rewrite lookup_empty in Hr.
Qed.

Lemma bind_var_ok kind v b b' : binder_ok b -> var_ok v = true -> bind_var ∅ max_instances kind v b = Ok b' -> binder_ok b'.
Proof.
  intros Hb Hv Hr. unfold bind_var in Hr. case_bool_decide as Hk.
  - case_match; [by injection Hr as <-|done].
  - apply res_bind_Ok in Hr as ([b1 s] & Hs & [= <-]).
    destruct (bind_storage_ok kind v b Hb Hv _ _ Hs) as (H1 & H2 & H3 & H4). by eapply binder_insert.
Qed.

Lemma bind_vars_ok kind vs : forall b b',
  binder_ok b -> forallb var_ok vs = true -> bind_vars ∅ max_instances kind vs b = Ok b' -> binder_ok b'.
Proof.
  induction vs as [|v vs IH]; intros b b' Hb Hvs Hr; cbn in *; [by injection Hr as <-|].
  apply andb_prop in Hvs as [Hv Hvs]. apply res_bind_Ok in Hr as (b1 & H1 & H2).
  eapply IH; [|done|exact H2]. by eapply bind_var_ok.
Qed.

Lemma bind_sections_ok g ss : forall b b', binder_ok b -> forallb (fun s => forallb var_ok (vs_vars s)) ss = true ->
  bind_var_sections ∅ max_instances g ss b = Ok b' -> binder_ok b'.
Proof.
  induction ss as [|s ss IH]; intros b b' Hb Hss Hr; cbn in *; [by injection Hr as <-|].
  apply andb_prop in Hss as [Hs Hss]. case_match; [done|]. apply res_bind_Ok in Hr as (b1 & H1 & H2).
  eapply IH; [|done|exact H2]. by eapply bind_vars_ok.
Qed.

Lemma bind_programs_ok ps : forall b b', binder_ok b -> forallb (fun p => program_ok p.2) ps = true ->
  bind_programs ∅ max_instances ps b = Ok b' -> binder_ok b'.
Proof.
  induction ps as [|p ps IH]; intros b b' Hb Hps Hr; cbn in *; [by injection Hr as <-|].
  apply andb_prop in Hps as [Hp Hps]. apply res_bind_Ok in Hr as (b1 & H1 & H2).
  eapply IH; [|done|exact H2]. by eapply bind_sections_ok.
Qed.
End Bind.

Lemma binder_new_ok : binder_ok binder_new.
Proof. split; cbn; try done. Qed.

Lemma bind_tags_ok tags : forall b b', binder_ok b -> bd_globals b = ∅ -> forallb tag_ok tags = true ->
  bind_tags tags b = Ok b' -> binder_ok b' /\ bd_globals b' = ∅.
Proof.
  induction tags as [|t tags IH]; intros b b' Hb Hg Ht Hr; cbn in *; [by injection Hr as <-|].
  apply andb_prop in Ht as [Ht Hts]. apply res_bind_Ok in Hr as (b1 & H1 & H2).
  apply (IH b1 b'); try done; unfold bind_tag in H1; apply res_bind_Ok in H1 as (ty & _ & H1);
    apply res_bind_Ok in H1 as (kind & _ & H1); destruct kind;
    repeat (apply res_bind_Ok in H1 as (? & _ & H1)); injection H1 as <-; try done;
    destruct Hb as [? ? [? ?] ? ?]; (split; cbn; [done|done|lia|by rewrite Hg|by rewrite Hg]).
Qed.

(** ** Instances *)

(** Every primitive variable has an instance of its own. *)
Record inst_ok (b : Binder) : Prop := {
  io_counted k id inst outs : bd_globals b !! k = Some (StPrim id inst outs) -> inst < bd_prim_counts b id;
  io_own k k' id inst outs outs' : bd_globals b !! k = Some (StPrim id inst outs) ->
    bd_globals b !! k' = Some (StPrim id inst outs') -> k = k' }.

(** What binding a variable does to the counts of the instances. *)
Record counts (b b' : Binder) (s : Storage) : Prop := {
  ct_globals : bd_globals b' = bd_globals b;
  ct_grow p : bd_prim_counts b p <= bd_prim_counts b' p;
  ct_new id inst outs : s = StPrim id inst outs -> inst = bd_prim_counts b id /\ inst < bd_prim_counts b' id }.

Lemma same_counts b b' s :
  bd_globals b' = bd_globals b -> (forall p, bd_prim_counts b' p = bd_prim_counts b p) ->
  (match s with StPrim _ _ _ => False | _ => True end) -> counts b b' s.
Proof. intros Hg Hc Hs. split; [done|intros p; rewrite Hc; lia|by intros id inst outs ->]. Qed.

Section Counts.
Context (fbs : FbLayouts) (max_instances : Z).

Lemma bind_storage_counts kind v b b' s : bind_storage fbs max_instances kind v b = Ok (b', s) -> counts b b' s.
Proof.
  unfold bind_storage. intros Hr. apply res_bind_Ok in Hr as (ty & _ & Hr).
  assert (Hdata : forall b s, bind_data fbs ty b = Ok (b', s) -> counts b b' s).
  { intros b0 s0 Hd. unfold bind_data in Hd. apply res_bind_Ok in Hd as (? & _ & Hd).
    apply res_bind_Ok in Hd as ([? ?] & _ & [= <- <-]). by apply same_counts. }
  destruct (vd_at v) as [a|].
  { unfold bind_at in Hr. destruct (da_plane a); [| |by apply Hdata|]; apply res_bind_Ok in Hr as (ir & _ & Hr);
      apply res_bind_Ok in Hr as (x & Hx & Hr).
    1,2: injection Hr as <- <-; by case_match; apply same_counts.
    destruct x as [b1 o]. unfold bind_retain in Hx. apply res_bind_Ok in Hx as (? & _ & [= <- <-]).
    injection Hr as <- <-. by case_match; apply same_counts. }
  case_bool_decide; [|case_bool_decide].
  - apply res_bind_Ok in Hr as (ir & _ & Hr). repeat (case_match; try done). injection Hr as <- <-. by apply same_counts.
  - apply res_bind_Ok in Hr as (ir & _ & Hr). apply res_bind_Ok in Hr as (x & Hx & [= <- <-]).
    unfold bind_retain in Hx. apply res_bind_Ok in Hx as (? & _ & [= <-]). by apply same_counts.
  - destruct ty as [t|? ?|p|fb]; [by apply Hdata|by apply Hdata| |].
    + unfold bind_prim in Hr. case_match; [done|]. apply res_bind_Ok in Hr as (n & Hn & Hr).
      apply res_bind_Ok in Hr as (? & _ & [= <- <-]). unfold u32_add in Hn. destruct (_ <? _); [|done]. injection Hn as <-.
      split; [done|..]; cbn.
      * intros q. case_bool_decide; subst; lia.
      * intros id inst outs [= <- <- _]. rewrite bool_decide_eq_true_2 by done. lia.
    + unfold bind_user_inst in Hr. apply res_bind_Ok in Hr as (? & _ & Hr). apply res_bind_Ok in Hr as (? & _ & [= <- <-]).
      by apply same_counts.
Qed.

Lemma inst_insert b b' k s :
  inst_ok b -> counts b b' s -> bd_globals b !! k = None -> inst_ok (set_bd_globals (<[k := s]> (bd_globals b')) b').
Proof.
  intros [Hc Ho] [Hg Hm Hn] Hk. split; cbn [set_bd_globals bd_globals bd_prim_counts].
  - intros k1 id inst outs. rewrite Hg. destruct (decide (k = k1)) as [<-|Hne].
    + rewrite lookup_insert_eq. intros [= ->]. by eapply Hn.
    + rewrite lookup_insert_ne by done. intros Hl. specialize (Hc _ _ _ _ Hl). specialize (Hm id). lia.
  - assert (Hfresh : forall k' id inst outs outs', bd_globals b !! k' = Some (StPrim id inst outs) -> s <> StPrim id inst outs').
    { intros k' id inst outs outs' Hl Hs. specialize (Hc _ _ _ _ Hl). destruct (Hn _ _ _ Hs). lia. }
    intros k1 k2 id inst outs outs'. rewrite Hg.
    destruct (decide (k = k1)) as [<-|N1], (decide (k = k2)) as [<-|N2]; [done|..].
    + rewrite lookup_insert_eq, lookup_insert_ne by done. intros [= ->] Hl. by destruct (Hfresh _ _ _ _ outs Hl).
    + rewrite lookup_insert_eq, lookup_insert_ne by done. intros Hl [= ->]. by destruct (Hfresh _ _ _ _ outs' Hl).
    + rewrite !lookup_insert_ne by done. apply Ho.
Qed.

Lemma bind_var_inst kind v b b' : inst_ok b -> bind_var fbs max_instances kind v b = Ok b' -> inst_ok b'.
Proof.
  intros Hb Hr. unfold bind_var in Hr. case_bool_decide as Hk.
  - case_match; [by injection Hr as <-|done].
  - apply res_bind_Ok in Hr as ([b1 s] & Hs & [= <-]). apply bind_storage_counts in Hs. eapply inst_insert; [exact Hb|exact Hs|].
    exact Hk.
Qed.

Lemma bind_vars_inst kind vs : forall b b', inst_ok b -> bind_vars fbs max_instances kind vs b = Ok b' -> inst_ok b'.
Proof.
  induction vs as [|v vs IH]; intros b b' Hb Hr; cbn in Hr; [by injection Hr as <-|].
  apply res_bind_Ok in Hr as (b1 & Hv & Hr). eapply IH; [|exact Hr]. by eapply bind_var_inst.
Qed.

Lemma bind_sections_inst g ss : forall b b',
  inst_ok b -> bind_var_sections fbs max_instances g ss b = Ok b' -> inst_ok b'.
Proof.
  induction ss as [|s ss IH]; intros b b' Hb Hr; cbn in Hr; [by injection Hr as <-|].
  case_match; [done|]. apply res_bind_Ok in Hr as (b1 & Hv & Hr). eapply IH; [|exact Hr]. by eapply bind_vars_inst.
Qed.

Lemma bind_programs_inst ps : forall b b', inst_ok b -> bind_programs fbs max_instances ps b = Ok b' -> inst_ok b'.
Proof.
  induction ps as [|p ps IH]; intros b b' Hb Hr; cbn in Hr; [by injection Hr as <-|].
  apply res_bind_Ok in Hr as (b1 & Hv & Hr). eapply IH; [|exact Hr]. by eapply bind_sections_inst.
Qed.
End Counts.

Lemma no_globals_inst b : bd_globals b = ∅ -> inst_ok b.
Proof. intros Hg. split; intros *; by rewrite Hg, lookup_empty. Qed.
