(* ===== verification/CompTasks.v ===== *)
(** * The compiler: the tasks of a project

    The states the code generator passes through while it emits the tasks of a project
    without function blocks, and the code of a task within the finished module. *)
From S2P Require Import Prelude Text IrTypes IrEncode FbDispatch VmValue PkgManifest.
From S2P Require Import CompAst CompLayout CompBind CompGen CompUnit CompSem CompAsm CompRun CompSpec CompPlaces.
From S2P Require Import Float32 VmMemory VmExec CompExpr CompStore CompStmt.

(** ** Places of the globals *)

Lemma find_index {A} (p : A -> bool) l x : List.find p l = Some x -> exists i, l !! i = Some x /\ p x = true.
Proof.
  intros Hf. apply find_some in Hf as [Hin Hp]. apply list_elem_of_In, list_elem_of_lookup in Hin as [i Hi]. by exists i.
Qed.

Lemma foldr_max_ge x l : x ∈ l -> x <= foldr Z.max 0 l.
Proof. induction 1; cbn; lia. Qed.

Lemma storage_place_in s p : storage_place s = Some p -> p ∈ storage_places s.
Proof. intros Hp. destruct s as [| |? []| | | |]; try done; injection Hp as <-; by left. Qed.

Lemma out_place_in s f p : out_place s f = Some p -> exists id inst outs i o,
  s = StPrim id inst outs /\ outs !! i = Some o /\ p = (SgData, o.1.2, elem_size o.2) /\ to_ascii_lowercase o.1.1 = f.
Proof.
  intros Hp. destruct s as [| |? ?| |id inst outs| |]; try done. cbn in Hp.
  apply fmap_Some in Hp as (o & Ho & ->). apply find_index in Ho as (i & Hi & Hf%bool_decide_eq_true).
  by exists id, inst, outs, i, o.
Qed.

Lemma out_places_lookup outs i (o : bytes * Z * IrType) :
  outs !! i = Some o -> out_places outs !! i = Some (SgData, o.1.2, elem_size o.2).
Proof. intros Hi. unfold out_places. change (map ?f outs) with (f <$> outs). by rewrite list_lookup_fmap, Hi. Qed.

Lemma data_end_place s o w : (SgData, o, w) ∈ storage_places s -> exists e, data_end ∅ s = Some e /\ o + w <= e.
Proof.
  intros Hin. destruct s as [| |off []|off ty|id inst outs| |]; cbn in Hin;
    try (by apply elem_of_nil in Hin); try (apply list_elem_of_singleton in Hin; first [discriminate Hin|injection Hin as -> ->]).
  - eexists. split; [done|]. cbn. lia.
  - apply list_elem_of_fmap in Hin as (x & [= -> ->] & Hx). destruct outs as [|y outs]; [by apply elem_of_nil in Hx|].
    eexists. split; [done|]. apply foldr_max_ge.
    apply list_elem_of_In, (in_map (fun o : bytes * Z * IrType => o.1.2 + elem_size o.2)). by apply list_elem_of_In.
Qed.

Section Start.
Context (b : Binder) (g : Codegen).
Hypothesis Hb : binder_ok b.
Hypothesis (Hglobals : cg_globals g = bd_globals b) (Hlocals : cg_locals g = ∅) (Hfbs : cg_fb_layouts g = ∅).

Lemma sym_global k : sym g k = bd_globals b !! k.
Proof. unfold sym. by rewrite Hlocals, lookup_empty, Hglobals. Qed.

(** The place of a variable, and whose it is. *)
Lemma place_owner c p : named c -> place g c = Some p -> exists k s,
  bd_globals b !! k = Some s /\ p ∈ storage_places s /\
  match c with CVar k' => k' = k /\ storage_place s = Some p | COut k' f => k' = k /\ out_place s f = Some p | _ => False end.
Proof.
  intros Hc Hp. destruct c as [k|k f|]; [| |done]; cbn in Hp; rewrite sym_global in Hp;
    apply bind_Some in Hp as (s & Hs & Hp); exists k, s; (split; [done|]).
  - split; [by apply storage_place_in|done].
  - split; [|done]. apply out_place_in in Hp as (id & inst & outs & i & o & -> & Hi & -> & _).
    by eapply list_elem_of_lookup_2, out_places_lookup.
Qed.

Lemma globals_end_ge k s e : bd_globals b !! k = Some s -> data_end ∅ s = Some e -> e <= globals_end g.
Proof.
  intros Hs He. unfold globals_end. rewrite Hfbs, Hglobals. apply foldr_max_ge. apply list_elem_of_omap.
  exists s. split; [|done]. apply list_elem_of_fmap. exists (k, s). split; [done|]. by apply elem_of_map_to_list.
Qed.

Lemma globals_end_le : globals_end g <= al_data (bd_alloc b).
Proof.
  unfold globals_end. rewrite Hfbs, Hglobals. apply foldr_max_le; [apply Hb|]. apply Forall_forall.
  intros x Hx. apply list_elem_of_omap in Hx as (s & Hs & He). apply list_elem_of_fmap in Hs as ([k s'] & -> & Hk).
  apply elem_of_map_to_list in Hk. by apply (bo_storage _ Hb k s').
Qed.

Lemma start_layout R : al_retain (bd_alloc b) <= R -> layout_ok (place g) (wm g) R.
Proof.
  intros HR. split; [| |done].
  - intros c c' p p' Hc Hc' Hne Hp Hp'. destruct (place_owner c p Hc Hp) as (k & s & Hs & Hin & Ho).
    destruct (place_owner c' p' Hc' Hp') as (k' & s' & Hs' & Hin' & Ho').
    destruct (decide (k = k')) as [<-|Hk]; [|by eapply (bo_apart _ Hb k k' s s')].
    rewrite Hs in Hs'. injection Hs' as <-.
    destruct c as [k1|k1 f1|], c' as [k2|k2 f2|]; try done; destruct Ho as [-> Ho], Ho' as [-> Ho']; [done| | |].
    + apply out_place_in in Ho' as (? & ? & ? & ? & ? & -> & _). done.
    + apply out_place_in in Ho as (? & ? & ? & ? & ? & -> & _). done.
    + apply out_place_in in Ho as (id & inst & outs & i & o & -> & Hi & -> & Hf).
      apply out_place_in in Ho' as (id' & inst' & outs' & i' & o' & [= <- <- <-] & Hi' & -> & Hf').
      destruct (bo_storage _ Hb _ _ Hs) as ([Hpw _ _ _] & _).
      apply (Hpw i i'); [by apply out_places_lookup..|]. intros ->. rewrite Hi in Hi'. injection Hi' as <-. congruence.
  - intros c sg off w Hc Hp. destruct (place_owner c _ Hc Hp) as (k & s & Hs & Hin & _).
    destruct (bo_storage _ Hb _ _ Hs) as (_ & _ & Hf). rewrite Forall_forall in Hf. specialize (Hf _ Hin).
    unfold between in Hf. cbn in Hf. destruct sg; [|lia]. split; [lia|].
    apply data_end_place in Hin as (e & He & Hle). pose proof (globals_end_ge _ _ _ Hs He). unfold wm. lia.
Qed.

Lemma start_good T :
  t_vars T = erase <$> bd_globals b -> t_globals T = bd_globals b -> al_retain (bd_alloc b) <= t_retain_size T ->
  bd_input_slots b <= 2 ^ 24 -> bd_output_slots b <= 2 ^ 24 ->
  (forall l pc, cg_labels g !! l = Some pc -> l.2 < cg_label_id g) -> cg_data_cursor g <= cg_extra_data g -> good T g.
Proof.
  intros Hv Hg HR Hi Ho Hl Hc. split; try done.
  - by rewrite Hglobals.
  - intros k. by rewrite Hv, lookup_fmap, Hg.
  - by apply start_layout.
  - rewrite Hlocals. intros k s. by rewrite lookup_empty.
  - intros k slot ty. rewrite sym_global. intros Hs. destruct (bo_storage _ Hb _ _ Hs) as [Hst _].
    pose proof (so_input _ _ Hst _ _ eq_refl). unfold u_range. lia.
  - intros k slot ty. rewrite sym_global. intros Hs. destruct (bo_storage _ Hb _ _ Hs) as [Hst _].
    pose proof (so_output _ _ Hst _ _ eq_refl). unfold u_range. lia.
  - intros k id inst outs. rewrite sym_global. intros Hs. destruct (bo_storage _ Hb _ _ Hs) as [Hst _].
    by apply (so_prim _ _ Hst).
Qed.
End Start.

(** ** One task after the other *)

(** [g'] is [g] with more code. *)
Record emits (g g' : Codegen) (d : list AInstr) : Prop := {
  em_code : cg_code g' = cg_code g ++ assemble d;
  em_fixups : cg_fixups g' = cg_fixups g ++ fixups_of (pc_of g) d;
  em_labels l pc : cg_labels g !! l = Some pc -> cg_labels g' !! l = Some pc;
  em_wm : wm g <= wm g' }.

Lemma emits_refl g : emits g g [].
Proof. split; cbn; rewrite ?app_nil_r; done || lia. Qed.

Lemma em_pc g g' d : emits g g' d -> pc_of g' = pc_of g + size_of d.
Proof. intros [C _ _ _]. unfold pc_of, size_of. by rewrite C, len_app. Qed.

Lemma ext_emits T k g g' d : ext T k g g' d -> emits g g' d.
Proof. intros []. split; try done. apply x_grows. Qed.

Lemma emits_trans g g1 g2 d d' : emits g g1 d -> emits g1 g2 d' -> emits g g2 (d ++ d').
Proof.
  intros [C1 F1 L1 E1] [C2 F2 L2 E2].
  assert (Hpc : pc_of g1 = pc_of g + size_of d) by (unfold pc_of, size_of; by rewrite C1, len_app).
  split; [| |auto|lia].
  - rewrite C2, C1, <-app_assoc. unfold assemble. by rewrite flat_map_app.
  - by rewrite F2, F1, <-app_assoc, fixups_app, Hpc.
Qed.

Section Tasks.
Context `{!HashOrder, !HashOrderLaws} (b : Binder) (R : Z).
Hypothesis Hb : binder_ok b.
Hypothesis (HR : al_retain (bd_alloc b) <= R <= 2 ^ 24).
Hypothesis (Hin : bd_input_slots b <= 2 ^ 24) (Hout : bd_output_slots b <= 2 ^ 24).

(** Between two tasks. *)
Record idle (g : Codegen) : Prop := {
  id_globals : cg_globals g = bd_globals b;
  id_locals : cg_locals g = ∅;
  id_fbs : cg_fb_layouts g = ∅;
  id_labels l pc : cg_labels g !! l = Some pc -> l.2 < cg_label_id g;
  id_cursor : cg_data_cursor g <= cg_extra_data g }.

(** Targets for the variables of [b]. *)
Record fits_target (T : Target) : Prop := {
  ft_vars : t_vars T = erase <$> bd_globals b;
  ft_globals : t_globals T = bd_globals b;
  ft_retain : t_retain_size T = R }.

Lemma idle_good T g : fits_target T -> idle g -> good T g.
Proof. intros [] []. by apply (start_good b); try done; lia. Qed.

Definition tmp_place (c : Cell) : option Place := match c with CTmp off w => Some (SgData, off, w) | _ => None end.

(** A target that says nothing of the final code. *)
Definition no_target : Target := mkTarget tmp_place (erase <$> bd_globals b) (bd_globals b) [] ∅ 0 R.

Lemma no_target_fits : fits_target no_target.
Proof. done. Qed.

Lemma no_target_layout : layout_ok (t_place no_target) (t_data_size no_target) (t_retain_size no_target).
Proof. split; [| |done]; intros c; by destruct c. Qed.

(** What a body emits. *)
Lemma body_emits `{NanRule} g g' ss :
  idle g -> emit_stmts ss g = (g', Ok tt) -> exists d, ext no_target (cg_label_id g) g g' d.
Proof.
  intros Hg Hm.
  destruct (body_specs no_target 0 (mkSlots [] [] []) ltac:(done) ltac:(by cbn) ltac:(cbn; lia) no_target_layout ss g g'
    (idle_good _ _ no_target_fits Hg) Hm) as (d & Hx & _). by exists d.
Qed.

Definition entry_of (t : TaskMap) (g : Codegen) : EntryPoint :=
  {| e_name := task_entry_name (tm_name t); e_pc := here g; e_is_user_fb := false |}.

(** The states within a task: before and after the body, and after HALT. *)
Record task_states (programs : list (bytes * Program)) (t : TaskMap) (prog : Program) (g g1 g2 g3 g' : Codegen) : Prop := {
  tk_prog : bt_get (to_ascii_lowercase (tm_program t)) programs = Some prog;
  tk_start : g1 = set_cg_locals ∅ (set_cg_entries (cg_entries g ++ [entry_of t g]) g);
  tk_body : emit_stmts (pr_body prog) g1 = (g2, Ok tt);
  tk_halt : emit_simple Halt 0 g2 = (g3, Ok tt);
  tk_end : g' = set_cg_locals ∅ g3 }.

Lemma emit_task_states programs t g g' :
  emit_task programs t g = (g', Ok tt) -> exists prog g1 g2 g3, task_states programs t prog g g1 g2 g3 g'.
Proof.
  intros Hm. unfold emit_task in Hm. apply M_bind_Ok in Hm as (prog & g0 & [-> Hp]%lift_Ok & Hm).
  apply M_bind_Ok in Hm as ([] & g0 & [= <-] & Hm). unfold with_locals in Hm.
  destruct ((emit_stmts (pr_body prog) ;; emit_simple Halt 0) _) as [g3 r] eqn:E. injection Hm as <- ->.
  apply M_bind_Ok in E as ([] & g2 & E1 & E2). destruct (bt_get _ programs) as [p|] eqn:Eb; [|done]. injection Hp as ->.
  eexists prog, _, g2, g3. by split.
Qed.

Section Task.
Context `{NanRule} (programs : list (bytes * Program)) (t : TaskMap) (prog : Program) (g g1 g2 g3 g' : Codegen).
Hypothesis (Hidle : idle g) (Ht : task_states programs t prog g g1 g2 g3 g').

Lemma task_idle1 : idle g1.
Proof. destruct Hidle, Ht as [_ -> _ _ _]. by split. Qed.

Lemma task_emits : idle g' /\ cg_entries g' = cg_entries g ++ [entry_of t g] /\ exists d,
  emits g g1 [] /\ emits g1 g2 d /\ emits g2 g' [Plain (Simple Halt 0)].
Proof.
  pose proof task_idle1 as Hi1. destruct Ht as [_ E1 E2 E3 ->].
  destruct (body_emits g1 g2 _ Hi1 E2) as [d Hx]. injection E3 as <-.
  destruct Hx as [X1 X2 X3 X4 X5 X6 X7 X8 X9]. pose proof X8 as [].
  split; [|split].
  - split; cbn; try done. by rewrite X7, (id_fbs _ Hi1).
  - cbn. by rewrite X6, E1.
  - exists d. split; [|split].
    + subst g1. split; cbn; rewrite ?app_nil_r; done || (unfold wm; cbn; lia).
    + split; [done|done|done|]. apply X9.
    + split; cbn; rewrite ?app_nil_r; done || (unfold wm; cbn; lia).
Qed.
End Task.
Section List.
Context `{NanRule} (programs : list (bytes * Program)).

Lemma tasks_emit ts : forall g g', idle g -> m_each ts (emit_task programs) g = (g', Ok tt) ->
  idle g' /\ (exists d, emits g g' d) /\ exists es, cg_entries g' = cg_entries g ++ es /\
    map e_name es = map (fun t => task_entry_name (tm_name t)) ts /\
    Forall (fun e => e_is_user_fb e = false /\ u_range 32 (e_pc e)) es.
Proof.
  induction ts as [|t ts IH]; intros g g' Hg Hm; cbn [m_each] in Hm.
  - injection Hm as <-. split; [done|]. split; [eexists; apply emits_refl|]. exists []. by rewrite app_nil_r.
  - apply M_bind_Ok in Hm as ([] & ga & M1 & M2).
    destruct (emit_task_states _ _ _ _ M1) as (prog & g1 & g2 & g3 & Hst).
    destruct (task_emits _ _ _ _ _ _ _ _ Hg Hst) as (Ha & He & d & D1 & D2 & D3).
    destruct (IH _ _ Ha M2) as (Hg' & [d' D4] & es & He' & Hn & Hes).
    split; [done|]. split.
    { eexists. eapply emits_trans; [exact D1|]. eapply emits_trans; [exact D2|]. by eapply emits_trans. }
    exists (entry_of t g :: es). split; [by rewrite He', He, <-app_assoc|]. split; [cbn; by rewrite Hn|].
    constructor; [|done]. split; [done|]. cbn. unfold here. apply wrap_u_range. lia.
Qed.

Lemma m_each_app {S E A} (l1 l2 : list A) (f : A -> M S E unit) s s' :
  m_each (l1 ++ l2) f s = (s', Ok tt) -> exists s1, m_each l1 f s = (s1, Ok tt) /\ m_each l2 f s1 = (s', Ok tt).
Proof.
  revert s. induction l1 as [|x l1 IH]; intros s Hm; cbn [m_each app] in *; [by exists s|].
  apply M_bind_Ok in Hm as ([] & s1 & M1 & M2). destruct (IH _ M2) as (s2 & N1 & N2).
  exists s2. split; [|done]. apply M_bind_Ok. eauto.
Qed.
End List.

Lemma link_size labels d : len (link labels d) = size_of d.
Proof.
  induction d as [|a d IH]; [done|]. rewrite size_cons, <-(isize_resolved labels), <-IH. cbn [link flat_map].
  unfold isize. by rewrite len_app.
Qed.

(** ** The finished module *)

Section Finished.
Context `{NanRule} (programs : list (bytes * Program)) (pre post : list TaskMap) (t : TaskMap) (g0 ge : Codegen).
Context (code : bytes) (D : Z).
Hypothesis (Hg0 : idle g0) (Hcode0 : cg_code g0 = []) (Hfix0 : cg_fixups g0 = []).
Hypothesis Hrun : m_each (pre ++ t :: post) (emit_task programs) g0 = (ge, Ok tt).
Hypothesis Hpatch : patch_all (cg_labels ge) (cg_fixups ge) (cg_code ge) = Ok code.
Hypothesis (HD : wm ge <= D <= 2 ^ 24) (Hlen : len code < 2 ^ 24).

(** The code of the task does what its body means and then halts. *)
Lemma task_in_code : exists prog e g2,
  bt_get (to_ascii_lowercase (tm_program t)) programs = Some prog /\
  cg_entries ge !! (length (cg_entries g0) + length pre)%nat = Some e /\ e_name e = task_entry_name (tm_name t) /\
  (forall c, named c -> is_Some (place g0 c) -> place g2 c = place g0 c) /\
  let T := mkTarget (place g2) (erase <$> bd_globals b) (bd_globals b) code (cg_labels ge) D R in
  layout_ok (place g2) D R /\
  forall now inputs, u_range 64 now -> exists pc2,
    instr_at code pc2 (Simple Halt 0) /\ 0 <= e_pc e /\ 0 <= pc2 /\
    forall st s, at_t T inputs ∅ st [] s ->
    runs T now inputs (exec_all now inputs (erase <$> bd_globals b) (pr_body prog) st) (e_pc e) s
      (fun _ st' pc' s' => pc' = pc2 /\ at_t T inputs ∅ st' [] s').
Proof.
  apply m_each_app in Hrun as (g & Hpre & Hrest). cbn [m_each] in Hrest.
  apply M_bind_Ok in Hrest as ([] & g' & Ht & Hpost).
  destruct (tasks_emit programs pre _ _ Hg0 Hpre) as (Hg & [dpre Dpre] & es & He & Hn & _).
  destruct (emit_task_states _ _ _ _ Ht) as (prog & g1 & g2 & g3 & Hst).
  destruct (task_emits _ _ _ _ _ _ _ _ Hg Hst) as (Hg' & He' & d' & D1 & _ & D3).
  destruct (tasks_emit programs post _ _ Hg' Hpost) as (Hge & [dpost Dpost] & es' & He'' & _ & _).
  pose proof (task_idle1 _ _ _ _ _ _ _ _ Hg Hst) as Hg1. pose proof Hst as [Hprog E1 E2 E3 E4].
  set (T := mkTarget (place g2) (erase <$> bd_globals b) (bd_globals b) code (cg_labels ge) D R).
  assert (HfT : fits_target T) by done.
  assert (Hwm : wm g2 <= D) by (pose proof (em_wm _ _ _ D3); pose proof (em_wm _ _ _ Dpost); lia).
  destruct (body_emits _ _ _ Hg1 E2) as [d0 Hx0]. clear D1 d'.
  assert (Hlay : layout_ok (place g2) D R).
  { eapply layout_ok_grow; [done|exact Hwm|]. apply (g_layout _ _ (x_good _ _ _ _ _ Hx0)). }
  assert (Hplace : forall c, named c -> is_Some (place g0 c) -> place g2 c = place g0 c).
  { intros c Hc [p Hp]. rewrite Hp. apply (gr_place _ _ (x_grows _ _ _ _ _ Hx0)); [done|].
    rewrite <-Hp. destruct c as [k|k f|]; [| |done]; cbn; unfold sym;
      by rewrite (id_locals _ Hg1), (id_locals _ Hg0), (id_globals _ Hg1), (id_globals _ Hg0). }
  exists prog, (entry_of t g), g2. split; [done|]. split.
  { rewrite He'', He', He, <-app_assoc. apply list_lookup_middle. rewrite length_app. f_equal.
    apply (f_equal length) in Hn. rewrite !length_map in Hn. by rewrite Hn. }
  split; [done|]. split; [done|]. split; [done|]. intros now inputs Hnow.
  assert (HDs : t_data_size T <= 2 ^ 24) by (cbn; lia). assert (HRs : t_retain_size T <= 2 ^ 24) by (cbn; lia).
  destruct (body_specs T now inputs Hnow HDs HRs Hlay (pr_body prog) g1 g2 (idle_good _ _ HfT Hg1) E2) as (d & Hx & HS).
  assert (D12 : emits g g1 []).
  { rewrite E1. split; cbn; rewrite ?app_nil_r; done || (unfold wm; cbn; lia). }
  pose proof (ext_emits _ _ _ _ _ Hx) as D2.
  assert (Dall : emits g0 ge ((dpre ++ []) ++ (d ++ ([Plain (Simple Halt 0)] ++ dpost)))).
  { eapply emits_trans; [by eapply emits_trans|]. eapply emits_trans; [exact D2|]. by eapply emits_trans. }
  pose proof (em_pc _ _ _ Dall) as Hpcall. destruct Dall as [Call Fall Lall _].
  assert (Hpc0 : pc_of g0 = 0) by (unfold pc_of; by rewrite Hcode0).
  rewrite Hcode0 in Call. rewrite Hfix0, Hpc0 in Fall. cbn [app] in Call, Fall. rewrite Call, Fall in Hpatch.
  pose proof (patch_all_link (cg_labels ge) _ [] code Hpatch) as Hlink. cbn [app] in Hlink.
  pose proof (patched_code_at _ _ _ Hpatch) as Hat.
  apply code_at_app in Hat as [_ Hat]. apply code_at_app in Hat as [Hbody Hhalt].
  pose proof (em_pc _ _ _ (emits_trans _ _ _ _ _ Dpre D12)) as Hpc1. rewrite Hpc0 in Hpc1.
  rewrite <-Hpc1 in Hbody, Hhalt. rewrite <-(em_pc _ _ _ D2) in Hhalt.
  assert (Hpcg : pc_of g1 = pc_of g) by (pose proof (em_pc _ _ _ D12) as Hp; by rewrite size_nil, Z.add_0_r in Hp).
  assert (Hpc2 : pc_of g2 < 2 ^ 24).
  { rewrite Hlink, link_size in Hlen. rewrite (em_pc _ _ _ D2), Hpc1. rewrite !size_app. rewrite !size_app, size_cons in Hlen.
    pose proof (asize_pos (Plain (Simple Halt 0))). pose proof (size_nonneg dpost). lia. }
  assert (Hpce : e_pc (entry_of t g) = pc_of g1).
  { cbn. unfold here. fold (pc_of g). rewrite <-Hpcg. pose proof (em_pc _ _ _ D2). pose proof (size_nonneg d).
    apply Z.mod_small. unfold pc_of, len in *. lia. }
  exists (pc_of g2). rewrite Hpce. split; [by apply Hhalt|]. split; [unfold pc_of, len; lia|]. split; [unfold pc_of, len; lia|].
  intros st s Hs. assert (Hfin : final T g2).
  { split; try done; [by left|]. intros l pc Hl. apply Dpost, D3, Hl. }
  eapply follows_weaken; [apply (HS Hfin Hbody ∅ [] st s); [|exact Hs]|done].
  intros c v Hv. by rewrite lookup_empty in Hv.
Qed.
End Finished.
End Tasks.
