(* ===== verification/CompCorrect.v ===== *)
(** * The compiler: correctness

    Compiled projects do what their programs mean: the machine loaded with the module
    represents the initial source state, and running the entry of a task does to the
    represented state what the reference semantics does. *)
From S2P Require Import Prelude AuthTypes AuthService Text Float32 IrTypes IrEncode IrVerify FbDispatch VmValue VmMemory VmExec VmInv VmLoad VmVerified.
From S2P Require Import PkgManifest CompAst CompLayout CompBind CompGen CompUnit CompSem CompAsm CompRun CompSpec CompPlaces.
From S2P Require Import CompExpr CompStore CompStmt CompTasks.

(** ** Runs *)

Section Runs.
Context `{NanRule} (now : Z).

Lemma leads_steps Q E pc s :
  leads now Q E pc s -> exists n pc1 s1, steps now n (pc, s) (pc1, s1) /\
    (Q pc1 s1 \/ exists s' r, ends now pc1 s1 s' r /\ E s' r).
Proof.
  induction 1 as [pc s HQ|pc s pc1 s1 Hst _ (n & pc2 & s2 & Hn & Hr)|pc s s' r He Hr].
  - exists 0%nat, pc, s. split; [constructor|by left].
  - exists (S n), pc2, s2. split; [by econstructor|done].
  - exists 0%nat, pc, s. split; [constructor|right; by eexists _, _].
Qed.

Lemma ends_no_step pc s s' r pc1 s1 : ends now pc s s' r -> step now pc s <> (s1, Ok (inl pc1)).
Proof. unfold ends. destruct r; intros ->; congruence. Qed.

Lemma ends_det pc s s1 r1 s2 r2 : ends now pc s s1 r1 -> ends now pc s s2 r2 -> s1 = s2 /\ r1 = r2.
Proof. unfold ends. destruct r1, r2; intros H1 H2; rewrite H1 in H2; by simplify_eq. Qed.

Lemma steps_det n n' c c1 pc2 s2 s3 r3 :
  steps now n c c1 -> steps now n' c (pc2, s2) -> ends now pc2 s2 s3 r3 -> (n <= n')%nat.
Proof.
  intros H1. revert n'. induction H1 as [c|n pc s pc1 s1 c Hst _ IH]; intros n' H2 He; [lia|].
  inversion H2 as [|n2 pc0 s0 pc1' s1' c' Hst' H2' E1 E2 E3]; subst.
  - exfalso. by eapply ends_no_step.
  - rewrite Hst in Hst'. injection Hst' as <- <-. specialize (IH _ H2' He). lia.
Qed.

Lemma steps_same n c c1 c2 : steps now n c c1 -> steps now n c c2 -> c1 = c2.
Proof.
  intros H1. revert c2. induction H1 as [c|n pc s pc1 s1 c Hst _ IH]; intros c2 H2; inversion H2; subst; [done|].
  simplify_eq. apply IH. congruence.
Qed.

(** A run that is led to an end gets there or runs out of budget. *)
Lemma run_reaches pc s n pc1 s1 s' r s2 r2 :
  u_range 64 now -> vm_ok s -> 0 <= pc ->
  steps now n (pc, fresh_run s) (pc1, s1) -> ends now pc1 s1 s' r -> run_at now pc s = Some (s2, r2) ->
  r2 = Err (EBudget (v_instruction_budget s)) \/ (s2 = s' /\ r2 = r).
Proof.
  intros Hnow Hs Hpc Hn He Hrun. destruct (run_at_spec now pc s Hnow Hs Hpc) as (s3 & r3 & k & pc3 & s4 & H1 & H2 & H3).
  rewrite Hrun in H1. injection H1 as <- <-. destruct H3 as [(_ & _ & ->)|[_ He']]; [by left|right].
  assert (n = k) as -> by (apply Nat.le_antisymm; eapply steps_det; eassumption).
  pose proof (steps_same _ _ _ _ Hn H2) as Heq. injection Heq as <- <-. by eapply ends_det.
Qed.

(** Where a run that leads to a HALT or an end gets. *)
Lemma run_leads Q E pc s s' r :
  u_range 64 now -> vm_ok s -> 0 <= pc -> leads now Q (stops E) pc (fresh_run s) -> run_at now pc s = Some (s', r) ->
  (forall pc1, r <> Err (EStackOverflow pc1)) -> (forall pc1 s1, Q pc1 s1 -> ends now pc1 s1 s1 (Ok Halted)) ->
  r = Err (EBudget (v_instruction_budget s)) \/ (r = Ok Halted /\ exists pc1, Q pc1 s') \/ E s' r.
Proof.
  intros Hnow Hs Hpc Hl Hrun Hover Hhalt. apply leads_steps in Hl as (n & pc1 & s1 & Hn & [HQ|(s2 & r2 & He & [[pc2 ->]|HE])]).
  - destruct (run_reaches _ _ _ _ _ _ _ _ _ Hnow Hs Hpc Hn (Hhalt _ _ HQ) Hrun) as [?|[-> ->]]; [by left|].
    right; left. eauto.
  - destruct (run_reaches _ _ _ _ _ _ _ _ _ Hnow Hs Hpc Hn He Hrun) as [?|[-> ->]]; [by left|]. by destruct (Hover pc2).
  - destruct (run_reaches _ _ _ _ _ _ _ _ _ Hnow Hs Hpc Hn He Hrun) as [?|[-> ->]]; [by left|]. by right; right.
Qed.
End Runs.

(** ** The initial state of a project *)

Definition var_cells (k : bytes) (v : SrcVar) : list Cell :=
  match v with
  | SvVar _ | SvRetain _ => [CVar k]
  | SvPrim id _ => map (fun o => COut k (to_ascii_lowercase o.1)) (prim_out_types id)
  | _ => []
  end.

(** What the declarations [vars] make cells of. *)
Definition declared_cells (vars : gmap bytes SrcVar) : gset Cell :=
  list_to_set (flat_map (fun e => var_cells e.1 e.2) (map_to_list vars)).

(** The variables that are declared with an initial value. *)
Definition with_initial (programs : list (bytes * Program)) : gset bytes :=
  list_to_set (flat_map (fun p => flat_map (fun sec => omap (fun v =>
    match vd_init v with Some _ => Some (to_ascii_lowercase (vd_name v)) | None => None end) (vs_vars sec))
    (pr_vars p.2)) programs).

Definition bool_cells (inits : gset bytes) (k : bytes) (v : SrcVar) : list Cell :=
  match v with
  | SvVar TBool | SvRetain TBool => if bool_decide (k ∈ inits) then [] else [CVar k]
  | SvPrim id _ => omap (fun o => match o.2 with TBool => Some (COut k (to_ascii_lowercase o.1)) | _ => None end)
      (prim_out_types id)
  | _ => []
  end.

(** A BOOL without an initial value starts as FALSE. Nothing else has a value: the
    machine starts every other variable as FALSE too, whatever its type and its
    declared initial value, which is not what its declaration means. *)
Definition start_cells (inits : gset bytes) (vars : gmap bytes SrcVar) : gset Cell :=
  list_to_set (flat_map (fun e => bool_cells inits e.1 e.2) (map_to_list vars)).

Definition start_state (inits : gset bytes) (vars : gmap bytes SrcVar) (outputs : SlotImage) (prims : PrimitiveStore) : SrcState :=
  mkSrc (gset_to_gmap (VBool false) (start_cells inits vars)) outputs prims 0 false.

Lemma start_declared inits vars c : c ∈ start_cells inits vars -> c ∈ declared_cells vars.
Proof.
  unfold start_cells, declared_cells. rewrite !elem_of_list_to_set, !list_elem_of_In, !in_flat_map.
  intros ([k v] & Hin & Hc). exists (k, v). split; [done|]. cbn [fst snd] in *. apply list_elem_of_In. apply list_elem_of_In in Hc.
  destruct v as [| |[]|[]| |id inst|]; cbn [bool_cells var_cells] in *; try (by apply elem_of_nil in Hc);
    try (case_bool_decide; [by apply elem_of_nil in Hc|done]).
  apply list_elem_of_omap in Hc as ([f ty] & Hf & E). apply list_elem_of_fmap. exists (f, ty). split; [|done].
  by destruct ty; simplify_eq/=.
Qed.

(** Implicit loop variables do not outlive their task. *)
Definition forget (vars : gmap bytes SrcVar) (st : SrcState) : SrcState :=
  set_cells (filter (fun e => e.1 ∈ declared_cells vars) (ss_cells st)) st.

(** A run of a program. *)
Definition exec_task `{NanRule} (now : Z) (inputs : SlotImage) (vars : gmap bytes SrcVar) (p : Program)
    (st : SrcState) : SrcState * res Exit unit :=
  let '(st, r) := exec_all now inputs vars (pr_body p) (set_src_outputs (Slots.clear_written (ss_outputs st)) st) in
  (forget vars st, r).

Section Declared.
Context (b : Binder).
Hypothesis Hb : binder_ok b.
Let vars := erase <$> bd_globals b.
Let g0 := codegen_new ∅ (bd_globals b).

Lemma find_some_in {A} (p : A -> bool) l x : x ∈ l -> p x = true -> is_Some (List.find p l).
Proof.
  intros Hx Hp. destruct (List.find p l) eqn:E; [by eexists|].
  apply list_elem_of_In in Hx. by rewrite (List.find_none _ _ E x Hx) in Hp.
Qed.

(** Declared cells have places of positive width. *)
Lemma declared_place c : c ∈ declared_cells vars -> named c /\ exists sg off w, place g0 c = Some (sg, off, w) /\ 0 < w.
Proof.
  unfold declared_cells. rewrite elem_of_list_to_set, list_elem_of_In, in_flat_map. intros ([k v] & Hin & Hc).
  apply list_elem_of_In, elem_of_map_to_list in Hin. unfold vars in Hin. rewrite lookup_fmap in Hin.
  apply fmap_Some in Hin as (s & Hs & ->). cbn [fst snd] in Hc. unfold g0.
  destruct s as [slot ty|slot ty|off td|off ty|id inst outs|fb base|ty val]; cbn [erase] in Hc; try done.
  - destruct td; try done. destruct Hc as [<-|[]]. split; [done|]. cbn. unfold sym. cbn. rewrite lookup_empty, Hs. cbn.
    do 3 eexists. split; [done|]. pose proof (elem_size_pos t). lia.
  - destruct Hc as [<-|[]]. split; [done|]. cbn. unfold sym. cbn. rewrite lookup_empty, Hs. cbn.
    do 3 eexists. split; [done|]. pose proof (elem_size_pos ty). lia.
  - cbn [var_cells] in Hc. apply in_map_iff in Hc as ([f ty] & <- & Hf). split; [done|]. cbn. unfold sym. cbn.
    rewrite lookup_empty, Hs. cbn. destruct (bo_storage _ Hb _ _ Hs) as (Hst & _).
    destruct (so_prim _ _ Hst _ _ _ eq_refl) as [_ Houts]. rewrite <-Houts in Hf.
    apply in_map_iff in Hf as ([[f' off] ty'] & [= -> ->] & Ho).
    destruct (find_some_in (fun o : bytes * Z * IrType => bool_decide (to_ascii_lowercase o.1.1 = to_ascii_lowercase f))
      outs (f, off, ty)) as [[[f2 off2] ty2] Hfind]; [by apply list_elem_of_In|by apply bool_decide_eq_true|].
    cbn [snd]. setoid_rewrite Hfind. cbn. do 3 eexists. split; [done|]. pose proof (elem_size_pos ty2). lia.
Qed.
End Declared.

Lemma zeros_load size off pc : 0 <= off < size -> size < 2 ^ 63 -> Seg.load (Seg.zeros size) off pc = Ok (VBool false).
Proof.
  intros Ho Hs. unfold Seg.load, Seg.type_at, Seg.load_as, Seg.size, Seg.zeros, len. cbn [s_bytes s_tags].
  rewrite length_replicate. destruct (Z.leb_spec (Z.of_nat (Z.to_nat size)) off); [lia|].
  rewrite lookup_replicate_2 by lia. change (default TAG_UNSET (Some TAG_UNSET)) with TAG_UNSET.
  rewrite Z.eqb_refl. cbn [Val.zero Val.byte_width].
  destruct (Z.ltb_spec (Z.of_nat (Z.to_nat size)) (sat_add_u 64 off 1)) as [Hlt|_].
  { unfold sat_add_u in Hlt. lia. }
  unfold zslice, slice. change (Z.to_nat 1) with 1%nat. rewrite drop_replicate.
  destruct (Z.to_nat size - Z.to_nat off)%nat eqn:E; [lia|]. done.
Qed.

Lemma encode_ok i : bytes_ok (encode_instruction i).
Proof. destruct i; cbn [encode_instruction]; repeat (apply Forall_app; split); apply le_split_ok. Qed.

(** ** What a compiled project is *)

(** The declarations of a project: slots, types and instances of its variables. *)
Definition bind_project (ds : Decls) (file : ProjectFile) : res ErrorCode Binder :=
  b ← bind_tags (pf_tag file) binder_new;
  bind_programs ∅ (pf_max_instances file) (ds_programs ds) b.

Definition collect_project (libs units : list CompilationUnit) : res ErrorCode Decls :=
  collect (concat libs ++ concat units) (mkDecls [] []).

(** A project of programs alone: no function block is declared and the numbers of the
    declarations are unsigned, as the parsers make them. *)
Record plain_project (ds : Decls) (file : ProjectFile) : Prop := {
  pp_fbs : ds_fbs ds = [];
  pp_programs : forallb (fun p => program_ok p.2) (ds_programs ds) = true;
  pp_tags : forallb tag_ok (pf_tag file) = true }.

Section Compiled.
Context `{!HashOrder, !HashOrderLaws}.

Lemma compile_units_Ok `{Sha256} fuel libs units file build_id m man :
  compile_units fuel libs units file build_id = Some (Ok (m, man)) ->
  exists ds fbs b0 b, collect_project libs units = Ok ds /\ layout_all (ds_fbs ds) = Ok fbs /\
    bind_tags (pf_tag file) binder_new = Ok b0 /\
    bind_programs fbs (pf_max_instances file) (ds_programs ds) b0 = Ok b /\
    generate fbs (ds_programs ds) file b = Ok m /\ verify_module m = Ok tt.
Proof.
  unfold compile_units. intros Hc. destruct (check_libs libs ≫= _) as [[ds fbs]| |] eqn:Ef; [|done..].
  apply res_bind_Ok in Ef as ([] & _ & Ef). apply res_bind_Ok in Ef as (ds' & Hds & Ef).
  apply res_bind_Ok in Ef as (fbs' & Hfbs & [= -> ->]).
  destruct (check_fb_recursion fuel (ds_fbs ds)) as [c|]; [|done]. injection Hc as Hc.
  apply res_bind_Ok in Hc as (? & _ & Hc). apply res_bind_Ok in Hc as (b0 & Hb0 & Hc).
  apply res_bind_Ok in Hc as (b & Hb & Hc). apply res_bind_Ok in Hc as (te & _ & Hc).
  apply res_bind_Ok in Hc as (m' & Hm & Hc). apply res_bind_Ok in Hc as ([] & Hv & Hc).
  apply res_bind_Ok in Hc as (pol & _ & [= -> _]).
  exists ds, fbs, b0, b. repeat split; try done. by destruct (verify_module m) as [[]| |].
Qed.

Lemma layout_none : layout_all [] = Ok ∅.
Proof. unfold layout_all. by destruct (Z.to_nat 10000). Qed.

(** The generator's final state. *)
Record generated (b : Binder) (programs : list (bytes * Program)) (file : ProjectFile) (m : IrModule) (ge : Codegen) : Prop := {
  gn_run : m_each (pf_task file) (emit_task programs) (codegen_new ∅ (bd_globals b)) = (ge, Ok tt);
  gn_patch : patch_all (cg_labels ge) (cg_fixups ge) (cg_code ge) = Ok (code m);
  gn_entries : entries m = cg_entries ge;
  gn_data : al_data (bd_alloc b) <= data_size m /\ cg_extra_data ge <= data_size m /\ 16 <= data_size m;
  gn_retain : al_retain (bd_alloc b) <= retain_size m;
  gn_inputs : input_slots m = bd_input_slots b;
  gn_outputs : output_slots m = bd_output_slots b }.

Lemma generate_Ok b programs file m : generate ∅ programs file b = Ok m -> exists ge, generated b programs file m ge.
Proof.
  unfold generate. rewrite map_to_list_empty.
  assert (hash_order (A := UserFbLayout) [] = []) as -> by (apply Permutation_nil_r, hash_order_perm).
  cbn [emit_fbs]. lazymatch goal with |- (let '(_, _) := ?e in _) = _ -> _ => destruct e as [g r] eqn:E end. intros Hg. apply res_bind_Ok in Hg as (al & -> & Hg).
  apply M_bind_Ok in E as (b' & g1 & [= <- <-] & E). apply M_bind_Ok in E as ([] & g2 & E & [= <- <-]).
  unfold finish in Hg. apply res_bind_Ok in Hg as (code & Hp & [= <-]).
  exists g2. split; cbn; done || lia.
Qed.

(** ** The machine of a project *)

(** The machine [s] is in the source state [st], between two runs. *)
Record settled `{NanRule} (b : Binder) (m : IrModule) (st : SrcState) (s : Vm) : Prop := {
  se_ok : vm_ok s;
  se_runs : runs_module m s;
  se_fbs : no_fbs s;
  se_entries : v_entries s = map (fun e => (e_name e, e_pc e, e_is_user_fb e)) (entries m);
  se_data : Seg.size (v_data s) = data_size m;
  se_retain : Seg.size (v_retain s) = retain_size m;
  se_outputs : v_outputs s = ss_outputs st;
  se_prims : v_primitives s = ss_prims st;
  se_div0 : v_div0_count s = ss_div0 st;
  se_dirty : v_retain_dirty s = ss_dirty st;
  se_named : named_cells (ss_cells st);
  se_cells : holds (place (codegen_new ∅ (bd_globals b))) (ss_cells st) s }.

Section Project.
Context `{NanRule} (b : Binder) (programs : list (bytes * Program)) (file : ProjectFile) (m : IrModule) (ge : Codegen).
Hypothesis (Hb : binder_ok b) (Hgen : generated b programs file m ge) (Hver : verify_module m = Ok tt).
Hypothesis (Hin : input_slots m <= 2 ^ 24) (Hout : output_slots m <= 2 ^ 24) (Hlen : len (code m) < 2 ^ 32).
Let g0 := codegen_new ∅ (bd_globals b).
Let vars := erase <$> bd_globals b.

Lemma start_idle : idle b g0.
Proof. done. Qed.

Lemma verified_sizes :
  len (code m) < 2 ^ 24 /\ 0 <= data_size m <= 2 ^ 24 /\ 0 <= retain_size m <= 2 ^ 24.
Proof.
  pose proof (gn_data _ _ _ _ _ Hgen) as (_ & _ & Hd). pose proof (gn_retain _ _ _ _ _ Hgen) as Hr.
  pose proof (bo_alloc _ Hb) as [_ Hr0]. pose proof Hver as Hv. unfold verify_module in Hv.
  destruct (negb _); [done|]. destruct (Z.ltb_spec MAX_CODE_BYTES (wrap_u 32 (len (code m)))) as [|Hc]; [done|].
  destruct (Z.ltb_spec MAX_DATA_RETAIN (sat_add_u 32 (data_size m) (retain_size m))) as [|Hs]; [done|]. clear Hv.
  unfold wrap_u in Hc. rewrite Z.mod_small in Hc by (unfold len in *; lia).
  unfold MAX_CODE_BYTES, MAX_DATA_RETAIN, sat_add_u in *. lia.
Qed.

Lemma project_slots : 0 <= input_slots m /\ 0 <= output_slots m.
Proof. rewrite (gn_inputs _ _ _ _ _ Hgen), (gn_outputs _ _ _ _ _ Hgen). apply (bo_slots _ Hb). Qed.

Lemma bind_bounds :
  al_retain (bd_alloc b) <= retain_size m <= 2 ^ 24 /\ bd_input_slots b <= 2 ^ 24 /\ bd_output_slots b <= 2 ^ 24.
Proof.
  rewrite <-(gn_inputs _ _ _ _ _ Hgen), <-(gn_outputs _ _ _ _ _ Hgen).
  pose proof verified_sizes. pose proof (gn_retain _ _ _ _ _ Hgen). lia.
Qed.

(** All the tasks, as [tasks_emit] gives them. *)
Lemma tasks_emitted :
  idle b ge /\ (exists d, emits g0 ge d) /\
  map e_name (entries m) = map (fun t => task_entry_name (tm_name t)) (pf_task file) /\
  Forall (fun e => e_is_user_fb e = false /\ u_range 32 (e_pc e)) (entries m).
Proof.
  destruct bind_bounds as (HR & Hi & Ho).
  destruct (tasks_emit b (retain_size m) Hb HR Hi Ho programs _ _ _ start_idle (gn_run _ _ _ _ _ Hgen))
    as (G1 & G2 & es & He & Hn & Hes).
  cbn in He. rewrite (gn_entries _ _ _ _ _ Hgen), He. done.
Qed.

Lemma water_mark : wm ge <= data_size m.
Proof.
  destruct tasks_emitted as ([Hg _ Hf _ Hc] & _). destruct (gn_data _ _ _ _ _ Hgen) as (Hd & He & _).
  pose proof (globals_end_le b ge Hb Hg Hf). unfold wm. lia.
Qed.

Lemma project_code_ok : bytes_ok (code m).
Proof.
  destruct tasks_emitted as (_ & [d [Hc Hf _ _]] & _). pose proof (gn_patch _ _ _ _ _ Hgen) as Hp.
  rewrite Hc, Hf in Hp. apply (patch_all_link (cg_labels ge) d []) in Hp as ->. apply Forall_app. split; [constructor|].
  unfold link. clear. induction d as [|a d IH]; cbn [flat_map]; [constructor|]. apply Forall_app. split; [apply encode_ok|done].
Qed.

Lemma project_module_ok : module_ok m.
Proof.
  pose proof verified_sizes. pose proof project_slots. split; try (unfold u_range; lia).
  - apply project_code_ok.
  - destruct tasks_emitted as (_ & _ & _ & He). eapply Forall_impl; [exact He|]. by intros e [].
Qed.

Lemma register_none es table : Forall (fun e => e_is_user_fb e = false) es -> register_fbs es table = table.
Proof. induction 1 as [|e es He _ IH]; cbn [register_fbs]; [done|]. by rewrite He. Qed.

(** ** Loading *)

Lemma load_settled inits config s :
  u_range 64 (instruction_budget config) -> load m config = Ok s ->
  settled b m (start_state inits vars (Slots.bools (output_slots m)) (with_capacity (primitive_instances config))) s.
Proof.
  intros Hbud Hl. destruct (load_ok m config s project_module_ok Hbud Hl) as [Hok Hr].
  unfold load in Hl. apply res_bind_Ok in Hl as ([] & _ & Hl). apply Ok_inj in Hl as <-.
  pose proof verified_sizes as (_ & Hd & Hret). destruct bind_bounds as (HR & _).
  split; try exact Hok; try exact Hr; try done.
  - intros id. unfold user_fb_entry. cbn [v_user_fb_pc]. rewrite register_none; [done|].
    destruct tasks_emitted as (_ & _ & _ & He). eapply Forall_impl; [exact He|]. by intros e [].
  - cbn. unfold Seg.size, len. cbn. rewrite length_replicate. lia.
  - cbn. unfold Seg.size, len. cbn. rewrite length_replicate. lia.
  - intros c v Hc. cbn [start_state ss_cells] in Hc. apply lookup_gset_to_gmap_Some in Hc as [Hc%start_declared _].
    by apply declared_place in Hc as [].
  - intros c v Hc. cbn [start_state ss_cells] in Hc. apply lookup_gset_to_gmap_Some in Hc as [Hc%start_declared <-].
    apply (declared_place b Hb) in Hc as (Hn & sg & off & w & Hp & Hw). exists sg, off, w. split; [done|].
    pose proof (start_layout b g0 Hb eq_refl eq_refl eq_refl (retain_size m) ltac:(lia)) as Hlay.
    destruct (lo_bound _ _ _ Hlay c sg off w Hn Hp) as [G1 G2]. split; [done|]. split; [change (1 <= w); lia|].
    pose proof (globals_end_le b g0 Hb eq_refl eq_refl) as Hge. pose proof (bo_alloc _ Hb) as [Ha _].
    destruct (gn_data _ _ _ _ _ Hgen) as (Hda & _).
    intros pc. destruct sg; cbn [seg_of v_data v_retain]; apply zeros_load; try lia.
    unfold wm in G2. cbn [cg_extra_data cg_data_cursor g0 codegen_new] in G2. lia.
Qed.


(** ** Running a task *)

Lemma find_unique {A B} (f : A -> B) `{EqDecision B} l i x :
  NoDup (map f l) -> l !! i = Some x -> List.find (fun y => bool_decide (f y = f x)) l = Some x.
Proof.
  revert i. induction l as [|y l IH]; intros i Hnd Hi; [done|]. cbn [map] in Hnd. apply NoDup_cons in Hnd as [Hy Hnd].
  cbn [List.find]. destruct i as [|i]; cbn in Hi.
  - injection Hi as ->. by rewrite bool_decide_eq_true_2.
  - rewrite bool_decide_eq_false_2; [by eapply IH|]. intros Heq. apply Hy. rewrite Heq.
    apply list_elem_of_In, in_map, list_elem_of_In. by eapply list_elem_of_lookup_2.
Qed.

(** The entry of a task is found by its name. *)
Lemma entry_found s st e i :
  settled b m st s -> NoDup (map tm_name (pf_task file)) -> entries m !! i = Some e -> entry_pc s (e_name e) = Ok (e_pc e).
Proof.
  intros Hs Hnd He. unfold entry_pc. rewrite (se_entries _ _ _ _ Hs).
  set (f := fun e => (e_name e, e_pc e, e_is_user_fb e)).
  pose proof (find_unique (fun x : bytes * Z * bool => x.1.1) (map f (entries m)) i (f e)) as Hf. cbn beta in Hf.
  change (e_name e) with (f e).1.1. rewrite Hf; [done| |].
  - rewrite map_map. cbn. destruct tasks_emitted as (_ & _ & Hn & _). change (map (fun x => e_name x) ?l) with (map e_name l).
    rewrite Hn, <-(map_map tm_name task_entry_name). apply NoDup_fmap_2; [|done]. intros x y. unfold task_entry_name. apply app_inj_1.
    done.
  - change (map f (entries m)) with (f <$> entries m). by rewrite list_lookup_fmap, He.
Qed.

Lemma fresh_run_at T st s :
  settled b m st s -> t_code T = code m -> t_data_size T = data_size m -> t_retain_size T = retain_size m ->
  (forall c, named c -> is_Some (place g0 c) -> t_place T c = place g0 c) ->
  at_t T (v_inputs s) ∅ (set_src_outputs (Slots.clear_written (ss_outputs st)) st) [] (fresh_run s).
Proof.
  intros [] HTc HTd HTr Hpl. unfold at_t. rewrite HTc, HTd, HTr. destruct (fresh_run_ok s se_ok0) as [Hok _]. split; [|done].
  split; try done; cbn.
  - apply se_runs0.
  - by rewrite se_outputs0.
  - apply (holds_segs _ _ s); [done|done|]. eapply holds_mono; [|exact se_cells0].
    intros c p [v Hv] Hp. by rewrite Hpl; [|by eapply se_named0|eexists].
Qed.

(** What is left of a task's last state. *)
Lemma ended_settled T st0 st s s' :
  settled b m st0 s -> vm_ok s' -> runs_module m s' -> frozen s s' ->
  (forall c, named c -> is_Some (place g0 c) -> t_place T c = place g0 c) ->
  ended T (v_inputs s) st s' -> settled b m (forget vars st) s'.
Proof.
  intros Hs Hok Hr Hf Hpl [temps []]. split; try done.
  - intros id. unfold user_fb_entry. rewrite (fz_user_fb _ _ Hf). apply (se_fbs _ _ _ _ Hs).
  - rewrite (fz_entries _ _ Hf). apply (se_entries _ _ _ _ Hs).
  - rewrite (fz_data _ _ Hf). apply (se_data _ _ _ _ Hs).
  - rewrite (fz_retain _ _ Hf). apply (se_retain _ _ _ _ Hs).
  - intros c v Hc. cbn in Hc. apply map_lookup_filter_Some in Hc as [Hc _]. by eapply r_named.
  - intros c v Hc. cbn in Hc. apply map_lookup_filter_Some in Hc as [Hc Hd]. cbn in Hd.
    apply (declared_place b Hb) in Hd as (Hn & sg & off & w & Hp & _). fold g0 in Hp |- *.
    destruct (r_cells _ _ Hc) as (sg' & o' & w' & Hp' & Hrest). rewrite Hpl in Hp' by (done || by rewrite Hp).
    by exists sg', o', w'.
Qed.

(** The outcome of a run of the machine, against the one of the source. *)
Definition outcome_ok (out : SrcState * res Exit unit) (s' : Vm) (r : res VmError ExecResult) : Prop :=
  match out with
  | (st', Ok _) => r = Ok Halted /\ settled b m st' s'
  | (st', Err XReturn) => r = Ok Returned /\ settled b m st' s'
  | (_, Err XFault) => exists e, r = Err e
  | (_, Err XUndefined) => True
  | (_, Panic) => r = Panic
  end.

Lemma halt_ends now pc s : v_code s = code m -> instr_at (code m) pc (Simple Halt 0) -> ends now pc s s (Ok Halted).
Proof. intros Hc Hi. cbn [ends]. by rewrite (step_eq now _ pc s _ Hc Hi). Qed.

Lemma task_runs now t st s s' r :
  u_range 64 now -> NoDup (map tm_name (pf_task file)) -> t ∈ pf_task file -> settled b m st s ->
  run_entry now (task_entry_name (tm_name t)) s = Some (s', r) ->
  exists prog, bt_get (to_ascii_lowercase (tm_program t)) programs = Some prog /\
    (r = Err (EBudget (v_instruction_budget s)) \/ outcome_ok (exec_task now (v_inputs s) vars prog st) s' r).
Proof.
  intros Hnow Hnd (pre & post & Ht)%list_elem_of_split Hs Hrun.
  destruct bind_bounds as (HR & Hi & Ho). pose proof verified_sizes as (Hc24 & Hd24 & _).
  pose proof (gn_run _ _ _ _ _ Hgen) as Hgr. rewrite Ht in Hgr.
  destruct (task_in_code b (retain_size m) Hb HR Hi Ho programs pre post t g0 ge (code m) (data_size m)
    start_idle eq_refl eq_refl Hgr (gn_patch _ _ _ _ _ Hgen) ltac:(pose proof water_mark; lia) Hc24)
    as (prog & e & g2 & Hprog & He & Hname & Hpl & _ & Hcode).
  exists prog. split; [done|]. cbn [cg_entries g0 codegen_new length Nat.add] in He.
  rewrite <-(gn_entries _ _ _ _ _ Hgen) in He. rewrite <-Hname in Hrun. unfold run_entry in Hrun.
  rewrite (entry_found s st e _ Hs Hnd He) in Hrun.
  destruct (Hcode now (v_inputs s) Hnow) as (pc2 & Hhalt & Hpc0 & _ & Hsim).
  set (T := mkTarget _ _ _ _ _ _ _) in Hsim.
  specialize (Hsim _ _ (fresh_run_at T st s Hs eq_refl eq_refl eq_refl Hpl)).
  pose proof (se_ok _ _ _ _ Hs) as Hok.
  destruct (verified_run m s s' e now r project_module_ok Hver ltac:(by eapply list_elem_of_lookup_2) Hok
    (se_runs _ _ _ _ Hs) Hnow Hrun) as (Hsafe & Hok' & Hr').
  destruct (run_at_safe now (e_pc e) s Hnow Hok Hpc0) as (s2 & r2 & Hrun2 & _ & Hfr & _).
  rewrite Hrun in Hrun2. injection Hrun2 as <- <-.
  assert (Hover : forall pc, r <> Err (EStackOverflow pc)).
  { intros pc ->. destruct Hsafe as [_ Hsafe]. by apply (Hsafe (se_fbs _ _ _ _ Hs) pc). }
  assert (Hend : forall st', ended T (v_inputs s) st' s' -> settled b m (forget vars st') s')
    by (intros st'; by apply (ended_settled T st st' s s' Hs Hok' Hr' Hfr Hpl)).
  unfold exec_task. fold vars in Hsim. destruct (exec_all _ _ _ _ _) as [st' ro]. clear Hsafe Hcode.
  assert (Hlead := fun Q E Hl => run_leads now Q E (e_pc e) s s' r Hnow Hok Hpc0 Hl Hrun Hover).
  unfold runs, follows in Hsim. destruct ro as [[]|[]|]; cbn [outcome_ok].
  - destruct (Hlead _ _ Hsim) as [?|[[-> [pc1 [-> Hat]]]|[]]]; [|by left|].
    + intros pc1 s1 [-> Hat]. apply halt_ends; [|done]. by destruct Hat as [[] _].
    + right. split; [done|]. apply Hend. exists ∅. apply Hat.
  - by right.
  - destruct (Hlead _ _ Hsim) as [?|[[_ [pc1 []]]|?]]; [done|by left|by right].
  - destruct (Hlead _ _ Hsim) as [?|[[_ [pc1 []]]|[-> He']]]; [done|by left|right]. auto.
  - destruct (Hlead _ _ Hsim) as [?|[[_ [pc1 []]]|?]]; [done|by left|by right].
Qed.
End Project.
End Compiled.

(** ** Scans *)

(** A run of a task, at a time and on an input image. *)
Record Scan := mkScan { sn_task : TaskMap; sn_now : Z; sn_inputs : SlotImage }.

Fixpoint run_scans `{NanRule} (scans : list Scan) (s : Vm) : option (Vm * res VmError unit) :=
  match scans with
  | [] => Some (s, Ok tt)
  | c :: scans =>
      match run_entry (sn_now c) (task_entry_name (tm_name (sn_task c))) (set_inputs (sn_inputs c) s) with
      | Some (s, Ok _) => run_scans scans s
      | Some (s, Err e) => Some (s, Err e)
      | Some (s, Panic) => Some (s, Panic)
      | None => None
      end
  end.

Fixpoint exec_scans `{NanRule} (vars : gmap bytes SrcVar) (programs : list (bytes * Program)) (scans : list Scan)
    (st : SrcState) : SrcState * res Exit unit :=
  match scans with
  | [] => (st, Ok tt)
  | c :: scans =>
      match bt_get (to_ascii_lowercase (tm_program (sn_task c))) programs with
      | None => (st, Err XFault)
      | Some p =>
          let '(st, r) := exec_task (sn_now c) (sn_inputs c) vars p st in
          match r with
          | Ok _ | Err XReturn => exec_scans vars programs scans st
          | _ => (st, r)
          end
      end
  end.

Record scan_ok (m : IrModule) (file : ProjectFile) (c : Scan) : Prop := {
  sc_task : sn_task c ∈ pf_task file;
  sc_now : u_range 64 (sn_now c);
  sc_inputs : Slots.ok (sn_inputs c) /\ input_slots m <= Slots.size (sn_inputs c) /\
    input_slots m <= len (i_quality (sn_inputs c)) }.

(** The machine did what the source says: it ends well in the same state, faults
    where the source faults and panics where it panics. *)
Definition scans_agree `{NanRule} (b : Binder) (m : IrModule) (out : SrcState * res Exit unit) (s' : Vm)
    (r : res VmError unit) : Prop :=
  match out with
  | (st', Ok _) => r = Ok tt /\ settled b m st' s'
  | (_, Err XUndefined) => True
  | (_, Err _) => exists e, r = Err e
  | (_, Panic) => r = Panic
  end.

Lemma settled_inputs `{NanRule} b m file st s c :
  scan_ok m file c -> settled b m st s -> settled b m st (set_inputs (sn_inputs c) s).
Proof.
  intros [_ _ (Hok & Hsz & Hq)] []. split; try done.
  - destruct se_ok0. by split.
  - destruct se_runs0. by split.
Qed.

Section Scans.
Context `{!HashOrder, !HashOrderLaws, NanRule} (b : Binder) (programs : list (bytes * Program)) (file : ProjectFile).
Context (m : IrModule) (ge : Codegen).
Hypothesis (Hb : binder_ok b) (Hgen : generated b programs file m ge) (Hver : verify_module m = Ok tt).
Hypothesis (Hin : input_slots m <= 2 ^ 24) (Hout : output_slots m <= 2 ^ 24) (Hlen : len (code m) < 2 ^ 32).
Hypothesis Hnames : NoDup (map tm_name (pf_task file)).

(** Running always gives a result. *)
Lemma entry_result now name s : u_range 64 now -> vm_ok s -> exists s' r, run_entry now name s = Some (s', r) /\ vm_ok s'.
Proof.
  intros Hnow Hs. unfold run_entry. destruct (entry_pc s name) as [pc|e|] eqn:E; [|by eexists _, _..].
  pose proof (ok_entries s Hs) as He. unfold entry_pc in E.
  destruct (List.find _ _) as [x|] eqn:Ef; [|done]. injection E as <-. apply find_some in Ef as [Hx _].
  rewrite List.Forall_forall in He. specialize (He x Hx).
  destruct (run_at_safe now x.1.2 s Hnow Hs (proj1 He)) as (s' & r & Hr & Hok & _). eauto.
Qed.

Lemma scans_result scans : forall s, Forall (scan_ok m file) scans -> vm_ok s ->
  exists s' r, run_scans scans s = Some (s', r).
Proof.
  induction scans as [|c scans IH]; intros s Hsc Hs; cbn [run_scans]; [by eexists _, _|].
  apply Forall_cons in Hsc as [[_ Hnow (Hi & _)] Hsc].
  assert (Hs1 : vm_ok (set_inputs (sn_inputs c) s)) by (destruct Hs; by split).
  destruct (entry_result (sn_now c) (task_entry_name (tm_name (sn_task c))) _ Hnow Hs1) as (s2 & [x|e|] & -> & Hs2);
    [by apply IH|by eexists _, _..].
Qed.

Lemma scans_run scans : forall st s, Forall (scan_ok m file) scans -> settled b m st s ->
  exists s' r, run_scans scans s = Some (s', r) /\
    ((exists n, r = Err (EBudget n)) \/ scans_agree b m (exec_scans (erase <$> bd_globals b) programs scans st) s' r).
Proof.
  induction scans as [|c scans IH]; intros st s Hsc Hs; cbn [run_scans exec_scans].
  { exists s, (Ok tt). split; [done|]. by right. }
  apply Forall_cons in Hsc as [Hc Hsc]. pose proof (settled_inputs _ _ _ _ _ _ Hc Hs) as Hs1.
  destruct Hc as [Ht Hnow _].
  destruct (entry_result (sn_now c) (task_entry_name (tm_name (sn_task c))) _ Hnow (se_ok _ _ _ _ Hs1)) as (s2 & r2 & Hrun & Hs2).
  rewrite Hrun.
  destruct (task_runs b programs file m ge Hb Hgen Hver Hin Hout Hlen _ _ _ _ _ _ Hnow Hnames Ht Hs1 Hrun)
    as (prog & -> & [->|Hout2]).
  { eexists _, _. split; [done|]. left. by eexists. }
  cbn [set_inputs v_inputs] in Hout2. destruct (exec_task _ _ _ _ _) as [st2 [u|[]|]]; cbn [outcome_ok scans_agree] in *.
  - destruct Hout2 as [-> Hse]. by apply IH.
  - destruct r2 as [x|e|].
    + destruct (scans_result scans s2 Hsc Hs2) as (s3 & r3 & ->). eexists _, _. split; [done|]. by right.
    + eexists _, _. split; [done|]. by right.
    + eexists _, _. split; [done|]. by right.
  - destruct Hout2 as [e ->]. eexists _, _. split; [done|]. right. by eexists.
  - destruct Hout2 as [-> Hse]. by apply IH.
  - subst r2. eexists _, _. split; [done|]. by right.
Qed.
End Scans.

(** ** Properties *)

(** C1: compiled projects do what their programs mean. Take a project of programs
    without function blocks of its own which the compiler accepts, whose tasks have
    distinct names, with at most 2^24 slots of each plane and less than 2^32 bytes of
    code. Its primitive variables have an instance each. Its module loads, and the loaded
    machine is in the initial state of the source: the BOOL variables without an initial
    value and the BOOL outputs of the primitives are FALSE, no other variable has a value
    yet. From a machine in any source state, any sequence of runs of its tasks, on any
    inputs and at any times, ends; unless the instruction budget stops it, the machine
    ends in the state the reference semantics computes from the syntax trees (the
    variables at their places, the output image, the primitive instances, the count of
    divisions by zero, the retain flag), fails where the semantics faults and panics where
    the operators panic. Nothing is said of a run from the point on where the semantics is
    undefined: when it reads a variable that has no value, a slot that holds a BOOL where
    another type is declared or the other way round, stores what does not fit, or uses an
    array. *)
Theorem compiled_project_correct `{!HashOrder, !HashOrderLaws, !Sha256, !NanRule}
    (fuel : nat) (libs units : list CompilationUnit) (file : ProjectFile) (build_id : bytes)
    (m : IrModule) (man : Manifest) (ds : Decls)
    (Hc : compile_units fuel libs units file build_id = Some (Ok (m, man)))
    (Hds : collect_project libs units = Ok ds) (Hplain : plain_project ds file)
    (Hnames : NoDup (map tm_name (pf_task file)))
    (Hslots : input_slots m <= 2 ^ 24 /\ output_slots m <= 2 ^ 24) (Hlen : len (code m) < 2 ^ 32) :
  exists b, bind_project ds file = Ok b /\
  let vars := erase <$> bd_globals b in
  (forall k k' id inst, vars !! k = Some (SvPrim id inst) -> vars !! k' = Some (SvPrim id inst) -> k = k') /\
  (forall config, u_range 64 (instruction_budget config) -> exists s, load m config = Ok s /\
    settled b m (start_state (with_initial (ds_programs ds)) vars (Slots.bools (output_slots m)) (with_capacity (primitive_instances config))) s) /\
  (forall scans st s, Forall (scan_ok m file) scans -> settled b m st s ->
    exists s' r, run_scans scans s = Some (s', r) /\
      ((exists n, r = Err (EBudget n)) \/ scans_agree b m (exec_scans vars (ds_programs ds) scans st) s' r)).
Proof.
  destruct Hplain as [Hfb Hps Htags], Hslots as [Hin Hout].
  destruct (compile_units_Ok _ _ _ _ _ _ _ Hc) as (ds' & fbs & b0 & b & Hds' & Hlay & Hb0 & Hb & Hg & Hver).
  rewrite Hds in Hds'. injection Hds' as <-. rewrite Hfb, layout_none in Hlay. injection Hlay as <-.
  destruct (bind_tags_ok _ _ _ binder_new_ok eq_refl Htags Hb0) as [Hok0 Hg0].
  pose proof (bind_programs_ok _ _ _ _ Hok0 Hps Hb) as Hok.
  apply generate_Ok in Hg as [ge Hgen]. exists b. split; [|split; [|split]].
  - apply res_bind_Ok. by exists b0.
  - intros k k' id inst. rewrite !lookup_fmap. intros (s & Hs & Es)%fmap_Some (s' & Hs' & Es')%fmap_Some.
    destruct s as [| |? []| |? ? ?| |], s' as [| |? []| |? ? ?| |]; try done. injection Es as <- <-. injection Es' as <- <-.
    eapply (io_own _ (bind_programs_inst _ _ _ _ _ (no_globals_inst _ Hg0) Hb)); done.
  - intros config Hbud. unfold load. rewrite Hver. eexists. split; [by destruct (verify config)|].
    eapply (load_settled b (ds_programs ds) file m ge); try done. unfold load. rewrite Hver. by destruct (verify config).
  - intros scans st s. by eapply scans_run.
Qed.

(** ** Witness *)

Definition id_order : HashOrder := {| hash_order A l := l |}.

Lemma id_order_laws : @HashOrderLaws id_order.
Proof. by split. Qed.

Definition demo_var (name : string) (at_ : option DirectAddr) (ty : string) : VarDecl :=
  mkVarDecl (bstr name) at_ (TNamed (bstr ty)) None.

Definition demo_name (name : string) : Expr := EName [PIdent (bstr name)].

(** A latch that runs when a sum computed by a loop is right. *)
Definition demo_program : Program := mkProgram (bstr "Main")
  [mkSection KVar
     [demo_var "start" (Some (mkDirect DpI 0)) "BOOL"; demo_var "halt" (Some (mkDirect DpI 1)) "BOOL";
      demo_var "motor" (Some (mkDirect DpQ 0)) "BOOL"; demo_var "n" None "DINT"; demo_var "delay" None "TON"]]
  [SAssign (demo_name "n") (ELiteral (LInt 0));
   SFor (bstr "i") (ELiteral (LInt 1)) (ELiteral (LInt 3)) None None
     [SAssign (demo_name "n") (EBinary BAdd (demo_name "n") (demo_name "i"))];
   SFbCall (mkFbCall [PIdent (bstr "delay")]
     [Positional (demo_name "start"); Positional (ELiteral (LTimeMs 10))] []);
   SIf [(EBinary BAnd (EBinary BOr (demo_name "start") (demo_name "motor")) (EUnary UNot (demo_name "halt")),
         [SAssign (demo_name "motor") (EBinary BEq (demo_name "n") (ELiteral (LInt 6)))])]
     (Some [SAssign (demo_name "motor") (ELiteral (LBool false))])].

Definition demo_task : TaskMap := mkTaskMap (bstr "fast") (bstr "MAIN").

Definition demo_file : ProjectFile :=
  mkProject (bstr "demo") (bstr "1.0.0") (bstr "bumpless") [demo_task] [] default_max_instances.

Definition demo_inputs (start halt : bool) : SlotImage :=
  mkSlots [VBool start; VBool halt] [true; true] [false; false].

Definition demo_scans : list Scan :=
  [mkScan demo_task 0 (demo_inputs true false); mkScan demo_task 20 (demo_inputs false false)].

Definition demo_decls : Decls := mkDecls [] [(bstr "main", demo_program)].

Definition demo_module : IrModule := Eval vm_compute in
  match @compile_units id_order toy_sha256 1 [] [[DProgram demo_program]] demo_file [] with
  | Some (Ok x) => x.1
  | _ => toggle_module
  end.

Definition demo_config : VmConfig := {| primitive_instances := 2; instruction_budget := 1000; verify := true |}.

(** What the source does in the two scans: its result and its outputs. *)
Definition demo_meaning (r : res ErrorCode Binder) : option (SlotImage * res Exit unit) :=
  match r with
  | Ok b =>
      let vars := erase <$> bd_globals b in
      let '(st, r) := exec_scans vars [(bstr "main", demo_program)] demo_scans
        (start_state (with_initial [(bstr "main", demo_program)]) vars (Slots.bools 1) (with_capacity 2)) in
      Some (ss_outputs st, r)
  | _ => None
  end.

Lemma demo_compiles : exists man,
  @compile_units id_order toy_sha256 1 [] [[DProgram demo_program]] demo_file [] = Some (Ok (demo_module, man)).
Proof. eexists. vm_compute. reflexivity. Qed.

Lemma demo_means : demo_meaning (bind_project demo_decls demo_file) = Some (mkSlots [VBool true] [true] [true], Ok tt).
Proof. vm_compute. reflexivity. Qed.

Lemma demo_scans_ok : Forall (scan_ok demo_module demo_file) demo_scans.
Proof. repeat constructor; by vm_compute. Qed.

Lemma demo_budget : u_range 64 (instruction_budget demo_config).
Proof. by vm_compute. Qed.

Definition ran_well (o : option (Vm * res VmError unit)) : bool :=
  match o with Some (_, Ok _) => true | _ => false end.

Lemma demo_within_budget :
  match load demo_module demo_config with Ok s => ran_well (run_scans demo_scans s) | _ => false end = true.
Proof. vm_compute. reflexivity. Qed.

(** The compiled project latches its output in the first scan and holds it in the second. *)
Lemma compiled_project_correct_witness : exists s s', load demo_module demo_config = Ok s /\
  run_scans demo_scans s = Some (s', Ok tt) /\ v_outputs s' = mkSlots [VBool true] [true] [true].
Proof.
  destruct demo_compiles as [man Hc]. pose proof demo_within_budget as Hbud. pose proof demo_means as Hmean.
  destruct (@compiled_project_correct id_order id_order_laws toy_sha256 canonical_nan 1 [] [[DProgram demo_program]]
    demo_file [] demo_module man demo_decls Hc) as (b & Hb & _ & Hload & Hrun).
  - reflexivity.
  - split; reflexivity.
  - apply NoDup_singleton.
  - split; apply Z.leb_le; reflexivity.
  - apply Z.ltb_lt. reflexivity.
  - clear Hc. rewrite Hb in Hmean. cbn beta iota delta [demo_meaning] in Hmean.
    destruct (Hload demo_config demo_budget) as (s & Hs & Hset). exists s.
    destruct (Hrun demo_scans _ s demo_scans_ok Hset) as (s' & r & Hr & Hout). exists s'.
    rewrite Hs in Hbud. cbn iota in Hbud. rewrite Hr in Hbud.
    destruct r as [[]|e|]; [|discriminate Hbud|discriminate Hbud].
    split; [exact Hs|]. split; [exact Hr|].
    destruct Hout as [[n Hn]|Hout]; [discriminate Hn|].
    change (output_slots demo_module) with 1 in Hout. change (primitive_instances demo_config) with 2%nat in Hout.
    change (ds_programs demo_decls) with [(bstr "main", demo_program)] in Hout. cbv zeta in Hmean.
    destruct (exec_scans _ _ _ _) as [st ro]. injection Hmean as Hst ->.
    destruct Hout as [_ Hset']. rewrite (se_outputs _ _ _ _ Hset'). exact Hst.
Defined.
