(* ===== verification/CompLex.v ===== *)
(** * The compiler: lexer

    Crate [plc-compiler], src/crates/plc-compiler/src/lex.rs. The source is UTF-8 bytes;
    the position of the loop is the rest of the source. Spans and messages are left out.
    Decimal texts are read the way the standard library does: to the nearest number. *)
From Stdlib Require Import SpecFloat.
From S2P Require Import Prelude Text Float32 Float64 IrTypes CompAst.

(** ** Tokens *)

Inductive TokenKind :=
  | KEof | KIdent | KIntLit | KRealLit | KTimeLit | KKeyword (k : string)
  | KAssign | KArrow | KEq | KNe | KLt | KLe | KGt | KGe | KPlus | KMinus | KStar | KSlash
  | KLParen | KRParen | KLBracket | KRBracket | KLBrace | KRBrace
  | KComma | KSemi | KColon | KDot | KDotDot | KDirectAddr.

#[export] Instance token_kind_eq_dec : EqDecision TokenKind.
Proof. solve_decision. Defined.

Record Token := mkToken { tk_kind : TokenKind; tk_text : bytes }.

Definition KEYWORDS : list string :=
  ["PROGRAM"; "END_PROGRAM"; "FUNCTION_BLOCK"; "END_FUNCTION_BLOCK"; "VAR"; "VAR_INPUT"; "VAR_OUTPUT";
   "VAR_RETAIN"; "VAR_GLOBAL"; "VAR_IN_OUT"; "VAR_EXTERNAL"; "END_VAR"; "CONSTANT"; "AT"; "IF"; "THEN";
   "ELSIF"; "ELSE"; "END_IF"; "CASE"; "OF"; "END_CASE"; "WHILE"; "DO"; "END_WHILE"; "FOR"; "TO"; "BY";
   "END_FOR"; "REPEAT"; "UNTIL"; "END_REPEAT"; "EXIT"; "CONTINUE"; "RETURN"; "AND"; "OR"; "XOR"; "NOT";
   "MOD"; "TRUE"; "FALSE"; "BOOL"; "INT"; "DINT"; "REAL"; "TIME"; "LINT"; "LREAL"; "STRING"; "WSTRING";
   "ARRAY"; "CONFIGURATION"; "RESOURCE"; "METHOD"; "CLASS"; "INTERFACE"; "REF_TO"; "ADR"; "EN"; "ENO"]%string.

Definition keyword_lookup (s : bytes) : option string :=
  List.find (fun k => bool_decide (to_ascii_lowercase (bstr k) = to_ascii_lowercase s)) KEYWORDS.

(** ** Characters *)

Definition is_ascii_whitespace (b : Z) : bool := (b =? 32) || (b =? 9) || (b =? 10) || (b =? 12) || (b =? 13).
Definition is_ascii_alphabetic (b : Z) : bool := in_rangeb 65 90 b || in_rangeb 97 122 b.
Definition is_ascii_alphanumeric (b : Z) : bool := is_ascii_alphabetic b || is_ascii_digit b.
Definition ascii_upper_byte (b : Z) : Z := if in_rangeb 97 122 b then b - 32 else b.

(** Where a string slice may end. *)
Definition char_boundary (s : bytes) : bool :=
  match s with [] => true | b :: _ => negb (in_rangeb 0x80 0xBF b) end.

(** The longest prefix of bytes that are [p], and the rest. *)
Fixpoint span (p : Z -> bool) (s : bytes) : bytes * bytes :=
  match s with
  | b :: s' => if p b then let '(t, r) := span p s' in (b :: t, r) else ([], s)
  | [] => ([], [])
  end.

(** ** Decimal numbers *)

(** The number [m * 10^e], rounded to nearest. *)
Definition decimal_to (prec emax m e : Z) : spec_float :=
  match m with
  | Zpos p =>
      if 0 <=? e then binary_normalize prec emax (m * 10 ^ e) 0 false
      else match 10 ^ (- e) with
           | Zpos q => SFdiv prec emax (S754_finite false p 0) (S754_finite false q 0)
           | _ => S754_nan
           end
  | _ => S754_zero false
  end.

(** Digits around an optional point: the digits and how many follow the point. *)
Definition split_point (s : bytes) : option (bytes * Z * bytes) :=
  let '(whole, rest) := span is_ascii_digit s in
  let '(frac, rest) := match rest with 46 :: r => span is_ascii_digit r | _ => ([], rest) end in
  if bool_decide (whole ++ frac = []) then None else Some (whole ++ frac, len frac, rest).

(** [num.parse::<f64>()] of digits and points. *)
Definition parse_f64 (s : bytes) : option Z :=
  match split_point s with
  | Some (ds, scale, []) => Some (f64_encode (decimal_to f64_prec f64_emax (digits_value ds) (- scale)))
  | _ => None
  end.

(** An exponent: an optional sign and digits. *)
Definition parse_exponent (s : bytes) : option Z :=
  let '(neg, ds) := match s with 43 :: r => (false, r) | 45 :: r => (true, r) | _ => (false, s) end in
  match span is_ascii_digit ds with
  | ((_ :: _) as ds, []) => Some (if neg : bool then - digits_value ds else digits_value ds)
  | _ => None
  end.

(** [text.parse::<f32>()] of a text without a sign. *)
Definition parse_f32 (s : bytes) : option Z :=
  '(ds, scale, rest) ← split_point s;
  e ← match rest with
      | [] => Some 0
      | c :: r => if (c =? 101) || (c =? 69) then parse_exponent r else None
      end;
  f32_encode (decimal_to f32_prec f32_emax (digits_value ds) (e - scale)).

(** ** Time literals *)

(** [total_ms += (value * unit).round() as i64]. *)
Definition add_ms (num : bytes) (unit_ms total : Z) : res ErrorCode Z :=
  value ← ok_or (parse_f64 num) Code.ELex;
  i64_checked (total + f64_to_range (-2 ^ 63) (2 ^ 63 - 1) (f64_round (f64_mul value (f64_of_int unit_ms)))).

(** The loop of [parse_time_literal]. *)
Fixpoint time_loop (s num : bytes) (total : Z) : res ErrorCode Z :=
  match s with
  | [] => if bool_decide (num = []) then Ok total else Err Code.ELex
  | c :: s =>
      if is_ascii_digit c || (c =? 46) then time_loop s (num ++ [c]) total
      else if bool_decide (num = []) then Err Code.ELex
      else if c =? 104 then total ← add_ms num 3600000 total; time_loop s [] total
      else if c =? 109 then
        match s with
        | 115 :: s => total ← add_ms num 1 total; time_loop s [] total
        | _ => total ← add_ms num 60000 total; time_loop s [] total
        end
      else if c =? 115 then total ← add_ms num 1000 total; time_loop s [] total
      else Err Code.ELex
  end.

Definition parse_time_literal (body : bytes) : res ErrorCode Z :=
  let b := to_ascii_lowercase body in
  if bool_decide (b = []) then Err Code.ELex
  else
    total ← time_loop b [] 0;
    if (-2 ^ 31 <=? total) && (total <? 2 ^ 31) then Ok total else Err Code.ELex.

(** ** The loop *)

(** Past the end of a comment, if it is closed. *)
Fixpoint skip_comment (s : bytes) : option bytes :=
  match s with
  | a :: ((b :: rest) as tl) => if (a =? 42) && (b =? 41) then Some rest else skip_comment tl
  | _ => None
  end.

Definition lex_direct (s : bytes) : res ErrorCode (Token * bytes) :=
  match s with
  | [] => Err Code.ELex
  | b :: s =>
      let plane := ascii_upper_byte b in
      if (plane =? 73) || (plane =? 81) || (plane =? 77) || (plane =? 82) then
        let '(idx, s) := span is_ascii_digit s in
        if bool_decide (idx = []) then Err Code.ELex
        else Ok (mkToken KDirectAddr (plane :: 58 :: idx), s)
      else Err Code.ELex
  end.

Definition time_char (b : Z) : bool := is_ascii_alphanumeric b || (b =? 95) || (b =? 46) || (b =? 45).

Definition lex_time (s : bytes) : res ErrorCode (Token * bytes) :=
  let '(body, s) := span time_char s in
  ms ← parse_time_literal body;
  Ok (mkToken KTimeLit (bstr (pretty ms)), s).

(** The exponent of a real, if there is one. *)
Definition lex_exponent (s : bytes) : bytes * bytes :=
  match s with
  | c :: r =>
      if (c =? 101) || (c =? 69) then
        let '(sign, r) := match r with d :: r' => if (d =? 43) || (d =? 45) then ([d], r') else ([], r) | [] => ([], []) end in
        let '(ds, r) := span is_ascii_digit r in
        (c :: sign ++ ds, r)
      else ([], s)
  | [] => ([], [])
  end.

Definition lex_number (s : bytes) : Token * bytes :=
  let '(whole, r) := span is_ascii_digit s in
  match r with
  | 46 :: d :: r' =>
      if negb (d =? 46) && is_ascii_digit d then
        let '(frac, r) := span is_ascii_digit (d :: r') in
        let '(e, r) := lex_exponent r in
        (mkToken KRealLit (whole ++ 46 :: frac ++ e), r)
      else (mkToken KIntLit whole, r)
  | _ => (mkToken KIntLit whole, r)
  end.

Definition ident_char (b : Z) : bool := is_ascii_alphanumeric b || (b =? 95).

Definition lex_word (s : bytes) : Token * bytes :=
  let '(w, r) := span ident_char s in
  (mkToken (match keyword_lookup w with Some k => KKeyword k | None => KIdent end) w, r).

Definition two_chars : list (string * TokenKind) :=
  [(":=", KAssign); ("=>", KArrow); ("<>", KNe); ("<=", KLe); (">=", KGe); ("..", KDotDot)]%string.

Definition one_char : list (string * TokenKind) :=
  [("=", KEq); ("<", KLt); (">", KGt); ("+", KPlus); ("-", KMinus); ("*", KStar); ("/", KSlash); ("(", KLParen);
   (")", KRParen); ("[", KLBracket); ("]", KRBracket); ("{", KLBrace); ("}", KRBrace); (",", KComma); (";", KSemi);
   (":", KColon); (".", KDot)]%string.

Definition punct (t : bytes) (table : list (string * TokenKind)) : option TokenKind :=
  snd <$> List.find (fun e : string * TokenKind => bool_decide (bstr e.1 = t)) table.

(** Operators; the two-character slice panics within a character. *)
Definition lex_op (s : bytes) : res ErrorCode (Token * bytes) :=
  two ← match s with
        | a :: b :: r => if char_boundary s && char_boundary r then Ok [a; b] else Panic
        | _ => Ok []
        end;
  match punct two two_chars with
  | Some k => Ok (mkToken k two, drop 2 s)
  | None =>
      let one := take 1 s in
      k ← ok_or (punct one one_char) Code.ELex;
      Ok (mkToken k one, drop 1 s)
  end.

(** One turn of the loop. *)
Definition lex_step (s : bytes) : res ErrorCode (option Token * bytes) :=
  match s with
  | [] => Ok (None, [])
  | b :: r =>
      let next := head r in
      let some (x : res ErrorCode (Token * bytes)) := t ← x; Ok (Some t.1, t.2) in
      if is_ascii_whitespace b then Ok (None, r)
      else if (b =? 40) && bool_decide (next = Some 42) then
        r ← ok_or (skip_comment (tail r)) Code.ELex; Ok (None, r)
      else if (b =? 47) && bool_decide (next = Some 47) then
        Ok (None, (span (fun b => negb (b =? 10)) s).2)
      else if b =? 37 then some (lex_direct r)
      else if ((b =? 84) || (b =? 116)) && bool_decide (next = Some 35) then some (lex_time (tail r))
      else if is_ascii_digit b then some (Ok (lex_number s))
      else if is_ascii_alphabetic b || (b =? 95) then some (Ok (lex_word s))
      else some (lex_op s)
  end.

Fixpoint lex_loop (fuel : nat) (s : bytes) : option (res ErrorCode (list Token)) :=
  match s with
  | [] => Some (Ok [mkToken KEof []])
  | _ =>
      match fuel with
      | O => None
      | S fuel =>
          match lex_step s with
          | Ok (t, s) =>
              ts ← lex_loop fuel s;
              Some (match t with Some t => ts ← ts; Ok (t :: ts) | None => ts end)
          | Err e => Some (Err e)
          | Panic => Some Panic
          end
      end
  end.

Definition lex (source : bytes) : option (res ErrorCode (list Token)) := lex_loop (length source) source.
