(* ===== verification/CompParse.v ===== *)
(** * The compiler: parser

    Crate [plc-compiler], src/crates/plc-compiler/src/parse.rs, the recursive-descent
    parser. The tokens are never empty: the parser is its current token and those that
    follow. The nesting of the calls and the loops are bounded by [fuel]; [None] as an
    error stands for running out of it. The labels of a CASE arm are the one vector that
    may outgrow the source, since a range is expanded: how many of them memory holds is a
    parameter. *)
From S2P Require Import Prelude Text IrTypes CompAst CompLex.

Record Parser := mkParser { p_cur : Token; p_rest : list Token }.

Abbreviation P := (M Parser (option ErrorCode)).

(** How many [i64] a vector can hold: less than 2^60 by the capacity of a [Vec], and what
    the memory of the host allows. Growing past it stops the compiler. *)
Class LabelMemory := { label_limit : Z }.

Definition out_of_fuel {A} : P A := m_err None.
Definition fail {A} (c : ErrorCode) : P A := m_err (Some c).

(** [ok_or(..)?] and [map_err(..)?]. *)
Definition or_fail {A} (o : option A) (c : ErrorCode) : P A := m_lift (ok_or o (Some c)).

Definition peek : P Token := m_gets p_cur.
Definition peek_kind : P TokenKind := m_gets (fun p => tk_kind (p_cur p)).

(** The token after the current one, if any. *)
Definition peek_next : P (option TokenKind) := m_gets (fun p => tk_kind <$> head (p_rest p)).

Definition bump : P Token := fun p =>
  (match p_rest p with t :: ts => mkParser t ts | [] => p end, Ok (p_cur p)).

(** Kinds are compared by constructor, keywords by name too. *)
Definition kinds_eq (a b : TokenKind) : bool := bool_decide (a = b).

Definition expect (k : TokenKind) : P Token :=
  t ← peek; if kinds_eq (tk_kind t) k then bump else fail Code.EParse.

Definition expect_kw (k : string) : P Token := expect (KKeyword k).
Definition expect_ident : P bytes := t ← expect KIdent; mret (tk_text t).

(** [if self.peek_kind() == k { self.bump(); }], and whether it was. *)
Definition eat (k : TokenKind) : P bool :=
  k' ← peek_kind; if kinds_eq k' k then bump ;; mret true else mret false.

Definition excluded_code (k : string) : option ErrorCode :=
  str_match k [("VAR_IN_OUT", Code.EExcludedVarInOut); ("VAR_EXTERNAL", Code.EExcluded);
    ("REF_TO", Code.EExcludedPointer); ("ADR", Code.EExcludedPointer);
    ("STRING", Code.EExcludedString); ("WSTRING", Code.EExcludedString);
    ("REPEAT", Code.EExcludedLoopCtrl); ("UNTIL", Code.EExcludedLoopCtrl); ("END_REPEAT", Code.EExcludedLoopCtrl);
    ("EXIT", Code.EExcludedLoopCtrl); ("CONTINUE", Code.EExcludedLoopCtrl);
    ("METHOD", Code.EExcludedOop); ("CLASS", Code.EExcludedOop); ("INTERFACE", Code.EExcludedOop);
    ("CONFIGURATION", Code.EExcludedConfig); ("RESOURCE", Code.EExcludedConfig);
    ("LINT", Code.EExcluded); ("LREAL", Code.EExcluded)]%string.

Definition excluded_kind (k : TokenKind) : option ErrorCode :=
  match k with KKeyword k => excluded_code k | _ => None end.

Definition check_excluded_keyword : P unit :=
  k ← peek_kind; match excluded_kind k with Some c => fail c | None => mret tt end.

(** ** Numbers *)

Definition parse_int (limit : Z) (t : Token) : P Z := or_fail (parse_uint limit (tk_text t)) Code.EParse.

(** [split_once(':')]. *)
Fixpoint split_colon (s : bytes) : option (bytes * bytes) :=
  match s with
  | [] => None
  | b :: s => if b =? 58 then Some ([], s) else '(l, r) ← split_colon s; Some (b :: l, r)
  end.

Definition direct_plane (s : bytes) : option DirectPlane :=
  str_match (text s) [("I", DpI); ("Q", DpQ); ("M", DpM); ("R", DpR)]%string.

Definition parse_direct_addr (t : Token) : P DirectAddr :=
  parts ← or_fail (split_colon (tk_text t)) Code.ELex;
  plane ← or_fail (direct_plane parts.1) Code.ELex;
  index ← or_fail (parse_uint (2 ^ 32) parts.2) Code.ELex;
  mret (mkDirect plane index).

(** ** Expressions *)

Section Exprs.
Context (parse_expr : P Expr) (fuel : nat).

Definition name_path (e : Expr) : P (list (PathSeg Expr)) :=
  match e with EName path => mret path | _ => fail Code.EParse end.

(** One association of a call. *)
Definition call_arg (inputs : list (CallArg Expr)) (outputs : list (CallOut Expr)) :
    P (list (CallArg Expr) * list (CallOut Expr)) :=
  k ← peek_kind;
  next ← peek_next;
  if kinds_eq k KIdent && bool_decide (next = Some KAssign) then
    name ← bump; bump ;; value ← parse_expr;
    mret (inputs ++ [Named (tk_text name) value], outputs)
  else if kinds_eq k KIdent && bool_decide (next = Some KArrow) then
    name ← bump; bump ;; dest ← parse_expr;
    mret (inputs, outputs ++ [mkCallOut (tk_text name) dest])
  else
    e ← parse_expr; mret (inputs ++ [Positional e], outputs).

Fixpoint call_args (n : nat) (inputs : list (CallArg Expr)) (outputs : list (CallOut Expr)) :
    P (list (CallArg Expr) * list (CallOut Expr)) :=
  match n with
  | O => out_of_fuel
  | S n =>
      a ← call_arg inputs outputs;
      comma ← eat KComma;
      if (comma : bool) then call_args n a.1 a.2 else mret a
  end.

Definition finish_fb_call (callee : Expr) : P (FbCallExpr Expr) :=
  path ← name_path callee;
  expect KLParen ;;
  k ← peek_kind;
  a ← (if kinds_eq k KRParen then mret ([], []) else call_args fuel [] []);
  expect KRParen ;;
  mret (mkFbCall path a.1 a.2).

Definition parse_primary : P Expr :=
  check_excluded_keyword ;;
  t ← peek;
  match tk_kind t with
  | KIntLit => bump ;; v ← parse_int (2 ^ 63) t; mret (ELiteral (LInt v))
  | KRealLit => bump ;; v ← or_fail (parse_f32 (tk_text t)) Code.EParse; mret (ELiteral (LReal v))
  | KTimeLit => bump ;; v ← parse_int (2 ^ 31) t; mret (ELiteral (LTimeMs v))
  | KIdent =>
      bump ;;
      k ← peek_kind;
      if eq_ignore_ascii_case (tk_text t) (bstr "Q_GOOD") && kinds_eq k KLParen then
        bump ;; e ← parse_expr; expect KRParen ;; mret (EQGood e)
      else mret (EName [PIdent (tk_text t)])
  | KLParen => bump ;; e ← parse_expr; expect KRParen ;; mret e
  | KKeyword k =>
      e ← or_fail (str_match k [("TRUE", ELiteral (LBool true)); ("FALSE", ELiteral (LBool false));
        ("EN", EName [PIdent (bstr "EN")]); ("ENO", EName [PIdent (bstr "ENO")])]%string) Code.EParse;
      bump ;; mret e
  | _ => fail Code.EParse
  end.

(** The field name after a dot. *)
Definition field_name : P bytes :=
  t ← peek;
  match tk_kind t with
  | KIdent => bump ;; mret (tk_text t)
  | KKeyword k => bump ;; mret (bstr k)
  | _ => fail Code.EParse
  end.

Fixpoint postfix_loop (n : nat) (e : Expr) : P Expr :=
  match n with
  | O => out_of_fuel
  | S n =>
      k ← peek_kind;
      match k with
      | KDot => bump ;; f ← field_name; path ← name_path e; postfix_loop n (EName (path ++ [PIdent f]))
      | KLBracket =>
          bump ;; i ← parse_expr; expect KRBracket ;; path ← name_path e; postfix_loop n (EName (path ++ [PIndex i]))
      | KLParen => call ← finish_fb_call e; postfix_loop n (EFbCall call)
      | _ => mret e
      end
  end.

Definition parse_postfix : P Expr := e ← parse_primary; postfix_loop fuel e.

Fixpoint parse_unary (n : nat) : P Expr :=
  match n with
  | O => out_of_fuel
  | S n =>
      k ← peek_kind;
      if kinds_eq k (KKeyword "NOT") then bump ;; e ← parse_unary n; mret (EUnary UNot e)
      else if kinds_eq k KMinus then bump ;; e ← parse_unary n; mret (EUnary UNeg e)
      else parse_postfix
  end.

(** The loop of a level of left-associative operators. *)
Fixpoint chain_loop (ops : TokenKind -> option BinaryOp) (operand : P Expr) (n : nat) (left : Expr) : P Expr :=
  match n with
  | O => out_of_fuel
  | S n =>
      k ← peek_kind;
      match ops k with
      | Some op => bump ;; right ← operand; chain_loop ops operand n (EBinary op left right)
      | None => mret left
      end
  end.

Definition chain (ops : TokenKind -> option BinaryOp) (operand : P Expr) : P Expr :=
  left ← operand; chain_loop ops operand fuel left.

Definition mul_op (k : TokenKind) : option BinaryOp :=
  match k with KStar => Some BMul | KSlash => Some BDiv
  | KKeyword k => if String.eqb k "MOD" then Some BMod else None | _ => None end.
Definition add_op (k : TokenKind) : option BinaryOp :=
  match k with KPlus => Some BAdd | KMinus => Some BSub | _ => None end.
Definition compare_op (k : TokenKind) : option BinaryOp :=
  match k with
  | KEq => Some BEq | KNe => Some BNe | KLt => Some BLt | KLe => Some BLe | KGt => Some BGt | KGe => Some BGe
  | _ => None
  end.
Definition keyword_op (kw : string) (op : BinaryOp) (k : TokenKind) : option BinaryOp :=
  if kinds_eq k (KKeyword kw) then Some op else None.

Definition parse_mul : P Expr := chain mul_op (parse_unary fuel).
Definition parse_add : P Expr := chain add_op parse_mul.
Definition parse_compare : P Expr := chain compare_op parse_add.
Definition parse_xor : P Expr := chain (keyword_op "XOR" BXor) parse_compare.
Definition parse_and : P Expr := chain (keyword_op "AND" BAnd) parse_xor.
Definition parse_or : P Expr := chain (keyword_op "OR" BOr) parse_and.
End Exprs.

Fixpoint parse_expr (fuel : nat) : P Expr :=
  match fuel with O => out_of_fuel | S fuel => parse_or (parse_expr fuel) fuel end.

Section Memory.
Context `{memory : !LabelMemory}.

(** ** Statements *)

Section Stmts.
Context (parse_stmt : P Stmt) (fuel : nat).

Let expr : P Expr := parse_expr fuel.

(** Statements up to a token of [stop]. A label of a CASE arm never gets to its
    lookahead: an integer is a token of its [stop]. *)
Fixpoint stmt_loop (stop : list TokenKind) (n : nat) : P (list Stmt) :=
  match n with
  | O => out_of_fuel
  | S n =>
      k ← peek_kind;
      if kinds_eq k KEof || existsb (kinds_eq k) stop then mret []
      else s ← parse_stmt; ss ← stmt_loop stop n; mret (s :: ss)
  end.

Definition parse_stmt_list (stop : list TokenKind) : P (list Stmt) := stmt_loop stop fuel.

Definition if_stop : list TokenKind := [KKeyword "ELSIF"; KKeyword "ELSE"; KKeyword "END_IF"].

Definition if_branch : P (Expr * list Stmt) :=
  c ← expr; expect_kw "THEN" ;; b ← parse_stmt_list if_stop; mret (c, b).

Fixpoint elsif_loop (n : nat) : P (list (Expr * list Stmt)) :=
  match n with
  | O => out_of_fuel
  | S n =>
      more ← eat (KKeyword "ELSIF");
      if (more : bool) then b ← if_branch; bs ← elsif_loop n; mret (b :: bs) else mret []
  end.

(** An optional ELSE part. *)
Definition else_part (end_ : string) : P (option (list Stmt)) :=
  e ← eat (KKeyword "ELSE");
  if (e : bool) then ss ← parse_stmt_list [KKeyword end_]; mret (Some ss) else mret None.

(** The closing keyword with its optional semicolon. *)
Definition end_stmt (end_ : string) : P unit := expect_kw end_ ;; eat KSemi ;; mret tt.

Definition parse_if : P Stmt :=
  expect_kw "IF" ;;
  b ← if_branch;
  bs ← elsif_loop fuel;
  e ← else_part "END_IF";
  end_stmt "END_IF" ;;
  mret (SIf (b :: bs) e).

(** One label or range of labels, pushed after [labels]. A range that does not fit into
    memory stops the compiler; labels written one by one are as many as their tokens. *)
Definition case_label (labels : list Z) : P (list Z) :=
  lit ← expect KIntLit;
  v ← parse_int (2 ^ 63) lit;
  range ← eat KDotDot;
  if (range : bool) then
    hi ← expect KIntLit;
    hv ← parse_int (2 ^ 63) hi;
    if hv <? v then fail Code.EParse
    else if label_limit <? len labels + (hv - v + 1) then m_panic
    else mret (labels ++ seqZ v (hv - v + 1))
  else mret (labels ++ [v]).

Fixpoint label_loop (n : nat) (labels : list Z) : P (list Z) :=
  match n with
  | O => out_of_fuel
  | S n =>
      labels ← case_label labels;
      comma ← eat KComma;
      if (comma : bool) then label_loop n labels else mret labels
  end.

Definition arm_stop : list TokenKind := [KIntLit; KKeyword "ELSE"; KKeyword "END_CASE"].

Definition case_arm : P (CaseArm Stmt) :=
  ls ← label_loop fuel []; expect KColon ;; b ← parse_stmt_list arm_stop; mret (mkArm ls b).

Fixpoint arm_loop (n : nat) : P (list (CaseArm Stmt)) :=
  match n with
  | O => out_of_fuel
  | S n =>
      k ← peek_kind;
      if kinds_eq k (KKeyword "END_CASE") || kinds_eq k (KKeyword "ELSE") then mret []
      else a ← case_arm; as_ ← arm_loop n; mret (a :: as_)
  end.

Definition parse_case : P Stmt :=
  expect_kw "CASE" ;;
  sel ← expr;
  expect_kw "OF" ;;
  arms ← arm_loop fuel;
  e ← else_part "END_CASE";
  end_stmt "END_CASE" ;;
  mret (SCase sel arms e).

Definition parse_while (max_iter : option Z) : P Stmt :=
  expect_kw "WHILE" ;;
  c ← expr;
  expect_kw "DO" ;;
  b ← parse_stmt_list [KKeyword "END_WHILE"];
  end_stmt "END_WHILE" ;;
  mret (SWhile c max_iter b).

Definition parse_for (max_iter : option Z) : P Stmt :=
  expect_kw "FOR" ;;
  var ← expect_ident;
  expect KAssign ;;
  from ← expr;
  expect_kw "TO" ;;
  to ← expr;
  by_ ← eat (KKeyword "BY");
  by_ ← (if (by_ : bool) then e ← expr; mret (Some e) else mret None);
  expect_kw "DO" ;;
  b ← parse_stmt_list [KKeyword "END_FOR"];
  end_stmt "END_FOR" ;;
  mret (SFor var from to by_ max_iter b).

Definition parse_max_iter_attr : P Z :=
  expect KLBrace ;;
  id ← expect_ident;
  if eq_ignore_ascii_case id (bstr "max_iter") then
    expect KAssign ;; n ← expect KIntLit; v ← parse_int (2 ^ 32) n; expect KRBrace ;; mret v
  else fail Code.EParse.

(** An assignment or a call. *)
Definition simple_stmt : P Stmt :=
  e ← expr;
  assign ← eat KAssign;
  if (assign : bool) then rhs ← expr; expect KSemi ;; mret (SAssign e rhs)
  else match e with
  | EFbCall call => expect KSemi ;; mret (SFbCall call)
  | _ =>
      k ← peek_kind;
      if kinds_eq k KLParen then call ← finish_fb_call expr fuel e; expect KSemi ;; mret (SFbCall call)
      else fail Code.EParse
  end.

Definition stmt_body : P Stmt :=
  check_excluded_keyword ;;
  k ← peek_kind;
  max ← (if kinds_eq k KLBrace then v ← parse_max_iter_attr; mret (Some v) else mret None);
  k ← peek_kind;
  if kinds_eq k (KKeyword "IF") then parse_if
  else if kinds_eq k (KKeyword "CASE") then parse_case
  else if kinds_eq k (KKeyword "WHILE") then parse_while max
  else if kinds_eq k (KKeyword "FOR") then parse_for max
  else if kinds_eq k (KKeyword "RETURN") then expect_kw "RETURN" ;; expect KSemi ;; mret SReturn
  else if kinds_eq k KSemi then bump ;; mret SEmpty
  else match max with Some _ => fail Code.EParse | None => simple_stmt end.
End Stmts.

Fixpoint parse_stmt (fuel : nat) : P Stmt :=
  match fuel with O => out_of_fuel | S fuel => stmt_body (parse_stmt fuel) fuel end.

(** ** Declarations *)

Definition type_keyword (k : string) : bool :=
  existsb (String.eqb k) ["BOOL"; "INT"; "DINT"; "REAL"; "TIME"; "TON"; "TOF"; "TP"; "CTU"; "CTD"; "RS"; "SR"; "PID"]%string.

(** A type that is not an array. *)
Definition named_type_expr : P TypeExpr :=
  t ← peek;
  match tk_kind t with
  | KIdent => bump ;; mret (TNamed (tk_text t))
  | KKeyword k => if type_keyword k then bump ;; mret (TNamed (bstr k)) else fail Code.EParse
  | _ => fail Code.EParse
  end.

Fixpoint parse_type (fuel : nat) : P TypeExpr :=
  match fuel with
  | O => out_of_fuel
  | S fuel =>
      check_excluded_keyword ;;
      k ← peek_kind;
      if kinds_eq k (KKeyword "ARRAY") then
        bump ;;
        expect KLBracket ;;
        lo ← expect KIntLit;
        lo ← parse_int (2 ^ 63) lo;
        if negb (lo =? 0) then fail Code.EParse
        else
          expect KDotDot ;;
          hi ← expect KIntLit;
          upper ← parse_int (2 ^ 32) hi;
          expect KRBracket ;;
          expect_kw "OF" ;;
          elem ← parse_type fuel;
          mret (TArray upper elem)
      else named_type_expr
  end.

Section Decls.
Context (fuel : nat).

(** The address after AT. *)
Definition at_addr : P (option DirectAddr) :=
  has ← eat (KKeyword "AT");
  if (has : bool) then t ← expect KDirectAddr; a ← parse_direct_addr t; mret (Some a) else mret None.

Definition parse_var_decl : P VarDecl :=
  name ← expect_ident;
  addr ← at_addr;
  expect KColon ;;
  ty ← parse_type fuel;
  assign ← eat KAssign;
  init ← (if (assign : bool) then e ← parse_expr fuel; mret (Some e) else mret None);
  expect KSemi ;;
  mret (mkVarDecl name addr ty init).

Fixpoint var_loop (n : nat) : P (list VarDecl) :=
  match n with
  | O => out_of_fuel
  | S n =>
      k ← peek_kind;
      if kinds_eq k (KKeyword "END_VAR") then mret []
      else check_excluded_keyword ;; v ← parse_var_decl; vs ← var_loop n; mret (v :: vs)
  end.

Definition constant_or (kind : VarKind) : P VarKind :=
  c ← eat (KKeyword "CONSTANT"); mret (if (c : bool) then KConstant else kind).

Definition section_kind : P VarKind :=
  k ← peek_kind;
  if kinds_eq k (KKeyword "VAR_INPUT") then bump ;; mret KInput
  else if kinds_eq k (KKeyword "VAR_OUTPUT") then bump ;; mret KOutput
  else if kinds_eq k (KKeyword "VAR_RETAIN") then bump ;; mret KRetain
  else if kinds_eq k (KKeyword "VAR_GLOBAL") then bump ;; constant_or KGlobal
  else if kinds_eq k (KKeyword "VAR") then bump ;; constant_or KVar
  else if kinds_eq k (KKeyword "VAR_IN_OUT") then fail Code.EExcludedVarInOut
  else fail Code.EParse.

Definition parse_var_section : P VarSection :=
  kind ← section_kind; vars ← var_loop fuel; expect_kw "END_VAR" ;; mret (mkSection kind vars).

Definition section_start (k : TokenKind) : bool :=
  existsb (fun s => kinds_eq k (KKeyword s)) ["VAR"; "VAR_INPUT"; "VAR_OUTPUT"; "VAR_RETAIN"; "VAR_GLOBAL"]%string.

(** The body of a program or a function block, sections and statements mixed, up to [end_]. *)
Fixpoint decl_loop (end_ : string) (n : nat) : P (list VarSection * list Stmt) :=
  match n with
  | O => out_of_fuel
  | S n =>
      check_excluded_keyword ;;
      k ← peek_kind;
      if section_start k then
        v ← parse_var_section; r ← decl_loop end_ n; mret (v :: r.1, r.2)
      else if kinds_eq k (KKeyword end_) then expect_kw end_ ;; mret ([], [])
      else if kinds_eq k (KKeyword "FUNCTION_BLOCK") then fail Code.EExcludedNestedFbType
      else s ← parse_stmt fuel; r ← decl_loop end_ n; mret (r.1, s :: r.2)
  end.

Definition parse_program : P Program :=
  expect_kw "PROGRAM" ;;
  name ← expect_ident;
  r ← decl_loop "END_PROGRAM" fuel;
  mret (mkProgram name r.1 r.2).

Definition parse_fb : P FunctionBlock :=
  expect_kw "FUNCTION_BLOCK" ;;
  name ← expect_ident;
  r ← decl_loop "END_FUNCTION_BLOCK" fuel;
  mret (mkFb name r.1 r.2).

Fixpoint unit_loop (n : nat) : P CompilationUnit :=
  match n with
  | O => out_of_fuel
  | S n =>
      k ← peek_kind;
      if kinds_eq k KEof then mret []
      else
        check_excluded_keyword ;;
        d ← (if kinds_eq k (KKeyword "PROGRAM") then p ← parse_program; mret (DProgram p)
             else if kinds_eq k (KKeyword "FUNCTION_BLOCK") then f ← parse_fb; mret (DFunctionBlock f)
             else fail Code.EParse);
        ds ← unit_loop n;
        mret (d :: ds)
  end.

Definition parse_unit : P CompilationUnit := unit_loop fuel.
End Decls.

(** The parser on tokens, with [fuel] to spare. *)
Definition parse_tokens (ts : list Token) : option (res ErrorCode CompilationUnit) :=
  match ts with
  | [] => Some Panic
  | t :: rest =>
      match (parse_unit (S (S (length ts))) (mkParser t rest)).2 with
      | Ok u => Some (Ok u)
      | Err (Some c) => Some (Err c)
      | Err None => None
      | Panic => Some Panic
      end
  end.

Definition parse (source : bytes) : option (res ErrorCode CompilationUnit) :=
  ts ← lex source;
  match ts with
  | Ok ts => parse_tokens ts
  | Err c => Some (Err c)
  | Panic => Some Panic
  end.
End Memory.
