(* ===== verification/CompParseOk.v ===== *)
(** * The compiler: what the parser consumes

    The parser ends on every source, stops early only for a range of labels that does
    not fit into memory, and what it accepts contains none of the excluded keywords,
    except as the names of fields. *)
From S2P Require Import Prelude Float64 Text IrTypes CompAst CompLex CompParse.

(** ** Tokens *)

Definition tokens (p : Parser) : list Token := p_cur p :: p_rest p.

(** The end of file comes last, and only there. *)
Definition ends_file (ts : list Token) : Prop :=
  exists l e, ts = l ++ [e] /\ tk_kind e = KEof /\ Forall (fun t => tk_kind t <> KEof) l.

(** An excluded keyword only follows a dot. *)
Definition clean (ts : list Token) : Prop := forall i t, ts !! i = Some t -> excluded_kind (tk_kind t) <> None ->
  exists j d, i = S j /\ ts !! j = Some d /\ tk_kind d = KDot.

Lemma clean_app l k : clean l -> clean k -> clean (l ++ k).
Proof.
  intros Hl Hk i t Hi Ht. apply lookup_app_Some in Hi as [Hi|[Hge Hi]].
  - destruct (Hl i t Hi Ht) as (j & d & -> & Hj & Hd). exists j, d. split; [done|]. split; [by apply lookup_app_l_Some|done].
  - destruct (Hk _ t Hi Ht) as (j & d & Hij & Hj & Hd). exists (length l + j)%nat, d. split; [lia|]. split; [|done].
    rewrite lookup_app_r by lia. by replace (length l + j - length l)%nat with j by lia.
Qed.

Lemma clean_nil : clean [].
Proof. by intros i t. Qed.

Lemma clean_one t : excluded_kind (tk_kind t) = None -> clean [t].
Proof. intros Ht [|i] u Hu; [|done]. by injection Hu as <-. Qed.

Lemma clean_field d t : tk_kind d = KDot -> clean [d; t].
Proof.
  intros Hd [|[|i]] u Hu; [| |done]; injection Hu as <-; intros He.
  - by rewrite Hd in He.
  - by exists 0%nat, d.
Qed.

Lemma ends_file_split l ts : ends_file (l ++ ts) -> ts <> [] -> ends_file ts.
Proof.
  intros (k & e & Heq & He & Hk) Hts. destruct (exists_last Hts) as (ts' & x & ->).
  rewrite app_assoc in Heq. apply app_inj_tail in Heq as [<- ->]. apply Forall_app in Hk as [_ Hk].
  exists ts', e. done.
Qed.

(** How many labels the tokens can list, their ranges expanded. *)
Definition range_size (t : Token) (ts : list Token) : Z :=
  match ts with
  | d :: h :: _ =>
      if kinds_eq (tk_kind d) KDotDot then
        match parse_uint (2 ^ 63) (tk_text t), parse_uint (2 ^ 63) (tk_text h) with
        | Some lo, Some hi => hi - lo + 1
        | _, _ => 0
        end
      else 0
  | _ => 0
  end.

Fixpoint label_count (ts : list Token) : Z :=
  match ts with
  | [] => 0
  | t :: ts => (if kinds_eq (tk_kind t) KIntLit then Z.max 1 (range_size t ts) else 0) + label_count ts
  end.

Lemma label_count_app l ts : label_count ts <= label_count (l ++ ts).
Proof. induction l as [|t l IH]; cbn [app label_count]; [lia|]. case_match; lia. Qed.

(** ** What a computation consumes *)

Section Memory.
Context `{memory : !LabelMemory}.

(** The current token's kind is known. *)
Definition at_kind (c : option TokenKind) (p : Parser) : Prop :=
  match c with Some k => tk_kind (p_cur p) = k | None => True end.

(** An outcome that is a failure of the source, or has consumed [l] clean tokens. *)
Definition ate (l : nat) {A} (p : Parser) (out : Parser * res (option ErrorCode) A) : Prop :=
  match out with
  | (p', Ok _) => exists ts, tokens p = ts ++ tokens p' /\ (l <= length ts)%nat /\ clean ts
  | (_, Err e) => e <> None
  | (_, Panic) => label_limit < label_count (tokens p)
  end.

(** With fewer than [n] tokens after the current one [m] does not run out of fuel nor,
    unless the tokens list too many labels, stop, and a success has consumed at least [l] clean tokens. *)
Definition eats (c : option TokenKind) (n l : nat) {A} (m : P A) : Prop := forall p,
  ends_file (tokens p) -> (length (p_rest p) < n)%nat -> at_kind c p -> ate l p (m p).

Lemma ate_weaken {A} l l' p (out : Parser * res (option ErrorCode) A) : (l' <= l)%nat -> ate l p out -> ate l' p out.
Proof. intros Hl. destruct out as [p' [a|e|]]; cbn; [|done..]. intros (ts & H1 & H2 & H3). exists ts. split; [done|]. split; [lia|done]. Qed.

Lemma eats_weaken {A} c n n' l l' (m : P A) :
  eats c n l m -> (n' <= n)%nat -> (l' <= l)%nat -> eats c n' l' m.
Proof.
  intros Hm Hn Hl p Hp Hlen Hc. eapply ate_weaken; [exact Hl|]. by apply (Hm p Hp ltac:(lia)).
Qed.

Lemma eats_any {A} c n l (m : P A) : eats None n l m -> eats c n l m.
Proof. intros Hm p Hp Hlen _. by apply Hm. Qed.

Lemma eats_ret {A} c n (a : A) : eats c n 0 (mret a).
Proof. intros p Hp _ _. exists []. split; [done|]. split; [cbn; lia|apply clean_nil]. Qed.

Lemma eats_fail {A} c n l e : eats c n l (@fail A e).
Proof. intros p _ _ _. done. Qed.

Lemma eats_or_fail {A} c n (o : option A) e : eats c n 0 (or_fail o e).
Proof. destruct o; [apply eats_ret|apply eats_fail]. Qed.

(** First [m], then [f], with what [m] left. *)
Lemma eats_bind {A B} c n l1 l2 (m : P A) (f : A -> P B) :
  eats c n l1 m -> (forall a, eats None (n - l1) l2 (f a)) -> eats c n (l1 + l2) (m ≫= f).
Proof.
  intros Hm Hf p Hp Hlen Hc. specialize (Hm p Hp Hlen Hc). unfold mbind, M_bind.
  destruct (m p) as [p1 [a|e|]]; [|done..]. destruct Hm as (ts & Hts & Hl & Hcl).
  assert (Hlen1 : (length ts + length (p_rest p1) = length (p_rest p))%nat).
  { apply (f_equal length) in Hts. unfold tokens in Hts. rewrite length_app in Hts. cbn in Hts. lia. }
  specialize (Hf a p1). rewrite Hts in Hp. specialize (Hf (ends_file_split _ _ Hp ltac:(done)) ltac:(lia) I).
  destruct (f a p1) as [p2 [b|e|]]; [|done|unfold ate in *; rewrite Hts; pose proof (label_count_app ts (tokens p1)); lia].
  destruct Hf as (ts' & Hts' & Hl' & Hcl').
  exists (ts ++ ts'). rewrite Hts, Hts', app_assoc. split; [done|]. rewrite length_app. split; [lia|by apply clean_app].
Qed.

Lemma eats_peek_kind {A} c n l (f : TokenKind -> P A) :
  (forall k, (forall k', c = Some k' -> k' = k) -> eats (Some k) n l (f k)) -> eats c n l (peek_kind ≫= f).
Proof.
  intros Hf p Hp Hlen Hc. apply Hf; [|done|done|done]. intros k' ->. by symmetry.
Qed.

Lemma eats_peek {A} c n l (f : Token -> P A) :
  (forall t, (forall k', c = Some k' -> k' = tk_kind t) -> eats (Some (tk_kind t)) n l (f t)) -> eats c n l (peek ≫= f).
Proof.
  intros Hf p Hp Hlen Hc. apply Hf; [|done|done|done]. intros k' ->. by symmetry.
Qed.

Lemma eats_peek_next {A} c n l (f : option TokenKind -> P A) :
  (forall k, eats c n l (f k)) -> eats c n l (peek_next ≫= f).
Proof. intros Hf p Hp Hlen Hc. by apply Hf. Qed.

Lemma bump_next p : ends_file (tokens p) -> tk_kind (p_cur p) <> KEof ->
  exists p', bump p = (p', Ok (p_cur p)) /\ tokens p = p_cur p :: tokens p'.
Proof.
  intros (l & e & Heq & He & Hl) Hk. unfold bump. destruct p as [t [|u us]]; unfold tokens in *; cbn in *.
  - destruct l as [|x l]; [|by destruct l]. injection Heq as ->. done.
  - by exists (mkParser u us).
Qed.

Lemma eats_bump n k : k <> KEof -> excluded_kind k = None -> eats (Some k) n 1 bump.
Proof.
  intros Hk He p Hp Hlen Hc. cbn in Hc. destruct (bump_next p Hp) as (p' & -> & Ht); [by rewrite Hc|].
  exists [p_cur p]. split; [done|]. split; [done|]. apply clean_one. by rewrite Hc.
Qed.

(** Keywords and kinds that are expected are never excluded. *)
Lemma eats_expect c n k : k <> KEof -> excluded_kind k = None -> eats c n 1 (expect k).
Proof.
  intros Hk He. apply eats_peek. intros t _. unfold kinds_eq. case_bool_decide as Hkt; [|apply eats_fail].
  rewrite Hkt. by apply eats_bump.
Qed.

Lemma eats_assoc {A B C} c n l (m : P A) (g : A -> P B) (f : B -> P C) :
  eats c n l (m ≫= (fun a => g a ≫= f)) -> eats c n l ((m ≫= g) ≫= f).
Proof. intros Hm p Hp Hlen Hc. rewrite M_bind_assoc. by apply Hm. Qed.

Lemma eats_eat {A} c n l (k : TokenKind) (f : bool -> P A) :
  k <> KEof -> excluded_kind k = None ->
  eats None (n - 1) l (f true) -> (forall k', eats (Some k') n l (f false)) -> eats c n l (eat k ≫= f).
Proof.
  intros Hk He Ht Hf. unfold eat. apply eats_assoc, eats_peek_kind. intros k' _. unfold kinds_eq.
  case_bool_decide as Hkk; [|by apply Hf]. rewrite Hkk. apply eats_assoc.
  eapply eats_weaken; [apply (eats_bind _ n 1 l); [by apply eats_bump|intros; exact Ht]|lia..].
Qed.

Lemma eats_bind_assoc {A B C} c n l (m : P A) (g : P B) (f : B -> P C) :
  eats c n l ((m ;; g) ≫= f) -> eats c n l (m ;; x ← g; f x).
Proof. intros Hm p Hp Hlen Hc. specialize (Hm p Hp Hlen Hc). by rewrite M_bind_assoc in Hm. Qed.

Lemma eats_zero {A} c l (m : P A) : eats c 0 l m.
Proof. intros p _ Hlen. lia. Qed.

Lemma eats_then {A B} c n l l1 (m : P A) (f : A -> P B) :
  eats c n l1 m -> (forall a, eats None (n - l1) (l - l1) (f a)) -> eats c n l (m ≫= f).
Proof. intros Hm Hf. eapply eats_weaken; [by eapply eats_bind|lia..]. Qed.

Lemma eats_or_fail_then {A B} c n l (o : option A) e (f : A -> P B) :
  (forall a, eats c n l (f a)) -> eats c n l (or_fail o e ≫= f).
Proof. intros Hf p Hp Hlen Hc. destruct o; [by apply Hf|done]. Qed.

Lemma eats_ident c n : eats c n 1 expect_ident.
Proof. eapply eats_then; [by apply eats_expect|]. intros t. apply eats_ret. Qed.

Create HintDb eats discriminated.
#[local] Hint Resolve eats_ret eats_fail eats_ident eats_or_fail : eats.

(** One step of a computation: peek, compare, look at what is known, or apply a lemma. *)
#[local] Ltac known := first
  [ lazymatch goal with |- eats _ _ _ (fail _) => apply eats_fail end
  | lazymatch goal with |- eats _ _ _ (mret _) => apply eats_ret end
  | solve [eauto 2 with eats]
  | eapply eats_weaken; [solve [eauto 2 with eats]|lia|lia]
  | apply eats_any; eapply eats_weaken; [solve [eauto 2 with eats]|lia|lia] ].

#[local] Ltac eats_step := first
  [ known
  | lazymatch goal with
    | |- eats _ _ _ (peek_kind ≫= _) =>
        let k := fresh "k" in let Hk := fresh "Hk" in
        apply eats_peek_kind; intros k Hk; try (specialize (Hk _ eq_refl); subst k)
    | |- eats _ _ _ (peek ≫= _) =>
        let t := fresh "t" in let Ht := fresh "Ht" in
        apply eats_peek; intros t Ht; try specialize (Ht _ eq_refl)
    | |- eats _ _ _ (eat _ ≫= _) => apply eats_eat; [done|done| |intros ?]
    | |- eats _ _ _ (or_fail _ _ ≫= _) => apply eats_or_fail_then; intros ?
    | |- eats _ _ _ (parse_int _ _ ≫= _) => apply eats_or_fail_then; intros ?
    | |- eats (Some _) _ _ (bump ≫= _) => eapply eats_then; [apply eats_bump; done|intros ?]
    | |- eats _ _ _ (expect _ ≫= _) => eapply eats_then; [apply eats_expect; done|intros ?]
    | |- eats _ _ _ (expect_kw _ ≫= _) => eapply eats_then; [apply eats_expect; done|intros ?]
    | |- eats _ _ _ (expect_ident ≫= _) => eapply eats_then; [apply eats_ident|intros ?]
    | |- eats _ _ _ ((_ ≫= _) ≫= _) => apply eats_assoc
    | |- eats _ _ _ (if kinds_eq ?k ?x then _ else _) =>
        unfold kinds_eq at 1; case_bool_decide; [subst|]
    | |- eats _ _ _ ((if kinds_eq ?k ?x then _ else _) ≫= _) =>
        unfold kinds_eq at 1; case_bool_decide; [subst|]
    end
  | lazymatch goal with
    | |- eats _ _ _ (_ ≫= _) =>
        eapply eats_then;
          [first [solve [eauto 2 with eats]
                 |first [apply eats_any|idtac]; eapply eats_weaken; [solve [eauto 2 with eats]|lia|apply le_n]]|intros ?]
    end ].

Lemma eats_check {A} c n l (f : P A) :
  (forall k, (forall k', c = Some k' -> k' = k) -> excluded_kind k = None -> eats (Some k) n l f) ->
  eats c n l (check_excluded_keyword ;; f).
Proof.
  intros Hf. unfold check_excluded_keyword. apply eats_assoc, eats_peek_kind. intros k Hk.
  destruct (excluded_kind k) as [e|] eqn:E.
  - intros p _ _ _. done.
  - intros p Hp Hlen Hc. by apply (Hf k).
Qed.

Section Exprs.
Context (expr : P Expr) (N : nat).
Hypothesis Hexpr : eats None (N - 1) 1 expr.

#[local] Hint Resolve Hexpr : eats.

Lemma eats_path e c n : eats c n 0 (name_path e).
Proof. destruct e; cbn [name_path]; known. Qed.
#[local] Hint Resolve eats_path : eats.

(** Two tokens whose kinds are known. *)
Lemma eats_pair {A} p k2 n l (f : Token -> P A) :
  ends_file (tokens p) -> (length (p_rest p) < n)%nat -> tk_kind (p_cur p) = KIdent ->
  tk_kind <$> head (p_rest p) = Some k2 -> k2 <> KEof -> excluded_kind k2 = None ->
  (forall a, eats None (n - 2) l (f a)) ->
  ate (S (S l)) p ((name ← bump; bump ;; f name) p).
Proof.
  intros Hp Hlen Hk1 Hk2 Hk He Hf.
  assert (Hg : eats (Some k2) (n - 1) (S l) (bump ;; f (p_cur p))).
  { eapply eats_then; [by apply eats_bump|]. intros _. eapply eats_weaken; [apply Hf|lia..]. }
  destruct (bump_next p Hp) as (p1 & Hb & Ht); [by rewrite Hk1|].
  assert (Hc : tk_kind (p_cur p1) = k2).
  { destruct p as [t [|u us]]; [done|]. unfold tokens in Ht. cbn in *. injection Ht as -> _. by injection Hk2. }
  assert (Hp1 : ends_file (tokens p1)) by (rewrite Ht in Hp; by apply (ends_file_split [p_cur p]) in Hp).
  specialize (Hg p1 Hp1). unfold mbind at 1, M_bind at 1. rewrite Hb.
  apply (f_equal length) in Ht as Hl. unfold tokens in Hl. cbn in Hl. specialize (Hg ltac:(lia) Hc).
  destruct ((bump ;; f (p_cur p)) p1) as [p2 [a|e|]];
    [|done|unfold ate in *; rewrite Ht; pose proof (label_count_app [p_cur p] (tokens p1)); cbn [app] in *; lia].
  destruct Hg as (ts & Hts & Hlt & Hcl). exists (p_cur p :: ts). rewrite Ht, Hts. split; [done|].
  split; [cbn; lia|]. apply (clean_app [p_cur p]); [|done]. apply clean_one. by rewrite Hk1.
Qed.

Lemma eats_call_arg b i o : (b <= N - 1)%nat -> eats None b 1 (call_arg expr i o).
Proof.
  intros Hb p Hp Hlen _. unfold call_arg, peek_kind, peek_next, m_gets. unfold mbind at 1, M_bind at 1.
  unfold mbind at 1, M_bind at 1. cbn beta iota.
  assert (Hrest : forall (f : Expr -> P (list (CallArg Expr) * list (CallOut Expr))), (forall e, exists a, f e = mret a) ->
    eats None b 1 (e ← expr; f e)).
  { intros f Hf. apply (eats_then _ _ _ 1); [known|]. intros e. destruct (Hf e) as [a ->]. known. }
  assert (Htail : forall (f : Token -> Expr -> P (list (CallArg Expr) * list (CallOut Expr))), (forall t e, exists a, f t e = mret a) ->
    forall t, eats None (b - 2) 1 (e ← expr; f t e)).
  { intros f Hf t. apply (eats_then _ _ _ 1); [known|]. intros e. destruct (Hf t e) as [a ->]. known. }
  unfold kinds_eq. case_bool_decide as Hk; [|apply Hrest; [eauto|done|done|done]]. cbn [andb].
  case_bool_decide as Hn; [|case_bool_decide as Hn2]; [| |apply Hrest; [eauto|done|done|done]].
  - eapply ate_weaken; [|apply (eats_pair p KAssign b 1 (fun t => e ← expr; mret (i ++ [Named (tk_text t) e], o)) Hp Hlen Hk Hn ltac:(done) ltac:(done) (Htail _ ltac:(eauto)))]; lia.
  - eapply ate_weaken; [|apply (eats_pair p KArrow b 1 (fun t => e ← expr; mret (i, o ++ [mkCallOut (tk_text t) e])) Hp Hlen Hk Hn2 ltac:(done) ltac:(done) (Htail _ ltac:(eauto)))]; lia.
Qed.

Lemma eats_call_args m : forall b i o, (b <= m)%nat -> (b <= N - 1)%nat -> eats None b 1 (call_args expr m i o).
Proof.
  induction m as [|m IH]; intros b i o Hm Hb; [by replace b with 0%nat by lia; apply eats_zero|]. cbn [call_args].
  apply (eats_then _ _ _ 1); [by apply eats_call_arg|]. intros a. apply eats_eat; [done|done| |intros k].
  - eapply eats_weaken; [apply (IH (b - 2)%nat); lia|lia..].
  - known.
Qed.

Lemma eats_finish e : eats None N 2 (finish_fb_call expr N e).
Proof.
  unfold finish_fb_call. apply (eats_then _ _ _ 0); [known|]. intros path. eats_step.
  apply eats_peek_kind. intros k _. apply (eats_then _ _ _ 0).
  - case_match; [known|]. apply eats_any. eapply eats_weaken; [apply (eats_call_args N (N - 1)); lia|lia..].
  - intros r. do 2 eats_step.
Qed.
#[local] Hint Resolve eats_finish : eats.

Lemma eats_primary c : eats c N 1 (parse_primary expr).
Proof.
  unfold parse_primary. apply eats_check. intros k _ He. apply eats_peek. intros [k' tx] Ht. specialize (Ht k eq_refl).
  cbn [tk_kind tk_text] in *. subst k'. destruct k; try known; try (eats_step; repeat eats_step; fail).
  eats_step. eats_step. destruct (_ && _) eqn:E; [|known]. apply andb_prop in E as [_ E%bool_decide_eq_true]. subst.
  repeat eats_step.
Qed.

Lemma eats_field : eats (Some KDot) N 2 (bump ;; field_name).
Proof.
  intros p Hp Hlen Hc. cbn in Hc. destruct (bump_next p Hp) as (p1 & Hb & Ht); [by rewrite Hc|].
  unfold mbind, M_bind. rewrite Hb. unfold field_name, peek, m_gets, mbind, M_bind.
  assert (Hp1 : ends_file (tokens p1)) by (rewrite Ht in Hp; by apply (ends_file_split [p_cur p]) in Hp).
  destruct (tk_kind (p_cur p1)) eqn:E; try done;
    (destruct (bump_next p1 Hp1) as (p2 & -> & Ht2); [by rewrite E|]; exists [p_cur p; p_cur p1];
     rewrite Ht, Ht2; split; [done|]; split; [done|by apply clean_field]).
Qed.

Lemma eats_postfix m : forall b c e, (b <= m)%nat -> (b <= N)%nat -> eats c b 0 (postfix_loop expr N m e).
Proof.
  induction m as [|m IH]; intros b c e Hm Hb; [by replace b with 0%nat by lia; apply eats_zero|]. cbn [postfix_loop].
  assert (Hloop : forall b' e', (b' < b)%nat -> eats None b' 0 (postfix_loop expr N m e')) by (intros; apply IH; lia).
  apply eats_peek_kind. intros k _. destruct (decide (b = 0)%nat) as [->|Hb0]; [apply eats_zero|].
  destruct k; try apply eats_ret.
  - apply (eats_then _ _ _ 1); [apply eats_any; eapply eats_weaken; [apply eats_finish|lia..]|].
    intros call. apply Hloop. lia.
  - eats_step. eats_step. eats_step. apply (eats_then _ _ _ 0); [apply eats_path|]. intros path. apply Hloop. lia.
  - apply eats_bind_assoc. apply (eats_then _ _ _ 2); [by eapply eats_weaken; [apply eats_field|lia..]|]. intros f.
    apply (eats_then _ _ _ 0); [apply eats_path|]. intros path. apply Hloop. lia.
Qed.

Lemma eats_parse_postfix c : eats c N 1 (parse_postfix expr N).
Proof.
  unfold parse_postfix. apply (eats_then _ _ _ 1); [apply eats_primary|]. intros e. apply eats_postfix; lia.
Qed.

Lemma eats_unary m : forall b c, (b <= m)%nat -> (b <= N)%nat -> eats c b 1 (parse_unary expr N m).
Proof.
  induction m as [|m IH]; intros b c Hm Hb; [by replace b with 0%nat by lia; apply eats_zero|]. cbn [parse_unary].
  assert (Hrec : forall op, eats None (b - 1) 0 (e ← parse_unary expr N m; mret (EUnary op e))).
  { intros op. apply (eats_then _ _ _ 1); [apply IH; lia|]. intros e. apply eats_ret. }
  apply eats_peek_kind. intros k _. unfold kinds_eq. case_bool_decide; [subst|case_bool_decide; [subst|]].
  - eats_step. apply Hrec.
  - eats_step. apply Hrec.
  - eapply eats_weaken; [apply eats_parse_postfix|lia..].
Qed.

(** The kinds of operators are not excluded. *)
Definition ops_ok (ops : TokenKind -> option BinaryOp) : Prop :=
  forall k op, ops k = Some op -> k <> KEof /\ excluded_kind k = None.

Lemma eats_chain_loop ops operand m : forall b e, ops_ok ops -> eats None N 1 operand -> (b <= m)%nat -> (b <= N)%nat ->
  eats None b 0 (chain_loop ops operand m e).
Proof.
  induction m as [|m IH]; intros b e Ho Hop Hm Hb; [by replace b with 0%nat by lia; apply eats_zero|]. cbn [chain_loop].
  apply eats_peek_kind. intros k _. destruct (ops k) as [op|] eqn:E; [|apply eats_ret].
  destruct (Ho _ _ E) as [Hk He]. apply (eats_then _ _ _ 1); [by apply eats_bump|]. intros _.
  apply (eats_then _ _ _ 1); [eapply eats_weaken; [exact Hop|lia..]|]. intros r.
  destruct (decide (b = 0)%nat) as [->|Hb0]; [apply eats_zero|]. apply IH; [done|done|lia..].
Qed.

Lemma eats_chain ops operand : ops_ok ops -> eats None N 1 operand -> eats None N 1 (chain N ops operand).
Proof.
  intros Ho Hop. unfold chain. apply (eats_then _ _ _ 1); [done|]. intros e. apply eats_chain_loop; [done|done|lia..].
Qed.

Lemma keyword_ops_ok kw op : excluded_code kw = None -> ops_ok (keyword_op kw op).
Proof. intros He k o Hk. unfold keyword_op, kinds_eq in Hk. by case_bool_decide; subst. Qed.

Lemma eats_or : eats None N 1 (parse_or expr N).
Proof.
  do 3 (apply eats_chain; [by apply keyword_ops_ok|]).
  apply eats_chain; [by intros [] op|]. apply eats_chain; [by intros [] op|].
  apply eats_chain; [|by apply eats_unary].
  intros [] op Hk; try done. cbn in Hk. destruct (String.eqb_spec k "MOD") as [->|]; [done|done].
Qed.
End Exprs.

Lemma eats_expr n : eats None (n - 1) 1 (parse_expr n).
Proof.
  induction n as [|n IH]; [apply eats_zero|]. cbn [parse_expr]. rewrite Nat.sub_1_r. cbn [Nat.pred]. by apply eats_or.
Qed.

(** ** Statements *)

Section Stmts.
Context (stmt : P Stmt) (N : nat).
Hypothesis Hstmt : eats None (N - 2) 1 stmt.

Lemma eats_sub_expr : eats None (N - 1) 1 (parse_expr N).
Proof. apply eats_expr. Qed.
#[local] Hint Resolve eats_sub_expr : eats.

Lemma eats_stmt_loop stop m : forall b, (b <= m)%nat -> (b <= N - 2)%nat -> eats None b 0 (stmt_loop stmt stop m).
Proof.
  induction m as [|m IH]; intros b Hm Hb; [by replace b with 0%nat by lia; apply eats_zero|]. cbn [stmt_loop].
  apply eats_peek_kind. intros k _. case_match; [apply eats_ret|].
  destruct (decide (b = 0)%nat) as [->|Hb0]; [apply eats_zero|].
  apply (eats_then _ _ _ 1); [apply eats_any; eapply eats_weaken; [exact Hstmt|lia..]|]. intros s.
  apply (eats_then _ _ _ 0); [apply IH; lia|]. intros ss. apply eats_ret.
Qed.

Lemma eats_list stop : eats None (N - 2) 0 (parse_stmt_list stmt N stop).
Proof. apply eats_stmt_loop; lia. Qed.
#[local] Hint Resolve eats_list : eats.

Lemma eats_if_branch : eats None (N - 2) 2 (if_branch stmt N).
Proof. unfold if_branch. repeat eats_step. Qed.
#[local] Hint Resolve eats_if_branch : eats.

Lemma eats_elsif m : forall b, (b <= m)%nat -> (b <= N - 2)%nat -> eats None b 0 (elsif_loop stmt N m).
Proof.
  induction m as [|m IH]; intros b Hm Hb; [by replace b with 0%nat by lia; apply eats_zero|]. cbn [elsif_loop].
  destruct (decide (b = 0)%nat) as [->|Hb0]; [apply eats_zero|].
  apply eats_eat; [done|done| |intros; apply eats_ret].
  apply (eats_then _ _ _ 2); [eapply eats_weaken; [apply eats_if_branch|lia..]|]. intros x.
  apply (eats_then _ _ _ 0); [|intros; apply eats_ret].
  destruct (decide (b - 3 = 0)%nat) as [E|E]; [|apply IH; lia]. eapply eats_weaken; [apply (IH (b - 1)%nat); lia|lia..].
Qed.

Lemma eats_else end_ : eats None (N - 2) 0 (else_part stmt N end_).
Proof. unfold else_part. repeat eats_step. Qed.

Lemma eats_end end_ n : excluded_code end_ = None -> eats None n 1 (end_stmt end_).
Proof.
  intros He. unfold end_stmt. apply (eats_then _ _ _ 1); [by apply eats_expect|]. intros _. repeat eats_step.
Qed.
#[local] Hint Resolve eats_else eats_end : eats.

Lemma eats_if c : eats c (N - 1) 1 (parse_if stmt N).
Proof.
  unfold parse_if. eats_step. apply (eats_then _ _ _ 2); [eapply eats_weaken; [apply eats_if_branch|lia..]|]. intros br.
  apply (eats_then _ _ _ 0); [eapply eats_weaken; [apply (eats_elsif N (N - 2)); lia|lia..]|]. intros bs.
  apply (eats_then _ _ _ 0); [eapply eats_weaken; [apply eats_else|lia..]|]. intros e.
  apply (eats_then _ _ _ 1); [by apply eats_end|]. intros _. known.
Qed.

(** Some labels of an arm, after [ls]. *)
Definition lists (ls : list Z) (n : nat) (p : Parser) (out : Parser * res (option ErrorCode) (list Z)) : Prop :=
  match out with
  | (p', Ok ls') => (exists ts, tokens p = ts ++ tokens p' /\ (n <= length ts)%nat /\ clean ts) /\
      len ls' + label_count (tokens p') <= len ls + label_count (tokens p)
  | (_, Err e) => e <> None
  | (_, Panic) => label_limit < len ls + label_count (tokens p)
  end.

Lemma bind_at {A B} (m : P A) (f : A -> P B) p p' a : m p = (p', Ok a) -> (m ≫= f) p = f a p'.
Proof. intros Hm. unfold mbind, M_bind. by rewrite Hm. Qed.

Lemma bind_fails {A B} (m : P A) (f : A -> P B) p p' e : m p = (p', Err e) -> (m ≫= f) p = (p', Err e).
Proof. intros Hm. unfold mbind, M_bind. by rewrite Hm. Qed.

Lemma expect_at k p : ends_file (tokens p) -> k <> KEof ->
  expect k p = (p, Err (Some Code.EParse)) \/ exists p', expect k p = (p', Ok (p_cur p)) /\
    tokens p = p_cur p :: tokens p' /\ tk_kind (p_cur p) = k /\ ends_file (tokens p').
Proof.
  intros Hp Hk. unfold expect. rewrite (bind_at peek _ p p (p_cur p) eq_refl). unfold kinds_eq. case_bool_decide as E; [|by left].
  right. destruct (bump_next p Hp) as (p' & -> & Ht); [congruence|]. exists p'. split; [done|]. split; [done|]. split; [done|].
  rewrite Ht in Hp. by eapply (ends_file_split [_]).
Qed.

Lemma eat_at k p : ends_file (tokens p) -> k <> KEof ->
  (eat k p = (p, Ok false) /\ tk_kind (p_cur p) <> k) \/ exists p', eat k p = (p', Ok true) /\
    tokens p = p_cur p :: tokens p' /\ tk_kind (p_cur p) = k /\ ends_file (tokens p').
Proof.
  intros Hp Hk. unfold eat. rewrite (bind_at peek_kind _ p p (tk_kind (p_cur p)) eq_refl). unfold kinds_eq.
  case_bool_decide as E; [|by left].
  right. destruct (bump_next p Hp) as (p' & Hb & Ht); [congruence|]. exists p'. rewrite (bind_at _ _ _ _ _ Hb).
  split; [done|]. split; [done|]. split; [done|]. rewrite Ht in Hp. by eapply (ends_file_split [_]).
Qed.

Lemma parse_int_at limit t p :
  (exists v, parse_uint limit (tk_text t) = Some v /\ parse_int limit t p = (p, Ok v)) \/ parse_int limit t p = (p, Err (Some Code.EParse)).
Proof. unfold parse_int, or_fail, m_lift. destruct (parse_uint limit (tk_text t)) as [v|]; [left; by exists v|by right]. Qed.

Lemma clean_kinds ts : Forall (fun t => excluded_kind (tk_kind t) = None) ts -> clean ts.
Proof. intros Hts i t Hi He. by rewrite Forall_forall in Hts; rewrite Hts in He by (by eapply list_elem_of_lookup_2). Qed.

Lemma case_label_lists ls p : ends_file (tokens p) -> lists ls 1 p (case_label ls p).
Proof.
  intros Hp. unfold case_label.
  destruct (expect_at KIntLit p Hp ltac:(done)) as [E|(p1 & E & T1 & K1 & F1)]; [by rewrite (bind_fails _ _ _ _ _ E)|].
  rewrite (bind_at _ _ _ _ _ E).
  destruct (parse_int_at (2 ^ 63) (p_cur p) p1) as [(v & Hv & I)|I]; [|by rewrite (bind_fails _ _ _ _ _ I)].
  rewrite (bind_at _ _ _ _ _ I).
  destruct (eat_at KDotDot p1 F1 ltac:(done)) as [[D _]|(p2 & D & T2 & K2 & F2)]; rewrite (bind_at _ _ _ _ _ D).
  { unfold lists. cbn [mret M_ret]. rewrite T1, len_app. cbn [label_count]. rewrite K1. change (kinds_eq KIntLit KIntLit) with true. cbn iota.
    split; [|change (len [v]) with 1; lia]. exists [p_cur p]. split; [done|]. split; [done|]. apply clean_kinds. by rewrite Forall_singleton, K1. }
  destruct (expect_at KIntLit p2 F2 ltac:(done)) as [E2|(p3 & E2 & T3 & K3 & F3)]; [by rewrite (bind_fails _ _ _ _ _ E2)|].
  rewrite (bind_at _ _ _ _ _ E2).
  destruct (parse_int_at (2 ^ 63) (p_cur p2) p3) as [(hv & Hhv & I2)|I2]; [|by rewrite (bind_fails _ _ _ _ _ I2)].
  rewrite (bind_at _ _ _ _ _ I2). destruct (Z.ltb_spec hv v) as [|Hle]; [done|].
  assert (Hc : hv - v + 1 + label_count (tokens p3) <= label_count (tokens p)).
  { rewrite T1, T2, T3. cbn [label_count range_size]. rewrite K1, K2, K3, Hv, Hhv.
    change (kinds_eq KIntLit KIntLit) with true. change (kinds_eq KDotDot KDotDot) with true.
    change (kinds_eq KDotDot KIntLit) with false. cbn iota. lia. }
  destruct (Z.ltb_spec label_limit (len ls + (hv - v + 1))) as [Hlim|_]; unfold lists; cbn [mret M_ret m_panic].
  - assert (0 <= label_count (tokens p3)) by (pose proof (label_count_app (tokens p3) []) as H0; rewrite app_nil_r in H0; exact H0). lia.
  - split; [|rewrite len_app; unfold len; rewrite length_seqZ; lia].
    exists [p_cur p; p_cur p1; p_cur p2]. rewrite T1, T2, T3. split; [done|]. split; [cbn; lia|]. apply clean_kinds.
    repeat constructor; rewrite ?K1, ?K2, ?K3; done.
Qed.

Lemma label_loop_lists m : forall ls p, ends_file (tokens p) -> (length (p_rest p) < m)%nat -> lists ls 1 p (label_loop m ls p).
Proof.
  induction m as [|m IH]; intros ls p Hp Hm; [lia|]. cbn [label_loop]. pose proof (case_label_lists ls p Hp) as Hl.
  destruct (case_label ls p) as [p1 [ls1|e|]] eqn:E.
  2: { by rewrite (bind_fails _ _ _ _ _ E). }
  2: { unfold mbind, M_bind. by rewrite E. }
  rewrite (bind_at _ _ _ _ _ E). destruct Hl as [(ts & T1 & Hn & Hc) Hle].
  assert (F1 : ends_file (tokens p1)) by (rewrite T1 in Hp; by eapply ends_file_split).
  assert (Hlen : (length ts + length (p_rest p1) = length (p_rest p))%nat).
  { apply (f_equal length) in T1. unfold tokens in T1. rewrite length_app in T1. cbn in T1. lia. }
  destruct (eat_at KComma p1 F1 ltac:(done)) as [[D _]|(p2 & D & T2 & K2 & F2)]; rewrite (bind_at _ _ _ _ _ D).
  { split; [by exists ts|exact Hle]. }
  assert (Hlen2 : length (p_rest p1) = S (length (p_rest p2))).
  { apply (f_equal length) in T2. unfold tokens in T2. cbn in T2. lia. }
  specialize (IH ls1 p2 F2 ltac:(lia)). assert (Hc1 : label_count (tokens p1) = label_count (tokens p2)).
  { rewrite T2. cbn [label_count]. rewrite K2. change (kinds_eq KComma KIntLit) with false. done. }
  unfold lists in *. destruct (label_loop m ls1 p2) as [p3 [ls2|e|]]; [|done|lia].
  destruct IH as [(ts' & T3 & _ & Hc') Hle']. split; [|lia]. exists (ts ++ p_cur p1 :: ts').
  rewrite T1, T2, T3, <-app_assoc. split; [done|]. rewrite length_app. split; [cbn; lia|]. apply clean_app; [done|].
  change (p_cur p1 :: ts') with ([p_cur p1] ++ ts'). apply clean_app; [|done]. apply clean_kinds. by rewrite Forall_singleton, K2.
Qed.

Lemma eats_labels m b : (b <= m)%nat -> eats None b 1 (label_loop m []).
Proof.
  intros Hm p Hp Hlen _. pose proof (label_loop_lists m [] p Hp ltac:(lia)) as Hl. unfold lists, ate in *.
  destruct (label_loop m [] p) as [p' [ls|e|]]; [by destruct Hl|done|].
  by change (len []) with 0 in Hl.
Qed.

Lemma eats_arm : eats None (N - 2) 2 (case_arm stmt N).
Proof.
  unfold case_arm. apply (eats_then _ _ _ 1); [apply eats_labels; lia|]. intros l. repeat eats_step.
Qed.

Lemma eats_arms m : forall b, (b <= m)%nat -> (b <= N - 2)%nat -> eats None b 0 (arm_loop stmt N m).
Proof.
  induction m as [|m IH]; intros b Hm Hb; [by replace b with 0%nat by lia; apply eats_zero|]. cbn [arm_loop].
  apply eats_peek_kind. intros k _. case_match; [apply eats_ret|].
  apply (eats_then _ _ _ 2); [apply eats_any; eapply eats_weaken; [apply eats_arm|lia..]|]. intros a.
  apply (eats_then _ _ _ 0); [|intros; apply eats_ret].
  eapply eats_weaken; [apply (IH (b - 2)%nat); lia|lia..].
Qed.

Lemma eats_case c : eats c (N - 1) 1 (parse_case stmt N).
Proof.
  unfold parse_case. do 3 eats_step. apply (eats_then _ _ _ 0); [eapply eats_weaken; [apply (eats_arms N (N - 2)); lia|lia..]|].
  intros arms. apply (eats_then _ _ _ 0); [eapply eats_weaken; [apply eats_else|lia..]|]. intros e.
  apply (eats_then _ _ _ 1); [by apply eats_end|]. intros _. known.
Qed.

Lemma eats_while mx c : eats c (N - 1) 1 (parse_while stmt N mx).
Proof.
  unfold parse_while. do 4 eats_step. apply (eats_then _ _ _ 1); [by apply eats_end|]. intros _. known.
Qed.

Lemma eats_for mx c : eats c (N - 1) 1 (parse_for stmt N mx).
Proof.
  unfold parse_for. do 6 eats_step. apply eats_eat; [done|done| |intros k].
  - do 4 eats_step. eats_step. apply (eats_then _ _ _ 1); [by apply eats_end|]. intros _. known.
  - do 2 eats_step. eats_step. apply (eats_then _ _ _ 1); [by apply eats_end|]. intros _. known.
Qed.

Lemma eats_max_iter c n : eats c n 1 parse_max_iter_attr.
Proof. unfold parse_max_iter_attr. do 2 eats_step. case_match; [|known]. repeat eats_step. Qed.

Lemma eats_simple c : eats c (N - 1) 1 (simple_stmt N).
Proof.
  unfold simple_stmt. apply (eats_then _ _ _ 1); [apply eats_any, eats_expr|]. intros e.
  apply eats_eat; [done|done| |intros k]; [repeat eats_step|].
  assert (Hcall : forall e, eats (Some k) (N - 1) 0
    (k ← peek_kind; if kinds_eq k KLParen then call ← finish_fb_call (parse_expr N) N e; expect KSemi ;; mret (SFbCall call)
     else fail Code.EParse)).
  { intros e'. apply eats_peek_kind. intros k' _. unfold kinds_eq. case_bool_decide; [|known].
    apply (eats_then _ _ _ 2); [|intros call; repeat eats_step].
    apply eats_any. eapply eats_weaken; [apply (eats_finish _ N), eats_expr|lia..]. }
  destruct e; try (eapply eats_weaken; [apply Hcall|lia..]). repeat eats_step.
Qed.

Lemma eats_stmt_body : eats None (N - 1) 1 (stmt_body stmt N).
Proof.
  unfold stmt_body. apply eats_check. intros k _ He. apply eats_peek_kind. intros k0 Hk0. specialize (Hk0 _ eq_refl). subst k0.
  set (f := fun max : option Z => _). assert (Hf : forall max b, (b <= N - 1)%nat -> eats None b 1 (f max)).
  { intros max b Hb. unfold f. apply eats_peek_kind. intros k' _. unfold kinds_eq.
    do 4 (case_bool_decide; [eapply eats_weaken; [first [apply eats_if|apply eats_case|apply eats_while|apply eats_for]|lia..]|]).
    case_bool_decide; [repeat eats_step|]. case_bool_decide; [subst; repeat eats_step|].
    destruct max; [known|]. eapply eats_weaken; [apply eats_simple|lia..]. }
  destruct (kinds_eq k KLBrace) eqn:E.
  - apply bool_decide_eq_true in E as ->. apply eats_assoc. apply (eats_then _ _ _ 1); [apply eats_max_iter|]. intros v.
    apply (eats_then _ _ _ 0); [apply eats_ret|]. intros max. eapply eats_weaken; [apply (Hf max (N - 1 - 1)%nat); lia|lia..].
  - apply (eats_then _ _ _ 0); [apply eats_ret|]. intros max. eapply eats_weaken; [apply (Hf max (N - 1)%nat); lia|lia..].
Qed.
End Stmts.

Lemma eats_stmt n : eats None (n - 2) 1 (parse_stmt n).
Proof.
  induction n as [|n IH]; [apply eats_zero|]. cbn [parse_stmt].
  replace (S n - 2)%nat with (n - 1)%nat by lia. by apply eats_stmt_body.
Qed.

(** ** Declarations *)

Lemma eats_type n : forall c, eats c n 1 (parse_type n).
Proof.
  induction n as [|n IH]; intros c; [apply eats_zero|]. cbn [parse_type]. apply eats_check. intros k _ He.
  apply eats_peek_kind. intros k0 Hk0. specialize (Hk0 _ eq_refl). subst k0. unfold kinds_eq. case_bool_decide; [subst|].
  - do 4 eats_step. case_match; [known|]. do 4 eats_step. eats_step. apply (eats_then _ _ _ 1); [|intros; known].
    eapply eats_weaken; [apply IH|lia..].
  - unfold named_type_expr. apply eats_peek. intros [k' tx] Ht. specialize (Ht k eq_refl). cbn [tk_kind tk_text] in *. subst k'.
    destruct k; try known; [repeat eats_step|]. case_match; [|known]. repeat eats_step.
Qed.

Section Decls.
Context (N : nat).

Lemma eats_at_addr n : eats None n 0 at_addr.
Proof.
  unfold at_addr. eats_step; [|known]. eats_step. unfold parse_direct_addr. eats_step. repeat eats_step.
Qed.

Lemma eats_var_decl c : eats c N 1 (parse_var_decl N).
Proof.
  unfold parse_var_decl. eats_step. apply (eats_then _ _ _ 0); [apply eats_at_addr|]. intros addr. eats_step.
  apply (eats_then _ _ _ 1); [eapply eats_weaken; [apply eats_type|lia..]|]. intros ty.
  apply eats_eat; [done|done| |intros k].
  - apply eats_assoc. apply (eats_then _ _ _ 1); [eapply eats_weaken; [apply eats_expr|lia..]|]. intros e. repeat eats_step.
  - repeat eats_step.
Qed.

Lemma eats_vars m : forall b, (b <= m)%nat -> (b <= N)%nat -> eats None b 0 (var_loop N m).
Proof.
  induction m as [|m IH]; intros b Hm Hb; [by replace b with 0%nat by lia; apply eats_zero|]. cbn [var_loop].
  apply eats_peek_kind. intros k _. case_match; [apply eats_ret|].
  apply eats_check. intros k' _ _. destruct (decide (b = 0)%nat) as [->|Hb0]; [apply eats_zero|].
  apply (eats_then _ _ _ 1); [eapply eats_weaken; [apply eats_var_decl|lia..]|]. intros v.
  apply (eats_then _ _ _ 0); [apply IH; lia|]. intros vs. apply eats_ret.
Qed.

Lemma eats_constant_or k n : eats None n 0 (constant_or k).
Proof. unfold constant_or. repeat eats_step. Qed.

Lemma eats_section_kind c n : eats c n 1 section_kind.
Proof.
  unfold section_kind. apply eats_peek_kind. intros k _. unfold kinds_eq.
  repeat (case_bool_decide; [subst; first [known|eats_step; first [known|apply eats_constant_or]]|]).
  known.
Qed.

Lemma eats_section c : eats c N 2 (parse_var_section N).
Proof.
  unfold parse_var_section. apply (eats_then _ _ _ 1); [apply eats_section_kind|]. intros kind.
  apply (eats_then _ _ _ 0); [eapply eats_weaken; [apply (eats_vars N N); lia|lia..]|]. intros vs. repeat eats_step.
Qed.

Lemma eats_decls end_ m : excluded_code end_ = None -> forall b, (b <= m)%nat -> (b <= N - 2)%nat ->
  eats None b 1 (decl_loop N end_ m).
Proof.
  intros He. induction m as [|m IH]; intros b Hm Hb; [by replace b with 0%nat by lia; apply eats_zero|]. cbn [decl_loop].
  destruct (decide (b = 0)%nat) as [->|Hb0]; [apply eats_zero|].
  assert (Hrest : forall A (f : _ -> P A), (forall r, exists a, f r = mret a) -> eats None (b - 1) 0 (r ← decl_loop N end_ m; f r)).
  { intros A f Hf. apply (eats_then _ _ _ 0); [|intros r; destruct (Hf r) as [a ->]; apply eats_ret].
    eapply eats_weaken; [apply (IH (b - 1)%nat); lia|lia..]. }
  apply eats_check. intros k _ _. apply eats_peek_kind. intros k0 _. case_match.
  - apply (eats_then _ _ _ 2); [eapply eats_weaken; [apply eats_section|lia..]|]. intros v.
    eapply eats_weaken; [apply (Hrest _ (fun r => mret (v :: r.1, r.2))); eauto|lia..].
  - unfold kinds_eq. case_bool_decide; [apply (eats_then _ _ _ 1); [by apply eats_expect|intros; known]|].
    case_bool_decide; [known|].
    apply (eats_then _ _ _ 1); [apply eats_any; eapply eats_weaken; [apply eats_stmt|lia..]|]. intros s.
    apply (Hrest _ (fun r => mret (r.1, s :: r.2))). eauto.
Qed.

Lemma eats_program c : eats c (N - 2) 1 (parse_program N).
Proof.
  unfold parse_program. do 2 eats_step. apply (eats_then _ _ _ 1); [|intros; known].
  eapply eats_weaken; [apply (eats_decls "END_PROGRAM" N eq_refl (N - 2)); lia|lia..].
Qed.

Lemma eats_fb c : eats c (N - 2) 1 (parse_fb N).
Proof.
  unfold parse_fb. do 2 eats_step. apply (eats_then _ _ _ 1); [|intros; known].
  eapply eats_weaken; [apply (eats_decls "END_FUNCTION_BLOCK" N eq_refl (N - 2)); lia|lia..].
Qed.

Lemma eats_unit m : forall b, (b <= m)%nat -> (b <= N - 2)%nat -> eats None b 0 (unit_loop N m).
Proof.
  induction m as [|m IH]; intros b Hm Hb; [by replace b with 0%nat by lia; apply eats_zero|]. cbn [unit_loop].
  destruct (decide (b = 0)%nat) as [->|Hb0]; [apply eats_zero|].
  apply eats_peek_kind. intros k _. case_match; [apply eats_ret|]. apply eats_check. intros k0 _ _.
  apply (eats_then _ _ _ 1).
  - case_match; [|case_match; [|known]].
    + apply (eats_then _ _ _ 1); [eapply eats_weaken; [apply eats_program|lia..]|]. intros; known.
    + apply (eats_then _ _ _ 1); [eapply eats_weaken; [apply eats_fb|lia..]|]. intros; known.
  - intros d. apply (eats_then _ _ _ 0); [|intros; apply eats_ret].
    eapply eats_weaken; [apply (IH (b - 1)%nat); lia|lia..].
Qed.
End Decls.

(** * The compiler: what the lexer consumes

    The lexer ends on every source, puts one end of file at the end of its tokens, and
    panics only at a character that is not ASCII or at a TIME literal. *)

Lemma span_app p s : s = (span p s).1 ++ (span p s).2.
Proof.
  induction s as [|b s IH]; [done|]. cbn [span]. destruct (p b); [|done]. destruct (span p s) as [t r].
  cbn in *. by f_equal.
Qed.

Lemma span_head p b s : p b = true -> exists t, (span p (b :: s)).1 = b :: t.
Proof. intros Hb. cbn [span]. rewrite Hb. destruct (span p s) as [t r]. by exists t. Qed.

(** [r] is what is left of [s] after at least one byte. *)
Definition rest_of (s r : bytes) : Prop := exists l, l <> [] /\ s = l ++ r.

Lemma rest_of_app a r : a <> [] -> rest_of (a ++ r) r.
Proof. intros Ha. by exists a. Qed.

Lemma rest_of_cons b s r : (exists l, s = l ++ r) -> rest_of (b :: s) r.
Proof. intros [l ->]. by exists (b :: l). Qed.

Lemma tail_suffix (s l r : bytes) : tail s = l ++ r -> exists l', s = l' ++ r.
Proof.
  destruct s as [|c s]; cbn; intros Hs; [symmetry in Hs; apply app_eq_nil in Hs as [_ ->]; by exists []|].
  exists (c :: l). cbn. by f_equal.
Qed.

Lemma rest_of_span p b s : p b = true -> rest_of (b :: s) (span p (b :: s)).2.
Proof.
  intros Hb. exists (span p (b :: s)).1. split; [|apply span_app]. by destruct (span_head p b s Hb) as [t ->].
Qed.

Lemma span_suffix p s : exists l, s = l ++ (span p s).2.
Proof. exists (span p s).1. apply span_app. Qed.

Lemma skip_comment_suffix s r : skip_comment s = Some r -> exists l, s = l ++ r.
Proof.
  revert r. induction s as [|a s IH]; intros r Hr; [done|]. cbn [skip_comment] in Hr. destruct s as [|b s]; [done|].
  destruct (_ && _); [injection Hr as ->; by exists [a; b]|]. destruct (IH _ Hr) as [l ->]. by exists (a :: l).
Qed.

Lemma lex_direct_Ok s t r : lex_direct s = Ok (t, r) -> (exists l, s = l ++ r) /\ tk_kind t = KDirectAddr.
Proof.
  destruct s as [|b s]; [done|]. cbn [lex_direct]. case_match; [|done].
  pose proof (span_app is_ascii_digit s) as Hs. destruct (span is_ascii_digit s) as [ds r0]. case_bool_decide; [done|].
  intros [= <- <-]. split; [|done]. rewrite Hs. by exists (b :: ds).
Qed.

Lemma lex_time_Ok s t r : lex_time s = Ok (t, r) -> (exists l, s = l ++ r) /\ tk_kind t = KTimeLit.
Proof.
  unfold lex_time. pose proof (span_app time_char s) as Hs. destruct (span time_char s) as [body r0].
  intros Hm. apply res_bind_Ok in Hm as (ms & _ & [= <- <-]). split; [|done]. by exists body.
Qed.

Lemma lex_exponent_suffix s : exists l, s = l ++ (lex_exponent s).2.
Proof.
  destruct s as [|c s]; [by exists []|]. cbn [lex_exponent]. destruct (_ || _); [|by exists []].
  assert (Hsp : forall sign r, exists l, sign ++ r = l ++ (let '(ds, r) := span is_ascii_digit r in (c :: sign ++ ds, r)).2).
  { intros sign r. pose proof (span_app is_ascii_digit r) as Hr. destruct (span is_ascii_digit r) as [ds r'].
    cbn [fst snd] in *. subst r. exists (sign ++ ds). by rewrite app_assoc. }
  destruct s as [|d s]; [by exists [c]|]. destruct (_ || _).
  - destruct (Hsp [d] s) as [l Hl]. exists (c :: l). cbn. by f_equal.
  - destruct (Hsp [] (d :: s)) as [l Hl]. exists (c :: l). cbn [app]. by f_equal.
Qed.

Lemma lex_number_Ok b s : is_ascii_digit b = true ->
  rest_of (b :: s) (lex_number (b :: s)).2 /\ tk_kind (lex_number (b :: s)).1 <> KEof.
Proof.
  intros Hb. unfold lex_number. pose proof (span_app is_ascii_digit (b :: s)) as Hs.
  destruct (span_head is_ascii_digit b s Hb) as [w Hw]. destruct (span is_ascii_digit (b :: s)) as [whole r].
  cbn [fst snd] in *. subst whole. rewrite Hs. clear Hs.
  assert (Hint : rest_of ((b :: w) ++ r) (mkToken KIntLit (b :: w), r).2 /\ tk_kind (mkToken KIntLit (b :: w), r).1 <> KEof)
    by (split; [by apply rest_of_app|done]).
  destruct r as [|c [|d r]]; try exact Hint; [by destruct c as [|c|c]; [..|]; repeat (destruct c; try exact Hint)|].
  destruct (decide (c = 46)) as [->|Hc].
  2: { destruct c as [|c|c]; [exact Hint| |exact Hint]. repeat (destruct c; try exact Hint). by destruct Hc. }
  destruct (negb (d =? 46) && is_ascii_digit d); [|exact Hint].
  pose proof (span_app is_ascii_digit (d :: r)) as Hf. destruct (span is_ascii_digit (d :: r)) as [frac r1].
  pose proof (lex_exponent_suffix r1) as [l Hl]. destruct (lex_exponent r1) as [e r2]. cbn [fst snd] in *.
  split; [|done]. rewrite Hf, Hl. exists ((b :: w) ++ 46 :: frac ++ l). split; [done|].
  cbn [app]. f_equal. rewrite <-(app_assoc w). f_equal. cbn [app]. f_equal. by rewrite app_assoc.
Qed.

Lemma lex_word_Ok b s : ident_char b = true ->
  rest_of (b :: s) (lex_word (b :: s)).2 /\ tk_kind (lex_word (b :: s)).1 <> KEof.
Proof.
  intros Hb. unfold lex_word. pose proof (rest_of_span ident_char b s Hb) as Hr. destruct (span ident_char (b :: s)) as [w r].
  cbn [fst snd] in *. split; [done|]. by destruct (keyword_lookup w).
Qed.

Lemma punct_kind t table k : Forall (fun e : string * TokenKind => e.2 <> KEof) table -> punct t table = Some k -> k <> KEof.
Proof.
  intros Ht Hk. unfold punct in Hk. apply fmap_Some in Hk as (e & He & ->). apply find_some in He as [He _].
  rewrite List.Forall_forall in Ht. by apply Ht.
Qed.

Lemma lex_op_Ok s t r : lex_op s = Ok (t, r) -> rest_of s r /\ tk_kind t <> KEof.
Proof.
  unfold lex_op. intros Hm. apply res_bind_Ok in Hm as (two & Htwo & Hm).
  destruct (punct two two_chars) as [k|] eqn:E.
  - injection Hm as <- <-. split; [|by eapply punct_kind; [|exact E]; repeat constructor].
    destruct s as [|a [|b s]]; try (injection Htwo as <-; discriminate E). by exists [a; b].
  - apply res_bind_Ok in Hm as (k & Hk & [= <- <-]). apply ok_or_Ok in Hk.
    split; [|by eapply punct_kind; [|exact Hk]; repeat constructor].
    destruct s as [|a s]; [discriminate Hk|]. by exists [a].
Qed.

#[local] Ltac case_if H E := lazymatch type of H with (if ?c then _ else _) = _ => destruct c eqn:E end.

(** One turn consumes something and gives no end of file. *)
Lemma lex_step_Ok b s t r : lex_step (b :: s) = Ok (t, r) ->
  rest_of (b :: s) r /\ forall t', t = Some t' -> tk_kind t' <> KEof.
Proof.
  cbn [lex_step]. intros Hm. case_if Hm E0.
  { injection Hm as <- <-. split; [by exists [b]|done]. }
  case_if Hm E1.
  { apply res_bind_Ok in Hm as (r' & Hr & [= <- <-]). apply ok_or_Ok, skip_comment_suffix in Hr as [l Hl]. split; [|done].
    by apply rest_of_cons, (tail_suffix s l). }
  case_if Hm E2.
  { injection Hm as <- <-. split; [|done]. apply (rest_of_span (fun b => negb (b =? 10))). apply andb_prop in E2 as [E2%Z.eqb_eq _]. by subst. }
  case_if Hm E6.
  { apply res_bind_Ok in Hm as ([t' r'] & Ht & [= <- <-]). apply lex_direct_Ok in Ht as [Hs Hk].
    split; [by apply rest_of_cons|]. intros ? [= <-]. by rewrite Hk. }
  case_if Hm E3.
  { apply res_bind_Ok in Hm as ([t' r'] & Ht & [= <- <-]). apply lex_time_Ok in Ht as [[l Hs] Hk].
    split; [|intros ? [= <-]; by rewrite Hk]. by apply rest_of_cons, (tail_suffix s l). }
  case_if Hm E4.
  { apply res_bind_Ok in Hm as (x & [= <-] & [= <- <-]). destruct (lex_number_Ok b s E4) as [H1 H2].
    split; [done|]. by intros ? [= <-]. }
  case_if Hm E5.
  { apply res_bind_Ok in Hm as (x & [= <-] & [= <- <-]). destruct (lex_word_Ok b s) as [H1 H2].
    - unfold ident_char, is_ascii_alphanumeric. apply orb_prop in E5 as [->| ->]; [done|]. by rewrite orb_true_r.
    - split; [done|]. by intros ? [= <-]. }
  apply res_bind_Ok in Hm as ([t' r'] & Ht & [= <- <-]). apply lex_op_Ok in Ht as [Hs Hk].
  split; [done|]. by intros ? [= <-].
Qed.

(** ** Whole sources *)

Lemma lex_loop_total fuel : forall s, (length s <= fuel)%nat -> exists r, lex_loop fuel s = Some r /\
  forall ts, r = Ok ts -> ends_file ts.
Proof.
  assert (Hend : forall n, exists r, lex_loop n [] = Some r /\ forall ts, r = Ok ts -> ends_file ts).
  { intros n. eexists. split; [by destruct n|]. intros ts [= <-]. exists [], (mkToken KEof []). repeat split. constructor. }
  induction fuel as [|fuel IH]; intros [|b s] Hlen; try apply Hend; [cbn in Hlen; lia|]. cbn [lex_loop].
  destruct (lex_step (b :: s)) as [[t r]|e|] eqn:E; [|by eexists|by eexists].
  apply lex_step_Ok in E as [(l & Hl & Hs) Hk]. destruct l as [|c l]; [done|].
  destruct (IH r) as (r' & -> & Hr').
  { apply (f_equal length) in Hs. rewrite length_app in Hs. cbn in *. lia. }
  destruct t as [t|]; [|by eexists]. eexists. split; [done|]. intros ts Hts. apply res_bind_Ok in Hts as (ts' & -> & [= <-]).
  destruct (Hr' _ eq_refl) as (l' & e & -> & He & Hf). exists (t :: l'), e. repeat split; [done|]. constructor; auto.
Qed.

Definition ascii (s : bytes) : Prop := Forall (fun b => 0 <= b < 128) s.

Lemma ascii_boundary s : ascii s -> char_boundary s = true.
Proof.
  intros Hs. destruct Hs as [|b s Hb Hs]; [done|]. unfold char_boundary, in_rangeb.
  destruct (Z.leb_spec 128 b), (Z.leb_spec b 191); done || lia.
Qed.

Lemma lex_step_panic s : ascii s -> 35 ∉ s -> lex_step s <> Panic.
Proof.
  destruct s as [|b s]; [done|]. intros Ha Hh Hp. cbn beta iota zeta delta [lex_step] in Hp.
  case_if Hp E0; [done|]. case_if Hp E1.
  { apply res_bind_Panic in Hp as [Hp|(? & _ & Hp)]; [by destruct (skip_comment _)|done]. }
  case_if Hp E2; [done|]. case_if Hp E3.
  { apply res_bind_Panic in Hp as [Hp|(? & _ & Hp)]; [|done]. unfold lex_direct in Hp. repeat (case_match; try done). }
  case_if Hp E4.
  { apply andb_prop in E4 as [_ E4%bool_decide_eq_true]. apply Hh. right. destruct s; [done|]. injection E4 as ->. left. }
  case_if Hp E5; [done|]. case_if Hp E6; [done|].
  apply res_bind_Panic in Hp as [Hp|(? & _ & Hp)]; [|done]. unfold lex_op in Hp.
  apply res_bind_Panic in Hp as [Hp|(two & _ & Hp)].
  - destruct s as [|c s]; [done|]. apply Forall_cons in Ha as Ha'. destruct Ha' as [_ Ha2]. apply Forall_cons in Ha2 as [_ Ha2].
    rewrite (ascii_boundary (b :: c :: s)), (ascii_boundary s) in Hp by done. done.
  - case_match; [done|]. apply res_bind_Panic in Hp as [Hp|(? & _ & Hp)]; [by destruct (punct _ one_char)|done].
Qed.

Lemma lex_loop_panic fuel : forall s, ascii s -> 35 ∉ s -> lex_loop fuel s <> Some Panic.
Proof.
  induction fuel as [|fuel IH]; intros [|b s] Ha Hh; try done. cbn [lex_loop].
  destruct (lex_step (b :: s)) as [[t r]|e|] eqn:E; [|done|by apply lex_step_panic in E].
  apply lex_step_Ok in E as [(l & Hl & Hs) _]. rewrite Hs in Ha, Hh.
  apply Forall_app in Ha as [_ Ha]. assert (Hh' : 35 ∉ r) by (intros Hin; apply Hh, elem_of_app; by right).
  specialize (IH r Ha Hh'). destruct (lex_loop fuel r) as [[ts|e|]|]; [| |done|]; destruct t; done.
Qed.

(** ** The parser *)

Lemma unit_loop_end N n : forall p p' u, unit_loop N n p = (p', Ok u) -> tk_kind (p_cur p') = KEof.
Proof.
  induction n as [|n IH]; intros p p' u Hu; [done|]. cbn [unit_loop] in Hu.
  apply M_bind_Ok in Hu as (k & p1 & [= <- <-] & Hu). destruct (kinds_eq _ KEof) eqn:E.
  - injection Hu as <- _. by apply bool_decide_eq_true in E.
  - apply M_bind_Ok in Hu as (? & p2 & _ & Hu). apply M_bind_Ok in Hu as (d & p3 & _ & Hu).
    apply M_bind_Ok in Hu as (ds & p4 & Hu & [= <- _]). by eapply IH.
Qed.

Lemma parse_tokens_total ts : ends_file ts -> exists r, parse_tokens ts = Some r /\
  (r = Panic -> label_limit < label_count ts) /\ forall u, r = Ok u -> clean ts.
Proof.
  intros Hts. destruct ts as [|t ts]; [by destruct Hts as ([|? ?] & ? & ? & _)|].
  unfold parse_tokens. set (n := S (S (length (t :: ts)))). unfold parse_unit.
  assert (Hn : (length (p_rest (mkParser t ts)) < n - 2)%nat) by (cbn; lia).
  pose proof (eats_unit n n (n - 2) ltac:(lia) ltac:(lia) (mkParser t ts) Hts Hn I) as He.
  destruct (unit_loop n n (mkParser t ts)) as [p' [u|[c|]|]] eqn:E; cbn [snd ate] in *; [|by eexists|done|by eexists].
  eexists. split; [done|]. split; [done|]. intros u' _. destruct He as (l & Hl & _ & Hc).
  pose proof (unit_loop_end _ _ _ _ _ E) as Hk. change (tokens (mkParser t ts)) with (t :: ts) in Hl. rewrite Hl in Hts |- *.
  apply ends_file_split in Hts as (l' & e & Heq & _ & Hf); [|done].
  destruct l' as [|x l']; [|exfalso; apply Forall_cons in Hf as [Hx _]; unfold tokens in Heq; injection Heq as Hx' _; by rewrite Hx' in Hk].
  assert (He : p_cur p' = e) by (unfold tokens in Heq; by injection Heq). rewrite Heq. apply clean_app; [done|].
  apply clean_one.
  by rewrite <-He, Hk.
Qed.
End Memory.

