(* ===== verification/CompPrint.v ===== *)
(** * The compiler: a printer of syntax trees

    Not code of the repository: the specification of the parser. A tree is printed to the
    tokens of a source with as few parentheses as its operators need; what is [printable] is
    what a source can say. *)
From S2P Require Import Prelude Text IrTypes CompAst CompLex CompParse.

(** * Printing *)

(** ** Tokens *)

#[export] Instance token_eq_dec : EqDecision Token.
Proof. solve_decision. Defined.

Definition kw (k : string) : Token := mkToken (KKeyword k) (bstr k).
Definition sym (k : TokenKind) (s : string) : Token := mkToken k (bstr s).
Definition word (w : bytes) : Token := mkToken (match keyword_lookup w with Some k => KKeyword k | None => KIdent end) w.
Definition num (z : Z) : Token := mkToken KIntLit (bstr (pretty z)).

Definition t_lparen := sym KLParen "(".
Definition t_rparen := sym KRParen ")".
Definition t_comma := sym KComma ",".
Definition t_semi := sym KSemi ";".
Definition t_colon := sym KColon ":".
Definition t_assign := sym KAssign ":=".

Definition commas (l : list (list Token)) : list Token :=
  match l with [] => [] | x :: l => x ++ flat_map (cons t_comma) l end.

(** ** Names *)

Definition is_word (w : bytes) : bool :=
  match w with [] => false | b :: _ => (is_ascii_alphabetic b || (b =? 95)) && forallb ident_char w end.

Definition not_keyword (w : bytes) : bool := match keyword_lookup w with None => true | Some _ => false end.

Definition ident_ok (w : bytes) : bool := is_word w && not_keyword w.

(** The first name of a path may be EN or ENO; a field may be any keyword in capitals. *)
Definition head_ok (w : bytes) : bool := ident_ok w || bool_decide (w = bstr "EN") || bool_decide (w = bstr "ENO").
Definition field_ok (w : bytes) : bool :=
  is_word w && match keyword_lookup w with None => true | Some k => bool_decide (bstr k = w) end.

(** ** Expressions *)

Definition op_prec (op : BinaryOp) : nat :=
  match op with
  | BOr => 0 | BAnd => 1 | BXor => 2 | BEq | BNe | BLt | BLe | BGt | BGe => 3 | BAdd | BSub => 4 | BMul | BDiv | BMod => 5
  end.

Definition op_token (op : BinaryOp) : Token :=
  match op with
  | BOr => kw "OR" | BAnd => kw "AND" | BXor => kw "XOR"
  | BEq => sym KEq "=" | BNe => sym KNe "<>" | BLt => sym KLt "<" | BLe => sym KLe "<=" | BGt => sym KGt ">" | BGe => sym KGe ">="
  | BAdd => sym KPlus "+" | BSub => sym KMinus "-" | BMul => sym KStar "*" | BDiv => sym KSlash "/" | BMod => kw "MOD"
  end.

Definition prec (e : Expr) : nat :=
  match e with EBinary op _ _ => op_prec op | EUnary _ _ => 6 | _ => 7 end.

(** An expression where the operators of level [n] and above bind. *)
Definition wrap (n : nat) (e : Expr) (ts : list Token) : list Token :=
  if (prec e <? n)%nat then t_lparen :: ts ++ [t_rparen] else ts.

Section Print.
Context (real_text : Z -> bytes).

Definition print_literal (l : Literal) : Token :=
  match l with
  | LBool b => kw (if b then "TRUE" else "FALSE")
  | LInt v => num v
  | LReal r => mkToken KRealLit (real_text r)
  | LTimeMs ms => mkToken KTimeLit (bstr (pretty ms))
  end.

Section Nested.
Context (print : Expr -> list Token).

Definition print_seg (s : PathSeg Expr) : list Token :=
  match s with
  | PIdent f => [sym KDot "."; word f]
  | PIndex i => sym KLBracket "[" :: print i ++ [sym KRBracket "]"]
  end.

Definition print_path (p : list (PathSeg Expr)) : list Token :=
  match p with PIdent h :: segs => word h :: flat_map print_seg segs | _ => [] end.

Definition print_arg (a : CallArg Expr) : list Token :=
  match a with Positional e => print e | Named x e => word x :: t_assign :: print e end.

Definition print_out (o : CallOut Expr) : list Token := word (co_name o) :: sym KArrow "=>" :: print (co_dest o).

Definition print_call (c : FbCallExpr Expr) : list Token :=
  print_path (fc_callee c) ++ t_lparen ::
    commas (map print_arg (fc_inputs c) ++ map print_out (fc_outputs c)) ++ [t_rparen].
End Nested.

Fixpoint print_expr (e : Expr) : list Token :=
  match e with
  | ELiteral l => [print_literal l]
  | EName p => print_path print_expr p
  | EUnary op e => (match op with UNot => kw "NOT" | UNeg => sym KMinus "-" end) :: wrap 6 e (print_expr e)
  | EBinary op l r =>
      wrap (op_prec op) l (print_expr l) ++ op_token op :: wrap (S (op_prec op)) r (print_expr r)
  | EQGood e => word (bstr "Q_GOOD") :: t_lparen :: print_expr e ++ [t_rparen]
  | EFbCall c => print_call print_expr c
  end.

(** A REAL is one number whose value is its bits; negative numbers are negations. *)
Definition literal_ok (l : Literal) : bool :=
  match l with
  | LBool _ => true
  | LInt v => (0 <=? v) && (v <? 2 ^ 63)
  | LReal r =>
      let s := real_text r in
      match s with [] => false | b :: _ => is_ascii_digit b end &&
      bool_decide (lex_number (s ++ [32]) = (mkToken KRealLit s, [32])) && bool_decide (parse_f32 s = Some r)
  | LTimeMs ms => (0 <=? ms) && (ms <? 2 ^ 31)
  end.

Section Oks.
Context (ok : Expr -> bool).

Definition seg_ok (s : PathSeg Expr) : bool := match s with PIdent f => field_ok f | PIndex i => ok i end.
Definition path_ok (p : list (PathSeg Expr)) : bool :=
  match p with PIdent h :: segs => head_ok h && forallb seg_ok segs | _ => false end.
Definition arg_ok (a : CallArg Expr) : bool := match a with Positional e => ok e | Named x e => ident_ok x && ok e end.
Definition out_ok (o : CallOut Expr) : bool := ident_ok (co_name o) && ok (co_dest o).

Definition is_q_good (p : list (PathSeg Expr)) : bool :=
  match p with [PIdent h] => eq_ignore_ascii_case h (bstr "Q_GOOD") | _ => false end.

Definition call_ok (c : FbCallExpr Expr) : bool :=
  path_ok (fc_callee c) && negb (is_q_good (fc_callee c)) &&
  forallb arg_ok (fc_inputs c) && forallb out_ok (fc_outputs c).
End Oks.

Fixpoint expr_ok (e : Expr) : bool :=
  match e with
  | ELiteral l => literal_ok l
  | EName p => path_ok expr_ok p
  | EUnary _ e => expr_ok e
  | EBinary _ l r => expr_ok l && expr_ok r
  | EQGood e => expr_ok e
  | EFbCall c => call_ok expr_ok c
  end.

(** ** Statements *)

Definition print_max (m : option Z) : list Token :=
  match m with
  | Some n => [sym KLBrace "{"; word (bstr "max_iter"); t_assign; num n; sym KRBrace "}"]
  | None => []
  end.

Section Bodies.
Context (print : Stmt -> list Token).

Definition print_body (ss : list Stmt) : list Token := flat_map print ss.

Definition print_branch (b : Expr * list Stmt) : list Token := print_expr b.1 ++ kw "THEN" :: print_body b.2.

Definition print_else (e : option (list Stmt)) : list Token :=
  match e with Some ss => kw "ELSE" :: print_body ss | None => [] end.

Definition print_arm (a : CaseArm Stmt) : list Token :=
  commas (map (fun v => [num v]) (ca_labels a)) ++ t_colon :: print_body (ca_body a).
End Bodies.

(** The semicolon after a closing keyword is always printed. *)
Fixpoint print_stmt (s : Stmt) : list Token :=
  match s with
  | SAssign l r => print_expr l ++ t_assign :: print_expr r ++ [t_semi]
  | SFbCall c => print_call print_expr c ++ [t_semi]
  | SIf branches e =>
      match branches with
      | [] => []
      | b :: bs =>
          kw "IF" :: print_branch print_stmt b ++ flat_map (fun b => kw "ELSIF" :: print_branch print_stmt b) bs ++
          print_else print_stmt e ++ [kw "END_IF"; t_semi]
      end
  | SCase sel arms e =>
      kw "CASE" :: print_expr sel ++ kw "OF" :: flat_map (print_arm print_stmt) arms ++
      print_else print_stmt e ++ [kw "END_CASE"; t_semi]
  | SWhile c m b =>
      print_max m ++ kw "WHILE" :: print_expr c ++ kw "DO" :: print_body print_stmt b ++ [kw "END_WHILE"; t_semi]
  | SFor v from to by_ m b =>
      print_max m ++ kw "FOR" :: word v :: t_assign :: print_expr from ++ kw "TO" :: print_expr to ++
      (match by_ with Some e => kw "BY" :: print_expr e | None => [] end) ++
      kw "DO" :: print_body print_stmt b ++ [kw "END_FOR"; t_semi]
  | SReturn => [kw "RETURN"; t_semi]
  | SEmpty => [t_semi]
  end.

Definition max_ok (m : option Z) : bool := match m with Some n => (0 <=? n) && (n <? 2 ^ 32) | None => true end.

Definition label_ok (v : Z) : bool := (0 <=? v) && (v <? 2 ^ 63).

Fixpoint stmt_ok (s : Stmt) : bool :=
  let body := forallb stmt_ok in
  let else_ok e := match e with Some ss => body ss | None => true end in
  match s with
  | SAssign l r => (match l with EName _ => true | _ => false end) && expr_ok l && expr_ok r
  | SFbCall c => call_ok expr_ok c
  | SIf branches e =>
      negb (match branches with [] => true | _ => false end) &&
      forallb (fun b : Expr * list Stmt => expr_ok b.1 && body b.2) branches && else_ok e
  | SCase sel arms e =>
      expr_ok sel &&
      forallb (fun a => negb (bool_decide (ca_labels a = [])) && forallb label_ok (ca_labels a) && body (ca_body a)) arms &&
      else_ok e
  | SWhile c m b => max_ok m && expr_ok c && body b
  | SFor v from to by_ m b =>
      max_ok m && ident_ok v && expr_ok from && expr_ok to && (match by_ with Some e => expr_ok e | None => true end) && body b
  | SReturn | SEmpty => true
  end.

(** ** Declarations *)

Fixpoint print_type (t : TypeExpr) : list Token :=
  match t with
  | TNamed w => [word w]
  | TArray upper t =>
      kw "ARRAY" :: sym KLBracket "[" :: num 0 :: sym KDotDot ".." :: num upper :: sym KRBracket "]" :: kw "OF" :: print_type t
  end.

Fixpoint type_ok (t : TypeExpr) : bool :=
  match t with
  | TNamed w => ident_ok w || existsb (fun k => bool_decide (w = bstr k)) ["BOOL"; "INT"; "DINT"; "REAL"; "TIME"]%string
  | TArray upper t => (0 <=? upper) && (upper <? 2 ^ 32) && type_ok t
  end.

Definition plane_char (p : DirectPlane) : Z := match p with DpI => 73 | DpQ => 81 | DpM => 77 | DpR => 82 end.

Definition print_at (a : option DirectAddr) : list Token :=
  match a with
  | Some a => [kw "AT"; mkToken KDirectAddr (plane_char (da_plane a) :: 58 :: bstr (pretty (da_index a)))]
  | None => []
  end.

Definition print_var (v : VarDecl) : list Token :=
  word (vd_name v) :: print_at (vd_at v) ++ t_colon :: print_type (vd_ty v) ++
  (match vd_init v with Some e => t_assign :: print_expr e | None => [] end) ++ [t_semi].

Definition var_ok (v : VarDecl) : bool :=
  ident_ok (vd_name v) && (match vd_at v with Some a => (0 <=? da_index a) && (da_index a <? 2 ^ 32) | None => true end) &&
  type_ok (vd_ty v) && (match vd_init v with Some e => expr_ok e | None => true end).

Definition print_kind (k : VarKind) : list Token :=
  match k with
  | KVar => [kw "VAR"] | KInput => [kw "VAR_INPUT"] | KOutput => [kw "VAR_OUTPUT"] | KRetain => [kw "VAR_RETAIN"]
  | KConstant => [kw "VAR"; kw "CONSTANT"] | KGlobal => [kw "VAR_GLOBAL"]
  end.

Definition print_section (s : VarSection) : list Token :=
  print_kind (vs_kind s) ++ flat_map print_var (vs_vars s) ++ [kw "END_VAR"].

Definition print_decls (vars : list VarSection) (body : list Stmt) (end_ : string) : list Token :=
  flat_map print_section vars ++ print_body print_stmt body ++ [kw end_].

Definition print_decl (d : Decl) : list Token :=
  match d with
  | DProgram p => kw "PROGRAM" :: word (pr_name p) :: print_decls (pr_vars p) (pr_body p) "END_PROGRAM"
  | DFunctionBlock f => kw "FUNCTION_BLOCK" :: word (fb_name f) :: print_decls (fb_vars f) (fb_body f) "END_FUNCTION_BLOCK"
  end.

Definition print_unit (u : CompilationUnit) : list Token := flat_map print_decl u.

Definition decl_ok (d : Decl) : bool :=
  let decls_ok vars body := forallb (fun s => forallb var_ok (vs_vars s)) vars && forallb stmt_ok body in
  match d with
  | DProgram p => ident_ok (pr_name p) && decls_ok (pr_vars p) (pr_body p)
  | DFunctionBlock f => ident_ok (fb_name f) && decls_ok (fb_vars f) (fb_body f)
  end.

(** What a source can say. *)
Definition printable (u : CompilationUnit) : bool := forallb decl_ok u.
End Print.
