(* ===== verification/CompReads.v ===== *)
(** * The compiler: reading back

    The parser reads a printed tree back: expressions at every level of operators, then
    statements, declarations and whole units ([tokens_read_back]). *)
From S2P Require Import Prelude Text IrTypes CompAst CompLex CompParse CompPrint.

(** ** Positions *)

Definition pos (l : list Token) : Parser :=
  match l with x :: l => mkParser x l | [] => mkParser (mkToken KEof []) [] end.

Definition hd_kind (l : list Token) : TokenKind := match l with x :: _ => tk_kind x | [] => KEof end.

(** [m] reads [l], whatever follows that is [F], and yields [a]. *)
Definition reads {A} (F : TokenKind -> bool) (l : list Token) (m : P A) (a : A) : Prop :=
  forall k, k <> [] -> F (hd_kind k) = true -> m (pos (l ++ k)) = (pos k, Ok a).

Section Steps.
Context {A B : Type}.
Implicit Types (k l : list Token).

Lemma step_bump x k (f : Token -> P B) : k <> [] -> (bump ≫= f) (pos (x :: k)) = f x (pos k).
Proof. by destruct k. Qed.

Lemma step_kind k (f : TokenKind -> P B) : k <> [] -> (peek_kind ≫= f) (pos k) = f (hd_kind k) (pos k).
Proof. by destruct k. Qed.

Lemma step_peek x k (f : Token -> P B) : (peek ≫= f) (pos (x :: k)) = f x (pos (x :: k)).
Proof. done. Qed.

Lemma step_expect x k K (f : Token -> P B) : tk_kind x = K -> k <> [] -> (expect K ≫= f) (pos (x :: k)) = f x (pos k).
Proof.
  intros <- Hk. unfold mbind, M_bind, expect, peek, m_gets. unfold mbind, M_bind. cbn. unfold kinds_eq.
  rewrite bool_decide_eq_true_2 by done. by destruct k.
Qed.

Lemma step_eat x k K (f : bool -> P B) : tk_kind x = K -> k <> [] -> (eat K ≫= f) (pos (x :: k)) = f true (pos k).
Proof.
  intros <- Hk. unfold mbind, M_bind, eat, peek_kind, m_gets. unfold mbind, M_bind. cbn. unfold kinds_eq.
  rewrite bool_decide_eq_true_2 by done. by destruct k.
Qed.

Lemma step_no_eat k K (f : bool -> P B) : k <> [] -> hd_kind k <> K -> (eat K ≫= f) (pos k) = f false (pos k).
Proof.
  intros Hk Hne. destruct k as [|x k]; [done|]. unfold mbind, M_bind, eat, peek_kind, m_gets. unfold mbind, M_bind. cbn.
  unfold kinds_eq. by rewrite bool_decide_eq_false_2.
Qed.

Lemma step_check k (f : P B) : k <> [] -> excluded_kind (hd_kind k) = None ->
  (check_excluded_keyword ;; f) (pos k) = f (pos k).
Proof.
  intros Hk He. destruct k as [|x k]; [done|]. unfold check_excluded_keyword, peek_kind, m_gets, mbind, M_bind. cbn in *.
  by rewrite He.
Qed.

Lemma step_reads F l k (m : P A) a (f : A -> P B) : reads F l m a -> k <> [] -> F (hd_kind k) = true ->
  (m ≫= f) (pos (l ++ k)) = f a (pos k).
Proof. intros Hm Hk HF. unfold mbind, M_bind. by rewrite Hm. Qed.

Lemma step_then (m : P A) a (f : A -> P B) p p' : m p = (p', Ok a) -> (m ≫= f) p = f a p'.
Proof. unfold mbind, M_bind. by intros ->. Qed.

Lemma step_ret (a : A) (f : A -> P B) p : (mret a ≫= f) p = f a p.
Proof. done. Qed.
End Steps.

Lemma app_ne_r {A} (l k : list A) : k <> [] -> l ++ k <> [].
Proof. by destruct l. Qed.

Lemma cons_ne {A} (x : A) (k : list A) : x :: k <> [].
Proof. done. Qed.

Create HintDb ne discriminated.
#[export] Hint Resolve app_ne_r cons_ne : ne.
#[export] Hint Extern 1 (_ <> []) => assumption : ne.
Ltac ne := solve [auto with ne].

(** The kinds of the printer's tokens. *)
Ltac kinds := cbn [hd_kind tk_kind sym kw num t_lparen t_rparen t_comma t_semi t_colon t_assign].

(** Comparisons of kinds that are known. *)
Ltac decide_kinds :=
  repeat match goal with |- context [kinds_eq ?a ?b] => let r := eval vm_compute in (kinds_eq a b) in change (kinds_eq a b) with r end;
  cbn match.

(** ** Kinds *)

(** The level at which an operator binds. *)
Definition op_level (k : TokenKind) : option nat :=
  match k with
  | KKeyword k => str_match k [("OR", 0%nat); ("AND", 1%nat); ("XOR", 2%nat); ("MOD", 5%nat)]%string
  | KEq | KNe | KLt | KLe | KGt | KGe => Some 3%nat
  | KPlus | KMinus => Some 4%nat
  | KStar | KSlash => Some 5%nat
  | _ => None
  end.

Definition postfix_kind (k : TokenKind) : bool := match k with KDot | KLBracket | KLParen => true | _ => false end.

(** What ends an expression read at level [n]. *)
Definition stop (n : nat) (k : TokenKind) : bool :=
  negb (postfix_kind k) && match op_level k with Some m => (m <? n)%nat | None => true end.

Definition ops_at (n : nat) : TokenKind -> option BinaryOp :=
  match n with
  | 0 => keyword_op "OR" BOr | 1 => keyword_op "AND" BAnd | 2 => keyword_op "XOR" BXor
  | 3 => compare_op | 4 => add_op | _ => mul_op
  end%nat.

Lemma stop_mono n m k : (n <= m)%nat -> stop n k = true -> stop m k = true.
Proof.
  unfold stop. intros Hnm [-> Hk]%andb_prop. destruct (op_level k); [|done]. apply Nat.ltb_lt in Hk. apply Nat.ltb_lt. lia.
Qed.

Lemma keyword_op_level kw op op' k : keyword_op kw op k = Some op' -> k = KKeyword kw.
Proof. unfold keyword_op, kinds_eq. by case_bool_decide. Qed.

Lemma ops_level n k op : (n < 6)%nat -> ops_at n k = Some op -> op_level k = Some n.
Proof.
  intros Hn Hop. destruct n as [|[|[|[|[|[|n]]]]]]; [..|lia]; cbn [ops_at] in Hop.
  1-3: by apply keyword_op_level in Hop as ->.
  - by destruct k.
  - by destruct k.
  - destruct k; try discriminate; [|done..]. cbn in Hop. destruct (String.eqb_spec k "MOD"); [by subst|discriminate].
Qed.

Lemma stop_ops n k : (n < 6)%nat -> stop n k = true -> ops_at n k = None.
Proof.
  intros Hn [_ Hk]%andb_prop. destruct (ops_at n k) as [op|] eqn:E; [|done]. apply ops_level in E; [|done].
  rewrite E, Nat.ltb_irrefl in Hk. discriminate.
Qed.

Lemma op_token_ops op : ops_at (op_prec op) (tk_kind (op_token op)) = Some op.
Proof. by destruct op. Qed.

Lemma op_token_stop op : stop (S (op_prec op)) (tk_kind (op_token op)) = true.
Proof. by destruct op. Qed.

Lemma op_prec_lt op : (op_prec op < 6)%nat.
Proof. destruct op; cbn; lia. Qed.

(** What starts an expression. *)
Definition expr_start (k : TokenKind) : bool :=
  match k with
  | KIdent | KIntLit | KRealLit | KTimeLit | KLParen | KMinus => true
  | KKeyword k => existsb (String.eqb k) ["TRUE"; "FALSE"; "EN"; "ENO"; "NOT"]%string
  | _ => false
  end.

(** What starts an operand of a unary operator's level. *)
Definition operand_start (k : TokenKind) : bool :=
  expr_start k && negb (kinds_eq k KMinus) && negb (kinds_eq k (KKeyword "NOT")).

(** ** Names *)

Lemma ident_kind w : ident_ok w = true -> tk_kind (word w) = KIdent.
Proof. unfold ident_ok, not_keyword, word. intros [_ H]%andb_prop. by destruct (keyword_lookup w). Qed.

Lemma head_kind w : head_ok w = true ->
  tk_kind (word w) = KIdent \/ (w = bstr "EN" /\ tk_kind (word w) = KKeyword "EN") \/ (w = bstr "ENO" /\ tk_kind (word w) = KKeyword "ENO").
Proof.
  unfold head_ok. intros [[H|H]%orb_prop|H]%orb_prop.
  - left. by apply ident_kind.
  - apply bool_decide_eq_true in H as ->. right. left. done.
  - apply bool_decide_eq_true in H as ->. right. right. done.
Qed.

Lemma head_start w : head_ok w = true -> operand_start (tk_kind (word w)) = true.
Proof. intros [->|[[-> ->]|[-> ->]]]%head_kind; done. Qed.

(** ** Induction *)

Definition seg_all (Q : Expr -> Prop) (s : PathSeg Expr) : Prop := match s with PIdent _ => True | PIndex i => Q i end.
Definition arg_all (Q : Expr -> Prop) (a : CallArg Expr) : Prop := match a with Positional e => Q e | Named _ e => Q e end.
Definition out_all (Q : Expr -> Prop) (o : CallOut Expr) : Prop := Q (co_dest o).

Section ExprInd.
Context (Q : Expr -> Prop).
Hypothesis Hliteral : forall l, Q (ELiteral l).
Hypothesis Hname : forall p, Forall (seg_all Q) p -> Q (EName p).
Hypothesis Hunary : forall op e, Q e -> Q (EUnary op e).
Hypothesis Hbinary : forall op l r, Q l -> Q r -> Q (EBinary op l r).
Hypothesis Hgood : forall e, Q e -> Q (EQGood e).
Hypothesis Hcall : forall p i o, Forall (seg_all Q) p -> Forall (arg_all Q) i -> Forall (out_all Q) o -> Q (EFbCall (mkFbCall p i o)).

Fixpoint expr_induction (e : Expr) : Q e :=
  let fix all {X} (T : X -> Prop) (H : forall x, T x) (l : list X) : Forall T l :=
    match l with [] => Forall_nil_2 _ | x :: l => Forall_cons_2 _ _ _ (H x) (all T H l) end in
  let seg s : seg_all Q s := match s with PIdent _ => I | PIndex i => expr_induction i end in
  match e with
  | ELiteral l => Hliteral l
  | EName p => Hname p (all (seg_all Q) seg p)
  | EUnary op e => Hunary op e (expr_induction e)
  | EBinary op l r => Hbinary op l r (expr_induction l) (expr_induction r)
  | EQGood e => Hgood e (expr_induction e)
  | EFbCall (mkFbCall p i o) =>
      Hcall p i o (all (seg_all Q) seg p)
        (all (arg_all Q) (fun a => match a with Positional e => expr_induction e | Named _ e => expr_induction e end) i)
        (all (out_all Q) (fun o => match o with mkCallOut _ e => expr_induction e end) o)
  end.
End ExprInd.

(** ** Levels *)

(** The parser of level [n]; [m] bounds the unary operators. *)
Fixpoint level (M m : nat) (above n : nat) : P Expr :=
  match above with
  | O => if (n =? 6)%nat then parse_unary (parse_expr M) M m else parse_postfix (parse_expr M) M
  | S above => chain M (ops_at n) (level M M above (S n))
  end.

Definition lev (M m n : nat) : P Expr := level M m (6 - n) n.

Lemma parse_expr_lev M m : parse_expr (S M) = lev M m 0.
Proof. reflexivity. Qed.

Lemma lev_chain M m n : (n < 6)%nat -> lev M m n = chain M (ops_at n) (lev M M (S n)).
Proof. intros Hn. destruct n as [|[|[|[|[|[|n]]]]]]; [..|lia]; reflexivity. Qed.

Section Reads.
Context (real_text : Z -> bytes).
Local Abbreviation print := (print_expr real_text).
Local Abbreviation ok := (expr_ok real_text).

Definition wexpr (n : nat) (e : Expr) : list Token := wrap n e (print e).

Lemma wexpr_low n e : (n <= prec e)%nat -> wexpr n e = print e.
Proof. intros H. unfold wexpr, wrap. by rewrite (proj2 (Nat.ltb_ge _ _)). Qed.

Lemma wexpr_high n e : (prec e < n)%nat -> wexpr n e = t_lparen :: print e ++ [t_rparen].
Proof. intros H. unfold wexpr, wrap. by rewrite (proj2 (Nat.ltb_lt _ _)). Qed.

Lemma wexpr_next n e : prec e <> n -> wexpr n e = wexpr (S n) e.
Proof. intros H. destruct (decide (n < prec e)%nat); [by rewrite !wexpr_low by lia|by rewrite !wexpr_high by lia]. Qed.

(** ** How a printed expression starts *)

Lemma literal_start l : operand_start (tk_kind (print_literal real_text l)) = true.
Proof. by destruct l as [[]| | |]. Qed.

Lemma operand_expr k : operand_start k = true -> expr_start k = true.
Proof. by intros [[? _]%andb_prop _]%andb_prop. Qed.

Lemma path_start p k : path_ok ok p = true -> operand_start (hd_kind (print_path print p ++ k)) = true.
Proof. destruct p as [|[h|] p]; [done| |done]. intros [Hh _]%andb_prop. by apply head_start. Qed.

Lemma postfix_start e k : ok e = true -> prec e = 7%nat -> operand_start (hd_kind (print e ++ k)) = true.
Proof.
  destruct e as [l|p|op e|op l r|e|[p i o]]; cbn [expr_ok prec print_expr]; intros Hok Hp; try done.
  - apply literal_start.
  - by apply path_start.
  - pose proof (op_prec_lt op). lia.
  - apply andb_prop in Hok as [[[Hok _]%andb_prop _]%andb_prop _]. unfold print_call. rewrite <-app_assoc. by apply path_start.
Qed.

Lemma print_start e : forall k, ok e = true -> expr_start (hd_kind (print e ++ k)) = true.
Proof.
  induction e as [l|p _|op e _|op l r IH _|e _|p i o _ _ _] using expr_induction; intros k Hok;
    try (apply operand_expr, postfix_start; done).
  - by destruct op.
  - apply andb_prop in Hok as [Hok _]. cbn [print_expr]. rewrite <-app_assoc. unfold wrap. destruct (_ <? _)%nat; [done|].
    by apply IH.
Qed.

Lemma wexpr_start n e k : ok e = true -> expr_start (hd_kind (wexpr n e ++ k)) = true.
Proof. intros Hok. unfold wexpr, wrap. destruct (_ <? _)%nat; [done|]. by apply print_start. Qed.

Lemma wexpr_start7 e k : ok e = true -> operand_start (hd_kind (wexpr 7 e ++ k)) = true.
Proof.
  intros Hok. unfold wexpr, wrap. destruct (prec e <? 7)%nat eqn:E; [done|]. apply Nat.ltb_ge in E.
  apply postfix_start; [done|]. destruct e; cbn in *; try done; [lia|]. pose proof (op_prec_lt op). lia.
Qed.

Lemma wexpr_length n e : ok e = true -> (1 <= length (wexpr n e))%nat.
Proof.
  intros Hok. pose proof (wexpr_start n e [] Hok) as H. rewrite app_nil_r in H. destruct (wexpr n e); [done|cbn; lia].
Qed.

(** No name that starts an expression is followed by an association. *)
Definition next_kind (l : list Token) : option TokenKind := tk_kind <$> head (tail l).

Definition no_assoc (k : TokenKind) : bool := match k with KAssign | KArrow => false | _ => true end.

Definition no_assoc_next (l : list Token) : Prop := match next_kind l with Some k => no_assoc k = true | None => True end.

Lemma start_no_assoc k : expr_start k = true -> no_assoc k = true.
Proof. by destruct k. Qed.

Lemma no_assoc_hd x k : no_assoc (hd_kind k) = true -> no_assoc_next (x :: k).
Proof. unfold no_assoc_next, next_kind. by destruct k. Qed.

Lemma path_next p k : path_ok ok p = true -> no_assoc (hd_kind k) = true -> no_assoc_next (print_path print p ++ k).
Proof.
  destruct p as [|[h|] p]; [done| |done]. intros _ Hk. apply no_assoc_hd. by destruct p as [|[]].
Qed.

Lemma wexpr_next_kind e : forall n k, ok e = true -> no_assoc (hd_kind k) = true -> no_assoc_next (wexpr n e ++ k).
Proof.
  induction e as [l|p _|op e _|op l r IH _|e _|p i o _ _ _] using expr_induction; intros n k Hok Hk;
    (unfold wexpr, wrap at 1; destruct (_ <? _)%nat;
      [cbn [app]; rewrite <-app_assoc; apply no_assoc_hd, start_no_assoc, print_start; done|]); cbn [print_expr].
  - by apply no_assoc_hd.
  - by apply path_next.
  - apply no_assoc_hd, start_no_assoc, (wexpr_start 6). done.
  - apply andb_prop in Hok as [Hok _]. rewrite <-app_assoc. apply (IH _ _ Hok). by destruct op.
  - by apply no_assoc_hd.
  - apply andb_prop in Hok as [[[Hok _]%andb_prop _]%andb_prop _]. unfold print_call. rewrite <-app_assoc. by apply path_next.
Qed.

(** ** Levels *)

(** Level [n] reads [e]. *)
Definition reads_at (n : nat) (e : Expr) : Prop := forall M m,
  (length (wexpr n e) <= M)%nat -> (length (wexpr n e) <= m)%nat -> reads (stop n) (wexpr n e) (lev M m n) e.

(** Level [n] reads [e] as the left operand of what follows at that level. *)
Definition reads_left (n : nat) (e : Expr) : Prop := forall M k,
  (length (wexpr n e) <= M)%nat -> k <> [] -> stop (S n) (hd_kind k) = true ->
  exists n', (M < n' + length (wexpr n e))%nat /\
    chain M (ops_at n) (lev M M (S n)) (pos (wexpr n e ++ k)) = chain_loop (ops_at n) (lev M M (S n)) n' e (pos k).

Lemma left_of_next n e : ok e = true -> prec e <> n -> reads_at (S n) e -> reads_left n e.
Proof.
  intros Hok Hp He M k HM Hk Hs. rewrite (wexpr_next _ _ Hp) in HM |- *. exists M. pose proof (wexpr_length (S n) e Hok).
  split; [lia|]. unfold chain. by erewrite step_reads; [|apply (He M M HM HM)|..].
Qed.

Lemma at_of_left n e : ok e = true -> (n < 6)%nat -> reads_left n e -> reads_at n e.
Proof.
  intros Hok Hn He M m HM _ k Hk Hs. rewrite lev_chain by done.
  destruct (He M k HM Hk) as (n' & Hn' & ->); [by eapply stop_mono; [|exact Hs]; lia|].
  destruct n' as [|n']; [lia|]. cbn [chain_loop]. rewrite step_kind by done. by rewrite stop_ops.
Qed.

Lemma operand_kinds k : operand_start k = true -> kinds_eq k KMinus = false /\ kinds_eq k (KKeyword "NOT") = false.
Proof. unfold operand_start. by intros [[_ H1%negb_true_iff]%andb_prop H2%negb_true_iff]%andb_prop. Qed.

Lemma at_six e : ok e = true -> prec e <> 6%nat -> reads_at 7 e -> reads_at 6 e.
Proof.
  intros Hok Hp He M m HM Hm k Hk Hs. rewrite (wexpr_next 6 e Hp) in HM, Hm |- *.
  pose proof (wexpr_length 7 e Hok). destruct m as [|m]; [lia|].
  change (lev M (S m) 6) with (parse_unary (parse_expr M) M (S m)). cbn [parse_unary]. rewrite step_kind by ne.
  destruct (operand_kinds _ (wexpr_start7 e k Hok)) as [-> ->]. apply (He M M HM HM); [done|]. by eapply stop_mono; [|exact Hs]; lia.
Qed.

Lemma postfix_stop E N n e k : k <> [] -> postfix_kind (hd_kind k) = false -> postfix_loop E N (S n) e (pos k) = (pos k, Ok e).
Proof. intros Hk Hp. cbn [postfix_loop]. rewrite step_kind by done. by destruct (hd_kind k). Qed.

Lemma stop_postfix n k : stop n k = true -> postfix_kind k = false.
Proof. by intros [H%negb_true_iff _]%andb_prop. Qed.

(** The parentheses of an expression. *)
Lemma primary_paren e M k : reads_at 0 e -> (length (print e) < M)%nat -> k <> [] ->
  parse_primary (parse_expr M) (pos (t_lparen :: print e ++ t_rparen :: k)) = (pos k, Ok e).
Proof.
  intros He HM Hk. unfold parse_primary. rewrite step_check by done. rewrite step_peek. cbn [tk_kind t_lparen sym].
  rewrite step_bump by ne. destruct M as [|M]; [lia|]. rewrite (parse_expr_lev M M).
  specialize (He M M). rewrite (wexpr_low 0 e ltac:(lia)) in He.
  erewrite step_reads; [|apply He; lia|ne|done]. by rewrite step_expect.
Qed.

Lemma at_paren e : ok e = true -> (prec e < 7)%nat -> reads_at 0 e -> reads_at 7 e.
Proof.
  intros Hok Hp He M m HM _ k Hk Hs. rewrite wexpr_high in HM |- * by done.
  change (lev M m 7) with (parse_postfix (parse_expr M) M). unfold parse_postfix.
  cbn [app length] in HM |- *. rewrite length_app in HM. cbn [length] in HM. rewrite <-app_assoc. cbn [app].
  erewrite step_then by (apply primary_paren; [done|lia|done]).
  destruct M as [|M]; [lia|]. by apply postfix_stop; [|eapply stop_postfix].
Qed.

(** From the level of its operator to all levels. *)
Lemma at_all e n : ok e = true -> reads_at (prec e) e -> (n <= 7)%nat -> reads_at n e.
Proof.
  intros Hok He Hn. assert (Hp7 : (prec e <= 7)%nat) by (destruct e; cbn; try lia; pose proof (op_prec_lt op); lia).
  assert (Hdown : forall top d, reads_at top e -> (top <= 7)%nat -> (prec e <= top - d \/ top <= prec e)%nat -> (d <= top)%nat ->
    (forall i, top - d <= i < top -> prec e <> i)%nat -> reads_at (top - d) e).
  { intros top d Ht Htop. induction d as [|d IH]; intros Hor Hd Hne; [by rewrite Nat.sub_0_r|].
    specialize (IH ltac:(lia) ltac:(lia) ltac:(intros; apply Hne; lia)). assert (Hnx : prec e <> (top - S d)%nat) by (apply Hne; lia).
    replace (top - d)%nat with (S (top - S d)) in IH by lia. destruct (decide (top - S d = 6)%nat) as [E|E].
    - rewrite E in *. by apply at_six.
    - apply at_of_left, left_of_next; [done|lia|done..]. }
  assert (Hlow : forall i, (i <= prec e)%nat -> reads_at i e).
  { intros i Hi. replace i with (prec e - (prec e - i))%nat by lia. apply Hdown; [done|lia..]. }
  destruct (decide (n <= prec e)%nat) as [Hle|Hgt]; [by apply Hlow|].
  replace n with (7 - (7 - n))%nat by lia. apply Hdown; [|lia..]. apply at_paren; [done|lia|]. apply Hlow. lia.
Qed.
End Reads.

(** * The compiler: reading expressions back

    By induction on the tree: literals, paths, the associations of a call, operators.
    Every level of the parser reads what the printer wraps for that level. *)

Section ReadExpr.
Context (real_text : Z -> bytes).
Local Abbreviation print := (print_expr real_text).
Local Abbreviation ok := (expr_ok real_text).
Local Abbreviation path_tokens := (print_path print).
Local Abbreviation seg_tokens := (print_seg print).

(** [parse_expr] reads [e] with enough fuel. *)
Definition readable (e : Expr) : Prop := ok e = true ->
  (forall n, (n <= 7)%nat -> reads_at real_text n e).

Lemma expr_reads e M : readable e -> ok e = true -> (length (print e) < M)%nat -> reads (stop 0) (print e) (parse_expr M) e.
Proof.
  intros He Hok HM. destruct M as [|M]; [lia|]. rewrite (parse_expr_lev M M). specialize (He Hok 0%nat ltac:(lia) M M).
  rewrite (wexpr_low _ 0 e ltac:(lia)) in He. apply He; lia.
Qed.

(** ** Primaries *)

Lemma primary_literal E l k : literal_ok real_text l = true -> k <> [] ->
  parse_primary E (pos (print_literal real_text l :: k)) = (pos k, Ok (ELiteral l)).
Proof.
  intros Hl Hk. unfold parse_primary. rewrite step_check; [|done|by destruct l as [[]| | |]]. rewrite step_peek.
  destruct l as [[]|v|r|ms]; cbn [print_literal kw num tk_kind] in *.
  - erewrite step_then; [|done]. by rewrite step_bump.
  - erewrite step_then; [|done]. by rewrite step_bump.
  - rewrite step_bump by done. apply andb_prop in Hl as [H1%Z.leb_le H2%Z.ltb_lt]. unfold parse_int. cbn [tk_text num].

    by rewrite parse_pretty.
  - rewrite step_bump by done. apply andb_prop in Hl as [_ H%bool_decide_eq_true]. cbn [tk_text]. by rewrite H.
  - rewrite step_bump by done. apply andb_prop in Hl as [H1%Z.leb_le H2%Z.ltb_lt]. unfold parse_int. cbn [tk_text num].
    by rewrite parse_pretty.
Qed.

Lemma primary_name E h k : head_ok h = true -> k <> [] ->
  (eq_ignore_ascii_case h (bstr "Q_GOOD") = true -> hd_kind k <> KLParen) ->
  parse_primary E (pos (word h :: k)) = (pos k, Ok (EName [PIdent h])).
Proof.
  intros Hh Hk Hq. unfold parse_primary. rewrite step_check; [|done|].
  - rewrite step_peek. destruct (head_kind h Hh) as [-> |[[-> ->]|[-> ->]]].
    + rewrite step_bump, step_kind by done. cbn [tk_text word]. unfold kinds_eq. case_bool_decide as Hp; [|by rewrite andb_false_r].
      destruct (eq_ignore_ascii_case h (bstr "Q_GOOD")); [by apply Hq in Hp|done].
    + erewrite step_then; [|done]. by rewrite step_bump.
    + erewrite step_then; [|done]. by rewrite step_bump.
  - cbn [hd_kind]. destruct (head_kind h Hh) as [-> |[[-> ->]|[-> ->]]]; done.
Qed.

Lemma field_reads {B} f k (g : bytes -> P B) : field_ok f = true -> k <> [] -> (field_name ≫= g) (pos (word f :: k)) = g f (pos k).
Proof.
  intros Hf Hk. unfold field_name. rewrite M_bind_assoc, step_peek. unfold field_ok in Hf. unfold word at 1. cbn [tk_kind].
  apply andb_prop in Hf as [_ Hf]. destruct (keyword_lookup f) as [w|].
  - apply bool_decide_eq_true in Hf as Hw. rewrite M_bind_assoc, step_bump, step_ret by done. by rewrite Hw.
  - rewrite M_bind_assoc, step_bump, step_ret by done. done.
Qed.

(** ** Paths *)

Lemma segs_read M segs : Forall (seg_all readable) segs -> forallb (seg_ok ok) segs = true ->
  forall path n k, k <> [] -> (length (flat_map seg_tokens segs) <= M)%nat -> (length (flat_map seg_tokens segs) < n)%nat ->
  exists n', (n <= n' + length (flat_map seg_tokens segs))%nat /\
    postfix_loop (parse_expr M) M n (EName path) (pos (flat_map seg_tokens segs ++ k)) =
    postfix_loop (parse_expr M) M n' (EName (path ++ segs)) (pos k).
Proof.
  induction 1 as [|s segs Hs _ IH]; intros Hok path n k Hk HM Hn.
  - exists n. rewrite app_nil_r. split; [cbn; lia|done].
  - apply andb_prop in Hok as [Hsok Hok]. cbn [flat_map] in *. rewrite length_app in *. destruct n as [|n]; [lia|].
    assert (Hlen : (1 <= length (seg_tokens s))%nat) by (destruct s; cbn; lia).
    destruct (IH Hok (path ++ [s]) n k Hk ltac:(lia) ltac:(lia)) as (n' & Hn' & Heq). exists n'. split; [lia|].
    rewrite <-(app_assoc path [s] segs) in Heq. cbn [app] in Heq. rewrite <-Heq. clear Heq. cbn [postfix_loop]. rewrite <-app_assoc.
    destruct s as [f|i]; cbn [print_seg app seg_ok seg_all length] in *.
    + rewrite step_kind by ne. kinds. rewrite step_bump by ne.
      by rewrite field_reads by (done || ne).
    + rewrite length_app in *. cbn [length] in *. rewrite step_kind by ne. kinds. rewrite step_bump, <-app_assoc by ne.
      cbn [app]. erewrite step_reads; [|apply (expr_reads i M Hs Hsok); lia|ne|done]. by rewrite step_expect by ne.
Qed.

Lemma path_reads M p k : path_ok ok p = true -> Forall (seg_all readable) p -> k <> [] ->
  (is_q_good p = true -> hd_kind k <> KLParen) -> (length (path_tokens p) <= M)%nat ->
  exists n', (M < n' + length (path_tokens p))%nat /\
    parse_postfix (parse_expr M) M (pos (path_tokens p ++ k)) = postfix_loop (parse_expr M) M n' (EName p) (pos k).
Proof.
  destruct p as [|[h|] segs]; [done| |done]. intros [Hh Hok]%andb_prop Hsegs Hk Hq HM. cbn [print_path app length] in *.
  apply Forall_cons in Hsegs as [_ Hsegs]. unfold parse_postfix.
  erewrite step_then; [|apply primary_name; [done|ne|]].
  - destruct (segs_read M segs Hsegs Hok [PIdent h] M k Hk ltac:(lia) ltac:(lia)) as (n' & Hn' & ->). exists n'. split; [lia|done].
  - destruct segs as [|s segs]; [exact Hq|]. by destruct s.
Qed.

(** ** Calls *)

Local Abbreviation Assoc := (CallArg Expr + CallOut Expr)%type.
Definition print_assoc (a : Assoc) : list Token := match a with inl i => print_arg print i | inr o => print_out print o end.
Definition assoc_ok (a : Assoc) : bool := match a with inl i => arg_ok ok i | inr o => out_ok ok o end.
Definition assoc_all (Q : Expr -> Prop) (a : Assoc) : Prop := match a with inl i => arg_all Q i | inr o => out_all Q o end.

Definition add_assoc (acc : list (CallArg Expr) * list (CallOut Expr)) (a : Assoc) : list (CallArg Expr) * list (CallOut Expr) :=
  match a with inl i => (acc.1 ++ [i], acc.2) | inr o => (acc.1, acc.2 ++ [o]) end.

Lemma add_assocs i o : forall acc, fold_left add_assoc (map inl i ++ map inr o) acc = (acc.1 ++ i, acc.2 ++ o).
Proof.
  induction i as [|a i IH]; intros [ai ao]; cbn.
  - revert ao. induction o as [|b o IHo]; intros ao; cbn; [by rewrite !app_nil_r|]. rewrite IHo. cbn. by rewrite <-app_assoc.
  - rewrite IH. cbn. by rewrite <-app_assoc.
Qed.

Lemma step_next {B} x k (f : option TokenKind -> P B) : (peek_next ≫= f) (pos (x :: k)) = f (tk_kind <$> head k) (pos (x :: k)).
Proof. done. Qed.

(** The two tokens before a value. *)
Ltac assoc_kinds := unfold kinds_eq; rewrite ?bool_decide_eq_true_2 by done; rewrite ?(bool_decide_eq_false_2 (Some _ = Some _)) by done; cbn [andb]; rewrite ?bool_decide_eq_true_2 by done.

Lemma assoc_reads M a acc k : assoc_all readable a -> assoc_ok a = true -> (length (print_assoc a) < M)%nat ->
  k <> [] -> stop 0 (hd_kind k) = true -> no_assoc (hd_kind k) = true ->
  call_arg (parse_expr M) acc.1 acc.2 (pos (print_assoc a ++ k)) = (pos k, Ok (add_assoc acc a)).
Proof.
  intros Ha Hok HM Hk Hs Hna. destruct a as [[e|x e]|[x e]]; cbn in Ha, Hok; cbn [print_assoc print_arg print_out co_name co_dest length app] in HM |- *.
  - unfold call_arg. rewrite step_kind by ne. pose proof (wexpr_next_kind real_text e 0 k Hok Hna) as Hnext.
    rewrite (wexpr_low _ 0 e ltac:(lia)) in Hnext.
    pose proof (print_start real_text e k Hok) as Hst.
    destruct (print e ++ k) as [|t l] eqn:E; [by apply app_eq_nil in E as [_ ->]|]. rewrite step_next.
    assert (Hno : forall K, no_assoc K = false -> bool_decide (tk_kind <$> head l = Some K) = false).
    { intros K HK. apply bool_decide_eq_false. intros Heq. unfold no_assoc_next, next_kind in Hnext. cbn in Hnext. rewrite Heq in Hnext. congruence. }
    rewrite !Hno, !andb_false_r by done. rewrite <-E. by erewrite step_reads; [|apply (expr_reads e M Ha Hok HM)|..].
  - apply andb_prop in Hok as [Hx Hok]. unfold call_arg. rewrite step_kind, step_next by ne. cbn [hd_kind]. rewrite ident_kind by done.
    cbn [head fmap option_fmap option_map]. assoc_kinds.
    rewrite step_bump, step_bump by ne.
    by erewrite step_reads; [|apply (expr_reads e M Ha Hok); lia|..].
  - apply andb_prop in Hok as [Hx Hok]. unfold call_arg. rewrite step_kind, step_next by ne. cbn [hd_kind]. rewrite ident_kind by done.
    cbn [head fmap option_fmap option_map]. assoc_kinds.
    rewrite step_bump, step_bump by ne.
    by erewrite step_reads; [|apply (expr_reads e M Ha Hok); lia|..].
Qed.

Lemma assoc_start a k : assoc_ok a = true -> expr_start (hd_kind (print_assoc a ++ k)) = true.
Proof.
  destruct a as [[e|x e]|[x e]]; intros Hok; [by apply print_start|..]; apply andb_prop in Hok as [Hx _];
    cbn [print_assoc print_arg print_out app hd_kind]; by rewrite ident_kind.
Qed.

Lemma args_read M items : forall a acc k n, Forall (assoc_all readable) (a :: items) -> forallb assoc_ok (a :: items) = true ->
  (length (commas (map print_assoc (a :: items))) < M)%nat -> (length items < n)%nat ->
  call_args (parse_expr M) n acc.1 acc.2 (pos (commas (map print_assoc (a :: items)) ++ t_rparen :: k)) =
  (pos (t_rparen :: k), Ok (fold_left add_assoc (a :: items) acc)).
Proof.
  induction items as [|b items IH]; intros a acc k n Hall Hok HM Hn; (destruct n as [|n]; [lia|]);
    apply Forall_cons in Hall as [Ha Hall]; apply andb_prop in Hok as [Haok Hok];
    cbn [map commas flat_map app length call_args fold_left] in *; rewrite length_app in HM; rewrite <-app_assoc; cbn [app].
  - erewrite step_then; [|apply assoc_reads; [done|done|lia|done..]]. by rewrite step_no_eat.
  - erewrite step_then; [|apply assoc_reads; [done|done|cbn [length] in HM; lia|done..]]. rewrite step_eat by (done || ne).
    cbn [length] in *. apply (IH b (add_assoc acc a)); [done..|cbn [map commas]; lia|lia].
Qed.

Lemma call_items i o : map (print_arg print) i ++ map (print_out print) o = map print_assoc (map inl i ++ map inr o).
Proof. by rewrite map_app, !map_map. Qed.

Lemma items_ok i o : forallb (arg_ok ok) i = true -> forallb (out_ok ok) o = true -> forallb assoc_ok (map inl i ++ map inr o) = true.
Proof.
  intros Hi Ho. rewrite forallb_app, !List.forallb_forall in *. apply List.forallb_forall in Hi as Hi'. apply andb_true_intro.
  split; apply List.forallb_forall; intros a (x & <- & Hx)%in_map_iff; [|by apply Ho]. by apply Hi.
Qed.

Lemma finish_reads M p i o k : Forall (arg_all readable) i -> Forall (out_all readable) o ->
  forallb (arg_ok ok) i = true -> forallb (out_ok ok) o = true -> k <> [] ->
  (length (commas (map (print_arg print) i ++ map (print_out print) o)) < M)%nat ->
  finish_fb_call (parse_expr M) M (EName p)
    (pos (t_lparen :: commas (map (print_arg print) i ++ map (print_out print) o) ++ t_rparen :: k)) =
  (pos k, Ok (mkFbCall p i o)).
Proof.
  intros Hi Ho Hiok Hook Hk HM. pose proof (items_ok i o Hiok Hook) as Hok. rewrite call_items in *.
  assert (Hall : Forall (assoc_all readable) (map inl i ++ map inr o)).
  { apply Forall_app. split; apply Forall_map; [exact Hi|exact Ho]. }
  pose proof (add_assocs i o ([], [])) as Hadd. cbn in Hadd. unfold finish_fb_call. cbn [name_path]. rewrite step_ret, step_expect by ne.
  rewrite step_kind by ne. destruct (map inl i ++ map inr o) as [|a items].
  - injection Hadd as <- <-. cbn [map commas app]. kinds. change (kinds_eq KRParen KRParen) with true. cbn match. by rewrite step_ret, step_expect.
  - assert (Hst : kinds_eq (hd_kind (commas (map print_assoc (a :: items)) ++ t_rparen :: k)) KRParen = false).
    { apply bool_decide_eq_false. cbn [map commas]. rewrite <-app_assoc. intros E. apply andb_prop in Hok as [Hok _].
      eapply assoc_start in Hok. by rewrite E in Hok. }
    rewrite Hst. erewrite step_then; [|apply (args_read M items a ([], [])); [done..|]].
    + rewrite step_expect by done.
      rewrite Hadd. done.
    + cbn [map commas length] in HM. rewrite length_app in HM.
      assert (Hf : (length items <= length (flat_map (cons t_comma) (map print_assoc items)))%nat).
      { clear. induction items as [|b items IH]; [done|]. cbn. rewrite length_app. lia. }
      lia.
Qed.

(** ** Operands *)

(** An expression whose printed form [parse_postfix] reads. *)
Lemma at_seven e : prec e = 7%nat ->
  (forall M k, (length (print e) <= M)%nat -> k <> [] -> postfix_kind (hd_kind k) = false ->
    parse_postfix (parse_expr M) M (pos (print e ++ k)) = (pos k, Ok e)) ->
  reads_at real_text (prec e) e.
Proof.
  intros Hp He M m HM _ k Hk Hs. rewrite Hp in *. change (lev M m 7) with (parse_postfix (parse_expr M) M).
  rewrite wexpr_low in * by lia. apply He; [done|done|by eapply stop_postfix].
Qed.

Lemma literal_readable l : readable (ELiteral l).
Proof.
  intros Hok n Hn. apply at_all; [done| |done]. apply at_seven; [done|]. intros M k HM Hk Hs. cbn in HM. cbn [print_expr app].
  unfold parse_postfix. erewrite step_then; [|by apply primary_literal]. destruct M; [lia|]. by apply postfix_stop.
Qed.

Lemma name_readable p : Forall (seg_all readable) p -> readable (EName p).
Proof.
  intros Hp Hok n Hn. apply at_all; [done| |done]. apply at_seven; [done|]. intros M k HM Hk Hs. cbn [print_expr] in *.
  destruct (path_reads M p k) as (n' & Hn' & ->); [done..| |done|].
  - intros _ E. by rewrite E in Hs.
  - destruct n'; [lia|]. by apply postfix_stop.
Qed.

Lemma good_readable e : readable e -> readable (EQGood e).
Proof.
  intros He Hok n Hn. apply at_all; [done| |done]. apply at_seven; [done|]. intros M k HM Hk Hs.
  cbn [print_expr length app] in *. rewrite length_app in HM. cbn [length] in HM. rewrite <-app_assoc. cbn [app].
  unfold parse_postfix. assert (Hprim : parse_primary (parse_expr M) (pos (word (bstr "Q_GOOD") :: t_lparen :: print e ++ t_rparen :: k)) =
    (pos k, Ok (EQGood e))).
  { unfold parse_primary. rewrite step_check, step_peek by done. change (tk_kind (word (bstr "Q_GOOD"))) with KIdent. cbn match.
    rewrite step_bump, step_kind by ne. change (eq_ignore_ascii_case _ _ && _) with true. cbn match. rewrite step_bump by ne.
    erewrite step_reads; [|apply (expr_reads e M He Hok); lia|ne|done]. by rewrite step_expect. }
  erewrite step_then by (exact Hprim). destruct M; [lia|]. by apply postfix_stop.
Qed.

Lemma call_readable p i o : Forall (seg_all readable) p -> Forall (arg_all readable) i -> Forall (out_all readable) o ->
  readable (EFbCall (mkFbCall p i o)).
Proof.
  intros Hp Hi Ho Hok n Hn. apply at_all; [done| |done]. cbn [expr_ok] in Hok. unfold call_ok in Hok. cbn [fc_callee fc_inputs fc_outputs] in Hok.
  apply andb_prop in Hok as [[[Hpok Hq%negb_true_iff]%andb_prop Hiok]%andb_prop Hook].
  apply at_seven; [done|]. intros M k HM Hk Hs. cbn [print_expr] in *. unfold print_call in *. cbn [fc_callee fc_inputs fc_outputs] in *.
  rewrite !length_app in HM. cbn [length] in HM. rewrite length_app in HM. cbn [length] in HM.
  rewrite <-app_assoc. cbn [app]. rewrite <-app_assoc. cbn [app].
  match goal with |- context [t_lparen :: ?l] => destruct (path_reads M p (t_lparen :: l)) as (n' & Hn' & ->) end;
    [done|done|done|by rewrite Hq|lia|].
  destruct n' as [|n']; [lia|]. cbn [postfix_loop]. rewrite step_kind by ne. kinds.
  erewrite step_then; [|apply finish_reads; [done..|lia]]. destruct n' as [|n']; [lia|]. by apply postfix_stop.
Qed.

(** ** Operators *)

Lemma unary_readable op e : readable e -> readable (EUnary op e).
Proof.
  intros He Hok n Hn. apply at_all; [done| |done]. cbn [expr_ok prec] in *. intros M m HM Hm k Hk Hs.
  change (lev M m 6) with (parse_unary (parse_expr M) M m). rewrite wexpr_low in * by done. cbn [print_expr length app] in *.
  fold (wexpr real_text 6 e) in *. destruct m as [|m]; [lia|]. cbn [parse_unary]. rewrite step_kind by done.
  pose proof (wexpr_length real_text 6 e Hok) as Hl.
  assert (Hr : reads (stop 6) (wexpr real_text 6 e) (parse_unary (parse_expr M) M m) e).
  { apply (He Hok 6%nat ltac:(lia) M m); lia. }
  destruct op; kinds; [change (kinds_eq KMinus (KKeyword "NOT")) with false; change (kinds_eq KMinus KMinus) with true|
    change (kinds_eq (KKeyword "NOT") (KKeyword "NOT")) with true]; cbn match;
    rewrite step_bump by ne; by erewrite step_reads; [|exact Hr|..].
Qed.

Lemma binary_left op l r : readable l -> readable r -> ok l = true -> ok r = true ->
  reads_left real_text (op_prec op) l -> reads_left real_text (op_prec op) (EBinary op l r).
Proof.
  intros Hl Hr Hlok Hrok Hleft M k HM Hk Hs. rewrite wexpr_low in HM |- * by done. cbn [print_expr] in *.
  fold (wexpr real_text (op_prec op) l) (wexpr real_text (S (op_prec op)) r) in *. rewrite length_app in *. cbn [length] in *.
  rewrite <-app_assoc. cbn [app].
  destruct (Hleft M (op_token op :: wexpr real_text (S (op_prec op)) r ++ k)) as (n' & Hn' & ->); [lia|done|apply op_token_stop|].
  destruct n' as [|n']; [lia|]. exists n'. split; [lia|]. cbn [chain_loop]. rewrite step_kind by done. cbn [hd_kind].
  rewrite op_token_ops, step_bump by ne. pose proof (op_prec_lt op).
  by erewrite step_reads; [|apply (Hr Hrok (S (op_prec op)) ltac:(lia) M M); lia|..].
Qed.

Lemma readable_left n e : (n < 6)%nat -> readable e -> ok e = true ->
  (prec e = n -> reads_left real_text n e) -> reads_left real_text n e.
Proof.
  intros Hn He Hok Heq. destruct (decide (prec e = n)) as [E|E]; [by apply Heq|]. apply left_of_next; [done..|]. apply He; [done|lia].
Qed.

(** Every printable expression is read at every level; as a left operand too. *)
Lemma expr_readable e : readable e /\ (ok e = true -> forall n, (n < 6)%nat -> reads_left real_text n e).
Proof.
  assert (Hall : forall (e : Expr), readable e -> (ok e = true -> (prec e < 6)%nat -> reads_left real_text (prec e) e) ->
    readable e /\ (ok e = true -> forall n, (n < 6)%nat -> reads_left real_text n e)).
  { intros e' He Hl. split; [done|]. intros Hok n Hn. apply readable_left; [done..|]. intros <-. by apply Hl. }
  assert (Hsegs : forall p, Forall (seg_all (fun e => readable e /\ (ok e = true -> forall n, (n < 6)%nat -> reads_left real_text n e))) p ->
    Forall (seg_all readable) p) by (intros p Hp; eapply Forall_impl; [exact Hp|intros [] ?; [done|]; cbn in *; tauto]).
  induction e as [l|p Hp|op e [He _]|op l r [Hl Hll] [Hr _]|e [He _]|p i o Hp Hi Ho] using expr_induction; apply Hall; try (cbn; lia).
  - apply literal_readable.
  - apply name_readable. by apply Hsegs.
  - by apply unary_readable.
  - intros Hok n Hn. apply andb_prop in Hok as Hok'. destruct Hok' as [Hlok Hrok]. pose proof (op_prec_lt op).
    apply at_all; [done| |done]. apply at_of_left; [done|done|]. by apply binary_left; [..|apply Hll].
  - intros [Hlok Hrok]%andb_prop Hp. by apply binary_left; [..|apply Hll].
  - by apply good_readable.
  - apply call_readable; [by apply Hsegs|..]; (eapply Forall_impl; [eassumption|]; intros x Hx).
    + destruct x; apply Hx.
    + apply Hx.
Qed.

Lemma expr_reads_back e M : ok e = true -> (length (print e) < M)%nat -> reads (stop 0) (print e) (parse_expr M) e.
Proof. intros Hok. apply expr_reads; [|done]. apply expr_readable. Qed.

Lemma call_reads_back c M : call_ok ok c = true -> (length (print_call print c) < M)%nat ->
  reads (stop 0) (print_call print c) (parse_expr M) (EFbCall c).
Proof. intros Hok. by apply (expr_reads_back (EFbCall c)). Qed.
End ReadExpr.

(** * The compiler: reading statements back *)

(** ** Induction *)

Definition else_all (Q : Stmt -> Prop) (e : option (list Stmt)) : Prop := match e with Some ss => Forall Q ss | None => True end.

Section StmtInd.
Context (Q : Stmt -> Prop).
Hypothesis Hassign : forall l r, Q (SAssign l r).
Hypothesis Hcall : forall c, Q (SFbCall c).
Hypothesis Hif : forall bs e, Forall (fun b : Expr * list Stmt => Forall Q b.2) bs -> else_all Q e -> Q (SIf bs e).
Hypothesis Hcase : forall sel arms e, Forall (fun a => Forall Q (ca_body a)) arms -> else_all Q e -> Q (SCase sel arms e).
Hypothesis Hwhile : forall c m b, Forall Q b -> Q (SWhile c m b).
Hypothesis Hfor : forall v f t by_ m b, Forall Q b -> Q (SFor v f t by_ m b).
Hypothesis Hreturn : Q SReturn.
Hypothesis Hempty : Q SEmpty.

Fixpoint stmt_induction (s : Stmt) : Q s :=
  let fix all {X} (T : X -> Prop) (H : forall x, T x) (l : list X) : Forall T l :=
    match l with [] => Forall_nil_2 _ | x :: l => Forall_cons_2 _ _ _ (H x) (all T H l) end in
  let body l : Forall Q l := all Q stmt_induction l in
  let els e : else_all Q e := match e with Some ss => body ss | None => I end in
  match s with
  | SAssign l r => Hassign l r
  | SFbCall c => Hcall c
  | SIf bs e => Hif bs e (all (fun b : Expr * list Stmt => Forall Q b.2) (fun '(c, b) => body b) bs) (els e)
  | SCase sel arms e =>
      Hcase sel arms e (all (fun a => Forall Q (ca_body a)) (fun a => match a with mkArm _ b => body b end) arms) (els e)
  | SWhile c m b => Hwhile c m b (body b)
  | SFor v f t by_ m b => Hfor v f t by_ m b (body b)
  | SReturn => Hreturn
  | SEmpty => Hempty
  end.
End StmtInd.

(** ** How a statement starts *)

Definition stmt_starts : list TokenKind :=
  [KIdent; KSemi; KLBrace; KKeyword "EN"; KKeyword "ENO"; KKeyword "IF"; KKeyword "CASE"; KKeyword "WHILE";
   KKeyword "FOR"; KKeyword "RETURN"].

(** Kinds at which no statement starts. *)
Definition fits (stop : list TokenKind) : Prop := Forall (fun k => existsb (kinds_eq k) (KEof :: stop) = false) stmt_starts.

Lemma fits_if : fits if_stop. Proof. repeat constructor. Qed.
Lemma fits_arm : fits arm_stop. Proof. repeat constructor. Qed.
Lemma fits_end k : k ∈ ["END_IF"; "END_CASE"; "END_WHILE"; "END_FOR"]%string -> fits [KKeyword k].
Proof. intros Hk. revert k Hk. apply Forall_forall. repeat constructor. Qed.

Section Memory.
Context `{memory : !LabelMemory}.

Section ReadStmt.
Context (real_text : Z -> bytes).
Local Abbreviation print := (print_expr real_text).
Local Abbreviation ok := (expr_ok real_text).
Local Abbreviation prints := (print_stmt real_text).
Local Abbreviation oks := (stmt_ok real_text).
Local Abbreviation bodies := (print_body prints).

Lemma head_starts h : head_ok h = true -> tk_kind (word h) ∈ stmt_starts.
Proof. intros [-> |[[_ ->]|[_ ->]]]%head_kind; unfold stmt_starts; set_solver. Qed.

Lemma path_starts p k : path_ok ok p = true -> hd_kind (print_path print p ++ k) ∈ stmt_starts.
Proof. destruct p as [|[h|] p]; [done| |done]. intros [Hh _]%andb_prop. by apply head_starts. Qed.

Lemma max_starts m l : hd_kind l ∈ stmt_starts -> hd_kind (print_max m ++ l) ∈ stmt_starts.
Proof. destruct m; [intros _|done]. unfold stmt_starts. cbn. set_solver. Qed.

Lemma stmt_starts_ok s k : oks s = true -> hd_kind (prints s ++ k) ∈ stmt_starts.
Proof.
  destruct s as [l r|c|bs e|sel arms e|c m b|v f t by_ m b| |]; cbn [stmt_ok print_stmt]; intros Hok.
  - apply andb_prop in Hok as [[Hn Hl]%andb_prop _]. destruct l as [|p| | | |]; try done. rewrite <-app_assoc. by apply path_starts.
  - apply andb_prop in Hok as [[[Hp _]%andb_prop _]%andb_prop _]. unfold print_call. rewrite <-!app_assoc. by apply path_starts.
  - destruct bs; [done|]. unfold stmt_starts. cbn. set_solver.
  - unfold stmt_starts. cbn. set_solver.
  - rewrite <-app_assoc. apply max_starts. unfold stmt_starts. cbn. set_solver.
  - rewrite <-app_assoc. apply max_starts. unfold stmt_starts. cbn. set_solver.
  - unfold stmt_starts. cbn. set_solver.
  - unfold stmt_starts. cbn. set_solver.
Qed.

Lemma stmt_nonempty s : oks s = true -> (1 <= length (prints s))%nat.
Proof.
  intros Hok. pose proof (stmt_starts_ok s [] Hok) as H. rewrite app_nil_r in H. destruct (prints s); [|cbn; lia].
  exfalso. unfold stmt_starts in H. cbn in H. set_solver.
Qed.

(** ** Lists of statements *)

(** [parse_stmt] reads [s], whatever follows. *)
Definition stmt_readable (s : Stmt) : Prop := oks s = true -> forall N k, (length (prints s) < N)%nat -> k <> [] ->
  parse_stmt N (pos (prints s ++ k)) = (pos k, Ok s).

Lemma body_reads stop N ss : fits stop -> Forall stmt_readable ss -> forallb oks ss = true ->
  forall n k, (length (bodies ss) < N)%nat -> (length (bodies ss) < n)%nat -> k <> [] -> hd_kind k ∈ stop ->
  stmt_loop (parse_stmt N) stop n (pos (bodies ss ++ k)) = (pos k, Ok ss).
Proof.
  intros Hfit Hall. induction Hall as [|s ss Hs _ IH]; intros Hok n k HN Hn Hk Hst; (destruct n as [|n]; [lia|]);
    cbn [stmt_loop]; rewrite step_kind by ne.
  - cbn [print_body flat_map app]. replace (existsb (kinds_eq (hd_kind k)) stop) with true; [by rewrite orb_true_r|].
    symmetry. apply existsb_exists. exists (hd_kind k). split; [by apply list_elem_of_In|by apply bool_decide_eq_true].
  - apply andb_prop in Hok as [Hsok Hok]. cbn [print_body flat_map] in *. rewrite length_app in *. rewrite <-app_assoc.
    fold (bodies ss) in *. pose proof (stmt_nonempty s Hsok).
    assert (Hno : existsb (kinds_eq (hd_kind (prints s ++ bodies ss ++ k))) (KEof :: stop) = false).
    { unfold fits in Hfit. rewrite Forall_forall in Hfit. by apply Hfit, stmt_starts_ok. }
    cbn [existsb] in Hno. rewrite Hno. erewrite step_then; [|apply Hs; [done|lia|ne]].
    erewrite step_then; [|apply IH; [done|lia|lia|done|done]]. done.
Qed.

Lemma end_reads {B} end_ k (f : unit -> P B) : k <> [] -> (end_stmt end_ ≫= f) (pos (kw end_ :: t_semi :: k)) = f tt (pos k).
Proof.
  intros Hk. unfold end_stmt, expect_kw. rewrite M_bind_assoc, step_expect by done. rewrite M_bind_assoc, step_eat by done. done.
Qed.

(** ** Branches *)

Lemma branch_reads N b k : ok b.1 = true -> Forall stmt_readable b.2 -> forallb oks b.2 = true ->
  (length (print_branch real_text prints b) < N)%nat -> k <> [] -> hd_kind k ∈ if_stop ->
  if_branch (parse_stmt N) N (pos (print_branch real_text prints b ++ k)) = (pos k, Ok b).
Proof.
  destruct b as [c ss]. cbn [fst snd]. intros Hc Hss Hok HN Hk Hst. unfold print_branch in *. cbn [fst snd] in *.
  rewrite length_app in HN. cbn [length] in HN. rewrite <-app_assoc. cbn [app]. unfold if_branch.
  erewrite step_reads; [|apply (expr_reads_back real_text c N Hc); lia|done|done]. unfold expect_kw. rewrite step_expect by ne.
  erewrite step_then; [|apply body_reads; [apply fits_if|done|done|lia|lia|done|done]]. done.
Qed.

Definition branch_ok (b : Expr * list Stmt) : bool := ok b.1 && forallb oks b.2.

Lemma elsif_reads N bs : Forall (fun b : Expr * list Stmt => Forall stmt_readable b.2) bs -> forallb branch_ok bs = true ->
  forall n k, (length (flat_map (fun b => kw "ELSIF" :: print_branch real_text prints b) bs) < N)%nat ->
  (length bs < n)%nat -> k <> [] -> hd_kind k ∈ [KKeyword "ELSE"; KKeyword "END_IF"] ->
  elsif_loop (parse_stmt N) N n (pos (flat_map (fun b => kw "ELSIF" :: print_branch real_text prints b) bs ++ k)) = (pos k, Ok bs).
Proof.
  induction 1 as [|b bs Hb _ IH]; intros Hok n k HN Hn Hk Hst; (destruct n as [|n]; [cbn in Hn; lia|]); cbn [elsif_loop].
  - cbn [flat_map app]. rewrite step_no_eat; [done|done|]. intros E. rewrite E in Hst. set_solver.
  - apply andb_prop in Hok as [[Hc Hbok]%andb_prop Hok]. cbn [flat_map app length] in *. rewrite length_app in HN.
    rewrite <-app_assoc, step_eat by (done || ne).
    erewrite step_then; [|apply branch_reads; [done|done|done|lia|ne|]].
    + erewrite step_then; [|apply IH; [done|lia|lia|done|done]]. done.
    + destruct bs as [|b' bs]; [|by unfold if_stop; cbn; set_solver]. cbn [flat_map app]. unfold if_stop. set_solver.
Qed.

Lemma else_reads N end_ e k : fits [KKeyword end_] -> end_ <> "ELSE"%string -> else_all stmt_readable e ->
  (match e with Some ss => forallb oks ss | None => true end) = true ->
  (length (print_else prints e) < N)%nat -> k <> [] -> hd_kind k = KKeyword end_ ->
  else_part (parse_stmt N) N end_ (pos (print_else prints e ++ k)) = (pos k, Ok e).
Proof.
  intros Hfit Hne He Hok HN Hk Hkk. unfold else_part. destruct e as [ss|]; cbn [print_else app length] in *.
  - rewrite step_eat by (done || ne). unfold parse_stmt_list.
    erewrite step_then; [|apply body_reads; [done|done|done|lia|lia|done|rewrite Hkk; set_solver]]. done.
  - rewrite step_no_eat; [done|done|]. rewrite Hkk. congruence.
Qed.

(** ** Arms *)

Lemma label_reads ls v k : label_ok v = true -> k <> [] -> hd_kind k <> KDotDot ->
  case_label ls (pos (num v :: k)) = (pos k, Ok (ls ++ [v])).
Proof.
  intros [H1%Z.leb_le H2%Z.ltb_lt]%andb_prop Hk Hd. unfold case_label. rewrite step_expect by done. unfold parse_int. cbn [tk_text num].
  rewrite parse_pretty by lia. cbn [or_fail ok_or]. erewrite step_then; [|done]. by rewrite step_no_eat.
Qed.

Lemma labels_read vs : forall ls v n k, forallb label_ok (v :: vs) = true -> (length vs < n)%nat ->
  label_loop n ls (pos (commas (map (fun v => [num v]) (v :: vs)) ++ t_colon :: k)) = (pos (t_colon :: k), Ok (ls ++ v :: vs)).
Proof.
  induction vs as [|w vs IH]; intros ls v n k [Hv Hok]%andb_prop Hn; (destruct n as [|n]; [lia|]);
    cbn [map commas flat_map app label_loop length] in *.
  - erewrite step_then; [|by apply label_reads]. by rewrite step_no_eat.
  - erewrite step_then; [|by apply label_reads]. rewrite step_eat by done.
    rewrite (IH (ls ++ [v]) w) by (done || lia). by rewrite <-app_assoc.
Qed.

Definition arm_okb (a : CaseArm Stmt) : bool :=
  negb (bool_decide (ca_labels a = [])) && forallb label_ok (ca_labels a) && forallb oks (ca_body a).

Lemma commas_length (vs : list Z) : (length vs <= length (commas (map (fun v => [num v]) vs)))%nat.
Proof.
  destruct vs as [|v vs]; [done|]. cbn [map commas]. rewrite length_app. cbn [length].
  induction vs as [|w vs IH]; [done|]. cbn in *. lia.
Qed.

Lemma arm_reads N a k : Forall stmt_readable (ca_body a) -> arm_okb a = true -> (length (print_arm prints a) < N)%nat ->
  k <> [] -> hd_kind k ∈ arm_stop -> case_arm (parse_stmt N) N (pos (print_arm prints a ++ k)) = (pos k, Ok a).
Proof.
  destruct a as [ls b]. intros Hb [[Hne%negb_true_iff Hl]%andb_prop Hok]%andb_prop HN Hk Hst. cbn [ca_labels ca_body] in *.
  unfold print_arm in *. cbn [ca_labels ca_body] in *. rewrite length_app in HN. cbn [length] in HN.
  destruct ls as [|v vs]; [done|]. pose proof (commas_length (v :: vs)) as Hc. cbn [length] in Hc.
  rewrite <-app_assoc. cbn [app]. unfold case_arm. erewrite step_then; [|apply labels_read; [done|lia]]. rewrite step_expect by ne.
  erewrite step_then; [|apply body_reads; [apply fits_arm|done|done|lia|lia|done|done]]. done.
Qed.

Lemma arm_start a l : arm_okb a = true -> hd_kind (print_arm prints a ++ l) = KIntLit.
Proof. destruct a as [[|v vs] b]; [done|]. done. Qed.

Lemma arms_read N arms : Forall (fun a => Forall stmt_readable (ca_body a)) arms -> forallb arm_okb arms = true ->
  forall n k, (length (flat_map (print_arm prints) arms) < N)%nat -> (length arms < n)%nat -> k <> [] ->
  hd_kind k ∈ [KKeyword "ELSE"; KKeyword "END_CASE"] ->
  arm_loop (parse_stmt N) N n (pos (flat_map (print_arm prints) arms ++ k)) = (pos k, Ok arms).
Proof.
  induction 1 as [|a arms Ha _ IH]; intros Hok n k HN Hn Hk Hst; (destruct n as [|n]; [cbn in Hn; lia|]); cbn [arm_loop].
  - cbn [flat_map app]. rewrite step_kind by done. assert (E : kinds_eq (hd_kind k) (KKeyword "END_CASE") || kinds_eq (hd_kind k) (KKeyword "ELSE") = true).
    { unfold kinds_eq. apply orb_true_iff. rewrite !bool_decide_eq_true. set_solver. }
    by rewrite E.
  - apply andb_prop in Hok as [Haok Hok]. cbn [flat_map length] in *. rewrite length_app in HN. rewrite <-app_assoc.
    assert (Hne : print_arm prints a <> []) by (pose proof (arm_start a [] Haok) as E; rewrite app_nil_r in E; by destruct (print_arm prints a)).
    rewrite step_kind by ne. rewrite arm_start by done. change (kinds_eq KIntLit _) with false at 1. change (kinds_eq KIntLit _) with false. cbn [orb].
    erewrite step_then; [|apply arm_reads; [done|done|lia|ne|]].
    + erewrite step_then; [|apply IH; [done|lia|lia|done|done]]. done.
    + unfold arm_stop. destruct arms as [|a' arms]; [cbn; set_solver|]. apply andb_prop in Hok as [Haok' _].
      cbn [flat_map]. rewrite <-app_assoc, arm_start by done. set_solver.
Qed.

(** ** Statements *)

Lemma max_reads m (f : option Z -> P Stmt) k : max_ok m = true -> k <> [] -> hd_kind k <> KLBrace ->
  (k' ← peek_kind; mx ← (if kinds_eq k' KLBrace then v ← parse_max_iter_attr; mret (Some v) else mret None); f mx)
    (pos (print_max m ++ k)) = f m (pos k).
Proof.
  intros Hm Hk HK. destruct m as [n|]; cbn [print_max app].
  - apply andb_prop in Hm as [H1%Z.leb_le H2%Z.ltb_lt]. rewrite step_kind by done. kinds. change (kinds_eq KLBrace KLBrace) with true. cbn match.
    rewrite M_bind_assoc. unfold parse_max_iter_attr. rewrite M_bind_assoc, step_expect by done.
    unfold expect_ident. rewrite !M_bind_assoc, step_expect by done. rewrite step_ret.
    change (eq_ignore_ascii_case _ _) with true. cbn match. rewrite M_bind_assoc, step_expect by done.
    rewrite M_bind_assoc, step_expect by done. unfold parse_int. cbn [tk_text num]. rewrite parse_pretty by lia.
    rewrite M_bind_assoc. erewrite step_then; [|done]. rewrite M_bind_assoc, step_expect by done. by rewrite !step_ret.
  - rewrite step_kind by done. unfold kinds_eq. rewrite bool_decide_eq_false_2 by done. by rewrite step_ret.
Qed.

(** [stmt_body] once the attribute is read. *)
Definition stmt_rest (ps : P Stmt) (N : nat) (max : option Z) : P Stmt :=
  k ← peek_kind;
  if kinds_eq k (KKeyword "IF") then parse_if ps N
  else if kinds_eq k (KKeyword "CASE") then parse_case ps N
  else if kinds_eq k (KKeyword "WHILE") then parse_while ps N max
  else if kinds_eq k (KKeyword "FOR") then parse_for ps N max
  else if kinds_eq k (KKeyword "RETURN") then expect_kw "RETURN" ;; expect KSemi ;; mret SReturn
  else if kinds_eq k KSemi then bump ;; mret SEmpty
  else match max with Some _ => fail Code.EParse | None => simple_stmt N end.

Lemma starts_clean k : k ∈ stmt_starts -> excluded_kind k = None.
Proof. revert k. apply Forall_forall. unfold stmt_starts. repeat constructor. Qed.

Lemma stmt_body_rest ps N m k : max_ok m = true -> k <> [] -> hd_kind k ∈ stmt_starts -> hd_kind k <> KLBrace ->
  stmt_body ps N (pos (print_max m ++ k)) = stmt_rest ps N m (pos k).
Proof.
  intros Hm Hk Hs Hb. unfold stmt_body. rewrite step_check; [|ne|by apply starts_clean, max_starts].
  by apply (max_reads m (stmt_rest ps N)).
Qed.

Lemma assign_reads N p r k : path_ok ok p = true -> ok r = true ->
  (length (print (EName p) ++ t_assign :: print r ++ [t_semi]) <= N)%nat -> k <> [] ->
  simple_stmt N (pos (print (EName p) ++ t_assign :: print r ++ t_semi :: k)) = (pos k, Ok (SAssign (EName p) r)).
Proof.
  intros Hp Hr HN Hk. rewrite length_app in HN. cbn [length] in HN. rewrite length_app in HN. cbn [length] in HN.
  unfold simple_stmt. erewrite step_reads; [|apply (expr_reads_back real_text (EName p) N Hp); lia|done|done].
  rewrite step_eat by (done || ne). erewrite step_reads; [|apply (expr_reads_back real_text r N Hr); lia|done|done].
  by rewrite step_expect.
Qed.

Lemma call_stmt_reads N c k : call_ok ok c = true -> (length (print_call print c) < N)%nat -> k <> [] ->
  simple_stmt N (pos (print_call print c ++ t_semi :: k)) = (pos k, Ok (SFbCall c)).
Proof.
  intros Hc HN Hk. unfold simple_stmt. erewrite step_reads; [|by apply (call_reads_back real_text c N Hc)|done|done].
  rewrite step_no_eat by done. by rewrite step_expect.
Qed.

(** A name starts neither a keyword's statement nor an empty one. *)
Lemma rest_simple ps N k : k <> [] -> hd_kind k ∈ [KIdent; KKeyword "EN"; KKeyword "ENO"] ->
  stmt_rest ps N None (pos k) = simple_stmt N (pos k).
Proof.
  intros Hk Hh. unfold stmt_rest. rewrite step_kind by done.
  assert (Hno : Forall (fun K => kinds_eq (hd_kind k) K = false)
    [KKeyword "IF"; KKeyword "CASE"; KKeyword "WHILE"; KKeyword "FOR"; KKeyword "RETURN"; KSemi]).
  { revert Hh. generalize (hd_kind k). apply Forall_forall. repeat constructor. }
  repeat (apply Forall_cons in Hno as [-> Hno]). done.
Qed.

Lemma path_names p k : path_ok ok p = true -> hd_kind (print_path print p ++ k) ∈ [KIdent; KKeyword "EN"; KKeyword "ENO"].
Proof.
  destruct p as [|[h|] p]; [done| |done]. intros [Hh _]%andb_prop. cbn [print_path app hd_kind]. destruct (head_kind h Hh) as [-> |[[_ ->]|[_ ->]]]; set_solver.
Qed.

Lemma names_start k : k ∈ [KIdent; KKeyword "EN"; KKeyword "ENO"] -> k ∈ stmt_starts /\ k <> KLBrace.
Proof.
  revert k. apply Forall_forall. unfold stmt_starts. repeat constructor; try done; set_solver.
Qed.

Lemma simple_reads N p l s k : path_ok ok p = true -> k <> [] ->
  simple_stmt N (pos (print_path print p ++ l ++ k)) = (pos k, Ok s) ->
  parse_stmt (S N) (pos (print_path print p ++ l ++ k)) = (pos k, Ok s).
Proof.
  intros Hp Hk Hs. pose proof (path_names p (l ++ k) Hp) as Hh. apply names_start in Hh as Hh'. destruct Hh' as [H1 H2].
  cbn [parse_stmt]. pose proof (stmt_body_rest (parse_stmt N) N None (print_path print p ++ l ++ k) eq_refl ltac:(ne) H1 H2) as E.
  cbn [print_max app] in E. by rewrite E, rest_simple by (done || ne).
Qed.

(** ** Compound statements *)

Lemma if_reads N b bs e k : Forall (fun b : Expr * list Stmt => Forall stmt_readable b.2) (b :: bs) -> forallb branch_ok (b :: bs) = true ->
  else_all stmt_readable e -> (match e with Some ss => forallb oks ss | None => true end) = true -> k <> [] ->
  (length (print_branch real_text prints b) + length (flat_map (fun b => kw "ELSIF" :: print_branch real_text prints b) bs) +
    length (print_else prints e) < N)%nat ->
  parse_if (parse_stmt N) N (pos (kw "IF" :: print_branch real_text prints b ++
    flat_map (fun b => kw "ELSIF" :: print_branch real_text prints b) bs ++ print_else prints e ++ kw "END_IF" :: t_semi :: k)) =
  (pos k, Ok (SIf (b :: bs) e)).
Proof.
  intros [Hb Hbs]%Forall_cons [[Hc Hbok]%andb_prop Hok]%andb_prop He Heok Hk HN. unfold parse_if, expect_kw. rewrite step_expect by ne.
  assert (Hlen : (length bs <= length (flat_map (fun b => kw "ELSIF" :: print_branch real_text prints b) bs))%nat).
  { clear. induction bs as [|b' bs IH]; [done|]. cbn. rewrite length_app. lia. }
  erewrite step_then; [|apply branch_reads; [done|done|done|lia|ne|]].
  - erewrite step_then; [|apply elsif_reads; [done|done|lia|lia|ne|]].
    + erewrite step_then; [|apply else_reads; [by apply fits_end; set_solver|done|done|done|lia|done|done]]. by rewrite end_reads.
    + destruct e; cbn; set_solver.
  - unfold if_stop. destruct bs; [|cbn; set_solver]. destruct e; cbn; set_solver.
Qed.

Lemma case_reads N sel arms e k : ok sel = true -> Forall (fun a => Forall stmt_readable (ca_body a)) arms -> forallb arm_okb arms = true ->
  else_all stmt_readable e -> (match e with Some ss => forallb oks ss | None => true end) = true -> k <> [] ->
  (length (print sel) + length (flat_map (print_arm prints) arms) + length (print_else prints e) < N)%nat ->
  parse_case (parse_stmt N) N (pos (kw "CASE" :: print sel ++ kw "OF" :: flat_map (print_arm prints) arms ++
    print_else prints e ++ kw "END_CASE" :: t_semi :: k)) = (pos k, Ok (SCase sel arms e)).
Proof.
  intros Hsel Harms Hok He Heok Hk HN. unfold parse_case, expect_kw. rewrite step_expect by ne.
  erewrite step_reads; [|apply (expr_reads_back real_text sel N Hsel); lia|done|done]. rewrite step_expect by ne.
  assert (Hlen : (length arms <= length (flat_map (print_arm prints) arms))%nat).
  { clear. induction arms as [|a arms IH]; [done|]. cbn [flat_map length]. unfold print_arm at 1. rewrite !length_app. cbn [length]. lia. }
  erewrite step_then; [|apply arms_read; [done|done|lia|lia|ne|destruct e; cbn; set_solver]].
  erewrite step_then; [|apply else_reads; [by apply fits_end; set_solver|done|done|done|lia|done|done]]. by rewrite end_reads.
Qed.

Lemma loop_body_reads N end_ b k : end_ ∈ ["END_WHILE"; "END_FOR"]%string -> Forall stmt_readable b -> forallb oks b = true ->
  (length (bodies b) < N)%nat -> k <> [] ->
  (x ← parse_stmt_list (parse_stmt N) N [KKeyword end_]; end_stmt end_ ;; mret x) (pos (bodies b ++ kw end_ :: t_semi :: k)) = (pos k, Ok b).
Proof.
  intros Hend Hb Hok HN Hk. unfold parse_stmt_list.
  erewrite step_then; [|apply body_reads; [apply fits_end; set_solver|done|done|lia|lia|done|cbn; set_solver]]. by rewrite end_reads.
Qed.

Lemma while_reads N c m b k : ok c = true -> Forall stmt_readable b -> forallb oks b = true -> k <> [] ->
  (length (print c) + length (bodies b) < N)%nat ->
  parse_while (parse_stmt N) N m (pos (kw "WHILE" :: print c ++ kw "DO" :: bodies b ++ kw "END_WHILE" :: t_semi :: k)) =
  (pos k, Ok (SWhile c m b)).
Proof.
  intros Hc Hb Hok Hk HN. unfold parse_while, expect_kw. rewrite step_expect by ne.
  erewrite step_reads; [|apply (expr_reads_back real_text c N Hc); lia|done|done]. rewrite step_expect by ne. unfold parse_stmt_list.
  erewrite step_then; [|apply body_reads; [apply fits_end; set_solver|done|done|lia|lia|done|cbn; set_solver]]. by rewrite end_reads.
Qed.

Lemma for_reads N v f t by_ m b k : ident_ok v = true -> ok f = true -> ok t = true ->
  (match by_ with Some e => ok e | None => true end) = true -> Forall stmt_readable b -> forallb oks b = true -> k <> [] ->
  (length (print f) + length (print t) + length (match by_ with Some e => print e | None => [] end) + length (bodies b) < N)%nat ->
  parse_for (parse_stmt N) N m (pos (kw "FOR" :: word v :: t_assign :: print f ++ kw "TO" :: print t ++
    (match by_ with Some e => kw "BY" :: print e | None => [] end) ++ kw "DO" :: bodies b ++ kw "END_FOR" :: t_semi :: k)) =
  (pos k, Ok (SFor v f t by_ m b)).
Proof.
  intros Hv Hf Ht Hby Hb Hok Hk HN. unfold parse_for, expect_kw, expect_ident. rewrite step_expect by done.
  rewrite M_bind_assoc, step_expect by (by apply ident_kind || done). rewrite step_ret, step_expect by ne.
  erewrite step_reads; [|apply (expr_reads_back real_text f N Hf); lia|done|done]. rewrite step_expect by ne.
  erewrite step_reads; [|apply (expr_reads_back real_text t N Ht); lia|ne|by destruct by_].
  assert (Htail : forall by', (b' ← parse_stmt_list (parse_stmt N) N [KKeyword "END_FOR"]; end_stmt "END_FOR" ;; mret (SFor v f t by' m b'))
    (pos (bodies b ++ kw "END_FOR" :: t_semi :: k)) = (pos k, Ok (SFor v f t by' m b))).
  { intros by'. unfold parse_stmt_list.
    erewrite step_then; [|apply body_reads; [apply fits_end; set_solver|done|done|lia|lia|done|cbn; set_solver]]. by rewrite end_reads. }
  destruct by_ as [e|]; cbn [app].
  - rewrite step_eat by (done || ne). rewrite M_bind_assoc.
    erewrite step_reads; [|apply (expr_reads_back real_text e N Hby); lia|done|done]. rewrite step_ret, step_expect by ne. apply Htail.
  - rewrite step_no_eat by done. rewrite step_ret, step_expect by ne. apply Htail.
Qed.

(** ** All of them *)

(** The keyword of a compound statement, after the attribute. *)
Lemma keyword_rest N m K k : max_ok m = true -> KKeyword K ∈ stmt_starts -> hd_kind k = KKeyword K -> k <> [] ->
  parse_stmt (S N) (pos (print_max m ++ k)) = stmt_rest (parse_stmt N) N m (pos k).
Proof. intros Hm HK Hh Hk. cbn [parse_stmt]. apply stmt_body_rest; [done|done|by rewrite Hh|by rewrite Hh]. Qed.

Lemma keyword_rest_none N K k : KKeyword K ∈ stmt_starts -> hd_kind k = KKeyword K -> k <> [] ->
  parse_stmt (S N) (pos k) = stmt_rest (parse_stmt N) N None (pos k).
Proof. intros HK Hh Hk. by apply (keyword_rest N None K k). Qed.

Ltac rest_case := unfold stmt_rest; rewrite step_kind by ne; kinds; decide_kinds.

Lemma stmt_reads_back s : stmt_readable s.
Proof.
  induction s as [l r|c|bs e Hbs He|sel arms e Harms He|c m b Hb|v f t by_ m b Hb| |] using stmt_induction; intros Hok N k HN Hk;
    (destruct N as [|N]; [lia|]); cbn [stmt_ok] in Hok; cbn [print_stmt] in *.
  - apply andb_prop in Hok as [[Hn Hl]%andb_prop Hr]. destruct l as [|p| | | |]; try done.
    rewrite <-app_assoc. cbn [app]. rewrite <-app_assoc. cbn [app print_expr].
    pose proof (simple_reads N p (t_assign :: print r ++ [t_semi]) (SAssign (EName p) r) k Hl Hk) as E.
    cbn [app] in E. rewrite <-app_assoc in E. apply E. apply assign_reads; [done|done|lia|done].
  - rewrite <-app_assoc. cbn [app]. apply andb_prop in Hok as Hp. destruct Hp as [[[Hp _]%andb_prop _]%andb_prop _].
    pose proof (call_stmt_reads N c k Hok ltac:(rewrite length_app in HN; cbn [length] in HN; lia) Hk) as Hc.
    unfold print_call in *. rewrite <-!app_assoc in *. cbn [app] in *. rewrite <-!app_assoc in *. cbn [app] in *.
    match type of Hc with simple_stmt _ (pos (_ ++ ?l)) = _ => pose proof (simple_reads N (fc_callee c)) as E end.
    match goal with |- parse_stmt _ (pos (_ ++ t_lparen :: ?l ++ t_rparen :: t_semi :: k)) = _ =>
      specialize (E (t_lparen :: l ++ [t_rparen; t_semi]) (SFbCall c) k Hp Hk) end.
    cbn [app] in E. rewrite <-app_assoc in E. by apply E.
  - destruct bs as [|b bs]; [done|]. apply andb_prop in Hok as [[_ Hok]%andb_prop Heok]. cbn [length app] in *.
    rewrite !length_app in HN. cbn [length] in HN. rewrite <-!app_assoc. cbn [app].
    rewrite (keyword_rest_none N "IF"); [|unfold stmt_starts; set_solver|done|done]. rest_case. by apply if_reads; [..|lia].
  - apply andb_prop in Hok as [[Hsel Hok]%andb_prop Heok]. cbn [length app] in *.
    rewrite !length_app in HN. cbn [length] in HN. rewrite !length_app in HN. cbn [length] in HN.
    rewrite <-!app_assoc. cbn [app]. rewrite <-!app_assoc. cbn [app].
    rewrite (keyword_rest_none N "CASE"); [|unfold stmt_starts; set_solver|done|done]. rest_case. by apply case_reads; [..|lia].
  - apply andb_prop in Hok as [[Hm Hc]%andb_prop Hok].
    rewrite !length_app in HN. cbn [length] in HN. rewrite !length_app in HN. cbn [length] in HN. rewrite !length_app in HN. cbn [length] in HN.
    rewrite <-!app_assoc. cbn [app]. rewrite <-!app_assoc. cbn [app]. rewrite <-!app_assoc. cbn [app].
    rewrite (keyword_rest N m "WHILE"); [|done|unfold stmt_starts; set_solver|done|done]. rest_case. by apply while_reads; [..|lia].
  - apply andb_prop in Hok as [[[[[Hm Hv]%andb_prop Hf]%andb_prop Ht]%andb_prop Hby]%andb_prop Hok].
    repeat (rewrite !length_app in HN; cbn [length] in HN).
    repeat (rewrite <-!app_assoc; cbn [app]).
    rewrite (keyword_rest N m "FOR"); [|done|unfold stmt_starts; set_solver|done|done]. rest_case. apply for_reads; try done.
    destruct by_; cbn [length] in *; lia.
  - cbn [app]. rewrite (keyword_rest_none N "RETURN" (kw "RETURN" :: t_semi :: k)); [|unfold stmt_starts; set_solver|done|done].
    rest_case. unfold expect_kw. by rewrite !step_expect.
  - cbn [app]. change (pos (t_semi :: k)) with (pos (print_max None ++ t_semi :: k)). cbn [parse_stmt].
    rewrite (stmt_body_rest (parse_stmt N) N None (t_semi :: k)); [|done|done|unfold stmt_starts; cbn; set_solver|done].
    rest_case. by rewrite step_bump.
Qed.
End ReadStmt.

(** * The compiler: reading programs back

    Types, variables, sections, programs and function blocks. Last, a whole printed
    unit: the parser gives the tree it was printed from. *)

(** ** Types *)

Lemma type_word w k : type_ok (TNamed w) = true -> k <> [] ->
  excluded_kind (tk_kind (word w)) = None /\ tk_kind (word w) <> KKeyword "ARRAY" /\
  named_type_expr (pos (word w :: k)) = (pos k, Ok (TNamed w)).
Proof.
  cbn [type_ok]. intros [Hw|Hw]%orb_prop Hk.
  - rewrite ident_kind by done. split; [done|]. split; [done|]. unfold named_type_expr. rewrite step_peek, ident_kind by done.
    by rewrite step_bump.
  - apply existsb_exists in Hw as (K & HK & ->%bool_decide_eq_true). apply list_elem_of_In in HK.
    assert (Hall : Forall (fun K => tk_kind (word (bstr K)) = KKeyword K /\ excluded_kind (KKeyword K) = None /\
      KKeyword K <> KKeyword "ARRAY" /\ type_keyword K = true) ["BOOL"; "INT"; "DINT"; "REAL"; "TIME"]%string) by (repeat constructor; done).
    rewrite Forall_forall in Hall. destruct (Hall K HK) as (HKk & He & Ha & Ht). rewrite HKk. split; [done|]. split; [done|].
    unfold named_type_expr. rewrite step_peek, HKk, Ht. by rewrite step_bump.
Qed.

Lemma type_reads t : forall N k, type_ok t = true -> (length (print_type t) <= N)%nat -> k <> [] ->
  parse_type N (pos (print_type t ++ k)) = (pos k, Ok t).
Proof.
  induction t as [w|upper t IH]; intros N k Hok HN Hk; (destruct N as [|N]; [cbn in HN; lia|]); cbn [parse_type print_type app length] in *.
  - destruct (type_word w k Hok Hk) as (He & Ha & Hn). rewrite step_check, step_kind by done. cbn [hd_kind].
    unfold kinds_eq. by rewrite bool_decide_eq_false_2.
  - apply andb_prop in Hok as [[H1%Z.leb_le H2%Z.ltb_lt]%andb_prop Hok]. rewrite step_check, step_kind by done. kinds.
    change (kinds_eq _ _) with true. cbn match. unfold expect_kw. rewrite step_bump, step_expect, step_expect by done.
    unfold parse_int. cbn [tk_text num]. rewrite (parse_pretty _ 0) by lia. erewrite step_then; [|done]. change (negb (0 =? 0)) with false. cbn match.
    rewrite step_expect, step_expect by done. cbn [tk_text num]. rewrite parse_pretty by lia. erewrite step_then; [|done].
    rewrite step_expect, step_expect by (done || ne). erewrite step_then; [|apply IH; [done|lia|done]]. done.
Qed.

Section ReadUnit.
Context (real_text : Z -> bytes).
Local Abbreviation prints := (print_stmt real_text).
Local Abbreviation oks := (stmt_ok real_text).
Local Abbreviation print_v := (print_var real_text).

(** ** Variables *)

Definition opt_ok (a : option DirectAddr) : bool := match a with Some a => (0 <=? da_index a) && (da_index a <? 2 ^ 32) | None => true end.

Lemma step_some {A B} (a : A) c (f : A -> P B) p : (or_fail (Some a) c ≫= f) p = f a p.
Proof. done. Qed.

Lemma direct_reads pl i p : 0 <= i < 2 ^ 32 ->
  parse_direct_addr (mkToken KDirectAddr (plane_char pl :: 58 :: bstr (pretty i))) p = (p, Ok (mkDirect pl i)).
Proof.
  intros Hi. unfold parse_direct_addr. cbn [tk_text].
  assert (Hs : split_colon (plane_char pl :: 58 :: bstr (pretty i)) = Some ([plane_char pl], bstr (pretty i))) by (by destruct pl).
  assert (Hp : direct_plane [plane_char pl] = Some pl) by (by destruct pl).
  rewrite Hs, step_some. cbn [fst snd]. rewrite Hp, step_some, parse_pretty, step_some by done. done.
Qed.

Lemma at_reads a k : opt_ok a = true -> at_addr (pos (print_at a ++ t_colon :: k)) = (pos (t_colon :: k), Ok a).
Proof.
  destruct a as [[pl i]|]; intros Hok; unfold at_addr; cbn [print_at app].
  - apply andb_prop in Hok as [H1%Z.leb_le H2%Z.ltb_lt]. cbn [da_plane da_index] in *. rewrite step_eat, step_expect by done.
    erewrite step_then; [|by apply direct_reads; lia]. done.
  - by rewrite step_no_eat.
Qed.

Lemma var_reads N v k : var_ok real_text v = true -> (length (print_v v) <= N)%nat -> k <> [] ->
  parse_var_decl N (pos (print_v v ++ k)) = (pos k, Ok v).
Proof.
  destruct v as [w a t i]. intros [[[Hw Ha]%andb_prop Ht]%andb_prop Hi]%andb_prop HN Hk. cbn [vd_name vd_at vd_ty vd_init] in *.
  unfold print_var in *. cbn [vd_name vd_at vd_ty vd_init length] in *. repeat (rewrite !length_app in HN; cbn [length] in HN).
  cbn [app]. repeat (rewrite <-!app_assoc; cbn [app]). unfold parse_var_decl, expect_ident.
  rewrite M_bind_assoc, step_expect by (by apply ident_kind || ne). rewrite step_ret.
  erewrite step_then; [|by apply at_reads]. rewrite step_expect by ne.
  erewrite step_then; [|apply type_reads; [done|lia|ne]]. destruct i as [e|]; cbn [app length] in *.
  - rewrite step_eat, M_bind_assoc by (done || ne).
    erewrite step_reads; [|apply (expr_reads_back real_text e N Hi); lia|done|done]. by rewrite step_ret, step_expect.
  - rewrite step_no_eat by done. by rewrite step_ret, step_expect.
Qed.

Lemma vars_read N vs : forallb (var_ok real_text) vs = true -> forall n k, (length (flat_map print_v vs) <= N)%nat -> (length vs < n)%nat ->
  var_loop N n (pos (flat_map print_v vs ++ kw "END_VAR" :: k)) = (pos (kw "END_VAR" :: k), Ok vs).
Proof.
  induction vs as [|v vs IH]; intros Hok n k HN Hn; (destruct n as [|n]; [lia|]); cbn [var_loop].
  - cbn [flat_map app]. rewrite step_kind by done. kinds. by change (kinds_eq _ _) with true.
  - apply andb_prop in Hok as [Hv Hok]. cbn [flat_map length] in *. rewrite length_app in HN. rewrite <-app_assoc.
    apply andb_prop in Hv as Hv'. destruct Hv' as [[[Hw _]%andb_prop _]%andb_prop _].
    assert (Hh : hd_kind (print_v v ++ flat_map print_v vs ++ kw "END_VAR" :: k) = KIdent) by (by apply ident_kind).
    rewrite step_kind, Hh by ne. change (kinds_eq _ _) with false. cbn match. rewrite step_check by (by rewrite ?Hh || ne).
    erewrite step_then; [|apply var_reads; [done|lia|ne]]. erewrite step_then; [|apply IH; [done|lia|lia]]. done.
Qed.

(** ** Sections *)

Lemma kind_reads kd k : k <> [] -> hd_kind k <> KKeyword "CONSTANT" -> section_kind (pos (print_kind kd ++ k)) = (pos k, Ok kd).
Proof.
  intros Hk Hc. assert (Hno : forall kd, constant_or kd (pos k) = (pos k, Ok kd)).
  { intros kd'. unfold constant_or. by rewrite step_no_eat. }
  unfold section_kind. destruct kd; cbn [print_kind app]; rewrite step_kind by done; kinds;
    decide_kinds;
    rewrite step_bump by done; try done; try apply Hno.
  unfold constant_or. by rewrite step_eat.
Qed.

Definition section_ok (s : VarSection) : bool := forallb (var_ok real_text) (vs_vars s).

Lemma var_nonempty vs : (length vs <= length (flat_map print_v vs))%nat.
Proof. induction vs as [|v vs IH]; [done|]. cbn. rewrite length_app. lia. Qed.

Lemma section_reads N s k : section_ok s = true -> (length (print_section real_text s) <= N)%nat -> k <> [] ->
  parse_var_section N (pos (print_section real_text s ++ k)) = (pos k, Ok s).
Proof.
  destruct s as [kd vs]. unfold section_ok, print_section. cbn [vs_kind vs_vars]. intros Hok HN Hk.
  rewrite !length_app in HN. cbn [length] in HN. rewrite <-!app_assoc. cbn [app]. unfold parse_var_section.
  pose proof (var_nonempty vs). erewrite step_then; [|apply kind_reads; [ne|]].
  - erewrite step_then; [|apply vars_read; [done|lia|lia]]. unfold expect_kw. by rewrite step_expect.
  - destruct vs as [|v vs]; [done|]. apply andb_prop in Hok as [[[[Hw _]%andb_prop _]%andb_prop _]%andb_prop _].
    cbn [flat_map print_var app hd_kind]. by rewrite ident_kind.
Qed.

Lemma section_starts s l : exists K, hd_kind (print_section real_text s ++ l) = KKeyword K /\ section_start (KKeyword K) = true /\ excluded_code K = None.
Proof. destruct s as [[] vs]; by eexists. Qed.

(** ** Programs *)

Lemma starts_not_decl k : k ∈ stmt_starts -> section_start k = false /\ kinds_eq k (KKeyword "END_PROGRAM") = false /\
  kinds_eq k (KKeyword "END_FUNCTION_BLOCK") = false /\ kinds_eq k (KKeyword "FUNCTION_BLOCK") = false /\ excluded_kind k = None.
Proof. revert k. apply Forall_forall. unfold stmt_starts. repeat constructor. Qed.

Definition is_end (end_ : string) : Prop := end_ = "END_PROGRAM"%string \/ end_ = "END_FUNCTION_BLOCK"%string.

Lemma stmts_read N end_ body : is_end end_ -> forallb oks body = true -> forall n k,
  (length (print_body prints body) < N)%nat -> (length body < n)%nat -> k <> [] ->
  decl_loop N end_ n (pos (print_body prints body ++ kw end_ :: k)) = (pos k, Ok ([], body)).
Proof.
  intros Hend. induction body as [|s body IH]; intros Hok n k HN Hn Hk; (destruct n as [|n]; [lia|]); cbn [decl_loop].
  - cbn [print_body flat_map app].
    destruct Hend as [-> | ->]; (rewrite step_check, step_kind by done; kinds;
      change (section_start _) with false; change (kinds_eq _ _) with true at 1; cbn match; unfold expect_kw; by rewrite step_expect).
  - apply andb_prop in Hok as [Hs Hok]. cbn [print_body flat_map length] in *. fold (print_body prints body) in *.
    rewrite length_app in HN. rewrite <-app_assoc.
    destruct (starts_not_decl _ (stmt_starts_ok real_text s (print_body prints body ++ kw end_ :: k) Hs)) as (H1 & H2 & H3 & H4 & H5).
    rewrite step_check by (done || ne). rewrite step_kind, H1 by ne.
    assert (He : kinds_eq (hd_kind (prints s ++ print_body prints body ++ kw end_ :: k)) (KKeyword end_) = false) by (by destruct Hend as [-> | ->]).
    rewrite He, H4. erewrite step_then; [|apply stmt_reads_back; [done|lia|ne]].
    erewrite step_then; [|apply IH; [done|lia|lia|done]]. done.
Qed.

Lemma decls_read N end_ vars body : is_end end_ -> forallb section_ok vars = true -> forallb oks body = true -> forall n k,
  (length (print_decls real_text vars body end_) <= N)%nat -> (length vars + length body < n)%nat -> k <> [] ->
  decl_loop N end_ n (pos (print_decls real_text vars body end_ ++ k)) = (pos k, Ok (vars, body)).
Proof.
  intros Hend Hvars Hbody. unfold print_decls. induction vars as [|v vars IH]; intros n k HN Hn Hk.
  - cbn [flat_map app] in *. rewrite length_app in HN. cbn [length] in HN. rewrite <-app_assoc. cbn [app].
    apply stmts_read; [done|done|lia|cbn in Hn; lia|done].
  - destruct n as [|n]; [lia|]. apply andb_prop in Hvars as [Hv Hvars]. cbn [flat_map length decl_loop] in *.
    rewrite <-app_assoc in HN |- *. rewrite (length_app (print_section real_text v)) in HN. rewrite <-app_assoc.
    match goal with |- context [print_section real_text v ++ ?l] => destruct (section_starts v l) as (K & HK & Hst & He) end.
    rewrite step_check by (rewrite ?HK; done || ne). rewrite step_kind, HK, Hst by ne.
    erewrite step_then; [|apply section_reads; [done|lia|ne]].
    specialize (IH Hvars n k ltac:(lia) ltac:(lia) Hk). rewrite <-app_assoc in IH. erewrite step_then; [|exact IH]. done.
Qed.

Lemma decls_length vars body end_ : forallb oks body = true ->
  (length vars + length body < length (print_decls real_text vars body end_))%nat.
Proof.
  intros Hok. unfold print_decls. rewrite !length_app. cbn [length].
  assert (Hv : (length vars <= length (flat_map (print_section real_text) vars))%nat).
  { induction vars as [|v vars IH]; [done|]. cbn [flat_map length]. unfold print_section at 1. rewrite !length_app. cbn [length]. lia. }
  assert (Hb : (length body <= length (print_body prints body))%nat).
  { induction body as [|s body IH]; [done|]. apply andb_prop in Hok as [Hs Hok]. cbn [print_body flat_map length].
    rewrite length_app. pose proof (stmt_nonempty real_text s Hs). specialize (IH Hok). unfold print_body in IH. lia. }
  lia.
Qed.

Local Abbreviation print_d := (print_decl real_text).

Lemma program_reads N p k : decl_ok real_text (DProgram p) = true -> (length (print_d (DProgram p)) <= N)%nat -> k <> [] ->
  parse_program N (pos (print_d (DProgram p) ++ k)) = (pos k, Ok p).
Proof.
  destruct p as [w vars body]. intros [Hw [Hv Hb]%andb_prop]%andb_prop HN Hk. cbn [print_decl pr_name pr_vars pr_body length app] in *.
  unfold parse_program, expect_kw, expect_ident. rewrite step_expect by done.
  rewrite M_bind_assoc, step_expect by (by apply ident_kind || ne). rewrite step_ret. pose proof (decls_length vars body "END_PROGRAM" Hb).
  erewrite step_then; [|apply decls_read; [by left|done|done|lia|lia|done]]. done.
Qed.

Lemma fb_reads N f k : decl_ok real_text (DFunctionBlock f) = true -> (length (print_d (DFunctionBlock f)) <= N)%nat -> k <> [] ->
  parse_fb N (pos (print_d (DFunctionBlock f) ++ k)) = (pos k, Ok f).
Proof.
  destruct f as [w vars body]. intros [Hw [Hv Hb]%andb_prop]%andb_prop HN Hk. cbn [print_decl fb_name fb_vars fb_body length app] in *.
  unfold parse_fb, expect_kw, expect_ident. rewrite step_expect by done.
  rewrite M_bind_assoc, step_expect by (by apply ident_kind || ne). rewrite step_ret. pose proof (decls_length vars body "END_FUNCTION_BLOCK" Hb).
  erewrite step_then; [|apply decls_read; [by right|done|done|lia|lia|done]]. done.
Qed.

(** The keyword of a declaration. *)
Definition decl_keyword (d : Decl) : string := match d with DProgram _ => "PROGRAM" | DFunctionBlock _ => "FUNCTION_BLOCK" end.

Lemma decl_start d k : hd_kind (print_d d ++ k) = KKeyword (decl_keyword d).
Proof. by destruct d. Qed.

Lemma unit_reads N u eof : printable real_text u = true -> tk_kind eof = KEof -> forall n,
  (length (print_unit real_text u) <= N)%nat -> (length u < n)%nat ->
  unit_loop N n (pos (print_unit real_text u ++ [eof])) = (pos [eof], Ok u).
Proof.
  intros Hok He. induction u as [|d u IH]; intros n HN Hn; (destruct n as [|n]; [lia|]); cbn [unit_loop].
  - cbn [print_unit flat_map app]. rewrite step_kind by done. cbn [hd_kind]. rewrite He. by decide_kinds.
  - apply andb_prop in Hok as [Hd Hok]. cbn [print_unit flat_map length] in *. fold (print_unit real_text u) in *. rewrite length_app in HN.
    rewrite <-app_assoc, step_kind, decl_start by ne. specialize (IH Hok n ltac:(lia) ltac:(lia)).
    destruct d as [p|f]; cbn [decl_keyword]; decide_kinds; (rewrite step_check by (rewrite ?decl_start; done || ne)); rewrite M_bind_assoc.
    + erewrite step_then; [|apply program_reads; [done|lia|ne]]. rewrite step_ret. by erewrite step_then; [|exact IH].
    + erewrite step_then; [|apply fb_reads; [done|lia|ne]]. rewrite step_ret. by erewrite step_then; [|exact IH].
Qed.

(** The parser gives back the tree of a printed unit. *)
Lemma tokens_read_back u eof : printable real_text u = true -> tk_kind eof = KEof ->
  parse_tokens (print_unit real_text u ++ [eof]) = Some (Ok u).
Proof.
  intros Hok He. assert (Hlen : (length u <= length (print_unit real_text u))%nat).
  { clear. induction u as [|d u IH]; [done|]. cbn [print_unit flat_map length]. rewrite length_app. fold (print_unit real_text u).
    destruct d; cbn; lia. }
  destruct (print_unit real_text u ++ [eof]) as [|t l] eqn:E; [by apply app_eq_nil in E as [_ ?]|].
  unfold parse_tokens, parse_unit. change (mkParser t l) with (pos (t :: l)). rewrite <-E.
  rewrite unit_reads; [done|done|done|rewrite length_app; lia|rewrite length_app; lia].
Qed.
End ReadUnit.
End Memory.
