(* ===== verification/CompText.v ===== *)
(** * The compiler: from text to trees

    Each token of a printed tree has a spelling that the lexer reads back as that token,
    before a space; a TIME literal is spelled in whole milliseconds, which binary64 holds
    exactly. The lexer reads the text of a printed tree back to its tokens and the parser
    to the tree: [parse_prints]. *)
From Stdlib Require Import SpecFloat.
From S2P Require Import Prelude Float32 Float64 Text IrTypes CompAst CompLex CompParse CompPrint CompReads.

Definition spell (t : Token) : bytes :=
  match tk_kind t, tk_text t with
  | KTimeLit, ms => 84 :: 35 :: ms ++ [109; 115]
  | KDirectAddr, plane :: _ :: index => 37 :: plane :: index
  | _, s => s
  end.

Definition render (ts : list Token) : bytes := flat_map (fun t => spell t ++ [32]) ts.

(** [t] is read back where its spelling ends at a space. *)
Definition lexes (t : Token) : Prop :=
  (exists b s, spell t = b :: s /\ char_boundary [b] = true) /\
  forall rest, char_boundary rest = true -> lex_step (spell t ++ 32 :: rest) = Ok (Some t, 32 :: rest).

(** ** Spans *)

Lemma span_all p w x rest : forallb p w = true -> p x = false -> span p (w ++ x :: rest) = (w, x :: rest).
Proof.
  intros Hw Hx. induction w as [|b w IH]; cbn [app span]; [by rewrite Hx|].
  apply andb_prop in Hw as [-> Hw]. by rewrite IH.
Qed.

Lemma span_space p l rest : p 32 = false -> span p (l ++ 32 :: rest) = ((span p l).1, (span p l).2 ++ 32 :: rest).
Proof.
  intros Hp. induction l as [|b l IH]; cbn [app span]; [by rewrite Hp|].
  destruct (p b); [|done]. rewrite IH. by destruct (span p l).
Qed.

(** ** Words and numbers *)

Lemma in_range_spec lo hi b : in_rangeb lo hi b = true <-> lo <= b <= hi.
Proof. unfold in_rangeb. by rewrite andb_true_iff, !Z.leb_le. Qed.

(** The tests of [lex_step] on a character that is none of the special ones. *)
Lemma plain_tests b : (48 <= b <= 57 \/ 65 <= b <= 90 \/ b = 95 \/ 97 <= b <= 122) ->
  is_ascii_whitespace b = false /\ (b =? 40) = false /\ (b =? 47) = false /\ (b =? 37) = false /\ char_boundary [b] = true.
Proof.
  intros Hb. assert (Hr : in_rangeb 128 191 b = false) by (apply not_true_is_false; rewrite in_range_spec; lia).
  unfold is_ascii_whitespace, char_boundary. rewrite Hr. repeat split; repeat rewrite (proj2 (Z.eqb_neq b _)) by lia; done.
Qed.

Lemma alphabetic_spec b : is_ascii_alphabetic b = true <-> 65 <= b <= 90 \/ 97 <= b <= 122.
Proof. unfold is_ascii_alphabetic. by rewrite orb_true_iff, !in_range_spec. Qed.

Lemma word_lexes w : is_word w = true -> lexes (word w).
Proof.
  destruct w as [|b w]; [done|]. intros [Hb Hw]%andb_prop.
  assert (Hr : 65 <= b <= 90 \/ b = 95 \/ 97 <= b <= 122).
  { apply orb_prop in Hb as [Hb%alphabetic_spec|Hb%Z.eqb_eq]; lia. }
  destruct (plain_tests b ltac:(lia)) as (H1 & H2 & H3 & H4 & H5).
  assert (Hs : spell (word (b :: w)) = b :: w) by (unfold spell, word; cbn [tk_kind tk_text]; by destruct (keyword_lookup (b :: w))).
  split; [by exists b, w|]. intros rest _. rewrite Hs. cbn [app]. unfold lex_step. rewrite H1, H2, H3, H4. cbn [andb].
  assert (Ht : ((b =? 84) || (b =? 116)) && bool_decide (head (w ++ 32 :: rest) = Some 35) = false).
  { apply andb_false_iff. right. apply bool_decide_eq_false. destruct w as [|c w]; [done|]. intros [= ->]. cbn in Hw. by rewrite andb_false_r in Hw. }
  assert (Hd : is_ascii_digit b = false) by (apply not_true_is_false; rewrite digit_range; lia).
  rewrite Ht, Hd, Hb. unfold lex_word. change (b :: w ++ 32 :: rest) with ((b :: w) ++ 32 :: rest). by rewrite span_all.
Qed.

Lemma digit_tests b : is_ascii_digit b = true ->
  is_ascii_whitespace b = false /\ (b =? 40) = false /\ (b =? 47) = false /\ (b =? 37) = false /\ char_boundary [b] = true /\
  (b =? 84) || (b =? 116) = false.
Proof.
  intros Hb%digit_range. destruct (plain_tests b ltac:(lia)) as (H1 & H2 & H3 & H4 & H5).
  repeat split; try done. by rewrite !(proj2 (Z.eqb_neq b _)) by lia.
Qed.

Lemma forall_digits ds : Forall (fun b => is_ascii_digit b = true) ds -> forallb is_ascii_digit ds = true.
Proof. rewrite Forall_forall, List.forallb_forall. intros H b Hb. by apply H, list_elem_of_In. Qed.

(** A number whose first character is a digit. *)
Lemma number_step b w rest : is_ascii_digit b = true ->
  lex_step (b :: w ++ 32 :: rest) = Ok (Some (lex_number (b :: w ++ 32 :: rest)).1, (lex_number (b :: w ++ 32 :: rest)).2).
Proof.
  intros Hb. destruct (digit_tests b Hb) as (H1 & H2 & H3 & H4 & _ & H6). unfold lex_step. by rewrite H1, H2, H3, H4, H6, Hb.
Qed.

Lemma num_lexes z : 0 <= z -> lexes (num z).
Proof.
  intros Hz. destruct (pretty_digits z Hz) as [[Hd _] Hne]. unfold lexes, num, spell. cbn [tk_kind tk_text].
  destruct (bstr (pretty z)) as [|b w]; [done|]. apply Forall_cons in Hd as Hb. destruct Hb as [Hb _].
  split; [exists b, w; split; [done|by apply digit_tests]|]. intros rest _. cbn [app]. rewrite number_step by done.
  unfold lex_number. change (b :: w ++ 32 :: rest) with ((b :: w) ++ 32 :: rest). by rewrite span_all by (by apply forall_digits || done).
Qed.

(** ** REAL literals *)

Lemma exponent_space l : exists e r, forall rest, lex_exponent (l ++ 32 :: rest) = (e, r ++ 32 :: rest).
Proof.
  destruct l as [|c l]; [by exists [], []|]. unfold lex_exponent. cbn [app].
  destruct ((c =? 101) || (c =? 69)); [|by exists [], (c :: l)].
  destruct l as [|d l]; [by exists [c], []|]. cbn [app].
  destruct ((d =? 43) || (d =? 45)).
  - eexists _, _. intros rest. rewrite span_space by done. reflexivity.
  - eexists _, _. intros rest. change (d :: l ++ 32 :: rest) with ((d :: l) ++ 32 :: rest). rewrite span_space by done. reflexivity.
Qed.

Lemma number_space l : exists t r, forall rest, lex_number (l ++ 32 :: rest) = (t, r ++ 32 :: rest).
Proof.
  unfold lex_number. destruct (span is_ascii_digit l) as [whole r] eqn:E.
  assert (Hs : forall rest, span is_ascii_digit (l ++ 32 :: rest) = (whole, r ++ 32 :: rest)).
  { intros rest. by rewrite span_space, E by done. }
  assert (Hint : (forall rest, match r ++ 32 :: rest with
    | 46 :: d :: r' => if negb (d =? 46) && is_ascii_digit d then
        let '(frac, r) := span is_ascii_digit (d :: r') in let '(e, r) := lex_exponent r in (mkToken KRealLit (whole ++ 46 :: frac ++ e), r)
      else (mkToken KIntLit whole, r ++ 32 :: rest)
    | _ => (mkToken KIntLit whole, r ++ 32 :: rest) end = (mkToken KIntLit whole, r ++ 32 :: rest)) ->
    exists t r0, forall rest, (let '(whole, r) := span is_ascii_digit (l ++ 32 :: rest) in
    match r with
    | 46 :: d :: r' => if negb (d =? 46) && is_ascii_digit d then
        let '(frac, r) := span is_ascii_digit (d :: r') in let '(e, r) := lex_exponent r in (mkToken KRealLit (whole ++ 46 :: frac ++ e), r)
      else (mkToken KIntLit whole, r)
    | _ => (mkToken KIntLit whole, r) end) = (t, r0 ++ 32 :: rest)).
  { intros H. exists (mkToken KIntLit whole), r. intros rest. rewrite Hs. apply H. }
  destruct r as [|c [|d r]].
  - by apply Hint.
  - apply Hint. intros rest. cbn [app]. destruct (decide (c = 46)) as [->|]; [done|]. repeat (case_match; try done).
  - destruct (decide (c = 46)) as [->|Hc]; [|apply Hint; intros rest; cbn [app]; repeat (case_match; try done)].
    destruct (negb (d =? 46) && is_ascii_digit d) eqn:Ed; [|apply Hint; intros rest; cbn [app]; by rewrite Ed].
    destruct (exponent_space (span is_ascii_digit (d :: r)).2) as (e & r' & He).
    exists (mkToken KRealLit (whole ++ 46 :: (span is_ascii_digit (d :: r)).1 ++ e)), r'. intros rest. rewrite Hs. cbn [app]. rewrite Ed.
    change (d :: r ++ 32 :: rest) with ((d :: r) ++ 32 :: rest). rewrite span_space by done. by rewrite He.
Qed.

Lemma real_lexes s : match s with [] => false | b :: _ => is_ascii_digit b end = true ->
  lex_number (s ++ [32]) = (mkToken KRealLit s, [32]) -> lexes (mkToken KRealLit s).
Proof.
  destruct s as [|b w]; [done|]. intros Hb Hl. split; [exists b, w; split; [done|by apply digit_tests]|].
  intros rest _. unfold spell. cbn [tk_kind tk_text app]. rewrite number_step by done.
  destruct (number_space (b :: w)) as (t & r & Hr). cbn [app] in Hr, Hl. rewrite (Hr []) in Hl. injection Hl as -> Hr0.
  apply (app_inj_tail r []) in Hr0 as [-> _]. by rewrite Hr.
Qed.

(** ** TIME literals *)

Lemma lower_digits ds : Forall (fun b => is_ascii_digit b = true) ds -> to_ascii_lowercase ds = ds.
Proof.
  induction 1 as [|b ds Hb _ IH]; [done|]. unfold to_ascii_lowercase in *. cbn [map]. rewrite IH. f_equal. apply digit_range in Hb.
  unfold ascii_lower. by replace (in_rangeb 65 90 b) with false by (symmetry; apply not_true_is_false; rewrite in_range_spec; lia).
Qed.

Lemma time_digits ds : Forall (fun b => is_ascii_digit b = true) ds -> forall s n total,
  time_loop (ds ++ s) n total = time_loop s (n ++ ds) total.
Proof.
  induction 1 as [|b ds Hb _ IH]; intros s n total; [by rewrite app_nil_r|].
  cbn [app time_loop]. rewrite Hb. cbn [orb]. by rewrite IH, <-app_assoc.
Qed.

Lemma parse_f64_digits z ds : digits_of z ds -> ds <> [] -> parse_f64 ds = Some (f64_of_int z).
Proof.
  intros [Hd <-] Hne. unfold parse_f64, split_point.
  assert (Hs : span is_ascii_digit ds = (ds, [])).
  { apply forall_digits in Hd. clear Hne. induction ds as [|b ds IH]; [done|]. cbn [span]. apply andb_prop in Hd as [-> Hd]. by rewrite IH. }
  rewrite Hs, app_nil_r, bool_decide_eq_false_2 by done. cbn [Z.opp len length Z.of_nat]. f_equal. unfold f64_of_int. f_equal.
  pose proof (fold_digits_ge ds 0 ltac:(lia) Hd) as Hge. fold (digits_value ds) in Hge. unfold decimal_to.
  destruct (digits_value ds) as [|p|p]; [done| |lia]. change (- 0) with 0. cbn [Z.leb Z.compare]. by rewrite Z.pow_0_r, Z.mul_1_r.
Qed.

Lemma time_char_digits ds : Forall (fun b => is_ascii_digit b = true) ds -> forallb time_char (ds ++ [109; 115]) = true.
Proof.
  intros Hd. rewrite forallb_app, andb_true_r. apply forall_digits in Hd. rewrite List.forallb_forall in *. intros b Hb.
  unfold time_char, is_ascii_alphanumeric. rewrite (Hd b Hb). by rewrite orb_true_r.
Qed.

(** [T#<ms>ms]. *)
Lemma parse_time_ms z ds : digits_of z ds -> ds <> [] -> 0 <= z < 2 ^ 31 -> parse_time_literal (ds ++ [109; 115]) = Ok z.
Proof.
  intros Hz Hne Hr. pose proof Hz as [Hd _]. unfold parse_time_literal.
  assert (Hl : to_ascii_lowercase (ds ++ [109; 115]) = ds ++ [109; 115]).
  { unfold to_ascii_lowercase. rewrite map_app. f_equal. by apply lower_digits. }
  rewrite Hl, bool_decide_eq_false_2 by (by destruct ds). rewrite time_digits by done. cbn [app].
  assert (Ha : add_ms ds 1 0 = Ok z).
  { unfold add_ms. rewrite (parse_f64_digits z) by done. cbn [ok_or mbind res_bind].
    rewrite times_one_exact by lia. unfold i64_checked. rewrite Z.add_0_l, (proj2 (Z.leb_le _ _)), (proj2 (Z.ltb_lt _ _)) by lia. done. }
  cbn [time_loop]. change (is_ascii_digit 109 || (109 =? 46)) with false. rewrite (bool_decide_eq_false_2 (ds = [])) by done.
  change (109 =? 104) with false. change (109 =? 109) with true. cbn match. rewrite Ha. cbn [mbind res_bind].
  rewrite bool_decide_eq_true_2 by done. cbn [mbind res_bind]. rewrite (proj2 (Z.leb_le _ _)), (proj2 (Z.ltb_lt _ _)) by lia. done.
Qed.

Lemma time_lexes z : 0 <= z < 2 ^ 31 -> lexes (mkToken KTimeLit (bstr (pretty z))).
Proof.
  intros Hz. destruct (pretty_digits z) as [Hd Hne]; [lia|]. split; [by eexists _, _|]. intros rest _.
  unfold spell. cbn [tk_kind tk_text app]. unfold lex_step. cbn [head tail app].
  change (is_ascii_whitespace 84) with false. change (84 =? 40) with false. change (84 =? 47) with false.
  change (84 =? 37) with false. change (((84 =? 84) || (84 =? 116)) && bool_decide (Some 35 = Some 35)) with true. cbn [andb].
  unfold lex_time. rewrite span_all; [|apply time_char_digits, Hd|done]. rewrite (parse_time_ms z) by done. done.
Qed.

(** ** Addresses and operators *)

Lemma direct_lexes plane i : 0 <= i -> lexes (mkToken KDirectAddr (plane_char plane :: 58 :: bstr (pretty i))).
Proof.
  intros Hi. destruct (pretty_digits i Hi) as [[Hd _] Hne]. split; [by eexists _, _|]. intros rest _.
  unfold spell. cbn [tk_kind tk_text app]. unfold lex_step. cbn [head tail app].
  change (is_ascii_whitespace 37) with false. change (37 =? 40) with false. change (37 =? 47) with false.
  change (37 =? 37) with true. cbn [andb]. unfold lex_direct.
  assert (Hp : ascii_upper_byte (plane_char plane) = plane_char plane) by (by destruct plane).
  assert (Hm : (plane_char plane =? 73) || (plane_char plane =? 81) || (plane_char plane =? 77) || (plane_char plane =? 82) = true) by (by destruct plane).
  rewrite Hp, Hm, span_all by (by apply forall_digits || done). by rewrite bool_decide_eq_false_2 by done.
Qed.

(** The operators and punctuation of the printer. *)
Definition symbols : list Token :=
  [t_lparen; t_rparen; t_comma; t_semi; t_colon; t_assign; sym KDot "."; sym KLBracket "["; sym KRBracket "]"; sym KArrow "=>";
   sym KEq "="; sym KNe "<>"; sym KLt "<"; sym KLe "<="; sym KGt ">"; sym KGe ">="; sym KPlus "+"; sym KMinus "-"; sym KStar "*";
   sym KSlash "/"; sym KLBrace "{"; sym KRBrace "}"; sym KDotDot ".."].

Lemma symbol_lexes t : t ∈ symbols -> lexes t.
Proof.
  intros Ht. split.
  - revert t Ht. apply Forall_forall. unfold symbols. repeat constructor; by eexists _, _.
  - intros rest Hrest. revert t Ht. apply Forall_forall. unfold symbols.
    repeat (apply Forall_cons; split; [|]); [..|apply Forall_nil_2];
      (cbn [spell sym tk_kind tk_text t_lparen t_rparen t_comma t_semi t_colon t_assign]; vm_compute bstr; cbn [app]; unfold lex_step, lex_op;
       rewrite ?Hrest; reflexivity).
Qed.

(** Keywords are spelled as they are. *)
Lemma keyword_lexes k : k ∈ KEYWORDS -> lexes (kw k).
Proof.
  intros Hk. assert (Hall : forallb (fun k => bool_decide (word (bstr k) = kw k) && is_word (bstr k)) KEYWORDS = true) by (vm_compute; reflexivity).
  rewrite List.forallb_forall in Hall. destruct (andb_prop _ _ (Hall k ltac:(by apply list_elem_of_In))) as [<-%bool_decide_eq_true Hw].
  by apply word_lexes.
Qed.

(** * The compiler: from text to trees

    The text of a printed tree: its tokens, spelled and separated by spaces. The lexer
    reads the tokens back and the parser the tree: [parse_prints]. *)

(** ** Lexing a text *)

Lemma render_boundary ts : Forall lexes ts -> char_boundary (render ts) = true.
Proof. intros Hts. destruct Hts as [|t ts [(b & s & Hs & Hb) _] _]; [done|]. cbn [render flat_map]. by rewrite Hs. Qed.

Lemma lex_render ts : Forall lexes ts -> forall fuel, (length (render ts) <= fuel)%nat ->
  lex_loop fuel (render ts) = Some (Ok (ts ++ [mkToken KEof []])).
Proof.
  induction 1 as [|t ts Ht Hts IH]; intros fuel Hf; [by destruct fuel|].
  pose proof (render_boundary ts Hts) as Hb. destruct Ht as [(b & s & Hs & _) Hstep]. specialize (Hstep (render ts) Hb).
  cbn [render flat_map] in *. fold (render ts) in *. rewrite <-app_assoc in *. cbn [app] in *. rewrite length_app in Hf. cbn [length] in Hf.
  rewrite Hs in *. cbn [app length] in *. destruct fuel as [|[|fuel]]; [lia|lia|]. cbn [lex_loop]. rewrite Hstep.
  change (lex_step (32 :: render ts)) with (Ok (E := ErrorCode) (@None Token, render ts)). cbn match.
  rewrite IH by lia. done.
Qed.

(** ** Every printed token has a spelling *)

Lemma known_keyword k : bool_decide (k ∈ KEYWORDS) = true -> lexes (kw k).
Proof. intros H%bool_decide_eq_true. by apply keyword_lexes. Qed.

Lemma known_symbol t : bool_decide (t ∈ symbols) = true -> lexes t.
Proof. intros H%bool_decide_eq_true. by apply symbol_lexes. Qed.

Lemma ident_lexes w : ident_ok w = true -> lexes (word w).
Proof. intros [H _]%andb_prop. by apply word_lexes. Qed.

Lemma head_lexes w : head_ok w = true -> lexes (word w).
Proof.
  intros [[H|H]%orb_prop|H]%orb_prop; [by apply ident_lexes|..]; apply bool_decide_eq_true in H as ->; by apply word_lexes.
Qed.

Lemma field_lexes w : field_ok w = true -> lexes (word w).
Proof. intros [H _]%andb_prop. by apply word_lexes. Qed.

Local Abbreviation good := (Forall lexes).

Lemma good_flat_map {A} (f : A -> list Token) l : Forall (fun x => good (f x)) l -> good (flat_map f l).
Proof. induction 1; [done|]. by apply Forall_app. Qed.

Lemma good_commas l : Forall good l -> good (commas l).
Proof.
  intros H. destruct H as [|x l Hx Hl]; [done|]. apply Forall_app. split; [done|]. apply good_flat_map.
  eapply Forall_impl; [exact Hl|]. intros y Hy. constructor; [by apply known_symbol|done].
Qed.

(** Tokens whose spelling is decided by evaluation, or by what is known of a name. *)
Create HintDb lexes discriminated.
#[local] Hint Resolve ident_lexes head_lexes field_lexes : lexes.
#[local] Hint Extern 1 (lexes (kw _)) => apply known_keyword; vm_compute; reflexivity : lexes.
#[local] Hint Extern 1 (lexes (sym _ _)) => apply known_symbol; vm_compute; reflexivity : lexes.
#[local] Hint Extern 1 (lexes t_lparen) => apply known_symbol; vm_compute; reflexivity : lexes.
#[local] Hint Extern 1 (lexes t_rparen) => apply known_symbol; vm_compute; reflexivity : lexes.
#[local] Hint Extern 1 (lexes t_comma) => apply known_symbol; vm_compute; reflexivity : lexes.
#[local] Hint Extern 1 (lexes t_semi) => apply known_symbol; vm_compute; reflexivity : lexes.
#[local] Hint Extern 1 (lexes t_colon) => apply known_symbol; vm_compute; reflexivity : lexes.
#[local] Hint Extern 1 (lexes t_assign) => apply known_symbol; vm_compute; reflexivity : lexes.
#[local] Ltac good :=
  repeat lazymatch goal with
  | |- Forall _ [] => apply Forall_nil_2
  | |- Forall _ (_ :: _) => apply Forall_cons; split
  | |- Forall _ (_ ++ _) => apply Forall_app; split
  end; auto with lexes.

Lemma forallb_with {A} (f : A -> bool) (Q R : A -> Prop) l : forallb f l = true -> Forall Q l ->
  (forall x, f x = true -> Q x -> R x) -> Forall R l.
Proof. intros Hf HQ HR. induction HQ as [|x l Hx _ IH]; [done|]. apply andb_prop in Hf as [H1 H2]. constructor; auto. Qed.

Lemma forallb_each {A} (f : A -> bool) (R : A -> Prop) l : forallb f l = true -> (forall x, f x = true -> R x) -> Forall R l.
Proof. intros Hf HR. induction l as [|x l IH]; [done|]. apply andb_prop in Hf as [H1 H2]. constructor; auto. Qed.

Section Good.
Context (real_text : Z -> bytes).
Local Abbreviation print := (print_expr real_text).
Local Abbreviation ok := (expr_ok real_text).
Local Abbreviation prints := (print_stmt real_text).
Local Abbreviation oks := (stmt_ok real_text).

(** What is left to show of each part of a tree. *)
Definition spelled (e : Expr) : Prop := ok e = true -> good (print e).

Lemma wrap_good n e ts : good ts -> good (wrap n e ts).
Proof. intros H. unfold wrap. destruct (_ <? _)%nat; good. Qed.

Lemma literal_good l : literal_ok real_text l = true -> lexes (print_literal real_text l).
Proof.
  destruct l as [[]|v|r|ms]; cbn [print_literal literal_ok]; [auto with lexes..| | |].
  - intros [H _]%andb_prop. apply num_lexes. by apply Z.leb_le.
  - intros [[Hd Hl]%andb_prop _]%andb_prop. apply real_lexes; [done|]. by apply bool_decide_eq_true in Hl.
  - intros [H1%Z.leb_le H2%Z.ltb_lt]%andb_prop. by apply time_lexes.
Qed.

Lemma seg_good s : seg_ok ok s = true -> seg_all spelled s -> good (print_seg print s).
Proof. destruct s as [f|i]; cbn; intros Hok Hs; good. Qed.

Lemma path_good p : path_ok ok p = true -> Forall (seg_all spelled) p -> good (print_path print p).
Proof.
  destruct p as [|[h|] segs]; [done| |done]. intros [Hh Hok]%andb_prop [_ Hs]%Forall_cons. cbn [print_path].
  constructor; [auto with lexes|]. apply good_flat_map. eapply forallb_with; [exact Hok|exact Hs|apply seg_good].
Qed.

Lemma call_good c : call_ok ok c = true -> Forall (seg_all spelled) (fc_callee c) -> Forall (arg_all spelled) (fc_inputs c) ->
  Forall (out_all spelled) (fc_outputs c) -> good (print_call print c).
Proof.
  intros [[[Hp _]%andb_prop Hi]%andb_prop Ho]%andb_prop Hps His Hos. unfold print_call. apply Forall_app. split; [by apply path_good|].
  good. apply good_commas, Forall_app. split; apply Forall_map.
  - eapply forallb_with; [exact Hi|exact His|]. intros [e|x e]; cbn; [auto|]. intros [Hx He]%andb_prop Hs. good.
  - eapply forallb_with; [exact Ho|exact Hos|]. intros [x e] [Hx He]%andb_prop Hs. unfold print_out. good.
Qed.

Lemma expr_good e : spelled e.
Proof.
  induction e as [l|p Hp|op e He|op l r Hl Hr|e He|p i o Hp Hi Ho] using expr_induction; intros Hok; cbn [expr_ok print_expr] in *.
  - constructor; [by apply literal_good|constructor].
  - by apply path_good.
  - constructor; [destruct op; auto with lexes|]. by apply wrap_good, He.
  - apply andb_prop in Hok as [Hlok Hrok]. apply Forall_app. split; [by apply wrap_good, Hl|]. constructor; [destruct op; cbn [op_token]; auto with lexes|].
    by apply wrap_good, Hr.
  - specialize (He Hok). good.
  - by apply call_good.
Qed.
Hint Resolve expr_good : lexes.

Lemma call_tokens_good c : call_ok ok c = true -> good (print_call print c).
Proof. apply (expr_good (EFbCall c)). Qed.

Lemma max_good m : max_ok m = true -> good (print_max m).
Proof. destruct m as [n|]; [|done]. intros [H%Z.leb_le _]%andb_prop. cbn. good. by apply num_lexes. Qed.

(** ** Statements *)

Definition stmt_spelled (s : Stmt) : Prop := oks s = true -> good (prints s).

Lemma body_good ss : forallb oks ss = true -> Forall stmt_spelled ss -> good (print_body prints ss).
Proof. intros Hok Hs. apply good_flat_map. eapply forallb_with; [exact Hok|exact Hs|]. intros s H1 H2. by apply H2. Qed.

Lemma else_good e : (match e with Some ss => forallb oks ss | None => true end) = true -> else_all stmt_spelled e ->
  good (print_else prints e).
Proof. destruct e as [ss|]; [|done]. intros Hok Hs. cbn. good. by apply body_good. Qed.

Lemma branch_good b : ok b.1 && forallb oks b.2 = true -> Forall stmt_spelled b.2 -> good (print_branch real_text prints b).
Proof. intros [Hc Hb]%andb_prop Hs. unfold print_branch. good; [by apply expr_good|by apply body_good]. Qed.

Lemma arm_good a : arm_okb real_text a = true -> Forall stmt_spelled (ca_body a) -> good (print_arm prints a).
Proof.
  intros [[_ Hl]%andb_prop Hb]%andb_prop Hs. unfold print_arm. good; [|by apply body_good]. apply good_commas, Forall_map.
  eapply forallb_each; [exact Hl|]. intros v [Hv%Z.leb_le _]%andb_prop. good. by apply num_lexes.
Qed.

Lemma stmt_good s : stmt_spelled s.
Proof.
  induction s as [l r|c|bs e Hbs He|sel arms e Harms He|c m b Hb|v f t by_ m b Hb| |] using stmt_induction; intros Hok;
    cbn [stmt_ok print_stmt] in *.
  - apply andb_prop in Hok as [[_ Hl]%andb_prop Hr]. good; by apply expr_good.
  - good. by apply call_tokens_good.
  - destruct bs as [|b bs]; [done|]. apply andb_prop in Hok as [[_ [Hbok Hok]%andb_prop]%andb_prop Heok]. apply Forall_cons in Hbs as [Hb Hbs].
    good; [by apply branch_good| |by apply else_good]. apply good_flat_map. eapply forallb_with; [exact Hok|exact Hbs|].
    intros x Hx Hs. good. by apply branch_good.
  - apply andb_prop in Hok as [[Hsel Hok]%andb_prop Heok]. good; [by apply expr_good| |by apply else_good].
    apply good_flat_map. eapply forallb_with; [exact Hok|exact Harms|apply arm_good].
  - apply andb_prop in Hok as [[Hm Hc]%andb_prop Hok]. good; [by apply max_good|by apply expr_good|by apply body_good].
  - apply andb_prop in Hok as [[[[[Hm Hv]%andb_prop Hf]%andb_prop Ht]%andb_prop Hby]%andb_prop Hok].
    good; [by apply max_good|by apply expr_good|by apply expr_good| |by apply body_good].
    destruct by_ as [x|]; good. by apply expr_good.
  - good.
  - good.
Qed.

(** ** Declarations *)

Lemma type_good t : type_ok t = true -> good (print_type t).
Proof.
  induction t as [w|upper t IH]; cbn [type_ok print_type].
  - intros [H|H]%orb_prop; good. apply existsb_exists in H as (k & Hk & ->%bool_decide_eq_true). apply list_elem_of_In in Hk.
    assert (Hw : forallb (fun k => is_word (bstr k)) ["BOOL"; "INT"; "DINT"; "REAL"; "TIME"]%string = true) by done.
    rewrite List.forallb_forall in Hw. apply word_lexes, Hw. by apply list_elem_of_In.
  - intros [[H%Z.leb_le _]%andb_prop Ht]%andb_prop. good; by apply num_lexes.
Qed.

Lemma var_good v : var_ok real_text v = true -> good (print_var real_text v).
Proof.
  intros [[[Hw Ha]%andb_prop Ht]%andb_prop Hi]%andb_prop. unfold print_var. good.
  - destruct (vd_at v) as [[pl i]|]; [|done]. apply andb_prop in Ha as [Ha%Z.leb_le _]. cbn. good. by apply direct_lexes.
  - by apply type_good.
  - destruct (vd_init v) as [e|]; good. by apply expr_good.
Qed.

Lemma section_good s : section_ok real_text s = true -> good (print_section real_text s).
Proof.
  intros Hs. unfold print_section. good; [destruct (vs_kind s); cbn; good|]. apply good_flat_map.
  eapply forallb_each; [exact Hs|apply var_good].
Qed.

Lemma decls_good vars body end_ : bool_decide (end_ ∈ KEYWORDS) = true -> forallb (section_ok real_text) vars = true ->
  forallb oks body = true -> good (print_decls real_text vars body end_).
Proof.
  intros He Hv Hb. unfold print_decls. good; [| |by apply known_keyword].
  - apply good_flat_map. eapply forallb_each; [exact Hv|apply section_good].
  - apply body_good; [done|]. apply Forall_forall. intros s _. apply stmt_good.
Qed.

Lemma decl_good d : decl_ok real_text d = true -> good (print_decl real_text d).
Proof.
  destruct d as [p|f]; intros [Hw [Hv Hb]%andb_prop]%andb_prop; cbn [print_decl]; good; by apply decls_good.
Qed.

Lemma unit_good u : printable real_text u = true -> good (print_unit real_text u).
Proof. intros Hu. apply good_flat_map. eapply forallb_each; [exact Hu|apply decl_good]. Qed.
End Good.

(** C3: the parser inverts the printer. A tree whose names, numbers and shapes a source
    can have is printed with the parentheses its operators need, and the text, lexed and
    parsed, is that tree again: precedence, left association, unary operators, paths,
    calls, every statement, type and section. *)
Theorem parse_prints `{!LabelMemory} (real_text : Z -> bytes) (u : CompilationUnit) :
  printable real_text u = true -> CompParse.parse (render (print_unit real_text u)) = Some (Ok u).
Proof.
  intros Hu. unfold CompParse.parse, lex. rewrite lex_render by (done || by apply unit_good).
  cbn [mbind option_bind]. by apply tokens_read_back.
Qed.

(** A program with every kind of statement. *)
Definition sample_real (_ : Z) : bytes := bstr "1.5".

Definition sample_unit : CompilationUnit :=
  let n s := EName [PIdent (bstr s)] in
  let i v := ELiteral (LInt v) in
  [DFunctionBlock (mkFb (bstr "Ramp") [mkSection KInput [mkVarDecl (bstr "target") None (TNamed (bstr "REAL")) None]] [SReturn]);
   DProgram (mkProgram (bstr "main")
    [mkSection KConstant [mkVarDecl (bstr "Limit") None (TNamed (bstr "DINT")) (Some (i 7))];
     mkSection KVar [mkVarDecl (bstr "out") (Some (mkDirect DpQ 3)) (TNamed (bstr "BOOL")) None;
                     mkVarDecl (bstr "table") None (TArray 9 (TNamed (bstr "INT"))) None;
                     mkVarDecl (bstr "ramp") None (TNamed (bstr "Ramp")) None]]
    [SAssign (EName [PIdent (bstr "table"); PIndex (EBinary BAdd (n "k") (i 1))])
       (EBinary BMul (EBinary BSub (i 1) (EBinary BSub (i 2) (i 3))) (EUnary UNeg (EBinary BAdd (n "k") (i 4))));
     SFbCall (mkFbCall [PIdent (bstr "ramp")] [Named (bstr "target") (ELiteral (LReal 0x3FC00000)); Positional (ELiteral (LTimeMs 1500))]
       [mkCallOut (bstr "Q") (n "out")]);
     SIf [(EBinary BOr (n "a") (EBinary BAnd (EUnary UNot (n "b")) (EQGood (n "out"))), [SEmpty]); (ELiteral (LBool true), [])] (Some [SReturn]);
     SCase (n "k") [mkArm [1; 2] [SEmpty]; mkArm [5] []] None;
     SWhile (EBinary BLe (n "k") (i 10)) (Some 100) [SReturn];
     SFor (bstr "k") (i 0) (i 9) (Some (i 3)) None [SEmpty]])].

#[local] Instance small_memory : LabelMemory := {| label_limit := 1000 |}.

Lemma parse_prints_witness : printable sample_real sample_unit = true /\
  CompParse.parse (render (print_unit sample_real sample_unit)) = Some (Ok sample_unit).
Proof.
  assert (H : printable sample_real sample_unit = true) by (vm_compute; reflexivity).
  split; [exact H|]. apply (parse_prints sample_real sample_unit H).
Defined.
